(* ===== verification/_CoqProject ===== *)
-Q . S2P
Prelude.v
RingBuffer.v
WorkQueue.v
Pty.v
RadixTree.v
PageCache.v
PageCacheSync.v
PageCacheGet.v
Rbtree.v
RbtreeSpec.v
RbtreeBalance.v
RbtreeErase.v
RbtreeTheorems.v
Vma.v
VmaSpec.v
VmaInsert.v
VmaSearch.v
Kutils.v
Pbuf.v
WaitQueue.v
SockBuf.v
SockBufSpec.v
SockBufRead.v
SockBufStream.v
SocketWait.v
VfsPath.v
VfsMount.v
Lz4.v
Tar.v
Pmm.v
PmmLists.v
PmmInv.v
PmmSpec.v
PmmTheorems.v
PmmBoot.v
PmmClient.v
SlabMem.v
Slab.v
SlabGeom.v
SlabInv.v
SlabLists.v
SlabCore.v
SlabPage.v
SlabAlloc.v
SlabFree.v
SlabHeap.v
SlabTop.v
SlabRelease.v
SlabLarge.v
SlabSpec.v
SlabInit.v
PmmHeld.v
SlabPmm.v
SlabSession.v
SlabTheorems.v
Mmu.v
MmuWalk.v
MmuInv.v
MmuTables.v
MmuMap.v
MmuUnmap.v
MmuLookup.v
MmuCtx.v
MmuPmm.v
MmuSession.v
MmuCow.v
MmuTheorems.v
RwSem.v
Vmm.v
VmmPages.v
VmmFault.v
VmmHandler.v
VmmFork.v
VmmMap.v
VmmTheorems.v
