(* ===== verification/Prelude.v ===== *)
(** * BoredOS: a verification library for parts of the kernel

    BoredOS is a 64-bit kernel in C.  This library models components of it as
    executable definitions, one definition per C function (longer functions are cut
    at their loops), and proves what makes each of them correct.  Names follow the
    source; a doc comment says where the model departs from the text of the code.

    ** The parts and how they interact

    Memory.  [mem/pmm.c] hands out physical pages, in blocks of powers of two.  On it
    rest [mem/slab.c], which cuts pages into objects and is the kernel's [kmalloc], and
    [mem/mmu.c], which builds the page tables of address spaces from single pages.
    [mem/vma.c] keeps the areas of an address space in a list and in the augmented
    red-black tree of [core/lib/rbtree.c].  [mem/vmm.c] puts areas and page tables
    together: it maps areas, answers page faults by mapping pages, and forks an address
    space by sharing pages until one side writes.  [mem/radix_tree.c] maps the page
    indices of a file to its cached pages, and [mem/pagecache.c] keeps those pages:
    it takes them from the page allocator, stores them in the tree, tags the dirty
    ones and writes them back through the callbacks of a file system.

    Files.  [fs/vfs_path.c] normalises paths, [fs/vfs_mount.c] maps a normalised path
    to the mount that serves it.  At boot the initial file system is an archive:
    [fs/lz4.c] decompresses it and [fs/tar.c] unpacks it through the VFS.
    [core/kutils.c] has the string and number routines all of them use.

    Communication.  [sys/work_queue.c] defers work from interrupts, [sys/pty.c] has
    the pseudo-terminals, [sys/wait_queue.c] puts processes to sleep and wakes them.
    [net/sockbuf.c] queues the packets of a socket, which are the packet buffers of
    lwIP's [core/pbuf.c]; [net/unix_socket.c] receives from such a queue.

    ** How the code is modelled

    A C function is a function on an explicit state that returns an outcome [res]:
    [Ok], [Fault] for an access outside an object or through NULL, and [NoFuel] for a
    loop whose bound was too small.  Integers are [Z] with the wrap-around of their
    type written out ([u8], [u16], [u32], [u64], [i32]); addresses are [Z] with 0 for
    NULL; the heap objects of a component are a finite map from addresses; arrays are
    lists.  Loops take fuel.  The total-correctness theorems give the fuel that is
    enough, always a bound on the data structure the loop runs over (the length of a
    list or chain, the height or number of nodes of a tree), so no theorem is about a
    loop that gave up.

    Components that rest on one another meet at type classes: [PageSource] has the
    operations of the page allocator, [PageLaws] (for [kmalloc]), [FrameLaws], [RefLaws]
    and [CountLaws] (for page tables and faults) what they promise.  The theorems on the
    heap, on page tables and on faults are proved against these classes; [SlabPmm],
    [MmuPmm] and [VmmPages] show that the model of [mem/pmm.c] fulfils them, and the
    theorems that start at boot run on it.  [VfsOps] and [BoundedFifo] are interfaces of
    the same kind.

    Elsewhere code that a component only calls is a parameter or an oracle: [kmalloc] is
    the address it returns (or a list of answers), the callbacks of a file system are
    recorded answers, a work function is a function on the rest of the kernel's state
    with the calls it submits, process lookups and wake-ups are events or arguments.
    What other CPUs do to a page-table entry during a fault, or while the code waits for
    their answers to a TLB flush, is an argument.  Spin locks are not modelled as data: a
    region under one lock is one step.  Where the order of such steps matters (a receiver
    and a sender, the users of a semaphore), the model interleaves them.

    ** Files and what they show

    - [Prelude]: outcomes, loops with their rules, machine integers, arrays.
    - [RingBuffer]: index arithmetic and the FIFO of a ring, used by two components.
    - [WorkQueue] ([sys/work_queue.c]): any sequence of submits and removals is a FIFO
      of at most 63 items; the drain loop ends if the work functions submit finitely
      many items, and does not if one submits itself again.
    - [Pty] ([sys/pty.c]): bytes written to one side are the bytes read from the
      other; creation gives a free terminal; Ctrl-C without a foreground process
      drops a reference that was not taken.
    - [RadixTree] ([mem/radix_tree.c]): insertion, deletion and tagging against
      lookup on well-formed trees, gang lookups against the sorted list of entries;
      the first insertion at an index other than 0 dereferences NULL.
    - [PageCache], [PageCacheSync], [PageCacheGet] ([mem/pagecache.c]): writeback
      writes exactly the dirty pages and re-marks those that failed; a miss brings
      the page in with the right references on every failure path; the single page
      of a one-page file is not written back.
    - [Rbtree], [RbtreeSpec], [RbtreeBalance], [RbtreeErase], [RbtreeTheorems]
      ([core/lib/rbtree.c]): the pointer structure [holds] a tree with parent
      pointers and an augmentation; insertion and removal keep order and balance;
      traversal follows the in-order list; the checker is exact; one shape of
      removal leaves a dangling parent pointer.
    - [Vma], [VmaSpec], [VmaInsert], [VmaSearch] ([mem/vma.c]): the list and the tree
      of an address space agree, are sorted and disjoint, and stay so; searches for
      an area and for a free range are exact, but for one branch of the latter that does
      not look at the upper bound; after a removal of the bad shape the
      next insertion reads freed memory.
    - [Kutils] ([core/kutils.c]): strings, overlapping moves, printing and parsing of
      numbers.
    - [Pbuf] ([core/pbuf.c] of lwIP): chains of packet buffers against the bytes they
      hold: copying out, releasing, dropping leading bytes, concatenating.
    - [WaitQueue] ([sys/wait_queue.c]): the queue is a list of entries; waking makes
      exactly its processes runnable; a process that waits is woken and leaves the
      queue as it was.
    - [SockBuf], [SockBufSpec], [SockBufRead], [SockBufStream] ([net/sockbuf.c]): a
      socket buffer is a bounded FIFO of bytes, consumed entries and packets are
      freed, nothing else is touched, and reading drains it.
    - [SocketWait] ([net/unix_socket.c]): the interleaving of a blocking receive with
      a sender, and the wake-up it can lose.
    - [VfsPath] ([fs/vfs_path.c]): normalisation computes the meaning of the
      components and never overruns its buffer.
    - [VfsMount] ([fs/vfs_mount.c]): the table refines a finite map from mount points;
      resolution takes the longest one that covers the path.
    - [Lz4] ([fs/lz4.c]): decoding is memory-safe on arbitrary input whose block
      headers do not overflow the position, and inverts the encoding of any sequence of
      literals and matches.
    - [Tar] ([fs/tar.c]): unpacking installs every directory and file of a well-formed
      archive, parents first, as a specification over paths says.
    - [Pmm], [PmmLists], [PmmInv], [PmmSpec], [PmmTheorems], [PmmBoot], [PmmClient]
      ([mem/pmm.c]): an invariant that ties the descriptors, the free lists, the
      per-CPU pools and the page counts to a partition of memory into blocks; boot
      establishes it, every call keeps it, and over any legal sequence of calls no
      page is handed out twice.
    - [SlabMem], [Slab], [SlabGeom], [SlabInv], [SlabLists], [SlabCore], [SlabPage],
      [SlabAlloc], [SlabFree], [SlabHeap], [SlabTop], [SlabRelease], [SlabLarge],
      [SlabSpec], [SlabInit], [SlabSession], [SlabTheorems] ([mem/slab.c]): the state has
      the bytes of memory, and records of caches, slabs and magazines keyed by address.  The
      invariant ties the free lists inside the pages, the slab lists and the magazines to
      the set of blocks in use.  [kmalloc], [krealloc] and [kfree] refine a store of
      disjoint blocks; from boot on, every client that keeps to the contract is served
      without a fault.  The unrolled copy is a copy; sizes near 2^64 get one page, and
      colouring breaks the alignment of some classes.
    - [PmmHeld], [SlabPmm]: what a client of the page allocator may rely on while it
      holds blocks, and that the model of [mem/pmm.c] fulfils [PageLaws].
    - [Mmu], [MmuWalk], [MmuInv], [MmuTables], [MmuMap], [MmuUnmap], [MmuLookup],
      [MmuCtx], [MmuPmm], [MmuSession], [MmuCow], [MmuTheorems] ([mem/mmu.c]): the state
      has the words of memory, CR3, the contexts and the TLB operations issued.  [walk] is
      the walk of the processor, the reference for every operation on the user half: mapping,
      unmapping (with exactly the tables that are given back), protection, translation,
      creation and destruction of contexts and copy-on-write fork; from boot on, any
      sequence of permitted calls refines a store of partial maps.
    - [RwSem] ([mem/vmm.c], the semaphore of an address space): a step relation for any
      number of processes; a writer excludes all others in every interleaving; a lost
      wake-up can leave a free semaphore with everyone asleep.
    - [Vmm], [VmmPages], [VmmFault], [VmmHandler], [VmmFork], [VmmMap], [VmmTheorems]
      ([mem/vmm.c]): [vmm_map] adds one area or changes nothing; the fault handler maps a
      page on the first access, and copies or releases a shared one on a write, also when other
      CPUs change the entry; after a fork the child's writes do not reach the parent.  The
      loops over areas have the bound [steps], which the theorems require to exceed the
      number of areas.

    ** What is not modelled

    Drivers and everything else that acts on devices, descriptor tables and interrupts,
    the framebuffer, the scheduler (but for the states a wait queue changes) and system
    calls, the file systems other than the parts above, and lwIP beyond its packet
    buffers.  The kernel half of the page tables is modelled with the rest of [mem/mmu.c]
    but the theorems are about the user half; [vmalloc] and [ioremap] of [mem/vmm.c],
    which map the kernel half, are left out.  [vmm_unmap], [vmm_protect], [vmm_brk] and
    [vmm_clone_space] (beyond its call of [mmu_clone_user_cow]), [slab_cache_reap] and
    [slab_cache_destroy] are modelled without a theorem.  Interrupt masking and lock
    contention are left out, as is the weak memory order of the processor. *)

From stdpp Require Import base tactics option list numbers gmap sets.
From Stdlib Require Import ZArith Lia.

Local Open Scope Z_scope.

(** ** Outcomes of C code

    [Ok a]   the code returned [a];
    [Fault]  the code dereferenced NULL or a pointer that is not live, or it
             indexed an array out of bounds;
    [NoFuel] the loop bound given to the model was too small.  The termination
             theorems show which bounds are enough. *)

Inductive res (A : Type) : Type :=
  | Ok (a : A)
  | Fault
  | NoFuel.
Arguments Ok {A} _.
Arguments Fault {A}.
Arguments NoFuel {A}.

#[export] Instance res_ret : MRet res := @Ok.
#[export] Instance res_bind : MBind res := fun A B f m =>
  match m with Ok a => f a | Fault => Fault | NoFuel => NoFuel end.
#[export] Instance res_fmap : FMap res := fun A B f m =>
  match m with Ok a => Ok (f a) | Fault => Fault | NoFuel => NoFuel end.

Lemma Ok_inj {A} (a b : A) : Ok a = Ok b -> a = b.
Proof. by intros [= ->]. Qed.

(** [of_opt o]: a read that faults when there is nothing to read. *)
Definition of_opt {A} (o : option A) : res A :=
  match o with Some a => Ok a | None => Fault end.

(** ** Loops

    [loop fuel body s] runs [body] until it answers [inr a]; [inl s'] is one
    more iteration from [s'].  A [break], a [return] and the end of a [while]
    are all [inr]. *)

Fixpoint loop {St A : Type} (fuel : nat) (body : St -> res (St + A)) (s : St)
  : res A :=
  match fuel with
  | O => NoFuel
  | S n =>
      match body s with
      | Ok (inl s') => loop n body s'
      | Ok (inr a) => Ok a
      | Fault => Fault
      | NoFuel => NoFuel
      end
  end.

Lemma loop_S {St A : Type} n (body : St -> res (St + A)) s :
  loop (S n) body s = match body s with
                      | Ok (inl s') => loop n body s'
                      | Ok (inr a) => Ok a
                      | Fault => Fault
                      | NoFuel => NoFuel
                      end.
Proof. done. Qed.

(** The total-correctness rule: an invariant with a measure that every
    iteration decreases gives a result as soon as the fuel exceeds the measure. *)
Lemma loop_total {St A : Type} (body : St -> res (St + A))
    (P : St -> Prop) (Q : A -> Prop) (m : St -> nat) :
  (forall s, P s ->
     match body s with
     | Ok (inl s') => P s' /\ (m s' < m s)%nat
     | Ok (inr a) => Q a
     | _ => False
     end) ->
  forall fuel s, P s -> (m s < fuel)%nat ->
  exists a, loop fuel body s = Ok a /\ Q a.
Proof.
  intros Hb fuel; induction fuel as [|n IH]; intros s HP Hm; [lia|].
  simpl; specialize (Hb s HP); destruct (body s) as [[s'|a]| |]; try done.
  - destruct Hb as [HP' Hlt]; apply IH; [done|lia].
  - by exists a.
Qed.

(** The partial-correctness rule, for loops that may also fault. *)
Lemma loop_inv {St A : Type} (body : St -> res (St + A))
    (P : St -> Prop) (Q : A -> Prop) :
  (forall s s', P s -> body s = Ok (inl s') -> P s') ->
  (forall s a, P s -> body s = Ok (inr a) -> Q a) ->
  forall fuel s a, P s -> loop fuel body s = Ok a -> Q a.
Proof.
  intros H1 H2 fuel; induction fuel as [|n IH]; intros s a HP; simpl; [done|].
  destruct (body s) as [[s'|b]| |] eqn:E; intros; simplify_eq; eauto.
Qed.

(** More fuel does not change a result. *)
Lemma loop_mono {St A : Type} (body : St -> res (St + A)) n m s a :
  loop n body s = Ok a -> (n <= m)%nat -> loop m body s = Ok a.
Proof.
  revert m s; induction n as [|n IH]; intros m s; [done|].
  destruct m as [|m]; [lia|]; simpl.
  destruct (body s) as [[s'|b]| |]; intros H Hle; try done.
  apply IH; [done|lia].
Qed.

(** ** Machine integers *)

Definition u8 (z : Z) : Z := z mod 2 ^ 8.
Definition u16 (z : Z) : Z := z mod 2 ^ 16.
Definition u32 (z : Z) : Z := z mod 2 ^ 32.
Definition u64 (z : Z) : Z := z mod 2 ^ 64.

(** Two's-complement reading of a 32-bit word, the value of a C [int]. *)
Definition i32 (z : Z) : Z := (z + 2 ^ 31) mod 2 ^ 32 - 2 ^ 31.

Lemma u8_small z : 0 <= z < 2 ^ 8 -> u8 z = z.
Proof. apply Z.mod_small. Qed.
Lemma u16_small z : 0 <= z < 2 ^ 16 -> u16 z = z.
Proof. apply Z.mod_small. Qed.
Lemma u32_small z : 0 <= z < 2 ^ 32 -> u32 z = z.
Proof. apply Z.mod_small. Qed.
Lemma u64_small z : 0 <= z < 2 ^ 64 -> u64 z = z.
Proof. apply Z.mod_small. Qed.
Lemma i32_small z : - 2 ^ 31 <= z < 2 ^ 31 -> i32 z = z.
Proof. intros; unfold i32; rewrite Z.mod_small; lia. Qed.

(** ** Arrays

    A C array is a list; an index outside it is a fault. *)

Definition zget {A} (l : list A) (i : Z) : res A :=
  if decide (0 <= i) then of_opt (l !! Z.to_nat i) else Fault.

Definition zset {A} (l : list A) (i : Z) (x : A) : res (list A) :=
  if decide (0 <= i < Z.of_nat (length l)) then Ok (<[Z.to_nat i := x]> l)
  else Fault.

Lemma zget_lookup {A} (l : list A) i x :
  0 <= i -> l !! Z.to_nat i = Some x -> zget l i = Ok x.
Proof. intros H E; unfold zget; rewrite decide_True by done; by rewrite E. Qed.

Lemma zget_Ok_inv {A} (l : list A) i x :
  zget l i = Ok x -> 0 <= i < Z.of_nat (length l) /\ l !! Z.to_nat i = Some x.
Proof.
  unfold zget; case_decide; [|done].
  destruct (l !! Z.to_nat i) eqn:E; simpl; [|done].
  intros; simplify_eq; apply lookup_lt_Some in E as ?; split; [lia|done].
Qed.

Lemma zset_ok {A} (l : list A) i x :
  0 <= i < Z.of_nat (length l) -> zset l i x = Ok (<[Z.to_nat i := x]> l).
Proof. intros; unfold zset; by rewrite decide_True. Qed.

(** ** Tactics and hints *)

(** [case_res] splits on the scrutinee of the first outcome in the goal. *)
Ltac case_res :=
  match goal with
  | |- context [match ?x with Ok _ => _ | Fault => _ | NoFuel => _ end] =>
      let E := fresh "E" in destruct x eqn:E; simpl in *; try done
  end.

(** [mstep] runs one bind whose first outcome is known. *)
Ltac mstep := cbn [mbind res_bind].

Create HintDb bored.
#[export] Hint Resolve u8_small u16_small u32_small u64_small : bored.
