(* ===== verification/RingBuffer.v ===== *)
(** * Ring buffers

    Several parts of the kernel keep a bounded FIFO in a fixed array with two
    indices and leave one slot unused so that [head = tail] means empty: the
    deferred-work queue (sys/work_queue.c) and both directions of a
    pseudo-terminal (sys/pty.c).  This file relates such an array to the list
    it stores. *)

From stdpp Require Import base tactics list numbers.
From Stdlib Require Import ZArith Lia.
From S2P Require Import Prelude.

Local Open Scope Z_scope.

Section Ring.
Context {A : Type}.

(** [ring_rep n buf wr rd l]: the [n] slots of [buf], written at [wr] and
    read at [rd], hold exactly [l], oldest first. *)
Record ring_rep (n : Z) (buf : list A) (wr rd : Z) (l : list A) : Prop := {
  rr_size : Z.of_nat (length buf) = n;
  rr_rd : 0 <= rd < n;
  rr_wr : wr = (rd + Z.of_nat (length l)) mod n;
  rr_len : Z.of_nat (length l) < n;
  rr_get : forall i x, l !! i = Some x ->
    buf !! Z.to_nat ((rd + Z.of_nat i) mod n) = Some x
}.

Lemma ring_wr_range n buf wr rd l :
  ring_rep n buf wr rd l -> 0 <= wr < n.
Proof. intros [? ? -> ? ?]; apply Z.mod_pos_bound; lia. Qed.

Lemma ring_empty n buf i :
  Z.of_nat (length buf) = n -> 0 <= i < n -> ring_rep n buf i i [].
Proof.
  intros Hn Hi; split; simpl; try done; try lia.
  rewrite Z.add_0_r, Z.mod_small; lia.
Qed.

(** Two offsets inside the ring denote the same slot only when equal. *)
Lemma ring_slot_inj n t i j :
  0 <= i < n -> 0 <= j < n -> (t + i) mod n = (t + j) mod n -> i = j.
Proof.
  intros Hi Hj E.
  assert (Hd : (i - j) mod n = 0).
  { replace (i - j) with ((t + i) - (t + j)) by lia.
    rewrite Zminus_mod, E, Z.sub_diag; apply Z.mod_0_l; lia. }
  apply Z.mod_divide in Hd as [q Hq]; [|lia].
  assert (-1 < q < 1) by nia; assert (q = 0) as -> by lia; lia.
Qed.

Lemma ring_empty_iff n buf wr rd l :
  ring_rep n buf wr rd l -> (wr = rd <-> l = []).
Proof.
  intros [Hs Hrd Hwr Hlen _]; split.
  - intros E; rewrite <-(Z.mod_small rd n), <-(Z.add_0_r rd) in E at 1 by done.
    rewrite Hwr in E; destruct l as [|x l]; [done|]; exfalso.
    assert (Z.of_nat (length (x :: l)) = 0); [|simpl in *; lia].
    apply (ring_slot_inj n rd); lia.
  - intros ->; rewrite Hwr; simpl; rewrite Z.add_0_r, Z.mod_small; lia.
Qed.

Lemma ring_next n buf wr rd l :
  ring_rep n buf wr rd l ->
  (wr + 1) mod n = (rd + Z.of_nat (length l) + 1) mod n.
Proof.
  intros [_ _ -> _ _]; rewrite Zplus_mod_idemp_l; done.
Qed.

(** The writer's successor meets the reader exactly when the ring is full. *)
Lemma ring_full_iff n buf wr rd l :
  ring_rep n buf wr rd l ->
  ((wr + 1) mod n = rd <-> Z.of_nat (length l) = n - 1).
Proof.
  intros R; rewrite (ring_next n buf wr rd l R).
  destruct R as [Hs Hrd Hwr Hlen _]; split.
  - intros E; destruct (decide (Z.of_nat (length l) = n - 1)) as [|Hne]; [done|].
    assert (Z.of_nat (length l) + 1 = 0); [|lia].
    apply (ring_slot_inj n rd); [lia|lia|].
    rewrite Z.add_0_r, (Z.mod_small rd) by lia; rewrite <-E; f_equal; lia.
  - intros ->; replace (rd + (n - 1) + 1) with (rd + 1 * n) by lia.
    rewrite Z_mod_plus_full, Z.mod_small; lia.
Qed.

(** Writing one element at a ring that is not full appends it. *)
Lemma ring_push n buf wr rd l x :
  ring_rep n buf wr rd l -> Z.of_nat (length l) < n - 1 ->
  ring_rep n (<[Z.to_nat wr := x]> buf) ((wr + 1) mod n) rd (l ++ [x]).
Proof.
  intros R Hroom; pose proof (ring_wr_range _ _ _ _ _ R) as Hw.
  pose proof (ring_next _ _ _ _ _ R) as Hnx.
  destruct R as [Hs Hrd Hwr Hlen Hget]; split; try done.
  - by rewrite length_insert.
  - rewrite Hnx, length_app; simpl; f_equal; lia.
  - rewrite length_app; simpl; lia.
  - intros i y Hi.
    apply lookup_app_Some in Hi as [Hi|[Hge Hi]].
    + assert (Hlt : (i < length l)%nat) by (eapply lookup_lt_Some; eauto).
      rewrite list_lookup_insert_ne; [by apply Hget|].
      intros E; apply Z2Nat.inj in E; [|lia|apply Z.mod_pos_bound; lia].
      rewrite Hwr in E; apply (ring_slot_inj n rd) in E; lia.
    + apply list_lookup_singleton_Some in Hi as [Hi <-].
      replace i with (length l) by lia; rewrite <-Hwr.
      apply list_lookup_insert_eq; lia.
Qed.

(** Reading takes the oldest element. *)
Lemma ring_pop n buf wr rd x l :
  ring_rep n buf wr rd (x :: l) ->
  buf !! Z.to_nat rd = Some x /\ ring_rep n buf wr ((rd + 1) mod n) l.
Proof.
  intros [Hs Hrd Hwr Hlen Hget]; simpl in Hlen; split.
  - specialize (Hget 0%nat x eq_refl); simpl in Hget.
    by rewrite Z.add_0_r, Z.mod_small in Hget.
  - split; try done.
    + apply Z.mod_pos_bound; lia.
    + rewrite Hwr, Zplus_mod_idemp_l; f_equal; simpl; lia.
    + lia.
    + intros i y Hi; rewrite Zplus_mod_idemp_l.
      replace (rd + 1 + Z.of_nat i) with (rd + Z.of_nat (S i)) by lia.
      by apply Hget.
Qed.
End Ring.

(** ** The contract of a bounded queue

    What a ring promises its clients: it behaves as a list of at most [cap]
    elements.  [push] reports whether the element was accepted. *)

Class BoundedFifo (Q A : Type) (push : A -> Q -> res (bool * Q))
    (pop : Q -> res (option A * Q)) (cap : nat) := {
  fifo_rep : Q -> list A -> Prop;
  fifo_push_ok : forall q l x, fifo_rep q l ->
    exists q', push x q = Ok (bool_decide (length l < cap)%nat, q') /\
      fifo_rep q' (if decide (length l < cap)%nat then l ++ [x] else l);
  fifo_pop_ok : forall q l, fifo_rep q l ->
    exists q', pop q = Ok (head l, q') /\ fifo_rep q' (tail l)
}.

Inductive fifo_op (A : Type) := Push (x : A) | Pop.
Arguments Push {A} _.
Arguments Pop {A}.

Section FifoTraces.
Context {Q A : Type} {push : A -> Q -> res (bool * Q)}.
Context {pop : Q -> res (option A * Q)} {cap : nat}.
Context {F : BoundedFifo Q A push pop cap}.

(** A sequence of operations on the implementation: the elements accepted
    and the elements delivered, in order. *)
Fixpoint fifo_run (ops : list (fifo_op A)) (q : Q)
  : res (list A * list A * Q) :=
  match ops with
  | [] => Ok ([], [], q)
  | Push x :: ops =>
      '(ok, q') ← push x q;
      '(ins, outs, q'') ← fifo_run ops q';
      Ok (if ok : bool then x :: ins else ins, outs, q'')
  | Pop :: ops =>
      '(o, q') ← pop q;
      '(ins, outs, q'') ← fifo_run ops q';
      Ok (ins, option_list o ++ outs, q'')
  end.

(** Nothing is lost, duplicated or reordered, and nothing faults. *)
Lemma fifo_run_spec ops q l :
  fifo_rep q l ->
  exists ins outs q' l',
    fifo_run ops q = Ok (ins, outs, q') /\ fifo_rep q' l' /\
    l ++ ins = outs ++ l'.
Proof.
  revert q l; induction ops as [|op ops IH]; intros q l R.
  { exists [], [], q, l; split_and!; [done|done|by rewrite app_nil_r]. }
  destruct op as [x|]; simpl.
  - destruct (fifo_push_ok q l x R) as (q1 & -> & R1); simpl.
    destruct (IH _ _ R1) as (ins & outs & q' & l' & E & R' & Heq).
    rewrite E; simpl; do 4 eexists; split_and!; [done|done|].
    case_decide; [rewrite bool_decide_true by done|rewrite bool_decide_false by done];
      [rewrite <-Heq, <-app_assoc|]; done.
  - destruct (fifo_pop_ok q l R) as (q1 & -> & R1); simpl.
    destruct (IH _ _ R1) as (ins & outs & q' & l' & E & R' & Heq).
    rewrite E; simpl; do 4 eexists; split_and!; [done|done|].
    destruct l as [|x l]; simpl in *; [done|by rewrite Heq].
Qed.
End FifoTraces.
