(* ===== verification/WorkQueue.v ===== *)
(** * The deferred-work queue (sys/work_queue.c)

    A ring of [WORK_QUEUE_SIZE] items under one spinlock.  Every operation
    takes the lock for its whole access to the ring, so each is one atomic
    step of the model.  The work function runs outside the lock; it is code of
    the submitter, a parameter that turns the state of the rest of the kernel
    into a new one and into the calls of [work_queue_submit] it makes. *)

From stdpp Require Import base tactics list numbers.
From Stdlib Require Import ZArith Lia.
From S2P Require Import Prelude RingBuffer.

Local Open Scope Z_scope.

Definition WORK_QUEUE_SIZE : Z := 64.

(** [fn] is the function pointer ([None] is NULL), [arg] its argument. *)
Record work_item := { wi_fn : option Z; wi_arg : Z }.

Record work_queue := {
  wq_items : list work_item;
  wq_head : Z;
  wq_tail : Z
}.

Definition work_queue_init : work_queue :=
  {| wq_items := replicate 64 {| wi_fn := None; wi_arg := 0 |};
     wq_head := 0; wq_tail := 0 |}.

(** The boolean says whether the item was stored; the C function returns
    nothing and drops the item when the ring is full. *)
Definition work_queue_submit (fn : option Z) (arg : Z) (q : work_queue)
  : res (bool * work_queue) :=
  match fn with
  | None => Ok (false, q)
  | Some _ =>
      let next_tail := (wq_tail q + 1) mod WORK_QUEUE_SIZE in
      if decide (next_tail = wq_head q) then Ok (false, q)
      else
        items ← zset (wq_items q) (wq_tail q) {| wi_fn := fn; wi_arg := arg |};
        Ok (true, {| wq_items := items; wq_head := wq_head q;
                     wq_tail := next_tail |})
  end.

(** The critical section of [work_queue_drain_one]: [None] when the queue is
    empty, else the item taken out. *)
Definition work_queue_take (q : work_queue)
  : res (option work_item * work_queue) :=
  if decide (wq_head q = wq_tail q) then Ok (None, q)
  else
    item ← zget (wq_items q) (wq_head q);
    Ok (Some item, {| wq_items := wq_items q;
                      wq_head := (wq_head q + 1) mod WORK_QUEUE_SIZE;
                      wq_tail := wq_tail q |}).

(** The calls of [work_queue_submit] that a work function makes, in order. *)
Fixpoint submit_all (calls : list (option Z * Z)) (q : work_queue)
  : res work_queue :=
  match calls with
  | [] => Ok q
  | (fn, arg) :: calls =>
      '(_, q') ← work_queue_submit fn arg q; submit_all calls q'
  end.

Section Worker.
Context {W : Type}.

(** [run fn arg w]: what [fn(arg)] submits and the state it leaves. *)
Variable run : Z -> Z -> W -> list (option Z * Z) * W.

(** The item returned is the one executed; [None] is the [false] result. *)
Definition work_queue_drain_one (s : work_queue * W)
  : res (option work_item * (work_queue * W)) :=
  '(o, q) ← work_queue_take s.1;
  match o with
  | None => Ok (None, (q, s.2))
  | Some item =>
      match wi_fn item with
      | None => Ok (Some item, (q, s.2))
      | Some fn =>
          let '(calls, w) := run fn (wi_arg item) s.2 in
          q' ← submit_all calls q;
          Ok (Some item, (q', w))
      end
  end.

(** The inner [while (work_queue_drain_one())] of the worker loop: the items
    executed, until the queue reports empty. *)
Definition drain_round '(done, s)
  : res ((list work_item * (work_queue * W)) + (list work_item * (work_queue * W))) :=
  '(o, s') ← work_queue_drain_one s;
  match o with
  | None => Ok (inr (done, s'))
  | Some it => Ok (inl (done ++ [it], s'))
  end.

Definition work_queue_drain_all (fuel : nat) (s : work_queue * W)
  : res (list work_item * (work_queue * W)) :=
  loop fuel drain_round ([], s).
End Worker.

(** ** Representation *)

Definition runnable (it : work_item) : Prop := is_Some (wi_fn it).

Definition wq_rep (q : work_queue) (l : list work_item) : Prop :=
  ring_rep WORK_QUEUE_SIZE (wq_items q) (wq_tail q) (wq_head q) l /\
  Forall runnable l.

Lemma wq_rep_init : wq_rep work_queue_init [].
Proof. split; [apply ring_empty; done|constructor]. Qed.

Lemma submit_spec q l fn arg :
  wq_rep q l ->
  exists q', work_queue_submit (Some fn) arg q =
      Ok (bool_decide (length l < 63)%nat, q') /\
    wq_rep q' (if decide (length l < 63)%nat
               then l ++ [{| wi_fn := Some fn; wi_arg := arg |}] else l).
Proof.
  intros [R Hf]; unfold work_queue_submit.
  pose proof (ring_full_iff _ _ _ _ _ R) as Hfull.
  pose proof (ring_wr_range _ _ _ _ _ R) as Hw.
  pose proof (rr_len _ _ _ _ _ R) as Hlen.
  pose proof (rr_size _ _ _ _ _ R) as Hs.
  unfold WORK_QUEUE_SIZE in *.
  destruct (decide ((wq_tail q + 1) mod 64 = wq_head q)) as [E|E].
  - assert (Hn : ~ (length l < 63)%nat) by (apply Hfull in E; lia).
    exists q; by rewrite bool_decide_false, decide_False by done.
  - assert (Hn : (length l < 63)%nat).
    { destruct (decide (length l < 63)%nat); [done|].
      destruct E; apply Hfull; lia. }
    rewrite zset_ok by (rewrite Hs; done); simpl.
    eexists; rewrite bool_decide_true, decide_True by done; split; [done|].
    split; [apply ring_push; [done|unfold WORK_QUEUE_SIZE; lia]|].
    apply Forall_app; split; [done|]; repeat constructor; by eexists.
Qed.

Lemma take_spec q l :
  wq_rep q l ->
  exists q', work_queue_take q = Ok (head l, q') /\ wq_rep q' (tail l).
Proof.
  intros [R Hf]; unfold work_queue_take.
  pose proof (ring_empty_iff _ _ _ _ _ R) as He.
  destruct l as [|x l]; simpl.
  - rewrite decide_True by (symmetry; by apply He); exists q; split; [done|by split].
  - rewrite decide_False by (intros E; symmetry in E; by apply He in E).
    pose proof (rr_rd _ _ _ _ _ R) as Hrd.
    destruct (ring_pop _ _ _ _ _ _ R) as [Hx R'].
    rewrite (zget_lookup _ _ x); [|lia|done]; simpl.
    eexists; split; [done|]; split; [done|by inversion Hf].
Qed.

(** The queue as a bounded FIFO of pending calls. *)
Definition submit_item (it : Z * Z) (q : work_queue) : res (bool * work_queue) :=
  work_queue_submit (Some it.1) it.2 q.

Definition drain_item (q : work_queue) : res (option (Z * Z) * work_queue) :=
  '(o, q') ← work_queue_take q;
  Ok (o ≫= (fun it => f ← wi_fn it; Some (f, wi_arg it)), q').

Definition call_item (c : Z * Z) : work_item := {| wi_fn := Some c.1; wi_arg := c.2 |}.

#[export] Instance work_queue_fifo :
  BoundedFifo work_queue (Z * Z) submit_item drain_item 63.
Proof.
  refine {| fifo_rep q l := wq_rep q (call_item <$> l) |}.
  - intros q l [f a] R; unfold submit_item; simpl.
    destruct (submit_spec q _ f a R) as (q' & E & R').
    rewrite length_fmap in E, R'; exists q'; split; [done|].
    case_decide; [by rewrite fmap_app|done].
  - intros q l R; unfold drain_item.
    destruct (take_spec q _ R) as (q' & E & R'); rewrite E; simpl.
    exists q'; destruct l as [|[f a] l]; done.
Defined.

(** ** Properties *)

(** C32: Any sequence of submissions and removals on the kernel's work queue, from
    its initial state, in whatever order CPUs and work functions make them, runs without an out-of-bounds access; the items taken out
    followed by the items still pending are exactly the items accepted, in the
    order of submission, each once. *)
Theorem work_queue_fifo_trace (ops : list (fifo_op (Z * Z))) :
  exists ins outs q pending,
    fifo_run (push := submit_item) (pop := drain_item) ops work_queue_init
      = Ok (ins, outs, q) /\
    wq_rep q (call_item <$> pending) /\
    ins = outs ++ pending.
Proof.
  destruct (fifo_run_spec (F := work_queue_fifo) ops work_queue_init []) as
    (ins & outs & q' & l' & H1 & H2 & H3); [apply wq_rep_init|].
  by exists ins, outs, q', l'.
Qed.

(** What a list of calls adds to a queue: the calls with a function, as far as
    they fit. *)
Fixpoint accept (l : list work_item) (calls : list (option Z * Z)) : list work_item :=
  match calls with
  | [] => l
  | (None, _) :: calls => accept l calls
  | (Some fn, arg) :: calls =>
      accept (if decide (length l < 63)%nat then l ++ [call_item (fn, arg)] else l) calls
  end.

Lemma accept_extends calls l :
  exists new, accept l calls = l ++ new /\ (length new <= length calls)%nat.
Proof.
  revert l; induction calls as [|[[fn|] arg] calls IH]; intros l; simpl.
  - exists []; by rewrite app_nil_r.
  - case_decide.
    + destruct (IH (l ++ [call_item (fn, arg)])) as (new & -> & Hn).
      exists (call_item (fn, arg) :: new); rewrite <-app_assoc; simpl; split; [done|lia].
    + destruct (IH l) as (new & -> & Hn); exists new; split; [done|lia].
  - destruct (IH l) as (new & -> & Hn); exists new; split; [done|lia].
Qed.

Lemma submit_all_spec calls q l :
  wq_rep q l -> exists q', submit_all calls q = Ok q' /\ wq_rep q' (accept l calls).
Proof.
  revert q l; induction calls as [|[[fn|] arg] calls IH]; intros q l R; cbn [submit_all accept].
  - by exists q.
  - destruct (submit_spec q l fn arg R) as (q1 & -> & R1); by apply IH.
  - by apply IH.
Qed.

Section WorkerFacts.
Context {W : Type} (run : Z -> Z -> W -> list (option Z * Z) * W).

Lemma drain_one_spec q l w :
  wq_rep q l ->
  match l with
  | [] => exists q', work_queue_drain_one run (q, w) = Ok (None, (q', w)) /\ wq_rep q' []
  | it :: l => exists fn calls w' q',
      wi_fn it = Some fn /\ run fn (wi_arg it) w = (calls, w') /\
      work_queue_drain_one run (q, w) = Ok (Some it, (q', w')) /\
      wq_rep q' (accept l calls)
  end.
Proof.
  intros R; unfold work_queue_drain_one; cbn [fst snd].
  destruct (take_spec q l R) as (q1 & E & R1); rewrite E; destruct l as [|it l].
  - by exists q1.
  - destruct R as [_ Hf]; inversion Hf as [|?? [fn Hfn] _]; subst.
    destruct (run fn (wi_arg it) w) as [calls w'] eqn:Er.
    destruct (submit_all_spec calls q1 l R1) as (q2 & E2 & R2).
    exists fn, calls, w', q2; cbn; rewrite Hfn, Er; cbn; by rewrite E2.
Qed.

(** A bound on the calls that work functions still make. *)
Variable budget : W -> nat.
Hypothesis Hbudget : forall fn arg w,
  (length (run fn arg w).1 + budget (run fn arg w).2 <= budget w)%nat.

Lemma drain_all_aux n q l w done :
  wq_rep q l -> (length l + budget w < n)%nat ->
  exists more q' w', loop n (drain_round run) (done, (q, w)) = Ok (done ++ l ++ more, (q', w')) /\
    wq_rep q' [] /\ (length more + budget w' <= budget w)%nat.
Proof.
  revert q l w done; induction n as [|n IH]; intros q l w done R Hn; [lia|].
  cbn [loop drain_round]; pose proof (drain_one_spec q l w R) as Hd; destruct l as [|it l].
  - destruct Hd as (q' & -> & R'); exists [], q', w; cbn; by rewrite app_nil_r.
  - destruct Hd as (fn & calls & w' & q' & Hfn & Er & -> & R'); cbn.
    pose proof (Hbudget fn (wi_arg it) w) as Hb; rewrite Er in Hb; cbn in Hb, Hn.
    destruct (accept_extends calls l) as (new & Ha & Hl); rewrite Ha in R'.
    destruct (IH q' (l ++ new) w' (done ++ [it]) R') as (more & q2 & w2 & E & R2 & Hm).
    { rewrite length_app; lia. }
    exists (new ++ more), q2, w2; rewrite E, <-!app_assoc; cbn.
    split_and!; [done..|rewrite length_app; lia].
Qed.

End WorkerFacts.

(** A function that submits itself again keeps the loop going for ever: on a
    queue with one such item no number of iterations is enough. *)
Lemma work_queue_resubmit_diverges (n : nat) q fn arg :
  wq_rep q [call_item (fn, arg)] ->
  work_queue_drain_all (fun f a (_ : unit) => ([(Some f, a)], ())) n (q, ()) = NoFuel.
Proof.
  intros R; unfold work_queue_drain_all.
  generalize (@nil work_item) as acc.
  revert q R; induction n as [|n IH]; intros q R acc; [done|].
  destruct (drain_one_spec (fun f a (_ : unit) => ([(Some f, a)], ())) q _ () R)
    as (fn' & calls & [] & q' & Hfn & Er & E & R').
  cbn in Hfn, Er; simplify_eq; cbn [loop drain_round]; rewrite E; cbn.
  exact (IH q' R' _).
Qed.

(** Two items, of which the function 7 submits 8 with its argument as long as
    the budget lasts. *)
Definition wq3 : work_queue :=
  match submit_item (7, 1) work_queue_init with
  | Ok (_, q) => match submit_item (8, 2) q with Ok (_, q) => q | _ => q end
  | _ => work_queue_init
  end.

Definition once_more (fn arg : Z) (w : nat) : list (option Z * Z) * nat :=
  match w with
  | S w => if decide (fn = 7) then ([(Some 8, arg)], w) else ([], S w)
  | O => ([], O)
  end.

