(* ===== verification/Pty.v ===== *)
(** * Pseudo-terminals (sys/pty.c)

    A table of [PTY_MAX_COUNT] pairs, each with one byte ring per direction.
    Every operation holds the pair's spinlock (or the table's) for its whole
    access to the pair, so it is one step on the table [g_ptys].  Effects on
    other components (waking sleepers, sending signals, dropping process
    references, stores to user memory) are events in the order of the code. *)

From stdpp Require Import base tactics list numbers.
From Stdlib Require Import ZArith Lia.
From S2P Require Import Prelude RingBuffer.

Local Open Scope Z_scope.

Definition PTY_MAX_COUNT : Z := 4096.
Definition PTY_QUEUE_SIZE : Z := 4096.
Definition PTY_ID_BASE : Z := 1024.
Definition CTRL_C_CHAR : Z := 3.

Record pty_queue := { pq_buffer : list Z; pq_head : Z; pq_tail : Z }.

Record winsize := { ws_row : Z; ws_col : Z; ws_xpixel : Z; ws_ypixel : Z }.

Record pty_pair := {
  pp_id : Z;
  pp_used : bool;
  pp_m2s : pty_queue;
  pp_s2m : pty_queue;
  pp_fg_pid : Z;
  pp_ws : winsize
}.

Inductive pty_event :=
  | WakeInput (idx : Z)
  | WakeOutput (idx : Z)
  | PollRegister (idx : Z) (master : bool)
  | KillByTty (pty_id : Z)
  | SendSignal (pid sig : Z)
  | HoldProcess (pid : Z)
  | PutProcess (pid : Z)
  | SetProcessTty (pid pty_id : Z)
  | StoreWinsize (addr : Z) (ws : winsize)
  | StoreInt (addr v : Z).

(** ** Byte queues *)

Definition pty_queue_init (q : pty_queue) : pty_queue :=
  {| pq_buffer := replicate 4096 0; pq_head := 0; pq_tail := 0 |}.

Definition pty_queue_push (v : Z) (q : pty_queue) : res (bool * pty_queue) :=
  let next := u32 (pq_head q + 1) mod PTY_QUEUE_SIZE in
  if decide (next <> pq_tail q) then
    buf ← zset (pq_buffer q) (pq_head q) v;
    Ok (true, {| pq_buffer := buf; pq_head := next; pq_tail := pq_tail q |})
  else Ok (false, q).

(** The loop ends when [count] reaches [len] or the ring is empty; the list is
    what was stored in the caller's buffer, its length the C result. *)
Fixpoint pty_queue_pop (len : nat) (q : pty_queue) : res (list Z * pty_queue) :=
  match len with
  | O => Ok ([], q)
  | S n =>
      if decide (pq_head q = pq_tail q) then Ok ([], q)
      else
        b ← zget (pq_buffer q) (pq_tail q);
        '(bs, q') ← pty_queue_pop n
          {| pq_buffer := pq_buffer q; pq_head := pq_head q;
             pq_tail := u32 (pq_tail q + 1) mod PTY_QUEUE_SIZE |};
        Ok (b :: bs, q')
  end.

(** ** The table *)

Definition pty_init (ptys : list pty_pair) : list pty_pair :=
  imap (fun i p => {| pp_id := Z.of_nat i; pp_used := false; pp_m2s := pp_m2s p;
                      pp_s2m := pp_s2m p; pp_fg_pid := -1; pp_ws := pp_ws p |}) ptys.

Definition pty_is_pty_id (id : Z) : bool := bool_decide (PTY_ID_BASE <= id).

(** The index of the pair in [g_ptys]; [None] is NULL. *)
Definition pty_get (pty_id : Z) : option Z :=
  if decide (pty_id < PTY_ID_BASE) then None
  else
    let idx := pty_id - PTY_ID_BASE in
    if decide (idx < 0 \/ PTY_MAX_COUNT <= idx) then None else Some idx.

(** The scan of [pty_create] from slot [i] on. *)
Fixpoint pty_create_scan (i : Z) (ptys : list pty_pair)
  : option (Z * list pty_pair) :=
  match ptys with
  | [] => None
  | p :: ps =>
      if pp_used p then
        '(id, ps') ← pty_create_scan (i + 1) ps; Some (id, p :: ps')
      else
        Some (PTY_ID_BASE + i,
          {| pp_id := pp_id p; pp_used := true;
             pp_m2s := pty_queue_init (pp_m2s p);
             pp_s2m := pty_queue_init (pp_s2m p);
             pp_fg_pid := -1;
             pp_ws := {| ws_row := 25; ws_col := 80;
                         ws_xpixel := 640; ws_ypixel := 200 |} |} :: ps)
  end.

Definition pty_create (ptys : list pty_pair) : Z * list pty_pair :=
  match pty_create_scan 0 ptys with
  | Some (id, ptys') => (id, ptys')
  | None => (-1, ptys)
  end.

Definition set_used (b : bool) (p : pty_pair) : pty_pair :=
  {| pp_id := pp_id p; pp_used := b; pp_m2s := pp_m2s p; pp_s2m := pp_s2m p;
     pp_fg_pid := pp_fg_pid p; pp_ws := pp_ws p |}.
Definition set_fg (pid : Z) (p : pty_pair) : pty_pair :=
  {| pp_id := pp_id p; pp_used := pp_used p; pp_m2s := pp_m2s p;
     pp_s2m := pp_s2m p; pp_fg_pid := pid; pp_ws := pp_ws p |}.
Definition set_ws (ws : winsize) (p : pty_pair) : pty_pair :=
  {| pp_id := pp_id p; pp_used := pp_used p; pp_m2s := pp_m2s p;
     pp_s2m := pp_s2m p; pp_fg_pid := pp_fg_pid p; pp_ws := ws |}.
Definition set_m2s (q : pty_queue) (p : pty_pair) : pty_pair :=
  {| pp_id := pp_id p; pp_used := pp_used p; pp_m2s := q; pp_s2m := pp_s2m p;
     pp_fg_pid := pp_fg_pid p; pp_ws := pp_ws p |}.
Definition set_s2m (q : pty_queue) (p : pty_pair) : pty_pair :=
  {| pp_id := pp_id p; pp_used := pp_used p; pp_m2s := pp_m2s p; pp_s2m := q;
     pp_fg_pid := pp_fg_pid p; pp_ws := pp_ws p |}.

Definition pty_destroy (pty_id : Z) (ptys : list pty_pair)
  : res (Z * list pty_pair * list pty_event) :=
  match pty_get pty_id with
  | None => Ok (-1, ptys, [])
  | Some idx =>
      p ← zget ptys idx;
      ptys' ← zset ptys idx (set_fg (-1) (set_used false p));
      Ok (0, ptys', [WakeInput idx; WakeOutput idx; KillByTty pty_id])
  end.

(** The [for] loop of [pty_write_output]: push each byte, remember whether any
    was accepted. *)
Fixpoint push_all (data : list Z) (q : pty_queue) (pushed : bool)
  : res (bool * pty_queue) :=
  match data with
  | [] => Ok (pushed, q)
  | b :: bs =>
      '(ok, q') ← pty_queue_push (u8 b) q;
      push_all bs q' (if ok : bool then true else pushed)
  end.

Definition pty_write_output (pty_id : Z) (data : list Z) (ptys : list pty_pair)
  : res (list pty_pair * list pty_event) :=
  match pty_get pty_id with
  | None => Ok (ptys, [])
  | Some idx =>
      p ← zget ptys idx;
      if pp_used p then
        '(pushed, q) ← push_all data (pp_s2m p) false;
        ptys' ← zset ptys idx (set_s2m q p);
        Ok (ptys', if pushed : bool then [WakeOutput idx] else [])
      else Ok (ptys, [])
  end.

Definition pty_read_output (pty_id : Z) (len : nat) (ptys : list pty_pair)
  : res (list Z * list pty_pair) :=
  match pty_get pty_id with
  | None => Ok ([], ptys)
  | Some idx =>
      p ← zget ptys idx;
      if pp_used p then
        '(bs, q) ← pty_queue_pop len (pp_s2m p);
        ptys' ← zset ptys idx (set_s2m q p);
        Ok (bs, ptys')
      else Ok ([], ptys)
  end.

Definition pty_read_input (pty_id : Z) (len : nat) (ptys : list pty_pair)
  : res (list Z * list pty_pair) :=
  match pty_get pty_id with
  | None => Ok ([], ptys)
  | Some idx =>
      p ← zget ptys idx;
      if pp_used p then
        '(bs, q) ← pty_queue_pop len (pp_m2s p);
        ptys' ← zset ptys idx (set_m2s q p);
        Ok (bs, ptys')
      else Ok ([], ptys)
  end.

Definition pty_set_foreground (pty_id pid : Z) (ptys : list pty_pair)
  : res (Z * list pty_pair) :=
  match pty_get pty_id with
  | None => Ok (-1, ptys)
  | Some idx =>
      p ← zget ptys idx;
      ptys' ← zset ptys idx (set_fg pid p);
      Ok (0, ptys')
  end.

Definition pty_get_foreground (pty_id : Z) (ptys : list pty_pair) : res Z :=
  match pty_get pty_id with
  | None => Ok (-1)
  | Some idx => p ← zget ptys idx; Ok (pp_fg_pid p)
  end.

(** ** Operations that use the process table and user memory

    [get_by_pid] is [process_get_by_pid] (it takes a reference to the process
    it finds), [find_child] is [process_find_child_on_tty] (it does not),
    [current] is [process_get_current]; a process is named by its pid.
    [valid_user_ptr] is [is_valid_user_ptr]; [load_int] and [load_ws] are what
    the caller's memory holds. *)

Record pty_env := {
  get_by_pid : Z -> option Z;
  find_child : Z -> option Z;
  current : option Z;
  valid_user_ptr : Z -> Z -> bool;
  load_int : Z -> Z;
  load_ws : Z -> winsize
}.

Section WithEnv.
Context (env : pty_env).

(** One Ctrl-C byte: the new [sig_target] and the reference events. *)
Definition ctrl_c_target (pty_id fg : Z) (sig_target : option Z)
  : option Z * list pty_event :=
  let '(t1, ev1) :=
    if decide (0 < fg) then
      match get_by_pid env (u32 fg) with
      | Some pid => (Some pid, [HoldProcess pid])
      | None => (None, [])
      end
    else (sig_target, []) in
  let t2 := match t1 with Some _ => t1 | None => find_child env pty_id end in
  match t2 with
  | Some pid =>
      if decide (pid <= 1) then (None, ev1 ++ [PutProcess pid]) else (t2, ev1)
  | None => (None, ev1)
  end.

Fixpoint write_input_loop (pty_id fg : Z) (buf : list Z) (q : pty_queue)
    (pushed : bool) (sig_target : option Z)
  : res (bool * option Z * pty_queue * list pty_event) :=
  match buf with
  | [] => Ok (pushed, sig_target, q, [])
  | b :: bs =>
      let c := u8 b in
      if decide (c = CTRL_C_CHAR) then
        let '(t, ev) := ctrl_c_target pty_id fg sig_target in
        '(p', t', q', evs) ← write_input_loop pty_id fg bs q pushed t;
        Ok (p', t', q', ev ++ evs)
      else
        '(ok, q') ← pty_queue_push c q;
        write_input_loop pty_id fg bs q' (if ok : bool then true else pushed)
          sig_target
  end.

Definition pty_write_input (pty_id : Z) (buf : list Z) (ptys : list pty_pair)
  : res (Z * list pty_pair * list pty_event) :=
  match pty_get pty_id with
  | None => Ok (0, ptys, [])
  | Some idx =>
      p ← zget ptys idx;
      if pp_used p then
        '(pushed, t, q, evs) ←
          write_input_loop pty_id (pp_fg_pid p) buf (pp_m2s p) false None;
        ptys' ← zset ptys idx (set_m2s q p);
        let sig := match t with
                   | Some pid => [SendSignal pid 2; PutProcess pid]
                   | None => [] end in
        let wake := if pushed : bool then [WakeInput idx] else [] in
        Ok (i32 (Z.of_nat (length buf)), ptys', evs ++ sig ++ wake)
      else Ok (0, ptys, [])
  end.

(** [pt]: whether the caller passed a poll table with a queue procedure. *)
Definition poll_mask (idx : Z) (q : pty_queue) : Z :=
  Z.lor (if decide (pq_head q <> pq_tail q) then 1 else 0) 4.

Definition pty_poll (pty_id : Z) (pt : bool) (ptys : list pty_pair)
  : res (Z * list pty_event) :=
  match pty_get pty_id with
  | None => Ok (24, [])
  | Some idx =>
      p ← zget ptys idx;
      if pp_used p then
        Ok (poll_mask idx (pp_m2s p),
            if pt then [PollRegister idx false] else [])
      else Ok (24, [])
  end.

Definition pty_poll_master (pty_id : Z) (pt : bool) (ptys : list pty_pair)
  : res (Z * list pty_event) :=
  match pty_get pty_id with
  | None => Ok (24, [])
  | Some idx =>
      p ← zget ptys idx;
      if pp_used p then
        Ok (poll_mask idx (pp_s2m p),
            if pt then [PollRegister idx true] else [])
      else Ok (24, [])
  end.

Definition TIOCSCTTY : Z := 0x540E.
Definition TIOCGPGRP : Z := 0x540F.
Definition TIOCSPGRP : Z := 0x5410.
Definition TIOCGWINSZ : Z := 0x5413.
Definition TIOCSWINSZ : Z := 0x5414.
Definition EFAULT : Z := 14.

(** [sizeof(struct winsize)] is 8, [sizeof(int)] is 4; [arg] is an address,
    0 is NULL. *)
Definition pty_ioctl (pty_id request arg : Z) (ptys : list pty_pair)
  : res (Z * list pty_pair * list pty_event) :=
  match pty_get pty_id with
  | None => Ok (-1, ptys, [])
  | Some idx =>
    p ← zget ptys idx;
    if negb (pp_used p) then Ok (-1, ptys, [])
    else if decide (request = TIOCSCTTY) then
      match current env with
      | Some pid =>
          ptys' ← zset ptys idx (set_fg pid p);
          Ok (0, ptys', [SetProcessTty pid pty_id])
      | None => Ok (0, ptys, [])
      end
    else if decide (request = TIOCGWINSZ) then
      if decide (arg = 0) then Ok (-1, ptys, [])
      else Ok (0, ptys, [StoreWinsize arg (pp_ws p)])
    else if decide (request = TIOCSWINSZ) then
      if decide (arg = 0 \/ valid_user_ptr env arg 8 = false)
      then Ok (- EFAULT, ptys, [])
      else
        ptys' ← zset ptys idx (set_ws (load_ws env arg) p);
        Ok (0, ptys',
            if decide (0 < pp_fg_pid p) then [SendSignal (pp_fg_pid p) 28] else [])
    else if decide (request = TIOCGPGRP) then
      if decide (arg = 0 \/ valid_user_ptr env arg 4 = false)
      then Ok (- EFAULT, ptys, [])
      else Ok (0, ptys, [StoreInt arg (pp_fg_pid p)])
    else if decide (request = TIOCSPGRP) then
      if decide (arg = 0 \/ valid_user_ptr env arg 4 = false)
      then Ok (- EFAULT, ptys, [])
      else ptys' ← zset ptys idx (set_fg (load_int env arg) p); Ok (0, ptys', [])
    else if decide (request = 0x80045430 \/ request = 0x5430) then
      if decide (arg = 0 \/ valid_user_ptr env arg 4 = false)
      then Ok (- EFAULT, ptys, [])
      else Ok (0, ptys, [StoreInt arg (pty_id - PTY_ID_BASE)])
    else if decide (request = 0x40045431 \/ request = 0x5431) then Ok (0, ptys, [])
    else Ok (-1, ptys, [])
  end.
End WithEnv.

(** ** Queues as bounded FIFOs *)

Definition pq_rep (q : pty_queue) (l : list Z) : Prop :=
  ring_rep PTY_QUEUE_SIZE (pq_buffer q) (pq_head q) (pq_tail q) l.

Lemma pq_rep_init q : pq_rep (pty_queue_init q) [].
Proof. apply ring_empty; [vm_compute|]; done. Qed.

Lemma next_index i : 0 <= i < PTY_QUEUE_SIZE ->
  u32 (i + 1) mod PTY_QUEUE_SIZE = (i + 1) mod PTY_QUEUE_SIZE.
Proof. intros H; unfold PTY_QUEUE_SIZE in H; rewrite u32_small by lia; done. Qed.

(** The usable slots of a queue. *)
Definition pty_cap : nat := Z.to_nat (PTY_QUEUE_SIZE - 1).
Arguments pty_cap : simpl never.

Lemma pty_cap_Z : Z.of_nat pty_cap = 4095.
Proof. unfold pty_cap, PTY_QUEUE_SIZE; lia. Qed.

Lemma pty_queue_push_spec q l v :
  pq_rep q l ->
  exists q', pty_queue_push v q = Ok (bool_decide (length l < pty_cap)%nat, q') /\
    pq_rep q' (if decide (length l < pty_cap)%nat then l ++ [v] else l).
Proof.
  intros R; unfold pty_queue_push.
  pose proof (ring_full_iff _ _ _ _ _ R) as Hfull.
  pose proof (ring_wr_range _ _ _ _ _ R) as Hw.
  pose proof (rr_len _ _ _ _ _ R) as Hlen.
  pose proof (rr_size _ _ _ _ _ R) as Hs.
  rewrite next_index by done.
  destruct (decide ((pq_head q + 1) mod PTY_QUEUE_SIZE <> pq_tail q)) as [E|E].
  - assert (Hn : (length l < pty_cap)%nat).
    { destruct (decide (length l < pty_cap)%nat); [done|].
      destruct E; apply Hfull; pose proof pty_cap_Z; unfold PTY_QUEUE_SIZE in *; lia. }
    rewrite zset_ok by (rewrite Hs; done); simpl.
    eexists; rewrite bool_decide_true, decide_True by done; split; [done|].
    apply ring_push; [done|pose proof pty_cap_Z; unfold PTY_QUEUE_SIZE; lia].
  - assert (Hn : ~ (length l < pty_cap)%nat).
    { intros Hlt; apply E; intros E'; apply Hfull in E'.
      pose proof pty_cap_Z; unfold PTY_QUEUE_SIZE in *; lia. }
    exists q; by rewrite bool_decide_false, decide_False by done.
Qed.

Lemma pty_queue_pop_spec n q l :
  pq_rep q l ->
  exists q', pty_queue_pop n q = Ok (take n l, q') /\ pq_rep q' (drop n l).
Proof.
  revert q l; induction n as [|n IH]; intros q l R; [by exists q|].
  simpl; pose proof (ring_empty_iff _ _ _ _ _ R) as He.
  destruct l as [|x l]; simpl.
  - rewrite decide_True by (by apply He); by exists q.
  - rewrite decide_False by (intros E; by apply He in E).
    pose proof (rr_rd _ _ _ _ _ R) as Hrd.
    destruct (ring_pop _ _ _ _ _ _ R) as [Hx R'].
    rewrite (zget_lookup _ _ x); [|lia|done]; simpl.
    rewrite next_index by done.
    destruct (IH {| pq_buffer := pq_buffer q; pq_head := pq_head q;
      pq_tail := (pq_tail q + 1) mod PTY_QUEUE_SIZE |} l R') as (q' & -> & R''); simpl.
    by exists q'.
Qed.

Definition pty_queue_pop1 (q : pty_queue) : res (option Z * pty_queue) :=
  '(bs, q') ← pty_queue_pop 1 q; Ok (head bs, q').

#[export] Instance pty_queue_fifo :
  BoundedFifo pty_queue Z pty_queue_push pty_queue_pop1 pty_cap.
Proof.
  refine {| fifo_rep := pq_rep |}.
  - intros q l x R; by apply pty_queue_push_spec.
  - intros q l R; unfold pty_queue_pop1.
    destruct (pty_queue_pop_spec 1 q l R) as (q' & -> & R'); simpl.
    exists q'; destruct l; [done|]; simpl in *; by rewrite drop_0 in R'.
Defined.

(** The bytes of [data] that fit: the ring keeps the oldest and drops the rest. *)
Lemma push_all_spec data q l pushed :
  pq_rep q l ->
  exists q', push_all data q pushed =
      Ok (pushed || bool_decide (data <> [] /\ (length l < pty_cap)%nat), q') /\
    pq_rep q' (l ++ take (pty_cap - length l) (u8 <$> data)).
Proof.
  revert q l pushed; induction data as [|b data IH]; intros q l pushed R.
  { exists q; rewrite bool_decide_false, orb_false_r by (intros [? _]; done).
    split; [done|]; by rewrite fmap_nil, take_nil, app_nil_r. }
  simpl; destruct (pty_queue_push_spec q l (u8 b) R) as (q1 & -> & R1); simpl.
  destruct (decide (length l < pty_cap)%nat) as [Hlt|Hge].
  - rewrite bool_decide_true by done.
    destruct (IH q1 _ true R1) as (q' & -> & R'); simpl; exists q'.
    rewrite bool_decide_true, orb_true_r by done; split; [done|].
    rewrite length_app in R'; simpl in R'.
    replace (pty_cap - length l)%nat with (S (pty_cap - (length l + 1)))%nat by (pose proof pty_cap_Z; lia); simpl.
    by rewrite <-app_assoc in R'.
  - rewrite bool_decide_false by done.
    destruct (IH q1 _ pushed R1) as (q' & -> & R'); exists q'.
    rewrite !bool_decide_false by (intros []; done); split; [done|].
    replace (pty_cap - length l)%nat with 0%nat in * by lia; done.
Qed.

(** ** Properties *)

Lemma pty_get_some pty_id idx :
  pty_get pty_id = Some idx -> 0 <= idx < PTY_MAX_COUNT /\ pty_id = PTY_ID_BASE + idx.
Proof.
  unfold pty_get; case_decide; [done|]; case_decide; [done|].
  intros; simplify_eq; lia.
Qed.

(** C34: What a process writes to the slave side is what the master reads, in
    order: on a live pseudo-terminal whose output ring holds [l], writing [data]
    and then reading up to [n] bytes returns the first [n] bytes of [l] followed
    by the bytes of [data] that fit in the 4095 usable slots; every other pair
    is untouched. *)
Theorem pty_output_roundtrip (ptys : list pty_pair) (pty_id idx : Z)
    (p : pty_pair) (l data : list Z) (n : nat) :
  pty_get pty_id = Some idx ->
  ptys !! Z.to_nat idx = Some p -> pp_used p = true -> pq_rep (pp_s2m p) l ->
  exists ptys1 evs ptys2,
    pty_write_output pty_id data ptys = Ok (ptys1, evs) /\
    pty_read_output pty_id n ptys1 =
      Ok (take n (l ++ take (pty_cap - length l) (u8 <$> data)), ptys2) /\
    forall j, j <> Z.to_nat idx -> ptys2 !! j = ptys !! j.
Proof.
  intros Hg Hp Hu R; destruct (pty_get_some _ _ Hg) as [Hidx _].
  assert (Hlt := lookup_lt_Some _ _ _ Hp).
  destruct (push_all_spec data _ l false R) as (q1 & E1 & R1).
  destruct (pty_queue_pop_spec n q1 _ R1) as (q2 & E2 & R2).
  unfold pty_write_output, pty_read_output; rewrite Hg.
  rewrite (zget_lookup _ _ p) by (lia || done); simpl.
  rewrite Hu, E1; simpl; rewrite zset_ok by (pose proof pty_cap_Z; lia); simpl.
  do 3 eexists; split; [done|]; split.
  - rewrite (zget_lookup _ _ (set_s2m q1 p));
      [|lia|by apply list_lookup_insert_eq]; simpl.
    rewrite Hu, E2; simpl; rewrite zset_ok by (rewrite length_insert; lia); done.
  - intros j Hj; by rewrite !list_lookup_insert_ne.
Qed.

(** A one-entry table with a live pair. *)
Definition pty_demo : list pty_pair :=
  let q := {| pq_buffer := replicate 4096 0; pq_head := 0; pq_tail := 0 |} in
  let p := {| pp_id := 0; pp_used := false; pp_m2s := q; pp_s2m := q; pp_fg_pid := 0;
              pp_ws := {| ws_row := 0; ws_col := 0; ws_xpixel := 0; ws_ypixel := 0 |} |} in
  snd (pty_create (pty_init [p])).

Definition pty_demo_pair : pty_pair := default
  {| pp_id := 0; pp_used := false;
     pp_m2s := {| pq_buffer := []; pq_head := 0; pq_tail := 0 |};
     pp_s2m := {| pq_buffer := []; pq_head := 0; pq_tail := 0 |}; pp_fg_pid := 0;
     pp_ws := {| ws_row := 0; ws_col := 0; ws_xpixel := 0; ws_ypixel := 0 |} |}
  (pty_demo !! 0%nat).

Lemma pty_output_roundtrip_witness :
  exists ptys1 evs ptys2,
    pty_write_output 1024 [104; 105] pty_demo = Ok (ptys1, evs) /\
    pty_read_output 1024 1 ptys1 = Ok ([104], ptys2) /\
    forall j, j <> Z.to_nat 0 -> ptys2 !! j = pty_demo !! j.
Proof.
  apply (pty_output_roundtrip pty_demo 1024 0 pty_demo_pair [] [104; 105] 1);
    [vm_compute; reflexivity|reflexivity|reflexivity|].
  apply (pq_rep_init {| pq_buffer := []; pq_head := 0; pq_tail := 0 |}).
Defined.

Lemma pty_create_scan_spec i ptys :
  match pty_create_scan i ptys with
  | Some (id, ptys') =>
      exists k p p', id = PTY_ID_BASE + i + Z.of_nat k /\ ptys !! k = Some p /\
        pp_used p = false /\
        (forall j q, (j < k)%nat -> ptys !! j = Some q -> pp_used q = true) /\
        ptys' = <[k := p']> ptys /\ pp_used p' = true /\ pp_fg_pid p' = -1 /\
        pq_rep (pp_m2s p') [] /\ pq_rep (pp_s2m p') []
  | None => Forall (fun p => pp_used p = true) ptys
  end.
Proof.
  revert i; induction ptys as [|p ps IH]; intros i; simpl; [constructor|].
  destruct (pp_used p) eqn:Hu.
  - specialize (IH (i + 1)); destruct (pty_create_scan (i + 1) ps) as [[id ps']|]; simpl.
    + destruct IH as (k & q & q' & -> & H1 & H2 & H3 & -> & H4).
      exists (S k), q, q'; split; [lia|]; do 2 (split; [done|]); split; [|done].
      intros [|j] r Hj Hr; simpl in Hr; [by simplify_eq|]; eapply H3; eauto; lia.
    + by constructor.
  - eexists 0%nat, p, _; split_and!; try done; try apply pq_rep_init; [lia|].
    intros j q Hj; lia.
Qed.

(** [pty_create] hands out the lowest free pair and never one in use: the
    identifier it returns denotes a pair that was unused, that is now used with
    two empty rings and no foreground process, and all other pairs are unchanged;
    it returns -1, leaving the table as it is, exactly when every pair is used. *)
Theorem pty_create_fresh (ptys : list pty_pair) :
  let '(id, ptys') := pty_create ptys in
  (id = -1 /\ ptys' = ptys /\ Forall (fun p => pp_used p = true) ptys) \/
  exists k p p', id = PTY_ID_BASE + Z.of_nat k /\
    ptys !! k = Some p /\ pp_used p = false /\
    (forall j q, (j < k)%nat -> ptys !! j = Some q -> pp_used q = true) /\
    ptys' = <[k := p']> ptys /\ pp_used p' = true /\ pp_fg_pid p' = -1 /\
    pq_rep (pp_m2s p') [] /\ pq_rep (pp_s2m p') [].
Proof.
  unfold pty_create; pose proof (pty_create_scan_spec 0 ptys) as H.
  destruct (pty_create_scan 0 ptys) as [[id ptys']|]; [right|by left].
  destruct H as (k & p & p' & -> & H); exists k, p, p'; split; [lia|done].
Qed.

(** References to processes held and dropped in a list of events. *)
Fixpoint ref_balance (evs : list pty_event) : Z :=
  match evs with
  | [] => 0
  | HoldProcess _ :: evs => 1 + ref_balance evs
  | PutProcess _ :: evs => -1 + ref_balance evs
  | _ :: evs => ref_balance evs
  end.

Lemma ref_balance_app e1 e2 : ref_balance (e1 ++ e2) = ref_balance e1 + ref_balance e2.
Proof. induction e1 as [|[] e1 IH]; simpl; lia. Qed.

(** Ctrl-C on a pseudo-terminal with no foreground process drops a process
    reference that was never taken: the target comes from
    [process_find_child_on_tty], which takes none, and [pty_write_input] still
    calls [process_put] on it after sending SIGINT. *)
Theorem pty_ctrl_c_unheld_put (env : pty_env) (ptys : list pty_pair)
    (pty_id idx pid : Z) (p : pty_pair) :
  pty_get pty_id = Some idx ->
  ptys !! Z.to_nat idx = Some p -> pp_used p = true -> pp_fg_pid p <= 0 ->
  find_child env pty_id = Some pid -> 1 < pid ->
  exists ptys' evs,
    pty_write_input env pty_id [CTRL_C_CHAR] ptys = Ok (1, ptys', evs) /\
    evs = [SendSignal pid 2; PutProcess pid] /\ ref_balance evs = -1.
Proof.
  intros Hg Hp Hu Hfg Hc Hpid; destruct (pty_get_some _ _ Hg) as [Hidx _].
  assert (Hlt := lookup_lt_Some _ _ _ Hp).
  unfold pty_write_input; rewrite Hg.
  rewrite (zget_lookup _ _ p) by (lia || done); simpl; rewrite Hu.
  unfold ctrl_c_target; rewrite decide_False by lia; rewrite Hc; simpl.
  rewrite decide_False by (pose proof pty_cap_Z; lia); simpl.
  rewrite zset_ok by lia; simpl; eexists _, _; split; done.
Qed.

Lemma pty_ctrl_c_unheld_put_witness :
  exists ptys' evs,
    pty_write_input
      {| get_by_pid := fun _ => None; find_child := fun _ => Some 7; current := None;
         valid_user_ptr := fun _ _ => true; load_int := fun _ => 0;
         load_ws := fun _ => pp_ws pty_demo_pair |} 1024 [CTRL_C_CHAR] pty_demo
      = Ok (1, ptys', evs) /\
    evs = [SendSignal 7 2; PutProcess 7] /\ ref_balance evs = -1.
Proof.
  apply (pty_ctrl_c_unheld_put _ pty_demo 1024 0 7 pty_demo_pair);
    first [vm_compute; reflexivity | vm_compute; discriminate | reflexivity].
Defined.
