(* ===== verification/RadixTree.v ===== *)
(** * The page-cache radix tree (mem/radix_tree.c)

    A 64-way tree that maps 64-bit page indices to pointers, with two tag
    bitmaps per node.  A tree is owned by one root and has no sharing, so a
    [void *] slot is the inductive type [rptr]: NULL, an item, or a node; an
    update in place rebuilds the path.  Reading a slot as a node when it is not
    one is a fault.  [kmalloc] is the environment's: a list of booleans says
    which of the next calls succeed. *)

From stdpp Require Import base tactics option list numbers sorting gmap.
From Stdlib Require Import ZArith Lia.
From S2P Require Import Prelude.

Local Open Scope Z_scope.

Definition RADIX_TREE_MAP_SHIFT : Z := 6.
Definition RADIX_TREE_MAP_SIZE : Z := Z.shiftl 1 RADIX_TREE_MAP_SHIFT.
Definition RADIX_TREE_MAP_MASK : Z := RADIX_TREE_MAP_SIZE - 1.
Definition RADIX_TREE_TAG_DIRTY : nat := 0.
Definition RADIX_TREE_TAG_LOCKED : nat := 1.
Definition RADIX_TREE_MAX_TAGS : nat := 2.

Record radix_tree_node (P : Type) := RNode {
  rn_shift : Z;
  rn_count : Z;
  rn_slots : list P;
  rn_tags : list Z
}.
Arguments RNode {P} _ _ _ _.
Arguments rn_shift {P} _.
Arguments rn_count {P} _.
Arguments rn_slots {P} _.
Arguments rn_tags {P} _.

Inductive rptr : Type :=
  | PNull
  | PItem (v : Z)
  | PNode (n : radix_tree_node rptr).

Abbreviation node := (radix_tree_node rptr).

Record radix_tree_root := RRoot { rt_height : nat; rt_rnode : rptr }.

Definition is_null (p : rptr) : bool := match p with PNull => true | _ => false end.

(** [(radix_tree_node_t * )p], dereferenced. *)
Definition as_node (p : rptr) : res node :=
  match p with PNode n => Ok n | _ => Fault end.

(** [kmalloc]: the answer of the allocator and the answers left. *)
Definition kmalloc_ok (o : list bool) : bool * list bool :=
  match o with [] => (false, []) | b :: o => (b, o) end.

(** ** Helpers *)

Fixpoint init_maxindex_from (n i : nat) (max : Z) : list Z :=
  match n with
  | O => []
  | S n =>
      let max := if decide (i = 0%nat) then 0
                 else u64 (Z.lor (Z.shiftl max RADIX_TREE_MAP_SHIFT)
                                 RADIX_TREE_MAP_MASK) in
      max :: init_maxindex_from n (S i) max
  end.

Definition init_maxindex : list Z := init_maxindex_from 8 0 0.

Definition height_to_maxindex (h : nat) : res Z := of_opt (init_maxindex !! h).

Definition radix_node_alloc (shift : Z) (o : list bool)
  : option node * list bool :=
  let '(ok, o) := kmalloc_ok o in
  (if ok : bool then
     Some (RNode (u8 shift) 0 (replicate 64 PNull) (replicate RADIX_TREE_MAX_TAGS 0))
   else None, o).

Definition radix_tree_init : radix_tree_root := RRoot 0 PNull.

Definition slot_of (index shift : Z) : Z :=
  Z.land (Z.shiftr index shift) RADIX_TREE_MAP_MASK.

Definition set_slot (n : node) (i : Z) (p : rptr) (count : Z) : res node :=
  slots ← zset (rn_slots n) i p;
  Ok (RNode (rn_shift n) (u8 count) slots (rn_tags n)).

(** ** Growing the tree *)

Fixpoint extend_height (fuel h : nat) (index : Z) : res (option nat) :=
  match fuel with
  | O => NoFuel
  | S f =>
      max ← height_to_maxindex h;
      if decide (max < index) then
        if decide (8 <= S h)%nat then Ok None else extend_height f (S h) index
      else Ok (Some h)
  end.

Fixpoint extend_tags (k : nat) (height : nat) (old : rptr) (tags : list Z)
  : res (list Z) :=
  match k with
  | O => Ok tags
  | S k =>
      tags ← extend_tags k height old tags;
      if decide (0 < height)%nat then
        n ← as_node old;
        t ← of_opt (rn_tags n !! k);
        if decide (t <> 0) then
          cur ← of_opt (tags !! k); Ok (<[k := Z.lor cur 1]> tags)
        else Ok tags
      else Ok tags
  end.

(** The [do ... while (height > root->height)] loop. *)
Fixpoint extend_grow (fuel height : nat) (root : radix_tree_root) (o : list bool)
  : res (Z * radix_tree_root * list bool) :=
  match fuel with
  | O => NoFuel
  | S f =>
      let '(a, o) := radix_node_alloc (Z.of_nat (rt_height root) * RADIX_TREE_MAP_SHIFT) o in
      match a with
      | None => Ok (-1, root, o)
      | Some n =>
          n ← set_slot n 0 (rt_rnode root) 1;
          tags ← extend_tags RADIX_TREE_MAX_TAGS (rt_height root) (rt_rnode root) (rn_tags n);
          let root := RRoot (S (rt_height root))
                        (PNode (RNode (rn_shift n) (rn_count n) (rn_slots n) tags)) in
          if decide (rt_height root < height)%nat then extend_grow f height root o
          else Ok (0, root, o)
      end
  end.

Definition radix_tree_extend (root : radix_tree_root) (index : Z) (o : list bool)
  : res (Z * radix_tree_root * list bool) :=
  h ← extend_height 9 (rt_height root) index;
  match h with
  | None => Ok (-1, root, o)
  | Some height =>
      if is_null (rt_rnode root) then Ok (0, RRoot height (rt_rnode root), o)
      else extend_grow 9 height root o
  end.

(** ** Insertion *)

(** The descent of [radix_tree_insert] from a node [p] of height [h]: the C
    result, the node after the updates, the allocator's remaining answers. *)
Fixpoint insert_walk (h : nat) (p : rptr) (index item : Z) (o : list bool)
  : res (Z * rptr * list bool) :=
  n ← as_node p;
  match h with
  | O => Fault
  | S O =>
      let slot := Z.land index RADIX_TREE_MAP_MASK in
      cur ← zget (rn_slots n) slot;
      if negb (is_null cur) then Ok (-1, p, o)
      else
        n' ← set_slot n slot (PItem item) (rn_count n + 1);
        Ok (0, PNode n', o)
  | S (S _ as h') =>
      let shift := Z.of_nat h' * RADIX_TREE_MAP_SHIFT in
      let slot := slot_of index shift in
      cur ← zget (rn_slots n) slot;
      if is_null cur then
        let '(a, o) := radix_node_alloc (shift - RADIX_TREE_MAP_SHIFT) o in
        match a with
        | None => Ok (-1, p, o)
        | Some child =>
            '(r, child', o) ← insert_walk h' (PNode child) index item o;
            n' ← set_slot n slot child' (rn_count n + 1);
            Ok (r, PNode n', o)
        end
      else
        '(r, child', o) ← insert_walk h' cur index item o;
        n' ← set_slot n slot child' (rn_count n);
        Ok (r, PNode n', o)
  end.

Definition radix_tree_insert (root : radix_tree_root) (index item : Z) (o : list bool)
  : res (Z * radix_tree_root * list bool) :=
  if decide (item = 0) then Ok (-1, root, o)
  else
    max ← height_to_maxindex (rt_height root);
    '(r, root, o) ← (if decide (max < index) then radix_tree_extend root index o
                     else Ok (0, root, o));
    if decide (r < 0) then Ok (-1, root, o)
    else match rt_height root with
    | O =>
        if negb (is_null (rt_rnode root)) then Ok (-1, root, o)
        else Ok (0, RRoot 0 (PItem item), o)
    | S _ =>
        '(r, p, o) ← insert_walk (rt_height root) (rt_rnode root) index item o;
        Ok (r, RRoot (rt_height root) p, o)
    end.

(** ** Lookup *)

(** [None] is a NULL result. *)
Fixpoint lookup_walk (h : nat) (p : rptr) (index : Z) : res rptr :=
  match h with
  | O => Ok PNull
  | S h' =>
      n ← as_node p;
      cur ← zget (rn_slots n) (slot_of index (Z.of_nat h' * RADIX_TREE_MAP_SHIFT));
      if is_null cur then Ok PNull
      else if decide (h' = 0%nat) then Ok cur
      else lookup_walk h' cur index
  end.

Definition radix_tree_lookup (root : radix_tree_root) (index : Z) : res rptr :=
  if is_null (rt_rnode root) then Ok PNull
  else
    max ← height_to_maxindex (rt_height root);
    if decide (max < index) then Ok PNull
    else match rt_height root with
    | O => Ok (if decide (index = 0) then rt_rnode root else PNull)
    | S _ => lookup_walk (rt_height root) (rt_rnode root) index
    end.

(** ** Deletion *)

Definition slot_bit (slot : Z) : Z := Z.shiftl 1 slot.
Definition clear_tag_bit (t slot : Z) : Z := Z.land t (Z.lnot (slot_bit slot)).

(** [leaf->tags[tag] &= ~(1ULL << leaf_slot)] for every tag. *)
Definition clear_tags (tags : list Z) (slot : Z) : list Z :=
  (fun t => clear_tag_bit t slot) <$> tags.

(** The tag part of one round of the way back up, for tags [0..k-1]; [below] is
    the C condition [depth > 0]. *)
Fixpoint delete_up_tags (k : nat) (below : bool) (slot : Z) (cur : rptr)
    (tags : list Z) : res (list Z) :=
  match k with
  | O => Ok tags
  | S k =>
      tags ← delete_up_tags k below slot cur tags;
      t ← of_opt (tags !! k);
      if decide (Z.land t (slot_bit slot) <> 0) then
        if below then
          drop_bit ← (if is_null cur then Ok true
                      else n ← as_node cur; c ← of_opt (rn_tags n !! k);
                           Ok (bool_decide (c = 0)));
          Ok (if drop_bit : bool then <[k := clear_tag_bit t slot]> tags else tags)
        else Ok tags
      else Ok tags
  end.

(** One round of the way back up, on the node [n] through its slot [slot]. *)
Definition delete_up (below : bool) (n : node) (slot : Z) : res node :=
  cur ← zget (rn_slots n) slot;
  tags ← delete_up_tags RADIX_TREE_MAX_TAGS below slot cur (rn_tags n);
  let n := RNode (rn_shift n) (rn_count n) (rn_slots n) tags in
  if below then
    if is_null cur then Ok n
    else
      c ← as_node cur;
      if decide (rn_count c = 0) then set_slot n slot PNull (rn_count n - 1)
      else Ok n
  else Ok n.

(** The whole of [radix_tree_delete] below the root: [None] when there is no
    item, else the item and the node after the updates.  [below] tells whether
    this node is not the root's. *)
Fixpoint delete_walk (below : bool) (h : nat) (p : rptr) (index : Z)
  : res (option (rptr * rptr)) :=
  n ← as_node p;
  match h with
  | O => Fault
  | S h' =>
      let slot := slot_of index (Z.of_nat h' * RADIX_TREE_MAP_SHIFT) in
      cur ← zget (rn_slots n) slot;
      if is_null cur then Ok None
      else if decide (h' = 0%nat) then
        n ← set_slot n slot PNull (rn_count n - 1);
        n ← delete_up below
              (RNode (rn_shift n) (rn_count n) (rn_slots n)
                     (clear_tags (rn_tags n) slot)) slot;
        Ok (Some (cur, PNode n))
      else
        r ← delete_walk true h' cur index;
        match r with
        | None => Ok None
        | Some (item, child) =>
            n ← set_slot n slot child (rn_count n);
            n ← delete_up below n slot;
            Ok (Some (item, PNode n))
        end
  end.

Definition radix_tree_delete (root : radix_tree_root) (index : Z)
  : res (rptr * radix_tree_root) :=
  if is_null (rt_rnode root) then Ok (PNull, root)
  else
    max ← height_to_maxindex (rt_height root);
    if decide (max < index) then Ok (PNull, root)
    else match rt_height root with
    | O => if decide (index <> 0) then Ok (PNull, root)
           else Ok (rt_rnode root, RRoot 0 PNull)
    | S _ =>
        r ← delete_walk false (rt_height root) (rt_rnode root) index;
        match r with
        | None => Ok (PNull, root)
        | Some (item, p) =>
            n ← as_node p;
            Ok (item, if decide (rn_count n = 0) then RRoot 0 PNull
                      else RRoot (rt_height root) p)
        end
    end.

(** ** Tags *)

Definition or_tag (n : node) (tag : nat) (slot : Z) : res node :=
  t ← of_opt (rn_tags n !! tag);
  Ok (RNode (rn_shift n) (rn_count n) (rn_slots n)
            (<[tag := Z.lor t (slot_bit slot)]> (rn_tags n))).

Fixpoint tag_set_walk (h : nat) (p : rptr) (index : Z) (tag : nat) : res rptr :=
  match h with
  | O => Ok p
  | S h' =>
      n ← as_node p;
      let slot := slot_of index (Z.of_nat h' * RADIX_TREE_MAP_SHIFT) in
      n ← or_tag n tag slot;
      if decide (h' = 0%nat) then Ok (PNode n)
      else
        cur ← zget (rn_slots n) slot;
        if is_null cur then Ok (PNode n)
        else
          child ← tag_set_walk h' cur index tag;
          n ← set_slot n slot child (rn_count n);
          Ok (PNode n)
  end.

Definition radix_tree_tag_set (root : radix_tree_root) (index : Z) (tag : nat)
  : res radix_tree_root :=
  if is_null (rt_rnode root) || bool_decide (RADIX_TREE_MAX_TAGS <= tag)%nat then Ok root
  else
    max ← height_to_maxindex (rt_height root);
    if decide (max < index) then Ok root
    else if decide (rt_height root = 0%nat) then Ok root
    else
      p ← tag_set_walk (rt_height root) (rt_rnode root) index tag;
      Ok (RRoot (rt_height root) p).

(** [None]: a node on the path is missing and nothing changes.  The boolean says
    whether the loop goes on to the parent. *)
Fixpoint tag_clear_walk (h : nat) (p : rptr) (index : Z) (tag : nat)
  : res (option (rptr * bool)) :=
  match h with
  | O => Fault
  | S h' =>
      n ← as_node p;
      let slot := slot_of index (Z.of_nat h' * RADIX_TREE_MAP_SHIFT) in
      let clear (n : node) : res node :=
        t ← of_opt (rn_tags n !! tag);
        Ok (RNode (rn_shift n) (rn_count n) (rn_slots n)
                  (<[tag := clear_tag_bit t slot]> (rn_tags n))) in
      if decide (h' = 0%nat) then n ← clear n; Ok (Some (PNode n, true))
      else
        cur ← zget (rn_slots n) slot;
        if is_null cur then Ok None
        else
          r ← tag_clear_walk h' cur index tag;
          match r with
          | None => Ok None
          | Some (child, go_on) =>
              n ← set_slot n slot child (rn_count n);
              if go_on : bool then
                c ← as_node child;
                t ← of_opt (rn_tags c !! tag);
                if decide (t = 0) then n ← clear n; Ok (Some (PNode n, true))
                else Ok (Some (PNode n, false))
              else Ok (Some (PNode n, false))
          end
  end.

Definition radix_tree_tag_clear (root : radix_tree_root) (index : Z) (tag : nat)
  : res radix_tree_root :=
  if is_null (rt_rnode root) || bool_decide (RADIX_TREE_MAX_TAGS <= tag)%nat then Ok root
  else
    max ← height_to_maxindex (rt_height root);
    if decide (max < index) then Ok root
    else if decide (rt_height root = 0%nat) then Ok root
    else
      r ← tag_clear_walk (rt_height root) (rt_rnode root) index tag;
      Ok (match r with None => root | Some (p, _) => RRoot (rt_height root) p end).

Fixpoint tag_get_walk (h : nat) (p : rptr) (index : Z) (tag : nat) : res bool :=
  match h with
  | O => Ok false
  | S h' =>
      n ← as_node p;
      let slot := slot_of index (Z.of_nat h' * RADIX_TREE_MAP_SHIFT) in
      t ← of_opt (rn_tags n !! tag);
      if decide (Z.land t (slot_bit slot) = 0) then Ok false
      else if decide (h' = 0%nat) then Ok true
      else
        cur ← zget (rn_slots n) slot;
        if is_null cur then Ok false else tag_get_walk h' cur index tag
  end.

Definition radix_tree_tag_get (root : radix_tree_root) (index : Z) (tag : nat)
  : res bool :=
  if is_null (rt_rnode root) || bool_decide (RADIX_TREE_MAX_TAGS <= tag)%nat then Ok false
  else
    max ← height_to_maxindex (rt_height root);
    if decide (max < index) then Ok false
    else if decide (rt_height root = 0%nat) then Ok false
    else tag_get_walk (rt_height root) (rt_rnode root) index tag.

(** ** Gang lookup *)

(** The [for] loop of [gang_lookup_node] from slot [i] on; [acc] is [results],
    its length [found].  [tag = None] is the C value -1; [sub] is the recursive
    call on a child. *)
Fixpoint gang_loop (sub : rptr -> Z -> nat -> res (list rptr)) (n : node)
    (slots : list rptr) (i cur first_index : Z) (max_items : nat)
    (tag : option nat) (acc : list rptr) : res (list rptr) :=
  match slots with
  | [] => Ok acc
  | s :: rest =>
      let next := gang_loop sub n rest (i + 1) cur first_index max_items tag in
      let shift := rn_shift n in
      skip ← (match tag with
              | None => Ok false
              | Some k => t ← of_opt (rn_tags n !! k);
                          Ok (bool_decide (Z.land t (slot_bit i) = 0))
              end);
      if skip || is_null s then next acc
      else
        let slot_base :=
          Z.lor (Z.land cur (Z.lnot (Z.shiftl 1 (shift + RADIX_TREE_MAP_SHIFT) - 1)))
                (Z.shiftl i shift) in
        if decide (shift = 0) then
          if decide (first_index <= slot_base) then
            let acc := acc ++ [s] in
            if decide (max_items <= length acc)%nat then Ok acc else next acc
          else next acc
        else
          let slot_max := Z.lor slot_base (Z.shiftl 1 shift - 1) in
          if decide (first_index <= slot_max) then
            got ← sub s slot_base (max_items - length acc)%nat;
            let acc := acc ++ got in
            if decide (max_items <= length acc)%nat then Ok acc else next acc
          else next acc
  end.

Fixpoint gang_lookup_node (fuel : nat) (tag : option nat) (first_index : Z)
    (p : rptr) (cur : Z) (max_items : nat) : res (list rptr) :=
  match fuel with
  | O => NoFuel
  | S f =>
      if is_null p || bool_decide (max_items = 0%nat) then Ok []
      else
        n ← as_node p;
        gang_loop (gang_lookup_node f tag first_index) n (rn_slots n) 0 cur
          first_index max_items tag []
  end.

Definition radix_tree_gang_lookup (root : radix_tree_root) (first_index : Z)
    (max_items : nat) : res (list rptr) :=
  if is_null (rt_rnode root) || bool_decide (max_items = 0%nat) then Ok []
  else if decide (rt_height root = 0%nat) then
    Ok (if decide (first_index = 0) then [rt_rnode root] else [])
  else gang_lookup_node 9 None first_index (rt_rnode root) 0 max_items.

Definition radix_tree_gang_lookup_tag (root : radix_tree_root) (first_index : Z)
    (max_items : nat) (tag : nat) : res (list rptr) :=
  if is_null (rt_rnode root) || bool_decide (max_items = 0%nat)
     || bool_decide (RADIX_TREE_MAX_TAGS <= tag)%nat then Ok []
  else if decide (rt_height root = 0%nat) then Ok []
  else gang_lookup_node 9 (Some tag) first_index (rt_rnode root) 0 max_items.

(** ** Indices and slots *)

Lemma slot_of_div i s : 0 <= s -> slot_of i s = (i / 2 ^ s) mod 64.
Proof.
  intros; unfold slot_of; rewrite Z.shiftr_div_pow2 by done.
  change RADIX_TREE_MAP_MASK with (Z.ones 6); by rewrite Z.land_ones.
Qed.

Lemma slot_of_range i s : 0 <= s -> 0 <= slot_of i s < 64.
Proof. intros; rewrite slot_of_div by done; by apply Z.mod_pos_bound. Qed.

Lemma slot_of_leaf i : Z.land i RADIX_TREE_MAP_MASK = slot_of i (0 * RADIX_TREE_MAP_SHIFT).
Proof. done. Qed.

Lemma maxindex_eq h : (h < 8)%nat ->
  height_to_maxindex h = Ok (2 ^ (6 * Z.of_nat h) - 1).
Proof. intros; do 8 (destruct h as [|h]; [by vm_compute|]); lia. Qed.

(** Two indices take the same path below a node of height [h]. *)
Definition same_path (h : nat) (i j : Z) : Prop :=
  i mod 2 ^ (6 * Z.of_nat h) = j mod 2 ^ (6 * Z.of_nat h).

#[export] Instance same_path_dec h i j : Decision (same_path h i j).
Proof. unfold same_path; apply _. Defined.

Lemma same_path_S h i j :
  same_path (S h) i j <->
  slot_of i (Z.of_nat h * RADIX_TREE_MAP_SHIFT) =
    slot_of j (Z.of_nat h * RADIX_TREE_MAP_SHIFT) /\ same_path h i j.
Proof.
  unfold same_path, RADIX_TREE_MAP_SHIFT; rewrite !slot_of_div by lia.
  replace (6 * Z.of_nat (S h)) with (6 * Z.of_nat h + 6) by lia.
  rewrite Z.pow_add_r by lia; change (2 ^ 6) with 64.
  rewrite (Z.mul_comm (Z.of_nat h) 6).
  set (a := 2 ^ (6 * Z.of_nat h)); assert (0 < a) by (apply Z.pow_pos_nonneg; lia).
  rewrite !Z.rem_mul_r by lia.
  pose proof (Z.mod_pos_bound i a); pose proof (Z.mod_pos_bound j a).
  split; [|by intros [-> ->]].
  intros E; assert ((i / a) mod 64 = (j / a) mod 64) by nia; split; [done|nia].
Qed.

Lemma same_path_below h i j :
  0 <= i < 2 ^ (6 * Z.of_nat h) -> 0 <= j < 2 ^ (6 * Z.of_nat h) ->
  (same_path h i j <-> i = j).
Proof. intros; unfold same_path; rewrite !Z.mod_small by done; done. Qed.

(** ** Well-formed trees *)

Fixpoint count_slots (l : list rptr) : Z :=
  match l with
  | [] => 0
  | s :: l => (if is_null s then 0 else 1) + count_slots l
  end.

Definition node_tags (p : rptr) : list Z :=
  match p with PNode n => rn_tags n | _ => [] end.

(** [tag_closed n]: a child with a tag set is tagged in its parent. *)
Definition tag_closed (n : node) : Prop :=
  forall k i s t, rn_slots n !! i = Some s -> node_tags s !! k = Some t -> t <> 0 ->
  exists u, rn_tags n !! k = Some u /\ Z.testbit u (Z.of_nat i) = true.

(** [wf h p]: [p] is a tree of height [h]; height 0 is an item. *)
Fixpoint wf (h : nat) (p : rptr) : Prop :=
  match h with
  | O => exists v, p = PItem v /\ v <> 0
  | S h' => exists n, p = PNode n /\
      rn_shift n = 6 * Z.of_nat h' /\
      rn_count n = count_slots (rn_slots n) /\
      length (rn_slots n) = 64%nat /\
      length (rn_tags n) = 2%nat /\
      Forall (fun t => 0 <= t < 2 ^ 64) (rn_tags n) /\
      tag_closed n /\
      Forall (fun s => s = PNull \/ wf h' s) (rn_slots n)
  end.

(** The invariant of a root.  An empty tree has height 0. *)
Definition wf_root (r : radix_tree_root) : Prop :=
  (rt_height r < 8)%nat /\
  match rt_rnode r with PNull => rt_height r = 0%nat | p => wf (rt_height r) p end.

Definition to_rptr (o : option Z) : rptr :=
  match o with Some v => PItem v | None => PNull end.

(** What the tree [p] of height [h] holds at an index. *)
Fixpoint get (h : nat) (p : rptr) (i : Z) : option Z :=
  match h, p with
  | O, PItem v => Some v
  | S h', PNode n =>
      match rn_slots n !! Z.to_nat (slot_of i (Z.of_nat h' * RADIX_TREE_MAP_SHIFT)) with
      | Some s => get h' s i
      | None => None
      end
  | _, _ => None
  end.

Lemma get_null h i : get h PNull i = None.
Proof. by destruct h. Qed.

Lemma wf_nonnull h p : wf h p -> is_null p = false.
Proof. by destruct h; intros (? & -> & ?). Qed.

Lemma count_slots_insert l i x y :
  l !! i = Some y ->
  count_slots (<[i := x]> l) =
  count_slots l - (if is_null y then 0 else 1) + (if is_null x then 0 else 1).
Proof.
  revert i; induction l as [|s l IH]; intros [|i] E; simplify_eq/=; [lia|].
  rewrite (IH i) by done; lia.
Qed.

Lemma count_slots_bound l : 0 <= count_slots l <= Z.of_nat (length l).
Proof. induction l as [|[] l IH]; simpl; lia. Qed.

Lemma lookup_slot (n : node) s :
  length (rn_slots n) = 64%nat -> 0 <= s < 64 ->
  exists c, rn_slots n !! Z.to_nat s = Some c /\ zget (rn_slots n) s = Ok c.
Proof.
  intros Hl Hs; destruct (lookup_lt_is_Some_2 (rn_slots n) (Z.to_nat s)) as [c Hc]; [lia|].
  exists c; split; [done|]; apply zget_lookup; [lia|done].
Qed.

Lemma set_slot_eq (n : node) s p c :
  length (rn_slots n) = 64%nat -> 0 <= s < 64 -> 0 <= c < 256 ->
  set_slot n s p c =
  Ok (RNode (rn_shift n) c (<[Z.to_nat s := p]> (rn_slots n)) (rn_tags n)).
Proof.
  intros Hl Hs Hc; unfold set_slot; rewrite zset_ok by lia; simpl.
  by rewrite u8_small.
Qed.

(** The slot of a well-formed node that an index selects. *)
Lemma wf_slot h n i :
  wf (S h) (PNode n) ->
  exists c, zget (rn_slots n) (slot_of i (Z.of_nat h * RADIX_TREE_MAP_SHIFT)) = Ok c /\
    rn_slots n !! Z.to_nat (slot_of i (Z.of_nat h * RADIX_TREE_MAP_SHIFT)) = Some c /\
    (c = PNull \/ wf h c).
Proof.
  intros (n' & [= <-] & _ & _ & Hl & _ & _ & _ & Hf).
  destruct (lookup_slot n (slot_of i (Z.of_nat h * RADIX_TREE_MAP_SHIFT))) as (c & H1 & H2);
    [done|apply slot_of_range; unfold RADIX_TREE_MAP_SHIFT; lia|].
  exists c; split; [done|]; split; [done|]; exact (Forall_lookup_1 _ _ _ _ Hf H1).
Qed.

Lemma get_S h n i :
  get (S h) (PNode n) i =
  match rn_slots n !! Z.to_nat (slot_of i (Z.of_nat h * RADIX_TREE_MAP_SHIFT)) with
  | Some s => get h s i
  | None => None
  end.
Proof. done. Qed.

Lemma lookup_walk_S h n i :
  lookup_walk (S h) (PNode n) i =
  (cur ← zget (rn_slots n) (slot_of i (Z.of_nat h * RADIX_TREE_MAP_SHIFT));
   if is_null cur then Ok PNull
   else if decide (h = 0%nat) then Ok cur else lookup_walk h cur i).
Proof. done. Qed.

Lemma lookup_walk_get h p i :
  wf (S h) p -> lookup_walk (S h) p i = Ok (to_rptr (get (S h) p i)).
Proof.
  revert p; induction h as [|h IH]; intros p W; pose proof W as (n & -> & _);
    destruct (wf_slot _ n i W) as (c & E1 & E2 & Hc);
    rewrite lookup_walk_S, get_S, E1, E2; mstep;
    destruct Hc as [->|Hc]; try (by rewrite get_null); rewrite (wf_nonnull _ _ Hc).
  - by destruct Hc as (v & -> & _).
  - rewrite decide_False by done; by apply IH.
Qed.

(** ** Insertion *)

(** The allocator answers [true] at least [k] times. *)
Definition allocs (k : nat) (o : list bool) : Prop := replicate k true `prefix_of` o.

Lemma allocs_le k m o : (k <= m)%nat -> allocs m o -> allocs k o.
Proof.
  intros Hle [z ->]; unfold allocs; replace m with (k + (m - k))%nat by lia.
  rewrite replicate_add, <-app_assoc; by eexists.
Qed.

Lemma allocs_S k o : allocs (S k) o <-> exists o', o = true :: o' /\ allocs k o'.
Proof.
  unfold allocs; split; simpl.
  - intros [z ->]; simpl; eexists; split; [done|]; by eexists.
  - intros (o' & -> & [z ->]); by exists z.
Qed.

Lemma alloc_cases shift o :
  0 <= shift < 256 ->
  (exists o', radix_node_alloc shift o =
     (Some (RNode shift 0 (replicate 64 PNull) (replicate 2 0)), o') /\
     forall k, allocs (S k) o -> allocs k o') \/
  (exists o', radix_node_alloc shift o = (None, o') /\ forall k, ~ allocs (S k) o).
Proof.
  intros Hs; unfold radix_node_alloc, kmalloc_ok; rewrite u8_small by done.
  destruct o as [|[] o]; [right|left|right]; eexists; (split; [done|]); intros k.
  - by intros (? & ? & _)%allocs_S.
  - by intros (? & [= <-] & ?)%allocs_S.
  - by intros (? & ? & _)%allocs_S.
Qed.

Lemma wf_empty_node h :
  wf (S h) (PNode (RNode (6 * Z.of_nat h) 0 (replicate 64 PNull) (replicate 2 0))).
Proof.
  eexists; split_and!; try done.
  - repeat constructor; lia.
  - intros k i s t Hs Ht; cbn [rn_slots] in Hs; apply lookup_replicate in Hs as [-> _]; done.
  - apply Forall_replicate; by left.
Qed.

Lemma get_empty_node h i s :
  get (S h) (PNode (RNode s 0 (replicate 64 PNull) (replicate 2 0))) i = None.
Proof.
  rewrite get_S; cbn [rn_slots].
  destruct (replicate 64 PNull !! _) eqn:E; [|done].
  apply lookup_replicate in E as [-> _]; apply get_null.
Qed.

(** Replacing one slot of a well-formed node. *)
Lemma wf_set_slot h n s c x :
  wf (S h) (PNode n) -> rn_slots n !! s = Some c -> (x = PNull \/ wf h x) ->
  (forall k t, node_tags x !! k = Some t -> t <> 0 ->
     exists u, rn_tags n !! k = Some u /\ Z.testbit u (Z.of_nat s) = true) ->
  wf (S h) (PNode (RNode (rn_shift n) (count_slots (<[s := x]> (rn_slots n)))
                         (<[s := x]> (rn_slots n)) (rn_tags n))).
Proof.
  intros (n' & [= <-] & H1 & H2 & H3 & H4 & H5 & H6 & H7) Hc Hx Ht.
  eexists; split; [done|]; split_and!; [done|done|cbn [rn_slots]; by rewrite length_insert|done|done| |].
  - intros k i s' t Hs' Hk Hne; simpl in *.
    destruct (decide (i = s)) as [->|Hi].
    + rewrite list_lookup_insert_eq in Hs' by (by eapply lookup_lt_Some).
      simplify_eq; eauto.
    + rewrite list_lookup_insert_ne in Hs' by done; eauto.
  - by apply Forall_insert.
Qed.

Lemma get_set_slot h n s x i t cnt :
  length (rn_slots n) = 64%nat -> 0 <= s < 64 ->
  get (S h) (PNode (RNode t cnt (<[Z.to_nat s := x]> (rn_slots n)) (rn_tags n))) i =
  if decide (slot_of i (Z.of_nat h * RADIX_TREE_MAP_SHIFT) = s)
  then get h x i else get (S h) (PNode n) i.
Proof.
  intros Hl Hs; rewrite !get_S; simpl rn_slots.
  pose proof (slot_of_range i (Z.of_nat h * RADIX_TREE_MAP_SHIFT)) as Hr.
  unfold RADIX_TREE_MAP_SHIFT in *; case_decide as E.
  - rewrite E, list_lookup_insert_eq by lia; done.
  - rewrite list_lookup_insert_ne by lia; done.
Qed.

(** What one insertion below a node of height [h] may do. *)
Definition insert_post (h : nat) (p : rptr) (i v r : Z) (p' : rptr) : Prop :=
  (r = 0 /\ get h p i = None /\
   forall j, get h p' j = if decide (same_path h i j) then Some v else get h p j) \/
  (r = -1 /\ forall j, get h p' j = get h p j).

Lemma insert_walk_1 n i v o :
  insert_walk 1 (PNode n) i v o =
  (cur ← zget (rn_slots n) (slot_of i (0 * RADIX_TREE_MAP_SHIFT));
   if negb (is_null cur) then Ok (-1, PNode n, o)
   else
     n' ← set_slot n (slot_of i (0 * RADIX_TREE_MAP_SHIFT)) (PItem v) (rn_count n + 1);
     Ok (0, PNode n', o)).
Proof. done. Qed.

Lemma insert_walk_S h n i v o :
  insert_walk (S (S h)) (PNode n) i v o =
  (let shift := Z.of_nat (S h) * RADIX_TREE_MAP_SHIFT in
   let slot := slot_of i shift in
   cur ← zget (rn_slots n) slot;
   if is_null cur then
     let '(a, o) := radix_node_alloc (shift - RADIX_TREE_MAP_SHIFT) o in
     match a with
     | None => Ok (-1, PNode n, o)
     | Some child =>
         '(r, child', o) ← insert_walk (S h) (PNode child) i v o;
         n' ← set_slot n slot child' (rn_count n + 1);
         Ok (r, PNode n', o)
     end
   else
     '(r, child', o) ← insert_walk (S h) cur i v o;
     n' ← set_slot n slot child' (rn_count n);
     Ok (r, PNode n', o)).
Proof. done. Qed.

(** Putting the updated child back keeps the node well formed and lifts the
    child's postcondition. *)
Lemma insert_lift h n i v r c x :
  wf (S (S h)) (PNode n) ->
  rn_slots n !! Z.to_nat (slot_of i (Z.of_nat (S h) * RADIX_TREE_MAP_SHIFT)) = Some c ->
  wf (S h) x ->
  (forall k t, node_tags x !! k = Some t -> t <> 0 ->
     node_tags c !! k = Some t) ->
  insert_post (S h) c i v r x ->
  exists n', set_slot n (slot_of i (Z.of_nat (S h) * RADIX_TREE_MAP_SHIFT)) x
               (rn_count n + (if is_null c then 1 else 0)) = Ok n' /\
    wf (S (S h)) (PNode n') /\ rn_tags n' = rn_tags n /\
    insert_post (S (S h)) (PNode n) i v r (PNode n').
Proof.
  intros W Hc Hx Ht Hpost.
  pose proof W as (n' & [= <-] & _ & Hcnt & Hl & _ & _ & Hcl & _).
  set (s := slot_of i _) in *.
  assert (Hs : 0 <= s < 64) by (apply slot_of_range; unfold RADIX_TREE_MAP_SHIFT; lia).
  pose proof (count_slots_insert _ _ x _ Hc) as Hci.
  rewrite (wf_nonnull _ _ Hx) in Hci.
  pose proof (count_slots_bound (<[Z.to_nat s := x]> (rn_slots n))) as Hb.
  rewrite length_insert in Hb.
  assert (Hceq : rn_count n + (if is_null c then 1 else 0) =
                 count_slots (<[Z.to_nat s := x]> (rn_slots n))).
  { rewrite Hcnt, Hci; destruct (is_null c); lia. }
  rewrite Hceq, set_slot_eq by lia; eexists; split; [done|]; split_and!.
  - eapply wf_set_slot; eauto.
  - done.
  - destruct Hpost as [(-> & Hn & Hj)|(-> & Hj)]; [left|right]; split; try done.
    + split; [rewrite get_S; fold s; by rewrite Hc|]; intros j.
      rewrite get_set_slot by done.
      case_decide as E.
      * rewrite Hj.
        destruct (decide (same_path (S h) i j)) as [Hp|Hp].
        -- rewrite decide_True; [done|]; apply same_path_S; split; [done|done].
        -- rewrite decide_False; [|by intros [_ ?]%same_path_S].
           by rewrite (get_S (S h)), E, Hc.
      * rewrite decide_False; [done|]; intros [Hsl _]%same_path_S; done.
    + intros j; rewrite get_set_slot by done; case_decide as E; [|done].
      by rewrite Hj, (get_S (S h)), E, Hc.
Qed.

Lemma insert_walk_spec h p i v o :
  wf (S h) p -> v <> 0 -> (h < 8)%nat ->
  exists r p' o', insert_walk (S h) p i v o = Ok (r, p', o') /\
    wf (S h) p' /\ node_tags p' = node_tags p /\ insert_post (S h) p i v r p' /\
    (r = -1 -> allocs h o -> get (S h) p i <> None).
Proof.
  intros Hw Hv; revert p o Hw; induction h as [|h IH]; intros p o W Hh8;
    pose proof W as (n & -> & Hsh & Hcnt & Hl & _ & _ & _ & _);
    destruct (wf_slot _ n i W) as (c & E1 & E2 & Hc).
  - rewrite insert_walk_1; change (0 * RADIX_TREE_MAP_SHIFT) with
      (Z.of_nat 0 * RADIX_TREE_MAP_SHIFT); rewrite E1; mstep.
    destruct Hc as [->|(w & -> & Hw)]; cbn [is_null negb].
    + set (s := slot_of i _) in *.
      assert (Hs : 0 <= s < 64) by (apply slot_of_range; lia).
      pose proof (count_slots_insert _ _ (PItem v) _ E2) as Hci; simpl in Hci.
      pose proof (count_slots_bound (<[Z.to_nat s := PItem v]> (rn_slots n))) as Hb.
      rewrite length_insert in Hb.
      replace (rn_count n + 1) with
        (count_slots (<[Z.to_nat s := PItem v]> (rn_slots n))) by lia.
      rewrite set_slot_eq by lia; mstep.
      do 3 eexists; split; [done|]; split_and!; [|done| |done].
      * eapply (wf_set_slot 0); eauto; [right; by exists v|]; intros k t Ht; done.
      * left; split; [done|]; split; [rewrite get_S; fold s; by rewrite E2|]; intros j.
        rewrite (get_set_slot 0) by done.
        assert (Hiff : same_path 1 i j <-> slot_of j (Z.of_nat 0 * RADIX_TREE_MAP_SHIFT) = s).
        { rewrite same_path_S; unfold same_path, s; simpl; rewrite !Z.mod_1_r.
          split; [intros [? _]; done|intros; done]. }
        case_decide as E; [rewrite decide_True by (by apply Hiff); done|].
        rewrite decide_False by (by rewrite Hiff); done.
    + do 3 eexists; split; [done|]; split_and!; [done|done| |].
      * right; done.
      * intros _ _; by rewrite get_S, E2.
  - rewrite insert_walk_S; cbv zeta; rewrite E1; mstep.
    destruct Hc as [->|Hc].
    + simpl is_null; cbv iota.
      destruct (alloc_cases (Z.of_nat (S h) * RADIX_TREE_MAP_SHIFT - RADIX_TREE_MAP_SHIFT) o)
        as [(o1 & -> & Ho)|(o1 & -> & Ho)]; [unfold RADIX_TREE_MAP_SHIFT; lia| |].
      * replace (Z.of_nat (S h) * RADIX_TREE_MAP_SHIFT - RADIX_TREE_MAP_SHIFT)
          with (6 * Z.of_nat h) by (unfold RADIX_TREE_MAP_SHIFT; lia).
        destruct (IH _ o1 (wf_empty_node h)) as (r & p' & o' & -> & Hw' & Ht & Hp & Hr);
          [lia|]; mstep.
        destruct (insert_lift h n i v r PNull p') as (n' & Hset & Hwf & Htags & Hpost);
          [done|done|done| | |].
        -- rewrite Ht; simpl; intros [|[|k]] t; naive_solver.
        -- destruct Hp as [(? & _ & Hj)|(? & Hj)]; [left|right]; split_and!; try done;
             intros j; rewrite Hj, get_empty_node, get_null; done.
        -- simpl is_null in Hset; rewrite Hset; mstep.
           do 3 eexists; split; [done|]; split_and!; [done|done|done|].
           intros Hr1 Ha; exfalso; eapply Hr; [done|by apply Ho|apply get_empty_node].
      * do 3 eexists; split; [done|]; split_and!; [done|done|by right|].
        intros _ Ha; by destruct (Ho h).
    + rewrite (wf_nonnull _ _ Hc).
      destruct (IH _ o Hc) as (r & p' & o' & -> & Hw' & Ht & Hp & Hr); [lia|].
      mstep.
      destruct (insert_lift h n i v r c p') as (n' & Hset & Hwf & Htags & Hpost);
        [done|done|done|by rewrite Ht|done|].
      rewrite (wf_nonnull _ _ Hc), Z.add_0_r in Hset; rewrite Hset; mstep.
      do 3 eexists; split; [done|]; split_and!; [done|done|done|].
      intros Hr1 Ha; rewrite get_S, E2; apply Hr; [done|].
      eapply allocs_le; [|done]; lia.
Qed.

(** ** The whole tree *)

(** What the tree holds at an index. *)
Definition root_get (r : radix_tree_root) (j : Z) : option Z :=
  if is_null (rt_rnode r) then None
  else if decide (j < 2 ^ (6 * Z.of_nat (rt_height r)))
       then get (rt_height r) (rt_rnode r) j else None.

Lemma wf_root_cases r :
  wf_root r ->
  (r = RRoot 0 PNull) \/
  (is_null (rt_rnode r) = false /\ wf (rt_height r) (rt_rnode r) /\ (rt_height r < 8)%nat).
Proof.
  destruct r as [h [|v|n]]; intros [Hh Hw]; simpl in *; subst; [left|right|right]; done.
Qed.

Lemma wf_root_intro h p : (h < 8)%nat -> wf h p -> wf_root (RRoot h p).
Proof.
  intros Hh Hw; split; [done|]; simpl.
  pose proof (wf_nonnull _ _ Hw); by destruct p.
Qed.

Lemma pow_path_pos h : 0 < 2 ^ (6 * Z.of_nat h).
Proof. apply Z.pow_pos_nonneg; lia. Qed.

Lemma radix_tree_lookup_get r j :
  wf_root r -> 0 <= j -> radix_tree_lookup r j = Ok (to_rptr (root_get r j)).
Proof.
  intros Hw Hj; unfold radix_tree_lookup, root_get.
  destruct (wf_root_cases r Hw) as [->|(Hn & W & H8)]; [done|].
  rewrite Hn, maxindex_eq by done; mstep.
  destruct (decide (j < 2 ^ (6 * Z.of_nat (rt_height r)))) as [Hlt|Hge].
  - rewrite decide_False by lia; destruct (rt_height r) as [|h] eqn:E.
    + destruct W as (v & -> & _); simpl in Hlt; rewrite decide_True by lia; done.
    + by apply lookup_walk_get.
  - by rewrite decide_True by lia.
Qed.

Lemma extend_height_spec fuel h i :
  (h < 8)%nat -> (8 - h < fuel)%nat -> 0 <= i ->
  (2 ^ 42 <= i /\ extend_height fuel h i = Ok None) \/
  exists t, extend_height fuel h i = Ok (Some t) /\ (h <= t < 8)%nat /\
    i < 2 ^ (6 * Z.of_nat t) /\ (2 ^ (6 * Z.of_nat h) <= i -> (h < t)%nat).
Proof.
  revert h; induction fuel as [|fuel IH]; intros h Hh Hf Hi; [lia|].
  simpl; rewrite maxindex_eq by done; mstep; case_decide as E.
  - case_decide as E8.
    + left; split; [|done]; assert (h = 7)%nat as -> by lia.
      change (2 ^ (6 * Z.of_nat 7)) with (2 ^ 42) in E; lia.
    + destruct (IH (S h)) as [H|(t & -> & Ht & Hlt & _)]; [lia|lia|done|by left|].
      right; exists t; split_and!; [done|lia|lia|done|lia].
  - right; exists h; split_and!; [done|lia|lia|lia|lia].
Qed.

Definition tag_or (a : Z) : Z := if decide (a <> 0) then 1 else 0.

Lemma extend_tags_spec h p :
  wf h p ->
  exists tags, extend_tags RADIX_TREE_MAX_TAGS h p (replicate RADIX_TREE_MAX_TAGS 0) = Ok tags /\
    length tags = 2%nat /\ Forall (fun t => t = 0 \/ t = 1) tags /\
    forall k t, node_tags p !! k = Some t -> t <> 0 -> tags !! k = Some 1.
Proof.
  destruct h as [|h].
  - intros (v & -> & _); exists [0; 0]; split_and!; try done.
    repeat constructor; by left.
  - intros (n & -> & _ & _ & _ & Ht & _); destruct (rn_tags n) as [|a [|b [|]]] eqn:E; try done.
    exists [tag_or a; tag_or b]; split_and!; try done.
    + unfold RADIX_TREE_MAX_TAGS; simpl; rewrite E; simpl; unfold tag_or.
      repeat case_decide; done.
    + unfold tag_or; repeat apply Forall_cons_2; try apply Forall_nil_2; case_decide; auto.
    + simpl; rewrite E; intros [|[|k]] t; simpl; intros; simplify_eq;
        unfold tag_or; by rewrite decide_True.
Qed.

(** One more level on top: the old root becomes slot 0. *)
Lemma wf_grow h p tags :
  (h < 7)%nat -> wf h p ->
  length tags = 2%nat -> Forall (fun t => t = 0 \/ t = 1) tags ->
  (forall k t, node_tags p !! k = Some t -> t <> 0 -> tags !! k = Some 1) ->
  wf (S h) (PNode (RNode (6 * Z.of_nat h) 1 (<[0%nat := p]> (replicate 64 PNull)) tags)).
Proof.
  intros Hh W Hl Hf Ht; eexists; split; [done|]; split_and!; try done.
  - cbn [rn_slots rn_count].
    rewrite (count_slots_insert _ _ _ PNull) by done.
    by rewrite (wf_nonnull _ _ W).
  - eapply Forall_impl; [done|]; simpl; intros t [->| ->]; done.
  - intros k [|i] s t Hs Hk Hne; cbn [rn_slots rn_tags] in *.
    + rewrite list_lookup_insert_eq in Hs by (rewrite length_replicate; lia).
      simplify_eq; exists 1; split; [eauto|done].
    + rewrite list_lookup_insert_ne in Hs by done.
      apply lookup_replicate in Hs as [-> _]; done.
  - cbn [rn_slots]; apply Forall_insert; [|by right].
    apply Forall_replicate; by left.
Qed.

Lemma root_get_grow h p tags j :
  wf h p -> 0 <= j ->
  root_get (RRoot (S h) (PNode (RNode (6 * Z.of_nat h) 1
              (<[0%nat := p]> (replicate 64 PNull)) tags))) j = root_get (RRoot h p) j.
Proof.
  intros W Hj; unfold root_get; cbn [rt_rnode rt_height].
  rewrite (wf_nonnull _ _ W); cbn [is_null].
  rewrite get_S; cbn [rn_slots].
  pose proof (pow_path_pos h).
  assert (Hp : 2 ^ (6 * Z.of_nat (S h)) = 2 ^ (6 * Z.of_nat h) * 64).
  { replace (6 * Z.of_nat (S h)) with (6 * Z.of_nat h + 6) by lia.
    by rewrite Z.pow_add_r by lia. }
  rewrite slot_of_div by (unfold RADIX_TREE_MAP_SHIFT; lia).
  unfold RADIX_TREE_MAP_SHIFT; rewrite (Z.mul_comm (Z.of_nat h) 6).
  destruct (decide (j < 2 ^ (6 * Z.of_nat h))) as [Hlt|Hge].
  - rewrite decide_True by lia.
    by rewrite Z.div_small, Z.mod_0_l, list_lookup_insert_eq
      by (rewrite ?length_replicate; lia).
  - case_decide as Hs; [|done].
    assert (0 < j / 2 ^ (6 * Z.of_nat h) < 64).
    { split; [apply Z.div_str_pos; lia|apply Z.div_lt_upper_bound; lia]. }
    rewrite Z.mod_small by lia; rewrite list_lookup_insert_ne by lia.
    destruct (replicate 64 PNull !! _) eqn:E; [|done].
    apply lookup_replicate in E as [-> _]; apply get_null.
Qed.

Lemma extend_grow_S f height root o :
  extend_grow (S f) height root o =
  (let '(a, o) := radix_node_alloc (Z.of_nat (rt_height root) * RADIX_TREE_MAP_SHIFT) o in
   match a with
   | None => Ok (-1, root, o)
   | Some n =>
       n ← set_slot n 0 (rt_rnode root) 1;
       tags ← extend_tags RADIX_TREE_MAX_TAGS (rt_height root) (rt_rnode root) (rn_tags n);
       let root := RRoot (S (rt_height root))
                     (PNode (RNode (rn_shift n) (rn_count n) (rn_slots n) tags)) in
       if decide (rt_height root < height)%nat then extend_grow f height root o
       else Ok (0, root, o)
   end).
Proof. done. Qed.

Lemma extend_grow_spec fuel target r o :
  wf_root r -> is_null (rt_rnode r) = false ->
  (rt_height r < target)%nat -> (target < 8)%nat -> (target - rt_height r < fuel)%nat ->
  exists x r' o', extend_grow fuel target r o = Ok (x, r', o') /\
    wf_root r' /\ is_null (rt_rnode r') = false /\
    (forall j, 0 <= j -> root_get r' j = root_get r j) /\
    (x = 0 /\ rt_height r' = target \/ x = -1) /\
    (forall m, allocs (target - rt_height r + m) o -> x = 0 /\ allocs m o').
Proof.
  revert r o; induction fuel as [|fuel IH]; intros r o Hw Hn Hlt H8 Hf; [lia|].
  destruct (wf_root_cases r Hw) as [->|(_ & W & _)]; [done|].
  destruct r as [h p]; rewrite extend_grow_S; cbn [rt_height rt_rnode] in *.
  destruct (alloc_cases (Z.of_nat h * RADIX_TREE_MAP_SHIFT) o)
    as [(o1 & -> & Ho)|(o1 & -> & Ho)]; [unfold RADIX_TREE_MAP_SHIFT; lia| |].
  - rewrite set_slot_eq by (simpl; lia); mstep; cbn [rn_slots rn_tags rn_shift rn_count].
    destruct (extend_tags_spec h p W) as (tags & Et & Hl & Hft & Ht).
    change (replicate RADIX_TREE_MAX_TAGS 0) with (replicate 2 0) in Et.
    rewrite Et; mstep.
    replace (Z.of_nat h * RADIX_TREE_MAP_SHIFT) with (6 * Z.of_nat h)
      by (unfold RADIX_TREE_MAP_SHIFT; lia).
    change (Z.to_nat 0) with 0%nat.
    pose proof (wf_grow h p tags ltac:(lia) W Hl Hft Ht) as W'.
    set (r1 := RRoot (S h) _) in *.
    assert (Hw1 : wf_root r1) by (apply wf_root_intro; [lia|done]).
    assert (Hg1 : forall j, 0 <= j -> root_get r1 j = root_get (RRoot h p) j)
      by (intros; by apply root_get_grow).
    case_decide as Hc.
    + destruct (IH r1 o1 Hw1 eq_refl Hc H8) as (x & r' & o' & -> & A & B & C & D & E);
        [simpl; lia|].
      do 3 eexists; split; [done|]; split_and!; [done|done| |done|].
      * intros j Hj; by rewrite C, Hg1.
      * intros m Hm; apply E; apply Ho; eapply allocs_le; [|done]; simpl; lia.
    + do 3 eexists; split; [done|]; split_and!; [done|done|done| |].
      * left; split; [done|]; simpl; lia.
      * intros m Hm; split; [done|]; apply Ho; eapply allocs_le; [|done]; lia.
  - do 3 eexists; split; [done|]; split_and!; [done|done|done|by right|].
    intros m Hm; exfalso; apply (Ho 0%nat); eapply allocs_le; [|done]; lia.
Qed.

(** What an insertion does to the tree's contents. *)
Definition root_post (r : radix_tree_root) (i v x : Z) (r' : radix_tree_root) : Prop :=
  (x = 0 /\ root_get r i = None /\
   forall j, 0 <= j -> root_get r' j = if decide (i = j) then Some v else root_get r j) \/
  (x = -1 /\ forall j, 0 <= j -> root_get r' j = root_get r j).

Lemma root_post_ext r r1 i v x r' :
  0 <= i -> (forall j, 0 <= j -> root_get r1 j = root_get r j) ->
  root_post r1 i v x r' -> root_post r i v x r'.
Proof.
  intros Hi Hg [(-> & Hn & Hj)|(-> & Hj)]; [left|right]; split; try done.
  - split; [by rewrite <-Hg|]; intros j Hj0; rewrite Hj by done.
    case_decide; [done|by rewrite Hg].
  - intros j Hj0; by rewrite Hj, Hg.
Qed.

(** The part of [radix_tree_insert] after the tree is high enough. *)
Lemma insert_at_height r i v o :
  wf_root r -> is_null (rt_rnode r) = false \/ i = 0 ->
  0 <= i < 2 ^ (6 * Z.of_nat (rt_height r)) -> v <> 0 ->
  exists x r' o',
    match rt_height r with
    | O => if negb (is_null (rt_rnode r)) then Ok (-1, r, o)
           else Ok (0, RRoot 0 (PItem v), o)
    | S _ => '(x, p, o) ← insert_walk (rt_height r) (rt_rnode r) i v o;
             Ok (x, RRoot (rt_height r) p, o)
    end = Ok (x, r', o') /\ wf_root r' /\ root_post r i v x r' /\
    (x = -1 -> allocs 7 o -> root_get r i <> None).
Proof.
  intros Hw Hi0 Hi Hv; destruct (wf_root_cases r Hw) as [->|(Hn & W & H8)].
  - simpl in *; do 3 eexists; split; [done|]; split_and!; [| |done].
    + apply wf_root_intro; [lia|by exists v].
    + left; split_and!; try done; intros j Hj; unfold root_get; simpl.
      case_decide; case_decide; try done; lia.
  - destruct (rt_height r) as [|h] eqn:E.
    + rewrite Hn; do 3 eexists; split; [done|]; split_and!; [done|by right|].
      intros _ _; unfold root_get; rewrite Hn, E, decide_True by lia.
      by destruct W as (w & -> & _).
    + destruct (insert_walk_spec h (rt_rnode r) i v o W Hv ltac:(lia))
        as (x & p' & o' & -> & W' & _ & Hp & Hx); mstep.
      do 3 eexists; split; [done|]; split_and!.
      * by apply wf_root_intro.
      * unfold root_post, root_get; cbn [rt_rnode rt_height].
        rewrite Hn, E, (wf_nonnull _ _ W').
        destruct Hp as [(-> & Hnone & Hj)|(-> & Hj)]; [left|right].
        -- split; [done|]; split; [by rewrite decide_True by lia|]; intros j Hj0.
           case_decide as Hlt; [|by rewrite decide_False by lia].
           rewrite Hj; pose proof (same_path_below (S h) i j ltac:(lia) ltac:(lia)) as Hsp.
           case_decide as Hs; case_decide as Hij; tauto.
        -- split; [done|]; intros j Hj0; case_decide; [by rewrite Hj|done].
      * intros Hx1 Ha; unfold root_get; rewrite Hn, E, decide_True by lia.
        apply Hx; [done|]; eapply allocs_le; [|done]; lia.
Qed.

Lemma insert_root_spec r i v o :
  wf_root r -> 0 <= i -> v <> 0 -> rt_rnode r <> PNull \/ i = 0 ->
  exists x r' o', radix_tree_insert r i v o = Ok (x, r', o') /\ wf_root r' /\
    root_post r i v x r' /\
    (x = -1 -> allocs 14 o -> root_get r i <> None \/ 2 ^ 42 <= i).
Proof.
  intros Hw Hi Hv Hne; unfold radix_tree_insert; rewrite decide_False by done.
  assert (Hnn : is_null (rt_rnode r) = false \/ i = 0)
    by (destruct Hne; [left; by destruct (rt_rnode r)|by right]).
  pose proof Hw as [H8 _]; rewrite maxindex_eq by done; mstep.
  case_decide as Hmax.
  - assert (Hrn : is_null (rt_rnode r) = false).
    { destruct Hnn as [?| ->]; [done|]; pose proof (pow_path_pos (rt_height r)); lia. }
    unfold radix_tree_extend.
    destruct (extend_height_spec 9 (rt_height r) i) as [[Hbig ->]|(t & -> & Ht & Hit & Hgt)];
      [lia|lia|lia| |]; mstep.
    + rewrite decide_True by lia; do 3 eexists; split; [done|]; split_and!; [done| |by right].
      right; done.
    + rewrite Hrn; destruct (extend_grow_spec 9 t r o) as
        (x & r1 & o1 & -> & Hw1 & Hn1 & Hg1 & Hx1 & Ha1);
        [done|done|apply Hgt; lia|lia|lia|]; mstep.
      assert (Ha7 : allocs 14 o -> x = 0 /\ allocs 7 o1).
      { intros Ha; apply Ha1; eapply allocs_le; [|done]; lia. }
      destruct Hx1 as [[-> Hh1]| ->].
      * rewrite decide_False by lia.
        destruct (insert_at_height r1 i v o1) as (x & r' & o' & -> & Hw' & Hp & Hx);
          [done|by left|rewrite Hh1; lia|done|].
        do 3 eexists; split; [done|]; split_and!; [done|by eapply root_post_ext|].
        intros Hx1 Ha; left; rewrite <-Hg1 by lia; apply Hx; [done|]; by apply Ha7.
      * rewrite decide_True by lia; do 3 eexists; split; [done|]; split_and!; [done| |].
        -- by right.
        -- intros _ Ha; by destruct (Ha7 Ha).
  - mstep; rewrite decide_False by lia.
    destruct (insert_at_height r i v o) as (x & r' & o' & -> & Hw' & Hp & Hx);
      [done|done|lia|done|].
    do 3 eexists; split; [done|]; split_and!; [done|done|].
    intros Hx1 Ha; left; apply Hx; [done|]; eapply allocs_le; [|done]; lia.
Qed.

(** C18: Inserting into a well-formed page-cache tree never faults, provided the
    tree is not empty or the index is 0, and keeps the tree well formed.  On
    success the index was free and afterwards a lookup finds the new item there
    and, at every other index, what it found before; on failure every lookup is
    unchanged.  With memory for 14 nodes it fails only when the index is taken or
    is at least 2^42. *)
Theorem radix_tree_insert_lookup (r : radix_tree_root) (i v : Z) (o : list bool) :
  wf_root r -> 0 <= i < 2 ^ 64 -> v <> 0 -> rt_rnode r <> PNull \/ i = 0 ->
  exists x r' o', radix_tree_insert r i v o = Ok (x, r', o') /\ wf_root r' /\
    ((x = 0 /\ radix_tree_lookup r i = Ok PNull /\
      forall j, 0 <= j < 2 ^ 64 -> radix_tree_lookup r' j =
        if decide (i = j) then Ok (PItem v) else radix_tree_lookup r j) \/
     (x = -1 /\ forall j, 0 <= j < 2 ^ 64 ->
        radix_tree_lookup r' j = radix_tree_lookup r j)) /\
    (x = -1 -> allocs 14 o -> radix_tree_lookup r i <> Ok PNull \/ 2 ^ 42 <= i).
Proof.
  intros Hw Hi Hv Hne.
  destruct (insert_root_spec r i v o) as (x & r' & o' & -> & Hw' & Hp & Hx); [done|lia|done|done|].
  do 3 eexists; split; [done|]; split; [done|].
  rewrite (radix_tree_lookup_get r i) by (done || lia); split.
  - destruct Hp as [(-> & -> & Hj)|(-> & Hj)]; [left|right]; split_and!; try done;
      intros j Hj'; rewrite !radix_tree_lookup_get, Hj by (done || lia); [|done].
    by case_decide.
  - intros Hx1 Ha; destruct (Hx Hx1 Ha); [left|by right]; by destruct (root_get r i).
Qed.

(** The first insertion into an empty tree at an index other than 0 dereferences
    NULL: [radix_tree_extend] only raises the height of an empty root, and
    [radix_tree_insert] then reads the slots of a root node that was never
    allocated. *)
Theorem radix_tree_insert_empty_faults (i v : Z) (o : list bool) :
  0 < i < 2 ^ 42 -> v <> 0 -> radix_tree_insert radix_tree_init i v o = Fault.
Proof.
  intros Hi Hv; unfold radix_tree_insert, radix_tree_init; rewrite decide_False by done.
  cbn [rt_height rt_rnode]; rewrite maxindex_eq by lia; mstep.
  rewrite decide_True by (simpl; lia); unfold radix_tree_extend; cbn [rt_height].
  destruct (extend_height_spec 9 0 i) as [[? _]|(t & -> & Ht & Hit & _)]; [lia|lia|lia|lia|].
  mstep; cbn [rt_rnode is_null]; mstep; rewrite decide_False by lia; cbn [rt_height rt_rnode].
  destruct t as [|t]; [simpl in Hit; lia|done].
Qed.

Definition item100 : radix_tree_root := RRoot 0 (PItem 100).

Lemma radix_tree_insert_lookup_witness :
  exists x r' o', radix_tree_insert item100 65 200 (replicate 14 true) = Ok (x, r', o') /\
    wf_root r' /\
    ((x = 0 /\ radix_tree_lookup item100 65 = Ok PNull /\
      forall j, 0 <= j < 2 ^ 64 -> radix_tree_lookup r' j =
        if decide (65 = j) then Ok (PItem 200) else radix_tree_lookup item100 j) \/
     (x = -1 /\ forall j, 0 <= j < 2 ^ 64 ->
        radix_tree_lookup r' j = radix_tree_lookup item100 j)) /\
    (x = -1 -> allocs 14 (replicate 14 true) ->
       radix_tree_lookup item100 65 <> Ok PNull \/ 2 ^ 42 <= 65).
Proof.
  apply radix_tree_insert_lookup; [split; [vm_compute; lia|by exists 100]|lia|lia|by left].
Defined.

Lemma radix_tree_insert_empty_faults_witness :
  0 < 5 < 2 ^ 42 /\ radix_tree_insert radix_tree_init 5 100 (replicate 14 true) = Fault.
Proof.
  split; [lia|]; apply radix_tree_insert_empty_faults; lia.
Defined.

(** ** Deletion *)

Lemma slot_bit_testbit s i : 0 <= s -> 0 <= i -> Z.testbit (slot_bit s) i = bool_decide (i = s).
Proof.
  intros Hs Hi; unfold slot_bit; rewrite Z.shiftl_1_l.
  rewrite Z.pow2_bits_eqb by done; destruct (Z.eqb_spec s i);
    [rewrite bool_decide_true by done|rewrite bool_decide_false by done]; done.
Qed.

Lemma clear_tag_bit_testbit t s i :
  0 <= s -> 0 <= i ->
  Z.testbit (clear_tag_bit t s) i = Z.testbit t i && negb (bool_decide (i = s)).
Proof.
  intros; unfold clear_tag_bit; rewrite Z.land_spec, Z.lnot_spec by done.
  by rewrite slot_bit_testbit.
Qed.

Lemma clear_tag_bit_le t s : 0 <= t -> 0 <= clear_tag_bit t s <= t.
Proof.
  intros Ht; unfold clear_tag_bit.
  rewrite <-Z.ldiff_land; split; [apply Z.ldiff_nonneg; by left|].
  apply Z.ldiff_le; [done|].
  apply Z.bits_inj'; intros i Hi; rewrite Z.bits_0, !Z.ldiff_spec.
  by destruct (Z.testbit t i), (Z.testbit (slot_bit s) i).
Qed.

(** [tags'] is [tags] with some bits at [slot] cleared, each for a tag that
    nothing below [slot] carries any more. *)
Definition tags_dropped (slot : Z) (cur : rptr) (tags tags' : list Z) : Prop :=
  length tags' = length tags /\
  forall k t', tags' !! k = Some t' -> exists t, tags !! k = Some t /\
    (t' = t \/ (t' = clear_tag_bit t slot /\
                forall c, node_tags cur !! k = Some c -> c = 0)).

Lemma delete_up_tags_spec k b slot cur tags :
  (k <= length tags)%nat ->
  (cur = PNull \/ exists n, cur = PNode n /\ length (rn_tags n) = length tags) ->
  exists tags', delete_up_tags k b slot cur tags = Ok tags' /\
    tags_dropped slot cur tags tags' /\
    (forall j, (k <= j)%nat -> tags' !! j = tags !! j).
Proof.
  intros Hk Hc; induction k as [|k IH].
  { exists tags; split_and!; [done| |done]; split; [done|]; eauto. }
  destruct IH as (ts & E & (Hl & Hd) & Hj); [lia|]; cbn [delete_up_tags]; rewrite E; mstep.
  destruct (lookup_lt_is_Some_2 tags k) as [t Ht]; [lia|].
  rewrite Hj, Ht by lia; mstep; cbn [of_opt]; mstep.
  assert (Hsame : tags_dropped slot cur tags ts /\
                  (forall j, (S k <= j)%nat -> ts !! j = tags !! j)).
  { split; [by split|]; intros; apply Hj; lia. }
  assert (Hins : (forall c, node_tags cur !! k = Some c -> c = 0) ->
    tags_dropped slot cur tags (<[k := clear_tag_bit t slot]> ts) /\
    (forall j, (S k <= j)%nat -> <[k := clear_tag_bit t slot]> ts !! j = tags !! j)).
  { intros Hz; split; [split; [by rewrite length_insert|]|].
    - intros j t' Hj'; destruct (decide (j = k)) as [->|Hne].
      + rewrite list_lookup_insert_eq in Hj' by lia; simplify_eq; eauto.
      + rewrite list_lookup_insert_ne in Hj' by done; by apply Hd.
    - intros j ?; rewrite list_lookup_insert_ne by lia; apply Hj; lia. }
  case_decide; [|by exists ts]; destruct b; [|by exists ts].
  destruct Hc as [->|(n & -> & Hln)].
  - cbn [is_null]; mstep; eexists; split; [done|]; apply Hins; done.
  - destruct (lookup_lt_is_Some_2 (rn_tags n) k) as [c Hc]; [lia|].
    cbn [is_null as_node]; mstep; rewrite Hc; cbn [of_opt]; mstep.
    case_bool_decide; eexists; (split; [done|]); [|done].
    apply Hins; intros c'; cbn; congruence.
Qed.

Lemma tags_dropped_range slot cur tags tags' :
  tags_dropped slot cur tags tags' ->
  Forall (fun t => 0 <= t < 2 ^ 64) tags -> Forall (fun t => 0 <= t < 2 ^ 64) tags'.
Proof.
  intros [_ Hd] Hf; apply Forall_lookup_2; intros k t' Hk.
  destruct (Hd _ _ Hk) as (t & Ht & Hor); pose proof (Forall_lookup_1 _ _ _ _ Hf Ht) as Hr.
  simpl in Hr; destruct Hor as [->|[-> _]]; [done|].
  pose proof (clear_tag_bit_le t slot); lia.
Qed.

(** Replacing the tags of a well-formed node by such a list. *)
Lemma wf_tags_dropped h n slot cur tags' :
  wf (S h) (PNode n) -> 0 <= slot -> rn_slots n !! Z.to_nat slot = Some cur ->
  tags_dropped slot cur (rn_tags n) tags' ->
  wf (S h) (PNode (RNode (rn_shift n) (rn_count n) (rn_slots n) tags')).
Proof.
  intros (n' & [= <-] & H1 & H2 & H3 & H4 & H5 & H6 & H7) Hs Hc Hd.
  eexists; split; [done|]; cbn [rn_shift rn_count rn_slots rn_tags]; split_and!; try done.
  - destruct Hd; lia.
  - by eapply tags_dropped_range.
  - intros k i s t Hi Hk Hne; cbn [rn_slots rn_tags] in *.
    destruct (H6 k i s t Hi Hk Hne) as (u & Hu & Hb), Hd as [Hl Hd].
    destruct (lookup_lt_is_Some_2 tags' k) as [u' Hu'];
      [apply lookup_lt_Some in Hu; lia|].
    exists u'; split; [done|]; destruct (Hd _ _ Hu') as (u2 & ? & Hor); simplify_eq.
    destruct Hor as [->|[-> Hz]]; [done|]; rewrite clear_tag_bit_testbit by lia.
    rewrite Hb, bool_decide_false; [done|]; intros E.
    assert (i = Z.to_nat slot) by lia; subst i.
    assert (s = cur) by congruence; subst; by apply Hne, Hz.
Qed.

Lemma get_tags h s c sl t t' i :
  get (S h) (PNode (RNode s c sl t)) i = get (S h) (PNode (RNode s c sl t')) i.
Proof. done. Qed.

(** No tag appears. *)
Definition tags_shrink (p p' : rptr) : Prop :=
  forall k t', node_tags p' !! k = Some t' -> t' <> 0 ->
  exists t, node_tags p !! k = Some t /\ t <> 0.

Lemma clear_tag_bit_0 s : clear_tag_bit 0 s = 0.
Proof. done. Qed.

Lemma tags_dropped_shrink slot cur n tags' p' :
  tags_dropped slot cur (rn_tags n) tags' -> node_tags p' = tags' ->
  tags_shrink (PNode n) p'.
Proof.
  intros [_ Hd] E k t' Hk Hne; rewrite E in Hk; cbn [node_tags].
  destruct (Hd _ _ Hk) as (t & Ht & Hor); exists t; split; [done|]; intros ->.
  destruct Hor as [->|[-> _]]; done.
Qed.

(** A node that counts no slot holds nothing. *)
Lemma get_count_0 h n i : wf (S h) (PNode n) -> rn_count n = 0 -> get (S h) (PNode n) i = None.
Proof.
  intros W H0; destruct (wf_slot _ n i W) as (c & _ & E & Hc).
  destruct W as (n' & [= <-] & _ & Hcnt & _); rewrite get_S, E.
  destruct Hc as [->|Hc]; [apply get_null|].
  pose proof (count_slots_insert _ _ PNull _ E) as Hi.
  pose proof (count_slots_bound (<[Z.to_nat (slot_of i (Z.of_nat h * RADIX_TREE_MAP_SHIFT)):=PNull]> (rn_slots n))).
  rewrite (wf_nonnull _ _ Hc) in Hi; cbn in Hi; lia.
Qed.

Lemma delete_up_spec b h n slot cur :
  wf (S h) (PNode n) -> 0 <= slot < 64 -> rn_slots n !! Z.to_nat slot = Some cur ->
  (h = 0%nat -> cur = PNull) ->
  exists n', delete_up b n slot = Ok n' /\ wf (S h) (PNode n') /\
    tags_shrink (PNode n) (PNode n') /\
    forall j, get (S h) (PNode n') j = get (S h) (PNode n) j.
Proof.
  intros W Hs Hcur H0.
  pose proof W as (n0 & [= <-] & _ & Hcnt & Hl & Hlt & _ & _ & Hf).
  assert (Hc : cur = PNull \/ exists h' c, h = S h' /\ cur = PNode c /\ wf (S h') (PNode c) /\
                 length (rn_tags c) = length (rn_tags n)).
  { destruct (Forall_lookup_1 _ _ _ _ Hf Hcur) as [->|Hw]; [by left|].
    destruct h as [|h']; [left; by apply H0|right]; pose proof Hw as (c & -> & Hrest).
    exists h', c; split_and!; [done|done|done|]; destruct Hrest as (_ & _ & _ & -> & _); done. }
  destruct (delete_up_tags_spec RADIX_TREE_MAX_TAGS b slot cur (rn_tags n))
    as (tags & E & Hd & _).
  { rewrite Hlt; done. }
  { destruct Hc as [->|(? & c & _ & -> & _ & Hc)]; [by left|right; by exists c]. }
  pose proof (wf_tags_dropped _ _ _ _ _ W (proj1 Hs) Hcur Hd) as W'.
  unfold delete_up; rewrite (zget_lookup _ _ cur) by (done || lia); mstep; rewrite E; mstep.
  set (n1 := RNode (rn_shift n) (rn_count n) (rn_slots n) tags) in *.
  assert (Hsh : tags_shrink (PNode n) (PNode n1)) by (by eapply tags_dropped_shrink).
  assert (Hkeep : exists n', Ok n1 = Ok n' /\ wf (S h) (PNode n') /\
    tags_shrink (PNode n) (PNode n') /\
    forall j, get (S h) (PNode n') j = get (S h) (PNode n) j) by (exists n1; split_and!; done).
  destruct b; [|done].
  destruct Hc as [->|(h' & c & -> & -> & Wc & Hlc)]; [done|]; cbn [is_null as_node]; mstep.
  case_decide as Hz; [|done].
  pose proof (count_slots_insert _ _ PNull _ Hcur) as Hci; cbn [is_null] in Hci.
  pose proof (count_slots_bound (<[Z.to_nat slot := PNull]> (rn_slots n))) as Hb.
  rewrite length_insert in Hb.
  assert (Hceq : rn_count n1 - 1 = count_slots (<[Z.to_nat slot := PNull]> (rn_slots n1)))
    by (cbn; lia).
  rewrite Hceq, set_slot_eq by (done || (cbn [n1 rn_slots]; lia)).
  eexists; split; [done|]; split_and!.
  - eapply wf_set_slot; [done|done|by left|by intros].
  - by eapply tags_dropped_shrink.
  - intros j; rewrite get_set_slot by done; case_decide as Ej; [|done].
    rewrite get_null, (get_S (S h')), Ej, Hcur; symmetry; by apply get_count_0.
Qed.

Lemma delete_walk_S b h n i :
  delete_walk b (S h) (PNode n) i =
  (let slot := slot_of i (Z.of_nat h * RADIX_TREE_MAP_SHIFT) in
   cur ← zget (rn_slots n) slot;
   if is_null cur then Ok None
   else if decide (h = 0%nat) then
     n ← set_slot n slot PNull (rn_count n - 1);
     n ← delete_up b
           (RNode (rn_shift n) (rn_count n) (rn_slots n) (clear_tags (rn_tags n) slot)) slot;
     Ok (Some (cur, PNode n))
   else
     r ← delete_walk true h cur i;
     match r with
     | None => Ok None
     | Some (item, child) =>
         n ← set_slot n slot child (rn_count n);
         n ← delete_up b n slot;
         Ok (Some (item, PNode n))
     end).
Proof. done. Qed.

Lemma clear_tags_dropped tags slot v :
  tags_dropped slot (PItem v) tags (clear_tags tags slot).
Proof.
  unfold clear_tags; split; [by rewrite length_fmap|].
  intros k t'; rewrite list_lookup_fmap; intros (t & -> & Ht)%fmap_Some.
  exists t; split; [done|]; right; done.
Qed.

Lemma tags_shrink_trans p q r : tags_shrink p q -> tags_shrink q r -> tags_shrink p r.
Proof. intros H1 H2 k t Hk Hne; destruct (H2 _ _ Hk Hne) as (t1 & H3 & H4); eauto. Qed.

(** What a deletion below a node of height [h] does. *)
Definition delete_post (h : nat) (p : rptr) (i : Z) (r : option (rptr * rptr)) : Prop :=
  match r with
  | None => get h p i = None
  | Some (item, p') => exists v, item = PItem v /\ get h p i = Some v /\ wf h p' /\
      tags_shrink p p' /\
      forall j, get h p' j = if decide (same_path h i j) then None else get h p j
  end.

(** The step from a child to its parent. *)
Lemma delete_lift b h n i c x v :
  let slot := slot_of i (Z.of_nat h * RADIX_TREE_MAP_SHIFT) in
  wf (S h) (PNode n) -> rn_slots n !! Z.to_nat slot = Some c -> (x = PNull \/ wf h x) ->
  (h = 0%nat -> x = PNull) -> tags_shrink c x -> get h c i = Some v ->
  (forall j, get h x j = if decide (same_path h i j) then None else get h c j) ->
  exists n', delete_up b (RNode (rn_shift n) (count_slots (<[Z.to_nat slot := x]> (rn_slots n)))
               (<[Z.to_nat slot := x]> (rn_slots n)) (rn_tags n)) slot = Ok n' /\
    delete_post (S h) (PNode n) i (Some (PItem v, PNode n')).
Proof.
  intros slot W Hc Hx H0 Hsh Hv Hj.
  pose proof W as (n0 & [= <-] & _ & _ & Hl & _ & _ & Hcl & _).
  assert (Hs : 0 <= slot < 64) by (apply slot_of_range; unfold RADIX_TREE_MAP_SHIFT; lia).
  assert (W1 : wf (S h) (PNode (RNode (rn_shift n)
     (count_slots (<[Z.to_nat slot := x]> (rn_slots n)))
     (<[Z.to_nat slot := x]> (rn_slots n)) (rn_tags n)))).
  { eapply wf_set_slot; [done|done|done|].
    intros k t Hk Hne; destruct (Hsh _ _ Hk Hne) as (t0 & Ht0 & Hne0); eauto. }
  destruct (delete_up_spec b h _ slot x W1 Hs) as (n' & E & W2 & Hsh2 & Hg).
  { cbn [rn_slots]; rewrite list_lookup_insert_eq; [done|lia]. }
  { done. }
  exists n'; split; [done|]; exists v; split_and!; [done| |done|done|].
  - rewrite get_S; fold slot; by rewrite Hc.
  - intros j; rewrite Hg, get_set_slot by done; case_decide as E1.
    + rewrite Hj, get_S, E1, Hc.
      destruct (decide (same_path h i j)) as [Hp|Hp].
      * rewrite decide_True; [done|]; by apply same_path_S.
      * rewrite decide_False; [done|]; by intros [_ ?]%same_path_S.
    + rewrite decide_False; [done|]; by intros [? _]%same_path_S.
Qed.

Lemma delete_walk_spec b h p i :
  wf (S h) p ->
  exists r, delete_walk b (S h) p i = Ok r /\ delete_post (S h) p i r.
Proof.
  revert b p; induction h as [|h IH]; intros b p W; pose proof W as (n & -> & _ & Hcnt & Hl & _);
    destruct (wf_slot _ n i W) as (c & E1 & E2 & Hc);
    rewrite delete_walk_S; cbv zeta; rewrite E1; mstep;
    (assert (Hs : 0 <= slot_of i (Z.of_nat 0 * RADIX_TREE_MAP_SHIFT) < 64)
      by (apply slot_of_range; unfold RADIX_TREE_MAP_SHIFT; lia)).
  - destruct Hc as [->|(v & -> & Hv)].
    { exists None; split; [done|]; unfold delete_post; rewrite get_S, E2; apply get_null. }
    cbn [is_null]; rewrite decide_True by done.
    pose proof (wf_tags_dropped _ _ _ _ _ W (proj1 Hs) E2 (clear_tags_dropped _ _ v)) as W1.
    pose proof (count_slots_insert _ _ PNull _ E2) as Hci; cbn [is_null] in Hci.
    pose proof (count_slots_bound (<[Z.to_nat (slot_of i (Z.of_nat 0 * RADIX_TREE_MAP_SHIFT)) := PNull]> (rn_slots n))) as Hb.
    rewrite length_insert in Hb; rewrite set_slot_eq by (done || lia); mstep.
    cbn [rn_shift rn_count rn_slots rn_tags].
    destruct (delete_lift b 0 _ i (PItem v) PNull v W1) as (n' & E & Hp);
      [done|by left|done|by intros k t|done| |].
    { intros j; rewrite decide_True; [done|]; unfold same_path; simpl; by rewrite !Z.mod_1_r. }
    cbn [rn_shift rn_count rn_slots rn_tags] in E.
    replace (rn_count n - 1) with (count_slots (<[Z.to_nat
      (slot_of i (Z.of_nat 0 * RADIX_TREE_MAP_SHIFT)) := PNull]> (rn_slots n))) by lia.
    rewrite E; mstep; eexists; split; [done|].
    destruct Hp as (v' & Heq & Hg & Wn & Hsh & Hj); exists v'; split_and!; try done.
    eapply tags_shrink_trans; [|done].
    eapply tags_dropped_shrink; [apply (clear_tags_dropped _ _ v)|done].
  - clear Hs; assert (Hs : 0 <= slot_of i (Z.of_nat (S h) * RADIX_TREE_MAP_SHIFT) < 64)
      by (apply slot_of_range; unfold RADIX_TREE_MAP_SHIFT; lia).
    destruct Hc as [->|Hc].
    { exists None; split; [done|]; unfold delete_post; rewrite get_S, E2; apply get_null. }
    rewrite (wf_nonnull _ _ Hc), decide_False by done.
    destruct (IH true c Hc) as (r & E & Hp); rewrite E; mstep; destruct r as [[item x]|].
    + destruct Hp as (v & -> & Hv & Wx & Hsh & Hj).
      pose proof (count_slots_insert _ _ x _ E2) as Hci.
      rewrite (wf_nonnull _ _ Hc), (wf_nonnull _ _ Wx) in Hci.
      pose proof (count_slots_bound (rn_slots n)) as Hb.
      rewrite set_slot_eq by (done || lia); mstep.
      replace (rn_count n) with (count_slots (<[Z.to_nat
        (slot_of i (Z.of_nat (S h) * RADIX_TREE_MAP_SHIFT)) := x]> (rn_slots n))) by lia.
      destruct (delete_lift b (S h) n i c x v W) as (n' & E' & Hp');
        [done|by right|done|done|done|done|].
      rewrite E'; mstep; eexists; split; [done|]; exact Hp'.
    + exists None; split; [done|]; unfold delete_post; rewrite get_S, E2; exact Hp.
Qed.

Lemma delete_root_spec r i :
  wf_root r -> 0 <= i ->
  exists r', radix_tree_delete r i = Ok (to_rptr (root_get r i), r') /\ wf_root r' /\
    forall j, 0 <= j -> root_get r' j = if decide (i = j) then None else root_get r j.
Proof.
  intros Hw Hi; unfold radix_tree_delete, root_get at 1.
  destruct (wf_root_cases r Hw) as [->|(Hn & W & H8)].
  { eexists; split; [done|]; split; [done|]; intros; by case_decide. }
  rewrite Hn, maxindex_eq by done; mstep.
  destruct (decide (i < 2 ^ (6 * Z.of_nat (rt_height r)))) as [Hlt|Hge].
  2:{ rewrite decide_True by lia; exists r; split; [done|]; split; [done|].
      intros j Hj; case_decide; [|done]; subst j; unfold root_get.
      by rewrite Hn, decide_False by lia. }
  rewrite decide_False by lia; destruct r as [h p]; cbn [rt_height rt_rnode] in *.
  destruct h as [|h].
  { destruct W as (v & -> & _); simpl in Hlt; rewrite decide_False by lia.
    eexists; split; [done|]; split; [done|]; intros j Hj; unfold root_get; simpl.
    case_decide; [done|]; case_decide; [lia|done]. }
  destruct (delete_walk_spec false h p i W) as (rr & -> & Hp); mstep.
  destruct rr as [[item p']|].
  2:{ unfold delete_post in Hp; eexists; rewrite Hp; split; [done|]; split; [done|].
      intros j Hj; case_decide; [subst j|done]; unfold root_get; cbn [rt_height rt_rnode].
      rewrite Hn, Hp; by case_decide. }
  destruct Hp as (v & -> & Hv & W' & _ & Hj); pose proof W' as (n' & -> & _).
  cbn [as_node]; mstep; rewrite Hv; eexists; split; [done|].
  assert (Hget : forall j, 0 <= j -> root_get (RRoot (S h) (PNode n')) j =
             if decide (i = j) then None else root_get (RRoot (S h) p) j).
  { intros j Hj'; unfold root_get; cbn [rt_height rt_rnode is_null]; rewrite Hn, Hj.
    destruct (decide (j < 2 ^ (6 * Z.of_nat (S h)))); [|by case_decide].
    destruct (decide (i = j)) as [->|Hij]; [by rewrite decide_True|].
    rewrite decide_False; [done|]; by rewrite same_path_below by lia. }
  case_decide as Hz.
  - split; [split; [simpl; lia|done]|]; intros j Hj'; rewrite <-Hget by done.
    unfold root_get; cbn [rt_height rt_rnode is_null]; case_decide; [|done].
    symmetry; by apply get_count_0.
  - split; [by apply wf_root_intro|done].
Qed.

(** C19: Deleting from a well-formed tree never faults and keeps the tree well
    formed; it returns what a lookup found, after it the index is free, and every
    other index finds what it found before. *)
Theorem radix_tree_delete_lookup (r : radix_tree_root) (i : Z) :
  wf_root r -> 0 <= i < 2 ^ 64 ->
  exists item r', radix_tree_delete r i = Ok (item, r') /\ wf_root r' /\
    radix_tree_lookup r i = Ok item /\
    forall j, 0 <= j < 2 ^ 64 -> radix_tree_lookup r' j =
      if decide (i = j) then Ok PNull else radix_tree_lookup r j.
Proof.
  intros Hw Hi; destruct (delete_root_spec r i Hw) as (r' & E & Hw' & Hj); [lia|].
  do 2 eexists; split; [done|]; split_and!; [done|apply radix_tree_lookup_get; [done|lia]|].
  intros j Hj'; rewrite !radix_tree_lookup_get, Hj by (done || lia); by case_decide.
Qed.

Lemma radix_tree_delete_lookup_witness :
  exists item r', radix_tree_delete item100 0 = Ok (item, r') /\ wf_root r' /\
    radix_tree_lookup item100 0 = Ok item /\
    forall j, 0 <= j < 2 ^ 64 -> radix_tree_lookup r' j =
      if decide (0 = j) then Ok PNull else radix_tree_lookup item100 j.
Proof.
  apply radix_tree_delete_lookup; [split; [vm_compute; lia|by exists 100]|lia].
Defined.

(** ** Tags *)

(** The tag bit of an index in the leaf node on its path; [has_leaf] says that
    there is such a node. *)
Fixpoint leaf_tag (h : nat) (p : rptr) (k : nat) (i : Z) : bool :=
  match h, p with
  | S h', PNode n =>
      let slot := slot_of i (Z.of_nat h' * RADIX_TREE_MAP_SHIFT) in
      match h' with
      | O => match rn_tags n !! k with Some t => Z.testbit t slot | None => false end
      | S _ => match rn_slots n !! Z.to_nat slot with
               | Some s => leaf_tag h' s k i
               | None => false
               end
      end
  | _, _ => false
  end.

Fixpoint has_leaf (h : nat) (p : rptr) (i : Z) : bool :=
  match h, p with
  | S h', PNode n =>
      match h' with
      | O => true
      | S _ => match rn_slots n !! Z.to_nat (slot_of i (Z.of_nat h' * RADIX_TREE_MAP_SHIFT)) with
               | Some s => has_leaf h' s i
               | None => false
               end
      end
  | _, _ => false
  end.

Lemma leaf_tag_1 n k i :
  leaf_tag 1 (PNode n) k i =
  match rn_tags n !! k with
  | Some t => Z.testbit t (slot_of i (Z.of_nat 0 * RADIX_TREE_MAP_SHIFT)) | None => false end.
Proof. done. Qed.

Lemma leaf_tag_S h n k i :
  leaf_tag (S (S h)) (PNode n) k i =
  match rn_slots n !! Z.to_nat (slot_of i (Z.of_nat (S h) * RADIX_TREE_MAP_SHIFT)) with
  | Some s => leaf_tag (S h) s k i | None => false end.
Proof. done. Qed.

Lemma has_leaf_S h n i :
  has_leaf (S (S h)) (PNode n) i =
  match rn_slots n !! Z.to_nat (slot_of i (Z.of_nat (S h) * RADIX_TREE_MAP_SHIFT)) with
  | Some s => has_leaf (S h) s i | None => false end.
Proof. done. Qed.

Lemma leaf_tag_null h k i : leaf_tag h PNull k i = false.
Proof. by destruct h. Qed.

Lemma has_leaf_null h i : has_leaf h PNull i = false.
Proof. by destruct h. Qed.

Lemma land_slot_bit t s : 0 <= s -> Z.land t (slot_bit s) = 0 <-> Z.testbit t s = false.
Proof.
  intros Hs; split.
  - intros E; assert (H : Z.testbit (Z.land t (slot_bit s)) s = false) by (by rewrite E, Z.bits_0).
    rewrite Z.land_spec, slot_bit_testbit, bool_decide_true, andb_true_r in H by done; done.
  - intros E; apply Z.bits_inj'; intros i Hi; rewrite Z.bits_0, Z.land_spec, slot_bit_testbit by done.
    case_bool_decide; [subst; by rewrite E|by rewrite andb_false_r].
Qed.

(** A set tag bit of a leaf makes the tags of every node above it nonzero. *)
Lemma leaf_tag_nonzero h p k i :
  wf (S h) p -> leaf_tag (S h) p k i = true ->
  exists t, node_tags p !! k = Some t /\
    Z.testbit t (slot_of i (Z.of_nat h * RADIX_TREE_MAP_SHIFT)) = true.
Proof.
  revert p; induction h as [|h IH]; intros p W; pose proof W as (n & -> & Hr).
  - rewrite leaf_tag_1; cbn [node_tags]; destruct (rn_tags n !! k) as [t|]; [|done]; eauto.
  - rewrite leaf_tag_S; destruct (wf_slot _ n i W) as (c & _ & E & Hc); rewrite E.
    destruct Hc as [->|Hc]; [done|]; intros Ht.
    destruct (IH c Hc Ht) as (t & Hk & Hb).
    destruct Hr as (_ & _ & _ & _ & _ & Hcl & _).
    destruct (Hcl k _ _ t E Hk) as (u & Hu & Hbu); [by intros ->; rewrite Z.bits_0 in Hb|].
    exists u; split; [done|]; rewrite Z2Nat.id in Hbu; [done|].
    apply slot_of_range; unfold RADIX_TREE_MAP_SHIFT; lia.
Qed.

Lemma tag_get_walk_S h n i k :
  tag_get_walk (S h) (PNode n) i k =
  (let slot := slot_of i (Z.of_nat h * RADIX_TREE_MAP_SHIFT) in
   t ← of_opt (rn_tags n !! k);
   if decide (Z.land t (slot_bit slot) = 0) then Ok false
   else if decide (h = 0%nat) then Ok true
   else
     cur ← zget (rn_slots n) slot;
     if is_null cur then Ok false else tag_get_walk h cur i k).
Proof. done. Qed.

Lemma wf_tag h n k : wf (S h) (PNode n) -> (k < 2)%nat -> exists t, rn_tags n !! k = Some t /\ 0 <= t < 2 ^ 64.
Proof.
  intros (n' & [= <-] & _ & _ & _ & Hl & Hf & _) Hk.
  destruct (lookup_lt_is_Some_2 (rn_tags n) k) as [t Ht]; [lia|].
  exists t; split; [done|]; exact (Forall_lookup_1 _ _ _ _ Hf Ht).
Qed.

Lemma slot_of_nonneg i h : 0 <= slot_of i (Z.of_nat h * RADIX_TREE_MAP_SHIFT) < 64.
Proof. apply slot_of_range; unfold RADIX_TREE_MAP_SHIFT; lia. Qed.

Lemma tag_get_walk_leaf h p i k :
  wf (S h) p -> (k < 2)%nat -> tag_get_walk (S h) p i k = Ok (leaf_tag (S h) p k i).
Proof.
  intros W Hk; revert p W; induction h as [|h IH]; intros p W; pose proof W as (n & -> & _);
    destruct (wf_tag _ _ _ W Hk) as (t & Ht & _);
    rewrite tag_get_walk_S; cbv zeta; rewrite Ht; cbn [of_opt]; mstep.
  - rewrite leaf_tag_1, Ht; case_decide as E.
    + apply land_slot_bit in E; [by rewrite E|apply slot_of_nonneg].
    + rewrite decide_True by done; rewrite land_slot_bit in E by apply slot_of_nonneg.
      by destruct (Z.testbit _ _).
  - destruct (wf_slot _ n i W) as (c & E1 & E2 & Hc).
    destruct (leaf_tag (S (S h)) (PNode n) k i) eqn:Hb.
    + destruct (leaf_tag_nonzero _ _ _ _ W Hb) as (t' & Ht' & Hbit); cbn in Ht'; simplify_eq.
      rewrite decide_False by (rewrite land_slot_bit by apply slot_of_nonneg; by rewrite Hbit).
      rewrite decide_False by done; rewrite E1; mstep; rewrite leaf_tag_S, E2 in Hb.
      destruct Hc as [->|Hc]; [done|]; by rewrite (wf_nonnull _ _ Hc), IH, Hb.
    + case_decide; [done|]; rewrite decide_False by done; rewrite E1; mstep.
      rewrite leaf_tag_S, E2 in Hb; destruct Hc as [->|Hc]; [done|].
      by rewrite (wf_nonnull _ _ Hc), IH, Hb.
Qed.

Lemma slot_bit_range s : 0 <= s < 64 -> 0 <= slot_bit s < 2 ^ 64.
Proof.
  intros; unfold slot_bit; rewrite Z.shiftl_1_l; split; [apply Z.pow_nonneg; lia|].
  apply Z.pow_lt_mono_r; lia.
Qed.

Lemma lor_range a b : 0 <= a < 2 ^ 64 -> 0 <= b < 2 ^ 64 -> 0 <= Z.lor a b < 2 ^ 64.
Proof.
  intros Ha Hb; split; [apply Z.lor_nonneg; lia|].
  destruct (decide (Z.lor a b = 0)) as [->|Hne]; [lia|].
  apply Z.log2_lt_pow2; [pose proof (Z.lor_nonneg a b); lia|].
  rewrite Z.log2_lor by lia; apply Z.max_lub_lt; (destruct (decide (a = 0)) as [->|]; destruct (decide (b = 0)) as [->|];
    try (simpl; lia); apply Z.log2_lt_pow2; lia).
Qed.

(** Replacing the word of one tag by one that keeps the bits of the children that
    carry the tag. *)
Lemma wf_set_tag h n k u t :
  wf (S h) (PNode n) -> rn_tags n !! k = Some t -> 0 <= u < 2 ^ 64 ->
  (forall i s c, rn_slots n !! i = Some s -> node_tags s !! k = Some c -> c <> 0 ->
     Z.testbit u (Z.of_nat i) = true) ->
  wf (S h) (PNode (RNode (rn_shift n) (rn_count n) (rn_slots n) (<[k := u]> (rn_tags n)))).
Proof.
  intros (n' & [= <-] & H1 & H2 & H3 & H4 & H5 & H6 & H7) Hk Hu Hc.
  eexists; split; [done|]; cbn [rn_shift rn_count rn_slots rn_tags]; split_and!; try done.
  - by rewrite length_insert.
  - by apply Forall_insert.
  - intros k' i s c Hi Hc' Hne; cbn [rn_slots rn_tags] in *.
    destruct (decide (k' = k)) as [->|Hkk].
    + exists u; split; [by rewrite list_lookup_insert_eq by (by eapply lookup_lt_Some)|eauto].
    + rewrite list_lookup_insert_ne by done; eauto.
Qed.

Lemma wf_or_tag h n k slot :
  wf (S h) (PNode n) -> (k < 2)%nat -> 0 <= slot < 64 ->
  exists t, or_tag n k slot = Ok (RNode (rn_shift n) (rn_count n) (rn_slots n)
                (<[k := Z.lor t (slot_bit slot)]> (rn_tags n))) /\
    rn_tags n !! k = Some t /\
    wf (S h) (PNode (RNode (rn_shift n) (rn_count n) (rn_slots n)
                (<[k := Z.lor t (slot_bit slot)]> (rn_tags n)))).
Proof.
  intros W Hk Hs; destruct (wf_tag _ _ _ W Hk) as (t & Ht & Hr); exists t.
  unfold or_tag; rewrite Ht; cbn [of_opt]; mstep; split_and!; [done|done|].
  eapply wf_set_tag; [done|done|apply lor_range; [done|by apply slot_bit_range]|].
  intros i s c Hi Hc Hne; destruct W as (n' & [= <-] & _ & _ & _ & _ & _ & Hcl & _).
  destruct (Hcl _ _ _ _ Hi Hc Hne) as (u & Hu & Hb); simplify_eq.
  by rewrite Z.lor_spec, Hb.
Qed.

Lemma tag_set_walk_S h n i k :
  tag_set_walk (S h) (PNode n) i k =
  (let slot := slot_of i (Z.of_nat h * RADIX_TREE_MAP_SHIFT) in
   n ← or_tag n k slot;
   if decide (h = 0%nat) then Ok (PNode n)
   else
     cur ← zget (rn_slots n) slot;
     if is_null cur then Ok (PNode n)
     else
       child ← tag_set_walk h cur i k;
       n ← set_slot n slot child (rn_count n);
       Ok (PNode n)).
Proof. done. Qed.

(** A node whose slot holds an updated child. *)
Lemma wf_update_child h n s c x :
  wf (S h) (PNode n) -> rn_slots n !! Z.to_nat s = Some c -> 0 <= s < 64 ->
  wf h c -> wf h x ->
  (forall k t, node_tags x !! k = Some t -> t <> 0 ->
     exists u, rn_tags n !! k = Some u /\ Z.testbit u s = true) ->
  exists n', set_slot n s x (rn_count n) = Ok n' /\ wf (S h) (PNode n') /\
    rn_tags n' = rn_tags n /\ rn_slots n' = <[Z.to_nat s := x]> (rn_slots n) /\
    rn_shift n' = rn_shift n.
Proof.
  intros W Hc Hs Wc Wx Ht; pose proof W as (n0 & [= <-] & _ & Hcnt & Hl & _).
  pose proof (count_slots_insert _ _ x _ Hc) as Hci.
  rewrite (wf_nonnull _ _ Wc), (wf_nonnull _ _ Wx) in Hci.
  pose proof (count_slots_bound (rn_slots n)) as Hb.
  rewrite set_slot_eq by (done || lia); eexists; split; [done|]; split_and!; try done.
  replace (rn_count n) with (count_slots (<[Z.to_nat s := x]> (rn_slots n))) by lia.
  eapply wf_set_slot; [done|done|by right|]; intros k t Hk Hne.
  rewrite Z2Nat.id by lia; eauto.
Qed.

Lemma slots_update (n n' : node) s x i h :
  length (rn_slots n) = 64%nat -> 0 <= s < 64 ->
  rn_slots n' = <[Z.to_nat s := x]> (rn_slots n) ->
  rn_slots n' !! Z.to_nat (slot_of i (Z.of_nat h * RADIX_TREE_MAP_SHIFT)) =
  if decide (slot_of i (Z.of_nat h * RADIX_TREE_MAP_SHIFT) = s) then Some x
  else rn_slots n !! Z.to_nat (slot_of i (Z.of_nat h * RADIX_TREE_MAP_SHIFT)).
Proof.
  intros Hl Hs ->; pose proof (slot_of_nonneg i h); case_decide as E.
  - rewrite E, list_lookup_insert_eq by lia; done.
  - rewrite list_lookup_insert_ne by lia; done.
Qed.

Definition tag_set_post (h : nat) (p : rptr) (i : Z) (k : nat) (p' : rptr) : Prop :=
  wf h p' /\ (forall k', k' <> k -> node_tags p' !! k' = node_tags p !! k') /\
  (forall j, get h p' j = get h p j) /\
  forall j k', leaf_tag h p' k' j =
    leaf_tag h p k' j ||
    (bool_decide (k' = k) && bool_decide (same_path h i j) && has_leaf h p i).

Lemma same_path_slot h i j :
  bool_decide (same_path (S h) i j) =
  bool_decide (slot_of j (Z.of_nat h * RADIX_TREE_MAP_SHIFT) =
               slot_of i (Z.of_nat h * RADIX_TREE_MAP_SHIFT)) && bool_decide (same_path h i j).
Proof.
  rewrite <-bool_decide_and; apply bool_decide_ext; rewrite same_path_S; intuition congruence.
Qed.

Lemma same_path_0 i j : bool_decide (same_path 0 i j) = true.
Proof. apply bool_decide_true; unfold same_path; simpl; by rewrite !Z.mod_1_r. Qed.

Lemma tag_set_leaf n i k t :
  let s := slot_of i (Z.of_nat 0 * RADIX_TREE_MAP_SHIFT) in
  let n' := RNode (rn_shift n) (rn_count n) (rn_slots n)
              (<[k := Z.lor t (slot_bit s)]> (rn_tags n)) in
  rn_tags n !! k = Some t -> wf 1 (PNode n') -> tag_set_post 1 (PNode n) i k (PNode n').
Proof.
  intros s n' Ht W; pose proof (slot_of_nonneg i 0) as Hs; fold s in Hs.
  split_and!; [done| |done|].
  - intros k' Hne; cbn [n' node_tags rn_tags]; by rewrite list_lookup_insert_ne.
  - intros j k'; rewrite !leaf_tag_1, same_path_slot, same_path_0; fold s; cbn [n' rn_tags].
    destruct (decide (k' = k)) as [->|Hne].
    + rewrite list_lookup_insert_eq, Ht, Z.lor_spec by (by eapply lookup_lt_Some).
      rewrite slot_bit_testbit by (lia || apply slot_of_nonneg).
      rewrite (bool_decide_true (k = k)) by done; simpl has_leaf.
      by rewrite !andb_true_r.
    + rewrite list_lookup_insert_ne, (bool_decide_false (k' = k)) by done.
      by rewrite orb_false_r.
Qed.

Lemma tag_set_lift h n i k t c x :
  let s := slot_of i (Z.of_nat (S h) * RADIX_TREE_MAP_SHIFT) in
  let n1 := RNode (rn_shift n) (rn_count n) (rn_slots n)
              (<[k := Z.lor t (slot_bit s)]> (rn_tags n)) in
  wf (S (S h)) (PNode n) -> wf (S (S h)) (PNode n1) -> rn_tags n !! k = Some t ->
  rn_slots n !! Z.to_nat s = Some c -> wf (S h) c -> tag_set_post (S h) c i k x ->
  exists n', set_slot n1 s x (rn_count n1) = Ok n' /\
    tag_set_post (S (S h)) (PNode n) i k (PNode n').
Proof.
  intros s n1 W W1 Ht E2 Hc (Wx & Htx & Hgx & Hlx).
  pose proof (slot_of_nonneg i (S h)) as Hs; fold s in Hs.
  destruct (wf_update_child _ _ s c x W1) as (n' & -> & W2 & Et & Es & _); try done.
  { intros k' t' Hk' Hne; cbn [n1 rn_tags]; destruct (decide (k' = k)) as [->|Hkk].
    - eexists; rewrite list_lookup_insert_eq by (by eapply lookup_lt_Some); split; [done|].
      by rewrite Z.lor_spec, slot_bit_testbit, bool_decide_true, orb_true_r by (done || lia).
    - rewrite list_lookup_insert_ne by done; rewrite Htx in Hk' by done.
      destruct W as (n0 & [= <-] & _ & _ & _ & _ & _ & Hcl & _).
      destruct (Hcl _ _ _ _ E2 Hk' Hne) as (u & ? & Hu); rewrite Z2Nat.id in Hu by lia; eauto. }
  exists n'; split; [done|]; cbn [n1 rn_tags rn_slots] in *.
  pose proof W as (n0 & [= <-] & _ & _ & Hl & _).
  split_and!; [done| | |].
  - intros k' Hne; cbn [node_tags]; rewrite Et; by rewrite list_lookup_insert_ne.
  - intros j; rewrite !get_S, (slots_update n n' s x j) by done.
    case_decide as Ej; [|done]; by rewrite Hgx, Ej, E2.
  - intros j k'; rewrite !leaf_tag_S, has_leaf_S, (slots_update n n' s x j), same_path_slot by done.
    fold s; rewrite E2; case_decide as Ej.
    + rewrite Hlx, Ej, E2, (bool_decide_true (s = s)) by done; by rewrite andb_true_l.
    + rewrite (bool_decide_false (_ = s)) by done.
      by rewrite andb_false_l, andb_false_r, orb_false_r.
Qed.

Lemma tag_set_walk_spec h p i k :
  wf (S h) p -> (k < 2)%nat ->
  exists p', tag_set_walk (S h) p i k = Ok p' /\ tag_set_post (S h) p i k p'.
Proof.
  intros W Hk; revert p W; induction h as [|h IH]; intros p W; pose proof W as (n & -> & _);
    rewrite tag_set_walk_S; cbv zeta.
  - destruct (wf_or_tag _ n k _ W Hk (slot_of_nonneg i 0)) as (t & -> & Ht & W1); mstep.
    rewrite decide_True by done; eexists; split; [done|]; by apply tag_set_leaf.
  - destruct (wf_or_tag _ n k _ W Hk (slot_of_nonneg i (S h))) as (t & -> & Ht & W1); mstep.
    rewrite decide_False by done; destruct (wf_slot _ n i W) as (c & E1 & E2 & Hc).
    cbn [rn_slots]; rewrite E1; mstep; destruct Hc as [->|Hc].
    { eexists; split; [done|]; split_and!; [done| |done|].
      - intros k' Hne; cbn [node_tags rn_tags]; by rewrite list_lookup_insert_ne.
      - intros j k'; rewrite !leaf_tag_S, has_leaf_S, E2, has_leaf_null.
        by rewrite andb_false_r, orb_false_r. }
    rewrite (wf_nonnull _ _ Hc); destruct (IH c Hc) as (x & -> & Hx); mstep.
    destruct (tag_set_lift _ _ _ _ _ _ _ W W1 Ht E2 Hc Hx) as (n' & -> & Hp); mstep; eauto.
Qed.

Definition tag_clear_post (h : nat) (p : rptr) (i : Z) (k : nat) (p' : rptr) : Prop :=
  wf h p' /\ tags_shrink p p' /\ (forall j, get h p' j = get h p j) /\
  forall j k', leaf_tag h p' k' j =
    leaf_tag h p k' j && negb (bool_decide (k' = k) && bool_decide (same_path h i j)).

Definition clear_tag (n : node) (k : nat) (t slot : Z) : node :=
  RNode (rn_shift n) (rn_count n) (rn_slots n) (<[k := clear_tag_bit t slot]> (rn_tags n)).

Lemma tag_clear_walk_S h n i k :
  tag_clear_walk (S h) (PNode n) i k =
  (let slot := slot_of i (Z.of_nat h * RADIX_TREE_MAP_SHIFT) in
   let clear (n : node) : res node :=
     t ← of_opt (rn_tags n !! k); Ok (clear_tag n k t slot) in
   if decide (h = 0%nat) then n ← clear n; Ok (Some (PNode n, true))
   else
     cur ← zget (rn_slots n) slot;
     if is_null cur then Ok None
     else
       r ← tag_clear_walk h cur i k;
       match r with
       | None => Ok None
       | Some (child, go_on) =>
           n ← set_slot n slot child (rn_count n);
           if go_on : bool then
             c ← as_node child;
             t ← of_opt (rn_tags c !! k);
             if decide (t = 0) then n ← clear n; Ok (Some (PNode n, true))
             else Ok (Some (PNode n, false))
           else Ok (Some (PNode n, false))
       end).
Proof. done. Qed.

(** Clearing the bit of a slot whose child does not carry the tag. *)
Lemma wf_clear_tag h n k t s c :
  wf (S h) (PNode n) -> rn_tags n !! k = Some t -> 0 <= s < 64 ->
  rn_slots n !! Z.to_nat s = Some c -> (forall u, node_tags c !! k = Some u -> u = 0) ->
  wf (S h) (PNode (clear_tag n k t s)) /\ tags_shrink (PNode n) (PNode (clear_tag n k t s)).
Proof.
  intros W Ht Hs Hc Hz; assert (Hd : tags_dropped s c (rn_tags n) (rn_tags (clear_tag n k t s))).
  { split; [cbn; by rewrite length_insert|]; intros k' t' Hk'; cbn [clear_tag rn_tags] in Hk'.
    destruct (decide (k' = k)) as [->|Hne].
    - rewrite list_lookup_insert_eq in Hk' by (by eapply lookup_lt_Some); simplify_eq; eauto.
    - rewrite list_lookup_insert_ne in Hk' by done; eauto. }
  split; [by eapply wf_tags_dropped; [| |exact Hc|exact Hd]; [|lia]|].
  by eapply tags_dropped_shrink.
Qed.

Lemma tag_clear_leaf n i k t :
  let s := slot_of i (Z.of_nat 0 * RADIX_TREE_MAP_SHIFT) in
  wf 1 (PNode n) -> rn_tags n !! k = Some t ->
  tag_clear_post 1 (PNode n) i k (PNode (clear_tag n k t s)).
Proof.
  intros s W Ht; pose proof (slot_of_nonneg i 0) as Hs; fold s in Hs.
  destruct (wf_slot _ n i W) as (c & _ & E2 & Hc); fold s in E2.
  destruct (wf_clear_tag _ _ _ _ s c W Ht) as [W1 Hsh]; [done|done| |].
  { destruct Hc as [->|(v & -> & _)]; done. }
  split_and!; [done|done|done|].
  intros j k'; rewrite !leaf_tag_1, same_path_slot, same_path_0; fold s.
  cbn [clear_tag rn_tags]; rewrite andb_true_r; destruct (decide (k' = k)) as [->|Hne].
  - rewrite list_lookup_insert_eq, Ht by (by eapply lookup_lt_Some).
    rewrite clear_tag_bit_testbit by (lia || apply slot_of_nonneg).
    by rewrite (bool_decide_true (k = k)).
  - rewrite list_lookup_insert_ne, (bool_decide_false (k' = k)) by done.
    by rewrite andb_true_r.
Qed.

Lemma tag_clear_lift h n i k c x :
  let s := slot_of i (Z.of_nat (S h) * RADIX_TREE_MAP_SHIFT) in
  wf (S (S h)) (PNode n) -> rn_slots n !! Z.to_nat s = Some c -> wf (S h) c ->
  tag_clear_post (S h) c i k x ->
  exists n', set_slot n s x (rn_count n) = Ok n' /\ rn_tags n' = rn_tags n /\
    rn_slots n' !! Z.to_nat s = Some x /\
    tag_clear_post (S (S h)) (PNode n) i k (PNode n').
Proof.
  intros s W E2 Hc (Wx & Hsx & Hgx & Hlx).
  pose proof (slot_of_nonneg i (S h)) as Hs; fold s in Hs.
  pose proof W as (n0 & [= <-] & _ & _ & Hl & _ & _ & Hcl & _).
  destruct (wf_update_child _ _ s c x W) as (n' & -> & W2 & Et & Es & _); try done.
  { intros k' t' Hk' Hne; destruct (Hsx _ _ Hk' Hne) as (t & Ht & Hn).
    destruct (Hcl _ _ _ _ E2 Ht Hn) as (u & ? & Hu); rewrite Z2Nat.id in Hu by lia; eauto. }
  exists n'; split_and!; [done|done|rewrite Es; apply list_lookup_insert_eq; lia|].
  split_and!; [done| | |].
  - intros k' t' Hk'; cbn [node_tags] in *; rewrite Et in Hk'; eauto.
  - intros j; rewrite !get_S, (slots_update n n' s x j) by done.
    case_decide as Ej; [|done]; by rewrite Hgx, Ej, E2.
  - intros j k'; rewrite !leaf_tag_S, (slots_update n n' s x j), same_path_slot by done.
    fold s; case_decide as Ej.
    + rewrite Hlx, Ej, E2, (bool_decide_true (s = s)) by done; by rewrite andb_true_l.
    + rewrite (bool_decide_false (_ = s)) by done.
      by rewrite andb_false_l, andb_false_r, andb_true_r.
Qed.

Lemma tag_clear_walk_spec h p i k :
  wf (S h) p -> (k < 2)%nat ->
  exists r, tag_clear_walk (S h) p i k = Ok r /\
    match r with
    | None => forall k', leaf_tag (S h) p k' i = false
    | Some (p', _) => tag_clear_post (S h) p i k p'
    end.
Proof.
  intros W Hk; revert p W; induction h as [|h IH]; intros p W; pose proof W as (n & -> & _);
    rewrite tag_clear_walk_S; cbv zeta; destruct (wf_tag _ _ _ W Hk) as (t & Ht & _).
  - rewrite decide_True by done; rewrite Ht; cbn [of_opt]; mstep.
    eexists; split; [done|]; by apply tag_clear_leaf.
  - rewrite decide_False by done; destruct (wf_slot _ n i W) as (c & E1 & E2 & Hc).
    rewrite E1; mstep; destruct Hc as [->|Hc].
    { eexists; split; [done|]; intros k'; by rewrite leaf_tag_S, E2. }
    rewrite (wf_nonnull _ _ Hc); destruct (IH c Hc) as (r & -> & Hr); mstep.
    destruct r as [[x go]|]; [|eexists; split; [done|]; intros k'; by rewrite leaf_tag_S, E2].
    destruct (tag_clear_lift _ _ _ _ _ _ W E2 Hc Hr) as (n' & -> & Et & Ex & Hp); mstep.
    destruct go; [|eauto]; destruct Hr as (Wx & _); pose proof Wx as (m & -> & _).
    destruct (wf_tag _ _ _ Wx Hk) as (u & Hu & _).
    cbn [as_node]; mstep; rewrite Hu; cbn [of_opt]; mstep; case_decide as Hz; [|eauto].
    rewrite Et, Ht; cbn [of_opt]; mstep; eexists; split; [done|].
    destruct Hp as (Wn & Hsh & Hg & Hlt).
    destruct (wf_clear_tag _ n' k t (slot_of i (Z.of_nat (S h) * RADIX_TREE_MAP_SHIFT)) (PNode m) Wn)
      as [W1 Hsh1]; [by rewrite Et|apply (slot_of_nonneg i (S h))|exact Ex|cbn; congruence|].
    split_and!; [done|by eapply tags_shrink_trans| |]; done.
Qed.

(** A nonempty tree with nodes: the trees that can carry tags. *)
Definition root_tag (r : radix_tree_root) (k : nat) (j : Z) : bool :=
  bool_decide (j < 2 ^ (6 * Z.of_nat (rt_height r))) &&
  leaf_tag (rt_height r) (rt_rnode r) k j.

Lemma radix_tree_tag_get_leaf r j k :
  wf_root r -> 0 <= j -> (k < 2)%nat -> radix_tree_tag_get r j k = Ok (root_tag r k j).
Proof.
  intros Hw Hj Hk; unfold radix_tree_tag_get, root_tag.
  rewrite (bool_decide_false (RADIX_TREE_MAX_TAGS <= k)%nat) by (unfold RADIX_TREE_MAX_TAGS; lia).
  destruct (wf_root_cases r Hw) as [->|(Hn & W & H8)]; [by rewrite andb_false_r|].
  rewrite Hn, maxindex_eq by done; cbn [orb]; mstep.
  case_bool_decide; [rewrite decide_False by lia|by rewrite decide_True by lia].
  destruct (rt_height r) as [|h]; [done|]; rewrite decide_False by done.
  rewrite andb_true_l; by apply tag_get_walk_leaf.
Qed.

(** An index that holds an item has a leaf. *)
Lemma get_has_leaf h p i v : wf (S h) p -> get (S h) p i = Some v -> has_leaf (S h) p i = true.
Proof.
  revert p; induction h as [|h IH]; intros p W Hg; pose proof W as (n & -> & _); [done|].
  destruct (wf_slot _ n i W) as (c & _ & E2 & Hc); rewrite get_S, E2 in Hg.
  rewrite has_leaf_S, E2; destruct Hc as [->|Hc]; [by rewrite get_null in Hg|by apply IH].
Qed.

Lemma tag_set_root_spec (r : radix_tree_root) (i : Z) (k : nat) (item : rptr) :
  wf_root r -> (0 < rt_height r)%nat -> 0 <= i < 2 ^ 64 -> (k < 2)%nat ->
  radix_tree_lookup r i = Ok item -> item <> PNull ->
  exists r', radix_tree_tag_set r i k = Ok r' /\ wf_root r' /\
    (forall j, 0 <= j < 2 ^ 64 -> radix_tree_lookup r' j = radix_tree_lookup r j) /\
    forall j k', 0 <= j < 2 ^ 64 -> (k' < 2)%nat ->
      radix_tree_tag_get r' j k' =
      if decide (j = i /\ k' = k) then Ok true else radix_tree_tag_get r j k'.
Proof.
  intros Hw H0 Hi Hk Hl Hne; unfold radix_tree_tag_set.
  rewrite radix_tree_lookup_get in Hl by (done || lia); injection Hl as <-.
  destruct (root_get r i) as [v|] eqn:Hv; [|done]; clear Hne; unfold root_get in Hv.
  rewrite (bool_decide_false (RADIX_TREE_MAX_TAGS <= k)%nat) by (unfold RADIX_TREE_MAX_TAGS; lia).
  destruct (wf_root_cases r Hw) as [->|(Hn & W & H8)]; [done|].
  rewrite Hn in Hv |- *; rewrite maxindex_eq by done; cbn [orb]; mstep.
  destruct (decide (i < _)) as [Hlt|]; [|done]; rewrite decide_False by lia.
  destruct r as [[|h] p]; cbn [rt_height rt_rnode] in *; [lia|]; rewrite decide_False by done.
  destruct (tag_set_walk_spec h p i k W Hk) as (p' & -> & W' & _ & Hg & Ht); mstep.
  assert (Hw' : wf_root (RRoot (S h) p')) by (by apply wf_root_intro).
  eexists; split_and!; [done|done| |].
  - intros j Hj; rewrite !radix_tree_lookup_get by (done || lia); unfold root_get.
    cbn [rt_height rt_rnode]; by rewrite Hn, (wf_nonnull _ _ W'), Hg.
  - intros j k' Hj Hk'; rewrite !radix_tree_tag_get_leaf by (done || lia); unfold root_tag.
    cbn [rt_height rt_rnode]; rewrite Ht, (get_has_leaf _ _ _ _ W Hv), andb_true_r.
    case_bool_decide as Hj2; [|rewrite decide_False by (intros [-> _]; lia); done].
    rewrite (bool_decide_ext (same_path (S h) i j) (i = j)) by (by rewrite same_path_below by lia).
    rewrite !andb_true_l; case_decide as E.
    + destruct E as [-> ->]; rewrite !bool_decide_true by done; by rewrite orb_true_r.
    + rewrite <-bool_decide_and, (bool_decide_false (k' = k /\ i = j)) by (intros [-> ->]; auto).
      by rewrite orb_false_r.
Qed.

(** On a well-formed tree of more than one level, tagging an index that holds an
    item makes [radix_tree_tag_get] report that tag there; every other tag and index
    keep their answer, every lookup is unchanged and the tree stays well formed. *)
Theorem radix_tree_tag_set_get (r : radix_tree_root) (i : Z) (k : nat) (item : rptr) :
  wf_root r -> (0 < rt_height r)%nat -> 0 <= i < 2 ^ 64 -> (k < 2)%nat ->
  radix_tree_lookup r i = Ok item -> item <> PNull ->
  exists r', radix_tree_tag_set r i k = Ok r' /\ wf_root r' /\
    (forall j, 0 <= j < 2 ^ 64 -> radix_tree_lookup r' j = radix_tree_lookup r j) /\
    forall j k', 0 <= j < 2 ^ 64 -> (k' < 2)%nat ->
      radix_tree_tag_get r' j k' =
      if decide (j = i /\ k' = k) then Ok true else radix_tree_tag_get r j k'.
Proof. apply tag_set_root_spec. Qed.

Lemma tag_clear_root_spec (r : radix_tree_root) (i : Z) (k : nat) :
  wf_root r -> 0 <= i < 2 ^ 64 -> (k < 2)%nat ->
  exists r', radix_tree_tag_clear r i k = Ok r' /\ wf_root r' /\
    (forall j, 0 <= j < 2 ^ 64 -> radix_tree_lookup r' j = radix_tree_lookup r j) /\
    forall j k', 0 <= j < 2 ^ 64 -> (k' < 2)%nat ->
      radix_tree_tag_get r' j k' =
      if decide (j = i /\ k' = k) then Ok false else radix_tree_tag_get r j k'.
Proof.
  intros Hw Hi Hk; unfold radix_tree_tag_clear.
  assert (Hsame : (forall k', root_tag r k' i = false) -> forall r1, r1 = r ->
    exists r', Ok r1 = Ok r' /\ wf_root r' /\
    (forall j, 0 <= j < 2 ^ 64 -> radix_tree_lookup r' j = radix_tree_lookup r j) /\
    forall j k', 0 <= j < 2 ^ 64 -> (k' < 2)%nat ->
      radix_tree_tag_get r' j k' =
      if decide (j = i /\ k' = k) then Ok false else radix_tree_tag_get r j k').
  { intros Hf ? ->; exists r; split_and!; [done|done|done|]; intros j k' Hj Hk'.
    case_decide as E; [destruct E as [-> ->]|done].
    by rewrite radix_tree_tag_get_leaf, Hf by (done || lia). }
  rewrite (bool_decide_false (RADIX_TREE_MAX_TAGS <= k)%nat) by (unfold RADIX_TREE_MAX_TAGS; lia).
  destruct (wf_root_cases r Hw) as [->|(Hn & W & H8)].
  { apply Hsame; [|done]; intros; apply andb_false_r. }
  rewrite Hn, maxindex_eq by done; cbn [orb]; mstep.
  case_decide as Hlt.
  { apply Hsame; [|done]; intros; unfold root_tag; by rewrite bool_decide_false by lia. }
  destruct r as [[|h] p]; cbn [rt_height rt_rnode] in *.
  { apply Hsame; [|done]; intros; apply andb_false_r. }
  rewrite decide_False by done.
  destruct (tag_clear_walk_spec h p i k W Hk) as ([[p' go]|] & -> & Hp); mstep.
  2:{ apply Hsame; [|done]; intros k'; unfold root_tag; cbn [rt_height rt_rnode].
      by rewrite Hp, andb_false_r. }
  destruct Hp as (W' & _ & Hg & Ht).
  assert (Hw' : wf_root (RRoot (S h) p')) by (by apply wf_root_intro).
  eexists; split_and!; [done|done| |].
  - intros j Hj; rewrite !radix_tree_lookup_get by (done || lia); unfold root_get.
    cbn [rt_height rt_rnode]; by rewrite Hn, (wf_nonnull _ _ W'), Hg.
  - intros j k' Hj Hk'; rewrite !radix_tree_tag_get_leaf by (done || lia); unfold root_tag.
    cbn [rt_height rt_rnode]; rewrite Ht.
    case_bool_decide as Hj2; [|rewrite decide_False by (intros [-> _]; lia); done].
    rewrite (bool_decide_ext (same_path (S h) i j) (i = j)) by (by rewrite same_path_below by lia).
    rewrite !andb_true_l, <-bool_decide_and; case_decide as E.
    + destruct E as [-> ->]; rewrite bool_decide_true by done; by rewrite andb_false_r.
    + rewrite bool_decide_false by (intros [-> ->]; auto); by rewrite andb_true_r.
Qed.

(** Clearing a tag on a well-formed tree makes [radix_tree_tag_get] answer 0
    for that tag and index; every other tag and index keep their answer, lookups are
    unchanged and the tree stays well formed. *)
Theorem radix_tree_tag_clear_get (r : radix_tree_root) (i : Z) (k : nat) :
  wf_root r -> 0 <= i < 2 ^ 64 -> (k < 2)%nat ->
  exists r', radix_tree_tag_clear r i k = Ok r' /\ wf_root r' /\
    (forall j, 0 <= j < 2 ^ 64 -> radix_tree_lookup r' j = radix_tree_lookup r j) /\
    forall j k', 0 <= j < 2 ^ 64 -> (k' < 2)%nat ->
      radix_tree_tag_get r' j k' =
      if decide (j = i /\ k' = k) then Ok false else radix_tree_tag_get r j k'.
Proof. apply tag_clear_root_spec. Qed.

(** Two levels, with items at 0 and 65. *)
Definition tree65 : radix_tree_root :=
  match radix_tree_insert item100 65 200 (replicate 14 true) with
  | Ok (_, r, _) => r
  | _ => item100
  end.

Lemma tree65_wf : wf_root tree65.
Proof.
  destruct (insert_root_spec item100 65 200 (replicate 14 true)) as (x & r' & o' & E & Hw & _);
    [split; [vm_compute; lia|by exists 100]|lia|lia|by left|].
  unfold tree65; by rewrite E.
Qed.

Lemma radix_tree_tag_set_get_witness :
  radix_tree_lookup tree65 65 = Ok (PItem 200) /\
  exists r', radix_tree_tag_set tree65 65 RADIX_TREE_TAG_DIRTY = Ok r' /\ wf_root r' /\
    (forall j, 0 <= j < 2 ^ 64 -> radix_tree_lookup r' j = radix_tree_lookup tree65 j) /\
    forall j k', 0 <= j < 2 ^ 64 -> (k' < 2)%nat ->
      radix_tree_tag_get r' j k' =
      if decide (j = 65 /\ k' = RADIX_TREE_TAG_DIRTY) then Ok true
      else radix_tree_tag_get tree65 j k'.
Proof.
  assert (E : radix_tree_lookup tree65 65 = Ok (PItem 200)) by (by vm_compute).
  split; [exact E|].
  apply (radix_tree_tag_set_get tree65 65 RADIX_TREE_TAG_DIRTY (PItem 200));
    [apply tree65_wf|vm_compute; lia|lia|vm_compute; lia|exact E|done].
Defined.

Lemma radix_tree_tag_clear_get_witness :
  exists r', radix_tree_tag_clear tree65 65 RADIX_TREE_TAG_DIRTY = Ok r' /\ wf_root r' /\
    (forall j, 0 <= j < 2 ^ 64 -> radix_tree_lookup r' j = radix_tree_lookup tree65 j) /\
    forall j k', 0 <= j < 2 ^ 64 -> (k' < 2)%nat ->
      radix_tree_tag_get r' j k' =
      if decide (j = 65 /\ k' = RADIX_TREE_TAG_DIRTY) then Ok false
      else radix_tree_tag_get tree65 j k'.
Proof.
  apply radix_tree_tag_clear_get; [apply tree65_wf|lia|vm_compute; lia].
Defined.

(** ** Gang lookup *)

(** The items below a node in slot order, each with its index; with a tag, those
    whose leaf carries it. *)
Fixpoint slot_ents (f : Z -> rptr -> list (Z * rptr)) (i : Z) (l : list rptr)
  : list (Z * rptr) :=
  match l with
  | [] => []
  | s :: l => (if is_null s then [] else f i s) ++ slot_ents f (i + 1) l
  end.

Definition tag_ok (tag : option nat) (n : node) (i : Z) : bool :=
  match tag with
  | None => true
  | Some k => match rn_tags n !! k with Some t => Z.testbit t i | None => false end
  end.

Fixpoint ents (tag : option nat) (h : nat) (p : rptr) (base : Z) : list (Z * rptr) :=
  match h, p with
  | S h', PNode n =>
      slot_ents (fun i s =>
        match h' with
        | O => if tag_ok tag n i then [(base + i, s)] else []
        | S _ => ents tag h' s (base + i * 2 ^ (6 * Z.of_nat h'))
        end) 0 (rn_slots n)
  | _, _ => []
  end.

Definition from (first : Z) (l : list (Z * rptr)) : list (Z * rptr) :=
  filter (fun e => first <= e.1) l.

Lemma lor_multiple q x w : 0 <= w -> 0 <= x < 2 ^ w -> Z.lor (q * 2 ^ w) x = q * 2 ^ w + x.
Proof.
  intros Hw Hx; rewrite <-Z.add_nocarry_lor; [done|].
  apply Z.bits_inj'; intros b Hb; rewrite Z.bits_0, Z.land_spec.
  destruct (decide (b < w)) as [Hlt|Hge].
  - by rewrite Z.mul_pow2_bits_low.
  - rewrite andb_comm, <-(Z.mod_small x (2 ^ w)) by done.
    by rewrite Z.mod_pow2_bits_high by lia.
Qed.

Lemma pow_path_S h : 2 ^ (6 * Z.of_nat (S h)) = 64 * 2 ^ (6 * Z.of_nat h).
Proof.
  replace (6 * Z.of_nat (S h)) with (6 + 6 * Z.of_nat h) by lia.
  by rewrite Z.pow_add_r by lia.
Qed.

Lemma slot_base_eq cur i h :
  0 <= i < 64 -> (2 ^ (6 * Z.of_nat (S h)) | cur) ->
  Z.lor (Z.land cur (Z.lnot (Z.shiftl 1 (6 * Z.of_nat h + RADIX_TREE_MAP_SHIFT) - 1)))
        (Z.shiftl i (6 * Z.of_nat h)) = cur + i * 2 ^ (6 * Z.of_nat h).
Proof.
  intros Hi [q ->]; unfold RADIX_TREE_MAP_SHIFT.
  replace (6 * Z.of_nat h + 6) with (6 * Z.of_nat (S h)) by lia.
  rewrite Z.shiftl_1_l; replace (2 ^ (6 * Z.of_nat (S h)) - 1) with (Z.ones (6 * Z.of_nat (S h)))
    by (rewrite Z.ones_equiv; lia).
  rewrite <-Z.ldiff_land, Z.ldiff_ones_r, Z.shiftr_div_pow2, Z.div_mul
    by (try apply Z.pow_nonzero; lia).
  rewrite !Z.shiftl_mul_pow2 by lia; apply lor_multiple; [lia|].
  rewrite pow_path_S; pose proof (pow_path_pos h); nia.
Qed.

Lemma slot_max_eq b h :
  (2 ^ (6 * Z.of_nat h) | b) ->
  Z.lor b (Z.shiftl 1 (6 * Z.of_nat h) - 1) = b + 2 ^ (6 * Z.of_nat h) - 1.
Proof.
  intros [q ->]; rewrite Z.shiftl_1_l; pose proof (pow_path_pos h).
  rewrite lor_multiple by lia; lia.
Qed.

(** The indices below a slot lie in the slot's range. *)
Lemma slot_ents_in f i l e :
  e ∈ slot_ents f i l -> exists j s, l !! j = Some s /\ is_null s = false /\
    e ∈ f (i + Z.of_nat j) s.
Proof.
  revert i; induction l as [|s l IH]; intros i He; simpl in He; [by apply not_elem_of_nil in He|].
  apply elem_of_app in He as [He|He].
  - exists 0%nat, s; destruct (is_null s) eqn:E; [by apply not_elem_of_nil in He|].
    rewrite Z.add_0_r; done.
  - destruct (IH _ He) as (j & s' & ? & ? & ?); exists (S j), s'; split_and!; [done|done|].
    by replace (i + Z.of_nat (S j)) with (i + 1 + Z.of_nat j) by lia.
Qed.

Lemma ents_range tag h p base e :
  wf (S h) p -> e ∈ ents tag (S h) p base ->
  base <= e.1 < base + 2 ^ (6 * Z.of_nat (S h)).
Proof.
  revert p base; induction h as [|h IH]; intros p base W He; pose proof W as (n & -> & _ & _ & Hl & _ & _ & _ & Hf);
    apply slot_ents_in in He as (j & s & Hj & Hn & He); pose proof (lookup_lt_Some _ _ _ Hj).
  - destruct (tag_ok _ _ _); [|by apply not_elem_of_nil in He].
    apply list_elem_of_singleton in He as ->; simpl; lia.
  - destruct (Forall_lookup_1 _ _ _ _ Hf Hj) as [->|Wc]; [done|].
    apply IH in He; [|done]; rewrite (pow_path_S (S h)).
    pose proof (pow_path_pos (S h)); rewrite Z.add_0_l in He; nia.
Qed.

(** A node with a tagged item below it carries the tag, at the slot of the item. *)
Lemma ents_tagged k h p base e :
  wf (S h) p -> e ∈ ents (Some k) (S h) p base ->
  exists t, node_tags p !! k = Some t /\ t <> 0.
Proof.
  revert p base; induction h as [|h IH]; intros p base W He;
    pose proof W as (n & -> & _ & _ & Hl & _ & _ & Hcl & Hf); cbn [node_tags];
    apply slot_ents_in in He as (j & s & Hj & Hn & He).
  - simpl in He; destruct (rn_tags n !! k) as [t|]; [|by apply not_elem_of_nil in He].
    destruct (Z.testbit t _) eqn:Hb; [|by apply not_elem_of_nil in He].
    exists t; split; [done|]; intros ->; by rewrite Z.bits_0 in Hb.
  - destruct (Forall_lookup_1 _ _ _ _ Hf Hj) as [->|Wc]; [done|].
    destruct (IH _ _ Wc He) as (t & Ht & Hne); destruct (Hcl _ _ _ _ Hj Ht Hne) as (u & Hu & Hb).
    exists u; split; [done|]; intros ->; by rewrite Z.bits_0 in Hb.
Qed.

Lemma list_no_elem {A} (l : list A) : (forall x, x ∉ l) -> l = [].
Proof. destruct l as [|x l]; [done|]; intros H; destruct (H x); by left. Qed.

Lemma from_app first l1 l2 : from first (l1 ++ l2) = from first l1 ++ from first l2.
Proof. apply filter_app. Qed.

Lemma from_none first l : (forall e, e ∈ l -> e.1 < first) -> from first l = [].
Proof.
  intros H; apply list_no_elem; intros e [Hf He]%list_elem_of_filter.
  specialize (H e He); simpl in Hf; lia.
Qed.

(** What slot [i] of [n] contributes. *)
Definition slot_part (tag : option nat) (h : nat) (n : node) (base i : Z) (s : rptr)
  : list (Z * rptr) :=
  match h with
  | O => if tag_ok tag n i then [(base + i, s)] else []
  | S _ => ents tag h s (base + i * 2 ^ (6 * Z.of_nat h))
  end.

Lemma ents_S tag h n base :
  ents tag (S h) (PNode n) base = slot_ents (slot_part tag h n base) 0 (rn_slots n).
Proof. done. Qed.

(** A slot that the tag test skips contributes nothing. *)
Lemma slot_part_skip tag h n base j s :
  wf (S h) (PNode n) -> rn_slots n !! j = Some s -> is_null s = false ->
  tag_ok tag n (Z.of_nat j) = false -> slot_part tag h n base (Z.of_nat j) s = [].
Proof.
  intros (n0 & [= <-] & _ & _ & Hl & _ & _ & Hcl & Hf) Hj Hn Ht.
  unfold slot_part; destruct h as [|h]; [by rewrite Ht|].
  apply list_no_elem; intros e He; destruct tag as [k|]; [|done].
  destruct (Forall_lookup_1 _ _ _ _ Hf Hj) as [->|Wc]; [done|].
  destruct (ents_tagged _ _ _ _ _ Wc He) as (t & Hk & Hne).
  destruct (Hcl _ _ _ _ Hj Hk Hne) as (u & Hu & Hb); simpl in Ht.
  by rewrite Hu, Hb in Ht.
Qed.

Definition skip_of (tag : option nat) (n : node) (i : Z) : res bool :=
  match tag with
  | None => Ok false
  | Some k => t ← of_opt (rn_tags n !! k); Ok (bool_decide (Z.land t (slot_bit i) = 0))
  end.

Lemma skip_of_ok tag h n i :
  wf (S h) (PNode n) -> match tag with Some k => (k < 2)%nat | None => True end -> 0 <= i ->
  skip_of tag n i = Ok (negb (tag_ok tag n i)).
Proof.
  intros W Hk Hi; destruct tag as [k|]; [|done]; unfold skip_of, tag_ok.
  destruct (wf_tag _ _ _ W Hk) as (t & -> & _); cbn [of_opt]; mstep; f_equal.
  rewrite (bool_decide_ext _ (Z.testbit t i = false)) by (by apply land_slot_bit).
  by destruct (Z.testbit t i).
Qed.

Lemma take_acc {A} (acc l1 l2 : list A) (m : nat) :
  (length acc < m)%nat ->
  let a := acc ++ take (m - length acc) l1 in
  (if decide (m <= length a)%nat then a else a ++ take (m - length a) l2) =
  acc ++ take (m - length acc) (l1 ++ l2).
Proof.
  intros Hm a; unfold a; rewrite length_app, length_take, take_app.
  case_decide.
  - replace (m - length acc - length l1)%nat with 0%nat by lia.
    by rewrite take_0, app_nil_r.
  - rewrite <-app_assoc; do 3 f_equal; lia.
Qed.

Lemma gang_loop_cons sub n s rest i cur first m tag acc :
  gang_loop sub n (s :: rest) i cur first m tag acc =
  (let next := gang_loop sub n rest (i + 1) cur first m tag in
   let shift := rn_shift n in
   skip ← skip_of tag n i;
   if skip || is_null s then next acc
   else
     let slot_base :=
       Z.lor (Z.land cur (Z.lnot (Z.shiftl 1 (shift + RADIX_TREE_MAP_SHIFT) - 1)))
             (Z.shiftl i shift) in
     if decide (shift = 0) then
       if decide (first <= slot_base) then
         let acc := acc ++ [s] in
         if decide (m <= length acc)%nat then Ok acc else next acc
       else next acc
     else
       let slot_max := Z.lor slot_base (Z.shiftl 1 shift - 1) in
       if decide (first <= slot_max) then
         got ← sub s slot_base (m - length acc)%nat;
         let acc := acc ++ got in
         if decide (m <= length acc)%nat then Ok acc else next acc
       else next acc).
Proof. done. Qed.

Definition gang_ref (tag : option nat) (h : nat) (p : rptr) (base first : Z) (m : nat)
  : list rptr := snd <$> take m (from first (ents tag h p base)).

Definition gang_tail (tag : option nat) (h : nat) (n : node) (base first i : Z)
    (rest : list rptr) : list rptr :=
  snd <$> from first (slot_ents (slot_part tag h n base) i rest).

Lemma gang_tail_cons tag h n base first i s rest :
  gang_tail tag h n base first i (s :: rest) =
  (snd <$> from first (if is_null s then [] else slot_part tag h n base i s)) ++
  gang_tail tag h n base first (i + 1) rest.
Proof. unfold gang_tail; cbn [slot_ents]; by rewrite from_app, fmap_app. Qed.

Lemma take_acc_res {A} (acc l1 l2 : list A) (m : nat) (k : list A -> res (list A)) :
  (length acc < m)%nat ->
  (forall a, (length a < m)%nat -> k a = Ok (a ++ take (m - length a) l2)) ->
  (if decide (m <= length (acc ++ take (m - length acc) l1))%nat
   then Ok (acc ++ take (m - length acc) l1)
   else k (acc ++ take (m - length acc) l1)) =
  Ok (acc ++ take (m - length acc) (l1 ++ l2)).
Proof.
  intros Hm Hk; rewrite <-take_acc by done; cbv zeta.
  case_decide; [done|]; apply Hk; lia.
Qed.

Section gang.
Variables (tag : option nat) (first : Z).
Hypothesis tag_lt : match tag with Some k => (k < 2)%nat | None => True end.

Lemma gang_loop_spec sub h n base m done_slots rest acc :
  wf (S h) (PNode n) -> (2 ^ (6 * Z.of_nat (S h)) | base) ->
  rn_slots n = done_slots ++ rest -> (length acc < m)%nat ->
  (forall h' c b k, h = S h' -> wf h c -> (2 ^ (6 * Z.of_nat h) | b) ->
     sub c b k = Ok (gang_ref tag h c b first k)) ->
  gang_loop sub n rest (Z.of_nat (length done_slots)) base first m tag acc =
  Ok (acc ++ take (m - length acc)
        (gang_tail tag h n base first (Z.of_nat (length done_slots)) rest)).
Proof.
  intros W Hb Hsl Hm Hsub; revert done_slots acc Hsl Hm.
  induction rest as [|s rest IH]; intros ds acc Hsl Hm.
  { cbn; by rewrite take_nil, app_nil_r. }
  assert (IH' : forall a, (length a < m)%nat ->
    gang_loop sub n rest (Z.of_nat (length ds) + 1) base first m tag a =
    Ok (a ++ take (m - length a)
          (gang_tail tag h n base first (Z.of_nat (length ds) + 1) rest))).
  { intros a Ha; specialize (IH (ds ++ [s]) a); rewrite length_app in IH; simpl in IH.
    rewrite Nat2Z.inj_add in IH; apply IH; [by rewrite <-app_assoc|done]. }
  clear IH; rewrite gang_loop_cons, gang_tail_cons; cbv zeta; set (i := Z.of_nat (length ds)) in *.
  assert (Hi : rn_slots n !! length ds = Some s)
    by (rewrite Hsl, lookup_app_r, Nat.sub_diag by lia; done).
  rewrite (skip_of_ok _ h) by (done || lia); mstep.
  destruct (is_null s) eqn:Hnull.
  { rewrite orb_true_r; simpl; by apply IH'. }
  destruct (tag_ok tag n i) eqn:Hok; cbn [negb orb].
  2:{ assert (slot_part tag h n base i s = []) as -> by (by apply slot_part_skip).
      simpl; by apply IH'. }
  pose proof W as (n0 & [= <-] & Hsh & _ & Hl & _ & _ & _ & Hf).
  assert (Hi64 : 0 <= i < 64)
    by (apply lookup_lt_Some in Hi; rewrite Hl in Hi; lia).
  rewrite Hsh, slot_base_eq by done.
  destruct h as [|h].
  - rewrite decide_True by done; unfold slot_part; rewrite Hok; unfold from.
    change (2 ^ (6 * Z.of_nat 0)) with 1; rewrite Z.mul_1_r, filter_cons; cbn [fst].
    case_decide; [|by apply IH'].
    etrans; [|exact (take_acc_res acc [s] _ m _ Hm IH')].
    by rewrite (take_ge [s]) by (simpl; lia).
  - rewrite decide_False by lia.
    destruct (Forall_lookup_1 _ _ _ _ Hf Hi) as [->|Wc]; [done|].
    assert (Hd : (2 ^ (6 * Z.of_nat (S h)) | base + i * 2 ^ (6 * Z.of_nat (S h)))).
    { apply Z.divide_add_r; [|by apply Z.divide_factor_r].
      etrans; [|exact Hb]; rewrite (pow_path_S (S h)); apply Z.divide_factor_r. }
    rewrite slot_max_eq by done; case_decide as Hmax.
    + rewrite (Hsub h) by done; mstep; unfold gang_ref; rewrite fmap_take.
      by rewrite (take_acc_res acc _ _ m _ Hm IH').
    + rewrite (from_none _ (slot_part _ _ _ _ _ _)); [by apply IH'|].
      intros e He; pose proof (ents_range _ _ _ _ _ Wc He); lia.
Qed.

Lemma gang_lookup_node_spec fuel h p base m :
  wf (S h) p -> (h < fuel)%nat -> (2 ^ (6 * Z.of_nat (S h)) | base) ->
  gang_lookup_node fuel tag first p base m = Ok (gang_ref tag (S h) p base first m).
Proof.
  revert h p base m; induction fuel as [|f IH]; intros h p base m W Hf Hb; [lia|].
  pose proof W as (n & -> & _); cbn [gang_lookup_node is_null orb as_node].
  case_bool_decide as Hm; [by subst|]; mstep.
  unfold gang_ref; rewrite ents_S, fmap_take.
  rewrite (gang_loop_spec _ h n base m [] (rn_slots n) []); simpl; [|done|done|done|lia|].
  { by rewrite Nat.sub_0_r. }
  intros h' c b k -> Wc Hd; apply IH; [done|lia|done].
Qed.
End gang.

Lemma slot_ents_elem f i l e :
  e ∈ slot_ents f i l <-> exists j s, l !! j = Some s /\ is_null s = false /\
    e ∈ f (i + Z.of_nat j) s.
Proof.
  split; [apply slot_ents_in|]; intros (j & s & Hj & Hn & He); revert i j Hj He.
  induction l as [|s' l IH]; intros i [|j] Hj He; simplify_eq/=; apply elem_of_app.
  - left; by rewrite Hn; rewrite Z.add_0_r in He.
  - right; eapply IH; [done|]; by replace (i + 1 + Z.of_nat j) with (i + Z.of_nat (S j)) by lia.
Qed.

Lemma slot_of_in_slot base j i h :
  (2 ^ (6 * Z.of_nat (S h)) | base) -> 0 <= i < 64 ->
  base + i * 2 ^ (6 * Z.of_nat h) <= j < base + (i + 1) * 2 ^ (6 * Z.of_nat h) <->
  base <= j < base + 2 ^ (6 * Z.of_nat (S h)) /\
  slot_of j (Z.of_nat h * RADIX_TREE_MAP_SHIFT) = i.
Proof.
  intros [q ->] Hi; unfold RADIX_TREE_MAP_SHIFT; rewrite slot_of_div by lia.
  rewrite (Z.mul_comm (Z.of_nat h) 6), pow_path_S.
  pose proof (pow_path_pos h) as Hp; set (w := 2 ^ (6 * Z.of_nat h)) in *; clearbody w.
  pose proof (Z.div_mod j w ltac:(lia)); pose proof (Z.mod_pos_bound j w Hp).
  pose proof (Z.div_mod (j / w) 64 ltac:(lia)); pose proof (Z.mod_pos_bound (j / w) 64).
  set (d := j / w) in *; set (r := j mod w) in *; set (e := d / 64) in *; set (f := d mod 64) in *.
  clearbody d r e f.
  split.
  - intros Hj; assert (d = q * 64 + i) by nia; split; [nia|lia].
  - intros [Hj <-]; assert (e = q) by nia; subst; split; nia.
Qed.

Definition tag_cond (tag : option nat) (h : nat) (p : rptr) (j : Z) : Prop :=
  match tag with None => True | Some k => leaf_tag h p k j = true end.

Lemma slot_lookup h n i j s :
  wf (S h) (PNode n) -> rn_slots n !! i = Some s ->
  slot_of j (Z.of_nat h * RADIX_TREE_MAP_SHIFT) = Z.of_nat i ->
  rn_slots n !! Z.to_nat (slot_of j (Z.of_nat h * RADIX_TREE_MAP_SHIFT)) = Some s.
Proof. intros W Hi ->; by rewrite Nat2Z.id. Qed.

(** The enumeration is exactly the tree's contents: the leaves, then the step from
    a node's children to the node. *)
Lemma ents_elem_leaf tag n base j x :
  wf 1 (PNode n) -> (2 ^ (6 * Z.of_nat 1) | base) ->
  (j, x) ∈ ents tag 1 (PNode n) base <->
  base <= j < base + 2 ^ (6 * Z.of_nat 1) /\ tag_cond tag 1 (PNode n) j /\
  exists v, x = PItem v /\ get 1 (PNode n) j = Some v.
Proof.
  intros W Hb; pose proof W as (n0 & [= <-] & _ & _ & Hl & _ & _ & _ & Hf).
  rewrite ents_S, slot_ents_elem.
  split.
  - intros (i & s & Hi & Hn & He); pose proof (lookup_lt_Some _ _ _ Hi);
      unfold slot_part in He; rewrite Z.add_0_l in He.
    destruct (tag_ok tag n (Z.of_nat i)) eqn:Hok; [|by apply not_elem_of_nil in He].
    apply list_elem_of_singleton in He; simplify_eq.
    destruct (proj1 (slot_of_in_slot base (base + Z.of_nat i) (Z.of_nat i) 0 Hb ltac:(lia)))
      as [Hr Hs]; [change (2 ^ (6 * Z.of_nat 0)) with 1; lia|].
    split; [done|]; split.
    + destruct tag as [k|]; [|done]; unfold tag_cond; by rewrite leaf_tag_1, Hs.
    + rewrite get_S, (slot_lookup _ _ _ _ _ W Hi Hs).
      destruct (Forall_lookup_1 _ _ _ _ Hf Hi) as [->|(v & -> & _)]; [done|eauto].
  - intros (Hr & Ht & v & -> & Hg); destruct (wf_slot _ n j W) as (c & _ & E & Hc).
    rewrite get_S, E in Hg; pose proof (slot_of_nonneg j 0) as Hs.
    exists (Z.to_nat (slot_of j (Z.of_nat 0 * RADIX_TREE_MAP_SHIFT))), c.
    destruct Hc as [->|(v' & -> & _)]; [done|]; simpl in Hg; simplify_eq.
    split_and!; [done|done|]; rewrite Z.add_0_l, Z2Nat.id by lia.
    assert (tag_ok tag n (slot_of j (Z.of_nat 0 * RADIX_TREE_MAP_SHIFT)) = true) as Hok.
    { destruct tag as [k|]; [|done]; unfold tag_cond in Ht; by rewrite leaf_tag_1 in Ht. }
    unfold slot_part; rewrite Hok; apply list_elem_of_singleton; f_equal.
    destruct (proj2 (slot_of_in_slot base j _ 0 Hb Hs) (conj Hr eq_refl)) as [H1 H2].
    change (2 ^ (6 * Z.of_nat 0)) with 1 in *; lia.
Qed.

Lemma ents_elem_node tag h n base j x :
  wf (S (S h)) (PNode n) -> (2 ^ (6 * Z.of_nat (S (S h))) | base) ->
  (forall p base, wf (S h) p -> (2 ^ (6 * Z.of_nat (S h)) | base) ->
   (j, x) ∈ ents tag (S h) p base <->
  base <= j < base + 2 ^ (6 * Z.of_nat (S h)) /\ tag_cond tag (S h) p j /\
  exists v, x = PItem v /\ get (S h) p j = Some v) ->
  (j, x) ∈ ents tag (S (S h)) (PNode n) base <->
  base <= j < base + 2 ^ (6 * Z.of_nat (S (S h))) /\ tag_cond tag (S (S h)) (PNode n) j /\
  exists v, x = PItem v /\ get (S (S h)) (PNode n) j = Some v.
Proof.
  intros W Hb IH; pose proof W as (n0 & [= <-] & _ & _ & Hl & _ & _ & _ & Hf).
  rewrite ents_S, slot_ents_elem.
  assert (Hcond : forall i c, rn_slots n !! i = Some c ->
    slot_of j (Z.of_nat (S h) * RADIX_TREE_MAP_SHIFT) = Z.of_nat i ->
    (tag_cond tag (S (S h)) (PNode n) j <-> tag_cond tag (S h) c j)).
  { intros i c Hi Hs; destruct tag as [k|]; [|done]; unfold tag_cond.
    by rewrite leaf_tag_S, (slot_lookup _ _ _ _ _ W Hi Hs). }
  assert (Hdv : forall i, (2 ^ (6 * Z.of_nat (S h)) | base + i * 2 ^ (6 * Z.of_nat (S h)))).
  { intros i; apply Z.divide_add_r; [|apply Z.divide_factor_r].
    etrans; [|exact Hb]; rewrite (pow_path_S (S h)); apply Z.divide_factor_r. }
  split.
  - intros (i & s & Hi & Hn & He); pose proof (lookup_lt_Some _ _ _ Hi).
    destruct (Forall_lookup_1 _ _ _ _ Hf Hi) as [->|Wc]; [done|].
    apply IH in He as (Hr & Ht & v & -> & Hg); [|done|apply Hdv].
    destruct (proj1 (slot_of_in_slot base j (Z.of_nat i) (S h) Hb ltac:(lia))) as [Hr' Hs]; [lia|].
    split_and!; [lia|lia|by eapply Hcond|].
    exists v; split; [done|]; by rewrite get_S, (slot_lookup _ _ _ _ _ W Hi Hs).
  - intros (Hr & Ht & v & -> & Hg); destruct (wf_slot _ n j W) as (c & _ & E & Hc).
    pose proof (slot_of_nonneg j (S h)) as Hs.
    rewrite get_S, E in Hg; destruct Hc as [->|Wc]; [by rewrite get_null in Hg|].
    exists (Z.to_nat (slot_of j (Z.of_nat (S h) * RADIX_TREE_MAP_SHIFT))), c.
    split_and!; [done|by eapply wf_nonnull|]; rewrite Z.add_0_l, Z2Nat.id by lia.
    apply IH; [done|apply Hdv|].
    destruct (proj2 (slot_of_in_slot base j _ (S h) Hb Hs) (conj Hr eq_refl)) as [H1 H2].
    split_and!; [lia|lia|eapply Hcond; [exact E|lia|done]|eauto].
Qed.

Lemma ents_elem tag h p base j x :
  wf (S h) p -> (2 ^ (6 * Z.of_nat (S h)) | base) ->
  (j, x) ∈ ents tag (S h) p base <->
  base <= j < base + 2 ^ (6 * Z.of_nat (S h)) /\ tag_cond tag (S h) p j /\
  exists v, x = PItem v /\ get (S h) p j = Some v.
Proof.
  revert p base; induction h as [|h IH]; intros p base W Hb; pose proof W as (n & -> & _).
  - by apply ents_elem_leaf.
  - by apply ents_elem_node.
Qed.

Definition by_index (e e' : Z * rptr) : Prop := e.1 < e'.1.

Lemma slot_ents_sorted f i l lo w :
  0 < w ->
  (forall j s, l !! j = Some s -> is_null s = false ->
     StronglySorted by_index (f (i + Z.of_nat j) s) /\
     forall e, e ∈ f (i + Z.of_nat j) s ->
       lo + (i + Z.of_nat j) * w <= e.1 < lo + (i + Z.of_nat j + 1) * w) ->
  StronglySorted by_index (slot_ents f i l).
Proof.
  intros Hw; revert i; induction l as [|s l IH]; intros i Hf; [constructor|]; cbn [slot_ents].
  assert (Htl : forall j s', l !! j = Some s' -> is_null s' = false ->
     StronglySorted by_index (f (i + 1 + Z.of_nat j) s') /\
     forall e, e ∈ f (i + 1 + Z.of_nat j) s' ->
       lo + (i + 1 + Z.of_nat j) * w <= e.1 < lo + (i + 1 + Z.of_nat j + 1) * w).
  { intros j s' Hj Hn; replace (i + 1 + Z.of_nat j) with (i + Z.of_nat (S j)) by lia.
    by apply Hf. }
  destruct (is_null s) eqn:Hn; [by apply IH|].
  destruct (Hf 0%nat s eq_refl Hn) as [Hs Hr]; rewrite Z.add_0_r in Hs, Hr.
  apply StronglySorted_app_2; [|done|by apply IH].
  intros e1 e2 H1 (j & s' & Hj & Hn' & H2)%slot_ents_in.
  destruct (Htl j s' Hj Hn') as [_ Hr2]; specialize (Hr e1 H1); specialize (Hr2 e2 H2).
  unfold by_index; nia.
Qed.

Lemma ents_sorted tag h p base : wf (S h) p -> StronglySorted by_index (ents tag (S h) p base).
Proof.
  revert p base; induction h as [|h IH]; intros p base W;
    pose proof W as (n & -> & _ & _ & _ & _ & _ & _ & Hf); rewrite ents_S.
  - apply (slot_ents_sorted _ _ _ base 1); [lia|]; intros j s Hj Hn; unfold slot_part.
    destruct (tag_ok _ _ _); split; [repeat constructor| |constructor|].
    + intros e ->%list_elem_of_singleton; simpl; lia.
    + intros e []%not_elem_of_nil.
  - apply (slot_ents_sorted _ _ _ base (2 ^ (6 * Z.of_nat (S h)))); [apply pow_path_pos|].
    intros j s Hj Hn; destruct (Forall_lookup_1 _ _ _ _ Hf Hj) as [->|Wc]; [done|].
    unfold slot_part; split; [by apply IH|]; intros e He.
    pose proof (ents_range _ _ _ _ _ Wc He); lia.
Qed.

Lemma filter_sorted {A} (R : relation A) (P : A -> Prop) `{!forall x, Decision (P x)} l :
  StronglySorted R l -> StronglySorted R (filter P l).
Proof.
  induction 1 as [|x l Hl IH Hx]; [constructor|]; rewrite filter_cons; case_decide; [|done].
  constructor; [done|]; apply Forall_forall; intros y [_ Hy]%list_elem_of_filter.
  by eapply Forall_forall in Hy.
Qed.

(** [gang_spec r P first m items]: [items] are what the first [m] indices from
    [first] on that hold an item and satisfy [P] hold, in increasing order. *)
Definition gang_spec (r : radix_tree_root) (P : Z -> Prop) (first : Z) (m : nat)
    (items : list rptr) : Prop :=
  exists idxs, StronglySorted Z.lt idxs /\
    (forall j, j ∈ idxs <-> 0 <= j < 2 ^ 64 /\ first <= j /\ P j /\
       exists item, radix_tree_lookup r j = Ok item /\ item <> PNull) /\
    Forall2 (fun j x => radix_tree_lookup r j = Ok x) (take m idxs) items.

Lemma gang_node_spec (tag : option nat) first h p m :
  wf_root (RRoot (S h) p) -> 0 <= first ->
  match tag with Some k => (k < 2)%nat | None => True end ->
  exists items, gang_lookup_node 9 tag first p 0 m = Ok items /\
    gang_spec (RRoot (S h) p)
      (fun j => match tag with
                | Some k => radix_tree_tag_get (RRoot (S h) p) j k = Ok true
                | None => True end) first m items.
Proof.
  intros Hw Hf Ht; destruct (wf_root_cases _ Hw) as [?|(Hn & W & H8)]; [done|].
  cbn [rt_height rt_rnode] in *; assert (Hd : (2 ^ (6 * Z.of_nat (S h)) | 0)) by apply Z.divide_0_r.
  rewrite (gang_lookup_node_spec tag first Ht 9 h) by (done || lia).
  eexists; split; [done|]; exists (fst <$> from first (ents tag (S h) p 0)).
  assert (Hlim : 2 ^ (6 * Z.of_nat (S h)) <= 2 ^ 64) by (apply Z.pow_le_mono_r; lia).
  split_and!.
  - eapply (StronglySorted_fmap fst by_index); [done|].
    by apply filter_sorted, ents_sorted.
  - intros j; rewrite list_elem_of_fmap; setoid_rewrite list_elem_of_filter; split.
    + intros ([j' x] & -> & Hfirst & (Hr & Htag & v & -> & Hg)%ents_elem); [|done|done].
      cbn [fst] in *; split_and!; try lia.
      * destruct tag as [k|]; [|done]; rewrite radix_tree_tag_get_leaf by (done || lia).
        unfold root_tag; cbn [rt_height rt_rnode]; by rewrite bool_decide_true, Htag by lia.
      * exists (PItem v); split; [|done]; rewrite radix_tree_lookup_get by (done || lia).
        unfold root_get; cbn [rt_height rt_rnode]; by rewrite Hn, decide_True, Hg by lia.
    + intros (Hr & Hfirst & Htag & item & Hl & Hne).
      rewrite radix_tree_lookup_get in Hl by (done || lia).
      destruct (root_get _ j) as [v|] eqn:Hg; simplify_eq/=; unfold root_get in Hg.
      cbn [rt_height rt_rnode] in Hg; rewrite Hn in Hg; case_decide; [|done].
      exists (j, PItem v); split_and!; [done|done|]; apply ents_elem; [done|done|].
      split_and!; [lia|lia| |eauto]; destruct tag as [k|]; [|done].
      rewrite radix_tree_tag_get_leaf in Htag by (done || lia); injection Htag as Htag.
      unfold root_tag in Htag; cbn [rt_height rt_rnode] in Htag.
      by rewrite bool_decide_true, andb_true_l in Htag by done.
  - unfold gang_ref; rewrite <-fmap_take; apply Forall2_fmap_2, Forall_Forall2_diag.
    apply Forall_forall; intros [j x] He; apply elem_of_take in He as (? & He & _).
    apply list_elem_of_lookup_2, list_elem_of_filter in He as [Hfi (Hr & _ & v & -> & Hg)%ents_elem]; [|done|done].
    simpl; rewrite radix_tree_lookup_get by (done || lia).
    unfold root_get; cbn [rt_height rt_rnode]; by rewrite Hn, decide_True, Hg by lia.
Qed.

Lemma gang_spec_0 r P first m items : gang_spec r P first m items -> gang_spec r P first 0 [].
Proof. intros (idxs & H1 & H2 & _); exists idxs; split_and!; [done|done|constructor]. Qed.

(** A tree that is one item at index 0. *)
Lemma gang_spec_item v first m :
  v <> 0 -> 0 <= first ->
  gang_spec (RRoot 0 (PItem v)) (fun _ => True) first m
    (if decide (first = 0) then take m [PItem v] else []).
Proof.
  intros Hv Hf; exists (if decide (first = 0) then [0] else []); split_and!.
  - case_decide; repeat constructor.
  - intros j; unfold radix_tree_lookup; cbn [is_null rt_rnode rt_height].
    rewrite maxindex_eq by lia; mstep; case_decide as Hz; split.
    + intros ->%list_elem_of_singleton; split_and!; try (done || lia).
      exists (PItem v); split; [|done]; by rewrite decide_False by (simpl; lia).
    + intros (Hr & _ & _ & x & Hx & Hne); apply list_elem_of_singleton.
      case_decide; [by simplify_eq|]; simpl in *; lia.
    + by intros ?%not_elem_of_nil.
    + intros (Hr & ? & _ & x & Hx & Hne); case_decide; [by simplify_eq|]; simpl in *; lia.
  - case_decide; [|by rewrite take_nil]; destruct m as [|m]; [constructor|].
    simpl; rewrite !take_nil; repeat constructor.
Qed.

Lemma gang_spec_none r (P : Z -> Prop) first m :
  (forall j item, 0 <= j < 2 ^ 64 -> first <= j -> P j ->
     radix_tree_lookup r j = Ok item -> item = PNull) -> gang_spec r P first m [].
Proof.
  intros H; exists []; split_and!; [constructor| |by rewrite take_nil].
  intros j; split; [by intros ?%not_elem_of_nil|].
  intros (Hr & Hf & Hp & x & Hx & []); eauto.
Qed.

Lemma gang_root_spec (r : radix_tree_root) (first : Z) (m : nat) :
  wf_root r -> 0 <= first < 2 ^ 64 ->
  exists items, radix_tree_gang_lookup r first m = Ok items /\
    gang_spec r (fun _ => True) first m items.
Proof.
  intros Hw Hf; unfold radix_tree_gang_lookup.
  destruct (wf_root_cases r Hw) as [->|(Hn & W & H8)].
  { exists []; split; [done|]; apply gang_spec_none; by intros j x _ _ _ [= <-]. }
  rewrite Hn; cbn [orb]; destruct r as [[|h] p]; cbn [rt_height rt_rnode] in *.
  - destruct W as (v & -> & Hv); pose proof (gang_spec_item v first m Hv (proj1 Hf)) as Hs.
    case_bool_decide; [subst m; exists []; split; [done|by destruct (decide (first = 0))]|].
    eexists; split; [by rewrite decide_True|]; destruct m as [|m]; [done|].
    simpl take in Hs; by rewrite take_nil in Hs.
  - destruct (gang_node_spec None first h p m Hw) as (items & E & Hs); [lia|done|].
    case_bool_decide; [subst m; exists []; split; [done|]; by eapply gang_spec_0|].
    rewrite decide_False by done; eauto.
Qed.

(** On a well-formed tree, [radix_tree_gang_lookup] returns what the first
    [max_items] used indices from [first_index] on hold, in increasing order of
    index; its recursion ends and never faults. *)
Theorem radix_tree_gang_lookup_spec (r : radix_tree_root) (first : Z) (m : nat) :
  wf_root r -> 0 <= first < 2 ^ 64 ->
  exists items, radix_tree_gang_lookup r first m = Ok items /\
    gang_spec r (fun _ => True) first m items.
Proof. apply gang_root_spec. Qed.

Lemma gang_tag_root_spec (r : radix_tree_root) (first : Z) (m k : nat) :
  wf_root r -> 0 <= first < 2 ^ 64 -> (k < 2)%nat ->
  exists items, radix_tree_gang_lookup_tag r first m k = Ok items /\
    gang_spec r (fun j => radix_tree_tag_get r j k = Ok true) first m items.
Proof.
  intros Hw Hf Hk; unfold radix_tree_gang_lookup_tag.
  rewrite (bool_decide_false (RADIX_TREE_MAX_TAGS <= k)%nat) by (unfold RADIX_TREE_MAX_TAGS; lia).
  rewrite orb_false_r; destruct (wf_root_cases r Hw) as [->|(Hn & W & H8)].
  { exists []; split; [done|]; apply gang_spec_none; by intros j x _ _ _ [= <-]. }
  rewrite Hn; cbn [orb]; destruct r as [[|h] p]; cbn [rt_height rt_rnode] in *.
  - exists []; rewrite decide_True by done; split; [by case_bool_decide|].
    apply gang_spec_none; intros j x Hj _ Ht; exfalso.
    rewrite radix_tree_tag_get_leaf in Ht by (done || lia).
    unfold root_tag in Ht; simpl in Ht; by rewrite andb_false_r in Ht.
  - destruct (gang_node_spec (Some k) first h p m Hw) as (items & E & Hs); [lia|done|].
    case_bool_decide; [subst m; exists []; split; [done|]; by eapply gang_spec_0|].
    rewrite decide_False by done; eauto.
Qed.

(** C20: The same with a tag: [radix_tree_gang_lookup_tag] returns what the first
    [max_items] indices from [first_index] on hold among those for which
    [radix_tree_tag_get] reports the tag. *)
Theorem radix_tree_gang_lookup_tag_spec (r : radix_tree_root) (first : Z) (m k : nat) :
  wf_root r -> 0 <= first < 2 ^ 64 -> (k < 2)%nat ->
  exists items, radix_tree_gang_lookup_tag r first m k = Ok items /\
    gang_spec r (fun j => radix_tree_tag_get r j k = Ok true) first m items.
Proof. apply gang_tag_root_spec. Qed.

Lemma radix_tree_gang_lookup_spec_witness :
  exists items, radix_tree_gang_lookup tree65 1 4 = Ok items /\
    gang_spec tree65 (fun _ => True) 1 4 items.
Proof. apply radix_tree_gang_lookup_spec; [apply tree65_wf|lia]. Defined.

Lemma radix_tree_gang_lookup_tag_spec_witness :
  exists items, radix_tree_gang_lookup_tag tree65 0 4 RADIX_TREE_TAG_DIRTY = Ok items /\
    gang_spec tree65 (fun j => radix_tree_tag_get tree65 j RADIX_TREE_TAG_DIRTY = Ok true)
      0 4 items.
Proof. apply radix_tree_gang_lookup_tag_spec; [apply tree65_wf|lia|vm_compute; lia]. Defined.
