(* ===== verification/PageCache.v ===== *)
(** * mem/pagecache.c: the page cache

    The state holds the page descriptors the cache touches, the address spaces
    with their radix trees, the mapped areas, the LRU heads and the counters.
    Pointers are numbers and NULL is 0.  What other code decides is in the state
    as the answers still to come: [kmalloc] inside the tree, [pmm_alloc_page], and
    the file system's [read_page] and [write_page].  Calls that leave the cache
    are events.  Locks do not appear; waiting for a page that another thread has
    locked does not end in a sequential run and is [NoFuel]. *)

From S2P Require Import Prelude RadixTree.
From stdpp Require Import base tactics option list numbers gmap.
From Stdlib Require Import ZArith Lia.

Local Open Scope Z_scope.

Definition PAGE_FLAG_CACHED : Z := 2 ^ 6.
Definition PAGE_FLAG_DIRTY : Z := 2 ^ 7.
Definition PAGE_FLAG_LOCKED : Z := 2 ^ 8.
Definition PAGE_FLAG_ERROR : Z := 2 ^ 15.

Record page := mkPage {
  pg_flags : Z; pg_refcount : Z; pg_mapping : Z; pg_index : Z;
  pg_lru_prev : Z; pg_lru_next : Z;
}.

(** [a_ops] is which of the two callbacks are set. *)
Record address_space := mkSpace {
  sp_tree : radix_tree_root; sp_i_mmap : Z; sp_nr_pages : Z; sp_wb_err : Z;
  sp_read_page : bool; sp_write_page : bool;
}.

(** [vma_ctx] is [space->mmu_ctx], 0 when there is none. *)
Record vm_area := mkVma {
  vma_start : Z; vma_end : Z; vma_file_offset : Z; vma_i_mmap_next : Z; vma_ctx : Z;
}.

Inductive event :=
  | EvRead (mapping page : Z)
  | EvWrite (mapping page : Z)
  | EvFree (page : Z)
  | EvUnmap (ctx vaddr : Z)
  | EvZero (page offset len : Z)
  | EvWakeThrottled
  | EvWakeFlusher.

Record cache := mkCache {
  c_pages : gmap Z page;
  c_spaces : gmap Z address_space;
  c_vmas : gmap Z vm_area;
  c_active_head : Z; c_inactive_head : Z;
  c_nr_active : Z; c_nr_inactive : Z;
  c_dirty : Z;
  c_total_pages : Z;
  c_kmalloc : list bool; c_palloc : list Z; c_io : list Z;
  c_events : list event;
}.

Definition set_pages c v := mkCache v (c_spaces c) (c_vmas c) (c_active_head c)
  (c_inactive_head c) (c_nr_active c) (c_nr_inactive c) (c_dirty c) (c_total_pages c)
  (c_kmalloc c) (c_palloc c) (c_io c) (c_events c).
Definition set_spaces c v := mkCache (c_pages c) v (c_vmas c) (c_active_head c)
  (c_inactive_head c) (c_nr_active c) (c_nr_inactive c) (c_dirty c) (c_total_pages c)
  (c_kmalloc c) (c_palloc c) (c_io c) (c_events c).
Definition set_vmas c v := mkCache (c_pages c) (c_spaces c) v (c_active_head c)
  (c_inactive_head c) (c_nr_active c) (c_nr_inactive c) (c_dirty c) (c_total_pages c)
  (c_kmalloc c) (c_palloc c) (c_io c) (c_events c).
Definition set_lru c act inact n := mkCache (c_pages c) (c_spaces c) (c_vmas c) act
  inact (c_nr_active c) n (c_dirty c) (c_total_pages c)
  (c_kmalloc c) (c_palloc c) (c_io c) (c_events c).
Definition set_dirty c v := mkCache (c_pages c) (c_spaces c) (c_vmas c) (c_active_head c)
  (c_inactive_head c) (c_nr_active c) (c_nr_inactive c) v (c_total_pages c)
  (c_kmalloc c) (c_palloc c) (c_io c) (c_events c).
Definition set_answers c km pa io := mkCache (c_pages c) (c_spaces c) (c_vmas c)
  (c_active_head c) (c_inactive_head c) (c_nr_active c) (c_nr_inactive c) (c_dirty c)
  (c_total_pages c) km pa io (c_events c).
Definition emit c e := mkCache (c_pages c) (c_spaces c) (c_vmas c) (c_active_head c)
  (c_inactive_head c) (c_nr_active c) (c_nr_inactive c) (c_dirty c) (c_total_pages c)
  (c_kmalloc c) (c_palloc c) (c_io c) (c_events c ++ [e]).

Definition pget (c : cache) (p : Z) : res page := of_opt (c_pages c !! p).
Definition pput (c : cache) (p : Z) (x : page) : cache := set_pages c (<[p := x]> (c_pages c)).
Definition sget (c : cache) (m : Z) : res address_space := of_opt (c_spaces c !! m).
Definition sput (c : cache) (m : Z) (s : address_space) : cache :=
  set_spaces c (<[m := s]> (c_spaces c)).

Definition with_flags (x : page) f := mkPage f (pg_refcount x) (pg_mapping x) (pg_index x)
  (pg_lru_prev x) (pg_lru_next x).
Definition with_ref (x : page) r := mkPage (pg_flags x) r (pg_mapping x) (pg_index x)
  (pg_lru_prev x) (pg_lru_next x).
Definition with_where (x : page) m i := mkPage (pg_flags x) (pg_refcount x) m i
  (pg_lru_prev x) (pg_lru_next x).
Definition with_prev (x : page) v := mkPage (pg_flags x) (pg_refcount x) (pg_mapping x)
  (pg_index x) v (pg_lru_next x).
Definition with_next (x : page) v := mkPage (pg_flags x) (pg_refcount x) (pg_mapping x)
  (pg_index x) (pg_lru_prev x) v.
Definition with_tree (s : address_space) t := mkSpace t (sp_i_mmap s) (sp_nr_pages s)
  (sp_wb_err s) (sp_read_page s) (sp_write_page s).
Definition with_nr (s : address_space) n := mkSpace (sp_tree s) (sp_i_mmap s) n
  (sp_wb_err s) (sp_read_page s) (sp_write_page s).
Definition with_mmap (s : address_space) v := mkSpace (sp_tree s) v (sp_nr_pages s)
  (sp_wb_err s) (sp_read_page s) (sp_write_page s).
Definition with_err (s : address_space) e := mkSpace (sp_tree s) (sp_i_mmap s) (sp_nr_pages s)
  e (sp_read_page s) (sp_write_page s).

Definition has (f bit : Z) : bool := negb (Z.land f bit =? 0).

(** Change the descriptor of a page. *)
Definition upd (c : cache) (p : Z) (f : page -> page) : res cache :=
  x ← pget c p; Ok (pput c p (f x)).

(** ** Writeback errors: the [errseq_t] functions of pagecache.h *)

Definition ERRSEQ_SEEN : Z := 1.
Definition ERRSEQ_ERR_MASK : Z := 0x7FFE.
Definition ERRSEQ_CTR_INC : Z := 0x8000.

Definition errseq_set (cur err : Z) : Z :=
  Z.lor (Z.land (u32 (cur + ERRSEQ_CTR_INC)) (u32 (Z.lnot ERRSEQ_SEEN)))
        (u32 (Z.shiftl (Z.land err 0xFFF) 1)).
Definition errseq_sample (eseq : Z) : Z := eseq.
(** The return value and the new [*since]. *)
Definition errseq_check_and_advance (eseq since : Z) : Z * Z :=
  if decide (eseq <> since)
  then (Z.shiftr (Z.land eseq ERRSEQ_ERR_MASK) 1, Z.lor eseq ERRSEQ_SEEN)
  else (0, since).

(** ** Initialisation *)

Definition pagecache_init (c : cache) : cache :=
  set_dirty (mkCache (c_pages c) (c_spaces c) (c_vmas c) 0 0 0 0 (c_dirty c)
    (c_total_pages c) (c_kmalloc c) (c_palloc c) (c_io c) (c_events c)) 0.

Definition address_space_init (m : Z) (rd wr : bool) (c : cache) : cache :=
  if decide (m = 0) then c else sput c m (mkSpace radix_tree_init 0 0 0 rd wr).

(** ** LRU lists *)

Definition lru_add_inactive (p : Z) (c : cache) : res cache :=
  let h := c_inactive_head c in
  c ← upd c p (fun x => with_next (with_prev x 0) h);
  c ← (if decide (h <> 0) then upd c h (fun x => with_prev x p) else Ok c);
  Ok (set_lru c (c_active_head c) p (u64 (c_nr_inactive c + 1))).

Definition lru_remove (p : Z) (c : cache) : res cache :=
  x ← pget c p;
  let prev := pg_lru_prev x in
  let next := pg_lru_next x in
  c ← (if decide (prev <> 0) then upd c prev (fun y => with_next y next)
       else if decide (c_inactive_head c = p)
       then Ok (set_lru c (c_active_head c) next (c_nr_inactive c))
       else if decide (c_active_head c = p)
       then Ok (set_lru c next (c_inactive_head c) (c_nr_inactive c))
       else Ok c);
  c ← (if decide (next <> 0) then upd c next (fun y => with_prev y prev) else Ok c);
  upd c p (fun x => with_next (with_prev x 0) 0).

(** ** Page locks *)

Definition page_lock (p : Z) (c : cache) : res cache :=
  if decide (p = 0) then Ok c
  else
    x ← pget c p;
    if has (pg_flags x) PAGE_FLAG_LOCKED then NoFuel
    else Ok (pput c p (with_flags x (Z.lor (pg_flags x) PAGE_FLAG_LOCKED))).

Definition page_trylock (p : Z) (c : cache) : res (bool * cache) :=
  if decide (p = 0) then Ok (false, c)
  else
    x ← pget c p;
    Ok (negb (has (pg_flags x) PAGE_FLAG_LOCKED),
        pput c p (with_flags x (Z.lor (pg_flags x) PAGE_FLAG_LOCKED))).

Definition page_unlock (p : Z) (c : cache) : res cache :=
  if decide (p = 0) then Ok c
  else upd c p (fun x => with_flags x (Z.land (pg_flags x) (Z.lnot PAGE_FLAG_LOCKED))).

Definition page_wait_locked (p : Z) (c : cache) : res cache :=
  if decide (p = 0) then Ok c
  else
    x ← pget c p;
    if has (pg_flags x) PAGE_FLAG_LOCKED then NoFuel else Ok c.

(** ** References: [pmm_free_page] as seen by the cache, and allocation *)

Definition pmm_free_page (p : Z) (c : cache) : res cache :=
  if decide (p = 0) then Ok c
  else
    x ← pget c p;
    if decide (pg_refcount x > 1) then Ok (pput c p (with_ref x (pg_refcount x - 1)))
    else if decide (pg_refcount x = 0) then Ok (pput c p (with_ref x 0))
    else Ok (emit (pput c p (with_ref x 0)) (EvFree p)).

Definition get_ref (p : Z) (c : cache) : res cache :=
  upd c p (fun x => with_ref x (u32 (pg_refcount x + 1))).

(** [pmm_alloc_page(PAGE_FLAG_ZERO)]: flags 0 and one reference. *)
Definition pmm_alloc_page (c : cache) : res (Z * cache) :=
  match c_palloc c with
  | [] => Ok (0, c)
  | p :: r =>
      let c := set_answers c (c_kmalloc c) r (c_io c) in
      if decide (p = 0) then Ok (0, c)
      else c ← upd c p (fun x => with_ref (with_flags x 0) 1); Ok (p, c)
  end.

(** The answer of a callback; 0 when nothing is recorded. *)
Definition io_answer (c : cache) : Z * cache :=
  match c_io c with
  | [] => (0, c)
  | e :: r => (e, set_answers c (c_kmalloc c) (c_palloc c) r)
  end.

(** ** The cache of one address space *)

(** [(page_t * )] of what the tree returns. *)
Definition as_page (r : rptr) : res Z :=
  match r with PNull => Ok 0 | PItem v => Ok v | PNode _ => Fault end.

Definition pagecache_find_page (m index : Z) (c : cache) : res (Z * cache) :=
  if decide (m = 0) then Ok (0, c)
  else
    s ← sget c m;
    r ← radix_tree_lookup (sp_tree s) index;
    p ← as_page r;
    if decide (p <> 0) then c ← get_ref p c; Ok (p, c) else Ok (0, c).

Definition pagecache_add_page (m p index : Z) (c : cache) : res (Z * cache) :=
  if decide (m = 0 \/ p = 0) then Ok (-1, c)
  else
    s ← sget c m;
    '(ret, tree, o) ← radix_tree_insert (sp_tree s) index p (c_kmalloc c);
    let c := set_answers c o (c_palloc c) (c_io c) in
    let c := sput c m (with_tree s tree) in
    if decide (ret = 0) then
      c ← upd c p (fun x => with_where x m index);
      c ← upd c p (fun x => with_flags x (Z.lor (pg_flags x) PAGE_FLAG_CACHED));
      c ← get_ref p c;
      s ← sget c m;
      let c := sput c m (with_nr s (u64 (sp_nr_pages s + 1))) in
      c ← lru_add_inactive p c;
      Ok (ret, c)
    else Ok (ret, c).

Definition pagecache_mark_dirty (p : Z) (c : cache) : res cache :=
  if decide (p = 0) then Ok c
  else
    x ← pget c p;
    let m := pg_mapping x in
    if decide (m = 0) then Ok c
    else
      let c := pput c p (with_flags x (Z.lor (pg_flags x) PAGE_FLAG_DIRTY)) in
      if has (pg_flags x) PAGE_FLAG_DIRTY then Ok c
      else
        let c := set_dirty c (u64 (c_dirty c + 1)) in
        s ← sget c m;
        t ← radix_tree_tag_set (sp_tree s) (pg_index x) RADIX_TREE_TAG_DIRTY;
        Ok (sput c m (with_tree s t)).

Definition pagecache_clear_dirty (p : Z) (c : cache) : res cache :=
  if decide (p = 0) then Ok c
  else
    x ← pget c p;
    let m := pg_mapping x in
    if decide (m = 0) then Ok c
    else
      let c := pput c p (with_flags x (Z.land (pg_flags x) (Z.lnot PAGE_FLAG_DIRTY))) in
      if has (pg_flags x) PAGE_FLAG_DIRTY then
        let d := u64 (c_dirty c - 1) in
        let c := set_dirty c d in
        let c := if decide (d = 0) then emit c EvWakeThrottled
                 else if decide (d < u64 (c_total_pages c * 20) / 100)
                 then emit c EvWakeThrottled else c in
        s ← sget c m;
        t ← radix_tree_tag_clear (sp_tree s) (pg_index x) RADIX_TREE_TAG_DIRTY;
        Ok (sput c m (with_tree s t))
      else Ok c.

Definition pagecache_remove_page (m p : Z) (c : cache) : res cache :=
  if decide (m = 0 \/ p = 0) then Ok c
  else
    x ← pget c p;
    c ← (if has (pg_flags x) PAGE_FLAG_DIRTY then pagecache_clear_dirty p c else Ok c);
    c ← lru_remove p c;
    x ← pget c p;
    s ← sget c m;
    '(_, t) ← radix_tree_delete (sp_tree s) (pg_index x);
    let c := sput c m (with_tree s t) in
    c ← upd c p (fun x => with_where x 0 (pg_index x));
    c ← upd c p (fun x => with_flags x (Z.land (pg_flags x) (Z.lnot PAGE_FLAG_CACHED)));
    s ← sget c m;
    let c := if decide (sp_nr_pages s > 0) then sput c m (with_nr s (sp_nr_pages s - 1)) else c in
    pmm_free_page p c.

Definition pagecache_get_page (m index : Z) (c : cache) : res (Z * cache) :=
  if decide (m = 0) then Ok (0, c)
  else
    '(p, c) ← pagecache_find_page m index c;
    if decide (p <> 0) then c ← page_wait_locked p c; Ok (p, c)
    else
      '(p, c) ← pmm_alloc_page c;
      if decide (p = 0) then Ok (0, c)
      else
        c ← page_lock p c;
        '(ret, c) ← pagecache_add_page m p index c;
        if decide (ret <> 0) then
          c ← page_unlock p c;
          c ← pmm_free_page p c;
          '(q, c) ← pagecache_find_page m index c;
          if decide (q <> 0) then c ← page_wait_locked q c; Ok (q, c) else Ok (0, c)
        else
          s ← sget c m;
          if sp_read_page s then
            let '(err, c) := io_answer (emit c (EvRead m p)) in
            if decide (err <> 0) then
              c ← pagecache_remove_page m p c;
              c ← page_unlock p c;
              Ok (0, c)
            else c ← page_unlock p c; Ok (p, c)
          else c ← page_unlock p c; Ok (p, c).

(** The wait above the hard limit ends only when another thread cleans pages. *)
Definition balance_dirty_pages (c : cache) : res cache :=
  if decide (c_total_pages c = 0) then Ok c
  else
    let c := if decide (c_dirty c >= u64 (c_total_pages c * 10) / 100)
             then emit c EvWakeFlusher else c in
    if decide (c_dirty c >= u64 (c_total_pages c * 20) / 100) then NoFuel else Ok c.

(** ** Writeback *)

Fixpoint take_refs (ps : list Z) (c : cache) : res cache :=
  match ps with [] => Ok c | p :: r => c ← get_ref p c; take_refs r c end.

Fixpoint pages_of (l : list rptr) : res (list Z) :=
  match l with [] => Ok [] | x :: r => p ← as_page x; ps ← pages_of r; Ok (p :: ps) end.

(** The body of the second [for] loop of [pagecache_sync_mapping]; the number is
    what it adds to [synced_count]. *)
Definition sync_page (m p : Z) (c : cache) : res (Z * cache) :=
  c ← page_lock p c;
  x ← pget c p;
  '(n, c) ←
    (if has (pg_flags x) PAGE_FLAG_DIRTY then
       c ← pagecache_clear_dirty p c;
       let '(err, c) := io_answer (emit c (EvWrite m p)) in
       if decide (err <> 0) then
         c ← pagecache_mark_dirty p c;
         s ← sget c m;
         let c := sput c m (with_err s (errseq_set (sp_wb_err s) 5)) in
         c ← upd c p (fun x => with_flags x (Z.lor (pg_flags x) PAGE_FLAG_ERROR));
         Ok (0, c)
       else Ok (1, c)
     else Ok (0, c));
  c ← page_unlock p c;
  c ← pmm_free_page p c;
  Ok (n, c).

Fixpoint sync_pages (m : Z) (ps : list Z) (n : Z) (c : cache) : res (Z * cache) :=
  match ps with
  | [] => Ok (n, c)
  | p :: r => '(k, c) ← sync_page m p c; sync_pages m r (n + k) c
  end.

(** [dirty_pages[found - 1]->index + 1] *)
Definition next_after (ps : list Z) (c : cache) : res Z :=
  p ← of_opt (last ps); x ← pget c p; Ok (u64 (pg_index x + 1)).

Fixpoint sync_loop (fuel : nat) (m next_index n : Z) (c : cache) : res (Z * cache) :=
  match fuel with
  | O => NoFuel
  | S f =>
      s ← sget c m;
      l ← radix_tree_gang_lookup_tag (sp_tree s) next_index 16 RADIX_TREE_TAG_DIRTY;
      ps ← pages_of l;
      match ps with
      | [] => Ok (n, c)
      | _ =>
          c ← take_refs ps c;
          next ← next_after ps c;
          '(n, c) ← sync_pages m ps n c;
          sync_loop f m next n c
      end
  end.

Definition pagecache_sync_mapping (fuel : nat) (m : Z) (c : cache) : res (Z * cache) :=
  if decide (m = 0) then Ok (0, c)
  else
    s ← sget c m;
    if sp_write_page s then sync_loop fuel m 0 0 c else Ok (0, c).

(** ** Mapped areas *)

Definition address_space_add_vma (m v : Z) (c : cache) : res cache :=
  if decide (m = 0 \/ v = 0) then Ok c
  else
    s ← sget c m;
    a ← of_opt (c_vmas c !! v);
    let c := set_vmas c (<[v := mkVma (vma_start a) (vma_end a) (vma_file_offset a)
                                 (sp_i_mmap s) (vma_ctx a)]> (c_vmas c)) in
    Ok (sput c m (with_mmap s v)).

Definition set_i_mmap_next (c : cache) (v next : Z) : res cache :=
  a ← of_opt (c_vmas c !! v);
  Ok (set_vmas c (<[v := mkVma (vma_start a) (vma_end a) (vma_file_offset a) next
                         (vma_ctx a)]> (c_vmas c))).

(** [while ( *curr)]: [prev] is the area whose link [curr] points to, 0 for the
    head of the list; [cur] is [*curr]. *)
Fixpoint remove_vma_loop (fuel : nat) (m v prev cur : Z) (c : cache) : res cache :=
  match fuel with
  | O => NoFuel
  | S f =>
      if decide (cur = 0) then Ok c
      else
        a ← of_opt (c_vmas c !! cur);
        if decide (cur = v) then
          c ← (if decide (prev = 0)
               then s ← sget c m; Ok (sput c m (with_mmap s (vma_i_mmap_next a)))
               else set_i_mmap_next c prev (vma_i_mmap_next a));
          set_i_mmap_next c v 0
        else remove_vma_loop f m v cur (vma_i_mmap_next a) c
  end.

Definition address_space_remove_vma (fuel : nat) (m v : Z) (c : cache) : res cache :=
  if decide (m = 0 \/ v = 0) then Ok c
  else s ← sget c m; remove_vma_loop fuel m v 0 (sp_i_mmap s) c.

Fixpoint unmap_loop (fuel : nat) (index v : Z) (c : cache) : res cache :=
  match fuel with
  | O => NoFuel
  | S f =>
      if decide (v = 0) then Ok c
      else
        a ← of_opt (c_vmas c !! v);
        let first := Z.shiftr (vma_file_offset a) 12 in
        let count := Z.shiftr (u64 (vma_end a - vma_start a)) 12 in
        let c := if decide (index >= first /\ index < u64 (first + count) /\ vma_ctx a <> 0)
                 then emit c (EvUnmap (vma_ctx a)
                        (u64 (vma_start a + u64 (Z.shiftl (index - first) 12))))
                 else c in
        unmap_loop f index (vma_i_mmap_next a) c
  end.

(** ** Truncation *)

Definition truncate_page (fuel : nat) (m p : Z) (c : cache) : res cache :=
  c ← page_lock p c;
  x ← pget c p;
  s ← sget c m;
  c ← unmap_loop fuel (pg_index x) (sp_i_mmap s) c;
  c ← pagecache_remove_page m p c;
  c ← page_unlock p c;
  pmm_free_page p c.

Fixpoint truncate_pages (fuel : nat) (m : Z) (ps : list Z) (c : cache) : res cache :=
  match ps with
  | [] => Ok c
  | p :: r => c ← truncate_page fuel m p c; truncate_pages fuel m r c
  end.

Fixpoint truncate_loop (fuel : nat) (m next_idx : Z) (c : cache) : res cache :=
  match fuel with
  | O => NoFuel
  | S f =>
      s ← sget c m;
      l ← radix_tree_gang_lookup (sp_tree s) next_idx 16;
      ps ← pages_of l;
      match ps with
      | [] => Ok c
      | _ =>
          c ← take_refs ps c;
          next ← next_after ps c;
          c ← truncate_pages fuel m ps c;
          truncate_loop f m next c
      end
  end.

(** The page that the new end cuts: its tail is zeroed. *)
Definition truncate_partial (m start_byte : Z) (c : cache) : res cache :=
  let slack := Z.land start_byte 4095 in
  if decide (slack <> 0) then
    '(p, c) ← pagecache_find_page m (Z.shiftr start_byte 12) c;
    if decide (p <> 0) then
      c ← page_lock p c;
      let c := emit c (EvZero p slack (4096 - slack)) in
      c ← pagecache_mark_dirty p c;
      c ← page_unlock p c;
      pmm_free_page p c
    else Ok c
  else Ok c.

Definition pagecache_truncate_range (fuel : nat) (m start_byte : Z) (c : cache) : res cache :=
  if decide (m = 0) then Ok c
  else
    let start_index := Z.shiftr (u64 (start_byte + 4095)) 12 in
    c ← truncate_partial m start_byte c;
    truncate_loop fuel m start_index c.

Definition address_space_destroy (fuel : nat) (m : Z) (c : cache) : res cache :=
  if decide (m = 0) then Ok c else pagecache_truncate_range fuel m 0 c.

Definition pagecache_invalidate_all (fuel : nat) (m : Z) (c : cache) : res cache :=
  if decide (m = 0) then Ok c
  else '(_, c) ← pagecache_sync_mapping fuel m c; pagecache_truncate_range fuel m 0 c.
