(* ===== verification/PageCacheSync.v ===== *)
(** * Writeback of an address space: what [pagecache_sync_mapping] writes

    The lemmas restate the radix tree's guarantees for items and the dirty tag,
    then follow one page, one batch of sixteen and the whole loop. *)

From S2P Require Import Prelude RadixTree PageCache.
From stdpp Require Import base tactics option list numbers gmap sorting.
From Stdlib Require Import ZArith Lia.

Local Open Scope Z_scope.

(** ** Flags *)

Lemma has_testbit f k : 0 <= k -> has f (2 ^ k) = Z.testbit f k.
Proof.
  intros Hk; unfold has; destruct (Z.testbit f k) eqn:E.
  - rewrite negb_true_iff; apply Z.eqb_neq; intros H0.
    assert (Z.testbit (Z.land f (2 ^ k)) k = true) as Ht
      by (rewrite Z.land_spec, E, Z.pow2_bits_true by done; done).
    by rewrite H0, Z.bits_0 in Ht.
  - rewrite negb_false_iff; apply Z.eqb_eq, Z.bits_inj'; intros n Hn.
    rewrite Z.land_spec, Z.bits_0, Z.pow2_bits_eqb by done.
    destruct (Z.eqb_spec k n) as [->|]; [by rewrite E|apply andb_false_r].
Qed.

Lemma has_lor f k j : 0 <= k -> 0 <= j -> has (Z.lor f (2 ^ j)) (2 ^ k) = (k =? j) || has f (2 ^ k).
Proof.
  intros; rewrite !has_testbit, Z.lor_spec, Z.pow2_bits_eqb by done.
  rewrite Z.eqb_sym; apply orb_comm.
Qed.

Lemma has_clear f k j :
  0 <= k -> 0 <= j -> has (Z.land f (Z.lnot (2 ^ j))) (2 ^ k) = negb (k =? j) && has f (2 ^ k).
Proof.
  intros; rewrite !has_testbit, Z.land_spec, Z.lnot_spec, Z.pow2_bits_eqb by done.
  rewrite Z.eqb_sym; apply andb_comm.
Qed.

(** [fl]: normalise flag tests. *)
Ltac fl :=
  unfold PAGE_FLAG_CACHED, PAGE_FLAG_DIRTY, PAGE_FLAG_LOCKED, PAGE_FLAG_ERROR in *;
  rewrite ?has_lor, ?has_clear by lia; cbn [Z.eqb Pos.eqb orb andb negb].

(** ** The tree *)

Definition idx (j : Z) : Prop := 0 <= j < 2 ^ 64.
Abbreviation dtag t j := (root_tag t RADIX_TREE_TAG_DIRTY j).

Lemma to_rptr_inj a b : to_rptr a = to_rptr b -> a = b.
Proof. destruct a, b; intros; simplify_eq/=; done. Qed.

Lemma dtag_height t j : dtag t j = true -> (0 < rt_height t)%nat.
Proof.
  unfold root_tag; destruct (rt_height t); [|lia]; simpl; by rewrite andb_false_r.
Qed.

Lemma tag_set_height t i k t' : radix_tree_tag_set t i k = Ok t' -> rt_height t' = rt_height t.
Proof.
  unfold radix_tree_tag_set; destruct (_ || _); [by intros [= <-]|].
  destruct (height_to_maxindex _); mstep; [|done|done]; repeat case_decide; try by intros [= <-].
  destruct (tag_set_walk _ _ _ _); mstep; [by intros [= <-]|done|done].
Qed.

Lemma tag_clear_height t i k t' : radix_tree_tag_clear t i k = Ok t' -> rt_height t' = rt_height t.
Proof.
  unfold radix_tree_tag_clear; destruct (_ || _); [by intros [= <-]|].
  destruct (height_to_maxindex _); mstep; [|done|done]; repeat case_decide; try by intros [= <-].
  destruct (tag_clear_walk _ _ _ _) as [[[]|]| |]; mstep; [by intros [= <-]..|done|done].
Qed.

Lemma tree_tag_set t i v :
  wf_root t -> (0 < rt_height t)%nat -> idx i -> root_get t i = Some v ->
  exists t', radix_tree_tag_set t i RADIX_TREE_TAG_DIRTY = Ok t' /\ wf_root t' /\
    rt_height t' = rt_height t /\
    (forall j, idx j -> root_get t' j = root_get t j) /\
    (forall j, idx j -> dtag t' j = bool_decide (j = i) || dtag t j).
Proof.
  intros Hw Hh Hi Hv; unfold idx in *.
  destruct (tag_set_root_spec t i RADIX_TREE_TAG_DIRTY (PItem v)) as (t' & E & Hw' & Hl & Ht);
    [done|done|done|unfold RADIX_TREE_TAG_DIRTY; lia| |done|].
  { by rewrite radix_tree_lookup_get, Hv by (done || lia). }
  exists t'; split_and!; [done|done|by eapply tag_set_height| |].
  - intros j Hj; specialize (Hl j Hj); rewrite !radix_tree_lookup_get in Hl by (done || lia).
    by apply to_rptr_inj; simplify_eq.
  - intros j Hj; specialize (Ht j RADIX_TREE_TAG_DIRTY Hj ltac:(unfold RADIX_TREE_TAG_DIRTY; lia)).
    rewrite !radix_tree_tag_get_leaf in Ht by (done || unfold RADIX_TREE_TAG_DIRTY; lia).
    case_decide as Hd; injection Ht as ->.
    + by rewrite bool_decide_true by tauto.
    + by rewrite bool_decide_false by naive_solver.
Qed.

Lemma tree_tag_clear t i :
  wf_root t -> idx i ->
  exists t', radix_tree_tag_clear t i RADIX_TREE_TAG_DIRTY = Ok t' /\ wf_root t' /\
    rt_height t' = rt_height t /\
    (forall j, idx j -> root_get t' j = root_get t j) /\
    (forall j, idx j -> dtag t' j = negb (bool_decide (j = i)) && dtag t j).
Proof.
  intros Hw Hi; unfold idx in *.
  destruct (tag_clear_root_spec t i RADIX_TREE_TAG_DIRTY) as (t' & E & Hw' & Hl & Ht);
    [done|done|unfold RADIX_TREE_TAG_DIRTY; lia|].
  exists t'; split_and!; [done|done|by eapply tag_clear_height| |].
  - intros j Hj; specialize (Hl j Hj); rewrite !radix_tree_lookup_get in Hl by (done || lia).
    by apply to_rptr_inj; simplify_eq.
  - intros j Hj; specialize (Ht j RADIX_TREE_TAG_DIRTY Hj ltac:(unfold RADIX_TREE_TAG_DIRTY; lia)).
    rewrite !radix_tree_tag_get_leaf in Ht by (done || unfold RADIX_TREE_TAG_DIRTY; lia).
    case_decide as Hd; injection Ht as ->.
    + by rewrite bool_decide_true by tauto.
    + by rewrite bool_decide_false by naive_solver.
Qed.

(** The gang lookup, as pages. *)
Lemma tree_gang_tag t first :
  wf_root t -> idx first ->
  exists l items ps, radix_tree_gang_lookup_tag t first 16 RADIX_TREE_TAG_DIRTY = Ok items /\
    pages_of items = Ok ps /\ StronglySorted Z.lt l /\
    (forall j, j ∈ l <-> idx j /\ first <= j /\ dtag t j = true /\ root_get t j <> None) /\
    Forall2 (fun j p => root_get t j = Some p) (take 16 l) ps.
Proof.
  intros Hw Hf; unfold idx in *.
  destruct (gang_tag_root_spec t first 16 RADIX_TREE_TAG_DIRTY) as (items & E & l & Hs & Hl & HF);
    [done|done|unfold RADIX_TREE_TAG_DIRTY; lia|].
  assert (forall j, j ∈ l <-> 0 <= j < 2 ^ 64 /\ first <= j /\ dtag t j = true /\ root_get t j <> None) as Hl'.
  { intros j; rewrite Hl; split.
    - intros (Hj & ? & Ht & x & Hx & Hne); split_and!; try (done || lia).
      + rewrite radix_tree_tag_get_leaf in Ht by (done || unfold RADIX_TREE_TAG_DIRTY; lia).
        by simplify_eq.
      + rewrite radix_tree_lookup_get in Hx by (done || lia); simplify_eq.
        by destruct (root_get t j).
    - intros (Hj & ? & Ht & Hne); split_and!; try (done || lia).
      + rewrite radix_tree_tag_get_leaf by (done || unfold RADIX_TREE_TAG_DIRTY; lia); by rewrite Ht.
      + exists (to_rptr (root_get t j)); rewrite radix_tree_lookup_get by (done || lia).
        split; [done|]; by destruct (root_get t j). }
  assert (exists ps, pages_of items = Ok ps /\
    Forall2 (fun j p => root_get t j = Some p) (take 16 l) ps) as (ps & Eps & HF').
  { assert (Forall (fun j => 0 <= j < 2 ^ 64 /\ root_get t j <> None) (take 16 l)) as Hall.
    { apply Forall_forall; intros j Hj; apply elem_of_take in Hj as (? & Hj%list_elem_of_lookup_2 & _).
      apply Hl' in Hj; tauto. }
    clear -HF Hall Hw; induction HF as [|j x l1 items Hx _ IH]; [by exists []|].
    inversion Hall as [|? ? [Hj Hne] Hall']; subst; destruct (IH Hall') as (ps & Eps & HF').
    rewrite radix_tree_lookup_get in Hx by (done || lia); simplify_eq.
    destruct (root_get t j) as [p|] eqn:Ep; [|done].
    exists (p :: ps); simpl; rewrite Eps; split; [done|by constructor]. }
  exists l, items, ps; done.
Qed.

(** ** Projections of updated states *)

Lemma c_pages_pput c p x : c_pages (pput c p x) = <[p := x]> (c_pages c).
Proof. done. Qed.
Lemma c_spaces_pput c p x : c_spaces (pput c p x) = c_spaces c.
Proof. done. Qed.
Lemma c_io_pput c p x : c_io (pput c p x) = c_io c.
Proof. done. Qed.
Lemma c_kmalloc_pput c p x : c_kmalloc (pput c p x) = c_kmalloc c.
Proof. done. Qed.
Lemma c_palloc_pput c p x : c_palloc (pput c p x) = c_palloc c.
Proof. done. Qed.
Lemma c_inactive_head_pput c p x : c_inactive_head (pput c p x) = c_inactive_head c.
Proof. done. Qed.
Lemma c_events_pput c p x : c_events (pput c p x) = c_events c.
Proof. done. Qed.
Lemma c_pages_sput c m s : c_pages (sput c m s) = c_pages c.
Proof. done. Qed.
Lemma c_spaces_sput c m s : c_spaces (sput c m s) = <[m := s]> (c_spaces c).
Proof. done. Qed.
Lemma c_io_sput c m s : c_io (sput c m s) = c_io c.
Proof. done. Qed.
Lemma c_kmalloc_sput c m s : c_kmalloc (sput c m s) = c_kmalloc c.
Proof. done. Qed.
Lemma c_palloc_sput c m s : c_palloc (sput c m s) = c_palloc c.
Proof. done. Qed.
Lemma c_inactive_head_sput c m s : c_inactive_head (sput c m s) = c_inactive_head c.
Proof. done. Qed.
Lemma c_events_sput c m s : c_events (sput c m s) = c_events c.
Proof. done. Qed.
Lemma c_pages_set_answers c km pa io : c_pages (set_answers c km pa io) = c_pages c.
Proof. done. Qed.
Lemma c_spaces_set_answers c km pa io : c_spaces (set_answers c km pa io) = c_spaces c.
Proof. done. Qed.
Lemma c_io_set_answers c km pa io : c_io (set_answers c km pa io) = io.
Proof. done. Qed.
Lemma c_kmalloc_set_answers c km pa io : c_kmalloc (set_answers c km pa io) = km.
Proof. done. Qed.
Lemma c_palloc_set_answers c km pa io : c_palloc (set_answers c km pa io) = pa.
Proof. done. Qed.
Lemma c_inactive_head_set_answers c km pa io : c_inactive_head (set_answers c km pa io) = c_inactive_head c.
Proof. done. Qed.
Lemma c_events_set_answers c km pa io : c_events (set_answers c km pa io) = c_events c.
Proof. done. Qed.
Lemma c_pages_set_lru c a i n : c_pages (set_lru c a i n) = c_pages c.
Proof. done. Qed.
Lemma c_spaces_set_lru c a i n : c_spaces (set_lru c a i n) = c_spaces c.
Proof. done. Qed.
Lemma c_io_set_lru c a i n : c_io (set_lru c a i n) = c_io c.
Proof. done. Qed.
Lemma c_kmalloc_set_lru c a i n : c_kmalloc (set_lru c a i n) = c_kmalloc c.
Proof. done. Qed.
Lemma c_palloc_set_lru c a i n : c_palloc (set_lru c a i n) = c_palloc c.
Proof. done. Qed.
Lemma c_inactive_head_set_lru c a i n : c_inactive_head (set_lru c a i n) = i.
Proof. done. Qed.
Lemma c_events_set_lru c a i n : c_events (set_lru c a i n) = c_events c.
Proof. done. Qed.
Lemma c_pages_emit c e : c_pages (emit c e) = c_pages c.
Proof. done. Qed.
Lemma c_spaces_emit c e : c_spaces (emit c e) = c_spaces c.
Proof. done. Qed.
Lemma c_io_emit c e : c_io (emit c e) = c_io c.
Proof. done. Qed.
Lemma c_kmalloc_emit c e : c_kmalloc (emit c e) = c_kmalloc c.
Proof. done. Qed.
Lemma c_palloc_emit c e : c_palloc (emit c e) = c_palloc c.
Proof. done. Qed.
Lemma c_inactive_head_emit c e : c_inactive_head (emit c e) = c_inactive_head c.
Proof. done. Qed.
Lemma c_events_emit c e : c_events (emit c e) = c_events c ++ [e].
Proof. done. Qed.
#[export] Hint Rewrite
  c_pages_pput c_spaces_pput c_io_pput c_kmalloc_pput c_palloc_pput c_inactive_head_pput
  c_events_pput c_pages_sput c_spaces_sput c_io_sput c_kmalloc_sput c_palloc_sput
  c_inactive_head_sput c_events_sput c_pages_set_answers c_spaces_set_answers
  c_io_set_answers c_kmalloc_set_answers c_palloc_set_answers c_inactive_head_set_answers
  c_events_set_answers c_pages_set_lru c_spaces_set_lru c_io_set_lru c_kmalloc_set_lru
  c_palloc_set_lru c_inactive_head_set_lru c_events_set_lru c_pages_emit c_spaces_emit
  c_io_emit c_kmalloc_emit c_palloc_emit c_inactive_head_emit c_events_emit : cache.

(** [cs]: simplify projections and look up what was just stored. *)
Ltac cs := autorewrite with cache; rewrite ?lookup_insert_eq.


(** ** One page *)

Lemma pget_some c p x : c_pages c !! p = Some x -> pget c p = Ok x.
Proof. intros E; unfold pget; by rewrite E. Qed.
Lemma pget_pput c p x : pget (pput c p x) p = Ok x.
Proof. unfold pget, pput; cbn; by rewrite lookup_insert_eq. Qed.
Lemma sget_some c m s : c_spaces c !! m = Some s -> sget c m = Ok s.
Proof. intros E; unfold sget; by rewrite E. Qed.
Lemma sget_sput c m s : sget (sput c m s) m = Ok s.
Proof. unfold sget, sput; cbn; by rewrite lookup_insert_eq. Qed.
Lemma upd_some c p x f : c_pages c !! p = Some x -> upd c p f = Ok (pput c p (f x)).
Proof. intros E; unfold upd; by rewrite (pget_some _ _ _ E). Qed.
Lemma pput_pput c p x y : pput (pput c p x) p y = pput c p y.
Proof. unfold pput, set_pages; cbn; by rewrite insert_insert_eq. Qed.
Lemma upd_pput c p x f : upd (pput c p x) p f = Ok (pput c p (f x)).
Proof. rewrite (upd_some _ _ x) by apply lookup_insert_eq; by rewrite pput_pput. Qed.

(** What the cache asked of the file system and of the page allocator: pages
    written ([inl]) and pages given back ([inr]). *)
Definition io_of (e : event) : option (Z + Z) :=
  match e with EvWrite _ p => Some (inl p) | EvFree p => Some (inr p) | _ => None end.
Definition io_log (c : cache) : list (Z + Z) := omap io_of (c_events c).

Lemma io_log_emit c e : io_log (emit c e) = io_log c ++ option_list (io_of e).
Proof. unfold io_log; cbn; rewrite omap_app; simpl; by destruct (io_of e). Qed.

Section Page.
Context (m j p : Z).
Hypothesis Hm : m <> 0.
Hypothesis Hj : idx j.
Hypothesis Hp : p <> 0.

(** The page is in the cache of [m] at [j]. *)
Definition in_cache (c : cache) (s : address_space) (x : page) : Prop :=
  c_spaces c !! m = Some s /\ wf_root (sp_tree s) /\ root_get (sp_tree s) j = Some p /\
  c_pages c !! p = Some x /\ pg_mapping x = m /\ pg_index x = j.

(** [c'] is [c] with other contents for the page and the address space, and
    possibly other events and counters. *)
Definition touched (c c' : cache) (s' : address_space) (x' : page) : Prop :=
  c_spaces c' = <[m := s']> (c_spaces c) /\ c_pages c' = <[p := x']> (c_pages c).

Lemma touched_in_cache c c' s' x' :
  touched c c' s' x' -> c_spaces c' !! m = Some s' /\ c_pages c' !! p = Some x'.
Proof. intros [-> ->]; by rewrite !lookup_insert_eq. Qed.

Lemma touched_trans c1 c2 c3 s2 x2 s3 x3 :
  touched c1 c2 s2 x2 -> touched c2 c3 s3 x3 -> touched c1 c3 s3 x3.
Proof. intros [E1 E2] [E3 E4]; split; [rewrite E3, E1|rewrite E4, E2]; by rewrite insert_insert_eq. Qed.

Lemma clear_dirty_spec c s x :
  in_cache c s x -> has (pg_flags x) PAGE_FLAG_DIRTY = true ->
  exists c' s', pagecache_clear_dirty p c = Ok c' /\
    touched c c' s' (with_flags x (Z.land (pg_flags x) (Z.lnot PAGE_FLAG_DIRTY))) /\
    c_io c' = c_io c /\ io_log c' = io_log c /\
    wf_root (sp_tree s') /\ rt_height (sp_tree s') = rt_height (sp_tree s) /\
    sp_write_page s' = sp_write_page s /\
    (forall i, idx i -> root_get (sp_tree s') i = root_get (sp_tree s) i) /\
    (forall i, idx i -> dtag (sp_tree s') i = negb (bool_decide (i = j)) && dtag (sp_tree s) i).
Proof.
  intros (Hs & Hw & Hg & Hx & Em & Ei) Hd; unfold pagecache_clear_dirty.
  rewrite decide_False, (pget_some _ _ _ Hx) by done; mstep; rewrite Em, decide_False, Hd by done.
  set (c1 := set_dirty _ _); set (c2 := if decide _ then emit c1 EvWakeThrottled else _).
  assert (c_spaces c2 = c_spaces c /\ c_io c2 = c_io c /\ io_log c2 = io_log c /\
    c_pages c2 = <[p := with_flags x (Z.land (pg_flags x) (Z.lnot PAGE_FLAG_DIRTY))]> (c_pages c))
    as (E1 & E2 & E3 & E4).
  { unfold c2; repeat case_decide; split_and!; try done; rewrite io_log_emit; apply app_nil_r. }
  rewrite (sget_some _ _ s) by (by rewrite E1); mstep; rewrite Ei.
  destruct (tree_tag_clear (sp_tree s) j) as (t' & -> & Hw' & Hh & Hg' & Ht); [done|done|]; mstep.
  eexists _, _; split; [done|]; split; [split; [cbn; by rewrite E1|done]|]; done.
Qed.

Lemma mark_dirty_spec c s x :
  in_cache c s x -> has (pg_flags x) PAGE_FLAG_DIRTY = false ->
  (0 < rt_height (sp_tree s))%nat ->
  exists c' s', pagecache_mark_dirty p c = Ok c' /\
    touched c c' s' (with_flags x (Z.lor (pg_flags x) PAGE_FLAG_DIRTY)) /\
    c_io c' = c_io c /\ io_log c' = io_log c /\
    wf_root (sp_tree s') /\ rt_height (sp_tree s') = rt_height (sp_tree s) /\
    sp_write_page s' = sp_write_page s /\
    (forall i, idx i -> root_get (sp_tree s') i = root_get (sp_tree s) i) /\
    (forall i, idx i -> dtag (sp_tree s') i = bool_decide (i = j) || dtag (sp_tree s) i).
Proof.
  intros (Hs & Hw & Hg & Hx & Em & Ei) Hd Hh; unfold pagecache_mark_dirty.
  rewrite decide_False, (pget_some _ _ _ Hx) by done; mstep; rewrite Em, decide_False, Hd by done.
  rewrite (sget_some _ _ s) by done; mstep; rewrite Ei.
  destruct (tree_tag_set (sp_tree s) j p) as (t' & -> & Hw' & Hh' & Hg' & Ht); [done..|]; mstep.
  eexists _, _; split; [done|]; split; [done|]; done.
Qed.

(** The answer of the next write. *)
Definition next_io (c : cache) : Z := hd 0 (c_io c).

Lemma io_answer_eq c : exists c', io_answer c = (next_io c, c') /\
  c_io c' = tl (c_io c) /\ c_spaces c' = c_spaces c /\ c_pages c' = c_pages c /\
  c_events c' = c_events c.
Proof. unfold io_answer, next_io; destruct (c_io c) eqn:E; eexists; split; done. Qed.

(** What a write attempt leaves: the tag and the flag stay exactly when it failed. *)
Definition written (s s' : address_space) (x x' : page) (e : Z) : Prop :=
  wf_root (sp_tree s') /\ rt_height (sp_tree s') = rt_height (sp_tree s) /\
  sp_write_page s' = sp_write_page s /\
  (forall i, idx i -> root_get (sp_tree s') i = root_get (sp_tree s) i) /\
  (forall i, idx i -> dtag (sp_tree s') i =
     if decide (i = j) then negb (e =? 0) else dtag (sp_tree s) i) /\
  has (pg_flags x') PAGE_FLAG_DIRTY = negb (e =? 0) /\
  pg_mapping x' = m /\ pg_index x' = j.

Lemma sync_write_spec c s x :
  in_cache c s x -> has (pg_flags x) PAGE_FLAG_DIRTY = true -> (0 < rt_height (sp_tree s))%nat ->
  let e := next_io c in
  exists c' s' x',
    (c ← pagecache_clear_dirty p c;
     let '(err, c) := io_answer (emit c (EvWrite m p)) in
     if decide (err <> 0) then
       c ← pagecache_mark_dirty p c;
       s ← sget c m;
       let c := sput c m (with_err s (errseq_set (sp_wb_err s) 5)) in
       c ← upd c p (fun x => with_flags x (Z.lor (pg_flags x) PAGE_FLAG_ERROR));
       Ok (0, c)
     else Ok (1, c)) = Ok (if decide (e = 0) then 1 else 0, c') /\
    touched c c' s' x' /\ c_io c' = tl (c_io c) /\ io_log c' = io_log c ++ [inl p] /\
    written s s' x x' e /\ pg_refcount x' = pg_refcount x.
Proof.
  intros Hc Hd Hh e; pose proof Hc as (Hs & Hw & Hg & Hx & Em & Ei).
  destruct (clear_dirty_spec c s x Hc Hd)
    as (c1 & s1 & -> & T1 & Eio1 & El1 & Hw1 & Hh1 & Ewp1 & Hg1 & Ht1); mstep.
  destruct (touched_in_cache _ _ _ _ T1) as [Es1 Ex1].
  destruct (io_answer_eq (emit c1 (EvWrite m p))) as (c2 & -> & Eio2 & Es2 & Ep2 & Ee2).
  assert (next_io (emit c1 (EvWrite m p)) = e) as -> by (unfold next_io; cbn; by rewrite Eio1).
  assert (io_log c2 = io_log c ++ [inl p]) as El2.
  { unfold io_log at 1; rewrite Ee2; fold (io_log (emit c1 (EvWrite m p))).
    by rewrite io_log_emit, El1. }
  assert (touched c c2 s1 (with_flags x (Z.land (pg_flags x) (Z.lnot PAGE_FLAG_DIRTY)))) as T2
    by (destruct T1 as [H1 H2]; split; [by rewrite Es2, <- H1|by rewrite Ep2, <- H2]).
  destruct (decide (e = 0)) as [He|He].
  - rewrite decide_False by naive_solver; eexists _, _, _; split; [done|]; split; [exact T2|].
    split; [by rewrite Eio2; cbn; rewrite Eio1|]; split; [done|]; split; [|done].
    split_and!; try done; [|by rewrite He; cbn; fl].
    intros i Hi; rewrite Ht1, He by done; case_decide; [by rewrite bool_decide_true|].
    by rewrite bool_decide_false.
  - rewrite decide_True by done; destruct (touched_in_cache _ _ _ _ T2) as [Es2' Ex2'].
    destruct (mark_dirty_spec c2 s1 (with_flags x (Z.land (pg_flags x) (Z.lnot PAGE_FLAG_DIRTY))))
      as (c3 & s3 & -> & T3 & Eio3 & El3 & Hw3 & Hh3 & Ewp3 & Hg3 & Ht3).
    + split_and!; try done; by rewrite Hg1.
    + by cbn; fl.
    + by rewrite Hh1.
    + mstep; destruct (touched_in_cache _ _ _ _ T3) as [Es3 Ex3].
      rewrite (sget_some _ _ _ Es3); mstep; rewrite (upd_some (sput c3 m _) _ _ _ Ex3); mstep.
      eexists _, _, _; split; [done|].
      split; [|split; [|split; [|split; [split_and!|]]]].
      * pose proof (touched_trans _ _ _ _ _ _ _ T2 T3) as [H1 H2]; split; cbn.
        -- by rewrite H1, insert_insert_eq.
        -- by rewrite H2, insert_insert_eq.
      * cbn; by rewrite Eio3, Eio2; cbn; rewrite Eio1.
      * by rewrite <- El2, <- El3.
      * done.
      * cbn; by rewrite Hh3, Hh1.
      * cbn; by rewrite Ewp3, Ewp1.
      * intros i Hi; cbn; by rewrite Hg3, Hg1.
      * intros i Hi; cbn; rewrite Ht3, Ht1 by done; case_decide.
        -- rewrite bool_decide_true by done; symmetry; by apply negb_true_iff, Z.eqb_neq.
        -- by rewrite bool_decide_false.
      * cbn; fl; symmetry; by apply negb_true_iff, Z.eqb_neq.
      * done.
      * done.
      * done.
Qed.

Lemma sync_page_spec c s x :
  in_cache c s x -> has (pg_flags x) PAGE_FLAG_DIRTY = true ->
  has (pg_flags x) PAGE_FLAG_LOCKED = false -> (0 < rt_height (sp_tree s))%nat ->
  1 < pg_refcount x ->
  let e := next_io c in
  exists c' s' x', sync_page m p c = Ok (if decide (e = 0) then 1 else 0, c') /\
    touched c c' s' x' /\ c_io c' = tl (c_io c) /\ io_log c' = io_log c ++ [inl p] /\
    written s s' x x' e /\ pg_refcount x' = pg_refcount x - 1 /\
    has (pg_flags x') PAGE_FLAG_LOCKED = false.
Proof.
  intros Hc Hd Hl Hh Hr e; pose proof Hc as (Hs & Hw & Hg & Hx & Em & Ei).
  unfold sync_page, page_lock; rewrite decide_False, (pget_some _ _ _ Hx) by done; mstep.
  rewrite Hl; mstep; set (x1 := with_flags x _); rewrite pget_pput; mstep.
  assert (has (pg_flags x1) PAGE_FLAG_DIRTY = true) as Hd1 by (unfold x1; cbn; fl; exact Hd).
  rewrite Hd1; destruct (sync_write_spec (pput c p x1) s x1)
    as (c2 & s2 & x2 & E2 & T2 & Eio & El & Hwr & Er); [|done|done|].
  { split_and!; try done; cbn; by rewrite lookup_insert_eq. }
  cbv zeta in E2; rewrite E2; clear E2; mstep.
  destruct (touched_in_cache _ _ _ _ T2) as [Es2 Ex2].
  unfold page_unlock; rewrite (decide_False (P:=p = 0)), (upd_some _ _ _ _ Ex2) by done; mstep.
  unfold pmm_free_page; rewrite (decide_False (P:=p = 0)), pget_pput by done; mstep; cbn [pg_refcount with_flags].
  assert (pg_refcount x2 > 1) by (rewrite Er; unfold x1; cbn; lia).
  rewrite (decide_True (P:=pg_refcount x2 > 1)), pput_pput by done; mstep.
  change (next_io (pput c p x1)) with e; change (next_io (pput c p x1)) with e in Hwr.
  eexists _, s2, (with_ref (with_flags x2 (Z.land (pg_flags x2) (Z.lnot PAGE_FLAG_LOCKED)))
    (pg_refcount x2 - 1)); split; [done|]; destruct Hwr as (H1 & H2 & H3 & H4 & H5 & H6 & H7 & H8).
  split; [|split; [done|split; [done|split; [split_and!; try done; by cbn; fl|]]]].
  - destruct T2 as [H9 H10]; split; [done|].
    change (c_pages (pput c p x1)) with (<[p := x1]> (c_pages c)) in H10.
    change (c_pages (pput c2 p ?y)) with (<[p := y]> (c_pages c2)).
    by rewrite H10, !insert_insert_eq.
  - cbn; split; [unfold x1 in Er; cbn in Er; lia|by fl].
Qed.
End Page.

(** ** The invariant of an address space

    Every page of the tree knows where it is, is not locked, holds at least the
    cache's reference (and can take one more), and carries the dirty flag when its
    index carries the dirty tag. *)
Record space_ok (c : cache) (m : Z) (s : address_space) : Prop := {
  so_space : c_spaces c !! m = Some s;
  so_wf : wf_root (sp_tree s);
  so_page : forall j p, idx j -> root_get (sp_tree s) j = Some p ->
    p <> 0 /\ exists x, c_pages c !! p = Some x /\ pg_mapping x = m /\ pg_index x = j /\
      has (pg_flags x) PAGE_FLAG_LOCKED = false /\ 1 <= pg_refcount x < 2 ^ 32 - 1 /\
      (dtag (sp_tree s) j = true -> has (pg_flags x) PAGE_FLAG_DIRTY = true);
}.

(** A page sits at one index. *)
Lemma space_ok_inj c m s i j p :
  space_ok c m s -> idx i -> idx j -> root_get (sp_tree s) i = Some p ->
  root_get (sp_tree s) j = Some p -> i = j.
Proof.
  intros Hok Hi Hj Hpi Hpj; destruct (so_page _ _ _ Hok i p Hi Hpi) as (_ & x & Hx & _ & Ei & _).
  destruct (so_page _ _ _ Hok j p Hj Hpj) as (_ & y & Hy & _ & Ej & _); congruence.
Qed.

Lemma space_ok_written c c' m s s' j p x x' e :
  space_ok c m s -> idx j -> root_get (sp_tree s) j = Some p ->
  touched m p c c' s' x' -> written m j s s' x x' e ->
  has (pg_flags x') PAGE_FLAG_LOCKED = false -> 1 <= pg_refcount x' < 2 ^ 32 - 1 ->
  space_ok c' m s'.
Proof.
  intros Hok Hj Hp [Es Ep] (Hw & Hh & _ & Hg & Ht & Hd & Em & Ei) Hl Hr; split.
  - by rewrite Es, lookup_insert_eq.
  - done.
  - intros i q Hi Hq; rewrite Hg in Hq by done.
    destruct (so_page _ _ _ Hok i q Hi Hq) as (Hq0 & y & Hy & Hym & Hyi & Hyl & Hyr & Hyd).
    split; [done|]; destruct (decide (i = j)) as [->|Hne].
    + rewrite Hp in Hq; injection Hq as <-; exists x'; rewrite Ep, lookup_insert_eq.
      split_and!; try done; [lia|lia|]; rewrite Ht, decide_True by done; by rewrite Hd.
    + assert (q <> p) by (intros ->; apply Hne; by eapply space_ok_inj).
      exists y; rewrite Ep, lookup_insert_ne by done; split_and!; try done; [lia|lia|].
      rewrite Ht, decide_False by done; done.
Qed.

(** Reference counts. *)
Definition rc (c : cache) (p : Z) : Z :=
  match c_pages c !! p with Some x => pg_refcount x | None => 0 end.

Lemma rc_some c p x : c_pages c !! p = Some x -> rc c p = pg_refcount x.
Proof. unfold rc; by intros ->. Qed.

Lemma rc_touched m p c c' s' x' q :
  touched m p c c' s' x' -> rc c' q = if decide (q = p) then pg_refcount x' else rc c q.
Proof.
  intros [_ E]; unfold rc; rewrite E; case_decide; [subst; by rewrite lookup_insert_eq|].
  by rewrite lookup_insert_ne.
Qed.

(** ** A batch *)

(** The answers of the next [n] writes; they are 0 when none is recorded. *)
Fixpoint answers (n : nat) (io : list Z) : list Z :=
  match n with O => [] | S k => hd 0 io :: answers k (tl io) end.

Definition successes (l : list Z) : Z := Z.of_nat (length (List.filter (Z.eqb 0) l)).

(** Index [i] was written and the write failed. *)
Definition failed (l as_ : list Z) (i : Z) : bool :=
  existsb (fun '(j, e) => (j =? i) && negb (e =? 0)) (zip l as_).

Lemma failed_notin l as_ i : i ∉ l -> failed l as_ i = false.
Proof.
  unfold failed; revert as_; induction l as [|j l IH]; intros [|e as_] Hi; try done; simpl.
  rewrite IH by set_solver; rewrite orb_false_r; apply andb_false_iff; left.
  apply Z.eqb_neq; set_solver.
Qed.

Lemma failed_cons j l e as_ i :
  failed (j :: l) (e :: as_) i = ((j =? i) && negb (e =? 0)) || failed l as_ i.
Proof. done. Qed.

(** [synced]: how the state after writing the indices [l] (with the pages [ps] and
    the answers [as_]) relates to the one before. *)
Record synced (m : Z) (l ps as_ : list Z) (c c' : cache) (s s' : address_space) : Prop := {
  sy_ok : space_ok c' m s';
  sy_height : rt_height (sp_tree s') = rt_height (sp_tree s);
  sy_write : sp_write_page s' = sp_write_page s;
  sy_io : c_io c' = drop (length l) (c_io c);
  sy_log : io_log c' = io_log c ++ (inl <$> ps);
  sy_get : forall i, idx i -> root_get (sp_tree s') i = root_get (sp_tree s) i;
  sy_tag : forall i, idx i -> dtag (sp_tree s') i =
    if bool_decide (i ∈ l) then failed l as_ i else dtag (sp_tree s) i;
}.

Lemma sync_pages_spec m l ps n c s :
  m <> 0 -> space_ok c m s -> (0 < rt_height (sp_tree s))%nat ->
  Forall2 (fun j p => idx j /\ root_get (sp_tree s) j = Some p) l ps -> NoDup l ->
  (forall j, j ∈ l -> dtag (sp_tree s) j = true) ->
  (forall p, p ∈ ps -> 1 < rc c p) ->
  exists c' s', sync_pages m ps n c = Ok (n + successes (answers (length l) (c_io c)), c') /\
    synced m l ps (answers (length l) (c_io c)) c c' s s' /\
    forall q, rc c' q = rc c q - (if bool_decide (q ∈ ps) then 1 else 0).
Proof.
  intros Hm Hok Hh HF; revert n c s Hok Hh HF; revert ps.
  induction l as [|j l IH]; intros ps n c s Hok Hh HF Hnd Hl Hps; inversion HF as [|? p ? ps' Hp HF']; subst.
  { exists c, s; split; [unfold successes; simpl; do 2 f_equal; lia|]; split.
    - split; try done; by rewrite app_nil_r.
    - intros q; rewrite bool_decide_false by set_solver; lia. }
  destruct Hp as [Hj Hp]; apply NoDup_cons in Hnd as [Hjl Hnd].
  destruct (so_page _ _ _ Hok j p Hj Hp) as (Hp0 & x & Hx & Em & Ei & Hlk & Hr & Hd).
  pose proof (Hps p ltac:(set_solver)) as Hrc; rewrite (rc_some _ _ _ Hx) in Hrc.
  destruct (sync_page_spec m j p Hm Hj Hp0 c s x) as (c1 & s1 & x1 & E1 & T1 & Eio & El & Hwr & Er & Hlk1);
    [|apply Hd, Hl; set_solver|done|done|done|].
  { split; [apply (so_space _ _ _ Hok)|split; [apply (so_wf _ _ _ Hok)|done]]. }
  pose proof (space_ok_written _ _ _ _ _ _ _ _ _ _ Hok Hj Hp T1 Hwr Hlk1 ltac:(lia)) as Hok1.
  pose proof Hwr as (_ & Hh1 & Ew1 & Hg1 & Ht1 & _).
  assert (p ∉ ps') as Hpps.
  { intros Hin; apply list_elem_of_lookup_1 in Hin as [k Hk].
    destruct (Forall2_lookup_r _ _ _ _ _ HF' Hk) as (i & Hi & Hii & Hgi).
    apply Hjl; apply list_elem_of_lookup_2 in Hi.
    by rewrite (space_ok_inj _ _ _ j i p Hok Hj Hii Hp Hgi). }
  destruct (IH ps' (n + (if decide (next_io c = 0) then 1 else 0)) c1 s1) as (c2 & s2 & E2 & Hsy & Hrc2).
  - done.
  - by rewrite Hh1.
  - eapply Forall2_impl; [exact HF'|]; intros i q [Hi Hq]; split; [done|by rewrite Hg1].
  - done.
  - intros i Hi; pose proof Hi as Hi'; apply list_elem_of_lookup_1 in Hi' as [k Hk].
    destruct (Forall2_lookup_l _ _ _ _ _ HF' Hk) as (q & _ & Hii & _).
    rewrite Ht1, decide_False by (done || set_solver); apply Hl; set_solver.
  - intros q Hq; rewrite (rc_touched _ _ _ _ _ _ _ T1), decide_False by set_solver.
    apply Hps; set_solver.
  - destruct Hsy as [Sok Sh Sw Sio Sl Sg St]; exists c2, s2; split; [|split; [split|]].
    + cbn [sync_pages]; rewrite E1; mstep; rewrite E2, Eio; cbn [length answers].
      unfold successes; cbn [List.filter]; unfold next_io; rewrite Z.eqb_sym.
      destruct (Z.eqb_spec (hd 0 (c_io c)) 0); [rewrite decide_True by done|rewrite decide_False by done];
        cbn [length]; do 2 f_equal; lia.
    + done.
    + by rewrite Sh.
    + by rewrite Sw.
    + rewrite Sio, Eio; cbn [length]; destruct (c_io c); simpl; by rewrite ?drop_nil.
    + rewrite Sl, El, <- app_assoc; done.
    + intros i Hi; by rewrite Sg, Hg1.
    + intros i Hi; rewrite St, Ht1, Eio by done; cbn [length answers]; rewrite failed_cons.
      destruct (decide (i = j)) as [->|Hne].
      * rewrite (bool_decide_false (j ∈ l)), (bool_decide_true (j ∈ j :: l)) by set_solver.
        by rewrite Z.eqb_refl, failed_notin, orb_false_r by done.
      * rewrite (proj2 (Z.eqb_neq j i)) by done; simpl.
        by rewrite (bool_decide_ext (i ∈ j :: l) (i ∈ l)) by set_solver.
    + intros q; rewrite Hrc2, (rc_touched _ _ _ _ _ _ _ T1).
      destruct (decide (q = p)) as [->|Hq].
      * rewrite (bool_decide_false (p ∈ ps')), (bool_decide_true (p ∈ p :: ps')) by set_solver.
        rewrite (rc_some _ _ _ Hx); lia.
      * by rewrite (bool_decide_ext (q ∈ p :: ps') (q ∈ ps')) by set_solver.
Qed.

(** ** Batches compose *)

Lemma answers_length n io : length (answers n io) = n.
Proof. revert io; induction n as [|n IH]; intros io; simpl; [done|]; by rewrite IH. Qed.

Lemma answers_app n k io : answers (n + k) io = answers n io ++ answers k (drop n io).
Proof.
  revert io; induction n as [|n IH]; intros io; simpl; [done|]; f_equal; rewrite IH.
  do 2 f_equal; destruct io; simpl; by rewrite ?drop_nil.
Qed.

Lemma successes_app a b : successes (a ++ b) = successes a + successes b.
Proof. unfold successes; rewrite List.filter_app, length_app; lia. Qed.

Lemma failed_app l1 l2 a1 a2 i :
  length a1 = length l1 -> failed (l1 ++ l2) (a1 ++ a2) i = failed l1 a1 i || failed l2 a2 i.
Proof.
  intros Hl; unfold failed; rewrite zip_with_app by done; apply existsb_app.
Qed.

Lemma synced_app m l1 ps1 l2 ps2 c1 c2 c3 s1 s2 s3 :
  (forall i, i ∈ l1 -> i ∈ l2 -> False) ->
  synced m l1 ps1 (answers (length l1) (c_io c1)) c1 c2 s1 s2 ->
  synced m l2 ps2 (answers (length l2) (c_io c2)) c2 c3 s2 s3 ->
  synced m (l1 ++ l2) (ps1 ++ ps2) (answers (length (l1 ++ l2)) (c_io c1)) c1 c3 s1 s3.
Proof.
  intros Hdis [Aok Ah Aw Aio Al Ag At] [Bok Bh Bw Bio Bl Bg Bt]; split.
  - done.
  - by rewrite Bh.
  - by rewrite Bw.
  - by rewrite Bio, Aio, drop_drop, length_app.
  - by rewrite Bl, Al, fmap_app, app_assoc.
  - intros i Hi; by rewrite Bg, Ag.
  - intros i Hi; rewrite Bt, At by done.
    rewrite length_app, answers_app, failed_app, <- Aio by apply answers_length.
    destruct (decide (i ∈ l2)) as [H2|H2].
    + rewrite (bool_decide_true (i ∈ l2)), (bool_decide_true (i ∈ l1 ++ l2)) by set_solver.
      rewrite (failed_notin l1) by (intros H1; by apply (Hdis i)); done.
    + rewrite (bool_decide_false (i ∈ l2)), (failed_notin l2), orb_false_r by done.
      by rewrite (bool_decide_ext (i ∈ l1 ++ l2) (i ∈ l1)) by set_solver.
Qed.

(** ** Taking references *)

Lemma get_ref_spec c m s j p :
  space_ok c m s -> idx j -> root_get (sp_tree s) j = Some p -> rc c p < 2 ^ 32 - 2 ->
  exists c', get_ref p c = Ok c' /\ space_ok c' m s /\ c_io c' = c_io c /\ io_log c' = io_log c /\
    forall q, rc c' q = if decide (q = p) then rc c p + 1 else rc c q.
Proof.
  intros Hok Hj Hp Hr; destruct (so_page _ _ _ Hok j p Hj Hp) as (Hp0 & x & Hx & Em & Ei & Hlk & Hb & Hd).
  rewrite (rc_some _ _ _ Hx) in *; unfold get_ref; rewrite (upd_some _ _ _ _ Hx), u32_small by lia.
  eexists; split; [done|]; split; [split|split; [done|split; [done|]]].
  - apply (so_space _ _ _ Hok).
  - apply (so_wf _ _ _ Hok).
  - intros i q Hi Hq; destruct (so_page _ _ _ Hok i q Hi Hq) as (Hq0 & y & Hy & ?).
    split; [done|]; destruct (decide (q = p)) as [->|Hne].
    + rewrite Hx in Hy; injection Hy as <-; eexists; split; [apply lookup_insert_eq|].
      cbn; split_and!; try tauto; lia.
    + exists y; cbn; rewrite lookup_insert_ne by done; done.
  - intros q; unfold rc; cbn; case_decide; [subst; by rewrite lookup_insert_eq|].
    by rewrite lookup_insert_ne.
Qed.

Lemma take_refs_spec m s ps c :
  space_ok c m s -> NoDup ps ->
  (forall p, p ∈ ps -> rc c p < 2 ^ 32 - 2 /\ exists j, idx j /\ root_get (sp_tree s) j = Some p) ->
  exists c', take_refs ps c = Ok c' /\ space_ok c' m s /\ c_io c' = c_io c /\
    io_log c' = io_log c /\
    forall q, rc c' q = rc c q + (if bool_decide (q ∈ ps) then 1 else 0).
Proof.
  revert c; induction ps as [|p ps IH]; intros c Hok Hnd Hps.
  { exists c; split_and!; try done; intros q; rewrite bool_decide_false by set_solver; lia. }
  apply NoDup_cons in Hnd as [Hpn Hnd]; destruct (Hps p ltac:(set_solver)) as (Hr & j & Hj & Hp).
  destruct (get_ref_spec c m s j p) as (c1 & E1 & Hok1 & Eio1 & El1 & Hrc1); [done..|].
  destruct (IH c1 Hok1 Hnd) as (c2 & E2 & Hok2 & Eio2 & El2 & Hrc2).
  { intros q Hq; rewrite Hrc1, decide_False by set_solver; apply Hps; set_solver. }
  exists c2; cbn [take_refs]; rewrite E1; mstep; split_and!; [done|done|congruence|congruence|].
  intros q; rewrite Hrc2, Hrc1; case_decide as Hq.
  - subst q; rewrite (bool_decide_false (p ∈ ps)), (bool_decide_true (p ∈ p :: ps)) by set_solver; lia.
  - by rewrite (bool_decide_ext (q ∈ p :: ps) (q ∈ ps)) by set_solver.
Qed.

(** The log before the references were taken is the log of [synced]. *)
Lemma synced_from m l ps as_ c0 c c' s s' :
  synced m l ps as_ c c' s s' -> c_io c = c_io c0 /\ io_log c = io_log c0 ->
  synced m l ps as_ c0 c' s s'.
Proof. intros [? ? ? Hio Hlog ? ?] [E1 E2]; split; try done; [by rewrite Hio, E1|by rewrite Hlog, E2]. Qed.

Lemma Forall2_impl_idx (t t' : radix_tree_root) l ps :
  Forall2 (fun j p => root_get t' j = Some p) l ps ->
  (forall j, j ∈ l -> root_get t' j = root_get t j) ->
  Forall2 (fun j p => root_get t j = Some p) l ps.
Proof.
  induction 1 as [|j p l ps Hp _ IH]; intros H; constructor.
  - rewrite <- H; [done|set_solver].
  - apply IH; intros i Hi; apply H; set_solver.
Qed.

(** ** The loop *)

Lemma root_get_lt t j p : wf_root t -> root_get t j = Some p -> j < 2 ^ 42.
Proof.
  intros [H8 _]; unfold root_get; destruct (is_null _); [done|]; case_decide as Hlt; [|done].
  intros _; eapply Z.lt_le_trans; [exact Hlt|]; apply Z.pow_le_mono_r; lia.
Qed.

Lemma sorted_lt_unique (l l' : list Z) :
  StronglySorted Z.lt l -> StronglySorted Z.lt l' -> (forall i, i ∈ l <-> i ∈ l') -> l = l'.
Proof.
  intros H; revert l'; induction H as [|a l Hs IH Ha]; intros l' H' Hin.
  - destruct l' as [|b l']; [done|]; exfalso; apply (not_elem_of_nil b), Hin; set_solver.
  - destruct H' as [|b l' Hs' Hb]; [exfalso; apply (not_elem_of_nil a), Hin; set_solver|].
    rewrite Forall_forall in Ha, Hb.
    assert (a = b) as ->.
    { destruct (proj1 (elem_of_cons _ _ _) (proj1 (Hin a) ltac:(set_solver))) as [?|H1]; [done|].
      destruct (proj1 (elem_of_cons _ _ _) (proj2 (Hin b) ltac:(set_solver))) as [?|H2]; [done|].
      apply Hb in H1; apply Ha in H2; lia. }
    f_equal; apply IH; [done|]; intros i; specialize (Hin i); rewrite !elem_of_cons in Hin.
    split; intros Hi; [pose proof (Ha i Hi)|pose proof (Hb i Hi)]; destruct Hin as [H1 H2];
      [destruct (H1 (or_intror Hi))|destruct (H2 (or_intror Hi))]; try done; lia.
Qed.

(** [dirty_from t next l]: [l] lists the used, tagged indices from [next] on. *)
Definition dirty_from (t : radix_tree_root) (next : Z) (l : list Z) : Prop :=
  StronglySorted Z.lt l /\
  forall j, j ∈ l <-> idx j /\ next <= j /\ dtag t j = true /\ root_get t j <> None.

Lemma sorted_NoDup (l : list Z) : StronglySorted Z.lt l -> NoDup l.
Proof.
  induction 1 as [|a l _ IH Ha]; constructor; [|done]; intros Hin.
  rewrite Forall_forall in Ha; apply Ha in Hin; lia.
Qed.

Lemma sorted_split (l1 l2 : list Z) :
  StronglySorted Z.lt (l1 ++ l2) ->
  StronglySorted Z.lt l1 /\ StronglySorted Z.lt l2 /\ forall a b, a ∈ l1 -> b ∈ l2 -> a < b.
Proof.
  induction l1 as [|a l1 IH]; intros H; [split_and!; [constructor|done|set_solver]|].
  inversion H as [|? ? Hs Ha]; subst; destruct (IH Hs) as (H1 & H2 & H3).
  apply Forall_app in Ha as [Ha1 Ha2]; split_and!; [by constructor|done|].
  intros x b [->|Hx]%elem_of_cons Hb; [rewrite Forall_forall in Ha2; by apply Ha2|by apply H3].
Qed.

Lemma next_after_spec c m s l ps :
  space_ok c m s -> Forall2 (fun j p => idx j /\ root_get (sp_tree s) j = Some p) l ps ->
  l <> [] -> exists j, last l = Some j /\ next_after ps c = Ok (j + 1) /\ idx (j + 1).
Proof.
  intros Hok HF Hne; destruct l as [|j l _] using rev_ind; [done|].
  apply Forall2_app_inv_l in HF as (ps1 & ps2 & _ & HF2 & ->).
  inversion HF2 as [|? p ? ? [Hj Hp] HF3]; subst; inversion HF3; subst.
  destruct (so_page _ _ _ Hok j p Hj Hp) as (_ & x & Hx & _ & Ei & _).
  pose proof (root_get_lt _ _ _ (so_wf _ _ _ Hok) Hp) as Hlt.
  exists j; unfold next_after; rewrite !last_snoc; cbn [of_opt]; mstep.
  rewrite (pget_some _ _ _ Hx); mstep; rewrite Ei, u64_small by (destruct Hj; lia).
  split_and!; [done|done|destruct Hj; split; lia].
Qed.

Definition refs_bounded (c : cache) (s : address_space) : Prop :=
  forall j p, idx j -> root_get (sp_tree s) j = Some p -> rc c p < 2 ^ 32 - 2.

Lemma sync_loop_spec fuel m next n c s L :
  m <> 0 -> space_ok c m s -> refs_bounded c s -> idx next ->
  dirty_from (sp_tree s) next L -> (length L < fuel)%nat ->
  exists ps c' s', Forall2 (fun j p => root_get (sp_tree s) j = Some p) L ps /\
    sync_loop fuel m next n c = Ok (n + successes (answers (length L) (c_io c)), c') /\
    synced m L ps (answers (length L) (c_io c)) c c' s s' /\ forall q, rc c' q = rc c q.
Proof.
  intros Hm; revert next n c s L; induction fuel as [|f IH];
    intros next n c s L Hok Hrb Hnext [Hs HL] Hf; [lia|].
  destruct (tree_gang_tag (sp_tree s) next (so_wf _ _ _ Hok) Hnext)
    as (L' & items & ps & E1 & E2 & Hs' & HL' & HF).
  assert (L' = L) as -> by (apply sorted_lt_unique; [done..|]; intros i; by rewrite HL, HL').
  cbn [sync_loop]; rewrite (sget_some _ _ _ (so_space _ _ _ Hok)); mstep; rewrite E1; mstep.
  rewrite E2; mstep; rewrite <- (take_drop 16 L) in Hs; apply sorted_split in Hs as (Hs1 & Hs2 & Hs12).
  set (l1 := take 16 L) in *; set (l2 := drop 16 L) in *.
  assert (l1 ++ l2 = L) as EL by apply take_drop.
  assert (Forall2 (fun j p => idx j /\ root_get (sp_tree s) j = Some p) l1 ps) as HF1.
  { apply Forall2_same_length_lookup_2; [by eapply Forall2_length|].
    intros k j p Hj Hp; split; [|exact (Forall2_lookup_lr _ _ _ _ _ _ HF Hj Hp)].
    apply HL; rewrite <- EL; apply elem_of_app; left; by eapply list_elem_of_lookup_2. }
  destruct ps as [|p0 ps0] eqn:Eps; [|rewrite <- Eps in *].
  { assert (L = []) as ->.
    { apply Forall2_nil_inv_r in HF; unfold l1 in HF; by destruct L. }
    exists [], c, s; split; [constructor|]; split; [unfold successes; simpl; do 2 f_equal; lia|].
    split; [|done]; split; try done; by rewrite app_nil_r. }
  assert (l1 <> []) as Hne by (intros E; rewrite E in HF; inversion HF; congruence).
  assert (forall j, j ∈ l1 -> j ∈ L) as Hl1 by (rewrite <- EL; set_solver).
  assert (NoDup ps) as Hndps.
  { apply NoDup_alt; intros i k p Hi Hk.
    destruct (Forall2_lookup_r _ _ _ _ _ HF1 Hi) as (ji & Hji & Hii & Hgi).
    destruct (Forall2_lookup_r _ _ _ _ _ HF1 Hk) as (jk & Hjk & Hik & Hgk).
    assert (ji = jk) as -> by (by eapply space_ok_inj).
    by eapply (NoDup_lookup l1); [apply sorted_NoDup| |]. }
  destruct (take_refs_spec m s ps c Hok Hndps) as (c1 & E3 & Hok1 & Eio1 & El1 & Hrc1).
  { intros p Hp; apply list_elem_of_lookup_1 in Hp as [k Hk].
    destruct (Forall2_lookup_r _ _ _ _ _ HF1 Hk) as (j & _ & Hj & Hg); split; [by eapply Hrb|eauto]. }
  rewrite E3; mstep; destruct (next_after_spec c1 m s l1 ps) as (j & Hj & E4 & Hji); [done..|].
  rewrite E4; mstep.
  assert (j ∈ l1) as Hjl by (by eapply last_Some_elem_of).
  destruct (proj1 (HL j) (Hl1 j Hjl)) as (_ & Hnj & Htj & _).
  destruct (sync_pages_spec m l1 ps n c1 s) as (c2 & s2 & E5 & Hsy & Hrc2).
  { done. } { done. } { by eapply dtag_height. } { done. } { by apply sorted_NoDup. }
  { intros i Hi; by apply HL, Hl1. }
  { intros p Hp; rewrite Hrc1, bool_decide_true by done; apply list_elem_of_lookup_1 in Hp as [k Hk].
    destruct (Forall2_lookup_r _ _ _ _ _ HF1 Hk) as (i & _ & Hi & Hg).
    destruct (so_page _ _ _ Hok i p Hi Hg) as (_ & x & Hx & _ & _ & _ & Hr & _).
    rewrite (rc_some _ _ _ Hx); lia. }
  rewrite E5; mstep.
  assert (forall q, rc c2 q = rc c q) as Hrc.
  { intros q; rewrite Hrc2, Hrc1; lia. }
  assert (forall b, b ∈ l1 -> b <= j) as Hjmax.
  { intros b Hb; apply last_Some in Hj as [l' El]; rewrite El in Hs1, Hb.
    apply sorted_split in Hs1 as (_ & _ & H12); apply elem_of_app in Hb as [Hb|Hb].
    - pose proof (H12 b j Hb ltac:(set_solver)); lia.
    - apply list_elem_of_singleton in Hb; lia. }
  destruct (IH (j + 1) (n + successes (answers (length l1) (c_io c1))) c2 s2 l2)
    as (ps2 & c3 & s3 & HF2 & E6 & Hsy2 & Hrc3).
  { apply Hsy. }
  { intros i p Hi Hp; rewrite Hrc; rewrite (sy_get _ _ _ _ _ _ _ _ Hsy) in Hp by done; by eapply Hrb. }
  { done. }
  { split; [done|]; intros i; split.
    - intros Hi; assert (i ∈ L) as HiL by (rewrite <- EL; set_solver).
      apply HL in HiL as (Hii & _ & Hti & Hgi).
      rewrite (sy_tag _ _ _ _ _ _ _ _ Hsy), (sy_get _ _ _ _ _ _ _ _ Hsy) by done.
      rewrite bool_decide_false; [split_and!; [done|pose proof (Hs12 j i Hjl Hi); lia|done|done]|].
      intros Hi1; pose proof (Hs12 i i Hi1 Hi); lia.
    - intros (Hii & Hji' & Hti & Hgi); rewrite (sy_tag _ _ _ _ _ _ _ _ Hsy) in Hti by done.
      rewrite (sy_get _ _ _ _ _ _ _ _ Hsy) in Hgi by done.
      rewrite bool_decide_false in Hti by (intros Hi1; pose proof (Hjmax i Hi1); lia).
      assert (i ∈ L) as HiL by (apply HL; split_and!; [done|lia|done|done]).
      rewrite <- EL in HiL; apply elem_of_app in HiL as [Hi1|?]; [|done].
      pose proof (Hjmax i Hi1); lia. }
  { assert (length L = length l1 + length l2)%nat as El by (rewrite <- EL at 1; apply length_app).
    destruct l1; [done|]; simpl in *; lia. }
  exists (ps ++ ps2), c3, s3; split; [|split; [|split]].
  - rewrite <- EL; apply Forall2_app; [exact HF|]; eapply Forall2_impl_idx; [exact HF2|].
    intros i Hi; apply (sy_get _ _ _ _ _ _ _ _ Hsy), HL; rewrite <- EL; set_solver.
  - rewrite E6, (sy_io _ _ _ _ _ _ _ _ Hsy), <- EL, length_app, answers_app, successes_app, Eio1.
    do 2 f_equal; lia.
  - rewrite <- EL; eapply synced_app; [|rewrite <- Eio1; eapply synced_from; [exact Hsy|done]|exact Hsy2].
    intros i H1 H2; pose proof (Hs12 i i H1 H2); lia.
  - intros q; by rewrite Hrc3, Hrc.
Qed.

(** C27: writeback is complete and exact.  For an address space in order whose file
    system can write, [pagecache_sync_mapping] ends; it writes every page whose
    index carries the dirty tag exactly once, in increasing index order, and
    nothing else; it returns the number of writes that succeeded; a tag stays set
    exactly when the write of its page failed; lookups, reference counts and the
    invariant are as before and no page is given back to the allocator. *)
Theorem pagecache_sync_mapping_spec fuel m c s L :
  m <> 0 -> space_ok c m s -> refs_bounded c s -> sp_write_page s = true ->
  dirty_from (sp_tree s) 0 L -> (length L < fuel)%nat ->
  exists ps c' s', Forall2 (fun j p => root_get (sp_tree s) j = Some p) L ps /\
    pagecache_sync_mapping fuel m c = Ok (successes (answers (length L) (c_io c)), c') /\
    synced m L ps (answers (length L) (c_io c)) c c' s s' /\ forall q, rc c' q = rc c q.
Proof.
  intros Hm Hok Hrb Hwp HL Hf; unfold pagecache_sync_mapping.
  rewrite decide_False, (sget_some _ _ _ (so_space _ _ _ Hok)) by done; mstep; rewrite Hwp.
  apply (sync_loop_spec fuel m 0 0 c s L); [done..|split; lia|done|done].
Qed.

(** a file whose only cached page is page 0 is never written back.  The tree of
    such an address space is the page itself and cannot carry tags: marking the
    page dirty sets its flag and counts it, but every later
    [pagecache_sync_mapping] finds no dirty page, writes nothing and returns 0. *)
Theorem pagecache_single_page_not_synced m p c s x fuel :
  m <> 0 -> p <> 0 -> c_spaces c !! m = Some s -> sp_tree s = RRoot 0 (PItem p) ->
  c_pages c !! p = Some x -> pg_mapping x = m -> pg_index x = 0 ->
  has (pg_flags x) PAGE_FLAG_DIRTY = false ->
  exists c', pagecache_mark_dirty p c = Ok c' /\
    pget c' p = Ok (with_flags x (Z.lor (pg_flags x) PAGE_FLAG_DIRTY)) /\
    c_dirty c' = u64 (c_dirty c + 1) /\
    pagecache_sync_mapping (S fuel) m c' = Ok (0, c').
Proof.
  intros Hm Hp Hs Ht Hx Em Ei Hd; unfold pagecache_mark_dirty.
  rewrite decide_False, (pget_some _ _ _ Hx) by done; mstep; rewrite Em, decide_False, Hd by done.
  rewrite (sget_some _ _ s) by done; mstep; rewrite Ei, Ht; cbn [radix_tree_tag_set]; mstep.
  eexists; split; [done|]; split; [unfold pget; cbn; by rewrite lookup_insert_eq|]; split; [done|].
  unfold pagecache_sync_mapping; rewrite decide_False, sget_sput by done; mstep.
  cbn [with_tree sp_write_page]; destruct (sp_write_page s); [|done].
  cbn [sync_loop]; rewrite sget_sput; mstep; done.
Qed.

(** ** An example: two pages, one of them dirty *)

Definition tree65_dirty : radix_tree_root :=
  match radix_tree_tag_set tree65 65 RADIX_TREE_TAG_DIRTY with Ok r => r | _ => tree65 end.

Definition space65 : address_space := mkSpace tree65_dirty 0 2 0 true true.

Definition cache65 : cache := mkCache
  {[ 100 := mkPage PAGE_FLAG_CACHED 1 1 0 0 0;
     200 := mkPage (Z.lor PAGE_FLAG_CACHED PAGE_FLAG_DIRTY) 1 1 65 0 0 ]}
  {[ 1 := space65 ]} ∅ 0 0 0 0 1 1000 [] [] [0] [].

Lemma tree65_dirty_wf : wf_root tree65_dirty.
Proof.
  destruct (tree_tag_set tree65 65 200) as (t & E & Hw & _);
    [apply tree65_wf|vm_compute; lia|unfold idx; lia|by vm_compute|].
  unfold tree65_dirty; by rewrite E.
Qed.

Lemma tree65_dirty_content j :
  0 <= j ->
  root_get tree65_dirty j = (if decide (j = 0) then Some 100 else if decide (j = 65) then Some 200 else None) /\
  dtag tree65_dirty j = bool_decide (j = 65).
Proof.
  intros Hj; destruct (decide (j < 4096)) as [Hlt|Hge].
  - pose (ok j := bool_decide (root_get tree65_dirty j =
        if decide (j = 0) then Some 100 else if decide (j = 65) then Some 200 else None) &&
      Bool.eqb (dtag tree65_dirty j) (bool_decide (j = 65))).
    assert (forallb ok (seqZ 0 4096) = true) as Hall by (by vm_compute).
    rewrite forallb_forall in Hall; specialize (Hall j).
    rewrite <- list_elem_of_In, elem_of_seqZ in Hall; specialize (Hall ltac:(lia)).
    unfold ok in Hall; rewrite andb_true_iff, bool_decide_eq_true, Bool.eqb_true_iff in Hall; done.
  - assert (rt_height tree65_dirty = 2%nat) as E by (by vm_compute).
    unfold root_get, root_tag; rewrite E; change (2 ^ _) with 4096.
    rewrite !decide_False by lia; rewrite !bool_decide_false by lia.
    by destruct (is_null _).
Qed.

Lemma space65_ok : space_ok cache65 1 space65.
Proof.
  split; [done|apply tree65_dirty_wf|]; cbn [space65 sp_tree].
  intros j p [Hj _]; destruct (tree65_dirty_content j Hj) as [-> ->].
  destruct (decide (j = 0)) as [->|]; [|destruct (decide (j = 65)) as [->|]; [|done]]; intros [= <-];
    (split; [done|]; eexists; split; [done|]; split_and!; done).
Qed.

Lemma pagecache_sync_mapping_spec_witness :
  exists ps c' s', Forall2 (fun j p => root_get tree65_dirty j = Some p) [65] ps /\
    pagecache_sync_mapping 2 1 cache65 = Ok (1, c') /\
    synced 1 [65] ps [0] cache65 c' space65 s' /\ forall q, rc c' q = rc cache65 q.
Proof.
  apply (pagecache_sync_mapping_spec 2 1 cache65 space65 [65]); [done|apply space65_ok| |done| |simpl; lia].
  - intros j p [Hj _]; cbn [space65 sp_tree]; destruct (tree65_dirty_content j Hj) as [-> _].
    repeat case_decide; intros; simplify_eq; done.
  - split; [repeat constructor|]; intros j; rewrite list_elem_of_singleton; cbn [space65 sp_tree].
    split; [intros ->; split; [done|]; split; [lia|]; by vm_compute|].
    intros ([Hj _] & _ & Ht & _); destruct (tree65_dirty_content j Hj) as [_ E].
    rewrite E in Ht; by apply bool_decide_eq_true in Ht.
Defined.

Definition space0 : address_space := mkSpace (RRoot 0 (PItem 100)) 0 1 0 true true.
Definition cache0 : cache := mkCache {[ 100 := mkPage PAGE_FLAG_CACHED 1 1 0 0 0 ]}
  {[ 1 := space0 ]} ∅ 0 0 0 0 0 1000 [] [] [] [].

Lemma pagecache_single_page_not_synced_witness :
  exists c', pagecache_mark_dirty 100 cache0 = Ok c' /\
    pget c' 100 = Ok (with_flags (mkPage PAGE_FLAG_CACHED 1 1 0 0 0) (Z.lor PAGE_FLAG_CACHED PAGE_FLAG_DIRTY)) /\
    c_dirty c' = 1 /\ pagecache_sync_mapping 5 1 c' = Ok (0, c').
Proof. by apply (pagecache_single_page_not_synced 1 100 cache0 space0 (mkPage PAGE_FLAG_CACHED 1 1 0 0 0) 4). Defined.
