(* ===== verification/PageCacheGet.v ===== *)
(** * Bringing a page into the cache: [pagecache_get_page] on a miss

    Allocation, insertion into the tree, the LRU list and the read callback, on
    the path that succeeds and on the one where the read fails. *)

From S2P Require Import Prelude RadixTree PageCache PageCacheSync.
From stdpp Require Import base tactics option list numbers gmap.
From Stdlib Require Import ZArith Lia.

Local Open Scope Z_scope.

(** The head of the inactive list is another page of the state, or the list is
    empty. *)
Definition head_ok (c : cache) (p : Z) : Prop :=
  c_inactive_head c <> p /\
  (c_inactive_head c = 0 \/ is_Some (c_pages c !! c_inactive_head c)).

(** [elsewhere c c' p]: other pages are still there, with their references. *)
Definition elsewhere (c c' : cache) (p : Z) : Prop :=
  forall q, q <> p -> rc c' q = rc c q /\ (is_Some (c_pages c !! q) -> is_Some (c_pages c' !! q)).

Lemma elsewhere_trans c1 c2 c3 p : elsewhere c1 c2 p -> elsewhere c2 c3 p -> elsewhere c1 c3 p.
Proof.
  intros H12 H23 q Hq; destruct (H12 q Hq), (H23 q Hq); split; [congruence|tauto].
Qed.

Lemma elsewhere_pages c c' p x :
  c_pages c' = <[p := x]> (c_pages c) -> elsewhere c c' p.
Proof. intros E q Hq; unfold rc; rewrite E, lookup_insert_ne by done; done. Qed.

Lemma head_ok_elsewhere c c' p :
  head_ok c p -> c_inactive_head c' = c_inactive_head c -> elsewhere c c' p -> head_ok c' p.
Proof.
  intros [Hne Hh] E He; unfold head_ok; rewrite E; split; [done|].
  destruct Hh as [?|Hh]; [by left|right]; by apply (He _ Hne).
Qed.

Lemma lru_add_inactive_spec p c y :
  c_pages c !! p = Some y -> head_ok c p ->
  exists c', lru_add_inactive p c = Ok c' /\
    c_pages c' !! p = Some (with_next (with_prev y 0) (c_inactive_head c)) /\
    c_inactive_head c' = p /\ elsewhere c c' p /\
    c_spaces c' = c_spaces c /\ c_io c' = c_io c /\ c_events c' = c_events c.
Proof.
  intros Hy [Hhp Hh]; unfold lru_add_inactive; rewrite (upd_some _ _ _ _ Hy); mstep.
  set (y' := with_next (with_prev y 0) (c_inactive_head c)).
  destruct (decide (c_inactive_head c <> 0)) as [Hh0|Hh0].
  - destruct Hh as [?|[z Hz]]; [done|].
    rewrite (upd_some _ _ z) by (cs; by rewrite lookup_insert_ne); mstep.
    eexists; split; [done|]; split; [cs; rewrite lookup_insert_ne by done; by cs|].
    split; [by cs|]; split; [|done]; intros q Hq; unfold rc; cs.
    destruct (decide (q = c_inactive_head c)) as [->|Hqh].
    + rewrite lookup_insert_eq, Hz; split; [done|by intros; eexists].
    + rewrite !lookup_insert_ne by congruence; done.
  - eexists; split; [done|]; split; [by cs|]; split; [by cs|]; split; [|done].
    by apply (elsewhere_pages _ _ _ y').
Qed.

Lemma add_page_spec m p index c s x :
  m <> 0 -> p <> 0 -> 0 <= index < 2 ^ 42 -> c_spaces c !! m = Some s -> wf_root (sp_tree s) ->
  rt_rnode (sp_tree s) <> PNull \/ index = 0 -> root_get (sp_tree s) index = None ->
  allocs 14 (c_kmalloc c) -> c_pages c !! p = Some x -> 0 <= pg_refcount x < 2 ^ 32 - 1 ->
  head_ok c p ->
  exists c' t, pagecache_add_page m p index c = Ok (0, c') /\ wf_root t /\
    (forall j, 0 <= j -> root_get t j = if decide (index = j) then Some p else root_get (sp_tree s) j) /\
    c_spaces c' = <[m := with_nr (with_tree s t) (u64 (sp_nr_pages s + 1))]> (c_spaces c) /\
    c_pages c' !! p = Some (mkPage (Z.lor (pg_flags x) PAGE_FLAG_CACHED) (pg_refcount x + 1)
      m index 0 (c_inactive_head c)) /\
    c_inactive_head c' = p /\ elsewhere c c' p /\ c_io c' = c_io c /\ c_events c' = c_events c.
Proof.
  intros Hm Hp Hi Hs Hw Hroom Hnone Hkm Hx Hr Hh.
  destruct (insert_root_spec (sp_tree s) index p (c_kmalloc c) Hw) as (r & t & km & E & Hwt & Hpost & Hok);
    [lia|done|done|].
  destruct Hpost as [(-> & _ & Hg)|(-> & _)]; [|destruct (Hok eq_refl Hkm); [done|lia]].
  unfold pagecache_add_page; rewrite decide_False, (sget_some _ _ _ Hs) by tauto; mstep.
  rewrite E; mstep; rewrite decide_True by done.
  set (c1 := sput _ _ _); assert (c_pages c1 !! p = Some x) as Hx1 by done.
  rewrite (upd_some _ _ _ _ Hx1); mstep; rewrite upd_pput; mstep.
  unfold get_ref; rewrite upd_pput; mstep.
  rewrite (u32_small (pg_refcount _ + 1)) by (cbn; lia).
  rewrite (sget_some _ _ (with_tree s t)) by (unfold c1; by cs); mstep.
  pose (y := mkPage (Z.lor (pg_flags x) PAGE_FLAG_CACHED) (pg_refcount x + 1) m index
    (pg_lru_prev x) (pg_lru_next x)).
  pose (c2 := sput (pput c1 p y) m (with_nr (with_tree s t) (u64 (sp_nr_pages s + 1)))).
  match goal with |- context [lru_add_inactive p ?d] => change d with c2 end.
  assert (c_pages c2 !! p = Some y) as Hy by (unfold c2; by cs).
  assert (elsewhere c c2 p) as He2 by (by apply (elsewhere_pages _ _ _ y)).
  destruct (lru_add_inactive_spec p c2 y Hy (head_ok_elsewhere c c2 p Hh eq_refl He2)) as (c3 & -> & Hp3 & Hh3 & He & Es & Eio & Eev); mstep.
  exists c3, t; split; [done|]; split; [done|]; split; [done|].
  split; [rewrite Es; unfold c2, c1; cs; by rewrite insert_insert_eq|].
  split; [exact Hp3|]; split; [done|]; split; [|by rewrite Eio, Eev].
  by eapply elsewhere_trans.
Qed.

(** ** Removing the page that was just added *)

Lemma lru_remove_head p c y :
  c_pages c !! p = Some y -> pg_lru_prev y = 0 -> c_inactive_head c = p ->
  pg_lru_next y <> p -> (pg_lru_next y = 0 \/ is_Some (c_pages c !! pg_lru_next y)) ->
  exists c', lru_remove p c = Ok c' /\ c_pages c' !! p = Some (with_next (with_prev y 0) 0) /\
    c_inactive_head c' = pg_lru_next y /\ elsewhere c c' p /\
    c_spaces c' = c_spaces c /\ c_io c' = c_io c /\ c_events c' = c_events c.
Proof.
  intros Hy Hprev Hhead Hnp Hn; unfold lru_remove; rewrite (pget_some _ _ _ Hy); mstep.
  rewrite Hprev, decide_False by naive_solver; rewrite decide_True by done; mstep.
  set (c1 := set_lru _ _ _ _).
  destruct (decide (pg_lru_next y <> 0)) as [Hn0|Hn0].
  - destruct Hn as [?|[z Hz]]; [done|].
    rewrite (upd_some _ _ z) by done; mstep.
    rewrite (upd_some _ p y) by (cs; by rewrite lookup_insert_ne by done).
    eexists; split; [done|]; split; [by cs|]; split; [done|]; split; [|done].
    intros q Hq; unfold rc; cs; rewrite lookup_insert_ne by done.
    destruct (decide (q = pg_lru_next y)) as [->|Hqn].
    + rewrite lookup_insert_eq, Hz; split; [done|by intros; eexists].
    + rewrite lookup_insert_ne by done; done.
  - mstep; rewrite (upd_some _ p y) by done.
    eexists; split; [done|]; split; [by cs|]; split; [done|]; split; [|done].
    by eapply elsewhere_pages.
Qed.

Lemma remove_added_page m p index c s y :
  m <> 0 -> p <> 0 -> 0 <= index -> c_spaces c !! m = Some s -> wf_root (sp_tree s) ->
  c_pages c !! p = Some y -> has (pg_flags y) PAGE_FLAG_DIRTY = false -> pg_index y = index ->
  pg_lru_prev y = 0 -> c_inactive_head c = p -> pg_lru_next y <> p ->
  (pg_lru_next y = 0 \/ is_Some (c_pages c !! pg_lru_next y)) -> pg_refcount y > 1 ->
  exists c' s', pagecache_remove_page m p c = Ok c' /\ c_spaces c' !! m = Some s' /\
    wf_root (sp_tree s') /\
    (forall j, 0 <= j -> root_get (sp_tree s') j =
       if decide (index = j) then None else root_get (sp_tree s) j) /\
    c_pages c' !! p = Some (mkPage (Z.land (pg_flags y) (Z.lnot PAGE_FLAG_CACHED))
      (pg_refcount y - 1) 0 index 0 0) /\
    elsewhere c c' p /\ c_io c' = c_io c /\ c_events c' = c_events c.
Proof.
  intros Hm Hp Hi Hs Hw Hy Hd Ei Hprev Hhead Hnp Hn Hr; unfold pagecache_remove_page.
  rewrite decide_False, (pget_some _ _ _ Hy) by tauto; mstep; rewrite Hd; mstep.
  destruct (lru_remove_head p c y) as (c1 & -> & Hy1 & _ & He1 & Es1 & Eio1 & Eev1); [done..|]; mstep.
  rewrite (pget_some _ _ _ Hy1); mstep; rewrite (sget_some _ _ s) by (by rewrite Es1); mstep.
  cbn [with_next with_prev pg_index]; rewrite Ei.
  destruct (delete_root_spec (sp_tree s) index Hw Hi) as (t & -> & Hwt & Hg); mstep.
  set (c2 := sput c1 m _); assert (c_pages c2 !! p = Some (with_next (with_prev y 0) 0)) as Hy2 by done.
  rewrite (upd_some _ _ _ _ Hy2); mstep; rewrite upd_pput; mstep.
  rewrite (sget_some _ _ (with_tree s t)) by (unfold c2; by cs); mstep.
  pose (z := mkPage (Z.land (pg_flags y) (Z.lnot PAGE_FLAG_CACHED)) (pg_refcount y) 0 index 0 0).
  match goal with |- context [pput c2 p ?d] => replace d with z by (unfold z; rewrite <- Ei; done) end.
  set (c3 := if decide _ then _ else _).
  assert (c_pages c3 = <[p := z]> (c_pages c1) /\ c_io c3 = c_io c1 /\ c_events c3 = c_events c1 /\
    exists n, c_spaces c3 !! m = Some (with_nr (with_tree s t) n)) as (Ep3 & Eio3 & Eev3 & n & Es3).
  { unfold c3, c2; case_decide; cs; split_and!; try done; [by eexists|].
    exists (sp_nr_pages s); by destruct s. }
  unfold pmm_free_page; rewrite decide_False, (pget_some _ _ z) by (done || (rewrite Ep3; by cs)); mstep.
  rewrite decide_True by done; eexists _, _; split; [done|]; split; [cs; exact Es3|].
  split; [done|]; split; [done|]; split; [by cs|]; split; [|cs; by rewrite Eio3, Eev3].
  eapply elsewhere_trans; [exact He1|]; eapply elsewhere_pages; cs; by rewrite Ep3, insert_insert_eq.
Qed.

(** ** The miss *)

Lemma find_page_miss m index c s :
  m <> 0 -> 0 <= index -> c_spaces c !! m = Some s -> wf_root (sp_tree s) ->
  root_get (sp_tree s) index = None -> pagecache_find_page m index c = Ok (0, c).
Proof.
  intros Hm Hi Hs Hw Hnone; unfold pagecache_find_page.
  rewrite decide_False, (sget_some _ _ _ Hs) by done; mstep.
  rewrite radix_tree_lookup_get, Hnone by (done || lia); mstep; done.
Qed.

(** The new page as it is before the insertion: locked, one reference. *)
Lemma alloc_locked c p pa x :
  p <> 0 -> c_palloc c = p :: pa -> c_pages c !! p = Some x ->
  exists c0 c1, pmm_alloc_page c = Ok (p, c0) /\ page_lock p c0 = Ok c1 /\
    c_pages c1 = <[p := mkPage PAGE_FLAG_LOCKED 1 (pg_mapping x) (pg_index x)
      (pg_lru_prev x) (pg_lru_next x)]> (c_pages c) /\
    c_spaces c1 = c_spaces c /\ c_kmalloc c1 = c_kmalloc c /\ c_io c1 = c_io c /\
    c_inactive_head c1 = c_inactive_head c /\ c_events c1 = c_events c.
Proof.
  intros Hp Hpa Hx; unfold pmm_alloc_page; rewrite Hpa, decide_False by done.
  rewrite (upd_some (set_answers c _ _ _) p x) by done; mstep; eexists _, _; split; [done|].
  unfold page_lock; rewrite decide_False, pget_pput by done; mstep; cbn [pg_flags with_ref with_flags].
  change (has 0 PAGE_FLAG_LOCKED) with false; cbv iota; rewrite pput_pput; split; [done|].
  split; [by cs|done].
Qed.

Lemma page_unlock_some c p y :
  p <> 0 -> c_pages c !! p = Some y ->
  page_unlock p c = Ok (pput c p (with_flags y (Z.land (pg_flags y) (Z.lnot PAGE_FLAG_LOCKED)))).
Proof. intros; unfold page_unlock; rewrite decide_False by done; by rewrite (upd_some _ _ y). Qed.

Lemma io_answer_head c : c_inactive_head (io_answer c).2 = c_inactive_head c.
Proof. unfold io_answer; by destruct (c_io c). Qed.

(** [added m p index c s d]: in [d] the page [p], new and still locked, is cached at
    [index]; it has the reference of its allocation and the one of the cache. *)
Definition added (m p index : Z) (c : cache) (s : address_space) (d : cache) : Prop :=
  exists s', c_spaces d !! m = Some s' /\ wf_root (sp_tree s') /\ sp_read_page s' = sp_read_page s /\
    (forall j, 0 <= j -> root_get (sp_tree s') j =
       if decide (index = j) then Some p else root_get (sp_tree s) j) /\
    c_pages d !! p = Some (mkPage (Z.lor PAGE_FLAG_LOCKED PAGE_FLAG_CACHED) 2 m index 0 (c_inactive_head c)) /\
    c_inactive_head d = p /\ elsewhere c d p /\ io_log d = io_log c.

Lemma added_unlock m p index c s d :
  p <> 0 -> added m p index c s d ->
  exists c' s', page_unlock p d = Ok c' /\ c_spaces c' !! m = Some s' /\ wf_root (sp_tree s') /\
    (forall j, 0 <= j -> root_get (sp_tree s') j =
       if decide (index = j) then Some p else root_get (sp_tree s) j) /\
    c_pages c' !! p = Some (mkPage PAGE_FLAG_CACHED 2 m index 0 (c_inactive_head c)) /\
    elsewhere c c' p /\ io_log c' = io_log c.
Proof.
  intros Hp (s' & Hs & Hw & _ & Hg & Hy & _ & He & El); rewrite (page_unlock_some _ _ _ Hp Hy).
  eexists _, s'; split; [done|]; split; [by cs|]; split; [done|]; split; [done|]; split; [by cs|].
  split; [|done]; eapply elsewhere_trans; [exact He|]; by eapply elsewhere_pages; cs.
Qed.

(** The insertion undone: the tree is as before, one reference is left. *)
Lemma added_undo m p index c s d :
  m <> 0 -> p <> 0 -> 0 <= index -> root_get (sp_tree s) index = None -> head_ok c p ->
  added m p index c s d ->
  exists d' c' s' y, pagecache_remove_page m p d = Ok d' /\ page_unlock p d' = Ok c' /\
    c_spaces c' !! m = Some s' /\ wf_root (sp_tree s') /\
    (forall j, 0 <= j -> root_get (sp_tree s') j = root_get (sp_tree s) j) /\
    c_pages c' !! p = Some y /\ has (pg_flags y) PAGE_FLAG_LOCKED = false /\
    pg_refcount y = 1 /\ pg_mapping y = 0 /\ elsewhere c c' p /\ io_log c' = io_log c.
Proof.
  intros Hm Hp Hi Hnone [Hhp Hh] (s1 & Hs & Hw & _ & Hg & Hy & Hhd & He & El).
  destruct (remove_added_page m p index d s1 _ Hm Hp Hi Hs Hw Hy)
    as (d' & s' & -> & Hs' & Hw' & Hg' & Hp' & He' & _ & Eev); try done.
  { destruct Hh as [?|H']; [by left|right]; by apply He. }
  eexists d', _, s', _; split; [done|]; split; [by apply (page_unlock_some _ _ _ Hp Hp')|].
  split; [by cs|]; split; [done|]; split; [|split; [by cs|]].
  - intros j Hj; rewrite Hg' by done; destruct (decide (index = j)) as [<-|Hne]; [done|].
    rewrite Hg by done; by rewrite decide_False.
  - do 3 (split; [done|]); split; [|rewrite <- El; unfold io_log; cbn; by rewrite Eev].
    do 2 (eapply elsewhere_trans; [eassumption|]); by eapply elsewhere_pages; cs.
Qed.

(** The page is allocated, locked and inserted. *)
Lemma alloc_added m index p c s x pa :
  m <> 0 -> p <> 0 -> 0 <= index < 2 ^ 42 -> c_spaces c !! m = Some s -> wf_root (sp_tree s) ->
  rt_rnode (sp_tree s) <> PNull \/ index = 0 -> root_get (sp_tree s) index = None ->
  allocs 14 (c_kmalloc c) -> c_palloc c = p :: pa -> c_pages c !! p = Some x -> head_ok c p ->
  exists c0 c1 d, pmm_alloc_page c = Ok (p, c0) /\ page_lock p c0 = Ok c1 /\
    pagecache_add_page m p index c1 = Ok (0, d) /\ added m p index c s d /\ c_io d = c_io c.
Proof.
  intros Hm Hp Hi Hs Hw Hroom Hnone Hkm Hpa Hx Hh.
  destruct (alloc_locked c p pa x) as (c0 & c1 & E0 & E1 & Ep1 & Es1 & Ek1 & Eio1 & Eh1 & Eev1); [done..|].
  set (y1 := mkPage _ _ _ _ _ _) in Ep1.
  assert (elsewhere c c1 p) as He1 by (by apply (elsewhere_pages _ _ _ y1)).
  destruct (add_page_spec m p index c1 s y1)
    as (d & t & E2 & Hwt & Hg & Es2 & Hy2 & Hh2 & He2 & Eio2 & Eev2); try done.
  { by rewrite Es1. }
  { by rewrite Ek1. }
  { rewrite Ep1; by rewrite lookup_insert_eq. }
  { by apply (head_ok_elsewhere c c1). }
  exists c0, c1, d; do 3 (split; [done|]); split; [|congruence].
  exists (with_nr (with_tree s t) (u64 (sp_nr_pages s + 1))).
  split; [rewrite Es2; by rewrite lookup_insert_eq|]; do 3 (split; [done|]).
  split; [rewrite Hy2; by rewrite Eh1|]; split; [done|].
  split; [by eapply elsewhere_trans|unfold io_log; by rewrite Eev2, Eev1].
Qed.

Lemma added_read m p index c s d q :
  added m p index c s d ->
  exists d', io_answer (emit d (EvRead m q)) = (next_io d, d') /\ added m p index c s d'.
Proof.
  intros (s1 & Hs & Hw & Hr & Hg & Hy & Hhd & He & El).
  pose proof (io_answer_head (emit d (EvRead m q))) as Eh3.
  destruct (io_answer_eq (emit d (EvRead m q))) as (d' & E3 & _ & Es3 & Ep3 & Eev3).
  rewrite E3 in Eh3; cbn [snd] in Eh3; exists d'; split; [done|]; exists s1; rewrite Es3, Ep3, Eh3.
  do 6 (split; [done|]); split; [intros z Hz; unfold rc; rewrite Ep3; by apply He|].
  rewrite <- El; transitivity (io_log (emit d (EvRead m q))); [unfold io_log; by rewrite Eev3|].
  rewrite io_log_emit; apply app_nil_r.
Qed.

(** The answer of [read_page]; 0 when the file system has none. *)
Definition read_answer (c : cache) (s : address_space) : Z :=
  if sp_read_page s then next_io c else 0.


(** An empty file of which page 0 is read, and the read fails. *)
Definition cache_miss : cache := mkCache {[ 100 := mkPage 0 0 0 0 0 0 ]}
  {[ 1 := mkSpace (RRoot 0 PNull) 0 0 0 true true ]} ∅ 0 0 0 0 0 1000
  (replicate 14 true) [100] [-5] [].

