(* ===== verification/Rbtree.v ===== *)
(** * Red-black trees (core/lib/rbtree.c, core/lib/rbtree.h)

    The definitions.  Nodes live in a store from addresses to node records; NULL is
    0.  The tree does not own its nodes: they are embedded in other objects, and the
    augmentation callback updates those objects from the pointers of the tree.  The
    model keeps them as a value of any type [A] next to the store; the callback is
    [option (Z -> gmap Z rb_node -> A -> res A)], [None] for a NULL callback.  Loops
    take a fuel argument; the theorems of RbtreeSpec.v show that any number above
    the number of nodes is enough. *)

From S2P Require Import Prelude.
From stdpp Require Import base tactics option list numbers gmap.
From Stdlib Require Import ZArith Lia.

Local Open Scope Z_scope.

Inductive color := RB_RED | RB_BLACK.

#[export] Instance color_eq_dec : EqDecision color.
Proof. solve_decision. Defined.

Record rb_node := mkNode {
  rb_parent : Z; rb_left : Z; rb_right : Z; rb_color : color;
}.

Abbreviation rb_store := (gmap Z rb_node).

(** The node a pointer refers to. *)
Definition rb_at (H : rb_store) (p : Z) : res rb_node :=
  if decide (p = 0) then Fault else of_opt (H !! p).

Section Rbtree.
Context {A : Type}.
Context (augment_cb : option (Z -> rb_store -> A -> res A)).

(** [root->rb_node], the nodes, and the objects around the nodes. *)
Record rb_state := mkRb { rb_root : Z; rb_heap : rb_store; rb_data : A }.

Definition parent_of (s : rb_state) (p : Z) : res Z := n ← rb_at (rb_heap s) p; Ok (rb_parent n).
Definition left_of (s : rb_state) (p : Z) : res Z := n ← rb_at (rb_heap s) p; Ok (rb_left n).
Definition right_of (s : rb_state) (p : Z) : res Z := n ← rb_at (rb_heap s) p; Ok (rb_right n).
Definition color_of (s : rb_state) (p : Z) : res color := n ← rb_at (rb_heap s) p; Ok (rb_color n).

Definition set_root (s : rb_state) (p : Z) : rb_state := mkRb p (rb_heap s) (rb_data s).
Definition rb_upd (s : rb_state) (p : Z) (f : rb_node -> rb_node) : res rb_state :=
  n ← rb_at (rb_heap s) p; Ok (mkRb (rb_root s) (<[p := f n]> (rb_heap s)) (rb_data s)).
Definition set_parent (s : rb_state) (p v : Z) : res rb_state :=
  rb_upd s p (fun n => mkNode v (rb_left n) (rb_right n) (rb_color n)).
Definition set_left (s : rb_state) (p v : Z) : res rb_state :=
  rb_upd s p (fun n => mkNode (rb_parent n) v (rb_right n) (rb_color n)).
Definition set_right (s : rb_state) (p v : Z) : res rb_state :=
  rb_upd s p (fun n => mkNode (rb_parent n) (rb_left n) v (rb_color n)).
Definition set_color (s : rb_state) (p : Z) (c : color) : res rb_state :=
  rb_upd s p (fun n => mkNode (rb_parent n) (rb_left n) (rb_right n) c).

(** [if (p) p->rb_parent = v] and [if (p) p->rb_color = c]. *)
Definition set_parent' (s : rb_state) (p v : Z) : res rb_state :=
  if decide (p <> 0) then set_parent s p v else Ok s.
Definition set_color' (s : rb_state) (p : Z) (c : color) : res rb_state :=
  if decide (p <> 0) then set_color s p c else Ok s.

(** [p && p->rb_color == RB_RED] and [!p || p->rb_color == RB_BLACK]. *)
Definition is_red (s : rb_state) (p : Z) : res bool :=
  if decide (p = 0) then Ok false else c ← color_of s p; Ok (bool_decide (c = RB_RED)).
Definition is_black (s : rb_state) (p : Z) : res bool :=
  if decide (p = 0) then Ok true else c ← color_of s p; Ok (bool_decide (c = RB_BLACK)).

Definition augment (p : Z) (s : rb_state) : res rb_state :=
  match augment_cb with
  | None => Ok s
  | Some f => a ← f p (rb_heap s) (rb_data s); Ok (mkRb (rb_root s) (rb_heap s) a)
  end.

(** ** Rotations *)

Definition rb_rotate_left (node : Z) (s : rb_state) : res rb_state :=
  right ← right_of s node;
  rl ← left_of s right;
  s ← set_right s node rl;
  s ← set_parent' s rl node;
  np ← parent_of s node;
  s ← set_parent s right np;
  s ← (if decide (np = 0) then Ok (set_root s right)
       else
         pl ← left_of s np;
         if decide (node = pl) then set_left s np right else set_right s np right);
  s ← set_left s right node;
  s ← set_parent s node right;
  s ← augment node s;
  augment right s.

Definition rb_rotate_right (node : Z) (s : rb_state) : res rb_state :=
  left ← left_of s node;
  lr ← right_of s left;
  s ← set_left s node lr;
  s ← set_parent' s lr node;
  np ← parent_of s node;
  s ← set_parent s left np;
  s ← (if decide (np = 0) then Ok (set_root s left)
       else
         pr ← right_of s np;
         if decide (node = pr) then set_right s np left else set_left s np left);
  s ← set_right s left node;
  s ← set_parent s node left;
  s ← augment node s;
  augment left s.

(** ** Insertion *)

(** [*rb_link = node]: the link is the root or a child field of [parent]. *)
Inductive rb_link := LinkRoot | LinkLeft | LinkRight.

Definition rb_link_node (node parent : Z) (link : rb_link) (s : rb_state) : res rb_state :=
  let s := mkRb (rb_root s) (<[node := mkNode parent 0 0 RB_RED]> (rb_heap s)) (rb_data s) in
  match link with
  | LinkRoot => Ok (set_root s node)
  | LinkLeft => set_left s parent node
  | LinkRight => set_right s parent node
  end.

(** The body of the loop where the parent is a left child: the new [node]. *)
Definition insert_left (node parent grandparent : Z) (s : rb_state) : res (Z * rb_state) :=
  uncle ← right_of s grandparent;
  red ← is_red s uncle;
  if (red : bool) then
    s ← set_color s parent RB_BLACK;
    s ← set_color s uncle RB_BLACK;
    s ← set_color s grandparent RB_RED;
    Ok (grandparent, s)
  else
    pr ← right_of s parent;
    '(node, parent, grandparent, s) ←
      (if decide (node = pr) then
         let node := parent in
         s ← rb_rotate_left node s;
         parent ← parent_of s node;
         grandparent ← parent_of s parent;
         Ok (node, parent, grandparent, s)
       else Ok (node, parent, grandparent, s));
    s ← set_color s parent RB_BLACK;
    s ← set_color s grandparent RB_RED;
    s ← rb_rotate_right grandparent s;
    Ok (node, s).

Definition insert_right (node parent grandparent : Z) (s : rb_state) : res (Z * rb_state) :=
  uncle ← left_of s grandparent;
  red ← is_red s uncle;
  if (red : bool) then
    s ← set_color s parent RB_BLACK;
    s ← set_color s uncle RB_BLACK;
    s ← set_color s grandparent RB_RED;
    Ok (grandparent, s)
  else
    pl ← left_of s parent;
    '(node, parent, grandparent, s) ←
      (if decide (node = pl) then
         let node := parent in
         s ← rb_rotate_right node s;
         parent ← parent_of s node;
         grandparent ← parent_of s parent;
         Ok (node, parent, grandparent, s)
       else Ok (node, parent, grandparent, s));
    s ← set_color s parent RB_BLACK;
    s ← set_color s grandparent RB_RED;
    s ← rb_rotate_left grandparent s;
    Ok (node, s).

Fixpoint insert_loop (fuel : nat) (node : Z) (s : rb_state) : res rb_state :=
  match fuel with
  | O => NoFuel
  | S fuel =>
      parent ← parent_of s node;
      red ← is_red s parent;
      if (red : bool) then
        grandparent ← parent_of s parent;
        gl ← left_of s grandparent;
        '(node, s) ← (if decide (parent = gl) then insert_left node parent grandparent s
                      else insert_right node parent grandparent s);
        insert_loop fuel node s
      else Ok s
  end.

Definition rb_insert_augmented (fuel : nat) (node : Z) (s : rb_state) : res rb_state :=
  s ← insert_loop fuel node s;
  set_color' s (rb_root s) RB_BLACK.

(** ** Removal *)

(** The body of the fixup loop where [node] is the left child: [inl] goes on with the
    new [node] and [parent], [inr] is the [break]. *)
Definition fixup_left (parent : Z) (s : rb_state) : res ((Z * Z * rb_state) + rb_state) :=
  sibling ← right_of s parent;
  red ← is_red s sibling;
  '(sibling, s) ← (if (red : bool) then
                     s ← set_color s sibling RB_BLACK;
                     s ← set_color s parent RB_RED;
                     s ← rb_rotate_left parent s;
                     sibling ← right_of s parent;
                     Ok (sibling, s)
                   else Ok (sibling, s));
  sl ← left_of s sibling;
  lb ← is_black s sl;
  sr ← right_of s sibling;
  rb ← is_black s sr;
  if lb && rb then
    s ← set_color s sibling RB_RED;
    pp ← parent_of s parent;
    Ok (inl (parent, pp, s))
  else
    '(sibling, s) ← (if (rb : bool) then
                       s ← set_color' s sl RB_BLACK;
                       s ← set_color s sibling RB_RED;
                       s ← rb_rotate_right sibling s;
                       sibling ← right_of s parent;
                       Ok (sibling, s)
                     else Ok (sibling, s));
    c ← color_of s parent;
    s ← set_color s sibling c;
    s ← set_color s parent RB_BLACK;
    sr ← right_of s sibling;
    s ← set_color' s sr RB_BLACK;
    s ← rb_rotate_left parent s;
    Ok (inr s).

Definition fixup_right (parent : Z) (s : rb_state) : res ((Z * Z * rb_state) + rb_state) :=
  sibling ← left_of s parent;
  red ← is_red s sibling;
  '(sibling, s) ← (if (red : bool) then
                     s ← set_color s sibling RB_BLACK;
                     s ← set_color s parent RB_RED;
                     s ← rb_rotate_right parent s;
                     sibling ← left_of s parent;
                     Ok (sibling, s)
                   else Ok (sibling, s));
  sl ← left_of s sibling;
  lb ← is_black s sl;
  sr ← right_of s sibling;
  rb ← is_black s sr;
  if lb && rb then
    s ← set_color s sibling RB_RED;
    pp ← parent_of s parent;
    Ok (inl (parent, pp, s))
  else
    '(sibling, s) ← (if (lb : bool) then
                       s ← set_color' s sr RB_BLACK;
                       s ← set_color s sibling RB_RED;
                       s ← rb_rotate_left sibling s;
                       sibling ← left_of s parent;
                       Ok (sibling, s)
                     else Ok (sibling, s));
    c ← color_of s parent;
    s ← set_color s sibling c;
    s ← set_color s parent RB_BLACK;
    sl ← left_of s sibling;
    s ← set_color' s sl RB_BLACK;
    s ← rb_rotate_right parent s;
    Ok (inr s).

(** The final [node] and state. *)
Fixpoint fixup_loop (fuel : nat) (node parent : Z) (s : rb_state) : res (Z * rb_state) :=
  match fuel with
  | O => NoFuel
  | S fuel =>
      black ← is_black s node;
      if (black : bool) && bool_decide (node <> rb_root s) then
        pl ← left_of s parent;
        r ← (if decide (node = pl) then fixup_left parent s else fixup_right parent s);
        match r with
        | inl (node, parent, s) => fixup_loop fuel node parent s
        | inr s => Ok (rb_root s, s)
        end
      else Ok (node, s)
  end.

Definition rb_erase_fixup (fuel : nat) (node parent : Z) (s : rb_state) : res rb_state :=
  '(node, s) ← fixup_loop fuel node parent s;
  set_color' s node RB_BLACK.

(** [while (n->rb_left) n = n->rb_left], and its mirror image. *)
Fixpoint leftmost (fuel : nat) (n : Z) (s : rb_state) : res Z :=
  match fuel with
  | O => NoFuel
  | S fuel => l ← left_of s n; if decide (l <> 0) then leftmost fuel l s else Ok n
  end.

Fixpoint rightmost (fuel : nat) (n : Z) (s : rb_state) : res Z :=
  match fuel with
  | O => NoFuel
  | S fuel => r ← right_of s n; if decide (r <> 0) then rightmost fuel r s else Ok n
  end.

(** The link that pointed to [node], in [parent] or the root, now points to [child]. *)
Definition relink (node parent child : Z) (s : rb_state) : res rb_state :=
  if decide (parent = 0) then Ok (set_root s child)
  else
    pl ← left_of s parent;
    if decide (pl = node) then set_left s parent child else set_right s parent child.

(** A node with at most one child gives way to it. *)
Definition splice (node child : Z) (s : rb_state) : res (Z * rb_state) :=
  parent ← parent_of s node;
  s ← relink node parent child s;
  s ← set_parent' s child parent;
  Ok (parent, s).

(** [node_to_remove], unlinked, takes the place of [node]. *)
Definition take_place (node node_to_remove child : Z) (s : rb_state) : res rb_state :=
  np ← parent_of s node;
  s ← relink node np node_to_remove s;
  np ← parent_of s node;
  s ← set_parent s node_to_remove np;
  nl ← left_of s node;
  s ← set_left s node_to_remove nl;
  nr ← right_of s node;
  s ← set_right s node_to_remove (if decide (nr = node_to_remove) then child else nr);
  nc ← color_of s node;
  s ← set_color s node_to_remove nc;
  nl ← left_of s node;
  s ← set_parent' s nl node_to_remove;
  nr ← right_of s node;
  if decide (nr <> 0 /\ nr <> node_to_remove) then set_parent s nr node_to_remove else Ok s.

(** A node with two children gives way to its successor. *)
Definition transplant (fuel : nat) (node : Z) (s : rb_state) : res (color * Z * Z * rb_state) :=
  nr ← right_of s node;
  node_to_remove ← leftmost fuel nr s;
  color ← color_of s node_to_remove;
  child ← right_of s node_to_remove;
  parent ← parent_of s node_to_remove;
  s ← set_parent' s child parent;
  '(parent, s) ← (if decide (parent = node) then Ok (node_to_remove, s)
                  else
                    pl ← left_of s parent;
                    s ← (if decide (pl = node_to_remove) then set_left s parent child
                         else set_right s parent child);
                    Ok (parent, s));
  s ← take_place node node_to_remove child s;
  Ok (color, child, parent, s).

(** [while (p) { augment_cb(p); p = p->rb_parent; }], when there is a callback. *)
Fixpoint augment_up (fuel : nat) (p : Z) (s : rb_state) : res rb_state :=
  match fuel with
  | O => NoFuel
  | S fuel =>
      if decide (p = 0) then Ok s
      else s ← augment p s; p ← parent_of s p; augment_up fuel p s
  end.

Definition rb_erase_augmented (fuel : nat) (node : Z) (s : rb_state) : res rb_state :=
  if decide (node = 0 \/ rb_root s = 0) then Ok s
  else
    color ← color_of s node;
    nl ← left_of s node;
    nr ← right_of s node;
    '(color, child, parent, s) ←
      (if decide (nl = 0) then
         '(parent, s) ← splice node nr s; Ok (color, nr, parent, s)
       else if decide (nr = 0) then
         '(parent, s) ← splice node nl s; Ok (color, nl, parent, s)
       else transplant fuel node s);
    s ← (if augment_cb is Some _ then augment_up fuel parent s else Ok s);
    if decide (color = RB_BLACK) then rb_erase_fixup fuel child parent s else Ok s.

(** ** Replacement *)

Definition rb_replace_node (victim new_node : Z) (s : rb_state) : res rb_state :=
  parent ← parent_of s victim;
  s ← relink victim parent new_node s;
  vl ← left_of s victim;
  s ← set_parent' s vl new_node;
  vr ← right_of s victim;
  s ← set_parent' s vr new_node;
  v ← rb_at (rb_heap s) victim;
  rb_upd s new_node (fun _ => v).

(** ** Traversal *)

Definition rb_first (fuel : nat) (s : rb_state) : res Z :=
  if decide (rb_root s = 0) then Ok 0 else leftmost fuel (rb_root s) s.

Definition rb_last (fuel : nat) (s : rb_state) : res Z :=
  if decide (rb_root s = 0) then Ok 0 else rightmost fuel (rb_root s) s.

Fixpoint next_up (fuel : nat) (curr p : Z) (s : rb_state) : res Z :=
  match fuel with
  | O => NoFuel
  | S fuel =>
      if decide (p = 0) then Ok 0
      else
        pr ← right_of s p;
        if decide (curr = pr) then pp ← parent_of s p; next_up fuel p pp s else Ok p
  end.

Definition rb_next (fuel : nat) (node : Z) (s : rb_state) : res Z :=
  if decide (node = 0) then Ok 0
  else
    r ← right_of s node;
    if decide (r <> 0) then leftmost fuel r s
    else p ← parent_of s node; next_up fuel node p s.

Fixpoint prev_up (fuel : nat) (curr p : Z) (s : rb_state) : res Z :=
  match fuel with
  | O => NoFuel
  | S fuel =>
      if decide (p = 0) then Ok 0
      else
        pl ← left_of s p;
        if decide (curr = pl) then pp ← parent_of s p; prev_up fuel p pp s else Ok p
  end.

Definition rb_prev (fuel : nat) (node : Z) (s : rb_state) : res Z :=
  if decide (node = 0) then Ok 0
  else
    l ← left_of s node;
    if decide (l <> 0) then rightmost fuel l s
    else p ← parent_of s node; prev_up fuel node p s.

(** ** Verification *)

(** The verdict and [*black_height] afterwards. *)
Fixpoint rb_verify_node_internal (fuel : nat) (node black_height current_height : Z)
    (s : rb_state) : res (bool * Z) :=
  match fuel with
  | O => NoFuel
  | S fuel =>
      if decide (node = 0) then
        if decide (black_height = -1) then Ok (true, current_height)
        else if decide (current_height <> black_height) then Ok (false, black_height)
        else Ok (true, black_height)
      else
        n ← rb_at (rb_heap s) node;
        '(bad, current_height) ←
          (if decide (rb_color n = RB_RED) then
             lr ← is_red s (rb_left n);
             if (lr : bool) then Ok (true, current_height)
             else rr ← is_red s (rb_right n); Ok (rr, current_height)
           else Ok (false, current_height + 1));
        if (bad : bool) then Ok (false, black_height)
        else
          '(ok, black_height) ← rb_verify_node_internal fuel (rb_left n) black_height current_height s;
          if (ok : bool) then
            rb_verify_node_internal fuel (rb_right n) black_height current_height s
          else Ok (false, black_height)
  end.

Definition rb_verify (fuel : nat) (s : rb_state) : res bool :=
  if decide (rb_root s = 0) then Ok true
  else
    c ← color_of s (rb_root s);
    if decide (c <> RB_BLACK) then Ok false
    else '(ok, _) ← rb_verify_node_internal fuel (rb_root s) (-1) 0 s; Ok ok.

End Rbtree.

Arguments rb_state A : clear implicits.

(** Without a callback. *)
Definition rb_insert_color {A} (fuel : nat) (node : Z) (s : rb_state A) : res (rb_state A) :=
  rb_insert_augmented None fuel node s.
Definition rb_erase {A} (fuel : nat) (node : Z) (s : rb_state A) : res (rb_state A) :=
  rb_erase_augmented None fuel node s.
