(* ===== verification/RbtreeSpec.v ===== *)
(** * Red-black trees: what the pointers represent

    Trees and contexts (a tree with a hole), the relation between a state and the
    tree it holds, and the effect of the pointer operations of Rbtree.v on that tree.
    The statements are in terms of a direction [d], so that each serves a branch of
    the code and its mirror image. *)

From S2P Require Import Prelude Rbtree.
From stdpp Require Import base tactics option list numbers gmap.
From Stdlib Require Import ZArith Lia.

Local Open Scope Z_scope.

(** ** Trees *)

Inductive tree := Leaf | Node (c : color) (l : tree) (x : Z) (r : tree).

#[export] Instance tree_eq_dec : EqDecision tree.
Proof. solve_decision. Defined.

Definition tref (t : tree) : Z := match t with Leaf => 0 | Node _ _ x _ => x end.

(** The nodes in order. *)
Fixpoint elems (t : tree) : list Z :=
  match t with Leaf => [] | Node _ l x r => elems l ++ x :: elems r end.

Inductive dir := DL | DR.

#[export] Instance dir_eq_dec : EqDecision dir.
Proof. solve_decision. Defined.

Definition opp (d : dir) : dir := match d with DL => DR | DR => DL end.

(** [dnode d c a x b]: the node [x] with [a] on the [d] side and [b] on the other. *)
Definition dnode (d : dir) (c : color) (a : tree) (x : Z) (b : tree) : tree :=
  match d with DL => Node c a x b | DR => Node c b x a end.

(** A frame: the node [x] with a hole on its [d] side and [sib] on the other. *)
Record frame := Fr { fr_dir : dir; fr_color : color; fr_node : Z; fr_sib : tree }.

Definition ctx := list frame.

Definition fill (f : frame) (t : tree) : tree :=
  dnode (fr_dir f) (fr_color f) t (fr_node f) (fr_sib f).

Fixpoint plug (k : ctx) (t : tree) : tree :=
  match k with [] => t | f :: k => plug k (fill f t) end.

Definition kpar (k : ctx) : Z := match k with [] => 0 | f :: _ => fr_node f end.

Fixpoint kleft (k : ctx) : list Z :=
  match k with
  | [] => []
  | f :: k => kleft k ++ match fr_dir f with DL => [] | DR => elems (fr_sib f) ++ [fr_node f] end
  end.
Fixpoint kright (k : ctx) : list Z :=
  match k with
  | [] => []
  | f :: k => match fr_dir f with DL => fr_node f :: elems (fr_sib f) | DR => [] end ++ kright k
  end.

Lemma elems_plug k t : elems (plug k t) = kleft k ++ elems t ++ kright k.
Proof.
  revert t; induction k as [|[d c x s] k IH]; intros t; simpl; [by rewrite app_nil_r|].
  rewrite IH; destruct d; simpl; rewrite ?app_nil_r, <- ?app_assoc; done.
Qed.

Lemma plug_app k1 k2 t : plug (k1 ++ k2) t = plug k2 (plug k1 t).
Proof. revert t; induction k1; intros; simpl; done. Qed.

(** ** Nodes in the store *)

Definition nd (d : dir) (c : color) (par a b : Z) : rb_node :=
  match d with DL => mkNode par a b c | DR => mkNode par b a c end.

Fixpoint shape (H : rb_store) (par : Z) (t : tree) : Prop :=
  match t with
  | Leaf => True
  | Node c l x r => H !! x = Some (mkNode par (tref l) (tref r) c) /\ shape H x l /\ shape H x r
  end.

(** The nodes above a hole whose subtree has the root [p]. *)
Fixpoint kshape (H : rb_store) (k : ctx) (p : Z) : Prop :=
  match k with
  | [] => True
  | f :: k => H !! fr_node f = Some (nd (fr_dir f) (fr_color f) (kpar k) p (tref (fr_sib f))) /\
      shape H (fr_node f) (fr_sib f) /\ kshape H k (fr_node f)
  end.

Lemma shape_dnode H par d c a x b :
  shape H par (dnode d c a x b) <->
  H !! x = Some (nd d c par (tref a) (tref b)) /\ shape H x a /\ shape H x b.
Proof. destruct d; simpl; tauto. Qed.

Lemma tref_dnode d c a x b : tref (dnode d c a x b) = x.
Proof. by destruct d. Qed.

Lemma elems_dnode d c a x b y : y ∈ elems (dnode d c a x b) <-> y = x \/ y ∈ elems a \/ y ∈ elems b.
Proof. destruct d; simpl; rewrite elem_of_app, elem_of_cons; tauto. Qed.

Lemma shape_plug H k t : shape H 0 (plug k t) <-> shape H (kpar k) t /\ kshape H k (tref t).
Proof.
  revert t; induction k as [|[d c x s] k IH]; intros t; simpl; [tauto|].
  rewrite IH; unfold fill; simpl; rewrite shape_dnode, tref_dnode; tauto.
Qed.

Lemma shape_ext H H' par t :
  (forall x, x ∈ elems t -> H' !! x = H !! x) -> shape H par t -> shape H' par t.
Proof.
  revert par; induction t as [|c l IHl x r IHr]; intros par Hx; simpl; [done|].
  intros (E & Hl & Hr); rewrite Hx by (simpl; set_solver).
  split; [done|]; split; [apply IHl|apply IHr]; try done; intros; apply Hx; simpl; set_solver.
Qed.

Definition kelems (k : ctx) : list Z := kleft k ++ kright k.

Lemma kelems_cons f k y :
  y ∈ kelems (f :: k) <-> y = fr_node f \/ y ∈ elems (fr_sib f) \/ y ∈ kelems k.
Proof. unfold kelems; destruct f as [[] c x s]; simpl; set_solver. Qed.

Lemma elem_of_plug k t q : q ∈ elems (plug k t) <-> q ∈ kelems k \/ q ∈ elems t.
Proof. rewrite elems_plug; unfold kelems; rewrite !elem_of_app; tauto. Qed.

Lemma kelems_app k1 k2 q : q ∈ kelems k1 -> q ∈ kelems (k1 ++ k2).
Proof.
  induction k1 as [|f k1 IH]; [by intros ?%elem_of_nil|].
  change ((f :: k1) ++ k2) with (f :: k1 ++ k2); rewrite !kelems_cons; tauto.
Qed.

Lemma kshape_ext H H' k p :
  (forall x, x ∈ kelems k -> H' !! x = H !! x) -> kshape H k p -> kshape H' k p.
Proof.
  revert p; induction k as [|f k IH]; intros p Hx; simpl; [done|].
  intros (E & Hs & Hk); rewrite Hx by (apply kelems_cons; by left); split; [done|].
  split; [eapply shape_ext; [|done]|apply IH; [|done]];
    intros; apply Hx, kelems_cons; tauto.
Qed.

Lemma NoDup_plug k t :
  NoDup (elems (plug k t)) <->
  NoDup (elems t) /\ NoDup (kelems k) /\ (forall x, x ∈ elems t -> x ∉ kelems k).
Proof.
  rewrite elems_plug; unfold kelems; rewrite !NoDup_app; set_solver.
Qed.

Lemma NoDup_dnode d c a x b :
  NoDup (elems (dnode d c a x b)) <->
  NoDup (elems a) /\ NoDup (elems b) /\ x ∉ elems a /\ x ∉ elems b /\
  (forall q, q ∈ elems a -> q ∉ elems b).
Proof. destruct d; simpl; rewrite NoDup_app, NoDup_cons; set_solver. Qed.

Lemma tref_elems t : tref t = 0 \/ tref t ∈ elems t.
Proof. destruct t; simpl; [by left|right; set_solver]. Qed.

Lemma kpar_kelems k : k = [] \/ kpar k ∈ kelems k.
Proof. destruct k as [|f k]; [by left|right; apply kelems_cons; by left]. Qed.

Lemma sib_ne k x : x <> 0 -> x ∉ kelems k -> forall f k', k = f :: k' -> tref (fr_sib f) <> x.
Proof.
  intros Hx Hk f k' -> E; destruct (tref_elems (fr_sib f)); [congruence|].
  apply Hk, kelems_cons; rewrite <- E; tauto.
Qed.

(** ** The store after one pointer of a subtree, or of a context, is changed *)

(** The root of [t] has the parent [v]. *)
Definition reparent (H : rb_store) (t : tree) (v : Z) : rb_store :=
  match t with
  | Leaf => H
  | Node c l x r => <[x := mkNode v (tref l) (tref r) c]> H
  end.

(** The hole of [k] holds [v]. *)
Definition rechild (H : rb_store) (k : ctx) (v : Z) : rb_store :=
  match k with
  | [] => H
  | f :: k => <[fr_node f := nd (fr_dir f) (fr_color f) (kpar k) v (tref (fr_sib f))]> H
  end.

Definition reroot (k : ctx) (r v : Z) : Z := match k with [] => v | _ => r end.

Lemma reparent_ne H t v q : q ∉ elems t -> reparent H t v !! q = H !! q.
Proof. destruct t; simpl; [done|]; intros Hq; apply lookup_insert_ne; set_solver. Qed.

Lemma reparent_frame H H' t v q : H' !! q = H !! q -> reparent H' t v !! q = reparent H t v !! q.
Proof.
  destruct t as [|c l x r]; simpl; [done|]; intros E.
  destruct (decide (x = q)) as [->|]; [by rewrite !lookup_insert_eq|by rewrite !lookup_insert_ne].
Qed.

Lemma rechild_frame H H' k v q : H' !! q = H !! q -> rechild H' k v !! q = rechild H k v !! q.
Proof.
  destruct k as [|f k]; simpl; [done|]; intros E.
  destruct (decide (fr_node f = q)) as [->|]; [by rewrite !lookup_insert_eq|by rewrite !lookup_insert_ne].
Qed.

Lemma rechild_ne H k v q : q <> 0 -> q <> kpar k -> rechild H k v !! q = H !! q.
Proof. destruct k; simpl; [done|]; intros _ Hq; by apply lookup_insert_ne. Qed.

Lemma rechild_notin H k v q : q ∉ kelems k -> rechild H k v !! q = H !! q.
Proof.
  intros Hq; destruct k; simpl; [done|]; apply lookup_insert_ne; intros <-.
  apply Hq, kelems_cons; by left.
Qed.

Lemma shape_reparent H p v t :
  NoDup (elems t) -> shape H p t -> shape (reparent H t v) v t.
Proof.
  destruct t as [|c l x r]; simpl; [done|].
  rewrite NoDup_app, NoDup_cons; intros (Hl & Hlr & Hx & Hr) (E & Sl & Sr).
  rewrite lookup_insert_eq; split; [done|].
  split; (eapply shape_ext; [|done]); intros q Hq; apply lookup_insert_ne; set_solver.
Qed.

Lemma kshape_rechild H k p v :
  NoDup (kelems k) -> kshape H k p -> kshape (rechild H k v) k v.
Proof.
  destruct k as [|f k]; simpl; [done|]; intros Hnd (E & Ss & Sk); rewrite lookup_insert_eq.
  assert (forall q, q ∈ elems (fr_sib f) \/ q ∈ kelems k -> q <> fr_node f) as Hne.
  { intros q Hq ->; revert Hnd Hq; unfold kelems; destruct f as [[] c x s]; simpl;
      rewrite !NoDup_app, ?NoDup_cons; set_solver. }
  split; [done|].
  split; [eapply shape_ext; [|done]|eapply kshape_ext; [|done]];
    intros q Hq; apply lookup_insert_ne; intros Eq; apply (Hne q); auto.
Qed.

Lemma rb_at_some H p n : p <> 0 -> H !! p = Some n -> rb_at H p = Ok n.
Proof. intros ? E; unfold rb_at; rewrite decide_False by done; by rewrite E. Qed.

Section Access.
Context {A : Type} (s : rb_state A) (p : Z) (n : rb_node).
Hypothesis (Hp : p <> 0) (E : rb_heap s !! p = Some n).

Lemma left_of_some : left_of s p = Ok (rb_left n).
Proof. unfold left_of; by rewrite (rb_at_some _ _ _ Hp E). Qed.
Lemma right_of_some : right_of s p = Ok (rb_right n).
Proof. unfold right_of; by rewrite (rb_at_some _ _ _ Hp E). Qed.
Lemma parent_of_some : parent_of s p = Ok (rb_parent n).
Proof. unfold parent_of; by rewrite (rb_at_some _ _ _ Hp E). Qed.
Lemma color_of_some : color_of s p = Ok (rb_color n).
Proof. unfold color_of; by rewrite (rb_at_some _ _ _ Hp E). Qed.
Lemma set_left_some v : set_left s p v =
  Ok (mkRb (rb_root s) (<[p := mkNode (rb_parent n) v (rb_right n) (rb_color n)]> (rb_heap s)) (rb_data s)).
Proof. unfold set_left, rb_upd; by rewrite (rb_at_some _ _ _ Hp E). Qed.
Lemma set_right_some v : set_right s p v =
  Ok (mkRb (rb_root s) (<[p := mkNode (rb_parent n) (rb_left n) v (rb_color n)]> (rb_heap s)) (rb_data s)).
Proof. unfold set_right, rb_upd; by rewrite (rb_at_some _ _ _ Hp E). Qed.
Lemma set_parent_some v : set_parent s p v =
  Ok (mkRb (rb_root s) (<[p := mkNode v (rb_left n) (rb_right n) (rb_color n)]> (rb_heap s)) (rb_data s)).
Proof. unfold set_parent, rb_upd; by rewrite (rb_at_some _ _ _ Hp E). Qed.
Lemma set_color_some c : set_color s p c =
  Ok (mkRb (rb_root s) (<[p := mkNode (rb_parent n) (rb_left n) (rb_right n) c]> (rb_heap s)) (rb_data s)).
Proof. unfold set_color, rb_upd; by rewrite (rb_at_some _ _ _ Hp E). Qed.

End Access.

(** [lk] finds a node in a store with changed entries, [rd] runs a read or a write. *)
Ltac lk :=
  cbn [rb_heap];
  first
    [ eassumption
    | rewrite lookup_insert_eq; reflexivity
    | rewrite lookup_insert_ne by congruence; lk
    | rewrite reparent_ne by assumption; lk
    | rewrite rechild_notin by assumption; lk ].

Ltac rd1 :=
  match goal with
  | |- context [left_of ?s ?p] => erewrite (left_of_some s p) by first [done | lk]
  | |- context [right_of ?s ?p] => erewrite (right_of_some s p) by first [done | lk]
  | |- context [parent_of ?s ?p] => erewrite (parent_of_some s p) by first [done | lk]
  | |- context [color_of ?s ?p] => erewrite (color_of_some s p) by first [done | lk]
  | |- context [set_left ?s ?p _] => erewrite (set_left_some s p) by first [done | lk]
  | |- context [set_right ?s ?p _] => erewrite (set_right_some s p) by first [done | lk]
  | |- context [set_parent ?s ?p _] => erewrite (set_parent_some s p) by first [done | lk]
  | |- context [set_color ?s ?p _] => erewrite (set_color_some s p) by first [done | lk]
  end.
Ltac rd := rd1; mstep; cbn [rb_parent rb_left rb_right rb_color rb_root rb_heap rb_data].

(** ** Reads and writes *)

Section Holds.
Context {A : Type}.
Implicit Types (s : rb_state A).

Lemma set_parent_reparent s t p v :
  0 ∉ elems t -> shape (rb_heap s) p t ->
  set_parent' s (tref t) v = Ok (mkRb (rb_root s) (reparent (rb_heap s) t v) (rb_data s)).
Proof.
  intros H0 Hs; unfold set_parent', set_parent, rb_upd; destruct t as [|c l x r]; simpl.
  - by destruct s.
  - destruct Hs as (E & _); assert (x <> 0) by (simpl in H0; set_solver).
    rewrite decide_True, (rb_at_some _ _ _ ltac:(done) E) by done; done.
Qed.

(** The three spellings of "the link to [node] now leads to [v]". *)
Lemma link_left_first s k node v :
  0 ∉ kelems k -> node <> 0 -> (forall f k', k = f :: k' -> tref (fr_sib f) <> node) ->
  kshape (rb_heap s) k node ->
  (if decide (kpar k = 0) then Ok (set_root s v)
   else pl ← left_of s (kpar k);
        if decide (node = pl) then set_left s (kpar k) v else set_right s (kpar k) v) =
  Ok (mkRb (reroot k (rb_root s) v) (rechild (rb_heap s) k v) (rb_data s)).
Proof.
  intros H0 Hn Hsib Hk; destruct k as [|f k]; simpl; [done|].
  assert (fr_node f <> 0) by (intros E; apply H0, kelems_cons; by left).
  specialize (Hsib f k eq_refl); destruct Hk as (E & _).
  rewrite decide_False by done; unfold left_of, set_left, set_right, rb_upd.
  rewrite (rb_at_some _ _ _ ltac:(done) E); mstep.
  destruct f as [[] c x sb]; simpl in *; [rewrite decide_True|rewrite decide_False]; done.
Qed.

Lemma link_right_first s k node v :
  0 ∉ kelems k -> node <> 0 -> (forall f k', k = f :: k' -> tref (fr_sib f) <> node) ->
  kshape (rb_heap s) k node ->
  (if decide (kpar k = 0) then Ok (set_root s v)
   else pr ← right_of s (kpar k);
        if decide (node = pr) then set_right s (kpar k) v else set_left s (kpar k) v) =
  Ok (mkRb (reroot k (rb_root s) v) (rechild (rb_heap s) k v) (rb_data s)).
Proof.
  intros H0 Hn Hsib Hk; destruct k as [|f k]; simpl; [done|].
  assert (fr_node f <> 0) by (intros E; apply H0, kelems_cons; by left).
  specialize (Hsib f k eq_refl); destruct Hk as (E & _).
  rewrite decide_False by done; unfold right_of, set_left, set_right, rb_upd.
  rewrite (rb_at_some _ _ _ ltac:(done) E); mstep.
  destruct f as [[] c x sb]; simpl in *; [rewrite decide_False|rewrite decide_True]; done.
Qed.

Lemma relink_rechild s k node v :
  0 ∉ kelems k -> node <> 0 -> (forall f k', k = f :: k' -> tref (fr_sib f) <> node) ->
  kshape (rb_heap s) k node ->
  relink node (kpar k) v s =
  Ok (mkRb (reroot k (rb_root s) v) (rechild (rb_heap s) k v) (rb_data s)).
Proof.
  intros H0 Hn Hsib Hk; rewrite <- (link_left_first s k node v) by done; unfold relink.
  destruct (decide (kpar k = 0)); [done|].
  destruct (left_of s (kpar k)) as [pl| |]; mstep; [|done|done].
  destruct (decide (pl = node)), (decide (node = pl)); congruence.
Qed.

Definition tred (t : tree) : bool := match t with Node RB_RED _ _ _ => true | _ => false end.

Lemma is_red_shape s p t : 0 ∉ elems t -> shape (rb_heap s) p t -> is_red s (tref t) = Ok (tred t).
Proof.
  intros H0 Hs; unfold is_red; destruct t as [|c l x r]; [done|]; destruct Hs as (E & _).
  assert (x <> 0) by (simpl in H0; set_solver).
  simpl; rewrite decide_False, (color_of_some _ _ _ ltac:(done) E) by done; by destruct c.
Qed.

Lemma is_black_shape s p t :
  0 ∉ elems t -> shape (rb_heap s) p t -> is_black s (tref t) = Ok (negb (tred t)).
Proof.
  intros H0 Hs; unfold is_black; destruct t as [|c l x r]; [done|]; destruct Hs as (E & _).
  assert (x <> 0) by (simpl in H0; set_solver).
  simpl; rewrite decide_False, (color_of_some _ _ _ ltac:(done) E) by done; by destruct c.
Qed.


(** ** A state holds a tree *)

Context (adom : Z -> Prop) (ainv : A -> Prop).

Record holds (s : rb_state A) (t : tree) : Prop := {
  h_root : rb_root s = tref t;
  h_shape : shape (rb_heap s) 0 t;
  h_nodup : NoDup (elems t);
  h_null : 0 ∉ elems t;
  h_dom : forall x, x ∈ elems t -> adom x;
  h_data : ainv (rb_data s);
}.

Lemma tref_plug k t t' : tref t = tref t' \/ k <> [] -> tref (plug k t) = tref (plug k t').
Proof.
  revert t t'; induction k as [|f k IH]; intros t t'; simpl; [tauto|]; intros _.
  apply IH; left; unfold fill; by rewrite !tref_dnode.
Qed.

(** The subtree in a hole is replaced, by one of its own nodes or of new ones. *)
Lemma holds_replace_new s k u u' r' H' a' :
  holds s (plug k u) -> shape H' (kpar k) u' -> kshape H' k (tref u') ->
  r' = reroot k (rb_root s) (tref u') -> NoDup (elems u') ->
  (forall x, x ∈ elems u' -> x ∈ elems u \/ x ∉ kelems k /\ x <> 0 /\ adom x) -> ainv a' ->
  holds (mkRb r' H' a') (plug k u').
Proof.
  intros [Hr Hs Hn H0 Hd Ha] Hs' Hk' -> Hn' Hsub Ha'; split; simpl; try done.
  - destruct k as [|f k]; [done|]; unfold reroot; rewrite Hr; apply tref_plug; by right.
  - by apply shape_plug.
  - apply NoDup_plug in Hn as (_ & ? & Hdis); apply NoDup_plug; split_and!; [done|done|].
    intros x Hx; destruct (Hsub x Hx) as [?|[? _]]; auto.
  - rewrite elems_plug in *; rewrite !not_elem_of_app in *; split_and!; [tauto| |tauto].
    intros Hx; destruct (Hsub 0 Hx) as [?|(_ & ? & _)]; tauto.
  - intros x; rewrite elems_plug, !elem_of_app; intros Hx.
    assert (x ∈ elems u' \/ x ∈ kleft k \/ x ∈ kright k) as [Hx'|Hx'] by tauto.
    + destruct (Hsub x Hx') as [?|(_ & _ & ?)]; [|done]; apply Hd; rewrite elems_plug, !elem_of_app; tauto.
    + apply Hd; rewrite elems_plug, !elem_of_app; tauto.
Qed.

Lemma holds_replace s k u u' r' H' a' :
  holds s (plug k u) -> shape H' (kpar k) u' -> kshape H' k (tref u') ->
  r' = reroot k (rb_root s) (tref u') -> NoDup (elems u') ->
  (forall x, x ∈ elems u' -> x ∈ elems u) -> ainv a' ->
  holds (mkRb r' H' a') (plug k u').
Proof. intros Hh Hs Hk Hr Hn Hsub Ha; eapply holds_replace_new; eauto. Qed.

(** What is known when the focus is on [u]. *)
Lemma holds_focus s k u :
  holds s (plug k u) ->
  shape (rb_heap s) (kpar k) u /\ kshape (rb_heap s) k (tref u) /\ NoDup (elems u) /\
  NoDup (kelems k) /\ 0 ∉ elems u /\ 0 ∉ kelems k /\ (forall x, x ∈ elems u -> x ∉ kelems k).
Proof.
  intros [Hr Hs Hn H0 Hd Ha]; apply shape_plug in Hs as [? ?]; apply NoDup_plug in Hn as (? & ? & ?).
  rewrite elems_plug in H0; unfold kelems in *; split_and!; try done; set_solver.
Qed.

(** ** Colours and single reads *)

Lemma holds_node s d k c a x b :
  holds s (plug k (dnode d c a x b)) ->
  x <> 0 /\ rb_heap s !! x = Some (nd d c (kpar k) (tref a) (tref b)) /\
  shape (rb_heap s) x a /\ shape (rb_heap s) x b /\ 0 ∉ elems a /\ 0 ∉ elems b.
Proof.
  intros Hh; destruct (holds_focus _ _ _ Hh) as (Hs & _ & _ & _ & H0 & _ & _).
  apply shape_dnode in Hs as (? & ? & ?); rewrite elems_dnode in H0; naive_solver.
Qed.

Lemma set_color_ok s d k c a x b c' :
  holds s (plug k (dnode d c a x b)) ->
  exists s', set_color s x c' = Ok s' /\ holds s' (plug k (dnode d c' a x b)).
Proof.
  intros Hh; destruct (holds_node _ _ _ _ _ _ _ Hh) as (Hx0 & Ex & Sa & Sb & Ha0 & Hb0).
  destruct (holds_focus _ _ _ Hh) as (_ & Hk & Hn & _ & _ & _ & Hdis).
  apply NoDup_dnode in Hn as (Na & Nb & Hxa & Hxb & Hab).
  assert (x ∉ kelems k) as Hxk by (apply Hdis, elems_dnode; by left).
  rewrite (set_color_some _ _ _ Hx0 Ex); eexists; split; [done|].
  eapply holds_replace; [exact Hh| | | | | |apply Hh].
  - apply shape_dnode; split_and!; [rewrite lookup_insert_eq; by destruct d| |];
      (eapply shape_ext; [|eassumption]); intros q Hq; apply lookup_insert_ne; congruence.
  - rewrite tref_dnode in *; eapply kshape_ext; [|exact Hk]; intros q Hq; apply lookup_insert_ne; congruence.
  - rewrite tref_dnode; destruct k; [|done]; simpl.
    by rewrite (h_root _ _ Hh); simpl; rewrite tref_dnode.
  - apply NoDup_dnode; split_and!; done.
  - intros q; by rewrite !elems_dnode.
Qed.

(** ** A new leaf *)

Definition link_of (k : ctx) : rb_link :=
  match k with
  | [] => LinkRoot
  | f :: _ => match fr_dir f with DL => LinkLeft | DR => LinkRight end
  end.

Lemma link_node_ok s k x :
  holds s (plug k Leaf) -> x <> 0 -> x ∉ elems (plug k Leaf) -> adom x ->
  exists s', rb_link_node x (kpar k) (link_of k) s = Ok s' /\ rb_data s' = rb_data s /\
    holds s' (plug k (Node RB_RED Leaf x Leaf)).
Proof.
  intros Hh Hx0 Hx Hax; destruct (holds_focus _ _ _ Hh) as (_ & Hk & _ & Hnk & _ & H0k & _).
  assert (x ∉ kelems k) as Hxk by (rewrite elems_plug in Hx; unfold kelems; set_solver).
  set (H1 := <[x := mkNode (kpar k) 0 0 RB_RED]> (rb_heap s)).
  assert (kshape H1 k 0) as Hk1
    by (eapply kshape_ext; [|exact Hk]; intros q Hq; apply lookup_insert_ne; congruence).
  exists (mkRb (reroot k (rb_root s) x) (rechild H1 k x) (rb_data s)); split; [|split; [done|]].
  - unfold rb_link_node; fold H1; destruct k as [|f k]; [done|]; destruct Hk1 as (E & _).
    assert (fr_node f <> 0) by (intros Ef; apply H0k, kelems_cons; by left).
    destruct f as [[] c y t]; simpl in *;
      [rewrite (set_left_some (mkRb (rb_root s) H1 (rb_data s)) _ _ ltac:(done) E)
      |rewrite (set_right_some (mkRb (rb_root s) H1 (rb_data s)) _ _ ltac:(done) E)]; done.
  - eapply holds_replace_new; [exact Hh| | |done| | |apply Hh].
    + simpl; rewrite rechild_notin by done; unfold H1; by rewrite lookup_insert_eq.
    + by eapply kshape_rechild.
    + simpl; apply NoDup_singleton.
    + intros q; simpl; rewrite list_elem_of_singleton; intros ->; auto.
Qed.

(** ** The callback *)

(** The callback runs on any node of the tree and keeps what [ainv] says of the
    objects around the nodes. *)
Definition aug_ok (cb : option (Z -> rb_store -> A -> res A)) : Prop :=
  forall f, cb = Some f -> forall p s t, holds s t -> p ∈ elems t ->
  exists a, f p (rb_heap s) (rb_data s) = Ok a /\ ainv a.

Context (cb : option (Z -> rb_store -> A -> res A)).
Hypothesis Hcb : aug_ok cb.

Lemma augment_ok p s t :
  holds s t -> p ∈ elems t ->
  exists s', augment cb p s = Ok s' /\ holds s' t /\ rb_heap s' = rb_heap s.
Proof.
  intros Hh Hp; unfold augment; destruct cb as [f|] eqn:Ef; [|by exists s].
  destruct (Hcb f eq_refl p s t Hh Hp) as (a & -> & Ha); eexists; split; [done|]; split; [|done].
  destruct Hh; by split.
Qed.

(** ** Rotations *)

Definition rot (d : dir) : Z -> rb_state A -> res (rb_state A) :=
  match d with DL => rb_rotate_left cb | DR => rb_rotate_right cb end.

(** The store after a rotation at [x], whose other child is [y]. *)
Definition rotated (d : dir) (k : ctx) (H : rb_store) c a x e b y z : rb_store :=
  <[x := nd d c y (tref a) (tref b)]> (<[y := nd d e (kpar k) x (tref z)]>
    (rechild (<[y := nd d e (kpar k) (tref b) (tref z)]>
      (reparent (<[x := nd d c (kpar k) (tref a) (tref b)]> H) b x)) k y)).

Record rot_facts (d : dir) (k : ctx) (H : rb_store) c a x e b y z : Prop := {
  rf_x : H !! x = Some (nd d c (kpar k) (tref a) y);
  rf_y : H !! y = Some (nd d e x (tref b) (tref z));
  rf_a : shape H x a; rf_b : shape H y b; rf_z : shape H y z; rf_k : kshape H k x;
  rf_nb : NoDup (elems b); rf_nk : NoDup (kelems k);
  rf_ne : x <> y; rf_x0 : x <> 0; rf_y0 : y <> 0; rf_b0 : 0 ∉ elems b; rf_k0 : 0 ∉ kelems k;
  rf_dis : forall q, q ∈ elems b -> q <> x /\ q <> y /\ q ∉ kelems k;
  rf_out : forall q, q ∈ elems a \/ q ∈ elems z -> q <> x /\ q <> y /\ q ∉ elems b /\ q ∉ kelems k;
  rf_up : forall q, q ∈ kelems k -> q <> x /\ q <> y /\ q ∉ elems b;
}.

Lemma holds_rot_facts d k c a x e b y z s :
  holds s (plug k (dnode d c a x (dnode d e b y z))) -> rot_facts d k (rb_heap s) c a x e b y z.
Proof.
  intros Hh; destruct (holds_focus _ _ _ Hh) as (Hs & Hk & Hn & Hnk & H0 & H0k & Hdis).
  apply shape_dnode in Hs as (Ex & Sa & Sy); apply shape_dnode in Sy as (Ey & Sb & Sz).
  apply NoDup_dnode in Hn as (Na & Ny & Hxa & Hxy & Hay); apply NoDup_dnode in Ny as (Nb & Nz & Hyb & Hyz & Hbz).
  rewrite !tref_dnode in *.
  assert (forall q, q ∈ elems a -> ~ (q = y \/ q ∈ elems b \/ q ∈ elems z)) as Hay'
    by (intros q Hq; rewrite <- (elems_dnode d e b y z); by apply Hay).
  assert (forall q, q = x \/ q ∈ elems a \/ q = y \/ q ∈ elems b \/ q ∈ elems z -> q ∉ kelems k)
    as Hdis' by (intros q; rewrite <- (elems_dnode d e b y z), <- (elems_dnode d c a x); apply Hdis).
  rewrite elems_dnode in Hxy; rewrite !elems_dnode in H0.
  split; try done; try naive_solver; set_solver.
Qed.

Lemma rotated_other d k H c a x e b y z q :
  q <> x -> q <> y -> q ∉ elems b -> q ∉ kelems k -> rotated d k H c a x e b y z !! q = H !! q.
Proof.
  intros; unfold rotated; rewrite !lookup_insert_ne, rechild_notin by congruence.
  rewrite lookup_insert_ne, reparent_ne, lookup_insert_ne by congruence; done.
Qed.

Lemma rotated_shape d k H c a x e b y z :
  rot_facts d k H c a x e b y z ->
  shape (rotated d k H c a x e b y z) (kpar k) (dnode d e (dnode d c a x b) y z) /\
  kshape (rotated d k H c a x e b y z) k y.
Proof.
  intros [Ex Ey Sa Sb Sz Sk Nb Nk Hne Hx0 Hy0 Hb0 Hk0 Hb Hout Hup].
  assert (x ∉ elems b /\ y ∉ elems b /\ x ∉ kelems k /\ y ∉ kelems k) as (Hxb & Hyb & Hxk & Hyk) by set_solver.
  rewrite !shape_dnode, tref_dnode; split; [split_and!|].
  - unfold rotated; by rewrite lookup_insert_ne, lookup_insert_eq by congruence.
  - unfold rotated; by rewrite lookup_insert_eq.
  - eapply shape_ext; [|exact Sa]; intros q Hq; destruct (Hout q (or_introl Hq)) as (? & ? & ? & ?).
    by apply rotated_other.
  - eapply shape_ext; [|apply (shape_reparent H y x b Nb Sb)]; intros q Hq; destruct (Hb q Hq) as (? & ? & ?).
    unfold rotated; rewrite !lookup_insert_ne, rechild_notin, lookup_insert_ne by congruence.
    by apply reparent_frame; rewrite lookup_insert_ne.
  - eapply shape_ext; [|exact Sz]; intros q Hq; destruct (Hout q (or_intror Hq)) as (? & ? & ? & ?).
    by apply rotated_other.
  - eapply kshape_ext; [|apply (kshape_rechild H k x y Nk Sk)]; intros q Hq; destruct (Hup q Hq) as (? & ? & ?).
    unfold rotated; rewrite !lookup_insert_ne by congruence; apply rechild_frame.
    by rewrite lookup_insert_ne, reparent_ne, lookup_insert_ne by congruence.
Qed.

Lemma rotate_run d k c a x e b y z s :
  holds s (plug k (dnode d c a x (dnode d e b y z))) ->
  exists s0, rot d x s = (s ← augment cb x s0; augment cb y s) /\
    s0 = mkRb (reroot k (rb_root s) y) (rotated d k (rb_heap s) c a x e b y z) (rb_data s).
Proof.
  intros Hh; apply holds_rot_facts in Hh as [Ex Ey _ Sb _ Sk _ _ Hne Hx0 Hy0 Hb0 Hk0 Hb _ Hup].
  assert (x ∉ elems b /\ y ∉ elems b /\ x ∉ kelems k /\ y ∉ kelems k) as (Hxb & Hyb & Hxk & Hyk) by set_solver.
  set (H1 := <[x := nd d c (kpar k) (tref a) (tref b)]> (rb_heap s)).
  set (H3 := <[y := nd d e (kpar k) (tref b) (tref z)]> (reparent H1 b x)).
  assert (shape H1 y b) as Sb1.
  { eapply shape_ext; [|exact Sb]; intros q Hq; apply lookup_insert_ne; apply not_eq_sym, (Hb q Hq). }
  assert (kshape H3 k x) as Sk3.
  { eapply kshape_ext; [|exact Sk]; intros q Hq; destruct (Hup q Hq) as (? & ? & ?).
    unfold H3, H1; by rewrite lookup_insert_ne, reparent_ne, lookup_insert_ne by congruence. }
  eexists; split; [|reflexivity].
  destruct d; cbn [nd rot] in *; [unfold rb_rotate_left|unfold rb_rotate_right]; do 3 rd;
    (rewrite (set_parent_reparent _ b y) by done; mstep; cbn [rb_root rb_heap rb_data]; do 2 rd).
  - rewrite (link_left_first _ k x y) by (done || by apply sib_ne); mstep; cbn [rb_root rb_heap rb_data].
    do 2 rd; done.
  - rewrite (link_right_first _ k x y) by (done || by apply sib_ne); mstep; cbn [rb_root rb_heap rb_data].
    do 2 rd; done.
Qed.

Lemma rotate_ok d k c a x e b y z s :
  holds s (plug k (dnode d c a x (dnode d e b y z))) ->
  exists s', rot d x s = Ok s' /\ holds s' (plug k (dnode d e (dnode d c a x b) y z)).
Proof.
  intros Hh; destruct (rotate_run _ _ _ _ _ _ _ _ _ _ Hh) as (s0 & -> & E0).
  assert (holds s0 (plug k (dnode d e (dnode d c a x b) y z))) as Hh0.
  { pose proof (proj1 (proj2 (proj2 (holds_focus _ _ _ Hh)))) as Hn; subst s0.
    destruct (rotated_shape _ _ _ _ _ _ _ _ _ _ (holds_rot_facts _ _ _ _ _ _ _ _ _ _ Hh)) as [Hs Hk].
    eapply holds_replace; [exact Hh|done|by rewrite tref_dnode|by rewrite tref_dnode| | |apply Hh].
    - revert Hn; rewrite !NoDup_dnode; setoid_rewrite elems_dnode; set_solver.
    - intros q; rewrite !elems_dnode; tauto. }
  destruct (augment_ok x _ _ Hh0) as (s1 & -> & Hh1 & _); [rewrite elems_plug, !elem_of_app, !elems_dnode; tauto|].
  mstep; destruct (augment_ok y _ _ Hh1) as (s2 & -> & Hh2 & _); [rewrite elems_plug, !elem_of_app, !elems_dnode; tauto|].
  by exists s2.
Qed.

End Holds.
