(* ===== verification/RbtreeBalance.v ===== *)
(** * Red-black trees: insertion and removal keep the balance

    The red-black conditions on trees and on contexts, and that the loops of
    [rb_insert_augmented] and [rb_erase_fixup] end and restore them without changing
    the order of the nodes. *)

From S2P Require Import Prelude Rbtree RbtreeSpec.
From stdpp Require Import base tactics option list numbers gmap.
From Stdlib Require Import ZArith Lia.

Local Open Scope Z_scope.

(** ** The red-black conditions *)

(** [rb n t]: no red node has a red child, and every path to a leaf meets [n] black
    nodes. *)
Inductive rb : nat -> tree -> Prop :=
  | rb_leaf : rb 0 Leaf
  | rb_red n l x r : rb n l -> rb n r -> tred l = false -> tred r = false -> rb n (Node RB_RED l x r)
  | rb_black n l x r : rb n l -> rb n r -> rb (S n) (Node RB_BLACK l x r).

(** A red-black tree, with a black root. *)
Definition rb_tree (t : tree) : Prop := tred t = false /\ exists n, rb n t.

(** [rbk n k]: the context makes a red-black tree of a subtree of black height [n];
    where the node above the hole is red the subtree must not be. *)
Inductive rbk : nat -> ctx -> Prop :=
  | rbk_nil n : rbk n []
  | rbk_black n d x s k : rb n s -> rbk (S n) k -> rbk n (Fr d RB_BLACK x s :: k)
  | rbk_red n d x s d' x' s' k :
      rb n s -> tred s = false -> rbk n (Fr d' RB_BLACK x' s' :: k) ->
      rbk n (Fr d RB_RED x s :: Fr d' RB_BLACK x' s' :: k).

Definition red_above (k : ctx) : bool :=
  match k with Fr _ RB_RED _ _ :: _ => true | _ => false end.

Lemma rb_dnode_red n d a x b :
  rb n (dnode d RB_RED a x b) <-> rb n a /\ rb n b /\ tred a = false /\ tred b = false.
Proof.
  split.
  - destruct d; inversion 1; subst; done.
  - intros (? & ? & ? & ?); destruct d; by constructor.
Qed.

Lemma rb_dnode_black n d a x b :
  rb n (dnode d RB_BLACK a x b) <-> exists m, n = S m /\ rb m a /\ rb m b.
Proof.
  split.
  - destruct d; inversion 1; subst; eauto.
  - intros (m & -> & ? & ?); destruct d; by constructor.
Qed.

Lemma tred_dnode d c a x b : tred (dnode d c a x b) = bool_decide (c = RB_RED).
Proof. by destruct d, c. Qed.

(** A tree is in order exactly when the focus and the context are. *)
Lemma rb_plug n k t :
  rb n t -> rbk n k -> (red_above k = true -> tred t = false) -> (k = [] -> tred t = false) ->
  rb_tree (plug k t).
Proof.
  intros Ht Hk; revert t Ht; induction Hk as [n|n d x s k Hs Hk IH|n d x s d' x' s' k Hs Hb Hk IH];
    intros t Ht Ha Hn; simpl.
  - split; [auto|by exists n].
  - apply IH.
    + apply rb_dnode_black; eauto.
    + intros _; by unfold fill; rewrite tred_dnode.
    + intros _; by unfold fill; rewrite tred_dnode.
  - apply (IH (dnode d RB_RED t x s)); [|done|done].
    apply rb_dnode_red; auto.
Qed.

Lemma rb_plug_inv k t :
  rb_tree (plug k t) ->
  exists n, rb n t /\ rbk n k /\ (red_above k = true -> tred t = false) /\ (k = [] -> tred t = false).
Proof.
  revert t; induction k as [|[d c x s] k IH]; intros t; simpl.
  - intros [Hr [n Hn]]; exists n; split_and!; try done; constructor.
  - intros H; destruct (IH _ H) as (n & Hn & Hk & Ha & Hnil); unfold fill in *; simpl in *.
    rewrite tred_dnode in Ha, Hnil; destruct c; simpl in *.
    + apply rb_dnode_red in Hn as (Ht & Hs & Hrt & Hrs); exists n; split_and!; try done.
      destruct k as [|[d' [] x' s'] k]; [by specialize (Hnil eq_refl)|by specialize (Ha eq_refl)|].
      by constructor.
    + apply rb_dnode_black in Hn as (m & -> & Ht & Hs); exists m; split_and!; try done; by constructor.
Qed.

(** [in_order] compares node lists. *)
Ltac in_order := simpl; repeat (rewrite <- app_assoc; simpl); done.

(** ** The branches of the code, with the direction as an argument *)

Lemma dnode_opp d c a x b : dnode (opp d) c a x b = dnode d c b x a.
Proof. by destruct d. Qed.

Section Balance.
Context {A : Type} (adom : Z -> Prop) (ainv : A -> Prop).
Context (cb : option (Z -> rb_store -> A -> res A)).
Hypothesis Hcb : aug_ok adom ainv cb.
Implicit Types (s : rb_state A).
Abbreviation holds := (holds adom ainv).
Abbreviation rot := (rot cb).

Definition child (d : dir) (s : rb_state A) (p : Z) : res Z :=
  match d with DL => left_of s p | DR => right_of s p end.

Lemma child_nd s p d c par a b :
  p <> 0 -> rb_heap s !! p = Some (nd d c par a b) ->
  child d s p = Ok a /\ child (opp d) s p = Ok b /\ parent_of s p = Ok par /\ color_of s p = Ok c.
Proof.
  intros Hp E; rewrite (parent_of_some _ _ _ Hp E), (color_of_some _ _ _ Hp E).
  destruct d; simpl; rewrite (left_of_some _ _ _ Hp E), (right_of_some _ _ _ Hp E); done.
Qed.

(** A node in focus: its fields. *)
Lemma holds_fields s d k c a x b :
  holds s (plug k (dnode d c a x b)) ->
  child d s x = Ok (tref a) /\ child (opp d) s x = Ok (tref b) /\
  parent_of s x = Ok (kpar k) /\ color_of s x = Ok c /\
  is_red s (tref a) = Ok (tred a) /\ is_red s (tref b) = Ok (tred b) /\
  is_black s (tref a) = Ok (negb (tred a)) /\ is_black s (tref b) = Ok (negb (tred b)).
Proof.
  intros Hh; destruct (holds_node _ _ _ _ _ _ _ _ _ Hh) as (Hx & E & Sa & Sb & Ha & Hb).
  destruct (child_nd _ _ _ _ _ _ _ Hx E) as (-> & -> & -> & ->); do 4 (split; [done|]).
  rewrite (is_red_shape _ _ _ Ha Sa), (is_red_shape _ _ _ Hb Sb).
  by rewrite (is_black_shape _ _ _ Ha Sa), (is_black_shape _ _ _ Hb Sb).
Qed.

Definition insert_side (d : dir) (node parent grandparent : Z) (s : rb_state A)
  : res (Z * rb_state A) :=
  uncle ← child (opp d) s grandparent;
  red ← is_red s uncle;
  if (red : bool) then
    s ← set_color s parent RB_BLACK;
    s ← set_color s uncle RB_BLACK;
    s ← set_color s grandparent RB_RED;
    Ok (grandparent, s)
  else
    pr ← child (opp d) s parent;
    '(node, parent, grandparent, s) ←
      (if decide (node = pr) then
         let node := parent in
         s ← rot d node s;
         parent ← parent_of s node;
         grandparent ← parent_of s parent;
         Ok (node, parent, grandparent, s)
       else Ok (node, parent, grandparent, s));
    s ← set_color s parent RB_BLACK;
    s ← set_color s grandparent RB_RED;
    s ← rot (opp d) grandparent s;
    Ok (node, s).

Lemma insert_side_eq node p g s :
  insert_left cb node p g s = insert_side DL node p g s /\
  insert_right cb node p g s = insert_side DR node p g s.
Proof. done. Qed.

(** The last step: the parent turns black, the grandparent red and goes down. *)
Lemma insert_rotate d k u p sib g uncle s :
  holds s (plug k (dnode d RB_BLACK (dnode d RB_RED u p sib) g uncle)) ->
  exists s1 s2 s', set_color s p RB_BLACK = Ok s1 /\ set_color s1 g RB_RED = Ok s2 /\
    rot (opp d) g s2 = Ok s' /\
    holds s' (plug k (dnode d RB_BLACK u p (dnode d RB_RED sib g uncle))).
Proof.
  intros Hh.
  destruct (set_color_ok _ _ s d (Fr d RB_BLACK g uncle :: k) RB_RED u p sib RB_BLACK Hh) as (s1 & -> & H1).
  destruct (set_color_ok _ _ s1 d k RB_BLACK (dnode d RB_BLACK u p sib) g uncle RB_RED H1) as (s2 & E2 & H2).
  rewrite <- (dnode_opp d), <- (dnode_opp d RB_BLACK) in H2.
  destruct (rotate_ok _ _ cb Hcb _ _ _ _ _ _ _ _ _ _ H2) as (s3 & E3 & H3).
  rewrite !dnode_opp in H3; by exists s1, s2, s3.
Qed.

(** The two subtrees of a node have different roots. *)
Lemma holds_ne s d k c a x b :
  holds s (plug k (dnode d c a x b)) -> tref a <> 0 \/ tref b <> 0 -> tref a <> tref b.
Proof.
  intros Hh Hne E; destruct (holds_focus _ _ _ _ _ Hh) as (_ & _ & Hn & _ & H0 & _).
  apply NoDup_dnode in Hn as (_ & _ & _ & _ & Hab); rewrite elems_dnode in H0.
  destruct (tref_elems a) as [?|Ha]; [destruct Hne; congruence|]; destruct (tref_elems b) as [?|Hb]; [destruct Hne; congruence|].
  apply (Hab _ Ha); by rewrite E.
Qed.

Definition blacken (t : tree) : tree :=
  match t with Leaf => Leaf | Node _ l x r => Node RB_BLACK l x r end.

Lemma rb_blacken n t : rb n t -> exists m, rb m (blacken t) /\ (tred t = true -> m = S n).
Proof. destruct 1; simpl; eexists; (split; [econstructor; eassumption|done]). Qed.

Lemma blacken_id t : tred t = false -> blacken t = t.
Proof. by destruct t as [|[] l x r]. Qed.

Lemma elems_blacken t : elems (blacken t) = elems t.
Proof. by destruct t. Qed.

Lemma tred_blacken t : tred (blacken t) = false.
Proof. by destruct t. Qed.

Lemma dnode_red u : tred u = true -> forall d, exists a x b, u = dnode d RB_RED a x b.
Proof. destruct u as [|[] l x r]; [done| |done]; intros _ []; eexists _, _, _; (done || reflexivity). Qed.

(** A red uncle: the three nodes change colour and the loop goes on above. *)
Lemma insert_side_red d d' k u p sib g uncle s :
  tred uncle = true -> holds s (plug k (dnode d RB_BLACK (dnode d' RB_RED u p sib) g uncle)) ->
  exists s', insert_side d (tref u) p g s = Ok (g, s') /\
    holds s' (plug k (dnode d RB_RED (dnode d' RB_BLACK u p sib) g (blacken uncle))).
Proof.
  intros Hr Hh; unfold insert_side; destruct (holds_fields _ _ _ _ _ _ _ Hh) as (_ & -> & _ & _ & _ & Hu & _).
  mstep; rewrite Hu, Hr; mstep; clear Hu.
  destruct (set_color_ok _ _ s d' (Fr d RB_BLACK g uncle :: k) RB_RED u p sib RB_BLACK Hh) as (s1 & -> & H1); mstep.
  destruct uncle as [|[] l y r]; [done| |done]; simpl in H1; unfold fill in H1; simpl in H1.
  rewrite <- dnode_opp in H1.
  destruct (set_color_ok _ _ s1 DL (Fr (opp d) RB_BLACK g (dnode d' RB_BLACK u p sib) :: k)
    RB_RED l y r RB_BLACK H1) as (s2 & E2 & H2); simpl tref; rewrite E2; mstep.
  simpl in H2; unfold fill in H2; simpl in H2; rewrite dnode_opp in H2.
  destruct (set_color_ok _ _ s2 d k RB_BLACK (dnode d' RB_BLACK u p sib) g (Node RB_BLACK l y r) RB_RED H2)
    as (s3 & -> & H3); mstep; by exists s3.
Qed.

(** A black uncle: one or two rotations, and the node above is black. *)
Lemma insert_side_black d d' k n u p sib g uncle s :
  tred u = true -> tred uncle = false -> tred sib = false ->
  rb n u -> rb n sib -> rb n uncle -> rbk (S n) k ->
  holds s (plug k (dnode d RB_BLACK (dnode d' RB_RED u p sib) g uncle)) ->
  exists s' x b v, insert_side d (tref u) p g s = Ok (tref v, s') /\
    holds s' (plug (Fr d RB_BLACK x b :: k) v) /\ tred v = true /\ rb n v /\ rb n b /\
    elems (dnode d RB_BLACK v x b) = elems (dnode d RB_BLACK (dnode d' RB_RED u p sib) g uncle).
Proof.
  intros Hur Hnr Hsr Hu Hs Hn Hk Hh; unfold insert_side.
  destruct (holds_fields _ _ _ _ _ _ _ Hh) as (_ & -> & _ & _ & _ & E & _); mstep; rewrite E, Hnr; mstep.
  pose proof (holds_fields s d' (Fr d RB_BLACK g uncle :: k) _ _ _ _ Hh) as (Ec & Eo & _).
  destruct (dnode_red u Hur d) as (ul & x & ur & ->); rewrite tref_dnode in *.
  destruct (decide (d' = d)) as [->|Hd].
  - assert (x <> tref sib) as Hne.
    { pose proof (holds_ne s d (Fr d RB_BLACK g uncle :: k) _ _ _ _ Hh) as Hne; rewrite tref_dnode in Hne.
      apply Hne; left; by apply (holds_node _ _ s d (Fr d RB_RED p sib :: Fr d RB_BLACK g uncle :: k) _ _ _ _ Hh). }
    rewrite Eo; mstep; rewrite decide_False by done; mstep.
    destruct (insert_rotate _ _ _ _ _ _ _ _ Hh) as (s1 & s2 & s' & -> & E2 & E3 & Hh').
    mstep; rewrite E2; mstep; rewrite E3; mstep.
    exists s', p, (dnode d RB_RED sib g uncle), (dnode d RB_RED ul x ur).
    rewrite tref_dnode, tred_dnode; split_and!; try done; [by apply rb_dnode_red|].
    destruct d; in_order.
  - assert (d' = opp d) as -> by (by destruct d, d').
    replace (opp (opp d)) with d in Eo by (by destruct d); rewrite Ec; mstep.
    rewrite decide_True by done.
    rewrite (dnode_opp d RB_RED) in Hh |- *.
    destruct (rotate_ok _ _ cb Hcb d (Fr d RB_BLACK g uncle :: k) _ _ _ _ _ _ _ _ Hh) as (s0 & -> & H0); mstep.
    pose proof (holds_fields s0 d (Fr d RB_RED x ur :: Fr d RB_BLACK g uncle :: k) _ _ _ _ H0) as (_ & _ & -> & _).
    mstep; cbn [kpar fr_node].
    pose proof (holds_fields s0 d (Fr d RB_BLACK g uncle :: k) _ _ _ _ H0) as (_ & _ & -> & _); mstep; cbn [kpar fr_node].
    destruct (insert_rotate d k (dnode d RB_RED sib p ul) x ur g uncle s0 H0) as (s1 & s2 & s' & -> & E2 & E3 & Hh').
    mstep; rewrite E2; mstep; rewrite E3; mstep.
    exists s', x, (dnode d RB_RED ur g uncle), (dnode d RB_RED sib p ul).
    apply rb_dnode_red in Hu as (? & ? & ? & ?).
    rewrite tref_dnode, tred_dnode, !rb_dnode_red; split_and!; try done.
    destruct d; in_order.
Qed.

(** The loop: the tree it leaves is a red-black tree up to the colour of the root. *)
Lemma insert_loop_ok fuel n k u s :
  (length k < fuel)%nat -> tred u = true -> rb n u -> rbk n k -> holds s (plug k u) ->
  exists s' t, insert_loop cb fuel (tref u) s = Ok s' /\ holds s' t /\
    elems t = elems (plug k u) /\ rb_tree (blacken t).
Proof.
  revert n k u s; induction fuel as [|fuel IH]; intros n k u s Hf Hr Hu Hk Hh; [lia|]; simpl.
  destruct (dnode_red u Hr DL) as (ul & x & ur & Eu).
  assert (parent_of s (tref u) = Ok (kpar k)) as ->.
  { subst u; rewrite tref_dnode; by apply (holds_fields s DL k _ _ _ _ Hh). }
  clear ul x ur Eu; mstep; destruct k as [|[d' c p sib] k].
  { simpl; exists s, u; do 3 (split; [done|]); split; [apply tred_blacken|].
    destruct (rb_blacken n u Hu) as (m & Hm & _); by exists m. }
  pose proof (holds_fields s d' k c u p sib Hh) as (_ & _ & Ep & Ecol & _).
  pose proof (holds_node _ _ s d' k c u p sib Hh) as (Hp & _).
  simpl kpar; unfold is_red at 1; rewrite decide_False, Ecol by done; mstep.
  inversion Hk as [|? ? ? ? ? Hs Hk'|? ? ? ? d g uncle k' Hs Hsr Hk']; subst.
  { simpl; exists s, (plug (Fr d' RB_BLACK p sib :: k) u); do 3 (split; [done|]); split; [apply tred_blacken|].
    assert (rb_tree (plug (Fr d' RB_BLACK p sib :: k) u)) as Ht by (by eapply rb_plug).
    rewrite blacken_id by apply Ht; apply Ht. }
  inversion Hk' as [|? ? ? ? ? Hs' Hk''|]; subst; simpl bool_decide; cbv iota.
  rewrite Ep; mstep; cbn [kpar fr_node].
  pose proof (holds_fields s d k' RB_BLACK (dnode d' RB_RED u p sib) g uncle Hh) as (Eg & Eg' & _).
  assert ((gl ← left_of s g; '(node, s) ← (if decide (p = gl) then insert_left cb (tref u) p g s
      else insert_right cb (tref u) p g s); insert_loop cb fuel node s) =
    ('(node, s) ← insert_side d (tref u) p g s; insert_loop cb fuel node s)) as ->.
  { destruct (insert_side_eq (tref u) p g s) as [-> ->]; destruct d; simpl child in *.
    - rewrite Eg; mstep; rewrite tref_dnode, decide_True by done; done.
    - rewrite Eg'; mstep; rewrite decide_False; [done|].
      pose proof (holds_ne s DR k' RB_BLACK (dnode d' RB_RED u p sib) g uncle Hh) as Hne; rewrite tref_dnode in Hne; auto. }
  destruct (tred uncle) eqn:Er.
  - destruct (insert_side_red d d' k' u p sib g uncle s Er Hh) as (s1 & -> & H1); mstep.
    set (t1 := dnode d RB_RED (dnode d' RB_BLACK u p sib) g (blacken uncle)) in H1.
    replace g with (tref t1) by apply tref_dnode.
    destruct (rb_blacken _ _ Hs') as (m & Hm & Em); rewrite (Em Er) in Hm.
    destruct (IH (S n) k' t1 s1) as (s' & t & -> & Ht & Ee & Hb); [simpl in Hf; lia|by apply tred_dnode| |done|done|].
    { apply rb_dnode_red; rewrite tred_dnode, tred_blacken; split_and!; try done; apply rb_dnode_black; eauto. }
    exists s', t; split_and!; try done; rewrite Ee; simpl; rewrite !elems_plug.
    unfold t1, fill; simpl; destruct d, d'; simpl; by rewrite elems_blacken.
  - destruct (insert_side_black d d' k' n u p sib g uncle s) as (s1 & x & b & v & -> & H1 & Hv & Hrv & Hb & Ee);
      [done..|]; mstep.
    destruct (IH n (Fr d RB_BLACK x b :: k') v s1) as (s' & t & -> & Ht & Ee' & Hbt);
      [simpl in *; lia|done|done|by constructor|done|].
    exists s', t; split_and!; try done; rewrite Ee'; simpl; rewrite !elems_plug; unfold fill; simpl.
    by rewrite Ee.
Qed.

(** A subtree in focus, coloured through its address. *)
Lemma set_color_sub s k t c :
  holds s (plug k t) -> exists s', set_color' s (tref t) c = Ok s' /\
    holds s' (plug k (match t with Leaf => Leaf | Node _ l x r => Node c l x r end)).
Proof.
  intros Hh; unfold set_color'; destruct t as [|e l x r]; [by exists s|].
  pose proof (holds_node _ _ s DL k e l x r Hh) as (Hx & _); simpl; rewrite decide_True by done.
  destruct (set_color_ok _ _ s DL k e l x r c Hh) as (s' & -> & H'); by exists s'.
Qed.

Lemma rb_insert_ok fuel k x s :
  (length k < fuel)%nat -> rb_tree (plug k Leaf) -> holds s (plug k (Node RB_RED Leaf x Leaf)) ->
  exists s' t, rb_insert_augmented cb fuel x s = Ok s' /\ holds s' t /\ rb_tree t /\
    elems t = kleft k ++ x :: kright k.
Proof.
  intros Hf Hrb Hh; destruct (rb_plug_inv _ _ Hrb) as (n & Hl & Hk & _); inversion Hl; subst.
  destruct (insert_loop_ok fuel 0 k (Node RB_RED Leaf x Leaf) s) as (s1 & t & E & H1 & Ee & Hb);
    [done|done|by repeat constructor|done|done|].
  unfold rb_insert_augmented; simpl tref in E; rewrite E; mstep; rewrite (h_root _ _ _ _ H1).
  destruct (set_color_sub s1 [] t RB_BLACK H1) as (s2 & -> & H2); simpl plug in H2; fold (blacken t) in H2.
  exists s2, (blacken t); split_and!; try done.
  by rewrite elems_blacken, Ee, elems_plug.
Qed.

(** ** Removal: the fixup *)

(** The branch with a red outer nephew, the case where it is not, and the rest of
    the loop body once the sibling is black. *)
Definition fixup_final (d : dir) (parent sibling : Z) (s : rb_state A)
  : res ((Z * Z * rb_state A) + rb_state A) :=
  c ← color_of s parent;
  s ← set_color s sibling c;
  s ← set_color s parent RB_BLACK;
  so ← child (opp d) s sibling;
  s ← set_color' s so RB_BLACK;
  s ← rot d parent s;
  Ok (inr s).

Definition fixup_tail (d : dir) (parent sibling : Z) (s : rb_state A)
  : res ((Z * Z * rb_state A) + rb_state A) :=
  sl ← left_of s sibling;
  lb ← is_black s sl;
  sr ← right_of s sibling;
  rb ← is_black s sr;
  if lb && rb then
    s ← set_color s sibling RB_RED;
    pp ← parent_of s parent;
    Ok (inl (parent, pp, s))
  else
    '(sibling, s) ← (if match d with DL => rb | DR => lb end then
                       s ← set_color' s (match d with DL => sl | DR => sr end) RB_BLACK;
                       s ← set_color s sibling RB_RED;
                       s ← rot (opp d) sibling s;
                       sibling ← child (opp d) s parent;
                       Ok (sibling, s)
                     else Ok (sibling, s));
    fixup_final d parent sibling s.

Definition fixup_side (d : dir) (parent : Z) (s : rb_state A)
  : res ((Z * Z * rb_state A) + rb_state A) :=
  sibling ← child (opp d) s parent;
  red ← is_red s sibling;
  '(sibling, s) ← (if (red : bool) then
                     s ← set_color s sibling RB_BLACK;
                     s ← set_color s parent RB_RED;
                     s ← rot d parent s;
                     sibling ← child (opp d) s parent;
                     Ok (sibling, s)
                   else Ok (sibling, s));
  fixup_tail d parent sibling s.

Lemma fixup_side_eq p s :
  fixup_left cb p s = fixup_side DL p s /\ fixup_right cb p s = fixup_side DR p s.
Proof. done. Qed.

Lemma fixup_final_ok d k c u p e a y b s :
  holds s (plug k (dnode d c u p (dnode d e a y b))) ->
  exists s', fixup_final d p y s = Ok (inr s') /\
    holds s' (plug k (dnode d c (dnode d RB_BLACK u p a) y (blacken b))).
Proof.
  intros Hh; unfold fixup_final; pose proof (holds_fields s d k _ _ _ _ Hh) as (_ & _ & _ & -> & _); mstep.
  rewrite <- (dnode_opp d c) in Hh.
  destruct (set_color_ok _ _ s d (Fr (opp d) c p u :: k) e a y b c Hh) as (s1 & -> & H1); mstep.
  destruct (set_color_ok _ _ s1 (opp d) k c _ p u RB_BLACK H1) as (s2 & -> & H2); mstep.
  pose proof (holds_fields s2 d (Fr (opp d) RB_BLACK p u :: k) c a y b H2) as (_ & -> & _); mstep.
  rewrite <- (dnode_opp d c) in H2.
  destruct (set_color_sub s2 (Fr (opp d) c y a :: Fr (opp d) RB_BLACK p u :: k) b RB_BLACK H2) as (s3 & -> & H3); mstep.
  fold (blacken b) in H3; simpl in H3; unfold fill in H3; simpl in H3; rewrite !dnode_opp in H3.
  destruct (rotate_ok _ _ cb Hcb d k _ _ _ _ _ _ _ _ H3) as (s4 & -> & H4); mstep; by exists s4.
Qed.

Lemma fixup_tail_eq d k e a y b p s :
  holds s (plug k (dnode d e a y b)) ->
  fixup_tail d p y s =
  if negb (tred a) && negb (tred b) then
    s ← set_color s y RB_RED; pp ← parent_of s p; Ok (inl (p, pp, s))
  else
    '(sibling, s) ← (if negb (tred b) then
                       s ← set_color' s (tref a) RB_BLACK;
                       s ← set_color s y RB_RED;
                       s ← rot (opp d) y s;
                       sibling ← child (opp d) s p;
                       Ok (sibling, s)
                     else Ok (y, s));
    fixup_final d p sibling s.
Proof.
  intros Hh; destruct (holds_fields s d k e a y b Hh) as (Ea & Eb & _ & _ & _ & _ & Ba & Bb).
  unfold fixup_tail; destruct d; simpl in Ea, Eb; rewrite Ea, Eb; mstep; rewrite Ba, Bb; mstep;
    [done|]; by rewrite andb_comm.
Qed.

(** A red inner nephew moves outside. *)
Lemma fixup_inner d k c u p a1 z a2 y b s :
  holds s (plug k (dnode d c u p (dnode d RB_BLACK (dnode d RB_RED a1 z a2) y b))) ->
  exists s1 s2 s3, set_color' s z RB_BLACK = Ok s1 /\ set_color s1 y RB_RED = Ok s2 /\
    rot (opp d) y s2 = Ok s3 /\ child (opp d) s3 p = Ok z /\
    holds s3 (plug k (dnode d c u p (dnode d RB_BLACK a1 z (dnode d RB_RED a2 y b)))).
Proof.
  intros Hh; rewrite <- (dnode_opp d c) in Hh; set (k1 := Fr (opp d) c p u :: k).
  pose proof (holds_node _ _ s d (Fr d RB_BLACK y b :: k1) _ _ _ _ Hh) as (Hz & _).
  unfold set_color'; rewrite decide_True by done.
  destruct (set_color_ok _ _ s d (Fr d RB_BLACK y b :: k1) RB_RED a1 z a2 RB_BLACK Hh) as (s1 & -> & H1).
  destruct (set_color_ok _ _ s1 d k1 RB_BLACK (dnode d RB_BLACK a1 z a2) y b RB_RED H1) as (s2 & E2 & H2).
  rewrite <- (dnode_opp d RB_RED), <- (dnode_opp d RB_BLACK) in H2.
  destruct (rotate_ok _ _ cb Hcb (opp d) k1 _ _ _ _ _ _ _ _ H2) as (s3 & E3 & H3).
  rewrite (dnode_opp d RB_BLACK), (dnode_opp d RB_RED) in H3; unfold k1 in H3; simpl in H3; unfold fill in H3.
  simpl in H3; rewrite dnode_opp in H3; pose proof (holds_fields _ _ _ _ _ _ _ H3) as (_ & Ec & _).
  rewrite tref_dnode in Ec; by exists s1, s2, s3.
Qed.

(** What the loop body makes of a black sibling: it hands the missing black node to
    the parent, or ends with the tree in order. *)
Lemma fixup_tail_ok d k n c u p a y b s :
  tred u = false -> rb n u -> rb n a -> rb n b ->
  holds s (plug k (dnode d c u p (dnode d RB_BLACK a y b))) ->
  (exists s', fixup_tail d p y s = Ok (inl (p, kpar k, s')) /\ tred a = false /\ tred b = false /\
     holds s' (plug k (dnode d c u p (dnode d RB_RED a y b)))) \/
  (exists s' l z r, fixup_tail d p y s = Ok (inr s') /\ holds s' (plug k (dnode d c l z r)) /\
     elems (dnode d c l z r) = elems (dnode d c u p (dnode d RB_BLACK a y b)) /\
     rb (S n) l /\ rb (S n) r /\ tred l = false /\ tred r = false).
Proof.
  intros Hur Hu Ha Hb Hh; pose proof Hh as Hh'; rewrite <- (dnode_opp d c) in Hh'.
  rewrite (fixup_tail_eq d (Fr (opp d) c p u :: k) RB_BLACK a y b p s Hh').
  destruct (tred b) eqn:Erb; [rewrite andb_false_r|destruct (tred a) eqn:Era]; simpl negb; cbn [andb]; cbv iota; mstep.
  - right; destruct (fixup_final_ok d k c u p RB_BLACK a y b s Hh) as (s' & -> & H').
    destruct (rb_blacken n b Hb) as (m & Hm & Em); rewrite (Em Erb) in Hm.
    exists s', (dnode d RB_BLACK u p a), y, (blacken b); split_and!; try done.
    + destruct d; simpl; rewrite elems_blacken; in_order.
    + apply rb_dnode_black; eauto.
    + by rewrite tred_dnode.
    + apply tred_blacken.
  - right; destruct (dnode_red a Era d) as (a1 & z & a2 & ->); apply rb_dnode_red in Ha as (? & ? & ? & ?).
    destruct (fixup_inner _ _ _ _ _ _ _ _ _ _ _ Hh) as (s1 & s2 & s3 & E1 & E2 & E3 & E4 & H3).
    rewrite tref_dnode, E1; mstep; rewrite E2; mstep; rewrite E3; mstep; rewrite E4; mstep.
    destruct (fixup_final_ok d k c u p RB_BLACK a1 z (dnode d RB_RED a2 y b) s3 H3) as (s' & -> & H').
    assert (blacken (dnode d RB_RED a2 y b) = dnode d RB_BLACK a2 y b) as Eb by (by destruct d); rewrite Eb in H'.
    exists s', (dnode d RB_BLACK u p a1), z, (dnode d RB_BLACK a2 y b); split_and!; try done.
    + destruct d; in_order.
    + apply rb_dnode_black; eauto.
    + apply rb_dnode_black; eauto.
    + by rewrite tred_dnode.
    + by rewrite tred_dnode.
  - left; destruct (set_color_ok _ _ s d (Fr (opp d) c p u :: k) RB_BLACK a y b RB_RED Hh') as (s' & -> & H'); mstep.
    simpl in H'; unfold fill in H'; simpl in H'; rewrite dnode_opp in H'.
    pose proof (holds_fields _ _ _ _ _ _ _ H') as (_ & _ & -> & _); mstep; by exists s'.
Qed.

Lemma black_node n t d :
  rb (S n) t -> tred t = false -> exists a y b, t = dnode d RB_BLACK a y b /\ rb n a /\ rb n b.
Proof.
  destruct t as [|[] l x r]; inversion 1; subst; intros ?; try done.
  destruct d; [exists l, x, r|exists r, x, l]; done.
Qed.

(** [room c n k]: a subtree of black height [S n] with a root of colour [c] that had
    its place in [k]; [n] counts below the root. *)
Definition room (c : color) (n : nat) (k : ctx) : Prop :=
  match c with
  | RB_BLACK => rbk (S n) k
  | RB_RED => rbk n k /\ red_above k = false /\ k <> []
  end.

(** How one iteration ends: with the subtree that now lacks a black node, and a
    context that expects one more; with a red subtree that only needs to turn black;
    or with a red-black tree. *)
Definition fixed (c : color) (n : nat) (p : Z) (k0 : ctx) (l : list Z)
    (o : res ((Z * Z * rb_state A) + rb_state A)) : Prop :=
  (exists s' v, c = RB_BLACK /\ o = Ok (inl (p, kpar k0, s')) /\ tref v = p /\ holds s' (plug k0 v) /\
     elems (plug k0 v) = l /\ tred v = false /\ rb (S n) v /\ rbk (S (S n)) k0) \/
  (exists s' v k, o = Ok (inl (p, kpar k, s')) /\ tref v = p /\ holds s' (plug k v) /\
     elems (plug k v) = l /\ tred v = true /\ rb_tree (plug k (blacken v))) \/
  (exists s' t, o = Ok (inr s') /\ holds s' t /\ elems t = l /\ rb_tree t).

Lemma rb_plug_room c n k d l z r :
  room c (S n) k -> rb (S n) l -> rb (S n) r -> tred l = false -> tred r = false ->
  rb_tree (plug k (dnode d c l z r)).
Proof.
  destruct c; simpl.
  - intros (Hk & Hr & Hne) ? ? ? ?; eapply rb_plug; [|exact Hk|congruence|done].
    by apply rb_dnode_red.
  - intros Hk ? ? ? ?; eapply rb_plug; [|exact Hk|intros _; by rewrite tred_dnode..].
    apply rb_dnode_black; eauto.
Qed.

Lemma fixup_tail_fixed d k n c u p sib s :
  tred u = false -> rb n u -> rb (S n) sib -> tred sib = false -> room c (S n) k ->
  holds s (plug k (dnode d c u p sib)) ->
  fixed c n p k (elems (plug k (dnode d c u p sib))) (fixup_tail d p (tref sib) s).
Proof.
  intros Hur Hu Hs Hsr Hk Hh; destruct (black_node n sib d Hs Hsr) as (a & y & b & -> & Ha & Hb).
  rewrite tref_dnode.
  destruct (fixup_tail_ok d k n c u p a y b s) as [(s' & -> & Har & Hbr & H')|(s' & l & z & r & -> & H' & Ee & ? & ? & ? & ?)];
    [done..| |].
  - set (v := dnode d c u p (dnode d RB_RED a y b)) in *.
    assert (elems (plug k v) = elems (plug k (dnode d c u p (dnode d RB_BLACK a y b)))) as Ev
      by (rewrite !elems_plug; unfold v; by destruct d).
    assert (rb n (dnode d RB_RED a y b)) by (by apply rb_dnode_red).
    assert (tref v = p) by apply tref_dnode.
    destruct c; simpl in Hk; [right; left|left].
    + exists s', v, k; split_and!; try done; [apply tred_dnode|].
      replace (blacken v) with (dnode d RB_BLACK u p (dnode d RB_RED a y b)) by (by destruct d).
      destruct Hk as (Hk & Hra & Hne); eapply rb_plug; [apply rb_dnode_black; eauto|exact Hk|congruence|done].
    + exists s', v; split_and!; try done; [apply tred_dnode|apply rb_dnode_black; eauto].
  - right; right; exists s', (plug k (dnode d c l z r)); split_and!; try done.
    + by rewrite !elems_plug, Ee.
    + by apply (rb_plug_room c n).
Qed.

(** A red sibling moves above the parent. *)
Lemma fixup_red_sibling d k u p a y b s :
  holds s (plug k (dnode d RB_BLACK u p (dnode d RB_RED a y b))) ->
  exists s1 s2 s3, set_color s y RB_BLACK = Ok s1 /\ set_color s1 p RB_RED = Ok s2 /\
    rot d p s2 = Ok s3 /\ child (opp d) s3 p = Ok (tref a) /\
    holds s3 (plug k (dnode d RB_BLACK (dnode d RB_RED u p a) y b)).
Proof.
  intros Hh; rewrite <- (dnode_opp d RB_BLACK) in Hh.
  destruct (set_color_ok _ _ s d (Fr (opp d) RB_BLACK p u :: k) RB_RED a y b RB_BLACK Hh) as (s1 & -> & H1).
  destruct (set_color_ok _ _ s1 (opp d) k RB_BLACK (dnode d RB_BLACK a y b) p u RB_RED H1) as (s2 & E2 & H2).
  rewrite dnode_opp in H2; destruct (rotate_ok _ _ cb Hcb d k _ _ _ _ _ _ _ _ H2) as (s3 & E3 & H3).
  pose proof (holds_fields s3 d (Fr d RB_BLACK y b :: k) _ _ _ _ H3) as (_ & Ec & _).
  by exists s1, s2, s3.
Qed.

Lemma fixup_side_ok d k n c u p sib s :
  tred u = false -> rb n u -> rbk (S n) (Fr d c p sib :: k) -> holds s (plug k (dnode d c u p sib)) ->
  fixed c n p k (elems (plug k (dnode d c u p sib))) (fixup_side d p s).
Proof.
  intros Hur Hu Hk Hh; unfold fixup_side.
  pose proof (holds_fields _ _ _ _ _ _ _ Hh) as (_ & -> & _ & _ & _ & Er & _); mstep; rewrite Er; mstep.
  destruct (tred sib) eqn:Ersib; mstep.
  - inversion Hk as [|? ? ? ? ? Hs Hk'|]; subst; [|congruence].
    destruct (dnode_red sib Ersib d) as (a & y & b & ->); rewrite tref_dnode.
    apply rb_dnode_red in Hs as (Ha & Hb & Har & Hbr).
    destruct (fixup_red_sibling _ _ _ _ _ _ _ _ Hh) as (s1 & s2 & s3 & -> & E2 & E3 & E4 & H3).
    mstep; rewrite E2; mstep; rewrite E3; mstep; rewrite E4; mstep.
    assert (elems (plug (Fr d RB_BLACK y b :: k) (dnode d RB_RED u p a)) =
      elems (plug k (dnode d RB_BLACK u p (dnode d RB_RED a y b)))) as Ee.
    { simpl; rewrite !elems_plug; unfold fill; simpl; destruct d; in_order. }
    destruct (fixup_tail_fixed d (Fr d RB_BLACK y b :: k) n RB_RED u p a s3)
      as [(? & ? & ? & _)|[H'|H']]; [done..| |done|done|right; left|right; right].
    + split_and!; [by constructor|done|done].
    + destruct H' as (s' & v & k' & -> & ? & ? & Ev & ?); exists s', v, k'; split_and!; try done; try tauto; by rewrite Ev.
    + destruct H' as (s' & t & -> & ? & Ev & ?); exists s', t; split_and!; try done; try tauto; by rewrite Ev.
  - assert (rb (S n) sib /\ room c (S n) k) as [Hs Hk'].
    { inversion Hk; subst; simpl; split_and!; done. }
    by apply fixup_tail_fixed.
Qed.

Lemma tref_plug_kelems k t : k <> [] -> tref (plug k t) ∈ kelems k.
Proof.
  revert t; induction k as [|f k IH]; intros t Hk; [done|]; simpl; apply kelems_cons.
  destruct k as [|f' k']; [left; simpl; unfold fill; apply tref_dnode|].
  right; right; by apply IH.
Qed.

Lemma root_not_null s k c l x r : holds s (plug k (Node c l x r)) -> rb_root s <> 0.
Proof.
  intros Hh E; rewrite (h_root _ _ _ _ Hh) in E; destruct k as [|f k].
  - pose proof (holds_node _ _ s DL [] c l x r Hh) as (? & _); done.
  - pose proof (tref_plug_kelems (f :: k) (Node c l x r) ltac:(done)) as Hin.
    rewrite E in Hin; apply (h_null _ _ _ _ Hh), elem_of_plug; by left.
Qed.

Lemma root_above s k u : k <> [] -> holds s (plug k u) -> tref u <> rb_root s.
Proof.
  intros Hk Hh E; destruct (holds_focus _ _ _ _ _ Hh) as (_ & _ & _ & _ & _ & H0 & Hdis).
  pose proof (tref_plug_kelems k u Hk) as Hin; rewrite <- (h_root _ _ _ _ Hh), <- E in Hin.
  destruct (tref_elems u) as [E0|Hu]; [by rewrite E0 in Hin|by apply (Hdis _ Hu)].
Qed.

Lemma holds_is_black s k u : holds s (plug k u) -> is_black s (tref u) = Ok (negb (tred u)).
Proof.
  intros Hh; destruct (holds_focus _ _ _ _ _ Hh) as (Hs & _ & _ & _ & H0 & _).
  by eapply is_black_shape.
Qed.

Lemma fixup_loop_ok fuel n k u s :
  (length k < fuel)%nat -> tred u = false -> rb n u -> rbk (S n) k -> holds s (plug k u) ->
  exists s' v k', fixup_loop cb fuel (tref u) (kpar k) s = Ok (tref v, s') /\
    holds s' (plug k' v) /\ elems (plug k' v) = elems (plug k u) /\ rb_tree (plug k' (blacken v)).
Proof.
  revert n k u s; induction fuel as [|fuel IH]; intros n k u s Hf Hr Hu Hk Hh; [lia|]; simpl.
  rewrite (holds_is_black s k u Hh), Hr; mstep; simpl negb; cbn [andb].
  destruct k as [|[d c p sib] k].
  { rewrite bool_decide_false by (rewrite (h_root _ _ _ _ Hh); simpl; tauto).
    exists s, u, []; split_and!; try done; simpl; rewrite blacken_id by done; by split; [|exists n]. }
  rewrite bool_decide_true by (by apply (root_above s (Fr d c p sib :: k) u)); cbn [kpar fr_node].
  pose proof (holds_fields s d k c u p sib Hh) as (Ec & Eo & _).
  assert (sib <> Leaf) as Hsib by (inversion Hk as [|? ? ? ? ? Hs|? ? ? ? ? ? ? ? Hs]; subst; intros ->; inversion Hs).
  assert ((pl ← left_of s p; r ← (if decide (tref u = pl) then fixup_left cb p s else fixup_right cb p s);
      match r with inl (node, parent, s) => fixup_loop cb fuel node parent s | inr s => Ok (rb_root s, s) end) =
    (r ← fixup_side d p s;
      match r with inl (node, parent, s) => fixup_loop cb fuel node parent s | inr s => Ok (rb_root s, s) end)) as ->.
  { destruct (fixup_side_eq p s) as [-> ->]; destruct d; simpl child in *.
    - rewrite Ec; mstep; by rewrite decide_True by done.
    - rewrite Eo; mstep; rewrite decide_False; [done|].
      apply (holds_ne s DR k c u p sib Hh); right; destruct sib; [done|].
      by apply (holds_node _ _ s DL (Fr DL c p u :: k) _ _ _ _ Hh). }
  destruct (fixup_side_ok d k n c u p sib s Hr Hu Hk Hh)
    as [(s1 & v & -> & -> & Ev & H1 & Ee & Hv & Hrv & Hk')|[(s1 & v & k' & -> & Ev & H1 & Ee & Hv & Ht)|(s1 & t & -> & H1 & Ee & Ht)]]; mstep; cbv beta iota.
  - replace (fixup_loop cb fuel p (kpar k) s1) with (fixup_loop cb fuel (tref v) (kpar k) s1) by (by rewrite Ev).
    destruct (IH (S n) k v s1) as (s' & w & k' & -> & ? & Ee' & ?); [simpl in Hf; lia|done..|].
    exists s', w, k'; split_and!; try done; by rewrite Ee', Ee.
  - destruct fuel as [|fuel]; [simpl in Hf; lia|]; cbn [fixup_loop].
    pose proof (holds_is_black s1 k' v H1) as Hb; rewrite Ev, Hv in Hb; rewrite Hb; mstep; cbn [negb andb]; cbv iota.
    exists s1, v, k'; by rewrite Ev.
  - exists s1, t, []; rewrite (h_root _ _ _ _ H1); split_and!; try done; simpl.
    by rewrite blacken_id by apply Ht.
Qed.

Lemma erase_fixup_ok fuel n k u s :
  (length k < fuel)%nat -> rb n u -> rbk (S n) k -> holds s (plug k u) ->
  exists s' t, rb_erase_fixup cb fuel (tref u) (kpar k) s = Ok s' /\ holds s' t /\
    elems t = elems (plug k u) /\ rb_tree t.
Proof.
  intros Hf Hu Hk Hh; unfold rb_erase_fixup.
  assert (exists s' v k', fixup_loop cb fuel (tref u) (kpar k) s = Ok (tref v, s') /\
    holds s' (plug k' v) /\ elems (plug k' v) = elems (plug k u) /\ rb_tree (plug k' (blacken v)))
    as (s1 & v & k' & -> & H1 & Ee & Ht).
  { destruct (tred u) eqn:Hr; [|by eapply fixup_loop_ok].
    destruct fuel; [lia|]; simpl; rewrite (holds_is_black s k u Hh), Hr; mstep; simpl negb; cbn [andb]; cbv iota.
    exists s, u, k; split_and!; try done; destruct (rb_blacken n u Hu) as (m & Hm & Em).
    rewrite (Em Hr) in Hm; eapply rb_plug; eauto using tred_blacken. }
  mstep; destruct (set_color_sub s1 k' v RB_BLACK H1) as (s2 & -> & H2); fold (blacken v) in H2.
  exists s2, (plug k' (blacken v)); split_and!; try done.
  by rewrite <- Ee, !elems_plug, elems_blacken.
Qed.

End Balance.
