(* ===== verification/RbtreeErase.v ===== *)
(** * Red-black trees: removal

    [rb_erase_augmented] on a tree in order: the unlinking of a node or of its
    successor, the callbacks up to the root, and the fixup.  One shape of the tree is
    excluded, where the code leaves a parent pointer to the removed node. *)

From S2P Require Import Prelude Rbtree RbtreeSpec RbtreeBalance.
From stdpp Require Import base tactics option list numbers gmap.
From Stdlib Require Import ZArith Lia.

Local Open Scope Z_scope.

Section Store.
Context {A : Type}.
Implicit Types (s : rb_state A).

(** [nr] is what the right field of [x] holds: the successor [y] itself, or the root
    of what is left of the right subtree. *)
Lemma take_place_run k c l x nr r y child s :
  x <> 0 -> y <> 0 -> x <> y -> rb_heap s !! x = Some (mkNode (kpar k) (tref l) nr c) ->
  is_Some (rb_heap s !! y) -> shape (rb_heap s) x l -> shape (rb_heap s) x r -> kshape (rb_heap s) k x ->
  0 ∉ elems l -> 0 ∉ elems r -> 0 ∉ kelems k -> x ∉ kelems k -> y ∉ kelems k ->
  x ∉ elems l -> x ∉ elems r -> y ∉ elems l -> y ∉ elems r ->
  (forall q, q ∈ elems l -> q ∉ elems r /\ q ∉ kelems k) -> (forall q, q ∈ elems r -> q ∉ kelems k) ->
  (nr = y /\ r = Leaf) \/ (nr = tref r /\ r <> Leaf) ->
  take_place x y child s =
    Ok (mkRb (reroot k (rb_root s) y)
      (reparent (reparent (<[y := mkNode (kpar k) (tref l) (if decide (nr = y) then child else nr) c]>
        (rechild (rb_heap s) k y)) l y) r y) (rb_data s)).
Proof.
  intros Hx Hy Hxy Ex [ny Ey] Sl Sr Sk Hl0 Hr0 Hk0 Hxk Hyk Hxl Hxr Hyl Hyr Hl Hr Hnr.
  unfold take_place; rd.
  rewrite (relink_rechild _ k x) by (done || by apply sib_ne); mstep; cbn [rb_root rb_heap rb_data].
  do 8 rd; rewrite !insert_insert_eq.
  set (H1 := <[y := _]> (rechild (rb_heap s) k y)).
  assert (forall q, q <> y -> q ∉ kelems k -> H1 !! q = rb_heap s !! q) as E1.
  { intros q Hq Hqk; unfold H1; rewrite lookup_insert_ne by done; by apply rechild_notin. }
  assert (H1 !! x = Some (mkNode (kpar k) (tref l) nr c)) as Ex1 by (by rewrite E1).
  rd; rewrite (set_parent_reparent _ l x); [|done|].
  2: { eapply shape_ext; [|exact Sl]; intros q Hq; apply E1; [congruence|by apply Hl]. }
  mstep; cbn [rb_root rb_heap rb_data]; rd.
  destruct Hnr as [[-> ->]|[-> Hr']].
  - by rewrite (decide_False (P:=y <> 0 /\ y <> y)) by tauto.
  - assert (tref r <> 0 /\ tref r <> y) as Hne.
    { destruct (tref_elems r) as [?|Hin]; [|split; intros ?; congruence].
      destruct r; [done|]; simpl in *; set_solver. }
    rewrite (decide_True (P:=tref r <> 0 /\ tref r <> y)) by done.
    etransitivity; [|apply (set_parent_reparent (mkRb (reroot k (rb_root s) y) (reparent H1 l y) (rb_data s)) r x y)].
    + unfold set_parent'; by rewrite decide_True by apply Hne.
    + done.
    + eapply shape_ext; [|exact Sr]; intros q Hq; cbn [rb_heap].
      rewrite reparent_ne by (intros Hql; by destruct (Hl q Hql)); apply E1; [congruence|auto].
Qed.

Definition all_left (j : ctx) : Prop := Forall (fun f => fr_dir f = DL) j.

Lemma leftmost_spec fuel t par s :
  t <> Leaf -> 0 ∉ elems t -> shape (rb_heap s) par t -> (length (elems t) <= fuel)%nat ->
  exists j c y r, t = plug j (Node c Leaf y r) /\ all_left j /\ leftmost fuel (tref t) s = Ok y.
Proof.
  revert fuel par; induction t as [|c l IHl x r _]; intros fuel par Hne H0 Hs Hf; [done|].
  simpl in H0, Hf; rewrite length_app in Hf; simpl in Hf; destruct fuel as [|fuel]; [lia|].
  destruct Hs as (E & Sl & _); assert (x <> 0) as Hx by set_solver; cbn [leftmost tref].
  rewrite (left_of_some _ _ _ Hx E); mstep; cbn [rb_left].
  destruct l as [|cl ll xl rl].
  - exists [], c, x, r; split; [done|]; split; [constructor|done].
  - rewrite decide_True by (simpl in *; set_solver).
    destruct (IHl fuel x) as (j & cy & y & ry & -> & Hj & ->); [done|set_solver|done|lia|].
    exists (j ++ [Fr DL c x r]), cy, y, ry; split; [by rewrite plug_app|]; split; [|done].
    apply Forall_app; split; [done|by repeat constructor].
Qed.

End Store.

Section Erase.
Context {A : Type} (adom : Z -> Prop) (ainv : A -> Prop).
Context (cb : option (Z -> rb_store -> A -> res A)).
Hypothesis Hcb : aug_ok adom ainv cb.
Implicit Types (s : rb_state A).
Abbreviation holds := (holds adom ainv).

(** ** A node with at most one child *)

Lemma splice_ok d k c a x s :
  holds s (plug k (dnode d c a x Leaf)) ->
  exists s', splice x (tref a) s = Ok (kpar k, s') /\ holds s' (plug k a).
Proof.
  intros Hh; destruct (holds_node _ _ _ _ _ _ _ _ _ Hh) as (Hx & E & Sa & _ & Ha0 & _).
  destruct (holds_focus _ _ _ _ _ Hh) as (_ & Hk & Hn & Hnk & _ & H0k & Hdis).
  rewrite tref_dnode in Hk; apply NoDup_dnode in Hn as (Na & _ & Hxa & _).
  assert (x ∉ kelems k) as Hxk by (apply Hdis, elems_dnode; by left).
  assert (forall q, q ∈ elems a -> q ∉ kelems k) as Hak by (intros; apply Hdis, elems_dnode; tauto).
  unfold splice; rewrite (parent_of_some _ _ _ Hx E); mstep.
  replace (rb_parent _) with (kpar k) by (by destruct d).
  rewrite (relink_rechild _ k x) by (done || by apply sib_ne); mstep.
  assert (shape (rechild (rb_heap s) k (tref a)) x a) as Sa'.
  { eapply shape_ext; [|exact Sa]; intros q Hq; apply rechild_notin; auto. }
  rewrite (set_parent_reparent _ a x) by done; mstep; cbn [rb_root rb_heap rb_data].
  eexists; split; [done|]; eapply holds_replace; [exact Hh| | |done|done| |apply Hh].
  - by eapply shape_reparent.
  - eapply kshape_ext; [|by eapply kshape_rechild]; intros q Hq; apply reparent_ne; set_solver.
  - intros q Hq; apply elems_dnode; tauto.
Qed.

(** ** The successor takes the place of a node *)

(** The state it leaves, when the left-over right subtree is in order. *)
Lemma take_place_holds k c l x nr r y child u s s0 :
  holds s0 (plug k u) -> rb_root s = rb_root s0 -> ainv (rb_data s) ->
  (forall q, q = y \/ q ∈ elems l \/ q ∈ elems r -> q ∈ elems u) -> NoDup (elems (Node c l y r)) ->
  x <> 0 -> y <> 0 -> x <> y -> rb_heap s !! x = Some (mkNode (kpar k) (tref l) nr c) ->
  is_Some (rb_heap s !! y) -> shape (rb_heap s) x l -> shape (rb_heap s) x r -> kshape (rb_heap s) k x ->
  x ∉ kelems k -> x ∉ elems l -> x ∉ elems r ->
  (nr = y /\ r = Leaf /\ child = 0) \/ (nr = tref r /\ r <> Leaf) ->
  exists s', take_place x y child s = Ok s' /\ holds s' (plug k (Node c l y r)).
Proof.
  intros Hh Er Ha Hsub Hnd Hx Hy Hxy Ex Ey Sl Sr Sk Hxk Hxl Hxr Hnr.
  destruct (holds_focus _ _ _ _ _ Hh) as (_ & _ & _ & Hnk & H0u & H0k & Hdis).
  pose proof Hnd as Hnd'; apply (NoDup_dnode DL c l y r) in Hnd' as (Nl & Nr & Hyl & Hyr & Hlr).
  assert (0 ∉ elems l /\ 0 ∉ elems r) as [Hl0 Hr0] by (split; intros ?; apply H0u, Hsub; tauto).
  assert (forall q, q = y \/ q ∈ elems l \/ q ∈ elems r -> q ∉ kelems k) as Hk' by (intros; apply Hdis, Hsub; tauto).
  assert (y <> tref r) as Hyr'.
  { intros Eq; destruct (tref_elems r) as [?|?]; [congruence|]; apply Hyr; by rewrite Eq. }
  rewrite (take_place_run k c l x nr r y child s) by (done || naive_solver).
  replace (if decide (nr = y) then child else nr) with (tref r).
  2: { destruct Hnr as [(-> & -> & ->)|[-> ?]]; [by rewrite decide_True by done|by rewrite decide_False by congruence]. }
  eexists; split; [done|].
  set (H1 := <[y := _]> (rechild (rb_heap s) k y)).
  assert (forall q, q <> y -> q ∉ kelems k -> H1 !! q = rb_heap s !! q) as E1.
  { intros q Hq Hqk; unfold H1; rewrite lookup_insert_ne by done; by apply rechild_notin. }
  eapply holds_replace; [exact Hh| | |by rewrite Er|done| |done].
  - split; [|split].
    + rewrite !reparent_ne by done; unfold H1; by rewrite lookup_insert_eq.
    + eapply shape_ext; [|apply (shape_reparent H1 x y l Nl)].
      * intros q Hq; apply reparent_ne; auto.
      * eapply shape_ext; [|exact Sl]; intros q Hq; apply E1; [congruence|auto].
    + apply (shape_reparent _ x y r Nr); eapply shape_ext; [|exact Sr]; intros q Hq.
      rewrite reparent_ne by (intros Hql; by apply (Hlr q Hql)); apply E1; [congruence|auto].
  - eapply kshape_ext; [|apply (kshape_rechild (rb_heap s) k x y Hnk Sk)]; intros q Hq.
    rewrite !reparent_ne by (intros ?; apply (Hk' q); tauto); unfold H1.
    apply lookup_insert_ne; intros <-; apply (Hk' y); tauto.
  - intros q; rewrite (elems_dnode DL); apply Hsub.
Qed.

(** ** The successor *)

(** The successor is unlinked from a parent that is not the removed node. *)
Lemma unlink_far f K cy y ry s :
  fr_dir f = DL -> holds s (plug (f :: K) (Node cy Leaf y ry)) ->
  let s1 := mkRb (rb_root s) (reparent (rb_heap s) ry (fr_node f)) (rb_data s) in
  let s2 := mkRb (rb_root s) (rechild (reparent (rb_heap s) ry (fr_node f)) (f :: K) (tref ry)) (rb_data s) in
  left_of s1 (fr_node f) = Ok y /\ set_left s1 (fr_node f) (tref ry) = Ok s2 /\
  holds s2 (plug (f :: K) ry).
Proof.
  intros Hd Hh s1 s2; destruct (holds_focus _ _ _ _ _ Hh) as (_ & Hk & Hn & Hnk & _ & H0k & Hdis).
  pose proof (holds_node _ _ s DL (f :: K) cy Leaf y ry Hh) as (Hy & _ & _ & Sry & _ & H0ry).
  assert (fr_node f ∈ kelems (f :: K)) as Hf by (apply kelems_cons; by left).
  assert (fr_node f <> 0) as Hf0 by (intros E; by rewrite E in Hf).
  assert (fr_node f ∉ elems ry) as Hfr by (intros Hr; apply (Hdis (fr_node f)); [simpl; set_solver|done]).
  assert (forall q, q ∈ kelems (f :: K) -> q ∉ elems ry) as Hkr by (intros q Hq Hr; apply (Hdis q); [simpl; set_solver|done]).
  assert (rb_heap s1 !! fr_node f = Some (mkNode (kpar K) y (tref (fr_sib f)) (fr_color f))) as E1.
  { destruct Hk as (E & _); rewrite Hd in E; simpl in E |- *; by rewrite reparent_ne. }
  rewrite (left_of_some _ _ _ Hf0 E1), (set_left_some _ _ _ Hf0 E1); split; [done|].
  split; [unfold s2; simpl; by rewrite Hd|].
  apply (NoDup_dnode DL cy Leaf y ry) in Hn as (_ & Nry & _).
  eapply holds_replace; [exact Hh| | |done|done| |apply Hh].
  - cbn [kpar]; eapply shape_ext; [|apply (shape_reparent (rb_heap s) y (fr_node f) ry Nry Sry)].
    intros q Hq; apply rechild_notin; intros Hqk; by apply (Hkr q).
  - apply (kshape_rechild _ _ y _ Hnk); eapply kshape_ext; [|exact Hk]; intros q Hq.
    apply reparent_ne; auto.
  - intros q Hq; simpl; set_solver.
Qed.

Lemma transplant_near fuel k c l x cy y s :
  let r := Node cy Leaf y Leaf in
  holds s (plug k (Node c l x r)) -> leftmost fuel y s = Ok y ->
  exists s', transplant fuel x s = Ok (cy, 0, y, s') /\ holds s' (plug k (Node c l y Leaf)).
Proof.
  intros r Hh Hlm; pose proof (holds_fields _ _ s DL k c l x r Hh) as (_ & Er & _).
  pose proof (holds_fields _ _ s DL (Fr DR c x l :: k) cy Leaf y Leaf Hh) as (_ & Ery & Ep & Ecol & _).
  pose proof (holds_node _ _ s DL (Fr DR c x l :: k) cy Leaf y Leaf Hh) as (Hy0 & Ey & _).
  pose proof (holds_node _ _ s DL k c l x r Hh) as (Hx0 & Ex & Sl & _).
  destruct (holds_focus _ _ _ _ _ Hh) as (_ & Hk & Hn & _ & _ & _ & Hdis).
  apply (NoDup_dnode DL c l x r) in Hn as (Nl & _ & Hxl & Hxr & Hlr).
  simpl in Hxr, Hlr.
  assert (x ∉ kelems k) as Hxk by (apply Hdis; simpl; set_solver).
  unfold transplant; simpl child in Er, Ery; rewrite Er; mstep; cbn [r tref]; rewrite Hlm; mstep.
  rewrite Ecol; mstep; rewrite Ery; mstep; rewrite Ep; mstep; cbn [kpar fr_node].
  change (set_parent' s (tref Leaf) x) with (Ok s); mstep; rewrite decide_True by done; mstep.
  assert (x <> y) as Hxy by set_solver.
  assert (NoDup (elems (Node c l y Leaf))) as Nd.
  { apply (NoDup_dnode DL c l y Leaf); split_and!; [done|constructor| |set_solver|set_solver].
    intros Hy; apply (Hlr y Hy); set_solver. }
  destruct (take_place_holds k c l x y Leaf y 0 (Node c l x r) s s) as (s' & E' & H');
    [exact Hh|reflexivity|apply Hh| |exact Nd|exact Hx0|exact Hy0|exact Hxy|exact Ex|by eexists|exact Sl
    |exact I|exact Hk|exact Hxk|exact Hxl|set_solver|by left|].
  - intros q; simpl; set_solver.
  - change (tref Leaf) with 0; rewrite E'; mstep; exists s'; split; [reflexivity|exact H'].
Qed.

Lemma transplant_far fuel k c l x f j cy y ry s :
  let r := plug (f :: j) (Node cy Leaf y ry) in
  holds s (plug k (Node c l x r)) -> leftmost fuel (tref r) s = Ok y -> fr_dir f = DL ->
  exists s', transplant fuel x s = Ok (cy, tref ry, fr_node f, s') /\
    holds s' (plug k (Node c l y (plug (f :: j) ry))).
Proof.
  intros r Hh Hlm Hd; set (K := j ++ Fr DR c x l :: k); set (r' := plug (f :: j) ry).
  assert (forall t, plug (f :: K) t = plug k (Node c l x (plug (f :: j) t))) as EK.
  { intros t; unfold K; change (f :: j ++ ?z) with ((f :: j) ++ z); by rewrite plug_app. }
  assert (holds s (plug (f :: K) (Node cy Leaf y ry))) as HK by (by rewrite EK).
  pose proof (holds_fields _ _ s DL k c l x r Hh) as (_ & Er & _).
  pose proof (holds_fields _ _ s DL (f :: K) cy Leaf y ry HK) as (_ & Ery & Ep & Ecol & _).
  pose proof (holds_node _ _ s DL (f :: K) cy Leaf y ry HK) as (Hy0 & Ey & _ & Sry & _ & H0ry).
  destruct (unlink_far f K cy y ry s Hd HK) as (El & Es & H2); rewrite EK in H2; fold r' in H2.
  destruct (holds_focus _ _ _ _ _ HK) as (_ & _ & Hn & HnK & _ & _ & Hdis).
  destruct (holds_focus _ _ _ _ _ Hh) as (_ & _ & Hn' & _ & _ & _ & _).
  apply (NoDup_dnode DL c l x r) in Hn' as (_ & _ & _ & Hxr & Hlr).
  assert (y ∈ elems r) as Hyr by (apply elem_of_plug; right; simpl; set_solver).
  assert (fr_node f <> x) as Hfx.
  { intros E; apply Hxr; rewrite <- E; apply elem_of_plug; left; apply kelems_cons; by left. }
  assert (y ∉ elems r') as Hyr'.
  { unfold r'; rewrite elem_of_plug; apply (NoDup_dnode DL cy Leaf y ry) in Hn as (_ & _ & _ & ? & _).
    intros [Hy|?]; [|done]; apply (Hdis y); [simpl; set_solver|]; revert Hy; unfold K.
    change (f :: j ++ ?z) with ((f :: j) ++ z); apply kelems_app. }
  unfold transplant; simpl child in Er, Ery; rewrite Er; mstep; rewrite Hlm; mstep.
  rewrite Ecol; mstep; rewrite Ery; mstep; rewrite Ep; mstep.
  rewrite (set_parent_reparent _ ry y) by done; mstep; cbn [kpar]; rewrite decide_False by done.
  rewrite El; mstep; rewrite decide_True by done; rewrite Es; mstep.
  set (s2 := mkRb _ (rechild _ _ _) _) in *.
  pose proof (holds_node _ _ s2 DL k c l x r' H2) as (Hx0 & Ex & Sl & Sr & _).
  destruct (holds_focus _ _ _ _ _ H2) as (_ & Hk & Hn2 & _ & _ & _ & Hdis2).
  apply (NoDup_dnode DL c l x r') in Hn2 as (Nl & Nr' & Hxl & Hxr' & Hlr').
  assert (forall q, q ∈ elems r' -> q ∈ elems r) as Hsub.
  { intros q; unfold r', r; rewrite !elem_of_plug; simpl; set_solver. }
  assert (x <> y) as Hxy by congruence.
  assert (NoDup (elems (Node c l y r'))) as Nd.
  { apply (NoDup_dnode DL c l y r'); split_and!; [done|done| |done|done].
    intros Hy; by apply (Hlr y Hy). }
  assert (r' <> Leaf) as Hne.
  { intros E; assert (fr_node f ∈ elems r') as Hin; [|rewrite E in Hin; simpl in Hin; set_solver].
    apply elem_of_plug; left; apply kelems_cons; by left. }
  destruct (take_place_holds k c l x (tref r') r' y (tref ry) (Node c l x r) s2 s) as (s' & E' & H');
    [exact Hh|reflexivity|apply H2| |exact Nd|exact Hx0|exact Hy0|exact Hxy|exact Ex| |exact Sl
    |exact Sr|exact Hk| |exact Hxl|exact Hxr'|by right|].
  - intros q; rewrite (elems_dnode DL c l x r); naive_solver.
  - apply (NoDup_dnode DL cy Leaf y ry) in Hn as (_ & _ & _ & ? & _); unfold s2; cbn [rb_heap].
    rewrite rechild_notin, reparent_ne by (done || apply Hdis; simpl; set_solver); by eexists.
  - apply Hdis2, (elems_dnode DL); by left.
  - rewrite E'; mstep; exists s'; split; [reflexivity|exact H'].
Qed.

(** ** The callbacks up to the root *)

Lemma augment_up_ok fuel k u s :
  (length k < fuel)%nat -> holds s (plug k u) ->
  exists s', augment_up cb fuel (kpar k) s = Ok s' /\ holds s' (plug k u).
Proof.
  revert k u s; induction fuel as [|fuel IH]; intros k u s Hf Hh; [lia|]; simpl.
  destruct k as [|f k]; [by exists s|].
  pose proof (holds_node _ _ s (fr_dir f) k (fr_color f) u (fr_node f) (fr_sib f) Hh) as (Hf0 & _).
  cbn [kpar]; rewrite decide_False by done.
  destruct (augment_ok _ _ cb Hcb (fr_node f) s _ Hh) as (s1 & -> & H1 & _).
  { apply elem_of_plug; left; apply kelems_cons; by left. }
  mstep; pose proof (holds_fields _ _ s1 (fr_dir f) k (fr_color f) u (fr_node f) (fr_sib f) H1) as (_ & _ & -> & _).
  mstep; apply (IH k (fill f u)); [simpl in Hf; lia|done].
Qed.

(** ** The whole removal *)

(** What is left to do once the node is unlinked. *)
Definition erase_rest (fuel : nat) (color : color) (child parent : Z) (s : rb_state A) : res (rb_state A) :=
  s ← (if cb is Some _ then augment_up cb fuel parent s else Ok s);
  if decide (color = RB_BLACK) then rb_erase_fixup cb fuel child parent s else Ok s.

Lemma erase_rest_ok fuel c n k a s :
  (length k < fuel)%nat -> holds s (plug k a) -> rb n a ->
  rbk (match c with RB_BLACK => S n | RB_RED => n end) k -> (c = RB_RED -> tred a = false) ->
  exists s' t, erase_rest fuel c (tref a) (kpar k) s = Ok s' /\ holds s' t /\
    elems t = elems (plug k a) /\ rb_tree t.
Proof.
  intros Hf Hh Ha Hk Hc; unfold erase_rest.
  assert (exists s1, (if cb is Some _ then augment_up cb fuel (kpar k) s else Ok s) = Ok s1 /\
    holds s1 (plug k a)) as (s1 & -> & H1).
  { destruct (augment_up_ok fuel k a s Hf Hh) as (s1 & E & H1); destruct cb; [by exists s1|by exists s]. }
  mstep; destruct c.
  - rewrite decide_False by done; exists s1, (plug k a); split_and!; try done.
    all: eapply rb_plug; eauto.
  - rewrite decide_True by done; by eapply erase_fixup_ok.
Qed.

Lemma rbk_rename n j d c x y t k :
  rbk n (j ++ Fr d c x t :: k) -> rbk n (j ++ Fr d c y t :: k).
Proof.
  revert n; induction j as [|f j IH]; intros n; simpl.
  - inversion 1; subst; by constructor.
  - inversion 1 as [|? ? ? ? ? ? Hk|? ? ? ? ? ? ? ? ? ? Hk Ek]; subst; [constructor; auto|].
    destruct j as [|f' j]; simpl in *; simplify_eq; constructor; try done; by apply IH.
Qed.

(** The shape in which the code loses track of a parent: the node has two children,
    and its right child has no left child but a right one. *)
Definition gap (l r : tree) : bool :=
  match l, r with Node _ _ _ _, Node _ Leaf _ (Node _ _ _ _) => true | _, _ => false end.

Lemma length_ctx k t : (length k + length (elems t) <= length (elems (plug k t)))%nat.
Proof.
  revert t; induction k as [|f k IH]; intros t; simpl; [lia|].
  etrans; [|apply IH]; unfold fill; destruct (fr_dir f); simpl; rewrite length_app; simpl; lia.
Qed.

(** Unlinking: the removed colour, and what is left as a focus. *)
Lemma unlink_ok fuel k c l x r s :
  (length (elems (plug k (Node c l x r))) < fuel)%nat ->
  holds s (plug k (Node c l x r)) -> rb_tree (plug k (Node c l x r)) -> gap l r = false ->
  exists s' c' n K a,
    (if decide (tref l = 0) then '(parent, s) ← splice x (tref r) s; Ok (c, tref r, parent, s)
     else if decide (tref r = 0) then '(parent, s) ← splice x (tref l) s; Ok (c, tref l, parent, s)
     else transplant fuel x s) = Ok (c', tref a, kpar K, s') /\
    holds s' (plug K a) /\ rb n a /\ rbk (match c' with RB_BLACK => S n | RB_RED => n end) K /\
    (c' = RB_RED -> tred a = false) /\ elems (plug K a) = kleft k ++ elems l ++ elems r ++ kright k.
Proof.
  intros Hf Hh Hrb Hg; destruct (holds_node _ _ s DL k c l x r Hh) as (_ & _ & _ & Sr & Hl0 & Hr0).
  assert (forall t, t <> Leaf -> 0 ∉ elems t -> tref t <> 0) as Href
    by (intros [] ? Ht; [done|]; simpl in *; set_solver).
  destruct (rb_plug_inv _ _ Hrb) as (n & Hn & Hk & _).
  assert (forall a, l = Leaf /\ r = a \/ l = a /\ r = Leaf -> exists m, rb m a /\
    rbk (match c with RB_BLACK => S m | RB_RED => m end) k /\ (c = RB_RED -> tred a = false)) as Hone.
  { intros a Ha; inversion Hn; subst; destruct Ha as [[-> ->]|[-> ->]]; eexists; (split; [eassumption|done]). }
  destruct (decide (l = Leaf)) as [->|Hl].
  { simpl tref; rewrite decide_True by done.
    destruct (splice_ok DR k c r x s Hh) as (s' & -> & H'); mstep.
    destruct (Hone r (or_introl (conj eq_refl eq_refl))) as (m & ? & ? & ?).
    exists s', c, m, k, r; split_and!; try done; by rewrite elems_plug. }
  rewrite decide_False by (by apply Href).
  destruct (decide (r = Leaf)) as [->|Hr].
  { simpl tref; rewrite decide_True by done.
    destruct (splice_ok DL k c l x s Hh) as (s' & -> & H'); mstep.
    destruct (Hone l (or_intror (conj eq_refl eq_refl))) as (m & ? & ? & ?).
    exists s', c, m, k, l; split_and!; try done; by rewrite elems_plug. }
  rewrite decide_False by (by apply Href).
  destruct (leftmost_spec fuel r x s Hr Hr0 Sr) as (j & cy & y & ry & -> & Hj & Hlm).
  { pose proof (length_ctx k (Node c l x r)) as Hle; simpl in Hle; rewrite length_app in Hle; simpl in Hle; lia. }
  clear Hn Hk n Hone; set (K := j ++ Fr DR c x l :: k).
  assert (rb_tree (plug K (Node cy Leaf y ry))) as HK by (unfold K; by rewrite plug_app).
  destruct (rb_plug_inv _ _ HK) as (n & Hn & Hk & _); apply (rbk_rename _ _ _ _ _ y) in Hk.
  assert (exists m, rb m ry /\ rbk (match cy with RB_BLACK => S m | RB_RED => m end) (j ++ Fr DR c y l :: k) /\
    (cy = RB_RED -> tred ry = false)) as (m & Hm & Hkm & Hrm).
  { inversion Hn; subst; eexists; (split; [eassumption|done]). }
  assert (elems (plug (j ++ Fr DR c y l :: k) ry) =
    kleft k ++ elems l ++ elems (plug j (Node cy Leaf y ry)) ++ kright k) as Ee.
  { rewrite plug_app; cbn [plug]; rewrite !elems_plug; unfold fill; simpl; rewrite elems_plug.
    assert (kleft j = []) as -> by (clear -Hj; induction Hj as [|f j Hf Hj IH]; [done|]; simpl; by rewrite IH, Hf).
    in_order. }
  destruct j as [|f j].
  - simpl in Hg, Hlm |- *; assert (ry = Leaf) as -> by (destruct l; [done|]; by destruct ry).
    destruct (transplant_near fuel k c l x cy y s Hh Hlm) as (s' & -> & H').
    exists s', cy, m, (Fr DR c y l :: k), Leaf; split_and!; done.
  - inversion Hj; subst.
    destruct (transplant_far fuel k c l x f j cy y ry s Hh Hlm) as (s' & -> & H'); [done|].
    exists s', cy, m, ((f :: j) ++ Fr DR c y l :: k), ry; split_and!; try done.
    by rewrite plug_app.
Qed.

(** Removal of a node, in any context. *)
Lemma rb_erase_ok fuel k c l x r s :
  (length (elems (plug k (Node c l x r))) < fuel)%nat ->
  holds s (plug k (Node c l x r)) -> rb_tree (plug k (Node c l x r)) -> gap l r = false ->
  exists s' t, rb_erase_augmented cb fuel x s = Ok s' /\ holds s' t /\ rb_tree t /\
    elems t = kleft k ++ elems l ++ elems r ++ kright k.
Proof.
  intros Hf Hh Hrb Hg; pose proof (holds_node _ _ s DL k c l x r Hh) as (Hx & _).
  pose proof (holds_fields _ _ s DL k c l x r Hh) as (El & Er & _ & Ec & _); simpl in El, Er.
  pose proof (root_not_null _ _ s k c l x r Hh) as Hroot.
  unfold rb_erase_augmented; rewrite decide_False by tauto; rewrite Ec; mstep; rewrite El; mstep; rewrite Er; mstep.
  destruct (unlink_ok fuel k c l x r s) as (s1 & c' & n & K & a & -> & H1 & Ha & HK & Hc & Ee); [done..|]; mstep.
  destruct (erase_rest_ok fuel c' n K a s1) as (s' & t & E & Ht & Et & Hb); try done.
  { pose proof (length_ctx K a) as HL; rewrite Ee in HL; pose proof (length_ctx k (Node c l x r)).
    rewrite elems_plug in Hf; simpl in Hf; rewrite !length_app in *; simpl in *; lia. }
  exists s', t; split; [exact E|]; split; [done|]; split; [done|by rewrite Et].
Qed.

End Erase.
