(* ===== verification/RbtreeTheorems.v ===== *)
(** * Red-black trees: the theorems

    Insertion and removal keep the tree in order and balanced, the shape in which
    removal leaves a dangling parent pointer, traversal follows the order of the
    nodes, and [rb_verify] decides the red-black conditions. *)

From S2P Require Import Prelude Rbtree RbtreeSpec RbtreeBalance RbtreeErase.
From stdpp Require Import base tactics option list numbers gmap.
From Stdlib Require Import ZArith Lia.

Local Open Scope Z_scope.

(** ** Focusing on a node *)

Lemma focus_node t x : x ∈ elems t -> exists k c l r, t = plug k (Node c l x r).
Proof.
  induction t as [|c l IHl y r IHr]; simpl; [by intros ?%elem_of_nil|].
  rewrite elem_of_app, elem_of_cons; intros [Hl|[->|Hr]].
  - destruct (IHl Hl) as (k & c' & l' & r' & ->); exists (k ++ [Fr DL c y r]), c', l', r'.
    by rewrite plug_app.
  - by exists [], c, l, r.
  - destruct (IHr Hr) as (k & c' & l' & r' & ->); exists (k ++ [Fr DR c y l]), c', l', r'.
    by rewrite plug_app.
Qed.

Lemma NoDup_split (l1 l2 m1 m2 : list Z) x :
  NoDup (l1 ++ x :: l2) -> l1 ++ x :: l2 = m1 ++ x :: m2 -> l1 = m1 /\ l2 = m2.
Proof.
  revert m1; induction l1 as [|a l1 IH]; intros [|b m1]; simpl; intros Hn E; simplify_eq; try done.
  - apply NoDup_cons in Hn as [Hn _]; set_solver.
  - apply NoDup_cons in Hn as [Hn _]; set_solver.
  - apply NoDup_cons in Hn as [_ Hn]; destruct (IH m1 Hn) as [-> ->]; done.
Qed.

(** A place in the order is a node in focus. *)
Lemma focus_order t l1 x l2 :
  NoDup (elems t) -> elems t = l1 ++ x :: l2 ->
  exists k c l r, t = plug k (Node c l x r) /\ l1 = kleft k ++ elems l /\ l2 = elems r ++ kright k.
Proof.
  intros Hn E; destruct (focus_node t x) as (k & c & l & r & ->); [rewrite E; set_solver|].
  exists k, c, l, r; split; [done|]; rewrite elems_plug in E; simpl in E.
  rewrite elems_plug in Hn; simpl in Hn; rewrite <- !app_assoc in *; simpl in *; rewrite app_assoc in *.
  by apply NoDup_split in E as [-> ->].
Qed.

(** ** Traversal, in either direction *)

(** The nodes in order, from the [d] side to the other. *)
Definition order (d : dir) (l : list Z) : list Z := match d with DL => l | DR => reverse l end.

(** The nodes beyond the hole, going away from the [d] side. *)
Fixpoint kafter (d : dir) (k : ctx) : list Z :=
  match k with
  | [] => []
  | f :: k => (if decide (fr_dir f = d) then fr_node f :: order d (elems (fr_sib f)) else []) ++ kafter d k
  end.

Lemma kafter_left k : kafter DL k = kright k.
Proof. induction k as [|[[] c x s] k IH]; simpl; [done|by rewrite IH..]. Qed.

Lemma kafter_right k : kafter DR k = reverse (kleft k).
Proof.
  induction k as [|[[] c x s] k IH]; simpl; [done|by rewrite IH, app_nil_r|].
  by rewrite IH, !reverse_app, <- app_assoc.
Qed.

Lemma order_dnode d c a x b : order d (elems (dnode d c a x b)) = order d (elems a) ++ x :: order d (elems b).
Proof. destruct d; simpl; [done|]; rewrite reverse_app, reverse_cons, <- app_assoc; done. Qed.

Lemma hd_order d t l : t <> Leaf -> hd 0 (order d (elems t) ++ l) = hd 0 (order d (elems t)).
Proof.
  intros Ht; destruct (order d (elems t)) eqn:Eo; [|done]; destruct t as [|c a y b]; [done|].
  apply (f_equal length) in Eo; destruct d; simpl in Eo; rewrite ?length_reverse, length_app in Eo; simpl in Eo; lia.
Qed.

Section Traverse.
Context {A : Type}.
Implicit Types (s : rb_state A).

Definition extreme (d : dir) : nat -> Z -> rb_state A -> res Z :=
  match d with DL => leftmost | DR => rightmost end.

Lemma extreme_S d fuel n s :
  extreme d (S fuel) n s = (c ← child d s n; if decide (c <> 0) then extreme d fuel c s else Ok n).
Proof. by destruct d. Qed.

Definition climb (d : dir) : nat -> Z -> Z -> rb_state A -> res Z :=
  match d with DL => next_up | DR => prev_up end.

Lemma climb_S d fuel curr p s :
  climb d (S fuel) curr p s =
  if decide (p = 0) then Ok 0
  else c ← child (opp d) s p; if decide (curr = c) then pp ← parent_of s p; climb d fuel p pp s else Ok p.
Proof. by destruct d. Qed.

Definition step (d : dir) (fuel : nat) (x : Z) (s : rb_state A) : res Z :=
  match d with DL => rb_next fuel x s | DR => rb_prev fuel x s end.

Lemma extreme_ok d fuel t par s :
  t <> Leaf -> 0 ∉ elems t -> shape (rb_heap s) par t -> (length (elems t) <= fuel)%nat ->
  extreme d fuel (tref t) s = Ok (hd 0 (order d (elems t))).
Proof.
  revert fuel par; induction t as [|c l IHl x r IHr]; intros fuel par Hne H0 Hs Hf; [done|].
  simpl in Hf; rewrite length_app in Hf; simpl in Hf; destruct fuel as [|fuel]; [lia|].
  rewrite extreme_S; destruct Hs as (E & Sl & Sr); simpl in H0.
  assert (x <> 0 /\ 0 ∉ elems l /\ 0 ∉ elems r) as (Hx & Hl0 & Hr0) by set_solver.
  destruct d; cbn [child tref];
    [rewrite (left_of_some _ _ _ Hx E)|rewrite (right_of_some _ _ _ Hx E)]; mstep; cbn [rb_left rb_right].
  - destruct l as [|cl ll xl rl]; [done|].
    rewrite decide_True by (simpl in *; set_solver).
    rewrite (IHl fuel x) by (done || lia); simpl; destruct (elems ll); done.
  - destruct r as [|cr lr xr rr]; [simpl; by rewrite reverse_app|].
    rewrite decide_True by (simpl in *; set_solver).
    rewrite (IHr fuel x) by (done || lia); set (t := Node cr lr xr rr) in *.
    change (order DR (elems (Node c l x t))) with (order DR (elems (dnode DR c t x l))).
    by rewrite order_dnode, hd_order by done.
Qed.

Context (adom : Z -> Prop) (ainv : A -> Prop).
Abbreviation holds := (holds adom ainv).

Lemma climb_ok d fuel k u s :
  (length k < fuel)%nat -> u <> Leaf -> holds s (plug k u) ->
  climb d fuel (tref u) (kpar k) s = Ok (hd 0 (kafter d k)).
Proof.
  revert k u; induction fuel as [|fuel IH]; intros k u Hf Hu Hh; [lia|]; rewrite climb_S.
  destruct k as [|[e c p sib] k]; [done|]; cbn [kpar fr_node kafter fr_dir fr_sib].
  pose proof (holds_node _ _ s e k c u p sib Hh) as (Hp & _); rewrite decide_False by done.
  pose proof (holds_fields _ _ s e k c u p sib Hh) as (Eu & Es & Ep & _).
  assert (tref u <> 0) as Hu0.
  { destruct u; [done|]; by apply (holds_node _ _ s DL (Fr e c p sib :: k) _ _ _ _ Hh). }
  destruct (decide (e = d)) as [->|Hne].
  - rewrite Es; mstep; rewrite decide_False by (apply (holds_ne _ _ s d k c u p sib Hh); by left); done.
  - assert (opp d = e) as -> by (by destruct d, e); rewrite Eu; mstep; rewrite decide_True by done.
    rewrite Ep; mstep; cbn [app]; rewrite <- (IH k (dnode e c u p sib)); [by rewrite tref_dnode|simpl in Hf; lia|by destruct e|done].
Qed.

Lemma step_ok d fuel k c a x b s :
  (length (elems (plug k (dnode d c a x b))) < fuel)%nat -> holds s (plug k (dnode d c a x b)) ->
  step d fuel x s = Ok (hd 0 (order d (elems b) ++ kafter d k)).
Proof.
  intros Hf Hh; pose proof (length_ctx k (dnode d c a x b)) as Hlen.
  destruct (holds_node _ _ s d k c a x b Hh) as (Hx & _ & _ & Sb & _ & Hb0).
  pose proof (holds_fields _ _ s d k c a x b Hh) as (_ & Eb & Ep & _).
  assert (step d fuel x s = c ← child (opp d) s x;
    if decide (c <> 0) then extreme d fuel c s else p ← parent_of s x; climb d fuel x p s) as ->.
  { destruct d; simpl; unfold rb_next, rb_prev; by rewrite decide_False by done. }
  rewrite Eb; mstep; destruct (decide (b = Leaf)) as [->|Hb].
  - simpl tref; rewrite decide_False, Ep by tauto; mstep.
    rewrite <- (tref_dnode d c a x Leaf) at 1; rewrite (climb_ok d fuel k) by (done || lia || by destruct d).
    by destruct d.
  - rewrite decide_True by (destruct b; simpl in *; [done|set_solver]).
    rewrite (extreme_ok d fuel b x) by (done || (destruct d; simpl in *; rewrite length_app in *; simpl in *; lia)).
    by rewrite hd_order.
Qed.

End Traverse.

(** ** Verification *)

Section Verify.
Context {A : Type} (s : rb_state A).

(** A red node with a red child is found before its subtrees are looked at. *)
Definition red_red (c : color) (l r : tree) : bool :=
  match c with RB_RED => tred l || tred r | RB_BLACK => false end.

Definition next_height (c : color) (cur : Z) : Z :=
  match c with RB_RED => cur | RB_BLACK => cur + 1 end.

Lemma verify_node fuel bh cur c l x r par :
  0 ∉ elems (Node c l x r) -> shape (rb_heap s) par (Node c l x r) ->
  rb_verify_node_internal (S fuel) x bh cur s =
  if red_red c l r then Ok (false, bh)
  else
    '(ok, bh) ← rb_verify_node_internal fuel (tref l) bh (next_height c cur) s;
    if (ok : bool) then rb_verify_node_internal fuel (tref r) bh (next_height c cur) s
    else Ok (false, bh).
Proof.
  intros H0 (E & Sl & Sr); simpl in H0.
  assert (x <> 0 /\ 0 ∉ elems l /\ 0 ∉ elems r) as (Hx & Hl0 & Hr0) by set_solver.
  cbn [rb_verify_node_internal]; rewrite decide_False, (rb_at_some _ _ _ Hx E) by done; mstep.
  cbn [rb_color rb_left rb_right]; destruct c; simpl decide.
  - rewrite decide_True by done; rewrite (is_red_shape _ _ _ Hl0 Sl), (is_red_shape _ _ _ Hr0 Sr); mstep.
    simpl; destruct (tred l), (tred r); done.
  - by rewrite decide_False by done.
Qed.

Lemma rb_node_iff n c l x r :
  rb n (Node c l x r) <->
  red_red c l r = false /\ exists m, rb m l /\ rb m r /\ Z.of_nat n = next_height c (Z.of_nat m).
Proof.
  split.
  - inversion 1; subst; simpl.
    + split; [by apply orb_false_iff|by exists n].
    + split; [done|]; exists n0; split_and!; [done|done|lia].
  - intros (Hr & m & Hl & Hr' & E); destruct c; simpl in *.
    + apply orb_false_iff in Hr as [? ?]; assert (n = m) as -> by lia; by constructor.
    + assert (n = S m) as -> by lia; by constructor.
Qed.

Lemma rb_det n m t : rb n t -> rb m t -> n = m.
Proof.
  intros Hn; revert m; induction Hn; inversion 1; subst; auto.
Qed.

(** The verdict is [true] exactly for a subtree in order whose black height fits
    the one met before ([-1]: none yet), which is what it leaves. *)
Lemma verify_spec fuel t par bh cur :
  0 ∉ elems t -> shape (rb_heap s) par t -> (length (elems t) < fuel)%nat -> 0 <= cur ->
  exists ok bh', rb_verify_node_internal fuel (tref t) bh cur s = Ok (ok, bh') /\
    (ok = true -> exists n, rb n t /\ bh' = cur + Z.of_nat n /\ (bh = -1 \/ bh = bh')) /\
    (forall n, rb n t -> bh = -1 \/ bh = cur + Z.of_nat n -> ok = true).
Proof.
  revert fuel par bh cur; induction t as [|c l IHl x r IHr]; intros fuel par bh cur H0 Hs Hf Hcur;
    (destruct fuel as [|fuel]; [lia|]).
  - cbn [rb_verify_node_internal tref]; rewrite decide_True by done.
    case_decide as Hb; [|case_decide as Hb']; eexists _, _; (split; [done|]); split; intros.
    + exists 0%nat; split; [constructor|]; lia.
    + done.
    + done.
    + inversion H; subst; lia.
    + exists 0%nat; split; [constructor|]; lia.
    + done.
  - cbn [tref]; rewrite (verify_node _ _ _ c l x r par) by done.
    simpl in H0, Hf; rewrite length_app in Hf; simpl in Hf; destruct Hs as (_ & Sl & Sr).
    destruct (red_red c l r) eqn:Err.
    { eexists _, _; split; [done|]; split; [done|]; intros n Hn; apply rb_node_iff in Hn as [? _]; congruence. }
    assert (0 <= next_height c cur) as Hc by (destruct c; simpl; lia).
    assert (forall m, next_height c cur + Z.of_nat m = cur + next_height c (Z.of_nat m)) as Ec
      by (intros; destruct c; simpl; lia).
    destruct (IHl fuel x bh (next_height c cur)) as (ok1 & bh1 & -> & H1 & H1'); [set_solver|done|lia|done|]; mstep.
    destruct ok1.
    + destruct (H1 eq_refl) as (m & Hm & E1 & Hb1).
      destruct (IHr fuel x bh1 (next_height c cur)) as (ok2 & bh2 & -> & H2 & H2'); [set_solver|done|lia|done|].
      exists ok2, bh2; split; [done|]; split.
      * intros Hok; destruct (H2 Hok) as (m' & Hm' & E2 & Hb2); assert (m' = m) as -> by lia.
        exists (match c with RB_RED => m | RB_BLACK => S m end); split_and!; [|destruct c; simpl in *; lia|lia].
        apply rb_node_iff; split; [done|]; exists m; split_and!; [done|done|destruct c; simpl; lia].
      * intros n Hn Hb; apply rb_node_iff in Hn as (_ & m' & Hl & Hr & En).
        apply (H2' m' Hr); specialize (H1' m' Hl); right; rewrite E1; f_equal; f_equal.
        by apply (rb_det _ _ l).
    + eexists _, _; split; [done|]; split; [done|]; intros n Hn Hb; apply rb_node_iff in Hn as (_ & m & Hl & _ & En).
      apply (H1' m Hl); by rewrite Ec, <- En.
Qed.

End Verify.

(** [rb_verify] is exact.  On a state that holds the tree [t], with more fuel
    than nodes, it returns, and the answer is true exactly when [t] is a red-black
    tree: a black root, no red node with a red child, as many black nodes on every
    path. *)
Theorem rb_verify_exact {A} adom (ainv : A -> Prop) fuel s t :
  holds adom ainv s t -> (length (elems t) < fuel)%nat ->
  exists b, rb_verify fuel s = Ok b /\ (b = true <-> rb_tree t).
Proof.
  intros Hh Hf; unfold rb_verify; rewrite (h_root _ _ _ _ Hh); destruct t as [|c l x r].
  { exists true; split; [done|]; split; [intros _; split; [done|exists 0%nat; constructor]|done]. }
  pose proof (holds_node _ _ s DL [] c l x r Hh) as (Hx & E & _); cbn [tref].
  rewrite decide_False, (color_of_some _ _ _ Hx E) by done; mstep; cbn [nd rb_color].
  destruct c; [rewrite decide_True by done|rewrite decide_False by tauto].
  - exists false; split; [done|]; split; [done|by intros [? _]].
  - destruct (verify_spec s fuel (Node RB_BLACK l x r) 0 (-1) 0) as (ok & bh & Ev & H1 & H2);
      [apply Hh|apply Hh|done|lia|].
    cbn [tref] in Ev; rewrite Ev; mstep; exists ok; split; [done|]; split.
    + intros Hok; destruct (H1 Hok) as (n & Hn & _); split; [done|by exists n].
    + intros [_ [n Hn]]; apply (H2 n Hn); by left.
Qed.

(** traversal follows the order.  In a state that holds [t], [rb_next] and
    [rb_prev] lead from a node to the ones after and before it in the order of the
    tree (NULL at the ends), and [rb_first] and [rb_last] to the two ends. *)
Theorem rb_traversal_order {A} adom (ainv : A -> Prop) fuel s t l1 x l2 :
  holds adom ainv s t -> (length (elems t) < fuel)%nat -> elems t = l1 ++ x :: l2 ->
  rb_next fuel x s = Ok (hd 0 l2) /\ rb_prev fuel x s = Ok (hd 0 (reverse l1)) /\
  rb_first fuel s = Ok (hd 0 (elems t)) /\ rb_last fuel s = Ok (hd 0 (reverse (elems t))).
Proof.
  intros Hh Hf E; destruct (focus_order t l1 x l2 (h_nodup _ _ _ _ Hh) E) as (k & c & l & r & Et & -> & ->).
  assert (t <> Leaf) as Hne by (intros ->; simpl in E; by apply app_cons_not_nil in E).
  assert (tref t <> 0) as Hr0.
  { destruct t as [|c' l' y r']; [done|]; by apply (holds_node _ _ s DL [] c' l' y r' Hh). }
  rewrite Et in Hh, Hf.
  pose proof (step_ok adom ainv DL fuel k c l x r s Hf Hh) as En; pose proof (step_ok adom ainv DR fuel k c r x l s Hf Hh) as Ep.
  rewrite <- Et in Hh, Hf; simpl in En, Ep; rewrite kafter_left in En; rewrite kafter_right in Ep.
  rewrite En, Ep, reverse_app; split; [done|]; split; [done|].
  unfold rb_first, rb_last; rewrite (h_root _ _ _ _ Hh), !decide_False by done.
  split; [apply (extreme_ok DL fuel t 0)|apply (extreme_ok DR fuel t 0)]; (done || apply Hh || lia).
Qed.

(** ** Insertion and removal *)

(** C21: insertion keeps the tree in order and balanced.  A new node linked at any
    empty place of a red-black tree and handed to [rb_insert_augmented] ends, with
    more fuel than nodes, in a state that holds a red-black tree with the same nodes
    in the same order and the new one at its place, for any callback that runs on
    the nodes of the tree. *)
Theorem rb_insert_balanced {A} adom (ainv : A -> Prop) cb fuel k x s :
  aug_ok adom ainv cb -> holds adom ainv s (plug k Leaf) -> rb_tree (plug k Leaf) ->
  x <> 0 -> x ∉ elems (plug k Leaf) -> adom x -> (length (elems (plug k Leaf)) < fuel)%nat ->
  exists s1 s' t, rb_link_node x (kpar k) (link_of k) s = Ok s1 /\
    rb_insert_augmented cb fuel x s1 = Ok s' /\ holds adom ainv s' t /\ rb_tree t /\
    elems t = kleft k ++ x :: kright k.
Proof.
  intros Hcb Hh Hrb Hx Hin Hax Hf; destruct (link_node_ok adom ainv s k x) as (s1 & E1 & _ & H1); [done..|].
  pose proof (length_ctx k Leaf); destruct (rb_insert_ok adom ainv cb Hcb fuel k x s1) as (s' & t & E2 & Ht); [simpl in *; lia|done..|].
  by exists s1, s', t.
Qed.

(** C22: removal keeps the tree in order and balanced.  [rb_erase_augmented] on a node
    of a red-black tree ends, with more fuel than nodes, in a state that holds a
    red-black tree with the other nodes in the same order, unless the node has two
    children and its right child has a right child but no left one. *)
Theorem rb_erase_balanced {A} adom (ainv : A -> Prop) cb fuel k c l x r s :
  aug_ok adom ainv cb -> holds adom ainv s (plug k (Node c l x r)) -> rb_tree (plug k (Node c l x r)) ->
  gap l r = false -> (length (elems (plug k (Node c l x r))) < fuel)%nat ->
  exists s' t, rb_erase_augmented cb fuel x s = Ok s' /\ holds adom ainv s' t /\ rb_tree t /\
    elems t = kleft k ++ elems l ++ elems r ++ kright k.
Proof. intros Hcb Hh Hrb Hg Hf; by apply (rb_erase_ok adom ainv cb Hcb fuel k c l x r s). Qed.

(** C23: removal can leave a parent pointer to the removed node.  When the node [x]
    has two children and its right child [y] has a right child [z] but no left one,
    [rb_erase] puts [y] in the place of [x] and leaves the parent field of [z]
    pointing to [x]: the store of [child->rb_parent] precedes the correction of
    [parent]. *)
Theorem rb_erase_dangling_parent {A} adom (ainv : A -> Prop) fuel k c l x y z s :
  holds adom ainv s (plug k (Node c l x (Node RB_BLACK Leaf y (Node RB_RED Leaf z Leaf)))) ->
  l <> Leaf -> (2 <= fuel)%nat ->
  exists s', rb_erase fuel x s = Ok s' /\
    right_of s' y = Ok z /\ parent_of s' y = Ok (kpar k) /\ parent_of s' z = Ok x.
Proof.
  intros Hh Hl Hf; set (rz := Node RB_RED Leaf z Leaf) in *; set (r := Node RB_BLACK Leaf y rz) in *.
  destruct (holds_node _ _ s DL k c l x r Hh) as (Hx & Ex & Sl & _ & Hl0 & _).
  pose proof (holds_node _ _ s DL (Fr DR c x l :: k) _ _ _ _ Hh) as (Hy & Ey & _).
  pose proof (holds_node _ _ s DL (Fr DR RB_BLACK y Leaf :: Fr DR c x l :: k) _ _ _ _ Hh) as (Hz & Ez & _).
  destruct (holds_focus _ _ _ _ _ Hh) as (_ & Hk & Hn & _ & _ & H0k & Hdis).
  apply (NoDup_dnode DL c l x r) in Hn as (Nl & Nr & Hxl & Hxr & Hlr).
  apply (NoDup_dnode DL RB_BLACK Leaf y rz) in Nr as (_ & _ & _ & Hyz & _).
  simpl in Hxr, Hlr, Hyz, Hdis.
  assert (x <> y /\ x <> z /\ y <> z) as (Hxy & Hxz & Hyz') by set_solver.
  assert (x ∉ kelems k /\ y ∉ kelems k /\ z ∉ kelems k) as (Hxk & Hyk & Hzk) by (split_and!; apply Hdis; set_solver).
  assert (y ∉ elems l /\ z ∉ elems l) as [Hyl Hzl] by (split; intros Hq; apply (Hlr _ Hq); set_solver).
  assert (tref l <> 0) as Hl' by (destruct l; simpl in *; [done|set_solver]).
  pose proof (root_not_null _ _ s k c l x r Hh) as Hroot.
  cbn [nd tref r rz kpar fr_node] in Ex, Ey, Ez.
  unfold rb_erase, rb_erase_augmented; rewrite decide_False by tauto; do 3 rd; rewrite !decide_False by done.
  unfold transplant; destruct fuel as [|fuel]; [lia|]; rd; cbn [leftmost]; rd; rewrite decide_False by tauto; mstep.
  do 3 rd; unfold set_parent'; rewrite decide_True by done; rd; rewrite decide_True by done; mstep.
  set (s1 := mkRb (rb_root s) (<[z := _]> (rb_heap s)) (rb_data s)).
  assert (forall q, q <> z -> rb_heap s1 !! q = rb_heap s !! q) as E1 by (intros; by apply lookup_insert_ne).
  rewrite (take_place_run k c l x y Leaf y z s1); try done.
  - rewrite decide_True by done; mstep; rewrite decide_True by done.
    cbn [reparent]; set (H2 := reparent _ l y); set (s2 := mkRb _ H2 _).
    assert (H2 !! y = Some (mkNode (kpar k) (tref l) z c)) as Ey2
      by (unfold H2; rewrite reparent_ne by done; by rewrite lookup_insert_eq).
    assert (H2 !! z = Some (mkNode x 0 0 RB_RED)) as Ez2.
    { unfold H2; rewrite reparent_ne, lookup_insert_ne, rechild_notin by done; apply lookup_insert_eq. }
    unfold rb_erase_fixup; cbn [fixup_loop]; unfold is_black; rewrite decide_False by done.
    rewrite (color_of_some s2 z _ Hz Ez2); mstep; cbn [rb_color]; rewrite bool_decide_false by done; cbn [andb]; mstep.
    unfold set_color'; rewrite decide_True, (set_color_some s2 z _ Hz Ez2) by done.
    eexists; split; [done|]; do 2 rd1; rd1; done.
  - by rewrite E1.
  - rewrite E1 by done; by eexists.
  - eapply shape_ext; [|exact Sl]; intros q Hq; apply E1; congruence.
  - eapply kshape_ext; [|exact Hk]; intros q Hq; apply E1; congruence.
  - simpl; set_solver.
  - simpl; set_solver.
  - simpl; set_solver.
  - intros q Hq; split; [simpl; set_solver|]; apply Hdis; set_solver.
  - simpl; set_solver.
  - by left.
Qed.

(** ** Examples *)

Definition any (_ : Z) : Prop := True.
Definition no_data (_ : unit) : Prop := True.

Lemma aug_none : aug_ok any no_data None.
Proof. done. Qed.

(** A black root 20 between the red nodes 10 and 30. *)
Definition tree3 : tree := Node RB_BLACK (Node RB_RED Leaf 10 Leaf) 20 (Node RB_RED Leaf 30 Leaf).
Definition state3 : rb_state unit := mkRb 20
  {[ 10 := mkNode 20 0 0 RB_RED; 20 := mkNode 0 10 30 RB_BLACK; 30 := mkNode 20 0 0 RB_RED ]} tt.

(** [by_holds]: a concrete state holds a concrete tree. *)
Ltac by_holds := split; [done|repeat split|apply (bool_decide_unpack _); by vm_compute
  |apply (bool_decide_unpack _); by vm_compute|done|done].

Lemma state3_holds : holds any no_data state3 tree3.
Proof. by_holds. Qed.

Lemma tree3_rb : rb_tree tree3.
Proof. split; [done|]; exists 1%nat; repeat constructor. Qed.

Lemma rb_verify_exact_witness : exists b, rb_verify 4 state3 = Ok b /\ (b = true <-> rb_tree tree3).
Proof. apply (rb_verify_exact any no_data 4 state3 tree3); [apply state3_holds|simpl; lia]. Defined.

Lemma rb_traversal_order_witness :
  rb_next 4 20 state3 = Ok 30 /\ rb_prev 4 20 state3 = Ok 10 /\
  rb_first 4 state3 = Ok 10 /\ rb_last 4 state3 = Ok 30.
Proof.
  apply (rb_traversal_order any no_data 4 state3 tree3 [10] 20 [30]); [apply state3_holds|simpl; lia|done].
Defined.

(** 5 goes to the left of 10: the colours change on the way up. *)
Lemma rb_insert_balanced_witness :
  exists s1 s' t, rb_link_node 5 10 LinkLeft state3 = Ok s1 /\
    rb_insert_augmented None 4 5 s1 = Ok s' /\ holds any no_data s' t /\ rb_tree t /\
    elems t = [5; 10; 20; 30].
Proof.
  apply (rb_insert_balanced any no_data None 4
    [Fr DL RB_RED 10 Leaf; Fr DL RB_BLACK 20 (Node RB_RED Leaf 30 Leaf)] 5 state3);
    [apply aug_none|apply state3_holds|apply tree3_rb|done| |done|simpl; lia].
  apply (bool_decide_unpack _); by vm_compute.
Defined.

(** The root gives way to 30. *)
Lemma rb_erase_balanced_witness :
  exists s' t, rb_erase_augmented None 4 20 state3 = Ok s' /\ holds any no_data s' t /\ rb_tree t /\
    elems t = [10; 30].
Proof.
  apply (rb_erase_balanced any no_data None 4 [] RB_BLACK (Node RB_RED Leaf 10 Leaf) 20
    (Node RB_RED Leaf 30 Leaf) state3);
    [apply aug_none|apply state3_holds|apply tree3_rb|done|simpl; lia].
Defined.

(** 20 has the children 10 and 30, and 30 the right child 40. *)
Definition state4 : rb_state unit := mkRb 20
  {[ 10 := mkNode 20 0 0 RB_BLACK; 20 := mkNode 0 10 30 RB_BLACK;
     30 := mkNode 20 0 40 RB_BLACK; 40 := mkNode 30 0 0 RB_RED ]} tt.

Lemma rb_erase_dangling_parent_witness :
  exists s', rb_erase 4 20 state4 = Ok s' /\
    right_of s' 30 = Ok 40 /\ parent_of s' 30 = Ok 0 /\ parent_of s' 40 = Ok 20.
Proof.
  apply (rb_erase_dangling_parent any no_data 4 [] RB_BLACK (Node RB_BLACK Leaf 10 Leaf) 20 30 40 state4);
    [by_holds|done|lia].
Defined.
