(* ===== verification/Vma.v ===== *)
(** * Virtual memory areas (mem/vma.c, mem/vma.h)

    The definitions.  An area and its tree node share an address ([vma_from_rb] is the
    identity on addresses); the areas are the data around the nodes of Rbtree.v.  A
    state is the head of the list of areas and the tree.  Addresses and sizes are
    64-bit words with wrapping arithmetic; [kmalloc] is the address it returns, 0 for
    NULL; [kfree] removes the object, so that a later access through a stale pointer
    is a fault. *)

From S2P Require Import Prelude Rbtree.
From stdpp Require Import base tactics option list numbers gmap.
From Stdlib Require Import ZArith Lia.

Local Open Scope Z_scope.

Definition VMA_TYPE_FILE : Z := 2.
Definition PAGE_SIZE : Z := 4096.
Definition PAGE_MASK : Z := PAGE_SIZE - 1.

(** [x & ~mask] on 64 bits. *)
Definition andnot (x mask : Z) : Z := Z.land x (u64 (Z.lnot mask)).

(** [i_mmap_next], the link of the areas that map a file, has no field: vma.c does not
    use it; PageCache.v, which models the list, has its own record of an area. *)
Record vm_area := mkArea {
  a_start : Z; a_end : Z; a_type : Z; a_flags : Z; a_file : Z; a_offset : Z; a_space : Z;
  a_prev : Z; a_next : Z; a_gap : Z;
}.

Abbreviation areas := (gmap Z vm_area).

Definition with_end (a : vm_area) v := mkArea (a_start a) v (a_type a) (a_flags a) (a_file a)
  (a_offset a) (a_space a) (a_prev a) (a_next a) (a_gap a).
Definition with_prev (a : vm_area) v := mkArea (a_start a) (a_end a) (a_type a) (a_flags a) (a_file a)
  (a_offset a) (a_space a) v (a_next a) (a_gap a).
Definition with_next (a : vm_area) v := mkArea (a_start a) (a_end a) (a_type a) (a_flags a) (a_file a)
  (a_offset a) (a_space a) (a_prev a) v (a_gap a).
Definition with_gap (a : vm_area) v := mkArea (a_start a) (a_end a) (a_type a) (a_flags a) (a_file a)
  (a_offset a) (a_space a) (a_prev a) (a_next a) v.
Definition with_file (a : vm_area) f o := mkArea (a_start a) (a_end a) (a_type a) (a_flags a) f
  o (a_space a) (a_prev a) (a_next a) (a_gap a).

Definition area_at (D : areas) (p : Z) : res vm_area :=
  if decide (p = 0) then Fault else of_opt (D !! p).

Definition area_upd (D : areas) (p : Z) (f : vm_area -> vm_area) : res areas :=
  a ← area_at D p; Ok (<[p := f a]> D).

(** [if (p) p->field = v]. *)
Definition area_upd' (D : areas) (p : Z) (f : vm_area -> vm_area) : res areas :=
  if decide (p <> 0) then area_upd D p f else Ok D.

(** ** Gaps *)

Definition max_gap (a b : Z) : Z := if decide (a > b) then a else b.

Definition node_gap_to_next (D : areas) (node : Z) : res Z :=
  if decide (node = 0) then Ok 0
  else
    n ← area_at D node;
    if decide (a_next n = 0) then Ok 0
    else
      x ← area_at D (a_next n);
      Ok (if decide (a_start x > a_end n) then a_start x - a_end n else 0).

(** [p ? vma_from_rb(p)->rb_subtree_max_gap : 0]. *)
Definition subtree_gap (D : areas) (p : Z) : res Z :=
  if decide (p = 0) then Ok 0 else a ← area_at D p; Ok (a_gap a).

Definition update_vma_subtree_gap (rb_node : Z) (H : rb_store) (D : areas) : res areas :=
  if decide (rb_node = 0) then Ok D
  else
    n ← rb_at H rb_node;
    left_gap ← subtree_gap D (rb_left n);
    right_gap ← subtree_gap D (rb_right n);
    self_gap ← node_gap_to_next D rb_node;
    area_upd D rb_node (fun a => with_gap a (max_gap self_gap (max_gap left_gap right_gap))).

Record vma_state := mkVmas { vs_head : Z; vs_rb : rb_state areas }.

Abbreviation vs_areas s := (rb_data (vs_rb s)).
Definition set_areas (s : rb_state areas) (D : areas) : rb_state areas :=
  mkRb (rb_root s) (rb_heap s) D.

Fixpoint propagate_gap_upward (fuel : nat) (node : Z) (s : rb_state areas) : res (rb_state areas) :=
  match fuel with
  | O => NoFuel
  | S fuel =>
      if decide (node = 0) then Ok s
      else
        D ← update_vma_subtree_gap node (rb_heap s) (rb_data s);
        let s := set_areas s D in
        p ← parent_of s node;
        propagate_gap_upward fuel p s
  end.

(** ** Creation *)

(** The new area's address, NULL when the range is empty or [kmalloc] fails. *)
Definition vma_create (kmalloc start vend type flags : Z) (s : rb_state areas)
  : Z * rb_state areas :=
  let aligned_start := andnot start PAGE_MASK in
  let aligned_end := andnot (u64 (vend + PAGE_MASK)) PAGE_MASK in
  if decide (aligned_start >= aligned_end) then (0, s)
  else if decide (kmalloc = 0) then (0, s)
  else
    (kmalloc,
     mkRb (rb_root s) (<[kmalloc := mkNode 0 0 0 RB_RED]> (rb_heap s))
       (<[kmalloc := mkArea aligned_start aligned_end type flags 0 0 0 0 0 0]> (rb_data s))).

Definition vma_destroy (vma : Z) (s : rb_state areas) : rb_state areas :=
  if decide (vma = 0) then s
  else mkRb (rb_root s) (delete vma (rb_heap s)) (delete vma (rb_data s)).

(** ** Lookup *)

Fixpoint find_loop (fuel : nat) (current addr : Z) (s : rb_state areas) : res Z :=
  match fuel with
  | O => NoFuel
  | S fuel =>
      if decide (current = 0) then Ok 0
      else
        vma ← area_at (rb_data s) current;
        if decide (addr >= a_start vma /\ addr < a_end vma) then Ok current
        else if decide (addr < a_start vma) then
          l ← left_of s current; find_loop fuel l addr s
        else r ← right_of s current; find_loop fuel r addr s
  end.

Definition vma_find (fuel : nat) (addr : Z) (s : rb_state areas) : res Z :=
  if decide (rb_root s = 0) then Ok 0 else find_loop fuel (rb_root s) addr s.

Fixpoint gap_loop (fuel : nat) (curr aligned_min max_addr aligned_length align_mask : Z)
    (D : areas) : res Z :=
  match fuel with
  | O => NoFuel
  | S fuel =>
      if decide (curr = 0) then Ok 0
      else
        c ← area_at D curr;
        let candidate := andnot (u64 (a_end c + align_mask)) align_mask in
        gap_end ← (if decide (a_next c <> 0) then n ← area_at D (a_next c); Ok (a_start n)
                   else Ok max_addr);
        let candidate := if decide (candidate < aligned_min) then aligned_min else candidate in
        let gap_end := if decide (gap_end > max_addr) then max_addr else gap_end in
        if decide (gap_end >= candidate /\ gap_end - candidate >= aligned_length) then Ok candidate
        else gap_loop fuel (a_next c) aligned_min max_addr aligned_length align_mask D
  end.

Definition vma_find_unmapped_area (fuel : nat) (min_addr max_addr length alignment : Z)
    (s : rb_state areas) : res Z :=
  if decide (length = 0 \/ min_addr >= max_addr \/ length > max_addr - min_addr) then Ok 0
  else
    let alignment := if decide (alignment < PAGE_SIZE) then PAGE_SIZE else alignment in
    let align_mask := alignment - 1 in
    let aligned_length := andnot (u64 (length + PAGE_MASK)) PAGE_MASK in
    let aligned_min := andnot (u64 (min_addr + align_mask)) align_mask in
    if decide (rb_root s = 0) then
      Ok (if decide (u64 (aligned_min + aligned_length) <= max_addr) then aligned_min else 0)
    else
      curr ← rb_first fuel s;
      if decide (curr = 0) then Ok 0
      else
        c ← area_at (rb_data s) curr;
        if decide (a_start c >= u64 (aligned_min + aligned_length)) then Ok aligned_min
        else gap_loop fuel curr aligned_min max_addr aligned_length align_mask (rb_data s).

(** ** Insertion and removal *)

(** The place of [vma]: the link, its parent and the area before it; [None] on an
    overlap. *)
Fixpoint insert_place (fuel : nat) (vma : vm_area) (link : rb_link) (current parent prev_node : Z)
    (s : rb_state areas) : res (option (rb_link * Z * Z)) :=
  match fuel with
  | O => NoFuel
  | S fuel =>
      if decide (current = 0) then Ok (Some (link, parent, prev_node))
      else
        let parent := current in
        curr ← area_at (rb_data s) parent;
        if decide (~ (a_end vma <= a_start curr \/ a_start vma >= a_end curr)) then Ok None
        else if decide (a_end vma <= a_start curr) then
          l ← left_of s parent; insert_place fuel vma LinkLeft l parent prev_node s
        else
          r ← right_of s parent; insert_place fuel vma LinkRight r parent parent s
  end.

(** The list of areas with [vma] after [prev_node]. *)
Definition vma_list_insert (vma prev_node head : Z) (D : areas) : res (Z * areas) :=
  if decide (prev_node = 0) then
    D ← area_upd D vma (fun a => with_prev a 0);
    D ← area_upd D vma (fun a => with_next a head);
    D ← area_upd' D head (fun a => with_prev a vma);
    Ok (vma, D)
  else
    D ← area_upd D vma (fun a => with_prev a prev_node);
    p ← area_at D prev_node;
    D ← area_upd D vma (fun a => with_next a (a_next p));
    p ← area_at D prev_node;
    D ← area_upd' D (a_next p) (fun a => with_prev a vma);
    D ← area_upd D prev_node (fun a => with_next a vma);
    Ok (head, D).

Definition vma_insert (fuel : nat) (vma : Z) (s : vma_state) : res (bool * vma_state) :=
  if decide (vma = 0) then Ok (false, s)
  else
    let rb := vs_rb s in
    v ← area_at (rb_data rb) vma;
    place ← insert_place fuel v LinkRoot (rb_root rb) 0 0 rb;
    match place with
    | None => Ok (false, s)
    | Some (link, parent, prev_node) =>
        rb ← rb_link_node vma parent link rb;
        '(head, D) ← vma_list_insert vma prev_node (vs_head s) (rb_data rb);
        let rb := set_areas rb D in
        v ← area_at (rb_data rb) vma;
        rb ← (if decide (a_prev v <> 0) then propagate_gap_upward fuel (a_prev v) rb else Ok rb);
        rb ← propagate_gap_upward fuel vma rb;
        rb ← rb_insert_augmented (Some update_vma_subtree_gap) fuel vma rb;
        rb ← propagate_gap_upward fuel vma rb;
        Ok (true, mkVmas head rb)
    end.

Definition vma_remove (fuel : nat) (vma : Z) (s : vma_state) : res (bool * vma_state) :=
  let rb := vs_rb s in
  if decide (vma = 0 \/ rb_root rb = 0) then Ok (false, s)
  else
    v ← area_at (rb_data rb) vma;
    let prev := a_prev v in
    let next := a_next v in
    '(head, D) ← (if decide (prev <> 0) then
                    D ← area_upd (rb_data rb) prev (fun a => with_next a next); Ok (vs_head s, D)
                  else Ok (next, rb_data rb));
    D ← area_upd' D next (fun a => with_prev a prev);
    rb ← rb_erase_augmented (Some update_vma_subtree_gap) fuel vma (set_areas rb D);
    rb ← (if decide (prev <> 0) then propagate_gap_upward fuel prev rb else Ok rb);
    Ok (true, mkVmas head rb).

(** ** Merging and splitting *)

Definition vma_can_merge (first second : Z) (D : areas) : res bool :=
  if decide (first = 0 \/ second = 0) then Ok false
  else
    f ← area_at D first;
    n ← area_at D second;
    if decide (a_end f <> a_start n) then Ok false
    else if decide (a_type f <> a_type n) then Ok false
    else if decide (a_flags f <> a_flags n) then Ok false
    else if decide (a_file f <> a_file n) then Ok false
    else if decide (a_type f = VMA_TYPE_FILE /\
                    u64 (a_offset f + (a_end f - a_start f)) <> a_offset n) then Ok false
    else Ok true.

Definition vma_merge_adjacent (fuel : nat) (prev next : Z) (s : vma_state) : res (Z * vma_state) :=
  if decide (prev = 0 \/ next = 0) then Ok (0, s)
  else
    ok ← vma_can_merge prev next (vs_areas s);
    if negb ok then Ok (0, s)
    else
      n ← area_at (vs_areas s) next;
      D ← area_upd (vs_areas s) prev (fun a => with_end a (a_end n));
      '(_, s) ← vma_remove fuel next (mkVmas (vs_head s) (set_areas (vs_rb s) D));
      let rb := vma_destroy next (vs_rb s) in
      rb ← propagate_gap_upward fuel prev rb;
      Ok (prev, mkVmas (vs_head s) rb).

(** The two halves, when there are two. *)
Definition vma_split (fuel : nat) (kmalloc vma split_addr : Z) (s : vma_state)
  : res (option (Z * Z) * vma_state) :=
  if decide (vma = 0) then Ok (None, s)
  else
    let aligned_split := andnot split_addr PAGE_MASK in
    v ← area_at (vs_areas s) vma;
    if decide (aligned_split <= a_start v \/ aligned_split >= a_end v) then Ok (None, s)
    else
      let '(right_vma, rb) := vma_create kmalloc aligned_split (a_end v) (a_type v) (a_flags v) (vs_rb s) in
      if decide (right_vma = 0) then Ok (None, mkVmas (vs_head s) rb)
      else
        D ← area_upd (rb_data rb) right_vma (fun a => with_file a (a_file v)
               (if decide (a_type v = VMA_TYPE_FILE)
                then u64 (a_offset v + (aligned_split - a_start v)) else a_offset a));
        D ← area_upd D vma (fun a => with_end a aligned_split);
        rb ← propagate_gap_upward fuel vma (set_areas rb D);
        Ok (Some (vma, right_vma), mkVmas (vs_head s) rb).

(** ** Checking *)

Fixpoint check_loop (steps fuel : nat) (node prev : Z) (s : rb_state areas) : res bool :=
  match steps with
  | O => NoFuel
  | S steps =>
      if decide (node = 0) then Ok true
      else
        curr ← area_at (rb_data s) node;
        if decide (a_start curr >= a_end curr) then Ok false
        else
          bad ← (if decide (prev <> 0) then
                   p ← area_at (rb_data s) prev; Ok (bool_decide (a_end p > a_start curr))
                 else Ok false);
          if (bad : bool) then Ok false
          else n ← rb_next fuel node s; check_loop steps fuel n node s
  end.

Definition vma_verify_invariants (fuel : nat) (s : rb_state areas) : res bool :=
  if decide (rb_root s = 0) then Ok true
  else
    ok ← rb_verify fuel s;
    if negb ok then Ok false
    else n ← rb_first fuel s; check_loop fuel fuel n 0 s.
