(* ===== verification/VmaSpec.v ===== *)
(** * Virtual memory areas: the invariant and the tree underneath

    The areas of an address space are sorted and disjoint, linked in that order, and
    the in-order nodes of a red-black tree.  The gap fields follow the tree but
    nothing reads them, so states are compared up to gaps. *)

From S2P Require Import Prelude Rbtree RbtreeSpec RbtreeBalance RbtreeErase RbtreeTheorems Vma.
From stdpp Require Import base tactics option list numbers gmap.
From Stdlib Require Import ZArith Lia.

Local Open Scope Z_scope.

(** ** Up to gaps *)

Definition clear (a : vm_area) : vm_area := with_gap a 0.

Definition same (D D' : areas) : Prop := forall p, clear <$> (D !! p) = clear <$> (D' !! p).

#[export] Instance same_equiv : Equivalence same.
Proof.
  split; [by intros D p|by intros D D' H p|intros D1 D2 D3 H1 H2 p; by rewrite H1].
Qed.

Lemma same_some D D' p a : same D D' -> D !! p = Some a -> exists g, D' !! p = Some (with_gap a g).
Proof.
  intros H E; specialize (H p); rewrite E in H; destruct (D' !! p) as [b|]; simpl in H; [|done].
  exists (a_gap b); destruct a, b; unfold clear, with_gap in *; simpl in *; congruence.
Qed.

Lemma same_gap D p a g : D !! p = Some a -> same D (<[p := with_gap a g]> D).
Proof.
  intros E q; destruct (decide (p = q)) as [->|Hne]; [rewrite lookup_insert_eq, E; by destruct a|].
  by rewrite lookup_insert_ne.
Qed.

Lemma same_is_Some D D' p : same D D' -> is_Some (D !! p) -> is_Some (D' !! p).
Proof. intros H [a E]; destruct (same_some _ _ _ _ H E) as [g ->]; by eexists. Qed.

(** The next area of an area is an area. *)
Definition closed (D : areas) : Prop :=
  forall p a, D !! p = Some a -> a_next a = 0 \/ is_Some (D !! a_next a).

Lemma area_at_some D p a : p <> 0 -> D !! p = Some a -> area_at D p = Ok a.
Proof. intros Hp E; unfold area_at; rewrite decide_False by done; by rewrite E. Qed.

(** What the tree theorems need of the callback. *)
Definition adom (D : areas) (x : Z) : Prop := is_Some (D !! x).

Lemma subtree_gap_ok D p : p = 0 \/ is_Some (D !! p) -> exists g, subtree_gap D p = Ok g.
Proof.
  intros Hp; unfold subtree_gap; case_decide; [by eexists|]; destruct Hp as [?|[a E]]; [done|].
  rewrite (area_at_some _ _ _ ltac:(done) E); by eexists.
Qed.

Lemma update_gap_ok D0 : closed D0 -> aug_ok (adom D0) (same D0) (Some update_vma_subtree_gap).
Proof.
  intros Hc f [= <-] p s t Hh Hp.
  assert (p <> 0) as Hp0 by (intros ->; by apply (h_null _ _ _ _ Hh)).
  destruct (focus_node t p Hp) as (k & c & l & r & ->).
  destruct (holds_node _ _ s DL k c l p r Hh) as (_ & E & _).
  destruct (h_dom _ _ _ _ Hh p Hp) as [a0 E0]; pose proof (h_data _ _ _ _ Hh) as Hs.
  assert (forall q, q ∈ elems l \/ q ∈ elems r -> is_Some (rb_data s !! q)) as Hlr.
  { intros q Hq; eapply same_is_Some; [exact Hs|]; apply (h_dom _ _ _ _ Hh), elem_of_plug; right.
    simpl; set_solver. }
  unfold update_vma_subtree_gap; rewrite decide_False, (rb_at_some _ _ _ Hp0 E) by done; mstep.
  cbn [nd rb_left rb_right].
  destruct (subtree_gap_ok (rb_data s) (tref l)) as [gl ->]; [destruct (tref_elems l); auto|]; mstep.
  destruct (subtree_gap_ok (rb_data s) (tref r)) as [gr ->]; [destruct (tref_elems r); auto|]; mstep.
  destruct (same_some _ _ _ _ Hs E0) as [g E1].
  assert (exists gs, node_gap_to_next (rb_data s) p = Ok gs) as [gs ->].
  { unfold node_gap_to_next; rewrite decide_False, (area_at_some _ _ _ Hp0 E1) by done; mstep.
    cbn [with_gap a_next]; case_decide as Hn; [by eexists|].
    destruct (Hc p a0 E0) as [?|Hnx]; [done|]; destruct (same_is_Some _ _ _ Hs Hnx) as [b Eb].
    rewrite (area_at_some _ _ _ Hn Eb); by eexists. }
  mstep; unfold area_upd; rewrite (area_at_some _ _ _ Hp0 E1); mstep; eexists; split; [done|].
  etrans; [exact Hs|]; by apply same_gap.
Qed.

(** [propagate_gap_upward] is the walk of [rb_erase_augmented]. *)
Lemma propagate_augment fuel p s :
  propagate_gap_upward fuel p s = augment_up (Some update_vma_subtree_gap) fuel p s.
Proof.
  revert p s; induction fuel as [|fuel IH]; intros p s; [done|]; simpl.
  case_decide; [done|]; destruct (update_vma_subtree_gap p (rb_heap s) (rb_data s)) as [D| |]; mstep; [|done|done].
  unfold set_areas; destruct (parent_of _ p); mstep; [by rewrite IH|done|done].
Qed.

Lemma propagate_ok D0 fuel k u s :
  closed D0 -> (length k < fuel)%nat -> holds (adom D0) (same D0) s (plug k u) ->
  exists s', propagate_gap_upward fuel (kpar k) s = Ok s' /\ holds (adom D0) (same D0) s' (plug k u).
Proof.
  intros Hc Hf Hh; rewrite propagate_augment; by apply (augment_up_ok _ _ _ (update_gap_ok D0 Hc)).
Qed.

(** ** Order *)

(** [ordered D lo l hi]: the areas of [l] are not empty, and lie one after the other
    between [lo] and [hi]. *)
Fixpoint ordered (D : areas) (lo : Z) (l : list Z) (hi : Z) : Prop :=
  match l with
  | [] => lo <= hi
  | x :: l => exists a, D !! x = Some a /\ lo <= a_start a < a_end a /\ ordered D (a_end a) l hi
  end.

Lemma ordered_app D lo l1 x l2 hi :
  ordered D lo (l1 ++ x :: l2) hi <->
  exists a, D !! x = Some a /\ ordered D lo l1 (a_start a) /\ a_start a < a_end a /\ ordered D (a_end a) l2 hi.
Proof.
  revert lo; induction l1 as [|y l1 IH]; intros lo; simpl.
  - split; intros (a & E & H); exists a; (split; [done|]); split_and!; try lia; tauto.
  - setoid_rewrite IH; split.
    + intros (b & Eb & Hb & a & E & H1 & H2 & H3); exists a; split; [done|]; split; [|done]; by exists b.
    + intros (a & E & (b & Eb & Hb & H1) & H2 & H3); exists b; split; [done|]; split; [done|]; by exists a.
Qed.

Lemma ordered_le D lo l hi : ordered D lo l hi -> lo <= hi.
Proof.
  revert lo; induction l as [|x l IH]; intros lo; simpl; [done|].
  intros (a & _ & H & Ho); apply IH in Ho; lia.
Qed.

Lemma ordered_bounds D lo l hi x a :
  ordered D lo l hi -> x ∈ l -> D !! x = Some a -> lo <= a_start a < a_end a /\ a_end a <= hi.
Proof.
  intros Ho Hx E; apply list_elem_of_split in Hx as (l1 & l2 & ->).
  apply ordered_app in Ho as (b & Eb & H1 & H2 & H3); simplify_eq.
  apply ordered_le in H1, H3; lia.
Qed.

Lemma ordered_weaken D lo lo' l hi hi' : ordered D lo l hi -> lo' <= lo -> hi <= hi' -> ordered D lo' l hi'.
Proof.
  revert lo lo'; induction l as [|x l IH]; intros lo lo'; simpl; [lia|].
  intros (a & E & H & Ho) ? ?; exists a; split; [done|]; split; [lia|]; eapply IH; [done|lia|done].
Qed.

(** The intervals alone matter. *)
Definition ival (D : areas) (x : Z) : option (Z * Z) := (fun a => (a_start a, a_end a)) <$> D !! x.

Lemma ordered_ext D D' lo l hi :
  (forall x, x ∈ l -> ival D' x = ival D x) -> ordered D lo l hi -> ordered D' lo l hi.
Proof.
  revert lo; induction l as [|x l IH]; intros lo Hx; simpl; [done|]; intros (a & E & H & Ho).
  pose proof (Hx x ltac:(set_solver)) as Ei; unfold ival in Ei; rewrite E in Ei; simpl in Ei.
  destruct (D' !! x) as [b|] eqn:Eb; simpl in Ei; [|done]; injection Ei as E1 E2.
  exists b; rewrite E1, E2; split; [done|]; split; [done|]; apply IH; [|done]; intros; apply Hx; set_solver.
Qed.

Lemma same_ival D D' x : same D D' -> ival D' x = ival D x.
Proof.
  intros H; unfold ival; specialize (H x); destruct (D !! x) as [a|], (D' !! x) as [b|]; simpl in *; try done.
  destruct a, b; unfold clear, with_gap in H; simpl in *; congruence.
Qed.

(** ** The list of areas *)

(** The areas of [l] are chained, from [prev] on one side to [next] on the other. *)
Fixpoint linked (D : areas) (prev : Z) (l : list Z) (next : Z) : Prop :=
  match l with
  | [] => True
  | x :: l => exists a, D !! x = Some a /\ a_prev a = prev /\ a_next a = hd next l /\ linked D x l next
  end.

Lemma linked_app D p l1 l2 n :
  linked D p (l1 ++ l2) n <-> linked D p l1 (hd n l2) /\ linked D (hd p (reverse l1)) l2 n.
Proof.
  revert p; induction l1 as [|x l1 IH]; intros p; simpl; [tauto|].
  assert (hd n (l1 ++ l2) = hd (hd n l2) l1) as -> by (by destruct l1).
  assert (hd p (reverse (x :: l1)) = hd x (reverse l1)) as ->.
  { rewrite reverse_cons; by destruct (reverse l1). }
  setoid_rewrite IH; split; [intros (a & ? & ? & ? & ? & ?)|intros [(a & ? & ? & ? & ?) ?]]; naive_solver.
Qed.

(** Links alone matter. *)
Definition lnk (D : areas) (x : Z) : option (Z * Z) := (fun a => (a_prev a, a_next a)) <$> D !! x.

Lemma linked_ext D D' p l n :
  (forall x, x ∈ l -> lnk D' x = lnk D x) -> linked D p l n -> linked D' p l n.
Proof.
  revert p; induction l as [|x l IH]; intros p Hx; simpl; [done|]; intros (a & E & H1 & H2 & Hl).
  pose proof (Hx x ltac:(set_solver)) as Ei; unfold lnk in Ei; rewrite E in Ei; simpl in Ei.
  destruct (D' !! x) as [b|] eqn:Eb; simpl in Ei; [|done]; injection Ei as E1 E2.
  exists b; rewrite E1, E2; split_and!; try done; apply IH; [|done]; intros; apply Hx; set_solver.
Qed.

Lemma same_lnk D D' x : same D D' -> lnk D' x = lnk D x.
Proof.
  intros H; unfold lnk; specialize (H x); destruct (D !! x) as [a|], (D' !! x) as [b|]; simpl in *; try done.
  destruct a, b; unfold clear, with_gap in H; simpl in *; congruence.
Qed.

(** ** The invariant *)

Record vmas_ok (s : vma_state) (t : tree) : Prop := {
  vo_holds : holds (adom (vs_areas s)) (same (vs_areas s)) (vs_rb s) t;
  vo_rb : rb_tree t;
  vo_closed : closed (vs_areas s);
  vo_head : vs_head s = hd 0 (elems t);
  vo_linked : linked (vs_areas s) 0 (elems t) 0;
  vo_ordered : ordered (vs_areas s) 0 (elems t) (2 ^ 64 - 1);
}.

(** ** Lookup *)

Definition contains (D : areas) (addr x : Z) : Prop :=
  exists a, D !! x = Some a /\ a_start a <= addr < a_end a.

Lemma find_loop_ok fuel addr u par lo hi s :
  shape (rb_heap s) par u -> 0 ∉ elems u -> ordered (rb_data s) lo (elems u) hi ->
  (length (elems u) < fuel)%nat ->
  exists r, find_loop fuel (tref u) addr s = Ok r /\
    (r ∈ elems u /\ contains (rb_data s) addr r \/
     r = 0 /\ forall x, x ∈ elems u -> ~ contains (rb_data s) addr x).
Proof.
  revert fuel par lo hi; induction u as [|c l IHl x r IHr]; intros fuel par lo hi Hs H0 Ho Hf;
    (destruct fuel as [|fuel]; [lia|]); cbn [find_loop tref].
  { exists 0; split; [done|]; right; split; [done|by intros x ?%elem_of_nil]. }
  destruct Hs as (E & Sl & Sr); simpl in H0, Ho, Hf; rewrite length_app in Hf; simpl in Hf.
  assert (x <> 0 /\ 0 ∉ elems l /\ 0 ∉ elems r) as (Hx & Hl0 & Hr0) by set_solver.
  apply ordered_app in Ho as (a & Ea & Ol & Hse & Or).
  rewrite decide_False, (area_at_some _ _ _ Hx Ea) by done; mstep.
  assert (forall y, y ∈ elems l -> contains (rb_data s) addr y -> addr < a_start a) as Hl.
  { intros y Hy (b & Eb & Hb); destruct (ordered_bounds _ _ _ _ _ _ Ol Hy Eb); lia. }
  assert (forall y, y ∈ elems r -> contains (rb_data s) addr y -> a_end a <= addr) as Hr.
  { intros y Hy (b & Eb & Hb); destruct (ordered_bounds _ _ _ _ _ _ Or Hy Eb); lia. }
  case_decide as Hin; [|case_decide as Hlt].
  - exists x; split; [done|]; left; split; [simpl; set_solver|]; exists a; split; [done|lia].
  - rewrite (left_of_some _ _ _ Hx E); mstep; cbn [rb_left].
    destruct (IHl fuel x lo (a_start a)) as (z & -> & Hz); [done|done|done|lia|].
    exists z; split; [done|]; destruct Hz as [[Hz Hc]|[-> Hn]]; [left; split; [simpl; set_solver|done]|right].
    split; [done|]; intros y Hy Hc; simpl in Hy; apply elem_of_app in Hy as [Hy|Hy]; [by apply (Hn y)|].
    apply elem_of_cons in Hy as [->|Hy]; [destruct Hc as (b & Eb & Hb); simplify_eq; lia|].
    specialize (Hr y Hy Hc); lia.
  - rewrite (right_of_some _ _ _ Hx E); mstep; cbn [rb_right].
    destruct (IHr fuel x (a_end a) hi) as (z & -> & Hz); [done|done|done|lia|].
    exists z; split; [done|]; destruct Hz as [[Hz Hc]|[-> Hn]]; [left; split; [simpl; set_solver|done]|right].
    split; [done|]; intros y Hy Hc; simpl in Hy; apply elem_of_app in Hy as [Hy|Hy].
    { specialize (Hl y Hy Hc); lia. }
    apply elem_of_cons in Hy as [->|Hy]; [destruct Hc as (b & Eb & Hb); simplify_eq; lia|by apply (Hn y)].
Qed.

(** lookup is exact.  In an address space in order, [vma_find] returns the area
    that contains the address, and NULL exactly when none does. *)
Theorem vma_find_exact fuel addr s t :
  vmas_ok s t -> (length (elems t) < fuel)%nat ->
  exists r, vma_find fuel addr (vs_rb s) = Ok r /\
    forall x, x ∈ elems t -> contains (vs_areas s) addr x <-> r = x.
Proof.
  intros Hok Hf; pose proof (vo_holds _ _ Hok) as Hh; unfold vma_find; rewrite (h_root _ _ _ _ Hh).
  assert (exists r, (if decide (tref t = 0) then Ok 0 else find_loop fuel (tref t) addr (vs_rb s)) = Ok r /\
    (r ∈ elems t /\ contains (vs_areas s) addr r \/
     r = 0 /\ forall x, x ∈ elems t -> ~ contains (vs_areas s) addr x)) as (r & -> & Hr).
  { case_decide as E.
    - destruct t as [|c l x r]; [exists 0; split; [done|right; split; [done|by intros ? ?%elem_of_nil]]|].
      by destruct (holds_node _ _ _ DL [] c l x r Hh) as (? & _).
    - eapply find_loop_ok; [apply Hh|apply Hh|apply Hok|done]. }
  exists r; split; [done|]; intros x Hx; destruct Hr as [[Hr Hc]|[-> Hn]].
  - split; [|by intros <-]; intros Hcx; destruct (decide (r = x)) as [?|Hne]; [done|exfalso].
    destruct Hc as (a & Ea & Ha), Hcx as (b & Eb & Hb).
    apply list_elem_of_split in Hr as (l1 & l2 & El); pose proof (vo_ordered _ _ Hok) as Ho.
    rewrite El in Ho, Hx; apply ordered_app in Ho as (a' & Ea' & O1 & _ & O2); simplify_eq.
    apply elem_of_app in Hx as [Hx|Hx]; [destruct (ordered_bounds _ _ _ _ _ _ O1 Hx Eb); lia|].
    apply elem_of_cons in Hx as [?|Hx]; [done|destruct (ordered_bounds _ _ _ _ _ _ O2 Hx Eb); lia].
  - split; [intros Hc; by destruct (Hn x Hx)|intros <-; by destruct (h_null _ _ _ _ Hh)].
Qed.
