(* ===== verification/VmaInsert.v ===== *)
(** * Virtual memory areas: insertion and removal

    [vma_insert] finds the one place where the new area fits, or an area it overlaps;
    [vma_remove] takes an area out.  Both keep the invariant of VmaSpec.v. *)

From S2P Require Import Prelude Rbtree RbtreeSpec RbtreeBalance RbtreeErase RbtreeTheorems Vma VmaSpec.
From stdpp Require Import base tactics option list numbers gmap.
From Stdlib Require Import ZArith Lia.

Local Open Scope Z_scope.

(** ** The place of an area *)

Definition below (D : areas) (l : list Z) (v : Z) : Prop :=
  forall x a, x ∈ l -> D !! x = Some a -> a_end a <= v.
Definition above (D : areas) (l : list Z) (v : Z) : Prop :=
  forall x a, x ∈ l -> D !! x = Some a -> v <= a_start a.

Definition overlaps (D : areas) (v : vm_area) (x : Z) : Prop :=
  exists a, D !! x = Some a /\ a_start a < a_end v /\ a_start v < a_end a.

Lemma insert_place_ok fuel v k u lo hi s :
  a_start v < a_end v ->
  shape (rb_heap s) (kpar k) u -> 0 ∉ elems u -> ordered (rb_data s) lo (elems u) hi ->
  (length (elems u) < fuel)%nat ->
  below (rb_data s) (kleft k) (a_start v) -> above (rb_data s) (kright k) (a_end v) ->
  exists o, insert_place fuel v (link_of k) (tref u) (kpar k) (hd 0 (reverse (kleft k))) s = Ok o /\
    match o with
    | None => exists x, x ∈ elems u /\ overlaps (rb_data s) v x
    | Some (link, parent, prev) => exists k', plug k' Leaf = plug k u /\
        link = link_of k' /\ parent = kpar k' /\ prev = hd 0 (reverse (kleft k')) /\
        below (rb_data s) (kleft k') (a_start v) /\ above (rb_data s) (kright k') (a_end v)
    end.
Proof.
  intros Hv; revert fuel k lo hi; induction u as [|c l IHl x r IHr]; intros fuel k lo hi Hs H0 Ho Hf Hb Ha;
    (destruct fuel as [|fuel]; [lia|]); cbn [insert_place tref].
  { rewrite decide_True by done; eexists; split; [done|]; by exists k. }
  destruct Hs as (E & Sl & Sr); simpl in H0, Ho, Hf; rewrite length_app in Hf; simpl in Hf.
  assert (x <> 0 /\ 0 ∉ elems l /\ 0 ∉ elems r) as (Hx & Hl0 & Hr0) by set_solver.
  apply ordered_app in Ho as (a & Ea & Ol & Hse & Or).
  rewrite decide_False, (area_at_some _ _ _ Hx Ea) by done; mstep.
  case_decide as Hov; [|case_decide as Hlt].
  - exists None; split; [done|]; exists x; split; [simpl; set_solver|]; exists a; split; [done|lia].
  - rewrite (left_of_some _ _ _ Hx E); mstep; cbn [rb_left].
    destruct (IHl fuel (Fr DL c x r :: k) lo (a_start a)) as (o & Eo & Hpost); [done|done|done|lia|by simpl; rewrite app_nil_r| |].
    { intros y b Hy Eb; simpl in Hy; apply elem_of_cons in Hy as [->|Hy]; [simplify_eq; lia|].
      apply elem_of_app in Hy as [Hy|Hy]; [destruct (ordered_bounds _ _ _ _ _ _ Or Hy Eb); lia|by eapply Ha]. }
    simpl in Eo; rewrite app_nil_r in Eo; rewrite Eo; exists o; split; [done|].
    destruct o as [[[lk par] prev]|]; [exact Hpost|]; destruct Hpost as (y & Hy & ?); exists y; split; [simpl; set_solver|done].
  - rewrite (right_of_some _ _ _ Hx E); mstep; cbn [rb_right].
    destruct (IHr fuel (Fr DR c x l :: k) (a_end a) hi) as (o & Eo & Hpost); [done|done|done|lia| |done|].
    { intros y b Hy Eb; simpl in Hy; apply elem_of_app in Hy as [Hy|Hy]; [by eapply Hb|].
      apply elem_of_app in Hy as [Hy|Hy]; [destruct (ordered_bounds _ _ _ _ _ _ Ol Hy Eb); lia|].
      apply list_elem_of_singleton in Hy as ->; simplify_eq; lia. }
    simpl in Eo; rewrite !reverse_app in Eo; simpl in Eo; rewrite Eo; exists o; split; [done|].
    destruct o as [[[lk par] prev]|]; [exact Hpost|]; destruct Hpost as (y & Hy & ?); exists y; split; [simpl; set_solver|done].
Qed.

(** ** The list *)

(** Stores that differ in links and gaps only. *)
Definition core (a : vm_area) : vm_area := with_gap (with_next (with_prev a 0) 0) 0.
Definition same_core (D D' : areas) : Prop := forall p, core <$> (D !! p) = core <$> (D' !! p).

#[export] Instance same_area_core_equiv : Equivalence same_core.
Proof.
  split; [by intros D p|by intros D D' H p|intros D1 D2 D3 H1 H2 p; by rewrite H1].
Qed.

Lemma same_core_insert D p a b : D !! p = Some a -> core b = core a -> same_core D (<[p := b]> D).
Proof.
  intros E Hc q; destruct (decide (p = q)) as [->|Hne]; [rewrite lookup_insert_eq, E; simpl; by rewrite Hc|].
  by rewrite lookup_insert_ne.
Qed.

Lemma same_same_core D D' : same D D' -> same_core D D'.
Proof.
  intros H p; specialize (H p); destruct (D !! p) as [a|], (D' !! p) as [b|]; simpl in *; try done.
  destruct a, b; unfold clear, core, with_gap, with_next, with_prev in *; simpl in *; congruence.
Qed.

Lemma same_core_ival D D' x : same_core D D' -> ival D' x = ival D x.
Proof.
  intros H; unfold ival; specialize (H x); destruct (D !! x) as [a|], (D' !! x) as [b|]; simpl in *; try done.
  destruct a, b; unfold core, with_gap, with_next, with_prev in H; simpl in *; congruence.
Qed.

Lemma same_core_is_Some D D' x : same_core D D' -> is_Some (D !! x) <-> is_Some (D' !! x).
Proof.
  intros H; specialize (H x); destruct (D !! x), (D' !! x); simpl in H; try done; split; by eauto.
Qed.

(** [lka] finds an area in a store with changed entries. *)
Ltac lka := repeat first [rewrite lookup_insert_eq | rewrite lookup_insert_ne by congruence]; try eassumption; try reflexivity.

Lemma lnk_insert_ne D p a x : x <> p -> lnk (<[p := a]> D) x = lnk D x.
Proof. intros; unfold lnk; by rewrite lookup_insert_ne. Qed.

Lemma area_upd_some D p a f : p <> 0 -> D !! p = Some a -> area_upd D p f = Ok (<[p := f a]> D).
Proof. intros Hp E; unfold area_upd; by rewrite (area_at_some _ _ _ Hp E). Qed.

(** The first area of a chain gets another predecessor. *)
Lemma linked_reprev D p p' l n :
  NoDup l -> 0 ∉ l -> linked D p l n ->
  exists D', area_upd' D (hd 0 l) (fun a => with_prev a p') = Ok D' /\ linked D' p' l n /\
    same_core D D' /\ (forall x, x ∉ l -> D' !! x = D !! x).
Proof.
  intros Hn H0 Hl; unfold area_upd'; destruct l as [|x l]; [by exists D|].
  destruct Hl as (a & E & Hp & Hx & Hl); apply NoDup_cons in Hn as [Hxl Hn]; simpl hd.
  assert (x <> 0) as Hx0 by set_solver.
  rewrite decide_True, (area_upd_some _ _ _ _ Hx0 E) by done; eexists; split; [done|].
  split; [|split; [by eapply same_core_insert|intros y Hy; apply lookup_insert_ne; set_solver]].
  eexists; split; [apply lookup_insert_eq|]; split; [done|]; split; [done|].
  eapply linked_ext; [|exact Hl]; intros y Hy; apply lnk_insert_ne; congruence.
Qed.

Lemma vma_list_insert_ok D vma v l1 l2 :
  linked D 0 (l1 ++ l2) 0 -> NoDup (l1 ++ l2) -> 0 ∉ l1 ++ l2 -> vma ∉ l1 ++ l2 -> vma <> 0 ->
  D !! vma = Some v ->
  exists D', vma_list_insert vma (hd 0 (reverse l1)) (hd 0 (l1 ++ l2)) D = Ok (hd 0 (l1 ++ vma :: l2), D') /\
    linked D' 0 (l1 ++ vma :: l2) 0 /\ same_core D D' /\
    (forall x, x ∉ l1 ++ vma :: l2 -> D' !! x = D !! x).
Proof.
  intros Hl Hn H0 Hv Hv0 Ev; unfold vma_list_insert.
  destruct (decide (l1 = [])) as [->|Hl1].
  - rewrite reverse_nil; cbn [app hd] in *; rewrite decide_True by done.
    rewrite (area_upd_some _ _ _ _ Hv0 Ev); mstep.
    rewrite (area_upd_some _ _ (with_prev v 0)) by (done || lka); mstep; rewrite insert_insert_eq.
    set (D1 := <[vma := _]> D).
    assert (linked D1 0 l2 0) as Hl1 by (eapply linked_ext; [|exact Hl]; intros y Hy; apply lnk_insert_ne; congruence).
    destruct (linked_reprev D1 0 vma l2 0 Hn H0 Hl1) as (D2 & -> & Hl2 & Hc & Hout); mstep.
    eexists; split; [done|]; split; [|split].
    + eexists; split; [rewrite Hout by done; apply lookup_insert_eq|done].
    + etrans; [|exact Hc]; by eapply same_core_insert.
    + intros x Hx; rewrite Hout by set_solver; apply lookup_insert_ne; set_solver.
  - destruct (exists_last Hl1) as (l & q & ->); rewrite <- app_assoc in *; simpl in *.
    rewrite reverse_app; simpl hd.
    assert (q <> 0 /\ q <> vma) as [Hq0 Hqv] by set_solver.
    apply linked_app in Hl as [Hll (aq & Eq & Hpq & Hnq & Hl2)]; simpl in Hll.
    apply NoDup_app in Hn as (Nl & Hlq & Nq); apply NoDup_cons in Nq as [Hq2 N2].
    rewrite decide_False by done.
    rewrite (area_upd_some _ _ _ _ Hv0 Ev); mstep.
    rewrite (area_at_some _ q aq) by (done || lka); mstep.
    rewrite (area_upd_some _ _ (with_prev v q)) by (done || lka); mstep; rewrite insert_insert_eq.
    rewrite (area_at_some _ q aq) by (done || lka); mstep; rewrite Hnq.
    set (D1 := <[vma := _]> D).
    assert (linked D1 q l2 0) as Hl1' by (eapply linked_ext; [|exact Hl2]; intros y Hy; apply lnk_insert_ne; set_solver).
    destruct (linked_reprev D1 q vma l2 0 N2 ltac:(set_solver) Hl1') as (D2 & -> & Hl2' & Hc & Hout); mstep.
    assert (D2 !! q = Some aq) as Eq2 by (rewrite Hout by done; unfold D1; lka).
    rewrite (area_upd_some _ _ _ _ Hq0 Eq2); mstep.
    eexists; split; [by destruct l|]; split; [|split].
    + rewrite <- app_assoc; apply linked_app; simpl; split; [|eexists; split; [apply lookup_insert_eq|split; [done|split; [done|]]]].
      * eapply linked_ext; [|exact Hll]; intros y Hy; rewrite lnk_insert_ne by set_solver.
        unfold lnk; rewrite Hout by set_solver; unfold D1; by rewrite lookup_insert_ne by set_solver.
      * eexists; split; [rewrite lookup_insert_ne by done; rewrite Hout by set_solver; apply lookup_insert_eq|].
        split; [done|]; split; [done|]; eapply linked_ext; [|exact Hl2']; intros y Hy; apply lnk_insert_ne; set_solver.
    + transitivity D1; [by eapply same_core_insert|]; etrans; [exact Hc|]; by eapply same_core_insert.
    + intros x Hx; rewrite lookup_insert_ne, Hout by set_solver; apply lookup_insert_ne; set_solver.
Qed.

(** ** Small facts on the way *)

Lemma holds_data ad (ai : areas -> Prop) ad' ai' s t D :
  holds ad ai s t -> (forall x, x ∈ elems t -> ad' x) -> ai' D -> holds ad' ai' (set_areas s D) t.
Proof. intros [] ? ?; by split. Qed.

(** The invariant may be read from the data as they are now. *)
Lemma holds_same D s t :
  holds (adom D) (same D) s t -> holds (adom (rb_data s)) (same (rb_data s)) s t.
Proof.
  intros Hh; pose proof (h_data _ _ _ _ Hh) as Hs; destruct Hh as [? ? ? ? Hd ?]; split; try done.
  intros x Hx; eapply same_is_Some; [exact Hs|by apply Hd].
Qed.

Lemma propagate_node D fuel p s t :
  closed D -> (length (elems t) < fuel)%nat -> holds (adom D) (same D) s t -> p ∈ elems t ->
  exists s', propagate_gap_upward fuel p s = Ok s' /\ holds (adom D) (same D) s' t.
Proof.
  intros Hc Hf Hh Hp; destruct (focus_node t p Hp) as (k & c & l & r & ->).
  apply (propagate_ok D fuel (Fr DL c p r :: k) l s Hc); [|done].
  pose proof (length_ctx k (Node c l p r)) as Hk; simpl in Hk |- *; rewrite length_app in Hk; simpl in Hk; lia.
Qed.

Lemma closed_linked D l :
  (forall p a, p ∉ l -> D !! p = Some a -> a_next a = 0 \/ is_Some (D !! a_next a)) ->
  linked D 0 l 0 -> closed D.
Proof.
  intros Hout Hl p a E; destruct (decide (p ∈ l)) as [Hp|Hp]; [|by eapply Hout].
  apply list_elem_of_split in Hp as (l1 & l2 & ->); apply linked_app in Hl as [_ (b & Eb & _ & Hn & Hl2)].
  simplify_eq; rewrite Hn; destruct l2 as [|y l2]; [by left|right].
  destruct Hl2 as (c & Ec & _); by eexists.
Qed.

Lemma same_closed D D' : same D D' -> closed D -> closed D'.
Proof.
  intros Hs Hc p a E; assert (same D' D) as Hs' by (by symmetry).
  destruct (same_some _ _ _ _ Hs' E) as [g Eg]; destruct (Hc _ _ Eg) as [?|Hn]; [by left|right].
  by eapply same_is_Some.
Qed.

Lemma ordered_insert D lo l1 x a l2 hi :
  D !! x = Some a -> lo <= a_start a < a_end a -> a_end a <= hi ->
  below D l1 (a_start a) -> above D l2 (a_end a) -> ordered D lo (l1 ++ l2) hi ->
  ordered D lo (l1 ++ x :: l2) hi.
Proof.
  intros E Hs He Hb Ha Ho; apply ordered_app; exists a; split; [done|].
  assert (ordered D lo l1 (a_start a) /\ ordered D (a_end a) l2 hi) as [H1 H2]; [|tauto].
  revert lo Hs Hb Ho; induction l1 as [|y l1 IH]; intros lo Hs Hb Ho; simpl in *.
  - split; [lia|]; destruct l2 as [|z l2]; simpl in *; [lia|]; destruct Ho as (b & Eb & Hb' & Ho).
    exists b; split; [done|]; split; [|done]; split; [apply (Ha z b); [set_solver|done]|lia].
  - destruct Ho as (b & Eb & Hb' & Ho); pose proof (Hb y b ltac:(set_solver) Eb) as Hby.
    destruct (IH (a_end b)) as [H1 H2]; [lia|intros z d Hz; apply (Hb z d); set_solver|done|].
    split; [by exists b|done].
Qed.

(** ** Insertion *)

(** The part of [vma_insert] after the place is found. *)
Lemma insert_at_ok fuel vma v k s :
  vmas_ok s (plug k Leaf) -> (S (length (elems (plug k Leaf))) < fuel)%nat ->
  vma <> 0 -> vma ∉ elems (plug k Leaf) -> vs_areas s !! vma = Some v ->
  0 <= a_start v < a_end v -> a_end v < 2 ^ 64 ->
  below (vs_areas s) (kleft k) (a_start v) -> above (vs_areas s) (kright k) (a_end v) ->
  exists s' t', (rb ← rb_link_node vma (kpar k) (link_of k) (vs_rb s);
    '(head, D) ← vma_list_insert vma (hd 0 (reverse (kleft k))) (vs_head s) (rb_data rb);
    let rb := set_areas rb D in
    v ← area_at (rb_data rb) vma;
    rb ← (if decide (a_prev v <> 0) then propagate_gap_upward fuel (a_prev v) rb else Ok rb);
    rb ← propagate_gap_upward fuel vma rb;
    rb ← rb_insert_augmented (Some update_vma_subtree_gap) fuel vma rb;
    rb ← propagate_gap_upward fuel vma rb;
    Ok (true, mkVmas head rb)) = Ok (true, s') /\
    vmas_ok s' t' /\ elems t' = kleft k ++ vma :: kright k /\ same_core (vs_areas s) (vs_areas s').
Proof.
  intros Hok Hf Hv0 Hvin Ev Hse He Hb Ha; pose proof Hok as [Hh Hrb Hcl Hhd Hlk Hord].
  assert (elems (plug k Leaf) = kleft k ++ kright k) as Et by (by rewrite elems_plug).
  destruct (link_node_ok (adom (vs_areas s)) (same (vs_areas s)) (vs_rb s) k vma) as (rb1 & -> & Ed & H1);
    [done|done|done|by eexists|]; mstep; rewrite Ed.
  pose proof (h_nodup _ _ _ _ Hh) as Hnd; pose proof (h_null _ _ _ _ Hh) as H0; rewrite Et in *.
  destruct (vma_list_insert_ok (vs_areas s) vma v (kleft k) (kright k)) as (D & El & Hlk' & Hc & Hout); [done..|].
  rewrite Hhd, El; mstep; set (T := plug k (Node RB_RED Leaf vma Leaf)) in *.
  assert (elems T = kleft k ++ vma :: kright k) as ET by (unfold T; by rewrite elems_plug).
  assert (closed D) as HclD.
  { eapply closed_linked; [|exact Hlk']; intros p a Hp Ep; rewrite Hout in Ep by done.
    destruct (Hcl _ _ Ep) as [?|Hn]; [by left|right]; by apply (same_core_is_Some _ _ _ Hc). }
  assert (holds (adom D) (same D) (set_areas rb1 D) T) as H2.
  { eapply holds_data; [exact H1| |reflexivity]; intros x Hx; apply (same_core_is_Some _ _ _ Hc).
    by apply (h_dom _ _ _ _ H1). }
  assert (length (elems T) < fuel)%nat as HfT
    by (rewrite ET; rewrite length_app in *; simpl in *; lia).
  pose proof Hlk' as [_ (v' & Ev' & Hpv & _ & _)]%linked_app; cbn [set_areas rb_data].
  rewrite (area_at_some _ _ _ Hv0 Ev'); mstep; rewrite Hpv.
  assert (exists rb2, (if decide (hd 0 (reverse (kleft k)) <> 0)
      then propagate_gap_upward fuel (hd 0 (reverse (kleft k))) (set_areas rb1 D)
      else Ok (set_areas rb1 D)) = Ok rb2 /\ holds (adom D) (same D) rb2 T) as (rb2 & -> & H3).
  { case_decide as Hp; [|by eexists]; apply (propagate_node D); [done..|]; rewrite ET.
    destruct (reverse (kleft k)) as [|q l] eqn:Er; [done|]; apply elem_of_app; left.
    apply elem_of_reverse; rewrite Er; simpl; set_solver. }
  mstep; destruct (propagate_node D fuel vma rb2 T) as (rb3 & -> & H4); [done..|rewrite ET; set_solver|]; mstep.
  pose proof (length_ctx k Leaf) as Hlen; simpl in Hlen; rewrite Et in Hlen.
  destruct (rb_insert_ok _ _ _ (update_gap_ok D HclD) fuel k vma rb3) as (rb4 & t' & -> & H5 & Hrb' & Et');
    [lia|done|done|]; mstep.
  destruct (propagate_node D fuel vma rb4 t') as (rb5 & -> & H6);
    [done|by rewrite Et', <- ET|done|rewrite Et'; set_solver|]; mstep.
  eexists _, t'; split; [done|]; pose proof (h_data _ _ _ _ H6) as Hs6.
  split; [|split; [done|simpl; etrans; [exact Hc|by apply same_same_core]]].
  split; simpl.
  - by apply (holds_same D).
  - done.
  - by eapply same_closed.
  - by rewrite Et'.
  - rewrite Et'; eapply linked_ext; [|exact Hlk']; intros; by apply same_lnk.
  - rewrite Et'; apply (ordered_ext (vs_areas s)).
    + intros x _; rewrite (same_ival D) by done; by apply same_core_ival.
    + eapply ordered_insert; (done || lia).
Qed.

Lemma insert_ordered fuel vma v s t :
  vmas_ok s t -> (S (length (elems t)) < fuel)%nat -> vma <> 0 -> vma ∉ elems t ->
  vs_areas s !! vma = Some v -> 0 <= a_start v < a_end v -> a_end v < 2 ^ 64 ->
  (vma_insert fuel vma s = Ok (false, s) /\ exists x, x ∈ elems t /\ overlaps (vs_areas s) v x) \/
  (exists s' t' l1 l2, vma_insert fuel vma s = Ok (true, s') /\ vmas_ok s' t' /\
     elems t = l1 ++ l2 /\ elems t' = l1 ++ vma :: l2 /\ same_core (vs_areas s) (vs_areas s') /\
     forall x, x ∈ elems t -> ~ overlaps (vs_areas s) v x).
Proof.
  intros Hok Hf Hv0 Hvin Ev Hse He; pose proof Hok as [Hh _ _ _ _ Hord]; unfold vma_insert.
  rewrite decide_False, (area_at_some _ _ _ Hv0 Ev) by done; mstep; rewrite (h_root _ _ _ _ Hh).
  destruct (insert_place_ok fuel v [] t 0 (2 ^ 64 - 1) (vs_rb s)) as (o & Eo & Ho);
    [lia|apply Hh|apply Hh|done|lia|by intros ? ? ?%elem_of_nil..|].
  simpl in Eo; rewrite Eo; mstep; destruct o as [[[link par] prev]|]; [right|left; done].
  destruct Ho as (k & Ek & -> & -> & -> & Hb & Ha); simpl in Ek; subst t.
  destruct (insert_at_ok fuel vma v k s) as (s' & t' & E' & Hok' & Et' & Hc); [done..|].
  exists s', t', (kleft k), (kright k); split; [exact E'|]; split_and!; try done; [by rewrite elems_plug|].
  intros x Hx (a & Ea & ?); rewrite elems_plug in Hx; simpl in Hx; apply elem_of_app in Hx as [Hx|Hx].
  - specialize (Hb x a Hx Ea); lia.
  - specialize (Ha x a Hx Ea); lia.
Qed.

(** C24: insertion keeps the address space in order.  Given an area that is not in
    it, [vma_insert] returns; if the area overlaps one that is there it answers false
    and changes nothing, and otherwise it answers true and the area is in the tree
    and in the list between its neighbours, with sorted disjoint areas, a balanced
    tree and every other field of every area as before. *)
Theorem vma_insert_ordered fuel vma v s t :
  vmas_ok s t -> (S (length (elems t)) < fuel)%nat -> vma <> 0 -> vma ∉ elems t ->
  vs_areas s !! vma = Some v -> 0 <= a_start v < a_end v -> a_end v < 2 ^ 64 ->
  (vma_insert fuel vma s = Ok (false, s) /\ exists x, x ∈ elems t /\ overlaps (vs_areas s) v x) \/
  (exists s' t' l1 l2, vma_insert fuel vma s = Ok (true, s') /\ vmas_ok s' t' /\
     elems t = l1 ++ l2 /\ elems t' = l1 ++ vma :: l2 /\ same_core (vs_areas s) (vs_areas s') /\
     forall x, x ∈ elems t -> ~ overlaps (vs_areas s) v x).
Proof. apply insert_ordered. Qed.

(** ** Removal *)

Lemma linked_renext D p l n n' :
  NoDup l -> 0 ∉ l -> linked D p l n ->
  exists D', area_upd' D (hd 0 (reverse l)) (fun a => with_next a n') = Ok D' /\ linked D' p l n' /\
    same_core D D' /\ (forall x, x ∉ l -> D' !! x = D !! x).
Proof.
  intros Hn H0 Hl; unfold area_upd'; destruct (decide (l = [])) as [->|Hne]; [by exists D|].
  destruct (exists_last Hne) as (m & q & ->); rewrite reverse_app; simpl hd.
  assert (q <> 0) as Hq by set_solver; apply linked_app in Hl as [Hm (a & E & Hp & _ & _)].
  apply NoDup_app in Hn as (_ & Hmq & _).
  rewrite decide_True, (area_upd_some _ _ _ _ Hq E) by done; eexists; split; [done|].
  split; [|split; [by eapply same_core_insert|intros y Hy; apply lookup_insert_ne; set_solver]].
  apply linked_app; simpl in *; split; [|eexists; split; [apply lookup_insert_eq|done]].
  eapply linked_ext; [|exact Hm]; intros y Hy; apply lnk_insert_ne; set_solver.
Qed.

(** The list without [vma]: the code's two updates and its choice of the head. *)
Lemma list_remove_ok D vma v l1 l2 :
  linked D 0 (l1 ++ vma :: l2) 0 -> NoDup (l1 ++ vma :: l2) -> 0 ∉ l1 ++ vma :: l2 ->
  D !! vma = Some v -> exists D',
  ('(head, D) ← (if decide (a_prev v <> 0) then
                   D ← area_upd D (a_prev v) (fun a => with_next a (a_next v)); Ok (hd 0 (l1 ++ vma :: l2), D)
                 else Ok (a_next v, D));
   D ← area_upd' D (a_next v) (fun a => with_prev a (a_prev v));
   Ok (head, D)) = Ok (hd 0 (l1 ++ l2), D') /\
  a_prev v = hd 0 (reverse l1) /\ linked D' 0 (l1 ++ l2) 0 /\ same_core D D' /\
  (forall x, x ∉ l1 ++ l2 -> D' !! x = D !! x).
Proof.
  intros Hl Hn H0 Ev; apply linked_app in Hl as [H1 (v' & Ev' & Hp & Hnx & H2)]; simplify_eq; simpl in H1.
  apply NoDup_app in Hn as (N1 & Hdis & N2); apply NoDup_cons in N2 as [Hv2 N2].
  rewrite Hp, Hnx.
  destruct (linked_renext D 0 l1 vma (hd 0 l2) N1 ltac:(set_solver) H1) as (D1 & E1 & H1' & Hc1 & Ho1).
  assert (linked D1 vma l2 0) as H2'.
  { eapply linked_ext; [|exact H2]; intros y Hy; unfold lnk; rewrite Ho1; [done|]; set_solver. }
  destruct (linked_reprev D1 vma (hd 0 (reverse l1)) l2 0 N2 ltac:(set_solver) H2') as (D2 & E2 & H2'' & Hc2 & Ho2).
  exists D2; split; [|split; [done|split; [|split; [by etrans|]]]].
  - unfold area_upd' in E1; case_decide as Hd.
    + rewrite E1; mstep; rewrite E2; mstep; destruct l1; [done|done].
    + injection E1 as ->; mstep; rewrite E2; mstep; destruct (decide (l1 = [])) as [->|Hne]; [done|].
      destruct (exists_last Hne) as (m & q & ->); rewrite reverse_app in Hd; simpl in Hd; set_solver.
  - apply linked_app; split; [|done]; eapply linked_ext; [|exact H1']; intros y Hy; unfold lnk.
    rewrite Ho2; [done|]; set_solver.
  - intros x Hx; rewrite Ho2, Ho1 by set_solver; done.
Qed.

Lemma ordered_delete D lo l1 x l2 hi : ordered D lo (l1 ++ x :: l2) hi -> ordered D lo (l1 ++ l2) hi.
Proof.
  revert lo; induction l1 as [|y l1 IH]; intros lo; simpl; intros (a & E & H & Ho).
  - eapply ordered_weaken; [exact Ho|lia|lia].
  - exists a; split; [done|]; split; [done|by apply IH].
Qed.

(** C25: removal keeps the address space in order.  [vma_remove] on an area of the
    tree answers true and leaves an address space in order with the other areas,
    unchanged but for links and gaps, when the area's node is not of the shape in
    which [rb_erase_augmented] loses a parent pointer. *)
Theorem vma_remove_ordered fuel k c l vma r s :
  vmas_ok s (plug k (Node c l vma r)) -> gap l r = false ->
  (length (elems (plug k (Node c l vma r))) < fuel)%nat ->
  exists s' t', vma_remove fuel vma s = Ok (true, s') /\ vmas_ok s' t' /\
    elems t' = (kleft k ++ elems l) ++ (elems r ++ kright k) /\ same_core (vs_areas s) (vs_areas s').
Proof.
  intros Hok Hg Hf; pose proof Hok as [Hh Hrb Hcl Hhd Hlk Hord]; unfold vma_remove.
  destruct (holds_node _ _ _ DL k c l vma r Hh) as (Hv0 & _).
  set (l1 := kleft k ++ elems l) in *; set (l2 := elems r ++ kright k) in *.
  assert (elems (plug k (Node c l vma r)) = l1 ++ vma :: l2) as Et.
  { rewrite elems_plug; unfold l1, l2; in_order. }
  pose proof (h_nodup _ _ _ _ Hh) as Hnd; pose proof (h_null _ _ _ _ Hh) as H0; rewrite Et in *.
  pose proof Hlk as [_ (v & Ev & _ & Hnx & _)]%linked_app.
  rewrite decide_False, (area_at_some _ _ _ Hv0 Ev) by (pose proof (root_not_null _ _ _ _ _ _ _ _ Hh); tauto); mstep.
  destruct (list_remove_ok (vs_areas s) vma v l1 l2) as (D & E & Hp & Hlk' & Hc & Hout); [done..|].
  rewrite Hhd.
  destruct (if decide (a_prev v <> 0) then _ else _) as [[h D1]| |]; revert E; mstep; [|done|done].
  destruct (area_upd' D1 _ _) as [D2| |]; mstep; [|done|done]; intros [= -> ->].
  assert (closed D) as HclD.
  { eapply closed_linked; [|exact Hlk']; intros p a Hp' Ep; rewrite Hout in Ep by done.
    destruct (Hcl _ _ Ep) as [?|Hn]; [by left|right]; by apply (same_core_is_Some _ _ _ Hc). }
  assert (holds (adom D) (same D) (set_areas (vs_rb s) D) (plug k (Node c l vma r))) as H2.
  { eapply holds_data; [exact Hh| |reflexivity]; intros x Hx; apply (same_core_is_Some _ _ _ Hc).
    by apply (h_dom _ _ _ _ Hh). }
  destruct (rb_erase_ok _ _ _ (update_gap_ok D HclD) fuel k c l vma r (set_areas (vs_rb s) D))
    as (rb1 & t' & -> & H3 & Hrb' & Et'); [by rewrite Et|done|done|done|]; mstep.
  assert (elems t' = l1 ++ l2) as Et'' by (rewrite Et'; unfold l1, l2; in_order).
  assert (exists rb2, (if decide (a_prev v <> 0) then propagate_gap_upward fuel (a_prev v) rb1 else Ok rb1) = Ok rb2 /\
    holds (adom D) (same D) rb2 t') as (rb2 & -> & H4).
  { case_decide as Hp0; [|by eexists]; apply (propagate_node D); [done| |done|].
    - rewrite Et''; rewrite length_app in *; simpl in *; lia.
    - rewrite Et'', Hp in *; destruct (reverse l1) as [|q m] eqn:Er; [done|]; apply elem_of_app; left.
      apply elem_of_reverse; rewrite Er; simpl; set_solver. }
  mstep; eexists _, t'; split; [done|]; pose proof (h_data _ _ _ _ H4) as Hs4.
  split; [|split; [by rewrite Et''|simpl; etrans; [exact Hc|by apply same_same_core]]].
  split; simpl.
  - by apply (holds_same D).
  - done.
  - by eapply same_closed.
  - by rewrite Et''.
  - rewrite Et''; eapply linked_ext; [|exact Hlk']; intros; by apply same_lnk.
  - rewrite Et''; apply (ordered_ext (vs_areas s)).
    + intros x _; rewrite (same_ival D) by done; by apply same_core_ival.
    + by eapply ordered_delete.
Qed.
