(* ===== verification/VmaSearch.v ===== *)
(** * Virtual memory areas: the search for a free range

    [vma_find_unmapped_area] against a specification by quantification over all
    aligned addresses; an example of what the lost parent pointer of the tree code
    leads to; and the examples of the other theorems on areas. *)

From S2P Require Import Prelude Rbtree RbtreeSpec RbtreeBalance RbtreeErase RbtreeTheorems Vma VmaSpec VmaInsert.
From stdpp Require Import base tactics option list numbers gmap.
From Stdlib Require Import ZArith Lia.

Local Open Scope Z_scope.

(** ** Alignment *)

Lemma andnot_mask x j : 0 <= j <= 64 -> 0 <= x < 2 ^ 64 -> andnot x (2 ^ j - 1) = 2 ^ j * (x / 2 ^ j).
Proof.
  intros Hj Hx; assert (andnot x (2 ^ j - 1) = Z.ldiff x (Z.ones j)) as ->.
  { rewrite Z.ones_equiv, <- Z.sub_1_r; unfold andnot, u64; apply Z.bits_inj'; intros n Hn.
    rewrite Z.land_spec, Z.ldiff_spec; destruct (decide (n < 64)) as [Hlt|Hge].
    - by rewrite Z.mod_pow2_bits_low, Z.lnot_spec by lia.
    - assert (Z.testbit x n = false) as ->; [|done].
      destruct (decide (x = 0)) as [->|]; [apply Z.bits_0|].
      apply Z.bits_above_log2; [lia|]; apply Z.lt_le_trans with 64; [apply Z.log2_lt_pow2; lia|lia]. }
  rewrite Z.ldiff_ones_r, Z.shiftl_mul_pow2, Z.shiftr_div_pow2 by lia; lia.
Qed.

(** The least multiple of [al] from [x] on. *)
Definition up (al x : Z) : Z := al * ((x + al - 1) / al).

Lemma up_spec al x : 0 < al -> x <= up al x < x + al /\ up al x mod al = 0.
Proof.
  intros Ha; unfold up; split; [|rewrite Z.mul_comm; by apply Z.mod_mul; lia].
  pose proof (Z.mul_div_le (x + al - 1) al Ha); pose proof (Z.mul_succ_div_gt (x + al - 1) al Ha); lia.
Qed.

Lemma up_least al x c : 0 < al -> x <= c -> c mod al = 0 -> up al x <= c.
Proof.
  intros Ha Hx Hc; unfold up; rewrite (Z.div_mod c al), Hc by lia.
  assert ((x + al - 1) / al <= c / al); [|nia].
  apply Z.lt_succ_r, Z.div_lt_upper_bound; [lia|]; rewrite (Z.div_mod c al), Hc in Hx by lia; lia.
Qed.

Lemma align_up x j : 0 <= j <= 62 -> 0 <= x <= 2 ^ 62 -> andnot (u64 (x + (2 ^ j - 1))) (2 ^ j - 1) = up (2 ^ j) x.
Proof.
  intros Hj Hx; assert (2 ^ j <= 2 ^ 62) by (apply Z.pow_le_mono_r; lia).
  assert (0 < 2 ^ j) by (apply Z.pow_pos_nonneg; lia).
  rewrite u64_small by lia; rewrite andnot_mask by lia; unfold up; do 2 f_equal; lia.
Qed.

(** ** The walk over the gaps *)

(** The range of [len] bytes at [c] meets the area [x]. *)
Definition meets (D : areas) (c len x : Z) : Prop :=
  exists a, D !! x = Some a /\ c < a_end a /\ a_start a < c + len.

Section Gaps.
Context (D : areas) (j amin maxa len : Z).
Hypothesis Hj : 12 <= j <= 62.
Hypothesis Hmin : 0 < amin <= 2 ^ 63.
Hypothesis Hmax : 0 <= maxa <= 2 ^ 62.
Hypothesis Hlen : 0 < len.
Hypothesis Hal : amin mod 2 ^ j = 0.

Lemma gap_loop_ok fuel p l lo :
  linked D p l 0 -> 0 ∉ l -> ordered D lo l (2 ^ 62) -> 0 <= lo -> (length l < fuel)%nat ->
  exists r, gap_loop fuel (hd 0 l) amin maxa len (2 ^ j - 1) D = Ok r /\
    (r <> 0 -> r mod 2 ^ j = 0 /\ amin <= r /\ lo < r /\ r + len <= maxa /\
       forall x, x ∈ l -> ~ meets D r len x) /\
    (forall c x a, r = 0 \/ c < r -> head l = Some x -> D !! x = Some a -> a_end a <= c ->
       c mod 2 ^ j = 0 -> amin <= c -> c + len <= maxa -> exists y, y ∈ l /\ meets D c len y).
Proof.
  assert (0 < 2 ^ j) as Hp by (apply Z.pow_pos_nonneg; lia).
  revert p l lo; induction fuel as [|fuel IH]; intros p l lo Hl H0 Ho Hlo Hf; [lia|].
  destruct l as [|x l]; [exists 0; split; [done|]; split; [done|done]|].
  destruct Hl as (a & Ea & _ & Hn & Hl), Ho as (a' & Ea' & Hse & Ho); simplify_eq; cbn [gap_loop hd].
  assert (x <> 0) as Hx0 by set_solver.
  rewrite decide_False, (area_at_some _ _ _ Hx0 Ea) by done; mstep.
  pose proof (ordered_le _ _ _ _ Ho) as Hle; rewrite align_up by lia.
  destruct (up_spec (2 ^ j) (a_end a) Hp) as [Hup Hmod].
  set (cand := if decide (up (2 ^ j) (a_end a) < amin) then amin else up (2 ^ j) (a_end a)).
  assert (a_end a <= cand /\ amin <= cand /\ cand mod 2 ^ j = 0 /\
    forall c, a_end a <= c -> amin <= c -> c mod 2 ^ j = 0 -> cand <= c) as (Hc1 & Hc2 & Hc3 & Hc4).
  { unfold cand; case_decide; split_and!; try lia; try done; intros c ? ? ?; first [lia|by apply up_least]. }
  rewrite Hn; set (gend := if decide (hd 0 l <> 0) then _ else _).
  assert (exists g, gend = Ok g /\ (forall y b, y ∈ l -> D !! y = Some b -> g <= a_start b) /\
    (l = [] /\ g = maxa \/ exists y b l', l = y :: l' /\ D !! y = Some b /\ g = a_start b)) as (g & -> & Hg & Hgl).
  { unfold gend; destruct l as [|y l']; [exists maxa; split; [done|]; split; [by intros ? ? ?%elem_of_nil|by left]|].
    destruct Ho as (b & Eb & Hb & Ho'); cbn [hd]; assert (y <> 0) as Hy by set_solver.
    rewrite decide_True, (area_at_some _ _ _ Hy Eb) by done; mstep; exists (a_start b); split; [done|].
    split; [|right; by exists y, b, l']; intros z d [->|Hz]%elem_of_cons Ed; [simplify_eq; lia|].
    destruct (ordered_bounds _ _ _ _ _ _ Ho' Hz Ed); lia. }
  mstep; set (gm := if decide (g > maxa) then maxa else g).
  assert (gm <= g /\ gm <= maxa /\ (gm = g \/ gm = maxa)) as (Hgm1 & Hgm2 & Hgm3) by (unfold gm; case_decide; lia).
  clearbody cand gm; case_decide as Hfit.
  - exists cand; split; [done|]; split;
      [|intros c x' b Hr Hx' Eb Hbc Hcm Hca Hcl; simpl in Hx'; simplify_eq; specialize (Hc4 c Hbc Hca Hcm); lia].
    intros _; split_and!; try done; try lia.
    intros z Hz (d & Ed & Hd1 & Hd2); apply elem_of_cons in Hz as [->|Hz]; [simplify_eq; lia|].
    specialize (Hg z d Hz Ed); lia.
  - destruct (IH x l (a_end a)) as (r & -> & Hr1 & Hr2); [done|set_solver|done|lia|simpl in Hf; lia|].
    exists r; split; [done|]; split.
    + intros Hr; destruct (Hr1 Hr) as (? & ? & ? & ? & Hno); split_and!; try done; try lia.
      intros z Hz; apply elem_of_cons in Hz as [->|Hz]; [|by apply Hno].
      intros (d & Ed & Hd1 & Hd2); simplify_eq; lia.
    + intros c x' b Hr Hx' Eb Hbc Hcm Hca Hcl; simpl in Hx'; simplify_eq.
      specialize (Hc4 c Hbc Hca Hcm).
      destruct Hgl as [[-> ->]|(y & d & l' & -> & Ed & ->)]; [lia|].
      destruct (decide (a_end d <= c)) as [Hdc|Hdc].
      * destruct (Hr2 c y d Hr eq_refl Ed Hdc Hcm Hca Hcl) as (z & Hz & Hm); exists z; split; [set_solver|done].
      * exists y; split; [set_solver|]; exists d; split; [done|lia].
Qed.

End Gaps.

Lemma rb_first_ok {A} ad (ai : A -> Prop) fuel s t :
  holds ad ai s t -> t <> Leaf -> (length (elems t) <= fuel)%nat -> rb_first fuel s = Ok (hd 0 (elems t)).
Proof.
  intros Hh Hne Hf; unfold rb_first; rewrite (h_root _ _ _ _ Hh).
  rewrite decide_False by (destruct t as [|c l x r]; [done|]; by apply (holds_node _ _ s DL [] c l x r Hh)).
  apply (extreme_ok DL fuel t 0); (done || apply Hh).
Qed.

Lemma find_unmapped_exact fuel min_addr max_addr length alignment j s t :
  vmas_ok s t -> ordered (vs_areas s) 0 (elems t) (2 ^ 62) -> (List.length (elems t) < fuel)%nat ->
  0 < min_addr -> min_addr < max_addr <= 2 ^ 62 -> 0 < length <= max_addr - min_addr ->
  (if decide (alignment < PAGE_SIZE) then PAGE_SIZE else alignment) = 2 ^ j -> 12 <= j <= 62 ->
  exists r, vma_find_unmapped_area fuel min_addr max_addr length alignment (vs_rb s) = Ok r /\
    (r <> 0 -> r mod 2 ^ j = 0 /\ min_addr <= r /\
       (r + up PAGE_SIZE length <= max_addr \/ r = up (2 ^ j) min_addr /\
          forall x a, x ∈ elems t -> vs_areas s !! x = Some a -> r + up PAGE_SIZE length <= a_start a) /\
       forall x, x ∈ elems t -> ~ meets (vs_areas s) r (up PAGE_SIZE length) x) /\
    (forall c, r = 0 \/ c < r -> c mod 2 ^ j = 0 -> min_addr <= c -> c + up PAGE_SIZE length <= max_addr ->
       exists y, y ∈ elems t /\ meets (vs_areas s) c (up PAGE_SIZE length) y).
Proof.
  intros Hok Ho Hf Hmin Hmax Hlen Hal Hj; pose proof (vo_holds _ _ Hok) as Hh.
  assert (0 < 2 ^ j <= 2 ^ 62) as Hp by (split; [apply Z.pow_pos_nonneg; lia|apply Z.pow_le_mono_r; lia]).
  unfold vma_find_unmapped_area; rewrite decide_False by lia; rewrite Hal.
  rewrite (align_up min_addr j) by lia.
  change PAGE_MASK with (2 ^ 12 - 1); rewrite (align_up length 12) by lia; change (2 ^ 12) with PAGE_SIZE.
  destruct (up_spec (2 ^ j) min_addr ltac:(lia)) as [Hup Hmod].
  destruct (up_spec PAGE_SIZE length ltac:(unfold PAGE_SIZE; lia)) as [Hlen' _].
  assert (PAGE_SIZE = 4096) as EP by done.
  assert (forall c, c mod 2 ^ j = 0 -> min_addr <= c -> up (2 ^ j) min_addr <= c) as Hleast
    by (intros; apply up_least; [lia|done|done]).
  set (amin := up (2 ^ j) min_addr) in *; set (len := up PAGE_SIZE length) in *; clearbody amin len.
  rewrite u64_small by lia; rewrite (h_root _ _ _ _ Hh).
  destruct (decide (t = Leaf)) as [->|Hne].
  { cbn [tref]; rewrite decide_True by done; eexists; split; [done|].
    destruct (decide (amin + len <= max_addr)) as [Hfit|Hfit].
    - split; [|intros c Hc Hc1 Hc2 _; specialize (Hleast c Hc1 Hc2); lia]; intros _; split; [exact Hmod|]; split; [lia|]; split; [by left|]; intros x Hx; by apply elem_of_nil in Hx.
    - split; [done|]; intros c _ Hc1 Hc2 Hc3; specialize (Hleast c Hc1 Hc2); lia. }
  rewrite decide_False by (destruct t as [|c l x r]; [done|]; by apply (holds_node _ _ (vs_rb s) DL [] c l x r Hh)).
  rewrite (rb_first_ok _ _ fuel _ _ Hh Hne) by lia; mstep.
  pose proof (vo_linked _ _ Hok) as Hl; pose proof (h_null _ _ _ _ Hh) as H0.
  destruct (elems t) as [|x l] eqn:El; [destruct t; [done|]; simpl in El; by destruct (elems t1)|].
  pose proof Ho as (a & Ea & Hse & Ho'); assert (x <> 0) as Hx0 by set_solver; cbn [hd].
  rewrite decide_False, (area_at_some _ _ _ Hx0 Ea) by done; mstep.
  destruct (decide (a_start a >= amin + len)) as [Hfirst|Hfirst].
  - assert (forall y b, y ∈ x :: l -> vs_areas s !! y = Some b -> amin + len <= a_start b) as Hbefore.
    { intros y b [->|Hy]%elem_of_cons Eb; [simplify_eq; lia|]; destruct (ordered_bounds _ _ _ _ _ _ Ho' Hy Eb); lia. }
    exists amin; split; [done|]; split; [|intros c Hc Hc1 Hc2 _; specialize (Hleast c Hc1 Hc2); lia].
    intros _; split; [exact Hmod|]; split; [lia|]; split; [by right|].
    intros y Hy (b & Eb & Hb1 & Hb2); specialize (Hbefore y b Hy Eb); lia.
  - destruct (gap_loop_ok (vs_areas s) j amin max_addr len Hj ltac:(lia) ltac:(lia) ltac:(lia) Hmod fuel 0 (x :: l) 0)
      as (r & Er & Hr1 & Hr2); [done..|].
    cbn [hd] in Er; rewrite Er; exists r; split; [done|]; split.
    + intros Hr; destruct (Hr1 Hr) as (? & ? & ? & ? & ?); split_and!; [done|lia|left; lia|done].
    + intros c Hr Hc1 Hc2 Hc3; specialize (Hleast c Hc1 Hc2); destruct (decide (a_end a <= c)) as [Hac|Hac].
      * by apply (Hr2 c x a Hr).
      * exists x; split; [set_solver|]; exists a; split; [done|lia].
Qed.

(** C26: the search for a free range is sound and first-fit.  For an address space in
    order below 2^62, bounds [0 < min_addr < max_addr <= 2^62], a length that is
    positive and at most [max_addr - min_addr] and an alignment that is a power of
    two from a page to 2^62 after the code raised it to a page,
    [vma_find_unmapped_area] returns.  An address it returns is a multiple of the
    alignment, not below [min_addr], its range (the length rounded up to pages) meets
    no area, and the range ends at or before [max_addr] unless it is the first
    aligned one and lies before all areas, in which case the code does not look at
    [max_addr].  Every lower aligned range between [min_addr] and [max_addr] meets an
    area, and when the answer is 0 every aligned range there does. *)
Theorem vma_find_unmapped_area_exact fuel min_addr max_addr length alignment j s t :
  vmas_ok s t -> ordered (vs_areas s) 0 (elems t) (2 ^ 62) -> (List.length (elems t) < fuel)%nat ->
  0 < min_addr -> min_addr < max_addr <= 2 ^ 62 -> 0 < length <= max_addr - min_addr ->
  (if decide (alignment < PAGE_SIZE) then PAGE_SIZE else alignment) = 2 ^ j -> 12 <= j <= 62 ->
  exists r, vma_find_unmapped_area fuel min_addr max_addr length alignment (vs_rb s) = Ok r /\
    (r <> 0 -> r mod 2 ^ j = 0 /\ min_addr <= r /\
       (r + up PAGE_SIZE length <= max_addr \/ r = up (2 ^ j) min_addr /\
          forall x a, x ∈ elems t -> vs_areas s !! x = Some a -> r + up PAGE_SIZE length <= a_start a) /\
       forall x, x ∈ elems t -> ~ meets (vs_areas s) r (up PAGE_SIZE length) x) /\
    (forall c, r = 0 \/ c < r -> c mod 2 ^ j = 0 -> min_addr <= c -> c + up PAGE_SIZE length <= max_addr ->
       exists y, y ∈ elems t /\ meets (vs_areas s) c (up PAGE_SIZE length) y).
Proof. exact (find_unmapped_exact fuel min_addr max_addr length alignment j s t). Qed.

(** The branch for the range before the first area does not look at [max_addr]: the
    page at 4096 is returned for a range that has to end at 4097. *)
Lemma vma_find_unmapped_beyond_max :
  vma_find_unmapped_area 2 1 4097 4096 0
    (mkRb 10 {[ 10 := mkNode 0 0 0 RB_BLACK ]} {[ 10 := mkArea 8192 12288 1 0 0 0 0 0 0 0 ]}) = Ok 4096.
Proof. by vm_compute. Qed.

(** ** A run that follows the lost parent pointer *)

(** [kmalloc] answers [p]; the area of one page at [start] is created and inserted. *)
Definition add_page (fuel : nat) (p start : Z) (s : vma_state) : res vma_state :=
  let '(vma, rb) := vma_create p start (start + 4096) 1 3 (vs_rb s) in
  '(_, s) ← vma_insert fuel vma (mkVmas (vs_head s) rb);
  Ok s.

Definition no_areas : vma_state := mkVmas 0 (mkRb 0 ∅ ∅).

(** Four areas, at the addresses 0x1000, 0x3000, 0x5000 and 0x7000. *)
Definition four_areas : res vma_state :=
  s ← add_page 9 20 0x3000 no_areas;
  s ← add_page 9 10 0x1000 s;
  s ← add_page 9 30 0x5000 s;
  s ← add_page 9 40 0x7000 s;
  Ok s.

(** The second area is removed and freed. *)
Definition remove_second : res vma_state :=
  s ← four_areas;
  '(_, s) ← vma_remove 9 20 s;
  Ok (mkVmas (vs_head s) (vma_destroy 20 (vs_rb s))).

(** the lost parent pointer is followed.  With four areas inserted in the order
    second, first, third, fourth, removing and freeing the second succeeds; walking
    the tree afterwards, and inserting a fifth area, both read the freed one. *)
Theorem vma_insert_after_remove_faults :
  exists s, remove_second = Ok s /\ vma_verify_invariants 9 (vs_rb s) = Fault /\
    add_page 9 50 0x9000 s = Fault.
Proof. eexists; split; [vm_compute; reflexivity|]; by vm_compute. Qed.

(** ** Examples *)

(** Two areas, and a third that is not inserted yet. *)
Definition two_areas : vma_state := mkVmas 10 (mkRb 10
  {[ 10 := mkNode 0 0 20 RB_BLACK; 20 := mkNode 10 0 0 RB_RED ]}
  {[ 10 := mkArea 4096 8192 1 3 0 0 0 0 20 8192; 20 := mkArea 16384 20480 1 3 0 0 0 10 0 0;
     30 := mkArea 8192 12288 1 3 0 0 0 0 0 0 ]}).

Definition tree2 : tree := Node RB_BLACK Leaf 10 (Node RB_RED Leaf 20 Leaf).

Lemma two_areas_ok : vmas_ok two_areas tree2.
Proof.
  split.
  - split; [done|repeat split|apply (bool_decide_unpack _); by vm_compute
      |apply (bool_decide_unpack _); by vm_compute| |reflexivity].
    intros x Hx; simpl in Hx; repeat (apply elem_of_cons in Hx as [->|Hx]; [by eexists|]); set_solver.
  - split; [done|]; exists 1%nat; repeat constructor.
  - intros p a E; cbn in E.
    repeat (apply lookup_insert_Some in E as [[<- <-]|[_ E]]; [first [by left|right; by eexists]|]).
    apply lookup_singleton_Some in E as [<- <-]; by left.
  - done.
  - repeat (eexists; split; [done|]; split; [done|]; split; [done|]); done.
  - repeat (eexists; split; [done|]; split; [simpl; lia|]); simpl; lia.
Qed.

Lemma vma_find_exact_witness :
  exists r, vma_find 3 5000 (vs_rb two_areas) = Ok r /\
    forall x, x ∈ elems tree2 -> contains (vs_areas two_areas) 5000 x <-> r = x.
Proof. apply (vma_find_exact 3 5000 two_areas tree2); [apply two_areas_ok|simpl; lia]. Defined.

Lemma vma_insert_ordered_witness :
  let v := mkArea 8192 12288 1 3 0 0 0 0 0 0 in
  (vma_insert 4 30 two_areas = Ok (false, two_areas) /\
   exists x, x ∈ elems tree2 /\ overlaps (vs_areas two_areas) v x) \/
  (exists s' t' l1 l2, vma_insert 4 30 two_areas = Ok (true, s') /\ vmas_ok s' t' /\
     elems tree2 = l1 ++ l2 /\ elems t' = l1 ++ 30 :: l2 /\ same_core (vs_areas two_areas) (vs_areas s') /\
     forall x, x ∈ elems tree2 -> ~ overlaps (vs_areas two_areas) v x).
Proof.
  apply (vma_insert_ordered 4 30 _ two_areas tree2); [apply two_areas_ok|simpl; lia|done| |done|simpl; lia|simpl; lia].
  apply (bool_decide_unpack _); by vm_compute.
Defined.

Lemma vma_remove_ordered_witness :
  exists s' t', vma_remove 3 20 two_areas = Ok (true, s') /\ vmas_ok s' t' /\ elems t' = [10] /\
    same_core (vs_areas two_areas) (vs_areas s').
Proof.
  apply (vma_remove_ordered 3 [Fr DR RB_BLACK 10 Leaf] RB_RED Leaf 20 Leaf two_areas);
    [apply two_areas_ok|done|simpl; lia].
Defined.

Lemma vma_find_unmapped_area_exact_witness :
  exists r, vma_find_unmapped_area 3 4096 65536 8192 0 (vs_rb two_areas) = Ok r /\
    (r <> 0 -> r mod 2 ^ 12 = 0 /\ 4096 <= r /\
       (r + up PAGE_SIZE 8192 <= 65536 \/ r = up (2 ^ 12) 4096 /\
          forall x a, x ∈ elems tree2 -> vs_areas two_areas !! x = Some a -> r + up PAGE_SIZE 8192 <= a_start a) /\
       forall x, x ∈ elems tree2 -> ~ meets (vs_areas two_areas) r (up PAGE_SIZE 8192) x) /\
    (forall c, r = 0 \/ c < r -> c mod 2 ^ 12 = 0 -> 4096 <= c -> c + up PAGE_SIZE 8192 <= 65536 ->
       exists y, y ∈ elems tree2 /\ meets (vs_areas two_areas) c (up PAGE_SIZE 8192) y).
Proof.
  apply (vma_find_unmapped_area_exact 3 4096 65536 8192 0 12 two_areas tree2);
    [apply two_areas_ok| |simpl; lia|lia|lia|lia|done|lia].
  repeat (eexists; split; [done|]; split; [simpl; lia|]); simpl; lia.
Defined.
