(* ===== verification/Kutils.v ===== *)
(** * core/kutils.c: C strings, memory blocks and number printing

    A [const char *] is the list of the bytes from the pointer on; reading past
    the end of the list is a fault.  A [char *] that is written is the list of
    the bytes of its buffer.  [memmove] and [memcpy] take two addresses of one
    memory, so that overlap is visible.  Bytes are unsigned; the comparisons of
    the source with ['0'] .. ['9'] give the same answer for signed [char]. *)

From S2P Require Import Prelude.
From stdpp Require Import base tactics option list numbers sets.
From Stdlib Require Import ZArith Lia.

Local Open Scope Z_scope.

(** ** Strings *)

Fixpoint strlen (str : list Z) : res Z :=
  match str with
  | [] => Fault
  | c :: r => if decide (c = 0) then Ok 0 else n ← strlen r; Ok (n + 1)
  end.

Fixpoint strcmp (s1 s2 : list Z) : res Z :=
  match s1, s2 with
  | a :: r1, b :: r2 =>
      if decide (a <> 0 /\ a = b) then strcmp r1 r2 else Ok (a - b)
  | _, _ => Fault
  end.

Fixpoint strncmp (s1 s2 : list Z) (n : nat) {struct n} : res Z :=
  match n with
  | O => Ok 0
  | S n' =>
      match s1, s2 with
      | a :: r1, b :: r2 =>
          if decide (a <> 0 /\ a = b) then strncmp r1 r2 n' else Ok (a - b)
      | _, _ => Fault
      end
  end.

Fixpoint strcpy (dest src : list Z) : res (list Z) :=
  match dest, src with
  | _ :: d, c :: s =>
      if decide (c = 0) then Ok (0 :: d) else r ← strcpy d s; Ok (c :: r)
  | _, _ => Fault
  end.

(** The second loop of [strncpy]: zero bytes up to the count. *)
Fixpoint strncpy_pad (dest : list Z) (n : nat) {struct n} : res (list Z) :=
  match n, dest with
  | O, _ => Ok dest
  | S n', _ :: d => r ← strncpy_pad d n'; Ok (0 :: r)
  | S _, [] => Fault
  end.

Fixpoint strncpy (dest src : list Z) (n : nat) {struct n} : res (list Z) :=
  match n with
  | O => Ok dest
  | S n' =>
      match src, dest with
      | c :: s, _ :: d =>
          if decide (c = 0) then strncpy_pad dest n
          else r ← strncpy d s n'; Ok (c :: r)
      | _, _ => Fault
      end
  end.

(** [strchr]: the offset of the first [c], the terminator included. *)
Fixpoint strchr (s : list Z) (c : Z) : res (option Z) :=
  match s with
  | [] => Fault
  | x :: r =>
      if decide (x = u8 c) then Ok (Some 0)
      else if decide (x = 0) then Ok None
      else o ← strchr r c; Ok (option_map (Z.add 1) o)
  end.

Fixpoint strcat (dest src : list Z) : res (list Z) :=
  match dest with
  | [] => Fault
  | c :: d =>
      if decide (c = 0) then strcpy dest src else r ← strcat d src; Ok (c :: r)
  end.

Fixpoint str_starts_with (str prefix : list Z) : res bool :=
  match prefix with
  | [] => Fault
  | p :: prefix' =>
      if decide (p = 0) then Ok true
      else match str with
           | [] => Fault
           | c :: str' =>
               if decide (c = p) then str_starts_with str' prefix' else Ok false
           end
  end.

(** The inner loop of [k_strstr], followed by its test [!*n]. *)
Fixpoint strstr_here (h n : list Z) : res bool :=
  match n with
  | [] => Fault
  | b :: n' =>
      match h with
      | [] => Fault
      | a :: h' =>
          if decide (a <> 0 /\ b <> 0 /\ a = b) then strstr_here h' n'
          else Ok (bool_decide (b = 0))
      end
  end.

Fixpoint strstr_scan (haystack needle : list Z) : res (option Z) :=
  match haystack with
  | [] => Fault
  | c :: r =>
      if decide (c = 0) then Ok None
      else b ← strstr_here haystack needle;
           if (b : bool) then Ok (Some 0)
           else o ← strstr_scan r needle; Ok (option_map (Z.add 1) o)
  end.

(** [k_strstr]: the offset of the match in the haystack. *)
Definition k_strstr (haystack needle : list Z) : res (option Z) :=
  n0 ← zget needle 0;
  if decide (n0 = 0) then Ok (Some 0) else strstr_scan haystack needle.

(** ** Memory blocks *)

Fixpoint memcmp (s1 s2 : list Z) (count : nat) {struct count} : res Z :=
  match count with
  | O => Ok 0
  | S n =>
      match s1, s2 with
      | a :: r1, b :: r2 =>
          if decide (a = b) then memcmp r1 r2 n
          else Ok (if decide (a < b) then -1 else 1)
      | _, _ => Fault
      end
  end.

(** [for (i = k; i < k + n; i++) pdest[i] = psrc[i]] *)
Fixpoint move_up (M : list Z) (pdest psrc i : Z) (n : nat) : res (list Z) :=
  match n with
  | O => Ok M
  | S n' =>
      x ← zget M (psrc + i);
      M' ← zset M (pdest + i) x;
      move_up M' pdest psrc (i + 1) n'
  end.

(** [for (i = n; i > 0; i--) pdest[i-1] = psrc[i-1]] *)
Fixpoint move_down (M : list Z) (pdest psrc : Z) (n : nat) : res (list Z) :=
  match n with
  | O => Ok M
  | S n' =>
      x ← zget M (psrc + Z.of_nat n');
      M' ← zset M (pdest + Z.of_nat n') x;
      move_down M' pdest psrc n'
  end.

Definition memmove (M : list Z) (dest src : Z) (n : nat) : res (list Z) :=
  if decide (src > dest) then move_up M dest src 0 n
  else if decide (src < dest) then move_down M dest src n
  else Ok M.

(** One [movsq]: eight bytes are read, then written. *)
Definition movsq (M : list Z) (d s : Z) : res (list Z) :=
  b0 ← zget M s; b1 ← zget M (s + 1); b2 ← zget M (s + 2); b3 ← zget M (s + 3);
  b4 ← zget M (s + 4); b5 ← zget M (s + 5); b6 ← zget M (s + 6);
  b7 ← zget M (s + 7);
  M ← zset M d b0; M ← zset M (d + 1) b1; M ← zset M (d + 2) b2;
  M ← zset M (d + 3) b3; M ← zset M (d + 4) b4; M ← zset M (d + 5) b5;
  M ← zset M (d + 6) b6; zset M (d + 7) b7.

Fixpoint rep_movsq (M : list Z) (d s : Z) (qwords : nat) : res (list Z) :=
  match qwords with
  | O => Ok M
  | S q => M' ← movsq M d s; rep_movsq M' (d + 8) (s + 8) q
  end.

Definition memcpy (M : list Z) (dest src : Z) (len : nat) : res (list Z) :=
  if decide (dest = 0 \/ src = 0 \/ len = O \/ dest = src) then Ok M
  else
    let qwords := (len / 8)%nat in
    M1 ← rep_movsq M dest src qwords;
    move_up M1 (dest + 8 * Z.of_nat qwords) (src + 8 * Z.of_nat qwords) 0
      (len mod 8).

(** A copy between two objects, which do not overlap: the bytes are read from one
    and stored to the other. *)
Definition read_bytes (src : list Z) (ip : Z) (n : nat) : res (list Z) :=
  if decide (0 <= ip /\ ip + Z.of_nat n <= Z.of_nat (length src))
  then Ok (take n (drop (Z.to_nat ip) src)) else Fault.

Fixpoint write_bytes (buf : list Z) (out : Z) (bytes : list Z) : res (list Z) :=
  match bytes with
  | [] => Ok buf
  | b :: bs => buf' ← zset buf out b; write_bytes buf' (out + 1) bs
  end.

(** [rep stosq] with the byte repeated eight times, then [rep stosb]. *)
Fixpoint stos (M : list Z) (d : Z) (v : Z) (n : nat) : res (list Z) :=
  match n with
  | O => Ok M
  | S n' => M' ← zset M d v; stos M' (d + 1) v n'
  end.

Definition memset (M : list Z) (dest val : Z) (len : nat) : res (list Z) :=
  if decide (dest = 0 \/ len = O) then Ok M
  else
    let val64 := u8 val * 0x0101010101010101 in
    let qwords := (len / 8)%nat in
    M1 ← (fix go (q : nat) (M : list Z) (d : Z) : res (list Z) :=
            match q with
            | O => Ok M
            | S q' =>
                M ← zset M d (u8 val64);
                M ← zset M (d + 1) (u8 (Z.shiftr val64 8));
                M ← zset M (d + 2) (u8 (Z.shiftr val64 16));
                M ← zset M (d + 3) (u8 (Z.shiftr val64 24));
                M ← zset M (d + 4) (u8 (Z.shiftr val64 32));
                M ← zset M (d + 5) (u8 (Z.shiftr val64 40));
                M ← zset M (d + 6) (u8 (Z.shiftr val64 48));
                M ← zset M (d + 7) (u8 (Z.shiftr val64 56));
                go q' M (d + 8)
            end) qwords M dest;
    stos M1 (dest + 8 * Z.of_nat qwords) (u8 val) (len mod 8).

(** ** Numbers *)

(** The loop of [atoi]; an [int] that overflows wraps (two's complement). *)
Fixpoint atoi_loop (str : list Z) (acc : Z) : res Z :=
  match str with
  | [] => Fault
  | c :: r =>
      if decide (48 <= c <= 57) then atoi_loop r (i32 (i32 (acc * 10) + (c - 48)))
      else Ok acc
  end.

Definition atoi (str : list Z) : res Z :=
  c ← zget str 0;
  if decide (c = 45) then v ← atoi_loop (drop 1 str) 0; Ok (i32 (v * -1))
  else v ← atoi_loop str 0; Ok v.

(** [while (n > 0) { buf[i++] = digit(n); n = next(n); }], the loop that
    [itoa], [utoa] and [itoa_hex] share. *)
Fixpoint digit_loop (digit next : Z -> Z) (fuel : nat) (buf : list Z) (i n : Z)
  : res (list Z * Z) :=
  if decide (n > 0) then
    match fuel with
    | O => NoFuel
    | S f =>
        buf' ← zset buf i (digit n);
        digit_loop digit next f buf' (i + 1) (next n)
    end
  else Ok (buf, i).

(** [for (j = 0; j < i / 2; j++)] swap [buf[j]] and [buf[i - 1 - j]]. *)
Fixpoint swap_loop (buf : list Z) (i j : Z) (k : nat) : res (list Z) :=
  match k with
  | O => Ok buf
  | S k' =>
      t ← zget buf j;
      x ← zget buf (i - 1 - j);
      b1 ← zset buf j x;
      b2 ← zset b1 (i - 1 - j) t;
      swap_loop b2 i (j + 1) k'
  end.

Definition reverse_buf (buf : list Z) (i : Z) : res (list Z) :=
  swap_loop buf i 0 (Z.to_nat (i / 2)).

Definition print_zero (buf : list Z) : res (list Z) :=
  b ← zset buf 0 48; zset b 1 0.

Definition itoa (n : Z) (buf : list Z) : res (list Z) :=
  if decide (n = 0) then print_zero buf
  else
    let sign := bool_decide (n < 0) in
    let n := if sign then i32 (- n) else n in
    '(buf, i) ← digit_loop (fun n => n mod 10 + 48) (fun n => n / 10) 10 buf 0 n;
    '(buf, i) ← (if sign then b ← zset buf i 45; Ok (b, i + 1) else Ok (buf, i));
    buf ← zset buf i 0;
    reverse_buf buf i.

Definition utoa (n : Z) (buf : list Z) : res (list Z) :=
  if decide (n = 0) then print_zero buf
  else
    '(buf, i) ← digit_loop (fun n => n mod 10 + 48) (fun n => n / 10) 20 buf 0 n;
    buf ← zset buf i 0;
    reverse_buf buf i.

Definition hex_upper (d : Z) : Z := if decide (d < 10) then 48 + d else 55 + d.

Definition itoa_hex (n : Z) (buf : list Z) : res (list Z) :=
  if decide (n = 0) then print_zero buf
  else
    '(buf, i) ← digit_loop (fun n => hex_upper (Z.land n 15))
                   (fun n => Z.shiftr n 4) 16 buf 0 n;
    buf ← zset buf i 0;
    reverse_buf buf i.

Fixpoint hex32_loop (n : Z) (buf : list Z) (pos : Z) (k : nat) : res (list Z) :=
  match k with
  | O => zset buf pos 0
  | S j =>
      let digit := Z.land (Z.shiftr n (Z.of_nat j * 4)) 15 in
      b ← zset buf pos (if decide (digit < 10) then 48 + digit else 97 + (digit - 10));
      hex32_loop n b (pos + 1) j
  end.

Definition itoa_hex32 (n : Z) (buf : list Z) : res (list Z) := hex32_loop n buf 0 8.

(** ** UTF-8: the bytes stored to [out]; their number is the return value. *)
Definition text_encode_utf8 (cp : Z) : list Z :=
  if decide (cp <= 0x7F) then [u8 cp]
  else if decide (cp <= 0x7FF) then
    [u8 (Z.lor 0xC0 (Z.shiftr cp 6)); u8 (Z.lor 0x80 (Z.land cp 0x3F))]
  else if decide (cp <= 0xFFFF) then
    [u8 (Z.lor 0xE0 (Z.shiftr cp 12));
     u8 (Z.lor 0x80 (Z.land (Z.shiftr cp 6) 0x3F)); u8 (Z.lor 0x80 (Z.land cp 0x3F))]
  else if decide (cp <= 0x10FFFF) then
    [u8 (Z.lor 0xF0 (Z.shiftr cp 18)); u8 (Z.lor 0x80 (Z.land (Z.shiftr cp 12) 0x3F));
     u8 (Z.lor 0x80 (Z.land (Z.shiftr cp 6) 0x3F)); u8 (Z.lor 0x80 (Z.land cp 0x3F))]
  else [0xEF; 0xBF; 0xBD].

(** ** C strings

    [cstr s b]: the bytes from the pointer on hold the string [b] and its
    terminator. *)
Definition cstr (s b : list Z) : Prop := exists t, s = b ++ 0 :: t /\ (0 ∉ b).

Lemma cstr_nil t : cstr (0 :: t) [].
Proof. exists t; split; [done|set_solver]. Qed.

Lemma cstr_cons c s b : c <> 0 -> cstr s b -> cstr (c :: s) (c :: b).
Proof. intros Hc (t & -> & Hb); exists t; split; [done|set_solver]. Qed.

Lemma cstr_cons_inv c s b : cstr s (c :: b) -> exists s', s = c :: s' /\ c <> 0 /\ cstr s' b.
Proof.
  intros (t & -> & Hb); exists (b ++ 0 :: t); split_and!; [done|set_solver|].
  exists t; set_solver.
Qed.

Lemma cstr_nil_inv s : cstr s [] -> exists t, s = 0 :: t.
Proof. intros (t & -> & _); by exists t. Qed.

(** For literal strings: both premises evaluate. *)
Lemma cstr_lit s b : s = b ++ [0] -> forallb (fun c => negb (c =? 0)) b = true -> cstr s b.
Proof.
  intros -> H; exists []; split; [done|]; intros Hin.
  rewrite forallb_forall in H; apply list_elem_of_In, H in Hin; done.
Qed.

#[export] Hint Resolve cstr_nil cstr_cons : bored.

Lemma strlen_cstr s b : cstr s b -> strlen s = Ok (Z.of_nat (length b)).
Proof.
  revert s; induction b as [|c b IH]; intros s H.
  - by apply cstr_nil_inv in H as [t ->].
  - apply cstr_cons_inv in H as (s' & -> & Hc & H); simpl.
    rewrite decide_False, (IH _ H) by done; simpl; f_equal; lia.
Qed.

(** [strcmp] answers 0 exactly for equal strings. *)
Lemma strcmp_cstr s1 b1 s2 b2 :
  cstr s1 b1 -> cstr s2 b2 -> exists v, strcmp s1 s2 = Ok v /\ (v = 0 <-> b1 = b2).
Proof.
  revert s1 s2 b2; induction b1 as [|c b1 IH]; intros s1 s2 b2 H1 H2.
  - apply cstr_nil_inv in H1 as [t ->].
    destruct b2 as [|d b2].
    + apply cstr_nil_inv in H2 as [t' ->]; by exists 0.
    + apply cstr_cons_inv in H2 as (s' & -> & Hd & H2); cbn [strcmp].
      rewrite decide_False by naive_solver; eexists; split; [done|].
      split; [lia|done].
  - apply cstr_cons_inv in H1 as (s1' & -> & Hc & H1).
    destruct b2 as [|d b2].
    + apply cstr_nil_inv in H2 as [t' ->]; cbn [strcmp].
      rewrite decide_False by naive_solver; eexists; split; [done|].
      split; [lia|done].
    + apply cstr_cons_inv in H2 as (s2' & -> & Hd & H2); cbn [strcmp].
      case_decide as Hcd.
      * destruct Hcd as [_ ->]; destruct (IH _ _ _ H1 H2) as (v & -> & Hv).
        exists v; split; [done|]; rewrite Hv; naive_solver.
      * eexists; split; [done|]; split; [intros; naive_solver lia|naive_solver].
Qed.

(** [strncmp] against a whole string tests that it is a prefix. *)
Lemma strncmp_prefix s1 b1 s2 b2 :
  cstr s1 b1 -> cstr s2 b2 ->
  exists v, strncmp s1 s2 (length b1) = Ok v /\ (v = 0 <-> b1 `prefix_of` b2).
Proof.
  revert s1 s2 b2; induction b1 as [|c b1 IH]; intros s1 s2 b2 H1 H2; cbn [length strncmp].
  - exists 0; split; [done|]; split; [intros; apply prefix_nil|done].
  - apply cstr_cons_inv in H1 as (s1' & -> & Hc & H1).
    destruct b2 as [|d b2].
    + apply cstr_nil_inv in H2 as [t' ->]; cbn [strncmp].
      rewrite decide_False by naive_solver; eexists; split; [done|].
      split; [lia|intros H; by apply prefix_nil_inv in H].
    + apply cstr_cons_inv in H2 as (s2' & -> & Hd & H2); cbn [length strncmp].
      case_decide as Hcd.
      * destruct Hcd as [_ ->]; destruct (IH _ _ _ H1 H2) as (v & -> & Hv).
        exists v; split; [done|]; rewrite Hv; split; [apply prefix_cons|apply prefix_cons_inv_2].
      * eexists; split; [done|]; split; [intros; naive_solver lia|].
        intros Hp; apply prefix_cons_inv_1 in Hp; naive_solver.
Qed.

(** ** [k_strstr] *)

Lemma strstr_here_cstr h hb n nb :
  cstr h hb -> cstr n nb -> strstr_here h n = Ok (bool_decide (nb `prefix_of` hb)).
Proof.
  revert h hb n; induction nb as [|b nb IH]; intros h hb n Hh Hn.
  - apply cstr_nil_inv in Hn as [t ->]; destruct Hh as (t' & -> & _).
    rewrite (bool_decide_eq_true_2 (_ `prefix_of` _)) by apply prefix_nil.
    destruct hb as [|a hb]; cbn [strstr_here app]; rewrite decide_False by naive_solver; done.
  - apply cstr_cons_inv in Hn as (n' & -> & Hb & Hn).
    destruct hb as [|a hb].
    + apply cstr_nil_inv in Hh as [t ->]; cbn [strstr_here app]; rewrite decide_False by naive_solver.
      f_equal; apply bool_decide_ext; split; [done|].
      intros H; by apply prefix_nil_inv in H.
    + apply cstr_cons_inv in Hh as (h' & -> & Ha & Hh); cbn [strstr_here app]; case_decide as Hab.
      * destruct Hab as (_ & _ & ->); rewrite (IH _ _ _ Hh Hn); f_equal.
        apply bool_decide_ext; split; [apply prefix_cons|apply prefix_cons_inv_2].
      * f_equal; apply bool_decide_ext; split; [done|].
        intros H; apply prefix_cons_inv_1 in H; naive_solver.
Qed.

(** [first_match hb nb o]: [o] is the least offset at which [nb] occurs. *)
Definition first_match (hb nb : list Z) (o : option Z) : Prop :=
  match o with
  | Some k => 0 <= k /\ nb `prefix_of` drop (Z.to_nat k) hb /\
      forall j, (j < Z.to_nat k)%nat -> ~ nb `prefix_of` drop j hb
  | None => forall j, ~ nb `prefix_of` drop j hb
  end.

Lemma first_match_step c hb nb o :
  ~ nb `prefix_of` (c :: hb) -> first_match hb nb o ->
  first_match (c :: hb) nb (option_map (Z.add 1) o).
Proof.
  intros Hn; destruct o as [k|]; simpl.
  - intros (Hk & Hp & Hl); split; [lia|].
    replace (Z.to_nat (1 + k)) with (S (Z.to_nat k)) by lia; split; [done|].
    intros [|j] Hj; simpl; [done|apply Hl; lia].
  - intros Hl [|j]; simpl; [done|apply Hl].
Qed.

Lemma strstr_scan_spec h hb n nb :
  cstr h hb -> cstr n nb -> nb <> [] ->
  exists o, strstr_scan h n = Ok o /\ first_match hb nb o.
Proof.
  intros Hh Hn Hne; revert h Hh; induction hb as [|c hb IH]; intros h Hh.
  - apply cstr_nil_inv in Hh as [t ->]; exists None; split; [done|].
    intros j H; rewrite drop_nil in H; by apply prefix_nil_inv in H.
  - pose proof Hh as Hh'; apply cstr_cons_inv in Hh as (h' & -> & Hc & Hh).
    cbn [strstr_scan]; rewrite decide_False, (strstr_here_cstr _ _ _ _ Hh' Hn) by done.
    mstep; case_bool_decide as Hp.
    + exists (Some 0); split; [done|]; split_and!; [lia|done|lia].
    + destruct (IH _ Hh) as (o & -> & Ho); eexists; split; [done|].
      by apply first_match_step.
Qed.

(** [k_strstr] returns the first offset at which the needle occurs in the
    haystack, and NULL exactly when it occurs nowhere. *)
Theorem k_strstr_first h hb n nb :
  cstr h hb -> cstr n nb -> exists o, k_strstr h n = Ok o /\ first_match hb nb o.
Proof.
  intros Hh Hn; unfold k_strstr; destruct nb as [|b nb].
  - apply cstr_nil_inv in Hn as [t ->]; exists (Some 0); split; [done|].
    split_and!; [lia|apply prefix_nil|lia].
  - pose proof Hn as Hn'; apply cstr_cons_inv in Hn as (n' & -> & Hb & Hn).
    change (zget (b :: n') 0) with (Ok b); mstep; rewrite decide_False by done.
    by eapply strstr_scan_spec.
Qed.

(** ** [memmove] and [memcpy] *)

Section Move.
Variables dest src : Z.
Implicit Types M : list Z.

(** [moved M M' i n]: bytes [i .. i + n - 1] of the destination are those of
    the source in [M], the rest of the memory is as in [M]. *)
Definition moved (M M' : list Z) (i : Z) (n : nat) : Prop :=
  length M' = length M /\
  forall k : nat, M' !! k =
    if decide (dest + i <= Z.of_nat k < dest + i + Z.of_nat n)
    then M !! Z.to_nat (src + (Z.of_nat k - dest)) else M !! k.

(** One byte of either loop. *)
Lemma move_byte M i :
  0 <= dest + i < Z.of_nat (length M) -> 0 <= src + i < Z.of_nat (length M) ->
  exists x, zget M (src + i) = Ok x /\ M !! Z.to_nat (src + i) = Some x /\
    zset M (dest + i) x = Ok (<[Z.to_nat (dest + i) := x]> M).
Proof.
  intros Hd Hs.
  destruct (lookup_lt_is_Some_2 M (Z.to_nat (src + i))) as [x Hx]; [lia|].
  exists x; split_and!; [by apply zget_lookup; [lia|]|done|by apply zset_ok].
Qed.

Lemma move_up_moved n M i :
  dest < src -> 0 <= dest + i -> 0 <= i ->
  src + i + Z.of_nat n <= Z.of_nat (length M) ->
  exists M', move_up M dest src i n = Ok M' /\ moved M M' i n.
Proof.
  intros Hds; revert M i; induction n as [|n IH]; intros M i Hd Hi Hs.
  - exists M; split; [done|]; split; [done|]; intros k; rewrite decide_False by lia; done.
  - destruct (move_byte M i) as (x & Hx & HMx & Hset); [lia|lia|].
    cbn [move_up]; rewrite Hx; mstep; rewrite Hset; mstep.
    destruct (IH (<[Z.to_nat (dest + i) := x]> M) (i + 1)) as (M' & HM' & Hlen & Hk);
      [lia|lia|rewrite length_insert; lia|].
    exists M'; split; [done|]; split; [by rewrite Hlen, length_insert|].
    intros k; rewrite Hk; destruct (decide (k = Z.to_nat (dest + i))) as [->|Hne].
    + rewrite decide_False, list_lookup_insert_eq, decide_True by (rewrite ?length_insert; lia).
      rewrite <- HMx; f_equal; lia.
    + repeat case_decide; rewrite ?list_lookup_insert_ne by lia; try done; lia.
Qed.

Lemma move_down_moved n M :
  src < dest -> 0 <= src -> dest + Z.of_nat n <= Z.of_nat (length M) ->
  exists M', move_down M dest src n = Ok M' /\ moved M M' 0 n.
Proof.
  intros Hds Hs; revert M; induction n as [|n IH]; intros M Hd.
  - exists M; split; [done|]; split; [done|]; intros k; rewrite decide_False by lia; done.
  - destruct (move_byte M (Z.of_nat n)) as (x & Hx & HMx & Hset); [lia|lia|].
    cbn [move_down]; rewrite Hx; mstep; rewrite Hset; mstep.
    destruct (IH (<[Z.to_nat (dest + Z.of_nat n) := x]> M)) as (M' & HM' & Hlen & Hk);
      [rewrite length_insert; lia|].
    exists M'; split; [done|]; split; [by rewrite Hlen, length_insert|].
    intros k; rewrite Hk; destruct (decide (k = Z.to_nat (dest + Z.of_nat n))) as [->|Hne].
    + rewrite decide_False, list_lookup_insert_eq, decide_True by (rewrite ?length_insert; lia).
      rewrite <- HMx; f_equal; lia.
    + repeat case_decide; rewrite ?list_lookup_insert_ne by lia; try done; lia.
Qed.
End Move.

(** [memmove] leaves at the destination exactly the bytes the source held
    before the call, however the two ranges overlap, and changes nothing else. *)
Theorem memmove_overlap M dest src n :
  0 <= dest -> 0 <= src ->
  dest + Z.of_nat n <= Z.of_nat (length M) -> src + Z.of_nat n <= Z.of_nat (length M) ->
  exists M', memmove M dest src n = Ok M' /\ moved dest src M M' 0 n.
Proof.
  intros Hd Hs Hdl Hsl; unfold memmove; case_decide; [apply move_up_moved; lia|].
  case_decide; [apply move_down_moved; lia|].
  exists M; split; [done|]; split; [done|]; intros k; case_decide; [|done].
  f_equal; lia.
Qed.

(** Source [2 .. 5], destination [4 .. 7]. *)
Lemma memmove_overlap_witness :
  exists M', memmove [0;1;2;3;4;5;6;7] 4 2 4 = Ok M' /\
    moved 4 2 [0;1;2;3;4;5;6;7] M' 0 4 /\ M' = [0;1;2;3;2;3;4;5].
Proof.
  destruct (memmove_overlap [0;1;2;3;4;5;6;7] 4 2 4) as (M' & H & Hm);
    [simpl; lia..|].
  exists M'; split; [done|]; split; [done|].
  vm_compute in H; by injection H as <-.
Defined.

Lemma read_bytes_ok src ip n :
  0 <= ip -> ip + Z.of_nat n <= Z.of_nat (length src) ->
  read_bytes src ip n = Ok (take n (drop (Z.to_nat ip) src)).
Proof. intros; unfold read_bytes; by rewrite decide_True. Qed.

Lemma zset_mid {A} (a t : list A) x v i :
  i = Z.of_nat (length a) -> zset (a ++ x :: t) i v = Ok (a ++ v :: t).
Proof.
  intros ->; rewrite zset_ok by (rewrite length_app; simpl; lia).
  by rewrite Nat2Z.id, insert_app_r_alt, Nat.sub_diag by lia.
Qed.

Lemma zget_mid {A} (a t : list A) x i :
  i = Z.of_nat (length a) -> zget (a ++ x :: t) i = Ok x.
Proof.
  intros ->; apply zget_lookup; [lia|].
  by rewrite Nat2Z.id, lookup_app_r, Nat.sub_diag by lia.
Qed.

Lemma write_bytes_app dpre rest bs op :
  op = Z.of_nat (length dpre) -> (length bs <= length rest)%nat ->
  write_bytes (dpre ++ rest) op bs = Ok (dpre ++ bs ++ drop (length bs) rest).
Proof.
  revert dpre rest op; induction bs as [|b bs IH]; intros dpre rest op -> Hl; [done|].
  destruct rest as [|x rest]; cbn [length] in Hl; [lia|]; cbn [write_bytes].
  rewrite zset_mid by done; mstep.
  replace (dpre ++ b :: rest) with ((dpre ++ [b]) ++ rest) by (by rewrite <- app_assoc).
  rewrite (IH (dpre ++ [b])); [by rewrite <- app_assoc|rewrite length_app; simpl; lia|lia].
Qed.

(** ** Printing and reading numbers *)

(** The swap loop reverses what is between [a] and [b]. *)
Lemma swap_loop_rev m a b t i k :
  length b = length a -> i = Z.of_nat (length a + length m + length b) ->
  k = Nat.div2 (length m) ->
  swap_loop (a ++ m ++ b ++ t) i (Z.of_nat (length a)) k = Ok (a ++ rev m ++ b ++ t).
Proof.
  remember (length m) as len eqn:Hlen; revert m a b k Hlen.
  induction len as [len IH] using lt_wf_ind; intros m a b k Hlen Hab -> ->.
  destruct m as [|x m]; simpl in Hlen; [by subst|].
  destruct m as [|y m _] using rev_ind; simpl in Hlen; [by subst|].
  rewrite length_app in Hlen; simpl in Hlen; subst len.
  replace (S (length m + 1)) with (S (S (length m))) in * by lia; cbn [Nat.div2 swap_loop].
  replace (a ++ (x :: m ++ [y]) ++ b ++ t) with (a ++ x :: (m ++ y :: b ++ t))
    by (by simpl; rewrite <- app_assoc).
  rewrite (zget_mid a _ x (Z.of_nat (length a))) by done; mstep.
  replace (a ++ x :: (m ++ y :: b ++ t)) with ((a ++ x :: m) ++ y :: b ++ t)
    by (by rewrite <- app_assoc).
  rewrite zget_mid by (rewrite length_app; simpl; lia); mstep.
  replace ((a ++ x :: m) ++ y :: b ++ t) with (a ++ x :: (m ++ y :: b ++ t))
    by (by rewrite <- app_assoc).
  rewrite (zset_mid a _ x y (Z.of_nat (length a))) by done; mstep.
  replace (a ++ y :: (m ++ y :: b ++ t)) with ((a ++ y :: m) ++ y :: b ++ t)
    by (by rewrite <- app_assoc).
  rewrite zset_mid by (rewrite length_app; simpl; lia); mstep.
  replace ((a ++ y :: m) ++ x :: b ++ t) with ((a ++ [y]) ++ m ++ (x :: b) ++ t)
    by (by rewrite <- !app_assoc).
  replace (Z.of_nat (length a) + 1) with (Z.of_nat (length (a ++ [y])))
    by (rewrite length_app; simpl; lia).
  rewrite (IH (length m)); [|lia|done|rewrite length_app; simpl; lia|rewrite length_app; simpl; lia|done].
  cbn [rev]; rewrite rev_app_distr; simpl; by rewrite <- !app_assoc.
Qed.

Lemma reverse_buf_rev m t i :
  i = Z.of_nat (length m) -> reverse_buf (m ++ t) i = Ok (rev m ++ t).
Proof.
  intros ->; unfold reverse_buf; apply (swap_loop_rev m [] [] t); simpl; [done|lia|].
  rewrite Nat.div2_div, <- (Nat2Z.id (length m / 2)); f_equal; by rewrite Nat2Z.inj_div.
Qed.

(** The digits that [digit_loop] stores, least significant first. *)
Fixpoint rdigits (digit next : Z -> Z) (fuel : nat) (n : Z) : list Z :=
  match fuel with
  | O => []
  | S f => if decide (n > 0) then digit n :: rdigits digit next f (next n) else []
  end.

Lemma digit_loop_rdigits digit next b fuel pre rest i n :
  1 < b -> (forall n, next n = n / b) -> n < b ^ Z.of_nat fuel ->
  i = Z.of_nat (length pre) -> (fuel <= length rest)%nat ->
  let ds := rdigits digit next fuel n in
  digit_loop digit next fuel (pre ++ rest) i n =
    Ok (pre ++ ds ++ drop (length ds) rest, i + Z.of_nat (length ds)).
Proof.
  intros Hb Hnext; revert pre rest i n.
  induction fuel as [|f IH]; intros pre rest i n Hn -> Hlen; cbn [digit_loop rdigits].
  - rewrite decide_False by lia; simpl; do 2 f_equal; lia.
  - destruct (decide (n > 0)) as [Hpos|]; [|simpl; do 2 f_equal; lia].
    destruct rest as [|x rest]; cbn [length] in Hlen; [lia|].
    rewrite zset_mid by done; mstep.
    replace (pre ++ digit n :: rest) with ((pre ++ [digit n]) ++ rest) by (by rewrite <- app_assoc).
    rewrite (IH (pre ++ [digit n])); [|rewrite Hnext| |].
    + rewrite <- app_assoc; cbn [length drop app]; do 2 f_equal; lia.
    + apply Z.div_lt_upper_bound; [lia|].
      replace (Z.of_nat (S f)) with (Z.succ (Z.of_nat f)) in Hn by lia.
      rewrite Z.pow_succ_r in Hn; lia.
    + rewrite length_app; simpl; lia.
    + lia.
Qed.

Definition dec_value (acc : Z) (ds : list Z) : Z :=
  foldl (fun a c => a * 10 + (c - 48)) acc ds.
Notation dec_rdigits := (rdigits (fun n => n mod 10 + 48) (fun n => n / 10)).

Lemma dec_rdigits_value fuel n :
  0 <= n < 10 ^ Z.of_nat fuel -> dec_value 0 (rev (dec_rdigits fuel n)) = n.
Proof.
  revert n; induction fuel as [|f IH]; intros n Hn; cbn [rdigits].
  - simpl in *; lia.
  - case_decide as Hpos; [|simpl; lia].
    cbn [rev]; unfold dec_value; rewrite foldl_app; fold (dec_value 0 (rev (dec_rdigits f (n / 10)))).
    rewrite IH; simpl; [pose proof (Z.div_mod n 10); lia|].
    replace (Z.of_nat (S f)) with (Z.succ (Z.of_nat f)) in Hn by lia.
    rewrite Z.pow_succ_r in Hn by lia; split; [apply Z.div_pos; lia|].
    apply Z.div_lt_upper_bound; lia.
Qed.

Lemma dec_rdigits_range fuel n : Forall (fun c => 48 <= c <= 57) (dec_rdigits fuel n).
Proof.
  revert n; induction fuel as [|f IH]; intros n; cbn [rdigits]; [constructor|].
  case_decide; constructor; [pose proof (Z.mod_pos_bound n 10); lia|done].
Qed.

Lemma dec_rdigits_length fuel n : (length (dec_rdigits fuel n) <= fuel)%nat.
Proof.
  revert n; induction fuel as [|f IH]; intros n; cbn [rdigits]; [done|].
  case_decide; cbn [length]; [specialize (IH (n / 10)); lia|lia].
Qed.

Lemma dec_value_mono ds acc :
  Forall (fun c => 48 <= c <= 57) ds -> 0 <= acc -> acc <= dec_value acc ds.
Proof.
  revert acc; induction ds as [|c ds IH]; intros acc H Hacc; simpl; [lia|].
  inversion H; subst; specialize (IH (acc * 10 + (c - 48))); unfold dec_value in *.
  etrans; [|apply IH; [done|lia]]; lia.
Qed.

Lemma atoi_loop_value ds c t acc :
  Forall (fun c => 48 <= c <= 57) ds -> ~ 48 <= c <= 57 -> 0 <= acc ->
  dec_value acc ds < 2 ^ 31 -> atoi_loop (ds ++ c :: t) acc = Ok (dec_value acc ds).
Proof.
  revert acc; induction ds as [|d ds IH]; intros acc H Hc Hacc Hv; cbn [app atoi_loop].
  - by rewrite decide_False.
  - inversion H; subst; rewrite decide_True by done.
    pose proof (dec_value_mono ds (acc * 10 + (d - 48)) ltac:(done) ltac:(lia)).
    cbn [dec_value foldl] in Hv; fold (dec_value (acc * 10 + (d - 48)) ds) in Hv.
    rewrite (i32_small (acc * 10)), i32_small by lia.
    apply IH; [done|done|lia|done].
Qed.

Lemma print_zero_eq x y buf : print_zero (x :: y :: buf) = Ok (48 :: 0 :: buf).
Proof.
  unfold print_zero; rewrite (zset_mid [] (y :: buf) x 48) by done; mstep.
  by rewrite (zset_mid [48] buf y 0) by done.
Qed.

(** What [itoa] stores, for every [int] but the least one. *)
Lemma itoa_spec n buf :
  - 2 ^ 31 < n < 2 ^ 31 -> (12 <= length buf)%nat ->
  exists ds t, itoa n buf = Ok ((if decide (n < 0) then [45] else []) ++ ds ++ 0 :: t) /\
    Forall (fun c => 48 <= c <= 57) ds /\ dec_value 0 ds = Z.abs n /\
    length ((if decide (n < 0) then [45] else []) ++ ds ++ 0 :: t) = length buf.
Proof.
  intros Hn Hlen; unfold itoa; case_decide as H0.
  { subst; destruct buf as [|x [|y buf]]; cbn [length] in Hlen; [lia..|].
    exists [48], buf; split; [by rewrite print_zero_eq|]; split; [repeat constructor; lia|done]. }
  set (m := if bool_decide (n < 0) then i32 (- n) else n).
  assert (m = Z.abs n) as ->.
  { unfold m; case_bool_decide; [rewrite i32_small|]; lia. }
  set (ds := dec_rdigits 10 (Z.abs n)).
  pose proof (dec_rdigits_length 10 (Z.abs n)) as Hdl; fold ds in Hdl.
  pose proof (digit_loop_rdigits (fun n => n mod 10 + 48) (fun n => n / 10) 10 10 [] buf 0
    (Z.abs n) ltac:(lia) ltac:(done) ltac:(lia) ltac:(done) ltac:(lia)) as E.
  cbv zeta in E; fold ds in E; cbn [app] in E; rewrite E; mstep.
  exists (rev ds), (drop (length ds + (if decide (n < 0) then 2 else 1)) buf).
  assert (Forall (fun c => 48 <= c <= 57) (rev ds)) by (apply Forall_rev, dec_rdigits_range).
  assert (dec_value 0 (rev ds) = Z.abs n) by (apply dec_rdigits_value; lia).
  destruct (drop (length ds) buf) as [|x [|y rest]] eqn:Hd;
    pose proof (length_drop buf (length ds)) as Hl; rewrite Hd in Hl; cbn [length] in Hl; try lia.
  pose proof (f_equal (drop 1) Hd) as Hd1; pose proof (f_equal (drop 2) Hd) as Hd2.
  rewrite drop_drop in Hd1, Hd2; cbn [drop] in Hd1, Hd2.
  split; [|split; [done|split; [done|]]].
  - case_bool_decide; destruct (decide (n < 0)); [|lia|lia|].
    + rewrite zset_mid by lia; mstep.
      replace (ds ++ 45 :: y :: rest) with ((ds ++ [45]) ++ y :: rest) by (by rewrite <- app_assoc).
      rewrite zset_mid by (rewrite length_app; simpl; lia); mstep.
      rewrite reverse_buf_rev by (rewrite length_app; simpl; lia).
      by rewrite rev_app_distr, Hd2, <- app_assoc.
    + mstep; rewrite zset_mid by lia; mstep.
      by rewrite reverse_buf_rev, Hd1 by lia.
  - rewrite !length_app; cbn [length]; rewrite length_rev, length_drop.
    case_decide; cbn [length]; lia.
Qed.

(** what [itoa] prints, [atoi] reads back: for every [int] except the least
    one and a buffer of at least 12 bytes, [itoa] stores a C string inside the
    buffer and [atoi] of it is the number. *)
Theorem itoa_atoi_roundtrip n buf :
  - 2 ^ 31 < n < 2 ^ 31 -> (12 <= length buf)%nat ->
  exists out b, itoa n buf = Ok out /\ cstr out b /\ length out = length buf /\
    atoi out = Ok n.
Proof.
  intros Hn Hlen; destruct (itoa_spec n buf Hn Hlen) as (ds & t & E & Hds & Hv & Hl).
  eexists _, ((if decide (n < 0) then [45] else []) ++ ds); split; [done|].
  split; [exists t; split; [by rewrite <- app_assoc|]|split; [done|]].
  - rewrite Forall_forall in Hds; intros Hin; apply elem_of_app in Hin as [Hin|Hin].
    + case_decide; set_solver.
    + apply Hds in Hin; lia.
  - assert (atoi_loop (ds ++ 0 :: t) 0 = Ok (Z.abs n)) as Ha.
    { rewrite <- Hv; apply atoi_loop_value; [done|lia|lia|rewrite Hv; lia]. }
    unfold atoi; case_decide; cbn [app].
    + change (zget (45 :: ds ++ 0 :: t) 0) with (Ok 45); mstep.
      rewrite decide_True by done; change (drop 1 _) with (ds ++ 0 :: t).
      rewrite Ha; mstep; rewrite i32_small by lia; f_equal; lia.
    + destruct ds as [|d ds]; cbn [app].
      * simpl in Hv; assert (n = 0) as -> by lia; done.
      * change (zget (d :: ds ++ 0 :: t) 0) with (Ok d); mstep.
        inversion Hds; subst; rewrite decide_False by lia.
        cbn [app] in Ha; rewrite Ha; mstep; f_equal; lia.
Qed.

Lemma itoa_atoi_roundtrip_witness :
  exists out b, itoa (-2026) (repeat 7 12) = Ok out /\ cstr out b /\
    length out = 12%nat /\ atoi out = Ok (-2026).
Proof. apply (itoa_atoi_roundtrip (-2026) (repeat 7 12)); [lia|simpl; lia]. Defined.

(** The least [int] cannot be negated: [itoa] prints a lone minus sign. *)
Lemma itoa_int_min x y buf : itoa (- 2 ^ 31) (x :: y :: buf) = Ok (45 :: 0 :: buf).
Proof.
  unfold itoa; rewrite decide_False by lia.
  change (bool_decide (- 2 ^ 31 < 0)) with true; cbv iota.
  change (i32 (- - 2 ^ 31)) with (- 2 ^ 31); cbn [digit_loop].
  rewrite decide_False by lia; mstep.
  rewrite (zset_mid [] (y :: buf) x 45) by done; mstep.
  by rewrite (zset_mid [45] buf y 0) by done.
Qed.

Lemma k_strstr_first_witness :
  exists o, k_strstr [97;98;97;98;99;0] [97;98;99;0] = Ok o /\
    first_match [97;98;97;98;99] [97;98;99] o.
Proof.
  apply k_strstr_first; repeat (apply cstr_cons; [lia|]); apply cstr_nil.
Defined.
