(* ===== verification/Pbuf.v ===== *)
(** * Packet buffers (net/third_party/lwip/core/pbuf.c)

    The part of lwIP's packet buffers that the kernel's socket buffers rest on:
    reference counting and release of a chain, removal of leading bytes,
    concatenation, and copying out.  A pbuf is a heap object; its payload pointer
    is a position [p_off] in the block [p_mem] it points into.  Lengths are the
    16-bit fields of the C structure.

    The second half relates a chain to the bytes it holds: [pchain s p l] says
    that the chain at [p] consists of the pbufs of [l], singly referenced and with
    consistent length fields, and [pdata l] is the packet. *)

From stdpp Require Import base tactics list numbers gmap sets.
From Stdlib Require Import ZArith Lia.
From S2P Require Import Prelude Kutils.

Local Open Scope Z_scope.

Definition PBUF_FLAG_IS_CUSTOM : Z := 2.
Definition PBUF_TYPE_ALLOC_SRC_MASK : Z := 15.
Definition PBUF_TYPE_ALLOC_SRC_MASK_STD_HEAP : Z := 0.
Definition PBUF_TYPE_ALLOC_SRC_MASK_STD_MEMP_PBUF : Z := 1.
Definition PBUF_TYPE_ALLOC_SRC_MASK_STD_MEMP_PBUF_POOL : Z := 2.

Record pbuf := {
  p_next : Z;
  p_mem : list Z;
  p_off : Z;
  p_tot_len : Z;
  p_len : Z;
  p_type_internal : Z;
  p_flags : Z;
  p_ref : Z
}.

Definition set_p_next (n : Z) (d : pbuf) : pbuf :=
  {| p_next := n; p_mem := p_mem d; p_off := p_off d; p_tot_len := p_tot_len d;
     p_len := p_len d; p_type_internal := p_type_internal d; p_flags := p_flags d;
     p_ref := p_ref d |}.

Definition set_p_tot_len (t : Z) (d : pbuf) : pbuf :=
  {| p_next := p_next d; p_mem := p_mem d; p_off := p_off d; p_tot_len := t;
     p_len := p_len d; p_type_internal := p_type_internal d; p_flags := p_flags d;
     p_ref := p_ref d |}.

Definition set_p_ref (r : Z) (d : pbuf) : pbuf :=
  {| p_next := p_next d; p_mem := p_mem d; p_off := p_off d; p_tot_len := p_tot_len d;
     p_len := p_len d; p_type_internal := p_type_internal d; p_flags := p_flags d;
     p_ref := r |}.

(** The memory a released pbuf goes back to. *)
Inductive release := ToPool | ToMemp | ToHeap.

(** The live pbufs by address, and the releases so far. *)
Record pb_state := {
  pb_heap : gmap Z pbuf;
  pb_log : list (Z * release)
}.

Definition pbuf_at (s : pb_state) (p : Z) : res pbuf := of_opt (pb_heap s !! p).

Definition pb_put (p : Z) (d : pbuf) (s : pb_state) : pb_state :=
  {| pb_heap := <[p := d]> (pb_heap s); pb_log := pb_log s |}.

Definition pb_gone (p : Z) (r : release) (s : pb_state) : pb_state :=
  {| pb_heap := delete p (pb_heap s); pb_log := pb_log s ++ [(p, r)] |}.

Section operations.

(** [pc->custom_free_function(p)], a function pointer of a custom pbuf. *)
Variable custom_free_function : Z -> pb_state -> pb_state.

(** The deallocation in the body of [pbuf_free]; a type that is none of the
    known ones only raises an assertion message. *)
Definition pbuf_dealloc (p : Z) (d : pbuf) (s : pb_state) : pb_state :=
  let alloc_src := Z.land (p_type_internal d) PBUF_TYPE_ALLOC_SRC_MASK in
  if decide (Z.land (p_flags d) PBUF_FLAG_IS_CUSTOM ≠ 0) then custom_free_function p s
  else if decide (alloc_src = PBUF_TYPE_ALLOC_SRC_MASK_STD_MEMP_PBUF_POOL) then
    pb_gone p ToPool s
  else if decide (alloc_src = PBUF_TYPE_ALLOC_SRC_MASK_STD_MEMP_PBUF) then
    pb_gone p ToMemp s
  else if decide (alloc_src = PBUF_TYPE_ALLOC_SRC_MASK_STD_HEAP) then
    pb_gone p ToHeap s
  else s.

(** One turn of the loop of [pbuf_free]; the state is [(p, count, s)]. *)
Definition free_step (st : Z * Z * pb_state)
  : res (Z * Z * pb_state + Z * pb_state) :=
  let '(p, count, s) := st in
  if decide (p = 0) then Ok (inr (count, s))
  else
    d ← pbuf_at s p;
    if decide (p_ref d = 0) then Ok (inr (count, s))
    else
      let ref := u8 (p_ref d - 1) in
      let d := set_p_ref ref d in
      let s := pb_put p d s in
      if decide (ref = 0) then
        Ok (inl (p_next d, u8 (count + 1), pbuf_dealloc p d s))
      else Ok (inl (0, count, s)).

(** The result is the number of pbufs released from the head of the chain, a
    [u8_t]. *)
Definition pbuf_free (fuel : nat) (p : Z) (s : pb_state) : res (Z * pb_state) :=
  loop fuel free_step (p, 0, s).

(** 0 on success; a size above the pbuf's length is refused. *)
Definition pbuf_remove_header (p size : Z) (s : pb_state) : res (Z * pb_state) :=
  if decide (p = 0 \/ 65535 < size) then Ok (1, s)
  else if decide (size = 0) then Ok (0, s)
  else
    d ← pbuf_at s p;
    let increment_magnitude := u16 size in
    if decide (p_len d < increment_magnitude) then Ok (1, s)
    else
      Ok (0, pb_put p
        {| p_next := p_next d; p_mem := p_mem d; p_off := p_off d + size;
           p_tot_len := u16 (p_tot_len d - increment_magnitude);
           p_len := u16 (p_len d - increment_magnitude);
           p_type_internal := p_type_internal d; p_flags := p_flags d;
           p_ref := p_ref d |} s).

(** One turn of the loop of [pbuf_free_header]; the state is
    [(p, free_left, s)]. *)
Definition free_header_step (fuel : nat) (st : Z * Z * pb_state)
  : res (Z * Z * pb_state + Z * pb_state) :=
  let '(p, free_left, s) := st in
  if decide (free_left = 0 \/ p = 0) then Ok (inr (p, s))
  else
    d ← pbuf_at s p;
    if decide (p_len d <= free_left) then
      '(_, s) ← pbuf_free fuel p (pb_put p (set_p_next 0 d) s);
      Ok (inl (p_next d, u16 (free_left - p_len d), s))
    else
      '(_, s) ← pbuf_remove_header p free_left s;
      Ok (inl (p, 0, s)).

Definition pbuf_free_header (fuel : nat) (q size : Z) (s : pb_state)
  : res (Z * pb_state) :=
  loop fuel (free_header_step fuel) (q, size, s).

(** One turn of the loop of [pbuf_copy_partial]; the state is
    [(p, len, offset, left, copied_total, dst)]. *)
Definition copy_step (s : pb_state) (dp : Z) (st : Z * Z * Z * Z * Z * list Z)
  : res (Z * Z * Z * Z * Z * list Z + Z * list Z) :=
  let '(p, len, offset, left0, copied_total, dst) := st in
  if decide (len = 0 \/ p = 0) then Ok (inr (copied_total, dst))
  else
    d ← pbuf_at s p;
    if decide (offset ≠ 0 /\ p_len d <= offset) then
      Ok (inl (p_next d, len, u16 (offset - p_len d), left0, copied_total, dst))
    else
      let rest := u16 (p_len d - offset) in
      let buf_copy_len := if decide (len < rest) then len else rest in
      bytes ← read_bytes (p_mem d) (p_off d + offset) (Z.to_nat buf_copy_len);
      dst ← write_bytes dst (dp + left0) bytes;
      Ok (inl (p_next d, u16 (len - buf_copy_len), 0, u16 (left0 + buf_copy_len),
               u16 (copied_total + buf_copy_len), dst)).

(** [dataptr] is the position [dp] of the buffer [dst]. *)
Definition pbuf_copy_partial (fuel : nat) (buf : Z) (dst : list Z) (dp len offset : Z)
    (s : pb_state) : res (Z * list Z) :=
  loop fuel (copy_step s dp) (buf, len, offset, 0, 0, dst).

Definition pbuf_clen (fuel : nat) (p : Z) (s : pb_state) : res Z :=
  loop fuel (fun '(p, len) =>
    if decide (p = 0) then Ok (inr len)
    else d ← pbuf_at s p; Ok (inl (p_next d, u16 (len + 1)))) (p, 0).

Definition pbuf_ref (p : Z) (s : pb_state) : res pb_state :=
  if decide (p = 0) then Ok s
  else d ← pbuf_at s p; Ok (pb_put p (set_p_ref (u8 (p_ref d + 1)) d) s).

(** One turn of the loop of [pbuf_cat], or the two stores after it; the total of
    the tail is read again on every turn, as in the code. *)
Definition cat_step (t : Z) (st : Z * pb_state) : res (Z * pb_state + pb_state) :=
  let '(p, s) := st in
  d ← pbuf_at s p;
  td ← pbuf_at s t;
  let d := set_p_tot_len (u16 (p_tot_len d + p_tot_len td)) d in
  if decide (p_next d = 0) then Ok (inr (pb_put p (set_p_next t d) s))
  else Ok (inl (p_next d, pb_put p d s)).

Definition pbuf_cat (fuel : nat) (h t : Z) (s : pb_state) : res pb_state :=
  if decide (h = 0 \/ t = 0) then Ok s else loop fuel (cat_step t) (h, s).

Definition pbuf_chain (fuel : nat) (h t : Z) (s : pb_state) : res pb_state :=
  s ← pbuf_cat fuel h t s; pbuf_ref t s.

Definition pbuf_dechain (fuel : nat) (p : Z) (s : pb_state) : res (Z * pb_state) :=
  d ← pbuf_at s p;
  let q := p_next d in
  if decide (q = 0) then Ok (0, s)
  else
    qd ← pbuf_at s q;
    let s := pb_put q (set_p_tot_len (u16 (p_tot_len d - p_len d)) qd) s in
    let s := pb_put p (set_p_next 0 (set_p_tot_len (p_len d) d)) s in
    '(tail_gone, s) ← pbuf_free fuel q s;
    Ok (if decide (0 < tail_gone) then 0 else q, s).

End operations.

(** ** Chains and their bytes *)

(** A packet: the pbufs of its chain with the bytes each of them holds. *)
Abbreviation packet := (list (Z * list Z)).

Definition pdata (l : packet) : list Z := flat_map snd l.
Definition plen (l : packet) : Z := Z.of_nat (length (pdata l)).

(** [d] holds the bytes [bs] for one owner, and its memory is released to one of
    the known pools. *)
Definition holds_bytes (d : pbuf) (bs : list Z) : Prop :=
  0 <= p_off d /\ p_off d + Z.of_nat (length bs) <= Z.of_nat (length (p_mem d)) /\
  p_len d = Z.of_nat (length bs) /\
  take (length bs) (drop (Z.to_nat (p_off d)) (p_mem d)) = bs /\
  p_ref d = 1 /\ Z.land (p_flags d) PBUF_FLAG_IS_CUSTOM = 0 /\
  Z.land (p_type_internal d) PBUF_TYPE_ALLOC_SRC_MASK <= 2 /\
  0 <= p_type_internal d.

Fixpoint pchain (h : gmap Z pbuf) (p : Z) (l : packet) : Prop :=
  match l with
  | [] => p = 0
  | (a, bs) :: l' =>
      p = a /\ a ≠ 0 /\
      exists d, h !! a = Some d /\ holds_bytes d bs /\
        p_tot_len d = plen l /\ plen l < 2 ^ 16 /\ pchain h (p_next d) l'
  end.

(** [h'] is [h] without the addresses [ks]. *)
Definition without (h : gmap Z pbuf) (ks : list Z) (h' : gmap Z pbuf) : Prop :=
  forall a, h' !! a = if decide (a ∈ ks) then None else h !! a.

Lemma plen_cons a bs l : plen ((a, bs) :: l) = Z.of_nat (length bs) + plen l.
Proof. unfold plen, pdata; simpl; rewrite length_app; lia. Qed.

Lemma plen_pos l : 0 <= plen l.
Proof. unfold plen; lia. Qed.

Lemma pchain_ext h h' p l :
  (forall a, a ∈ l.*1 -> h' !! a = h !! a) -> pchain h p l -> pchain h' p l.
Proof.
  revert p; induction l as [|[a bs] l IH]; intros p He; [done|].
  intros (-> & Ha & d & Hd & Hb & Ht & Hs & Hn); simpl in He.
  split; [done|]; split; [done|]; exists d.
  rewrite He by set_solver; split_and!; [done..|]; apply IH; [|done].
  intros; apply He; set_solver.
Qed.

Lemma pchain_live h p l a : pchain h p l -> a ∈ l.*1 -> is_Some (h !! a) /\ a ≠ 0.
Proof.
  revert p; induction l as [|[b bs] l IH]; intros p; simpl; [set_solver|].
  intros (-> & Ha & d & Hd & _ & _ & _ & Hn) Hin.
  apply elem_of_cons in Hin as [->|Hin]; [by rewrite Hd|by apply (IH (p_next d))].
Qed.

Lemma pchain_nonnull h p l : pchain h p l -> 0 < plen l -> p ≠ 0.
Proof. destruct l as [|[a bs] l]; [by unfold plen|by intros (-> & ? & _)]. Qed.

Lemma pchain_pos h p l : pchain h p l -> p ≠ 0 -> l ≠ [].
Proof. by intros H ? ->. Qed.

Lemma pbuf_at_some s p d : pb_heap s !! p = Some d -> pbuf_at s p = Ok d.
Proof. unfold pbuf_at; by intros ->. Qed.

(** *** Copying out *)

Lemma copy_loop_ok s len off l : forall n p out rest dpre,
  pchain (pb_heap s) p l -> 0 <= off < 2 ^ 16 -> 0 <= len ->
  (length l < n)%nat ->
  Z.of_nat (length out) + len < 2 ^ 16 ->
  (length (take (Z.to_nat len) (drop (Z.to_nat off) (pdata l))) <= length rest)%nat ->
  let new := take (Z.to_nat len) (drop (Z.to_nat off) (pdata l)) in
  loop n (copy_step s (Z.of_nat (length dpre)))
    (p, len, off, Z.of_nat (length out), Z.of_nat (length out), dpre ++ out ++ rest)
  = Ok (Z.of_nat (length (out ++ new)), dpre ++ (out ++ new) ++ drop (length new) rest).
Proof.
  revert len off; induction l as [|[a bs] l IH];
    intros len off n p out rest dpre Hp Hoff Hlen Hn Hout Hroom new;
    destruct n as [|n]; simpl in Hn; try lia; rewrite loop_S;
    unfold copy_step at 1.
  - simpl in Hp; rewrite decide_True by (by right).
    unfold new, pdata; simpl; by rewrite drop_nil, take_nil, app_nil_r.
  - destruct Hp as (-> & Ha & d & Hd & Hb & Ht & Hs & Hn').
    destruct (decide (len = 0 \/ a = 0)) as [[->|?]|Hne]; [|done|].
    { unfold new; simpl; by rewrite app_nil_r. }
    rewrite (pbuf_at_some _ _ _ Hd); mstep.
    destruct Hb as (Ho & Hm & Hl & Hbs & _).
    rewrite plen_cons in Hs; pose proof (plen_pos l).
    assert (Epd : pdata ((a, bs) :: l) = bs ++ pdata l) by done.
    destruct (decide (off ≠ 0 /\ p_len d <= off)) as [[Hz Hle]|Hge]; mstep.
    + rewrite u16_small by lia.
      assert (En : new = take (Z.to_nat len) (drop (Z.to_nat (off - p_len d)) (pdata l))).
      { unfold new; rewrite Epd, drop_app_ge by lia; do 3 f_equal; lia. }
      rewrite En; apply IH; try done; try lia.
      fold new in Hroom; by rewrite En in Hroom.
    + assert (Hlo : off <= p_len d) by (destruct (decide (off = 0)); lia).
      rewrite (u16_small (p_len d - off)) by lia.
      set (k := if decide (len < p_len d - off) then len else p_len d - off).
      assert (Hk : 0 <= k <= p_len d - off /\ k <= len /\
                   (k = len \/ k = p_len d - off /\ k <= len)) by (unfold k; case_decide; lia).
      rewrite read_bytes_ok by lia; mstep.
      assert (Eb : take (Z.to_nat k) (drop (Z.to_nat (p_off d + off)) (p_mem d))
                   = take (Z.to_nat k) (drop (Z.to_nat off) bs)).
      { rewrite <- Hbs, skipn_firstn_comm, take_take, drop_drop.
        f_equal; [lia|]; f_equal; lia. }
      rewrite Eb; set (new1 := take (Z.to_nat k) (drop (Z.to_nat off) bs)).
      assert (L1 : Z.of_nat (length new1) = k)
        by (unfold new1; rewrite length_take, length_drop; lia).
      assert (En : new = new1 ++ take (Z.to_nat (len - k)) (drop (Z.to_nat 0) (pdata l))).
      { unfold new, new1; rewrite Epd; change (Z.to_nat 0) with 0%nat; rewrite drop_0.
        rewrite drop_app_le by lia.
        destruct Hk as (Hk1 & Hk2 & [Ek|[Ek Hkl]]).
        - rewrite Ek, Z.sub_diag; simpl; rewrite app_nil_r.
          apply take_app_le; rewrite length_drop; lia.
        - rewrite take_app_ge by (rewrite length_drop; lia); f_equal.
          + symmetry; apply take_ge; rewrite length_drop; lia.
          + f_equal; rewrite length_drop; lia. }
      fold new in Hroom; rewrite En, length_app in Hroom.
      rewrite app_assoc, write_bytes_app by (rewrite ?length_app; lia); mstep.
      rewrite (u16_small (len - k)), (u16_small (Z.of_nat (length out) + k)) by lia.
      replace (Z.of_nat (length out) + k) with (Z.of_nat (length (out ++ new1)))
        by (rewrite length_app; lia).
      replace ((dpre ++ out) ++ new1 ++ drop (length new1) rest)
        with (dpre ++ (out ++ new1) ++ drop (length new1) rest) by (by rewrite !app_assoc).
      rewrite (IH (len - k) 0); [|done|lia|lia|lia|rewrite length_app; lia|
                                 rewrite length_drop; lia].
      rewrite En, drop_drop, !app_assoc, !length_app; do 3 f_equal; lia.
Qed.

(** [pbuf_copy_partial] stores at [dataptr] exactly the bytes of the packet from
    [offset] on, at most [len] of them, over all pbufs of the chain, changes no
    other byte of the buffer, and returns how many it stored. *)
Lemma pbuf_copy_partial_ok s p l dpre rest len off fuel :
  pchain (pb_heap s) p l -> 0 <= len < 2 ^ 16 -> 0 <= off < 2 ^ 16 ->
  (length l < fuel)%nat ->
  let new := take (Z.to_nat len) (drop (Z.to_nat off) (pdata l)) in
  (length new <= length rest)%nat ->
  pbuf_copy_partial fuel p (dpre ++ rest) (Z.of_nat (length dpre)) len off s
  = Ok (Z.of_nat (length new), dpre ++ new ++ drop (length new) rest).
Proof.
  intros Hp Hl Ho Hf new Hroom.
  apply (copy_loop_ok s len off l fuel p [] rest dpre); simpl; by try lia.
Qed.

(** The whole packet. *)
Lemma pbuf_copy_partial_all s p l dpre rest fuel :
  pchain (pb_heap s) p l -> (length l < fuel)%nat -> (length (pdata l) <= length rest)%nat ->
  pbuf_copy_partial fuel p (dpre ++ rest) (Z.of_nat (length dpre)) (plen l) 0 s
  = Ok (plen l, dpre ++ pdata l ++ drop (length (pdata l)) rest).
Proof.
  intros Hp Hf Hroom.
  assert (Hs : plen l < 2 ^ 16).
  { destruct l as [|[a bs] l]; [done|]; by destruct Hp as (_ & _ & d & _ & _ & _ & ? & _). }
  assert (En : take (Z.to_nat (plen l)) (drop (Z.to_nat 0) (pdata l)) = pdata l)
    by (unfold plen; rewrite Nat2Z.id; apply take_ge; simpl; lia).
  pose proof (plen_pos l); rewrite (pbuf_copy_partial_ok s p l) by (rewrite ?En; by try lia).
  by rewrite En.
Qed.

(** The first bytes of a packet, at the start of a buffer. *)
Lemma pbuf_copy_partial_prefix s p l dst k fuel :
  pchain (pb_heap s) p l -> (length l < fuel)%nat -> 0 <= k <= plen l -> k < 2 ^ 16 ->
  k <= Z.of_nat (length dst) ->
  pbuf_copy_partial fuel p dst 0 k 0 s
  = Ok (k, take (Z.to_nat k) (pdata l) ++ drop (Z.to_nat k) dst).
Proof.
  intros Hp Hf Hk Hk' Hd.
  assert (L : length (take (Z.to_nat k) (pdata l)) = Z.to_nat k)
    by (rewrite length_take; unfold plen in Hk; lia).
  rewrite (pbuf_copy_partial_ok s p l [] dst k 0) by (rewrite ?drop_0; try done; lia).
  simpl; rewrite drop_0, L; do 2 f_equal; lia.
Qed.

(** *** Releasing a chain *)

Section release.
Context (cf : Z -> pb_state -> pb_state).

Lemma dealloc_heap p d s :
  Z.land (p_flags d) PBUF_FLAG_IS_CUSTOM = 0 ->
  Z.land (p_type_internal d) PBUF_TYPE_ALLOC_SRC_MASK <= 2 ->
  0 <= p_type_internal d ->
  pb_heap (pbuf_dealloc cf p d s) = delete p (pb_heap s).
Proof.
  intros Hf Ht H0; unfold pbuf_dealloc; rewrite decide_False by (by rewrite Hf; auto).
  assert (0 <= Z.land (p_type_internal d) PBUF_TYPE_ALLOC_SRC_MASK)
    by (apply Z.land_nonneg; by left).
  repeat case_decide; try done.
  unfold PBUF_TYPE_ALLOC_SRC_MASK_STD_HEAP, PBUF_TYPE_ALLOC_SRC_MASK_STD_MEMP_PBUF,
    PBUF_TYPE_ALLOC_SRC_MASK_STD_MEMP_PBUF_POOL in *; lia.
Qed.

(** A pbuf with one reference is released and the walk goes on to its successor. *)
Lemma free_step_last p count s d :
  p ≠ 0 -> pb_heap s !! p = Some d -> p_ref d = 1 ->
  Z.land (p_flags d) PBUF_FLAG_IS_CUSTOM = 0 ->
  Z.land (p_type_internal d) PBUF_TYPE_ALLOC_SRC_MASK <= 2 ->
  0 <= p_type_internal d ->
  exists s', free_step cf (p, count, s) = Ok (inl (p_next d, u8 (count + 1), s')) /\
    pb_heap s' = delete p (pb_heap s).
Proof.
  intros Hp Hd Hr Hf Ht H0; unfold free_step; rewrite decide_False by done.
  rewrite (pbuf_at_some _ _ _ Hd); mstep; rewrite Hr.
  rewrite decide_False by lia; rewrite decide_True by done.
  eexists; split; [done|]; rewrite dealloc_heap by done; simpl.
  by rewrite delete_insert_eq.
Qed.

Lemma free_loop_ok l : forall n p count s,
  pchain (pb_heap s) p l -> NoDup l.*1 -> (length l < n)%nat ->
  exists c s', loop n (free_step cf) (p, count, s) = Ok (c, s') /\
    without (pb_heap s) l.*1 (pb_heap s').
Proof.
  induction l as [|[a bs] l IH]; intros n p count s Hp Hnd Hn;
    destruct n as [|n]; simpl in Hn; try lia; rewrite loop_S.
  - simpl in Hp; subst p; simpl; eexists _, _; split; [done|].
    intros a; by rewrite decide_False by set_solver.
  - destruct Hp as (-> & Ha & d & Hd & (_ & _ & _ & _ & Hr & Hf & Ht & H0) & _ & _ & Hp).
    destruct (free_step_last a count s d) as (s1 & -> & E1); [done..|].
    apply NoDup_cons in Hnd as [Hna Hnd]; simpl in Hna.
    destruct (IH n (p_next d) (u8 (count + 1)) s1) as (c & s' & -> & Hw); [|done|lia|].
    { rewrite E1; eapply pchain_ext; [|done]; intros b Hb.
      apply lookup_delete_ne; set_solver. }
    exists c, s'; split; [done|]; intros b; rewrite Hw, E1; simpl.
    destruct (decide (b = a)) as [->|Hne].
    + rewrite decide_False, decide_True by set_solver; apply lookup_delete_eq.
    + rewrite lookup_delete_ne by done.
      destruct (decide (b ∈ l.*1)); [by rewrite decide_True by set_solver|].
      by rewrite decide_False by set_solver.
Qed.

(** Releasing the only reference to a chain releases every pbuf of it and nothing
    else. *)
Lemma pbuf_free_chain fuel p l s :
  pchain (pb_heap s) p l -> NoDup l.*1 -> (length l < fuel)%nat ->
  exists c s', pbuf_free cf fuel p s = Ok (c, s') /\
    without (pb_heap s) l.*1 (pb_heap s').
Proof. apply free_loop_ok. Qed.

(** *** Removing leading bytes *)

(** [l'] is what is left of the chain [l] after [k] bytes: a suffix of its pbufs. *)
Definition rest_of (h h' : gmap Z pbuf) (l l' : packet) (k : nat) : Prop :=
  pdata l' = drop k (pdata l) /\ l'.*1 `suffix_of` l.*1 /\
  (forall a, a ∈ l.*1 -> a ∉ l'.*1 -> h' !! a = None) /\
  (forall a, a ∉ l.*1 -> h' !! a = h !! a).

Lemma remove_header_ok s a bs l d k :
  pchain (pb_heap s) a ((a, bs) :: l) -> pb_heap s !! a = Some d -> a ∉ l.*1 ->
  0 < k < p_len d ->
  exists s', pbuf_remove_header a k s = Ok (0, s') /\
    pchain (pb_heap s') a ((a, drop (Z.to_nat k) bs) :: l) /\
    (forall b, b ≠ a -> pb_heap s' !! b = pb_heap s !! b).
Proof.
  intros (_ & Ha & d' & Hd' & (Ho & Hm & Hl & Hb & Hr & Hf & Ht & H0) & Htot & Hs & Hp) Hd Hna Hk.
  assert (d' = d) as -> by congruence.
  rewrite plen_cons in Hs, Htot; pose proof (plen_pos l).
  unfold pbuf_remove_header; rewrite decide_False by lia; rewrite decide_False by lia.
  rewrite (pbuf_at_some _ _ _ Hd); mstep; rewrite (u16_small k) by lia.
  rewrite decide_False by lia; eexists; split; [done|]; simpl; split.
  - split; [done|]; split; [done|]; eexists; split; [apply lookup_insert_eq|].
    rewrite plen_cons, length_drop; unfold holds_bytes; simpl.
    rewrite !u16_small by lia; rewrite !length_drop; split; [split_and!; [lia|lia|lia| |done..]|].
    + rewrite <- Hb at 2; rewrite skipn_firstn_comm, drop_drop.
      do 2 f_equal; lia.
    + split; [lia|]; split; [lia|]; eapply pchain_ext; [|done].
      intros b Hb'; apply lookup_insert_ne; set_solver.
  - intros b Hb'; by apply lookup_insert_ne.
Qed.

Lemma free_header_loop_ok fuel l : forall n p s k,
  pchain (pb_heap s) p l -> NoDup l.*1 -> (1 < fuel)%nat -> (length l + 1 < n)%nat ->
  0 <= k <= plen l ->
  exists p' s' l', loop n (free_header_step cf fuel) (p, k, s) = Ok (p', s') /\
    pchain (pb_heap s') p' l' /\ rest_of (pb_heap s) (pb_heap s') l l' (Z.to_nat k).
Proof.
  induction l as [|[a bs] l IH]; intros n p s k Hp Hnd Hfuel Hn Hk;
    destruct n as [|n]; simpl in Hn; try lia; rewrite loop_S; unfold free_header_step at 1.
  - simpl in Hp; subst p; rewrite decide_True by (by right).
    exists 0, s, []; split; [done|]; split; [done|]; split_and!; try done.
    unfold pdata; simpl; by rewrite drop_nil.
  - destruct (decide (k = 0)) as [->|Hk0].
    { rewrite decide_True by (by left); exists p, s, ((a, bs) :: l).
      split; [done|]; split; [done|]; split_and!; by try done. }
    pose proof Hp as (-> & Ha & d & Hd & (_ & _ & Hl & _ & Hr & Hf & Ht & H0) & Htot & Hs & Hp').
    rewrite decide_False by lia; rewrite (pbuf_at_some _ _ _ Hd); mstep.
    apply NoDup_cons in Hnd as [Hna Hnd]; simpl in Hna.
    rewrite plen_cons in Hs, Hk; pose proof (plen_pos l).
    assert (Epd : pdata ((a, bs) :: l) = bs ++ pdata l) by done.
    destruct (decide (p_len d <= k)) as [Hle|Hgt].
    + unfold pbuf_free; destruct fuel as [|[|fuel]]; [lia..|]; rewrite loop_S.
      destruct (free_step_last a 0 (pb_put a (set_p_next 0 d) s) (set_p_next 0 d))
        as (s1 & -> & E1); [done|apply lookup_insert_eq|done..|].
      rewrite loop_S; unfold free_step; rewrite decide_True by done; mstep.
      rewrite u16_small by lia; simpl in E1; rewrite delete_insert_eq in E1.
      destruct (IH n (p_next d) s1 (k - p_len d)) as (p' & s' & l' & E & Hc & Hd1 & Hd2 & Hd3 & Hd4);
        [|done|lia|lia|lia|].
      { rewrite E1; eapply pchain_ext; [|done]; intros b Hb.
        apply lookup_delete_ne; set_solver. }
      exists p', s', l'; split; [exact E|]; split; [done|]; split_and!.
      * rewrite Hd1, Epd, drop_app_ge by lia; f_equal; lia.
      * by apply suffix_cons_r.
      * intros b Hb Hb'; destruct (decide (b = a)) as [->|].
        -- rewrite Hd4, E1 by done; apply lookup_delete_eq.
        -- apply Hd3; set_solver.
      * intros b Hb; rewrite Hd4, E1 by set_solver; apply lookup_delete_ne; set_solver.
    + destruct (remove_header_ok s a bs l d k) as (s1 & -> & Hc & Ho); [done..|lia|]; mstep.
      destruct n as [|n]; [lia|]; rewrite loop_S; unfold free_header_step at 1.
      rewrite decide_True by (by left).
      exists a, s1, ((a, drop (Z.to_nat k) bs) :: l); split; [done|]; split; [done|].
      split_and!.
      * rewrite Epd, drop_app_le by lia; done.
      * done.
      * by intros b ? [].
      * intros b Hb; apply Ho; set_solver.
Qed.

(** [pbuf_free_header] drops exactly the first [size] bytes of a packet: the pbufs
    they fill are released, and the chain that is left holds the rest. *)
Lemma pbuf_free_header_ok fuel l p s k :
  pchain (pb_heap s) p l -> NoDup l.*1 -> (length l + 1 < fuel)%nat ->
  0 <= k <= plen l ->
  exists p' s' l', pbuf_free_header cf fuel p k s = Ok (p', s') /\
    pchain (pb_heap s') p' l' /\ rest_of (pb_heap s) (pb_heap s') l l' (Z.to_nat k).
Proof.
  intros Hp Hnd Hf Hk; apply (free_header_loop_ok fuel l); try done; lia.
Qed.

End release.

(** *** Concatenation *)

Lemma plen_app l1 l2 : plen (l1 ++ l2) = plen l1 + plen l2.
Proof. unfold plen, pdata; rewrite flat_map_app, length_app; lia. Qed.

Lemma cat_loop_ok t td l2 l1 : forall n p s,
  pchain (pb_heap s) p l1 -> l1 ≠ [] -> pchain (pb_heap s) t l2 ->
  pb_heap s !! t = Some td -> p_tot_len td = plen l2 -> t ≠ 0 ->
  NoDup (l1 ++ l2).*1 -> t ∈ l2.*1 -> plen l1 + plen l2 < 2 ^ 16 -> (length l1 <= n)%nat ->
  exists s', loop n (cat_step t) (p, s) = Ok s' /\
    pchain (pb_heap s') p (l1 ++ l2) /\
    (forall a, a ∉ l1.*1 -> pb_heap s' !! a = pb_heap s !! a).
Proof.
  induction l1 as [|[a bs] l1 IH]; intros n p s Hp Hne Ht Htd Ett Ht0 Hnd Hin Hlt Hn; [done|].
  destruct n as [|n]; simpl in Hn; [lia|]; rewrite loop_S; unfold cat_step at 1.
  destruct Hp as (-> & Ha & d & Hd & Hb & Htot & Hs & Hp).
  rewrite (pbuf_at_some _ _ _ Hd), (pbuf_at_some _ _ _ Htd); mstep.
  simpl in Hnd; apply NoDup_cons in Hnd as [Hna Hnd]; rewrite fmap_app in Hna.
  rewrite plen_cons in *; pose proof (plen_pos l1); pose proof (plen_pos l2).
  assert (Hat : a ≠ t) by set_solver.
  rewrite u16_small by lia; destruct (decide (p_next _ = 0)) as [E0|E0]; simpl in E0.
  - assert (l1 = []) as ->.
    { destruct l1 as [|[b cs] l1]; [done|]; destruct Hp as (? & ? & _); congruence. }
    eexists; split; [done|]; simpl; split; [|intros b Hb'; apply lookup_insert_ne; set_solver].
    split; [done|]; split; [done|]; eexists; split; [apply lookup_insert_eq|].
    rewrite plen_cons; unfold plen at 1 in Htot; simpl in *; split; [exact Hb|].
    split; [lia|]; split; [lia|].
    eapply pchain_ext; [|done]; intros b Hb'; apply lookup_insert_ne; set_solver.
  - set (d1 := set_p_tot_len _ d).
    destruct (IH n (p_next d) (pb_put a d1 s)) as (s' & E & Hc & Ho); simpl.
    + eapply pchain_ext; [|done]; intros b Hb'; apply lookup_insert_ne; set_solver.
    + by eapply pchain_pos.
    + eapply pchain_ext; [|done]; intros b Hb'; apply lookup_insert_ne; set_solver.
    + by rewrite lookup_insert_ne.
    + done.
    + done.
    + done.
    + done.
    + lia.
    + lia.
    + exists s'; split; [exact E|]; split.
      * split; [done|]; split; [done|]; exists d1.
        rewrite Ho by set_solver; simpl; rewrite lookup_insert_eq.
        rewrite plen_cons, plen_app; split_and!; try done; simpl; lia.
      * intros b Hb'; simpl in Hb'; rewrite Ho by set_solver; simpl.
        apply lookup_insert_ne; set_solver.
Qed.

(** [pbuf_cat] makes one packet of two: its bytes are those of the head followed
    by those of the tail, and every length field is right again. *)
Lemma pbuf_cat_ok fuel h t l1 l2 s :
  pchain (pb_heap s) h l1 -> pchain (pb_heap s) t l2 -> h ≠ 0 -> t ≠ 0 ->
  NoDup (l1 ++ l2).*1 -> plen l1 + plen l2 < 2 ^ 16 -> (length l1 <= fuel)%nat ->
  exists s', pbuf_cat fuel h t s = Ok s' /\ pchain (pb_heap s') h (l1 ++ l2) /\
    (forall a, a ∉ l1.*1 -> pb_heap s' !! a = pb_heap s !! a).
Proof.
  intros Hh Ht Hh0 Ht0 Hnd Hlt Hf; unfold pbuf_cat; rewrite decide_False by (by intros [|]).
  pose proof (pchain_pos _ _ _ Ht Ht0) as Hl2; destruct l2 as [|[b bs] l2]; [done|].
  pose proof Ht as (-> & _ & td & Htd & _ & Htot & _).
  apply (cat_loop_ok b td); try done; [by eapply pchain_pos|simpl; set_solver].
Qed.
