(* ===== verification/WaitQueue.v ===== *)
(** * Wait queues (sys/wait_queue.c)

    A wait queue is a singly linked list of entries, each naming a process.  The
    state holds the first entry of every queue, the entries, the two scheduling
    fields of every process, and how often idle processors were kicked.  Every
    operation takes the queue's lock for its whole access to the list.

    [waiting s h l] says that the queue at [h] consists of the entries [l]; the
    operations refine the operations on that list. *)

From stdpp Require Import base tactics list numbers gmap sets.
From Stdlib Require Import ZArith Lia.
From S2P Require Import Prelude.

Local Open Scope Z_scope.

Definition PROC_STATE_RUNNING : Z := 0.
Definition PROC_STATE_BLOCKED : Z := 1.

Record wait_queue_entry := { w_proc : Z; w_next : Z }.

(** The fields of [process_t] the wait queues touch. *)
Record proc := { pr_state : Z; pr_sleep_until : Z }.

Record wq_state := {
  wq_heads : gmap Z Z;
  wq_entries : gmap Z wait_queue_entry;
  wq_procs : gmap Z proc;
  wq_kicks : Z
}.

Definition head_put (h e : Z) (s : wq_state) : wq_state :=
  {| wq_heads := <[h := e]> (wq_heads s); wq_entries := wq_entries s;
     wq_procs := wq_procs s; wq_kicks := wq_kicks s |}.

Definition entry_put (e : Z) (d : wait_queue_entry) (s : wq_state) : wq_state :=
  {| wq_heads := wq_heads s; wq_entries := <[e := d]> (wq_entries s);
     wq_procs := wq_procs s; wq_kicks := wq_kicks s |}.

Definition proc_put (p : Z) (d : proc) (s : wq_state) : wq_state :=
  {| wq_heads := wq_heads s; wq_entries := wq_entries s;
     wq_procs := <[p := d]> (wq_procs s); wq_kicks := wq_kicks s |}.

Definition kick (s : wq_state) : wq_state :=
  {| wq_heads := wq_heads s; wq_entries := wq_entries s;
     wq_procs := wq_procs s; wq_kicks := wq_kicks s + 1 |}.

Definition head_at (s : wq_state) (h : Z) : res Z := of_opt (wq_heads s !! h).
Definition entry_at (s : wq_state) (e : Z) : res wait_queue_entry :=
  of_opt (wq_entries s !! e).
Definition proc_at (s : wq_state) (p : Z) : res proc := of_opt (wq_procs s !! p).

Definition is_valid_kernel_ptr (p : Z) : bool :=
  bool_decide (p ≠ 0) && bool_decide (0xFFFF800000000000 <= p).

Definition wait_queue_init (h : Z) (s : wq_state) : wq_state :=
  if is_valid_kernel_ptr h then head_put h 0 s else s.

(** Does the list from [curr] contain [entry]?  The scan that refuses a second
    insertion. *)
Fixpoint queue_scan (fuel : nat) (curr entry : Z) (s : wq_state) : res bool :=
  match fuel with
  | O => NoFuel
  | S n =>
      if decide (curr = 0) then Ok false
      else if decide (curr = entry) then Ok true
      else d ← entry_at s curr; queue_scan n (w_next d) entry s
  end.

Definition wait_queue_add (fuel : nat) (h entry : Z) (s : wq_state) : res wq_state :=
  if is_valid_kernel_ptr h && is_valid_kernel_ptr entry then
    first ← head_at s h;
    dup ← queue_scan fuel first entry s;
    if (dup : bool) then Ok s
    else
      d ← entry_at s entry;
      Ok (head_put h entry
            (entry_put entry {| w_proc := w_proc d; w_next := first |} s))
  else Ok s.

(** The scan of [wait_queue_remove] from [curr], whose predecessor is [prev]. *)
Fixpoint queue_unlink (fuel : nat) (h prev curr entry : Z) (s : wq_state)
  : res wq_state :=
  match fuel with
  | O => NoFuel
  | S n =>
      if decide (curr = 0) then Ok s
      else
        d ← entry_at s curr;
        if decide (curr = entry) then
          s ← (if decide (prev = 0) then Ok (head_put h (w_next d) s)
               else pd ← entry_at s prev;
                    Ok (entry_put prev {| w_proc := w_proc pd; w_next := w_next d |} s));
          Ok (entry_put curr {| w_proc := w_proc d; w_next := 0 |} s)
        else queue_unlink n h curr (w_next d) entry s
  end.

Definition wait_queue_remove (fuel : nat) (h entry : Z) (s : wq_state) : res wq_state :=
  if is_valid_kernel_ptr h && is_valid_kernel_ptr entry then
    first ← head_at s h;
    queue_unlink fuel h 0 first entry s
  else Ok s.

(** The walk of [wait_queue_wake_all]; the boolean is [woken]. *)
Fixpoint wake_loop (fuel : nat) (curr : Z) (woken : bool) (s : wq_state)
  : res (bool * wq_state) :=
  match fuel with
  | O => NoFuel
  | S n =>
      if decide (curr = 0) then Ok (woken, s)
      else
        d ← entry_at s curr;
        if decide (w_proc d = 0) then wake_loop n (w_next d) woken s
        else
          _ ← proc_at s (w_proc d);
          wake_loop n (w_next d) true
            (proc_put (w_proc d)
               {| pr_state := PROC_STATE_RUNNING; pr_sleep_until := 0 |} s)
  end.

Definition wait_queue_wake_all (fuel : nat) (h : Z) (s : wq_state) : res wq_state :=
  if is_valid_kernel_ptr h then
    first ← head_at s h;
    '(woken, s) ← wake_loop fuel first false s;
    Ok (if (woken : bool) then kick s else s)
  else Ok s.

Section waiting.

(** [wait_node p] is the address of the [wait_node] field of the process at [p];
    [resume] is what happens between the software interrupt that gives up the
    processor and its return. *)
Variable wait_node : Z -> Z.
Variable resume : wq_state -> res wq_state.

(** The part of [wait_queue_wait] before the software interrupt. *)
Definition wait_begin (fuel : nat) (h curr : Z) (s : wq_state) : res wq_state :=
  d ← proc_at s curr;
  let s := entry_put (wait_node curr) {| w_proc := curr; w_next := 0 |} s in
  let s := proc_put curr {| pr_state := PROC_STATE_BLOCKED;
                            pr_sleep_until := pr_sleep_until d |} s in
  wait_queue_add fuel h (wait_node curr) s.

(** [curr] is the result of [process_get_current], 0 when there is none. *)
Definition wait_queue_wait (fuel : nat) (h curr : Z) (s : wq_state) : res wq_state :=
  if decide (h = 0 \/ curr = 0) then Ok s
  else
    s ← wait_begin fuel h curr s;
    s ← resume s;
    wait_queue_remove fuel h (wait_node curr) s.

(** [ticks] is the result of [get_ticks]. *)
Definition wait_queue_wait_timeout (fuel : nat) (h curr timeout_ms ticks : Z)
    (s : wq_state) : res wq_state :=
  if decide (h = 0 \/ curr = 0) then Ok s
  else
    d ← proc_at s curr;
    let s := entry_put (wait_node curr) {| w_proc := curr; w_next := 0 |} s in
    let s := proc_put curr
      {| pr_state := PROC_STATE_BLOCKED;
         pr_sleep_until := if decide (0 < timeout_ms) then u64 (ticks + timeout_ms)
                           else pr_sleep_until d |} s in
    s ← wait_queue_add fuel h (wait_node curr) s;
    s ← resume s;
    d ← proc_at s curr;
    let s := proc_put curr {| pr_state := pr_state d; pr_sleep_until := 0 |} s in
    wait_queue_remove fuel h (wait_node curr) s.

End waiting.

(** ** The queue as a list *)

Fixpoint wchain (ents : gmap Z wait_queue_entry) (p : Z) (l : list Z) : Prop :=
  match l with
  | [] => p = 0
  | a :: l' => p = a /\ a ≠ 0 /\
               exists d, ents !! a = Some d /\ wchain ents (w_next d) l'
  end.

Definition waiting (s : wq_state) (h : Z) (l : list Z) : Prop :=
  NoDup l /\ exists first, wq_heads s !! h = Some first /\ wchain (wq_entries s) first l.

(** The process an entry names. *)
Definition proc_of (s : wq_state) (e : Z) : option Z := w_proc <$> wq_entries s !! e.

(** What an operation on the queue [h] that may relink the entries [l] leaves alone:
    the processes, the other queues, the other entries, and the process of every
    entry. *)
Definition relinks (s s' : wq_state) (h : Z) (l : list Z) : Prop :=
  wq_procs s' = wq_procs s /\ wq_kicks s' = wq_kicks s /\
  (forall g, g ≠ h -> wq_heads s' !! g = wq_heads s !! g) /\
  (forall e, e ∉ l -> wq_entries s' !! e = wq_entries s !! e) /\
  (forall e, proc_of s' e = proc_of s e).

Lemma wchain_ext ents ents' p l :
  (forall e, e ∈ l -> ents' !! e = ents !! e) -> wchain ents p l -> wchain ents' p l.
Proof.
  revert p; induction l as [|a l IH]; intros p He; [done|].
  intros (-> & Ha & d & Hd & Hn); split; [done|]; split; [done|]; exists d.
  rewrite He by set_solver; split; [done|]; apply IH; [|done].
  intros; apply He; set_solver.
Qed.

Lemma entry_at_some s e d : wq_entries s !! e = Some d -> entry_at s e = Ok d.
Proof. unfold entry_at; by intros ->. Qed.

Lemma head_at_some s h e : wq_heads s !! h = Some e -> head_at s h = Ok e.
Proof. unfold head_at; by intros ->. Qed.

Lemma proc_at_some s p d : wq_procs s !! p = Some d -> proc_at s p = Ok d.
Proof. unfold proc_at; by intros ->. Qed.

Lemma queue_scan_ok s entry l : forall n p,
  wchain (wq_entries s) p l -> (length l < n)%nat ->
  queue_scan n p entry s = Ok (bool_decide (entry ∈ l)).
Proof.
  induction l as [|a l IH]; intros n p Hp Hn; destruct n as [|n]; simpl in Hn; try lia; simpl.
  - simpl in Hp; by rewrite decide_True.
  - destruct Hp as (-> & Ha & d & Hd & Hp); rewrite decide_False by done.
    destruct (decide (a = entry)) as [->|Hne].
    + f_equal; symmetry; apply bool_decide_eq_true_2; set_solver.
    + rewrite (entry_at_some _ _ _ Hd); mstep; rewrite (IH n) by (done || lia).
      f_equal; apply bool_decide_ext; set_solver.
Qed.

(** Adding puts an entry in front, unless the queue has it already. *)
Lemma wait_queue_add_ok fuel h e l s :
  is_valid_kernel_ptr h = true -> is_valid_kernel_ptr e = true ->
  waiting s h l -> is_Some (wq_entries s !! e) -> (length l < fuel)%nat ->
  exists s', wait_queue_add fuel h e s = Ok s' /\
    waiting s' h (if decide (e ∈ l) then l else e :: l) /\ relinks s s' h [e].
Proof.
  intros Hh He (Hnd & first & Hf & Hc) [d Hd] Hl; unfold wait_queue_add; rewrite Hh, He.
  cbn [andb]; rewrite (head_at_some _ _ _ Hf); mstep.
  rewrite (queue_scan_ok s e l) by done; mstep.
  destruct (decide (e ∈ l)) as [Hin|Hin].
  { rewrite bool_decide_eq_true_2 by done; exists s; split; [done|].
    split; [|done]; split; [done|by exists first]. }
  rewrite bool_decide_eq_false_2, (entry_at_some _ _ _ Hd) by done; mstep.
  eexists; split; [done|]; split; [split; [by apply NoDup_cons|]|split_and!; try done; simpl].
  - exists e; simpl; split; [apply lookup_insert_eq|]; split; [done|].
    split; [by intros ->|]; eexists; split; [apply lookup_insert_eq|].
    eapply wchain_ext; [|done]; intros x Hx; apply lookup_insert_ne; set_solver.
  - intros g Hg; by apply lookup_insert_ne.
  - intros x Hx; apply lookup_insert_ne; set_solver.
  - intros x; unfold proc_of; simpl; destruct (decide (x = e)) as [->|];
      [by rewrite lookup_insert_eq, Hd|by rewrite lookup_insert_ne].
Qed.

(** Redirecting the link out of the last entry of a segment. *)
Lemma wchain_snoc ents p l1 a l2 :
  wchain ents p (l1 ++ a :: l2) ->
  exists d, ents !! a = Some d /\ wchain ents (w_next d) l2.
Proof.
  revert p; induction l1 as [|b l1 IH]; intros p; simpl.
  - intros (_ & _ & d & Hd & Hn); eauto.
  - intros (_ & _ & d & _ & Hn); eauto.
Qed.

Lemma wchain_relink ents p l1 a l2 d n l2' :
  wchain ents p (l1 ++ a :: l2) -> ents !! a = Some d -> NoDup (l1 ++ a :: l2) ->
  wchain ents n l2' -> a ∉ l2' ->
  wchain (<[a := {| w_proc := w_proc d; w_next := n |}]> ents) p (l1 ++ a :: l2').
Proof.
  revert p; induction l1 as [|b l1 IH]; intros p Hc Hd Hnd Hn Ha; simpl in *.
  - destruct Hc as (-> & H0 & _); split; [done|]; split; [done|]; eexists.
    split; [apply lookup_insert_eq|]; eapply wchain_ext; [|done].
    intros e He; apply lookup_insert_ne; set_solver.
  - destruct Hc as (-> & H0 & d' & Hd' & Hc); apply NoDup_cons in Hnd as [Hb Hnd].
    split; [done|]; split; [done|]; exists d'; split; [|by apply IH].
    rewrite lookup_insert_ne by set_solver; done.
Qed.

Lemma relinks_proc s h l e p n : forall s',
  s' = entry_put e {| w_proc := p; w_next := n |} s ->
  proc_of s e = Some p -> e ∈ l -> relinks s s' h l.
Proof.
  intros s' -> Hp He; split_and!; try done; simpl.
  - intros x Hx; apply lookup_insert_ne; set_solver.
  - intros x; unfold proc_of; simpl; destruct (decide (x = e)) as [->|];
      [by rewrite lookup_insert_eq|by rewrite lookup_insert_ne].
Qed.

Lemma relinks_trans s1 s2 s3 h l :
  relinks s1 s2 h l -> relinks s2 s3 h l -> relinks s1 s3 h l.
Proof.
  intros (H1 & H2 & H3 & H4 & H5) (K1 & K2 & K3 & K4 & K5); split_and!; [congruence|congruence|..].
  - intros g Hg; by rewrite K3, H3.
  - intros e He; by rewrite K4, H4.
  - intros e; by rewrite K5, H5.
Qed.

Lemma filter_ne_id (l : list Z) e : e ∉ l -> filter (.≠ e) l = l.
Proof.
  intros H; induction l as [|a l IH]; [done|].
  rewrite filter_cons_True by set_solver; f_equal; apply IH; set_solver.
Qed.

Lemma filter_ne_split (l1 l2 : list Z) e :
  NoDup (l1 ++ e :: l2) -> filter (.≠ e) (l1 ++ e :: l2) = l1 ++ l2.
Proof.
  intros Hnd; apply NoDup_app in Hnd as (_ & H1 & H2); apply NoDup_cons in H2 as [H2 _].
  rewrite filter_app, filter_cons_False by (by intros []).
  rewrite !filter_ne_id; [done|done|]; intros ?; set_solver.
Qed.

(** The entry at the end of the segment [l1] points past the entry after it. *)
Lemma queue_unlink_here s h first l1 e l2 n :
  waiting s h (l1 ++ e :: l2) -> wq_heads s !! h = Some first ->
  wchain (wq_entries s) first (l1 ++ e :: l2) ->
  exists s', queue_unlink (S n) h (default 0 (last l1)) e e s = Ok s' /\
    waiting s' h (l1 ++ l2) /\ relinks s s' h (l1 ++ e :: l2).
Proof.
  intros [Hnd _] Hf Hc; destruct (wchain_snoc _ _ _ _ _ Hc) as (d & Hd & Hn).
  assert (He0 : e ≠ 0).
  { clear -Hc; revert first Hc; induction l1 as [|b l1 IH]; intros first; simpl;
      [by intros (? & ? & _)|intros (_ & _ & ? & _ & ?); eauto]. }
  apply NoDup_app in Hnd as Hnd'; destruct Hnd' as (Hnd1 & Hdis & Hnd2).
  apply NoDup_cons in Hnd2 as [He2 Hnd2].
  assert (Hl : NoDup (l1 ++ l2)).
  { apply NoDup_app; split_and!; [done| |done]; intros x Hx; set_solver. }
  simpl; rewrite decide_False by done; rewrite (entry_at_some _ _ _ Hd); mstep.
  rewrite decide_True by done; destruct l1 as [|a l1 _] using rev_ind.
  - simpl; eexists; split; [done|]; split.
    + split; [done|]; exists (w_next d); simpl; split; [apply lookup_insert_eq|].
      eapply wchain_ext; [|done]; intros x Hx; apply lookup_insert_ne; set_solver.
    + split_and!; try done; simpl.
      * intros g Hg; by apply lookup_insert_ne.
      * intros x Hx; apply lookup_insert_ne; set_solver.
      * intros x; unfold proc_of; simpl; destruct (decide (x = e)) as [->|];
          [by rewrite lookup_insert_eq, Hd|by rewrite lookup_insert_ne].
  - rewrite last_snoc; cbn [default from_option id]; rewrite <- app_assoc in Hc, Hnd; simpl in Hc, Hnd.
    destruct (wchain_snoc _ _ _ _ _ Hc) as (da & Hda & _).
    assert (Ha0 : a ≠ 0).
    { clear -Hc; revert first Hc; induction l1 as [|b l1 IH]; intros first; simpl;
        [by intros (? & ? & _)|intros (_ & _ & ? & _ & ?); eauto]. }
    assert (Hae : a ≠ e) by (intros ->; apply NoDup_app in Hnd as (_ & _ & Hnd);
      apply NoDup_cons in Hnd as [Hnd _]; set_solver).
    rewrite decide_False by done; rewrite (entry_at_some _ _ _ Hda); mstep.
    eexists; split; [done|]; split.
    + split; [done|]; exists first; split; [done|]; simpl.
      eapply wchain_ext; [|rewrite <- app_assoc; eapply wchain_relink; [done|done|done|done|]].
      * intros x Hx; apply lookup_insert_ne; intros ->; apply elem_of_app in Hx as [Hx|Hx];
          [by apply (Hdis _ Hx); set_solver|done].
      * intros Hx; apply (Hdis a); set_solver.
    + eapply relinks_trans; [eapply (relinks_proc _ _ _ a); [done| |set_solver]|
        eapply (relinks_proc _ _ _ e); [done| |set_solver]].
      * unfold proc_of; by rewrite Hda.
      * unfold proc_of; simpl; by rewrite lookup_insert_ne, Hd.
Qed.

Lemma queue_unlink_ok s h first e : forall l2 l1 n curr,
  waiting s h (l1 ++ l2) -> wq_heads s !! h = Some first ->
  wchain (wq_entries s) first (l1 ++ l2) -> wchain (wq_entries s) curr l2 ->
  e ∉ l1 -> (length l2 < n)%nat ->
  exists s', queue_unlink n h (default 0 (last l1)) curr e s = Ok s' /\
    waiting s' h (filter (.≠ e) (l1 ++ l2)) /\ relinks s s' h (l1 ++ l2).
Proof.
  induction l2 as [|a l2 IH]; intros l1 n curr Hw Hf Hc Hc2 He Hn;
    destruct n as [|n]; simpl in Hn; try lia.
  - simpl in Hc2; simpl; rewrite decide_True by done; exists s; split; [done|].
    rewrite app_nil_r, filter_ne_id by done; by rewrite app_nil_r in Hw.
  - destruct Hc2 as (-> & Ha & d & Hd & Hc2); destruct (decide (a = e)) as [->|Hne].
    + destruct (queue_unlink_here s h first l1 e l2 n) as (s' & E & Hw' & Hr); [done..|].
      exists s'; split; [done|]; rewrite filter_ne_split; [done|apply Hw].
    + simpl; rewrite decide_False by done; rewrite (entry_at_some _ _ _ Hd); mstep.
      rewrite decide_False by done.
      destruct (IH (l1 ++ [a]) n (w_next d)) as (s' & E & R); rewrite <- ?app_assoc; simpl;
        [done..|set_solver|lia|].
      rewrite last_snoc in E; rewrite <- app_assoc in R; by exists s'.
Qed.

(** Removing takes the entry out of the queue, wherever it is; an entry that is not
    there changes nothing. *)
Lemma wait_queue_remove_ok fuel h e l s :
  is_valid_kernel_ptr h = true -> is_valid_kernel_ptr e = true ->
  waiting s h l -> (length l < fuel)%nat ->
  exists s', wait_queue_remove fuel h e s = Ok s' /\
    waiting s' h (filter (.≠ e) l) /\ relinks s s' h l.
Proof.
  intros Hh He Hw Hl; unfold wait_queue_remove; rewrite Hh, He; cbn [andb].
  pose proof Hw as (Hnd & first & Hf & Hc); rewrite (head_at_some _ _ _ Hf); mstep.
  apply (queue_unlink_ok s h first e l []); try done; set_solver.
Qed.

(** The processes named by the entries [l]. *)
Definition named (s : wq_state) (l : list Z) : list Z :=
  filter (.≠ 0) (omap (proc_of s) l).

(** [s'] is [s] with the processes [ps] made runnable. *)
Definition runnable (s s' : wq_state) (ps : list Z) : Prop :=
  wq_heads s' = wq_heads s /\ wq_entries s' = wq_entries s /\
  forall p, wq_procs s' !! p =
    if decide (p ∈ ps) then Some {| pr_state := PROC_STATE_RUNNING; pr_sleep_until := 0 |}
    else wq_procs s !! p.

Lemma named_cons s e l d :
  wq_entries s !! e = Some d ->
  named s (e :: l) = (if decide (w_proc d = 0) then [] else [w_proc d]) ++ named s l.
Proof.
  intros Hd; unfold named; simpl; unfold proc_of at 1; rewrite Hd; simpl.
  destruct (decide (w_proc d = 0)) as [E|E];
    [by rewrite filter_cons_False by (rewrite E; by intros [])|by rewrite filter_cons_True].
Qed.

Lemma wake_loop_ok l : forall n p woken s,
  wchain (wq_entries s) p l -> Forall (fun q => is_Some (wq_procs s !! q)) (named s l) ->
  (length l < n)%nat ->
  exists s', wake_loop n p woken s = Ok (woken || bool_decide (named s l ≠ []), s') /\
    runnable s s' (named s l) /\ wq_kicks s' = wq_kicks s.
Proof.
  induction l as [|a l IH]; intros n p woken s Hp Hlive Hn;
    destruct n as [|n]; simpl in Hn; try lia.
  - simpl in Hp; simpl; rewrite decide_True by done; exists s.
    split; [by rewrite orb_false_r|]; split; [|done]; split_and!; try done.
  - destruct Hp as (-> & Ha & d & Hd & Hp); rewrite (named_cons _ _ _ _ Hd) in Hlive |- *.
    simpl; rewrite decide_False by done; rewrite (entry_at_some _ _ _ Hd); mstep.
    destruct (decide (w_proc d = 0)) as [E|E]; [by apply IH; try lia|].
    simpl in Hlive; apply Forall_cons in Hlive as [[pd Hpd] Hlive].
    rewrite (proc_at_some _ _ _ Hpd); mstep; set (s1 := proc_put _ _ s).
    assert (En : named s1 l = named s l) by done.
    destruct (IH n (w_next d) true s1) as (s' & E' & (H1 & H2 & H3) & Hk); [done| |lia|].
    { rewrite En; eapply Forall_impl; [exact Hlive|]; intros q Hq; unfold s1; simpl.
      destruct (decide (q = w_proc d)) as [->|];
        [by rewrite lookup_insert_eq|by rewrite lookup_insert_ne]. }
    exists s'; split; [rewrite E'; by rewrite orb_true_r|]; split; [|done].
    split_and!; [done|done|]; intros q; rewrite H3, En; simpl.
    destruct (decide (q ∈ named s l)); [by rewrite decide_True by set_solver|].
    destruct (decide (q = w_proc d)) as [->|Hne].
    + rewrite lookup_insert_eq, decide_True by set_solver; done.
    + rewrite lookup_insert_ne, decide_False by set_solver; done.
Qed.

(** Waking a queue makes exactly the processes waiting on it runnable, leaves the
    queue as it is, and kicks the idle processors when there was one to wake. *)
Lemma wait_queue_wake_all_ok fuel h l s :
  is_valid_kernel_ptr h = true -> waiting s h l ->
  Forall (fun q => is_Some (wq_procs s !! q)) (named s l) -> (length l < fuel)%nat ->
  exists s', wait_queue_wake_all fuel h s = Ok s' /\ runnable s s' (named s l) /\
    wq_kicks s' = wq_kicks s + (if decide (named s l = []) then 0 else 1).
Proof.
  intros Hh (Hnd & first & Hf & Hc) Hlive Hl; unfold wait_queue_wake_all; rewrite Hh.
  rewrite (head_at_some _ _ _ Hf); mstep.
  destruct (wake_loop_ok l fuel first false s) as (s' & -> & Hr & Hk); [done..|]; mstep.
  cbn [orb]; destruct (decide (named s l = [])) as [E|E].
  - rewrite bool_decide_eq_false_2 by (by intros []); exists s'; split; [done|].
    split; [done|lia].
  - rewrite bool_decide_eq_true_2 by done; exists (kick s'); split; [done|].
    split; [exact Hr|simpl; lia].
Qed.

Lemma runnable_waiting s s' ps h l : runnable s s' ps -> waiting s h l -> waiting s' h l.
Proof. intros (H1 & H2 & _) (Hnd & f & Hf & Hc); split; [done|]; exists f; by rewrite H1, H2. Qed.

(** Entering a wait: the process is blocked and is the first of the queue. *)
Lemma wait_begin_ok wait_node fuel h curr l s d :
  is_valid_kernel_ptr h = true -> is_valid_kernel_ptr (wait_node curr) = true ->
  waiting s h l -> wait_node curr ∉ l -> wq_procs s !! curr = Some d ->
  (length l < fuel)%nat ->
  exists s', wait_begin wait_node fuel h curr s = Ok s' /\
    waiting s' h (wait_node curr :: l) /\
    proc_of s' (wait_node curr) = Some curr /\
    (forall e, e ≠ wait_node curr -> proc_of s' e = proc_of s e) /\
    wq_procs s' = <[curr := {| pr_state := PROC_STATE_BLOCKED;
                               pr_sleep_until := pr_sleep_until d |}]> (wq_procs s) /\
    wq_kicks s' = wq_kicks s.
Proof.
  intros Hh Hn (Hnd & first & Hf & Hc) Hni Hd Hl; unfold wait_begin.
  rewrite (proc_at_some _ _ _ Hd); mstep; set (s1 := proc_put _ _ _).
  destruct (wait_queue_add_ok fuel h (wait_node curr) l s1) as (s' & E & Hw & Hp & Hk & _ & _ & Hpr);
    [done|done| |by exists {| w_proc := curr; w_next := 0 |}; apply lookup_insert_eq|done|].
  { split; [done|]; exists first; split; [done|]; eapply wchain_ext; [|done].
    intros e He; apply lookup_insert_ne; set_solver. }
  rewrite decide_False in Hw by done; exists s'; split; [done|]; split; [done|].
  split_and!; [|intros e He|by rewrite Hp|done]; rewrite Hpr; unfold proc_of; simpl.
  - by rewrite lookup_insert_eq.
  - by rewrite lookup_insert_ne.
Qed.

(** C30: A wake-up is not lost once a process is on the queue.  [wait_queue_wait]
    blocks the process and enters it in the queue; when the queue is woken while it
    sleeps, every process of the queue is runnable, it among them, and when
    [wait_queue_wait] returns, the queue is as it was before the call. *)
Theorem wait_queue_wait_wakes wait_node fuel h curr l s d :
  is_valid_kernel_ptr h = true -> is_valid_kernel_ptr (wait_node curr) = true ->
  waiting s h l -> wait_node curr ∉ l -> wq_procs s !! curr = Some d -> curr ≠ 0 ->
  Forall (fun q => is_Some (wq_procs s !! q)) (named s l) -> (length l + 1 < fuel)%nat ->
  exists s', wait_queue_wait wait_node (wait_queue_wake_all fuel h) fuel h curr s = Ok s' /\
    waiting s' h l /\
    forall p, wq_procs s' !! p =
      if decide (p = curr \/ p ∈ named s l)
      then Some {| pr_state := PROC_STATE_RUNNING; pr_sleep_until := 0 |}
      else wq_procs s !! p.
Proof.
  intros Hh Hn Hw Hni Hd Hc0 Hlive Hl; unfold wait_queue_wait.
  assert (h ≠ 0) by (unfold is_valid_kernel_ptr in Hh; intros ->; done).
  rewrite decide_False by (by intros [|]).
  destruct (wait_begin_ok wait_node fuel h curr l s d)
    as (s1 & -> & Hw1 & Hc1 & Ho1 & Hp1 & Hk1); [done..|lia|]; mstep.
  assert (En : named s1 (wait_node curr :: l) = curr :: named s l).
  { unfold named; simpl; rewrite Hc1; simpl; rewrite filter_cons_True by done; do 2 f_equal.
    clear -Ho1 Hni; induction l as [|a l IH]; [done|]; simpl; rewrite Ho1 by set_solver.
    rewrite IH by set_solver; done. }
  destruct (wait_queue_wake_all_ok fuel h (wait_node curr :: l) s1)
    as (s2 & -> & Hr & _); [done|done| |simpl; lia|]; mstep.
  { rewrite En, Hp1; apply Forall_cons; split; [by rewrite lookup_insert_eq|].
    eapply Forall_impl; [exact Hlive|]; intros q Hq; destruct (decide (q = curr)) as [->|];
      [by rewrite lookup_insert_eq|by rewrite lookup_insert_ne]. }
  destruct (wait_queue_remove_ok fuel h (wait_node curr) (wait_node curr :: l) s2)
    as (s3 & -> & Hw3 & Hp3 & _); [done|done|by eapply runnable_waiting|simpl; lia|].
  exists s3; split; [done|]; split.
  - rewrite filter_cons_False, filter_ne_id in Hw3; [done|done|by intros []].
  - destruct Hr as (_ & _ & Hr); intros p; rewrite Hp3, Hr, En, Hp1.
    destruct (decide (p = curr \/ p ∈ named s l)) as [[->|Hin]|Hno].
    + by rewrite decide_True by set_solver.
    + by rewrite decide_True by set_solver.
    + rewrite decide_False by set_solver; apply lookup_insert_ne; set_solver.
Qed.

(** One process on an empty queue. *)
Definition wq_demo : wq_state :=
  {| wq_heads := {[0xFFFF800000001000 := 0]}; wq_entries := ∅;
     wq_procs := {[0xFFFF800000002000 :=
       {| pr_state := PROC_STATE_RUNNING; pr_sleep_until := 0 |}]};
     wq_kicks := 0 |}.

Lemma wait_queue_wait_wakes_witness :
  exists s', wait_queue_wait (fun p => p + 8) (wait_queue_wake_all 3 0xFFFF800000001000) 3
    0xFFFF800000001000 0xFFFF800000002000 wq_demo = Ok s' /\
  waiting s' 0xFFFF800000001000 [].
Proof.
  destruct (wait_queue_wait_wakes (fun p => p + 8) 3 0xFFFF800000001000 0xFFFF800000002000
    [] wq_demo {| pr_state := PROC_STATE_RUNNING; pr_sleep_until := 0 |})
    as (s' & E & Hw & _).
  - reflexivity.
  - reflexivity.
  - split; [constructor|]; exists 0; split; reflexivity.
  - by intros H%elem_of_nil.
  - reflexivity.
  - discriminate.
  - constructor.
  - simpl; lia.
  - by exists s'.
Defined.
