(* ===== verification/SockBuf.v ===== *)
(** * Socket buffers (net/sockbuf.c)

    The receive and transmit queues of sockets: a linked list of entries, each
    holding one packet with the address it came from, a byte count and a limit.
    The state is the kernel heap as the functions see it: the socket buffers, the
    list entries, lwIP's packet buffers (Pbuf.v) and the wait queues
    (WaitQueue.v).  The buffer's lock is held around every access to the list, so
    each locked region is one step; the copies of [sockbuf_read] run on entries it
    has already taken off the list.

    The address an [ip_addr_t] stands for is an opaque number, 0 for the zero
    address.  The scratch arrays on the stack are arguments with arbitrary
    contents, so that what is proved of the bytes delivered also says that no
    uninitialised byte is among them. *)

From stdpp Require Import base tactics list numbers gmap sets.
From Stdlib Require Import ZArith Lia.
From S2P Require Import Prelude Kutils Pbuf WaitQueue.

Local Open Scope Z_scope.

Record sockbuf_entry := {
  e_p : Z;
  e_src_ip : Z;
  e_src_port : Z;
  e_next : Z
}.

Record sockbuf := {
  sb_cc : Z;
  sb_hiwat : Z;
  sb_lowat : Z;
  sb_flags : Z;
  sb_head : Z;
  sb_tail : Z
}.

Record net := {
  n_sb : gmap Z sockbuf;
  n_entries : gmap Z sockbuf_entry;
  n_pb : pb_state;
  n_wq : wq_state
}.

Definition sb_at (s : net) (sb : Z) : res sockbuf := of_opt (n_sb s !! sb).
Definition ent_at (s : net) (e : Z) : res sockbuf_entry := of_opt (n_entries s !! e).

Definition sb_put (sb : Z) (d : sockbuf) (s : net) : net :=
  {| n_sb := <[sb := d]> (n_sb s); n_entries := n_entries s; n_pb := n_pb s; n_wq := n_wq s |}.
Definition ent_put (e : Z) (d : sockbuf_entry) (s : net) : net :=
  {| n_sb := n_sb s; n_entries := <[e := d]> (n_entries s); n_pb := n_pb s; n_wq := n_wq s |}.
(** [kfree_null] of an entry. *)
Definition ent_free (e : Z) (s : net) : net :=
  {| n_sb := n_sb s; n_entries := delete e (n_entries s); n_pb := n_pb s; n_wq := n_wq s |}.
Definition set_pb (pb : pb_state) (s : net) : net :=
  {| n_sb := n_sb s; n_entries := n_entries s; n_pb := pb; n_wq := n_wq s |}.
Definition set_wq (w : wq_state) (s : net) : net :=
  {| n_sb := n_sb s; n_entries := n_entries s; n_pb := n_pb s; n_wq := w |}.

(** [&sb->waitq]: three 4-byte words, the flags byte with its padding and the
    4-byte lock precede it, and it is aligned to 8. *)
Definition sb_waitq (sb : Z) : Z := sb + 24.

Section operations.

Variable custom_free_function : Z -> pb_state -> pb_state.

Definition sockbuf_init (sb hiwat : Z) (s : net) : net :=
  if decide (sb = 0) then s
  else
    let s := sb_put sb {| sb_cc := 0;
                          sb_hiwat := if decide (hiwat = 0) then 512 * 1024 else hiwat;
                          sb_lowat := 1; sb_flags := 0; sb_head := 0; sb_tail := 0 |} s in
    set_wq (wait_queue_init (sb_waitq sb) (n_wq s)) s.

(** Release of a list of entries with their packets. *)
Definition destroy_step (fuel : nat) (st : Z * net) : res (Z * net + net) :=
  let '(curr, s) := st in
  if decide (curr = 0) then Ok (inr s)
  else
    e ← ent_at s curr;
    s ← (if decide (e_p e = 0) then Ok s
         else '(_, pb) ← pbuf_free custom_free_function fuel (e_p e) (n_pb s);
              Ok (set_pb pb s));
    Ok (inl (e_next e, ent_free curr s)).

Definition sockbuf_destroy (fuel : nat) (sb : Z) (s : net) : res net :=
  if decide (sb = 0) then Ok s
  else
    d ← sb_at s sb;
    let s := sb_put sb {| sb_cc := 0; sb_hiwat := sb_hiwat d; sb_lowat := sb_lowat d;
                          sb_flags := sb_flags d; sb_head := 0; sb_tail := 0 |} s in
    loop fuel (destroy_step fuel) (sb_head d, s).

(** The last entry of the list, or the list itself, is made to point to [entry]. *)
Definition link_tail (sb : Z) (d : sockbuf) (entry cc : Z) (s : net) : res net :=
  if decide (sb_tail d = 0) then
    Ok (sb_put sb {| sb_cc := cc; sb_hiwat := sb_hiwat d; sb_lowat := sb_lowat d;
                     sb_flags := sb_flags d; sb_head := entry; sb_tail := entry |} s)
  else
    t ← ent_at s (sb_tail d);
    let s := ent_put (sb_tail d) {| e_p := e_p t; e_src_ip := e_src_ip t;
                                    e_src_port := e_src_port t; e_next := entry |} s in
    Ok (sb_put sb {| sb_cc := cc; sb_hiwat := sb_hiwat d; sb_lowat := sb_lowat d;
                     sb_flags := sb_flags d; sb_head := sb_head d; sb_tail := entry |} s).

(** [entry] is the result of [kmalloc]; [src_ip] is [None] for a NULL pointer. *)
Definition sockbuf_append (fuel : nat) (sb p : Z) (src_ip : option Z) (src_port entry : Z)
    (s : net) : res (Z * net) :=
  if decide (sb = 0 \/ p = 0) then Ok (-1, s)
  else if decide (entry = 0) then Ok (-1, s)
  else
    let s := ent_put entry {| e_p := p; e_src_ip := default 0 src_ip;
                              e_src_port := src_port; e_next := 0 |} s in
    d ← sb_at s sb;
    pd ← pbuf_at (n_pb s) p;
    if decide (sb_hiwat d < u32 (sb_cc d + p_tot_len pd)) then Ok (-1, ent_free entry s)
    else
      s ← link_tail sb d entry (u32 (sb_cc d + p_tot_len pd)) s;
      w ← wait_queue_wake_all fuel (sb_waitq sb) (n_wq s);
      Ok (0, set_wq w s).

(** [sb->sb_cc -= n], clamped at 0. *)
Definition cc_sub (cc n : Z) : Z := if decide (u32 n <= cc) then cc - u32 n else 0.

(** What the dequeuing loop has gathered: the bytes dequeued, the consumed list,
    the scratch buffer and how much of it is filled, and the first sender. *)
Record gathered := {
  g_total : Z;
  g_head : Z;
  g_tail : Z;
  g_partial : list Z;
  g_partial_len : Z;
  g_meta : option (Z * Z)
}.

(** [entry] becomes the last of the consumed list. *)
Definition link_consumed (g : gathered) (entry : Z) (s : net) : res net :=
  if decide (g_head g = 0) then Ok s
  else
    t ← ent_at s (g_tail g);
    Ok (ent_put (g_tail g) {| e_p := e_p t; e_src_ip := e_src_ip t;
                              e_src_port := e_src_port t; e_next := entry |} s).

(** One turn of the dequeuing loop, under the lock. *)
Definition dequeue_step (fuel : nat) (sb max_len : Z) (st : gathered * net)
  : res (gathered * net + gathered * net) :=
  let '(g, s) := st in
  d ← sb_at s sb;
  if decide (sb_head d = 0 \/ max_len <= g_total g) then Ok (inr (g, s))
  else
    let entry := sb_head d in
    e ← ent_at s entry;
    pd ← pbuf_at (n_pb s) (e_p e);
    let avail := p_tot_len pd in
    let wanted := max_len - g_total g in
    let meta := match g_meta g with
                | None => Some (e_src_ip e, e_src_port e)
                | m => m
                end in
    if decide (avail <= wanted) then
      let s := sb_put sb
        {| sb_cc := cc_sub (sb_cc d) avail; sb_hiwat := sb_hiwat d;
           sb_lowat := sb_lowat d; sb_flags := sb_flags d; sb_head := e_next e;
           sb_tail := if decide (e_next e = 0) then 0 else sb_tail d |} s in
      let s := ent_put entry {| e_p := e_p e; e_src_ip := e_src_ip e;
                                e_src_port := e_src_port e; e_next := 0 |} s in
      s ← link_consumed g entry s;
      Ok (inl ({| g_total := u64 (g_total g + avail);
                  g_head := if decide (g_head g = 0) then entry else g_head g;
                  g_tail := entry; g_partial := g_partial g;
                  g_partial_len := g_partial_len g; g_meta := meta |}, s))
    else
      let to_copy := if decide (wanted < 4096) then wanted else 4096 in
      '(_, part) ← pbuf_copy_partial fuel (e_p e) (g_partial g) 0 (u16 to_copy) 0 (n_pb s);
      '(p', pb) ← pbuf_free_header custom_free_function fuel (e_p e) (u16 to_copy) (n_pb s);
      let s := set_pb pb s in
      let s := ent_put entry {| e_p := p'; e_src_ip := e_src_ip e;
                                e_src_port := e_src_port e; e_next := e_next e |} s in
      let s := sb_put sb
        {| sb_cc := cc_sub (sb_cc d) to_copy; sb_hiwat := sb_hiwat d;
           sb_lowat := sb_lowat d; sb_flags := sb_flags d; sb_head := sb_head d;
           sb_tail := sb_tail d |} s in
      Ok (inr ({| g_total := u64 (g_total g + to_copy); g_head := g_head g;
                  g_tail := g_tail g; g_partial := part; g_partial_len := to_copy;
                  g_meta := meta |}, s)).

(** One turn of the loop that copies the consumed entries out and frees them; the
    state is [(curr, copied, buf, s)]. *)
Definition deliver_step (fuel : nat) (st : Z * Z * list Z * net)
  : res (Z * Z * list Z * net + Z * list Z * net) :=
  let '(curr, copied, buf, s) := st in
  if decide (curr = 0) then Ok (inr (copied, buf, s))
  else
    e ← ent_at s curr;
    if decide (e_p e = 0) then Ok (inl (e_next e, copied, buf, ent_free curr s))
    else
      pd ← pbuf_at (n_pb s) (e_p e);
      let len := p_tot_len pd in
      '(_, buf) ← pbuf_copy_partial fuel (e_p e) buf copied len 0 (n_pb s);
      '(_, pb) ← pbuf_free custom_free_function fuel (e_p e) (n_pb s);
      Ok (inl (e_next e, u64 (copied + len), buf, ent_free curr (set_pb pb s))).

(** The peek branch of [sockbuf_read]; [kbuf] is the 512-byte array on the stack. *)
Definition sockbuf_peek (fuel : nat) (sb max_len : Z) (kbuf buf : list Z) (s : net)
  : res (Z * list Z * option (Z * Z)) :=
  d ← sb_at s sb;
  if decide (sb_head d = 0) then Ok (0, buf, None)
  else
    e ← ent_at s (sb_head d);
    pd ← pbuf_at (n_pb s) (e_p e);
    let avail := p_tot_len pd in
    let to_copy := if decide (max_len < avail) then max_len else avail in
    let to_copy := if decide (65535 < to_copy) then 65535 else to_copy in
    let kcopy := if decide (to_copy < 512) then to_copy else 512 in
    '(_, kbuf) ← pbuf_copy_partial fuel (e_p e) kbuf 0 (u16 kcopy) 0 (n_pb s);
    bytes ← read_bytes kbuf 0 (Z.to_nat kcopy);
    buf ← write_bytes buf 0 bytes;
    Ok (i32 kcopy, buf, Some (e_src_ip e, e_src_port e)).

(** The consuming branch of [sockbuf_read]; [partial_buf] is the 4096-byte array on
    the stack. *)
Definition sockbuf_consume (fuel : nat) (sb max_len : Z) (partial_buf buf : list Z)
    (s : net) : res (Z * list Z * option (Z * Z) * net) :=
  d ← sb_at s sb;
  if decide (sb_head d = 0) then Ok (0, buf, None, s)
  else
    '(g, s) ← loop fuel (dequeue_step fuel sb max_len)
      ({| g_total := 0; g_head := 0; g_tail := 0; g_partial := partial_buf;
          g_partial_len := 0; g_meta := None |}, s);
    '(copied, buf, s) ← loop fuel (deliver_step fuel) (g_head g, 0, buf, s);
    '(copied, buf) ← (if decide (0 < g_partial_len g) then
                        bytes ← read_bytes (g_partial g) 0 (Z.to_nat (g_partial_len g));
                        buf ← write_bytes buf copied bytes;
                        Ok (u64 (copied + g_partial_len g), buf)
                      else Ok (copied, buf));
    s ← (if decide (0 < copied) then
           w ← wait_queue_wake_all fuel (sb_waitq sb) (n_wq s); Ok (set_wq w s)
         else Ok s);
    Ok (i32 copied, buf, g_meta g, s).

(** [buf] is [None] for a NULL pointer.  The result has the number of bytes, the
    buffer, the sender to store through [out_ip] and [out_port] when they are given,
    and the state. *)
Definition sockbuf_read (fuel : nat) (sb : Z) (buf : option (list Z)) (max_len : Z)
    (peek : bool) (kbuf partial_buf : list Z) (s : net)
  : res (Z * option (list Z) * option (Z * Z) * net) :=
  match buf with
  | None => Ok (0, buf, None, s)
  | Some b =>
      if decide (sb = 0 \/ max_len = 0) then Ok (0, buf, None, s)
      else if peek then
        '(n, b, m) ← sockbuf_peek fuel sb max_len kbuf b s;
        Ok (n, Some b, m, s)
      else
        '(n, b, m, s) ← sockbuf_consume fuel sb max_len partial_buf b s;
        Ok (n, Some b, m, s)
  end.

Definition sockbuf_is_empty (sb : Z) (s : net) : res bool :=
  if decide (sb = 0) then Ok true
  else d ← sb_at s sb; Ok (bool_decide (sb_head d = 0)).

Definition sockbuf_readable (sb : Z) (s : net) : res bool :=
  if decide (sb = 0) then Ok false
  else
    d ← sb_at s sb;
    let threshold := if decide (0 < sb_lowat d) then sb_lowat d else 1 in
    Ok (bool_decide (threshold <= sb_cc d)).

Definition sockbuf_writable (sb : Z) (s : net) : res bool :=
  if decide (sb = 0) then Ok false
  else d ← sb_at s sb; Ok (bool_decide (sb_cc d < sb_hiwat d)).

Definition sockbuf_get_cc (sb : Z) (s : net) : res Z :=
  if decide (sb = 0) then Ok 0 else d ← sb_at s sb; Ok (sb_cc d).

End operations.
