(* ===== verification/SockBufSpec.v ===== *)
(** * Socket buffers: the queue of messages they implement

    [sb_rep s sb q hi] relates the socket buffer at [sb] to a queue [q] of packets:
    the linked list in order, the tail pointer, the byte count equal to the bytes
    held and within the limit [hi], every packet a well-formed chain, and no entry
    or packet buffer in two places.  [recv] is the abstract read: whole messages
    while they fit, then at most 4096 bytes of the next.  The theorems show that
    appending and reading refine it, free what they consume and touch nothing
    else. *)

From stdpp Require Import base tactics list numbers gmap sets.
From Stdlib Require Import ZArith Lia.
From S2P Require Import Prelude Kutils Pbuf WaitQueue SockBuf.

Local Open Scope Z_scope.

(** A message of the queue: its list entry, its packet and its sender. *)
Record qent := { q_addr : Z; q_pkt : packet; q_ip : Z; q_port : Z }.

Definition pptr (l : packet) : Z := match l with [] => 0 | (a, _) :: _ => a end.

Abbreviation addrs q := (q_addr <$> q).
Definition cells (q : list qent) : list Z := flat_map (fun x => (q_pkt x).*1) q.
Definition qbytes (q : list qent) : list Z := flat_map (fun x => pdata (q_pkt x)) q.
Definition qlen (q : list qent) : Z := Z.of_nat (length (qbytes q)).

Fixpoint echain (ents : gmap Z sockbuf_entry) (p : Z) (q : list qent) : Prop :=
  match q with
  | [] => p = 0
  | x :: q' =>
      p = q_addr x /\ q_addr x ≠ 0 /\
      exists e, ents !! q_addr x = Some e /\ e_p e = pptr (q_pkt x) /\
        e_src_ip e = q_ip x /\ e_src_port e = q_port x /\ echain ents (e_next e) q'
  end.

Definition packets_ok (h : gmap Z pbuf) (q : list qent) : Prop :=
  Forall (fun x => pptr (q_pkt x) ≠ 0 /\ pchain h (pptr (q_pkt x)) (q_pkt x)) q.

Definition tail_of (q : list qent) : Z := from_option q_addr 0 (last q).

Definition sb_rep (s : net) (sb : Z) (q : list qent) (hi : Z) : Prop :=
  sb ≠ 0 /\ hi < 2 ^ 31 /\ qlen q <= hi /\
  (exists d, n_sb s !! sb = Some d /\ sb_hiwat d = hi /\ sb_cc d = qlen q /\
     sb_tail d = tail_of q /\ echain (n_entries s) (sb_head d) q) /\
  packets_ok (pb_heap (n_pb s)) q /\ NoDup (addrs q) /\ NoDup (cells q).

(** The waiters of the buffer. *)
Definition sb_waiters (s : net) (sb : Z) (w : list Z) : Prop :=
  is_valid_kernel_ptr (sb_waitq sb) = true /\ waiting (n_wq s) (sb_waitq sb) w /\
  Forall (fun p => is_Some (wq_procs (n_wq s) !! p)) (named (n_wq s) w).

(** Only the buffer [sb], the entries [es] and the packet buffers [cs] differ. *)
Definition only (s s' : net) (sb : Z) (es cs : list Z) : Prop :=
  (forall b, b ≠ sb -> n_sb s' !! b = n_sb s !! b) /\
  (forall e, e ∉ es -> n_entries s' !! e = n_entries s !! e) /\
  (forall a, a ∉ cs -> pb_heap (n_pb s') !! a = pb_heap (n_pb s) !! a).

(** A message as the reader sees it. *)
Definition msg : Type := list Z * (Z * Z).
Definition msgs (q : list qent) : list msg :=
  (fun x => (pdata (q_pkt x), (q_ip x, q_port x))) <$> q.
Definition mbytes (m : list msg) : list Z := flat_map fst m.

Fixpoint recv (max : Z) (q : list msg) : list Z * list msg :=
  match q with
  | [] => ([], [])
  | (bs, m) :: q' =>
      if decide (max <= 0) then ([], q)
      else if decide (Z.of_nat (length bs) <= max) then
        let '(o, r) := recv (max - Z.of_nat (length bs)) q' in (bs ++ o, r)
      else
        let k := Z.to_nat (Z.min max 4096) in (take k bs, (drop k bs, m) :: q')
  end.

(** Fuel for a queue: more than its length and than the length of every chain. *)
Definition enough (fuel : nat) (q : list qent) : Prop :=
  (length q + 1 < fuel)%nat /\ Forall (fun x => (length (q_pkt x) + 1 < fuel)%nat) q.

(** ** The abstract queue *)

(** A read takes a prefix of the stream: nothing is lost, duplicated or reordered. *)
Lemma recv_stream max q o r : recv max q = (o, r) -> o ++ mbytes r = mbytes q.
Proof.
  revert max o r; induction q as [|[bs m] q IH]; intros max o r; simpl; [by intros [= <- <-]|].
  case_decide; [by intros [= <- <-]|]; case_decide.
  - destruct (recv _ q) as [o' r'] eqn:E; intros [= <- <-].
    by rewrite <- app_assoc, (IH _ _ _ E).
  - intros [= <- <-]; simpl; rewrite app_assoc; f_equal; apply take_drop.
Qed.

Lemma recv_max max q o r : recv max q = (o, r) -> Z.of_nat (length o) <= Z.max 0 max.
Proof.
  revert max o r; induction q as [|[bs m] q IH]; intros max o r; simpl;
    [by intros [= <- <-]; simpl; lia|].
  case_decide; [by intros [= <- <-]; simpl; lia|]; case_decide.
  - destruct (recv _ q) as [o' r'] eqn:E; intros [= <- <-].
    rewrite length_app; specialize (IH _ _ _ E); lia.
  - intros [= <- <-]; rewrite length_take; lia.
Qed.

(** A read of a stream that has bytes makes progress, and falls short of what was
    asked for and is there only by the limit on the part of a message. *)
Lemma recv_progress max q o r :
  recv max q = (o, r) -> 0 < max ->
  Z.min (Z.min max 4096) (Z.of_nat (length (mbytes q))) <= Z.of_nat (length o).
Proof.
  revert max o r; induction q as [|[bs m] q IH]; intros max o r; simpl;
    [intros [= <- <-]; simpl; lia|].
  intros H Hm; rewrite decide_False in H by lia; case_decide.
  - destruct (recv _ q) as [o' r'] eqn:E; injection H as <- <-; rewrite !length_app.
    destruct (decide (max - Z.of_nat (length bs) = 0)); [lia|].
    specialize (IH _ _ _ E); lia.
  - injection H as <- <-; rewrite length_take, length_app; lia.
Qed.

Lemma mbytes_msgs q : mbytes (msgs q) = qbytes q.
Proof. by induction q as [|x q IH]; [|simpl; unfold mbytes, qbytes in *; simpl; f_equal]. Qed.

Lemma qbytes_app q1 q2 : qbytes (q1 ++ q2) = qbytes q1 ++ qbytes q2.
Proof. apply flat_map_app. Qed.

Lemma cells_app q1 q2 : cells (q1 ++ q2) = cells q1 ++ cells q2.
Proof. apply flat_map_app. Qed.

Lemma qlen_app q1 q2 : qlen (q1 ++ q2) = qlen q1 + qlen q2.
Proof. unfold qlen; rewrite qbytes_app, length_app; lia. Qed.

Lemma qlen_cons x q : qlen (x :: q) = plen (q_pkt x) + qlen q.
Proof. unfold qlen, plen; simpl; rewrite length_app; lia. Qed.

Lemma qlen_snoc q x : qlen (q ++ [x]) = qlen q + plen (q_pkt x).
Proof. rewrite qlen_app, qlen_cons; change (qlen []) with 0; lia. Qed.

Lemma qlen_pos q : 0 <= qlen q.
Proof. unfold qlen; lia. Qed.

Lemma cells_elem q x a : x ∈ q -> a ∈ (q_pkt x).*1 -> a ∈ cells q.
Proof.
  intros Hx Ha; unfold cells; apply list_elem_of_In, in_flat_map; exists x.
  split; by apply list_elem_of_In.
Qed.

(** ** Framing *)

Lemma echain_ext ents ents' p q :
  (forall e, e ∈ addrs q -> ents' !! e = ents !! e) -> echain ents p q -> echain ents' p q.
Proof.
  revert p; induction q as [|x q IH]; intros p He; [done|].
  intros (-> & Ha & e & Hd & H1 & H2 & H3 & Hn); simpl in He.
  split; [done|]; split; [done|]; exists e; rewrite He by set_solver.
  split_and!; [done..|]; apply IH; [|done]; intros; apply He; set_solver.
Qed.

Lemma packets_ext h h' q :
  (forall a, a ∈ cells q -> h' !! a = h !! a) -> packets_ok h q -> packets_ok h' q.
Proof.
  intros He Hq; apply Forall_forall; intros x Hx.
  destruct (proj1 (Forall_forall _ _) Hq x Hx) as [H1 H2]; split; [done|].
  eapply pchain_ext; [|done]; intros a Ha; apply He; by eapply cells_elem.
Qed.

Lemma only_refl s sb es cs : only s s sb es cs.
Proof. done. Qed.

Lemma only_trans s1 s2 s3 sb es cs :
  only s1 s2 sb es cs -> only s2 s3 sb es cs -> only s1 s3 sb es cs.
Proof.
  intros (H1 & H2 & H3) (K1 & K2 & K3); split_and!; intros.
  - by rewrite K1, H1.
  - by rewrite K2, H2.
  - by rewrite K3, H3.
Qed.

Lemma sb_at_some s sb d : n_sb s !! sb = Some d -> sb_at s sb = Ok d.
Proof. unfold sb_at; by intros ->. Qed.

Lemma ent_at_some s e d : n_entries s !! e = Some d -> ent_at s e = Ok d.
Proof. unfold ent_at; by intros ->. Qed.

(** The last entry of a chain redirected to another chain. *)
Lemma echain_link ents p q1 x e q2 n :
  echain ents p (q1 ++ [x]) -> ents !! q_addr x = Some e -> NoDup (addrs (q1 ++ [x])) ->
  echain ents n q2 -> q_addr x ∉ addrs q2 ->
  echain (<[q_addr x := {| e_p := e_p e; e_src_ip := e_src_ip e;
                           e_src_port := e_src_port e; e_next := n |}]> ents)
    p (q1 ++ x :: q2).
Proof.
  revert p; induction q1 as [|y q1 IH]; intros p Hc He Hnd Hn Hx; simpl in *.
  - destruct Hc as (-> & H0 & e' & He' & H1 & H2 & H3 & _); assert (e' = e) as -> by congruence.
    split; [done|]; split; [done|]; eexists; split; [apply lookup_insert_eq|].
    split_and!; [done..|]; eapply echain_ext; [|done].
    intros a Ha; apply lookup_insert_ne; set_solver.
  - destruct Hc as (-> & H0 & e' & He' & H1 & H2 & H3 & Hc).
    apply NoDup_cons in Hnd as [Hy Hnd]; rewrite fmap_app in Hy.
    split; [done|]; split; [done|]; exists e'.
    rewrite lookup_insert_ne by set_solver; split_and!; [done..|]; by apply IH.
Qed.

Lemma echain_at ents p q1 x q2 :
  echain ents p (q1 ++ x :: q2) ->
  exists e, ents !! q_addr x = Some e /\ e_p e = pptr (q_pkt x) /\ q_addr x ≠ 0.
Proof.
  revert p; induction q1 as [|y q1 IH]; intros p; simpl.
  - intros (_ & H0 & e & He & H1 & _); eauto.
  - intros (_ & _ & e & _ & _ & _ & _ & Hc); eauto.
Qed.

Lemma tail_of_snoc q x : tail_of (q ++ [x]) = q_addr x.
Proof. unfold tail_of; by rewrite last_snoc. Qed.

Lemma tail_null ents p q : echain ents p q -> tail_of q = 0 -> q = [].
Proof.
  destruct q as [|x q _] using rev_ind; [done|]; rewrite tail_of_snoc; intros Hc Ht.
  apply (echain_at _ _ q x []) in Hc as (e & _ & _ & ?); done.
Qed.

Lemma head_null ents p q : echain ents p q -> (p = 0 <-> q = []).
Proof.
  destruct q as [|x q]; simpl; [tauto|]; intros (-> & H & _); split; [done|discriminate].
Qed.

Lemma NoDup_disjoint_app (l1 l2 : list Z) :
  NoDup l1 -> NoDup l2 -> (forall a, a ∈ l1 -> a ∉ l2) -> NoDup (l1 ++ l2).
Proof. intros; apply NoDup_app; by split_and!. Qed.

(** A fresh message for the queue [q]: its packet and its entry are not in use. *)
Definition fresh_msg (s : net) (q : list qent) (x : qent) : Prop :=
  q_addr x ≠ 0 /\ n_entries s !! q_addr x = None /\ pptr (q_pkt x) ≠ 0 /\
  pchain (pb_heap (n_pb s)) (pptr (q_pkt x)) (q_pkt x) /\ NoDup (q_pkt x).*1 /\
  (forall a, a ∈ (q_pkt x).*1 -> a ∉ cells q).

Lemma echain_live ents p q a : echain ents p q -> a ∈ addrs q -> is_Some (ents !! a).
Proof.
  intros Hc Ha; apply list_elem_of_fmap in Ha as (x & -> & Hx).
  apply list_elem_of_split in Hx as (q1 & q2 & ->).
  by destruct (echain_at _ _ _ _ _ Hc) as (e & -> & _).
Qed.

Lemma pchain_tot h l : pptr l ≠ 0 -> pchain h (pptr l) l ->
  exists d, h !! pptr l = Some d /\ p_tot_len d = plen l /\ 0 <= plen l < 2 ^ 16.
Proof.
  destruct l as [|[a bs] l]; [done|]; intros _ (_ & _ & d & Hd & _ & Ht & Hs & _).
  exists d; pose proof (plen_pos ((a, bs) :: l)); done.
Qed.

(** The list surgery of [sockbuf_append]. *)
Lemma link_tail_ok s sb q hi x d :
  sb_rep s sb q hi -> fresh_msg s q x -> n_sb s !! sb = Some d ->
  qlen q + plen (q_pkt x) <= hi ->
  let s1 := ent_put (q_addr x) {| e_p := pptr (q_pkt x); e_src_ip := q_ip x;
                                  e_src_port := q_port x; e_next := 0 |} s in
  exists s', link_tail sb d (q_addr x) (qlen q + plen (q_pkt x)) s1 = Ok s' /\
    sb_rep s' sb (q ++ [x]) hi /\ only s s' sb (q_addr x :: addrs q) [] /\
    n_pb s' = n_pb s /\ n_wq s' = n_wq s.
Proof.
  intros (Hsb & Hhi & Hle & (d' & Hd & Hh & Hcc & Ht & Hc) & Hp & Hnd & Hndc)
    (Hx0 & Hxn & Hxp & Hxc & Hxnd & Hxf) Hd' Hroom s1.
  assert (d' = d) as -> by congruence.
  assert (Hxq : q_addr x ∉ addrs q).
  { intros Hin; destruct (echain_live _ _ _ _ Hc Hin) as [? ?]; congruence. }
  assert (Hc1 : echain (n_entries s1) (sb_head d) q).
  { eapply echain_ext; [|done]; intros a Ha; apply lookup_insert_ne; set_solver. }
  assert (Hx1 : echain (n_entries s1) (q_addr x) [x]).
  { split; [done|]; split; [done|]; eexists; split; [apply lookup_insert_eq|done]. }
  assert (Hrep : forall s' d', n_pb s' = n_pb s -> n_sb s' !! sb = Some d' -> sb_hiwat d' = hi ->
     sb_cc d' = qlen q + plen (q_pkt x) -> sb_tail d' = q_addr x ->
     echain (n_entries s') (sb_head d') (q ++ [x]) -> sb_rep s' sb (q ++ [x]) hi).
  { intros s' d' Epb E1 E2 E3 E4 E5; split_and!; [done|done| | | | |].
    - rewrite qlen_snoc; lia.
    - exists d'; split_and!; try done; [|by rewrite tail_of_snoc].
      by rewrite qlen_snoc.
    - rewrite Epb; apply Forall_app; split; [done|]; by apply Forall_singleton.
    - rewrite fmap_app; apply NoDup_disjoint_app; [done|apply NoDup_singleton|].
      intros a Ha; set_solver.
    - rewrite cells_app; apply NoDup_disjoint_app; [done|simpl; by rewrite app_nil_r|].
      intros a Ha Hb; simpl in Hb; rewrite app_nil_r in Hb; by eapply Hxf. }
  unfold link_tail; destruct (decide (sb_tail d = 0)) as [E0|E0].
  - assert (q = []) as -> by (eapply tail_null; [done|congruence]).
    eexists; split; [done|]; split; [|split; [|done]].
    + eapply Hrep; [done|apply lookup_insert_eq|done|done|done|exact Hx1].
    + split_and!; simpl; [intros b Hb; by apply lookup_insert_ne| |done].
      intros e He; apply lookup_insert_ne; set_solver.
  - destruct q as [|y q _] using rev_ind; [by rewrite Ht in E0|]; rewrite tail_of_snoc in Ht.
    destruct (echain_at _ _ q y [] Hc1) as (ey & Hey & _ & _).
    rewrite Ht, (ent_at_some _ _ _ Hey); mstep.
    eexists; split; [done|]; split; [|split; [|done]].
    + eapply Hrep; [done|apply lookup_insert_eq|done|done|done|].
      rewrite <- app_assoc; apply echain_link; [done|done|done|done|].
      rewrite fmap_app in Hxq; set_solver.
    + split_and!; simpl; [intros b Hb; by apply lookup_insert_ne| |done].
      intros e He; rewrite fmap_app in He; rewrite !lookup_insert_ne by set_solver; done.
Qed.

Lemma rep_wq s sb q hi w : sb_rep s sb q hi -> sb_rep (set_wq w s) sb q hi.
Proof. done. Qed.

(** A full buffer refuses the packet and is unchanged; otherwise the packet is the
    last of the queue and every waiter is runnable. *)
Lemma append_ok fuel s sb q hi x w ip :
  sb_rep s sb q hi -> fresh_msg s q x -> sb_waiters s sb w -> (length w < fuel)%nat ->
  default 0 ip = q_ip x ->
  let r := sockbuf_append fuel sb (pptr (q_pkt x)) ip (q_port x) (q_addr x) s in
  if decide (hi < qlen q + plen (q_pkt x)) then r = Ok (-1, s)
  else exists s', r = Ok (0, s') /\ sb_rep s' sb (q ++ [x]) hi /\
    only s s' sb (q_addr x :: addrs q) [] /\
    runnable (n_wq s) (n_wq s') (named (n_wq s) w).
Proof.
  intros Hrep Hx (Hv & Hw & Hlive) Hf Hip r; unfold r, sockbuf_append; clear r.
  pose proof Hrep as (Hsb & Hhi & Hle & (d & Hd & Hh & Hcc & _) & _).
  pose proof Hx as (Hx0 & Hxn & Hxp & Hxc & _).
  destruct (pchain_tot _ _ Hxp Hxc) as (pd & Hpd & Htot & Hsz); pose proof (qlen_pos q).
  rewrite (decide_False (P:=sb = 0 \/ pptr (q_pkt x) = 0)) by (by intros [|]).
  rewrite (decide_False (P:=q_addr x = 0)) by done; rewrite Hip.
  set (s1 := ent_put _ _ _); rewrite (sb_at_some s1 sb d) by done; mstep.
  rewrite (pbuf_at_some (n_pb s1) _ pd) by done; mstep.
  rewrite Hcc, Htot, Hh, !u32_small by lia.
  destruct (decide (hi < qlen q + plen (q_pkt x))) as [Hfull|Hroom].
  - do 2 f_equal; unfold s1, ent_free, ent_put; simpl; rewrite delete_insert_id by done.
    by destruct s.
  - destruct (link_tail_ok s sb q hi x d) as (s2 & E2 & Hrep2 & Hon & Hpb & Hwq); [done..|lia|].
    fold s1 in E2; rewrite E2; mstep; rewrite Hwq.
    destruct (wait_queue_wake_all_ok fuel (sb_waitq sb) w (n_wq s)) as (w' & -> & Hr & _);
      [done..|]; mstep.
    by exists (set_wq w' s2).
Qed.

(** ** Delivering the consumed entries *)

Lemma pptr_in l : pptr l ≠ 0 -> pptr l ∈ l.*1.
Proof. destruct l as [|[a bs] l]; [done|]; intros _; simpl; set_solver. Qed.

Section reading.
Context (cf : Z -> pb_state -> pb_state).

Lemma deliver_ok fuel c : forall n curr out rest s,
  echain (n_entries s) curr c -> packets_ok (pb_heap (n_pb s)) c ->
  NoDup (addrs c) -> NoDup (cells c) ->
  Forall (fun x => (length (q_pkt x) + 1 < fuel)%nat) c -> (length c < n)%nat ->
  (length (qbytes c) <= length rest)%nat ->
  Z.of_nat (length out) + qlen c < 2 ^ 64 ->
  exists s', loop n (deliver_step cf fuel) (curr, Z.of_nat (length out), out ++ rest, s)
    = Ok (Z.of_nat (length (out ++ qbytes c)),
          (out ++ qbytes c) ++ drop (length (qbytes c)) rest, s') /\
    n_sb s' = n_sb s /\ n_wq s' = n_wq s /\
    (forall e, n_entries s' !! e = if decide (e ∈ addrs c) then None else n_entries s !! e) /\
    without (pb_heap (n_pb s)) (cells c) (pb_heap (n_pb s')).
Proof.
  induction c as [|x c IH]; intros n curr out rest s Hc Hp Hnd Hndc Hfu Hn Hroom Hlt;
    destruct n as [|n]; simpl in Hn; try lia; rewrite loop_S; unfold deliver_step at 1.
  - simpl in Hc; rewrite decide_True by done; exists s; simpl.
    rewrite !app_nil_r; split_and!; by try done.
  - destruct Hc as (-> & Hx0 & e & He & Hep & _ & _ & Hc); rewrite decide_False by done.
    rewrite (ent_at_some _ _ _ He); mstep.
    apply Forall_cons in Hp as [[Hp0 Hpc] Hp]; apply Forall_cons in Hfu as [Hf1 Hfu].
    rewrite Hep; rewrite decide_False by done.
    destruct (pchain_tot _ _ Hp0 Hpc) as (pd & Hpd & Htot & Hsz).
    rewrite (pbuf_at_some _ _ _ Hpd); mstep; rewrite Htot.
    simpl in Hndc, Hroom; apply NoDup_app in Hndc as (Hnd1 & Hdis & Hndc).
    apply NoDup_cons in Hnd as [Hxc Hnd]; rewrite qlen_cons in Hlt.
    pose proof (qlen_pos c); rewrite length_app in Hroom.
    pose proof (pbuf_copy_partial_all (n_pb s) (pptr (q_pkt x)) (q_pkt x) out rest fuel) as Ecp.
    rewrite Ecp; [|done|lia|lia]; mstep.
    destruct (pbuf_free_chain cf fuel (pptr (q_pkt x)) (q_pkt x) (n_pb s))
      as (k & pb & -> & Hw); [done|done|lia|]; mstep.
    set (s1 := ent_free _ _).
    rewrite u64_small by (unfold plen in *; lia).
    replace (Z.of_nat (length out) + plen (q_pkt x))
      with (Z.of_nat (length (out ++ pdata (q_pkt x)))) by (rewrite length_app; unfold plen; lia).
    rewrite app_assoc.
    destruct (IH n (e_next e) (out ++ pdata (q_pkt x)) (drop (length (pdata (q_pkt x))) rest) s1)
      as (s' & E & Hsb & Hwq & Hent & Hpb); [| |done|done|done|lia| | |].
    + eapply echain_ext; [|done]; intros a Ha; apply lookup_delete_ne; set_solver.
    + eapply packets_ext; [|done]; intros a Ha; unfold s1; simpl; rewrite Hw.
      by rewrite decide_False by (intros Hb; by eapply Hdis).
    + rewrite length_drop; lia.
    + rewrite length_app; unfold plen in *; lia.
    + exists s'; split_and!; [|done|done| |].
      * rewrite E; simpl; rewrite !length_app, drop_drop, <- !app_assoc; by rewrite Nat.add_assoc.
      * intros a; rewrite Hent; unfold s1; simpl; destruct (decide (a = q_addr x)) as [->|].
        -- rewrite decide_False, decide_True by set_solver; apply lookup_delete_eq.
        -- rewrite lookup_delete_ne by done; destruct (decide (a ∈ addrs c));
             [by rewrite decide_True by set_solver|by rewrite decide_False by set_solver].
      * intros a; rewrite Hpb; unfold s1; simpl; rewrite Hw.
        destruct (decide (a ∈ cells c)); [by rewrite decide_True by set_solver|].
        destruct (decide (a ∈ (q_pkt x).*1)); [by rewrite decide_True by set_solver|].
        by rewrite decide_False by set_solver.
Qed.
End reading.
