(* ===== verification/SockBufRead.v ===== *)
(** * Socket buffers: reading

    The dequeuing loop of [sockbuf_read] against the abstract [recv], the copies to
    the caller's buffer, and the theorems on socket buffers: the byte stream over
    any sequence of operations, and the peek. *)

From stdpp Require Import base tactics list numbers gmap sets.
From Stdlib Require Import ZArith Lia.
From S2P Require Import Prelude Kutils Pbuf WaitQueue SockBuf SockBufSpec.

Local Open Scope Z_scope.

(** The state of the dequeuing loop: [c] is consumed, [q] is still queued. *)
Definition dequeuing (s : net) (sb : Z) (g : gathered) (c q : list qent) (hi : Z) : Prop :=
  sb_rep s sb q hi /\ echain (n_entries s) (g_head g) c /\ g_tail g = tail_of c /\
  packets_ok (pb_heap (n_pb s)) c /\ NoDup (addrs (c ++ q)) /\ NoDup (cells (c ++ q)).

(** The message [x] with the packet [l]. *)
Definition with_pkt (x : qent) (l : packet) : qent :=
  {| q_addr := q_addr x; q_pkt := l; q_ip := q_ip x; q_port := q_port x |}.

Lemma tail_of_cons x q : q ≠ [] -> tail_of (x :: q) = tail_of q.
Proof. destruct q as [|y q]; [done|]; intros _; done. Qed.

Lemma cc_sub_le a b : 0 <= b < 2 ^ 32 -> b <= a -> cc_sub a b = a - b.
Proof. intros; unfold cc_sub; rewrite u32_small by lia; by rewrite decide_True. Qed.

Lemma link_consumed_ok s g c x :
  (exists e, n_entries s !! q_addr x = Some e /\ e_p e = pptr (q_pkt x) /\
     e_src_ip e = q_ip x /\ e_src_port e = q_port x /\ e_next e = 0) ->
  q_addr x ≠ 0 -> echain (n_entries s) (g_head g) c -> g_tail g = tail_of c ->
  NoDup (addrs (c ++ [x])) ->
  exists s', link_consumed g (q_addr x) s = Ok s' /\
    echain (n_entries s') (if decide (g_head g = 0) then q_addr x else g_head g) (c ++ [x]) /\
    n_sb s' = n_sb s /\ n_pb s' = n_pb s /\ n_wq s' = n_wq s /\
    (forall a, a ∉ addrs (c ++ [x]) -> n_entries s' !! a = n_entries s !! a).
Proof.
  intros (e & He & H1 & H2 & H3 & H4) Hx0 Hg Hgt Hnd; unfold link_consumed.
  assert (Hx : echain (n_entries s) (q_addr x) [x]).
  { split; [done|]; split; [done|]; exists e; by rewrite H4. }
  destruct (decide (g_head g = 0)) as [E|E].
  - apply (head_null _ _ _ Hg) in E as ->; exists s; by split_and!.
  - assert (Hcne : c ≠ []) by (by intros ->).
    destruct c as [|y c _] using rev_ind; [done|]; rewrite tail_of_snoc in Hgt.
    destruct (echain_at _ _ c y [] Hg) as (ey & Hey & _ & _).
    rewrite fmap_app in Hnd; apply NoDup_app in Hnd as (Hnd & Hdis & _).
    rewrite Hgt, (ent_at_some _ _ _ Hey); mstep; eexists; split; [done|].
    split; [|split_and!; try done].
    + rewrite <- app_assoc; apply echain_link; [done|done|done|done|].
      intros Hin; apply (Hdis (q_addr y)); rewrite ?fmap_app; set_solver.
    + intros a Ha; rewrite !fmap_app in Ha; apply lookup_insert_ne; set_solver.
Qed.

(** The entry [x] leaves the queue for the consumed list. *)
Lemma dequeue_whole cf fuel sb max_len g s c x q hi :
  dequeuing s sb g c (x :: q) hi -> 0 <= g_total g ->
  plen (q_pkt x) <= max_len - g_total g -> g_total g < max_len -> max_len < 2 ^ 63 ->
  exists g' s', dequeue_step cf fuel sb max_len (g, s) = Ok (inl (g', s')) /\
    dequeuing s' sb g' (c ++ [x]) q hi /\ g_total g' = g_total g + plen (q_pkt x) /\
    g_partial g' = g_partial g /\ g_partial_len g' = g_partial_len g /\
    g_meta g' = match g_meta g with None => Some (q_ip x, q_port x) | m => m end /\
    only s s' sb (addrs (c ++ [x])) [] /\ n_wq s' = n_wq s /\ n_pb s' = n_pb s.
Proof.
  intros ((Hsb & Hhi & Hle & (d & Hd & Hh & Hcc & Ht & Hc) & Hp & Hnd & Hndc)
          & Hg & Hgt & Hcp & Hnda & Hndca) Ht0 Hfit Hlt Hmax.
  destruct Hc as (Eh & Hx0 & e & He & Hep & Hip & Hport & Hc).
  apply Forall_cons in Hp as [[Hp0 Hpc] Hp].
  destruct (pchain_tot _ _ Hp0 Hpc) as (pd & Hpd & Htot & Hsz).
  rewrite qlen_cons in Hle, Hcc; pose proof (qlen_pos q).
  unfold dequeue_step; rewrite (sb_at_some _ _ _ Hd); mstep.
  rewrite Eh; rewrite decide_False by (intros [?|?]; [done|lia]).
  rewrite (ent_at_some _ _ _ He); mstep; rewrite Hep, (pbuf_at_some _ _ _ Hpd); mstep.
  rewrite Htot, Hip, Hport; rewrite decide_True by lia.
  rewrite cc_sub_le, u64_small by lia.
  assert (Hxq : q_addr x ∉ addrs q) by (by apply NoDup_cons in Hnd as [? _]).
  assert (Hxc : q_addr x ∉ addrs c).
  { rewrite fmap_app in Hnda; apply NoDup_app in Hnda as (_ & Hdis & _).
    intros Hin; apply (Hdis _ Hin); set_solver. }
  set (s1 := ent_put _ _ _).
  destruct (link_consumed_ok s1 g c x) as (s2 & -> & Hc2 & Esb & Epb & Ewq & Eent); mstep.
  { by eexists; split; [apply lookup_insert_eq|]. }
  { done. }
  { eapply echain_ext; [|done]; intros a Ha; apply lookup_insert_ne; set_solver. }
  { done. }
  { rewrite cons_middle, app_assoc, fmap_app in Hnda; by apply NoDup_app in Hnda as (? & _). }
  assert (Eent' : forall a, a ∉ addrs (c ++ [x]) -> n_entries s2 !! a = n_entries s !! a).
  { intros a Ha; rewrite Eent by done; apply lookup_insert_ne; rewrite fmap_app in Ha; set_solver. }
  eexists _, s2; split; [done|]; split; [|split_and!; try done; simpl].
  - split; [|split; [exact Hc2|]; split_and!].
    + split_and!; [done|done|lia| | |by apply NoDup_cons in Hnd as [_ ?]|
                   simpl in Hndc; by apply NoDup_app in Hndc as (_ & _ & ?)].
      * rewrite Esb; eexists; split; [apply lookup_insert_eq|]; simpl.
        split; [done|]; split; [lia|]; split.
        { destruct (decide (e_next e = 0)) as [E|E].
          - by apply (head_null _ _ _ Hc) in E as ->.
          - rewrite Ht; apply tail_of_cons; intros ->; by apply E, (head_null _ _ _ Hc). }
        eapply echain_ext; [|done]; intros a Ha; apply Eent'; rewrite fmap_app.
        rewrite fmap_app in Hnda; apply NoDup_app in Hnda as (_ & Hdis & _).
        intros [Hb|Hb]%elem_of_app; [apply (Hdis _ Hb); set_solver|set_solver].
      * by rewrite Epb.
    + simpl; by rewrite tail_of_snoc.
    + rewrite Epb; apply Forall_app; split; [done|]; by apply Forall_singleton.
    + by rewrite <- app_assoc.
    + by rewrite <- app_assoc.
  - split_and!; [|done|by rewrite Epb].
    intros b Hb; rewrite Esb; unfold s1; simpl; by apply lookup_insert_ne.
Qed.

Lemma cells_suffix c x l' q :
  l'.*1 `suffix_of` (q_pkt x).*1 ->
  cells (c ++ with_pkt x l' :: q) `sublist_of` cells (c ++ x :: q).
Proof.
  intros [pre E]; rewrite !cells_app; apply sublist_app; [done|]; simpl; rewrite E.
  apply sublist_app; [|done]; by apply sublist_inserts_l.
Qed.

Lemma tail_of_with x l' q : tail_of (with_pkt x l' :: q) = tail_of (x :: q).
Proof. by destruct q. Qed.

(** The loop's invariant when the packet at the head of the queue loses its first
    [k] bytes. *)
Lemma dequeuing_part s s' sb g g' c x l' q hi d k e :
  dequeuing s sb g c (x :: q) hi -> n_sb s !! sb = Some d ->
  g_head g' = g_head g -> g_tail g' = g_tail g ->
  n_entries s !! q_addr x = Some e ->
  n_entries s' = <[q_addr x := {| e_p := pptr l'; e_src_ip := q_ip x;
                                  e_src_port := q_port x; e_next := e_next e |}]> (n_entries s) ->
  n_sb s' !! sb = Some {| sb_cc := sb_cc d - k; sb_hiwat := sb_hiwat d;
                          sb_lowat := sb_lowat d; sb_flags := sb_flags d;
                          sb_head := sb_head d; sb_tail := sb_tail d |} ->
  pptr l' ≠ 0 -> pchain (pb_heap (n_pb s')) (pptr l') l' ->
  plen l' = plen (q_pkt x) - k -> 0 <= k -> l'.*1 `suffix_of` (q_pkt x).*1 ->
  (forall a, a ∉ (q_pkt x).*1 -> pb_heap (n_pb s') !! a = pb_heap (n_pb s) !! a) ->
  dequeuing s' sb g' c (with_pkt x l' :: q) hi.
Proof.
  intros ((Hsb & Hhi & Hle & (d' & Hd & Hh & Hcc & Ht & Hc) & Hp & Hnd & Hndc)
          & Hg & Hgt & Hcp & Hnda & Hndca) Hd' Egh Egt He Eent Esb Hp' Hpc' Hl' Hk Hsuf Hkeep.
  assert (d' = d) as -> by congruence.
  destruct Hc as (Eh & Hx0 & e' & He' & Hep & Hip & Hport & Hc).
  assert (e' = e) as -> by congruence; apply Forall_cons in Hp as [_ Hp].
  rewrite qlen_cons in Hle, Hcc.
  assert (Hdis : forall a, a ∈ cells (c ++ q) -> a ∉ (q_pkt x).*1).
  { rewrite cells_app in Hndca |- *; simpl in Hndca.
    apply NoDup_app in Hndca as (_ & D1 & D2); apply NoDup_app in D2 as (_ & D2 & _).
    intros a [Ha|Ha]%elem_of_app Hb; [apply (D1 a Ha)|apply (D2 a Hb Ha)]; set_solver. }
  assert (Hxc : q_addr x ∉ addrs (c ++ q)).
  { rewrite fmap_app in Hnda |- *; apply NoDup_app in Hnda as (_ & D1 & D2); simpl in D2.
    apply NoDup_cons in D2 as [D2 _]; intros [Ha|Ha]%elem_of_app; [apply (D1 _ Ha)|]; set_solver. }
  rewrite fmap_app in Hxc; rewrite cells_app in Hdis.
  split; [|rewrite Egh, Egt, Eent; split_and!].
  - split_and!; [done|done|rewrite qlen_cons; simpl; lia| | |done|].
    + eexists; split; [exact Esb|]; simpl; rewrite tail_of_with, qlen_cons; simpl.
      split; [done|]; split; [lia|]; split; [done|]; split; [done|]; split; [done|].
      eexists; rewrite Eent; split; [apply lookup_insert_eq|]; simpl; split_and!; try done.
      eapply echain_ext; [|done]; intros a Ha; apply lookup_insert_ne; set_solver.
    + apply Forall_cons; split; [by split|]; eapply packets_ext; [|done].
      intros a Ha; apply Hkeep; set_solver.
    + eapply sublist_NoDup; [|apply (cells_suffix [] x l' q Hsuf)]; done.
  - eapply echain_ext; [|done]; intros a Ha; apply lookup_insert_ne; set_solver.
  - done.
  - eapply packets_ext; [|done]; intros a Ha; apply Hkeep; set_solver.
  - rewrite fmap_app in Hnda |- *; done.
  - eapply sublist_NoDup; [|apply (cells_suffix c x l' q Hsuf)]; done.
Qed.

(** The first bytes of the entry [x] are taken, and the rest stays queued. *)
Lemma dequeue_part cf fuel sb max_len g s c x q hi :
  dequeuing s sb g c (x :: q) hi -> 0 <= g_total g -> g_total g < max_len ->
  max_len < 2 ^ 63 -> max_len - g_total g < plen (q_pkt x) ->
  length (g_partial g) = 4096%nat -> (length (q_pkt x) + 1 < fuel)%nat ->
  let k := Z.min (max_len - g_total g) 4096 in
  exists g' s' l', dequeue_step cf fuel sb max_len (g, s) = Ok (inr (g', s')) /\
    dequeuing s' sb g' c (with_pkt x l' :: q) hi /\ g_partial_len g' = k /\
    take (Z.to_nat k) (g_partial g') = take (Z.to_nat k) (pdata (q_pkt x)) /\
    length (g_partial g') = 4096%nat /\
    g_meta g' = match g_meta g with None => Some (q_ip x, q_port x) | m => m end /\
    pdata l' = drop (Z.to_nat k) (pdata (q_pkt x)) /\ l'.*1 `suffix_of` (q_pkt x).*1 /\
    (forall a, a ∈ (q_pkt x).*1 -> a ∉ l'.*1 -> pb_heap (n_pb s') !! a = None) /\
    only s s' sb [q_addr x] (q_pkt x).*1 /\ n_wq s' = n_wq s.
Proof.
  intros Hdq Ht0 Hlt Hmax Hbig Hlen Hfuel k.
  pose proof Hdq as ((_ & Hhi & Hle & (d & Hd & Hh & Hcc & Ht & Hc) & Hp & Hnd & Hndc) & _).
  destruct Hc as (Eh & Hx0 & e & He & Hep & Hip & Hport & Hc).
  apply Forall_cons in Hp as [[Hp0 Hpc] Hp].
  destruct (pchain_tot _ _ Hp0 Hpc) as (pd & Hpd & Htot & Hsz).
  rewrite qlen_cons in Hle, Hcc; pose proof (qlen_pos q).
  assert (Hkb : 0 < k < plen (q_pkt x) /\ k <= 4096) by (unfold k; lia).
  unfold dequeue_step; rewrite (sb_at_some _ _ _ Hd); mstep.
  rewrite Eh; rewrite decide_False by (intros [?|?]; [done|lia]).
  rewrite (ent_at_some _ _ _ He); mstep; rewrite Hep, (pbuf_at_some _ _ _ Hpd); mstep.
  rewrite Htot, Hip, Hport; rewrite decide_False by lia.
  assert (Ek : (if decide (max_len - g_total g < 4096) then max_len - g_total g else 4096) = k)
    by (unfold k; case_decide; lia).
  rewrite Ek, u16_small by lia.
  rewrite (pbuf_copy_partial_prefix _ _ (q_pkt x)) by (done || lia); mstep.
  assert (Hndx : NoDup (q_pkt x).*1) by (simpl in Hndc; by apply NoDup_app in Hndc as (? & _)).
  destruct (pbuf_free_header_ok cf fuel (q_pkt x) (pptr (q_pkt x)) (n_pb s) k)
    as (p' & pb & l' & -> & Hpc' & Hdata & Hsuf & Hgone & Hkeep); [done|done|lia|lia|]; mstep.
  assert (Hl' : plen l' = plen (q_pkt x) - k) by (unfold plen; rewrite Hdata, length_drop; unfold plen in *; lia).
  assert (Hp' : p' = pptr l' /\ p' ≠ 0).
  { split; [|eapply pchain_nonnull; [done|lia]].
    destruct l' as [|[a bs] l']; [done|by destruct Hpc' as (? & _)]. }
  destruct Hp' as [-> Hp'].
  rewrite cc_sub_le by lia.
  eexists _, _, l'; split; [done|]; split; [|split_and!; try done; simpl].
  - eapply (dequeuing_part s _ sb g _ c x l' q hi d k e); try done; [rewrite Eh; apply lookup_insert_eq|lia].
  - rewrite take_app_le, take_take by (rewrite length_take; unfold plen in Hkb; lia).
    f_equal; lia.
  - rewrite length_app, length_take, length_drop; unfold plen in Hkb; lia.
  - split_and!; simpl; [intros b Hb; by apply lookup_insert_ne| |done].
    intros a Ha; apply lookup_insert_ne; set_solver.
Qed.

Definition meta_after (m : option (Z * Z)) (more : bool) (q : list qent) : option (Z * Z) :=
  match m with
  | Some _ => m
  | None => if more then snd <$> head (msgs q) else None
  end.

Definition fits (fuel : nat) (q : list qent) : Prop :=
  Forall (fun x => (length (q_pkt x) + 1 < fuel)%nat) q.

Lemma only_weaken s s' sb es es' cs cs' :
  only s s' sb es cs -> (forall a, a ∈ es -> a ∈ es') -> (forall a, a ∈ cs -> a ∈ cs') ->
  only s s' sb es' cs'.
Proof.
  intros (H1 & H2 & H3) He Hc; split_and!; [done|..]; intros a Ha; [apply H2|apply H3]; auto.
Qed.

Lemma only_step s s1 s' sb c x q :
  only s s1 sb (addrs (c ++ [x])) [] -> only s1 s' sb (addrs ((c ++ [x]) ++ q)) (cells q) ->
  only s s' sb (addrs (c ++ x :: q)) (cells (x :: q)).
Proof.
  intros H1 H2; eapply only_trans; [eapply only_weaken; [exact H1|..]|
    eapply only_weaken; [exact H2|..]]; intros a; rewrite <- ?app_assoc; simpl.
  - rewrite !fmap_app; set_solver.
  - set_solver.
  - done.
  - set_solver.
Qed.

Lemma suffix_fits fuel x (l' : packet) :
  l'.*1 `suffix_of` (q_pkt x).*1 -> (length (q_pkt x) + 1 < fuel)%nat ->
  (length l' + 1 < fuel)%nat.
Proof. intros H%suffix_length ?; rewrite !length_fmap in H; lia. Qed.

(** The dequeuing loop computes [recv]. *)
Lemma dequeue_ok cf fuel sb max_len hi : forall q n c g s,
  dequeuing s sb g c q hi -> 0 <= g_total g <= max_len -> max_len < 2 ^ 63 ->
  g_partial_len g = 0 -> length (g_partial g) = 4096%nat -> fits fuel q ->
  (length q < n)%nat ->
  exists g' s' c2 part q',
    loop n (dequeue_step cf fuel sb max_len) (g, s) = Ok (g', s') /\
    dequeuing s' sb g' (c ++ c2) q' hi /\
    (g_partial_len g' = Z.of_nat (length part) /\ take (length part) (g_partial g') = part) /\
    recv (max_len - g_total g) (msgs q) = (qbytes c2 ++ part, msgs q') /\
    g_meta g' = meta_after (g_meta g) (bool_decide (g_total g < max_len)) q /\
    only s s' sb (addrs (c ++ q)) (cells q) /\ n_wq s' = n_wq s /\
    fits fuel c2 /\ fits fuel q' /\ addrs q = addrs (c2 ++ q') /\
    (forall a, a ∈ cells q -> a ∉ cells (c2 ++ q') -> pb_heap (n_pb s') !! a = None) /\
    (forall a, a ∈ cells (c2 ++ q') -> a ∈ cells q).
Proof.
  induction q as [|x q IH]; intros n c g s Hdq Ht Hmax Hpl Hpb Hfit Hn;
    destruct n as [|n]; simpl in Hn; try lia; rewrite loop_S.
  - pose proof Hdq as ((_ & _ & _ & (d & Hd & _ & _ & _ & Hc) & _) & _); simpl in Hc.
    unfold dequeue_step; rewrite (sb_at_some _ _ _ Hd); mstep; rewrite decide_True by (by left).
    exists g, s, [], [], []; rewrite app_nil_r; split_and!; try done.
    unfold meta_after; destruct (g_meta g); [done|]; by case_bool_decide.
  - destruct (decide (max_len <= g_total g)) as [Hfull|Hmore].
    { pose proof Hdq as ((_ & _ & _ & (d & Hd & _) & _) & _).
      unfold dequeue_step; rewrite (sb_at_some _ _ _ Hd); mstep.
      rewrite decide_True by (by right).
      exists g, s, [], [], (x :: q); rewrite app_nil_r; split_and!; try done.
      - simpl; by rewrite decide_True by lia.
      - rewrite bool_decide_eq_false_2 by lia; by destruct (g_meta g).
      - by constructor. }
    apply Forall_cons in Hfit as [Hfx Hfit].
    rewrite bool_decide_eq_true_2 by lia.
    destruct (decide (plen (q_pkt x) <= max_len - g_total g)) as [Hw|Hpart].
    + destruct (dequeue_whole cf fuel sb max_len g s c x q hi)
        as (g1 & s1 & -> & Hdq1 & Et1 & Ep1 & Epl1 & Em1 & On1 & Ew1 & Epb1); [done|lia..|].
      pose proof (plen_pos (q_pkt x)).
      destruct (IH n (c ++ [x]) g1 s1)
        as (g' & s' & c2 & part & q' & E & Hdq' & [Hpa1 Hpa2] & Hr & Hm & On & Ew & F1 & F2 & Ea & Hg & Hi);
        [done|lia|lia|congruence|congruence|done|lia|].
      exists g', s', (x :: c2), part, q'; split; [exact E|]; rewrite <- app_assoc in Hdq'.
      split_and!; try done.
      * simpl; rewrite decide_False by lia.
        rewrite decide_True by exact Hw; fold (plen (q_pkt x)).
        replace (max_len - g_total g - plen (q_pkt x)) with (max_len - g_total g1) by lia.
        rewrite Hr; simpl; by rewrite app_assoc.
      * rewrite Hm, Em1; by destruct (g_meta g).
      * by eapply only_step.
      * congruence.
      * by apply Forall_cons.
      * change (q_addr x :: addrs q = q_addr x :: addrs (c2 ++ q')); by rewrite Ea.
      * intros a [Ha|Ha]%elem_of_app Hna; [destruct Hna; apply elem_of_app; by left|].
        apply Hg; [done|]; intros Hb; apply Hna, elem_of_app; by right.
      * intros a [Ha|Ha]%elem_of_app; apply elem_of_app; [by left|right; by apply Hi].
    + destruct (dequeue_part cf fuel sb max_len g s c x q hi)
        as (g' & s' & l' & -> & Hdq' & Hk & Htk & Hlp & Hm & Hdata & Hsuf & Hgone & On & Ew);
        [done|lia..|].
      set (k := Z.min (max_len - g_total g) 4096) in *.
      assert (Lk : length (take (Z.to_nat k) (pdata (q_pkt x))) = Z.to_nat k)
        by (rewrite length_take; unfold plen in Hpart; lia).
      exists g', s', [], (take (Z.to_nat k) (pdata (q_pkt x))), (with_pkt x l' :: q).
      rewrite app_nil_r; split_and!; try done.
      * rewrite Lk; lia.
      * by rewrite Lk.
      * simpl; rewrite decide_False by lia; rewrite decide_False by (fold (plen (q_pkt x)); lia).
        by rewrite Hdata.
      * rewrite Hm; by destruct (g_meta g).
      * eapply only_weaken; [exact On|intros a ->%list_elem_of_singleton|intros a Ha].
        -- rewrite fmap_app; apply elem_of_app; right; by left.
        -- apply elem_of_app; by left.
      * by constructor.
      * apply Forall_cons; split; [|done]; by eapply (suffix_fits fuel x).
      * intros a [Ha|Ha]%elem_of_app Hna; [apply Hgone; [done|]|destruct Hna].
        -- intros Hb; apply Hna, elem_of_app; by left.
        -- apply elem_of_app; by right.
      * intros a [Ha|Ha]%elem_of_app; apply elem_of_app; [left|by right].
        destruct Hsuf as [pre ->]; apply elem_of_app; by right.
Qed.

(** Freeing the consumed entries leaves the rest of the queue as it was. *)
Lemma rep_delivered s1 s2 sb g c q hi :
  dequeuing s1 sb g c q hi -> n_sb s2 = n_sb s1 ->
  (forall e, n_entries s2 !! e = if decide (e ∈ addrs c) then None else n_entries s1 !! e) ->
  without (pb_heap (n_pb s1)) (cells c) (pb_heap (n_pb s2)) ->
  sb_rep s2 sb q hi.
Proof.
  intros ((Hsb & Hhi & Hle & (d & Hd & Hh & Hcc & Ht & Hc) & Hp & Hnd & Hndc)
          & _ & _ & _ & Hnda & Hndca) Esb Eent Epb.
  rewrite fmap_app in Hnda; apply NoDup_app in Hnda as (_ & D1 & _).
  rewrite cells_app in Hndca; apply NoDup_app in Hndca as (_ & D2 & _).
  split_and!; [done|done|done| | |done|done].
  - exists d; rewrite Esb; split_and!; try done; eapply echain_ext; [|done].
    intros a Ha; rewrite Eent; apply decide_False; intros Hb; by apply (D1 a).
  - eapply packets_ext; [|done]; intros a Ha; rewrite Epb; apply decide_False.
    intros Hb; by apply (D2 a).
Qed.

(** The partial message goes to the caller after the whole ones. *)
Lemma partial_write out rest part pbuf n :
  n = Z.of_nat (length part) -> take (length part) pbuf = part ->
  (length part <= length rest)%nat -> Z.of_nat (length out) + n < 2 ^ 64 ->
  (if decide (0 < n) then
     bytes ← read_bytes pbuf 0 (Z.to_nat n);
     buf ← write_bytes (out ++ rest) (Z.of_nat (length out)) bytes;
     Ok (u64 (Z.of_nat (length out) + n), buf)
   else Ok (Z.of_nat (length out), out ++ rest))
  = Ok (Z.of_nat (length (out ++ part)), (out ++ part) ++ drop (length part) rest).
Proof.
  intros -> Hp Hr Hlt; destruct (decide (0 < Z.of_nat (length part))) as [H0|H0].
  - assert (Hlp : (length part <= length pbuf)%nat) by (rewrite <- Hp, length_take; lia).
    rewrite Nat2Z.id, read_bytes_ok by lia; mstep; change (Z.to_nat 0) with 0%nat.
    rewrite drop_0, Hp, write_bytes_app by done; mstep.
    rewrite u64_small, length_app, app_assoc by lia; do 2 f_equal; lia.
  - assert (part = []) as -> by (destruct part; [done|simpl in *; lia]).
    simpl; by rewrite app_nil_r.
Qed.

Lemma sb_waiters_wake fuel s sb w :
  sb_waiters s sb w -> (length w < fuel)%nat ->
  exists w', wait_queue_wake_all fuel (sb_waitq sb) (n_wq s) = Ok w' /\
    runnable (n_wq s) w' (named (n_wq s) w).
Proof.
  intros (Hv & Hw & Hlive) Hf.
  destruct (wait_queue_wake_all_ok fuel (sb_waitq sb) w (n_wq s)) as (w' & E & Hr & _);
    [done..|]; eauto.
Qed.

(** What is consumed is freed, and nothing else is touched. *)
Lemma delivered_gone s s1 s2 sb c q q' :
  only s s1 sb (addrs q) (cells q) -> addrs q = addrs (c ++ q') ->
  (forall a, a ∈ cells q -> a ∉ cells (c ++ q') -> pb_heap (n_pb s1) !! a = None) ->
  (forall a, a ∈ cells (c ++ q') -> a ∈ cells q) -> n_sb s2 = n_sb s1 ->
  (forall e, n_entries s2 !! e = if decide (e ∈ addrs c) then None else n_entries s1 !! e) ->
  without (pb_heap (n_pb s1)) (cells c) (pb_heap (n_pb s2)) ->
  only s s2 sb (addrs q) (cells q) /\
  (forall e, e ∈ addrs q -> e ∉ addrs q' -> n_entries s2 !! e = None) /\
  (forall a, a ∈ cells q -> a ∉ cells q' -> pb_heap (n_pb s2) !! a = None).
Proof.
  intros (O1 & O2 & O3) Ea Hg Hi Esb Eent Epb; rewrite cells_app in Hg, Hi.
  rewrite fmap_app in Ea; split_and!.
  - split_and!; [by rewrite Esb|intros e He|intros a Ha].
    + rewrite Eent, decide_False by (rewrite Ea in He; set_solver); by apply O2.
    + rewrite Epb, decide_False by (intros Hb; apply Ha, Hi, elem_of_app; by left); by apply O3.
  - intros e He He'; rewrite Eent, decide_True; [done|]; rewrite Ea in He; set_solver.
  - intros a Ha Ha'; rewrite Epb; destruct (decide (a ∈ cells c)); [done|].
    apply Hg; [done|]; intros [?|?]%elem_of_app; done.
Qed.

Lemma consume_ok cf fuel s sb q hi w max_len pbuf buf :
  sb_rep s sb q hi -> sb_waiters s sb w -> (length w < fuel)%nat -> enough fuel q ->
  0 < max_len < 2 ^ 63 -> max_len <= Z.of_nat (length buf) -> length pbuf = 4096%nat ->
  exists s' q' out, sockbuf_consume cf fuel sb max_len pbuf buf s
      = Ok (Z.of_nat (length out), out ++ drop (length out) buf, snd <$> head (msgs q), s') /\
    recv max_len (msgs q) = (out, msgs q') /\ sb_rep s' sb q' hi /\
    only s s' sb (addrs q) (cells q) /\
    (forall e, e ∈ addrs q -> e ∉ addrs q' -> n_entries s' !! e = None) /\
    (forall a, a ∈ cells q -> a ∉ cells q' -> pb_heap (n_pb s') !! a = None) /\
    (forall a, a ∈ cells q' -> a ∈ cells q) /\ (length q' <= length q)%nat /\ fits fuel q' /\
    (if decide (out = []) then n_wq s' = n_wq s
     else runnable (n_wq s) (n_wq s') (named (n_wq s) w)).
Proof.
  intros Hrep Hw Hfw [Hf Hfit] Hmax Hbuf Hpb.
  pose proof Hrep as (Hsb & Hhi & Hle & (d & Hd & Hh & Hcc & Ht & Hc) & Hp & Hnd & Hndc).
  unfold sockbuf_consume; rewrite (sb_at_some _ _ _ Hd); mstep.
  destruct (decide (sb_head d = 0)) as [E0|E0].
  { apply (head_null _ _ _ Hc) in E0 as ->; exists s, [], []; simpl; split_and!; try done; constructor. }
  set (g0 := {| g_total := 0 |}).
  destruct (dequeue_ok cf fuel sb max_len hi q fuel [] g0 s)
    as (g & s1 & c & part & q' & -> & Hdq & [Hpl Hpt] & Hr & Hm & On & Ew & F1 & F2 & Ea & Hgone & Hin);
    [split; [done|]; split_and!; try done; constructor|simpl; lia|lia|done|done|done|lia|]; mstep.
  simpl in Hdq, Hr; rewrite Z.sub_0_r in Hr.
  pose proof (recv_stream _ _ _ _ Hr) as Hst; rewrite !mbytes_msgs in Hst.
  pose proof (recv_max _ _ _ _ Hr) as Hmx; rewrite length_app in Hmx.
  assert (Hq : qlen q = Z.of_nat (length (qbytes c) + length part + length (qbytes q')))
    by (unfold qlen; rewrite <- Hst, !length_app; lia).
  pose proof Hdq as (_ & Hg & _ & Hcp & Hnda & Hndca).
  rewrite fmap_app in Hnda; apply NoDup_app in Hnda as (Hndc1 & D1 & _).
  rewrite cells_app in Hndca; apply NoDup_app in Hndca as (Hndc2 & D2 & _).
  assert (Hlen : (length c + length q' = length q)%nat)
    by (apply (f_equal length) in Ea; rewrite !length_fmap, length_app in Ea; lia).
  assert (Hin' : forall a, a ∈ cells q' -> a ∈ cells q)
    by (intros a Ha; apply Hin; rewrite cells_app; apply elem_of_app; by right).
  destruct (deliver_ok cf fuel c fuel (g_head g) [] buf s1)
    as (s2 & Edl & Esb2 & Ewq2 & Eent2 & Epb2); try done.
  { lia. }
  { lia. }
  { unfold qlen; simpl; lia. }
  change (loop fuel (deliver_step cf fuel) (g_head g, 0, buf, s1))
    with (loop fuel (deliver_step cf fuel) (g_head g, Z.of_nat (length (@nil Z)), [] ++ buf, s1)).
  rewrite Edl; mstep.
  rewrite (partial_write _ _ part (g_partial g)); [|done|done|rewrite length_drop; simpl; lia|
    simpl; lia]; mstep.
  assert (Hrep2 : sb_rep s2 sb q' hi) by (by eapply rep_delivered).
  assert (Hw2 : sb_waiters s2 sb w) by (unfold sb_waiters; by rewrite Ewq2, Ew).
  destruct (delivered_gone s s1 s2 sb c q q') as (On2 & Hge & Hgc); [done..|].
  simpl; rewrite drop_drop, <- length_app, i32_small by (rewrite length_app; lia).
  set (out := qbytes c ++ part) in *; rewrite Hm; simpl.
  rewrite bool_decide_eq_true_2 by lia.
  destruct (decide (out = [])) as [Eo|Eo].
  - rewrite decide_False by (rewrite Eo; simpl; lia); mstep.
    exists s2, q', out; rewrite decide_True by done; split_and!; try done; [lia|congruence].
  - destruct (sb_waiters_wake fuel s2 sb w) as (w' & Ewk & Hrun); [done..|].
    rewrite decide_True by (destruct out; [done|simpl; lia]); rewrite Ewk; mstep.
    exists (set_wq w' s2), q', out; rewrite decide_False by done; split_and!; try done; [lia|].
    by rewrite Ewq2, Ew in Hrun.
Qed.

(** A peek shows the first bytes of the first message, at most 512 of them, with its
    sender, and changes nothing. *)
Lemma peek_ok fuel s sb x q hi max_len kbuf buf :
  sb_rep s sb (x :: q) hi -> (length (q_pkt x) < fuel)%nat -> 0 < max_len ->
  max_len <= Z.of_nat (length buf) -> length kbuf = 512%nat ->
  let k := Z.min max_len (Z.min (plen (q_pkt x)) 512) in
  sockbuf_peek fuel sb max_len kbuf buf s
  = Ok (k, take (Z.to_nat k) (pdata (q_pkt x)) ++ drop (Z.to_nat k) buf,
        Some (q_ip x, q_port x)).
Proof.
  intros (_ & _ & _ & (d & Hd & _ & _ & _ & Hc) & Hp & _) Hf Hm Hb Hk k; unfold sockbuf_peek.
  destruct Hc as (Eh & Hx0 & e & He & Hep & Hip & Hport & _).
  apply Forall_cons in Hp as [[Hp0 Hpc] _].
  destruct (pchain_tot _ _ Hp0 Hpc) as (pd & Hpd & Htot & Hsz).
  rewrite (sb_at_some _ _ _ Hd); mstep; rewrite Eh; rewrite decide_False by done.
  rewrite (ent_at_some _ _ _ He); mstep; rewrite Hep, (pbuf_at_some _ _ _ Hpd); mstep.
  rewrite Htot, Hip, Hport.
  set (t := if decide (max_len < _) then _ else _).
  assert (Et : t = Z.min max_len (plen (q_pkt x))) by (unfold t; case_decide; lia).
  rewrite (decide_False (P:=65535 < t)) by lia.
  assert (Ek : (if decide (t < 512) then t else 512) = k) by (unfold k; case_decide; lia).
  rewrite Ek, u16_small, (pbuf_copy_partial_prefix _ _ (q_pkt x)) by (done || lia); mstep.
  assert (L : length (take (Z.to_nat k) (pdata (q_pkt x))) = Z.to_nat k)
    by (rewrite length_take; unfold plen in *; lia).
  rewrite read_bytes_ok by (rewrite ?length_app, ?L, ?length_drop; lia); mstep.
  change (Z.to_nat 0) with 0%nat; rewrite drop_0, take_app_le, take_ge by lia.
  pose proof (write_bytes_app [] buf (take (Z.to_nat k) (pdata (q_pkt x))) 0) as Hwb.
  simpl in Hwb; rewrite Hwb, L, i32_small by lia; done.
Qed.
