(* ===== verification/SockBufStream.v ===== *)
(** * Socket buffers: the byte stream

    Any sequence of appends, reads and peeks on a socket buffer behaves as a bounded
    FIFO of bytes, and reading drains it. *)

From stdpp Require Import base tactics list numbers gmap sets.
From Stdlib Require Import ZArith Lia.
From S2P Require Import Prelude Kutils Pbuf WaitQueue SockBuf SockBufSpec SockBufRead.

Local Open Scope Z_scope.

(** A call on the buffer; the arrays are the stack arrays and the caller's buffer. *)
Inductive sock_op :=
  | OAppend (x : qent)
  | ORead (max_len : Z) (kbuf pbuf buf : list Z)
  | OPeek (max_len : Z) (kbuf pbuf buf : list Z).

Section run.
Context (cf : Z -> pb_state -> pb_state) (fuel : nat) (sb : Z).

(** The bytes a call puts into the buffer and the bytes it takes out. *)
Definition run_op (op : sock_op) (s : net) : res (list Z * list Z * net) :=
  match op with
  | OAppend x =>
      '(r, s) ← sockbuf_append fuel sb (pptr (q_pkt x)) (Some (q_ip x)) (q_port x) (q_addr x) s;
      Ok (if decide (r = 0) then pdata (q_pkt x) else [], [], s)
  | ORead max_len kbuf pbuf buf =>
      '(n, b, _, s) ← sockbuf_read cf fuel sb (Some buf) max_len false kbuf pbuf s;
      Ok ([], take (Z.to_nat n) (default [] b), s)
  | OPeek max_len kbuf pbuf buf =>
      '(_, _, _, s) ← sockbuf_read cf fuel sb (Some buf) max_len true kbuf pbuf s;
      Ok ([], [], s)
  end.

Fixpoint run_ops (ops : list sock_op) (s : net) : res (list Z * list Z * net) :=
  match ops with
  | [] => Ok ([], [], s)
  | op :: ops =>
      '(i, o, s) ← run_op op s;
      '(i', o', s) ← run_ops ops s;
      Ok (i ++ i', o ++ o', s)
  end.

(** The messages still to be appended. *)
Definition pending (ops : list sock_op) : list qent :=
  omap (fun op => match op with OAppend x => Some x | _ => None end) ops.

(** The caller's arrays are as long as the code takes them to be. *)
Definition op_ok (op : sock_op) : Prop :=
  match op with
  | OAppend _ => True
  | ORead m kbuf pbuf buf | OPeek m kbuf pbuf buf =>
      0 < m < 2 ^ 63 /\ m <= Z.of_nat (length buf) /\
      length kbuf = 512%nat /\ length pbuf = 4096%nat
  end.

(** The messages [xs] are well formed, not in the queue [q], and their entries are
    not allocated yet. *)
Definition supply (s : net) (q xs : list qent) : Prop :=
  packets_ok (pb_heap (n_pb s)) xs /\ NoDup (cells q ++ cells xs) /\ NoDup (addrs xs) /\
  Forall (fun x => q_addr x ≠ 0 /\ n_entries s !! q_addr x = None) xs /\ fits fuel xs.

Lemma runnable_waiters s s' w :
  runnable (n_wq s) (n_wq s') (named (n_wq s) w) -> sb_waiters s sb w -> sb_waiters s' sb w.
Proof.
  intros Hr (Hv & Hw & Hl); pose proof Hr as (_ & He & Hp); split; [done|].
  split; [by eapply runnable_waiting|].
  assert (En : named (n_wq s') w = named (n_wq s) w) by (unfold named, proc_of; by rewrite He).
  rewrite En; eapply Forall_impl; [exact Hl|]; intros p Hsome; simpl; rewrite Hp.
  by case_decide.
Qed.

(** Operations on the queue leave the supply alone. *)
Lemma supply_only s s' q q' hi xs es cs :
  sb_rep s sb q hi -> supply s q xs -> only s s' sb es cs ->
  (forall e, e ∈ es -> e ∉ addrs xs) -> (forall a, a ∈ cs -> a ∈ cells q) ->
  NoDup (cells q') -> (forall a, a ∈ cells q' -> a ∉ cells xs) -> supply s' q' xs.
Proof.
  intros Hrep (Hp & Hnd & Hna & Hf & Hfi) (_ & O2 & O3) Hes Hcs Hndq Hq.
  apply NoDup_app in Hnd as (_ & D & Hndx); split_and!; [| |done| |done].
  - eapply packets_ext; [|done]; intros a Ha; apply O3; intros Hb; by apply (D a); auto.
  - by apply NoDup_disjoint_app.
  - apply Forall_forall; intros x Hx; destruct (proj1 (Forall_forall _ _) Hf x Hx) as [? E].
    split; [done|]; rewrite O2; [done|]; intros Hb; apply (Hes _ Hb).
    by apply list_elem_of_fmap_2.
Qed.

Lemma entries_apart s q hi xs e :
  sb_rep s sb q hi -> supply s q xs -> e ∈ addrs q -> e ∉ addrs xs.
Proof.
  intros (_ & _ & _ & (d & _ & _ & _ & _ & Hc) & _) (_ & _ & _ & Hf & _) He Hx.
  apply list_elem_of_fmap in Hx as (x & -> & Hx).
  destruct (echain_live _ _ _ _ Hc He) as [? E].
  destruct (proj1 (Forall_forall _ _) Hf x Hx) as [_ ?]; congruence.
Qed.

Definition room (q xs : list qent) : Prop := (length q + length xs + 1 < fuel)%nat.

Lemma run_append s q hi w x xs :
  sb_rep s sb q hi -> sb_waiters s sb w -> (length w < fuel)%nat -> fits fuel q ->
  supply s q (x :: xs) -> room q (x :: xs) ->
  exists i s' q', run_op (OAppend x) s = Ok (i, [], s') /\ sb_rep s' sb q' hi /\
    qbytes q ++ i = qbytes q' /\ sb_waiters s' sb w /\ fits fuel q' /\ supply s' q' xs /\
    room q' xs.
Proof.
  intros Hrep Hw Hfw Hfq Hsup Hroom; pose proof Hsup as (Hp & Hnd & Hna & Hf & Hfx).
  apply Forall_cons in Hp as [[Hp0 Hpc] Hp]; apply Forall_cons in Hf as [[Hx0 Hxn] Hf].
  apply Forall_cons in Hfx as [Hfx Hfxs]; apply NoDup_cons in Hna as [Hxa Hna].
  change (cells (x :: xs)) with ((q_pkt x).*1 ++ cells xs) in Hnd.
  rewrite app_assoc in Hnd; pose proof Hnd as (Hndq & D & Hndx)%NoDup_app.
  pose proof Hndq as (Hnq & Dq & Hnx)%NoDup_app.
  assert (Hfresh : fresh_msg s q x).
  { split_and!; try done; intros a Ha Hb; by apply (Dq a). }
  assert (Hsup' : supply s q xs).
  { split; [done|]; split; [|by split_and!]; apply NoDup_disjoint_app; [done|done|].
    intros a Ha Hb; apply (D a); [|done]; apply elem_of_app; by left. }
  pose proof (append_ok fuel s sb q hi x w (Some (q_ip x)) Hrep Hfresh Hw Hfw eq_refl) as Ha.
  unfold run_op; simpl in Ha; destruct (decide (hi < qlen q + plen (q_pkt x))) as [Hfull|Hok].
  - rewrite Ha; mstep; exists [], s, q; rewrite app_nil_r; split_and!; try done.
    + unfold room in *; simpl in Hroom; lia.
  - destruct Ha as (s' & -> & Hrep' & On & Hrun); mstep.
    exists (pdata (q_pkt x)), s', (q ++ [x]); split_and!; try done.
    + rewrite qbytes_app; simpl; by rewrite app_nil_r.
    + by eapply runnable_waiters.
    + apply Forall_app; split; [done|by apply Forall_singleton].
    + eapply (supply_only s s' q _ hi xs); [done|done|exact On| |by intros a ?%elem_of_nil|apply Hrep'|].
      * intros e [->|He]%elem_of_cons; [done|].
        pose proof (entries_apart s q hi (x :: xs) e Hrep Hsup He) as Hn; intros Hb; apply Hn.
        by right.
      * intros a Ha'; apply D; rewrite cells_app in Ha'; simpl in Ha'.
        by rewrite app_nil_r in Ha'.
    + unfold room in *; rewrite length_app; simpl in *; lia.
Qed.

Lemma run_read s q hi w xs m kbuf pbuf buf :
  sb_rep s sb q hi -> sb_waiters s sb w -> (length w < fuel)%nat -> fits fuel q ->
  supply s q xs -> room q xs -> op_ok (ORead m kbuf pbuf buf) ->
  exists o s' q', run_op (ORead m kbuf pbuf buf) s = Ok ([], o, s') /\ sb_rep s' sb q' hi /\
    recv m (msgs q) = (o, msgs q') /\ sb_waiters s' sb w /\ fits fuel q' /\
    supply s' q' xs /\ room q' xs.
Proof.
  intros Hrep Hw Hfw Hfq Hsup Hroom (Hm & Hb & Hk & Hpb); unfold run_op, sockbuf_read.
  destruct (consume_ok cf fuel s sb q hi w m pbuf buf)
    as (s' & q' & out & E & Hr & Hrep' & On & _ & _ & Hsub & Hlen & Hfit & Hrun); try done.
  { split; [|done]; unfold room in Hroom; lia. }
  rewrite decide_False by (destruct Hrep; lia); rewrite E; mstep; cbn [default from_option].
  unfold id; rewrite Nat2Z.id, take_app_length; exists out, s', q'; split_and!; try done.
  - destruct (decide (out = [])) as [_|_]; [unfold sb_waiters; by rewrite Hrun|].
    by eapply runnable_waiters.
  - eapply (supply_only s s' q q' hi xs); [done|done|exact On| |done|apply Hrep'|].
    + intros e He; by apply (entries_apart s q hi).
    + intros a Ha; pose proof Hsup as (_ & (_ & D & _)%NoDup_app & _); by apply D, Hsub.
  - unfold room in *; lia.
Qed.

Lemma run_peek s q hi m kbuf pbuf buf :
  sb_rep s sb q hi -> fits fuel q -> op_ok (OPeek m kbuf pbuf buf) ->
  run_op (OPeek m kbuf pbuf buf) s = Ok ([], [], s).
Proof.
  intros Hrep Hfq (Hm & Hb & Hk & Hpb); unfold run_op, sockbuf_read.
  rewrite decide_False by (destruct Hrep; lia).
  destruct q as [|x q].
  - destruct Hrep as (_ & _ & _ & (d & Hd & _ & _ & _ & Hc) & _); simpl in Hc.
    unfold sockbuf_peek; rewrite (sb_at_some _ _ _ Hd); mstep; by rewrite decide_True.
  - apply Forall_cons in Hfq as [Hfx _].
    rewrite (peek_ok fuel s sb x q hi) by (done || lia); done.
Qed.

End run.

Lemma run_ops_ok cf fuel sb hi w : forall ops s q,
  sb_rep s sb q hi -> sb_waiters s sb w -> (length w < fuel)%nat -> fits fuel q ->
  supply fuel s q (pending ops) -> room fuel q (pending ops) -> Forall op_ok ops ->
  exists i o s' q', run_ops cf fuel sb ops s = Ok (i, o, s') /\ sb_rep s' sb q' hi /\
    qbytes q ++ i = o ++ qbytes q'.
Proof.
  induction ops as [|op ops IH]; intros s q Hrep Hw Hfw Hfq Hsup Hroom Hok.
  { exists [], [], s, q; rewrite app_nil_r; by split_and!. }
  apply Forall_cons in Hok as [Hop Hok]; cbn [run_ops].
  destruct op as [x|m kbuf pbuf buf|m kbuf pbuf buf]; simpl in Hsup, Hroom.
  - destruct (run_append cf fuel sb s q hi w x (pending ops))
      as (i & s1 & q1 & -> & Hrep1 & Eq & Hw1 & Hfq1 & Hsup1 & Hroom1); [done..|]; mstep.
    destruct (IH s1 q1) as (i' & o' & s' & q' & -> & Hrep' & E); [done..|]; mstep.
    eexists _, _, s', q'; split; [done|]; split; [done|]; by rewrite app_assoc, Eq, E.
  - destruct (run_read cf fuel sb s q hi w (pending ops) m kbuf pbuf buf)
      as (o & s1 & q1 & E1 & Hrep1 & Hr & Hw1 & Hfq1 & Hsup1 & Hroom1); [done..|].
    rewrite E1; mstep.
    destruct (IH s1 q1) as (i' & o' & s' & q' & -> & Hrep' & E); [done..|]; mstep.
    eexists _, _, s', q'; split; [done|]; split; [done|].
    apply recv_stream in Hr; rewrite !mbytes_msgs in Hr; rewrite <- Hr, <- app_assoc; simpl.
    by rewrite E, app_assoc.
  - pose proof (run_peek cf fuel sb s q hi m kbuf pbuf buf Hrep Hfq Hop) as E1.
    rewrite E1; mstep.
    destruct (IH s q) as (i' & o' & s' & q' & -> & Hrep' & E); [done..|]; mstep.
    by eexists _, _, s', q'.
Qed.

(** C29: A socket buffer is a bounded FIFO of bytes.  Any sequence of appends, reads
    and peeks on it completes without a bad access, whatever the stack arrays
    contain; the bytes that were in it followed by those of the accepted packets
    are the bytes the reads delivered followed by those still queued, in order,
    with none lost, duplicated or taken from uninitialised memory, and the byte
    count stays exact and within the limit. *)
Theorem sockbuf_stream cf fuel sb hi w ops s q :
  sb_rep s sb q hi -> sb_waiters s sb w -> (length w < fuel)%nat -> fits fuel q ->
  supply fuel s q (pending ops) -> room fuel q (pending ops) -> Forall op_ok ops ->
  exists i o s' q', run_ops cf fuel sb ops s = Ok (i, o, s') /\ sb_rep s' sb q' hi /\
    qbytes q ++ i = o ++ qbytes q' /\ sockbuf_get_cc sb s' = Ok (qlen q') /\ qlen q' <= hi.
Proof.
  intros Hrep Hw Hfw Hfq Hsup Hroom Hok.
  destruct (run_ops_ok cf fuel sb hi w ops s q) as (i & o & s' & q' & E & Hrep' & Eq); [done..|].
  exists i, o, s', q'; split_and!; try done; [|by destruct Hrep' as (_ & _ & ? & _)].
  destruct Hrep' as (Hsb & _ & _ & (d & Hd & _ & Hcc & _) & _); unfold sockbuf_get_cc.
  rewrite decide_False by done; rewrite (sb_at_some _ _ _ Hd); mstep; by rewrite Hcc.
Qed.

Lemma pending_reads k m kbuf pbuf buf : pending (replicate k (ORead m kbuf pbuf buf)) = [].
Proof. by induction k. Qed.

(** Reading drains a socket buffer.  As many reads as there are bytes queued, of
    whatever positive size, deliver every queued byte in order. *)
Theorem sockbuf_drains cf fuel sb hi w s q m kbuf pbuf buf k :
  sb_rep s sb q hi -> sb_waiters s sb w -> (length w < fuel)%nat -> fits fuel q ->
  (length q + 1 < fuel)%nat -> op_ok (ORead m kbuf pbuf buf) -> qlen q <= Z.of_nat k ->
  exists s' q', run_ops cf fuel sb (replicate k (ORead m kbuf pbuf buf)) s
      = Ok ([], qbytes q, s') /\ sb_rep s' sb q' hi /\ qlen q' = 0.
Proof.
  revert s q; induction k as [|k IH]; intros s q Hrep Hw Hfw Hfq Hlen Hop Hk.
  { pose proof (qlen_pos q); assert (qbytes q = []) as ->
      by (apply length_zero_iff_nil; unfold qlen in *; lia).
    exists s, q; split_and!; try done; lia. }
  assert (Hsup : supply fuel s q []).
  { destruct Hrep as (_ & _ & _ & _ & _ & _ & Hnd); split_and!;
      [constructor|by rewrite app_nil_r|constructor..]. }
  destruct (run_read cf fuel sb s q hi w [] m kbuf pbuf buf)
    as (o & s1 & q1 & E1 & Hrep1 & Hr & Hw1 & Hfq1 & Hsup1 & Hroom1); try done;
    [unfold room; simpl; lia|].
  cbn [replicate run_ops]; rewrite E1; mstep.
  pose proof (recv_progress _ _ _ _ Hr) as Hpr; pose proof (recv_stream _ _ _ _ Hr) as Hst.
  rewrite mbytes_msgs in Hpr; rewrite !mbytes_msgs in Hst.
  assert (Hq : qlen q = Z.of_nat (length o) + qlen q1)
    by (unfold qlen; rewrite <- Hst, length_app; lia).
  destruct Hop as (Hm & Hop); specialize (Hpr ltac:(lia)); fold (qlen q) in Hpr.
  pose proof (qlen_pos q1).
  destruct (IH s1 q1) as (s' & q' & E & Hrep' & Hz); try done.
  - unfold room in Hroom1; simpl in Hroom1; lia.
  - lia.
  - exists s', q'; rewrite E; mstep; by rewrite Hst.
Qed.

(** ** A concrete buffer *)

Definition demo_pbuf (next tot : Z) (bs : list Z) : pbuf :=
  {| p_next := next; p_mem := bs; p_off := 0; p_tot_len := tot;
     p_len := Z.of_nat (length bs); p_type_internal := 0; p_flags := 0; p_ref := 1 |}.

Definition demo_sb : Z := 0xFFFF800000010000.

(** One message of two pbufs is queued, and a packet is ready to be appended. *)
Definition demo_net : net :=
  {| n_sb := {[demo_sb := {| sb_cc := 3; sb_hiwat := 100; sb_lowat := 1; sb_flags := 0;
                             sb_head := 10; sb_tail := 10 |}]};
     n_entries := {[10 := {| e_p := 100; e_src_ip := 7; e_src_port := 9; e_next := 0 |}]};
     n_pb := {| pb_heap := <[100 := demo_pbuf 200 3 [1; 2]]> (<[200 := demo_pbuf 0 1 [3]]>
                             {[300 := demo_pbuf 0 2 [4; 5]]}); pb_log := [] |};
     n_wq := {| wq_heads := {[sb_waitq demo_sb := 0]}; wq_entries := ∅; wq_procs := ∅;
                wq_kicks := 0 |} |}.

Definition demo_q : list qent :=
  [{| q_addr := 10; q_pkt := [(100, [1; 2]); (200, [3])]; q_ip := 7; q_port := 9 |}].
Definition demo_msg : qent :=
  {| q_addr := 11; q_pkt := [(300, [4; 5])]; q_ip := 8; q_port := 9 |}.

Definition demo_read : sock_op :=
  ORead 4 (replicate 512 170) (replicate 4096 170) [0; 0; 0; 0].

Ltac pbuf_holds := unfold holds_bytes; simpl; split_and!; (reflexivity || (vm_compute; congruence)).

Lemma demo_rep : sb_rep demo_net demo_sb demo_q 100.
Proof.
  split_and!; [done|done|by vm_compute| | | |].
  - eexists; split; [reflexivity|]; split_and!; try reflexivity; simpl.
    split; [done|]; split; [done|]; eexists; split; [reflexivity|by split_and!].
  - constructor; [|constructor]; split; [done|]; simpl; split; [done|]; split; [done|].
    eexists; split; [reflexivity|]; split; [pbuf_holds|]; split_and!; try done.
    eexists; split; [reflexivity|]; split; [pbuf_holds|]; by split_and!.
  - vm_compute; repeat constructor; set_solver.
  - vm_compute; repeat constructor; set_solver.
Qed.

Lemma demo_waiters : sb_waiters demo_net demo_sb [].
Proof.
  split; [reflexivity|]; split; [|constructor]; split; [constructor|].
  exists 0; split; reflexivity.
Qed.

Lemma demo_supply : supply 9 demo_net demo_q [demo_msg].
Proof.
  split_and!.
  - constructor; [|constructor]; split; [done|]; simpl; split; [done|]; split; [done|].
    eexists; split; [reflexivity|]; split; [pbuf_holds|]; by split_and!.
  - vm_compute; repeat constructor; set_solver.
  - vm_compute; repeat constructor; set_solver.
  - constructor; [by split|constructor].
  - constructor; [simpl; lia|constructor].
Qed.

Lemma demo_fits : fits 9 demo_q.
Proof. constructor; [simpl; lia|constructor]. Qed.

Lemma demo_read_ok : op_ok demo_read.
Proof. split; [lia|]; split; [simpl; lia|]; split; apply length_replicate. Qed.

Lemma sockbuf_stream_witness :
  exists i o s' q', run_ops (fun _ s => s) 9 demo_sb [OAppend demo_msg; demo_read] demo_net
    = Ok (i, o, s') /\ [1; 2; 3] ++ i = o ++ qbytes q'.
Proof.
  destruct (sockbuf_stream (fun _ s => s) 9 demo_sb 100 [] [OAppend demo_msg; demo_read]
    demo_net demo_q) as (i & o & s' & q' & E & _ & Eq & _).
  - exact demo_rep.
  - exact demo_waiters.
  - simpl; lia.
  - exact demo_fits.
  - exact demo_supply.
  - unfold room; simpl; lia.
  - repeat constructor; apply demo_read_ok.
  - exists i, o, s', q'; split; [exact E|exact Eq].
Defined.

Lemma sockbuf_drains_witness :
  exists s', run_ops (fun _ s => s) 9 demo_sb (replicate 3 demo_read) demo_net
    = Ok ([], [1; 2; 3], s').
Proof.
  destruct (sockbuf_drains (fun _ s => s) 9 demo_sb 100 [] demo_net demo_q 4
    (replicate 512 170) (replicate 4096 170) [0; 0; 0; 0] 3) as (s' & q' & E & _).
  - exact demo_rep.
  - exact demo_waiters.
  - simpl; lia.
  - exact demo_fits.
  - simpl; lia.
  - exact demo_read_ok.
  - unfold qlen; simpl; lia.
  - by exists s'.
Defined.
