(* ===== verification/SocketWait.v ===== *)
(** * Blocking receive (net/unix_socket.c, sys/wait_queue.c, net/sockbuf.c)

    The waiting loop of [unix_socket_recv] and a sender, as interleaved steps.  Each
    step is one call that holds a lock for its duration: the test for an empty
    buffer, the entry into the wait, the resumption once the scheduler may choose
    the process again, and a whole [sockbuf_append] of a sender on another
    processor. *)

From stdpp Require Import base tactics list numbers gmap sets relations.
From Stdlib Require Import ZArith Lia.
From S2P Require Import Prelude Kutils Pbuf WaitQueue SockBuf SockBufSpec SockBufRead SockBufStream.

Local Open Scope Z_scope.

(** Where the receiver is: about to test the buffer, about to wait, asleep, about
    to read, or back in its caller. *)
Inductive receiver := RTest | RWait | RSleep | RRead | RReturn (r : Z).

(** One turn of the loop condition and the guards of the loop's body; [closed] is
    the test for a closed connection. *)
Definition recv_test (closed nonblock empty : bool) : receiver :=
  if empty then
    if closed then RReturn 0 else if nonblock then RReturn (-2) else RWait
  else RRead.

(** The scheduler's condition on the state of a process other than the kernel's
    own (process 0) at time [now]. *)
Definition schedulable (now : Z) (p : proc) : Prop :=
  (pr_state p = PROC_STATE_RUNNING /\ (pr_sleep_until p = 0 \/ pr_sleep_until p <= now)) \/
  (pr_state p = PROC_STATE_BLOCKED /\ 0 < pr_sleep_until p /\ pr_sleep_until p <= now).

Section interleaving.
Context (wait_node : Z -> Z) (fuel : nat) (sb curr : Z) (closed nonblock : bool).

(** The receiver, the packets still to be sent, and the kernel state. *)
Abbreviation config := (receiver * list qent * net)%type.

Inductive step : config -> config -> Prop :=
  | step_test s xs e :
      sockbuf_is_empty sb s = Ok e ->
      step (RTest, xs, s) (recv_test closed nonblock e, xs, s)
  | step_wait s xs w :
      wait_begin wait_node fuel (sb_waitq sb) curr (n_wq s) = Ok w ->
      step (RWait, xs, s) (RSleep, xs, set_wq w s)
  | step_resume s xs w d now :
      wq_procs (n_wq s) !! curr = Some d -> schedulable now d ->
      wait_queue_remove fuel (sb_waitq sb) (wait_node curr) (n_wq s) = Ok w ->
      step (RSleep, xs, s) (RTest, xs, set_wq w s)
  | step_send r s x xs n s' :
      sockbuf_append fuel sb (pptr (q_pkt x)) (Some (q_ip x)) (q_port x) (q_addr x) s
        = Ok (n, s') ->
      step (r, x :: xs, s) (r, xs, s').

(** A process waiting for a first message on an open connection. *)
Definition about_to_wait (s : net) (hi : Z) (w : list Z) (x : qent) : Prop :=
  sb_rep s sb [] hi /\ sb_waiters s sb w /\ fresh_msg s [] x /\ plen (q_pkt x) <= hi /\
  (length w + 1 < fuel)%nat /\ curr ≠ 0 /\
  is_valid_kernel_ptr (wait_node curr) = true /\ wait_node curr ∉ w /\
  wq_procs (n_wq s) !! curr
    = Some {| pr_state := PROC_STATE_RUNNING; pr_sleep_until := 0 |}.

Lemma is_empty_ok s hi q :
  sb_rep s sb q hi -> sockbuf_is_empty sb s = Ok (bool_decide (q = [])).
Proof.
  intros (Hsb & _ & _ & (d & Hd & _ & _ & _ & Hc) & _); unfold sockbuf_is_empty.
  rewrite decide_False by done; rewrite (sb_at_some _ _ _ Hd); mstep; f_equal.
  apply bool_decide_ext; by eapply head_null.
Qed.

(** A message that arrives between the test and the wait is announced to nobody. *)
Lemma lost_wakeup s hi w x :
  closed = false -> nonblock = false -> about_to_wait s hi w x ->
  exists s', rtc step (RTest, [x], s) (RSleep, [], s') /\ sb_rep s' sb [x] hi /\
    wq_procs (n_wq s') !! curr
      = Some {| pr_state := PROC_STATE_BLOCKED; pr_sleep_until := 0 |}.
Proof.
  intros Ecl Enb (Hrep & Hw & Hx & Hfit & Hf & Hc0 & Hvn & Hnw & Hp).
  pose proof (append_ok fuel s sb [] hi x w (Some (q_ip x)) Hrep Hx Hw ltac:(lia) eq_refl) as Ha.
  change (qlen []) with 0 in Ha; simpl in Ha; rewrite decide_False in Ha by lia.
  destruct Ha as (s1 & Ea & Hrep1 & _ & Hrun).
  pose proof Hw as (Hv & Hwt & _).
  assert (Hp1 : wq_procs (n_wq s1) !! curr
    = Some {| pr_state := PROC_STATE_RUNNING; pr_sleep_until := 0 |}).
  { destruct Hrun as (_ & _ & ->); by case_decide. }
  destruct (wait_begin_ok wait_node fuel (sb_waitq sb) curr w (n_wq s1)
      {| pr_state := PROC_STATE_RUNNING; pr_sleep_until := 0 |})
    as (w' & Ew & _ & _ & _ & Epr & _); try done; [by eapply runnable_waiting|lia|].
  exists (set_wq w' s1); split_and!; [|done|simpl; by rewrite Epr, lookup_insert_eq].
  eapply rtc_l; [apply step_test; by rewrite (is_empty_ok s hi [])|].
  rewrite Ecl, Enb; eapply rtc_l; [by eapply step_send|].
  eapply rtc_once; by apply step_wait.
Qed.

(** A message that arrives while the receiver is on the queue wakes it, and it goes
    on to read. *)
Lemma wakeup_on_queue s hi w x :
  closed = false -> nonblock = false -> about_to_wait s hi w x ->
  exists s1 s2, rtc step (RTest, [x], s) (RSleep, [x], s1) /\
    rtc step (RSleep, [x], s1) (RRead, [], s2) /\ sb_rep s2 sb [x] hi.
Proof.
  intros Ecl Enb (Hrep & Hw & Hx & Hfit & Hf & Hc0 & Hvn & Hnw & Hp); pose proof Hw as (Hv & Hwt & Hl).
  destruct (wait_begin_ok wait_node fuel (sb_waitq sb) curr w (n_wq s)
      {| pr_state := PROC_STATE_RUNNING; pr_sleep_until := 0 |})
    as (w1 & Ew & Hw1 & Hc1 & Ho1 & Epr & _); try done; [lia|].
  set (s1 := set_wq w1 s).
  assert (Hin : named w1 (wait_node curr :: w) ⊆ curr :: named (n_wq s) w).
  { unfold named; simpl; rewrite Hc1; intros p; rewrite list_elem_of_filter, !elem_of_cons.
    rewrite list_elem_of_filter, !list_elem_of_omap; intros (Hp0 & [->|(e & He & E)]); [by left|].
    right; split; [done|]; exists e; split; [done|]; rewrite <- Ho1; [done|]; by intros ->. }
  assert (Hws : sb_waiters s1 sb (wait_node curr :: w)).
  { split; [done|]; split; [done|]; apply Forall_forall; intros p Hp1; unfold s1; simpl.
    rewrite Epr; destruct (decide (p = curr)) as [->|]; [by rewrite lookup_insert_eq|].
    rewrite lookup_insert_ne by done; apply (proj1 (Forall_forall _ _) Hl).
    apply Hin in Hp1; by apply elem_of_cons in Hp1 as [?|?]. }
  pose proof (append_ok fuel s1 sb [] hi x _ (Some (q_ip x)) Hrep Hx Hws
    ltac:(simpl; lia) eq_refl) as Ha.
  change (qlen []) with 0 in Ha; simpl in Ha; rewrite decide_False in Ha by lia.
  destruct Ha as (s2 & Ea & Hrep2 & _ & Hrun).
  destruct (wait_queue_remove_ok fuel (sb_waitq sb) (wait_node curr) (wait_node curr :: w) (n_wq s2))
    as (w3 & Er & _); try done; [by eapply runnable_waiting|simpl; lia|].
  exists s1, (set_wq w3 s2); split; [|split; [|done]].
  - eapply rtc_l; [apply step_test; by rewrite (is_empty_ok s hi [])|].
    rewrite Ecl, Enb; eapply rtc_once; by apply step_wait.
  - eapply rtc_l; [by eapply step_send|].
    eapply rtc_l; [eapply (step_resume s2 [] w3 {| pr_state := PROC_STATE_RUNNING;
      pr_sleep_until := 0 |} 0); [|left; split; [done|by left]|done]|].
    + destruct Hrun as (_ & _ & ->); apply decide_True; unfold named; simpl; rewrite Hc1.
      rewrite filter_cons_True by done; by left.
    + eapply rtc_once; change RRead with (recv_test closed nonblock false).
      apply step_test; by rewrite (is_empty_ok (set_wq w3 s2) hi [x]).
Qed.

End interleaving.

(** C31: A blocking receive can sleep on a message it was sent.  The loop of
    [unix_socket_recv] tests the buffer and enters the wait in two separate steps;
    when the sender's [sockbuf_append] runs between them, its wake-up finds nobody
    on the queue, and the receiver then blocks with the message in its buffer and
    no step left to take until another message comes.  Had the message come after
    the receiver was on the queue, it would have been woken and read it. *)
Theorem unix_recv_lost_wakeup wait_node fuel sb curr s hi w x :
  about_to_wait wait_node fuel sb curr s hi w x ->
  (exists s', rtc (step wait_node fuel sb curr false false) (RTest, [x], s) (RSleep, [], s') /\
     sockbuf_is_empty sb s' = Ok false /\
     forall c, ~ step wait_node fuel sb curr false false (RSleep, [], s') c) /\
  (exists s1 s2, rtc (step wait_node fuel sb curr false false) (RTest, [x], s) (RSleep, [x], s1) /\
     rtc (step wait_node fuel sb curr false false) (RSleep, [x], s1) (RRead, [], s2) /\
     sockbuf_is_empty sb s2 = Ok false).
Proof.
  intros H; split.
  - destruct (lost_wakeup wait_node fuel sb curr false false s hi w x) as (s' & Hs & Hrep & Hp);
      [done..|]; exists s'; split; [done|]; split; [by rewrite (is_empty_ok sb s' hi [x])|].
    intros c Hc; inversion Hc as [| |s0 xs w0 d now Hd Hsch| ]; subst.
    rewrite Hp in Hd; injection Hd as <-; destruct Hsch as [[? _]|(_ & ? & _)]; simpl in *;
      [done|lia].
  - destruct (wakeup_on_queue wait_node fuel sb curr false false s hi w x)
      as (s1 & s2 & H1 & H2 & Hrep); [done..|]; exists s1, s2; split; [done|]; split; [done|].
    by rewrite (is_empty_ok sb s2 hi [x]).
Qed.

(** An empty buffer, a process about to wait and a packet on its way. *)
Definition demo_empty : net :=
  {| n_sb := {[demo_sb := {| sb_cc := 0; sb_hiwat := 100; sb_lowat := 1; sb_flags := 0;
                             sb_head := 0; sb_tail := 0 |}]};
     n_entries := ∅; n_pb := n_pb demo_net;
     n_wq := {| wq_heads := {[sb_waitq demo_sb := 0]}; wq_entries := ∅;
                wq_procs := {[0xFFFF800000020000 :=
                  {| pr_state := PROC_STATE_RUNNING; pr_sleep_until := 0 |}]};
                wq_kicks := 0 |} |}.

Lemma demo_about_to_wait :
  about_to_wait (fun p => p + 8) 9 demo_sb 0xFFFF800000020000 demo_empty 100 [] demo_msg.
Proof.
  split_and!; try reflexivity; try discriminate; try (by intros ?%elem_of_nil).
  - split_and!; [done|done|by vm_compute| |constructor|constructor|constructor].
    eexists; split; [reflexivity|]; by split_and!.
  - split; [reflexivity|]; split; [|constructor]; split; [constructor|].
    exists 0; split; reflexivity.
  - split_and!; [done|reflexivity|done| |by repeat constructor; set_solver|].
    + simpl; split; [done|]; split; [done|].
      eexists; split; [reflexivity|]; split; [pbuf_holds|]; by split_and!.
    + by intros a _ ?%elem_of_nil.
  - simpl; lia.
Qed.

Lemma unix_recv_lost_wakeup_witness :
  exists s', rtc (step (fun p => p + 8) 9 demo_sb 0xFFFF800000020000 false false)
      (RTest, [demo_msg], demo_empty) (RSleep, [], s') /\
    sockbuf_is_empty demo_sb s' = Ok false.
Proof.
  destruct (unix_recv_lost_wakeup (fun p => p + 8) 9 demo_sb 0xFFFF800000020000 demo_empty
    100 [] demo_msg demo_about_to_wait) as ((s' & Hs & He & _) & _).
  by exists s'.
Defined.
