(* ===== verification/VfsPath.v ===== *)
(** * fs/vfs_path.c: path normalisation

    [normalized] is the caller's buffer of [VFS_MAX_PATH] bytes: every store
    goes through [zset] or [write_bytes], which fault outside the buffer.  The
    abstract side is a stack of components: [.] is skipped, [..] pops, any other
    component is pushed; [render] prints the stack. *)

From S2P Require Import Prelude Kutils.
From stdpp Require Import base tactics option list numbers sets.
From Stdlib Require Import ZArith Lia.

Local Open Scope Z_scope.

Definition VFS_MAX_PATH : Z := 1024.
Definition slash : Z := 47.
Definition dot : Z := 46.

(** ** The code *)

Definition vfs_path_is_parent (parent child : list Z) : res bool :=
  plen ← strlen parent;
  r ← strncmp parent child (Z.to_nat plen);
  if decide (r <> 0) then Ok false
  else
    c ← zget child plen;
    if decide (c = 0) then Ok true
    else if decide (c = slash) then Ok true
    else
      p0 ← zget parent 0;
      if decide (plen = 1 /\ p0 = slash) then Ok true else Ok false.

(** [while ( *p == '/') p++] *)
Fixpoint skip_slashes (p : list Z) : list Z :=
  match p with
  | c :: r => if decide (c = slash) then skip_slashes r else p
  | [] => []
  end.

(** [while ( *p && *p != '/') p++]: the component and the rest. *)
Fixpoint scan_comp (p : list Z) : res (list Z * list Z) :=
  match p with
  | [] => Fault
  | c :: r =>
      if decide (c <> 0 /\ c <> slash) then
        '(comp, rest) ← scan_comp r; Ok (c :: comp, rest)
      else Ok ([], p)
  end.

(** [while (out > 1 && normalized[out - 1] != '/') out--] *)
Fixpoint shrink (fuel : nat) (buf : list Z) (out : Z) : res Z :=
  if decide (out > 1) then
    c ← zget buf (out - 1);
    if decide (c <> slash) then
      match fuel with O => NoFuel | S f => shrink f buf (out - 1) end
    else Ok out
  else Ok out.

(** The [..] branch. *)
Definition pop_comp (buf : list Z) (out : Z) : res Z :=
  if decide (out > 1) then
    c ← zget buf (out - 1);
    let out := if decide (c = slash) then out - 1 else out in
    shrink (Z.to_nat out) buf out
  else Ok out.

(** [if (out > 0 && normalized[out-1] != '/') if (out < VFS_MAX_PATH - 1)
    normalized[out++] = '/';] *)
Definition add_slash (buf : list Z) (out : Z) : res (list Z * Z) :=
  if decide (out > 0) then
    c ← zget buf (out - 1);
    if decide (c <> slash) then
      if decide (out < VFS_MAX_PATH - 1) then
        buf ← zset buf out slash; Ok (buf, out + 1)
      else Ok (buf, out)
    else Ok (buf, out)
  else Ok (buf, out).

(** The branch that appends a component, truncated at the end of the buffer. *)
Definition push_comp (comp : list Z) (buf : list Z) (out : Z)
  : res (list Z * Z) :=
  '(buf, out) ← add_slash buf out;
  let comp_len := Z.of_nat (length comp) in
  let to_copy := if decide (i32 (out + i32 comp_len) >= VFS_MAX_PATH)
                 then VFS_MAX_PATH - 1 - out else comp_len in
  if decide (to_copy > 0) then
    buf ← write_bytes buf out (take (Z.to_nat to_copy) comp);
    Ok (buf, out + to_copy)
  else Ok (buf, out).

Definition norm_comp (comp : list Z) (buf : list Z) (out : Z)
  : res (list Z * Z) :=
  if decide (comp = [dot]) then Ok (buf, out)
  else if decide (comp = [dot; dot]) then out ← pop_comp buf out; Ok (buf, out)
  else push_comp comp buf out.

Fixpoint norm_loop (fuel : nat) (p buf : list Z) (out : Z) : res (list Z * Z) :=
  match fuel with
  | O => NoFuel
  | S f =>
      c ← zget p 0;
      if decide (c = 0) then Ok (buf, out)
      else
        let p := skip_slashes p in
        c ← zget p 0;
        if decide (c = 0) then Ok (buf, out)
        else
          '(comp, p) ← scan_comp p;
          '(buf, out) ← norm_comp comp buf out;
          norm_loop f p buf out
  end.

(** What is stored before the first component. *)
Definition norm_start (cwd : option (list Z)) (path buf : list Z)
  : res (list Z * Z) :=
  p0 ← zget path 0;
  if decide (p0 = slash) then buf ← zset buf 0 slash; Ok (buf, 1)
  else
    match cwd with
    | Some cwd =>
        c0 ← zget cwd 0;
        if decide (c0 = slash) then
          len ← strlen cwd;
          let len := if decide (len >= VFS_MAX_PATH) then VFS_MAX_PATH - 1 else len in
          buf ← write_bytes buf 0 (take (Z.to_nat len) cwd);
          add_slash buf len
        else buf ← zset buf 0 slash; Ok (buf, 1)
    | None => buf ← zset buf 0 slash; Ok (buf, 1)
    end.

(** What follows the loop. *)
Definition norm_finish (buf : list Z) (out : Z) : res (list Z) :=
  out ← (if decide (out > 1) then
           c ← zget buf (out - 1); Ok (if decide (c = slash) then out - 1 else out)
         else Ok out);
  '(buf, out) ← (if decide (out = 0) then b ← zset buf 0 slash; Ok (b, 1)
                 else Ok (buf, out));
  zset buf out 0.

(** The body of [vfs_normalize_path] for a path that is not empty. *)
Definition normalize_nonempty (cwd : option (list Z)) (path buf : list Z)
  : res (list Z) :=
  '(buf, out) ← norm_start cwd path buf;
  p0 ← zget path 0;
  let p := if decide (p0 = slash) then drop 1 path else path in
  '(buf, out) ← norm_loop (length path) p buf out;
  norm_finish buf out.

(** The first character of a string that may be NULL; NULL and the empty string
    take the same branch. *)
Definition is_empty (s : option (list Z)) : res bool :=
  match s with
  | None => Ok true
  | Some s => c ← zget s 0; Ok (bool_decide (c = 0))
  end.

Definition vfs_normalize_path (cwd path : option (list Z)) (normalized : list Z)
  : res (list Z) :=
  e ← is_empty path;
  match (e : bool), path with
  | false, Some path => normalize_nonempty cwd path normalized
  | _, _ =>
      ec ← is_empty cwd;
      match (ec : bool), cwd with
      | false, Some cwd => normalize_nonempty None cwd normalized
      | _, _ => strcpy normalized [slash; 0]
      end
  end.

(** [proc ? proc->cwd : "/"] *)
Definition vfs_normalize_process_path (proc_cwd : option (list Z))
    (path : option (list Z)) (normalized : list Z) : res (list Z) :=
  vfs_normalize_path (Some (default [slash; 0] proc_cwd)) path normalized.

(** ** The buffer: [st buf out pre] *)

(** The buffer has its full size and its first [out] bytes are [pre]. *)
Definition st (buf : list Z) (out : Z) (pre : list Z) : Prop :=
  length buf = Z.to_nat VFS_MAX_PATH /\ out = Z.of_nat (length pre) /\
  exists rest, buf = pre ++ rest.

Lemma st_bound buf out pre : st buf out pre -> (length pre <= 1024)%nat.
Proof.
  intros (Hl & -> & rest & ->); rewrite length_app in Hl.
  change (Z.to_nat VFS_MAX_PATH) with 1024%nat in Hl; lia.
Qed.

Lemma st_last buf out pre c : st buf out (pre ++ [c]) -> zget buf (out - 1) = Ok c.
Proof.
  intros (_ & -> & rest & ->); rewrite <- app_assoc; apply zget_mid.
  rewrite length_app; simpl; lia.
Qed.

Lemma st_drop buf out pre x :
  st buf out (pre ++ x) -> st buf (out - Z.of_nat (length x)) pre.
Proof.
  intros (Hl & -> & rest & ->); split; [done|]; rewrite length_app; split; [lia|].
  exists (x ++ rest); by rewrite <- app_assoc.
Qed.

Lemma st_zset buf out pre c :
  st buf out pre -> (length pre < 1024)%nat ->
  exists buf', zset buf out c = Ok buf' /\ st buf' (out + 1) (pre ++ [c]).
Proof.
  intros (Hl & -> & rest & ->) Hb; destruct rest as [|x rest].
  { rewrite app_nil_r in Hl; change (Z.to_nat VFS_MAX_PATH) with 1024%nat in Hl; lia. }
  exists (pre ++ c :: rest); split; [by apply zset_mid|].
  split; [by rewrite length_app in *|]; rewrite length_app; split; [simpl; lia|].
  exists rest; by rewrite <- app_assoc.
Qed.

Lemma st_write buf out pre bs :
  st buf out pre -> (length pre + length bs <= 1024)%nat ->
  exists buf', write_bytes buf out bs = Ok buf' /\
    st buf' (out + Z.of_nat (length bs)) (pre ++ bs).
Proof.
  revert buf out pre; induction bs as [|b bs IH]; intros buf out pre Hst Hb.
  - exists buf; split; [done|]; rewrite app_nil_r.
    replace (out + Z.of_nat (length [])) with out by (simpl; lia); done.
  - cbn [length] in Hb; destruct (st_zset buf out pre b) as (buf1 & E1 & H1); [done|lia|].
    destruct (IH buf1 (out + 1) (pre ++ [b])) as (buf2 & E2 & H2);
      [done|rewrite length_app; simpl; lia|].
    exists buf2; split; [simpl; by rewrite E1|].
    rewrite <- app_assoc in H2; cbn [length].
    replace (out + Z.of_nat (S (length bs))) with (out + 1 + Z.of_nat (length bs)) by lia; done.
Qed.

(** The backward scan stops after the last slash. *)
Lemma shrink_st fuel buf out x c :
  st buf out (x ++ slash :: c) -> slash ∉ c -> (length c <= fuel)%nat ->
  exists out', shrink fuel buf out = Ok out' /\ st buf out' (x ++ [slash]).
Proof.
  revert fuel out; induction c as [|a c IH] using rev_ind; intros fuel out Hst Hc Hf.
  - exists out; split; [|done].
    assert (shrink fuel buf out =
      if decide (out > 1) then
        (c ← zget buf (out - 1);
         if decide (c <> slash) then
           match fuel with O => NoFuel | S f => shrink f buf (out - 1) end
         else Ok out) else Ok out) as -> by (by destruct fuel).
    case_decide; [|done]; rewrite (st_last _ _ _ _ Hst); mstep.
    by rewrite decide_False by naive_solver.
  - rewrite length_app in Hf; cbn [length] in Hf; destruct fuel as [|f]; [lia|].
    replace (x ++ slash :: c ++ [a]) with ((x ++ slash :: c) ++ [a]) in Hst
      by (by rewrite <- app_assoc).
    pose proof (st_drop _ _ _ _ Hst) as Hst'; cbn [length] in Hst'.
    destruct (IH f (out - Z.of_nat 1)) as (out' & E & H');
      [done|set_solver|lia|].
    exists out'; split; [|done]; cbn [shrink].
    assert (out > 1) by (destruct Hst as (_ & -> & _); rewrite !length_app; simpl; lia).
    rewrite decide_True, (st_last _ _ _ _ Hst) by done; mstep.
    rewrite decide_True by set_solver; done.
Qed.

(** ** The steps of the loop *)

(** [slash_last pre]: the text ends in a slash. *)
Definition slash_last (pre : list Z) : Prop := exists x, pre = x ++ [slash].

(** [..] after [x/c]: the component goes, the slash before it stays. *)
Lemma pop_comp_plain buf out x c :
  st buf out (x ++ slash :: c) -> slash ∉ c -> c <> [] ->
  exists out', pop_comp buf out = Ok out' /\ st buf out' (x ++ [slash]).
Proof.
  intros Hst Hc Hne; unfold pop_comp; destruct c as [|a c _] using rev_ind; [done|].
  pose proof Hst as (_ & Eo & _); rewrite !length_app in Eo; cbn [length] in Eo;
    rewrite length_app in Eo; cbn [length] in Eo; rewrite decide_True by lia.
  pose proof Hst as Hst'.
  replace (x ++ slash :: c ++ [a]) with ((x ++ slash :: c) ++ [a]) in Hst'
    by (by rewrite <- app_assoc).
  rewrite (st_last _ _ _ _ Hst'); mstep; rewrite decide_False by set_solver.
  apply (shrink_st _ _ _ _ (c ++ [a])); [done|done|rewrite length_app; simpl; lia].
Qed.

(** [..] after [x/c/]. *)
Lemma pop_comp_trail buf out x c :
  st buf out ((x ++ slash :: c) ++ [slash]) -> slash ∉ c ->
  exists out', pop_comp buf out = Ok out' /\ st buf out' (x ++ [slash]).
Proof.
  intros Hst Hc; unfold pop_comp.
  pose proof Hst as (_ & Eo & _); rewrite !length_app in Eo; cbn [length] in Eo.
  rewrite decide_True, (st_last _ _ _ _ Hst) by lia; mstep; rewrite decide_True by done.
  apply st_drop in Hst; change (Z.of_nat (length [slash])) with 1 in Hst.
  apply (shrink_st _ _ _ _ c); [done|done|lia].
Qed.

Lemma add_slash_st buf out pre :
  st buf out pre -> pre <> [] -> (length pre <= 1023)%nat ->
  exists buf' out', add_slash buf out = Ok (buf', out') /\
    ((slash_last pre /\ st buf' out' pre) \/
     (~ slash_last pre /\ length pre = 1023%nat /\ st buf' out' pre) \/
     (~ slash_last pre /\ (length pre < 1023)%nat /\ st buf' out' (pre ++ [slash]))).
Proof.
  intros Hst Hne Hb; destruct pre as [|a pre _] using rev_ind; [done|].
  unfold add_slash; rewrite decide_True
    by (destruct Hst as (_ & -> & _); rewrite length_app; simpl; lia).
  rewrite (st_last _ _ _ _ Hst); mstep; case_decide as Ha.
  - assert (~ slash_last (pre ++ [a])).
    { intros [x Hx]; apply app_inj_tail in Hx as [_ Hx]; done. }
    case_decide as Ho; unfold VFS_MAX_PATH in Ho; pose proof Hst as (_ & Eo & _).
    + destruct (st_zset buf out (pre ++ [a]) slash) as (buf' & E & H'); [done|lia|].
      exists buf', (out + 1); rewrite E; split; [done|]; right; right; split_and!; [done|lia|done].
    + exists buf, out; split; [done|]; right; left; split_and!; [done|lia|done].
  - exists buf, out; split; [done|]; left; split; [|done].
    exists pre; f_equal; f_equal; apply dec_stable; naive_solver.
Qed.

(** ** The abstract side: a stack of components *)

Definition okcomp (c : list Z) : Prop := c <> [] /\ 0 ∉ c /\ slash ∉ c.
Definition goodcomp (c : list Z) : Prop := okcomp c /\ c <> [dot] /\ c <> [dot; dot].

Definition flat (cs : list (list Z)) : list Z := concat (map (cons slash) cs).
Definition render (cs : list (list Z)) : list Z :=
  match cs with [] => [slash] | _ => flat cs end.

(** The components of a path: what lies between slashes, empty pieces left out. *)
Definition flush (acc : list Z) (l : list (list Z)) : list (list Z) :=
  match acc with [] => l | _ => acc :: l end.
Fixpoint comps_acc (acc b : list Z) : list (list Z) :=
  match b with
  | [] => flush acc []
  | c :: r => if decide (c = slash) then flush acc (comps_acc [] r)
              else comps_acc (acc ++ [c]) r
  end.
Definition comps (b : list Z) : list (list Z) := comps_acc [] b.

(** One component applied to the stack. *)
Definition step_comp (cs : list (list Z)) (c : list Z) : list (list Z) :=
  if decide (c = [dot]) then cs
  else if decide (c = [dot; dot]) then removelast cs
  else cs ++ [c].
Definition resolve (cs : list (list Z)) (b : list Z) : list (list Z) :=
  foldl step_comp cs (comps b).

Lemma goodcomp_lit c :
  forallb (fun x => negb (x =? 0) && negb (x =? slash)) c = true ->
  bool_decide (c <> [] /\ c <> [dot] /\ c <> [dot; dot]) = true -> goodcomp c.
Proof.
  intros Hf Hd; apply bool_decide_eq_true in Hd as (? & ? & ?).
  rewrite forallb_forall in Hf; split; [|done]; split; [done|split];
    intros Hin; apply list_elem_of_In, Hf in Hin; done.
Qed.

Lemma flat_snoc cs c : flat (cs ++ [c]) = flat cs ++ slash :: c.
Proof. unfold flat; rewrite map_app, concat_app; simpl; by rewrite app_nil_r. Qed.

Lemma flat_nil_inv cs : flat cs = [] -> cs = [].
Proof. by destruct cs. Qed.

Lemma removelast_snoc {A} (l : list A) x : removelast (l ++ [x]) = l.
Proof. by rewrite removelast_app by done; rewrite app_nil_r. Qed.

(** [rendered cs pre]: [pre] prints the stack, with or without a slash after it. *)
Definition rendered (cs : list (list Z)) (pre : list Z) : Prop :=
  pre = flat cs ++ [slash] \/ (cs <> [] /\ pre = flat cs).

Lemma pop_comp_rendered buf out cs pre :
  st buf out pre -> rendered cs pre -> Forall goodcomp cs ->
  exists out' pre', pop_comp buf out = Ok out' /\ st buf out' pre' /\
    rendered (removelast cs) pre' /\ (length pre' <= length pre)%nat.
Proof.
  intros Hst Hr Hg; destruct cs as [|c cs _] using rev_ind.
  { destruct Hr as [->|[? _]]; [|done]; exists out, [slash]; split_and!; [|done|by left|done].
    unfold pop_comp; rewrite decide_False; [done|]; destruct Hst as (_ & -> & _); simpl; lia. }
  apply Forall_app in Hg as [_ Hg]; inversion Hg as [|? ? ((Hc & _ & Hs) & _) _]; subst.
  rewrite removelast_snoc; unfold rendered in Hr; rewrite flat_snoc in Hr.
  destruct Hr as [->|[_ ->]]; [apply pop_comp_trail in Hst as (out' & E & H')|
    apply pop_comp_plain in Hst as (out' & E & H')]; try done;
    exists out', (flat cs ++ [slash]); (split_and!; [done|done|by left|]);
    rewrite !length_app; simpl; lia.
Qed.

Lemma push_comp_exact buf out comp pre k :
  st buf out pre -> pre <> [] -> comp <> [] -> (slash_last pre \/ 1 <= k)%nat ->
  (length pre + k + length comp <= 1023)%nat ->
  exists buf' out' pre', push_comp comp buf out = Ok (buf', out') /\
    st buf' out' (pre' ++ comp) /\
    (pre' = pre /\ slash_last pre \/ pre' = pre ++ [slash] /\ ~ slash_last pre).
Proof.
  intros Hst Hne Hcne Hk Hb; unfold push_comp.
  destruct (add_slash_st buf out pre) as (buf1 & out1 & E & H1); [done|done|lia|].
  rewrite E; mstep.
  assert (exists pre', st buf1 out1 pre' /\ (length pre' <= length pre + k)%nat /\
    (pre' = pre /\ slash_last pre \/ pre' = pre ++ [slash] /\ ~ slash_last pre))
    as (pre' & Hst1 & Hl & Hp).
  { destruct H1 as [[Hs H1]|[(Hs & ? & H1)|(Hs & Hlt & H1)]].
    - exists pre; split; [done|]; split; [lia|by left].
    - destruct comp; cbn [length] in Hb; [done|]; destruct Hk; [done|lia].
    - exists (pre ++ [slash]); split; [done|]; rewrite length_app; cbn [length].
      destruct Hk; [done|]; split; [lia|by right]. }
  pose proof Hst1 as (_ & Eo & _).
  destruct comp as [|a comp]; [done|]; remember (a :: comp) as cc eqn:Ecc.
  assert (1 <= length cc)%nat by (subst; simpl; lia).
  rewrite (i32_small (Z.of_nat (length cc))), i32_small by lia.
  rewrite (decide_False (P:=_ >= _)) by (unfold VFS_MAX_PATH; lia).
  rewrite decide_True, Nat2Z.id, firstn_all by lia.
  destruct (st_write buf1 out1 pre' cc) as (buf2 & E2 & H2); [done|lia|].
  rewrite E2; mstep; exists buf2, (out1 + Z.of_nat (length cc)), pre'; done.
Qed.

Lemma rendered_ne cs pre : rendered cs pre -> pre <> [].
Proof.
  intros [->|[H ->]]; [by destruct (flat cs)|]; intros E; by apply flat_nil_inv in E.
Qed.

Lemma flat_not_slash_last cs :
  Forall goodcomp cs -> cs <> [] -> ~ slash_last (flat cs).
Proof.
  intros Hg Hne [x Hx]; destruct cs as [|c cs _] using rev_ind; [done|].
  apply Forall_app in Hg as [_ Hg]; inversion Hg as [|? ? ((Hc & _ & Hs) & _) _]; subst.
  destruct c as [|a c _] using rev_ind; [done|]; rewrite flat_snoc in Hx.
  replace (flat cs ++ slash :: c ++ [a]) with ((flat cs ++ slash :: c) ++ [a]) in Hx
    by (by rewrite <- app_assoc).
  apply app_inj_tail in Hx as [_ ->]; set_solver.
Qed.

Lemma norm_comp_exact buf out comp cs pre k :
  st buf out pre -> rendered cs pre -> Forall goodcomp cs -> okcomp comp ->
  (slash_last pre \/ 1 <= k)%nat -> (length pre + k + length comp <= 1023)%nat ->
  exists buf' out' pre', norm_comp comp buf out = Ok (buf', out') /\ st buf' out' pre' /\
    rendered (step_comp cs comp) pre' /\ Forall goodcomp (step_comp cs comp) /\
    (length pre' <= length pre + k + length comp)%nat.
Proof.
  intros Hst Hr Hg Hok Hk Hb; unfold norm_comp, step_comp.
  case_decide as Hd; [exists buf, out, pre; split_and!; [done..|lia]|].
  case_decide as Hdd.
  - destruct (pop_comp_rendered buf out cs pre) as (out' & pre' & E & ? & ? & ?); [done..|].
    rewrite E; mstep; exists buf, out', pre'; split_and!; [done..| |lia].
    destruct cs as [|c cs _] using rev_ind; [done|]; rewrite removelast_snoc.
    by apply Forall_app in Hg as [? _].
  - destruct Hok as (Hne & H0 & Hs).
    destruct (push_comp_exact buf out comp pre k) as (buf' & out' & pre' & E & H' & Hp);
      [done|by eapply rendered_ne|done..|].
    exists buf', out', (pre' ++ comp); split_and!; [done|done| | |].
    + right; split; [by destruct cs|]; rewrite flat_snoc.
      destruct Hp as [[-> [x Hx]]|[-> Hn]].
      * destruct Hr as [->|[Hcs ->]]; [by rewrite <- app_assoc|].
        exfalso; eapply flat_not_slash_last; [done|done|by exists x].
      * destruct Hr as [->|[_ ->]]; [exfalso; apply Hn; by eexists|].
        by rewrite <- app_assoc.
    + apply Forall_app; split; [done|]; by repeat constructor.
    + rewrite length_app; destruct Hp as [[-> ?]|[-> Hn]]; [lia|].
      rewrite length_app; simpl; destruct Hk; [done|lia].
Qed.

(** ** Reading the path *)

Lemma skip_slashes_cstr p b :
  cstr p b -> exists b', cstr (skip_slashes p) b' /\ comps b' = comps b /\
    (length b' <= length b)%nat /\
    (b' = [] \/ exists c r, b' = c :: r /\ c <> slash) /\
    (forall r, b = slash :: r -> (length b' < length b)%nat).
Proof.
  revert p; induction b as [|c b IH]; intros p Hp.
  - apply cstr_nil_inv in Hp as [t ->]; exists []; split_and!; [apply cstr_nil|done|done|by left|done].
  - apply cstr_cons_inv in Hp as (p' & -> & Hc & Hp); cbn [skip_slashes].
    destruct (decide (c = slash)) as [->|Hs].
    + destruct (IH p' Hp) as (b' & ? & Hcs & ? & ? & ?); exists b'.
      cbn [length]; split_and!; [done|by rewrite Hcs|lia|done|intros; lia].
    + exists (c :: b); split_and!; [by apply cstr_cons|done|done|right; eauto|].
      intros r [= ]; done.
Qed.

Lemma comps_acc_app acc comp b :
  slash ∉ comp -> comps_acc acc (comp ++ b) = comps_acc (acc ++ comp) b.
Proof.
  revert acc; induction comp as [|c comp IH]; intros acc Hs; [by rewrite app_nil_r|].
  cbn [app comps_acc]; rewrite decide_False by set_solver.
  rewrite IH by set_solver; by rewrite <- app_assoc.
Qed.

Lemma comps_comp comp b :
  comp <> [] -> slash ∉ comp -> (b = [] \/ exists r, b = slash :: r) ->
  comps (comp ++ b) = comp :: comps b.
Proof.
  intros Hne Hs Hb; unfold comps; rewrite comps_acc_app by done.
  destruct comp as [|c comp]; [done|].
  destruct Hb as [->|[r ->]]; [done|]; cbn [app comps_acc].
  by rewrite decide_True by done.
Qed.

Lemma scan_comp_cstr p b :
  cstr p b -> exists comp b', scan_comp p = Ok (comp, drop (length comp) p) /\
    b = comp ++ b' /\ 0 ∉ comp /\ slash ∉ comp /\ cstr (drop (length comp) p) b' /\
    (b' = [] \/ exists r, b' = slash :: r).
Proof.
  revert p; induction b as [|c b IH]; intros p Hp.
  - pose proof Hp as Hp'; apply cstr_nil_inv in Hp as [t ->]; exists [], []; cbn [scan_comp].
    rewrite decide_False by naive_solver; split_and!; [done|done|set_solver|set_solver|done|by left].
  - pose proof Hp as Hp'; apply cstr_cons_inv in Hp as (p' & -> & Hc & Hp); cbn [scan_comp].
    destruct (decide (c = slash)) as [->|Hs].
    + rewrite decide_False by naive_solver; exists [], (slash :: b).
      split_and!; [done|done|set_solver|set_solver|done|right; eauto].
    + rewrite decide_True by done.
      destruct (IH p' Hp) as (comp & b' & E & -> & ? & ? & ? & ?).
      rewrite E; mstep; exists (c :: comp), b'; split_and!; [done|done|set_solver..|done|done].
Qed.

(** One turn of the loop reads one component or ends the loop. *)
Lemma norm_loop_turn fuel p b buf out :
  cstr p b ->
  (comps b = [] /\ norm_loop (S fuel) p buf out = Ok (buf, out)) \/
  exists comp p' b', comps b = comp :: comps b' /\ okcomp comp /\ cstr p' b' /\
    (b' = [] \/ exists r, b' = slash :: r) /\
    (length comp + length b' <= length b)%nat /\
    ((exists r, b = slash :: r) -> (length comp + length b' < length b)%nat) /\
    norm_loop (S fuel) p buf out =
      ('(buf, out) ← norm_comp comp buf out; norm_loop fuel p' buf out).
Proof.
  intros Hp; cbn [norm_loop]; destruct (skip_slashes_cstr p b Hp) as (b1 & Hp1 & Ec & Hl & Hh & Hlt).
  destruct b as [|c b].
  { left; split; [done|]; by apply cstr_nil_inv in Hp as [t ->]. }
  apply cstr_cons_inv in Hp as (p' & -> & Hc & Hp).
  change (zget (c :: p') 0) with (Ok c); mstep; rewrite decide_False by done.
  rewrite <- Ec; destruct Hh as [->|(d & r & -> & Hd)].
  { left; split; [done|]; by apply cstr_nil_inv in Hp1 as [t ->]. }
  right; destruct (scan_comp_cstr _ _ Hp1) as (comp & b' & E & Eb & H0 & Hs & Hp' & Hb').
  assert (comp <> []).
  { intros ->; destruct Hb' as [->|[r' ->]]; simplify_eq/=. }
  exists comp, (drop (length comp) (skip_slashes (c :: p'))), b'.
  pose proof (f_equal length Eb) as Hlen; rewrite length_app in Hlen.
  split_and!; [rewrite Eb; by apply comps_comp|done|done|done|lia| |].
  - intros [r' Hr']; specialize (Hlt _ Hr'); lia.
  - apply cstr_cons_inv in Hp1 as (q & Eq & Hd0 & _); rewrite Eq in *.
    change (zget (d :: q) 0) with (Ok d); mstep; rewrite decide_False by done.
    by rewrite E.
Qed.

(** ** The loop and what surrounds it, when nothing is truncated *)

Lemma norm_loop_exact fuel p b buf out cs pre :
  st buf out pre -> rendered cs pre -> Forall goodcomp cs -> cstr p b ->
  (length b < fuel)%nat -> (slash_last pre \/ b = [] \/ exists r, b = slash :: r) ->
  (length pre + length b <= 1023)%nat ->
  exists buf' out' pre', norm_loop fuel p buf out = Ok (buf', out') /\ st buf' out' pre' /\
    rendered (resolve cs b) pre' /\ Forall goodcomp (resolve cs b) /\
    (length pre' <= length pre + length b)%nat.
Proof.
  revert p b buf out cs pre; induction fuel as [|f IH];
    intros p b buf out cs pre Hst Hr Hg Hp Hf Hh Hb; [lia|]; unfold resolve.
  destruct (norm_loop_turn f p b buf out Hp)
    as [[-> ->]|(comp & p' & b' & -> & Hok & Hp' & Hb' & Hl & Hlt & ->)].
  { exists buf, out, pre; split_and!; [done..|lia]. }
  assert (1 <= length comp)%nat by (destruct Hok as [? _]; destruct comp; simpl; [done|lia]).
  assert (exists k, (slash_last pre \/ 1 <= k)%nat /\
    (length pre + k + length comp + length b' <= length pre + length b)%nat) as (k & Hk & Hkb).
  { destruct Hh as [Hs|[->|Hs]]; [exists 0%nat|simpl in *|exists 1%nat]; [|lia|].
    - split; [by left|lia].
    - specialize (Hlt Hs); split; [by right|lia]. }
  destruct (norm_comp_exact buf out comp cs pre k)
    as (buf1 & out1 & pre1 & E1 & H1 & Hr1 & Hg1 & Hl1); [done..|lia|].
  rewrite E1; mstep.
  destruct (IH p' b' buf1 out1 (step_comp cs comp) pre1)
    as (buf2 & out2 & pre2 & E2 & H2 & Hr2 & Hg2 & Hl2); [done..|lia|by right|lia|].
  exists buf2, out2, pre2; split_and!; [done..|lia].
Qed.

Lemma goodcomp_flat_no0 cs : Forall goodcomp cs -> 0 ∉ flat cs.
Proof.
  induction 1 as [|c cs ((? & ? & ?) & _) _ IH]; unfold flat in *; simpl; [set_solver|].
  rewrite not_elem_of_cons, not_elem_of_app; unfold slash; split_and!; [lia|done|done].
Qed.

Lemma goodcomp_render_no0 cs : Forall goodcomp cs -> 0 ∉ render cs.
Proof.
  intros H; apply goodcomp_flat_no0 in H; destruct cs; [|done].
  simpl; unfold slash; rewrite list_elem_of_singleton; lia.
Qed.

Lemma st_terminate buf out pre :
  st buf out pre -> (length pre <= 1023)%nat -> 0 ∉ pre ->
  exists buf', zset buf out 0 = Ok buf' /\ cstr buf' pre /\
    length buf' = Z.to_nat VFS_MAX_PATH.
Proof.
  intros Hst Hb H0; destruct (st_zset buf out pre 0) as (buf' & E & Hl & _ & rest & ->);
    [done|lia|].
  exists ((pre ++ [0]) ++ rest); split_and!; [done| |done].
  exists rest; split; [by rewrite <- app_assoc|done].
Qed.

Lemma norm_finish_exact buf out cs pre :
  st buf out pre -> rendered cs pre -> Forall goodcomp cs -> (length pre <= 1023)%nat ->
  exists buf', norm_finish buf out = Ok buf' /\ cstr buf' (render cs) /\
    length buf' = Z.to_nat VFS_MAX_PATH.
Proof.
  intros Hst Hr Hg Hb; unfold norm_finish; pose proof Hst as (_ & Eo & _).
  pose proof (goodcomp_render_no0 cs Hg) as H0.
  destruct Hr as [->|[Hne ->]].
  - rewrite length_app in Eo; cbn [length] in Eo; destruct cs as [|c cs].
    + simpl in Eo; subst out; rewrite decide_False by lia; mstep.
      rewrite decide_False by lia; mstep; by apply st_terminate.
    + rewrite length_app in Hb; rewrite decide_True by (simpl in *; lia).
      rewrite (st_last _ _ _ _ Hst); mstep; rewrite (decide_True (P:=slash = slash)) by done.
      rewrite decide_False by (simpl in Eo; lia); mstep.
      apply st_drop in Hst; change (Z.of_nat (length [slash])) with 1 in Hst.
      apply st_terminate; [done|simpl in *; lia|done].
  - destruct cs as [|c cs _] using rev_ind; [done|].
    pose proof Hg as Hg'; apply Forall_app in Hg' as [_ Hg'].
    apply Forall_singleton in Hg' as ((Hc & _ & Hs) & _).
    assert (render (cs ++ [c]) = flat (cs ++ [c])) as -> by (by destruct cs).
    assert (Z.of_nat (length (flat (cs ++ [c]))) > 1).
    { rewrite flat_snoc, length_app; destruct c; [done|simpl; lia]. }
    rewrite decide_True by lia; destruct c as [|a c _] using rev_ind; [done|].
    assert (flat (cs ++ [c ++ [a]]) = (flat cs ++ slash :: c) ++ [a]) as Ef
      by (by rewrite flat_snoc, <- app_assoc).
    pose proof Hst as Hst'; rewrite Ef in Hst'; rewrite (st_last _ _ _ _ Hst'); mstep.
    rewrite (decide_False (P:=a = slash)) by set_solver; rewrite decide_False by lia; mstep.
    apply st_terminate; [done|done|]; by apply goodcomp_flat_no0.
Qed.

Lemma st_nil buf : length buf = Z.to_nat VFS_MAX_PATH -> st buf 0 [].
Proof. intros; split; [done|]; split; [done|]; by exists buf. Qed.

Lemma start_slash buf :
  length buf = Z.to_nat VFS_MAX_PATH ->
  exists buf', zset buf 0 slash = Ok buf' /\ st buf' 1 [slash].
Proof. intros Hl; apply (st_zset buf 0 [] slash); [by apply st_nil|simpl; lia]. Qed.

Definition absolute (b : list Z) : bool := bool_decide (head b = Some slash).

(** The components the loop starts from. *)
Definition base_of (cs : list (list Z)) (b : list Z) : list (list Z) :=
  if absolute b then [] else cs.

Lemma cstr_take s b : cstr s b -> take (length b) s = b.
Proof. intros (t & -> & _); by rewrite take_app_length. Qed.

Lemma render_head cs : exists t, render cs = slash :: t.
Proof. destruct cs; simpl; unfold flat; simpl; eauto. Qed.

Lemma norm_start_exact cwd cs path b buf :
  length buf = Z.to_nat VFS_MAX_PATH -> cstr cwd (render cs) -> Forall goodcomp cs ->
  cstr path b -> (length (render cs) <= 1022)%nat ->
  exists buf' out' pre, norm_start (Some cwd) path buf = Ok (buf', out') /\
    st buf' out' pre /\ rendered (base_of cs b) pre /\ slash_last pre /\
    (length pre <= length (render cs) + 1)%nat.
Proof.
  intros Hbuf Hcwd Hg Hp Hl; unfold norm_start, base_of, absolute.
  assert (exists p0 q, path = p0 :: q /\ (p0 = slash <-> head b = Some slash)) as (p0 & q & -> & Hp0).
  { destruct Hp as (t & -> & _); destruct b as [|c b]; simpl; eexists _, _; (split; [done|]);
      unfold slash; split; intros; simplify_eq/=; done. }
  change (zget (p0 :: q) 0) with (Ok p0); mstep.
  destruct (render_head cs) as [t Ht]; pose proof (start_slash buf Hbuf) as (bufs & Es & Hs).
  case_decide as Hd.
  - rewrite Es; mstep; rewrite bool_decide_eq_true_2 by tauto.
    exists bufs, 1, [slash]; split_and!; [done|done|by left|by exists []|simpl; lia].
  - rewrite bool_decide_eq_false_2 by tauto.
    assert (zget cwd 0 = Ok slash) as -> by (destruct Hcwd as (? & -> & _); by rewrite Ht).
    mstep; rewrite decide_True, (strlen_cstr _ _ Hcwd) by done; mstep.
    rewrite decide_False by (unfold VFS_MAX_PATH; lia).
    rewrite Nat2Z.id, (cstr_take _ _ Hcwd).
    destruct (st_write buf 0 [] (render cs)) as (buf1 & E1 & H1);
      [by apply st_nil|simpl; lia|].
    rewrite E1; mstep; cbn [app] in H1; rewrite Z.add_0_l in H1.
    destruct (add_slash_st buf1 _ _ H1) as (buf2 & out2 & E2 & H2); [by rewrite Ht|lia|].
    exists buf2, out2; rewrite E2.
    destruct H2 as [[Hsl H2]|[(? & ? & ?)|(Hsl & ? & H2)]]; [|lia|].
    + exists (render cs); split_and!; [done|done| |done|lia].
      destruct cs as [|c cs]; [by left|]; exfalso.
      by eapply flat_not_slash_last; [done| |exact Hsl].
    + exists (render cs ++ [slash]); split_and!; [done|done| |by eexists|rewrite length_app; simpl; lia].
      destruct cs as [|c cs]; [exfalso; apply Hsl; by exists []|by left].
Qed.

Lemma normalize_nonempty_exact cwd cs path b buf :
  length buf = Z.to_nat VFS_MAX_PATH -> cstr cwd (render cs) -> Forall goodcomp cs ->
  cstr path b -> (length (render cs) + 1 + length b <= 1023)%nat ->
  exists buf', normalize_nonempty (Some cwd) path buf = Ok buf' /\
    length buf' = Z.to_nat VFS_MAX_PATH /\
    cstr buf' (render (resolve (base_of cs b) b)) /\
    Forall goodcomp (resolve (base_of cs b) b).
Proof.
  intros Hbuf Hcwd Hg Hp Hl; unfold normalize_nonempty.
  destruct (norm_start_exact cwd cs path b buf) as (buf1 & out1 & pre1 & E1 & H1 & Hr1 & Hsl & Hl1);
    [done..|lia|].
  rewrite E1; mstep.
  assert (Forall goodcomp (base_of cs b)) by (unfold base_of; by destruct (absolute b)).
  assert (exists p0 p' b', zget path 0 = Ok p0 /\
    (if decide (p0 = slash) then drop 1 path else path) = p' /\ cstr p' b' /\
    comps b' = comps b /\ (length b' <= length b)%nat) as (p0 & p' & b' & -> & Ep & Hp' & Ec & Hb').
  { destruct b as [|c b].
    - pose proof Hp as Hq; apply cstr_nil_inv in Hq as [t ->].
      exists 0, (0 :: t), []; by rewrite decide_False by (unfold slash; lia).
    - pose proof Hp as Hq; apply cstr_cons_inv in Hq as (q & -> & ? & ?).
      exists c; destruct (decide (c = slash)) as [->|].
      + exists q, b; split_and!; [done..|simpl; lia].
      + exists (c :: q), (c :: b); done. }
  mstep; rewrite Ep.
  destruct (norm_loop_exact (length path) p' b' buf1 out1 (base_of cs b) pre1)
    as (buf2 & out2 & pre2 & E2 & H2 & Hr2 & Hg2 & Hl2); [done..| |by left|lia|].
  { destruct Hp as (t & -> & _); rewrite length_app; simpl; lia. }
  rewrite E2; mstep; unfold resolve in *; rewrite Ec in *.
  destruct (norm_finish_exact buf2 out2 _ pre2 H2 Hr2 Hg2) as (buf3 & E3 & Hc3 & Hl3); [lia|].
  exists buf3; done.
Qed.

(** ** Printing a stack and reading it back *)

Lemma comps_flat cs : Forall goodcomp cs -> comps (flat cs) = cs.
Proof.
  induction 1 as [|c cs ((Hc & _ & Hs) & _) _ IH]; [done|].
  change (flat (c :: cs)) with (slash :: c ++ flat cs).
  change (comps (slash :: c ++ flat cs)) with (comps (c ++ flat cs)).
  rewrite comps_comp, IH; [done..|].
  destruct cs as [|d cs]; [by left|right; unfold flat; simpl; eauto].
Qed.

Lemma comps_render cs : Forall goodcomp cs -> comps (render cs) = cs.
Proof. intros H; destruct cs; [done|by apply comps_flat]. Qed.

Lemma step_comps_good cs0 cs : Forall goodcomp cs -> foldl step_comp cs0 cs = cs0 ++ cs.
Proof.
  intros H; revert cs0; induction H as [|c cs (_ & Hd & Hdd) _ IH]; intros cs0;
    simpl; [by rewrite app_nil_r|].
  unfold step_comp at 2; rewrite !decide_False by done.
  rewrite IH; by rewrite <- app_assoc.
Qed.

(** A normal form resolves to itself. *)
Lemma resolve_render cs0 cs : Forall goodcomp cs -> resolve cs0 (render cs) = cs0 ++ cs.
Proof. intros H; unfold resolve; rewrite comps_render by done; by apply step_comps_good. Qed.

Lemma normalize_exact cwd cs path b buf :
  length buf = Z.to_nat VFS_MAX_PATH -> cstr cwd (render cs) -> Forall goodcomp cs ->
  cstr path b -> (length (render cs) + length b + 2 <= 1023)%nat ->
  exists buf', vfs_normalize_path (Some cwd) (Some path) buf = Ok buf' /\
    length buf' = Z.to_nat VFS_MAX_PATH /\
    cstr buf' (render (resolve (base_of cs b) b)) /\
    Forall goodcomp (resolve (base_of cs b) b).
Proof.
  intros Hbuf Hcwd Hg Hp Hl; unfold vfs_normalize_path, is_empty.
  destruct (render_head cs) as [t Ht].
  assert (exists q, cwd = slash :: q) as [q Hq]
    by (destruct Hcwd as (? & -> & _); rewrite Ht; eexists; done).
  destruct b as [|c b].
  - pose proof Hp as Hp'; apply cstr_nil_inv in Hp' as [u ->].
    change (zget (0 :: u) 0) with (Ok 0); mstep.
    assert (zget cwd 0 = Ok slash) as -> by (by rewrite Hq).
    mstep; change (bool_decide (0 = 0)) with true; change (bool_decide (slash = 0)) with false.
    cbv iota.
    destruct (normalize_nonempty_exact [slash; 0] [] cwd (render cs) buf)
      as (buf' & E & Hl' & Hc & Hf); [done|by apply (cstr_cons slash), cstr_nil|done|done|simpl in *; lia|].
    assert (base_of [] (render cs) = []) as Eb by (unfold base_of; by destruct (absolute _)).
    rewrite Eb, resolve_render in Hc, Hf by done.
    exists buf'; split_and!; [|done|done|done].
    rewrite <- E; unfold normalize_nonempty, norm_start; rewrite Hq; done.
  - pose proof Hp as Hp'; apply cstr_cons_inv in Hp' as (u & -> & Hc & _).
    change (zget (c :: u) 0) with (Ok c); mstep; rewrite bool_decide_eq_false_2 by done.
    apply normalize_nonempty_exact; try done; lia.
Qed.

(** C36: normalisation computes the component semantics.  With a current
    directory in normal form and a path that fits the buffer with it, the result
    is the normal form of the stack that the path's components build: [.]
    skipped, [..] popping (the root staying the root), from the root for an
    absolute path and from the current directory otherwise; every component of
    the result is proper. *)
Theorem vfs_normalize_path_spec cwd cs path b buf :
  length buf = Z.to_nat VFS_MAX_PATH -> cstr cwd (render cs) -> Forall goodcomp cs ->
  cstr path b -> (length (render cs) + length b + 2 <= 1023)%nat ->
  exists buf', vfs_normalize_path (Some cwd) (Some path) buf = Ok buf' /\
    length buf' = Z.to_nat VFS_MAX_PATH /\
    cstr buf' (render (resolve (base_of cs b) b)) /\
    Forall goodcomp (resolve (base_of cs b) b).
Proof. apply normalize_exact. Qed.

(** In "/usr/lib", the path ".././/bin/./x/.." is "/usr/bin". *)
Lemma vfs_normalize_path_spec_witness :
  exists buf', vfs_normalize_path (Some [47;117;115;114;47;108;105;98;0])
      (Some [46;46;47;46;47;47;98;105;110;47;46;47;120;47;46;46;0])
      (repeat 0 (Z.to_nat VFS_MAX_PATH)) = Ok buf' /\
    cstr buf' [47;117;115;114;47;98;105;110].
Proof.
  destruct (vfs_normalize_path_spec [47;117;115;114;47;108;105;98;0]
    [[117;115;114];[108;105;98]]
    [46;46;47;46;47;47;98;105;110;47;46;47;120;47;46;46;0]
    [46;46;47;46;47;47;98;105;110;47;46;47;120;47;46;46] (repeat 0 (Z.to_nat VFS_MAX_PATH)))
    as (buf' & E & _ & Hc & _).
  - apply repeat_length.
  - by apply cstr_lit.
  - by repeat (constructor; [apply goodcomp_lit|]).
  - by apply cstr_lit.
  - simpl; lia.
  - by exists buf'.
Defined.

(** ** Memory safety, for strings of any length *)

(** The text in the buffer is absolute and leaves room for the terminator. *)
Definition safe (pre : list Z) : Prop :=
  (exists t, pre = slash :: t) /\ 0 ∉ pre /\ (length pre <= 1023)%nat.

Lemma last_slash t : exists x c, slash :: t = x ++ slash :: c /\ slash ∉ c.
Proof.
  induction t as [|a t (x & c & E & Hc)] using rev_ind; [exists [], []; set_solver|].
  destruct (decide (a = slash)) as [->|Ha].
  - exists (slash :: t), []; set_solver.
  - exists x, (c ++ [a]); split; [|set_solver].
    change (slash :: t ++ [a]) with ((slash :: t) ++ [a]); rewrite E; by rewrite <- app_assoc.
Qed.

Lemma safe_prefix x t c : safe ((x ++ slash :: t) ++ c) -> safe (x ++ [slash]).
Proof.
  intros ([u Hu] & H0 & Hl); rewrite <- app_assoc in *; split_and!.
  - destruct x; simpl in *; [by exists []|simplify_eq; eauto].
  - set_solver.
  - rewrite !length_app in *; simpl in *; lia.
Qed.

Lemma pop_comp_safe buf out pre :
  st buf out pre -> safe pre ->
  exists out' pre', pop_comp buf out = Ok out' /\ st buf out' pre' /\ safe pre'.
Proof.
  intros Hst Hs; pose proof Hs as ([t ->] & _); destruct (last_slash t) as (x & c & E & Hc).
  rewrite E in *; destruct c as [|a c].
  - destruct x as [|b x].
    + exists out, [slash]; split_and!; [|done|done].
      unfold pop_comp; rewrite decide_False; [done|].
      destruct Hst as (_ & -> & _); simpl; lia.
    + simplify_eq/=; destruct (last_slash x) as (y & d & E' & Hd).
      rewrite app_comm_cons, E' in Hst, Hs.
      apply pop_comp_trail in Hst as (out' & Ep & H'); [|done].
      exists out', (y ++ [slash]); split_and!; [done|done|by eapply safe_prefix].
  - apply pop_comp_plain in Hst as (out' & Ep & H'); [|done|done].
    exists out', (x ++ [slash]); split_and!; [done|done|].
    apply (safe_prefix x (a :: c) []); by rewrite app_nil_r.
Qed.

Lemma push_comp_safe buf out comp pre :
  st buf out pre -> safe pre -> 0 ∉ comp -> Z.of_nat (length comp) < 2 ^ 31 - VFS_MAX_PATH ->
  exists buf' out' pre', push_comp comp buf out = Ok (buf', out') /\
    st buf' out' pre' /\ safe pre'.
Proof.
  intros Hst ([t ->] & H0 & Hl) Hc Hb; unfold push_comp.
  destruct (add_slash_st buf out (slash :: t)) as (buf1 & out1 & E & H1); [done..|].
  rewrite E; mstep.
  assert (exists u, st buf1 out1 (slash :: u) /\ 0 ∉ slash :: u /\
    (length (slash :: u) <= 1023)%nat) as (u & Hst1 & H01 & Hl1).
  { destruct H1 as [[_ ?]|[(_ & _ & ?)|(_ & ? & ?)]]; [by exists t|by exists t|].
    exists (t ++ [slash]); split; [done|]; split; [|simpl in *; rewrite length_app; simpl; lia].
    rewrite app_comm_cons, not_elem_of_app, list_elem_of_singleton; split; [done|]; unfold slash; lia. }
  pose proof Hst1 as (_ & Eo & _); unfold VFS_MAX_PATH in *.
  rewrite (i32_small (Z.of_nat (length comp))), i32_small by lia.
  set (k := if decide (_ >= 1024) then _ else _).
  assert (0 <= k /\ out1 + k <= 1023 /\ k <= Z.of_nat (length comp)) as (Hk0 & Hk1 & Hk2)
    by (unfold k; case_decide; lia).
  case_decide; [|exists buf1, out1, (slash :: u); split; [done|]; split; [done|];
    split; [by exists u|done]].
  assert (length (take (Z.to_nat k) comp) = Z.to_nat k) as Ht by (rewrite length_take; lia).
  destruct (st_write buf1 out1 (slash :: u) (take (Z.to_nat k) comp)) as (buf2 & E2 & H2);
    [done|lia|].
  rewrite E2; mstep; exists buf2, (out1 + k), (slash :: u ++ take (Z.to_nat k) comp).
  rewrite Ht, Z2Nat.id in H2 by lia; split; [done|]; split; [done|]; split; [eauto|]; split.
  - rewrite app_comm_cons, not_elem_of_app; split; [done|].
    intros Hin; by apply elem_of_take in Hin as (? & ?%list_elem_of_lookup_2 & _).
  - rewrite app_comm_cons, length_app, Ht; lia.
Qed.

Lemma norm_loop_safe fuel p b buf out pre :
  st buf out pre -> safe pre -> cstr p b -> (length b < fuel)%nat ->
  Z.of_nat (length b) < 2 ^ 31 - VFS_MAX_PATH ->
  exists buf' out' pre', norm_loop fuel p buf out = Ok (buf', out') /\
    st buf' out' pre' /\ safe pre'.
Proof.
  revert p b buf out pre; induction fuel as [|f IH];
    intros p b buf out pre Hst Hs Hp Hf Hb; [lia|].
  destruct (norm_loop_turn f p b buf out Hp)
    as [[_ ->]|(comp & p' & b' & _ & (Hne & Hc0 & _) & Hp' & Hb' & Hl & _ & ->)].
  { by exists buf, out, pre. }
  assert (1 <= length comp)%nat by (destruct comp; simpl; [done|lia]).
  assert (exists buf1 out1 pre1, norm_comp comp buf out = Ok (buf1, out1) /\
    st buf1 out1 pre1 /\ safe pre1) as (buf1 & out1 & pre1 & E & H1 & Hs1).
  { unfold norm_comp; case_decide; [by exists buf, out, pre|]; case_decide.
    - destruct (pop_comp_safe buf out pre) as (out' & pre' & E & ? & ?); [done..|].
      rewrite E; by exists buf, out', pre'.
    - eapply push_comp_safe; [done..|lia]. }
  rewrite E; mstep; eapply IH; [done..|lia|lia].
Qed.

Lemma safe_root : safe [slash].
Proof.
  split; [by exists []|]; split; [|simpl; lia].
  rewrite list_elem_of_singleton; unfold slash; lia.
Qed.

Lemma safe_slash pre : safe pre -> (length pre < 1023)%nat -> safe (pre ++ [slash]).
Proof.
  intros ([t ->] & H0 & Hl) Hlt; split; [simpl; eauto|].
  rewrite not_elem_of_app, list_elem_of_singleton, length_app; cbn [length] in *.
  split; [split; [done|unfold slash; lia]|lia].
Qed.

Lemma norm_start_safe cwd wb path b buf :
  length buf = Z.to_nat VFS_MAX_PATH ->
  (forall w, cwd = Some w -> cstr w wb) -> cstr path b ->
  exists buf' out' pre, norm_start cwd path buf = Ok (buf', out') /\
    st buf' out' pre /\ safe pre.
Proof.
  intros Hbuf Hcwd Hp; unfold norm_start.
  destruct (start_slash buf Hbuf) as (bufs & Es & Hs); pose proof safe_root.
  assert (exists p0, zget path 0 = Ok p0) as [p0 ->]
    by (destruct Hp as (t & -> & _); destruct b; eexists; done).
  mstep; case_decide; [rewrite Es; by exists bufs, 1, [slash]|].
  destruct cwd as [w|]; [|rewrite Es; by exists bufs, 1, [slash]].
  specialize (Hcwd w eq_refl); destruct wb as [|c wb].
  { pose proof Hcwd as Hw; apply cstr_nil_inv in Hw as [t ->].
    change (zget (0 :: t) 0) with (Ok 0); mstep.
    rewrite decide_False by (unfold slash; lia); rewrite Es; by exists bufs, 1, [slash]. }
  pose proof Hcwd as Hw; apply cstr_cons_inv in Hw as (w' & -> & Hc0 & Hw').
  change (zget (c :: w') 0) with (Ok c); mstep.
  case_decide as Hc; [subst c|rewrite Es; by exists bufs, 1, [slash]].
  rewrite (strlen_cstr _ _ Hcwd); mstep; set (k := if decide (_ >= VFS_MAX_PATH) then _ else _).
  assert (1 <= k <= 1023 /\ k <= Z.of_nat (length (slash :: wb))) as [Hk1 Hk2]
    by (unfold k, VFS_MAX_PATH; case_decide; simpl length in *; lia).
  assert (take (Z.to_nat k) (slash :: w') = slash :: take (Z.to_nat k - 1) wb) as Et.
  { destruct Hw' as (t & -> & _); replace (Z.to_nat k) with (S (Z.to_nat k - 1)) by lia.
    cbn [firstn]; f_equal; rewrite take_app_le by (simpl in Hk2; lia); f_equal; lia. }
  assert (0 ∉ slash :: take (Z.to_nat k - 1) wb) as Hno0.
  { destruct Hcwd as (_ & _ & Hw0); intros [?|Hin]%elem_of_cons; [done|].
    apply Hw0, elem_of_cons; right; by apply elem_of_take in Hin as (? & ?%list_elem_of_lookup_2 & _). }
  rewrite Et; assert (length (slash :: take (Z.to_nat k - 1) wb) = Z.to_nat k) as Hlen
    by (cbn [length] in *; rewrite length_take; lia).
  destruct (st_write buf 0 [] (slash :: take (Z.to_nat k - 1) wb)) as (buf1 & E1 & H1);
    [by apply st_nil|cbn [length] in *; lia|].
  rewrite E1; mstep; rewrite Hlen, Z2Nat.id, Z.add_0_l in H1 by lia.
  destruct (add_slash_st buf1 k _ H1) as (buf2 & out2 & E2 & H2); [done|cbn [app]; lia|].
  rewrite E2; exists buf2, out2; cbn [app] in *.
  assert (safe (slash :: take (Z.to_nat k - 1) wb)) by (split; [eauto|split; [done|lia]]).
  destruct H2 as [[_ ?]|[(_ & _ & ?)|(_ & ? & ?)]]; eexists; (split; [done|]);
    (split; [done|]); [done|done|by apply (safe_slash (_ :: _))].
Qed.

Lemma norm_finish_safe buf out pre :
  st buf out pre -> safe pre ->
  exists buf' b, norm_finish buf out = Ok buf' /\ length buf' = Z.to_nat VFS_MAX_PATH /\
    cstr buf' b /\ exists t, b = slash :: t.
Proof.
  intros Hst ([t ->] & H0 & Hl); unfold norm_finish; pose proof Hst as (_ & Eo & _).
  assert (exists out' u, (if decide (out > 1) then
      c ← zget buf (out - 1); Ok (if decide (c = slash) then out - 1 else out)
    else Ok out) = Ok out' /\ st buf out' (slash :: u) /\ 0 ∉ slash :: u /\
      (length (slash :: u) <= 1023)%nat) as (out' & u & -> & Hst' & H0' & Hl').
  { case_decide as Ho; [|by exists out, t].
    destruct t as [|a t _] using rev_ind; [simpl in Eo; lia|].
    rewrite app_comm_cons in *; rewrite (st_last _ _ _ _ Hst); mstep; case_decide.
    - exists (out - 1), t; split_and!; [done| |set_solver|rewrite length_app in Hl; lia].
      by apply st_drop in Hst.
    - exists out, (t ++ [a]); done. }
  mstep; rewrite decide_False by (destruct Hst' as (_ & -> & _); cbn [length]; lia); mstep.
  destruct (st_terminate _ _ _ Hst') as (buf' & E & Hc & Hl2); [done|done|].
  exists buf', (slash :: u); eauto.
Qed.

Lemma normalize_nonempty_safe cwd wb path b buf :
  length buf = Z.to_nat VFS_MAX_PATH ->
  (forall w, cwd = Some w -> cstr w wb) -> cstr path b ->
  Z.of_nat (length b) < 2 ^ 31 - VFS_MAX_PATH ->
  exists buf' r, normalize_nonempty cwd path buf = Ok buf' /\
    length buf' = Z.to_nat VFS_MAX_PATH /\ cstr buf' r /\ exists t, r = slash :: t.
Proof.
  intros Hbuf Hcwd Hp Hb; unfold normalize_nonempty.
  destruct (norm_start_safe cwd wb path b buf) as (buf1 & out1 & pre1 & -> & H1 & Hs1); [done..|].
  mstep.
  assert (exists p0 b', zget path 0 = Ok p0 /\
    cstr (if decide (p0 = slash) then drop 1 path else path) b' /\
    (length b' <= length b)%nat) as (p0 & b' & -> & Hp' & Hb').
  { destruct b as [|c b]; pose proof Hp as Hq.
    - apply cstr_nil_inv in Hq as [t ->]; exists 0, []; by rewrite decide_False.
    - apply cstr_cons_inv in Hq as (q & -> & ? & ?); exists c; case_decide;
        [exists b|exists (c :: b)]; split_and!; try done; simpl; lia. }
  mstep; destruct (norm_loop_safe (length path) _ b' buf1 out1 pre1 H1 Hs1 Hp')
    as (buf2 & out2 & pre2 & -> & H2 & Hs2); [|lia|].
  { destruct Hp as (t & -> & _); rewrite length_app; simpl; lia. }
  mstep; by eapply norm_finish_safe.
Qed.

(** C37: normalisation is memory safe: for any path and current directory shorter than
    2^31 - 1024 bytes (absent, empty, not normalised or longer than the buffer), no store
    leaves the [VFS_MAX_PATH] bytes of the buffer, the loop ends, and the buffer
    holds an absolute C string. *)
Theorem vfs_normalize_path_safe cwd wb path b buf :
  length buf = Z.to_nat VFS_MAX_PATH ->
  (forall w, cwd = Some w -> cstr w wb) -> (forall p, path = Some p -> cstr p b) ->
  Z.of_nat (length b) < 2 ^ 31 - VFS_MAX_PATH ->
  Z.of_nat (length wb) < 2 ^ 31 - VFS_MAX_PATH ->
  exists buf' r, vfs_normalize_path cwd path buf = Ok buf' /\
    length buf' = Z.to_nat VFS_MAX_PATH /\ cstr buf' r /\ exists t, r = slash :: t.
Proof.
  intros Hbuf Hcwd Hp Hb Hwb; unfold vfs_normalize_path.
  assert (forall (s : option (list Z)) sb, (forall p, s = Some p -> cstr p sb) ->
    is_empty s = Ok true \/ exists p, s = Some p /\ is_empty s = Ok false /\ cstr p sb) as Hie.
  { intros [p|] sb Hs; [|by left]; specialize (Hs p eq_refl); simpl.
    destruct sb as [|c sb]; pose proof Hs as Hq;
      [apply cstr_nil_inv in Hq as [t ->]; by left|].
    apply cstr_cons_inv in Hq as (q & -> & Hc & _); right; eexists; split; [done|].
    change (zget (c :: q) 0) with (Ok c); mstep; by rewrite bool_decide_eq_false_2. }
  destruct (Hie path b Hp) as [->|(p & -> & -> & Hp')]; mstep;
    [|by eapply normalize_nonempty_safe].
  destruct (Hie cwd wb Hcwd) as [->|(w & -> & -> & Hw)]; mstep;
    [|by eapply (normalize_nonempty_safe None [])].
  destruct buf as [|x [|y buf]]; [done|done|].
  exists (slash :: 0 :: buf), [slash]; split_and!; [done|done| |by exists []].
  exists buf; split; [done|]; rewrite list_elem_of_singleton; unfold slash; lia.
Qed.

(** A path of 1200 bytes against the 1024-byte buffer. *)
Lemma vfs_normalize_path_safe_witness :
  exists buf' r, vfs_normalize_path None (Some (slash :: repeat 97 1200 ++ [0]))
      (repeat 0 (Z.to_nat VFS_MAX_PATH)) = Ok buf' /\
    length buf' = Z.to_nat VFS_MAX_PATH /\ cstr buf' r /\ exists t, r = slash :: t.
Proof.
  apply (vfs_normalize_path_safe None [] (Some (slash :: repeat 97 1200 ++ [0]))
    (slash :: repeat 97 1200)).
  - apply repeat_length.
  - done.
  - intros p [= <-]; by apply cstr_lit.
  - cbn [length]; rewrite repeat_length; unfold VFS_MAX_PATH; lia.
  - simpl; unfold VFS_MAX_PATH; lia.
Defined.

(** Truncation can leave a [..] that was not in the path: "/aaa...a/..x" with
    1019 letters normalises to "/aaa...a/..". *)
Lemma normalize_truncation_dotdot :
  vfs_normalize_path None (Some (slash :: repeat 97 1019 ++ [47; 46; 46; 120; 0]))
    (repeat 0 (Z.to_nat VFS_MAX_PATH)) =
  Ok (slash :: repeat 97 1019 ++ [47; 46; 46; 0]).
Proof. by vm_compute. Qed.
