(* ===== verification/VfsMount.v ===== *)
(** * fs/vfs_mount.c and [vfs_resolve_mount] of fs/vfs_path.c: the mount table

    The table is the array of [VFS_MAX_MOUNTS] entries with their character
    buffers, changed in place.  File-system operation tables are numbers (NULL is
    0); the calls through them ([unmount], [sync_fs]) are events.  An open file
    is its [valid] flag and the slot of its mount.  Messages on the serial line
    and the spinlock are left out. *)

From S2P Require Import Prelude Kutils VfsPath.
From stdpp Require Import base tactics option list numbers sets gmap.
From Stdlib Require Import ZArith Lia.

Local Open Scope Z_scope.

Definition VFS_MAX_MOUNTS : nat := 64.

Record vfs_mount_t := mkMount {
  m_path : list Z;      (* char[256] *)
  m_path_len : Z;
  m_ops : Z;
  m_private : Z;
  m_device : list Z;    (* char[32] *)
  m_fs_type : list Z;   (* char[16] *)
  m_active : bool;
}.

Record vfs_file := mkFile { f_valid : bool; f_mount : option nat }.

Inductive mount_event :=
  | CallUnmount (ops private : Z)
  | CallSyncFs (ops private : Z).

Record vfs_state := mkVfs {
  mounts : list vfs_mount_t;
  mount_count : Z;
  open_files : list vfs_file;
  trace : list mount_event;
}.

Definition with_mounts (s : vfs_state) ms n :=
  mkVfs ms n (open_files s) (trace s).

(** Static storage: every byte is 0. *)
Definition mount0 : vfs_mount_t :=
  mkMount (repeat 0 256) 0 0 0 (repeat 0 32) (repeat 0 16) false.
Definition vfs_state0 : vfs_state := mkVfs (repeat mount0 VFS_MAX_MOUNTS) 0 [] [].

Definition clear_mount (m : vfs_mount_t) : vfs_mount_t :=
  mkMount (m_path m) (m_path_len m) 0 0 (m_device m) (m_fs_type m) false.

Definition vfs_init (s : vfs_state) : vfs_state :=
  mkVfs (clear_mount <$> mounts s) 0 [] (trace s).

(** ** Mounting *)

(** The first loop: the slot of an active mount with this path. *)
Fixpoint find_mounted (ms : list vfs_mount_t) (normalized : list Z) (i : nat)
  : res (option nat) :=
  match ms with
  | [] => Ok None
  | m :: r =>
      if m_active m then
        c ← strcmp (m_path m) normalized;
        if decide (c = 0) then Ok (Some i) else find_mounted r normalized (S i)
      else find_mounted r normalized (S i)
  end.

(** The second loop: the first free slot. *)
Fixpoint find_slot (ms : list vfs_mount_t) (i : nat) : option nat :=
  match ms with
  | [] => None
  | m :: r => if m_active m then find_slot r (S i) else Some i
  end.

(** [if (src) strncpy(dest, src, n)] *)
Definition strncpy_opt (dest : list Z) (src : option (list Z)) (n : nat)
  : res (list Z) :=
  match src with Some s => strncpy dest s n | None => Ok dest end.

(** [if (src) strncpy(dest, src, n); else dest[0] = '\0';] *)
Definition strncpy_or_clear (dest : list Z) (src : option (list Z)) (n : nat)
  : res (list Z) :=
  match src with Some s => strncpy dest s n | None => zset dest 0 0 end.

Definition update_mount (m : vfs_mount_t) (normalized : list Z)
    (device fs_type : option (list Z)) (ops fs_private : Z) : res vfs_mount_t :=
  dev ← strncpy_opt (m_device m) device 31;
  ty ← strncpy_opt (m_fs_type m) fs_type 15;
  len ← strlen normalized;
  Ok (mkMount (m_path m) len ops fs_private dev ty (m_active m)).

Definition fill_mount (m : vfs_mount_t) (normalized : list Z)
    (device fs_type : option (list Z)) (ops fs_private : Z) : res vfs_mount_t :=
  path ← strncpy (m_path m) normalized 255;
  len ← strlen normalized;
  dev ← strncpy_or_clear (m_device m) device 31;
  ty ← strncpy_or_clear (m_fs_type m) fs_type 15;
  Ok (mkMount path len ops fs_private dev ty true).

(** [scratch] is the uninitialised local array. *)
Definition vfs_mount (mount_path device fs_type : option (list Z))
    (ops fs_private : Z) (scratch : list Z) (s : vfs_state) : res (bool * vfs_state) :=
  match mount_path with
  | None => Ok (false, s)
  | Some _ =>
      if decide (ops = 0) then Ok (false, s)
      else
        normalized ← vfs_normalize_path (Some [slash; 0]) mount_path scratch;
        o ← find_mounted (mounts s) normalized 0;
        match o with
        | Some i =>
            m ← of_opt (mounts s !! i);
            m' ← update_mount m normalized device fs_type ops fs_private;
            Ok (true, with_mounts s (<[i := m']> (mounts s)) (mount_count s))
        | None =>
            match find_slot (mounts s) 0 with
            | None => Ok (false, s)
            | Some i =>
                m ← of_opt (mounts s !! i);
                m' ← fill_mount m normalized device fs_type ops fs_private;
                Ok (true, with_mounts s (<[i := m']> (mounts s)) (mount_count s + 1))
            end
        end
  end.

(** ** Unmounting *)

Definition file_on (i : nat) (f : vfs_file) : bool :=
  f_valid f && bool_decide (f_mount f = Some i).

(** Path match, or device match when neither name is empty. *)
Definition umount_matches (m : vfs_mount_t) (normalized dev_target : list Z) : res bool :=
  c ← strcmp (m_path m) normalized;
  if decide (c = 0) then Ok true
  else
    d0 ← zget dev_target 0;
    if decide (d0 = 0) then Ok false
    else
      m0 ← zget (m_device m) 0;
      if decide (m0 = 0) then Ok false
      else c ← strcmp (m_device m) dev_target; Ok (bool_decide (c = 0)).

Section Ops.
(** Which operation tables have an [unmount] or a [sync_fs] entry. *)
Variables has_unmount has_sync_fs : Z -> bool.

Fixpoint umount_scan (ms : list vfs_mount_t) (i : nat) (normalized dev_target : list Z)
    (s : vfs_state) : res (bool * vfs_state) :=
  match ms with
  | [] => Ok (false, s)
  | m :: r =>
      if m_active m then
        b ← umount_matches m normalized dev_target;
        if (b : bool) then
          if existsb (file_on i) (open_files s) then Ok (false, s)
          else
            let ev := if negb (m_ops m =? 0) && has_unmount (m_ops m)
                      then [CallUnmount (m_ops m) (m_private m)] else [] in
            Ok (true, mkVfs (<[i := clear_mount m]> (mounts s)) (mount_count s - 1)
                        (open_files s) (trace s ++ ev))
        else umount_scan r (S i) normalized dev_target s
      else umount_scan r (S i) normalized dev_target s
  end.

(** "/dev/" *)
Definition dev_prefix : list Z := [47; 100; 101; 118; 47; 0].

Definition vfs_umount (mount_path : option (list Z)) (scratch : list Z) (s : vfs_state)
  : res (bool * vfs_state) :=
  match mount_path with
  | None => Ok (false, s)
  | Some mp =>
      normalized ← vfs_normalize_path (Some [slash; 0]) mount_path scratch;
      c ← strncmp mp dev_prefix 5;
      let dev_target := if decide (c = 0) then drop 5 mp else mp in
      umount_scan (mounts s) 0 normalized dev_target s
  end.

Definition vfs_get_mount_count : Z := Z.of_nat VFS_MAX_MOUNTS.

Definition vfs_get_mount (index : Z) (s : vfs_state) : res (option nat) :=
  if decide (index < 0 \/ index >= Z.of_nat VFS_MAX_MOUNTS) then Ok None
  else
    m ← zget (mounts s) index;
    Ok (if m_active m then Some (Z.to_nat index) else None).

Definition sync_event (m : vfs_mount_t) : list mount_event :=
  if m_active m && negb (m_ops m =? 0) && has_sync_fs (m_ops m)
  then [CallSyncFs (m_ops m) (m_private m)] else [].

Definition vfs_sync_all (s : vfs_state) : Z * vfs_state :=
  (0, mkVfs (mounts s) (mount_count s) (open_files s)
        (trace s ++ concat (map sync_event (mounts s)))).
End Ops.

(** ** Resolution *)

(** The condition of the loop of [vfs_resolve_mount]. *)
Definition mount_covers (m : vfs_mount_t) (path : list Z) : res bool :=
  let len := m_path_len m in
  c ← strncmp path (m_path m) (Z.to_nat len);
  if decide (c = 0) then
    e ← zget path len;
    Ok (bool_decide (e = slash) || bool_decide (e = 0) || bool_decide (len = 1))
  else Ok false.

Fixpoint resolve_scan (ms : list vfs_mount_t) (i : nat) (path : list Z)
    (best : option nat) (best_len : Z) : res (option nat * Z) :=
  match ms with
  | [] => Ok (best, best_len)
  | m :: r =>
      if m_active m then
        b ← mount_covers m path;
        if (b : bool) && bool_decide (m_path_len m > best_len)
        then resolve_scan r (S i) path (Some i) (m_path_len m)
        else resolve_scan r (S i) path best best_len
      else resolve_scan r (S i) path best best_len
  end.

(** The slot and the path below the mount point; [rel_path_out] is not NULL. *)
Definition vfs_resolve_mount (path : list Z) (s : vfs_state)
  : res (option (nat * list Z)) :=
  '(best, best_len) ← resolve_scan (mounts s) 0 path None (-1);
  match best with
  | None => Ok None
  | Some i =>
      if decide (best_len = 1) then Ok (Some (i, path))
      else
        let rel := drop (Z.to_nat best_len) path in
        c ← zget rel 0;
        Ok (Some (i, if decide (c = 0) then [slash; 0] else rel))
  end.

(** ** String lemmas the table needs *)

Lemma strncpy_pad_eq d n :
  (n <= length d)%nat -> strncpy_pad d n = Ok (repeat 0 n ++ drop n d).
Proof.
  revert d; induction n as [|n IH]; intros d Hn; [by destruct d|].
  destruct d as [|x d]; cbn [length] in Hn; [lia|]; cbn [strncpy_pad].
  by rewrite IH by lia.
Qed.

Lemma strncpy_eq dest src b n :
  cstr src b -> (n <= length dest)%nat ->
  strncpy dest src n = Ok (take n b ++ repeat 0 (n - length b) ++ drop n dest).
Proof.
  revert dest src b; induction n as [|n IH]; intros dest src b Hs Hn; [done|].
  destruct dest as [|x dest]; cbn [length] in Hn; [lia|]; destruct b as [|c b].
  - apply cstr_nil_inv in Hs as [t ->]; cbn [strncpy]; rewrite decide_True by done.
    by rewrite strncpy_pad_eq by (simpl; lia).
  - apply cstr_cons_inv in Hs as (s' & -> & Hc & Hs); cbn [strncpy].
    rewrite decide_False, (IH dest s' b Hs) by (done || lia); done.
Qed.

(** [strncmp] of [n] characters tests the first [n] of the two strings. *)
Lemma strncmp_take s1 b1 s2 b2 n :
  cstr s1 b1 -> cstr s2 b2 ->
  exists v, strncmp s1 s2 n = Ok v /\ (v = 0 <-> take n b1 = take n b2).
Proof.
  revert s1 b1 s2 b2; induction n as [|n IH]; intros s1 b1 s2 b2 H1 H2; [by exists 0|].
  destruct b1 as [|a b1]; [apply cstr_nil_inv in H1 as [t1 ->]|
    apply cstr_cons_inv in H1 as (s1' & -> & Ha & H1)];
  (destruct b2 as [|b b2]; [apply cstr_nil_inv in H2 as [t2 ->]|
    apply cstr_cons_inv in H2 as (s2' & -> & Hb & H2)]); cbn [strncmp firstn].
  - by exists 0.
  - rewrite decide_False by naive_solver; eexists; split; [done|]; split; [lia|done].
  - rewrite decide_False by naive_solver; eexists; split; [done|]; split; [lia|done].
  - case_decide as Hab.
    + destruct Hab as [_ ->]; destruct (IH _ _ _ _ H1 H2) as (v & -> & Hv).
      exists v; split; [done|]; rewrite Hv; split; [by intros ->|by intros [= ->]].
    + eexists; split; [done|]; split; [intros; exfalso; apply Hab; split; [done|lia]|].
      intros [= -> _]; exfalso; by apply Hab.
Qed.

Lemma take_eq_prefix {A} (p q : list A) : take (length q) p = q <-> q `prefix_of` p.
Proof.
  split; [intros H; exists (drop (length q) p); by rewrite <- H at 1; rewrite take_drop|].
  intros [k ->]; by rewrite take_app_length.
Qed.

Lemma cstr_exists (s : list Z) i : s !! i = Some 0 -> exists b, cstr s b.
Proof.
  revert i; induction s as [|c s IH]; intros i Hi; [done|].
  destruct (decide (c = 0)) as [->|Hc]; [exists []; apply cstr_nil|].
  destruct i as [|i]; simpl in Hi; [by simplify_eq|].
  destruct (IH i Hi) as [b Hb]; exists (c :: b); by apply cstr_cons.
Qed.

(** ** Prefixes of normal forms are prefixes of component lists *)

Lemma flat_app cs ds : flat (cs ++ ds) = flat cs ++ flat ds.
Proof. unfold flat; by rewrite map_app, concat_app. Qed.

Lemma flat_inj cs ds : Forall goodcomp cs -> Forall goodcomp ds -> flat cs = flat ds -> cs = ds.
Proof. intros Hc Hd E; by rewrite <- (comps_flat cs), <- (comps_flat ds), E. Qed.

Lemma render_inj cs ds :
  Forall goodcomp cs -> Forall goodcomp ds -> render cs = render ds -> cs = ds.
Proof. intros Hc Hd E; by rewrite <- (comps_render cs), <- (comps_render ds), E. Qed.

(** [flat cs] followed by a component boundary inside [flat ds]. *)
Lemma flat_prefix cs ds r :
  Forall goodcomp cs -> Forall goodcomp ds -> flat ds = flat cs ++ r ->
  (r = [] \/ exists t, r = slash :: t) -> exists es, ds = cs ++ es /\ r = flat es.
Proof.
  revert ds; induction cs as [|c cs IH]; intros ds Hc Hd E Hr; [by exists ds|].
  apply Forall_cons in Hc as [((Hne & _ & Hs) & _) Hc].
  destruct ds as [|d ds]; [done|]; apply Forall_cons in Hd as [((Hne' & _ & Hs') & _) Hd].
  change (flat (d :: ds)) with (slash :: d ++ flat ds) in E.
  change (flat (c :: cs)) with (slash :: c ++ flat cs) in E.
  rewrite <- app_comm_cons in E; injection E as E; rewrite <- app_assoc in E.
  assert (forall l : list (list Z), flat l = [] \/ exists t, flat l = slash :: t) as Hfl
    by (intros [|? ?]; [by left|right; unfold flat; simpl; eauto]).
  assert (flat cs ++ r = [] \/ exists t, flat cs ++ r = slash :: t) as Hcr.
  { destruct (Hfl cs) as [->|[t ->]]; [done|right; simpl; eauto]. }
  assert (d = c /\ flat ds = flat cs ++ r) as [-> E'].
  { apply app_eq_inv in E as [(k & -> & E)|(k & -> & E)]; destruct k as [|x k];
      rewrite ?app_nil_r; try done.
    - exfalso; destruct Hcr as [H|[t H]]; rewrite E in H; simplify_eq/=; set_solver.
    - exfalso; destruct (Hfl ds) as [H|[t H]]; rewrite E in H; simplify_eq/=; set_solver. }
  destruct (IH ds Hc Hd E' Hr) as (es & -> & ->); by exists es.
Qed.

(** ** The invariant of the table *)

(** The last byte of each buffer is never written and stays 0. *)
Definition slot_ok (m : vfs_mount_t) : Prop :=
  length (m_path m) = 256%nat /\ m_path m !! 255%nat = Some 0 /\
  length (m_device m) = 32%nat /\ m_device m !! 31%nat = Some 0 /\
  length (m_fs_type m) = 16%nat /\ m_fs_type m !! 15%nat = Some 0.

(** The entry is mounted at the path with components [cs]. *)
Definition mounted_at (m : vfs_mount_t) (cs : list (list Z)) : Prop :=
  m_active m = true /\ cstr (m_path m) (render cs) /\ Forall goodcomp cs /\
  m_path_len m = Z.of_nat (length (render cs)) /\ m_ops m <> 0.

Definition active_count (ms : list vfs_mount_t) : nat :=
  length (List.filter m_active ms).

Record table_ok (s : vfs_state) : Prop := {
  tbl_len : length (mounts s) = VFS_MAX_MOUNTS;
  tbl_slot : forall i m, mounts s !! i = Some m -> slot_ok m;
  tbl_at : forall i m, mounts s !! i = Some m -> m_active m = true -> exists cs, mounted_at m cs;
  tbl_inj : forall i j m m' cs, mounts s !! i = Some m -> mounts s !! j = Some m' ->
    mounted_at m cs -> mounted_at m' cs -> i = j;
  tbl_count : mount_count s = Z.of_nat (active_count (mounts s));
}.

Lemma cstr_inj s b b' : cstr s b -> cstr s b' -> b = b'.
Proof.
  revert s b'; induction b as [|c b IH]; intros s b' H H'.
  - apply cstr_nil_inv in H as [t ->]; destruct b' as [|d b']; [done|].
    apply cstr_cons_inv in H' as (? & [= <- <-] & ? & _); done.
  - apply cstr_cons_inv in H as (s' & -> & Hc & H); destruct b' as [|d b'].
    + by apply cstr_nil_inv in H' as [t [= -> _]].
    + apply cstr_cons_inv in H' as (s2 & [= <- <-] & _ & H'); f_equal; by eapply IH.
Qed.

Lemma mounted_at_inj m cs cs' : mounted_at m cs -> mounted_at m cs' -> cs = cs'.
Proof.
  intros (_ & H & Hg & _) (_ & H' & Hg' & _); apply render_inj; [done..|by eapply cstr_inj].
Qed.

(** ** Resolution finds the longest mount *)

Lemma zget_cstr path p q r :
  cstr path p -> p = q ++ r ->
  zget path (Z.of_nat (length q)) = Ok (match r with [] => 0 | c :: _ => c end).
Proof.
  intros (t & -> & _) ->; rewrite <- app_assoc; destruct r; cbn [app]; by apply zget_mid.
Qed.

Lemma render_length_pos cs : (1 <= length (render cs))%nat.
Proof. destruct (render_head cs) as [t ->]; simpl; lia. Qed.

Lemma flat_length cs : Forall goodcomp cs -> (2 * length cs <= length (flat cs))%nat.
Proof.
  induction 1 as [|c cs ((Hc & _) & _) _ IH]; [done|].
  change (flat (c :: cs)) with (slash :: c ++ flat cs); cbn [length]; rewrite length_app.
  destruct c; [done|]; cbn [length]; lia.
Qed.

Lemma mount_covers_spec m cs path ds :
  mounted_at m cs -> cstr path (render ds) -> Forall goodcomp ds ->
  mount_covers m path = Ok (bool_decide (cs `prefix_of` ds)).
Proof.
  intros (_ & Hm & Hg & Hlen & _) Hp Hd; unfold mount_covers; rewrite Hlen, Nat2Z.id.
  destruct (strncmp_take path _ (m_path m) _ (length (render cs)) Hp Hm) as (v & -> & Hv).
  rewrite (firstn_all (render cs)) in Hv; mstep; rewrite take_eq_prefix in Hv.
  case_decide as Hz.
  - apply Hv in Hz as [r Hr]; rewrite (zget_cstr _ _ _ _ Hp Hr); mstep; f_equal.
    destruct cs as [|c cs].
    { rewrite (bool_decide_eq_true_2 ([] `prefix_of` ds)) by apply prefix_nil.
      by rewrite orb_true_r. }
    assert (2 <= length (render (c :: cs)))%nat
      by (pose proof (flat_length _ Hg); cbn [length] in *; simpl render; lia).
    rewrite (bool_decide_eq_false_2 (Z.of_nat _ = 1)), orb_false_r by lia.
    destruct ds as [|d ds].
    { pose proof (f_equal length Hr) as Hl; rewrite length_app in Hl; simpl in *; lia. }
    simpl render in Hr; assert ((r = [] \/ exists t, r = slash :: t) \/
      ~ (r = [] \/ exists t, r = slash :: t)) as [Hb|Hb].
    { destruct r as [|x r]; [by left; left|].
      destruct (decide (x = slash)) as [->|]; [left; right; by exists r|].
      right; intros [?|[t ?]]; simplify_eq. }
    + destruct (flat_prefix (c :: cs) (d :: ds) r) as (es & -> & _); [done..|].
      rewrite (bool_decide_eq_true_2 (_ `prefix_of` _)) by (by exists es).
      by destruct Hb as [->|[t ->]].
    + rewrite (bool_decide_eq_false_2 (_ `prefix_of` _)).
      2: { intros [es Hes]; apply Hb; change (flat (d :: ds) = flat (c :: cs) ++ r) in Hr.
        rewrite Hes, flat_app in Hr; apply app_inv_head in Hr as <-.
        destruct es; [by left|right; unfold flat; simpl; eauto]. }
      destruct r as [|x r]; [exfalso; apply Hb; by left|].
      rewrite !bool_decide_eq_false_2; [done| |by intros ->; apply Hb; right; eexists].
      intros ->; pose proof (goodcomp_flat_no0 _ Hd) as H0; apply H0.
      change (flat (d :: ds) = flat (c :: cs) ++ 0 :: r) in Hr; rewrite Hr; set_solver.
  - f_equal; symmetry; apply bool_decide_eq_false; intros [es ->]; apply Hz, Hv.
    destruct cs as [|c cs]; [destruct (render_head es) as [t Ht]; exists t; simpl; by rewrite Ht|].
    exists (flat es); simpl; apply (flat_app (c :: cs)).
Qed.

(** [covering ms ds k m cs]: slot [k] is mounted at a prefix of the path. *)
Definition covering (ms : list vfs_mount_t) (ds : list (list Z)) k m cs : Prop :=
  ms !! k = Some m /\ mounted_at m cs /\ cs `prefix_of` ds.

Lemma resolve_scan_spec ms i path ds best bl :
  (forall k m, ms !! k = Some m -> m_active m = true -> exists cs, mounted_at m cs) ->
  cstr path (render ds) -> Forall goodcomp ds ->
  exists best' bl', resolve_scan ms i path best bl = Ok (best', bl') /\ bl <= bl' /\
    (forall k m cs, covering ms ds k m cs -> m_path_len m <= bl') /\
    ((best' = best /\ bl' = bl) \/
     exists k m cs, best' = Some (i + k)%nat /\ covering ms ds k m cs /\ bl' = m_path_len m).
Proof.
  intros Hat Hp Hd; revert i best bl Hat; induction ms as [|m ms IH]; intros i best bl Hat.
  { exists best, bl; split_and!; [done|lia|intros k m cs (? & _); done|by left]. }
  assert (forall i best bl, exists best' bl',
    resolve_scan ms i path best bl = Ok (best', bl') /\ bl <= bl' /\
    (forall k m cs, covering ms ds k m cs -> m_path_len m <= bl') /\
    ((best' = best /\ bl' = bl) \/
     exists k m cs, best' = Some (i + k)%nat /\ covering ms ds k m cs /\ bl' = m_path_len m)) as IH'.
  { intros; apply IH; intros k m' Hk; by apply (Hat (S k)). }
  clear IH; cbn [resolve_scan].
  assert (exists b, (if m_active m then mount_covers m path else Ok false) = Ok b /\
    forall cs, (b = true /\ exists cs', mounted_at m cs' /\ cs' `prefix_of` ds) \/
      (b = false /\ ~ (mounted_at m cs /\ cs `prefix_of` ds))) as (b & Eb & Hb).
  { destruct (m_active m) eqn:Ha; [|exists false; split; [done|]; right; split; [done|]].
    - destruct (Hat 0%nat m eq_refl Ha) as [cs Hcs].
      rewrite (mount_covers_spec m cs path ds) by done; eexists; split; [done|].
      intros cs'; case_bool_decide as Hpre; [left; eauto|right; split; [done|]].
      intros [Hcs' Hpre']; by rewrite (mounted_at_inj _ _ _ Hcs Hcs') in Hpre.
    - intros [(? & _) _]; congruence. }
  assert (resolve_scan (m :: ms) i path best bl =
    if b && bool_decide (m_path_len m > bl)
    then resolve_scan ms (S i) path (Some i) (m_path_len m)
    else resolve_scan ms (S i) path best bl) as E.
  { cbn [resolve_scan]; destruct (m_active m); [rewrite Eb; done|by simplify_eq/=]. }
  cbn [resolve_scan] in E; rewrite E; clear E.
  destruct (b && bool_decide (m_path_len m > bl)) eqn:Eg.
  - apply andb_true_iff in Eg as [-> Hgt%bool_decide_eq_true].
    destruct (Hb []) as [(_ & cs & Hcs & Hpre)|[? _]]; [|done].
    destruct (IH' (S i) (Some i) (m_path_len m)) as (best' & bl' & -> & Hle & Hmax & Hres).
    exists best', bl'; split_and!; [done|lia| |right].
    + intros [|k] m' cs' (Hk & ? & ?); [by simplify_eq/=|by eapply (Hmax k); split].
    + destruct Hres as [[-> ->]|(k & m' & cs' & -> & Hc & ->)].
      * exists 0%nat, m, cs; split_and!; [f_equal; lia|by split_and!|done].
      * exists (S k), m', cs'; split_and!; [f_equal; lia|done|done].
  - destruct (IH' (S i) best bl) as (best' & bl' & -> & Hle & Hmax & Hres).
    exists best', bl'; split_and!; [done|lia| |].
    + intros [|k] m' cs' (Hk & Hm' & Hpre); [|by eapply (Hmax k); split].
      simplify_eq/=; destruct (Hb cs') as [(-> & _)|[_ Hn]]; [|by destruct Hn].
      simpl in Eg; apply bool_decide_eq_false in Eg; lia.
    + destruct Hres as [?|(k & m' & cs' & -> & Hc & ->)]; [by left|right].
      exists (S k), m', cs'; split_and!; [f_equal; lia|done|done].
Qed.

(** Among prefixes of one path, the longer text has the longer component list. *)
Lemma prefix_by_length cs cs' ds :
  Forall goodcomp ds -> cs `prefix_of` ds -> cs' `prefix_of` ds ->
  (length (render cs') <= length (render cs))%nat -> cs' `prefix_of` cs.
Proof.
  intros Hd Hc Hc' Hl; destruct (prefix_weak_total _ _ _ Hc Hc') as [[es ->]|?]; [|done].
  destruct es as [|e es]; [by rewrite app_nil_r|exfalso].
  destruct Hc' as [fs ->]; apply Forall_app in Hd as [Hd _]; apply Forall_app in Hd as [Hg He].
  pose proof (flat_length _ He) as Hfe; cbn [length] in Hfe.
  assert (render (cs ++ e :: es) = flat cs ++ flat (e :: es)) as Er
    by (rewrite <- flat_app; by destruct cs).
  rewrite Er, length_app in Hl; destruct cs; simpl in Hl; unfold flat in *; simpl in *; lia.
Qed.

(** C35: [vfs_resolve_mount] sends a normalised path to the mount with the longest
    component prefix of it: it answers NULL exactly when no mount covers the
    path; otherwise the mount it returns covers the path, every other mount that
    covers the path is at a prefix of it, and the relative path is the normal form
    of the remaining components. *)
Theorem vfs_resolve_mount_longest s path ds :
  table_ok s -> cstr path (render ds) -> Forall goodcomp ds ->
  (vfs_resolve_mount path s = Ok None /\ forall k m cs, ~ covering (mounts s) ds k m cs) \/
  exists i rel m cs es, vfs_resolve_mount path s = Ok (Some (i, rel)) /\
    covering (mounts s) ds i m cs /\ ds = cs ++ es /\ cstr rel (render es) /\
    forall k m' cs', covering (mounts s) ds k m' cs' -> cs' `prefix_of` cs.
Proof.
  intros Hok Hp Hd; unfold vfs_resolve_mount.
  destruct (resolve_scan_spec (mounts s) 0 path ds None (-1)) as (best & bl & -> & _ & Hmax & Hres);
    [exact (tbl_at s Hok)|done|done|]; mstep.
  destruct Hres as [[-> ->]|(i & m & cs & -> & Hc & ->)]; [left|right]; cbv iota.
  - split; [done|]; intros k m cs Hc; pose proof (Hmax _ _ _ Hc) as Hle.
    destruct Hc as (_ & (_ & _ & _ & Hl & _) & _); lia.
  - pose proof Hc as (Hi & (Ha & Hpath & Hg & Hl & Hops) & [es ->]); rewrite Nat.add_0_l.
    assert (forall k m' cs', covering (mounts s) (cs ++ es) k m' cs' -> cs' `prefix_of` cs) as Hbest.
    { intros k m' cs' Hc'; pose proof (Hmax _ _ _ Hc') as Hle.
      destruct Hc' as (_ & (_ & _ & _ & Hl' & _) & Hpre); rewrite Hl, Hl' in Hle.
      apply (prefix_by_length cs cs' (cs ++ es)); [done|by exists es|done|lia]. }
    destruct cs as [|c cs].
    + rewrite decide_True by (by rewrite Hl); by exists i, path, m, [], es.
    + pose proof (flat_length _ Hg) as Hfl; cbn [length] in Hfl; rewrite Hl; simpl render.
      rewrite decide_False, Nat2Z.id by lia.
      change (render ((c :: cs) ++ es)) with (flat ((c :: cs) ++ es)) in Hp; rewrite flat_app in Hp.
      pose proof Hp as (t & -> & H0); rewrite <- app_assoc, drop_app_length.
      apply Forall_app in Hd as [_ Hd].
      destruct es as [|e es]; eexists i, _, m, (c :: cs), _; (split; [done|]);
        (split; [done|]); (split; [done|]); (split; [|done]).
      * by apply cstr_lit.
      * by exists t; split; [|apply (goodcomp_flat_no0 (e :: es))].
Qed.

(** ** Mounting and unmounting as operations on a map *)

(** The abstract table: component lists to operation table and private data. *)
Definition view (s : vfs_state) (M : gmap (list (list Z)) (Z * Z)) : Prop :=
  forall cs v, M !! cs = Some v <->
    exists i m, mounts s !! i = Some m /\ mounted_at m cs /\ v = (m_ops m, m_private m).

Lemma find_mounted_spec ms normalized cs i :
  (forall k m, ms !! k = Some m -> m_active m = true -> exists cs, mounted_at m cs) ->
  cstr normalized (render cs) -> Forall goodcomp cs ->
  (find_mounted ms normalized i = Ok None /\
     forall k m, ms !! k = Some m -> ~ mounted_at m cs) \/
  exists k m, find_mounted ms normalized i = Ok (Some (i + k)%nat) /\
    ms !! k = Some m /\ mounted_at m cs.
Proof.
  intros Hat Hn Hg; revert i Hat; induction ms as [|m ms IH]; intros i Hat.
  { left; split; [done|]; by intros k m. }
  assert (forall i, (find_mounted ms normalized i = Ok None /\
     forall k m, ms !! k = Some m -> ~ mounted_at m cs) \/
    exists k m, find_mounted ms normalized i = Ok (Some (i + k)%nat) /\
    ms !! k = Some m /\ mounted_at m cs) as IH'.
  { intros; apply IH; intros k m' Hk; by apply (Hat (S k)). }
  assert (~ mounted_at m cs -> find_mounted (m :: ms) normalized i =
    find_mounted ms normalized (S i)) as Hskip.
  { intros Hn'; cbn [find_mounted]; destruct (m_active m) eqn:Ha; [|done].
    destruct (Hat 0%nat m eq_refl Ha) as [cs' Hm]; pose proof Hm as (_ & Hp & Hg' & _).
    destruct (strcmp_cstr _ _ _ _ Hp Hn) as (v & -> & Hv); mstep.
    rewrite decide_False; [done|]; intros Hz; apply Hv, render_inj in Hz; [|done..].
    by subst. }
  assert (mounted_at m cs \/ ~ mounted_at m cs) as [Hm|Hm].
  { destruct (m_active m) eqn:Ha; [|right; intros (? & _); congruence].
    destruct (Hat 0%nat m eq_refl Ha) as [cs' Hm].
    destruct (decide (cs' = cs)) as [->|Hne]; [by left|right].
    intros Hm'; by pose proof (mounted_at_inj _ _ _ Hm Hm'). }
  - right; exists 0%nat, m; split_and!; [|done|done]; pose proof Hm as (Ha & Hp & _).
    cbn [find_mounted]; rewrite Ha; destruct (strcmp_cstr _ _ _ _ Hp Hn) as (v & -> & Hv); mstep.
    by rewrite decide_True, Nat.add_0_r by tauto.
  - rewrite (Hskip Hm); destruct (IH' (S i)) as [[-> Hno]|(k & m' & -> & Hk & Hm')]; [left|right].
    + split; [done|]; intros [|k] m' Hk; [by simplify_eq/=|by eapply Hno].
    + exists (S k), m'; split_and!; [f_equal; f_equal; lia|done|done].
Qed.

Lemma find_slot_spec ms i :
  match find_slot ms i with
  | Some j => exists k m, j = (i + k)%nat /\ ms !! k = Some m /\ m_active m = false
  | None => forall k m, ms !! k = Some m -> m_active m = true
  end.
Proof.
  revert i; induction ms as [|m ms IH]; intros i; cbn [find_slot]; [by intros k m|].
  destruct (m_active m) eqn:Ha.
  - specialize (IH (S i)); destruct (find_slot ms (S i)) as [j|].
    + destruct IH as (k & m' & -> & ? & ?); exists (S k), m'; split_and!; [lia|done|done].
    + intros [|k] m' Hk; [by simplify_eq/=|by eapply IH].
  - exists 0%nat, m; split_and!; [lia|done|done].
Qed.

Lemma active_count_insert ms i m m' :
  ms !! i = Some m ->
  (active_count (<[i := m']> ms) + Nat.b2n (m_active m) =
   active_count ms + Nat.b2n (m_active m'))%nat.
Proof.
  revert i; induction ms as [|x ms IH]; intros [|i] Hi; simplify_eq/=; unfold active_count in *;
    simpl.
  - destruct (m_active m), (m_active m'); simpl; lia.
  - specialize (IH i Hi); destruct (m_active x); simpl; lia.
Qed.

Lemma active_count_full ms :
  (forall k m, ms !! k = Some m -> m_active m = true) <-> active_count ms = length ms.
Proof.
  unfold active_count; induction ms as [|x ms IH]; [split; [done|by intros _ k m]|].
  cbn [List.filter]; split.
  - intros H; rewrite (H 0%nat x eq_refl); cbn [length]; f_equal; apply IH.
    intros k m Hk; by apply (H (S k)).
  - pose proof (List.filter_length_le m_active ms); destruct (m_active x) eqn:Ha; cbn [length];
      [|lia]; intros [= E] [|k] m Hk; [by simplify_eq/=|]; by eapply IH.
Qed.

Lemma table_set s i m m' n files tr :
  table_ok s -> mounts s !! i = Some m -> slot_ok m' ->
  (m_active m' = true -> exists cs, mounted_at m' cs /\
     forall j mj, j <> i -> mounts s !! j = Some mj -> ~ mounted_at mj cs) ->
  n + Z.of_nat (Nat.b2n (m_active m)) = mount_count s + Z.of_nat (Nat.b2n (m_active m')) ->
  table_ok (mkVfs (<[i := m']> (mounts s)) n files tr).
Proof.
  intros Hok Hi Hs Ha Hn; split; simpl.
  - rewrite length_insert; apply (tbl_len s Hok).
  - intros j mj Hj; apply list_lookup_insert_Some in Hj as [(-> & <- & _)|[_ Hj]]; [done|].
    by eapply (tbl_slot s Hok).
  - intros j mj Hj Haj; apply list_lookup_insert_Some in Hj as [(-> & <- & _)|[_ Hj]].
    + destruct (Ha Haj) as (cs & ? & _); by exists cs.
    + by eapply (tbl_at s Hok).
  - intros j k mj mk cs Hj Hk Hmj Hmk.
    apply list_lookup_insert_Some in Hj as [(-> & <- & _)|[Hnj Hj]];
    apply list_lookup_insert_Some in Hk as [(<- & <- & _)|[Hnk Hk]]; try done.
    + destruct (Ha (proj1 Hmj)) as (cs' & Hcs' & Hno).
      rewrite (mounted_at_inj _ _ _ Hmj Hcs') in Hmk; by destruct (Hno k mk).
    + destruct (Ha (proj1 Hmk)) as (cs' & Hcs' & Hno).
      rewrite (mounted_at_inj _ _ _ Hmk Hcs') in Hmj; by destruct (Hno j mj).
    + by eapply (tbl_inj s Hok).
  - pose proof (active_count_insert _ _ _ m' Hi); rewrite (tbl_count s Hok) in Hn; lia.
Qed.

Section View.
Context (s : vfs_state) (M : gmap (list (list Z)) (Z * Z)) (i : nat) (m m' : vfs_mount_t).
Hypothesis Hok : table_ok s.
Hypothesis Hview : view s M.
Hypothesis Hi : mounts s !! i = Some m.

Lemma view_insert n files tr cs :
  (m_active m = false \/ mounted_at m cs) -> mounted_at m' cs ->
  (forall j mj, j <> i -> mounts s !! j = Some mj -> ~ mounted_at mj cs) ->
  view (mkVfs (<[i := m']> (mounts s)) n files tr)
    (<[cs := (m_ops m', m_private m')]> M).
Proof.
  intros Hm Hm' Hno cs1 v; simpl; destruct (decide (cs1 = cs)) as [->|Hne].
  - rewrite lookup_insert_eq; split.
    + intros [= <-]; exists i, m'; split_and!; [|done|done].
      apply list_lookup_insert_eq; by eapply lookup_lt_Some.
    + intros (j & mj & Hj & Hmj & ->).
      apply list_lookup_insert_Some in Hj as [(-> & <- & _)|[Hnj Hj]]; [done|].
      exfalso; by eapply (Hno j).
  - rewrite lookup_insert_ne, (Hview cs1 v) by done; split; intros (j & mj & Hj & Hmj & ->).
    + exists j, mj; split_and!; [|done|done]; rewrite list_lookup_insert_ne; [done|].
      intros ->; simplify_eq; destruct Hm as [Ha|Hm]; [by destruct Hmj; congruence|].
      by pose proof (mounted_at_inj _ _ _ Hm Hmj).
    + apply list_lookup_insert_Some in Hj as [(-> & <- & _)|[Hnj Hj]].
      * by pose proof (mounted_at_inj _ _ _ Hm' Hmj).
      * by exists j, mj.
Qed.

Lemma view_delete n files tr cs :
  mounted_at m cs -> m_active m' = false ->
  view (mkVfs (<[i := m']> (mounts s)) n files tr) (delete cs M).
Proof.
  intros Hm Ha cs1 v; simpl; destruct (decide (cs1 = cs)) as [->|Hne].
  - rewrite lookup_delete_eq; split; [done|]; intros (j & mj & Hj & Hmj & ->).
    apply list_lookup_insert_Some in Hj as [(-> & <- & _)|[Hnj Hj]].
    + destruct Hmj; congruence.
    + by pose proof (tbl_inj s Hok _ _ _ _ _ Hi Hj Hm Hmj).
  - rewrite lookup_delete_ne, (Hview cs1 v) by done; split; intros (j & mj & Hj & Hmj & ->).
    + exists j, mj; split_and!; [|done|done]; rewrite list_lookup_insert_ne; [done|].
      intros ->; simplify_eq; by pose proof (mounted_at_inj _ _ _ Hm Hmj).
    + apply list_lookup_insert_Some in Hj as [(-> & <- & _)|[Hnj Hj]]; [destruct Hmj; congruence|].
      by exists j, mj.
Qed.
End View.

(** A bounded copy keeps the buffer's size and its byte [n]. *)
Lemma strncpy_keep dest src b n :
  cstr src b -> (n < length dest)%nat ->
  exists d, strncpy dest src n = Ok d /\ length d = length dest /\ d !! n = dest !! n /\
    ((length b <= n)%nat -> dest !! n = Some 0 -> cstr d b).
Proof.
  intros Hs Hn; rewrite (strncpy_eq dest src b n) by (done || lia); eexists; split; [done|].
  assert (length (take n b ++ repeat 0 (n - length b)) = n) as Hl
    by (rewrite length_app, length_take, repeat_length; lia).
  rewrite app_assoc; split_and!.
  - rewrite length_app, Hl, length_drop; lia.
  - rewrite lookup_app_r, Hl, Nat.sub_diag, lookup_drop by lia; f_equal; lia.
  - intros Hb H0; rewrite take_ge, <- app_assoc by lia; destruct Hs as (t & -> & Hb0).
    destruct (n - length b)%nat as [|k] eqn:Ek; simpl.
    + rewrite (drop_S _ _ _ H0); by eexists.
    + by eexists.
Qed.

Definition strings_ok (o : option (list Z)) : Prop :=
  forall s, o = Some s -> exists b, cstr s b.

Lemma strncpy_opt_keep dest src n :
  strings_ok src -> (n < length dest)%nat ->
  exists d, strncpy_opt dest src n = Ok d /\ length d = length dest /\ d !! n = dest !! n.
Proof.
  intros Hs Hn; destruct src as [s|]; simpl; [|by exists dest].
  destruct (Hs s eq_refl) as [b Hb].
  destruct (strncpy_keep dest s b n) as (d & ? & ? & ? & _); [done..|]; by exists d.
Qed.

Lemma strncpy_or_clear_keep dest src n :
  strings_ok src -> (0 < n < length dest)%nat ->
  exists d, strncpy_or_clear dest src n = Ok d /\ length d = length dest /\ d !! n = dest !! n.
Proof.
  intros Hs Hn; destruct src as [s|]; simpl.
  - destruct (Hs s eq_refl) as [b Hb].
    destruct (strncpy_keep dest s b n) as (d & ? & ? & ? & _); [done|lia|]; by exists d.
  - rewrite zset_ok by lia; eexists; split; [done|].
    rewrite length_insert; split; [done|]; apply list_lookup_insert_ne; lia.
Qed.

Section Mount.
Context (normalized : list Z) (cs : list (list Z)).
Context (device fs_type : option (list Z)) (ops fs_private : Z).
Hypothesis Hnorm : cstr normalized (render cs).
Hypothesis Hgood : Forall goodcomp cs.
Hypothesis Hdev : strings_ok device.
Hypothesis Htype : strings_ok fs_type.
Hypothesis Hops : ops <> 0.

Lemma update_mount_spec m :
  slot_ok m -> mounted_at m cs ->
  exists m', update_mount m normalized device fs_type ops fs_private = Ok m' /\
    slot_ok m' /\ mounted_at m' cs /\ m_ops m' = ops /\ m_private m' = fs_private.
Proof.
  intros (Hp & Hp0 & Hd & Hd0 & Ht & Ht0) (Ha & Hpath & _).
  unfold update_mount.
  destruct (strncpy_opt_keep (m_device m) device 31) as (d & -> & Ed & Ed0); [done|lia|].
  destruct (strncpy_opt_keep (m_fs_type m) fs_type 15) as (t & -> & Et & Et0); [done|lia|].
  mstep; rewrite (strlen_cstr _ _ Hnorm); mstep; eexists; split; [done|].
  split; [|split; [|done]].
  - unfold slot_ok; simpl; split_and!; congruence.
  - split_and!; done.
Qed.

Lemma fill_mount_spec m :
  slot_ok m -> (length (render cs) <= 255)%nat ->
  exists m', fill_mount m normalized device fs_type ops fs_private = Ok m' /\
    slot_ok m' /\ mounted_at m' cs /\ m_ops m' = ops /\ m_private m' = fs_private.
Proof.
  intros (Hp & Hp0 & Hd & Hd0 & Ht & Ht0) Hlen; unfold fill_mount.
  destruct (strncpy_keep (m_path m) normalized (render cs) 255) as (p & -> & Ep & Ep0 & Hpc);
    [done|lia|].
  destruct (strncpy_or_clear_keep (m_device m) device 31) as (d & -> & Ed & Ed0); [done|lia|].
  destruct (strncpy_or_clear_keep (m_fs_type m) fs_type 15) as (t & -> & Et & Et0); [done|lia|].
  mstep; rewrite (strlen_cstr _ _ Hnorm); mstep; eexists; split; [done|].
  split; [|split; [|done]].
  - unfold slot_ok; simpl; split_and!; congruence.
  - split_and!; try done; by apply Hpc.
Qed.
End Mount.

Lemma normalize_mount_path mp b scratch :
  length scratch = Z.to_nat VFS_MAX_PATH -> cstr mp b -> (length b + 3 <= 1023)%nat ->
  exists normalized, vfs_normalize_path (Some [slash; 0]) (Some mp) scratch = Ok normalized /\
    cstr normalized (render (resolve [] b)) /\ Forall goodcomp (resolve [] b).
Proof.
  intros Hs Hmp Hb.
  destruct (normalize_exact [slash; 0] [] mp b scratch) as (n & ? & _ & Hc & Hg);
    [done|by apply cstr_lit|done|done|simpl; lia|].
  assert (base_of [] b = []) as Eb by (unfold base_of; by destruct (absolute b)).
  rewrite Eb in Hc, Hg; by exists n.
Qed.

Lemma mount_insert s M mp b device fs_type ops fs_private scratch :
  table_ok s -> view s M -> length scratch = Z.to_nat VFS_MAX_PATH ->
  cstr mp b -> (length b + 3 <= 1023)%nat -> (length (render (resolve [] b)) <= 255)%nat ->
  ops <> 0 -> strings_ok device -> strings_ok fs_type ->
  exists r s', vfs_mount (Some mp) device fs_type ops fs_private scratch s = Ok (r, s') /\
    table_ok s' /\
    (if r then view s' (<[resolve [] b := (ops, fs_private)]> M)
     else s' = s /\ M !! resolve [] b = None /\ mount_count s = Z.of_nat VFS_MAX_MOUNTS).
Proof.
  intros Hok Hview Hs Hmp Hb Hlen Hops Hd Ht; unfold vfs_mount; rewrite decide_False by done.
  destruct (normalize_mount_path mp b scratch Hs Hmp Hb) as (nz & -> & Hn & Hg); mstep.
  set (cs := resolve [] b) in *.
  destruct (find_mounted_spec (mounts s) nz cs 0) as [[-> Hno]|(i & m & -> & Hi & Hm)];
    [exact (tbl_at s Hok)|done|done| |]; mstep.
  - pose proof (find_slot_spec (mounts s) 0) as Hfs; destruct (find_slot (mounts s) 0) as [j|].
    + destruct Hfs as (k & m & -> & Hk & Ha); rewrite Nat.add_0_l, Hk; cbn [of_opt]; mstep.
      destruct (fill_mount_spec nz cs device fs_type ops fs_private Hn Hg Hd Ht Hops m)
        as (m' & -> & Hs' & Hm' & <- & <-); [by eapply (tbl_slot s Hok)|done|]; mstep.
      eexists true, _; split; [done|]; pose proof Hm' as (Ha' & _); split.
      * eapply table_set; [done..| |rewrite Ha, Ha'; simpl; lia].
        intros _; exists cs; split; [done|]; intros j mj _ Hj; by eapply Hno.
      * eapply view_insert; [done|done|by left|done|]; intros j mj _ Hj; by eapply Hno.
    + eexists false, s; split; [done|]; split; [done|]; split; [done|]; split.
      * destruct (M !! cs) as [v|] eqn:Ev; [|done].
        apply Hview in Ev as (j & mj & Hj & Hmj & _); by apply Hno in Hj.
      * apply active_count_full in Hfs; rewrite (tbl_count s Hok), Hfs; by rewrite (tbl_len s Hok).
  - rewrite Nat.add_0_l, Hi; cbn [of_opt]; mstep.
    destruct (update_mount_spec nz cs device fs_type ops fs_private Hn Hg Hd Ht Hops m)
      as (m' & -> & Hs' & Hm' & <- & <-); [by eapply (tbl_slot s Hok)|done|]; mstep.
    assert (forall j mj, j <> i -> mounts s !! j = Some mj -> ~ mounted_at mj cs) as Hother.
    { intros j mj Hne Hj Hmj; by pose proof (tbl_inj s Hok _ _ _ _ _ Hj Hi Hmj Hm). }
    eexists true, _; split; [done|]; pose proof Hm as (Ha & _); pose proof Hm' as (Ha' & _); split.
    + eapply table_set; [done..|intros _; by exists cs|rewrite Ha, Ha'; simpl; lia].
    + eapply view_insert; [done|done|by right|done|done].
Qed.

(** [vfs_mount] is insertion into the map from mount points to file systems.
    On a consistent table, with a path whose normal form fits an entry, the call
    keeps the table consistent; it mounts at the normalised path, replacing what
    was mounted there, unless the path is new and all slots are taken, in which
    case it answers false and changes nothing. *)
Theorem vfs_mount_insert s M mp b device fs_type ops fs_private scratch :
  table_ok s -> view s M -> length scratch = Z.to_nat VFS_MAX_PATH ->
  cstr mp b -> (length b + 3 <= 1023)%nat -> (length (render (resolve [] b)) <= 255)%nat ->
  ops <> 0 -> strings_ok device -> strings_ok fs_type ->
  exists r s', vfs_mount (Some mp) device fs_type ops fs_private scratch s = Ok (r, s') /\
    table_ok s' /\
    (if r then view s' (<[resolve [] b := (ops, fs_private)]> M)
     else s' = s /\ M !! resolve [] b = None /\ mount_count s = Z.of_nat VFS_MAX_MOUNTS).
Proof. apply mount_insert. Qed.

(** ** Unmounting *)

(** The device name a path stands for: what follows "/dev/", or all of it. *)
Definition dev_name (b : list Z) : list Z :=
  if decide (take 5 b = [47; 100; 101; 118; 47]) then drop 5 b else b.

(** The entry is the one the path names, by mount point or by device. *)
Definition named (m : vfs_mount_t) (b : list Z) : Prop :=
  mounted_at m (resolve [] b) \/
  (m_active m = true /\ dev_name b <> [] /\ cstr (m_device m) (dev_name b)).

Lemma dev_target_cstr mp b :
  cstr mp b -> exists c, strncmp mp dev_prefix 5 = Ok c /\
    cstr (if decide (c = 0) then drop 5 mp else mp) (dev_name b).
Proof.
  intros Hmp; destruct (strncmp_take mp b dev_prefix [47; 100; 101; 118; 47] 5 Hmp)
    as (c & -> & Hc); [by apply cstr_lit|].
  exists c; split; [done|]; change (take 5 [47; 100; 101; 118; 47]) with [47; 100; 101; 118; 47] in Hc.
  unfold dev_name; destruct (decide (c = 0)) as [H|H]; [rewrite decide_True by tauto|
    by rewrite decide_False by tauto].
  pose proof (proj1 Hc H) as Ht; destruct Hmp as (t & -> & H0); exists t.
  rewrite drop_app_le by (rewrite <- (take_drop 5 b), Ht; simpl; lia); split; [done|].
  intros Hin; apply H0; rewrite <- (take_drop 5 b); apply elem_of_app; by right.
Qed.

Lemma umount_matches_spec m csm nz b target :
  slot_ok m -> mounted_at m csm -> cstr nz (render (resolve [] b)) ->
  Forall goodcomp (resolve [] b) -> cstr target (dev_name b) ->
  exists r : bool, umount_matches m nz target = Ok r /\ (r = true <-> named m b).
Proof.
  intros (_ & _ & Hdl & Hd0 & _) Hm Hn Hg Ht; pose proof Hm as (Ha & Hp & Hgm & _).
  unfold umount_matches, named; destruct (strcmp_cstr _ _ _ _ Hp Hn) as (v & -> & Hv); mstep.
  case_decide as Hz.
  { exists true; split; [done|]; split; [|done]; intros _; left.
    by apply Hv, render_inj in Hz as <-. }
  assert (~ mounted_at m (resolve [] b)) as Hnm
    by (intros H; apply Hz, Hv; by rewrite (mounted_at_inj _ _ _ Hm H)).
  destruct (dev_name b) as [|d0 dn] eqn:Ed.
  { apply cstr_nil_inv in Ht as [t ->]; exists false; split; [done|]; split; [done|].
    by intros [?|(_ & ? & _)]. }
  pose proof Ht as Ht'; apply cstr_cons_inv in Ht as (t' & -> & Hd & _).
  change (zget (d0 :: t') 0) with (Ok d0); mstep; rewrite decide_False by done.
  destruct (cstr_exists _ _ Hd0) as [db Hdb]; destruct db as [|e db].
  { pose proof Hdb as Hdb'; apply cstr_nil_inv in Hdb' as [u Hu]; rewrite Hu in Hdb |- *.
    exists false; split; [done|]; split; [done|]; intros [?|(_ & _ & Hc)]; [done|].
    by pose proof (cstr_inj _ _ _ Hdb Hc). }
  pose proof Hdb as Hdb'; apply cstr_cons_inv in Hdb as (u & Hu & He & _); rewrite Hu in Hdb' |- *.
  change (zget (e :: u) 0) with (Ok e); mstep; rewrite decide_False by done.
  destruct (strcmp_cstr _ _ _ _ Hdb' Ht') as (w & -> & Hw); mstep.
  eexists; split; [done|]; rewrite bool_decide_eq_true, Hw; split.
  - intros E; right; by rewrite <- E.
  - intros [?|(_ & _ & Hc)]; [done|]; by eapply cstr_inj.
Qed.

Section Umount.
Variable has_unmount : Z -> bool.

(** The state after the entry [m] in slot [i] is dropped. *)
Definition umounted (s : vfs_state) (i : nat) (m : vfs_mount_t) : vfs_state :=
  mkVfs (<[i := clear_mount m]> (mounts s)) (mount_count s - 1) (open_files s)
    (trace s ++ if has_unmount (m_ops m) then [CallUnmount (m_ops m) (m_private m)] else []).

Lemma umount_scan_spec s ms i nz target b :
  (forall k m, ms !! k = Some m -> slot_ok m /\
     (m_active m = true -> exists cs, mounted_at m cs)) ->
  cstr nz (render (resolve [] b)) -> Forall goodcomp (resolve [] b) ->
  cstr target (dev_name b) ->
  (umount_scan has_unmount ms i nz target s = Ok (false, s) /\
     forall k m, ms !! k = Some m -> ~ named m b) \/
  exists k m, ms !! k = Some m /\ named m b /\
    umount_scan has_unmount ms i nz target s =
      Ok (if existsb (file_on (i + k)) (open_files s) then (false, s)
          else (true, umounted s (i + k) m)).
Proof.
  intros Hms Hn Hg Ht; revert i Hms; induction ms as [|m ms IH]; intros i Hms.
  { left; split; [done|]; by intros k m. }
  assert (~ named m b -> umount_scan has_unmount (m :: ms) i nz target s =
    umount_scan has_unmount ms (S i) nz target s) as Hskip.
  { intros Hnn; cbn [umount_scan]; destruct (m_active m) eqn:Ha; [|done].
    destruct (Hms 0%nat m eq_refl) as [Hs [cs Hm]%(fun f => f Ha)].
    destruct (umount_matches_spec m cs nz b target) as (r & -> & Hr); [done..|]; mstep.
    destruct r; [exfalso; by apply Hnn, Hr|done]. }
  assert (named m b \/ ~ named m b) as [Hm|Hm].
  { destruct (m_active m) eqn:Ha; [|right; intros [(? & _)|(? & _)]; congruence].
    destruct (Hms 0%nat m eq_refl) as [Hs [cs Hm]%(fun f => f Ha)].
    destruct (umount_matches_spec m cs nz b target) as (r & _ & Hr); [done..|].
    destruct r; [left; by apply Hr|right; intros H; by apply Hr in H]. }
  - right; exists 0%nat, m; split; [done|]; split; [done|]; rewrite Nat.add_0_r.
    assert (m_active m = true) as Ha by (by destruct Hm as [(? & _)|(? & _)]).
    destruct (Hms 0%nat m eq_refl) as [Hs [cs Hmc]%(fun f => f Ha)].
    destruct (umount_matches_spec m cs nz b target) as (r & Er & Hr); [done..|].
    cbn [umount_scan]; rewrite Ha, Er; mstep; rewrite (proj2 Hr Hm).
    destruct (existsb (file_on i) (open_files s)); [done|]; pose proof Hmc as (_ & _ & _ & _ & Ho).
    unfold umounted; by rewrite (proj2 (Z.eqb_neq _ _) Ho).
  - rewrite (Hskip Hm); destruct (IH (S i)) as [[-> Hno]|(k & m' & Hk & Hm' & ->)].
    + intros k m' Hk; by apply (Hms (S k)).
    + left; split; [done|]; intros [|k] m' Hk; [by simplify_eq/=|by eapply Hno].
    + right; exists (S k), m'; split; [done|]; split; [done|].
      by replace (i + S k)%nat with (S i + k)%nat by lia.
Qed.

(** [vfs_umount] removes at most the named mount.  On a consistent table the
    call keeps the table consistent; it answers true exactly when it found a mount
    named by the path (mount point or device) without valid open files, and then
    that mount, and no other, leaves the map and its [unmount] operation is called;
    otherwise nothing changes. *)
Theorem vfs_umount_delete s M mp b scratch :
  table_ok s -> view s M -> length scratch = Z.to_nat VFS_MAX_PATH ->
  cstr mp b -> (length b + 3 <= 1023)%nat ->
  (vfs_umount has_unmount (Some mp) scratch s = Ok (false, s) /\
     ((forall k m, mounts s !! k = Some m -> ~ named m b) \/
      exists i m, mounts s !! i = Some m /\ named m b /\
        existsb (file_on i) (open_files s) = true)) \/
  exists i m cs, vfs_umount has_unmount (Some mp) scratch s = Ok (true, umounted s i m) /\
    mounts s !! i = Some m /\ named m b /\ mounted_at m cs /\
    existsb (file_on i) (open_files s) = false /\
    table_ok (umounted s i m) /\ view (umounted s i m) (delete cs M).
Proof.
  intros Hok Hview Hs Hmp Hb; unfold vfs_umount.
  destruct (normalize_mount_path mp b scratch Hs Hmp Hb) as (nz & -> & Hn & Hg); mstep.
  destruct (dev_target_cstr mp b Hmp) as (c & -> & Ht); mstep.
  set (target := if decide (c = 0) then _ else _) in *.
  destruct (umount_scan_spec s (mounts s) 0 nz target b) as [[-> Hno]|(i & m & Hi & Hm & ->)];
    [|done|done|exact Ht| |].
  - intros k m Hk; split; [by eapply (tbl_slot s Hok)|by eapply (tbl_at s Hok)].
  - left; split; [done|by left].
  - rewrite Nat.add_0_l; destruct (existsb (file_on i) (open_files s)) eqn:Eo.
    + left; split; [done|right; by exists i, m].
    + right; assert (m_active m = true) as Ha by (by destruct Hm as [(? & _)|(? & _)]).
      destruct (tbl_at s Hok i m Hi Ha) as [cs Hcs]; exists i, m, cs.
      split_and!; [done..| |]; unfold umounted.
      * eapply table_set; [done|done| |done|rewrite Ha; simpl; lia].
        exact (tbl_slot s Hok i m Hi).
      * by eapply view_delete.
Qed.
End Umount.

(** ** A concrete table *)

Lemma slot_ok_mount0 : slot_ok mount0.
Proof. done. Qed.

Lemma mounts_state0 i m : mounts vfs_state0 !! i = Some m -> m = mount0.
Proof.
  intros Hi; eapply repeat_spec, list_elem_of_In, list_elem_of_lookup_2; exact Hi.
Qed.

Lemma table_ok_state0 : table_ok vfs_state0.
Proof.
  pose proof mounts_state0 as H0.
  split.
  - apply repeat_length.
  - by intros i m ->%H0.
  - by intros i m ->%H0.
  - intros i j m m' cs ->%H0 _ (? & _); done.
  - done.
Qed.

Lemma view_state0 : view vfs_state0 ∅.
Proof.
  intros cs v; rewrite lookup_empty; split; [done|]; intros (i & m & Hi & (Ha & _) & _).
  apply mounts_state0 in Hi as ->; done.
Qed.

(** The first call after [vfs_init]: a file system on "//mnt". *)
Definition demo_path : list Z := [47; 47; 109; 110; 116; 0].
Definition demo_comps : list (list Z) := [[109; 110; 116]].
Definition demo_scratch : list Z := repeat 170 (Z.to_nat VFS_MAX_PATH).
Definition demo_device : list Z := [115; 100; 97; 0].
Definition demo_table : vfs_state :=
  match vfs_mount (Some demo_path) (Some demo_device) None 7 9 demo_scratch vfs_state0 with
  | Ok (_, s) => s
  | _ => vfs_state0
  end.

Lemma demo_strings : strings_ok (Some demo_device) /\ strings_ok None.
Proof. split; [|done]; intros s [= <-]; exists [115; 100; 97]; by apply cstr_lit. Qed.

Lemma demo_table_ok : table_ok demo_table /\ view demo_table {[demo_comps := (7, 9)]}.
Proof.
  destruct (mount_insert vfs_state0 ∅ demo_path [47; 47; 109; 110; 116] (Some demo_device) None
    7 9 demo_scratch) as (r & s' & E & Hok & Hr).
  - exact table_ok_state0.
  - exact view_state0.
  - apply repeat_length.
  - by apply cstr_lit.
  - simpl; lia.
  - vm_compute; lia.
  - done.
  - apply demo_strings.
  - done.
  - unfold demo_table; rewrite E; destruct r; [|by destruct Hr as (_ & _ & ?)].
    split; [done|]; exact Hr.
Qed.

Lemma vfs_mount_insert_witness :
  exists r s', vfs_mount (Some demo_path) None None 8 1 demo_scratch demo_table = Ok (r, s') /\
    table_ok s' /\
    (if r then view s' (<[demo_comps := (8, 1)]> {[demo_comps := (7, 9)]})
     else s' = demo_table /\ ({[demo_comps := (7, 9)]} : gmap (list (list Z)) (Z * Z)) !! demo_comps = None /\
       mount_count demo_table = Z.of_nat VFS_MAX_MOUNTS).
Proof.
  apply (vfs_mount_insert demo_table {[demo_comps := (7, 9)]} demo_path [47; 47; 109; 110; 116]).
  - apply demo_table_ok.
  - apply demo_table_ok.
  - apply repeat_length.
  - by apply cstr_lit.
  - simpl; lia.
  - vm_compute; lia.
  - done.
  - done.
  - done.
Defined.

(** "/mnt/a" is below the mount. *)
Lemma vfs_resolve_mount_longest_witness :
  exists i rel, vfs_resolve_mount [47; 109; 110; 116; 47; 97; 0] demo_table = Ok (Some (i, rel)) /\
    cstr rel [47; 97].
Proof.
  destruct (vfs_resolve_mount_longest demo_table [47; 109; 110; 116; 47; 97; 0]
    [[109; 110; 116]; [97]]) as [[_ Hno]|(i & rel & m & cs & es & E & Hc & Eds & Hrel & Hmax)].
  - apply demo_table_ok.
  - by apply cstr_lit.
  - by repeat (constructor; [apply goodcomp_lit|]).
  - exfalso; destruct demo_table_ok as [_ Hv].
    destruct (proj1 (Hv demo_comps (7, 9)) (lookup_singleton_eq _ _)) as (k & m & Hk & Hm & _).
    apply (Hno k m demo_comps); split_and!; [done|done|by exists [[97]]].
  - exists i, rel; split; [done|]; destruct Hc as (Hi & Hm & _).
    destruct demo_table_ok as [_ Hv].
    assert (is_Some (({[demo_comps := (7, 9)]} : gmap (list (list Z)) (Z * Z)) !! cs)) as [v Hl].
    { eexists; apply Hv; exists i, m; split_and!; [done|done|done]. }
    apply lookup_singleton_Some in Hl as [<- _].
    change [[109; 110; 116]; [97]] with (demo_comps ++ [[97]]) in Eds.
    by apply app_inv_head in Eds as <-.
Defined.

(** Unmounting by the device name "/dev/sda". *)
Lemma vfs_umount_delete_witness :
  exists s', vfs_umount (fun _ => true) (Some [47; 100; 101; 118; 47; 115; 100; 97; 0])
      demo_scratch demo_table = Ok (true, s') /\ table_ok s' /\ mount_count s' = 0.
Proof.
  destruct (vfs_umount_delete (fun _ => true) demo_table {[demo_comps := (7, 9)]}
    [47; 100; 101; 118; 47; 115; 100; 97; 0] [47; 100; 101; 118; 47; 115; 100; 97] demo_scratch)
    as [[E _]|(i & m & cs & E & _ & _ & _ & _ & Hok & _)].
  - apply demo_table_ok.
  - apply demo_table_ok.
  - apply repeat_length.
  - by apply cstr_lit.
  - simpl; lia.
  - exfalso; vm_compute in E; discriminate.
  - exists (umounted (fun _ => true) demo_table i m); split_and!; [exact E|exact Hok|].
    by vm_compute.
Defined.
