(* ===== verification/Lz4.v ===== *)
(** * fs/lz4.c: LZ4 decompression of the boot archive

    Pointers are indices into the source and destination buffers; an access
    outside a buffer is a fault.  [int] arithmetic wraps.  The abstract side is
    the block format as a list of sequences: literals, then a copy of earlier
    output. *)

From S2P Require Import Prelude Kutils.
From stdpp Require Import base tactics option list numbers sets.
From Stdlib Require Import ZArith Lia.

Local Open Scope Z_scope.

(** [do { if (ip >= ip_limit) return err; s = *ip++; len += s; } while (s == 255);]
    [None] is the return with an error. *)
Fixpoint ext_len (fuel : nat) (src : list Z) (ip ip_limit len : Z)
  : res (option (Z * Z)) :=
  match fuel with
  | O => NoFuel
  | S f =>
      if decide (ip >= ip_limit) then Ok None
      else
        s ← zget src ip;
        let len := i32 (len + s) in
        if decide (s = 255) then ext_len f src (ip + 1) ip_limit len
        else Ok (Some (len, ip + 1))
  end.

(** The length field of a token: four bits, extended when they are all set. *)
Definition token_len (fuel : nat) (src : list Z) (ip ip_limit nibble : Z)
  : res (option (Z * Z)) :=
  if decide (nibble = 15) then ext_len fuel src ip ip_limit nibble
  else Ok (Some (nibble, ip)).

Inductive lz4_stop :=
  | Err (code : Z)
  | Done (op : Z).

(** The match part of one iteration. *)
Definition lz4_match (fuel : nat) (src : list Z) (ip ip_limit : Z) (dst : list Z)
    (base op op_limit token : Z) : res (list Z * (lz4_stop + Z * Z)) :=
  if decide (ip + 2 > ip_limit) then Ok (dst, inl (Err (-3)))
  else
    b0 ← zget src ip;
    b1 ← zget src (ip + 1);
    let offset := Z.lor b0 (Z.shiftl b1 8) in
    let ip := ip + 2 in
    if decide (offset = 0) then Ok (dst, inl (Err (-4)))
    else
      o ← token_len fuel src ip ip_limit (Z.land token 15);
      match o with
      | None => Ok (dst, inl (Err (-5)))
      | Some (match_len, ip) =>
          let match_len := i32 (match_len + 4) in
          let ref := op - offset in
          if decide (ref < base \/ op + match_len > op_limit)
          then Ok (dst, inl (Err (-6)))
          else
            dst ← move_up dst op ref 0 (Z.to_nat match_len);
            Ok (dst, inr (ip, op + Z.max 0 match_len))
      end.

(** One iteration of the loop on sequences: the destination, and either a stop
    or the new [ip] and [op]. *)
Definition lz4_sequence (fuel : nat) (src : list Z) (ip ip_limit : Z) (dst : list Z)
    (base op op_limit : Z) : res (list Z * (lz4_stop + Z * Z)) :=
  token ← zget src ip;
  o ← token_len fuel src (ip + 1) ip_limit (Z.shiftr token 4);
  match o with
  | None => Ok (dst, inl (Err (-1)))
  | Some (literal_len, ip) =>
      if decide (literal_len > 0 /\
                 (op + literal_len > op_limit \/ ip + literal_len > ip_limit))
      then Ok (dst, inl (Err (-2)))
      else
        let n := Z.to_nat literal_len in
        bytes ← read_bytes src ip n;
        dst ← write_bytes dst op bytes;
        let op := op + Z.of_nat n in
        let ip := ip + Z.of_nat n in
        if decide (ip >= ip_limit) then Ok (dst, inl (Done op))
        else lz4_match fuel src ip ip_limit dst base op op_limit token
  end.

Fixpoint lz4_block_loop (fuel : nat) (src : list Z) (ip ip_limit : Z) (dst : list Z)
    (base op op_limit : Z) : res (list Z * Z) :=
  match fuel with
  | O => NoFuel
  | S f =>
      if decide (ip < ip_limit) then
        '(dst, st) ← lz4_sequence fuel src ip ip_limit dst base op op_limit;
        match st with
        | inl (Err code) => Ok (dst, code)
        | inl (Done op) => Ok (dst, op - base)
        | inr (ip, op) => lz4_block_loop f src ip ip_limit dst base op op_limit
        end
      else Ok (dst, op - base)
  end.

(** [lz4_decompress_block(src + sp, src_len, dst + dp, dst_len)]: the
    destination buffer afterwards and the return value. *)
Definition lz4_decompress_block (src : list Z) (sp src_len : Z) (dst : list Z)
    (dp dst_len : Z) : res (list Z * Z) :=
  lz4_block_loop (Z.to_nat src_len + 2) src sp (sp + src_len) dst dp dp (dp + dst_len).

(** A 32-bit little-endian word; the [int] expression of the source is then
    converted to [uint32_t]. *)
Definition read32 (src : list Z) (pos : Z) : res Z :=
  b0 ← zget src pos; b1 ← zget src (pos + 1);
  b2 ← zget src (pos + 2); b3 ← zget src (pos + 3);
  Ok (u32 (Z.lor (Z.lor (Z.lor b0 (Z.shiftl b1 8)) (Z.shiftl b2 16)) (i32 (Z.shiftl b3 24)))).

(** The loop on the blocks of a frame. *)
Fixpoint lz4_frame_loop (fuel : nat) (src : list Z) (src_len : Z) (block_checksum : bool)
    (dst : list Z) (dst_len pos dst_pos : Z) : res (list Z * Z) :=
  match fuel with
  | O => NoFuel
  | S f =>
      if decide (i32 (pos + 4) <= src_len) then
        block_size ← read32 src pos;
        let pos := pos + 4 in
        if decide (block_size = 0) then Ok (dst, dst_pos)
        else
          let uncompressed := bool_decide (Z.land block_size 0x80000000 <> 0) in
          let block_size := Z.land block_size 0x7FFFFFFF in
          if decide (i32 (pos + block_size) > src_len) then Ok (dst, -16)
          else
            '(dst, st) ←
              (if uncompressed then
                 if decide (i32 (dst_pos + block_size) > dst_len) then Ok (dst, inl (-17))
                 else
                   bytes ← read_bytes src pos (Z.to_nat block_size);
                   dst ← write_bytes dst dst_pos bytes;
                   Ok (dst, inr (i32 (dst_pos + block_size)))
               else
                 '(dst, decomp_bytes) ← lz4_decompress_block src pos block_size dst dst_pos
                                           (dst_len - dst_pos);
                 if decide (decomp_bytes < 0) then Ok (dst, inl decomp_bytes)
                 else Ok (dst, inr (dst_pos + decomp_bytes)));
            match st with
            | inl code => Ok (dst, code)
            | inr dst_pos =>
                let pos := i32 (pos + block_size) in
                if block_checksum then
                  if decide (i32 (pos + 4) > src_len) then Ok (dst, -18)
                  else lz4_frame_loop f src src_len block_checksum dst dst_len (pos + 4) dst_pos
                else lz4_frame_loop f src src_len block_checksum dst dst_len pos dst_pos
            end
      else Ok (dst, dst_pos)
  end.

Definition lz4_decompress_frame (src : list Z) (src_len : Z) (dst : list Z) (dst_len : Z)
  : res (list Z * Z) :=
  if decide (src_len < 7) then Ok (dst, -10)
  else
    magic ← read32 src 0;
    if decide (magic <> 0x184D2204) then Ok (dst, -11)
    else
      flg ← zget src 4;
      _ ← zget src 5;
      let pos := 6 in
      if decide (Z.shiftr flg 6 <> 1) then Ok (dst, -12)
      else
        let block_checksum := Z.testbit flg 4 in
        let content_size_flag := Z.testbit flg 3 in
        let dict_id_flag := Z.testbit flg 0 in
        if content_size_flag && bool_decide (pos + 8 > src_len) then Ok (dst, -13)
        else
          let pos := if content_size_flag then pos + 8 else pos in
          if dict_id_flag && bool_decide (pos + 4 > src_len) then Ok (dst, -14)
          else
            let pos := if dict_id_flag then pos + 4 else pos in
            if decide (pos + 1 > src_len) then Ok (dst, -15)
            else lz4_frame_loop (Z.to_nat src_len + 1) src src_len block_checksum
                   dst dst_len (pos + 1) 0.

(** ** Memory safety of a block *)

(** [within dst dst' lo hi]: same size, and only bytes in [lo .. hi - 1] differ. *)
Definition within (dst dst' : list Z) (lo hi : Z) : Prop :=
  length dst' = length dst /\
  forall k : nat, Z.of_nat k < lo \/ hi <= Z.of_nat k -> dst' !! k = dst !! k.

Lemma within_refl dst lo hi : within dst dst lo hi.
Proof. by split. Qed.

Lemma within_trans d1 d2 d3 lo hi : within d1 d2 lo hi -> within d2 d3 lo hi -> within d1 d3 lo hi.
Proof.
  intros [L1 H1] [L2 H2]; split; [congruence|]; intros k Hk; rewrite H2 by done; by apply H1.
Qed.

Lemma within_weaken d1 d2 lo hi lo' hi' :
  within d1 d2 lo hi -> lo' <= lo -> hi <= hi' -> within d1 d2 lo' hi'.
Proof. intros [L H] ? ?; split; [done|]; intros k Hk; apply H; lia. Qed.

Lemma write_bytes_within bs dst op :
  0 <= op -> op + Z.of_nat (length bs) <= Z.of_nat (length dst) ->
  exists dst', write_bytes dst op bs = Ok dst' /\ within dst dst' op (op + Z.of_nat (length bs)).
Proof.
  revert dst op; induction bs as [|b bs IH]; intros dst op H0 Hl; cbn [write_bytes].
  - exists dst; split; [done|apply within_refl].
  - cbn [length] in Hl |- *; rewrite zset_ok by lia; mstep.
    destruct (IH (<[Z.to_nat op := b]> dst) (op + 1)) as (dst' & -> & [L H]);
      [lia|rewrite length_insert; lia|].
    exists dst'; split; [done|]; split; [by rewrite L, length_insert|].
    intros k Hk; rewrite H by lia; apply list_lookup_insert_ne; lia.
Qed.

Lemma move_up_within n dst d s i :
  0 <= d + i -> 0 <= s + i -> d + i + Z.of_nat n <= Z.of_nat (length dst) ->
  s + i + Z.of_nat n <= Z.of_nat (length dst) ->
  exists dst', move_up dst d s i n = Ok dst' /\ within dst dst' (d + i) (d + i + Z.of_nat n).
Proof.
  revert dst i; induction n as [|n IH]; intros dst i Hd Hs Hdl Hsl; cbn [move_up].
  - exists dst; split; [done|apply within_refl].
  - destruct (move_byte d s dst i) as (x & -> & _ & E); [lia|lia|]; mstep; rewrite E; mstep.
    destruct (IH (<[Z.to_nat (d + i) := x]> dst) (i + 1)) as (dst' & -> & [L H]);
      [lia|lia|rewrite length_insert; lia..|].
    exists dst'; split; [done|]; split; [by rewrite L, length_insert|].
    intros k Hk; rewrite H by lia; apply list_lookup_insert_ne; lia.
Qed.

Definition bytes (l : list Z) : Prop := Forall (fun b => 0 <= b < 256) l.

Lemma zget_byte l i : bytes l -> 0 <= i < Z.of_nat (length l) ->
  exists b, zget l i = Ok b /\ 0 <= b < 256.
Proof.
  intros Hb Hi; destruct (lookup_lt_is_Some_2 l (Z.to_nat i)) as [b Eb]; [lia|].
  exists b; split; [apply zget_lookup; [lia|done]|]; by eapply Forall_lookup_1 in Hb.
Qed.

Section Block.
Context (src : list Z) (ip_limit : Z) (base op_limit : Z).
Hypothesis Hsrc : bytes src.
Hypothesis Hlim : ip_limit <= Z.of_nat (length src).
Hypothesis Hbase : 0 <= base.

Lemma ext_len_safe fuel ip len :
  0 <= ip <= ip_limit -> ip_limit - ip < Z.of_nat fuel ->
  exists o, ext_len fuel src ip ip_limit len = Ok o /\
    forall l ip', o = Some (l, ip') -> ip < ip' <= ip_limit.
Proof.
  revert ip len; induction fuel as [|f IH]; intros ip len Hip Hf; [lia|]; cbn [ext_len].
  case_decide; [by exists None|].
  destruct (zget_byte src ip Hsrc) as (b & -> & _); [lia|]; mstep; case_decide.
  - destruct (IH (ip + 1) (i32 (len + b))) as (o & -> & Ho); [lia|lia|].
    exists o; split; [done|]; intros l ip' ->; specialize (Ho _ _ eq_refl); lia.
  - eexists; split; [done|]; intros l ip' [= <- <-]; lia.
Qed.

Lemma token_len_safe fuel ip nibble :
  0 <= ip <= ip_limit -> ip_limit - ip < Z.of_nat fuel ->
  exists o, token_len fuel src ip ip_limit nibble = Ok o /\
    forall l ip', o = Some (l, ip') -> ip <= ip' <= ip_limit.
Proof.
  intros Hip Hf; unfold token_len; case_decide.
  - destruct (ext_len_safe fuel ip nibble) as (o & -> & Ho); [done..|].
    exists o; split; [done|]; intros l ip' ->; specialize (Ho _ _ eq_refl); lia.
  - eexists; split; [done|]; intros l ip' [= <- <-]; lia.
Qed.

(** What one iteration leaves: a larger [ip], [op] inside the destination. *)
Definition stop_ok (ip op : Z) (st : lz4_stop + Z * Z) : Prop :=
  match st with
  | inl (Err code) => -6 <= code <= -1
  | inl (Done op') => op <= op' <= op_limit
  | inr (ip', op') => ip < ip' <= ip_limit /\ op <= op' <= op_limit
  end.

Lemma lz4_match_safe fuel ip dst op token :
  0 <= ip <= ip_limit -> ip_limit - ip < Z.of_nat fuel ->
  base <= op <= op_limit -> op_limit <= Z.of_nat (length dst) ->
  exists dst' st, lz4_match fuel src ip ip_limit dst base op op_limit token = Ok (dst', st) /\
    within dst dst' base op_limit /\ stop_ok ip op st.
Proof.
  intros Hip Hf Hop Hdl; unfold lz4_match.
  case_decide; [eexists _, _; split; [done|]; split; [apply within_refl|simpl; lia]|].
  destruct (zget_byte src ip Hsrc) as (b0 & -> & Hb0); [lia|].
  destruct (zget_byte src (ip + 1) Hsrc) as (b1 & -> & Hb1); [lia|]; mstep.
  case_decide as Hoff; [eexists _, _; split; [done|]; split; [apply within_refl|simpl; lia]|].
  assert (0 <= Z.lor b0 (Z.shiftl b1 8))
    by (apply Z.lor_nonneg; split; [lia|apply Z.shiftl_nonneg; lia]).
  destruct (token_len_safe fuel (ip + 2) (Z.land token 15)) as (o & -> & Ho); [lia|lia|]; mstep.
  destruct o as [[l ip']|];
    [|eexists _, _; split; [done|]; split; [apply within_refl|simpl; lia]].
  specialize (Ho _ _ eq_refl).
  case_decide as Hr; [eexists _, _; split; [done|]; split; [apply within_refl|simpl; lia]|].
  set (n := i32 (l + 4)) in *; set (off := Z.lor b0 _) in *.
  destruct (move_up_within (Z.to_nat n) dst op (op - off) 0) as (dst' & -> & Hw); [lia..|]; mstep.
  eexists _, _; split; [done|]; split; [|simpl; lia].
  eapply within_weaken; [done|lia|lia].
Qed.

Lemma lz4_sequence_safe fuel ip dst op :
  0 <= ip < ip_limit -> ip_limit - ip < Z.of_nat fuel ->
  base <= op <= op_limit -> op_limit <= Z.of_nat (length dst) ->
  exists dst' st, lz4_sequence fuel src ip ip_limit dst base op op_limit = Ok (dst', st) /\
    within dst dst' base op_limit /\ stop_ok ip op st.
Proof.
  intros Hip Hf Hop Hdl; unfold lz4_sequence.
  destruct (zget_byte src ip Hsrc) as (token & -> & Ht); [lia|]; mstep.
  destruct (token_len_safe fuel (ip + 1) (Z.shiftr token 4)) as (o & -> & Ho); [lia|lia|]; mstep.
  destruct o as [[l ip1]|];
    [|eexists _, _; split; [done|]; split; [apply within_refl|simpl; lia]].
  specialize (Ho _ _ eq_refl).
  case_decide as Hl; [eexists _, _; split; [done|]; split; [apply within_refl|simpl; lia]|].
  rewrite read_bytes_ok by lia; mstep; set (bs := take _ _).
  assert (length bs = Z.to_nat l) as Ebs by (unfold bs; rewrite length_take, length_drop; lia).
  destruct (write_bytes_within bs dst op) as (dst1 & -> & Hw1); [lia|lia|]; mstep.
  rewrite Ebs in Hw1; case_decide.
  - eexists _, _; split; [done|]; split; [|simpl; lia]; eapply within_weaken; [done|lia|lia].
  - destruct (lz4_match_safe fuel (ip1 + Z.of_nat (Z.to_nat l)) dst1 (op + Z.of_nat (Z.to_nat l)) token)
      as (dst2 & st & -> & Hw2 & Hst); [lia|lia|lia|destruct Hw1; lia|].
    exists dst2, st; split; [done|]; split.
    + eapply within_trans; [eapply within_weaken; [done|lia|lia]|done].
    + destruct st as [[]|[]]; simpl in *; lia.
Qed.

Lemma lz4_block_loop_safe fuel ip dst op :
  0 <= ip <= ip_limit -> ip_limit - ip + 1 < Z.of_nat fuel ->
  base <= op <= op_limit -> op_limit <= Z.of_nat (length dst) ->
  exists dst' r, lz4_block_loop fuel src ip ip_limit dst base op op_limit = Ok (dst', r) /\
    within dst dst' base op_limit /\ -6 <= r <= op_limit - base.
Proof.
  revert ip dst op; induction fuel as [|f IH]; intros ip dst op Hip Hf Hop Hdl; [lia|].
  cbn [lz4_block_loop]; case_decide;
    [|eexists _, _; split; [done|]; split; [apply within_refl|lia]].
  destruct (lz4_sequence_safe (S f) ip dst op) as (dst1 & st & -> & Hw1 & Hst); [lia..|]; mstep.
  destruct st as [[code|op']|[ip' op']]; simpl in Hst.
  - eexists _, _; split; [done|]; split; [done|lia].
  - eexists _, _; split; [done|]; split; [done|lia].
  - destruct (IH ip' dst1 op') as (dst2 & r & -> & Hw2 & Hr); [lia|lia|lia|destruct Hw1; lia|].
    exists dst2, r; split; [done|]; split; [by eapply within_trans|done].
Qed.
End Block.

(** ** Memory safety of a frame *)

Lemma decompress_block_safe src sp src_len dst dp dst_len :
  bytes src -> 0 <= sp -> 0 <= src_len -> sp + src_len <= Z.of_nat (length src) ->
  0 <= dp -> 0 <= dst_len -> dp + dst_len <= Z.of_nat (length dst) ->
  exists dst' r, lz4_decompress_block src sp src_len dst dp dst_len = Ok (dst', r) /\
    within dst dst' dp (dp + dst_len) /\ -6 <= r <= dst_len.
Proof.
  intros Hb Hsp Hsl Hs Hdp Hdl Hd; unfold lz4_decompress_block.
  destruct (lz4_block_loop_safe src (sp + src_len) dp (dp + dst_len) Hb Hs Hdp
    (Z.to_nat src_len + 2) sp dst dp) as (dst' & r & -> & Hw & Hr); [lia..|].
  exists dst', r; split_and!; [done|done|lia|lia].
Qed.

Lemma read32_ok src pos :
  bytes src -> 0 <= pos -> pos + 4 <= Z.of_nat (length src) ->
  exists w, read32 src pos = Ok w /\ 0 <= w < 2 ^ 32.
Proof.
  intros Hb Hp Hl; unfold read32.
  destruct (zget_byte src pos Hb) as (? & -> & _); [lia|].
  destruct (zget_byte src (pos + 1) Hb) as (? & -> & _); [lia|].
  destruct (zget_byte src (pos + 2) Hb) as (? & -> & _); [lia|].
  destruct (zget_byte src (pos + 3) Hb) as (? & -> & _); [lia|].
  eexists; split; [done|]; apply Z.mod_pos_bound; lia.
Qed.

(** Where the blocks of a frame begin: after the header, whose length depends on the
    flags [flg], and after each block, with its checksum if there is one. *)
Definition first_block (flg : Z) : Z :=
  7 + (if Z.testbit flg 3 then 8 else 0) + (if Z.testbit flg 0 then 4 else 0).

Inductive header_at (src : list Z) (src_len flg : Z) : Z -> Prop :=
| header_first : header_at src src_len flg (first_block flg)
| header_next pos w :
    header_at src src_len flg pos -> pos + 4 <= src_len -> read32 src pos = Ok w -> w <> 0 ->
    header_at src src_len flg
      (pos + 4 + Z.land w 0x7FFFFFFF + (if Z.testbit flg 4 then 4 else 0)).

Section Frame.
Context (src : list Z) (src_len dst_len : Z).
Hypothesis Hsrc : bytes src.
Hypothesis Hlen : 0 <= src_len <= Z.of_nat (length src).
Hypothesis Hsum : src_len + dst_len + 8 < 2 ^ 31.
Hypothesis Hdst : 0 <= dst_len.
(** No size in a block header carries the position past the range of [int]. *)
Hypothesis Hsizes : forall flg pos w, zget src 4 = Ok flg -> header_at src src_len flg pos ->
  pos + 4 <= src_len -> read32 src pos = Ok w -> pos + 4 + Z.land w 0x7FFFFFFF < 2 ^ 31.

Lemma lz4_frame_loop_safe fuel flg dst pos dst_pos :
  let chk := Z.testbit flg 4 in
  zget src 4 = Ok flg -> header_at src src_len flg pos ->
  0 <= pos <= src_len -> src_len - pos < Z.of_nat fuel -> 0 <= dst_pos <= dst_len ->
  dst_len <= Z.of_nat (length dst) ->
  exists dst' r, lz4_frame_loop fuel src src_len chk dst dst_len pos dst_pos = Ok (dst', r) /\
    within dst dst' 0 dst_len /\ -18 <= r <= dst_len.
Proof.
  intros chk Hflg; revert dst pos dst_pos; induction fuel as [|f IH]; intros dst pos dst_pos Hh Hp Hf Hd Hdl; [lia|].
  assert (forall r : Z, -18 <= r <= dst_len -> exists dst' r', Ok (dst, r) = Ok (dst', r') /\
    within dst dst' 0 dst_len /\ -18 <= r' <= dst_len) as Hret
    by (intros r Hr; exists dst, r; split; [done|]; split; [apply within_refl|done]).
  cbn [lz4_frame_loop]; rewrite (i32_small (pos + 4)) by lia; case_decide; [|apply Hret; lia].
  destruct (read32_ok src pos Hsrc) as (w & Ew & Hw); [lia|lia|]; rewrite Ew; mstep.
  case_decide as Hw0; [apply Hret; lia|].
  assert (pos + 4 <= src_len) as Hp4 by lia.
  pose proof (header_next _ _ _ _ w Hh Hp4 Ew Hw0) as Hnext; fold chk in Hnext.
  pose proof (Hsizes flg pos w Hflg Hh Hp4 Ew) as Hbs; set (bs := Z.land w 0x7FFFFFFF) in *.
  assert (0 <= bs) by (apply Z.land_nonneg; lia).
  rewrite (i32_small (pos + 4 + bs)) by lia; case_decide; [apply Hret; lia|].
  set (step := if bool_decide _ then _ else _).
  assert (exists dst1 st, step = Ok (dst1, st) /\ within dst dst1 0 dst_len /\
    match st with inl c => -17 <= c <= -1 | inr p => dst_pos <= p <= dst_len end)
    as (dst1 & st & -> & Hw1 & Hst).
  { unfold step; case_bool_decide.
    - rewrite (i32_small (dst_pos + bs)) by lia.
      case_decide; [exists dst, (inl (-17)); split; [done|]; split; [apply within_refl|lia]|].
      rewrite read_bytes_ok by lia; mstep; set (b := take _ _).
      assert (length b = Z.to_nat bs) as Eb by (unfold b; rewrite length_take, length_drop; lia).
      destruct (write_bytes_within b dst dst_pos) as (dst1 & -> & Hw1); [lia|lia|]; mstep.
      eexists _, _; split; [done|]; split; [eapply within_weaken; [done|lia|lia]|lia].
    - destruct (decompress_block_safe src (pos + 4) bs dst dst_pos (dst_len - dst_pos))
        as (dst1 & r & -> & Hw1 & Hr); [done|lia..|]; mstep.
      case_decide; eexists _, _; (split; [done|]);
        (split; [eapply within_weaken; [done|lia|lia]|lia]). }
  mstep; destruct st as [c|p].
  - exists dst1, c; split; [done|]; split; [done|lia].
  - destruct chk; [|rewrite Z.add_0_r in Hnext].
    + rewrite i32_small by lia; case_decide.
      * exists dst1, (-18); split; [done|]; split; [done|lia].
      * destruct (IH dst1 (pos + 4 + bs + 4) p) as (dst2 & r & -> & Hw2 & Hr);
          [done|lia|lia|lia|destruct Hw1; lia|].
        exists dst2, r; split; [done|]; split; [by eapply within_trans|done].
    + destruct (IH dst1 (pos + 4 + bs) p) as (dst2 & r & -> & Hw2 & Hr);
        [done|lia|lia|lia|destruct Hw1; lia|].
      exists dst2, r; split; [done|]; split; [by eapply within_trans|done].
Qed.

(** C39: decompressing a frame is memory safe as long as no size in a block header
    makes the position overflow an [int], and source and destination together are
    shorter than 2^31 - 8 bytes: whatever the bytes, the decoder ends, reads only the
    source, writes only the first [dst_len] bytes of the destination, and returns an
    error code or a count of at most [dst_len].  The headers are those at which a block
    of the frame begins; the bytes inside blocks are arbitrary. *)
Theorem lz4_decompress_frame_safe dst :
  dst_len <= Z.of_nat (length dst) ->
  exists dst' r, lz4_decompress_frame src src_len dst dst_len = Ok (dst', r) /\
    within dst dst' 0 dst_len /\ -18 <= r <= dst_len.
Proof.
  intros Hdl.
  assert (forall r : Z, -18 <= r <= dst_len -> exists dst' r', Ok (dst, r) = Ok (dst', r') /\
    within dst dst' 0 dst_len /\ -18 <= r' <= dst_len) as Hret
    by (intros r Hr; exists dst, r; split; [done|]; split; [apply within_refl|done]).
  unfold lz4_decompress_frame; case_decide; [apply Hret; lia|].
  destruct (read32_ok src 0 Hsrc) as (m & -> & _); [lia|lia|]; mstep.
  case_decide; [apply Hret; lia|].
  destruct (zget_byte src 4 Hsrc) as (flg & Eflg & _); [lia|]; rewrite Eflg.
  pose proof (header_first src src_len flg) as Hfirst; unfold first_block in Hfirst.
  destruct (zget_byte src 5 Hsrc) as (bd & -> & _); [lia|]; mstep.
  case_decide; [apply Hret; lia|].
  destruct (Z.testbit flg 3); cbn [andb]; [case_bool_decide; [apply Hret; lia|]|];
    (destruct (Z.testbit flg 0); cbn [andb]; [case_bool_decide; [apply Hret; lia|]|]);
    (case_decide; [apply Hret; lia|]); apply lz4_frame_loop_safe; done || lia.
Qed.
End Frame.

(** A frame with a raw block of four bytes 0xFF. *)
Definition demo_frame : list Z :=
  [0x04; 0x22; 0x4D; 0x18; 0x40; 0x40; 0xC0; 4; 0; 0; 0x80; 255; 255; 255; 255; 0; 0; 0; 0].

Lemma demo_headers pos : header_at demo_frame 19 0x40 pos -> pos = 7 \/ pos = 15.
Proof.
  induction 1 as [|pos w _ [->| ->] Hp Hw Hn]; [by left| |]; vm_compute in Hw; injection Hw as <-; [by right|done].
Qed.

Lemma lz4_decompress_frame_safe_witness :
  exists dst' r, lz4_decompress_frame demo_frame 19 (repeat 0 4) 4 = Ok (dst', r) /\
    within (repeat 0 4) dst' 0 4 /\ -18 <= r <= 4.
Proof.
  apply (lz4_decompress_frame_safe demo_frame 19 4).
  - repeat (constructor; [lia|]); constructor.
  - simpl; lia.
  - lia.
  - lia.
  - intros flg pos w Hf Hp Hlt Hw; vm_compute in Hf; injection Hf as <-.
    destruct (demo_headers pos Hp) as [-> | ->]; vm_compute in Hw; injection Hw as <-; vm_compute; reflexivity.
  - simpl; lia.
Defined.

(** ** The bound check that overflows

    A block size of 0x7FFFFFFF at position 11: [pos + (int)block_size] wraps to a
    negative number, the check passes and the block decoder runs off the source. *)
Definition overflow_frame : list Z :=
  [0x04; 0x22; 0x4D; 0x18; 0x40; 0x40; 0xC0; 0xFF; 0xFF; 0xFF; 0x7F; 0xF0; 255; 255; 255; 255].

Lemma overflow_block k dst :
  lz4_block_loop (10 + k) overflow_frame 11 (11 + 2147483647) dst 0 0 16 = Fault.
Proof. by vm_compute. Qed.

Lemma lz4_block_size_overflow_faults dst :
  lz4_decompress_frame overflow_frame 16 dst 16 = Fault.
Proof.
  assert (lz4_decompress_block overflow_frame 11 2147483647 dst 0 16 = Fault) as E.
  { unfold lz4_decompress_block.
    replace (Z.to_nat 2147483647 + 2)%nat with (10 + Z.to_nat 2147483639)%nat by lia.
    apply overflow_block. }
  lazy -[lz4_decompress_block] in E |- *; by rewrite E.
Qed.

(** ** The block format *)

(** A sequence: literals, then [mlen] bytes copied from [off] bytes back. *)
Record seq := mkSeq { lits : list Z; off : Z; mlen : Z }.

Definition nibble (n : Z) : Z := Z.min n 15.
(** The bytes that extend a length of 15 or more. *)
Definition ext (n : Z) : list Z :=
  if decide (n < 15) then []
  else repeat 255 (Z.to_nat ((n - 15) / 255)) ++ [(n - 15) mod 255].

Definition llen (s : seq) : Z := Z.of_nat (length (lits s)).

Definition encode_seq (s : seq) : list Z :=
  (16 * nibble (llen s) + nibble (mlen s - 4)) :: ext (llen s) ++ lits s ++
  [off s mod 256; off s / 256] ++ ext (mlen s - 4).
Definition encode_last (l : list Z) : list Z :=
  16 * nibble (Z.of_nat (length l)) :: ext (Z.of_nat (length l)) ++ l.
Definition encode_block (ss : list seq) (l : list Z) : list Z :=
  concat (map encode_seq ss) ++ encode_last l.

(** The meaning: a copy reads output byte by byte, so it may read what it wrote. *)
Fixpoint copy_match (out : list Z) (o : Z) (n : nat) : list Z :=
  match n with
  | O => out
  | S n' => copy_match (out ++ [nth (Z.to_nat (Z.of_nat (length out) - o)) out 0]) o n'
  end.
Definition decode_seq (out : list Z) (s : seq) : list Z :=
  copy_match (out ++ lits s) (off s) (Z.to_nat (mlen s)).
Definition decode_block (ss : list seq) (l : list Z) : list Z :=
  foldl decode_seq [] ss ++ l.

Definition seq_ok (out : list Z) (s : seq) : Prop :=
  0 < off s < 65536 /\ off s <= Z.of_nat (length (out ++ lits s)) /\ 4 <= mlen s.
Fixpoint seqs_ok (out : list Z) (ss : list seq) : Prop :=
  match ss with
  | [] => True
  | s :: r => seq_ok out s /\ seqs_ok (decode_seq out s) r
  end.

Lemma copy_match_length out o n : length (copy_match out o n) = (length out + n)%nat.
Proof.
  revert out; induction n as [|n IH]; intros out; simpl; [lia|].
  rewrite IH, length_app; simpl; lia.
Qed.

Lemma decode_seq_length out s :
  length (decode_seq out s) = (length out + length (lits s) + Z.to_nat (mlen s))%nat.
Proof. unfold decode_seq; rewrite copy_match_length, length_app; lia. Qed.

Lemma decode_length_mono ss out : (length out <= length (foldl decode_seq out ss))%nat.
Proof.
  revert out; induction ss as [|s ss IH]; intros out; simpl; [lia|].
  etrans; [|apply IH]; rewrite decode_seq_length; lia.
Qed.

(** ** The decoder follows the format *)

Lemma ext_len_ext pre post n ip limit fuel :
  15 <= n < 2 ^ 31 -> ip = Z.of_nat (length pre) ->
  ip + Z.of_nat (length (ext n)) <= limit -> (length (ext n) <= fuel)%nat ->
  ext_len fuel (pre ++ ext n ++ post) ip limit 15 =
    Ok (Some (n, ip + Z.of_nat (length (ext n)))).
Proof.
  unfold ext; intros Hn; rewrite decide_False by lia.
  pose proof (Z.div_mod (n - 15) 255 ltac:(lia)) as Ediv.
  pose proof (Z.mod_pos_bound (n - 15) 255 ltac:(lia)) as Hmod.
  pose proof (Z.div_pos (n - 15) 255 ltac:(lia) ltac:(lia)).
  remember (Z.to_nat ((n - 15) / 255)) as q eqn:Eq; remember ((n - 15) mod 255) as r eqn:Er.
  assert (exists len, 0 <= len /\ n = len + 255 * Z.of_nat q + r /\ len = 15) as (len & Hlen & En & E15)
    by (exists 15; lia).
  rewrite <- E15; clear E15 Eq Er Ediv; revert pre ip len fuel Hlen En.
  induction q as [|q IH]; intros pre ip len fuel Hlen En -> Hlim Hf;
    cbn [repeat app] in *; rewrite ?length_app in Hlim, Hf; cbn [length] in Hlim, Hf;
    (destruct fuel as [|f]; [lia|]); cbn [ext_len];
    rewrite decide_False, zget_mid by (done || lia); mstep.
  - rewrite i32_small, decide_False by lia; do 3 f_equal; cbn [length]; lia.
  - rewrite i32_small, decide_True by lia.
    replace (pre ++ 255 :: (repeat 255 q ++ [r]) ++ post)
      with ((pre ++ [255]) ++ (repeat 255 q ++ [r]) ++ post) by (by rewrite <- !app_assoc).
    rewrite (IH (pre ++ [255])); [| | |rewrite length_app; simpl; lia|lia|lia].
    + do 3 f_equal; rewrite !length_app; cbn [length]; rewrite length_app; cbn [length]; lia.
    + lia.
    + lia.
Qed.

Lemma token_len_ext pre post n ip limit fuel :
  0 <= n < 2 ^ 31 -> ip = Z.of_nat (length pre) ->
  ip + Z.of_nat (length (ext n)) <= limit -> (length (ext n) <= fuel)%nat ->
  token_len fuel (pre ++ ext n ++ post) ip limit (nibble n) =
    Ok (Some (n, ip + Z.of_nat (length (ext n)))).
Proof.
  intros Hn Hip Hlim Hf; unfold token_len, nibble; case_decide.
  - replace (Z.min n 15) with 15 by lia; apply ext_len_ext; [lia|done..].
  - replace (ext n) with (@nil Z) in * by (unfold ext; rewrite decide_True by lia; done).
    simpl; do 3 f_equal; lia.
Qed.

(** The byte loop appends the copy to the output. *)
Lemma move_up_copy n dpre out rest o i op ref :
  op + i = Z.of_nat (length dpre + length out) -> ref = op - o ->
  0 < o <= Z.of_nat (length out) -> (n <= length rest)%nat ->
  move_up (dpre ++ out ++ rest) op ref i n =
    Ok (dpre ++ copy_match out o n ++ drop n rest).
Proof.
  revert out rest i; induction n as [|n IH]; intros out rest i Hop -> Ho Hn; [done|].
  destruct rest as [|x rest]; cbn [length] in Hn; [lia|]; cbn [move_up copy_match drop].
  set (y := nth _ out 0).
  assert (zget (dpre ++ out ++ x :: rest) (op - o + i) = Ok y) as ->.
  { apply zget_lookup; [lia|].
    rewrite lookup_app_r by lia.
    replace (Z.to_nat (op - o + i) - length dpre)%nat
      with (Z.to_nat (Z.of_nat (length out) - o)) by lia.
    rewrite lookup_app_l by lia; unfold y.
    destruct (lookup_lt_is_Some_2 out (Z.to_nat (Z.of_nat (length out) - o))) as [z Hz]; [lia|].
    rewrite Hz; f_equal; symmetry; by apply nth_lookup_Some. }
  mstep; rewrite app_assoc, zset_mid by (rewrite length_app; lia); mstep.
  replace ((dpre ++ out) ++ y :: rest) with (dpre ++ (out ++ [y]) ++ rest)
    by (by rewrite <- !app_assoc).
  rewrite (IH (out ++ [y]) rest (i + 1)); [done|rewrite length_app; simpl; lia|done|
    rewrite length_app; simpl; lia|lia].
Qed.

Lemma token_fields a b : 0 <= a <= 15 -> 0 <= b <= 15 ->
  Z.shiftr (16 * a + b) 4 = a /\ Z.land (16 * a + b) 15 = b.
Proof.
  intros Ha Hb; split.
  - rewrite Z.shiftr_div_pow2 by lia; change (2 ^ 4) with 16.
    symmetry; apply Z.div_unique with b; lia.
  - change 15 with (Z.ones 4); rewrite Z.land_ones by lia; change (2 ^ 4) with 16.
    symmetry; apply Z.mod_unique with a; lia.
Qed.

Lemma le16_offset o : Z.lor (o mod 256) (Z.shiftl (o / 256) 8) = o.
Proof.
  apply Z.bits_inj'; intros n Hn; rewrite Z.lor_spec; change 256 with (2 ^ 8).
  destruct (decide (n < 8)).
  - rewrite Z.mod_pow2_bits_low, Z.shiftl_spec_low by lia; apply orb_false_r.
  - rewrite Z.mod_pow2_bits_high, Z.shiftl_spec, Z.div_pow2_bits by lia; simpl.
    f_equal; lia.
Qed.

Lemma nibble_range n : 0 <= n -> 0 <= nibble n <= 15.
Proof. unfold nibble; lia. Qed.

Section Decode.
Context (dpre : list Z) (dst_len : Z).
Let base := Z.of_nat (length dpre).

(** The match part of a sequence. *)
Lemma lz4_match_decodes s fuel pre post out rest limit token :
  seq_ok out s -> Z.of_nat (length (decode_seq out s)) <= dst_len < 2 ^ 31 ->
  (length (lits s) + Z.to_nat (mlen s) <= length rest)%nat ->
  Z.land token 15 = nibble (mlen s - 4) ->
  let ip := Z.of_nat (length pre) in
  let e := ext (mlen s - 4) in
  let out1 := out ++ lits s in
  ip + 2 + Z.of_nat (length e) <= limit -> (length e <= fuel)%nat ->
  lz4_match fuel (pre ++ off s mod 256 :: off s / 256 :: e ++ post) ip limit
    (dpre ++ out1 ++ drop (length (lits s)) rest) base
    (base + Z.of_nat (length out1)) (base + dst_len) token =
  Ok (dpre ++ decode_seq out s ++ drop (length (lits s) + Z.to_nat (mlen s)) rest,
      inr (ip + 2 + Z.of_nat (length e), base + Z.of_nat (length (decode_seq out s)))).
Proof.
  intros (Ho & Hback & Hm) Hout Hrest Htok ip e out1 Hlim Hf.
  rewrite decode_seq_length in Hout; unfold lz4_match; rewrite decide_False by lia.
  rewrite (zget_mid pre _ (off s mod 256) ip) by done; mstep.
  replace (pre ++ off s mod 256 :: off s / 256 :: e ++ post)
    with ((pre ++ [off s mod 256; off s / 256]) ++ e ++ post) by (by rewrite <- app_assoc).
  replace ((pre ++ [off s mod 256; off s / 256]) ++ e ++ post)
    with ((pre ++ [off s mod 256]) ++ off s / 256 :: e ++ post) at 1 by (by rewrite <- !app_assoc).
  rewrite zget_mid by (rewrite length_app; simpl; unfold ip; lia); mstep.
  rewrite le16_offset, decide_False, Htok by lia.
  pose proof (token_len_ext (pre ++ [off s mod 256; off s / 256]) post (mlen s - 4) (ip + 2)
    limit fuel ltac:(lia) ltac:(rewrite length_app; simpl; unfold ip; lia) Hlim Hf) as Et.
  fold e in Et; rewrite Et; mstep; rewrite i32_small by lia; replace (mlen s - 4 + 4) with (mlen s) by lia.
  rewrite length_app in Hback; unfold out1 in *; rewrite !length_app.
  rewrite decide_False by lia; rewrite (move_up_copy _ dpre (out ++ lits s) _ (off s));
    [|rewrite length_app; unfold base; lia|done|rewrite length_app; lia|rewrite length_drop; lia].
  mstep; rewrite drop_drop; fold (decode_seq out s); rewrite decode_seq_length.
  do 4 f_equal; lia.
Qed.

Lemma lz4_sequence_decodes s fuel pre post out rest limit :
  seq_ok out s -> Z.of_nat (length (decode_seq out s)) <= dst_len < 2 ^ 31 ->
  (length (lits s) + Z.to_nat (mlen s) <= length rest)%nat ->
  Z.of_nat (length (pre ++ encode_seq s)) <= limit -> (length (encode_seq s) <= fuel)%nat ->
  lz4_sequence fuel (pre ++ encode_seq s ++ post) (Z.of_nat (length pre)) limit
    (dpre ++ out ++ rest) base (base + Z.of_nat (length out)) (base + dst_len) =
  Ok (dpre ++ decode_seq out s ++ drop (length (lits s) + Z.to_nat (mlen s)) rest,
      inr (Z.of_nat (length (pre ++ encode_seq s)),
           base + Z.of_nat (length (decode_seq out s)))).
Proof.
  intros Hok Hout Hrest Hlim Hf; pose proof Hok as (_ & _ & Hm); unfold lz4_sequence.
  pose proof Hout as Hout'; rewrite decode_seq_length in Hout'.
  assert (length (encode_seq s) = (1 + length (ext (llen s)) + length (lits s) + 2 +
    length (ext (mlen s - 4)))%nat) as El
    by (unfold encode_seq; cbn [length]; rewrite !length_app; simpl; lia).
  rewrite length_app, El in Hlim; rewrite El in Hf.
  destruct (token_fields (nibble (llen s)) (nibble (mlen s - 4))) as [Et1 Et2];
    [apply nibble_range; unfold llen; lia|apply nibble_range; lia|].
  rewrite length_app, El; unfold encode_seq; cbn [app].
  rewrite zget_mid by done; mstep; rewrite Et1.
  set (tok := 16 * nibble (llen s) + nibble (mlen s - 4)) in *.
  set (e1 := ext (llen s)) in *; set (e2 := ext (mlen s - 4)) in *.
  replace (pre ++ tok :: (e1 ++ lits s ++ off s mod 256 :: off s / 256 :: e2) ++ post)
    with ((pre ++ [tok]) ++ e1 ++ (lits s ++ off s mod 256 :: off s / 256 :: e2 ++ post))
    by (by rewrite <- !app_assoc).
  pose proof (token_len_ext (pre ++ [tok]) (lits s ++ off s mod 256 :: off s / 256 :: e2 ++ post)
    (llen s) (Z.of_nat (length pre) + 1) limit fuel) as Et; fold e1 in Et.
  rewrite Et; [|unfold llen; lia|rewrite length_app; simpl; lia|lia|lia]; clear Et.
  mstep; rewrite decide_False by (unfold llen; lia).
  set (pre1 := (pre ++ [tok]) ++ e1).
  assert (length pre1 = (length pre + 1 + length e1)%nat) as Ep1
    by (unfold pre1; rewrite !length_app; simpl; lia).
  rewrite app_assoc; fold pre1; unfold llen; rewrite Nat2Z.id.
  replace (Z.of_nat (length pre) + 1 + Z.of_nat (length e1)) with (Z.of_nat (length pre1)) by lia.
  rewrite read_bytes_ok by (rewrite ?length_app; lia); mstep.
  rewrite Nat2Z.id, drop_app_length, take_app_length.
  rewrite (app_assoc dpre out rest), (write_bytes_app (dpre ++ out) rest) by (rewrite ?length_app; unfold base; lia); mstep.
  rewrite decide_False by lia.
  pose proof (lz4_match_decodes s fuel (pre1 ++ lits s) post out rest limit tok) as Hmatch.
  cbv zeta in Hmatch; fold e2 in Hmatch.
  rewrite (length_app pre1), (length_app out) in Hmatch.
  rewrite <- (app_assoc pre1), <- (app_assoc out) in Hmatch.
  rewrite <- (app_assoc dpre), <- !Nat2Z.inj_add in *.
  replace (base + Z.of_nat (length out) + Z.of_nat (length (lits s)))
    with (base + Z.of_nat (length out + length (lits s))) by lia.
  rewrite Hmatch; [|done|done|done|done|lia|lia].
  do 4 f_equal; lia.
Qed.

Lemma lz4_last_decodes l fuel pre post out rest :
  Z.of_nat (length (out ++ l)) <= dst_len < 2 ^ 31 -> (length l <= length rest)%nat ->
  (length (encode_last l) <= fuel)%nat ->
  lz4_sequence fuel (pre ++ encode_last l ++ post) (Z.of_nat (length pre))
    (Z.of_nat (length (pre ++ encode_last l)))
    (dpre ++ out ++ rest) base (base + Z.of_nat (length out)) (base + dst_len) =
  Ok (dpre ++ (out ++ l) ++ drop (length l) rest, inl (Done (base + Z.of_nat (length (out ++ l))))).
Proof.
  intros Hout Hrest Hf; unfold lz4_sequence; rewrite length_app in Hout.
  set (n := Z.of_nat (length l)) in *.
  assert (length (encode_last l) = (1 + length (ext n) + length l)%nat) as El
    by (unfold encode_last; fold n; cbn [length]; rewrite !length_app; simpl; lia).
  rewrite El in Hf; rewrite length_app, El; unfold encode_last; fold n; cbn [app].
  destruct (token_fields (nibble n) 0) as [Et1 _]; [apply nibble_range; lia|lia|].
  rewrite Z.add_0_r in Et1; rewrite zget_mid by done; mstep; rewrite Et1.
  set (tok := 16 * nibble n) in *; set (e1 := ext n) in *.
  replace (pre ++ tok :: (e1 ++ l) ++ post) with ((pre ++ [tok]) ++ e1 ++ (l ++ post))
    by (by rewrite <- !app_assoc).
  pose proof (token_len_ext (pre ++ [tok]) (l ++ post) n (Z.of_nat (length pre) + 1)
    (Z.of_nat (length pre + (1 + length e1 + length l))) fuel) as Et; fold e1 in Et.
  rewrite Et; [|lia|rewrite length_app; simpl; lia|lia|lia]; clear Et; mstep.
  rewrite decide_False by lia; set (pre1 := (pre ++ [tok]) ++ e1).
  assert (length pre1 = (length pre + 1 + length e1)%nat) as Ep1
    by (unfold pre1; rewrite !length_app; simpl; lia).
  rewrite app_assoc; fold pre1; unfold n; rewrite Nat2Z.id.
  replace (Z.of_nat (length pre) + 1 + Z.of_nat (length e1)) with (Z.of_nat (length pre1)) by lia.
  rewrite read_bytes_ok by (rewrite ?length_app; lia); mstep.
  rewrite Nat2Z.id, drop_app_length, take_app_length.
  rewrite (app_assoc dpre out rest), (write_bytes_app (dpre ++ out) rest)
    by (rewrite ?length_app; unfold base; lia); mstep.
  rewrite decide_True by lia; rewrite length_app, <- !app_assoc.
  do 4 f_equal; lia.
Qed.

Lemma lz4_block_loop_decodes ss l fuel pre post out rest :
  seqs_ok out ss ->
  let out' := foldl decode_seq out ss ++ l in
  Z.of_nat (length out') <= dst_len < 2 ^ 31 ->
  (length out' - length out <= length rest)%nat ->
  (length (encode_block ss l) < fuel)%nat ->
  lz4_block_loop fuel (pre ++ encode_block ss l ++ post) (Z.of_nat (length pre))
    (Z.of_nat (length (pre ++ encode_block ss l)))
    (dpre ++ out ++ rest) base (base + Z.of_nat (length out)) (base + dst_len) =
  Ok (dpre ++ out' ++ drop (length out' - length out) rest, Z.of_nat (length out')).
Proof.
  revert fuel pre out rest; induction ss as [|s ss IH];
    intros fuel pre out rest Hss out' Hout Hrest Hf; (destruct fuel as [|f]; [lia|]);
    cbn [lz4_block_loop].
  - unfold out' in *; cbn [foldl] in *; unfold encode_block in *; cbn [map concat app] in *.
    rewrite length_app in Hrest.
    rewrite decide_True by (rewrite length_app; unfold encode_last; cbn [length]; lia).
    rewrite lz4_last_decodes; [|done|lia|lia]; mstep.
    rewrite !length_app; do 3 f_equal; [|lia]; do 3 f_equal; lia.
  - destruct Hss as [Hs Hss]; cbn [foldl] in out'; unfold encode_block in *; cbn [map concat] in *.
    set (tail := concat (map encode_seq ss) ++ encode_last l) in *.
    rewrite <- app_assoc in Hf |- *; fold tail in Hf |- *; rewrite !length_app in *.
    pose proof (decode_length_mono ss (decode_seq out s)) as Hmono.
    unfold out' in Hout, Hrest; rewrite !length_app in Hout, Hrest.
    rewrite decode_seq_length in Hmono.
    assert (1 <= length (encode_seq s))%nat by (unfold encode_seq; simpl; lia).
    rewrite decide_True by lia; rewrite <- (app_assoc (encode_seq s) tail post).
    rewrite lz4_sequence_decodes;
      [|done|rewrite decode_seq_length; lia|lia|rewrite length_app; lia|lia]; mstep.
    pose proof (IH f (pre ++ encode_seq s) (decode_seq out s)
      (drop (length (lits s) + Z.to_nat (mlen s)) rest) Hss) as E; cbv zeta in E.
    unfold encode_block in E; fold tail in E; fold out' in E.
    assert (length out' = length (foldl decode_seq (decode_seq out s) ss) + length l)%nat as Eo
      by (unfold out'; by rewrite length_app).
    rewrite <- (app_assoc pre (encode_seq s)), <- (app_assoc pre), !length_app in E.
    rewrite length_app, E, drop_drop; [|lia|rewrite length_drop, decode_seq_length; lia|lia].
    rewrite decode_seq_length; do 5 f_equal; lia.
Qed.
End Decode.

(** C38: the block decoder implements the LZ4 block format.  For every list of
    sequences whose copies stay inside the output, encoded anywhere in the source,
    and a destination with room for the result, the decoder writes exactly the
    decoded bytes (copies that overlap their own output included), leaves the rest
    of the destination alone and returns their number. *)
Theorem lz4_decompress_block_decodes ss l pre post dpre rest dst_len :
  seqs_ok [] ss ->
  Z.of_nat (length (decode_block ss l)) <= dst_len < 2 ^ 31 ->
  (length (decode_block ss l) <= length rest)%nat ->
  lz4_decompress_block (pre ++ encode_block ss l ++ post) (Z.of_nat (length pre))
    (Z.of_nat (length (encode_block ss l)))
    (dpre ++ rest) (Z.of_nat (length dpre)) dst_len =
  Ok (dpre ++ decode_block ss l ++ drop (length (decode_block ss l)) rest,
      Z.of_nat (length (decode_block ss l))).
Proof.
  intros Hss Hout Hrest; unfold lz4_decompress_block.
  pose proof (lz4_block_loop_decodes dpre dst_len ss l
    (Z.to_nat (Z.of_nat (length (encode_block ss l))) + 2) pre post [] rest Hss) as E.
  cbv zeta in E; fold (decode_block ss l) in E.
  rewrite length_app, Nat2Z.inj_add, Nat.sub_0_r, Z.add_0_r in E.
  apply E; [done|done|lia].
Qed.

(** "abcabcabcabcX": three literals, a copy of nine bytes from three back that
    overlaps itself, and a last literal. *)
Lemma lz4_decompress_block_decodes_witness :
  lz4_decompress_block ([] ++ encode_block [mkSeq [97; 98; 99] 3 9] [88] ++ []) 0 8
    ([] ++ repeat 0 20) 0 20 =
  Ok ([97; 98; 99; 97; 98; 99; 97; 98; 99; 97; 98; 99; 88] ++ repeat 0 7, 13).
Proof.
  apply (lz4_decompress_block_decodes [mkSeq [97; 98; 99] 3 9] [88] [] [] [] (repeat 0 20) 20).
  - by vm_compute.
  - vm_compute; done.
  - simpl; lia.
Defined.
