(* ===== verification/Tar.v ===== *)
(** * fs/tar.c: unpacking the boot archive

    The archive is a byte list, addressed by offsets.  The file system is an
    interface ([VfsOps]): the operations of fs/vfs.c that the unpacker calls, on
    an abstract state.  Paths handed to it are the bytes of the C string. *)

From S2P Require Import Prelude Kutils.
From stdpp Require Import base tactics option list numbers sets.
From Stdlib Require Import ZArith Lia.

Local Open Scope Z_scope.

Class VfsOps (FS FH : Type) := {
  vfs_exists : list Z -> FS -> bool;
  vfs_mkdir : list Z -> FS -> FS;
  vfs_open_w : list Z -> FS -> option FH * FS;
  vfs_write : FH -> list Z -> FS -> FS;
  vfs_close : FH -> FS -> FS;
  vfs_chmod : list Z -> Z -> FS -> FS;
  vfs_chown : list Z -> Z -> Z -> FS -> FS;
}.

(** [tar_parse_octal]: digits outside '0' .. '7' are skipped. *)
Fixpoint tar_parse_octal (str : list Z) (result : Z) : Z :=
  match str with
  | [] => result
  | c :: r =>
      if decide (48 <= c <= 55) then tar_parse_octal r (u64 (u64 (Z.shiftl result 3) + (c - 48)))
      else tar_parse_octal r result
  end.

(** A field of the header block at [ptr]: [size] bytes from offset [o]. *)
Definition field (archive : list Z) (ptr o : Z) (size : nat) : res Z :=
  b ← read_bytes archive (ptr + o) size; Ok (tar_parse_octal b 0).

(** [while (header->filename[j] && j < limit)]: the bytes that are copied.  The
    scan is bounded by [limit], not by the 100 bytes of the field. *)
Fixpoint copy_name (archive : list Z) (pos : Z) (limit : nat) : res (list Z) :=
  c ← zget archive pos;
  if decide (c = 0) then Ok []
  else match limit with
       | O => Ok []
       | S n => r ← copy_name archive (pos + 1) n; Ok (c :: r)
       end.

Definition full_path_of (archive : list Z) (ptr : Z) : res (list Z) :=
  c ← zget archive ptr;
  if decide (c <> 47) then r ← copy_name archive ptr 254; Ok (47 :: r)
  else copy_name archive ptr 255.

(** The index of the last slash, -1 when there is none. *)
Fixpoint last_slash_of (path : list Z) (j last : Z) : Z :=
  match path with
  | [] => last
  | c :: r => last_slash_of r (j + 1) (if decide (c = 47) then j else last)
  end.

Section Unpack.
Context {FS FH : Type} {vfs : VfsOps FS FH}.

Definition ensure_dir (path : list Z) (fs : FS) : FS :=
  if vfs_exists path fs then fs else vfs_mkdir path fs.

(** [vfs_mkdir_recursive]: [temp] is what has been copied so far. *)
Fixpoint mkdir_loop (path temp : list Z) (fs : FS) : FS :=
  match path with
  | c :: r =>
      if decide (length temp < 255)%nat then
        let fs := if decide (c = 47 /\ (0 < length temp)%nat) then ensure_dir temp fs else fs in
        mkdir_loop r (temp ++ [c]) fs
      else ensure_dir temp fs
  | [] => ensure_dir temp fs
  end.
Definition vfs_mkdir_recursive (path : list Z) (fs : FS) : FS := mkdir_loop path [] fs.

(** Mode and owner, common to files and directories. *)
Definition set_attrs (path : list Z) (mode uid gid : Z) (fs : FS) : FS :=
  let fs := if decide (mode <> 0) then vfs_chmod path (u32 mode) fs else fs in
  vfs_chown path (u32 uid) (u32 gid) fs.

Definition make_parent (path : list Z) (fs : FS) : FS :=
  let last_slash := last_slash_of path 0 (-1) in
  if decide (last_slash > 0) then vfs_mkdir_recursive (take (Z.to_nat last_slash) path) fs
  else fs.

Definition owner (uid gid : Z) : Z * Z :=
  if decide (uid = 501 /\ gid = 20) then (0, 0) else (uid, gid).

(** One header block: the new file system and the size of the data. *)
Definition tar_entry (archive : list Z) (ptr : Z) (fs : FS) : res (FS * Z) :=
  file_size ← field archive ptr 124 11;
  file_mode ← field archive ptr 100 7;
  uid ← field archive ptr 108 7;
  gid ← field archive ptr 116 7;
  let '(uid, gid) := owner uid gid in
  full_path ← full_path_of archive ptr;
  typeflag ← zget archive (ptr + 156);
  if decide (typeflag = 53) then
    Ok (set_attrs full_path file_mode uid gid (vfs_mkdir_recursive full_path fs), file_size)
  else if decide (typeflag = 48 \/ typeflag = 0) then
    let fs := make_parent full_path fs in
    let '(fh, fs) := vfs_open_w full_path fs in
    fs ← match fh with
         | Some h =>
             data ← read_bytes archive (ptr + 512) (Z.to_nat (u64 (i32 file_size)));
             Ok (vfs_close h (vfs_write h data fs))
         | None => Ok fs
         end;
    Ok (set_attrs full_path file_mode uid gid fs, file_size)
  else Ok (fs, file_size).

Fixpoint tar_loop (fuel : nat) (archive : list Z) (ptr archive_size : Z) (fs : FS) : res FS :=
  match fuel with
  | O => NoFuel
  | S f =>
      if decide (ptr + 512 <= archive_size) then
        c ← zget archive ptr;
        if decide (c = 0) then Ok fs
        else
          '(fs, file_size) ← tar_entry archive ptr fs;
          let data_blocks := u64 (file_size + 511) / 512 in
          tar_loop f archive (ptr + 512 + data_blocks * 512) archive_size fs
      else Ok fs
  end.

Definition tar_parse (archive : list Z) (archive_size : Z) (fs : FS) : res FS :=
  tar_loop (Z.to_nat (archive_size / 512) + 1) archive 0 archive_size fs.

(** ** The format *)

(** [k] octal digits and a terminator. *)
Fixpoint octal (k : nat) (v : Z) : list Z :=
  match k with O => [] | S n => octal n (v / 8) ++ [48 + v mod 8] end.

Record entry := mkEntry {
  te_name : list Z;
  te_mode : Z; te_uid : Z; te_gid : Z;
  te_misc : list Z;      (* mtime and checksum, 20 bytes *)
  te_type : Z;
  te_rest : list Z;      (* link name, magic, ..., padding: 355 bytes *)
  te_data : list Z;
}.

Definition padding (n : nat) : list Z := repeat 0 (Nat.modulo (512 - Nat.modulo n 512) 512).

Definition encode_entry (e : entry) : list Z :=
  te_name e ++ repeat 0 (100 - length (te_name e)) ++
  octal 7 (te_mode e) ++ [0] ++ octal 7 (te_uid e) ++ [0] ++ octal 7 (te_gid e) ++ [0] ++
  octal 11 (Z.of_nat (length (te_data e))) ++ [0] ++ te_misc e ++ [te_type e] ++ te_rest e ++
  te_data e ++ padding (length (te_data e)).

Definition entry_ok (e : entry) : Prop :=
  (1 <= length (te_name e) <= 99)%nat /\ 0 ∉ te_name e /\
  0 <= te_mode e < 8 ^ 7 /\ 0 <= te_uid e < 8 ^ 7 /\ 0 <= te_gid e < 8 ^ 7 /\
  length (te_misc e) = 20%nat /\ length (te_rest e) = 355%nat /\
  Z.of_nat (length (te_data e)) < 2 ^ 31.

Definition te_path (e : entry) : list Z :=
  if decide (head (te_name e) = Some 47) then te_name e else 47 :: te_name e.

(** The proper parents of an absolute path, outermost first: the parts before the
    slashes other than the first byte. *)
Definition parents (path : list Z) : list (list Z) :=
  (fun k => take k path) <$> filter (fun k => (0 < k)%nat /\ path !! k = Some 47) (seq 0 (length path)).

(** Directories that are missing are made, in this order. *)
Definition with_dirs (fs : FS) (dirs : list (list Z)) : FS :=
  foldl (fun fs d => if vfs_exists d fs then fs else vfs_mkdir d fs) fs dirs.

(** Mode, unless it is 0, and owner; the user and group 501 and 20 stand for root. *)
Definition with_attrs (e : entry) (fs : FS) : FS :=
  let fs := if decide (te_mode e = 0) then fs else vfs_chmod (te_path e) (te_mode e) fs in
  if decide (te_uid e = 501 /\ te_gid e = 20) then vfs_chown (te_path e) 0 0 fs
  else vfs_chown (te_path e) (te_uid e) (te_gid e) fs.

(** What installing an entry means: a directory ('5') with its parents, or the parents of a
    file ('0' or 0) and its data if it can be opened; then the attributes.  An entry
    of another type is passed over. *)
Definition install (fs : FS) (e : entry) : FS :=
  if decide (te_type e = 53) then with_attrs e (with_dirs fs (parents (te_path e) ++ [te_path e]))
  else if decide (te_type e = 48 \/ te_type e = 0) then
    match vfs_open_w (te_path e) (with_dirs fs (parents (te_path e))) with
    | (Some h, fs) => with_attrs e (vfs_close h (vfs_write h (te_data e) fs))
    | (None, fs) => with_attrs e fs
    end
  else fs.
End Unpack.

(** ** Reading back the fields *)

Lemma read_bytes_mid (a b c : list Z) i :
  i = Z.of_nat (length a) -> read_bytes (a ++ b ++ c) i (length b) = Ok b.
Proof.
  intros ->; rewrite read_bytes_ok by (rewrite ?length_app; lia).
  by rewrite Nat2Z.id, drop_app_length, take_app_length.
Qed.

Lemma octal_length k v : length (octal k v) = k.
Proof. revert v; induction k as [|k IH]; intros v; simpl; [done|]; rewrite length_app, IH; simpl; lia. Qed.

Lemma tar_parse_octal_app a b acc :
  tar_parse_octal (a ++ b) acc = tar_parse_octal b (tar_parse_octal a acc).
Proof. revert acc; induction a as [|c a IH]; intros acc; simpl; [done|]; case_decide; apply IH. Qed.

Lemma tar_parse_octal_octal k v :
  (k <= 20)%nat -> 0 <= v < 8 ^ Z.of_nat k -> tar_parse_octal (octal k v) 0 = v.
Proof.
  revert v; induction k as [|k IH]; intros v Hk Hv; [simpl in *; lia|].
  cbn [octal]; rewrite tar_parse_octal_app.
  replace (Z.of_nat (S k)) with (Z.succ (Z.of_nat k)) in Hv by lia.
  rewrite Z.pow_succ_r in Hv by lia.
  pose proof (Z.mod_pos_bound v 8 ltac:(lia)); pose proof (Z.div_mod v 8 ltac:(lia)).
  assert (8 ^ Z.of_nat k <= 8 ^ 19) by (apply Z.pow_le_mono_r; lia).
  rewrite IH; [|lia|split; [apply Z.div_pos; lia|apply Z.div_lt_upper_bound; lia]].
  cbn [tar_parse_octal]; rewrite decide_True by lia.
  rewrite Z.shiftl_mul_pow2 by lia; change (2 ^ 3) with 8.
  assert (0 <= v / 8) by (apply Z.div_pos; lia).
  rewrite (u64_small (v / 8 * 8)), u64_small; lia.
Qed.

Lemma field_octal a k v c ptr o :
  ptr + o = Z.of_nat (length a) -> (k <= 20)%nat -> 0 <= v < 8 ^ Z.of_nat k ->
  field (a ++ octal k v ++ c) ptr o k = Ok v.
Proof.
  intros Ha Hk Hv; unfold field.
  pose proof (read_bytes_mid a (octal k v) c _ Ha) as E; rewrite octal_length in E.
  rewrite E; mstep; by rewrite tar_parse_octal_octal.
Qed.

Lemma copy_name_cstr a name c limit :
  0 ∉ name -> (length name <= limit)%nat ->
  copy_name (a ++ name ++ 0 :: c) (Z.of_nat (length a)) limit = Ok name.
Proof.
  revert a limit; induction name as [|x name IH]; intros a limit H0 Hl.
  - cbn [app]; destruct limit; cbn [copy_name]; rewrite zget_mid by done; mstep; done.
  - cbn [length] in Hl; destruct limit as [|n]; [lia|]; cbn [app copy_name].
    rewrite zget_mid by done; mstep; rewrite decide_False by set_solver.
    replace (a ++ x :: name ++ 0 :: c) with ((a ++ [x]) ++ name ++ 0 :: c) by (by rewrite <- app_assoc).
    replace (Z.of_nat (length a) + 1) with (Z.of_nat (length (a ++ [x])))
      by (rewrite length_app; simpl; lia).
    rewrite IH; [done|set_solver|lia].
Qed.

Lemma full_path_of_name a name c :
  (1 <= length name <= 99)%nat -> 0 ∉ name ->
  full_path_of (a ++ name ++ 0 :: c) (Z.of_nat (length a)) =
    Ok (if decide (head name = Some 47) then name else 47 :: name).
Proof.
  intros Hl H0; unfold full_path_of; pose proof (copy_name_cstr a name c) as Hcopy.
  destruct name as [|x name]; cbn [length] in Hl; [lia|].
  assert (zget (a ++ (x :: name) ++ 0 :: c) (Z.of_nat (length a)) = Ok x) as ->
    by (by apply zget_mid).
  mstep; cbn [head]; destruct (decide (x = 47)) as [->|Hx].
  - rewrite decide_False, Hcopy by (done || (simpl; lia) || naive_solver).
    by rewrite decide_True.
  - rewrite decide_True, Hcopy by (done || (simpl; lia)); mstep.
    by rewrite decide_False by congruence.
Qed.

Lemma padding_length n :
  Z.of_nat n + Z.of_nat (length (padding n)) = (Z.of_nat n + 511) / 512 * 512.
Proof.
  unfold padding; rewrite repeat_length.
  rewrite Nat2Z.inj_mod, Nat2Z.inj_sub, Nat2Z.inj_mod by (pose proof (Nat.mod_upper_bound n 512); lia).
  change (Z.of_nat 512) with 512; set (z := Z.of_nat n); assert (0 <= z) by lia.
  Z.div_mod_to_equations; lia.
Qed.

(** ** Parents *)

(** The directories [mkdir_loop] makes while it copies [r] behind [temp]. *)
Lemma parents_from temp r :
  (fun k => take k (temp ++ r)) <$> filter (fun k => (0 < k)%nat /\ (temp ++ r) !! k = Some 47) (seq (length temp) (length r)) =
  match r with
  | [] => []
  | c :: r' =>
      (if decide (c = 47 /\ (0 < length temp)%nat) then [temp] else []) ++
      ((fun k => take k ((temp ++ [c]) ++ r')) <$>
         filter (fun k => (0 < k)%nat /\ ((temp ++ [c]) ++ r') !! k = Some 47) (seq (length (temp ++ [c])) (length r')))
  end.
Proof.
  destruct r as [|c r]; [done|]; cbn [length seq]; rewrite filter_cons.
  assert ((temp ++ c :: r) !! length temp = Some c) as Hc by (rewrite lookup_app_r, Nat.sub_diag by lia; done).
  rewrite <- (app_assoc temp [c] r), length_app, Nat.add_1_r; cbn [app].
  destruct (decide (c = 47 /\ _)) as [[-> Hl]|Hn].
  - rewrite decide_True by done; rewrite fmap_cons, take_app_length; done.
  - rewrite decide_False; [done|]; rewrite Hc; intros [? [= ->]]; tauto.
Qed.

Fixpoint cuts (temp r : list Z) : list (list Z) :=
  match r with
  | [] => []
  | c :: r => (if decide (c = 47 /\ (0 < length temp)%nat) then [temp] else []) ++ cuts (temp ++ [c]) r
  end.

Lemma cuts_from temp r :
  (fun k => take k (temp ++ r)) <$> filter (fun k => (0 < k)%nat /\ (temp ++ r) !! k = Some 47) (seq (length temp) (length r)) = cuts temp r.
Proof.
  revert temp; induction r as [|c r IH]; intros temp; rewrite parents_from; [done|]; cbn [cuts]; f_equal; apply IH.
Qed.

Lemma parents_cuts path : parents path = cuts [] path.
Proof. exact (cuts_from [] path). Qed.

Lemma cuts_app temp a r : cuts temp (a ++ r) = cuts temp a ++ cuts (temp ++ a) r.
Proof.
  revert temp; induction a as [|c a IH]; intros temp; cbn [app cuts]; [by rewrite app_nil_r|].
  by rewrite IH, <- !app_assoc.
Qed.

Lemma cuts_plain temp b : 47 ∉ b -> cuts temp b = [].
Proof.
  revert temp; induction b as [|c b IH]; intros temp Hb; [done|]; apply not_elem_of_cons in Hb as [Hc Hb].
  cbn [cuts]; rewrite decide_False by (by intros [-> _]); by apply IH.
Qed.

Lemma parents_slash a b : 47 ∉ b -> parents (a ++ 47 :: b) = if decide (a = []) then [] else parents a ++ [a].
Proof.
  intros Hb; rewrite !parents_cuts, cuts_app; cbn [cuts app].
  rewrite (cuts_plain (a ++ [47]) b), app_nil_r by done.
  destruct a as [|c a]; [done|]; rewrite (decide_True (P := 47 = 47 /\ _)) by (split; [done|simpl; lia]); by rewrite decide_False.
Qed.

(** The last slash. *)
Lemma last_slash_plain b j last : 47 ∉ b -> last_slash_of b j last = last.
Proof.
  revert j; induction b as [|c b IH]; intros j Hb; [done|]; apply not_elem_of_cons in Hb as [Hc Hb].
  cbn [last_slash_of]; rewrite decide_False by auto; by apply IH.
Qed.

Lemma last_slash_app a b j last : 47 ∉ b -> last_slash_of (a ++ 47 :: b) j last = j + Z.of_nat (length a).
Proof.
  intros Hb; revert j last; induction a as [|c a IH]; intros j last; cbn [app last_slash_of length].
  - rewrite decide_True, last_slash_plain by done; lia.
  - rewrite IH; lia.
Qed.

Lemma last_slash_split path : 47 ∈ path -> exists a b, path = a ++ 47 :: b /\ 47 ∉ b.
Proof.
  induction path as [|c p IH]; [by intros ?%elem_of_nil|]; intros Hin.
  destruct (decide (47 ∈ p)) as [Hp|Hp]; [destruct (IH Hp) as (a & b & -> & Hb); by exists (c :: a), b|].
  apply elem_of_cons in Hin as [<-|?]; [by exists [], p|done].
Qed.

Section Unpacking.
Context {FS FH : Type} {vfs : VfsOps FS FH}.

(** The header fields of an encoded entry, wherever it lies in the archive. *)
Lemma entry_fields pre e post :
  entry_ok e ->
  let ar := pre ++ encode_entry e ++ post in
  let ptr := Z.of_nat (length pre) in
  field ar ptr 124 11 = Ok (Z.of_nat (length (te_data e))) /\
  field ar ptr 100 7 = Ok (te_mode e) /\
  field ar ptr 108 7 = Ok (te_uid e) /\
  field ar ptr 116 7 = Ok (te_gid e) /\
  full_path_of ar ptr = Ok (te_path e) /\
  zget ar (ptr + 156) = Ok (te_type e) /\
  read_bytes ar (ptr + 512) (length (te_data e)) = Ok (te_data e).
Proof.
  intros (Hn & H0 & Hm & Hu & Hg & Hmisc & Hrest & Hd) ar ptr.
  set (name0 := te_name e ++ repeat 0 (100 - length (te_name e))).
  assert (length name0 = 100)%nat as Hn0 by (unfold name0; rewrite length_app, repeat_length; lia).
  set (t6 := padding (length (te_data e)) ++ post).
  set (t4 := [0] ++ te_misc e ++ [te_type e] ++ te_rest e ++ te_data e ++ t6).
  set (t3 := [0] ++ octal 11 (Z.of_nat (length (te_data e))) ++ t4).
  set (t2 := [0] ++ octal 7 (te_gid e) ++ t3).
  set (t1 := [0] ++ octal 7 (te_uid e) ++ t2).
  set (p1 := pre ++ name0); set (p2 := p1 ++ octal 7 (te_mode e) ++ [0]).
  set (p3 := p2 ++ octal 7 (te_uid e) ++ [0]); set (p4 := p3 ++ octal 7 (te_gid e) ++ [0]).
  set (p5 := p4 ++ octal 11 (Z.of_nat (length (te_data e))) ++ [0] ++ te_misc e).
  set (p6 := p5 ++ [te_type e] ++ te_rest e).
  assert (ar = p1 ++ octal 7 (te_mode e) ++ t1) as E1
    by (unfold ar, p1, name0, encode_entry, t1, t2, t3, t4, t6; by rewrite <- !app_assoc).
  assert (ar = p2 ++ octal 7 (te_uid e) ++ t2) as E2
    by (rewrite E1; unfold p2, t1; by rewrite <- !app_assoc).
  assert (ar = p3 ++ octal 7 (te_gid e) ++ t3) as E3
    by (rewrite E2; unfold p3, t2; by rewrite <- !app_assoc).
  assert (ar = p4 ++ octal 11 (Z.of_nat (length (te_data e))) ++ t4) as E4
    by (rewrite E3; unfold p4, t3; by rewrite <- !app_assoc).
  assert (ar = p5 ++ te_type e :: te_rest e ++ te_data e ++ t6) as E5
    by (rewrite E4; unfold p5, t4; by rewrite <- !app_assoc).
  assert (ar = p6 ++ te_data e ++ t6) as E6
    by (rewrite E5; unfold p6; by rewrite <- !app_assoc).
  assert (length p1 = (length pre + 100)%nat) as L1 by (unfold p1; rewrite length_app; lia).
  assert (length p2 = (length pre + 108)%nat) as L2
    by (unfold p2; rewrite !length_app, octal_length; simpl; lia).
  assert (length p3 = (length pre + 116)%nat) as L3
    by (unfold p3; rewrite !length_app, octal_length; simpl; lia).
  assert (length p4 = (length pre + 124)%nat) as L4
    by (unfold p4; rewrite !length_app, octal_length; simpl; lia).
  assert (length p5 = (length pre + 156)%nat) as L5
    by (unfold p5; rewrite !length_app, octal_length; simpl; lia).
  assert (length p6 = (length pre + 512)%nat) as L6
    by (unfold p6; rewrite !length_app; simpl; lia).
  unfold ptr; split_and!.
  - rewrite E4; apply field_octal; [lia|lia|].
    change (8 ^ Z.of_nat 11) with 8589934592; lia.
  - rewrite E1; apply field_octal; [lia|lia|done].
  - rewrite E2; apply field_octal; [lia|lia|done].
  - rewrite E3; apply field_octal; [lia|lia|done].
  - destruct (100 - length (te_name e))%nat as [|k] eqn:Ek; [lia|].
    assert (ar = pre ++ te_name e ++ 0 :: repeat 0 k ++ octal 7 (te_mode e) ++ t1) as ->
      by (rewrite E1; unfold p1, name0; by rewrite <- !app_assoc).
    by apply full_path_of_name.
  - rewrite E5; apply zget_mid; lia.
  - rewrite E6; apply read_bytes_mid; lia.
Qed.

Lemma mkdir_loop_dirs r temp (fs : FS) : (length temp + length r <= 255)%nat ->
  mkdir_loop r temp fs = with_dirs fs (cuts temp r ++ [temp ++ r]).
Proof.
  revert temp fs; induction r as [|c r IH]; intros temp fs Hl; cbn [mkdir_loop cuts]; [by rewrite app_nil_r|].
  cbn [length] in Hl; rewrite decide_True by lia; rewrite IH by (rewrite length_app; simpl; lia).
  rewrite <- !app_assoc; cbn [app]; by destruct (decide _).
Qed.

Lemma mkdir_recursive_dirs path (fs : FS) : (length path <= 255)%nat ->
  vfs_mkdir_recursive path fs = with_dirs fs (parents path ++ [path]).
Proof. intros Hl; rewrite parents_cuts; by apply (mkdir_loop_dirs path []). Qed.

Lemma make_parent_dirs path (fs : FS) : (length path <= 255)%nat -> 47 ∈ path ->
  make_parent path fs = with_dirs fs (parents path).
Proof.
  intros Hl Hin; destruct (last_slash_split path Hin) as (a & b & -> & Hb); unfold make_parent.
  rewrite parents_slash, last_slash_app by done; rewrite length_app in Hl; cbn [length] in Hl.
  destruct a as [|c a]; [done|]; rewrite decide_True by (simpl; lia); rewrite decide_False by done.
  rewrite Z.add_0_l, Nat2Z.id, take_app_length; apply mkdir_recursive_dirs; lia.
Qed.

Lemma set_attrs_entry e (fs : FS) : entry_ok e ->
  set_attrs (te_path e) (te_mode e) (owner (te_uid e) (te_gid e)).1 (owner (te_uid e) (te_gid e)).2 fs = with_attrs e fs.
Proof.
  intros (_ & _ & Hm & Hu & Hg & _); change (8 ^ 7) with 2097152 in *; unfold set_attrs, with_attrs, owner.
  rewrite (u32_small (te_mode e)) by lia.
  assert ((if decide (te_mode e <> 0) then vfs_chmod (te_path e) (te_mode e) fs else fs) =
    (if decide (te_mode e = 0) then fs else vfs_chmod (te_path e) (te_mode e) fs)) as -> by (repeat case_decide; done).
  destruct (decide (te_uid e = 501 /\ te_gid e = 20)); cbn [fst snd]; [done|]; by rewrite !u32_small by lia.
Qed.

Lemma te_path_ok e : entry_ok e -> (length (te_path e) <= 100)%nat /\ 47 ∈ te_path e.
Proof.
  intros (Hn & _); unfold te_path; case_decide as Hh; [|split; [simpl; lia|by left]].
  split; [lia|]; destruct (te_name e); simplify_eq/=; by left.
Qed.

Lemma tar_entry_install pre e post (fs : FS) :
  entry_ok e ->
  tar_entry (pre ++ encode_entry e ++ post) (Z.of_nat (length pre)) fs =
    Ok (install fs e, Z.of_nat (length (te_data e))).
Proof.
  intros Hok; destruct (entry_fields pre e post Hok) as (E1 & E2 & E3 & E4 & E5 & E6 & E7).
  pose proof (fun fs => set_attrs_entry e fs Hok) as Hat; destruct (te_path_ok e Hok) as [Hpl Hps].
  destruct Hok as (_ & _ & _ & _ & _ & _ & _ & Hd); unfold tar_entry, install.
  rewrite E1; mstep; rewrite E2; mstep; rewrite E3; mstep; rewrite E4; mstep.
  destruct (owner (te_uid e) (te_gid e)) as [uid gid]; cbn [fst snd] in Hat.
  rewrite E5; mstep; rewrite E6; mstep; case_decide.
  { by rewrite mkdir_recursive_dirs, Hat by lia. }
  case_decide; [|done]; rewrite make_parent_dirs by (done || lia).
  destruct (vfs_open_w (te_path e) _) as [[h|] fs1]; mstep; [|by rewrite Hat].
  rewrite i32_small, u64_small, Nat2Z.id, E7 by lia; mstep; by rewrite Hat.
Qed.

Lemma encode_entry_length e :
  entry_ok e -> Z.of_nat (length (encode_entry e)) =
    512 + (Z.of_nat (length (te_data e)) + 511) / 512 * 512.
Proof.
  intros (Hn & _ & _ & _ & _ & Hmisc & Hrest & _); rewrite <- padding_length.
  unfold encode_entry; rewrite !length_app, !octal_length, repeat_length; simpl; lia.
Qed.

(** The archive ends: too short for a header, or a block that starts with 0. *)
Definition archive_end (tail : list Z) : Prop :=
  (length tail < 512)%nat \/ exists t, tail = 0 :: t.

Lemma tar_loop_installs es pre tail fuel (fs : FS) :
  Forall entry_ok es -> archive_end tail -> (length es < fuel)%nat ->
  let ar := pre ++ concat (map encode_entry es) ++ tail in
  tar_loop fuel ar (Z.of_nat (length pre)) (Z.of_nat (length ar)) fs =
    Ok (foldl install fs es).
Proof.
  revert pre fuel fs; induction es as [|e es IH]; intros pre fuel fs Hok Hend Hf ar;
    (destruct fuel as [|f]; [simpl in Hf; lia|]); cbn [tar_loop].
  - unfold ar; cbn [map concat app foldl]; rewrite length_app.
    case_decide as Hd; [|done]; destruct Hend as [?|[t ->]]; [lia|].
    rewrite zget_mid by done; mstep; done.
  - inversion Hok as [|? ? He Hes]; subst; cbn [length] in Hf.
    pose proof (encode_entry_length e He) as Hlen.
    pose proof He as (Hn & H0 & _ & _ & _ & _ & _ & Hd).
    unfold ar; cbn [map concat foldl]; rewrite <- (app_assoc (encode_entry e)).
    set (post := concat (map encode_entry es) ++ tail).
    assert (0 <= (Z.of_nat (length (te_data e)) + 511) / 512) by (apply Z.div_pos; lia).
    rewrite decide_True by (rewrite !length_app; lia).
    assert (exists c r, te_name e = c :: r /\ c <> 0) as (c & r & En & Hc).
    { destruct (te_name e) as [|c r]; cbn [length] in Hn; [lia|]; exists c, r; set_solver. }
    assert (zget (pre ++ encode_entry e ++ post) (Z.of_nat (length pre)) = Ok c) as ->
      by (unfold encode_entry; rewrite En; by apply zget_mid).
    mstep; rewrite decide_False, tar_entry_install by done; mstep.
    rewrite u64_small by lia.
    specialize (IH (pre ++ encode_entry e) f (install fs e) Hes Hend ltac:(lia)).
    cbv zeta in IH; fold post in IH; rewrite <- !app_assoc in IH; rewrite <- IH.
    f_equal; rewrite length_app, Nat2Z.inj_add; lia.
Qed.
End Unpacking.


(** ** A file system that records the calls *)

Inductive fs_call :=
  | Mkdir (path : list Z)
  | OpenW (path : list Z)
  | Write (path data : list Z)
  | Chmod (path : list Z) (mode : Z)
  | Chown (path : list Z) (uid gid : Z).

Definition made (path : list Z) (c : fs_call) : bool :=
  match c with Mkdir p => bool_decide (p = path) | _ => false end.

#[local] Instance log_fs : VfsOps (list fs_call) (list Z) := {
  vfs_exists path fs := existsb (made path) fs;
  vfs_mkdir path fs := fs ++ [Mkdir path];
  vfs_open_w path fs := (Some path, fs ++ [OpenW path]);
  vfs_write path data fs := fs ++ [Write path data];
  vfs_close _ fs := fs;
  vfs_chmod path mode fs := fs ++ [Chmod path mode];
  vfs_chown path uid gid fs := fs ++ [Chown path uid gid];
}.

(** The directory "b" and the file "b/c/x" with three bytes. *)
Definition demo_dir : entry :=
  mkEntry [98] 493 501 20 (repeat 48 20) 53 (repeat 0 355) [].
Definition demo_file : entry :=
  mkEntry [98; 47; 99; 47; 120] 420 501 20 (repeat 48 20) 48 (repeat 0 355) [1; 2; 3].

Lemma demo_entries_ok : Forall entry_ok [demo_dir; demo_file].
Proof.
  apply Forall_cons; split; [|apply Forall_cons; split; [|by apply Forall_nil]];
    (split_and!; [simpl; lia|simpl; lia|by apply (bool_decide_eq_false_1 _)|
      simpl; lia|simpl; lia|simpl; lia|simpl; lia|simpl; lia|simpl; lia|done|done|simpl; lia]).
Qed.


(** The size field is not checked against the archive: the data of a file whose
    header is the last block is read past the end. *)
Lemma tar_truncated_file_faults :
  tar_parse (take 512 (encode_entry demo_file)) 512 [] = Fault.
Proof. by vm_compute. Qed.

(** A name that fills its 100 bytes has no terminator; the scan runs on into the
    mode field and the path ends in the digits of the mode. *)
Lemma tar_long_name_runs_on :
  full_path_of (repeat 97 100 ++ octal 7 420 ++ repeat 0 405) 0 =
    Ok (47 :: repeat 97 100 ++ octal 7 420).
Proof. by vm_compute. Qed.
