(* ===== verification/Pmm.v ===== *)
(** * The physical page allocator (mem/pmm.c, mem/pmm.h)

    A binary buddy allocator over the array of page descriptors, with one set of
    free lists per zone and a small pool of single pages per CPU.  A [page_t *] is
    its index in [pages_array], the page frame number; NULL is [None].  The free
    lists are intrusive and doubly linked through the descriptors, as in the code.
    Calls run one at a time: the zone locks and the interrupt masking are not
    modelled.  Zeroing a frame is an event, the physical address of the frame. *)

From stdpp Require Import base tactics option list numbers gmap.
From Stdlib Require Import ZArith Lia.
From S2P Require Import Prelude.

Local Open Scope Z_scope.

Definition PMM_PAGE_SIZE : Z := 4096.
Definition PMM_PAGE_SHIFT : Z := 12.
Definition PMM_MAX_ORDER : nat := 18.
Definition PMM_DMA_LIMIT : Z := 0x01000000.
Definition PMM_DMA32_LIMIT : Z := 0x100000000.
Definition PCP_BATCH_SIZE : nat := 16.
Definition PCP_MAX_PAGES : nat := 32.
Definition PMM_MAX_CPUS : nat := 64.

Definition PAGE_FLAG_FREE : Z := Z.shiftl 1 0.
Definition PAGE_FLAG_RESERVED : Z := Z.shiftl 1 1.
Definition PAGE_FLAG_ZERO : Z := Z.shiftl 1 5.
Definition PAGE_FLAG_DMA : Z := Z.shiftl 1 9.
Definition PAGE_FLAG_DMA32 : Z := Z.shiftl 1 10.

Definition PMM_ZONE_DMA : nat := 0.
Definition PMM_ZONE_DMA32 : nat := 1.
Definition PMM_ZONE_NORMAL : nat := 2.
Definition PMM_ZONE_COUNT : nat := 3.

Record page := Page {
  pg_flags : Z;
  pg_refcount : Z;
  pg_order : nat;
  pg_zone : nat;
  free_prev : option Z;
  free_next : option Z
}.

Record pmm_zone := Zone {
  base_paddr : Z;
  end_paddr : Z;
  free_lists : list (option Z);
  free_pages : Z
}.

Record pcp_pool := Pool { pcp_count : nat; pcp_pages : list Z }.

(** The static variables of pmm.c. *)
Record pmm := Pmm {
  zones : list pmm_zone;
  pcp_pools : list pcp_pool;
  pmm_smp_ready : bool;
  pages_array : gmap Z page;
  total_page_count : Z;
  usable_page_count : Z;
  pmm_direct_map_base : Z
}.

(** ** Writing one variable *)

Definition with_pages (s : pmm) (P : gmap Z page) : pmm :=
  Pmm (zones s) (pcp_pools s) (pmm_smp_ready s) P (total_page_count s)
      (usable_page_count s) (pmm_direct_map_base s).
Definition with_zones (s : pmm) (Z' : list pmm_zone) : pmm :=
  Pmm Z' (pcp_pools s) (pmm_smp_ready s) (pages_array s) (total_page_count s)
      (usable_page_count s) (pmm_direct_map_base s).
Definition with_pools (s : pmm) (C : list pcp_pool) : pmm :=
  Pmm (zones s) C (pmm_smp_ready s) (pages_array s) (total_page_count s)
      (usable_page_count s) (pmm_direct_map_base s).

Definition set_prev (q : option Z) (g : page) : page :=
  Page (pg_flags g) (pg_refcount g) (pg_order g) (pg_zone g) q (free_next g).
Definition set_next (q : option Z) (g : page) : page :=
  Page (pg_flags g) (pg_refcount g) (pg_order g) (pg_zone g) (free_prev g) q.
Definition set_refcount (c : Z) (g : page) : page :=
  Page (pg_flags g) c (pg_order g) (pg_zone g) (free_prev g) (free_next g).
Definition set_state (order : nat) (flags refcount : Z) (g : page) : page :=
  Page flags refcount order (pg_zone g) (free_prev g) (free_next g).
Definition set_zone (z : nat) (g : page) : page :=
  Page (pg_flags g) (pg_refcount g) (pg_order g) z (free_prev g) (free_next g).

(** A read and an update through a [page_t *]. *)
Definition page_at (s : pmm) (p : Z) : res page := of_opt (pages_array s !! p).
Definition upd_page (s : pmm) (p : Z) (f : page -> page) : res pmm :=
  g ← page_at s p; Ok (with_pages s (<[p := f g]> (pages_array s))).

Definition zone_at (s : pmm) (z : nat) : res pmm_zone := of_opt (zones s !! z).

Definition get_head (s : pmm) (z o : nat) : res (option Z) :=
  zn ← zone_at s z; of_opt (free_lists zn !! o).

Definition set_head (s : pmm) (z o : nat) (h : option Z) : res pmm :=
  zn ← zone_at s z;
  _ ← of_opt (free_lists zn !! o);
  Ok (with_zones s (<[z := Zone (base_paddr zn) (end_paddr zn)
                             (<[o := h]> (free_lists zn)) (free_pages zn)]> (zones s))).

Definition add_free_pages (s : pmm) (z : nat) (n : Z) : res pmm :=
  zn ← zone_at s z;
  Ok (with_zones s (<[z := Zone (base_paddr zn) (end_paddr zn) (free_lists zn)
                             (u64 (free_pages zn + n))]> (zones s))).

(** ** Helpers *)

(** A NULL [pages_array] is the empty map. *)
Definition pfn_to_page (s : pmm) (pfn : Z) : option Z :=
  if decide (total_page_count s <= pfn \/ pages_array s = ∅) then None else Some pfn.

Definition list_add_head (s : pmm) (z o : nat) (p : Z) : res pmm :=
  s ← upd_page s p (set_prev None);
  h ← get_head s z o;
  s ← upd_page s p (set_next h);
  s ← match h with Some q => upd_page s q (set_prev (Some p)) | None => Ok s end;
  set_head s z o (Some p).

Definition list_remove (s : pmm) (z o : nat) (p : Z) : res pmm :=
  g ← page_at s p;
  s ← match free_prev g with
      | Some q => upd_page s q (set_next (free_next g))
      | None => h ← get_head s z o;
                if decide (h = Some p) then set_head s z o (free_next g) else Ok s
      end;
  g ← page_at s p;
  s ← match free_next g with
      | Some q => upd_page s q (set_prev (free_prev g))
      | None => Ok s
      end;
  s ← upd_page s p (set_prev None);
  upd_page s p (set_next None).

Definition paddr_to_zone_id (paddr : Z) : nat :=
  if decide (paddr < PMM_DMA_LIMIT) then PMM_ZONE_DMA
  else if decide (paddr < PMM_DMA32_LIMIT) then PMM_ZONE_DMA32
  else PMM_ZONE_NORMAL.

Definition pow2 (o : nat) : Z := Z.shiftl 1 (Z.of_nat o).

Definition pmm_page_to_paddr (p : Z) : Z := u64 (Z.shiftl p PMM_PAGE_SHIFT).

(** [__builtin_clzll], for a nonzero argument. *)
Definition clzll (x : Z) : Z := 63 - Z.log2 x.

Definition pages_to_order (count : Z) : nat :=
  if decide (count <= 1) then 0%nat
  else if decide (pow2 (PMM_MAX_ORDER - 1) < count) then PMM_MAX_ORDER
  else Z.to_nat (u8 (64 - clzll (count - 1))).

(** ** Allocation *)

(** The inner [while (curr_order > order)]: [k] is [curr_order - order]. *)
Fixpoint split_block (s : pmm) (z : nat) (p : Z) (order k : nat) : res pmm :=
  match k with
  | O => Ok s
  | S k =>
      let curr := (order + k)%nat in
      let buddy_pfn := p + pow2 curr in
      g ← page_at s p;
      buddy ← of_opt (pfn_to_page s buddy_pfn);
      s ← upd_page s buddy (fun b => set_state curr PAGE_FLAG_FREE 0 (set_zone (pg_zone g) b));
      s ← list_add_head s z curr buddy;
      split_block s z p order k
  end.

(** The [for] loop over the orders: [n] orders are left from [order + k] on. *)
Fixpoint alloc_scan (s : pmm) (z : nat) (order : nat) (flags : Z) (n k : nat)
  : res (option Z * pmm) :=
  match n with
  | O => Ok (None, s)
  | S n =>
      h ← get_head s z (order + k);
      match h with
      | None => alloc_scan s z order flags n (S k)
      | Some p =>
          s ← list_remove s z (order + k) p;
          s ← split_block s z p order k;
          s ← upd_page s p (set_state order (Z.land flags (Z.lnot PAGE_FLAG_ZERO)) 1);
          s ← add_free_pages s z (- pow2 order);
          Ok (Some p, s)
      end
  end.

Definition alloc_from_zone_locked (s : pmm) (z order : nat) (flags : Z)
  : res (option Z * pmm) :=
  alloc_scan s z order flags (PMM_MAX_ORDER - order) 0.

(** Up to [n] single pages, as [batch]. *)
Fixpoint alloc_batch (s : pmm) (z n : nat) : res (list Z * pmm) :=
  match n with
  | O => Ok ([], s)
  | S n =>
      '(r, s) ← alloc_from_zone_locked s z 0 0;
      match r with
      | None => Ok ([], s)
      | Some p => '(l, s) ← alloc_batch s z n; Ok (p :: l, s)
      end
  end.

Definition pool_push (c : pcp_pool) (p : Z) : res pcp_pool :=
  l ← zset (pcp_pages c) (Z.of_nat (pcp_count c)) p; Ok (Pool (S (pcp_count c)) l).

Definition pool_pop (c : pcp_pool) : res (Z * pcp_pool) :=
  match pcp_count c with
  | O => Fault
  | S n => p ← zget (pcp_pages c) (Z.of_nat n); Ok (p, Pool n (pcp_pages c))
  end.

Fixpoint pool_push_all (c : pcp_pool) (l : list Z) : res pcp_pool :=
  match l with
  | [] => Ok c
  | p :: l => c ← pool_push c p; pool_push_all c l
  end.

Definition has_flag (flags f : Z) : bool := negb (bool_decide (Z.land flags f = 0)).

(** The frames zeroed for a block. *)
Definition zero_events (flags p : Z) (order : nat) : list Z :=
  if has_flag flags PAGE_FLAG_ZERO then
    (fun i => pmm_page_to_paddr p + Z.of_nat i * PMM_PAGE_SIZE) <$> seq 0 (Z.to_nat (pow2 order))
  else [].

(** A page handed out by the per-CPU path. *)
Definition hand_out (s : pmm) (p flags : Z) : res (option Z * pmm * list Z) :=
  s ← upd_page s p (set_state 0 (Z.land flags (Z.lnot PAGE_FLAG_ZERO)) 1);
  Ok (Some p, s, zero_events flags p 0).

(** The per-CPU path; [inr s] falls through to the zones. *)
Definition alloc_pcp (s : pmm) (cpu : nat) (flags : Z)
  : res ((option Z * pmm * list Z) + pmm) :=
  pcp ← of_opt (pcp_pools s !! cpu);
  if decide (0 < pcp_count pcp)%nat then
    '(p, pcp) ← pool_pop pcp;
    r ← hand_out (with_pools s (<[cpu := pcp]> (pcp_pools s))) p flags;
    Ok (inl r)
  else
    zn ← zone_at s PMM_ZONE_NORMAL;
    let z := if decide (free_pages zn = 0) then PMM_ZONE_DMA32 else PMM_ZONE_NORMAL in
    '(batch, s) ← alloc_batch s z PCP_BATCH_SIZE;
    match batch with
    | [] => Ok (inr s)
    | ret :: rest =>
        pcp ← pool_push_all pcp rest;
        r ← hand_out (with_pools s (<[cpu := pcp]> (pcp_pools s))) ret flags;
        Ok (inl r)
    end.

(** The loop over the zones, from [start_zone] down to [min_zone]. *)
Fixpoint alloc_zones (s : pmm) (zs : list nat) (order : nat) (flags : Z)
  : res (option Z * pmm) :=
  match zs with
  | [] => Ok (None, s)
  | z :: zs =>
      '(r, s) ← alloc_from_zone_locked s z order flags;
      match r with
      | Some p => Ok (Some p, s)
      | None => alloc_zones s zs order flags
      end
  end.

Definition zone_order (flags : Z) : list nat :=
  if has_flag flags PAGE_FLAG_DMA then [PMM_ZONE_DMA]
  else if has_flag flags PAGE_FLAG_DMA32 then [PMM_ZONE_DMA32; PMM_ZONE_DMA]
  else [PMM_ZONE_NORMAL; PMM_ZONE_DMA32; PMM_ZONE_DMA].

(** [cpu] is [smp_this_cpu_id()]. *)
Definition cpu_slot (cpu : nat) : nat := if decide (PMM_MAX_CPUS <= cpu)%nat then 0%nat else cpu.

Definition pmm_alloc_order (s : pmm) (cpu order : nat) (flags : Z)
  : res (option Z * pmm * list Z) :=
  if decide (PMM_MAX_ORDER <= order)%nat then Ok (None, s, [])
  else
    r ← (if decide (order = 0%nat /\ (flags = 0 \/ flags = PAGE_FLAG_ZERO) /\
                    pmm_smp_ready s = true)
         then alloc_pcp s (cpu_slot cpu) flags else Ok (inr s));
    match r with
    | inl r => Ok r
    | inr s =>
        '(r, s) ← alloc_zones s (zone_order flags) order flags;
        Ok (r, s, match r with Some p => zero_events flags p order | None => [] end)
    end.

Definition pmm_alloc_page (s : pmm) (cpu : nat) (flags : Z) := pmm_alloc_order s cpu 0 flags.

Definition pmm_alloc_pages (s : pmm) (cpu : nat) (count flags : Z)
  : res (option Z * pmm * list Z) :=
  if decide (count = 0) then Ok (None, s, [])
  else
    let order := pages_to_order count in
    if decide (PMM_MAX_ORDER <= order)%nat then Ok (None, s, [])
    else pmm_alloc_order s cpu order flags.

(** ** Freeing *)

(** The coalescing loop: [n] is [PMM_MAX_ORDER - 1 - curr_order]. *)
Fixpoint merge_loop (s : pmm) (z : nat) (p : Z) (curr n : nat) : res (pmm * Z * nat) :=
  match n with
  | O => Ok (s, p, curr)
  | S n =>
      let buddy_pfn := Z.lxor p (pow2 curr) in
      if decide (total_page_count s <= buddy_pfn) then Ok (s, p, curr)
      else match pfn_to_page s buddy_pfn with
      | None => Ok (s, p, curr)
      | Some buddy =>
          b ← page_at s buddy;
          g ← page_at s p;
          if negb (has_flag (pg_flags b) PAGE_FLAG_FREE) then Ok (s, p, curr)
          else if decide (pg_order b <> curr) then Ok (s, p, curr)
          else if decide (pg_zone b <> pg_zone g) then Ok (s, p, curr)
          else if decide (pg_refcount b <> 0) then Ok (s, p, curr)
          else
            s ← list_remove s z curr buddy;
            merge_loop s z (if decide (buddy < p) then buddy else p) (S curr) n
      end
  end.

Definition free_to_zone_locked (s : pmm) (z : nat) (p : Z) (order : nat) : res pmm :=
  '(s, p, curr) ← merge_loop s z p order (PMM_MAX_ORDER - 1 - order);
  s ← upd_page s p (set_state curr PAGE_FLAG_FREE 0);
  s ← list_add_head s z curr p;
  add_free_pages s z (pow2 order).

(** [drain_batch]: [n] pages popped from the pool. *)
Fixpoint pool_pops (c : pcp_pool) (n : nat) : res (list Z * pcp_pool) :=
  match n with
  | O => Ok ([], c)
  | S n => '(p, c) ← pool_pop c; '(l, c) ← pool_pops c n; Ok (p :: l, c)
  end.

Fixpoint free_batch (s : pmm) (z : nat) (l : list Z) : res pmm :=
  match l with
  | [] => Ok s
  | p :: l => s ← free_to_zone_locked s z p 0; free_batch s z l
  end.

Definition pmm_free_order (s : pmm) (cpu : nat) (page : option Z) (order : nat) : res pmm :=
  match page with
  | None => Ok s
  | Some p =>
      if decide (PMM_MAX_ORDER <= order)%nat then Ok s
      else
        g ← page_at s p;
        let prev := pg_refcount g in
        s ← upd_page s p (set_refcount (u32 (prev - 1)));
        if decide (1 < prev) then Ok s
        else if decide (prev = 0) then upd_page s p (set_refcount 0)
        else
          let cpu := cpu_slot cpu in
          if decide (order = 0%nat /\ pg_zone g = PMM_ZONE_NORMAL /\ pmm_smp_ready s = true)
          then
            pcp ← of_opt (pcp_pools s !! cpu);
            if decide (pcp_count pcp < PCP_MAX_PAGES)%nat then
              pcp ← pool_push pcp p;
              Ok (with_pools s (<[cpu := pcp]> (pcp_pools s)))
            else
              '(drain_batch, pcp) ← pool_pops pcp PCP_BATCH_SIZE;
              pcp ← pool_push pcp p;
              free_batch (with_pools s (<[cpu := pcp]> (pcp_pools s)))
                PMM_ZONE_NORMAL drain_batch
          else free_to_zone_locked s (pg_zone g) p order
  end.

Definition pmm_free_page (s : pmm) (cpu : nat) (page : option Z) : res pmm :=
  pmm_free_order s cpu page 0.

Definition pmm_free_pages (s : pmm) (cpu : nat) (page : option Z) (count : Z) : res pmm :=
  match page with
  | None => Ok s
  | Some p =>
      if decide (count = 0) then Ok s
      else
        let order := pages_to_order count in
        if decide (PMM_MAX_ORDER <= order)%nat then Ok s
        else pmm_free_order s cpu (Some p) order
  end.

Definition pmm_page_ref (s : pmm) (page : option Z) : res pmm :=
  match page with
  | None => Ok s
  | Some p => g ← page_at s p; upd_page s p (set_refcount (u32 (pg_refcount g + 1)))
  end.

Definition pmm_page_unref (s : pmm) (cpu : nat) (page : option Z) : res pmm :=
  match page with
  | None => Ok s
  | Some p => g ← page_at s p; pmm_free_order s cpu (Some p) (pg_order g)
  end.

(** ** Addresses and statistics *)

Definition pmm_paddr_to_page (s : pmm) (paddr : Z) : option Z :=
  pfn_to_page s (Z.shiftr paddr PMM_PAGE_SHIFT).

Definition pmm_vaddr_to_page (s : pmm) (vaddr : Z) : option Z :=
  if decide (vaddr = 0 \/ pmm_direct_map_base s = 0) then None
  else pmm_paddr_to_page s (u64 (vaddr - pmm_direct_map_base s)).

Definition pmm_page_to_vaddr (s : pmm) (page : option Z) : Z :=
  match page with
  | None => 0
  | Some p => if decide (pmm_direct_map_base s = 0) then 0
              else u64 (pmm_page_to_paddr p + pmm_direct_map_base s)
  end.

(** [total_pages], [free_pages] and [reserved_pages]; the other two fields stay 0. *)
Definition pmm_get_stats (s : pmm) : Z * Z * Z :=
  let free := foldl (fun a z => u64 (a + free_pages z)) 0 (zones s) in
  (usable_page_count s, free,
   if decide (free < usable_page_count s) then usable_page_count s - free else 0).

(** ** Boot *)

Definition pmm_init_percpu (s : pmm) : pmm :=
  Pmm (zones s) ((fun c => Pool 0 (pcp_pages c)) <$> pcp_pools s) true (pages_array s)
      (total_page_count s) (usable_page_count s) (pmm_direct_map_base s).

Definition add_free_block (s : pmm) (base_pfn : Z) (order : nat) : res pmm :=
  match pfn_to_page s base_pfn with
  | None => Ok s
  | Some p =>
      g ← page_at s p;
      let z := pg_zone g in
      s ← upd_page s p (set_state order PAGE_FLAG_FREE 0);
      s ← list_add_head s z order p;
      s ← add_free_pages s z (pow2 order);
      Ok (Pmm (zones s) (pcp_pools s) (pmm_smp_ready s) (pages_array s)
              (total_page_count s) (u64 (usable_page_count s + pow2 order))
              (pmm_direct_map_base s))
  end.

(** The inner loop: the order of the next block; [n] is [PMM_MAX_ORDER - 1 - order]. *)
Fixpoint block_order (curr_pfn end_pfn : Z) (order n : nat) : nat :=
  match n with
  | O => order
  | S n =>
      let block_size := pow2 (S order) in
      if decide (Z.land curr_pfn (block_size - 1) <> 0 \/ end_pfn < curr_pfn + block_size)
      then order
      else if decide (paddr_to_zone_id (Z.shiftl curr_pfn PMM_PAGE_SHIFT) <>
                      paddr_to_zone_id (Z.shiftl (curr_pfn + block_size - 1) PMM_PAGE_SHIFT))
      then order
      else block_order curr_pfn end_pfn (S order) n
  end.

Fixpoint ingest_loop (fuel : nat) (s : pmm) (curr_pfn end_pfn : Z) : res pmm :=
  match fuel with
  | O => NoFuel
  | S f =>
      if decide (curr_pfn < end_pfn) then
        let order := block_order curr_pfn end_pfn 0 (PMM_MAX_ORDER - 1) in
        s ← add_free_block s curr_pfn order;
        ingest_loop f s (curr_pfn + pow2 order) end_pfn
      else Ok s
  end.

(** Every block has at least one page, so one round per page is enough. *)
Definition ingest_usable_range (s : pmm) (start_paddr end_paddr : Z) : res pmm :=
  let start_pfn := Z.shiftr start_paddr PMM_PAGE_SHIFT in
  let end_pfn := Z.shiftr end_paddr PMM_PAGE_SHIFT in
  ingest_loop (S (Z.to_nat (end_pfn - start_pfn))) s start_pfn end_pfn.

Definition PMM_REGION_USABLE : Z := 1.

Record pmm_mem_region := Region { rg_base : Z; rg_length : Z; rg_type : Z }.

(** [sizeof(page_t)] on x86-64. *)
Definition sizeof_page : Z := 56.

Definition max_paddr_of (rs : list pmm_mem_region) : Z :=
  foldl (fun m r => if decide (rg_type r <> PMM_REGION_USABLE) then m
                    else let top := u64 (rg_base r + rg_length r) in
                         if decide (m < top) then top else m) 0 rs.

Definition page_up (x : Z) : Z := Z.land (u64 (x + 0xFFF)) (Z.lnot 0xFFF).

(** [array_paddr] and [max_usable_len]. *)
Definition array_place (rs : list pmm_mem_region) : Z * Z :=
  foldl (fun '(a, m) r =>
           if decide (rg_type r = PMM_REGION_USABLE /\ m < rg_length r)
           then (page_up (rg_base r), rg_length r) else (a, m)) (0, 0) rs.

Definition empty_zone (b e : Z) : pmm_zone :=
  Zone b e (replicate PMM_MAX_ORDER None) 0.

Definition boot_page (pfn : Z) : page :=
  Page PAGE_FLAG_RESERVED 1 0 (paddr_to_zone_id (Z.shiftl pfn PMM_PAGE_SHIFT)) None None.

Definition boot_pages (n : nat) : gmap Z page :=
  list_to_map ((fun i => (Z.of_nat i, boot_page (Z.of_nat i))) <$> seq 0 n).

Fixpoint ingest_regions (s : pmm) (array_start array_end : Z) (rs : list pmm_mem_region)
  : res pmm :=
  match rs with
  | [] => Ok s
  | r :: rs =>
      if decide (rg_type r <> PMM_REGION_USABLE) then ingest_regions s array_start array_end rs
      else
        let aligned_base := page_up (rg_base r) in
        let aligned_end := Z.land (u64 (rg_base r + rg_length r)) (Z.lnot 0xFFF) in
        if decide (aligned_end <= aligned_base) then ingest_regions s array_start array_end rs
        else
          let start_ := Z.shiftr aligned_base PMM_PAGE_SHIFT in
          let end_ := Z.shiftr aligned_end PMM_PAGE_SHIFT in
          s ← (if decide (end_ <= array_start \/ array_end <= start_) then
                 ingest_usable_range s aligned_base aligned_end
               else
                 s ← (if decide (start_ < array_start) then
                        ingest_usable_range s (Z.shiftl start_ PMM_PAGE_SHIFT)
                          (Z.shiftl array_start PMM_PAGE_SHIFT)
                      else Ok s);
                 if decide (array_end < end_) then
                   ingest_usable_range s (Z.shiftl array_end PMM_PAGE_SHIFT)
                     (Z.shiftl end_ PMM_PAGE_SHIFT)
                 else Ok s);
          ingest_regions s array_start array_end rs
  end.

(** [s] is the state before: zero-initialised statics. *)
Definition pmm_static : pmm :=
  Pmm (replicate PMM_ZONE_COUNT (empty_zone 0 0))
      (replicate PMM_MAX_CPUS (Pool 0 (replicate PCP_MAX_PAGES 0))) false ∅ 0 0 0.

Definition pmm_init (rs : list pmm_mem_region) (direct_map_base : Z) : res pmm :=
  if decide (rs = []) then Ok pmm_static
  else
    let zs := [empty_zone 0 PMM_DMA_LIMIT; empty_zone PMM_DMA_LIMIT PMM_DMA32_LIMIT;
               empty_zone PMM_DMA32_LIMIT (u64 (-1))] in
    let total := Z.shiftr (max_paddr_of rs) PMM_PAGE_SHIFT in
    let array_size := Z.land (u64 (total * sizeof_page + PMM_PAGE_SIZE - 1))
                             (Z.lnot (PMM_PAGE_SIZE - 1)) in
    let '(array_paddr, max_usable_len) := array_place rs in
    let s := Pmm zs (pcp_pools pmm_static) false ∅ total 0 direct_map_base in
    if decide (array_paddr = 0 \/ max_usable_len < array_size) then Ok s
    else
      ingest_regions (with_pages s (boot_pages (Z.to_nat total)))
        (Z.shiftr array_paddr PMM_PAGE_SHIFT)
        (Z.shiftr (u64 (array_paddr + array_size)) PMM_PAGE_SHIFT) rs.
