(* ===== verification/PmmLists.v ===== *)
(** * The free lists of the page allocator

    What the intrusive doubly linked lists of mem/pmm.c hold ([dll]), and the
    effect of [list_add_head] and [list_remove] on all the free lists of a state. *)

From stdpp Require Import base tactics option list numbers gmap.
From Stdlib Require Import ZArith Lia.
From S2P Require Import Prelude Pmm.

Local Open Scope Z_scope.

(** ** Doubly linked segments *)

Definition hdd (n : option Z) (l : list Z) : option Z :=
  match l with [] => n | x :: _ => Some x end.
Definition lastd (p : option Z) (l : list Z) : option Z :=
  match last l with Some x => Some x | None => p end.

(** [dll P a l n]: the pages [l] are linked in this order; the first one's
    [free_prev] is [a] and the last one's [free_next] is [n]. *)
Fixpoint dll (P : gmap Z page) (a : option Z) (l : list Z) (n : option Z) : Prop :=
  match l with
  | [] => True
  | p :: l => (exists g, P !! p = Some g /\ free_prev g = a /\ free_next g = hdd n l) /\
              dll P (Some p) l n
  end.

Lemma lastd_cons a p l : lastd a (p :: l) = lastd (Some p) l.
Proof. unfold lastd; rewrite last_cons; by destruct (last l). Qed.

Lemma lastd_snoc a p l : lastd a (l ++ [p]) = Some p.
Proof. unfold lastd; by rewrite last_snoc. Qed.

Lemma hdd_app n l l' : hdd n (l ++ l') = hdd (hdd n l') l.
Proof. by destruct l. Qed.

Lemma dll_app P a l l' n :
  dll P a (l ++ l') n <-> dll P a l (hdd n l') /\ dll P (lastd a l) l' n.
Proof.
  revert a; induction l as [|p l IH]; intros a; simpl; [tauto|].
  rewrite IH, hdd_app, lastd_cons; tauto.
Qed.

(** Only the links of the listed pages matter. *)
Definition links (g : page) : option Z * option Z := (free_prev g, free_next g).

Lemma dll_frame P P' a l n :
  (forall q, q ∈ l -> links <$> P' !! q = links <$> P !! q) -> dll P a l n -> dll P' a l n.
Proof.
  revert a; induction l as [|p l IH]; intros a H; simpl; [done|].
  intros [(g & Hg & H1 & H2) Hl]; split; [|by apply IH; [intros q Hq; apply H; by right|]].
  specialize (H p ltac:(by left)); rewrite Hg in H; simpl in H.
  apply fmap_Some in H as (g' & Hg' & E); unfold links in E; simplify_eq; eauto.
  exists g'; split; [done|]; split; congruence.
Qed.

Lemma dll_insert_notin P q g a l n : q ∉ l -> dll P a l n -> dll (<[q := g]> P) a l n.
Proof. intros Hq; apply dll_frame; intros q' ?; rewrite lookup_insert_ne; set_solver. Qed.

Lemma dll_lookup P a l n p : dll P a l n -> p ∈ l -> is_Some (P !! p).
Proof.
  revert a; induction l as [|q l IH]; intros a; simpl; [by intros _ ?%not_elem_of_nil|].
  intros [(g & Hg & _) Hl] [->|Hp]%elem_of_cons; [by eexists|by eapply IH].
Qed.

(** The page at a split point, and its neighbours. *)
Lemma dll_mid P a l1 p l2 n g :
  dll P a (l1 ++ p :: l2) n -> P !! p = Some g ->
  free_prev g = lastd a l1 /\ free_next g = hdd n l2.
Proof. intros [_ [(g' & Hg' & ? & ?) _]]%dll_app Hg; simplify_eq; done. Qed.

Lemma dll_set_prev P a b q l n g :
  NoDup (q :: l) -> P !! q = Some g -> dll P a (q :: l) n ->
  dll (<[q := set_prev b g]> P) b (q :: l) n.
Proof.
  intros [Hq _]%NoDup_cons Hg [(g' & Hg' & _ & Hn) Hl]; simplify_eq; split.
  - eexists; rewrite lookup_insert_eq; done.
  - by apply dll_insert_notin.
Qed.

Lemma dll_set_next P a q l m n g :
  NoDup (l ++ [q]) -> P !! q = Some g -> dll P a (l ++ [q]) n ->
  dll (<[q := set_next m g]> P) a (l ++ [q]) m.
Proof.
  intros Hnd Hg Hd; apply dll_app in Hd as [H1 [(g' & Hg' & Hp & _) _]]; simplify_eq.
  apply NoDup_app in Hnd as (_ & Hnq & _).
  apply dll_app; split.
  - apply dll_insert_notin; [intros ?; by eapply Hnq; [|left]|done].
  - split; [|done]; eexists; rewrite lookup_insert_eq; done.
Qed.

(** The part of a descriptor that is not a link. *)
Definition desc (g : page) : Z * Z * nat * nat :=
  (pg_flags g, pg_refcount g, pg_order g, pg_zone g).

Definition same_desc (P P' : gmap Z page) : Prop := desc <$> P' = desc <$> P.

Lemma same_desc_insert P q f g :
  P !! q = Some g -> desc (f g) = desc g -> same_desc P (<[q := f g]> P).
Proof.
  intros Hq Hd; unfold same_desc; rewrite fmap_insert, Hd.
  apply insert_id; by rewrite lookup_fmap, Hq.
Qed.

#[export] Instance same_desc_preorder : PreOrder same_desc.
Proof. split; [done|]; intros P Q R H1 H2; unfold same_desc in *; congruence. Qed.

Lemma same_desc_lookup P P' q g :
  same_desc P P' -> P !! q = Some g -> exists g', P' !! q = Some g' /\ desc g' = desc g.
Proof.
  intros H Hg; assert (E : (desc <$> P') !! q = (desc <$> P) !! q) by (by rewrite H).
  rewrite !lookup_fmap, Hg in E; simpl in E; apply fmap_Some in E as (g' & ? & ?); eauto.
Qed.

Lemma same_desc_lookup_inv P P' q g' :
  same_desc P P' -> P' !! q = Some g' -> exists g, P !! q = Some g /\ desc g' = desc g.
Proof.
  intros H Hg; symmetry in H; destruct (same_desc_lookup _ _ _ _ H Hg) as (g & ? & ?); eauto.
Qed.

(** ** Removing from and adding to one list *)

Lemma dll_remove P l1 p l2 g :
  NoDup (l1 ++ p :: l2) -> dll P None (l1 ++ p :: l2) None -> P !! p = Some g ->
  exists P1 P2 P3,
    match free_prev g with
    | Some q => exists gq, P !! q = Some gq /\ P1 = <[q := set_next (free_next g) gq]> P
    | None => P1 = P /\ l1 = []
    end /\
    P1 !! p = Some g /\
    match free_next g with
    | Some q => exists gq, P1 !! q = Some gq /\ P2 = <[q := set_prev (free_prev g) gq]> P1
    | None => P2 = P1
    end /\
    P2 !! p = Some g /\
    P3 = <[p := set_next None (set_prev None g)]> P2 /\
    dll P3 None (l1 ++ l2) None /\ same_desc P P3 /\
    (forall q, q ∉ l1 ++ p :: l2 -> P3 !! q = P !! q).
Proof.
  intros Hnd Hd Hg; destruct (dll_mid _ _ _ _ _ _ _ Hd Hg) as [Hprev Hnext].
  rewrite Hprev, Hnext; clear Hprev Hnext.
  apply dll_app in Hd as [H1 [_ H2]]; simpl in H1.
  apply NoDup_app in Hnd as (Hn1 & Hn12 & Hn2); apply NoDup_cons in Hn2 as [Hp2 Hn2].
  assert (Hp1 : p ∉ l1) by (intros ?; by eapply Hn12; [|left]).
  (* the predecessor *)
  assert (exists P1, match lastd None l1 with
      | Some q => exists gq, P !! q = Some gq /\ P1 = <[q := set_next (hdd None l2) gq]> P
      | None => P1 = P /\ l1 = [] end /\ P1 !! p = Some g /\ dll P1 None l1 (hdd None l2) /\
      dll P1 (Some p) l2 None /\ same_desc P P1 /\
      (forall q, q ∉ l1 -> P1 !! q = P !! q)) as (P1 & E1 & G1 & D1 & D1' & S1 & F1).
  { destruct l1 as [|a l1 _] using rev_ind; [exists P; done|]; rewrite lastd_snoc.
    destruct (dll_lookup _ _ _ _ a H1) as [ga Hga]; [set_solver|].
    eexists; split; [exists ga; done|]; split_and!.
    - rewrite lookup_insert_ne by set_solver; done.
    - by eapply dll_set_next.
    - apply dll_insert_notin; [|done]; intros ?; eapply Hn12; [|by right]; set_solver.
    - by apply (same_desc_insert _ _ (set_next (hdd None l2))).
    - intros q Hq; rewrite lookup_insert_ne by set_solver; done. }
  (* the successor *)
  assert (exists P2, match hdd None l2 with
      | Some q => exists gq, P1 !! q = Some gq /\ P2 = <[q := set_prev (lastd None l1) gq]> P1
      | None => P2 = P1 end /\ P2 !! p = Some g /\ dll P2 None l1 (hdd None l2) /\
      dll P2 (lastd None l1) l2 None /\ same_desc P1 P2 /\
      (forall q, q ∉ l2 -> P2 !! q = P1 !! q)) as (P2 & E2 & G2 & D2 & D2' & S2 & F2).
  { destruct l2 as [|b l2]; [exists P1; done|]; simpl hdd in *.
    destruct (dll_lookup _ _ _ _ b D1') as [gb Hgb]; [by left|].
    eexists; split; [exists gb; done|]; split_and!.
    - rewrite lookup_insert_ne by set_solver; done.
    - apply dll_insert_notin; [|done]; intros ?; eapply Hn12; [done|]; right; by left.
    - by eapply dll_set_prev.
    - by apply (same_desc_insert _ _ (set_prev (lastd None l1))).
    - intros q Hq; rewrite lookup_insert_ne by set_solver; done. }
  exists P1, P2, (<[p := set_next None (set_prev None g)]> P2).
  split_and!; try done.
  - apply dll_app; split; apply dll_insert_notin; try done; set_solver.
  - etrans; [exact S1|]; etrans; [exact S2|].
    by apply (same_desc_insert _ _ (fun g => set_next None (set_prev None g))).
  - intros q Hq; rewrite lookup_insert_ne, F2, F1; set_solver.
Qed.

(** ** All the free lists of a state *)

Definition lists := nat -> nat -> list Z.

Definition lupd (L : lists) (z o : nat) (l : list Z) : lists :=
  fun z' o' => if decide (z' = z /\ o' = o) then l else L z' o'.

Lemma lupd_eq L z o l : lupd L z o l z o = l.
Proof. unfold lupd; by rewrite decide_True. Qed.

Lemma lupd_ne L z o l z' o' : ~ (z' = z /\ o' = o) -> lupd L z o l z' o' = L z' o'.
Proof. intros; unfold lupd; by rewrite decide_False. Qed.

Record lists_rep (s : pmm) (L : lists) : Prop := {
  lr_len : length (zones s) = PMM_ZONE_COUNT;
  lr_heads : forall z zn, zones s !! z = Some zn ->
    length (free_lists zn) = PMM_MAX_ORDER /\
    forall o, (o < PMM_MAX_ORDER)%nat -> free_lists zn !! o = Some (hdd None (L z o));
  lr_dll : forall z o, dll (pages_array s) None (L z o) None;
  lr_nodup : forall z o, NoDup (L z o);
  lr_disj : forall z o z' o' p, p ∈ L z o -> p ∈ L z' o' -> z = z' /\ o = o';
  lr_dom : forall z o p, p ∈ L z o -> (z < PMM_ZONE_COUNT)%nat /\ (o < PMM_MAX_ORDER)%nat
}.

(** [s'] differs from [s] in links and list heads only. *)
Record lists_only (s s' : pmm) : Prop := {
  lo_desc : same_desc (pages_array s) (pages_array s');
  lo_pools : pcp_pools s' = pcp_pools s;
  lo_ready : pmm_smp_ready s' = pmm_smp_ready s;
  lo_total : total_page_count s' = total_page_count s;
  lo_usable : usable_page_count s' = usable_page_count s;
  lo_direct : pmm_direct_map_base s' = pmm_direct_map_base s;
  lo_free : free_pages <$> zones s' = free_pages <$> zones s
}.

#[export] Instance lists_only_preorder : PreOrder lists_only.
Proof.
  split; [by split|]; intros s1 s2 s3 [] []; split; try congruence; by etrans.
Qed.

Lemma rep_zone s L z : lists_rep s L -> (z < PMM_ZONE_COUNT)%nat -> exists zn, zones s !! z = Some zn.
Proof. intros [Hl _ _ _ _] Hz; apply lookup_lt_is_Some_2; by rewrite Hl. Qed.

Lemma get_head_ok s L z o :
  lists_rep s L -> (z < PMM_ZONE_COUNT)%nat -> (o < PMM_MAX_ORDER)%nat ->
  get_head s z o = Ok (hdd None (L z o)).
Proof.
  intros HR Hz Ho; destruct (rep_zone _ _ _ HR Hz) as [zn Hzn].
  unfold get_head, zone_at; rewrite Hzn; cbn [of_opt]; mstep.
  destruct (lr_heads _ _ HR _ _ Hzn) as [_ H]; by rewrite H.
Qed.

Lemma set_head_ok s z o h zn x :
  zones s !! z = Some zn -> free_lists zn !! o = Some x ->
  set_head s z o h = Ok (with_zones s (<[z := Zone (base_paddr zn) (end_paddr zn)
                           (<[o := h]> (free_lists zn)) (free_pages zn)]> (zones s))).
Proof.
  intros Hz Ho; unfold set_head, zone_at; rewrite Hz; cbn [of_opt]; mstep; by rewrite Ho.
Qed.

(** Pages and heads after an update of the list [z], [o]. *)
Lemma lists_rep_upd s L z o l zn P' :
  lists_rep s L -> zones s !! z = Some zn -> (o < PMM_MAX_ORDER)%nat ->
  NoDup l -> dll P' None l None ->
  (forall z' o' p, ~ (z' = z /\ o' = o) -> p ∈ L z' o' ->
     p ∉ l /\ links <$> P' !! p = links <$> pages_array s !! p) ->
  forall C r t u d,
  lists_rep (Pmm (<[z := Zone (base_paddr zn) (end_paddr zn)
                       (<[o := hdd None l]> (free_lists zn)) (free_pages zn)]> (zones s))
               C r P' t u d) (lupd L z o l).
Proof.
  intros HR Hzn Ho Hnd Hd Hf C r t u d; split; cbn [zones pages_array].
  - rewrite length_insert; apply HR.
  - intros z' zn' Hz'; destruct (decide (z' = z)) as [->|Hne].
    + rewrite list_lookup_insert_eq in Hz' by (by eapply lookup_lt_Some); simplify_eq.
      cbn [free_lists]; destruct (lr_heads _ _ HR _ _ Hzn) as [Hlen Hh].
      rewrite length_insert; split; [done|]; intros o' Ho'; destruct (decide (o' = o)) as [->|Hoo].
      * rewrite list_lookup_insert_eq by lia; by rewrite lupd_eq.
      * rewrite list_lookup_insert_ne, lupd_ne by naive_solver; by apply Hh.
    + rewrite list_lookup_insert_ne in Hz' by done.
      destruct (lr_heads _ _ HR _ _ Hz') as [Hlen Hh]; split; [done|]; intros o' Ho'.
      rewrite lupd_ne by naive_solver; by apply Hh.
  - intros z' o'; destruct (decide (z' = z /\ o' = o)) as [[-> ->]|Hne]; [by rewrite lupd_eq|].
    rewrite lupd_ne by done; eapply dll_frame; [|apply HR]; intros q Hq; by eapply Hf.
  - intros z' o'; destruct (decide (z' = z /\ o' = o)) as [[-> ->]|Hne]; [by rewrite lupd_eq|].
    rewrite lupd_ne by done; apply HR.
  - intros z1 o1 z2 o2 p; unfold lupd; repeat case_decide; intros H1 H2.
    + naive_solver.
    + destruct (Hf z2 o2 p); [done|done|done].
    + destruct (Hf z1 o1 p); [done|done|done].
    + by eapply (lr_disj _ _ HR).
  - intros z' o' p; unfold lupd; case_decide as E; [destruct E as [-> ->]; intros _|apply HR].
    split; [|done]; rewrite <-(lr_len _ _ HR); by eapply lookup_lt_Some.
Qed.

Lemma free_pages_insert (zs : list pmm_zone) z zn fl :
  zs !! z = Some zn ->
  free_pages <$> <[z := Zone (base_paddr zn) (end_paddr zn) fl (free_pages zn)]> zs =
  free_pages <$> zs.
Proof.
  intros Hz; rewrite list_fmap_insert; apply list_insert_id; by rewrite list_lookup_fmap, Hz.
Qed.

Lemma upd_page_ok s p f g :
  pages_array s !! p = Some g -> upd_page s p f = Ok (with_pages s (<[p := f g]> (pages_array s))).
Proof. intros H; unfold upd_page, page_at; by rewrite H. Qed.

Lemma list_add_head_spec s L z o p :
  lists_rep s L -> (z < PMM_ZONE_COUNT)%nat -> (o < PMM_MAX_ORDER)%nat ->
  is_Some (pages_array s !! p) -> (forall z' o', p ∉ L z' o') ->
  exists s', list_add_head s z o p = Ok s' /\ lists_rep s' (lupd L z o (p :: L z o)) /\
    lists_only s s'.
Proof.
  intros HR Hz Ho [g Hg] Hnin; destruct (rep_zone _ _ _ HR Hz) as [zn Hzn].
  pose proof (lr_heads _ _ HR _ _ Hzn) as [_ Hh]; specialize (Hh o Ho).
  pose proof (lr_nodup _ _ HR z o) as Hnd; pose proof (lr_dll _ _ HR z o) as Hd.
  pose proof (get_head_ok _ _ _ _ HR Hz Ho) as Hgh.
  unfold list_add_head; rewrite (upd_page_ok _ _ _ g) by done; mstep.
  change (get_head (with_pages s _) z o) with (get_head s z o); rewrite Hgh; mstep.
  rewrite (upd_page_ok _ _ _ (set_prev None g)) by apply lookup_insert_eq; mstep.
  cbn [with_pages pages_array]; rewrite insert_insert_eq.
  set (P1 := <[p := set_next (hdd None (L z o)) (set_prev None g)]> (pages_array s)).
  assert (exists P2, match hdd None (L z o) with
      | Some q => upd_page (with_pages s P1) q (set_prev (Some p))
      | None => Ok (with_pages s P1) end = Ok (with_pages s P2) /\
      dll P2 None (p :: L z o) None /\ same_desc (pages_array s) P2 /\
      forall q, q ∉ p :: L z o -> P2 !! q = pages_array s !! q) as (P2 & E2 & D2 & S2 & F2).
  { assert (S1 : same_desc (pages_array s) P1)
      by (by apply (same_desc_insert _ _ (fun g => set_next _ (set_prev None g)))).
    specialize (Hnin z o).
    destruct (L z o) as [|h l]; simpl hdd in *.
    - exists P1; split_and!; [done| |done|].
      + split; [|done]; eexists; unfold P1; rewrite lookup_insert_eq; done.
      + intros q Hq; unfold P1; rewrite lookup_insert_ne; set_solver.
    - destruct (dll_lookup _ _ _ _ h Hd) as [gh Hgh']; [by left|].
      assert (Hgh1 : P1 !! h = Some gh) by (unfold P1; rewrite lookup_insert_ne; set_solver).
      assert (Hd1 : dll P1 None (h :: l) None) by (by apply dll_insert_notin).
      eexists; split_and!; [by rewrite (upd_page_ok _ _ _ gh)| | |].
      + split; [|by eapply dll_set_prev].
        exists (set_next (Some h) (set_prev None g)); split_and!; [|done|done].
        cbn [with_pages pages_array].
        rewrite lookup_insert_ne by set_solver; apply lookup_insert_eq.
      + etrans; [exact S1|]; by apply (same_desc_insert _ _ (set_prev (Some p))).
      + intros q Hq; cbn [with_pages pages_array]; unfold P1.
        rewrite !lookup_insert_ne by set_solver; done. }
  change (with_pages (with_pages s _) P1) with (with_pages s P1).
  rewrite E2; mstep; rewrite (set_head_ok _ z o _ zn (hdd None (L z o))) by done.
  eexists; split; [done|]; split.
  - change (Some p) with (hdd None (p :: L z o)).
    apply (lists_rep_upd s L z o _ zn P2); try done.
    + constructor; [apply Hnin|done].
    + intros z' o' q Hne Hq; assert (q ∉ p :: L z o).
      { intros [->|Hq']%elem_of_cons; [by eapply Hnin|].
        apply Hne; by eapply (lr_disj _ _ HR). }
      split; [done|]; by rewrite F2.
  - split; try done; cbn [with_zones zones]; by apply free_pages_insert.
Qed.

Lemma list_remove_spec s L z o p l1 l2 :
  lists_rep s L -> L z o = l1 ++ p :: l2 ->
  exists s', list_remove s z o p = Ok s' /\ lists_rep s' (lupd L z o (l1 ++ l2)) /\
    lists_only s s'.
Proof.
  intros HR HL; assert (Hp : p ∈ L z o) by (rewrite HL; set_solver).
  destruct (lr_dom _ _ HR _ _ _ Hp) as [Hz Ho]; destruct (rep_zone _ _ _ HR Hz) as [zn Hzn].
  pose proof (lr_heads _ _ HR _ _ Hzn) as [_ Hh]; specialize (Hh o Ho).
  pose proof (lr_nodup _ _ HR z o) as Hnd; pose proof (lr_dll _ _ HR z o) as Hd.
  destruct (dll_lookup _ _ _ _ _ Hd Hp) as [g Hg]; rewrite HL in Hnd, Hd.
  pose proof (dll_mid _ _ _ _ _ _ _ Hd Hg) as [Hpr Hnx].
  destruct (dll_remove _ _ _ _ _ Hnd Hd Hg) as (P1 & P2 & P3 & E1 & G1 & E2 & G2 & E3 & D3 & S3 & F3).
  unfold list_remove, page_at; rewrite Hg; cbn [of_opt]; mstep.
  assert (exists Z1, match free_prev g with
      | Some q => upd_page s q (set_next (free_next g))
      | None => h ← get_head s z o; if decide (h = Some p) then set_head s z o (free_next g) else Ok s
      end = Ok (with_zones (with_pages s P1) Z1) /\
      Z1 = <[z := Zone (base_paddr zn) (end_paddr zn)
              (<[o := hdd None (l1 ++ l2)]> (free_lists zn)) (free_pages zn)]> (zones s))
    as (Z1 & -> & HZ1).
  { eexists; split; [|done]; destruct (free_prev g) as [q|] eqn:Eq.
    - destruct E1 as (gq & Hq & ->); rewrite (upd_page_ok _ _ _ gq) by done.
      unfold with_zones, with_pages; simpl; do 2 f_equal; symmetry.
      assert (Hhd : hdd None (l1 ++ l2) = hdd None (L z o)).
      { rewrite HL; by destruct l1. }
      rewrite Hhd, (list_insert_id (free_lists zn) o _ Hh); apply list_insert_id; rewrite Hzn; by destruct zn.
    - destruct E1 as [-> ->]; rewrite (get_head_ok _ _ _ _ HR Hz Ho), HL; mstep; simpl.
      rewrite decide_True by done; rewrite (set_head_ok _ z o _ zn _ Hzn Hh), Hnx; done. }
  mstep; cbn [with_zones with_pages pages_array]; rewrite G1; cbn [of_opt]; mstep.
  assert (match free_next g with
      | Some q => upd_page (with_zones (with_pages s P1) Z1) q (set_prev (free_prev g))
      | None => Ok (with_zones (with_pages s P1) Z1) end =
      Ok (with_zones (with_pages s P2) Z1)) as ->.
  { destruct (free_next g) as [q|]; [|by subst].
    destruct E2 as (gq & Hq & ->); by rewrite (upd_page_ok _ _ _ gq). }
  mstep; rewrite (upd_page_ok _ _ _ g) by done; mstep.
  rewrite (upd_page_ok _ _ _ (set_prev None g)) by apply lookup_insert_eq.
  eexists; split; [done|]; cbn [with_zones with_pages pages_array]; rewrite insert_insert_eq, <-E3, HZ1.
  split.
  - apply (lists_rep_upd s L z o _ zn P3); try done.
    + apply NoDup_app in Hnd as (? & Hx & [_ ?]%NoDup_cons); apply NoDup_app; split_and!; [done| |done].
      intros x ? ?; eapply Hx; [done|by right].
    + intros z' o' q Hne Hq; assert (q ∉ l1 ++ p :: l2).
      { rewrite <-HL; intros Hq'; apply Hne; by eapply (lr_disj _ _ HR). }
      split; [set_solver|by rewrite F3].
  - split; try done; cbn [zones]; by apply free_pages_insert.
Qed.
