(* ===== verification/PmmInv.v ===== *)
(** * The allocator's invariant

    Ghost state: a map [B] from the first frame of a block to its order and what
    it is used for.  The blocks are aligned, do not overlap and lie in one zone;
    the free ones are exactly the elements of the free lists, the pooled ones
    exactly the contents of the per-CPU pools; and a descriptor that looks free
    (flag set, no reference) is the head of a free block or strictly inside a
    block, which is what makes the buddy test of [free_to_zone_locked] right. *)

From stdpp Require Import base tactics option list numbers gmap.
From Stdlib Require Import ZArith Lia.
From S2P Require Import Prelude Pmm PmmLists.

Local Open Scope Z_scope.

(** [KHeld]: taken off a list by the running operation; [KDrain]: without a
    reference, on its way to a list or a pool. *)
Inductive kind := KFree | KAlloc | KPcp (cpu : nat) | KDrain | KHeld.

#[export] Instance kind_eq_dec : EqDecision kind.
Proof. solve_decision. Defined.

Abbreviation blocks := (gmap Z (nat * kind)).

Definition zone_of (p : Z) : nat := paddr_to_zone_id (Z.shiftl p PMM_PAGE_SHIFT).

(** [q] is a frame of the block of order [o] at [p]. *)
Definition in_block (p : Z) (o : nat) (q : Z) : Prop := p <= q < p + pow2 o.

Record block_wf (T p : Z) (o : nat) : Prop := {
  bw_order : (o < PMM_MAX_ORDER)%nat;
  bw_pos : 0 <= p;
  bw_align : (pow2 o | p);
  bw_end : p + pow2 o <= T;
  bw_zone : zone_of (p + pow2 o - 1) = zone_of p
}.

Record blocks_ok (T : Z) (B : blocks) : Prop := {
  bo_wf : forall p o k, B !! p = Some (o, k) -> block_wf T p o;
  bo_disj : forall p o k p' o' k' q, B !! p = Some (o, k) -> B !! p' = Some (o', k') ->
    in_block p o q -> in_block p' o' q -> p = p'
}.

Definition free_looking (g : page) : Prop :=
  has_flag (pg_flags g) PAGE_FLAG_FREE = true /\ pg_refcount g = 0.

(** What the descriptor of a block's head says. *)
Definition kind_ok (o : nat) (k : kind) (g : page) : Prop :=
  match k with
  | KFree => pg_flags g = PAGE_FLAG_FREE /\ pg_refcount g = 0 /\ pg_order g = o
  | KAlloc => has_flag (pg_flags g) PAGE_FLAG_FREE = false /\ 1 <= pg_refcount g < 2 ^ 32 /\
              pg_order g = o
  | KPcp _ => has_flag (pg_flags g) PAGE_FLAG_FREE = false /\ o = 0%nat
  | KDrain => has_flag (pg_flags g) PAGE_FLAG_FREE = false
  | KHeld => True
  end.

Record descs_ok (T : Z) (P : gmap Z page) (B : blocks) : Prop := {
  do_dom : forall p, is_Some (P !! p) <-> 0 <= p < T;
  do_zone : forall p g, P !! p = Some g -> pg_zone g = zone_of p;
  do_kind : forall p o k g, B !! p = Some (o, k) -> P !! p = Some g -> kind_ok o k g;
  do_stale : forall q g, P !! q = Some g -> free_looking g ->
    (exists o, B !! q = Some (o, KFree) \/ B !! q = Some (o, KHeld)) \/
    (exists p o k, B !! p = Some (o, k) /\ p < q < p + pow2 o)
}.

Definition lists_ok (B : blocks) (L : lists) : Prop :=
  forall z o p, p ∈ L z o <-> B !! p = Some (o, KFree) /\ z = zone_of p.

(** The pool of one CPU.  Above position 15 it holds pages of the normal zone only:
    a refill, which may come from the DMA32 zone, happens only when the pool is
    empty and adds at most 15 pages. *)
Record pool_ok (B : blocks) (c : nat) (pool : pcp_pool) : Prop := {
  po_len : length (pcp_pages pool) = PCP_MAX_PAGES;
  po_count : (pcp_count pool <= PCP_MAX_PAGES)%nat;
  po_nodup : NoDup (take (pcp_count pool) (pcp_pages pool));
  po_elem : forall p, p ∈ take (pcp_count pool) (pcp_pages pool) <-> B !! p = Some (0%nat, KPcp c);
  po_normal : forall i p, (PCP_BATCH_SIZE - 1 <= i)%nat ->
    take (pcp_count pool) (pcp_pages pool) !! i = Some p -> zone_of p = PMM_ZONE_NORMAL
}.

Definition pools_ok (B : blocks) (C : list pcp_pool) : Prop :=
  length C = PMM_MAX_CPUS /\
  (forall c pool, C !! c = Some pool -> pool_ok B c pool) /\
  (forall p o c, B !! p = Some (o, KPcp c) -> (c < PMM_MAX_CPUS)%nat).

(** The free pages of a zone, counted in its lists. *)
Definition zone_sum (L : lists) (z : nat) : Z :=
  foldr (fun o a => pow2 o * Z.of_nat (length (L z o)) + a) 0 (seq 0 PMM_MAX_ORDER).

(** The counters; [D z] is what zone [z]'s counter is ahead of its lists. *)
Definition counts_ok (s : pmm) (L : lists) (D : nat -> Z) : Prop :=
  forall z zn, zones s !! z = Some zn -> free_pages zn = u64 (zone_sum L z + D z).

Record inv (s : pmm) (B : blocks) (L : lists) (D : nat -> Z) : Prop := {
  i_lists : lists_rep s L;
  i_blocks : blocks_ok (total_page_count s) B;
  i_descs : descs_ok (total_page_count s) (pages_array s) B;
  i_free : lists_ok B L;
  i_pools : pools_ok B (pcp_pools s);
  i_counts : counts_ok s L D
}.

(** ** Powers of two and buddies *)

Lemma pow2_pos o : 0 < pow2 o.
Proof. unfold pow2; rewrite Z.shiftl_1_l; apply Z.pow_pos_nonneg; lia. Qed.

Lemma pages_to_order_ok (count : Z) :
  0 <= count < 2 ^ 64 ->
  if decide (count <= pow2 (PMM_MAX_ORDER - 1)) then
    (pages_to_order count < PMM_MAX_ORDER)%nat /\ count <= pow2 (pages_to_order count) /\
    forall o, count <= pow2 o -> (pages_to_order count <= o)%nat
  else pages_to_order count = PMM_MAX_ORDER.
Proof.
  intros Hc; unfold pages_to_order; case_decide as H17.
  2:{ rewrite decide_False, decide_True; [done|lia|]; pose proof (pow2_pos (PMM_MAX_ORDER - 1)); lia. }
  case_decide as H1.
  { split_and!; [unfold PMM_MAX_ORDER; lia|pose proof (pow2_pos 0); unfold pow2 in *; simpl; lia|lia]. }
  rewrite decide_False by lia; unfold clzll.
  assert (Hl : 0 <= Z.log2 (count - 1) < 17).
  { split; [apply Z.log2_nonneg|]; apply Z.log2_lt_pow2; [lia|]; change (2 ^ 17) with (pow2 17).
    change (PMM_MAX_ORDER - 1)%nat with 17%nat in H17; lia. }
  rewrite u8_small by lia; set (k := Z.log2 (count - 1)) in *.
  replace (64 - (63 - k)) with (k + 1) by lia.
  destruct (Z.log2_spec (count - 1)) as [Hlo Hhi]; [lia|]; fold k in Hlo, Hhi.
  assert (Hpow : pow2 (Z.to_nat (k + 1)) = 2 ^ (k + 1)).
  { unfold pow2; rewrite Z.shiftl_1_l, Z2Nat.id by lia; done. }
  split_and!; [unfold PMM_MAX_ORDER; lia|rewrite Hpow; unfold Z.succ in Hhi; lia|].
  intros o Ho; unfold pow2 in Ho; rewrite Z.shiftl_1_l in Ho.
  assert (k < Z.of_nat o); [|lia]; apply (Z.pow_lt_mono_r_iff 2); lia.
Qed.

Lemma pow2_S o : pow2 (S o) = 2 * pow2 o.
Proof. unfold pow2; by rewrite !Z.shiftl_1_l, Nat2Z.inj_succ, Z.pow_succ_r by lia. Qed.

Lemma pow2_le o o' : (o <= o')%nat -> (pow2 o | pow2 o').
Proof.
  intros H; unfold pow2; rewrite !Z.shiftl_1_l; exists (2 ^ Z.of_nat (o' - o)).
  rewrite <-Z.pow_add_r by lia; f_equal; lia.
Qed.

(** An aligned point inside an aligned block of smaller or equal order is its start. *)
Lemma aligned_start p o q o' :
  (pow2 o | p) -> (pow2 o' | q) -> (o <= o')%nat -> in_block p o q -> q = p.
Proof.
  intros [a ->] Hq Ho Hin; destruct (Z.divide_trans _ _ _ (pow2_le _ _ Ho) Hq) as [b ->].
  unfold in_block in Hin; pose proof (pow2_pos o).
  assert (a <= b) by nia; assert (b < a + 1) by nia; f_equal; lia.
Qed.

(** The buddy of an aligned block: the neighbour below or above. *)
Lemma buddy_cases p o :
  0 <= p -> (pow2 o | p) ->
  ((pow2 (S o) | p) /\ Z.lxor p (pow2 o) = p + pow2 o) \/
  ((pow2 (S o) | p - pow2 o) /\ Z.lxor p (pow2 o) = p - pow2 o /\ pow2 o <= p).
Proof.
  intros Hp [q ->]; assert (0 <= q) by (pose proof (pow2_pos o); nia).
  rewrite pow2_S; unfold pow2 in *; rewrite Z.shiftl_1_l in *; set (w := Z.of_nat o) in *.
  assert (Hx : Z.lxor (q * 2 ^ w) (2 ^ w) = Z.lxor q 1 * 2 ^ w).
  { rewrite <-!Z.shiftl_mul_pow2, Z.shiftl_lxor by lia; by rewrite Z.shiftl_1_l. }
  rewrite Hx; pose proof (Z.pow_pos_nonneg 2 w).
  destruct (Z.Even_or_Odd q) as [[c ->]|[c ->]]; [left|right].
  - split; [exists c; lia|].
    assert (Z.lxor (2 * c) 1 = 2 * c + 1) as ->; [|lia].
    rewrite <-Z.add_nocarry_lxor; [done|].
    apply Z.bits_inj'; intros b Hb; rewrite Z.bits_0, Z.land_spec.
    destruct (decide (b = 0)) as [->|]; [by rewrite Z.testbit_even_0|].
    rewrite (Z.bits_above_log2 1 b), andb_false_r by (simpl; lia); done.
  - assert (Z.lxor (2 * c + 1) 1 = 2 * c) as ->.
    { rewrite Z.add_nocarry_lxor, Z.lxor_assoc, Z.lxor_nilpotent, Z.lxor_0_r; [done|].
      apply Z.bits_inj'; intros b Hb; rewrite Z.bits_0, Z.land_spec.
      destruct (decide (b = 0)) as [->|]; [by rewrite Z.testbit_even_0|].
      rewrite (Z.bits_above_log2 1 b), andb_false_r by (simpl; lia); done. }
    split_and!; [exists c; lia|lia|nia].
Qed.

(** ** Counting *)

Definition dadd (D : nat -> Z) (z : nat) (d : Z) : nat -> Z :=
  fun z' => if decide (z' = z) then D z' + d else D z'.

Lemma zone_sum_lupd L z o l z' :
  (o < PMM_MAX_ORDER)%nat ->
  zone_sum (lupd L z o l) z' =
  zone_sum L z' +
  (if decide (z' = z) then pow2 o * (Z.of_nat (length l) - Z.of_nat (length (L z o))) else 0).
Proof.
  intros Ho; unfold zone_sum; assert (Hin : o ∈ seq 0 PMM_MAX_ORDER) by (apply elem_of_seq; lia).
  pose proof (NoDup_seq 0 PMM_MAX_ORDER) as Hnd; revert Hin Hnd; generalize (seq 0 PMM_MAX_ORDER).
  induction l0 as [|o' l0 IH]; intros Hin Hnd; [by apply not_elem_of_nil in Hin|].
  apply NoDup_cons in Hnd as [Hn Hnd]; cbn [foldr].
  assert (Hno : o ∉ l0 -> foldr (fun o a => pow2 o * Z.of_nat (length (lupd L z o' l z' o)) + a) 0 l0 =
                foldr (fun o a => pow2 o * Z.of_nat (length (L z' o)) + a) 0 l0).
  { intros _; clear IH Hin; induction l0 as [|o2 l0 IH]; [done|]; simpl.
    apply NoDup_cons in Hnd as [_ Hnd]; rewrite IH by set_solver.
    rewrite lupd_ne; [done|]; intros [_ ->]; set_solver. }
  destruct (decide (o' = o)) as [->|Hne].
  - rewrite Hno by done; destruct (decide (z' = z)) as [->|Hz].
    + rewrite lupd_eq; lia.
    + rewrite lupd_ne by naive_solver; lia.
  - rewrite IH by set_solver; rewrite lupd_ne by naive_solver; lia.
Qed.

Lemma counts_lupd s s' L D z o l :
  counts_ok s L D -> free_pages <$> zones s' = free_pages <$> zones s -> (o < PMM_MAX_ORDER)%nat ->
  counts_ok s' (lupd L z o l)
    (dadd D z (pow2 o * (Z.of_nat (length (L z o)) - Z.of_nat (length l)))).
Proof.
  intros HC Hf Ho z' zn' Hz'; assert (Hz : (free_pages <$> zones s') !! z' = Some (free_pages zn'))
    by (by rewrite list_lookup_fmap, Hz').
  rewrite Hf, list_lookup_fmap in Hz; apply fmap_Some in Hz as (zn & Hzn & ->).
  rewrite (HC _ _ Hzn), zone_sum_lupd by done; unfold dadd; f_equal; case_decide; lia.
Qed.

Lemma counts_add s L D z d zn :
  counts_ok s L D -> zones s !! z = Some zn ->
  counts_ok (with_zones s (<[z := Zone (base_paddr zn) (end_paddr zn) (free_lists zn)
                               (u64 (free_pages zn + d))]> (zones s))) L (dadd D z d).
Proof.
  intros HC Hz z' zn' Hz'; cbn [with_zones zones] in Hz'; unfold dadd; case_decide as E.
  - subst; rewrite list_lookup_insert_eq in Hz' by (by eapply lookup_lt_Some); simplify_eq.
    cbn [free_pages]; rewrite (HC _ _ Hz); unfold u64; rewrite Zplus_mod_idemp_l; f_equal; lia.
  - rewrite list_lookup_insert_ne in Hz' by done; by apply HC.
Qed.

Lemma counts_ext s L D D' : (forall z, D z = D' z) -> counts_ok s L D -> counts_ok s L D'.
Proof. intros H HC z zn Hz; rewrite <-H; by apply HC. Qed.

(** ** Changing what a block is used for *)

Lemma blocks_ok_kind T B p o k k' :
  blocks_ok T B -> B !! p = Some (o, k) -> blocks_ok T (<[p := (o, k')]> B).
Proof.
  intros [Hw Hd] Hp.
  assert (H : forall q oq kq, <[p := (o, k')]> B !! q = Some (oq, kq) ->
                exists kq', B !! q = Some (oq, kq')).
  { intros q oq kq; destruct (decide (q = p)) as [->|Hne].
    - rewrite lookup_insert_eq; intros [= <- <-]; eauto.
    - rewrite lookup_insert_ne by done; eauto. }
  split.
  - intros q oq kq [kq' Hq]%H; eauto.
  - intros q oq kq q' oq' kq' x [k1 H1]%H [k2 H2]%H; eauto.
Qed.

Lemma descs_ok_retag T P P' B p o k k' g g' :
  descs_ok T P B -> B !! p = Some (o, k) -> P !! p = Some g -> P' !! p = Some g' ->
  (forall q, q <> p -> desc <$> P' !! q = desc <$> P !! q) ->
  pg_zone g' = pg_zone g -> kind_ok o k' g' ->
  (free_looking g' -> k' = KFree \/ k' = KHeld) ->
  descs_ok T P' (<[p := (o, k')]> B).
Proof.
  intros [Hdom Hzone Hkind Hstale] Hb Hg Hg' Hother Hz Hk Hfree.
  assert (Hback : forall q x, q <> p -> P' !! q = Some x ->
            exists y, P !! q = Some y /\ desc x = desc y).
  { intros q x Hne Hx; specialize (Hother q Hne); rewrite Hx in Hother; simpl in Hother.
    symmetry in Hother; apply fmap_Some in Hother as (y & ? & ?); eauto. }
  split.
  - intros q; rewrite <-Hdom; destruct (decide (q = p)) as [->|Hne].
    + rewrite Hg, Hg'; split; by eexists.
    + specialize (Hother q Hne); destruct (P' !! q), (P !! q); simpl in Hother; try done;
        split; by eexists.
  - intros q x Hx; destruct (decide (q = p)) as [->|Hne]; [simplify_eq; rewrite Hz; eauto|].
    destruct (Hback _ _ Hne Hx) as (y & Hy & Hd); unfold desc in Hd; simplify_eq.
    transitivity (pg_zone y); [congruence|eauto].
  - intros q oq kq x; destruct (decide (q = p)) as [->|Hne].
    + rewrite lookup_insert_eq; intros [= <- <-] ?; by simplify_eq.
    + rewrite lookup_insert_ne by done; intros Hq Hx.
      destruct (Hback _ _ Hne Hx) as (y & Hy & Hd); unfold desc in Hd; simplify_eq.
      specialize (Hkind _ _ _ _ Hq Hy); destruct kq; simpl in *; intuition congruence.
  - intros q x Hx Hfl; destruct (decide (q = p)) as [->|Hne].
    + simplify_eq; left; exists o; rewrite lookup_insert_eq.
      destruct (Hfree Hfl) as [->| ->]; [by left|by right].
    + destruct (Hback _ _ Hne Hx) as (y & Hy & Hd); unfold desc in Hd; simplify_eq.
      assert (Hfl' : free_looking y) by (destruct Hfl; split; congruence).
      destruct (Hstale _ _ Hy Hfl') as [(oq & Hq)|(b & ob & kb & Hbb & Hin)].
      * left; exists oq; by rewrite lookup_insert_ne.
      * right; destruct (decide (b = p)) as [->|].
        -- rewrite Hb in Hbb; injection Hbb as <- <-.
           exists p, o, k'; by rewrite lookup_insert_eq.
        -- exists b, ob, kb; by rewrite lookup_insert_ne.
Qed.

Definition not_pcp (k : kind) : Prop := match k with KPcp _ => False | _ => True end.

Lemma pools_ok_ext B B' C :
  (forall p c o, B' !! p = Some (o, KPcp c) <-> B !! p = Some (o, KPcp c)) ->
  pools_ok B C -> pools_ok B' C.
Proof.
  intros H (Hl & Hp & Hc); split; [done|]; split.
  - intros c pool Hcp; destruct (Hp _ _ Hcp) as [H1 H2 H3 H4 H5]; split; try done.
    intros p; by rewrite H4, H.
  - intros p o c Hpc; rewrite H in Hpc; eauto.
Qed.

Lemma pools_ok_kind B C p o k k' :
  B !! p = Some (o, k) -> not_pcp k -> not_pcp k' ->
  pools_ok B C -> pools_ok (<[p := (o, k')]> B) C.
Proof.
  intros Hp Hk Hk'; apply pools_ok_ext; intros q c oq; destruct (decide (q = p)) as [->|Hne].
  - rewrite lookup_insert_eq, Hp; destruct k, k'; naive_solver.
  - by rewrite lookup_insert_ne.
Qed.

(** ** Steps on one block

    Each lemma is one effect of the code on one block, with the ghost map after it. *)

Lemma inv_page s B L D p o k :
  inv s B L D -> B !! p = Some (o, k) -> exists g, pages_array s !! p = Some g.
Proof.
  intros HI Hp; destruct (bo_wf _ _ (i_blocks _ _ _ _ HI) _ _ _ Hp) as [_ ? _ ? _].
  destruct (proj2 (do_dom _ _ _ (i_descs _ _ _ _ HI) p)) as [g Hg]; [|eauto].
  pose proof (pow2_pos o); lia.
Qed.

Lemma zone_of_lt p : (zone_of p < PMM_ZONE_COUNT)%nat.
Proof. unfold zone_of, paddr_to_zone_id; repeat case_decide; vm_compute; lia. Qed.

Lemma same_desc_fmap P P' q : same_desc P P' -> desc <$> P' !! q = desc <$> P !! q.
Proof. intros H; rewrite <-!lookup_fmap; by rewrite H. Qed.

Lemma lists_only_inv s s' B B' L L' D D' p o k k' :
  inv s B L D -> B !! p = Some (o, k) -> B' = <[p := (o, k')]> B ->
  not_pcp k -> not_pcp k' -> (k' = KFree \/ k' = KHeld) ->
  (forall g, pages_array s !! p = Some g -> kind_ok o k' g) ->
  lists_only s s' -> lists_rep s' L' -> lists_ok B' L' -> counts_ok s' L' D' ->
  inv s' B' L' D'.
Proof.
  intros [HL HB HD HF HP HC] Hp -> Hk Hk' Hkk Hkind [Hdesc Hpools _ Htot _ _ _] HL' HF' HC'.
  split; [done| | |done| |done].
  - rewrite Htot; by eapply blocks_ok_kind.
  - rewrite Htot; destruct (inv_page s B L D p o k) as [g Hg]; [by split|done|].
    destruct (same_desc_lookup _ _ _ _ Hdesc Hg) as (g' & Hg' & Hd); unfold desc in Hd.
    eapply (descs_ok_retag _ _ _ B); [done|done|exact Hg|exact Hg'| | | |done].
    + intros q _; by apply same_desc_fmap.
    + congruence.
    + specialize (Hkind g Hg); destruct k'; simpl in *; try done; intuition congruence.
  - rewrite Hpools; by eapply pools_ok_kind.
Qed.

Lemma inv_unlink s B L D o p :
  inv s B L D -> B !! p = Some (o, KFree) ->
  exists s' L', list_remove s (zone_of p) o p = Ok s' /\
    inv s' (<[p := (o, KHeld)]> B) L' (dadd D (zone_of p) (pow2 o)) /\ lists_only s s'.
Proof.
  intros HI Hp; pose proof HI as [HL HB HD HF HP HC].
  assert (Hin : p ∈ L (zone_of p) o) by (by apply HF).
  destruct (list_elem_of_split _ _ Hin) as (l1 & l2 & Hsplit).
  destruct (list_remove_spec _ _ _ _ _ _ _ HL Hsplit) as (s' & E & HL' & Hlo).
  exists s', (lupd L (zone_of p) o (l1 ++ l2)); split_and!; [done| |done].
  pose proof (lr_nodup _ _ HL (zone_of p) o) as Hnd; rewrite Hsplit in Hnd.
  eapply lists_only_inv; try done; [by right| |].
  - intros z' o' q; unfold lupd; case_decide as E'.
    + destruct E' as [-> ->]; transitivity (q <> p /\ q ∈ L (zone_of p) o).
      * rewrite Hsplit; apply NoDup_app in Hnd as (_ & Hn1 & [Hn2 _]%NoDup_cons).
        split; [|set_solver]; intros Hq; split; [|set_solver]; intros ->.
        apply elem_of_app in Hq as [Hq|Hq]; [eapply Hn1; [done|by left]|done].
      * rewrite (HF _ _ q); destruct (decide (q = p)) as [->|Hne].
        -- rewrite lookup_insert_eq; naive_solver.
        -- rewrite lookup_insert_ne by done; naive_solver.
    + rewrite (HF _ _ q); destruct (decide (q = p)) as [->|Hne].
      * rewrite Hp, lookup_insert_eq; naive_solver.
      * by rewrite lookup_insert_ne.
  - eapply counts_ext; [|eapply counts_lupd; [exact HC|apply Hlo|by eapply HB]].
    intros z'; unfold dadd; case_decide; [|done]; rewrite Hsplit, !length_app; simpl; lia.
Qed.

Lemma lists_ok_insert B L z o p k :
  lists_ok B L -> B !! p = Some (o, k) -> k <> KFree -> z = zone_of p ->
  lists_ok (<[p := (o, KFree)]> B) (lupd L z o (p :: L z o)).
Proof.
  intros HF Hp Hk -> z' o' q; unfold lupd; destruct (decide (q = p)) as [->|Hne].
  - rewrite lookup_insert_eq; case_decide as E.
    + destruct E as [-> ->]; split; [done|]; intros _; by left.
    + rewrite (HF _ _ p), Hp; naive_solver.
  - rewrite lookup_insert_ne by done; case_decide as E; [|apply HF].
    destruct E as [-> ->]; rewrite elem_of_cons, (HF _ _ q); naive_solver.
Qed.

Lemma inv_link s B L D o p g :
  inv s B L D -> B !! p = Some (o, KHeld) -> pages_array s !! p = Some g ->
  kind_ok o KFree g ->
  exists s' L', list_add_head s (zone_of p) o p = Ok s' /\
    inv s' (<[p := (o, KFree)]> B) L' (dadd D (zone_of p) (- pow2 o)) /\ lists_only s s'.
Proof.
  intros HI Hp Hg Hkind; pose proof HI as [HL HB HD HF HP HC].
  assert (Ho : (o < PMM_MAX_ORDER)%nat) by (by eapply HB).
  destruct (list_add_head_spec s L (zone_of p) o p) as (s' & E & HL' & Hlo);
    [done|apply zone_of_lt|done|by eexists|intros z' o' [Hx _]%HF; congruence|].
  exists s', (lupd L (zone_of p) o (p :: L (zone_of p) o)); split_and!; [done| |done].
  eapply lists_only_inv; try done; [by left|naive_solver|by eapply lists_ok_insert|].
  eapply counts_ext; [|eapply counts_lupd; [exact HC|apply Hlo|done]].
  intros z'; unfold dadd; case_decide; [|done]; cbn [length]; lia.
Qed.

Lemma lists_rep_pages s L P' :
  lists_rep s L -> (forall q, links <$> P' !! q = links <$> pages_array s !! q) ->
  lists_rep (with_pages s P') L.
Proof.
  intros [H1 H2 H3 H4 H5 H6] Hlk; split; try done.
  intros z o; eapply dll_frame; [|apply H3]; intros; apply Hlk.
Qed.

Lemma links_insert (P : gmap Z page) p g f :
  P !! p = Some g -> links (f g) = links g ->
  forall q, links <$> <[p := f g]> P !! q = links <$> P !! q.
Proof.
  intros Hp Hl q; destruct (decide (q = p)) as [->|].
  - by rewrite lookup_insert_eq, Hp; simpl; rewrite Hl.
  - by rewrite lookup_insert_ne.
Qed.

(** Writing the descriptor of a block's head. *)
Lemma inv_desc s B L D o p k k' f g :
  inv s B L D -> B !! p = Some (o, k) -> not_pcp k -> not_pcp k' -> k <> KFree -> k' <> KFree ->
  pages_array s !! p = Some g -> links (f g) = links g -> pg_zone (f g) = pg_zone g ->
  kind_ok o k' (f g) -> (free_looking (f g) -> k' = KHeld) ->
  inv (with_pages s (<[p := f g]> (pages_array s))) (<[p := (o, k')]> B) L D.
Proof.
  intros [HL HB HD HF HP HC] Hp Hk Hk' Hn Hn' Hg Hl Hz Hkind Hfl; split.
  - apply lists_rep_pages; [done|]; by apply links_insert.
  - by eapply blocks_ok_kind.
  - eapply descs_ok_retag; [exact HD|exact Hp|exact Hg|apply lookup_insert_eq| |done|done|auto].
    intros q Hne; cbn [with_pages pages_array]; by rewrite lookup_insert_ne.
  - intros z o' q; rewrite (HF z o' q); destruct (decide (q = p)) as [->|].
    + rewrite Hp, lookup_insert_eq; naive_solver.
    + by rewrite lookup_insert_ne.
  - by eapply pools_ok_kind.
  - exact HC.
Qed.

(** ** Splitting and merging held blocks *)

Lemma zone_of_mono p q : p <= q -> (zone_of p <= zone_of q)%nat.
Proof.
  intros H; unfold zone_of, paddr_to_zone_id, PMM_PAGE_SHIFT; rewrite !Z.shiftl_mul_pow2 by lia.
  repeat case_decide; vm_compute; lia || (exfalso; lia).
Qed.

Lemma zone_between a b x : zone_of b = zone_of a -> a <= x <= b -> zone_of x = zone_of a.
Proof.
  intros E [H1 H2]; apply zone_of_mono in H1; apply zone_of_mono in H2; lia.
Qed.

Lemma head_not_inside T B p o k q o' k' :
  blocks_ok T B -> B !! p = Some (o, k) -> B !! q = Some (o', k') -> in_block p o q -> q = p.
Proof.
  intros HB Hp Hq Hin; symmetry; eapply (bo_disj _ _ HB); [exact Hp|exact Hq|exact Hin|].
  unfold in_block; pose proof (pow2_pos o'); lia.
Qed.

(** The two halves of a block. *)
Lemma block_halves T p o :
  block_wf T p (S o) -> block_wf T p o /\ block_wf T (p + pow2 o) o.
Proof.
  intros [H1 H2 H3 H4 H5]; pose proof (pow2_pos o) as Hp; rewrite pow2_S in *.
  assert (Ha : (pow2 o | p)) by (etrans; [|exact H3]; apply Z.divide_factor_r).
  assert (Hz : forall x, p <= x < p + 2 * pow2 o -> zone_of x = zone_of p)
    by (intros; eapply zone_between; [exact H5|lia]).
  split; split; try lia; try done.
  - apply Hz; lia.
  - apply Z.divide_add_r; [done|reflexivity].
  - etrans; [apply Hz; lia|symmetry; apply Hz; lia].
Qed.

Lemma block_join T p o :
  (S o < PMM_MAX_ORDER)%nat -> (pow2 (S o) | p) -> zone_of (p + pow2 o) = zone_of p ->
  block_wf T p o -> block_wf T (p + pow2 o) o -> block_wf T p (S o).
Proof.
  intros Ho Ha Hz [_ H2 _ _ H3] [_ _ _ H4 H5]; split; try done; rewrite pow2_S; [lia|].
  replace (p + 2 * pow2 o - 1) with (p + pow2 o + pow2 o - 1) by lia; congruence.
Qed.

Definition split_map (B : blocks) (p : Z) (o : nat) : blocks :=
  <[p + pow2 o := (o, KHeld)]> (<[p := (o, KHeld)]> B).

Lemma split_lookup B p o q oq kq :
  split_map B p o !! q = Some (oq, kq) ->
  (q = p + pow2 o /\ oq = o /\ kq = KHeld) \/ (q = p /\ oq = o /\ kq = KHeld) \/
  (q <> p + pow2 o /\ q <> p /\ B !! q = Some (oq, kq)).
Proof.
  unfold split_map; destruct (decide (q = p + pow2 o)) as [->|H1].
  { rewrite lookup_insert_eq; intros [= <- <-]; auto. }
  rewrite lookup_insert_ne by done; destruct (decide (q = p)) as [->|H2].
  { rewrite lookup_insert_eq; intros [= <- <-]; auto. }
  rewrite lookup_insert_ne by done; auto.
Qed.

Lemma blocks_ok_split T B p o :
  blocks_ok T B -> B !! p = Some (S o, KHeld) -> blocks_ok T (split_map B p o).
Proof.
  intros HB Hp; pose proof HB as [Hw Hd]; pose proof (pow2_pos o).
  destruct (block_halves _ _ _ (Hw _ _ _ Hp)) as [W1 W2].
  assert (Hsub : forall q oq kq x, split_map B p o !! q = Some (oq, kq) -> in_block q oq x ->
    (in_block p (S o) x /\ (q = p \/ q = p + pow2 o)) \/
    (q <> p /\ q <> p + pow2 o /\ B !! q = Some (oq, kq))).
  { intros q oq kq x Hq Hx; unfold in_block in *; rewrite pow2_S.
    apply split_lookup in Hq as [(-> & -> & _)|[(-> & -> & _)|(? & ? & ?)]];
      [left|left|right]; split; auto; lia. }
  split.
  - intros q oq kq [(-> & -> & _)|[(-> & -> & _)|(? & ? & ?)]]%split_lookup; [done|done|eauto].
  - intros q oq kq q' oq' kq' x Hq Hq' Hx Hx'.
    destruct (Hsub _ _ _ _ Hq Hx) as [[Hin Hcase]|(? & ? & HqB)];
    destruct (Hsub _ _ _ _ Hq' Hx') as [[Hin' Hcase']|(? & ? & HqB')].
    + unfold in_block in *; apply split_lookup in Hq, Hq'.
      destruct Hcase as [->| ->], Hcase' as [->| ->]; try done;
        destruct Hq as [(? & -> & _)|[(? & -> & _)|(? & ? & _)]], Hq' as [(? & -> & _)|[(? & -> & _)|(? & ? & _)]]; lia.
    + exfalso; assert (p = q') by (by eapply Hd); naive_solver.
    + exfalso; assert (q = p) by (by eapply Hd); naive_solver.
    + by eapply Hd.
Qed.

Lemma inv_split s B L D p o :
  inv s B L D -> B !! p = Some (S o, KHeld) -> inv s (split_map B p o) L D.
Proof.
  intros [HL HB HD HF HP HC] Hp; pose proof (pow2_pos o) as Hpos.
  assert (Hq : B !! (p + pow2 o) = None).
  { destruct (B !! (p + pow2 o)) as [[o' k']|] eqn:E; [exfalso|done].
    assert (p + pow2 o = p); [|lia]; eapply head_not_inside; [exact HB|exact Hp|exact E|].
    unfold in_block; rewrite pow2_S; lia. }
  assert (Hkeep : forall q oq kq, kq <> KHeld -> split_map B p o !! q = Some (oq, kq) <-> B !! q = Some (oq, kq)).
  { intros q oq kq Hk; split.
    - intros [(_ & _ & ?)|[(_ & _ & ?)|(_ & _ & ?)]]%split_lookup; done.
    - intros Hb; unfold split_map; rewrite !lookup_insert_ne; [done| |]; intros <-; congruence. }
  split; [done|by apply blocks_ok_split| | | |done].
  - destruct HD as [H1 H2 H3 H4]; split; [done|done| |].
    + intros q oq kq g [(-> & -> & ->)|[(-> & -> & ->)|(_ & _ & ?)]]%split_lookup Hg; [done|done|eauto].
    + intros q g Hg Hfl; unfold split_map; destruct (decide (q = p + pow2 o)) as [->|Hne].
      { left; exists o; rewrite lookup_insert_eq; auto. }
      destruct (decide (q = p)) as [->|Hne2].
      { left; exists o; rewrite lookup_insert_ne, lookup_insert_eq by done; auto. }
      destruct (H4 _ _ Hg Hfl) as [(oq & Hb)|(b & ob & kb & Hb & Hin)].
      { left; exists oq; by rewrite !lookup_insert_ne by done. }
      right; destruct (decide (b = p)) as [->|Hbp].
      * rewrite Hp in Hb; injection Hb as <- <-; rewrite pow2_S in Hin.
        destruct (decide (q < p + pow2 o)).
        -- exists p, o, KHeld; rewrite lookup_insert_ne, lookup_insert_eq by lia; lia || (split; [done|lia]).
        -- exists (p + pow2 o), o, KHeld; rewrite lookup_insert_eq; split; [done|lia].
      * exists b, ob, kb; rewrite !lookup_insert_ne by congruence; done.
  - intros z o' q; rewrite (HF z o' q), Hkeep; done.
  - eapply pools_ok_ext; [|done]; intros; by apply Hkeep.
Qed.

Definition merge_map (B : blocks) (p : Z) (o : nat) : blocks :=
  <[p := (S o, KHeld)]> (delete (p + pow2 o) B).

Lemma merge_lookup B p o q oq kq :
  merge_map B p o !! q = Some (oq, kq) <->
  (q = p /\ oq = S o /\ kq = KHeld) \/ (q <> p /\ q <> p + pow2 o /\ B !! q = Some (oq, kq)).
Proof.
  unfold merge_map; destruct (decide (q = p)) as [->|H1].
  { rewrite lookup_insert_eq; naive_solver. }
  rewrite lookup_insert_ne by done; destruct (decide (q = p + pow2 o)) as [->|H2].
  { rewrite lookup_delete_eq; naive_solver. }
  rewrite lookup_delete_ne by done; naive_solver.
Qed.

Lemma in_block_halves p o x :
  in_block p (S o) x <-> in_block p o x \/ in_block (p + pow2 o) o x.
Proof. unfold in_block; rewrite pow2_S; pose proof (pow2_pos o); lia. Qed.

Lemma blocks_ok_merge T B p o :
  blocks_ok T B -> B !! p = Some (o, KHeld) -> B !! (p + pow2 o) = Some (o, KHeld) ->
  block_wf T p (S o) -> blocks_ok T (merge_map B p o).
Proof.
  intros [Hw Hd] Hp Hb W; split.
  - intros q oq kq [(-> & -> & _)|(_ & _ & ?)]%merge_lookup; [done|eauto].
  - intros q oq kq q' oq' kq' x
      [(-> & -> & _)|(H1 & H2 & Hq)]%merge_lookup [(-> & -> & _)|(H1' & H2' & Hq')]%merge_lookup
      Hx Hx'; [done| | |by eapply Hd].
    + exfalso; apply in_block_halves in Hx as [Hx|Hx]; [apply H1'|apply H2']; symmetry;
        by eapply Hd.
    + exfalso; apply in_block_halves in Hx' as [Hx'|Hx']; [apply H1|apply H2]; by eapply Hd.
Qed.

Lemma inv_merge s B L D p o :
  inv s B L D -> B !! p = Some (o, KHeld) -> B !! (p + pow2 o) = Some (o, KHeld) ->
  (S o < PMM_MAX_ORDER)%nat -> (pow2 (S o) | p) -> zone_of (p + pow2 o) = zone_of p ->
  inv s (merge_map B p o) L D.
Proof.
  intros [HL HB HD HF HP HC] Hp Hb Ho Ha Hz; pose proof (pow2_pos o) as Hpos.
  assert (W : block_wf (total_page_count s) p (S o))
    by (apply block_join; [done|done|done|by eapply HB|by eapply HB]).
  assert (Hkeep : forall q oq kq, kq <> KHeld -> merge_map B p o !! q = Some (oq, kq) <-> B !! q = Some (oq, kq)).
  { intros q oq kq Hk; rewrite merge_lookup; split; [naive_solver|].
    intros Hq; right; split_and!; [| |done]; intros ->; congruence. }
  split; [done|by apply blocks_ok_merge| | | |done].
  - destruct HD as [H1 H2 H3 H4]; split; [done|done| |].
    + intros q oq kq g [(-> & -> & ->)|(_ & _ & ?)]%merge_lookup Hg; [done|eauto].
    + intros q g Hg Hfl; destruct (decide (q = p)) as [->|Hne].
      { left; exists (S o); right; apply merge_lookup; auto. }
      assert (Hin : p < q < p + pow2 (S o) ->
        (exists oq, merge_map B p o !! q = Some (oq, KFree) \/ merge_map B p o !! q = Some (oq, KHeld)) \/
        (exists b ob kb, merge_map B p o !! b = Some (ob, kb) /\ b < q < b + pow2 ob)).
      { intros ?; right; exists p, (S o), KHeld; split; [|done]; apply merge_lookup; auto. }
      rewrite pow2_S in Hin; destruct (decide (q = p + pow2 o)) as [->|Hne2]; [apply Hin; lia|].
      destruct (H4 _ _ Hg Hfl) as [(oq & Hq)|(b & ob & kb & Hbb & Hbin)].
      * left; exists oq; rewrite !merge_lookup; destruct Hq; [left|right]; auto.
      * destruct (decide (b = p)) as [->|Hbp]; [apply Hin; assert (ob = o) by congruence; subst; lia|].
        destruct (decide (b = p + pow2 o)) as [->|Hbq];
          [apply Hin; assert (ob = o) by congruence; subst; lia|].
        right; exists b, ob, kb; split; [|done]; apply merge_lookup; auto.
  - intros z o' q; rewrite (HF z o' q), Hkeep; done.
  - eapply pools_ok_ext; [|done]; intros; by apply Hkeep.
Qed.

(** A change of use that the descriptor already shows. *)
Lemma inv_ghost s B L D o p k k' g :
  inv s B L D -> B !! p = Some (o, k) -> not_pcp k -> not_pcp k' -> k <> KFree -> k' <> KFree ->
  pages_array s !! p = Some g -> kind_ok o k' g -> (free_looking g -> k' = KHeld) ->
  inv s (<[p := (o, k')]> B) L D.
Proof.
  intros HI Hp Hk Hk' Hn Hn' Hg Hkind Hfl.
  pose proof (inv_desc s B L D o p k k' id g) as H; unfold id in H.
  rewrite (insert_id (pages_array s) p g) in H by done.
  replace (with_pages s (pages_array s)) with s in H by (by destruct s); auto.
Qed.

(** ** What an operation leaves alone *)

Definition in_use (k : kind) : Prop := match k with KFree | KHeld => False | _ => True end.

(** Blocks in use stay as they are. *)
Definition same_users (B B' : blocks) : Prop :=
  forall q o k, in_use k -> B' !! q = Some (o, k) <-> B !! q = Some (o, k).

Definition covered (B : blocks) (x : Z) : Prop :=
  exists p o k, B !! p = Some (o, k) /\ in_block p o x.

(** The frames under management stay the same. *)
Definition same_cover (B B' : blocks) : Prop := forall x, covered B' x <-> covered B x.

#[export] Instance same_users_equiv : Equivalence same_users.
Proof.
  split; [by intros B q o k|intros B B' H q o k Hk; symmetry; by apply H|].
  intros B1 B2 B3 H1 H2 q o k Hk; etrans; [by apply H2|by apply H1].
Qed.

#[export] Instance same_cover_equiv : Equivalence same_cover.
Proof.
  split; [by intros B x|intros B B' H x; symmetry; apply H|].
  intros B1 B2 B3 H1 H2 x; etrans; [apply H2|apply H1].
Qed.

Definition same_core (s s' : pmm) : Prop :=
  pcp_pools s' = pcp_pools s /\ pmm_smp_ready s' = pmm_smp_ready s /\
  total_page_count s' = total_page_count s /\ usable_page_count s' = usable_page_count s /\
  pmm_direct_map_base s' = pmm_direct_map_base s.

#[export] Instance same_core_equiv : Equivalence same_core.
Proof.
  split; [by intros s|by intros ? ? (? & ? & ? & ? & ?)|].
  intros ? ? ? (? & ? & ? & ? & ?) (? & ? & ? & ? & ?); split_and!; congruence.
Qed.

Lemma lists_only_core s s' : lists_only s s' -> same_core s s'.
Proof. by intros []. Qed.

Lemma same_users_kind B p o k k' :
  B !! p = Some (o, k) -> ~ in_use k -> ~ in_use k' -> same_users B (<[p := (o, k')]> B).
Proof.
  intros Hp Hk Hk' q oq kq Hu; destruct (decide (q = p)) as [->|Hne].
  - rewrite lookup_insert_eq, Hp; split; intros; simplify_eq; done.
  - by rewrite lookup_insert_ne.
Qed.

Lemma same_cover_kind B p o k k' :
  B !! p = Some (o, k) -> same_cover B (<[p := (o, k')]> B).
Proof.
  intros Hp x; split; intros (q & oq & kq & Hq & Hx); destruct (decide (q = p)) as [->|Hne].
  - rewrite lookup_insert_eq in Hq; injection Hq as <- <-; by exists p, o, k.
  - rewrite lookup_insert_ne in Hq by done; by exists q, oq, kq.
  - assert (oq = o) as -> by congruence; exists p, o, k'; by rewrite lookup_insert_eq.
  - exists q, oq, kq; by rewrite lookup_insert_ne.
Qed.

Lemma same_cover_split T B p o :
  blocks_ok T B -> B !! p = Some (S o, KHeld) -> same_cover B (split_map B p o).
Proof.
  intros HB Hp x; pose proof (pow2_pos o); split; intros (q & oq & kq & Hq & Hx).
  - apply split_lookup in Hq as [(-> & -> & _)|[(-> & -> & _)|(_ & _ & Hq)]];
      [| |by exists q, oq, kq]; exists p, (S o), KHeld; (split; [done|]); apply in_block_halves; auto.
  - destruct (decide (q = p)) as [->|Hne].
    + assert (oq = S o) as -> by congruence; apply in_block_halves in Hx as [Hx|Hx].
      * exists p, o, KHeld; split; [|done]; unfold split_map.
        by rewrite lookup_insert_ne, lookup_insert_eq by lia.
      * exists (p + pow2 o), o, KHeld; split; [|done]; apply lookup_insert_eq.
    + exists q, oq, kq; split; [|done]; unfold split_map.
      rewrite !lookup_insert_ne; [done|done|]; intros <-.
      assert (p + pow2 o = p); [|lia]; eapply head_not_inside; [exact HB|exact Hp|exact Hq|].
      unfold in_block; rewrite pow2_S; lia.
Qed.

Lemma same_users_split T B p o :
  blocks_ok T B -> B !! p = Some (S o, KHeld) -> same_users B (split_map B p o).
Proof.
  intros HB Hp q oq kq Hu; pose proof (pow2_pos o); split.
  - intros [(_ & _ & ->)|[(_ & _ & ->)|(_ & _ & ?)]]%split_lookup; done.
  - intros Hq; unfold split_map; rewrite !lookup_insert_ne; [done| |].
    + intros <-; rewrite Hp in Hq; by simplify_eq.
    + intros <-; assert (p + pow2 o = p); [|lia]; eapply head_not_inside; [exact HB|exact Hp|exact Hq|].
      unfold in_block; rewrite pow2_S; lia.
Qed.

Lemma same_cover_merge B p o :
  B !! p = Some (o, KHeld) -> B !! (p + pow2 o) = Some (o, KHeld) -> same_cover B (merge_map B p o).
Proof.
  intros Hp Hb x; split; intros (q & oq & kq & Hq & Hx).
  - apply merge_lookup in Hq as [(-> & -> & _)|(_ & _ & Hq)]; [|by exists q, oq, kq].
    apply in_block_halves in Hx as [Hx|Hx]; eauto 10.
    + by exists p, o, KHeld.
    + by exists (p + pow2 o), o, KHeld.
  - destruct (decide (q = p)) as [->|H1]; [|destruct (decide (q = p + pow2 o)) as [->|H2]].
    + assert (oq = o) as -> by congruence; exists p, (S o), KHeld; split;
        [apply merge_lookup; auto|apply in_block_halves; auto].
    + assert (oq = o) as -> by congruence; exists p, (S o), KHeld; split;
        [apply merge_lookup; auto|apply in_block_halves; auto].
    + exists q, oq, kq; split; [apply merge_lookup; auto|done].
Qed.

Lemma same_users_merge B p o :
  B !! p = Some (o, KHeld) -> B !! (p + pow2 o) = Some (o, KHeld) -> same_users B (merge_map B p o).
Proof.
  intros Hp Hb q oq kq Hu; rewrite merge_lookup; split.
  - intros [(_ & _ & ->)|(_ & _ & ?)]; done.
  - intros Hq; right; split_and!; [| |done]; intros ->; rewrite Hq in *; by simplify_eq.
Qed.
