(* ===== verification/PmmSpec.v ===== *)
(** * The page allocator: what its operations do *)

From stdpp Require Import base tactics option list numbers gmap.
From Stdlib Require Import ZArith Lia.
From S2P Require Import Prelude Pmm PmmLists PmmInv.

Local Open Scope Z_scope.

(** A step that touches only free and held blocks. *)
Record evolves (s s' : pmm) (B B' : blocks) : Prop := {
  e_core : same_core s s';
  e_users : same_users B B';
  e_cover : same_cover B B';
  e_desc : forall q o k, B !! q = Some (o, k) -> in_use k ->
    desc <$> pages_array s' !! q = desc <$> pages_array s !! q
}.

Lemma evolves_refl s B : evolves s s B B.
Proof. by split. Qed.

Lemma evolves_trans s1 s2 s3 B1 B2 B3 :
  evolves s1 s2 B1 B2 -> evolves s2 s3 B2 B3 -> evolves s1 s3 B1 B3.
Proof.
  intros [C1 U1 V1 D1] [C2 U2 V2 D2]; split; [by etrans|by etrans|by etrans|].
  intros q o k Hq Hk; etrans; [|by eapply D1]; eapply D2; [|done]; by apply U1.
Qed.

Lemma evolves_lists s s' B p o k k' :
  B !! p = Some (o, k) -> ~ in_use k -> ~ in_use k' -> lists_only s s' ->
  evolves s s' B (<[p := (o, k')]> B).
Proof.
  intros Hp Hk Hk' Hlo; split; [by apply lists_only_core|by eapply same_users_kind|
    by eapply same_cover_kind|].
  intros q oq kq _ _; apply same_desc_fmap, Hlo.
Qed.

Lemma evolves_desc s B p o g :
  B !! p = Some (o, KHeld) -> evolves s (with_pages s (<[p := g]> (pages_array s))) B B.
Proof.
  intros Hp; split; [done|done|done|]; intros q oq kq Hq Hu.
  cbn [with_pages pages_array]; rewrite lookup_insert_ne; [done|].
  intros <-; rewrite Hp in Hq; by simplify_eq.
Qed.

Lemma evolves_ghost s B B' : same_users B B' -> same_cover B B' -> evolves s s B B'.
Proof. by split. Qed.

Lemma inv_D s B L D D' : (forall z, D z = D' z) -> inv s B L D -> inv s B L D'.
Proof. intros H [? ? ? ? ? HC]; split; try done; by eapply counts_ext. Qed.

Lemma inv_page_zone s B L D p o k g :
  inv s B L D -> B !! p = Some (o, k) -> pages_array s !! p = Some g -> pg_zone g = zone_of p.
Proof. intros HI _ Hg; by eapply (do_zone _ _ _ (i_descs _ _ _ _ HI)). Qed.

Lemma pfn_to_page_ok s B L D p o k q :
  inv s B L D -> B !! p = Some (o, k) -> in_block p o q -> pfn_to_page s q = Some q.
Proof.
  intros HI Hp Hq; destruct (bo_wf _ _ (i_blocks _ _ _ _ HI) _ _ _ Hp) as [_ _ _ He _].
  destruct (inv_page _ _ _ _ _ _ _ HI Hp) as [g Hg].
  unfold pfn_to_page, in_block in *; rewrite decide_False; [done|].
  intros [?|Hem]; [lia|]; rewrite Hem in Hg; by rewrite lookup_empty in Hg.
Qed.

Lemma page_at_ok s p g : pages_array s !! p = Some g -> page_at s p = Ok g.
Proof. intros H; unfold page_at; by rewrite H. Qed.

Definition only_held (B : blocks) (p : Z) : Prop := forall q o, B !! q = Some (o, KHeld) -> q = p.
Definition none_held (B : blocks) : Prop := forall q o, B !! q <> Some (o, KHeld).

Lemma split_block_spec s B L D p order k :
  inv s B L D -> B !! p = Some ((order + k)%nat, KHeld) -> only_held B p ->
  exists s' B' L', split_block s (zone_of p) p order k = Ok s' /\
    inv s' B' L' (dadd D (zone_of p) (pow2 order - pow2 (order + k))) /\
    B' !! p = Some (order, KHeld) /\ only_held B' p /\ evolves s s' B B'.
Proof.
  revert s B L D; induction k as [|k IH]; intros s B L D HI Hp Hoh.
  { exists s, B, L; rewrite Nat.add_0_r in Hp |- *; split_and!; [done| |done|done|apply evolves_refl].
    eapply inv_D; [|done]; intros z; unfold dadd; case_decide; lia. }
  rewrite Nat.add_succ_r in Hp; set (c := (order + k)%nat) in *; set (q := p + pow2 c).
  pose proof (pow2_pos c) as Hpos; pose proof (i_blocks _ _ _ _ HI) as HB.
  pose proof (inv_split _ _ _ _ _ _ HI Hp) as HI1; set (B1 := split_map B p c) in *.
  assert (Hq1 : B1 !! q = Some (c, KHeld)) by apply lookup_insert_eq.
  assert (Hp1 : B1 !! p = Some (c, KHeld))
    by (unfold B1, split_map; rewrite lookup_insert_ne by lia; apply lookup_insert_eq).
  assert (Hz : zone_of q = zone_of p).
  { destruct (bo_wf _ _ HB _ _ _ Hp) as [_ _ _ _ Hz]; eapply zone_between; [exact Hz|].
    unfold q; rewrite pow2_S; lia. }
  destruct (inv_page _ _ _ _ _ _ _ HI1 Hp1) as [g Hg], (inv_page _ _ _ _ _ _ _ HI1 Hq1) as [b Hb].
  assert (Hzb : pg_zone g = pg_zone b).
  { rewrite (inv_page_zone _ _ _ _ _ _ _ _ HI1 Hp1 Hg), (inv_page_zone _ _ _ _ _ _ _ _ HI1 Hq1 Hb).
    congruence. }
  cbn [split_block]; fold c; fold q; rewrite (page_at_ok _ _ _ Hg); mstep.
  rewrite (pfn_to_page_ok _ _ _ _ p _ _ q HI Hp) by (unfold in_block; rewrite pow2_S; unfold q; lia).
  cbn [of_opt]; mstep; rewrite (upd_page_ok _ _ _ _ Hb); mstep.
  set (f := fun b => set_state c PAGE_FLAG_FREE 0 (set_zone (pg_zone g) b)).
  pose proof (inv_desc _ _ _ _ _ _ _ KHeld f b HI1 Hq1 I I ltac:(done) ltac:(done) Hb eq_refl Hzb I
                (fun _ => eq_refl)) as HI2.
  rewrite (insert_id B1) in HI2 by done; set (s2 := with_pages s _) in *.
  destruct (inv_link s2 B1 L D c q (f b) HI2 Hq1) as (s3 & L3 & E3 & HI3 & Hlo).
  { apply lookup_insert_eq. } { by repeat split. }
  change (set_state c PAGE_FLAG_FREE 0 (set_zone (pg_zone g) b)) with (f b); fold s2.
  rewrite Hz in E3, HI3; rewrite E3; mstep.
  destruct (IH _ _ _ _ HI3) as (s4 & B4 & L4 & E4 & HI4 & Hp4 & Hoh4 & Hev).
  { rewrite lookup_insert_ne by lia; exact Hp1. }
  { intros x ox; destruct (decide (x = q)) as [->|Hx]; [by rewrite lookup_insert_eq|].
    rewrite lookup_insert_ne by done; intros [(-> & _)|[(-> & _)|(_ & _ & Hx')]]%split_lookup;
      [done|done|by eapply Hoh]. }
  exists s4, B4, L4; split_and!; [done| |done|done|].
  - eapply inv_D; [|exact HI4]; intros z; unfold dadd; fold c.
    rewrite Nat.add_succ_r; fold c; rewrite pow2_S; repeat case_decide; lia.
  - eapply evolves_trans; [|exact Hev].
    eapply evolves_trans; [apply (evolves_ghost _ _ B1);
      [by eapply same_users_split|by eapply same_cover_split]|].
    eapply evolves_trans; [by eapply (evolves_desc s B1 q)|].
    eapply evolves_lists; [exact Hq1|by intros []|by intros []|exact Hlo].
Qed.

(** ** Allocation from a zone *)

Lemma add_free_pages_spec s B L D z d :
  inv s B L D -> (z < PMM_ZONE_COUNT)%nat ->
  exists s', add_free_pages s z d = Ok s' /\ inv s' B L (dadd D z d) /\ same_core s s' /\
    pages_array s' = pages_array s.
Proof.
  intros HI Hz; pose proof HI as [HL HB HD HF HP HC].
  destruct (rep_zone _ _ _ HL Hz) as [zn Hzn].
  unfold add_free_pages, zone_at; rewrite Hzn; cbn [of_opt]; mstep.
  eexists; split; [done|]; split_and!; [|done|done].
  split; try done; [|by apply counts_add].
  destruct HL as [H1 H2 H3 H4 H5 H6]; split; try done; cbn [with_zones zones].
  - by rewrite length_insert.
  - intros z' zn' Hz'; destruct (decide (z' = z)) as [->|Hne].
    + rewrite list_lookup_insert_eq in Hz' by (by eapply lookup_lt_Some); simplify_eq.
      cbn [free_lists]; eauto.
    + rewrite list_lookup_insert_ne in Hz' by done; eauto.
Qed.

Definition D0 : nat -> Z := fun _ => 0.

(** The block of order [order] at [p] is handed out. *)
Record granted (s s' : pmm) (B B' : blocks) (p : Z) (order : nat) (flags : Z) : Prop := {
  gr_block : B' !! p = Some (order, KAlloc);
  gr_users : forall q o k, q <> p -> in_use k -> B' !! q = Some (o, k) <-> B !! q = Some (o, k);
  gr_cover : same_cover B B';
  gr_core : same_core s s';
  gr_desc : forall q o k, q <> p -> B !! q = Some (o, k) -> in_use k ->
    desc <$> pages_array s' !! q = desc <$> pages_array s !! q;
  gr_page : exists g, pages_array s' !! p = Some g /\
    pg_flags g = Z.land flags (Z.lnot PAGE_FLAG_ZERO) /\ pg_refcount g = 1
}.

Lemma has_flag_bit flags i :
  0 <= i -> has_flag flags (Z.shiftl 1 i) = Z.testbit flags i.
Proof.
  intros Hi; unfold has_flag; rewrite Z.shiftl_1_l.
  assert (E : Z.land flags (2 ^ i) = 0 <-> Z.testbit flags i = false).
  { split.
    - intros E; assert (H : Z.testbit (Z.land flags (2 ^ i)) i = false) by (by rewrite E, Z.bits_0).
      by rewrite Z.land_spec, Z.pow2_bits_true, andb_true_r in H by done.
    - intros E; apply Z.bits_inj'; intros j Hj; rewrite Z.bits_0, Z.land_spec.
      destruct (decide (j = i)) as [->|]; [by rewrite E|].
      by rewrite Z.pow2_bits_false, andb_false_r by done. }
  case_bool_decide as H; destruct (Z.testbit flags i); naive_solver.
Qed.

Lemma strip_zero_free flags :
  has_flag flags PAGE_FLAG_FREE = false ->
  has_flag (Z.land flags (Z.lnot PAGE_FLAG_ZERO)) PAGE_FLAG_FREE = false.
Proof.
  unfold PAGE_FLAG_FREE, PAGE_FLAG_ZERO; rewrite !has_flag_bit by lia.
  rewrite Z.land_spec; by intros ->.
Qed.

(** The end of every allocation: a held block becomes the caller's. *)
Lemma grant_spec s B L D p order flags :
  inv s B L D -> B !! p = Some (order, KHeld) -> has_flag flags PAGE_FLAG_FREE = false ->
  exists s', upd_page s p (set_state order (Z.land flags (Z.lnot PAGE_FLAG_ZERO)) 1) = Ok s' /\
    inv s' (<[p := (order, KAlloc)]> B) L D /\
    granted s s' B (<[p := (order, KAlloc)]> B) p order flags /\ zones s' = zones s.
Proof.
  intros HI Hp Hf; destruct (inv_page _ _ _ _ _ _ _ HI Hp) as [g Hg].
  rewrite (upd_page_ok _ _ _ _ Hg); eexists; split; [done|]; split_and!; [| |done].
  - eapply inv_desc; try done; [split_and!; [by apply strip_zero_free|done|done|done]|].
    by intros [_ ?].
  - split.
    + apply lookup_insert_eq.
    + intros q o k Hne _; by rewrite lookup_insert_ne.
    + by eapply same_cover_kind.
    + done.
    + intros q o k Hne _ _; cbn [with_pages pages_array]; by rewrite lookup_insert_ne.
    + eexists; cbn [with_pages pages_array]; rewrite lookup_insert_eq; done.
Qed.

Lemma granted_after s1 s2 s3 B1 B2 B3 p order flags :
  evolves s1 s2 B1 B2 -> granted s2 s3 B2 B3 p order flags -> granted s1 s3 B1 B3 p order flags.
Proof.
  intros [C1 U1 V1 E1] [G1 G2 G3 G4 G5 G6]; split; try done; [|by etrans|by etrans|].
  - intros q o k Hne Hk; rewrite G2 by done; by apply U1.
  - intros q o k Hne Hq Hk; etrans; [|by eapply E1]; eapply G5; [done| |done]; by apply U1.
Qed.

Lemma alloc_scan_spec s B L z order flags n k :
  inv s B L D0 -> none_held B -> (z < PMM_ZONE_COUNT)%nat -> (order + k + n = PMM_MAX_ORDER)%nat ->
  has_flag flags PAGE_FLAG_FREE = false ->
  exists r s', alloc_scan s z order flags n k = Ok (r, s') /\
    match r with
    | None => s' = s /\ forall o, (order + k <= o)%nat -> L z o = []
    | Some p => exists B' L', inv s' B' L' D0 /\ none_held B' /\ zone_of p = z /\
        (exists o, (order <= o)%nat /\ B !! p = Some (o, KFree)) /\
        granted s s' B B' p order flags
    end.
Proof.
  intros HI Hnh Hz Hn Hf; revert k Hn; induction n as [|n IH]; intros k Hn.
  { exists None, s; split_and!; [done|done|]; intros o Ho.
    destruct (L z o) as [|p l] eqn:E; [done|exfalso].
    destruct (lr_dom _ _ (i_lists _ _ _ _ HI) z o p) as [_ ?]; [rewrite E; by left|lia]. }
  cbn [alloc_scan]; rewrite (get_head_ok _ L) by (apply HI || done || lia); mstep.
  destruct (L z (order + k)%nat) as [|p l] eqn:EL; cbn [hdd].
  { destruct (IH (S k)) as (r & s' & -> & H); [lia|]; exists r, s'; split; [done|].
    destruct r as [p|]; [done|]; destruct H as [-> H]; split; [done|]; intros o Ho.
    destruct (decide (o = order + k)%nat) as [->|]; [done|]; apply H; lia. }
  assert (Hp : B !! p = Some ((order + k)%nat, KFree) /\ z = zone_of p)
    by (apply (i_free _ _ _ _ HI); rewrite EL; by left).
  destruct Hp as [Hp ->].
  destruct (inv_unlink _ _ _ _ _ _ HI Hp) as (s1 & L1 & -> & HI1 & Hlo); mstep.
  destruct (split_block_spec _ _ _ _ p order k HI1) as (s2 & B2 & L2 & -> & HI2 & Hp2 & Hoh2 & Hev);
    [apply lookup_insert_eq| |]; mstep.
  { intros x ox; destruct (decide (x = p)) as [->|Hx]; [done|].
    rewrite lookup_insert_ne by done; intros []%Hnh. }
  destruct (grant_spec _ _ _ _ _ _ flags HI2 Hp2 Hf) as (s3 & -> & HI3 & Hgr & _); mstep.
  destruct (add_free_pages_spec _ _ _ _ (zone_of p) (- pow2 order) HI3 Hz)
    as (s4 & -> & HI4 & Hc4 & Hpg4); mstep.
  eexists (Some p), s4; split; [done|]; exists (<[p := (order, KAlloc)]> B2), L2; split_and!.
  - eapply inv_D; [|exact HI4]; intros z; unfold dadd, D0; repeat case_decide; lia.
  - intros x ox; destruct (decide (x = p)) as [->|Hx]; [by rewrite lookup_insert_eq|].
    rewrite lookup_insert_ne by done; by intros ?%Hoh2.
  - done.
  - exists (order + k)%nat; split; [lia|done].
  - eapply granted_after; [|eapply granted_after; [exact Hev|]].
    + eapply evolves_lists; [exact Hp|by intros []|by intros []|exact Hlo].
    + destruct Hgr as [G1 G2 G3 G4 G5 G6]; split; try done; [by etrans| |]; by rewrite Hpg4.
Qed.

Lemma alloc_from_zone_spec s B L z order flags :
  inv s B L D0 -> none_held B -> (z < PMM_ZONE_COUNT)%nat -> (order < PMM_MAX_ORDER)%nat ->
  has_flag flags PAGE_FLAG_FREE = false ->
  exists r s', alloc_from_zone_locked s z order flags = Ok (r, s') /\
    match r with
    | None => s' = s /\ forall o p, (order <= o)%nat -> B !! p = Some (o, KFree) -> zone_of p <> z
    | Some p => exists B' L', inv s' B' L' D0 /\ none_held B' /\ zone_of p = z /\
        (exists o, (order <= o)%nat /\ B !! p = Some (o, KFree)) /\
        granted s s' B B' p order flags
    end.
Proof.
  intros HI Hnh Hz Ho Hf; unfold alloc_from_zone_locked.
  destruct (alloc_scan_spec s B L z order flags (PMM_MAX_ORDER - order) 0) as (r & s' & -> & H);
    [done|done|done|lia|done|].
  exists r, s'; split; [done|]; destruct r as [p|]; [done|]; destruct H as [-> H]; split; [done|].
  intros o p Hle Hp <-; assert (Hin : p ∈ L (zone_of p) o) by (by apply (i_free _ _ _ _ HI)).
  rewrite H in Hin by lia; by apply not_elem_of_nil in Hin.
Qed.

(** ** Freeing to a zone *)

(** A block that contains the buddy of a block of smaller order contains both. *)
Lemma buddy_same_block p0 o0 p c :
  (pow2 o0 | p0) -> 0 <= p -> (pow2 c | p) -> (c < o0)%nat ->
  in_block p0 o0 (Z.lxor p (pow2 c)) -> in_block p0 o0 p.
Proof.
  intros Ha Hp Hc Ho Hin; pose proof (pow2_pos c) as Hpos; unfold in_block in *.
  destruct (Z.divide_trans _ _ _ (pow2_le (S c) o0 ltac:(lia)) Ha) as [a ->].
  destruct (pow2_le (S c) o0 ltac:(lia)) as [m Hm]; rewrite Hm, pow2_S in *.
  destruct (buddy_cases p c Hp Hc) as [([x Hx] & E)|([x Hx] & E & _)]; rewrite E in Hin;
    rewrite pow2_S in Hx; set (w := pow2 c) in *.
  - assert (a <= x) by nia; assert (x < a + m) by nia; nia.
  - assert (p = (2 * x + 1) * w) by lia; assert (a <= x) by nia; assert (x < a + m) by nia; nia.
Qed.

(** The buddy test finds free blocks of the same order only. *)
Lemma buddy_is_free s B L D p c b :
  inv s B L D -> B !! p = Some (c, KHeld) -> only_held B p ->
  pages_array s !! Z.lxor p (pow2 c) = Some b -> free_looking b -> pg_order b = c ->
  B !! Z.lxor p (pow2 c) = Some (c, KFree).
Proof.
  intros HI Hp Hoh Hb Hfl Ho; pose proof (i_blocks _ _ _ _ HI) as HB.
  pose proof (bo_wf _ _ HB _ _ _ Hp) as [_ Hpos Hal _ _]; pose proof (pow2_pos c).
  assert (Hne : Z.lxor p (pow2 c) <> p) by (destruct (buddy_cases p c Hpos Hal) as [[_ ->]|[_ [-> _]]]; lia).
  destruct (do_stale _ _ _ (i_descs _ _ _ _ HI) _ _ Hb Hfl) as [(o & [Hf|Hh])|(p0 & o0 & k0 & Hp0 & Hin)].
  - pose proof (do_kind _ _ _ (i_descs _ _ _ _ HI) _ _ _ _ Hf Hb) as (_ & _ & Hoo); congruence.
  - by apply Hoh in Hh.
  - exfalso; pose proof (bo_wf _ _ HB _ _ _ Hp0) as [_ Hpos0 Hal0 _ _].
    assert (Hbin : in_block p0 o0 (Z.lxor p (pow2 c))) by (unfold in_block; lia).
    destruct (decide (o0 <= c)%nat) as [Hle|Hgt].
    + assert ((pow2 c | Z.lxor p (pow2 c))).
      { destruct (buddy_cases p c Hpos Hal) as [[_ ->]|[_ [-> _]]];
          [apply Z.divide_add_r|apply Z.divide_sub_r]; done. }
      assert (Z.lxor p (pow2 c) = p0) by (by eapply aligned_start); lia.
    + assert (in_block p0 o0 p) by (eapply buddy_same_block; [done|done|done|lia|done]).
      assert (p0 = p) as ->.
      { eapply (bo_disj _ _ HB); [exact Hp0|exact Hp|done|]; unfold in_block; lia. }
      assert (o0 = c) by congruence; lia.
Qed.


(** One round of coalescing. *)
Lemma merge_step s B L D p c :
  inv s B L D -> B !! p = Some (c, KHeld) -> only_held B p ->
  B !! Z.lxor p (pow2 c) = Some (c, KFree) -> zone_of (Z.lxor p (pow2 c)) = zone_of p ->
  (S c < PMM_MAX_ORDER)%nat ->
  let lo := if decide (Z.lxor p (pow2 c) < p) then Z.lxor p (pow2 c) else p in
  exists s' B' L', list_remove s (zone_of p) c (Z.lxor p (pow2 c)) = Ok s' /\
    inv s' B' L' (dadd D (zone_of p) (pow2 c)) /\ B' !! lo = Some (S c, KHeld) /\
    only_held B' lo /\ zone_of lo = zone_of p /\ evolves s s' B B'.
Proof.
  intros HI Hp Hoh Hb Hz Hc lo; pose proof (i_blocks _ _ _ _ HI) as HB.
  pose proof (bo_wf _ _ HB _ _ _ Hp) as [_ Hpos Hal _ _]; pose proof (pow2_pos c).
  destruct (inv_unlink _ _ _ _ _ _ HI Hb) as (s1 & L1 & E1 & HI1 & Hlo); rewrite Hz in E1, HI1.
  set (b := Z.lxor p (pow2 c)) in *; set (B1 := <[b := (c, KHeld)]> B) in *.
  assert (Hlohi : (pow2 (S c) | lo) /\ ((lo = p /\ b = lo + pow2 c) \/ (lo = b /\ p = lo + pow2 c))).
  { unfold lo; destruct (buddy_cases p c Hpos Hal) as [[? Eb]|[? [Eb _]]]; fold b in Eb.
    - rewrite decide_False by lia; auto.
    - rewrite decide_True by lia; rewrite Eb in *; split; [done|right; split; [done|lia]]. }
  destruct Hlohi as [Hdiv Hcases].
  assert (Hb1 : B1 !! b = Some (c, KHeld)) by apply lookup_insert_eq.
  assert (Hp1 : B1 !! p = Some (c, KHeld)).
  { unfold B1; rewrite lookup_insert_ne; [done|]; destruct Hcases; lia. }
  exists s1, (merge_map B1 lo c), L1.
  assert (Hl1 : B1 !! lo = Some (c, KHeld)) by (destruct Hcases as [[-> _]|[-> _]]; done).
  assert (Hh1 : B1 !! (lo + pow2 c) = Some (c, KHeld)) by (destruct Hcases as [[_ <-]|[_ <-]]; done).
  assert (Hzl : zone_of (lo + pow2 c) = zone_of lo)
    by (destruct Hcases as [[-> <-]|[-> <-]]; congruence).
  split_and!; [done|by apply inv_merge|apply merge_lookup; auto| | |].
  - intros q o [(-> & _)|(Hq1 & Hq2 & Hq)]%merge_lookup; [done|exfalso].
    unfold B1 in Hq; destruct (decide (q = b)) as [->|Hne]; [destruct Hcases; lia|].
    rewrite lookup_insert_ne in Hq by done; apply Hoh in Hq; destruct Hcases; lia.
  - destruct Hcases as [[-> _]|[-> _]]; done.
  - eapply evolves_trans; [eapply (evolves_lists _ _ _ _ _ _ KHeld); [exact Hb|by intros []|by intros []|exact Hlo]|].
    apply evolves_ghost; [by apply same_users_merge|by apply same_cover_merge].
Qed.

Lemma evolves_total s s' B B' : evolves s s' B B' -> total_page_count s' = total_page_count s.
Proof. by intros [(_ & _ & ? & _) _ _ _]. Qed.

Lemma merge_loop_spec s B L D p c n :
  inv s B L D -> B !! p = Some (c, KHeld) -> only_held B p -> (c + n = PMM_MAX_ORDER - 1)%nat ->
  exists s' p' c' B' L', merge_loop s (zone_of p) p c n = Ok (s', p', c') /\
    inv s' B' L' (dadd D (zone_of p) (pow2 c' - pow2 c)) /\ B' !! p' = Some (c', KHeld) /\
    only_held B' p' /\ zone_of p' = zone_of p /\ evolves s s' B B'.
Proof.
  revert s B L D p c; induction n as [|n IH]; intros s B L D p c HI Hp Hoh Hn.
  all: assert (Hstop : forall m, m = Ok (s, p, c) -> exists s' p' c' B' L', m = Ok (s', p', c') /\
    inv s' B' L' (dadd D (zone_of p) (pow2 c' - pow2 c)) /\ B' !! p' = Some (c', KHeld) /\
    only_held B' p' /\ zone_of p' = zone_of p /\ evolves s s' B B')
    by (intros m ->; exists s, p, c, B, L; split_and!; try done;
        eapply inv_D; [|done]; intros z; unfold dadd; case_decide; lia).
  { by apply Hstop. }
  cbn [merge_loop]; set (b := Z.lxor p (pow2 c)).
  case_decide as Ht; [by apply Hstop|].
  destruct (inv_page _ _ _ _ _ _ _ HI Hp) as [g Hg].
  assert (Hpf : pfn_to_page s b = Some b).
  { unfold pfn_to_page; rewrite decide_False; [done|]; intros [?|Hem]; [lia|].
    rewrite Hem in Hg; by rewrite lookup_empty in Hg. }
  pose proof (bo_wf _ _ (i_blocks _ _ _ _ HI) _ _ _ Hp) as [_ Hpos Hal _ _].
  assert (Hb0 : 0 <= b) by (apply Z.lxor_nonneg; split; [pose proof (pow2_pos c); lia|done]).
  destruct (proj2 (do_dom _ _ _ (i_descs _ _ _ _ HI) b)) as [gb Hgb]; [lia|].
  rewrite Hpf, (page_at_ok _ _ _ Hgb), (page_at_ok _ _ _ Hg); mstep.
  destruct (has_flag (pg_flags gb) PAGE_FLAG_FREE) eqn:Hfl; [|by apply Hstop]; cbn [negb].
  case_decide as Ho; [by apply Hstop|]; case_decide as Hz; [by apply Hstop|].
  case_decide as Hr; [by apply Hstop|].
  assert (Hbf : B !! b = Some (c, KFree))
    by (eapply buddy_is_free; [done|done|done|exact Hgb|split; [done|lia]|lia]).
  assert (Hzb : zone_of b = zone_of p).
  { rewrite <-(do_zone _ _ _ (i_descs _ _ _ _ HI) _ _ Hgb), <-(do_zone _ _ _ (i_descs _ _ _ _ HI) _ _ Hg).
    lia. }
  destruct (merge_step _ _ _ _ _ _ HI Hp Hoh Hbf Hzb) as (s1 & B1 & L1 & E1 & HI1 & Hl1 & Hoh1 & Hz1 & Hev1);
    [unfold PMM_MAX_ORDER in *; lia|].
  fold b in E1, Hl1, Hoh1, Hz1; rewrite E1; mstep.
  destruct (IH _ _ _ _ _ _ HI1 Hl1 Hoh1) as (s2 & p2 & c2 & B2 & L2 & E2 & HI2 & Hp2 & Hoh2 & Hz2 & Hev2); [lia|].
  rewrite Hz1 in E2, HI2, Hz2; exists s2, p2, c2, B2, L2; split_and!; try done.
  - eapply inv_D; [|exact HI2]; intros z; unfold dadd; rewrite pow2_S; repeat case_decide; lia.
  - by eapply evolves_trans.
Qed.

Lemma free_to_zone_spec s B L D p o :
  inv s B L D -> B !! p = Some (o, KHeld) -> only_held B p ->
  exists s' B' L', free_to_zone_locked s (zone_of p) p o = Ok s' /\ inv s' B' L' D /\
    none_held B' /\ evolves s s' B B'.
Proof.
  intros HI Hp Hoh; assert (Ho : (o < PMM_MAX_ORDER)%nat) by (by eapply (i_blocks _ _ _ _ HI)).
  destruct (merge_loop_spec s B L D p o (PMM_MAX_ORDER - 1 - o) HI Hp Hoh)
    as (s1 & p1 & c1 & B1 & L1 & E1 & HI1 & Hp1 & Hoh1 & Hz1 & Hev1); [lia|].
  unfold free_to_zone_locked; rewrite E1; mstep.
  destruct (inv_page _ _ _ _ _ _ _ HI1 Hp1) as [g Hg]; rewrite (upd_page_ok _ _ _ _ Hg); mstep.
  pose proof (inv_desc _ _ _ _ _ _ _ KHeld (set_state c1 PAGE_FLAG_FREE 0) g HI1 Hp1 I I
    ltac:(done) ltac:(done) Hg eq_refl eq_refl I (fun _ => eq_refl)) as HI2.
  rewrite (insert_id B1) in HI2 by done; set (s2 := with_pages s1 _) in *.
  destruct (inv_link s2 B1 L1 _ c1 p1 (set_state c1 PAGE_FLAG_FREE 0 g) HI2 Hp1)
    as (s3 & L3 & E3 & HI3 & Hlo3); [apply lookup_insert_eq|by repeat split|].
  rewrite Hz1 in E3, HI3; rewrite E3; mstep.
  destruct (add_free_pages_spec _ _ _ _ (zone_of p) (pow2 o) HI3 (zone_of_lt p))
    as (s4 & E4 & HI4 & Hc4 & Hpg4).
  exists s4, (<[p1 := (c1, KFree)]> B1), L3; split_and!; [done| | |].
  - eapply inv_D; [|exact HI4]; intros z; unfold dadd; repeat case_decide; lia.
  - intros x ox; destruct (decide (x = p1)) as [->|Hx]; [by rewrite lookup_insert_eq|].
    rewrite lookup_insert_ne by done; by intros ?%Hoh1.
  - eapply evolves_trans; [exact Hev1|].
    eapply evolves_trans; [by eapply (evolves_desc s1 B1 p1)|]; fold s2.
    eapply evolves_trans; [eapply (evolves_lists _ _ _ _ _ _ KFree);
      [exact Hp1|by intros []|by intros []|exact Hlo3]|].
    split; [done|done|done|]; intros; by rewrite Hpg4.
Qed.

(** ** The per-CPU pools *)

Lemma take_S_insert {A} (l : list A) n x :
  (n < length l)%nat -> take (S n) (<[n := x]> l) = take n l ++ [x].
Proof.
  intros H; erewrite take_S_r by (apply list_lookup_insert_eq; exact H).
  by rewrite take_insert_ge by lia.
Qed.

Lemma pool_push_ok pool p :
  length (pcp_pages pool) = PCP_MAX_PAGES -> (pcp_count pool < PCP_MAX_PAGES)%nat ->
  pool_push pool p = Ok (Pool (S (pcp_count pool)) (<[pcp_count pool := p]> (pcp_pages pool))).
Proof.
  intros Hl Hc; unfold pool_push; rewrite zset_ok by lia; mstep; by rewrite Nat2Z.id.
Qed.

Lemma pools_ok_other B B' c C pool :
  pools_ok B C -> pool_ok B' c pool ->
  (forall p c' o, c' <> c -> B' !! p = Some (o, KPcp c') <-> B !! p = Some (o, KPcp c')) ->
  (c < PMM_MAX_CPUS)%nat -> pools_ok B' (<[c := pool]> C).
Proof.
  intros (Hl & Hp & Hc) Hpool Hother Hlt; split; [by rewrite length_insert|]; split.
  - intros c' pool'; destruct (decide (c' = c)) as [->|Hne].
    + rewrite list_lookup_insert_eq by lia; by intros [= <-].
    + rewrite list_lookup_insert_ne by done; intros Hc'.
      destruct (Hp _ _ Hc') as [H1 H2 H3 H4 H5]; split; try done.
      intros p; by rewrite H4, Hother.
  - intros p o c' Hp'; destruct (decide (c' = c)) as [->|Hne]; [done|].
    rewrite Hother in Hp' by done; eauto.
Qed.

Lemma pools_push B C c pool p k :
  pools_ok B C -> C !! c = Some pool -> (pcp_count pool < PCP_MAX_PAGES)%nat ->
  B !! p = Some (0%nat, k) -> not_pcp k ->
  ((PCP_BATCH_SIZE - 1 <= pcp_count pool)%nat -> zone_of p = PMM_ZONE_NORMAL) ->
  exists pool', pool_push pool p = Ok pool' /\ pcp_count pool' = S (pcp_count pool) /\
    pools_ok (<[p := (0%nat, KPcp c)]> B) (<[c := pool']> C).
Proof.
  intros HP Hc Hlt Hp Hk Hz; pose proof HP as (Hlen & Hpo & _).
  assert (Hc64 : (c < PMM_MAX_CPUS)%nat) by (rewrite <-Hlen; by eapply lookup_lt_Some).
  destruct (Hpo _ _ Hc) as [Hl Hcnt Hnd Hel Hno]; rewrite pool_push_ok by done.
  eexists; split; [done|]; split; [done|]; eapply pools_ok_other; [done| | |done].
  - assert (Hfresh : p ∉ take (pcp_count pool) (pcp_pages pool)).
    { rewrite Hel, Hp; intros [= ->]; done. }
    split; cbn [pcp_pages pcp_count]; [by rewrite length_insert|lia| | |];
      rewrite take_S_insert by lia.
    + apply NoDup_app; split_and!; [done| |apply NoDup_singleton].
      intros x Hx ->%list_elem_of_singleton; done.
    + intros q; rewrite elem_of_app, list_elem_of_singleton, Hel.
      destruct (decide (q = p)) as [->|Hne]; [rewrite lookup_insert_eq; naive_solver|].
      rewrite lookup_insert_ne by done; naive_solver.
    + intros i q Hi Hq; apply lookup_snoc_Some in Hq as [[Hlt' Hq]|[-> ->]]; [by eapply Hno|].
      apply Hz; rewrite length_take in Hi; lia.
  - intros q c' o Hne; destruct (decide (q = p)) as [->|Hqp].
    + rewrite lookup_insert_eq, Hp; split; intros; simplify_eq; done.
    + by rewrite lookup_insert_ne.
Qed.

Lemma pools_pop B C c pool k' :
  pools_ok B C -> C !! c = Some pool -> (0 < pcp_count pool)%nat -> not_pcp k' ->
  exists p pool', pool_pop pool = Ok (p, pool') /\ pcp_count pool = S (pcp_count pool') /\
    B !! p = Some (0%nat, KPcp c) /\
    ((PCP_BATCH_SIZE - 1 <= pcp_count pool')%nat -> zone_of p = PMM_ZONE_NORMAL) /\
    pools_ok (<[p := (0%nat, k')]> B) (<[c := pool']> C).
Proof.
  intros HP Hc Hpos Hk; pose proof HP as (Hlen & Hpo & _).
  assert (Hc64 : (c < PMM_MAX_CPUS)%nat) by (rewrite <-Hlen; by eapply lookup_lt_Some).
  destruct (Hpo _ _ Hc) as [Hl Hcnt Hnd Hel Hno]; unfold pool_pop.
  destruct (pcp_count pool) as [|n] eqn:En; [lia|].
  destruct (lookup_lt_is_Some_2 (pcp_pages pool) n) as [p Hp]; [lia|].
  rewrite (zget_lookup _ _ p) by (rewrite ?Nat2Z.id; done || lia); mstep.
  rewrite (take_S_r _ _ _ Hp) in Hnd, Hel, Hno.
  assert (Hin : B !! p = Some (0%nat, KPcp c)) by (apply Hel; set_solver).
  apply NoDup_app in Hnd as (Hnd & Hfresh & _).
  assert (Hpn : p ∉ take n (pcp_pages pool)) by (intros ?; eapply Hfresh; [done|by left]).
  exists p, (Pool n (pcp_pages pool)); split_and!; [done|done|done| |].
  - cbn [pcp_count]; intros Hn; eapply (Hno n); [done|].
    rewrite lookup_app_r by (rewrite length_take; lia).
    rewrite length_take, (Nat.min_l n) by lia; by rewrite Nat.sub_diag.
  - eapply pools_ok_other; [done| | |done].
    + split; cbn [pcp_pages pcp_count]; [done|lia|done| |].
      * intros q; destruct (decide (q = p)) as [->|Hne].
        -- rewrite lookup_insert_eq; split; [done|]; intros [= ->]; done.
        -- rewrite lookup_insert_ne, <-Hel, elem_of_app, list_elem_of_singleton by done; naive_solver.
      * intros i q Hi Hq; eapply Hno; [exact Hi|]; by apply lookup_app_l_Some.
    + intros q c' o Hne; destruct (decide (q = p)) as [->|Hqp].
      * rewrite lookup_insert_eq, Hin; split; intros; simplify_eq; done.
      * by rewrite lookup_insert_ne.
Qed.

(** A change of use that comes with a change of the pools. *)
Lemma inv_repool s B L D o p k k' g C :
  inv s B L D -> B !! p = Some (o, k) -> k <> KFree -> k' <> KFree ->
  pages_array s !! p = Some g -> kind_ok o k' g -> (free_looking g -> k' = KHeld) ->
  pools_ok (<[p := (o, k')]> B) C -> inv (with_pools s C) (<[p := (o, k')]> B) L D.
Proof.
  intros [HL HB HD HF HP HC] Hp Hn Hn' Hg Hkind Hfl HC'; split.
  - destruct HL as [H1 H2 H3 H4 H5 H6]; by split.
  - by eapply blocks_ok_kind.
  - eapply descs_ok_retag; [exact HD|exact Hp|exact Hg|exact Hg|done|done|done|auto].
  - intros z o' q; rewrite (HF z o' q); destruct (decide (q = p)) as [->|].
    + rewrite Hp, lookup_insert_eq; naive_solver.
    + by rewrite lookup_insert_ne.
  - done.
  - exact HC.
Qed.

(** ** Allocation through a pool *)

(** The single pages [l] are handed out. *)
Record granted_list (s s' : pmm) (B B' : blocks) (l : list Z) : Prop := {
  gl_block : forall p, p ∈ l -> B' !! p = Some (0%nat, KAlloc);
  gl_new : forall p o k, p ∈ l -> B !! p = Some (o, k) -> ~ in_use k;
  gl_users : forall q o k, q ∉ l -> in_use k -> B' !! q = Some (o, k) <-> B !! q = Some (o, k);
  gl_cover : same_cover B B';
  gl_core : same_core s s';
  gl_desc : forall q o k, q ∉ l -> B !! q = Some (o, k) -> in_use k ->
    desc <$> pages_array s' !! q = desc <$> pages_array s !! q
}.

Lemma granted_list_cons s1 s2 s3 B1 B2 B3 p l flags :
  granted s1 s2 B1 B2 p 0 flags -> (exists o, B1 !! p = Some (o, KFree)) ->
  granted_list s2 s3 B2 B3 l ->
  p ∉ l /\ granted_list s1 s3 B1 B3 (p :: l).
Proof.
  intros [G1 G2 G3 G4 G5 _] [o Ho] [L1 L2 L3 L4 L5 L6].
  assert (Hp : p ∉ l) by (intros Hp; by eapply L2).
  split; [done|]; split; [| | |by etrans|by etrans|].
  - intros q [->|Hq]%elem_of_cons; [|auto]; apply L3; [done|done|done].
  - intros q oq k [->|Hq]%elem_of_cons Hb; [rewrite Ho in Hb; simplify_eq; by intros []|].
    intros Hu; destruct (decide (q = p)) as [->|Hne]; [done|].
    eapply L2; [done| |done]; by apply G2.
  - intros q oq k [Hne Hq]%not_elem_of_cons Hu; rewrite L3, G2; done.
  - intros q oq k [Hne Hq]%not_elem_of_cons Hb Hu; etrans; [|by eapply G5].
    eapply L6; [done| |done]; by apply G2.
Qed.

Lemma alloc_batch_spec s B L z n :
  inv s B L D0 -> none_held B -> (z < PMM_ZONE_COUNT)%nat ->
  exists l s' B' L', alloc_batch s z n = Ok (l, s') /\ inv s' B' L' D0 /\ none_held B' /\
    (length l <= n)%nat /\ NoDup l /\ granted_list s s' B B' l /\
    (l = [] -> s' = s /\ B' = B /\ L' = L).
Proof.
  revert s B L; induction n as [|n IH]; intros s B L HI Hnh Hz.
  { exists [], s, B, L; split_and!; try done; [constructor|].
    split; try done; intros p; by intros ?%not_elem_of_nil || (intros ? ? ?%not_elem_of_nil). }
  cbn [alloc_batch].
  destruct (alloc_from_zone_spec s B L z 0 0) as (r & s1 & -> & Hr);
    [done|done|done|unfold PMM_MAX_ORDER; lia|done|]; mstep; destruct r as [p|].
  - destruct Hr as (B1 & L1 & HI1 & Hnh1 & Hzp & (o & _ & Ho) & Hg).
    destruct (IH s1 B1 L1 HI1 Hnh1 Hz) as (l & s2 & B2 & L2 & -> & HI2 & Hnh2 & Hlen & Hnd & Hgl & _); mstep.
    destruct (granted_list_cons _ _ _ _ _ _ _ _ _ Hg (ex_intro _ o Ho) Hgl) as [Hpl Hgl'].
    exists (p :: l), s2, B2, L2; split_and!; try done; [simpl; lia|by constructor].
  - destruct Hr as [-> _]; exists [], s, B, L; split_and!; try done; [simpl; lia|constructor|].
    split; try done; intros p; by intros ?%not_elem_of_nil || (intros ? ? ?%not_elem_of_nil).
Qed.

(** Pushing the rest of a batch. *)
Definition pcp_of (B : blocks) (c : nat) (l : list Z) : blocks :=
  foldl (fun B p => <[p := (0%nat, KPcp c)]> B) B l.

Lemma pcp_of_notin B c l q : q ∉ l -> pcp_of B c l !! q = B !! q.
Proof.
  revert B; induction l as [|p l IH]; intros B Hq; [done|]; apply not_elem_of_cons in Hq as [? ?].
  simpl; fold (pcp_of (<[p := (0%nat, KPcp c)]> B) c l); rewrite IH by done.
  by rewrite lookup_insert_ne.
Qed.

Lemma pcp_of_in B c l q : NoDup l -> q ∈ l -> pcp_of B c l !! q = Some (0%nat, KPcp c).
Proof.
  revert B; induction l as [|p l IH]; intros B Hnd Hq; [by apply not_elem_of_nil in Hq|].
  apply NoDup_cons in Hnd as [Hp Hnd]; simpl; fold (pcp_of (<[p := (0%nat, KPcp c)]> B) c l).
  apply elem_of_cons in Hq as [->|Hq]; [|by apply IH].
  rewrite pcp_of_notin by done; apply lookup_insert_eq.
Qed.

Lemma pcp_of_cover B c l :
  (forall p, p ∈ l -> exists k, B !! p = Some (0%nat, k)) -> same_cover B (pcp_of B c l).
Proof.
  revert B; induction l as [|p l IH]; intros B Hl; [done|].
  simpl; fold (pcp_of (<[p := (0%nat, KPcp c)]> B) c l).
  destruct (Hl p ltac:(by left)) as [k Hk].
  etrans; [by eapply same_cover_kind|]; apply IH; intros q Hq.
  destruct (decide (q = p)) as [->|]; [rewrite lookup_insert_eq; eauto|].
  rewrite lookup_insert_ne by done; apply Hl; by right.
Qed.

Lemma pool_push_all_spec s B L D c pool l :
  inv s B L D -> pcp_pools s !! c = Some pool -> NoDup l ->
  (forall p, p ∈ l -> B !! p = Some (0%nat, KAlloc)) ->
  (pcp_count pool + length l <= PCP_BATCH_SIZE - 1)%nat ->
  exists pool', pool_push_all pool l = Ok pool' /\
    inv (with_pools s (<[c := pool']> (pcp_pools s))) (pcp_of B c l) L D.
Proof.
  revert s B pool; induction l as [|p l IH]; intros s B pool HI Hc Hnd Hl Hlen.
  { exists pool; split; [done|]; simpl; rewrite list_insert_id by done.
    by destruct s. }
  apply NoDup_cons in Hnd as [Hpl Hnd]; cbn [length] in Hlen.
  destruct (pools_push B (pcp_pools s) c pool p KAlloc) as (pool1 & E1 & Hc1 & HP1);
    [apply HI|done|unfold PCP_MAX_PAGES, PCP_BATCH_SIZE in *; lia|apply Hl; by left|done|unfold PCP_BATCH_SIZE in *; lia|].
  assert (Hp : B !! p = Some (0%nat, KAlloc)) by (apply Hl; by left).
  destruct (inv_page _ _ _ _ _ _ _ HI Hp) as [g Hg].
  pose proof (do_kind _ _ _ (i_descs _ _ _ _ HI) _ _ _ _ Hp Hg) as (Hfl & Hrc & _).
  assert (HI1 : inv (with_pools s (<[c := pool1]> (pcp_pools s))) (<[p := (0%nat, KPcp c)]> B) L D).
  { eapply inv_repool; try done; intros [? ?]; lia. }
  destruct (IH (with_pools s (<[c := pool1]> (pcp_pools s))) (<[p := (0%nat, KPcp c)]> B) pool1)
    as (pool2 & E2 & HI2).
  - done.
  - cbn [with_pools pcp_pools]; apply list_lookup_insert_eq; by eapply lookup_lt_Some.
  - done.
  - intros q Hq; rewrite lookup_insert_ne by set_solver; apply Hl; by right.
  - rewrite Hc1; lia.
  - exists pool2; cbn [pool_push_all]; rewrite E1; mstep; split; [done|].
    cbn [with_pools pcp_pools] in HI2; rewrite list_insert_insert_eq in HI2; exact HI2.
Qed.
