(* ===== verification/PmmTheorems.v ===== *)
(** * The page allocator: its interface

    The invariant of the allocator between calls and the theorems about every call
    of mem/pmm.h, for callers that pass flags without [PAGE_FLAG_FREE] and free
    what they were given. *)

From stdpp Require Import base tactics option list numbers gmap.
From Stdlib Require Import ZArith Lia.
From S2P Require Import Prelude Pmm PmmLists PmmInv PmmSpec.

Local Open Scope Z_scope.

Definition settled (B : blocks) : Prop :=
  forall q o k, B !! q = Some (o, k) -> k <> KHeld /\ k <> KDrain.

(** The invariant between calls. *)
Definition pmm_ok (s : pmm) (B : blocks) : Prop := settled B /\ exists L, inv s B L D0.

(** A caller holds the block of order [o] at [q]. *)
Definition owned (B : blocks) (q : Z) (o : nat) : Prop := B !! q = Some (o, KAlloc).

Lemma settled_none_held B : settled B -> none_held B.
Proof. intros H q o Hq; by destruct (H _ _ _ Hq). Qed.

(** What is the same before and after a call. *)
Record same_machine (s s' : pmm) (B B' : blocks) : Prop := {
  sm_cover : same_cover B B';
  sm_total : total_page_count s' = total_page_count s;
  sm_ready : pmm_smp_ready s' = pmm_smp_ready s;
  sm_usable : usable_page_count s' = usable_page_count s;
  sm_direct : pmm_direct_map_base s' = pmm_direct_map_base s
}.

Lemma same_machine_refl s B : same_machine s s B B.
Proof. by split. Qed.

(** A call that hands out the block of order [order] at [p]. *)
Record alloc_post (s s' : pmm) (B B' : blocks) (p : Z) (order : nat) (flags : Z) : Prop := {
  ap_owned : forall q o, owned B' q o <-> (q = p /\ o = order) \/ owned B q o;
  ap_new : forall o, ~ owned B p o;
  ap_machine : same_machine s s' B B';
  ap_desc : forall q o, owned B q o -> desc <$> pages_array s' !! q = desc <$> pages_array s !! q;
  ap_page : exists g, pages_array s' !! p = Some g /\
    pg_flags g = Z.land flags (Z.lnot PAGE_FLAG_ZERO) /\ pg_refcount g = 1
}.

Lemma granted_post s s' B B' L' p order flags :
  settled B -> inv s' B' L' D0 -> none_held B' -> (exists o, B !! p = Some (o, KFree)) ->
  granted s s' B B' p order flags -> pmm_ok s' B' /\ alloc_post s s' B B' p order flags.
Proof.
  intros Hs HI Hnh [ofr Hf] [G1 G2 G3 (Gp & Gr & Gt & Gu & Gd) G5 G6].
  assert (Hnew : forall o, ~ owned B p o) by (intros o Ho; unfold owned in Ho; congruence).
  split; [split; [|by exists L']|split; try done].
  - intros q o k Hq; split; [intros ->; by eapply Hnh|]; intros ->.
    destruct (decide (q = p)) as [->|Hne]; [congruence|].
    apply G2 in Hq; [|done|done]; by destruct (Hs _ _ _ Hq).
  - intros q o; unfold owned; destruct (decide (q = p)) as [->|Hne].
    + rewrite G1; split; [intros [= <-]; auto|intros [[_ ->]|?]; congruence].
    + rewrite G2 by done; naive_solver.
  - intros q o Ho; eapply G5; [|exact Ho|done]; intros ->; by eapply Hnew.
Qed.

(** The last step of the per-CPU path. *)
Lemma hand_out_spec s B L p k flags :
  inv s B L D0 -> B !! p = Some (0%nat, k) -> k = KAlloc \/ k = KDrain ->
  has_flag flags PAGE_FLAG_FREE = false ->
  exists s', hand_out s p flags = Ok (Some p, s', zero_events flags p 0) /\
    inv s' (<[p := (0%nat, KAlloc)]> B) L D0 /\
    same_core s s' /\
    (forall q, q <> p -> pages_array s' !! q = pages_array s !! q) /\
    exists g, pages_array s' !! p = Some g /\
      pg_flags g = Z.land flags (Z.lnot PAGE_FLAG_ZERO) /\ pg_refcount g = 1.
Proof.
  intros HI Hp Hk Hf; destruct (inv_page _ _ _ _ _ _ _ HI Hp) as [g Hg].
  unfold hand_out; rewrite (upd_page_ok _ _ _ _ Hg); mstep; eexists; split; [done|].
  split_and!; try done.
  - eapply (inv_desc _ _ _ _ _ _ k KAlloc); try done; [by destruct Hk as [-> | ->]|
      by destruct Hk as [-> | ->]| |by intros [_ ?]].
    split_and!; [by apply strip_zero_free|done|done|done].
  - intros q Hq; cbn [with_pages pages_array]; by rewrite lookup_insert_ne.
  - eexists; cbn [with_pages pages_array]; rewrite lookup_insert_eq; done.
Qed.

Lemma alloc_pcp_pop s B L c pool flags :
  inv s B L D0 -> settled B -> pcp_pools s !! c = Some pool -> (0 < pcp_count pool)%nat ->
  has_flag flags PAGE_FLAG_FREE = false ->
  exists p pool' s' B', pool_pop pool = Ok (p, pool') /\
    hand_out (with_pools s (<[c := pool']> (pcp_pools s))) p flags =
      Ok (Some p, s', zero_events flags p 0) /\
    pmm_ok s' B' /\ alloc_post s s' B B' p 0 flags.
Proof.
  intros HI Hs Hc Hpos Hf.
  destruct (pools_pop B (pcp_pools s) c pool KDrain) as (p & pool' & E & _ & Hp & _ & HP);
    [apply HI|done|done|done|].
  destruct (inv_page _ _ _ _ _ _ _ HI Hp) as [g Hg].
  pose proof (do_kind _ _ _ (i_descs _ _ _ _ HI) _ _ _ _ Hp Hg) as (Hfl & _).
  assert (HI1 : inv (with_pools s (<[c := pool']> (pcp_pools s))) (<[p := (0%nat, KDrain)]> B) L D0).
  { eapply inv_repool; try done; intros [? _]; congruence. }
  destruct (hand_out_spec _ _ _ p KDrain flags HI1) as (s' & E' & HI2 & Hcore & Hpg & Hg');
    [apply lookup_insert_eq|by right|done|].
  rewrite insert_insert_eq in HI2; destruct Hcore as (Cp & Cr & Ct & Cu & Cd).
  exists p, pool', s', (<[p := (0%nat, KAlloc)]> B); split_and!; [done|done| |].
  - split; [|by exists L]; intros q o k; destruct (decide (q = p)) as [->|Hne].
    + rewrite lookup_insert_eq; by intros [= <- <-].
    + rewrite lookup_insert_ne by done; apply Hs.
  - split; [| | | |done].
    + intros q o; unfold owned; destruct (decide (q = p)) as [->|Hne].
      * rewrite lookup_insert_eq, Hp; naive_solver.
      * rewrite lookup_insert_ne by done; naive_solver.
    + intros o; unfold owned; rewrite Hp; congruence.
    + split; try done; by eapply same_cover_kind.
    + intros q o Ho; rewrite Hpg; [done|]; intros ->; unfold owned in Ho; congruence.
Qed.

Lemma alloc_pcp_refill s B L c pool z flags :
  inv s B L D0 -> settled B -> pcp_pools s !! c = Some pool -> pcp_count pool = 0%nat ->
  (z < PMM_ZONE_COUNT)%nat -> has_flag flags PAGE_FLAG_FREE = false ->
  exists batch s1, alloc_batch s z PCP_BATCH_SIZE = Ok (batch, s1) /\
    match batch with
    | [] => s1 = s
    | ret :: rest => exists pool' s' B', pool_push_all pool rest = Ok pool' /\
        hand_out (with_pools s1 (<[c := pool']> (pcp_pools s1))) ret flags =
          Ok (Some ret, s', zero_events flags ret 0) /\
        pmm_ok s' B' /\ alloc_post s s' B B' ret 0 flags
    end.
Proof.
  intros HI Hs Hc Hcnt Hz Hf.
  destruct (alloc_batch_spec s B L z PCP_BATCH_SIZE HI (settled_none_held _ Hs) Hz)
    as (batch & s1 & B1 & L1 & E1 & HI1 & Hnh1 & Hlen & Hnd & [G1 G2 G3 G4 G5 G6] & Hempty).
  exists batch, s1; split; [done|]; destruct batch as [|ret rest]; [by apply Hempty|].
  apply NoDup_cons in Hnd as [Hrr Hnd]; destruct G5 as (Cp & Cr & Ct & Cu & Cd).
  destruct (pool_push_all_spec s1 B1 L1 D0 c pool rest HI1) as (pool' & E2 & HI2);
    [by rewrite Cp|done|intros p Hp; apply G1; by right|rewrite Hcnt; cbn [length] in Hlen; unfold PCP_BATCH_SIZE in *; lia|].
  assert (Hret : pcp_of B1 c rest !! ret = Some (0%nat, KAlloc)).
  { rewrite pcp_of_notin by done; apply G1; by left. }
  destruct (hand_out_spec _ _ _ ret KAlloc flags HI2 Hret) as (s' & E' & HI3 & Hcore & Hpg & Hg');
    [by left|done|].
  rewrite insert_id in HI3 by done; destruct Hcore as (Cp' & Cr' & Ct' & Cu' & Cd').
  cbn [with_pools pcp_pools pmm_smp_ready total_page_count usable_page_count pmm_direct_map_base pages_array] in *.
  exists pool', s', (pcp_of B1 c rest); split_and!; [done|done| |].
  - split; [|by exists L1]; intros q o k; destruct (decide (q ∈ rest)) as [Hq|Hq].
    + rewrite pcp_of_in by done; by intros [= <- <-].
    + rewrite pcp_of_notin by done; intros Hb; split; [intros ->; by eapply Hnh1|]; intros ->.
      destruct (decide (q = ret)) as [->|Hne]; [rewrite G1 in Hb by (by left); done|].
      apply G3 in Hb; [|set_solver|done]; by destruct (Hs _ _ _ Hb).
  - assert (Hown : forall q o, owned B q o -> q ∉ ret :: rest).
    { intros q o Ho Hq; by eapply G2. }
    split; [| | | |done].
    + intros q o; unfold owned; destruct (decide (q = ret)) as [->|Hne].
      { rewrite Hret; split; [intros [= <-]; auto|intros [[_ ->]|Ho]; [done|]].
        exfalso; eapply Hown; [exact Ho|by left]. }
      destruct (decide (q ∈ rest)) as [Hq|Hq].
      * rewrite pcp_of_in by done; split; [done|intros [[? _]|Ho]; [done|]].
        exfalso; eapply Hown; [exact Ho|by right].
      * rewrite pcp_of_notin, G3 by (done || set_solver); naive_solver.
    + intros o Ho; eapply Hown; [exact Ho|by left].
    + split; try congruence; etrans; [exact G4|].
      apply pcp_of_cover; intros p Hp; exists KAlloc; apply G1; by right.
    + intros q o Ho; pose proof (Hown _ _ Ho); rewrite Hpg by set_solver; by eapply G6.
Qed.

(** ** Allocation *)

Lemma alloc_zones_spec s B zs order flags :
  pmm_ok s B -> (forall z, z ∈ zs -> (z < PMM_ZONE_COUNT)%nat) -> (order < PMM_MAX_ORDER)%nat ->
  has_flag flags PAGE_FLAG_FREE = false ->
  exists r s', alloc_zones s zs order flags = Ok (r, s') /\
    match r with
    | None => s' = s /\
        forall o p, (order <= o)%nat -> B !! p = Some (o, KFree) -> zone_of p ∉ zs
    | Some p => zone_of p ∈ zs /\
        exists B', pmm_ok s' B' /\ alloc_post s s' B B' p order flags
    end.
Proof.
  intros [Hs [L HI]] Hzs Ho Hf; induction zs as [|z zs IH].
  { exists None, s; split_and!; [done|done|]; intros; by apply not_elem_of_nil. }
  cbn [alloc_zones].
  destruct (alloc_from_zone_spec s B L z order flags) as (r & s1 & -> & Hr);
    [done|by apply settled_none_held|apply Hzs; by left|done|done|]; mstep; destruct r as [p|].
  - destruct Hr as (B1 & L1 & HI1 & Hnh1 & Hz & (o & _ & Hp) & Hg).
    exists (Some p), s1; split; [done|]; split; [rewrite Hz; by left|].
    exists B1; eapply granted_post; eauto.
  - destruct Hr as [-> Hnone]; destruct IH as (r & s2 & -> & Hr); [intros; apply Hzs; by right|].
    exists r, s2; split; [done|]; destruct r as [p|].
    + destruct Hr as [? ?]; split; [by right|done].
    + destruct Hr as [-> Hn2]; split; [done|]; intros o p Hle Hp; apply not_elem_of_cons; eauto.
Qed.

Lemma zone_order_lt flags z : z ∈ zone_order flags -> (z < PMM_ZONE_COUNT)%nat.
Proof.
  unfold zone_order; repeat case_match; intros Hz;
    repeat (apply elem_of_cons in Hz as [->|Hz]; [vm_compute; lia|]); by apply not_elem_of_nil in Hz.
Qed.

Lemma zone_order_all flags p :
  flags = 0 \/ flags = PAGE_FLAG_ZERO -> zone_of p ∈ zone_order flags.
Proof.
  intros Hf; pose proof (zone_of_lt p) as Hz; unfold PMM_ZONE_COUNT in Hz.
  assert (zone_order flags = [2%nat; 1%nat; 0%nat]) as -> by (by destruct Hf as [->| ->]).
  destruct (zone_of p) as [|[|[|]]]; [set_solver|set_solver|set_solver|lia].
Qed.

Lemma cpu_slot_pool s B L D cpu :
  inv s B L D -> exists pool, pcp_pools s !! cpu_slot cpu = Some pool.
Proof.
  intros HI; destruct (i_pools _ _ _ _ HI) as [Hl _]; apply lookup_lt_is_Some_2; rewrite Hl.
  unfold cpu_slot, PMM_MAX_CPUS; case_decide; lia.
Qed.

Lemma alloc_pcp_spec s B cpu flags :
  pmm_ok s B -> flags = 0 \/ flags = PAGE_FLAG_ZERO ->
  exists r, alloc_pcp s (cpu_slot cpu) flags = Ok r /\
    match r with
    | inr s' => s' = s
    | inl (o, s', ev) => exists p B', o = Some p /\ ev = zero_events flags p 0 /\
        pmm_ok s' B' /\ alloc_post s s' B B' p 0 flags
    end.
Proof.
  intros [Hs [L HI]] Hfl; assert (Hf : has_flag flags PAGE_FLAG_FREE = false)
    by (by destruct Hfl as [->| ->]).
  destruct (cpu_slot_pool _ _ _ _ cpu HI) as [pool Hpool].
  unfold alloc_pcp; rewrite Hpool; cbn [of_opt]; mstep; case_decide as Hcnt.
  - destruct (alloc_pcp_pop _ _ _ _ _ _ HI Hs Hpool Hcnt Hf) as (p & pool' & s' & B' & -> & E & Hok & Hpost).
    mstep; rewrite E; mstep; eexists; split; [done|]; exists p, B'; by split_and!.
  - destruct (rep_zone _ _ PMM_ZONE_NORMAL (i_lists _ _ _ _ HI)) as [zn Hzn]; [vm_compute; lia|].
    unfold zone_at; rewrite Hzn; cbn [of_opt]; mstep; set (z := if decide _ then _ else _).
    assert (Hz : (z < PMM_ZONE_COUNT)%nat) by (unfold z; case_decide; vm_compute; lia).
    destruct (alloc_pcp_refill s B L _ pool z flags HI Hs Hpool) as (batch & s1 & -> & Hb);
      [lia|done|done|]; mstep; destruct batch as [|ret rest]; [subst; by eexists|].
    destruct Hb as (pool' & s' & B' & -> & E & Hok & Hpost); mstep; rewrite E; mstep.
    eexists; split; [done|]; exists ret, B'; by split_and!.
Qed.

(** The frames a fresh block occupies: aligned, inside memory, in one zone, and
    apart from every block a caller holds. *)
Definition fresh_block (s : pmm) (B : blocks) (p : Z) (order : nat) : Prop :=
  block_wf (total_page_count s) p order /\ (forall x, in_block p order x -> covered B x) /\
  forall q o x, owned B q o -> in_block q o x -> ~ in_block p order x.

Lemma post_fresh s s' B B' p order flags :
  pmm_ok s' B' -> alloc_post s s' B B' p order flags -> fresh_block s B p order.
Proof.
  intros [_ [L HI]] [H1 H2 [Hc Ht _ _ _] _ _]; pose proof (i_blocks _ _ _ _ HI) as HB.
  assert (Hp : B' !! p = Some (order, KAlloc)) by (apply (H1 p order); auto).
  rewrite Ht in HB; split_and!.
  - by eapply HB.
  - intros x Hx; apply Hc; by exists p, order, KAlloc.
  - intros q o x Ho Hx Hx'; assert (Hq : owned B' q o) by (apply H1; auto).
    assert (q = p) as -> by (by eapply (bo_disj _ _ HB)); by eapply H2.
Qed.

(** The outcome of [pmm_alloc_order]. *)
Definition alloc_result (s : pmm) (B : blocks) (order : nat) (flags : Z)
    (r : option Z) (s' : pmm) (ev : list Z) : Prop :=
  match r with
  | Some p => (order < PMM_MAX_ORDER)%nat /\ ev = zero_events flags p order /\
      zone_of p ∈ zone_order flags /\ fresh_block s B p order /\
      exists B', pmm_ok s' B' /\ alloc_post s s' B B' p order flags
  | None => s' = s /\ ev = [] /\
      ((PMM_MAX_ORDER <= order)%nat \/
       forall o p, (order <= o)%nat -> B !! p = Some (o, KFree) -> zone_of p ∉ zone_order flags)
  end.

Lemma alloc_order_ok s B cpu order flags :
  pmm_ok s B -> has_flag flags PAGE_FLAG_FREE = false ->
  exists r s' ev, pmm_alloc_order s cpu order flags = Ok (r, s', ev) /\
    alloc_result s B order flags r s' ev.
Proof.
  intros Hok Hf; unfold pmm_alloc_order; case_decide as Ho.
  { do 3 eexists; split; [done|]; cbn beta iota; split_and!; [done|done|by left]. }
  assert (Hslow : exists r s' ev,
    ('(r, s) ← alloc_zones s (zone_order flags) order flags;
     Ok (r, s, match r with Some p => zero_events flags p order | None => [] end)) = Ok (r, s', ev) /\
    alloc_result s B order flags r s' ev).
  { destruct (alloc_zones_spec s B (zone_order flags) order flags) as (r & s' & -> & Hr);
      [done|apply zone_order_lt|lia|done|]; mstep; do 3 eexists; split; [done|].
    destruct r as [p|]; cbn beta iota; [|destruct Hr; split_and!; [done|done|by right]].
    destruct Hr as (Hz & B' & Hok' & Hp); split_and!; [lia|done|done|by eapply post_fresh|eauto]. }
  case_decide as Hpcp; [|exact Hslow]; destruct Hpcp as (-> & Hfl & _).
  destruct (alloc_pcp_spec s B cpu flags Hok Hfl) as (r & -> & Hr); mstep.
  destruct r as [[[o s'] ev]|s']; [|subst s'; exact Hslow].
  destruct Hr as (p & B' & -> & -> & Hok' & Hp); do 3 eexists; split; [done|]; cbn beta iota.
  split_and!; [lia|done|by apply zone_order_all|by eapply post_fresh|eauto].
Qed.

(** C15: [pmm_alloc_order] on a consistent allocator never faults and keeps it
    consistent.  A block it returns is aligned, lies in memory and in a zone that the
    flags allow, overlaps no block in use, has one reference and the flags asked for,
    and becomes the caller's; nothing else changes hands and no other block's
    descriptor changes.  It returns NULL only for an order of 18 or more or when no
    free block is large enough in the zones allowed, and then changes nothing.  With
    [PAGE_FLAG_ZERO] exactly the frames of the block are zeroed. *)
Theorem pmm_alloc_order_spec (s : pmm) (B : blocks) (cpu order : nat) (flags : Z) :
  pmm_ok s B -> has_flag flags PAGE_FLAG_FREE = false ->
  exists r s' ev, pmm_alloc_order s cpu order flags = Ok (r, s', ev) /\
    alloc_result s B order flags r s' ev.
Proof. apply alloc_order_ok. Qed.

(** ** Freeing *)

Definition drain_of (B : blocks) (l : list Z) : blocks :=
  foldl (fun B p => <[p := (0%nat, KDrain)]> B) B l.

Lemma drain_of_cons B p l : drain_of B (p :: l) = drain_of (<[p := (0%nat, KDrain)]> B) l.
Proof. done. Qed.

Lemma drain_of_notin B l q : q ∉ l -> drain_of B l !! q = B !! q.
Proof.
  revert B; induction l as [|p l IH]; intros B Hq; [done|]; apply not_elem_of_cons in Hq as [? ?].
  rewrite drain_of_cons, IH by done; by rewrite lookup_insert_ne.
Qed.

Lemma drain_of_in B l q : NoDup l -> q ∈ l -> drain_of B l !! q = Some (0%nat, KDrain).
Proof.
  revert B; induction l as [|p l IH]; intros B Hnd Hq; [by apply not_elem_of_nil in Hq|].
  apply NoDup_cons in Hnd as [Hp Hnd]; rewrite drain_of_cons.
  apply elem_of_cons in Hq as [->|Hq]; [|by apply IH].
  rewrite drain_of_notin by done; apply lookup_insert_eq.
Qed.

Lemma pool_pops_spec s B L D c pool n :
  inv s B L D -> pcp_pools s !! c = Some pool -> (n + (PCP_BATCH_SIZE - 1) <= pcp_count pool)%nat ->
  exists l pool', pool_pops pool n = Ok (l, pool') /\ pcp_count pool = (n + pcp_count pool')%nat /\
    NoDup l /\ (forall p, p ∈ l -> B !! p = Some (0%nat, KPcp c) /\ zone_of p = PMM_ZONE_NORMAL) /\
    inv (with_pools s (<[c := pool']> (pcp_pools s))) (drain_of B l) L D /\
    same_cover B (drain_of B l).
Proof.
  revert s B pool; induction n as [|n IH]; intros s B pool HI Hc Hn.
  { exists [], pool; split_and!; [done|done|constructor|by intros p ?%not_elem_of_nil| |done].
    simpl; rewrite list_insert_id by done; by destruct s. }
  destruct (pools_pop B (pcp_pools s) c pool KDrain) as (p & pool1 & E1 & Hcnt & Hp & Hz & HP);
    [apply HI|done|lia|done|].
  destruct (inv_page _ _ _ _ _ _ _ HI Hp) as [g Hg].
  pose proof (do_kind _ _ _ (i_descs _ _ _ _ HI) _ _ _ _ Hp Hg) as (Hfl & _).
  assert (HI1 : inv (with_pools s (<[c := pool1]> (pcp_pools s))) (<[p := (0%nat, KDrain)]> B) L D).
  { eapply inv_repool; try done; intros [? _]; congruence. }
  destruct (IH (with_pools s (<[c := pool1]> (pcp_pools s))) (<[p := (0%nat, KDrain)]> B) pool1 HI1)
    as (l & pool2 & E2 & Hcnt2 & Hnd & Hl & HI2 & Hcov).
  - cbn [with_pools pcp_pools]; apply list_lookup_insert_eq; by eapply lookup_lt_Some.
  - lia.
  - cbn [with_pools pcp_pools] in HI2; rewrite list_insert_insert_eq in HI2.
    assert (Hpl : p ∉ l) by (intros [Hx _]%Hl; by rewrite lookup_insert_eq in Hx).
    exists (p :: l), pool2; cbn [pool_pops]; rewrite E1; mstep; rewrite E2; mstep.
    split_and!; [done|lia|by constructor| |done|].
    + intros q [->|Hq]%elem_of_cons; [split; [done|]; apply Hz; lia|].
      destruct (Hl q Hq) as [Hx ?]; rewrite lookup_insert_ne in Hx by (intros ->; done); done.
    + rewrite drain_of_cons; etrans; [by eapply same_cover_kind|done].
Qed.

(** Pages on their way out go back to the lists of the normal zone. *)
Record drained (s s' : pmm) (B B' : blocks) (l : list Z) : Prop := {
  dr_gone : forall q o k, q ∈ l -> B' !! q = Some (o, k) -> ~ in_use k;
  dr_users : forall q o k, q ∉ l -> in_use k -> B' !! q = Some (o, k) <-> B !! q = Some (o, k);
  dr_cover : same_cover B B';
  dr_core : same_core s s';
  dr_desc : forall q o k, q ∉ l -> B !! q = Some (o, k) -> in_use k ->
    desc <$> pages_array s' !! q = desc <$> pages_array s !! q
}.

Lemma free_one_spec s B L p o :
  inv s B L D0 -> none_held B -> B !! p = Some (o, KDrain) ->
  exists s' B' L', free_to_zone_locked s (zone_of p) p o = Ok s' /\ inv s' B' L' D0 /\
    none_held B' /\ drained s s' B B' [p].
Proof.
  intros HI Hnh Hp; destruct (inv_page _ _ _ _ _ _ _ HI Hp) as [g Hg].
  assert (HI1 : inv s (<[p := (o, KHeld)]> B) L D0) by (by eapply inv_ghost).
  destruct (free_to_zone_spec _ _ _ _ p o HI1) as (s' & B' & L' & E & HI' & Hnh' & [C U V Hd]);
    [apply lookup_insert_eq| |].
  { intros x ox; destruct (decide (x = p)) as [->|Hx]; [done|].
    rewrite lookup_insert_ne by done; intros []%Hnh. }
  exists s', B', L'; split_and!; [done|done|done|]; split; [| | |done|].
  - intros q oq k ->%list_elem_of_singleton Hq Hu; apply U in Hq; [|done].
    rewrite lookup_insert_eq in Hq; by simplify_eq.
  - intros q oq k Hne%not_elem_of_cons Hu; rewrite (U q oq k Hu).
    rewrite lookup_insert_ne; [done|]; naive_solver.
  - etrans; [by eapply same_cover_kind|exact V].
  - intros q oq k Hne%not_elem_of_cons Hq Hu; eapply Hd; [|done].
    rewrite lookup_insert_ne; [done|]; naive_solver.
Qed.

Lemma drained_cons s1 s2 s3 B1 B2 B3 p l :
  p ∉ l -> drained s1 s2 B1 B2 [p] -> drained s2 s3 B2 B3 l -> drained s1 s3 B1 B3 (p :: l).
Proof.
  intros Hp [G1 G2 G3 G4 G5] [H1 H2 H3 H4 H5]; split; [| |by etrans|by etrans|].
  - intros q o k [->|Hq]%elem_of_cons Hb Hu; [|by eapply H1].
    apply H2 in Hb; [|done|done]; eapply G1; [|done|done]; by left.
  - intros q o k [Hne Hq]%not_elem_of_cons Hu; rewrite H2, G2 by (done || set_solver); done.
  - intros q o k [Hne Hq]%not_elem_of_cons Hb Hu; etrans; [|eapply G5; [|done|done]; set_solver].
    eapply H5; [done| |done]; apply G2; [set_solver|done|done].
Qed.

Lemma free_batch_spec s B L l :
  inv s B L D0 -> none_held B -> NoDup l ->
  (forall p, p ∈ l -> B !! p = Some (0%nat, KDrain) /\ zone_of p = PMM_ZONE_NORMAL) ->
  exists s' B' L', free_batch s PMM_ZONE_NORMAL l = Ok s' /\ inv s' B' L' D0 /\
    none_held B' /\ drained s s' B B' l.
Proof.
  revert s B L; induction l as [|p l IH]; intros s B L HI Hnh Hnd Hl.
  { exists s, B, L; split_and!; [done|done|done|]; split; try done.
    intros q o k Hq; by apply not_elem_of_nil in Hq. }
  apply NoDup_cons in Hnd as [Hpl Hnd]; destruct (Hl p ltac:(by left)) as [Hp Hz].
  destruct (free_one_spec _ _ _ _ _ HI Hnh Hp) as (s1 & B1 & L1 & E1 & HI1 & Hnh1 & Hd1).
  cbn [free_batch]; rewrite Hz in E1; rewrite E1; mstep.
  destruct (IH s1 B1 L1 HI1 Hnh1 Hnd) as (s2 & B2 & L2 & E2 & HI2 & Hnh2 & Hd2).
  { intros q Hq; destruct (Hl q ltac:(by right)) as [Hq' ?]; split; [|done].
    apply (dr_users _ _ _ _ _ Hd1); [set_solver|done|done]. }
  exists s2, B2, L2; split_and!; [done|done|done|by eapply drained_cons].
Qed.

(** A call that takes the block at [p] back. *)
Record free_post (s s' : pmm) (B B' : blocks) (p : Z) : Prop := {
  fp_owned : forall q o, owned B' q o <-> owned B q o /\ q <> p;
  fp_machine : same_machine s s' B B';
  fp_desc : forall q o, owned B q o -> q <> p ->
    desc <$> pages_array s' !! q = desc <$> pages_array s !! q
}.

(** Dropping a reference that is not the last one. *)
Record deref_post (s s' : pmm) (B : blocks) (p : Z) : Prop := {
  de_machine : same_machine s s' B B;
  de_desc : forall q, q <> p -> pages_array s' !! q = pages_array s !! q;
  de_page : forall g, pages_array s !! p = Some g ->
    pages_array s' !! p = Some (set_refcount (pg_refcount g - 1) g)
}.

(** The last reference is gone: the block is in nobody's hands. *)
Lemma drop_last s B L p o g :
  inv s B L D0 -> settled B -> owned B p o -> pages_array s !! p = Some g ->
  let s1 := with_pages s (<[p := set_refcount 0 g]> (pages_array s)) in
  inv s1 (<[p := (o, KDrain)]> B) L D0 /\ none_held (<[p := (o, KDrain)]> B).
Proof.
  intros HI Hs Hp Hg s1.
  pose proof (do_kind _ _ _ (i_descs _ _ _ _ HI) _ _ _ _ Hp Hg) as (Hfl & _ & _).
  split.
  - eapply inv_desc; try done; intros [? _]; simpl in *; congruence.
  - intros q oq; destruct (decide (q = p)) as [->|]; [by rewrite lookup_insert_eq|].
    rewrite lookup_insert_ne by done; by apply settled_none_held.
Qed.

(** Putting together what happens after [drop_last]. *)
Lemma free_finish s s1 s' B B' L' p o g (l : list Z) :
  settled B -> owned B p o -> pages_array s !! p = Some g ->
  s1 = with_pages s (<[p := set_refcount 0 g]> (pages_array s)) ->
  inv s' B' L' D0 -> none_held B' -> p ∉ l ->
  (forall q o, owned B q o -> q ∉ l) ->
  (forall q oq k, q ∈ l -> B' !! q = Some (oq, k) -> k <> KAlloc /\ k <> KDrain) ->
  (forall oq k, B' !! p = Some (oq, k) -> k <> KAlloc /\ k <> KDrain) ->
  (forall q oq k, q ∉ l -> q <> p -> k = KAlloc \/ k = KDrain ->
     B' !! q = Some (oq, k) <-> B !! q = Some (oq, k)) ->
  same_cover B B' ->
  total_page_count s' = total_page_count s /\ pmm_smp_ready s' = pmm_smp_ready s /\
  usable_page_count s' = usable_page_count s /\ pmm_direct_map_base s' = pmm_direct_map_base s ->
  (forall q o, owned B q o -> q <> p -> desc <$> pages_array s' !! q = desc <$> pages_array s1 !! q) ->
  pmm_ok s' B' /\ free_post s s' B B' p.
Proof.
  intros Hs Hp Hg -> HI' Hnh Hpl Hown Hl HBp HB' Hcov (Ht & Hr & Hu & Hdm) Hdesc.
  split; [split; [|by exists L']|split; [|by split|]].
  - intros q oq k Hq; split; [intros ->; by eapply Hnh|]; intros ->.
    destruct (decide (q = p)) as [->|Hne]; [by destruct (HBp _ _ Hq)|].
    destruct (decide (q ∈ l)) as [Hin|Hin]; [by destruct (Hl _ _ _ Hin Hq)|].
    apply HB' in Hq; [|done|done|by right]; by destruct (Hs _ _ _ Hq).
  - intros q oq; unfold owned; destruct (decide (q = p)) as [->|Hne].
    { split; [intros Hx; by destruct (HBp _ _ Hx)|by intros [_ ?]]. }
    destruct (decide (q ∈ l)) as [Hin|Hin].
    + split; [intros Hx; by destruct (Hl _ _ _ Hin Hx)|intros [Hx _]; by apply Hown in Hx].
    + rewrite HB' by (done || by left); naive_solver.
  - intros q oq Hq Hne; rewrite (Hdesc q oq) by done; cbn [with_pages pages_array].
    by rewrite lookup_insert_ne.
Qed.

Lemma free_to_zone_last s B L p o g :
  inv s B L D0 -> settled B -> owned B p o -> pages_array s !! p = Some g ->
  exists s' B', free_to_zone_locked
      (with_pages s (<[p := set_refcount 0 g]> (pages_array s))) (zone_of p) p o = Ok s' /\
    pmm_ok s' B' /\ free_post s s' B B' p.
Proof.
  intros HI Hs Hp Hg; destruct (drop_last _ _ _ _ _ _ HI Hs Hp Hg) as [HI1 Hnh1].
  destruct (free_one_spec _ _ _ p o HI1 Hnh1) as (s' & B' & L' & E & HI' & Hnh' & [D1 D2 D3 D4 D5]);
    [apply lookup_insert_eq|].
  exists s', B'; split; [done|]; destruct D4 as (Dp & Dr & Dt & Du & Dd).
  eapply (free_finish s _ s' B B' L' p o g []); try done.
  - by apply not_elem_of_nil.
  - intros q oq _; by apply not_elem_of_nil.
  - intros q oq k Hq; by apply not_elem_of_nil in Hq.
  - intros oq k Hq; assert (~ in_use k) by (by eapply D1; [left|]); by destruct k.
  - intros q oq k _ Hne Hk; rewrite D2; [|by rewrite list_elem_of_singleton|by destruct Hk as [-> | ->]].
    by rewrite lookup_insert_ne.
  - etrans; [by eapply same_cover_kind|done].
  - intros q oq Hq Hne; eapply (D5 q oq KAlloc); [by rewrite list_elem_of_singleton| |done].
    by rewrite lookup_insert_ne.
Qed.

(** The pool takes the page. *)
Lemma free_pcp_push s B L c pool p g :
  inv s B L D0 -> settled B -> owned B p 0 -> pages_array s !! p = Some g ->
  pcp_pools s !! c = Some pool -> (pcp_count pool < PCP_MAX_PAGES)%nat ->
  zone_of p = PMM_ZONE_NORMAL ->
  let s1 := with_pages s (<[p := set_refcount 0 g]> (pages_array s)) in
  exists pool' B', pool_push pool p = Ok pool' /\
    pmm_ok (with_pools s1 (<[c := pool']> (pcp_pools s1))) B' /\
    free_post s (with_pools s1 (<[c := pool']> (pcp_pools s1))) B B' p.
Proof.
  intros HI Hs Hp Hg Hc Hlt Hz s1; destruct (drop_last _ _ _ _ _ _ HI Hs Hp Hg) as [HI1 Hnh1].
  set (B1 := <[p := (0%nat, KDrain)]> B) in *.
  assert (Hp1 : B1 !! p = Some (0%nat, KDrain)) by apply lookup_insert_eq.
  destruct (pools_push B1 (pcp_pools s1) c pool p KDrain) as (pool' & E & _ & HP);
    [apply HI1|done|done|done|done|done|].
  assert (Hg1 : pages_array s1 !! p = Some (set_refcount 0 g)) by apply lookup_insert_eq.
  pose proof (do_kind _ _ _ (i_descs _ _ _ _ HI1) _ _ _ _ Hp1 Hg1) as Hfl.
  assert (HI2 : inv (with_pools s1 (<[c := pool']> (pcp_pools s1))) (<[p := (0%nat, KPcp c)]> B1) L D0).
  { eapply inv_repool; try done; intros [? _]; simpl in *; congruence. }
  unfold B1 in HI2, HP; rewrite insert_insert_eq in HI2, HP.
  exists pool', (<[p := (0%nat, KPcp c)]> B); split; [done|].
  eapply (free_finish s s1 _ B _ L p 0 g []); try done.
  - intros q oq; destruct (decide (q = p)) as [->|]; [by rewrite lookup_insert_eq|].
    rewrite lookup_insert_ne by done; by apply settled_none_held.
  - by apply not_elem_of_nil.
  - intros q oq _; by apply not_elem_of_nil.
  - intros q oq k Hq; by apply not_elem_of_nil in Hq.
  - intros oq k; rewrite lookup_insert_eq; by intros [= <- <-].
  - intros q oq k _ Hne Hk; by rewrite lookup_insert_ne.
  - by eapply same_cover_kind.
Qed.

(** The pool is full: half of it goes back to the lists first. *)
Lemma free_pcp_drain s B L c pool p g :
  inv s B L D0 -> settled B -> owned B p 0 -> pages_array s !! p = Some g ->
  pcp_pools s !! c = Some pool -> pcp_count pool = PCP_MAX_PAGES ->
  zone_of p = PMM_ZONE_NORMAL ->
  let s1 := with_pages s (<[p := set_refcount 0 g]> (pages_array s)) in
  exists l pool1 pool2 s' B', pool_pops pool PCP_BATCH_SIZE = Ok (l, pool1) /\
    pool_push pool1 p = Ok pool2 /\
    free_batch (with_pools s1 (<[c := pool2]> (pcp_pools s1))) PMM_ZONE_NORMAL l = Ok s' /\
    pmm_ok s' B' /\ free_post s s' B B' p.
Proof.
  intros HI Hs Hp Hg Hc Hfull Hz s1; destruct (drop_last _ _ _ _ _ _ HI Hs Hp Hg) as [HI1 Hnh1].
  set (B1 := <[p := (0%nat, KDrain)]> B) in *.
  destruct (pool_pops_spec _ _ _ _ c pool PCP_BATCH_SIZE HI1 Hc) as (l & pool1 & E1 & Hcnt & Hnd & Hl & HI2 & Hcov).
  { rewrite Hfull; vm_compute; lia. }
  assert (Hpl : p ∉ l) by (intros [Hx _]%Hl; unfold B1 in Hx; by rewrite lookup_insert_eq in Hx).
  assert (Hp2 : drain_of B1 l !! p = Some (0%nat, KDrain))
    by (rewrite drain_of_notin by done; apply lookup_insert_eq).
  set (s2 := with_pools s1 (<[c := pool1]> (pcp_pools s1))) in *.
  assert (Hc2 : pcp_pools s2 !! c = Some pool1)
    by (apply list_lookup_insert_eq; by eapply lookup_lt_Some).
  destruct (pools_push (drain_of B1 l) (pcp_pools s2) c pool1 p KDrain) as (pool2 & E2 & _ & HP);
    [apply HI2|done|unfold PCP_MAX_PAGES, PCP_BATCH_SIZE in *; lia|done|done|done|].
  assert (Hg2 : pages_array s2 !! p = Some (set_refcount 0 g)) by apply lookup_insert_eq.
  pose proof (do_kind _ _ _ (i_descs _ _ _ _ HI2) _ _ _ _ Hp2 Hg2) as Hfl.
  assert (HI3 : inv (with_pools s2 (<[c := pool2]> (pcp_pools s2))) (<[p := (0%nat, KPcp c)]> (drain_of B1 l)) L D0).
  { eapply inv_repool; try done; intros [? _]; simpl in *; congruence. }
  cbn [s2 with_pools pcp_pools] in HI3; rewrite list_insert_insert_eq in HI3.
  set (B3 := <[p := (0%nat, KPcp c)]> (drain_of B1 l)) in *.
  assert (HB3 : forall q oq k, q ∉ l -> q <> p -> B3 !! q = Some (oq, k) <-> B !! q = Some (oq, k)).
  { intros q oq k Hq Hne; unfold B3; rewrite lookup_insert_ne, drain_of_notin by done.
    unfold B1; by rewrite lookup_insert_ne. }
  assert (Hl3 : forall q, q ∈ l -> B3 !! q = Some (0%nat, KDrain)).
  { intros q Hq; unfold B3; rewrite lookup_insert_ne by (intros ->; done); by apply drain_of_in. }
  destruct (free_batch_spec _ B3 L l HI3) as (s' & B' & L' & E3 & HI' & Hnh' & [D1 D2 D3 D4 D5]).
  { intros q oq; destruct (decide (q = p)) as [->|Hne]; [unfold B3; by rewrite lookup_insert_eq|].
    destruct (decide (q ∈ l)) as [Hq|Hq]; [by rewrite Hl3|]; rewrite HB3 by done.
    by apply settled_none_held. }
  { done. }
  { intros q Hq; split; [by apply Hl3|by apply Hl]. }
  exists l, pool1, pool2, s', B'; do 3 (split; [done|]).
  destruct D4 as (Dp & Dr & Dt & Du & Dd).
  assert (Hpcp : B3 !! p = Some (0%nat, KPcp c)) by apply lookup_insert_eq.
  eapply (free_finish s s1 s' B B' L' p 0 g l); try done.
  - intros q oq Hq Hin; destruct (decide (q = p)) as [->|Hne]; [done|].
    destruct (Hl q Hin) as [Hx _]; unfold B1 in Hx; rewrite lookup_insert_ne in Hx by done.
    unfold owned in Hq; congruence.
  - intros q oq k Hin Hq; assert (~ in_use k) by (by eapply D1); by destruct k.
  - intros oq k Hq; assert (B' !! p = Some (0%nat, KPcp c)) by (by apply D2).
    by simplify_eq.
  - intros q oq k Hin Hne Hk; rewrite D2 by (done || by destruct Hk as [-> | ->]); by apply HB3.
  - etrans; [|exact D3]; etrans; [by eapply (same_cover_kind B p 0%nat KAlloc KDrain)|].
    etrans; [exact Hcov|by eapply same_cover_kind].
  - intros q oq Hq Hne; assert (Hin : q ∉ l).
    { intros Hin; destruct (Hl q Hin) as [Hx _]; unfold B1 in Hx; rewrite lookup_insert_ne in Hx by done.
      unfold owned in Hq; congruence. }
    rewrite (D5 q oq KAlloc Hin); [done| |done]; by apply HB3.
Qed.

(** The outcome of [pmm_free_order] on a block in use. *)
Definition free_result (s : pmm) (B : blocks) (p : Z) (g : page) (s' : pmm) : Prop :=
  if decide (1 < pg_refcount g) then pmm_ok s' B /\ deref_post s s' B p
  else exists B', pmm_ok s' B' /\ free_post s s' B B' p.

Lemma free_order_ok s B cpu p o :
  pmm_ok s B -> owned B p o ->
  exists g s', pages_array s !! p = Some g /\ pmm_free_order s cpu (Some p) o = Ok s' /\
    free_result s B p g s'.
Proof.
  intros [Hs [L HI]] Hp; destruct (inv_page _ _ _ _ _ _ _ HI Hp) as [g Hg]; exists g; unfold free_result.
  pose proof (do_kind _ _ _ (i_descs _ _ _ _ HI) _ _ _ _ Hp Hg) as (Hfl & Hrc & Hord).
  assert (Ho : (o < PMM_MAX_ORDER)%nat) by (by eapply (i_blocks _ _ _ _ HI)).
  assert (Hzg : pg_zone g = zone_of p) by (by eapply inv_page_zone).
  unfold pmm_free_order; rewrite decide_False by lia.
  rewrite (page_at_ok _ _ _ Hg); mstep; rewrite (upd_page_ok _ _ _ _ Hg); mstep.
  rewrite u32_small by lia; destruct (decide (1 < pg_refcount g)) as [Hgt|Hle].
  { eexists; split; [done|]; split; [done|]; split; [split; [done|]; exists L|].
    - rewrite <-(insert_id B p (o, KAlloc)) by done.
      eapply inv_desc; try done; [split_and!; [done|simpl; lia|simpl; lia|done]|].
      intros [? _]; simpl in *; congruence.
    - split; [by split| |].
      + intros q Hq; cbn [with_pages pages_array]; by rewrite lookup_insert_ne.
      + intros g' Hg'; simplify_eq; apply lookup_insert_eq. }
  rewrite decide_False by lia; replace (pg_refcount g - 1) with 0 by lia.
  case_decide as Hpcp.
  - destruct Hpcp as (-> & Hzn & _); rewrite Hzg in Hzn.
    destruct (cpu_slot_pool _ _ _ _ cpu HI) as [pool Hpool].
    cbn [with_pages pcp_pools]; rewrite Hpool; cbn [of_opt]; mstep; case_decide as Hcnt.
    + destruct (free_pcp_push _ _ _ _ _ _ _ HI Hs Hp Hg Hpool Hcnt Hzn) as (pool' & B' & -> & H); mstep.
      eexists; split; [done|]; split; [done|]; by exists B'.
    + assert (Hfull : pcp_count pool = PCP_MAX_PAGES).
      { destruct (i_pools _ _ _ _ HI) as (_ & Hpo & _).
        destruct (Hpo _ _ Hpool) as [_ ? _ _ _]; lia. }
      destruct (free_pcp_drain _ _ _ _ _ _ _ HI Hs Hp Hg Hpool Hfull Hzn)
        as (l & pool1 & pool2 & s' & B' & -> & E2 & E3 & H); mstep; rewrite E2; mstep.
      exists s'; split; [done|]; split; [exact E3|by exists B'].
  - destruct (free_to_zone_last _ _ _ _ _ _ HI Hs Hp Hg) as (s' & B' & E & H).
    exists s'; split; [done|]; split; [by rewrite Hzg|by exists B'].
Qed.

(** C16: Freeing a block that a caller holds never faults and keeps the allocator
    consistent.  While other references remain only the count drops.  With the last
    one the block leaves the caller's hands, into a zone's lists or a CPU's pool;
    every other block in use, its descriptor, and the set of managed frames stay as
    they were. *)
Theorem pmm_free_order_spec (s : pmm) (B : blocks) (cpu : nat) (p : Z) (o : nat) :
  pmm_ok s B -> owned B p o ->
  exists g s', pages_array s !! p = Some g /\ pmm_free_order s cpu (Some p) o = Ok s' /\
    free_result s B p g s'.
Proof. apply free_order_ok. Qed.

Lemma pmm_ok_order s B p o g :
  pmm_ok s B -> owned B p o -> pages_array s !! p = Some g -> pg_order g = o.
Proof.
  intros [_ [L HI]] Hp Hg.
  by destruct (do_kind _ _ _ (i_descs _ _ _ _ HI) _ _ _ _ Hp Hg) as (_ & _ & ?).
Qed.

(** [pages_to_order] gives the least order whose block holds [count] pages, and
    the invalid order 18 when no block does. *)
Theorem pages_to_order_least (count : Z) :
  0 <= count < 2 ^ 64 ->
  if decide (count <= pow2 (PMM_MAX_ORDER - 1)) then
    (pages_to_order count < PMM_MAX_ORDER)%nat /\ count <= pow2 (pages_to_order count) /\
    forall o, count <= pow2 o -> (pages_to_order count <= o)%nat
  else pages_to_order count = PMM_MAX_ORDER.
Proof. apply pages_to_order_ok. Qed.

Lemma pages_to_order_least_witness :
  0 <= 7 < 2 ^ 64 /\
  if decide (7 <= pow2 (PMM_MAX_ORDER - 1)) then
    (pages_to_order 7 < PMM_MAX_ORDER)%nat /\ 7 <= pow2 (pages_to_order 7) /\
    forall o, 7 <= pow2 o -> (pages_to_order 7 <= o)%nat
  else pages_to_order 7 = PMM_MAX_ORDER.
Proof. split; [lia|]; apply (pages_to_order_least 7); lia. Defined.
