(* ===== verification/PmmBoot.v ===== *)
(** * The page allocator: boot

    [pmm_init] turns the firmware's memory map into the first consistent state. *)

From stdpp Require Import base tactics option list numbers gmap.
From Stdlib Require Import ZArith Lia.
From S2P Require Import Prelude Pmm PmmLists PmmInv PmmSpec PmmTheorems.

Local Open Scope Z_scope.

(** ** One more block *)

Lemma inv_new s B L D p o :
  inv s B L D -> block_wf (total_page_count s) p o ->
  (forall x, in_block p o x -> ~ covered B x) -> inv s (<[p := (o, KHeld)]> B) L D.
Proof.
  intros [HL HB HD HF HP HC] W Hun; pose proof (pow2_pos o) as Hpos.
  assert (Hnone : B !! p = None).
  { destruct (B !! p) as [[o' k']|] eqn:E; [exfalso|done].
    apply (Hun p); [unfold in_block; lia|]; exists p, o', k'; split; [done|].
    unfold in_block; pose proof (pow2_pos o'); lia. }
  assert (Hkeep : forall q x, B !! q = Some x -> <[p := (o, KHeld)]> B !! q = Some x).
  { intros q x Hq; rewrite lookup_insert_ne; [done|]; intros ->; congruence. }
  assert (Hcase : forall q oq kq, <[p := (o, KHeld)]> B !! q = Some (oq, kq) ->
    (q = p /\ oq = o) \/ (q <> p /\ B !! q = Some (oq, kq))).
  { intros q oq kq; destruct (decide (q = p)) as [->|];
      [rewrite lookup_insert_eq; intros [= <- <-]; auto|rewrite lookup_insert_ne by done; auto]. }
  split; [done| | | | |done].
  - destruct HB as [Hw Hd]; split.
    + intros q oq kq [[-> ->]|[_ Hb]]%Hcase; [done|by eapply Hw].
    + intros q oq kq q' oq' kq' x [[-> ->]|[Hq Hb]]%Hcase [[-> ->]|[Hq' Hb']]%Hcase Hx Hx'.
      * done.
      * exfalso; eapply Hun; [exact Hx|]; by exists q', oq', kq'.
      * exfalso; eapply Hun; [exact Hx'|]; by exists q, oq, kq.
      * by eapply Hd.
  - destruct HD as [H1 H2 H3 H4]; split; [done|done| |].
    + intros q oq kq g; destruct (decide (q = p)) as [->|];
        [rewrite lookup_insert_eq; by intros [= <- <-]|rewrite lookup_insert_ne by done; apply H3].
    + intros q g Hg Hfl; destruct (H4 _ _ Hg Hfl) as [(oq & Hq)|(b & ob & kb & Hb & Hin)].
      * left; exists oq; destruct Hq as [Hq|Hq]; [left|right]; by apply Hkeep.
      * right; exists b, ob, kb; split; [by apply Hkeep|done].
  - intros z o' q; rewrite (HF z o' q); destruct (decide (q = p)) as [->|].
    + rewrite Hnone, lookup_insert_eq; naive_solver.
    + by rewrite lookup_insert_ne.
  - eapply pools_ok_ext; [|done]; intros q c oq; destruct (decide (q = p)) as [->|].
    + rewrite Hnone, lookup_insert_eq; naive_solver.
    + by rewrite lookup_insert_ne.
Qed.

Lemma covered_insert B p o k x :
  B !! p = None -> covered (<[p := (o, k)]> B) x <-> in_block p o x \/ covered B x.
Proof.
  intros Hn; split.
  - intros (q & oq & kq & Hq & Hx); destruct (decide (q = p)) as [->|].
    + rewrite lookup_insert_eq in Hq; simplify_eq; auto.
    + rewrite lookup_insert_ne in Hq by done; right; by exists q, oq, kq.
  - intros [Hx|(q & oq & kq & Hq & Hx)].
    + exists p, o, k; by rewrite lookup_insert_eq.
    + exists q, oq, kq; rewrite lookup_insert_ne; [done|]; intros ->; congruence.
Qed.

Definition all_free (B : blocks) : Prop := forall q o k, B !! q = Some (o, k) -> k = KFree.

(** The state while memory is being taken in: [F] is the set of frames so far. *)
Record booting (s s' : pmm) (B' : blocks) (F : Z -> Prop) : Prop := {
  bt_inv : exists L, inv s' B' L D0;
  bt_free : all_free B';
  bt_cover : forall x, covered B' x <-> F x;
  bt_total : total_page_count s' = total_page_count s;
  bt_ready : pmm_smp_ready s' = pmm_smp_ready s;
  bt_direct : pmm_direct_map_base s' = pmm_direct_map_base s
}.

Lemma add_free_block_spec s0 s B F p o :
  booting s0 s B F -> block_wf (total_page_count s) p o -> (forall x, in_block p o x -> ~ F x) ->
  exists s' B', add_free_block s p o = Ok s' /\
    booting s0 s' B' (fun x => F x \/ in_block p o x) /\
    usable_page_count s' = u64 (usable_page_count s + pow2 o).
Proof.
  intros [[L HI] Hfree Hcov Ht Hr Hdm] W Hun; pose proof (pow2_pos o) as Hpos.
  assert (Hun' : forall x, in_block p o x -> ~ covered B x) by (intros x Hx; rewrite Hcov; auto).
  assert (Hnone : B !! p = None).
  { destruct (B !! p) as [[o' k']|] eqn:E; [exfalso|done].
    apply (Hun' p); [unfold in_block; lia|]; exists p, o', k'; split; [done|].
    unfold in_block; pose proof (pow2_pos o'); lia. }
  pose proof (inv_new _ _ _ _ _ _ HI W Hun') as HI1; set (B1 := <[p := (o, KHeld)]> B) in *.
  assert (Hp1 : B1 !! p = Some (o, KHeld)) by apply lookup_insert_eq.
  destruct (inv_page _ _ _ _ _ _ _ HI1 Hp1) as [g Hg].
  assert (Hzg : pg_zone g = zone_of p) by (by eapply inv_page_zone).
  unfold add_free_block; rewrite (pfn_to_page_ok _ _ _ _ p o KHeld p HI1 Hp1) by (unfold in_block; lia).
  rewrite (page_at_ok _ _ _ Hg); mstep; cbv zeta; rewrite (upd_page_ok _ _ _ _ Hg); mstep.
  pose proof (inv_desc _ _ _ _ _ _ _ KHeld (set_state o PAGE_FLAG_FREE 0) g HI1 Hp1 I I
    ltac:(done) ltac:(done) Hg eq_refl eq_refl I (fun _ => eq_refl)) as HI2.
  rewrite (insert_id B1) in HI2 by done; set (s2 := with_pages s _) in *.
  destruct (inv_link s2 B1 L _ o p (set_state o PAGE_FLAG_FREE 0 g) HI2 Hp1)
    as (s3 & L3 & E3 & HI3 & Hlo3); [apply lookup_insert_eq|by repeat split|].
  rewrite Hzg, E3; mstep.
  destruct (add_free_pages_spec _ _ _ _ (zone_of p) (pow2 o) HI3 (zone_of_lt p))
    as (s4 & -> & HI4 & (C1 & C2 & C3 & C4 & C5) & Hpg4); mstep.
  destruct Hlo3 as [_ O1 O2 O3 O4 O5 _]; cbn [s2 with_pages pcp_pools pmm_smp_ready total_page_count
    usable_page_count pmm_direct_map_base] in *.
  unfold B1 in HI4; rewrite insert_insert_eq in HI4.
  eexists _, (<[p := (o, KFree)]> B); split; [done|]; split; [|simpl; congruence].
  split; simpl; try congruence.
  - exists L3; eapply inv_D; [|destruct HI4 as [[] ? ? ? ? ?]; split; try done].
    intros z; unfold dadd, D0; repeat case_decide; lia.
  - intros q oq k; destruct (decide (q = p)) as [->|];
      [rewrite lookup_insert_eq; congruence|rewrite lookup_insert_ne by done; eauto].
  - intros x; rewrite covered_insert, Hcov by done; tauto.
Qed.

(** ** Cutting a range into blocks *)

Lemma land_mask_divide x o : Z.land x (pow2 o - 1) = 0 <-> (pow2 o | x).
Proof.
  unfold pow2; rewrite Z.shiftl_1_l.
  replace (2 ^ Z.of_nat o - 1) with (Z.ones (Z.of_nat o)) by (rewrite Z.ones_equiv; lia).
  rewrite Z.land_ones by lia; apply Z.mod_divide; apply Z.pow_nonzero; lia.
Qed.

Lemma block_order_spec c e o n :
  (o + n = PMM_MAX_ORDER - 1)%nat -> (pow2 o | c) -> c + pow2 o <= e ->
  zone_of (c + pow2 o - 1) = zone_of c ->
  let o' := block_order c e o n in
  (o' < PMM_MAX_ORDER)%nat /\ (pow2 o' | c) /\ c + pow2 o' <= e /\
  zone_of (c + pow2 o' - 1) = zone_of c.
Proof.
  revert o; induction n as [|n IH]; intros o Hn Ha He Hz; cbn [block_order].
  { split_and!; try done; unfold PMM_MAX_ORDER in *; lia. }
  cbv zeta; case_decide as H1; [split_and!; try done; lia|].
  case_decide as H2; [split_and!; try done; lia|].
  apply IH; [lia| |lia|].
  - apply land_mask_divide; lia.
  - change (paddr_to_zone_id (Z.shiftl ?x PMM_PAGE_SHIFT)) with (zone_of x) in H2; lia.
Qed.

Lemma booting_ext s0 s B F F' : (forall x, F x <-> F' x) -> booting s0 s B F -> booting s0 s B F'.
Proof. intros H [H1 H2 H3 H4 H5 H6]; split; try done; intros x; by rewrite H3, H. Qed.

Lemma u64_add a b c : u64 (u64 (a + b) + c) = u64 (a + (b + c)).
Proof. unfold u64; rewrite Zplus_mod_idemp_l; f_equal; lia. Qed.

Lemma ingest_loop_spec s0 fuel s B F c e :
  booting s0 s B F -> 0 <= c -> (Z.to_nat (e - c) < fuel)%nat -> e <= total_page_count s0 ->
  (forall x, c <= x < e -> ~ F x) -> 0 <= usable_page_count s < 2 ^ 64 ->
  exists s' B', ingest_loop fuel s c e = Ok s' /\
    booting s0 s' B' (fun x => F x \/ c <= x < e) /\
    usable_page_count s' = u64 (usable_page_count s + Z.max 0 (e - c)).
Proof.
  revert s B F c; induction fuel as [|fuel IH]; intros s B F c Hb Hc Hfuel He Hun Hus; [lia|].
  cbn [ingest_loop]; case_decide as Hlt.
  2:{ exists s, B; split_and!; [done| |rewrite u64_small by lia; lia].
      eapply booting_ext; [|done]; intros x; split; [auto|]; intros [?|?]; [done|lia]. }
  set (o := block_order c e 0 (PMM_MAX_ORDER - 1)).
  destruct (block_order_spec c e 0 (PMM_MAX_ORDER - 1)) as (Ho & Ha & Hend & Hz); fold o.
  { done. } { exists c; change (pow2 0) with 1; lia. } { change (pow2 0) with 1; lia. }
  { change (pow2 0) with 1; f_equal; lia. }
  fold o in Ho, Ha, Hend, Hz; pose proof (pow2_pos o) as Hpos.
  destruct (add_free_block_spec s0 s B F c o) as (s1 & B1 & -> & Hb1 & Hu1); mstep.
  { done. }
  { split; try done; rewrite (bt_total _ _ _ _ Hb); lia. }
  { intros x Hx; apply Hun; unfold in_block in Hx; lia. }
  destruct (IH s1 B1 (fun x => F x \/ in_block c o x) (c + pow2 o)) as (s2 & B2 & E & Hb2 & Hu2).
  - done.
  - lia.
  - lia.
  - done.
  - intros x Hx [HF|Hin]; [by apply (Hun x); [lia|]|unfold in_block in Hin; lia].
  - rewrite Hu1; unfold u64; apply Z.mod_pos_bound; lia.
  - exists s2, B2; split_and!; [done| |].
    + eapply booting_ext; [|exact Hb2]; intros x; simpl; unfold in_block.
      split; [intros [[?|?]|?]; auto; right; lia|intros [?|?]; [auto|]].
      destruct (decide (x < c + pow2 o)); [left; right; lia|right; lia].
    + rewrite Hu2, Hu1, u64_add; f_equal; lia.
Qed.

Lemma ingest_range_spec s0 s B F a e :
  booting s0 s B F -> 0 <= a -> Z.shiftr e PMM_PAGE_SHIFT <= total_page_count s0 ->
  (forall x, Z.shiftr a PMM_PAGE_SHIFT <= x < Z.shiftr e PMM_PAGE_SHIFT -> ~ F x) ->
  0 <= usable_page_count s < 2 ^ 64 ->
  exists s' B', ingest_usable_range s a e = Ok s' /\
    booting s0 s' B' (fun x => F x \/ Z.shiftr a PMM_PAGE_SHIFT <= x < Z.shiftr e PMM_PAGE_SHIFT) /\
    usable_page_count s' = u64 (usable_page_count s +
      Z.max 0 (Z.shiftr e PMM_PAGE_SHIFT - Z.shiftr a PMM_PAGE_SHIFT)).
Proof.
  intros Hb Ha He Hun Hu; unfold ingest_usable_range; eapply ingest_loop_spec; try done; [|lia].
  by apply Z.shiftr_nonneg.
Qed.

(** ** Regions *)

Definition usable (r : pmm_mem_region) : Prop := rg_type r = PMM_REGION_USABLE.

(** The whole frame [x] lies in the region. *)
Definition page_in (r : pmm_mem_region) (x : Z) : Prop :=
  rg_base r <= x * PMM_PAGE_SIZE /\ (x + 1) * PMM_PAGE_SIZE <= rg_base r + rg_length r.

Definition region_ok (r : pmm_mem_region) : Prop :=
  0 <= rg_base r /\ 0 <= rg_length r /\ rg_base r + rg_length r + 0xFFF < 2 ^ 64.

Definition apart (r r' : pmm_mem_region) : Prop :=
  rg_base r + rg_length r <= rg_base r' \/ rg_base r' + rg_length r' <= rg_base r.

(** A memory map: usable regions do not overlap. *)
Fixpoint map_ok (rs : list pmm_mem_region) : Prop :=
  match rs with
  | [] => True
  | r :: rs => (usable r -> region_ok r /\ forall r', r' ∈ rs -> usable r' -> apart r r') /\ map_ok rs
  end.

Lemma page_mask x : Z.land x (Z.lnot 0xFFF) = x / 4096 * 4096.
Proof.
  change 0xFFF with (Z.ones 12); rewrite <-Z.ldiff_land, Z.ldiff_ones_r by lia.
  rewrite Z.shiftr_div_pow2, Z.shiftl_mul_pow2 by lia; done.
Qed.

Lemma first_frame r x :
  region_ok r -> Z.shiftr (page_up (rg_base r)) PMM_PAGE_SHIFT <= x <-> rg_base r <= x * PMM_PAGE_SIZE.
Proof.
  intros (H1 & H2 & H3); unfold page_up, PMM_PAGE_SHIFT, PMM_PAGE_SIZE.
  rewrite page_mask, u64_small, Z.shiftr_div_pow2 by lia; change (2 ^ 12) with 4096.
  rewrite Z.div_mul by lia; pose proof (Z.div_mod (rg_base r + 4095) 4096).
  pose proof (Z.mod_pos_bound (rg_base r + 4095) 4096); lia.
Qed.

Lemma last_frame r x :
  region_ok r ->
  x < Z.shiftr (Z.land (u64 (rg_base r + rg_length r)) (Z.lnot 0xFFF)) PMM_PAGE_SHIFT <->
  (x + 1) * PMM_PAGE_SIZE <= rg_base r + rg_length r.
Proof.
  intros (H1 & H2 & H3); unfold PMM_PAGE_SHIFT, PMM_PAGE_SIZE.
  rewrite page_mask, u64_small, Z.shiftr_div_pow2 by lia; change (2 ^ 12) with 4096.
  rewrite Z.div_mul by lia; pose proof (Z.div_mod (rg_base r + rg_length r) 4096).
  pose proof (Z.mod_pos_bound (rg_base r + rg_length r) 4096); lia.
Qed.

Lemma shift_back x : 0 <= x -> Z.shiftr (Z.shiftl x PMM_PAGE_SHIFT) PMM_PAGE_SHIFT = x.
Proof.
  intros; unfold PMM_PAGE_SHIFT; rewrite Z.shiftl_mul_pow2, Z.shiftr_div_pow2 by lia.
  by apply Z.div_mul.
Qed.

(** The frames of a region outside the page array. *)
Definition taken (as_ ae : Z) (r : pmm_mem_region) (x : Z) : Prop :=
  page_in r x /\ ~ (as_ <= x < ae).

Lemma u64_range x : 0 <= u64 x < 2 ^ 64.
Proof. unfold u64; apply Z.mod_pos_bound; lia. Qed.

Lemma booting_range s0 s B F a e :
  booting s0 s B F -> 0 <= a -> 0 <= e <= total_page_count s0 ->
  (forall x, a <= x < e -> ~ F x) -> 0 <= usable_page_count s < 2 ^ 64 ->
  exists s' B', ingest_usable_range s (Z.shiftl a PMM_PAGE_SHIFT) (Z.shiftl e PMM_PAGE_SHIFT) = Ok s' /\
    booting s0 s' B' (fun x => F x \/ a <= x < e) /\ 0 <= usable_page_count s' < 2 ^ 64.
Proof.
  intros Hb Ha He Hun Hu.
  destruct (ingest_range_spec s0 s B F (Z.shiftl a PMM_PAGE_SHIFT) (Z.shiftl e PMM_PAGE_SHIFT))
    as (s' & B' & E & Hb' & Hu'); rewrite ?shift_back by lia; try done; [by apply Z.shiftl_nonneg|lia|].
  rewrite !shift_back in Hb' by lia; exists s', B'; split_and!; [done|done|..]; rewrite Hu'; apply u64_range.
Qed.

(** One usable region, with the frames of the page array cut out. *)
Lemma ingest_one s0 s B F as_ ae r :
  booting s0 s B F -> region_ok r -> 0 <= as_ -> 0 <= ae ->
  let st := Z.shiftr (page_up (rg_base r)) PMM_PAGE_SHIFT in
  let en := Z.shiftr (Z.land (u64 (rg_base r + rg_length r)) (Z.lnot 0xFFF)) PMM_PAGE_SHIFT in
  en <= total_page_count s0 -> (forall x, page_in r x -> ~ F x) -> 0 <= usable_page_count s < 2 ^ 64 ->
  st < en -> as_ <= ae ->
  exists s' B',
    (if decide (en <= as_ \/ ae <= st) then
       ingest_usable_range s (page_up (rg_base r)) (Z.land (u64 (rg_base r + rg_length r)) (Z.lnot 0xFFF))
     else
       s ← (if decide (st < as_) then
              ingest_usable_range s (Z.shiftl st PMM_PAGE_SHIFT) (Z.shiftl as_ PMM_PAGE_SHIFT)
            else Ok s);
       if decide (ae < en) then
         ingest_usable_range s (Z.shiftl ae PMM_PAGE_SHIFT) (Z.shiftl en PMM_PAGE_SHIFT)
       else Ok s) = Ok s' /\
    booting s0 s' B' (fun x => F x \/ taken as_ ae r x) /\ 0 <= usable_page_count s' < 2 ^ 64.
Proof.
  intros Hb Hr Has Hae st en Hen Hun Hu Hse Hle.
  assert (Hpi : forall x, page_in r x <-> st <= x < en)
    by (intros x; unfold page_in, st, en; rewrite <-first_frame, <-last_frame by done; done).
  assert (Hst : 0 <= st) by (apply Z.shiftr_nonneg; unfold page_up; apply Z.land_nonneg; left; apply u64_range).
  assert (Hb1 : 0 <= page_up (rg_base r)) by (unfold page_up; apply Z.land_nonneg; left; apply u64_range).
  case_decide as Hc.
  { destruct (ingest_range_spec s0 s B F (page_up (rg_base r))
      (Z.land (u64 (rg_base r + rg_length r)) (Z.lnot 0xFFF))) as (s' & B' & E & Hb' & Hu'); try done.
    { intros x Hx; apply Hun, Hpi, Hx. }
    exists s', B'; split_and!; [done| |..]; [|rewrite Hu'; apply u64_range..].
    eapply booting_ext; [|exact Hb']; intros x; unfold taken; rewrite Hpi; fold st; fold en.
    split; [intros [?|?]; auto; right; lia|intros [?|[? _]]; auto]. }
  assert (exists s1 B1, (if decide (st < as_) then
      ingest_usable_range s (Z.shiftl st PMM_PAGE_SHIFT) (Z.shiftl as_ PMM_PAGE_SHIFT) else Ok s) = Ok s1 /\
    booting s0 s1 B1 (fun x => F x \/ st <= x < as_) /\ 0 <= usable_page_count s1 < 2 ^ 64)
    as (s1 & B1 & -> & Hb1' & Hu1).
  { case_decide; [|exists s, B; split_and!; try lia; [done|]; eapply booting_ext; [|done]; intros x; split; [auto|intros [?|?]; [done|lia]]].
    apply (booting_range s0 s B); try done; [lia|]; intros x Hx; apply Hun, Hpi; lia. }
  mstep; case_decide as Hc2.
  - destruct (booting_range s0 s1 B1 _ ae en Hb1') as (s2 & B2 & E2 & Hb2 & Hu2); [lia|lia| |done|].
    { intros x Hx [HF|?]; [|lia]; by apply (Hun x); [apply Hpi; lia|]. }
    exists s2, B2; split_and!; [done| |lia|lia].
    eapply booting_ext; [|exact Hb2]; intros x; simpl; unfold taken; rewrite Hpi.
    split; [intros [[?|?]|?]; auto; right; lia|intros [?|[? ?]]; auto].
    destruct (decide (x < as_)); [left; right; lia|right; lia].
  - exists s1, B1; split_and!; [done| |lia|lia].
    eapply booting_ext; [|exact Hb1']; intros x; simpl; unfold taken; rewrite Hpi.
    split; [intros [?|?]; auto; right; lia|intros [?|[? ?]]; auto; right; lia].
Qed.

Lemma apart_pages r r' x : apart r r' -> page_in r x -> page_in r' x -> False.
Proof. unfold apart, page_in, PMM_PAGE_SIZE; lia. Qed.

Lemma ingest_regions_spec s0 s B F as_ ae rs :
  booting s0 s B F -> map_ok rs -> 0 <= as_ <= ae ->
  (forall r, r ∈ rs -> usable r -> rg_base r + rg_length r <= (total_page_count s0 + 1) * PMM_PAGE_SIZE - 1) ->
  (forall r x, r ∈ rs -> usable r -> page_in r x -> ~ F x) -> 0 <= usable_page_count s < 2 ^ 64 ->
  exists s' B', ingest_regions s as_ ae rs = Ok s' /\
    booting s0 s' B' (fun x => F x \/ exists r, r ∈ rs /\ usable r /\ taken as_ ae r x).
Proof.
  revert s B F; induction rs as [|r rs IH]; intros s B F Hb Hm Ha Ht Hun Hu.
  { exists s, B; split; [done|]; eapply booting_ext; [|done]; intros x; split; [auto|].
    intros [?|(r & Hr & _)]; [done|by apply not_elem_of_nil in Hr]. }
  destruct Hm as [Hr Hm]; cbn [ingest_regions].
  assert (Hskip : (forall x, usable r -> ~ page_in r x) -> exists s' B',
    ingest_regions s as_ ae rs = Ok s' /\
    booting s0 s' B' (fun x => F x \/ exists r', r' ∈ r :: rs /\ usable r' /\ taken as_ ae r' x)).
  { intros Hno; destruct (IH s B F) as (s' & B' & E & Hb'); try done;
      [intros ? ?; apply Ht; by right|intros r' x Hr'; apply Hun; by right|].
    exists s', B'; split; [done|]; eapply booting_ext; [|exact Hb']; intros x; simpl.
    split; (intros [?|(r' & Hr' & Hus & Htk)]; [auto|right]).
    - exists r'; split_and!; [by apply list_elem_of_further|done|done].
    - apply elem_of_cons in Hr' as [->|Hr']; [destruct Htk; by destruct (Hno x)|eauto]. }
  case_decide as Hus; [apply Hskip; intros x ?; done|].
  assert (Hus' : usable r) by (unfold usable; destruct (decide (rg_type r = PMM_REGION_USABLE)); done).
  destruct (Hr Hus') as [Hrok Hap]; cbv zeta; case_decide as Hemp.
  { apply Hskip; intros x _ [H1 H2]; rewrite <-first_frame in H1 by done; rewrite <-last_frame in H2 by done.
    unfold PMM_PAGE_SHIFT in *; rewrite !Z.shiftr_div_pow2 in * by lia.
    assert (Z.land (u64 (rg_base r + rg_length r)) (Z.lnot 4095) / 2 ^ 12 <= page_up (rg_base r) / 2 ^ 12)
      by (apply Z.div_le_mono; lia); lia. }
  destruct (ingest_one s0 s B F as_ ae r Hb Hrok) as (s1 & B1 & E1 & Hb1 & Hu1); try lia.
  { specialize (Ht r ltac:(by left) Hus'); destruct (decide (total_page_count s0 <
      Z.shiftr (Z.land (u64 (rg_base r + rg_length r)) (Z.lnot 0xFFF)) PMM_PAGE_SHIFT)) as [Hlt|]; [|lia].
    apply last_frame in Hlt; [|done]; unfold PMM_PAGE_SIZE in *; lia. }
  { intros x; apply Hun; [by left|done]. }
  { unfold PMM_PAGE_SHIFT; rewrite !Z.shiftr_div_pow2 by lia; change (2 ^ 12) with 4096.
    unfold page_up in *; rewrite !page_mask in *.
    rewrite !Z.div_mul by lia; lia. }
  rewrite E1; mstep; destruct (IH s1 B1 (fun x => F x \/ taken as_ ae r x) Hb1 Hm Ha) as (s2 & B2 & E2 & Hb2).
  { intros r' Hr'; apply Ht; by right. }
  { intros r' x Hr' Hu' Hp [HF|[Hp' _]]; [by eapply (Hun r' x); [right| | |]|].
    eapply apart_pages; [by eapply Hap|done|done]. }
  { done. }
  exists s2, B2; split; [done|]; eapply booting_ext; [|exact Hb2]; intros x; simpl; split.
  - intros [[?|?]|(r' & Hr' & Hu' & Htk)]; [auto|right; exists r; split_and!; [by apply list_elem_of_here|done|done]|].
    right; exists r'; split_and!; [by apply list_elem_of_further|done|done].
  - intros [?|(r' & Hr' & Hu' & Htk)]; [auto|]; apply elem_of_cons in Hr' as [->|Hr']; [auto|eauto].
Qed.

(** ** The first state *)

Lemma boot_pages_lookup n p g :
  boot_pages n !! p = Some g <-> 0 <= p < Z.of_nat n /\ g = boot_page p.
Proof.
  unfold boot_pages; rewrite <-elem_of_list_to_map.
  - rewrite list_elem_of_fmap; split.
    + intros (i & [= -> ->] & Hi%elem_of_seq); split; [lia|done].
    + intros [Hp ->]; exists (Z.to_nat p); rewrite elem_of_seq, Z2Nat.id by lia; split; [done|lia].
  - rewrite <-list_fmap_compose; apply NoDup_fmap_2; [|apply NoDup_seq].
    intros i j E; simpl in E; lia.
Qed.

Definition L0 : lists := fun _ _ => [].

Lemma zone_sum_L0 z : zone_sum L0 z = 0.
Proof. done. Qed.

Lemma boot_inv zs C r n u d :
  length zs = PMM_ZONE_COUNT ->
  (forall z zn, zs !! z = Some zn -> exists b e, zn = empty_zone b e) ->
  C = pcp_pools pmm_static ->
  inv (Pmm zs C r (boot_pages n) (Z.of_nat n) u d) ∅ L0 D0.
Proof.
  intros Hl Hz ->; split; cbn [total_page_count pages_array pcp_pools].
  - split; cbn [zones pages_array]; try done.
    + intros z zn Hzn; destruct (Hz _ _ Hzn) as (b & e & ->); unfold empty_zone; cbn [free_lists].
      rewrite length_replicate; split; [done|]; intros o Ho; by rewrite lookup_replicate_2.
    + intros z o; constructor.
    + intros z o z' o' p Hp; by apply not_elem_of_nil in Hp.
    + intros z o p Hp; by apply not_elem_of_nil in Hp.
  - by split.
  - split; try done.
    + intros p; split.
      * intros [g [? _]%boot_pages_lookup]; done.
      * intros Hp; exists (boot_page p); by apply boot_pages_lookup.
    + intros p g [_ ->]%boot_pages_lookup; done.
    + intros q g [_ ->]%boot_pages_lookup [Hf _]; done.
  - intros z o p; split; [by intros ?%not_elem_of_nil|by intros [? _]].
  - split; [done|]; split; [|done].
    intros c pool Hc; apply lookup_replicate in Hc as [-> _].
    split; cbn [pcp_pages pcp_count]; [by rewrite length_replicate|lia|constructor| |].
    + intros p; split; [by intros ?%not_elem_of_nil|done].
    + by intros i p _ ?.
  - intros z zn Hzn; destruct (Hz _ _ Hzn) as (b & e & ->); done.
Qed.

Lemma max_paddr_acc rs m : m <= foldl (fun m r => if decide (rg_type r <> PMM_REGION_USABLE) then m
    else let top := u64 (rg_base r + rg_length r) in if decide (m < top) then top else m) m rs.
Proof.
  revert m; induction rs as [|r rs IH]; intros m; [done|]; cbn [foldl]; cbv zeta.
  etrans; [|apply IH]; repeat case_decide; lia.
Qed.

Lemma max_paddr_top rs r :
  map_ok rs -> r ∈ rs -> usable r -> rg_base r + rg_length r <= max_paddr_of rs.
Proof.
  unfold max_paddr_of; generalize 0; induction rs as [|r' rs IH]; intros m Hm Hr Hu;
    [by apply not_elem_of_nil in Hr|]; destruct Hm as [Hr' Hm]; cbn [foldl].
  apply elem_of_cons in Hr as [->|Hr]; [|by apply IH].
  destruct (Hr' Hu) as [(H1 & H2 & H3) _]; etrans; [|apply max_paddr_acc]; cbv zeta.
  rewrite decide_False by (intros H; by apply H); rewrite u64_small by lia; case_decide; lia.
Qed.

(** Where the page array goes and how long it is. *)
Definition array_bytes (rs : list pmm_mem_region) : Z :=
  Z.land (u64 (Z.shiftr (max_paddr_of rs) PMM_PAGE_SHIFT * sizeof_page + PMM_PAGE_SIZE - 1))
         (Z.lnot (PMM_PAGE_SIZE - 1)).
Definition array_first (rs : list pmm_mem_region) : Z :=
  Z.shiftr (array_place rs).1 PMM_PAGE_SHIFT.
Definition array_end (rs : list pmm_mem_region) : Z :=
  Z.shiftr (u64 ((array_place rs).1 + array_bytes rs)) PMM_PAGE_SHIFT.

Lemma pmm_boot_spec (rs : list pmm_mem_region) (direct : Z) :
  map_ok rs -> (array_place rs).1 <> 0 -> array_bytes rs <= (array_place rs).2 ->
  array_first rs <= array_end rs ->
  exists s B, pmm_init rs direct = Ok s /\ pmm_ok s B /\ (forall q o, ~ owned B q o) /\
    total_page_count s = Z.shiftr (max_paddr_of rs) PMM_PAGE_SHIFT /\
    pmm_smp_ready s = false /\ pmm_direct_map_base s = direct /\
    forall x, covered B x <->
      (exists r, r ∈ rs /\ usable r /\ page_in r x) /\ ~ (array_first rs <= x < array_end rs).
Proof.
  intros Hm Hne Hfit Hle; unfold pmm_init.
  rewrite decide_False by (intros ->; by apply Hne).
  fold (array_bytes rs); rewrite (surjective_pairing (array_place rs)); cbv beta iota zeta.
  rewrite decide_False by (intros [?|?]; [done|lia]).
  fold (array_first rs); fold (array_end rs); set (T := Z.shiftr (max_paddr_of rs) PMM_PAGE_SHIFT).
  assert (HT : 0 <= T) by (apply Z.shiftr_nonneg, (max_paddr_acc rs 0)).
  set (s0 := with_pages _ _).
  assert (Hb : booting s0 s0 ∅ (fun _ => False)).
  { split; try done.
    - exists L0; unfold s0, with_pages; cbn [zones pcp_pools pmm_smp_ready total_page_count
        usable_page_count pmm_direct_map_base].
      rewrite <-(Z2Nat.id T) at 2 by done; apply boot_inv; [done| |done].
      intros z zn Hz; do 3 (destruct z as [|z]; [simpl in Hz; simplify_eq; by do 2 eexists|]); done.
    - intros x; split; [|done]; by intros (? & ? & ? & ? & _). }
  destruct (ingest_regions_spec s0 s0 ∅ _ (array_first rs) (array_end rs) rs Hb Hm)
    as (s' & B' & E & Hb').
  - split; [|done]; apply Z.shiftr_nonneg; unfold array_place.
    assert (forall l a m, 0 <= a -> 0 <= (foldl (fun '(a, m) r =>
      if decide (rg_type r = PMM_REGION_USABLE /\ m < rg_length r)
      then (page_up (rg_base r), rg_length r) else (a, m)) (a, m) l).1) as Hpos; [|by apply Hpos].
    induction l as [|r l IH]; intros a m Ha; [done|]; cbn [foldl]; case_decide; apply IH; [|done].
    unfold page_up; apply Z.land_nonneg; left; apply u64_range.
  - intros r Hr Hu; etrans; [by apply max_paddr_top|]; cbn [s0 with_pages total_page_count].
    unfold T, PMM_PAGE_SHIFT, PMM_PAGE_SIZE; rewrite Z.shiftr_div_pow2 by lia; change (2 ^ 12) with 4096.
    pose proof (Z.div_mod (max_paddr_of rs) 4096); pose proof (Z.mod_pos_bound (max_paddr_of rs) 4096); lia.
  - auto.
  - simpl; lia.
  - exists s', B'; destruct Hb' as [H1 H2 H3 H4 H5 H6]; split_and!; try done.
    + split; [|done]; intros q o k Hq; by rewrite (H2 _ _ _ Hq).
    + intros q o Ho; by apply H2 in Ho.
    + intros x; rewrite H3; unfold taken; naive_solver.
Qed.

(** Booting from a memory map whose usable regions do not overlap and one of
    which holds the page array gives a consistent allocator with nothing in use.
    It manages exactly the frames that lie wholly in a usable region and do not hold
    the page array. *)
Theorem pmm_init_ok (rs : list pmm_mem_region) (direct : Z) :
  map_ok rs -> (array_place rs).1 <> 0 -> array_bytes rs <= (array_place rs).2 ->
  array_first rs <= array_end rs ->
  exists s B, pmm_init rs direct = Ok s /\ pmm_ok s B /\ (forall q o, ~ owned B q o) /\
    total_page_count s = Z.shiftr (max_paddr_of rs) PMM_PAGE_SHIFT /\
    pmm_smp_ready s = false /\ pmm_direct_map_base s = direct /\
    forall x, covered B x <->
      (exists r, r ∈ rs /\ usable r /\ page_in r x) /\ ~ (array_first rs <= x < array_end rs).
Proof. apply pmm_boot_spec. Qed.
