(* ===== verification/PmmClient.v ===== *)
(** * The page allocator: sequences of calls

    From boot on, whatever callers ask for, the blocks they hold never overlap. *)

From stdpp Require Import base tactics option list numbers gmap.
From Stdlib Require Import ZArith Lia.
From S2P Require Import Prelude Pmm PmmLists PmmInv PmmSpec PmmTheorems PmmBoot.

Local Open Scope Z_scope.

(** The calls of pmm.h; [CPercpu] is the switch to the per-CPU pools at boot. *)
Inductive call :=
  | CAlloc (cpu order : nat) (flags : Z)
  | CFree (cpu : nat) (p : Z) (order : nat)
  | CUnref (cpu : nat) (p : Z)
  | CRef (p : Z)
  | CPercpu.

(** The blocks held by callers, with their orders. *)
Abbreviation holdings := (gmap Z nat).

Definition run_call (s : pmm) (H : holdings) (c : call) : res (pmm * holdings) :=
  match c with
  | CAlloc cpu order flags =>
      '(r, s, _) ← pmm_alloc_order s cpu order flags;
      Ok (s, match r with Some p => <[p := order]> H | None => H end)
  | CFree cpu p order =>
      g ← page_at s p;
      s ← pmm_free_order s cpu (Some p) order;
      Ok (s, if decide (1 < pg_refcount g) then H else delete p H)
  | CUnref cpu p =>
      g ← page_at s p;
      s ← pmm_page_unref s cpu (Some p);
      Ok (s, if decide (1 < pg_refcount g) then H else delete p H)
  | CRef p => s ← pmm_page_ref s (Some p); Ok (s, H)
  | CPercpu => Ok (pmm_init_percpu s, H)
  end.

(** What a caller must respect: no [PAGE_FLAG_FREE] in the flags, release what it
    holds with the order it got, no overflow of a reference count; the pools are set
    up while they are empty. *)
Definition legal (s : pmm) (H : holdings) (c : call) : Prop :=
  match c with
  | CAlloc _ _ flags => has_flag flags PAGE_FLAG_FREE = false
  | CFree _ p order => H !! p = Some order
  | CUnref _ p => is_Some (H !! p)
  | CRef p => is_Some (H !! p) /\
      forall g, pages_array s !! p = Some g -> pg_refcount g < 2 ^ 32 - 1
  | CPercpu => Forall (fun c => pcp_count c = 0%nat) (pcp_pools s)
  end.

Fixpoint run_calls (s : pmm) (H : holdings) (cs : list call) : res (pmm * holdings) :=
  match cs with
  | [] => Ok (s, H)
  | c :: cs => '(s, H) ← run_call s H c; run_calls s H cs
  end.

Fixpoint legal_calls (s : pmm) (H : holdings) (cs : list call) : Prop :=
  match cs with
  | [] => True
  | c :: cs => legal s H c /\
      forall s' H', run_call s H c = Ok (s', H') -> legal_calls s' H' cs
  end.

Definition agrees (B : blocks) (H : holdings) : Prop := forall q o, H !! q = Some o <-> owned B q o.

Lemma agrees_delete s s' B B' H p :
  agrees B H -> free_post s s' B B' p -> agrees B' (delete p H).
Proof.
  intros Ha [Hf _ _] q o; rewrite Hf, <-(Ha q o); destruct (decide (q = p)) as [->|].
  - rewrite lookup_delete_eq; naive_solver.
  - rewrite lookup_delete_ne by done; naive_solver.
Qed.

Lemma pools_zero (C : list pcp_pool) :
  Forall (fun c => pcp_count c = 0%nat) C -> (fun c => Pool 0 (pcp_pages c)) <$> C = C.
Proof.
  induction 1 as [|[n l] C Hc HC IH]; [done|]; simpl in Hc; subst.
  by rewrite fmap_cons, IH.
Qed.

Lemma percpu_ok s B :
  pmm_ok s B -> Forall (fun c => pcp_count c = 0%nat) (pcp_pools s) -> pmm_ok (pmm_init_percpu s) B.
Proof.
  intros [Hs [L [HL HB HD HF HP HC]]] Hz; split; [done|]; exists L; split; try done.
  - by destruct HL; split.
  - cbn [pmm_init_percpu pcp_pools]; by rewrite pools_zero.
Qed.

Lemma page_ref_ok s B p o g :
  pmm_ok s B -> owned B p o -> pages_array s !! p = Some g -> pg_refcount g < 2 ^ 32 - 1 ->
  exists s', pmm_page_ref s (Some p) = Ok s' /\ pmm_ok s' B.
Proof.
  intros [Hs [L HI]] Hp Hg Hlt.
  pose proof (do_kind _ _ _ (i_descs _ _ _ _ HI) _ _ _ _ Hp Hg) as (Hfl & Hrc & Hord).
  unfold pmm_page_ref; rewrite (page_at_ok _ _ _ Hg); mstep; rewrite (upd_page_ok _ _ _ _ Hg).
  eexists; split; [done|]; split; [done|]; exists L.
  rewrite <-(insert_id B p (o, KAlloc)) by done.
  eapply inv_desc; try done.
  - rewrite u32_small by lia; split_and!; [done|simpl; lia|simpl; lia|done].
  - intros [? _]; simpl in *; congruence.
Qed.

Lemma run_call_ok s B H c :
  pmm_ok s B -> agrees B H -> legal s H c ->
  exists s' H' B', run_call s H c = Ok (s', H') /\ pmm_ok s' B' /\ agrees B' H' /\ same_cover B B'.
Proof.
  intros Hok Ha Hl.
  assert (Hfree : forall cpu p o, H !! p = Some o -> exists g s' B', pages_array s !! p = Some g /\
    pmm_free_order s cpu (Some p) o = Ok s' /\ pmm_ok s' B' /\
    agrees B' (if decide (1 < pg_refcount g) then H else delete p H) /\ same_cover B B').
  { intros cpu p o Hp; apply Ha in Hp.
    destruct (free_order_ok s B cpu p o Hok Hp) as (g & s' & Hg & E & Hr); exists g, s'.
    unfold free_result in Hr; case_decide.
    - exists B; destruct Hr; by split_and!.
    - destruct Hr as (B' & Hok' & Hf); exists B'; split_and!; try done.
      + by eapply agrees_delete.
      + by destruct Hf as [_ [? _ _ _ _] _]. }
  destruct c as [cpu order flags|cpu p order|cpu p|p|]; cbn [run_call legal] in *.
  - destruct (alloc_order_ok s B cpu order flags Hok Hl) as (r & s' & ev & -> & Hr); mstep.
    destruct r as [p|]; cbn [alloc_result] in Hr.
    + destruct Hr as (_ & _ & _ & _ & B' & Hok' & [A1 A2 [A3 _ _ _ _] _ _]).
      exists s', (<[p := order]> H), B'; split_and!; try done; intros q o; rewrite A1, <-(Ha q o).
      destruct (decide (q = p)) as [->|]; [rewrite lookup_insert_eq|rewrite lookup_insert_ne by done; naive_solver].
      rewrite (Ha p o); split; [naive_solver|intros [[_ ->]|Ho]; [done|by apply A2 in Ho]].
    + destruct Hr as (-> & _ & _); by exists s, H, B.
  - destruct (Hfree cpu p order Hl) as (g & s' & B' & Hg & E & Hok' & Ha' & Hc).
    rewrite (page_at_ok _ _ _ Hg); mstep; rewrite E; mstep; eauto 10.
  - destruct Hl as [o Ho]; destruct (Hfree cpu p o Ho) as (g & s' & B' & Hg & E & Hok' & Ha' & Hc).
    rewrite (page_at_ok _ _ _ Hg); mstep; unfold pmm_page_unref; rewrite (page_at_ok _ _ _ Hg); mstep.
    rewrite (pmm_ok_order s B p o g Hok) by (done || by apply Ha); rewrite E; mstep; eauto 10.
  - destruct Hl as [[o Ho] Hrc]; apply Ha in Ho.
    assert (Hg : exists g, pages_array s !! p = Some g)
      by (destruct Hok as [_ [L HI]]; by eapply inv_page); destruct Hg as [g Hg].
    destruct (page_ref_ok s B p o g Hok Ho Hg) as (s' & -> & Hok'); [by apply Hrc|]; mstep.
    exists s', H, B; by split_and!.
  - exists (pmm_init_percpu s), H, B; split_and!; [done|by apply percpu_ok|done|done].
Qed.

Lemma run_calls_ok s B H cs :
  pmm_ok s B -> agrees B H -> legal_calls s H cs ->
  exists s' H' B', run_calls s H cs = Ok (s', H') /\ pmm_ok s' B' /\ agrees B' H' /\ same_cover B B'.
Proof.
  revert s B H; induction cs as [|c cs IH]; intros s B H Hok Ha Hl.
  { exists s, H, B; by split_and!. }
  destruct Hl as [Hl Hrest].
  destruct (run_call_ok s B H c Hok Ha Hl) as (s1 & H1 & B1 & E & Hok1 & Ha1 & Hc1).
  cbn [run_calls]; rewrite E; mstep.
  destruct (IH s1 B1 H1 Hok1 Ha1 (Hrest _ _ E)) as (s2 & H2 & B2 & E2 & Hok2 & Ha2 & Hc2).
  exists s2, H2, B2; split_and!; [done|done|done|by etrans].
Qed.

(** C14: From boot on, a sequence of allocations, releases, extra references and the
    switch to the per-CPU pools runs without a fault, provided that the callers keep to
    the contract [legal]: no PAGE_FLAG_FREE in the flags of a request, releases and references
    only of blocks they hold and releases with the order they got, no reference count
    at its maximum, and the pools switched on while they are empty.  The blocks they then
    hold are apart, lie in usable memory, and are aligned to their size. *)
Theorem pmm_trace_safe (rs : list pmm_mem_region) (direct : Z) (s0 : pmm) (cs : list call) :
  map_ok rs -> (array_place rs).1 <> 0 -> array_bytes rs <= (array_place rs).2 ->
  array_first rs <= array_end rs ->
  pmm_init rs direct = Ok s0 -> legal_calls s0 ∅ cs ->
  exists s H, run_calls s0 ∅ cs = Ok (s, H) /\
    (forall p o, H !! p = Some o -> (pow2 o | p) /\
       forall x, in_block p o x -> exists r, r ∈ rs /\ usable r /\ page_in r x) /\
    (forall p o q o' x, H !! p = Some o -> H !! q = Some o' ->
       in_block p o x -> in_block q o' x -> p = q).
Proof.
  intros Hm Hne Hfit Hle E Hl.
  destruct (pmm_boot_spec rs direct Hm Hne Hfit Hle) as (s1 & B & E1 & Hok & Hno & _ & _ & _ & Hcov).
  rewrite E in E1; injection E1 as <-.
  destruct (run_calls_ok s0 B ∅ cs Hok) as (s & H & B' & -> & [_ [L HI]] & Ha & Hc); [|done|].
  { intros q o; rewrite lookup_empty; split; [done|intros []%Hno]. }
  exists s, H; split; [done|]; pose proof (i_blocks _ _ _ _ HI) as [Hw Hd]; split.
  - intros p o Hp; apply Ha in Hp; split; [by eapply Hw|]; intros x Hx.
    assert (Hx' : covered B' x) by (by exists p, o, KAlloc).
    apply Hc, Hcov in Hx' as [? _]; done.
  - intros p o q o' x Hp Hq; apply Ha in Hp, Hq; by eapply Hd.
Qed.

(** ** Examples

    128 frames: a region of 64 from frame 1 on and one of 48 and a half from frame
    80 on; the page array takes frames 1 and 2. *)

Definition demo_map : list pmm_mem_region :=
  [Region 0x1000 0x40000 1; Region 0x50000 0x30800 1; Region 0xa0000 0x60000 2].

Lemma demo_map_ok :
  map_ok demo_map /\ (array_place demo_map).1 <> 0 /\
  array_bytes demo_map <= (array_place demo_map).2 /\
  array_first demo_map <= array_end demo_map.
Proof.
  split; [|vm_compute; done].
  split; [intros _; split; [unfold region_ok; simpl; lia|]; intros r' Hr' Hu|].
  { rewrite !elem_of_cons in Hr'; destruct Hr' as [->|[->|Hr']].
    - unfold apart; simpl; lia.
    - done.
    - by apply not_elem_of_nil in Hr'. }
  split; [intros _; split; [unfold region_ok; simpl; lia|]; intros r' Hr' Hu|by split].
  rewrite elem_of_cons in Hr'; destruct Hr' as [->|Hr']; [done|by apply not_elem_of_nil in Hr'].
Qed.

Definition demo : pmm := match pmm_init demo_map 0 with Ok s => s | _ => pmm_static end.

Lemma demo_init : pmm_init demo_map 0 = Ok demo.
Proof. by vm_compute. Qed.

Lemma demo_ok : exists B, pmm_ok demo B.
Proof.
  destruct demo_map_ok as (H1 & H2 & H3 & H4).
  destruct (pmm_boot_spec demo_map 0 H1 H2 H3 H4) as (s & B & E & Hok & _).
  apply (eq_trans (eq_sym demo_init)), Ok_inj in E; subst s; exists B; exact Hok.
Qed.

Definition demo_alloc : pmm :=
  match pmm_alloc_order demo 0 3 0 with Ok (_, s, _) => s | _ => demo end.

Lemma demo_alloc_ok : exists B, pmm_ok demo_alloc B /\ owned B 8 3.
Proof.
  destruct demo_ok as [B Hok].
  destruct (alloc_order_ok demo B 0 3 0 Hok) as (r & s' & ev & E & Hr); [done|].
  assert (E' : pmm_alloc_order demo 0 3 0 = Ok (Some 8, demo_alloc, [])) by (by vm_compute).
  apply (eq_trans (eq_sym E')), Ok_inj in E; apply pair_eq in E as [E <-].
  apply pair_eq in E as [<- <-].
  destruct Hr as (_ & _ & _ & _ & B' & Hok' & [A1 _ _ _ _]); exists B'; split; [exact Hok'|].
  apply A1; left; split; reflexivity.
Qed.

Lemma pmm_init_ok_witness :
  exists s B, pmm_init demo_map 0 = Ok s /\ pmm_ok s B /\ (forall q o, ~ owned B q o) /\
    total_page_count s = Z.shiftr (max_paddr_of demo_map) PMM_PAGE_SHIFT /\
    pmm_smp_ready s = false /\ pmm_direct_map_base s = 0 /\
    forall x, covered B x <->
      (exists r, r ∈ demo_map /\ usable r /\ page_in r x) /\
      ~ (array_first demo_map <= x < array_end demo_map).
Proof. apply pmm_init_ok; apply demo_map_ok. Defined.

Lemma pmm_alloc_order_spec_witness :
  exists B, pmm_ok demo B /\ exists r s' ev, pmm_alloc_order demo 0 3 0 = Ok (r, s', ev) /\
    alloc_result demo B 3 0 r s' ev.
Proof.
  destruct demo_ok as [B Hok]; exists B; split; [exact Hok|].
  apply pmm_alloc_order_spec; [exact Hok|reflexivity].
Defined.

Lemma pmm_free_order_spec_witness :
  exists B, pmm_ok demo_alloc B /\ exists g s', pages_array demo_alloc !! 8 = Some g /\
    pmm_free_order demo_alloc 0 (Some 8) 3 = Ok s' /\ free_result demo_alloc B 8 g s'.
Proof.
  destruct demo_alloc_ok as (B & Hok & Ho); exists B; split; [exact Hok|].
  apply (pmm_free_order_spec demo_alloc B 0 8 3); [exact Hok|exact Ho].
Defined.

Lemma legal_calls_cons s H c cs s' H' :
  legal s H c -> run_call s H c = Ok (s', H') -> legal_calls s' H' cs -> legal_calls s H (c :: cs).
Proof. intros Hl E Hr; split; [done|]; intros s1 H1 E1; rewrite E in E1; by simplify_eq. Qed.

Definition demo_calls : list call := [CPercpu; CAlloc 0 3 0; CAlloc 0 0 PAGE_FLAG_ZERO; CUnref 0 8].

Definition after (s : pmm) (H : holdings) (c : call) : pmm * holdings :=
  match run_call s H c with Ok r => r | _ => (s, H) end.

Lemma demo_calls_legal : legal_calls demo ∅ demo_calls.
Proof.
  set (a1 := after demo ∅ CPercpu).
  set (a2 := after a1.1 a1.2 (CAlloc 0 3 0)).
  set (a3 := after a2.1 a2.2 (CAlloc 0 0 PAGE_FLAG_ZERO)).
  set (a4 := after a3.1 a3.2 (CUnref 0 8)).
  apply (legal_calls_cons _ _ _ _ a1.1 a1.2);
    [vm_compute; repeat constructor|by vm_compute|].
  apply (legal_calls_cons _ _ _ _ a2.1 a2.2); [reflexivity|by vm_compute|].
  apply (legal_calls_cons _ _ _ _ a3.1 a3.2); [reflexivity|by vm_compute|].
  apply (legal_calls_cons _ _ _ _ a4.1 a4.2); [exists 3%nat; by vm_compute|by vm_compute|exact I].
Qed.

Lemma pmm_trace_safe_witness :
  exists s H, run_calls demo ∅ demo_calls = Ok (s, H) /\
    (forall p o, H !! p = Some o -> (pow2 o | p) /\
       forall x, in_block p o x -> exists r, r ∈ demo_map /\ usable r /\ page_in r x) /\
    (forall p o q o' x, H !! p = Some o -> H !! q = Some o' ->
       in_block p o x -> in_block q o' x -> p = q).
Proof.
  apply (pmm_trace_safe demo_map 0); [apply demo_map_ok..|exact demo_init|exact demo_calls_legal].
Defined.
