(* ===== verification/SlabMem.v ===== *)
(** * Kernel memory as bytes, and the slab allocator's copy routines (mem/slab.c)

    Memory is a finite map from addresses to bytes; a byte that was never written
    reads as 0.  The unrolled, word-wise loops
    of [slab_zero_fast] and [slab_copy_fast] are modelled access by access, and
    shown equal to the plain byte loops they stand for. *)

From stdpp Require Import base tactics list numbers gmap sets.
From Stdlib Require Import ZArith Lia.
From S2P Require Import Prelude.

Local Open Scope Z_scope.

Abbreviation bytes := (gmap Z Z).

(** ** Bytes and 64-bit words *)

Definition store8 (a v : Z) (m : bytes) : bytes := <[a := v]> m.

Definition load8 (m : bytes) (a : Z) : Z := u8 (default 0 (m !! a)).

(** The [n] low bytes of [v], the least first. *)
Fixpoint le_bytes (n : nat) (v : Z) : list Z :=
  match n with O => [] | S n => v mod 256 :: le_bytes n (v / 256) end.

Fixpoint le_value (bs : list Z) : Z :=
  match bs with [] => 0 | b :: bs => b + 256 * le_value bs end.

Fixpoint store_list (a : Z) (bs : list Z) (m : bytes) : bytes :=
  match bs with [] => m | b :: bs => store_list (a + 1) bs (store8 a b m) end.

Fixpoint load_list (n : nat) (m : bytes) (a : Z) : list Z :=
  match n with O => [] | S n => load8 m a :: load_list n m (a + 1) end.

Definition store64 (a v : Z) (m : bytes) : bytes := store_list a (le_bytes 8 v) m.
Definition load64 (m : bytes) (a : Z) : Z := le_value (load_list 8 m a).

(** ** The routines *)

(** [while (size && (d & 7)) { *d++ = 0; size--; }] *)
Definition zero_head (st : Z * Z * bytes) : res (Z * Z * bytes + Z * Z * bytes) :=
  let '(d, size, m) := st in
  if decide (size ≠ 0 /\ Z.land d 7 ≠ 0) then Ok (inl (d + 1, size - 1, store8 d 0 m))
  else Ok (inr (d, size, m)).

(** Eight words at a time. *)
Definition zero_block (st : Z * Z * bytes) : res (Z * Z * bytes + Z * Z * bytes) :=
  let '(d, size, m) := st in
  if decide (64 <= size) then
    Ok (inl (d + 64, size - 64,
             foldl (fun m i => store64 (d + 8 * i) 0 m) m [0; 1; 2; 3; 4; 5; 6; 7]))
  else Ok (inr (d, size, m)).

Definition zero_word (st : Z * Z * bytes) : res (Z * Z * bytes + Z * Z * bytes) :=
  let '(d, size, m) := st in
  if decide (8 <= size) then Ok (inl (d + 8, size - 8, store64 d 0 m))
  else Ok (inr (d, size, m)).

Definition zero_tail (st : Z * Z * bytes) : res (Z * Z * bytes + Z * Z * bytes) :=
  let '(d, size, m) := st in
  if decide (0 < size) then Ok (inl (d + 1, size - 1, store8 d 0 m))
  else Ok (inr (d, size, m)).

Definition slab_zero_fast (dest size : Z) (m : bytes) : res bytes :=
  if decide (dest = 0 \/ size = 0) then Ok m
  else
    let fuel := S (Z.to_nat size) in
    st ← loop fuel zero_head (dest, size, m);
    st ← loop fuel zero_block st;
    st ← loop fuel zero_word st;
    '(_, _, m) ← loop fuel zero_tail st;
    Ok m.

(** [*d++ = *s++; size--;] *)
Definition copy_byte (d s size : Z) (m : bytes) : Z * Z * Z * bytes :=
  (d + 1, s + 1, size - 1, store8 d (load8 m s) m).

Definition copy_word (d s : Z) (m : bytes) : bytes := store64 d (load64 m s) m.

Definition copy_head (st : Z * Z * Z * bytes)
  : res (Z * Z * Z * bytes + Z * Z * Z * bytes) :=
  let '(d, s, size, m) := st in
  if decide (size ≠ 0 /\ Z.land d 7 ≠ 0) then Ok (inl (copy_byte d s size m))
  else Ok (inr st).

(** [d64[i] = s64[i]] for the first [n] words. *)
Fixpoint copy_words (n : nat) (d s : Z) (m : bytes) : bytes :=
  match n with O => m | S n => copy_words n (d + 8) (s + 8) (copy_word d s m) end.

Definition copy_block (st : Z * Z * Z * bytes)
  : res (Z * Z * Z * bytes + Z * Z * Z * bytes) :=
  let '(d, s, size, m) := st in
  if decide (64 <= size) then
    Ok (inl (d + 64, s + 64, size - 64, copy_words 8 d s m))
  else Ok (inr st).

Definition copy_word_step (st : Z * Z * Z * bytes)
  : res (Z * Z * Z * bytes + Z * Z * Z * bytes) :=
  let '(d, s, size, m) := st in
  if decide (8 <= size) then Ok (inl (d + 8, s + 8, size - 8, copy_word d s m))
  else Ok (inr st).

Definition copy_tail (st : Z * Z * Z * bytes)
  : res (Z * Z * Z * bytes + Z * Z * Z * bytes) :=
  let '(d, s, size, m) := st in
  if decide (0 < size) then Ok (inl (copy_byte d s size m)) else Ok (inr st).

Definition slab_copy_fast (dest src size : Z) (m : bytes) : res bytes :=
  if decide (dest = 0 \/ src = 0 \/ size = 0) then Ok m
  else
    let fuel := S (Z.to_nat size) in
    st ← loop fuel copy_head (dest, src, size, m);
    st ← (let '(d, s, _, _) := st in
          if decide (Z.land s 7 = 0) then
            st ← loop fuel copy_block st; loop fuel copy_word_step st
          else Ok st);
    '(_, _, _, m) ← loop fuel copy_tail st;
    Ok m.

(** ** Lemmas on memory *)

Lemma store_list_lookup bs : forall a m x,
  store_list a bs m !! x =
  if decide (a <= x < a + Z.of_nat (length bs)) then bs !! Z.to_nat (x - a) else m !! x.
Proof.
  induction bs as [|b bs IH]; intros a m x; cbn [store_list length].
  { rewrite decide_False by lia; done. }
  rewrite IH; unfold store8; destruct (decide (a + 1 <= x < a + 1 + Z.of_nat (length bs))).
  - rewrite decide_True by lia; replace (Z.to_nat (x - a)) with (S (Z.to_nat (x - (a + 1)))) by lia.
    done.
  - destruct (decide (x = a)) as [->|].
    + rewrite lookup_insert_eq, decide_True, Z.sub_diag by lia; done.
    + rewrite lookup_insert_ne, decide_False by lia; done.
Qed.

Lemma store_list_app bs1 bs2 a m :
  store_list a (bs1 ++ bs2) m = store_list (a + Z.of_nat (length bs1)) bs2 (store_list a bs1 m).
Proof.
  revert a m; induction bs1 as [|b bs1 IH]; intros a m; cbn [app store_list length].
  { by rewrite Z.add_0_r. }
  rewrite IH; f_equal; lia.
Qed.

Lemma load_list_lookup n : forall m a i,
  load_list n m a !! i = if decide (i < n)%nat then Some (load8 m (a + Z.of_nat i)) else None.
Proof.
  induction n as [|n IH]; intros m a i; cbn [load_list]; [by rewrite decide_False by lia|].
  destruct i as [|i]; cbn [lookup list_lookup]; [by rewrite Z.add_0_r|].
  rewrite IH; destruct (decide (i < n)%nat).
  - rewrite decide_True by lia; do 2 f_equal; lia.
  - by rewrite decide_False by lia.
Qed.

Lemma load_list_length n m a : length (load_list n m a) = n.
Proof. revert a; induction n as [|n IH]; intros a; cbn; [done|by rewrite IH]. Qed.

Lemma load_list_slice n k N m a : (k + n <= N)%nat ->
  take n (drop k (load_list N m a)) = load_list n m (a + Z.of_nat k).
Proof.
  intros Hk; apply list_eq; intros i; rewrite load_list_lookup; case_decide as Hi.
  - rewrite lookup_take_lt, lookup_drop, load_list_lookup, decide_True by lia; do 2 f_equal; lia.
  - apply lookup_take_ge; lia.
Qed.

Lemma load8_range m a : 0 <= load8 m a < 256.
Proof. unfold load8, u8; apply Z.mod_pos_bound; lia. Qed.

Lemma load_list_range n m a : Forall (fun b => 0 <= b < 256) (load_list n m a).
Proof. revert a; induction n as [|n IH]; intros a; constructor; [apply load8_range|apply IH]. Qed.

(** Bytes in range are read as they were written. *)
Lemma load_list_ok m a bs :
  Forall (fun b => 0 <= b < 256) bs -> (forall i b, bs !! i = Some b -> m !! (a + Z.of_nat i) = Some b) ->
  load_list (length bs) m a = bs.
Proof.
  intros Hr Hm; apply list_eq; intros i; rewrite load_list_lookup; case_decide as Hi.
  - destruct (lookup_lt_is_Some_2 bs i Hi) as [b Hb]; rewrite Hb; f_equal; unfold load8.
    rewrite (Hm i b Hb); cbn [default]; apply Z.mod_small; by eapply Forall_lookup_1 in Hr.
  - symmetry; apply lookup_ge_None; lia.
Qed.

Lemma le_bytes_length n v : length (le_bytes n v) = n.
Proof. revert v; induction n; intros; simpl; auto. Qed.

Lemma le_value_bytes n : forall v, 0 <= v < 256 ^ Z.of_nat n -> le_value (le_bytes n v) = v.
Proof.
  induction n as [|n IH]; intros v Hv; cbn [le_bytes le_value].
  { change (256 ^ Z.of_nat 0) with 1 in Hv; lia. }
  rewrite Nat2Z.inj_succ, Z.pow_succ_r in Hv by lia.
  rewrite IH; [pose proof (Z.div_mod v 256); lia|].
  split; [apply Z.div_pos; lia|]; apply Z.div_lt_upper_bound; lia.
Qed.

Lemma le_bytes_value bs :
  Forall (fun b => 0 <= b < 256) bs -> le_bytes (length bs) (le_value bs) = bs.
Proof.
  induction 1 as [|b bs Hb _ IH]; [done|]; cbn [length le_bytes le_value].
  replace (b + 256 * le_value bs) with (b + le_value bs * 256) by lia.
  rewrite Z.mod_add, Z.mod_small, Z.div_add, Z.div_small, Z.add_0_l, IH by lia; done.
Qed.

Lemma le_bytes_range n v : Forall (fun b => 0 <= b < 256) (le_bytes n v).
Proof. revert v; induction n as [|n IH]; intros v; constructor; [apply Z.mod_pos_bound; lia|apply IH]. Qed.

Lemma load64_store64 a v m : 0 <= v < 2 ^ 64 -> load64 (store64 a v m) a = v.
Proof.
  intros Hv; unfold load64, store64.
  rewrite <- (le_bytes_length 8 v) at 1; rewrite (load_list_ok _ _ (le_bytes 8 v)).
  - rewrite le_value_bytes; [done|exact Hv].
  - apply le_bytes_range.
  - intros i b Hb; rewrite store_list_lookup, le_bytes_length.
    apply lookup_lt_Some in Hb as Hi; rewrite le_bytes_length in Hi.
    rewrite decide_True by lia; rewrite <- Hb; f_equal; lia.
Qed.

Lemma store64_lookup_ne a v m x : ~ a <= x < a + 8 -> store64 a v m !! x = m !! x.
Proof.
  intros Hx; unfold store64; rewrite store_list_lookup, le_bytes_length, decide_False by lia.
  done.
Qed.

(** A word survives changes to other addresses. *)
Lemma load_list_ext n : forall m m' a,
  (forall x, a <= x < a + Z.of_nat n -> m' !! x = m !! x) -> load_list n m' a = load_list n m a.
Proof.
  induction n as [|n IH]; intros m m' a H; [done|]; cbn [load_list]; unfold load8.
  rewrite (H a), (IH m m' (a + 1)) by first [lia|intros; apply H; lia]; done.
Qed.

Lemma load64_ext m m' a :
  (forall x, a <= x < a + 8 -> m' !! x = m !! x) -> load64 m' a = load64 m a.
Proof. intros H; unfold load64; by rewrite (load_list_ext 8 m m'). Qed.

Lemma store64_zero a m : store64 a 0 m = store_list a (replicate 8 0) m.
Proof. done. Qed.

Lemma store64_block d m :
  foldl (fun m i => store64 (d + 8 * i) 0 m) m [0; 1; 2; 3; 4; 5; 6; 7] =
  store_list d (replicate 64 0) m.
Proof.
  cbn [foldl]; rewrite !store64_zero.
  change 64%nat with (8 + (8 + (8 + (8 + (8 + (8 + (8 + 8))))))) %nat.
  rewrite !replicate_add, !store_list_app, !length_replicate.
  repeat (f_equal; try lia).
Qed.

Lemma store64_le_value a bs m :
  length bs = 8%nat -> Forall (fun b => 0 <= b < 256) bs ->
  store64 a (le_value bs) m = store_list a bs m.
Proof. intros Hl Hb; unfold store64; rewrite <- Hl, le_bytes_value by done; done. Qed.

(** ** Zeroing *)

Section zeroing.
Context (D : Z) (N : Z) (M : bytes) (HN : 0 <= N).

(** The first [N - size] bytes are zero. *)
Definition zeroed (st : Z * Z * bytes) : Prop :=
  let '(d, size, m) := st in
  0 <= size <= N /\ d = D + (N - size) /\
  m = store_list D (replicate (Z.to_nat (N - size)) 0) M.

Lemma zeroed_step d size m n :
  0 <= n <= size -> zeroed (d, size, m) ->
  zeroed (d + n, size - n, store_list d (replicate (Z.to_nat n) 0) m).
Proof using HN.
  intros Hn (H1 & -> & ->); repeat split; [lia..|].
  replace (Z.to_nat (N - (size - n))) with (Z.to_nat (N - size) + Z.to_nat n)%nat by lia.
  rewrite replicate_add, store_list_app, length_replicate; f_equal; lia.
Qed.

Lemma zero_head_ok st :
  zeroed st -> exists st', loop (S (Z.to_nat N)) zero_head st = Ok st' /\ zeroed st'.
Proof using HN.
  intros H; apply (loop_total _ zeroed zeroed (fun st => Z.to_nat st.1.2));
    [|done|destruct st as [[??]?], H; simpl; lia].
  intros [[d size] m] Hz; cbn [zero_head]; destruct (decide _) as [[]|]; [|done].
  destruct Hz as (?&?&?) eqn:E.
  split; [apply (zeroed_step d size m 1); [lia|done]|simpl; lia].
Qed.

Lemma zero_block_ok st :
  zeroed st -> exists st', loop (S (Z.to_nat N)) zero_block st = Ok st' /\ zeroed st'.
Proof using HN.
  intros H; apply (loop_total _ zeroed zeroed (fun st => Z.to_nat st.1.2));
    [|done|destruct st as [[??]?], H; simpl; lia].
  intros [[d size] m] Hz; cbn [zero_block]; destruct (decide _); [|done].
  split; [|simpl; lia].
  rewrite store64_block; apply (zeroed_step d size m 64); [lia|done].
Qed.

Lemma zero_word_ok st :
  zeroed st -> exists st', loop (S (Z.to_nat N)) zero_word st = Ok st' /\ zeroed st'.
Proof using HN.
  intros H; apply (loop_total _ zeroed zeroed (fun st => Z.to_nat st.1.2));
    [|done|destruct st as [[??]?], H; simpl; lia].
  intros [[d size] m] Hz; cbn [zero_word]; destruct (decide _); [|done].
  split; [apply (zeroed_step d size m 8); [lia|done]|simpl; lia].
Qed.

Lemma zero_tail_ok st :
  zeroed st ->
  exists st', loop (S (Z.to_nat N)) zero_tail st = Ok st' /\ zeroed st' /\ st'.1.2 = 0.
Proof using HN.
  intros H; apply (loop_total _ zeroed (fun st => zeroed st /\ st.1.2 = 0)
    (fun st => Z.to_nat st.1.2)); [|done|destruct st as [[??]?], H; simpl; lia].
  intros [[d size] m] Hz; cbn [zero_tail]; destruct (decide _).
  - split; [apply (zeroed_step d size m 1); [lia|done]|simpl; lia].
  - split; [done|]; destruct Hz; simpl; lia.
Qed.

End zeroing.

(** The routine writes [size] zero bytes, whatever the alignment. *)
Lemma slab_zero_fast_ok dest size m :
  dest ≠ 0 -> 0 <= size ->
  slab_zero_fast dest size m = Ok (store_list dest (replicate (Z.to_nat size) 0) m).
Proof.
  intros Hd Hs; unfold slab_zero_fast; destruct (decide _) as [[?| ->]|]; [done|done|].
  destruct (zero_head_ok dest size m Hs (dest, size, m)) as (st1 & -> & H1).
  { repeat split; [lia..|]; by rewrite Z.sub_diag. }
  mstep; destruct (zero_block_ok dest size m Hs st1 H1) as (st2 & -> & H2).
  mstep; destruct (zero_word_ok dest size m Hs st2 H2) as (st3 & -> & H3).
  mstep; destruct (zero_tail_ok dest size m Hs st3 H3) as ([[d k] m'] & -> & H4 & Hk).
  mstep; simpl in Hk; subst k; destruct H4 as (_ & _ & ->); by rewrite Z.sub_0_r.
Qed.

(** ** Copying *)

Section copying.
Context (D S0 : Z) (N : nat) (M : bytes).
Context (Hdir : D <= S0 \/ S0 + Z.of_nat N <= D).
Local Notation bs := (load_list N M S0).

(** All but the last [size] bytes are copied. *)
Definition copied (st : Z * Z * Z * bytes) : Prop :=
  let '(d, s, size, m) := st in
  exists k, (k <= N)%nat /\ size = Z.of_nat (N - k) /\
    d = D + Z.of_nat k /\ s = S0 + Z.of_nat k /\ m = store_list D (take k bs) M.

(** What is still to be copied has not been overwritten. *)
Lemma copied_read k n :
  (k + n <= N)%nat ->
  load_list n (store_list D (take k bs) M) (S0 + Z.of_nat k) = take n (drop k bs).
Proof using Hdir.
  intros Hk; rewrite load_list_slice by done; apply load_list_ext; intros x Hx.
  rewrite store_list_lookup, length_take, load_list_length, decide_False by lia; done.
Qed.

Lemma copied_write k n :
  (k + n <= N)%nat ->
  store_list (D + Z.of_nat k) (take n (drop k bs)) (store_list D (take k bs) M)
  = store_list D (take (k + n) bs) M.
Proof using.
  intros Hk; rewrite <- (take_take_drop bs k n), store_list_app, length_take, load_list_length.
  f_equal; lia.
Qed.

Lemma copy_byte_ok d s size m :
  0 < size -> copied (d, s, size, m) -> copied (copy_byte d s size m).
Proof using Hdir.
  intros Hs (k & Hk & -> & -> & -> & ->); unfold copy_byte.
  exists (k + 1)%nat; split_and!; [lia..|].
  rewrite <- copied_write, <- copied_read by lia; done.
Qed.

Lemma copy_word_ok d s size m :
  8 <= size -> copied (d, s, size, m) -> copied (d + 8, s + 8, size - 8, copy_word d s m).
Proof using Hdir.
  intros Hs (k & Hk & -> & -> & -> & ->); unfold copy_word, load64.
  exists (k + 8)%nat; split_and!; [lia..|].
  rewrite copied_read, store64_le_value, copied_write; [done|lia|..|lia].
  - rewrite length_take, length_drop, load_list_length; lia.
  - apply Forall_take, Forall_drop, load_list_range.
Qed.

Lemma copy_words_ok n : forall d s size m,
  8 * Z.of_nat n <= size -> copied (d, s, size, m) ->
  copied (d + 8 * Z.of_nat n, s + 8 * Z.of_nat n, size - 8 * Z.of_nat n, copy_words n d s m).
Proof using Hdir.
  induction n as [|n IH]; intros d s size m Hs Hc; cbn [copy_words].
  { by rewrite !Z.add_0_r, Z.sub_0_r. }
  pose proof (IH (d + 8) (s + 8) (size - 8) _ ltac:(lia) (copy_word_ok d s size m ltac:(lia) Hc)) as H2.
  replace (8 * Z.of_nat (S n)) with (8 + 8 * Z.of_nat n) by lia.
  by rewrite !Z.add_assoc, Z.sub_add_distr.
Qed.

(** The four loops share the invariant and the measure [size]. *)
Lemma copy_bytes_ok body (Q : Z -> Prop) :
  (forall d s size m, copied (d, s, size, m) ->
     match body (d, s, size, m) with
     | Ok (inl st') => copied st' /\ st'.1.2 < size
     | Ok (inr st') => copied st' /\ Q st'.1.2
     | _ => False
     end) ->
  forall st, copied st ->
  exists st', loop (S N) body st = Ok st' /\ copied st' /\ Q st'.1.2.
Proof using.
  intros Hb st Hc; apply (loop_total _ copied (fun st => copied st /\ Q st.1.2)
    (fun st => Z.to_nat st.1.2)); [|done|].
  - intros [[[d s] size] m] H; specialize (Hb d s size m H).
    destruct (body _) as [[[[[d' s'] size'] m']|]| |]; try done.
    destruct Hb as [Hc' Hlt]; split; [done|]; simpl in *.
    destruct H as (?&?&?&_), Hc' as (?&?&?&_); lia.
  - destruct st as [[[??]?]?], Hc as (?&?&?&_); simpl; lia.
Qed.

Lemma copy_head_ok st :
  copied st -> exists st', loop (S N) copy_head st = Ok st' /\ copied st' /\ True.
Proof using Hdir.
  apply (copy_bytes_ok _ (fun _ => True)); intros d s size m Hc; cbn [copy_head].
  destruct (decide _) as [[]|]; [|done].
  split; [apply copy_byte_ok; [destruct Hc as (?&?&?&_); lia|done]|simpl; lia].
Qed.

Lemma copy_block_ok st :
  copied st -> exists st', loop (S N) copy_block st = Ok st' /\ copied st' /\ True.
Proof using Hdir.
  apply (copy_bytes_ok _ (fun _ => True)); intros d s size m Hc; cbn [copy_block].
  destruct (decide _); [|done].
  split; [apply (copy_words_ok 8 d s size m); [lia|done]|simpl; lia].
Qed.

Lemma copy_word_step_ok st :
  copied st -> exists st', loop (S N) copy_word_step st = Ok st' /\ copied st' /\ True.
Proof using Hdir.
  apply (copy_bytes_ok _ (fun _ => True)); intros d s size m Hc; cbn [copy_word_step].
  destruct (decide _); [|done].
  split; [by apply copy_word_ok|simpl; lia].
Qed.

Lemma copy_tail_ok st :
  copied st -> exists st', loop (S N) copy_tail st = Ok st' /\ copied st' /\ st'.1.2 <= 0.
Proof using Hdir.
  apply (copy_bytes_ok _ (fun z => z <= 0)); intros d s size m Hc; cbn [copy_tail].
  destruct (decide _); [|split; [done|simpl; lia]].
  split; [by apply copy_byte_ok|simpl; lia].
Qed.

(** The routine copies the source's bytes, for a destination that does not start
    inside the source: byte by byte or word by word makes no difference. *)
Lemma slab_copy_fast_ok :
  D ≠ 0 -> S0 ≠ 0 -> slab_copy_fast D S0 (Z.of_nat N) M = Ok (store_list D bs M).
Proof using Hdir.
  intros HD HS; unfold slab_copy_fast; destruct (decide _) as [[?|[?|?]]|Hn]; [done|done| |].
  { by replace N with 0%nat by lia. }
  rewrite Nat2Z.id.
  destruct (copy_head_ok (D, S0, Z.of_nat N, M)) as (st1 & -> & H1 & _).
  { exists 0%nat; rewrite take_0, !Z.add_0_r, Nat.sub_0_r; split_and!; done || lia. }
  mstep; match goal with |- context [mbind (M:=res) _ ?X] =>
    assert (exists st2, X = Ok st2 /\ copied st2) as (st2 & E2 & H2) end.
  { destruct st1 as [[[d s] size] m]; destruct (decide _); [|by eexists].
    destruct (copy_block_ok _ H1) as (st2 & -> & H2 & _); mstep.
    destruct (copy_word_step_ok _ H2) as (st3 & -> & H3 & _); by exists st3. }
  rewrite E2; mstep.
  destruct (copy_tail_ok _ H2) as ([[[d s] size] m] & -> & (k & Hk & -> & _ & _ & ->) & H3).
  mstep; simpl in H3; by rewrite take_ge by (rewrite load_list_length; lia).
Qed.

End copying.
