(* ===== verification/Slab.v ===== *)
(** * The slab allocator (mem/slab.c, mem/slab.h)

    Caches of equal-sized objects on pages of the page allocator, with per-CPU
    magazines and a depot in front, and [kmalloc]/[kfree] on top of them.

    The page allocator is reached through the interface [PageSource].  A [slab_t],
    a [slab_magazine_t] and a [slab_cache_t] are records in maps keyed by their
    address; the objects themselves are bytes of [k_mem], where the free lists thread
    their links.  A field that the C code leaves uninitialised is 0 in a new record.
    [page->mapping], which in C overlays the free-list links of a page in use by
    nobody, is the map [k_mapping].  Locks and [irq_save] delimit the operations and
    have no other effect here; [cpu] is [smp_this_cpu_id()]. *)

From stdpp Require Import base tactics option list numbers gmap.
From Stdlib Require Import ZArith Lia.
From S2P Require Import Prelude Pmm SlabMem.

Local Open Scope Z_scope.

Definition PAGE_FLAG_KERNEL : Z := Z.shiftl 1 2.
Definition PAGE_FLAG_SLAB : Z := Z.shiftl 1 11.
Definition PAGE_FLAG_KMALLOC_LARGE : Z := Z.shiftl 1 12.

Definition SLAB_FLAG_NONE : Z := 0.
Definition SLAB_FLAG_ZERO : Z := 2.
Definition SLAB_MIN_ALIGN : Z := 16.

Definition SLAB_MAX_MAGAZINE_SIZE : Z := 128.
Definition SLAB_BOOTSTRAP_MAGAZINES : Z := 128.
Definition SLAB_BOOTSTRAP_CACHES : Z := 32.
Definition SLAB_BUFCTL_END : Z := 0xFFFF.
Definition SLAB_MAX_CPUS : nat := 64.

(** The sizes of the structures on x86-64. *)
Definition sizeof_slab : Z := 80.
Definition sizeof_cache : Z := 4288.
Definition sizeof_bootstrap_mag : Z := 1040.

(** ** What the allocator uses *)

(** What the kernel image fixes: the direct map's offset, the addresses of the two
    static arrays, and the constructors and destructors that a cache may name. *)
Class Kernel := {
  hhdm_offset : Z;
  bootstrap_caches : Z;
  bootstrap_magazines : Z;
  call_fn : Z -> Z -> Z -> bytes -> bytes
}.

(** The calls of mem/pmm.h, and the fields of a [page_t] written from here. *)
Class PageSource (St : Type) := {
  ps_alloc : nat -> nat -> Z -> St -> res (option Z * St);
  ps_free : nat -> option Z -> nat -> St -> res St;
  ps_vaddr_to_page : St -> Z -> option Z;
  ps_paddr_to_page : St -> Z -> option Z;
  ps_flags : St -> Z -> res Z;
  ps_set_flags : Z -> Z -> St -> res St;
  ps_order : St -> Z -> res nat;
  ps_set_order : Z -> nat -> St -> res St
}.

#[export] Instance pmm_pages : PageSource pmm := {
  ps_alloc cpu order flags s :=
    '(r, s, _) ← pmm_alloc_order s cpu order flags; Ok (r, s);
  ps_free cpu page order s := pmm_free_order s cpu page order;
  ps_vaddr_to_page := pmm_vaddr_to_page;
  ps_paddr_to_page := pmm_paddr_to_page;
  ps_flags s p := g ← page_at s p; Ok (pg_flags g);
  ps_set_flags p f s := upd_page s p (fun g => set_state (pg_order g) f (pg_refcount g) g);
  ps_order s p := g ← page_at s p; Ok (pg_order g);
  ps_set_order p o s := upd_page s p (fun g => set_state o (pg_flags g) (pg_refcount g) g)
}.

Definition p2v `{Kernel} (phys : Z) : Z := u64 (phys + hhdm_offset).

(** ** Data *)

Record magazine := Mag { m_next : Z; m_count : Z; m_capacity : Z; m_objects : list Z }.

Record slab_t := Slab {
  s_prev : Z;
  s_next : Z;
  s_cache : Z;
  s_memory_base : Z;
  s_inuse_count : Z;
  s_total_count : Z;
  s_color_offset : Z;
  s_is_off_slab : bool;
  s_free_list : Z;
  s_bufctl_head : Z;
  s_bufctl : list Z
}.

(** The fields of a cache that do not change after its creation. *)
Record geometry := Geom {
  c_name : list Z;
  c_obj_size : Z;
  c_align : Z;
  c_flags : Z;
  c_slab_order : nat;
  c_objs_per_slab : Z;
  c_magazine_size : Z;
  c_off_slab : bool;
  c_color_max : Z;
  c_color_align : Z;
  c_ctor : Z;
  c_dtor : Z
}.

Record slab_lists := Lists {
  slabs_partial : Z;
  slabs_full : Z;
  slabs_empty : Z;
  empty_slab_count : Z
}.

Record depot_t := Depot {
  full_magazines : Z;
  empty_magazines : Z;
  full_count : Z;
  empty_count : Z
}.

Record cache_t := Cache {
  c_geom : geometry;
  c_color_next : Z;
  c_lists : slab_lists;
  c_depot : depot_t;
  c_cpus : list (Z * Z)
}.

(** The static variables of slab.c and the memory they point to. *)
Record kmem (St : Type) := Kmem {
  k_pm : St;
  k_mapping : gmap Z Z;
  k_caches : gmap Z cache_t;
  k_slabs : gmap Z slab_t;
  k_mags : gmap Z magazine;
  k_mem : bytes;
  bootstrap_cache_count : Z;
  bootstrap_mag_count : Z;
  magazine_cache : Z;
  slab_meta_cache : Z;
  kmalloc_caches : list Z
}.
Arguments Kmem {St}.
Arguments k_pm {St}.
Arguments k_mapping {St}.
Arguments k_caches {St}.
Arguments k_slabs {St}.
Arguments k_mags {St}.
Arguments k_mem {St}.
Arguments bootstrap_cache_count {St}.
Arguments bootstrap_mag_count {St}.
Arguments magazine_cache {St}.
Arguments slab_meta_cache {St}.
Arguments kmalloc_caches {St}.

(** ** Writing one variable *)

Section writing.
Context {St : Type}.
Implicit Types k : kmem St.

Definition with_pm (s : St) k : kmem St :=
  Kmem s (k_mapping k) (k_caches k) (k_slabs k) (k_mags k) (k_mem k) (bootstrap_cache_count k)
    (bootstrap_mag_count k) (magazine_cache k) (slab_meta_cache k) (kmalloc_caches k).
Definition with_mapping (m : gmap Z Z) k : kmem St :=
  Kmem (k_pm k) m (k_caches k) (k_slabs k) (k_mags k) (k_mem k) (bootstrap_cache_count k)
    (bootstrap_mag_count k) (magazine_cache k) (slab_meta_cache k) (kmalloc_caches k).
Definition with_caches (m : gmap Z cache_t) k : kmem St :=
  Kmem (k_pm k) (k_mapping k) m (k_slabs k) (k_mags k) (k_mem k) (bootstrap_cache_count k)
    (bootstrap_mag_count k) (magazine_cache k) (slab_meta_cache k) (kmalloc_caches k).
Definition with_slabs (m : gmap Z slab_t) k : kmem St :=
  Kmem (k_pm k) (k_mapping k) (k_caches k) m (k_mags k) (k_mem k) (bootstrap_cache_count k)
    (bootstrap_mag_count k) (magazine_cache k) (slab_meta_cache k) (kmalloc_caches k).
Definition with_mags (m : gmap Z magazine) k : kmem St :=
  Kmem (k_pm k) (k_mapping k) (k_caches k) (k_slabs k) m (k_mem k) (bootstrap_cache_count k)
    (bootstrap_mag_count k) (magazine_cache k) (slab_meta_cache k) (kmalloc_caches k).
Definition with_mem (m : bytes) k : kmem St :=
  Kmem (k_pm k) (k_mapping k) (k_caches k) (k_slabs k) (k_mags k) m (bootstrap_cache_count k)
    (bootstrap_mag_count k) (magazine_cache k) (slab_meta_cache k) (kmalloc_caches k).
Definition with_counts (caches mags : Z) k : kmem St :=
  Kmem (k_pm k) (k_mapping k) (k_caches k) (k_slabs k) (k_mags k) (k_mem k) caches
    mags (magazine_cache k) (slab_meta_cache k) (kmalloc_caches k).
Definition with_globals (magazine meta : Z) (kms : list Z) k : kmem St :=
  Kmem (k_pm k) (k_mapping k) (k_caches k) (k_slabs k) (k_mags k) (k_mem k)
    (bootstrap_cache_count k) (bootstrap_mag_count k) magazine meta kms.

(** A read and an update through a pointer. *)
Definition cache_at k (c : Z) : res cache_t := of_opt (k_caches k !! c).
Definition slab_at k (a : Z) : res slab_t := of_opt (k_slabs k !! a).
Definition mag_at k (a : Z) : res magazine := of_opt (k_mags k !! a).

Definition upd_cache (c : Z) (f : cache_t -> cache_t) k : res (kmem St) :=
  x ← cache_at k c; Ok (with_caches (<[c := f x]> (k_caches k)) k).
Definition upd_slab (a : Z) (f : slab_t -> slab_t) k : res (kmem St) :=
  x ← slab_at k a; Ok (with_slabs (<[a := f x]> (k_slabs k)) k).
Definition upd_mag (a : Z) (f : magazine -> magazine) k : res (kmem St) :=
  x ← mag_at k a; Ok (with_mags (<[a := f x]> (k_mags k)) k).

End writing.

Definition set_sprev (p : Z) (s : slab_t) : slab_t :=
  Slab p (s_next s) (s_cache s) (s_memory_base s) (s_inuse_count s) (s_total_count s)
    (s_color_offset s) (s_is_off_slab s) (s_free_list s) (s_bufctl_head s) (s_bufctl s).
Definition set_snext (n : Z) (s : slab_t) : slab_t :=
  Slab (s_prev s) n (s_cache s) (s_memory_base s) (s_inuse_count s) (s_total_count s)
    (s_color_offset s) (s_is_off_slab s) (s_free_list s) (s_bufctl_head s) (s_bufctl s).
Definition set_inuse (n : Z) (s : slab_t) : slab_t :=
  Slab (s_prev s) (s_next s) (s_cache s) (s_memory_base s) n (s_total_count s)
    (s_color_offset s) (s_is_off_slab s) (s_free_list s) (s_bufctl_head s) (s_bufctl s).
Definition set_free_list (f : Z) (s : slab_t) : slab_t :=
  Slab (s_prev s) (s_next s) (s_cache s) (s_memory_base s) (s_inuse_count s) (s_total_count s)
    (s_color_offset s) (s_is_off_slab s) f (s_bufctl_head s) (s_bufctl s).
Definition set_bufctl (h : Z) (b : list Z) (s : slab_t) : slab_t :=
  Slab (s_prev s) (s_next s) (s_cache s) (s_memory_base s) (s_inuse_count s) (s_total_count s)
    (s_color_offset s) (s_is_off_slab s) (s_free_list s) h b.
Definition set_place (c base total color : Z) (s : slab_t) : slab_t :=
  Slab (s_prev s) (s_next s) c base 0 total color
    (s_is_off_slab s) (s_free_list s) (s_bufctl_head s) (s_bufctl s).

Definition set_mnext (n : Z) (m : magazine) : magazine :=
  Mag n (m_count m) (m_capacity m) (m_objects m).
Definition set_mcount (n : Z) (m : magazine) : magazine :=
  Mag (m_next m) n (m_capacity m) (m_objects m).
Definition set_mobjects (n : Z) (l : list Z) (m : magazine) : magazine :=
  Mag (m_next m) n (m_capacity m) l.

Definition set_color_next (n : Z) (c : cache_t) : cache_t :=
  Cache (c_geom c) n (c_lists c) (c_depot c) (c_cpus c).
Definition set_lists (l : slab_lists) (c : cache_t) : cache_t :=
  Cache (c_geom c) (c_color_next c) l (c_depot c) (c_cpus c).
Definition set_depot (d : depot_t) (c : cache_t) : cache_t :=
  Cache (c_geom c) (c_color_next c) (c_lists c) d (c_cpus c).
Definition set_cpu (cpu : nat) (l p : Z) (c : cache_t) : cache_t :=
  Cache (c_geom c) (c_color_next c) (c_lists c) (c_depot c) (<[cpu := (l, p)]> (c_cpus c)).

(** The three lists of a cache, as the [slab_t **] passed to the list functions. *)
Inductive which := Partial | Full | Empty.

Definition lhead (w : which) (l : slab_lists) : Z :=
  match w with Partial => slabs_partial l | Full => slabs_full l | Empty => slabs_empty l end.
Definition set_lhead (w : which) (h : Z) (l : slab_lists) : slab_lists :=
  match w with
  | Partial => Lists h (slabs_full l) (slabs_empty l) (empty_slab_count l)
  | Full => Lists (slabs_partial l) h (slabs_empty l) (empty_slab_count l)
  | Empty => Lists (slabs_partial l) (slabs_full l) h (empty_slab_count l)
  end.
Definition add_empty (d : Z) (l : slab_lists) : slab_lists :=
  Lists (slabs_partial l) (slabs_full l) (slabs_empty l) (u64 (empty_slab_count l + d)).

(** [for (i = 0; i < n; i++)] *)
Fixpoint for_up {S : Type} (n : nat) (i : Z) (f : Z -> S -> res S) (s : S) : res S :=
  match n with O => Ok s | Datatypes.S n => s ← f i s; for_up n (i + 1) f s end.

Definition align_up (val align : Z) : Z :=
  if decide (align <= 1) then val
  else Z.land (u64 (val + align - 1)) (Z.lnot (align - 1)).

Section operations.
Context {St : Type} `{Kernel} `{!PageSource St}.
Implicit Types k : kmem St.

Abbreviation op A := (kmem St -> res (A * kmem St)).

(** ** Magazines and the depot *)

(** A new magazine; its slots are not initialised. *)
Definition mag_init (m capacity : Z) k : kmem St :=
  with_mags (<[m := Mag 0 0 capacity (replicate (Z.to_nat SLAB_MAX_MAGAZINE_SIZE) 0)]> (k_mags k)) k.

(** [cache_alloc] is [slab_cache_alloc]. *)
Definition mag_alloc (cache_alloc : Z -> op Z) (capacity : Z) : op Z := fun k =>
  '(m, k) ← (if decide (magazine_cache k ≠ 0) then cache_alloc (magazine_cache k) k
             else Ok (0, k));
  if decide (m ≠ 0) then Ok (m, mag_init m capacity k)
  else if decide (bootstrap_mag_count k < SLAB_BOOTSTRAP_MAGAZINES) then
    let n := bootstrap_mag_count k in
    let m := bootstrap_magazines + n * sizeof_bootstrap_mag in
    Ok (m, mag_init m capacity (with_counts (bootstrap_cache_count k) (n + 1) k))
  else Ok (0, k).

Definition mag_depot_put_full (c mag : Z) k : res (kmem St) :=
  x ← cache_at k c;
  let d := c_depot x in
  k ← upd_mag mag (set_mnext (full_magazines d)) k;
  upd_cache c (set_depot (Depot mag (empty_magazines d) (u64 (full_count d + 1)) (empty_count d))) k.

Definition mag_depot_get_full (c : Z) : op Z := fun k =>
  x ← cache_at k c;
  let d := c_depot x in
  let mag := full_magazines d in
  if decide (mag ≠ 0) then
    g ← mag_at k mag;
    k ← upd_cache c (set_depot (Depot (m_next g) (empty_magazines d)
                                  (u64 (full_count d - 1)) (empty_count d))) k;
    k ← upd_mag mag (set_mnext 0) k;
    Ok (mag, k)
  else Ok (0, k).

Definition mag_depot_put_empty (c mag : Z) k : res (kmem St) :=
  x ← cache_at k c;
  let d := c_depot x in
  k ← upd_mag mag (set_mnext (empty_magazines d)) k;
  upd_cache c (set_depot (Depot (full_magazines d) mag (full_count d) (u64 (empty_count d + 1)))) k.

Definition mag_depot_get_empty (mag_source : Z -> op Z) (c capacity : Z) : op Z := fun k =>
  x ← cache_at k c;
  let d := c_depot x in
  let mag := empty_magazines d in
  if decide (mag ≠ 0) then
    g ← mag_at k mag;
    k ← upd_cache c (set_depot (Depot (full_magazines d) (m_next g)
                                  (full_count d) (u64 (empty_count d - 1)))) k;
    k ← upd_mag mag (set_mnext 0) k;
    Ok (mag, k)
  else mag_source capacity k.

(** [loaded->count--; obj = loaded->objects[loaded->count];] *)
Definition mag_pop (mag : Z) : op Z := fun k =>
  g ← mag_at k mag;
  let n := u32 (m_count g - 1) in
  obj ← zget (m_objects g) n;
  Ok (obj, with_mags (<[mag := set_mcount n g]> (k_mags k)) k).

(** [mag->objects[mag->count++] = obj;] *)
Definition mag_push (mag obj : Z) k : res (kmem St) :=
  g ← mag_at k mag;
  l ← zset (m_objects g) (m_count g) obj;
  Ok (with_mags (<[mag := set_mobjects (u32 (m_count g + 1)) l g]> (k_mags k)) k).

(** ** The lists of slabs *)

Definition list_add_slab (c : Z) (w : which) (slab : Z) k : res (kmem St) :=
  k ← upd_slab slab (set_sprev 0) k;
  x ← cache_at k c;
  let h := lhead w (c_lists x) in
  k ← upd_slab slab (set_snext h) k;
  k ← (if decide (h ≠ 0) then upd_slab h (set_sprev slab) k else Ok k);
  upd_cache c (fun x => set_lists (set_lhead w slab (c_lists x)) x) k.

Definition list_remove_slab (c : Z) (w : which) (slab : Z) k : res (kmem St) :=
  s ← slab_at k slab;
  x ← cache_at k c;
  k ← (if decide (s_prev s ≠ 0) then upd_slab (s_prev s) (set_snext (s_next s)) k
       else if decide (lhead w (c_lists x) = slab) then
         upd_cache c (fun x => set_lists (set_lhead w (s_next s) (c_lists x)) x) k
       else Ok k);
  s ← slab_at k slab;
  k ← (if decide (s_next s ≠ 0) then upd_slab (s_next s) (set_sprev (s_prev s)) k else Ok k);
  k ← upd_slab slab (set_sprev 0) k;
  upd_slab slab (set_snext 0) k.

(** ** Pages of objects *)

(** A loop over the pages of a block: [f] updates the flags. *)
Definition mark_page (pfn : Z) (f : Z -> Z) (mapping : Z) (i : Z) k : res (kmem St) :=
  match ps_paddr_to_page (k_pm k) (u64 (Z.shiftl (pfn + i) PMM_PAGE_SHIFT)) with
  | None => Ok k
  | Some p =>
      fl ← ps_flags (k_pm k) p;
      s ← ps_set_flags p (f fl) (k_pm k);
      Ok (with_mapping (<[p := mapping]> (k_mapping k)) (with_pm s k))
  end.

(** The header at the end of the page, for objects below 1024 bytes. *)
Definition header_bytes (g : geometry) : Z :=
  align_up (sizeof_slab + (if decide (c_ctor g ≠ 0) then c_objs_per_slab g * 2 else 0)) 16.

(** A header as it is found in fresh memory, with room for [n] entries of [bufctl]. *)
Definition raw_slab (off : bool) (n : Z) : slab_t :=
  Slab 0 0 0 0 0 0 0 off 0 0 (replicate (Z.to_nat n) 0).

(** The entries of [bufctl] that fit a [slab_meta_cache] object. *)
Definition meta_bufctl : Z := 16.

(** One object on the free list. *)
Definition thread_object (slab size i : Z) k : res (kmem St) :=
  s ← slab_at k slab;
  let obj := s_memory_base s + i * size in
  upd_slab slab (set_free_list obj) (with_mem (store64 obj (s_free_list s) (k_mem k)) k).

(** One entry of [bufctl], and the constructor. *)
Definition construct_object (slab : Z) (g : geometry) (i : Z) k : res (kmem St) :=
  s ← slab_at k slab;
  b ← zset (s_bufctl s) i
        (if decide (i + 1 < c_objs_per_slab g) then u16 (i + 1) else SLAB_BUFCTL_END);
  let obj := s_memory_base s + i * c_obj_size g in
  upd_slab slab (set_bufctl (s_bufctl_head s) b)
    (with_mem (call_fn (c_ctor g) obj (c_obj_size g) (k_mem k)) k).

(** [alloc_meta] is [slab_cache_alloc(slab_meta_cache)]. *)
Definition new_header (alloc_meta : op Z) (g : geometry) (page_vaddr : Z) : op Z := fun k =>
  if c_off_slab g then
    '(slab, k) ← (if decide (slab_meta_cache k ≠ 0) then alloc_meta k
                  else if decide (bootstrap_cache_count k < SLAB_BOOTSTRAP_CACHES) then
                    let n := bootstrap_cache_count k in
                    Ok (bootstrap_caches + n * sizeof_cache,
                        with_counts (n + 1) (bootstrap_mag_count k) k)
                  else Ok (0, k));
    if decide (slab = 0) then Ok (0, k)
    else Ok (slab, with_slabs (<[slab := raw_slab true meta_bufctl]> (k_slabs k)) k)
  else
    let slab := page_vaddr + pow2 (c_slab_order g) * PMM_PAGE_SIZE - header_bytes g in
    let room := if decide (c_ctor g ≠ 0) then c_objs_per_slab g else 0 in
    Ok (slab, with_slabs (<[slab := raw_slab false room]> (k_slabs k)) k).

(** The objects of a new slab are free: linked in a list, or constructed and counted
    by [bufctl]. *)
Definition fill_slab (slab : Z) (g : geometry) k : res (kmem St) :=
  if decide (c_ctor g = 0) then
    k ← upd_slab slab (set_free_list 0) k;
    for_up (Z.to_nat (c_objs_per_slab g)) 0 (thread_object slab (c_obj_size g)) k
  else
    k ← upd_slab slab (fun s => set_bufctl 0 (s_bufctl s) s) k;
    for_up (Z.to_nat (c_objs_per_slab g)) 0 (construct_object slab g) k.

(** The slab with header [slab] on the page at [page_vaddr]. *)
Definition place_slab (c slab head_pfn page_vaddr : Z) (g : geometry) k : res (kmem St) :=
  k ← for_up (Z.to_nat (pow2 (c_slab_order g))) 0
        (mark_page head_pfn (fun f => Z.lor f PAGE_FLAG_SLAB) slab) k;
  x ← cache_at k c;
  let color := c_color_next x in
  k ← upd_slab slab (set_place c (page_vaddr + color) (c_objs_per_slab g) color) k;
  k ← (if decide (c_color_align g <= c_color_max g) then
         upd_cache c (set_color_next (u64 (color + c_color_align g) `mod` u64 (c_color_max g + 1))) k
       else Ok k);
  fill_slab slab g k.

Definition slab_create_page (alloc_meta : op Z) (cpu : nat) (c : Z) : op Z := fun k =>
  x ← cache_at k c;
  let g := c_geom x in
  '(r, s) ← ps_alloc cpu (c_slab_order g) PAGE_FLAG_KERNEL (k_pm k);
  let k := with_pm s k in
  match r with
  | None => Ok (0, k)
  | Some head_page =>
      let head_pfn := Z.shiftr (pmm_page_to_paddr head_page) PMM_PAGE_SHIFT in
      let page_vaddr := p2v (Z.shiftl head_pfn PMM_PAGE_SHIFT) in
      '(slab, k) ← new_header alloc_meta g page_vaddr k;
      if decide (slab = 0) then
        s ← ps_free cpu (Some head_page) (c_slab_order g) (k_pm k);
        Ok (0, with_pm s k)
      else
        k ← place_slab c slab head_pfn page_vaddr g k;
        Ok (slab, k)
  end.

(** The destructor of one object. *)
Definition destruct_object (base : Z) (g : geometry) (i : Z) k : res (kmem St) :=
  Ok (with_mem (call_fn (c_dtor g) (base + i * c_obj_size g) (c_obj_size g) (k_mem k)) k).

(** [free_meta] is [slab_cache_free(slab_meta_cache, _)].  The header of a slab that
    lies on its own page goes with the page, after the last read of it. *)
Definition slab_destroy_page (free_meta : Z -> kmem St -> res (kmem St)) (cpu : nat)
    (c slab : Z) k : res (kmem St) :=
  if decide (slab = 0 \/ c = 0) then Ok k
  else
    x ← cache_at k c;
    let g := c_geom x in
    s ← slab_at k slab;
    k ← (if decide (c_dtor g ≠ 0) then
           for_up (Z.to_nat (c_objs_per_slab g)) 0 (destruct_object (s_memory_base s) g) k
         else Ok k);
    k ← match ps_vaddr_to_page (k_pm k) (s_memory_base s) with
        | None => Ok k
        | Some head_page =>
            let head_pfn := Z.shiftr (pmm_page_to_paddr head_page) PMM_PAGE_SHIFT in
            k ← for_up (Z.to_nat (pow2 (c_slab_order g))) 0
                  (mark_page head_pfn (fun f => Z.land f (Z.lnot PAGE_FLAG_SLAB)) 0) k;
            pm ← ps_free cpu (Some head_page) (c_slab_order g) (k_pm k);
            Ok (with_pm pm k)
        end;
    s ← slab_at k slab;
    let k := with_slabs (delete slab (k_slabs k)) k in
    if decide (s_is_off_slab s = true /\ slab_meta_cache k ≠ 0) then free_meta slab k
    else Ok k.

(** ** Allocation *)

(** The slab to allocate from: a partial one, an empty one or a new one. *)
Definition choose_slab (alloc_meta : op Z) (cpu : nat) (c : Z) : op Z := fun k =>
  x ← cache_at k c;
  if decide (slabs_partial (c_lists x) ≠ 0) then Ok (slabs_partial (c_lists x), k)
  else if decide (slabs_empty (c_lists x) ≠ 0) then
    let slab := slabs_empty (c_lists x) in
    k ← list_remove_slab c Empty slab k;
    k ← upd_cache c (fun x => set_lists (add_empty (-1) (c_lists x)) x) k;
    k ← list_add_slab c Partial slab k;
    Ok (slab, k)
  else
    '(slab, k) ← slab_create_page alloc_meta cpu c k;
    if decide (slab = 0) then Ok (0, k)
    else k ← list_add_slab c Partial slab k; Ok (slab, k).

(** One object of a slab, which moves to the full list with its last one. *)
Definition take_object (c slab : Z) : op Z := fun k =>
  x ← cache_at k c;
  s ← slab_at k slab;
  '(obj, k) ←
    (if decide (c_ctor (c_geom x) = 0) then
       let obj := s_free_list s in
       if decide (obj ≠ 0) then
         k ← upd_slab slab (set_free_list (load64 (k_mem k) obj)) k; Ok (obj, k)
       else Ok (0, k)
     else if decide (s_bufctl_head s ≠ SLAB_BUFCTL_END) then
       let idx := s_bufctl_head s in
       next ← zget (s_bufctl s) idx;
       k ← upd_slab slab (set_bufctl next (s_bufctl s)) k;
       Ok (s_memory_base s + idx * c_obj_size (c_geom x), k)
     else Ok (0, k));
  if decide (obj = 0) then Ok (0, k)
  else
    let n := u64 (s_inuse_count s + 1) in
    k ← upd_slab slab (set_inuse n) k;
    k ← (if decide (n = s_total_count s) then
           k ← list_remove_slab c Partial slab k; list_add_slab c Full slab k
         else Ok k);
    Ok (obj, k).

Definition slab_alloc_from_lists (alloc_meta : op Z) (cpu : nat) (c : Z) : op Z := fun k =>
  '(slab, k) ← choose_slab alloc_meta cpu c k;
  if decide (slab = 0) then Ok (0, k) else take_object c slab k.

Definition slab_cpu (cpu : nat) : nat := if decide (SLAB_MAX_CPUS <= cpu)%nat then 0%nat else cpu.

(** [if (cache->flags & SLAB_FLAG_ZERO) slab_zero_fast(obj, cache->obj_size);] *)
Definition zero_object (g : geometry) (obj : Z) k : res (kmem St) :=
  if decide (Z.land (c_flags g) SLAB_FLAG_ZERO ≠ 0) then
    m ← slab_zero_fast obj (c_obj_size g) (k_mem k); Ok (with_mem m k)
  else Ok k.

(** [mag && mag->count > 0] *)
Definition mag_has_object (mag : Z) k : res bool :=
  if decide (mag = 0) then Ok false
  else g ← mag_at k mag; Ok (bool_decide (0 < m_count g)).

(** The common end of the three magazine paths. *)
Definition pop_object (g : geometry) (mag : Z) : op Z := fun k =>
  '(obj, k) ← mag_pop mag k; k ← zero_object g obj k; Ok (obj, k).

Definition slab_cache_alloc_open (alloc_meta : op Z) (cpu : nat) (c : Z) : op Z := fun k =>
  if decide (c = 0) then Ok (0, k)
  else
    let cpu_id := slab_cpu cpu in
    x ← cache_at k c;
    '(loaded, prev) ← of_opt (c_cpus x !! cpu_id);
    has ← mag_has_object loaded k;
    if has : bool then pop_object (c_geom x) loaded k
    else
      has ← mag_has_object prev k;
      if has : bool then
        k ← upd_cache c (set_cpu cpu_id prev loaded) k;
        pop_object (c_geom x) prev k
      else
        '(full, k) ← mag_depot_get_full c k;
        if decide (full ≠ 0) then
          k ← (if decide (loaded ≠ 0) then
                 g ← mag_at k loaded;
                 if decide (m_count g = 0) then mag_depot_put_empty c loaded k else Ok k
               else Ok k);
          k ← upd_cache c (set_cpu cpu_id full prev) k;
          pop_object (c_geom x) full k
        else
          '(obj, k) ← slab_alloc_from_lists alloc_meta cpu c k;
          if decide (obj ≠ 0) then k ← zero_object (c_geom x) obj k; Ok (obj, k)
          else Ok (0, k).

(** The recursion goes through the header of an off-slab slab, which comes from
    [slab_meta_cache]; [depth] bounds it. *)
Fixpoint slab_cache_alloc (depth : nat) (cpu : nat) (c : Z) : op Z := fun k =>
  match depth with
  | O => NoFuel
  | S d => slab_cache_alloc_open (fun k => slab_cache_alloc d cpu (slab_meta_cache k) k) cpu c k
  end.

(** ** Freeing *)

(** [obj] back on its slab; the result is the new [inuse_count] and [was_full]. *)
Definition put_object (c slab obj : Z) : op (Z * bool) := fun k =>
  x ← cache_at k c;
  s ← slab_at k slab;
  let was_full := bool_decide (s_inuse_count s = s_total_count s) in
  k ← (if decide (c_ctor (c_geom x) = 0) then
         upd_slab slab (set_free_list obj) (with_mem (store64 obj (s_free_list s) (k_mem k)) k)
       else
         let idx := u64 (obj - s_memory_base s) `div` c_obj_size (c_geom x) in
         b ← zset (s_bufctl s) idx (s_bufctl_head s);
         upd_slab slab (set_bufctl (u16 idx) b) k);
  let n := u64 (s_inuse_count s - 1) in
  k ← upd_slab slab (set_inuse n) k;
  Ok (n, was_full, k).

(** A slab without objects in use is kept, or destroyed when there are four already. *)
Definition retire_slab (free_meta : Z -> kmem St -> res (kmem St)) (cpu : nat) (c slab : Z) k
  : res (kmem St) :=
  k ← list_remove_slab c Partial slab k;
  x ← cache_at k c;
  if decide (4 <= empty_slab_count (c_lists x)) then slab_destroy_page free_meta cpu c slab k
  else
    k ← list_add_slab c Empty slab k;
    upd_cache c (fun x => set_lists (add_empty 1 (c_lists x)) x) k.

Definition slab_free_to_lists (free_meta : Z -> kmem St -> res (kmem St)) (cpu : nat)
    (c obj : Z) k : res (kmem St) :=
  match ps_vaddr_to_page (k_pm k) obj with
  | None => Ok k
  | Some page =>
      fl ← ps_flags (k_pm k) page;
      if negb (has_flag fl PAGE_FLAG_SLAB) then Ok k
      else
        slab ← of_opt (k_mapping k !! page);
        if decide (slab = 0) then Ok k
        else
          '(n, was_full, k) ← put_object c slab obj k;
          k ← (if was_full : bool then
                 k ← list_remove_slab c Full slab k; list_add_slab c Partial slab k
               else Ok k);
          if decide (n = 0) then retire_slab free_meta cpu c slab k else Ok k
  end.

(** [mag && mag->count < mag->capacity] *)
Definition mag_has_room (mag : Z) k : res bool :=
  if decide (mag = 0) then Ok false
  else g ← mag_at k mag; Ok (bool_decide (m_count g < m_capacity g)).

Definition slab_cache_free_open (mag_source : Z -> op Z)
    (free_meta : Z -> kmem St -> res (kmem St)) (cpu : nat) (c obj : Z) k : res (kmem St) :=
  if decide (c = 0 \/ obj = 0) then Ok k
  else
    let cpu_id := slab_cpu cpu in
    x ← cache_at k c;
    '(loaded, prev) ← of_opt (c_cpus x !! cpu_id);
    room ← mag_has_room loaded k;
    if room : bool then mag_push loaded obj k
    else
      room ← mag_has_room prev k;
      if room : bool then
        k ← upd_cache c (set_cpu cpu_id prev loaded) k;
        mag_push prev obj k
      else if decide (loaded ≠ 0) then
        k ← mag_depot_put_full c loaded k;
        '(mag, k) ← mag_depot_get_empty mag_source c (c_magazine_size (c_geom x)) k;
        x ← cache_at k c;
        '(_, prev) ← of_opt (c_cpus x !! cpu_id);
        k ← upd_cache c (set_cpu cpu_id mag prev) k;
        if decide (mag ≠ 0) then mag_push mag obj k
        else slab_free_to_lists free_meta cpu c obj k
      else slab_free_to_lists free_meta cpu c obj k.

Fixpoint slab_cache_free (depth : nat) (cpu : nat) (c obj : Z) k : res (kmem St) :=
  match depth with
  | O => NoFuel
  | S d =>
      slab_cache_free_open (mag_alloc (slab_cache_alloc d cpu))
        (fun slab k => slab_cache_free d cpu (slab_meta_cache k) slab k) cpu c obj k
  end.

Definition mag_free (depth cpu : nat) (mag : Z) k : res (kmem St) :=
  if decide (mag = 0) then Ok k
  else if decide (bootstrap_magazines <= mag <
                  bootstrap_magazines + SLAB_BOOTSTRAP_MAGAZINES * sizeof_bootstrap_mag) then Ok k
  else if decide (magazine_cache k ≠ 0) then slab_cache_free depth cpu (magazine_cache k) mag k
  else Ok k.

(** ** Reclaiming *)

(** One object of a magazine of the depot. *)
Definition reap_object (depth cpu : nat) (c mag i : Z) k : res (kmem St) :=
  g ← mag_at k mag;
  obj ← zget (m_objects g) i;
  slab_free_to_lists (fun slab k => slab_cache_free depth cpu (slab_meta_cache k) slab k)
    cpu c obj k.

(** The body of [while (mag)]. *)
Definition reap_magazine (depth cpu : nat) (c : Z) (st : Z * kmem St)
  : res (Z * kmem St + kmem St) :=
  let '(mag, k) := st in
  if decide (mag = 0) then Ok (inr k)
  else
    g ← mag_at k mag;
    k ← for_up (Z.to_nat (m_count g)) 0 (reap_object depth cpu c mag) k;
    k ← upd_mag mag (set_mcount 0) k;
    k ← mag_depot_put_empty c mag k;
    '(mag, k) ← mag_depot_get_full c k;
    Ok (inl (mag, k)).

(** The body of [while (cache->slabs_empty)]. *)
Definition reap_slab (depth cpu : nat) (c : Z) (st : Z * kmem St)
  : res (Z * kmem St + Z * kmem St) :=
  let '(reaped, k) := st in
  x ← cache_at k c;
  let s := slabs_empty (c_lists x) in
  if decide (s = 0) then Ok (inr (reaped, k))
  else
    k ← list_remove_slab c Empty s k;
    k ← upd_cache c (fun x => set_lists (add_empty (-1) (c_lists x)) x) k;
    k ← slab_destroy_page (fun slab k => slab_cache_free depth cpu (slab_meta_cache k) slab k)
          cpu c s k;
    Ok (inl (u64 (reaped + pow2 (c_slab_order (c_geom x))), k)).

(** A magazine leaves the depot's list of full ones in every round of the first loop
    and a slab the list of empty ones in every round of the second. *)
Definition slab_cache_reap (depth cpu : nat) (c : Z) : op Z := fun k =>
  if decide (c = 0) then Ok (0, k)
  else
    '(mag, k) ← mag_depot_get_full c k;
    k ← loop (S (S (size (k_mags k)))) (reap_magazine depth cpu c) (mag, k);
    loop (S (size (k_slabs k))) (reap_slab depth cpu c) (0, k).

Definition slab_cache_destroy (depth cpu : nat) (c : Z) k : res (kmem St) :=
  if decide (c = 0) then Ok k else '(_, k) ← slab_cache_reap depth cpu c k; Ok k.

(** ** kmalloc *)

Definition kmalloc_sizes : list Z := [16; 32; 64; 128; 192; 256; 512; 1024; 2048].

(** The first size class that is large enough. *)
Fixpoint size_class (sizes : list Z) (size : Z) : option nat :=
  match sizes with
  | [] => None
  | sz :: sizes => if decide (size <= sz) then Some 0%nat else S <$> size_class sizes size
  end.

(** One page of a large block. *)
Definition mark_large (pfn : Z) (order : nat) (i : Z) k : res (kmem St) :=
  match ps_paddr_to_page (k_pm k) (u64 (Z.shiftl (pfn + i) PMM_PAGE_SHIFT)) with
  | None => Ok k
  | Some p =>
      fl ← ps_flags (k_pm k) p;
      s ← ps_set_flags p (Z.lor fl PAGE_FLAG_KMALLOC_LARGE) (k_pm k);
      s ← ps_set_order p order s;
      Ok (with_pm s k)
  end.

Definition kmalloc_large (cpu : nat) (size : Z) : op Z := fun k =>
  let page_count := u64 (size + PMM_PAGE_SIZE - 1) `div` PMM_PAGE_SIZE in
  let order := pages_to_order page_count in
  if decide (PMM_MAX_ORDER <= order)%nat then Ok (0, k)
  else
    '(r, s) ← ps_alloc cpu order PAGE_FLAG_KERNEL (k_pm k);
    let k := with_pm s k in
    match r with
    | None => Ok (0, k)
    | Some page =>
        let head_pfn := Z.shiftr (pmm_page_to_paddr page) PMM_PAGE_SHIFT in
        k ← for_up (Z.to_nat (pow2 order)) 0 (mark_large head_pfn order) k;
        Ok (p2v (Z.shiftl head_pfn PMM_PAGE_SHIFT), k)
    end.

(** An [alignment] below [SLAB_MIN_ALIGN] is raised to it, which decides nothing: it is
    only compared with 64. *)
Definition kmalloc_aligned (depth cpu : nat) (size alignment : Z) : op Z := fun k =>
  if decide (size = 0) then Ok (0, k)
  else
    let alignment := if decide (alignment < SLAB_MIN_ALIGN) then SLAB_MIN_ALIGN else alignment in
    match (if decide (size <= 2048 /\ alignment <= 64) then size_class kmalloc_sizes size
           else None) with
    | Some i => c ← of_opt (kmalloc_caches k !! i); slab_cache_alloc depth cpu c k
    | None => kmalloc_large cpu size k
    end.

Definition kmalloc (depth cpu : nat) (size : Z) : op Z :=
  kmalloc_aligned depth cpu size SLAB_MIN_ALIGN.

Definition kzalloc (depth cpu : nat) (size : Z) : op Z := fun k =>
  '(ptr, k) ← kmalloc depth cpu size k;
  if decide (ptr ≠ 0) then m ← slab_zero_fast ptr size (k_mem k); Ok (ptr, with_mem m k)
  else Ok (0, k).

Definition SIZE_MAX : Z := 2 ^ 64 - 1.

Definition kcalloc (depth cpu : nat) (n size : Z) : op Z := fun k =>
  if decide (n ≠ 0 /\ SIZE_MAX `div` n < size) then Ok (0, k)
  else kzalloc depth cpu (u64 (n * size)) k.

(** One page of a large block that is freed. *)
Definition unmark_large (pfn i : Z) k : res (kmem St) :=
  match ps_paddr_to_page (k_pm k) (u64 (Z.shiftl (pfn + i) PMM_PAGE_SHIFT)) with
  | None => Ok k
  | Some p =>
      fl ← ps_flags (k_pm k) p;
      s ← ps_set_flags p (Z.land fl (Z.lnot PAGE_FLAG_KMALLOC_LARGE)) (k_pm k);
      Ok (with_pm s k)
  end.

(** [slab_t *slab = page->mapping; if (slab && slab->cache) ...] *)
Definition page_cache k (page : Z) : res Z :=
  slab ← of_opt (k_mapping k !! page);
  if decide (slab = 0) then Ok 0 else s ← slab_at k slab; Ok (s_cache s).

Definition kfree (depth cpu : nat) (ptr : Z) k : res (kmem St) :=
  if decide (ptr = 0) then Ok k
  else
    match ps_vaddr_to_page (k_pm k) ptr with
    | None => Ok k
    | Some page =>
        fl ← ps_flags (k_pm k) page;
        if has_flag fl PAGE_FLAG_KMALLOC_LARGE then
          let head_pfn := Z.shiftr (pmm_page_to_paddr page) PMM_PAGE_SHIFT in
          order ← ps_order (k_pm k) page;
          k ← for_up (Z.to_nat (pow2 order)) 0 (unmark_large head_pfn) k;
          s ← ps_free cpu (Some page) order (k_pm k);
          Ok (with_pm s k)
        else if has_flag fl PAGE_FLAG_SLAB then
          c ← page_cache k page;
          if decide (c ≠ 0) then slab_cache_free depth cpu c ptr k else Ok k
        else Ok k
    end.

(** The bytes behind a pointer, as [krealloc] finds them out. *)
Definition old_size_of (page : Z) k : res Z :=
  fl ← ps_flags (k_pm k) page;
  if has_flag fl PAGE_FLAG_KMALLOC_LARGE then
    order ← ps_order (k_pm k) page; Ok (pow2 order * PMM_PAGE_SIZE)
  else if has_flag fl PAGE_FLAG_SLAB then
    c ← page_cache k page;
    if decide (c ≠ 0) then x ← cache_at k c; Ok (c_obj_size (c_geom x)) else Ok 0
  else Ok 0.

Definition krealloc (depth cpu : nat) (ptr new_size : Z) : op Z := fun k =>
  if decide (ptr = 0) then kmalloc depth cpu new_size k
  else if decide (new_size = 0) then k ← kfree depth cpu ptr k; Ok (0, k)
  else
    match ps_vaddr_to_page (k_pm k) ptr with
    | None => Ok (0, k)
    | Some page =>
        old_size ← old_size_of page k;
        if decide (new_size <= old_size <= u64 (new_size * 2)) then Ok (ptr, k)
        else
          '(new_ptr, k) ← kmalloc depth cpu new_size k;
          if decide (new_ptr = 0) then Ok (0, k)
          else
            let copy_size := Z.min old_size new_size in
            m ← (if decide (0 < copy_size) then slab_copy_fast new_ptr ptr copy_size (k_mem k)
                 else Ok (k_mem k));
            k ← kfree depth cpu ptr (with_mem m k);
            Ok (new_ptr, k)
    end.

Definition mm_is_heap_address (ptr : Z) k : bool :=
  if decide (ptr = 0) then false
  else match ps_vaddr_to_page (k_pm k) ptr with Some _ => true | None => false end.

(** ** Creating caches *)

(** The layout of a cache: how many objects share a page with the header, and how far
    the first one may be shifted. *)
Definition slab_layout (name : list Z) (aligned_size align flags ctor dtor : Z) : geometry :=
  let magazine_size := if decide (aligned_size <= 64) then 64
                       else if decide (aligned_size <= 512) then 32 else 8 in
  if decide (1024 <= aligned_size) then
    Geom (take 31 name) aligned_size align flags 0 (PMM_PAGE_SIZE `div` aligned_size)
      magazine_size true (PMM_PAGE_SIZE `mod` aligned_size) 64 ctor dtor
  else
    let approx_objs := PMM_PAGE_SIZE `div` aligned_size in
    let hdr_bytes := align_up (sizeof_slab + (if decide (ctor ≠ 0) then approx_objs * 2 else 0)) 16 in
    let slack := PMM_PAGE_SIZE - hdr_bytes in
    let color_max := slack `mod` aligned_size in
    Geom (take 31 name) aligned_size align flags 0 ((slack - color_max) `div` aligned_size)
      magazine_size false color_max 64 ctor dtor.

Definition slab_geometry (name : list Z) (obj_size align flags ctor dtor : Z) : geometry :=
  let align := if decide (align < SLAB_MIN_ALIGN) then SLAB_MIN_ALIGN else align in
  let aligned_size := align_up obj_size align in
  let aligned_size := if decide (aligned_size < 8) then 8 else aligned_size in
  slab_layout name aligned_size align flags ctor dtor.

(** The two magazines of one CPU. *)
Definition give_magazines (mag_source : Z -> op Z) (c i : Z) k : res (kmem St) :=
  x ← cache_at k c;
  '(loaded, k) ← mag_source (c_magazine_size (c_geom x)) k;
  k ← upd_cache c (fun x => set_cpu (Z.to_nat i) loaded ((c_cpus x !!! Z.to_nat i).2) x) k;
  '(previous, k) ← mag_source (c_magazine_size (c_geom x)) k;
  upd_cache c (fun x => set_cpu (Z.to_nat i) ((c_cpus x !!! Z.to_nat i).1) previous x) k.

Definition unnamed : list Z := [117; 110; 110; 97; 109; 101; 100].

(** [name] is [None] for a NULL pointer. *)
Definition slab_cache_create_with_ctor (depth cpu : nat) (name : option (list Z))
    (obj_size align flags ctor dtor : Z) : op Z := fun k =>
  if decide (obj_size = 0) then Ok (0, k)
  else
    '(c, k) ← (if decide (bootstrap_cache_count k < SLAB_BOOTSTRAP_CACHES) then
                 let n := bootstrap_cache_count k in
                 Ok (bootstrap_caches + n * sizeof_cache,
                     with_counts (n + 1) (bootstrap_mag_count k) k)
               else kmalloc depth cpu sizeof_cache k);
    if decide (c = 0) then Ok (0, k)
    else
      let g := slab_geometry (default unnamed name) obj_size align flags ctor dtor in
      let x := Cache g 0 (Lists 0 0 0 0) (Depot 0 0 0 0) (replicate SLAB_MAX_CPUS (0, 0)) in
      let k := with_caches (<[c := x]> (k_caches k)) k in
      k ← for_up SLAB_MAX_CPUS 0 (give_magazines (mag_alloc (slab_cache_alloc depth cpu)) c) k;
      Ok (c, k).

Definition slab_cache_create (depth cpu : nat) (name : option (list Z))
    (obj_size align flags : Z) : op Z :=
  slab_cache_create_with_ctor depth cpu name obj_size align flags 0 0.

(** The name of a size class: [kmalloc-] and the decimal digits. *)
Definition kmalloc_name (sz : Z) : list Z :=
  [107; 109; 97; 108; 108; 111; 99; 45] ++
  (if decide (1000 <= sz) then
     [48 + sz `div` 1000; 48 + (sz `mod` 1000) `div` 100; 48 + (sz `mod` 100) `div` 10; 48 + sz `mod` 10]
   else if decide (100 <= sz) then
     [48 + sz `div` 100; 48 + (sz `mod` 100) `div` 10; 48 + sz `mod` 10]
   else [48 + sz `div` 10; 48 + sz `mod` 10]).

Definition init_class (depth cpu : nat) (i : Z) k : res (kmem St) :=
  sz ← zget kmalloc_sizes i;
  '(c, k) ← slab_cache_create depth cpu (Some (kmalloc_name sz)) sz 16 SLAB_FLAG_NONE k;
  Ok (with_globals (magazine_cache k) (slab_meta_cache k)
        (<[Z.to_nat i := c]> (kmalloc_caches k)) k).

Definition SLAB_NAME_MAGAZINE : list Z := [115; 108; 97; 98; 95; 109; 97; 103; 97; 122; 105; 110; 101].
Definition SLAB_NAME_METADATA : list Z := [115; 108; 97; 98; 95; 109; 101; 116; 97; 100; 97; 116; 97].

Definition slab_init (depth cpu : nat) k : res (kmem St) :=
  '(mc, k) ← slab_cache_create depth cpu (Some SLAB_NAME_MAGAZINE) sizeof_bootstrap_mag 16 SLAB_FLAG_NONE k;
  let k := with_globals mc (slab_meta_cache k) (kmalloc_caches k) k in
  '(mt, k) ← slab_cache_create depth cpu (Some SLAB_NAME_METADATA) (sizeof_slab + 16 * 2) 16 SLAB_FLAG_NONE k;
  let k := with_globals (magazine_cache k) mt (kmalloc_caches k) k in
  for_up (length kmalloc_sizes) 0 (init_class depth cpu) k.

(** The static variables before [slab_init]. *)
Definition slab_static (s : St) : kmem St :=
  Kmem s ∅ ∅ ∅ ∅ ∅ 0 0 0 0 (replicate (length kmalloc_sizes) 0).

End operations.
