(* ===== verification/SlabGeom.v ===== *)
(** * Slab allocator: the layout of a slab

    For every object size up to a page and every power-of-two alignment the objects,
    the largest colour offset and the header share a page without overlap. *)

From stdpp Require Import base tactics option list numbers gmap.
From Stdlib Require Import ZArith Lia.
From S2P Require Import Prelude Pmm SlabMem Slab.

Local Open Scope Z_scope.

(** [align_up] to a power of two gives the least multiple at or above the value. *)
Lemma align_up_pow2 val n :
  0 <= val -> 0 <= n -> val + 2 ^ n - 1 < 2 ^ 64 ->
  align_up val (2 ^ n) = (val + 2 ^ n - 1) / 2 ^ n * 2 ^ n.
Proof.
  intros Hv Hn Hm; unfold align_up; assert (0 < 2 ^ n) by (apply Z.pow_pos_nonneg; lia).
  destruct (decide (2 ^ n <= 1)).
  - assert (2 ^ n = 1) as -> by lia; rewrite Z.div_1_r; lia.
  - rewrite u64_small by lia.
    replace (2 ^ n - 1) with (Z.ones n) by (rewrite Z.ones_equiv; lia).
    replace (val + 2 ^ n - 1) with (val + Z.ones n) by (rewrite Z.ones_equiv; lia).
    rewrite <- Z.ldiff_land, Z.ldiff_ones_r, Z.shiftl_mul_pow2, Z.shiftr_div_pow2 by lia; done.
Qed.

Lemma align_up_bounds val n :
  0 <= val -> 0 <= n -> val + 2 ^ n - 1 < 2 ^ 64 ->
  val <= align_up val (2 ^ n) < val + 2 ^ n /\ (2 ^ n | align_up val (2 ^ n)).
Proof.
  intros Hv Hn Hm; rewrite align_up_pow2 by done.
  assert (0 < 2 ^ n) by (apply Z.pow_pos_nonneg; lia).
  pose proof (Z.div_mod (val + 2 ^ n - 1) (2 ^ n) ltac:(lia)) as H1.
  pose proof (Z.mod_pos_bound (val + 2 ^ n - 1) (2 ^ n) ltac:(lia)) as H2.
  split; [lia|apply Z.divide_factor_r].
Qed.

(** The layout a cache needs: at least one object; the largest colour, the objects and,
    below 1024 bytes, the header fit the page. *)
Record geom_ok (g : geometry) : Prop := {
  go_size : 8 <= c_obj_size g;
  go_order : c_slab_order g = 0%nat;
  go_objs : 1 <= c_objs_per_slab g <= 512;
  go_mag : 2 <= c_magazine_size g <= SLAB_MAX_MAGAZINE_SIZE;
  go_color : 0 <= c_color_max g;
  go_color_align : c_color_align g = 64;
  go_fits : c_color_max g + c_objs_per_slab g * c_obj_size g +
            (if c_off_slab g then 0 else header_bytes g) <= PMM_PAGE_SIZE;
  go_header : sizeof_slab <= header_bytes g
}.

#[export] Instance geom_ok_dec g : Decision (geom_ok g).
Proof.
  refine (cast_if (decide (8 <= c_obj_size g /\ c_slab_order g = 0%nat /\
    1 <= c_objs_per_slab g <= 512 /\ 2 <= c_magazine_size g <= SLAB_MAX_MAGAZINE_SIZE /\
    0 <= c_color_max g /\ c_color_align g = 64 /\
    c_color_max g + c_objs_per_slab g * c_obj_size g +
      (if c_off_slab g then 0 else header_bytes g) <= PMM_PAGE_SIZE /\
    sizeof_slab <= header_bytes g)));
    abstract (first [naive_solver (split; done)|intros []; naive_solver]).
Defined.

Lemma hdr_align v : 0 <= v <= 8192 -> v <= align_up v 16 < v + 16.
Proof.
  intros Hv; change 16 with (2 ^ 4); pose proof (align_up_bounds v 4) as H; lia.
Qed.

Lemma align_up_mono a b : 0 <= a <= b -> b <= 8192 -> align_up a 16 <= align_up b 16.
Proof.
  intros Ha Hb; change 16 with (2 ^ 4); rewrite !align_up_pow2 by lia.
  apply Z.mul_le_mono_nonneg_r; [lia|]; apply Z.div_le_mono; lia.
Qed.

(** The layout of a cache whose objects share the page with the header. *)
Lemma small_layout size ctor :
  16 <= size < 1024 ->
  let hdr := align_up (sizeof_slab + (if decide (ctor ≠ 0) then PMM_PAGE_SIZE / size * 2 else 0)) 16 in
  let slack := PMM_PAGE_SIZE - hdr in
  let objs := (slack - slack mod size) / size in
  1 <= objs <= PMM_PAGE_SIZE / size /\ slack mod size + objs * size = slack /\
  hdr <= 608 /\ 0 <= slack mod size.
Proof.
  intros Hs hdr slack objs; unfold PMM_PAGE_SIZE, sizeof_slab in *.
  assert (Hd : 4 <= 4096 / size <= 256).
  { split; [apply Z.div_le_lower_bound; lia|apply Z.div_le_upper_bound; lia]. }
  assert (Hh : 80 <= hdr <= 608).
  { unfold hdr; destruct (decide _); [pose proof (hdr_align (80 + 4096 / size * 2) ltac:(lia))|
      pose proof (hdr_align (80 + 0) ltac:(lia))]; lia. }
  pose proof (Z.mod_pos_bound slack size ltac:(lia)) as Hm; pose proof (Z.div_mod slack size ltac:(lia)) as Hq.
  assert (Ho : objs = slack / size).
  { unfold objs; replace (slack - slack mod size) with (slack / size * size) by lia.
    apply Z.div_mul; lia. }
  rewrite Ho; split_and!; [| |lia|lia|lia].
  - apply Z.div_le_lower_bound; lia.
  - apply Z.div_le_mono; lia.
Qed.

Lemma mag_size_ok size :
  2 <= (if decide (size <= 64) then 64 else if decide (size <= 512) then 32 else 8)
    <= SLAB_MAX_MAGAZINE_SIZE.
Proof. unfold SLAB_MAX_MAGAZINE_SIZE; repeat case_decide; lia. Qed.

Lemma raised_align align n :
  align = 2 ^ n -> 0 <= n <= 12 ->
  let al := if decide (align < SLAB_MIN_ALIGN) then SLAB_MIN_ALIGN else align in
  exists m, al = 2 ^ m /\ 4 <= m <= 12 /\ al = Z.max align SLAB_MIN_ALIGN.
Proof.
  intros Ha Hn; unfold SLAB_MIN_ALIGN; destruct (decide _) as [Hlt|Hge]; cbv zeta.
  - exists 4; lia.
  - exists n; split_and!; try lia; destruct (decide (n < 4)) as [H4|]; [|lia].
    assert (2 ^ n < 2 ^ 4) by (apply Z.pow_lt_mono_r; lia); lia.
Qed.

(** The objects of 16 to 4096 bytes. *)
Lemma slab_layout_ok name size align flags ctor dtor :
  16 <= size <= PMM_PAGE_SIZE ->
  geom_ok (slab_layout name size align flags ctor dtor) /\
  c_obj_size (slab_layout name size align flags ctor dtor) = size.
Proof.
  intros Hs; unfold slab_layout; pose proof (mag_size_ok size) as Hmag.
  destruct (decide (1024 <= size)) as [Hbig|Hsmall]; unfold PMM_PAGE_SIZE in *.
  - assert (1 <= 4096 / size <= 4).
    { split; [apply Z.div_le_lower_bound; lia|apply Z.div_le_upper_bound; lia]. }
    pose proof (Z.div_mod 4096 size ltac:(lia)); pose proof (Z.mod_pos_bound 4096 size ltac:(lia)).
    split; [|done]; split; cbn [c_obj_size c_slab_order c_objs_per_slab c_magazine_size c_color_max
      c_color_align c_off_slab]; unfold PMM_PAGE_SIZE; try lia; try done.
    unfold header_bytes; cbn [c_ctor c_objs_per_slab]; unfold sizeof_slab, PMM_PAGE_SIZE.
    destruct (decide (ctor ≠ 0)); [pose proof (hdr_align (80 + 4096 / size * 2) ltac:(lia))|
      pose proof (hdr_align (80 + 0) ltac:(lia))]; lia.

  - pose proof (small_layout size ctor ltac:(lia)) as Hl; cbv zeta in *; unfold PMM_PAGE_SIZE in *.
    set (hdr := align_up _ 16) in *; destruct Hl as ([Hl1 Hl1'] & Hl2 & Hl3 & Hl4).
    set (objs := (_ - _) / size) in *.
    assert (Hd : 4096 / size <= 256) by (apply Z.div_le_upper_bound; lia).
    assert (Hhd : sizeof_slab <= align_up (sizeof_slab + (if decide (ctor ≠ 0) then objs * 2 else 0)) 16 <= hdr).
    { unfold hdr, sizeof_slab in *; destruct (decide (ctor ≠ 0)).
      - split; [pose proof (hdr_align (80 + objs * 2) ltac:(lia)); lia|]; apply align_up_mono; lia.
      - pose proof (hdr_align (80 + 0) ltac:(lia)); lia. }
    split; [|done]; split; cbn [c_obj_size c_slab_order c_objs_per_slab c_magazine_size c_color_max
      c_color_align c_off_slab]; try lia; try done;
      unfold header_bytes; cbn [c_ctor c_objs_per_slab]; unfold PMM_PAGE_SIZE; lia.
Qed.

(** For every object size up to a page and every power-of-two alignment. *)
Lemma slab_geometry_ok name size align flags ctor dtor n :
  0 < size <= PMM_PAGE_SIZE -> align = 2 ^ n -> 0 <= n <= 12 ->
  let g := slab_geometry name size align flags ctor dtor in
  geom_ok g /\ size <= c_obj_size g < size + Z.max align SLAB_MIN_ALIGN /\
  (Z.max align SLAB_MIN_ALIGN | c_obj_size g).
Proof.
  intros Hs Ha Hn; destruct (raised_align align n Ha Hn) as (m & Em & Hm & Emax).
  unfold slab_geometry; cbv zeta in *.
  set (al := if decide (align < SLAB_MIN_ALIGN) then SLAB_MIN_ALIGN else align) in *.
  assert (Hp : 2 ^ 4 <= 2 ^ m <= 2 ^ 12) by (split; apply Z.pow_le_mono_r; lia).
  unfold PMM_PAGE_SIZE in Hs.
  destruct (align_up_bounds size m) as [Hb Hdiv]; [lia..|]; rewrite <- Em in Hb, Hdiv.
  assert (H16 : 16 <= align_up size al <= 4096).
  { destruct Hdiv as [q Hq].
    assert (H12 : 2 ^ 12 = 2 ^ (12 - m) * 2 ^ m)
      by (rewrite <- Z.pow_add_r by lia; f_equal; lia).
    change (2 ^ 12) with 4096 in H12; rewrite Em in *.
    split; [destruct (decide (q <= 0)); nia|destruct (decide (2 ^ (12 - m) < q)); nia]. }
  rewrite decide_False by lia.
  destruct (slab_layout_ok name (align_up size al) al flags ctor dtor) as [Hok ->];
    [unfold PMM_PAGE_SIZE; lia|]; rewrite <- Emax; split_and!; done || lia.
Qed.
