(* ===== verification/SlabInv.v ===== *)
(** * Slab allocator: the invariant

    What the page allocator promises ([PageLaws]), the ghost state of a cache (the
    slabs on its three lists with their free objects, the magazines of the depot, the
    objects in use), the invariant of one cache and of all of them together. *)

From stdpp Require Import base tactics option list numbers gmap.
From Stdlib Require Import ZArith Lia.
From S2P Require Import Prelude Pmm PmmInv SlabMem Slab SlabGeom.

Local Open Scope Z_scope.

(** ** The page allocator's contract *)

Definition page_addr `{Kernel} (p : Z) : Z := p * PMM_PAGE_SIZE + hhdm_offset.

(** [a] is a byte of the page frame [p]. *)
Definition in_page `{Kernel} (p a : Z) : Prop := page_addr p <= a < page_addr p + PMM_PAGE_SIZE.

Definition boot_cache `{Kernel} (n : Z) : Z := bootstrap_caches + n * sizeof_cache.
Definition boot_mag `{Kernel} (n : Z) : Z := bootstrap_magazines + n * sizeof_bootstrap_mag.

(** An address of the image that no page of the allocator contains. *)
Definition in_image `{Kernel} (a : Z) : Prop :=
  (exists n, 0 <= n < SLAB_BOOTSTRAP_CACHES /\ a = boot_cache n) \/
  (exists n, 0 <= n < SLAB_BOOTSTRAP_MAGAZINES /\ a = boot_mag n).

(** [ps_ok s H]: the allocator is consistent and its callers hold the blocks [H], each
    with one reference. *)
Class PageLaws (St : Type) `{Kernel} `{!PageSource St} := {
  ps_ok : St -> gmap Z nat -> Prop;
  ps_boot : 0 < bootstrap_caches /\ 0 < bootstrap_magazines;
  ps_place s H p o q : ps_ok s H -> H !! p = Some o -> in_block p o q ->
    0 <= q /\ (q + 1) * PMM_PAGE_SIZE <= 2 ^ 64 /\
    0 < page_addr q /\ page_addr q + PMM_PAGE_SIZE <= 2 ^ 64;
  ps_apart s H p o p' o' q : ps_ok s H -> H !! p = Some o -> H !! p' = Some o' ->
    in_block p o q -> in_block p' o' q -> p = p';
  ps_image s H p o q a : ps_ok s H -> H !! p = Some o -> in_block p o q ->
    in_image a -> ~ in_page q a;
  ps_paddr s H p o q : ps_ok s H -> H !! p = Some o -> in_block p o q ->
    ps_paddr_to_page s (q * PMM_PAGE_SIZE) = Some q;
  ps_vaddr s H p o q a : ps_ok s H -> H !! p = Some o -> in_block p o q ->
    in_page q a -> ps_vaddr_to_page s a = Some q;
  ps_desc s H p o q : ps_ok s H -> H !! p = Some o -> in_block p o q ->
    exists f o', ps_flags s q = Ok f /\ ps_order s q = Ok o' /\ (q = p -> o' = o);
  ps_alloc_ok s H cpu o : ps_ok s H ->
    exists r s', ps_alloc cpu o PAGE_FLAG_KERNEL s = Ok (r, s') /\
      match r with
      | None => s' = s
      | Some p => H !! p = None /\ ps_ok s' (<[p := o]> H) /\
          ps_flags s' p = Ok PAGE_FLAG_KERNEL /\
          (forall q o', H !! q = Some o' ->
             ps_flags s' q = ps_flags s q /\ ps_order s' q = ps_order s q)
      end;
  ps_free_ok s H cpu p o : ps_ok s H -> H !! p = Some o ->
    exists s', ps_free cpu (Some p) o s = Ok s' /\ ps_ok s' (delete p H) /\
      forall q o', q ≠ p -> H !! q = Some o' ->
        ps_flags s' q = ps_flags s q /\ ps_order s' q = ps_order s q;
  ps_set_flags_ok s H p o q f f' : ps_ok s H -> H !! p = Some o -> in_block p o q ->
    ps_flags s q = Ok f -> has_flag f' PAGE_FLAG_FREE = has_flag f PAGE_FLAG_FREE ->
    exists s', ps_set_flags q f' s = Ok s' /\ ps_ok s' H /\ ps_flags s' q = Ok f' /\
      (forall q', q' ≠ q -> ps_flags s' q' = ps_flags s q') /\
      (forall q', ps_order s' q' = ps_order s q');
  ps_set_order_ok s H p o q : ps_ok s H -> H !! p = Some o -> in_block p o q ->
    exists s', ps_set_order q o s = Ok s' /\ ps_ok s' H /\
      (forall q', ps_flags s' q' = ps_flags s q') /\
      (forall q', q' ≠ q -> ps_order s' q' = ps_order s q')
}.

(** ** Ghost state *)

(** A slab: its header, page frame and colour, and its free objects in order. *)
Record gslab := GSlab { gs_hdr : Z; gs_page : Z; gs_color : Z; gs_free : list Z }.

(** A cache.  [g_skip = Some i] while CPU [i] is exchanging its loaded magazine, which
    is then on the depot's list although the CPU still points to it.  [g_float] is a slab
    that the running operation has taken off the lists.  [g_user] are the objects clients
    hold, [g_int] those used as slab headers or magazines. *)
Record gcache := GCache {
  g_list : which -> list gslab;
  g_float : list gslab;
  g_dfull : list Z;
  g_dempty : list Z;
  g_skip : option nat;
  g_user : list Z;
  g_int : list Z
}.

Definition slabs (gc : gcache) : list gslab :=
  g_list gc Partial ++ g_list gc Full ++ g_list gc Empty ++ g_float gc.

Definition hdrs (gc : gcache) : list Z := gs_hdr <$> slabs gc.
Definition gpages (gc : gcache) : list Z := gs_page <$> slabs gc.

(** The first element of a list threaded through 0-terminated links. *)
Definition hd0 (l : list Z) : Z := match l with [] => 0 | a :: _ => a end.

(** ** Links *)

(** [l] is doubly linked, after [prev]. *)
Fixpoint linked (m : gmap Z slab_t) (prev : Z) (l : list Z) : Prop :=
  match l with
  | [] => True
  | a :: l => (exists t, m !! a = Some t /\ s_prev t = prev /\ s_next t = hd0 l) /\ linked m a l
  end.

(** The magazines of a depot list. *)
Fixpoint mchain (m : gmap Z magazine) (h : Z) (l : list Z) : Prop :=
  match l with
  | [] => h = 0
  | a :: l => h = a /\ a ≠ 0 /\ exists t, m !! a = Some t /\ mchain m (m_next t) l
  end.

(** The free objects of a slab, linked through their first word. *)
Fixpoint fchain (m : bytes) (h : Z) (l : list Z) : Prop :=
  match l with
  | [] => h = 0
  | a :: l => h = a /\ a ≠ 0 /\ fchain m (load64 m a) l
  end.

Definition body (t : slab_t) : slab_t := set_snext 0 (set_sprev 0 t).

(** The pointers of the CPUs, without the slot that is being exchanged. *)
Definition cpu_view (skip : option nat) (cpus : list (Z * Z)) : list (Z * Z) :=
  match skip with None => cpus | Some i => alter (fun lp => (0, lp.2)) i cpus end.

Definition nonzero (l : list Z) : list Z := filter (fun a => a ≠ 0) l.
Definition cpu_mags (cpus : list (Z * Z)) : list Z :=
  cpus ≫= fun lp => nonzero [lp.1; lp.2].

Definition mags (x : cache_t) (gc : gcache) : list Z :=
  cpu_mags (cpu_view (g_skip gc) (c_cpus x)) ++ g_dfull gc ++ g_dempty gc.

(** The objects in a magazine. *)
Definition mag_objs (m : gmap Z magazine) (a : Z) : list Z :=
  match m !! a with Some g => take (Z.to_nat (m_count g)) (m_objects g) | None => [] end.

Definition mag_ok (m : gmap Z magazine) (a : Z) : Prop :=
  exists g, m !! a = Some g /\ length (m_objects g) = Z.to_nat SLAB_MAX_MAGAZINE_SIZE /\
    0 <= m_count g <= m_capacity g /\ 2 <= m_capacity g <= SLAB_MAX_MAGAZINE_SIZE.

#[export] Instance which_eq_dec : EqDecision which.
Proof. solve_decision. Defined.

(** Changing one component of the ghost state. *)
Definition set_use (user int : list Z) (gc : gcache) : gcache :=
  GCache (g_list gc) (g_float gc) (g_dfull gc) (g_dempty gc) (g_skip gc) user int.
Definition set_mags (dfull dempty : list Z) (skip : option nat) (gc : gcache) : gcache :=
  GCache (g_list gc) (g_float gc) dfull dempty skip (g_user gc) (g_int gc).
Definition set_slabs (l : which -> list gslab) (float : list gslab) (gc : gcache) : gcache :=
  GCache l float (g_dfull gc) (g_dempty gc) (g_skip gc) (g_user gc) (g_int gc).

Section invariant.
Context {St : Type} `{Kernel} `{!PageSource St} `{!PageLaws St}.
Implicit Types k : kmem St.

(** ** One cache *)

Definition gs_base (s : gslab) : Z := page_addr (gs_page s) + gs_color s.

(** The objects of a slab. *)
Definition gs_objs (g : geometry) (s : gslab) : list Z :=
  (fun i => gs_base s + i * c_obj_size g) <$> seqZ 0 (c_objs_per_slab g).

(** The fields of a header besides its links. *)
Record body_ok (m : bytes) (c : Z) (g : geometry) (s : gslab) (t : slab_t) : Prop := {
  bo_cache : s_cache t = c;
  bo_base : s_memory_base t = gs_base s;
  bo_inuse : s_inuse_count t = c_objs_per_slab g - Z.of_nat (length (gs_free s));
  bo_total : s_total_count t = c_objs_per_slab g;
  bo_off : s_is_off_slab t = c_off_slab g;
  bo_free : fchain m (s_free_list t) (gs_free s)
}.

Record slab_inv k (c : Z) (g : geometry) (s : gslab) : Prop := {
  si_color : 0 <= gs_color s <= c_color_max g;
  si_free o : o ∈ gs_free s -> o ∈ gs_objs g s;
  si_body : exists t, k_slabs k !! gs_hdr s = Some t /\ body_ok (k_mem k) c g s t;
  si_mapping : k_mapping k !! gs_page s = Some (gs_hdr s);
  si_flags : exists f, ps_flags (k_pm k) (gs_page s) = Ok f /\
    has_flag f PAGE_FLAG_SLAB = true /\ has_flag f PAGE_FLAG_KMALLOC_LARGE = false;
  si_hdr : gs_hdr s ≠ 0;
  si_on : c_off_slab g = false ->
    gs_hdr s = page_addr (gs_page s) + PMM_PAGE_SIZE - header_bytes g
}.

(** A partial slab has free objects and objects in use, a full one no free object, an
    empty one no object in use. *)
Definition shape_ok (g : geometry) (w : which) (s : gslab) : Prop :=
  match w with
  | Partial => 0 < Z.of_nat (length (gs_free s)) < c_objs_per_slab g
  | Full => gs_free s = []
  | Empty => Z.of_nat (length (gs_free s)) = c_objs_per_slab g
  end.

(** The objects of a cache: free, in a magazine, or in use. *)
Definition where_objs k (x : cache_t) (gc : gcache) : list Z :=
  (slabs gc ≫= gs_free) ++ (mags x gc ≫= mag_objs (k_mags k)) ++ g_user gc ++ g_int gc.

Definition plain (g : geometry) : Prop := geom_ok g /\ c_ctor g = 0 /\ c_dtor g = 0.

(** The magazines of a cache: those of the depot's first list hold objects, those of its
    second list none. *)
Record mags_ok (m : gmap Z magazine) (x : cache_t) (gc : gcache) : Prop := {
  mo_nodup : NoDup (mags x gc);
  mo_mag : Forall (fun a => a ≠ 0 /\ mag_ok m a) (mags x gc);
  mo_full : mchain m (full_magazines (c_depot x)) (g_dfull gc);
  mo_empty : mchain m (empty_magazines (c_depot x)) (g_dempty gc);
  mo_full_objs : Forall (fun a => mag_objs m a ≠ []) (g_dfull gc);
  mo_empty_objs : Forall (fun a => mag_objs m a = []) (g_dempty gc)
}.

(** What holds at every step of an operation. *)
Record cache_core k (c : Z) (x : cache_t) (gc : gcache) : Prop := {
  ci_cache : k_caches k !! c = Some x;
  ci_nonnull : c ≠ 0;
  ci_geom : plain (c_geom x);
  ci_color : 0 <= c_color_next x <= c_color_max (c_geom x);
  ci_head w : lhead w (c_lists x) = hd0 (gs_hdr <$> g_list gc w);
  ci_links w : linked (k_slabs k) 0 (gs_hdr <$> g_list gc w);
  ci_slabs : Forall (slab_inv k c (c_geom x)) (slabs gc);
  ci_hdrs : NoDup (hdrs gc);
  ci_pages : NoDup (gpages gc);
  ci_cpus : length (c_cpus x) = SLAB_MAX_CPUS;
  ci_mags : mags_ok (k_mags k) x gc;
  ci_objs : where_objs k x gc ≡ₚ slabs gc ≫= gs_objs (c_geom x)
}.

(** Between operations no slab is off the lists, and at most four are empty. *)
Record at_rest (x : cache_t) (gc : gcache) : Prop := {
  ar_float : g_float gc = [];
  ar_shape w : Forall (shape_ok (c_geom x) w) (g_list gc w);
  ar_empty : empty_slab_count (c_lists x) = Z.of_nat (length (g_list gc Empty));
  ar_four : (length (g_list gc Empty) <= 4)%nat
}.

Definition cache_inv k (c : Z) (x : cache_t) (gc : gcache) : Prop :=
  cache_core k c x gc /\ at_rest x gc.

(** ** All caches

    [G] is the ghost state of every cache, [L] the large blocks that clients hold, [H]
    all blocks taken from the page allocator. *)

(** A magazine is one of the bootstrap array or an object of [magazine_cache]. *)
Definition mag_origin k (G : gmap Z gcache) (a : Z) : Prop :=
  (exists n, 0 <= n < bootstrap_mag_count k /\ a = boot_mag n) \/
  (exists gm, G !! magazine_cache k = Some gm /\ a ∈ g_int gm).

(** An off-slab header of [c] is an object of [slab_meta_cache], or one of the bootstrap
    array: before that cache exists, and for the slabs [magazine_cache] got by then. *)
Definition hdr_origin k (G : gmap Z gcache) (c a : Z) : Prop :=
  ((exists n, 0 <= n < bootstrap_cache_count k /\ a = boot_cache n) /\
   (c = magazine_cache k \/ slab_meta_cache k = 0)) \/
  (exists gm, G !! slab_meta_cache k = Some gm /\ a ∈ g_int gm).

(** A cache's descriptor is one of the bootstrap array or fills a large block. *)
Definition cache_origin k (L : gmap Z nat) (c : Z) : Prop :=
  (exists n, 0 <= n < bootstrap_cache_count k /\ c = boot_cache n) \/
  (exists p o, L !! p = Some o /\ c = page_addr p).

(** What keeps two caches apart. *)
Record apart (x x' : cache_t) (gc gc' : gcache) : Prop := {
  ap_hdrs a : a ∈ hdrs gc -> a ∉ hdrs gc';
  ap_pages p : p ∈ gpages gc -> p ∉ gpages gc';
  ap_mags a : a ∈ mags x gc -> a ∉ mags x' gc'
}.

Record heap_inv k (G : gmap Z gcache) (L H : gmap Z nat) : Prop := {
  hi_pages : ps_ok (k_pm k) H;
  hi_cache c gc : G !! c = Some gc -> exists x, cache_inv k c x gc;
  hi_held c gc p : G !! c = Some gc -> p ∈ gpages gc -> H !! p = Some 0%nat;
  hi_apart c c' gc gc' x x' : c ≠ c' -> G !! c = Some gc -> G !! c' = Some gc' ->
    k_caches k !! c = Some x -> k_caches k !! c' = Some x' -> apart x x' gc gc';
  hi_mag_origin c gc x a : G !! c = Some gc -> k_caches k !! c = Some x -> a ∈ mags x gc ->
    mag_origin k G a;
  hi_hdr_origin c gc x s : G !! c = Some gc -> k_caches k !! c = Some x -> s ∈ slabs gc ->
    c_off_slab (c_geom x) = true -> hdr_origin k G c (gs_hdr s);
  hi_large p o : L !! p = Some o -> H !! p = Some o /\
    exists f, ps_flags (k_pm k) p = Ok f /\ has_flag f PAGE_FLAG_KMALLOC_LARGE = true;
  hi_counts : 0 <= bootstrap_cache_count k <= SLAB_BOOTSTRAP_CACHES /\
              0 <= bootstrap_mag_count k <= SLAB_BOOTSTRAP_MAGAZINES;
  hi_meta gm x : G !! slab_meta_cache k = Some gm -> k_caches k !! slab_meta_cache k = Some x ->
    c_off_slab (c_geom x) = false /\ sizeof_slab <= c_obj_size (c_geom x);
  hi_distinct : magazine_cache k ≠ 0 -> slab_meta_cache k ≠ magazine_cache k;
  hi_globals c : c = magazine_cache k \/ c = slab_meta_cache k -> c = 0 \/ is_Some (G !! c);
  hi_origin c gc : G !! c = Some gc -> cache_origin k L c
}.

End invariant.
