(* ===== verification/SlabLists.v ===== *)
(** * Slab allocator: lists of slabs, of magazines and of free objects *)

From stdpp Require Import base tactics option list numbers gmap.
From Stdlib Require Import ZArith Lia.
From S2P Require Import Prelude Pmm PmmInv SlabMem Slab SlabGeom SlabInv.

Local Open Scope Z_scope.

(** ** Doubly linked lists of slabs *)

Lemma slab_linked_ext m m' p l :
  (forall a, a ∈ l -> m' !! a = m !! a) -> linked m p l -> linked m' p l.
Proof.
  revert p; induction l as [|a l IH]; intros p Hm; [done|].
  intros [(t & Ht & Hp & Hn) Hl]; split.
  - exists t; rewrite Hm by constructor; done.
  - apply IH; [|done]; intros b Hb; apply Hm; by constructor.
Qed.

(** A change of links within [l] only: bodies stay, and so do the other headers. *)
Definition relinked (l : list Z) (m m' : gmap Z slab_t) : Prop :=
  (forall b, b ∉ l -> m' !! b = m !! b) /\ (forall b, body <$> m' !! b = body <$> m !! b).

Lemma relinked_insert m a t t' l :
  m !! a = Some t -> body t' = body t -> a ∈ l -> relinked l m (<[a := t']> m).
Proof.
  intros Ha Hb Hl; split; intros b.
  - intros Hn; rewrite lookup_insert_ne; [done|]; by intros ->.
  - destruct (decide (b = a)) as [->|]; [rewrite lookup_insert_eq, Ha; simpl; by f_equal|].
    by rewrite lookup_insert_ne.
Qed.

Lemma relinked_trans l m1 m2 m3 : relinked l m1 m2 -> relinked l m2 m3 -> relinked l m1 m3.
Proof.
  intros [A1 A2] [B1 B2]; split; intros b; [intros Hb; by rewrite B1, A1|by rewrite B2, A2].
Qed.

Lemma relinked_refl l m : relinked l m m.
Proof. done. Qed.

Lemma relinked_mono l l' m m' : l ⊆ l' -> relinked l m m' -> relinked l' m m'.
Proof. intros Hl [A B]; split; [|done]; intros b Hb; apply A; set_solver. Qed.

Lemma relinked_lookup l m m' a t : relinked l m m' -> m !! a = Some t ->
  exists t', m' !! a = Some t' /\ body t' = body t.
Proof.
  intros [_ Hb] Ha; specialize (Hb a); rewrite Ha in Hb.
  destruct (m' !! a) as [t'|]; [|done]; exists t'; split; [done|]; by apply (inj Some) in Hb.
Qed.

Lemma linked_relinked l m m' p l' :
  relinked l m m' -> (forall a, a ∈ l' -> a ∉ l) -> linked m p l' -> linked m' p l'.
Proof. intros [H _] Hd; apply slab_linked_ext; intros a Ha; apply H; auto. Qed.

Lemma linked_lookup m p l a : linked m p l -> a ∈ l -> is_Some (m !! a).
Proof.
  revert p; induction l as [|b l IH]; intros p; [by intros _ ?%elem_of_nil|].
  intros [(t & Ht & _) Hl] [->|Ha]%elem_of_cons; [by exists t|by eapply IH].
Qed.

(** The first header gets a new predecessor. *)
Lemma slab_linked_reprev m p q b l t :
  linked m p (b :: l) -> NoDup (b :: l) -> m !! b = Some t ->
  linked (<[b := set_sprev q t]> m) q (b :: l).
Proof.
  intros [(t' & Ht & _ & Hn) Hl] Hnd Hb; assert (t' = t) as -> by congruence.
  apply NoDup_cons in Hnd as [Hb' _]; split.
  - exists (set_sprev q t); by rewrite lookup_insert_eq.
  - apply (slab_linked_ext m); [|done]; intros a Ha; rewrite lookup_insert_ne; [done|by intros ->].
Qed.

(** The element before what follows [l], a list that comes after [p]. *)
Fixpoint last_or (p : Z) (l : list Z) : Z :=
  match l with [] => p | a :: l => last_or a l end.

Lemma slab_linked_app m p l1 l2 : linked m p (l1 ++ l2) -> linked m (last_or p l1) l2.
Proof. revert p; induction l1 as [|a l1 IH]; intros p; [done|]; intros [_ Hl]; by apply IH. Qed.

(** An element of the list gets a new successor. *)
Lemma slab_linked_renext m m' p l1 b l2 l2' t :
  linked m p (l1 ++ b :: l2) -> m !! b = Some t -> (forall a, a ∈ l1 -> m' !! a = m !! a) ->
  m' !! b = Some (set_snext (hd0 l2') t) -> linked m' b l2' -> linked m' p (l1 ++ b :: l2').
Proof.
  intros Hl Hb Hm Hb' Hl2; revert p Hl Hm; induction l1 as [|a l1 IH]; intros p; cbn [app linked].
  - intros [(t' & Ht & Hp & _) _] _; assert (t' = t) as -> by congruence; split; [|done].
    by exists (set_snext (hd0 l2') t).
  - intros [(t' & Ht & Hp & Hn) Hl] Hm; split.
    + exists t'; rewrite Hm by constructor; split_and!; [done|done|]; rewrite Hn; by destruct l1.
    + apply IH; [done|]; intros e He; apply Hm; by constructor.
Qed.

Section lists.
Context {St : Type}.
Implicit Types k : kmem St.

Lemma cache_at_ok k c x : k_caches k !! c = Some x -> cache_at k c = Ok x.
Proof. unfold cache_at; by intros ->. Qed.
Lemma slab_at_ok k a t : k_slabs k !! a = Some t -> slab_at k a = Ok t.
Proof. unfold slab_at; by intros ->. Qed.
Lemma mag_at_ok k a t : k_mags k !! a = Some t -> mag_at k a = Ok t.
Proof. unfold mag_at; by intros ->. Qed.
Lemma upd_cache_ok k c x f : k_caches k !! c = Some x ->
  upd_cache c f k = Ok (with_caches (<[c := f x]> (k_caches k)) k).
Proof. unfold upd_cache, cache_at; by intros ->. Qed.
Lemma upd_slab_ok k a t f : k_slabs k !! a = Some t ->
  upd_slab a f k = Ok (with_slabs (<[a := f t]> (k_slabs k)) k).
Proof. unfold upd_slab, slab_at; by intros ->. Qed.
Lemma upd_mag_ok k a t f : k_mags k !! a = Some t ->
  upd_mag a f k = Ok (with_mags (<[a := f t]> (k_mags k)) k).
Proof. unfold upd_mag, mag_at; by intros ->. Qed.

(** What the two list functions do to the state. *)
Definition list_result k (c : Z) (x : cache_t) (w : which) (h : Z) (m : gmap Z slab_t) : kmem St :=
  with_caches (<[c := set_lists (set_lhead w h (c_lists x)) x]> (k_caches k)) (with_slabs m k).

Lemma list_add_slab_ok k c x w a l t :
  k_caches k !! c = Some x -> lhead w (c_lists x) = hd0 l -> linked (k_slabs k) 0 l ->
  NoDup (a :: l) -> 0 ∉ l -> k_slabs k !! a = Some t ->
  exists m, list_add_slab c w a k = Ok (list_result k c x w a m) /\
    linked m 0 (a :: l) /\ relinked (a :: l) (k_slabs k) m.
Proof.
  intros Hc Hh Hl Hnd H0 Ha; unfold list_add_slab.
  rewrite (upd_slab_ok _ _ _ _ Ha); mstep; rewrite (cache_at_ok _ c x) by done; mstep.
  rewrite (upd_slab_ok _ _ (set_sprev 0 t)) by (cbn [k_slabs with_slabs]; apply lookup_insert_eq).
  cbn [with_slabs k_slabs]; rewrite insert_insert_eq; mstep; rewrite Hh.
  apply NoDup_cons in Hnd as Hnd'; destruct Hnd' as [Hal Hndl].
  set (t' := set_snext (hd0 l) (set_sprev 0 t)).
  assert (Hl' : linked (<[a := t']> (k_slabs k)) 0 l).
  { apply (slab_linked_ext (k_slabs k)); [|done]; intros b Hb; rewrite lookup_insert_ne; [done|by intros ->]. }
  assert (Hr : relinked (a :: l) (k_slabs k) (<[a := t']> (k_slabs k)))
    by (eapply relinked_insert; [done|done|by constructor]).
  destruct l as [|b l]; cbn [hd0].
  - rewrite decide_False by auto; mstep; rewrite (upd_cache_ok _ c x) by done.
    eexists; split; [done|]; split; [|done]; split; [|done].
    exists t'; by rewrite lookup_insert_eq.
  - rewrite decide_True by (intros ->; apply H0; by constructor).
    pose proof Hl as [(tb & Hb & _) _].
    assert (b ≠ a) by (intros ->; apply Hal; by constructor).
    rewrite (upd_slab_ok _ b tb) by (cbn [k_slabs with_slabs]; by rewrite lookup_insert_ne).
    mstep; rewrite (upd_cache_ok _ c x) by done; eexists; split; [done|]; cbn [with_slabs k_slabs].
    split; [split|].
    + exists t'; rewrite lookup_insert_ne, lookup_insert_eq by done; done.
    + eapply slab_linked_reprev; [done|done|by rewrite lookup_insert_ne].
    + eapply relinked_trans; [done|]; eapply relinked_insert; [by rewrite lookup_insert_ne|done|].
      by do 2 constructor.
Qed.

(** The successor of a removed slab gets its predecessor. *)
Lemma relink_next k a t l2 p :
  linked (k_slabs k) a l2 -> NoDup l2 -> 0 ∉ l2 -> s_next t = hd0 l2 -> s_prev t = p ->
  exists m, (if decide (s_next t ≠ 0) then upd_slab (s_next t) (set_sprev (s_prev t)) k else Ok k)
            = Ok (with_slabs m k) /\ linked m p l2 /\ relinked l2 (k_slabs k) m.
Proof.
  intros Hl Hnd H0 Hn Hp; rewrite Hn, Hp; destruct l2 as [|e l2]; cbn [hd0].
  - rewrite decide_False by auto; exists (k_slabs k); by destruct k.
  - rewrite decide_True by (intros ->; apply H0; by constructor).
    pose proof Hl as [(te & He & _) _]; rewrite (upd_slab_ok _ _ _ _ He).
    eexists; split; [done|]; split; [by eapply slab_linked_reprev|].
    eapply relinked_insert; [done|done|by constructor].
Qed.

Lemma lhead_same w x : set_lists (set_lhead w (lhead w (c_lists x)) (c_lists x)) x = x.
Proof. by destruct w, x as [? ? []]. Qed.

(** The second half of [list_remove_slab]. *)
Lemma remove_finish k a t l1 l2 :
  k_slabs k !! a = Some t -> linked (k_slabs k) a l2 -> NoDup (l1 ++ a :: l2) -> 0 ∉ l2 ->
  s_next t = hd0 l2 ->
  (forall m, linked m (s_prev t) l2 -> relinked l2 (k_slabs k) m -> linked m 0 (l1 ++ l2)) ->
  exists m, (s ← slab_at k a;
    k ← (if decide (s_next s ≠ 0) then upd_slab (s_next s) (set_sprev (s_prev s)) k else Ok k);
    k ← upd_slab a (set_sprev 0) k; upd_slab a (set_snext 0) k) = Ok (with_slabs m k) /\
    linked m 0 (l1 ++ l2) /\ relinked (l1 ++ a :: l2) (k_slabs k) m.
Proof.
  intros Ha Hl (_ & Hd & [Ha2 Hnd2]%NoDup_cons)%NoDup_app H0 Hn Hm.
  rewrite (slab_at_ok _ _ _ Ha); mstep.
  destruct (relink_next k a t l2 _ Hl Hnd2 H0 Hn eq_refl) as (m2 & -> & Hm2 & Hr2); mstep.
  assert (Ha' : m2 !! a = Some t) by (rewrite (proj1 Hr2) by done; done).
  rewrite (upd_slab_ok _ a t) by done; mstep.
  rewrite (upd_slab_ok _ a (set_sprev 0 t)) by apply lookup_insert_eq.
  cbn [k_slabs with_slabs]; rewrite insert_insert_eq; eexists; split; [done|]; split.
  - apply (slab_linked_ext m2); [|by apply Hm]; intros b Hb; rewrite lookup_insert_ne; [done|].
    intros <-; apply elem_of_app in Hb as [Hb|Hb]; [|done]; apply (Hd _ Hb); by constructor.
  - apply (relinked_trans _ _ m2); [apply (relinked_mono l2); [|done]; intros b Hb;
      apply elem_of_app; right; by constructor|].
    eapply relinked_insert; [done|done|apply elem_of_app; right; by constructor].
Qed.

Lemma last_or_snoc p l a : last_or p (l ++ [a]) = a.
Proof. revert p; induction l; intros; cbn [app last_or]; auto. Qed.

Lemma list_remove_slab_ok k c x w a l1 l2 :
  k_caches k !! c = Some x -> lhead w (c_lists x) = hd0 (l1 ++ a :: l2) ->
  linked (k_slabs k) 0 (l1 ++ a :: l2) -> NoDup (l1 ++ a :: l2) -> 0 ∉ l1 ++ a :: l2 ->
  exists m, list_remove_slab c w a k = Ok (list_result k c x w (hd0 (l1 ++ l2)) m) /\
    linked m 0 (l1 ++ l2) /\ relinked (l1 ++ a :: l2) (k_slabs k) m.
Proof.
  intros Hc Hh Hl Hnd H0; unfold list_remove_slab.
  pose proof (slab_linked_app _ _ _ _ Hl) as [(t & Ha & Hp & Hn) Hl2].
  assert (H02 : 0 ∉ l2) by (intros Hin; apply H0, elem_of_app; right; by constructor).
  rewrite (slab_at_ok _ _ _ Ha); mstep; rewrite (cache_at_ok _ _ _ Hc); mstep.
  destruct l1 as [|b l1 _] using rev_ind.
  - cbn [last_or app] in *; rewrite Hp, decide_False, Hh by auto.
    cbn [hd0]; rewrite decide_True by done; rewrite (upd_cache_ok _ _ _ _ Hc); mstep.
    destruct (remove_finish (with_caches (<[c := set_lists (set_lhead w (s_next t) (c_lists x)) x]>
      (k_caches k)) k) a t [] l2) as (m & -> & H1 & H2); try done.
    { intros m; by rewrite Hp. }
    exists m; split; [|done]; by rewrite Hn.
  - rewrite last_or_snoc in Hp; rewrite <- app_assoc in *; cbn [app] in *.
    destruct (linked_lookup _ _ _ b Hl) as [tb Hb]; [apply elem_of_app; right; by constructor|].
    assert (Hb0 : b ≠ 0) by (intros ->; apply H0, elem_of_app; right; by constructor).
    pose proof Hnd as (_ & Hd1 & [Hb2 [Ha2 _]%NoDup_cons]%NoDup_cons)%NoDup_app.
    rewrite Hp, decide_True by done; rewrite (upd_slab_ok _ _ _ _ Hb); mstep.
    set (k1 := with_slabs _ k).
    assert (Hk1 : forall e, e ≠ b -> k_slabs k1 !! e = k_slabs k !! e)
      by (intros e He; unfold k1; cbn [k_slabs with_slabs]; by rewrite lookup_insert_ne).
    destruct (remove_finish k1 a t (l1 ++ [b]) l2) as (m & -> & H1 & H2);
      rewrite <- ?app_assoc in *; cbn [app] in *; try done.
    { rewrite Hk1; [done|]; intros ->; apply Hb2; by constructor. }
    { apply (slab_linked_ext (k_slabs k)); [|done]; intros e He; apply Hk1; intros ->; apply Hb2.
      by constructor. }
    { intros m; rewrite Hp; intros Hm [Hr _].
      apply (slab_linked_renext (k_slabs k) m 0 l1 b (a :: l2) l2 tb); try done.
      - intros e He; rewrite Hr, Hk1; [done| |]; [intros ->; apply (Hd1 _ He); by constructor|].
        intros Hin; apply (Hd1 _ He); by do 2 constructor.
      - rewrite Hr; [unfold k1; cbn [k_slabs with_slabs]; rewrite lookup_insert_eq; by rewrite Hn|].
        intros Hin; apply Hb2; by constructor. }
    exists m; split; [|split; [done|]].
    + unfold list_result; f_equal.
      replace (hd0 (l1 ++ b :: l2)) with (lhead w (c_lists x)) by (rewrite Hh; by destruct l1).
      rewrite lhead_same, insert_id by done; by destruct k.
    + eapply relinked_trans; [|done]; eapply relinked_insert; [done|done|].
      apply elem_of_app; right; by constructor.
Qed.

End lists.

(** ** Lists of magazines and of free objects *)

Lemma mchain_ext m m' h l :
  (forall a, a ∈ l -> m_next <$> m' !! a = m_next <$> m !! a) -> mchain m h l -> mchain m' h l.
Proof.
  revert h; induction l as [|a l IH]; intros h Hm; [done|]; cbn [mchain].
  intros (-> & Ha & t & Ht & Hl); split_and!; [done|done|].
  pose proof (Hm a ltac:(constructor)) as Hn; rewrite Ht in Hn.
  destruct (m' !! a) as [t'|]; [|done]; injection Hn as Hn; exists t'; split; [done|].
  rewrite Hn; apply IH; [|done]; intros b Hb; apply Hm; by constructor.
Qed.

Lemma mchain_hd m h l : mchain m h l -> h = hd0 l.
Proof. destruct l; cbn [mchain hd0]; [done|]; by intros [-> _]. Qed.

Lemma fchain_ext m m' h l :
  (forall a y, a ∈ l -> a <= y < a + 8 -> m' !! y = m !! y) -> fchain m h l -> fchain m' h l.
Proof.
  revert h; induction l as [|a l IH]; intros h Hm; [done|]; cbn [fchain].
  intros (-> & Ha & Hl); split_and!; [done|done|].
  rewrite (load64_ext m m') by (intros y Hy; apply (Hm a); [by constructor|done]).
  apply IH; [|done]; intros b y Hb; apply Hm; by constructor.
Qed.

Lemma fchain_hd m h l : fchain m h l -> h = hd0 l.
Proof. destruct l; cbn [fchain hd0]; [done|]; by intros [-> _]. Qed.

Lemma bind_ext_in {A B} (f g : A -> list B) l :
  (forall a, a ∈ l -> f a = g a) -> l ≫= f = l ≫= g.
Proof.
  induction l as [|a l IH]; intros Hf; [done|]; rewrite !bind_cons.
  rewrite Hf by constructor; f_equal; apply IH; intros b Hb; apply Hf; by constructor.
Qed.

Lemma elem_of_bind {A B} (f : A -> list B) l b : b ∈ l ≫= f <-> exists a, b ∈ f a /\ a ∈ l.
Proof. apply list_elem_of_bind. Qed.

(** ** The magazines of the CPUs *)

Lemma cpu_mags_split cpus i lp :
  cpus !! i = Some lp ->
  exists rest, forall l p, cpu_mags (<[i := (l, p)]> cpus) ≡ₚ nonzero [l; p] ++ rest.
Proof.
  intros Hi; exists (cpu_mags (take i cpus) ++ cpu_mags (drop (S i) cpus)); intros l p.
  rewrite insert_take_drop by (by eapply lookup_lt_Some); unfold cpu_mags.
  rewrite bind_app, bind_cons; cbn [fst snd]; solve_Permutation.
Qed.

Lemma cpu_view_insert skip cpus i l p :
  skip = None \/ skip = Some i -> cpus !! i = Some (l, p) ->
  cpu_view skip cpus = <[i := (match skip with None => l | Some _ => 0 end, p)]> cpus.
Proof.
  intros [-> | ->] Hi; cbn [cpu_view]; [by rewrite list_insert_id|].
  apply list_eq; intros j; destruct (decide (j = i)) as [->|].
  - rewrite list_lookup_alter_eq, Hi, list_lookup_insert_eq; [done|by eapply lookup_lt_Some].
  - by rewrite list_lookup_alter_ne, list_lookup_insert_ne.
Qed.

Lemma nonzero_in a l : a ∈ nonzero l <-> a ≠ 0 /\ a ∈ l.
Proof. unfold nonzero; by rewrite list_elem_of_filter. Qed.

(** A change of one magazine. *)
Lemma mag_objs_insert_ne m a g b : b ≠ a -> mag_objs (<[a := g]> m) b = mag_objs m b.
Proof. intros; unfold mag_objs; by rewrite lookup_insert_ne. Qed.

Lemma mag_objs_insert m a g :
  mag_objs (<[a := g]> m) a = take (Z.to_nat (m_count g)) (m_objects g).
Proof. unfold mag_objs; by rewrite lookup_insert_eq. Qed.

Lemma bind_mags_insert m a g l :
  a ∉ l -> l ≫= mag_objs (<[a := g]> m) = l ≫= mag_objs m.
Proof. intros Ha; apply bind_ext_in; intros b Hb; apply mag_objs_insert_ne; by intros ->. Qed.
