(* ===== verification/SlabCore.v ===== *)
(** * Slab allocator: the steps of an operation on one cache *)

From stdpp Require Import base tactics option list numbers gmap.
From Stdlib Require Import ZArith Lia.
From S2P Require Import Prelude Pmm PmmInv SlabMem Slab SlabGeom SlabInv SlabLists.

Local Open Scope Z_scope.

Lemma NoDup_fmap_inj_in {A B} (f : A -> B) l a b :
  NoDup (f <$> l) -> a ∈ l -> b ∈ l -> f a = f b -> a = b.
Proof.
  intros Hnd [i Hi]%list_elem_of_lookup [j Hj]%list_elem_of_lookup Hf.
  assert (i = j) as ->; [|congruence].
  eapply (NoDup_lookup (f <$> l)); [done| |]; rewrite list_lookup_fmap, ?Hi, ?Hj; simpl; [done|].
  by rewrite Hf.
Qed.

Lemma in_block_self p : in_block p 0 p.
Proof. unfold in_block; change (pow2 0) with 1; lia. Qed.

Section core.
Context {St : Type} `{Kernel} `{!PageSource St} `{!PageLaws St}.
Implicit Types k : kmem St.

(** ** Where the objects are *)

Lemma in_page_inj p q a : in_page p a -> in_page q a -> p = q.
Proof. unfold in_page, page_addr, PMM_PAGE_SIZE; lia. Qed.

Lemma gs_objs_bounds g s o :
  geom_ok g -> 0 <= gs_color s <= c_color_max g -> o ∈ gs_objs g s ->
  page_addr (gs_page s) <= o /\
  o + c_obj_size g <= page_addr (gs_page s) + PMM_PAGE_SIZE -
                      (if c_off_slab g then 0 else header_bytes g).
Proof.
  intros [Hsz _ Ho _ _ _ Hf _] Hc (i & -> & Hi)%list_elem_of_fmap.
  apply elem_of_seqZ in Hi; unfold gs_base; split; [nia|].
  assert ((i + 1) * c_obj_size g <= c_objs_per_slab g * c_obj_size g)
    by (apply Z.mul_le_mono_nonneg_r; lia); lia.
Qed.

Lemma gs_objs_in_page g s o a :
  geom_ok g -> 0 <= gs_color s <= c_color_max g -> o ∈ gs_objs g s -> o <= a < o + c_obj_size g ->
  in_page (gs_page s) a.
Proof.
  intros Hg Hc Ho Ha; destruct (gs_objs_bounds _ _ _ Hg Hc Ho) as [H1 H2]; unfold in_page.
  destruct Hg as [_ _ _ _ _ _ _ Hh]; unfold sizeof_slab in Hh; destruct (c_off_slab g); lia.
Qed.

Lemma gs_objs_apart g s o o' :
  geom_ok g -> o ∈ gs_objs g s -> o' ∈ gs_objs g s -> o ≠ o' ->
  o + c_obj_size g <= o' \/ o' + c_obj_size g <= o.
Proof.
  intros [Hsz _ _ _ _ _ _ _] (i & -> & _)%list_elem_of_fmap (j & -> & _)%list_elem_of_fmap Hne.
  assert (i < j \/ j < i) as [Hij|Hij] by (destruct (Z.lt_trichotomy i j) as [?|[->|?]]; auto; done);
    [left|right]; nia.
Qed.

Lemma gs_objs_nodup g s : geom_ok g -> NoDup (gs_objs g s).
Proof.
  intros [Hsz _ _ _ _ _ _ _]; apply (NoDup_fmap_2_strong); [|apply NoDup_seqZ].
  intros i j _ _; unfold gs_base; nia.
Qed.

Lemma gs_objs_length g s : geom_ok g -> Z.of_nat (length (gs_objs g s)) = c_objs_per_slab g.
Proof. intros [_ _ Ho _ _ _ _ _]; unfold gs_objs; rewrite length_fmap, length_seqZ; lia. Qed.

Section facts.
Context {k : kmem St} {c : Z} {x : cache_t} {gc : gcache}.
Context (HC : cache_core k c x gc).

Lemma core_geom : geom_ok (c_geom x).
Proof. by destruct (ci_geom _ _ _ _ HC) as [? _]. Qed.

Lemma core_slab s : s ∈ slabs gc -> slab_inv k c (c_geom x) s.
Proof. apply Forall_forall, (ci_slabs _ _ _ _ HC). Qed.

Lemma core_page_inj s s' : s ∈ slabs gc -> s' ∈ slabs gc -> gs_page s = gs_page s' -> s = s'.
Proof. apply NoDup_fmap_inj_in, (ci_pages _ _ _ _ HC). Qed.

Lemma core_hdr_inj s s' : s ∈ slabs gc -> s' ∈ slabs gc -> gs_hdr s = gs_hdr s' -> s = s'.
Proof. apply NoDup_fmap_inj_in, (ci_hdrs _ _ _ _ HC). Qed.

Lemma core_obj_in_page s o a :
  s ∈ slabs gc -> o ∈ gs_objs (c_geom x) s -> o <= a < o + c_obj_size (c_geom x) ->
  in_page (gs_page s) a.
Proof. intros Hs; apply gs_objs_in_page; [apply core_geom|apply (core_slab _ Hs)]. Qed.

Lemma core_size : 8 <= c_obj_size (c_geom x).
Proof. apply core_geom. Qed.

(** The slab of an object is the one on its page. *)
Lemma core_obj_slab s s' o a :
  s ∈ slabs gc -> s' ∈ slabs gc -> o ∈ gs_objs (c_geom x) s ->
  o <= a < o + c_obj_size (c_geom x) -> in_page (gs_page s') a -> s = s'.
Proof.
  intros Hs Hs' Ho Ha Hp; apply core_page_inj; [done|done|].
  eapply in_page_inj; [by eapply core_obj_in_page|done].
Qed.

Lemma core_all_nodup : NoDup (slabs gc ≫= gs_objs (c_geom x)).
Proof.
  pose proof core_size; apply NoDup_bind.
  - intros s s' o Hs Hs' Ho Ho'; eapply (core_obj_slab s s' o o); [done..|lia|].
    eapply core_obj_in_page; [done|done|lia].
  - intros s _; apply gs_objs_nodup, core_geom.
  - eapply NoDup_fmap_1, (ci_pages _ _ _ _ HC).
Qed.

Lemma core_where_nodup : NoDup (where_objs k x gc).
Proof. rewrite (ci_objs _ _ _ _ HC); apply core_all_nodup. Qed.

(** Objects do not overlap. *)
Lemma core_objs_apart o o' a :
  o ∈ where_objs k x gc -> o' ∈ where_objs k x gc -> o ≠ o' ->
  o <= a < o + c_obj_size (c_geom x) -> o' <= a < o' + c_obj_size (c_geom x) -> False.
Proof.
  rewrite (ci_objs _ _ _ _ HC); intros (s & Ho & Hs)%elem_of_bind (s' & Ho' & Hs')%elem_of_bind Hne Ha Ha'.
  assert (s = s') as ->.
  { eapply core_obj_slab; [done..|exact Ha|]; by eapply core_obj_in_page. }
  destruct (gs_objs_apart _ _ _ _ core_geom Ho Ho' Hne); lia.
Qed.

Lemma core_obj_nonzero s o H0 :
  ps_ok (k_pm k) H0 -> s ∈ slabs gc -> H0 !! gs_page s = Some 0%nat -> o ∈ gs_objs (c_geom x) s -> 0 < o.
Proof.
  intros Hp Hs Hh Ho.
  destruct (ps_place _ _ _ _ (gs_page s) Hp Hh) as (_ & _ & H1 & _); [apply in_block_self|].
  destruct (gs_objs_bounds _ s o core_geom (si_color _ _ _ _ (core_slab _ Hs)) Ho); lia.
Qed.

End facts.

Lemma core_plain k c x gc : cache_core k c x gc -> c_ctor (c_geom x) = 0 /\ c_dtor (c_geom x) = 0.
Proof. intros HC; apply (ci_geom _ _ _ _ HC). Qed.

(** ** Magazines *)

(** A step that changes magazines only. *)
Lemma core_mags k k' c x x' gc gc' :
  cache_core k c x gc ->
  k_slabs k' = k_slabs k -> k_mem k' = k_mem k -> k_mapping k' = k_mapping k -> k_pm k' = k_pm k ->
  k_caches k' !! c = Some x' ->
  c_geom x' = c_geom x -> c_color_next x' = c_color_next x -> c_lists x' = c_lists x ->
  length (c_cpus x') = length (c_cpus x) ->
  g_list gc' = g_list gc -> g_float gc' = g_float gc ->
  mags_ok (k_mags k') x' gc' ->
  (mags x' gc' ≫= mag_objs (k_mags k')) ++ g_user gc' ++ g_int gc' ≡ₚ
  (mags x gc ≫= mag_objs (k_mags k)) ++ g_user gc ++ g_int gc ->
  cache_core k' c x' gc'.
Proof.
  intros [C1 C2 C3 C4 C5 C6 C7 C8 C9 C10 C11 C12] E1 E2 E3 E4 Hx G1 G2 G3 G4 L1 L2 Hm Ho.
  assert (Hs : slabs gc' = slabs gc) by (unfold slabs; by rewrite L1, L2).
  split; try done.
  - by rewrite G1.
  - by rewrite G1, G2.
  - intros w; by rewrite G3, L1.
  - intros w; by rewrite E1, L1.
  - rewrite Hs, G1; eapply Forall_impl; [done|]; intros s [S1 S0 S2 S3 S4 S5 S6].
    split; rewrite ?E1, ?E2, ?E3, ?E4; done.
  - by unfold hdrs; rewrite Hs.
  - by unfold gpages; rewrite Hs.
  - by rewrite G4.
  - unfold where_objs in *; rewrite Hs, G1, Ho; done.
Qed.

(** A magazine whose count and slots change, but not its place. *)
Lemma mags_ok_upd m x gc gc' a g g' :
  mags_ok m x gc -> m !! a = Some g -> a ∈ mags x gc ->
  m_next g' = m_next g -> length (m_objects g') = length (m_objects g) ->
  m_capacity g' = m_capacity g -> 0 <= m_count g' <= m_capacity g' ->
  g_dfull gc' = g_dfull gc -> g_dempty gc' = g_dempty gc -> g_skip gc' = g_skip gc ->
  (a ∈ g_dfull gc -> take (Z.to_nat (m_count g')) (m_objects g') ≠ []) -> a ∉ g_dempty gc ->
  mags_ok (<[a := g']> m) x gc'.
Proof.
  intros [M1 M2 M3 M4 M5 M6] Ha Hin Hn Hl Hcap Hc D1 D2 D3 Hf He.
  assert (Em : mags x gc' = mags x gc) by (unfold mags; by rewrite D1, D2, D3).
  assert (Hnext : forall b, m_next <$> <[a := g']> m !! b = m_next <$> m !! b).
  { intros b; destruct (decide (b = a)) as [->|]; [|by rewrite lookup_insert_ne].
    rewrite lookup_insert_eq, Ha; simpl; by rewrite Hn. }
  split; rewrite ?Em, ?D1, ?D2; try done.
  - eapply Forall_impl; [exact M2|]; intros b [Hb (gb & Hgb & Hok)]; split; [done|].
    destruct (decide (b = a)) as [->|]; [|exists gb; by rewrite lookup_insert_ne].
    assert (gb = g) as -> by congruence; destruct Hok as (K1 & K2 & K3).
    exists g'; rewrite lookup_insert_eq, Hl, Hcap; split_and!; done || lia.
  - eapply mchain_ext; [|exact M3]; auto.
  - eapply mchain_ext; [|exact M4]; auto.
  - apply Forall_forall; intros b Hb; destruct (decide (b = a)) as [->|].
    + rewrite mag_objs_insert; auto.
    + rewrite mag_objs_insert_ne by done; by eapply Forall_forall in M5.
  - apply Forall_forall; intros b Hb; rewrite mag_objs_insert_ne by (by intros ->).
    by eapply Forall_forall in M6.
Qed.

(** The effect of one magazine's change on the objects of all. *)
Lemma bind_mags_upd m l a g :
  NoDup l -> a ∈ l ->
  exists rest, l ≫= mag_objs m ≡ₚ mag_objs m a ++ rest /\
    l ≫= mag_objs (<[a := g]> m) ≡ₚ take (Z.to_nat (m_count g)) (m_objects g) ++ rest.
Proof.
  intros Hnd [l' Hl]%elem_of_Permutation; exists (l' ≫= mag_objs m); rewrite Hl in Hnd.
  apply NoDup_cons in Hnd as [Ha _]; split; rewrite Hl, bind_cons; [done|].
  by rewrite mag_objs_insert, bind_mags_insert.
Qed.

(** A step that stays within one cache: the other caches, the headers not in [hs], the
    magazines not in [ms], the memory outside [W] and the pages are as before. *)
Record local (c : Z) (hs ms : list Z) (W : Z -> Prop) k k' : Prop := {
  lo_pm : k_pm k' = k_pm k;
  lo_mapping : k_mapping k' = k_mapping k;
  lo_caches c' : c' ≠ c -> k_caches k' !! c' = k_caches k !! c';
  lo_slabs a : a ∉ hs -> k_slabs k' !! a = k_slabs k !! a;
  lo_mags a : a ∉ ms -> k_mags k' !! a = k_mags k !! a;
  lo_mem a : ~ W a -> k_mem k' !! a = k_mem k !! a;
  lo_boot : bootstrap_cache_count k' = bootstrap_cache_count k /\
            bootstrap_mag_count k' = bootstrap_mag_count k;
  lo_globals : magazine_cache k' = magazine_cache k /\ slab_meta_cache k' = slab_meta_cache k /\
               kmalloc_caches k' = kmalloc_caches k
}.

Definition nowhere (a : Z) : Prop := False.
Definition within (o n a : Z) : Prop := o <= a < o + n.

Lemma local_refl c hs ms W k : local c hs ms W k k.
Proof. by split. Qed.

Lemma local_trans c hs ms W k1 k2 k3 :
  local c hs ms W k1 k2 -> local c hs ms W k2 k3 -> local c hs ms W k1 k3.
Proof.
  intros [A1 A2 A3 A4 A5 A6 [A7 A8] (A9 & A10 & A11)] [B1 B2 B3 B4 B5 B6 [B7 B8] (B9 & B10 & B11)].
  split; intros; rewrite ?B1, ?B2, ?B3, ?B4, ?B5, ?B6 by done; auto; split_and?; congruence.
Qed.

Lemma local_mono c hs hs' ms ms' (W W' : Z -> Prop) k k' :
  hs ⊆ hs' -> ms ⊆ ms' -> (forall a, W a -> W' a) -> local c hs ms W k k' -> local c hs' ms' W' k k'.
Proof.
  intros H1 H2 H3 [A1 A2 A3 A4 A5 A6 A7 A8]; split; try done; auto.
Qed.

Lemma mag_nonempty m a :
  mag_ok m a -> mag_objs m a ≠ [] ->
  exists g os obj, m !! a = Some g /\ mag_objs m a = os ++ [obj] /\
    0 < m_count g <= m_capacity g /\ m_capacity g <= SLAB_MAX_MAGAZINE_SIZE /\
    m_objects g !! Z.to_nat (m_count g - 1) = Some obj /\
    take (Z.to_nat (m_count g - 1)) (m_objects g) = os.
Proof.
  intros (g & Hg & Hl & Hc & Hcap) Hne; unfold mag_objs in *; rewrite Hg in *.
  assert (0 < m_count g) by (destruct (decide (m_count g <= 0)); [|lia];
    rewrite (proj2 (Z2Nat.inj_iff (m_count g) 0 ltac:(lia) ltac:(lia))) in Hne by lia; done).
  unfold SLAB_MAX_MAGAZINE_SIZE in *.
  destruct (lookup_lt_is_Some_2 (m_objects g) (Z.to_nat (m_count g - 1))) as [obj Hobj]; [lia|].
  exists g, (take (Z.to_nat (m_count g - 1)) (m_objects g)), obj; split_and!; try done; try lia.
  replace (Z.to_nat (m_count g)) with (S (Z.to_nat (m_count g - 1))) by lia.
  by apply take_S_r.
Qed.

Lemma mag_pop_ok k c x gc a os obj user int :
  cache_core k c x gc -> a ∈ mags x gc -> mag_objs (k_mags k) a = os ++ [obj] ->
  (a ∈ g_dfull gc -> os ≠ []) ->
  user ++ int ≡ₚ obj :: g_user gc ++ g_int gc ->
  exists k', mag_pop a k = Ok (obj, k') /\ cache_core k' c x (set_use user int gc) /\
    local c [] [a] nowhere k k' /\ mag_objs (k_mags k') a = os.
Proof.
  intros HC Ha Hos Hf Hu; pose proof (ci_mags _ _ _ _ HC) as HM.
  destruct (proj1 (Forall_forall _ _) (mo_mag _ _ _ HM) a Ha) as [_ Hok].
  destruct (mag_nonempty _ _ Hok) as (g & os' & obj' & Hg & Hos' & Hc & Hcap & Hobj & Htake).
  { rewrite Hos; by destruct os. }
  rewrite Hos in Hos'; apply app_inj_tail in Hos' as [<- <-].
  unfold mag_pop; rewrite (mag_at_ok _ _ _ Hg); mstep.
  unfold SLAB_MAX_MAGAZINE_SIZE in *; rewrite u32_small by lia.
  rewrite (zget_lookup _ _ obj) by (done || lia); mstep; eexists; split; [done|].
  cbn [with_mags k_mags]; split; [|split; [|rewrite mag_objs_insert; exact Htake]].
  - eapply (core_mags k); try done; try apply HC.
    + eapply mags_ok_upd; try done; [simpl; lia| |].
      * intros Hin; cbn [set_mcount m_count m_objects]; rewrite Htake; auto.
      * intros Hin; pose proof (mo_empty_objs _ _ _ HM) as HE; eapply Forall_forall in HE; [|done].
        rewrite Hos in HE; by destruct os.
    + cbn [set_use g_user g_int with_mags k_mags]; rewrite Hu.
      destruct (bind_mags_upd (k_mags k) (mags x gc) a (set_mcount (m_count g - 1) g)
        (mo_nodup _ _ _ HM) Ha) as (rest & E1 & E2).
      change (mags x (set_use user int gc)) with (mags x gc).
      rewrite E1, E2, Hos; cbn [set_mcount m_count m_objects]; rewrite Htake; solve_Permutation.
  - split; try done; intros b Hb; cbn [with_mags k_mags]; rewrite lookup_insert_ne; [done|].
    intros <-; apply Hb; by constructor.
Qed.

Lemma mag_push_ok k c x gc a g obj user int :
  cache_core k c x gc -> a ∈ mags x gc -> k_mags k !! a = Some g -> m_count g < m_capacity g ->
  a ∉ g_dempty gc -> g_user gc ++ g_int gc ≡ₚ obj :: user ++ int ->
  exists k', mag_push a obj k = Ok k' /\ cache_core k' c x (set_use user int gc) /\
    local c [] [a] nowhere k k'.
Proof.
  intros HC Ha Hg Hlt He Hu; pose proof (ci_mags _ _ _ _ HC) as HM.
  destruct (proj1 (Forall_forall _ _) (mo_mag _ _ _ HM) a Ha) as [_ (g' & Hg' & Hl & Hc & Hcap)].
  assert (g' = g) as -> by congruence; unfold SLAB_MAX_MAGAZINE_SIZE in *.
  unfold mag_push; rewrite (mag_at_ok _ _ _ Hg); mstep; rewrite zset_ok by lia; mstep.
  rewrite u32_small by lia; eexists; split; [done|].
  assert (Htake : take (Z.to_nat (m_count g + 1)) (<[Z.to_nat (m_count g) := obj]> (m_objects g)) =
    take (Z.to_nat (m_count g)) (m_objects g) ++ [obj]).
  { replace (Z.to_nat (m_count g + 1)) with (S (Z.to_nat (m_count g))) by lia.
    rewrite (take_S_r _ _ obj), take_insert_ge by (done || (apply list_lookup_insert_eq; lia)); done. }
  split; [|split; try done].
  - eapply (core_mags k); try done; try apply HC.
    + eapply mags_ok_upd; try done; [|simpl; lia|].
      * cbn [set_mobjects m_objects]; by rewrite length_insert.
      * intros _; cbn [set_mobjects m_count m_objects]; rewrite Htake; by intros [_ ?]%app_eq_nil.
    + cbn [set_use g_user g_int with_mags k_mags]; rewrite Hu.
      edestruct (bind_mags_upd (k_mags k) (mags x gc) a (set_mobjects (m_count g + 1)
        (<[Z.to_nat (m_count g) := obj]> (m_objects g)) g) (mo_nodup _ _ _ HM) Ha) as (rest & E1 & E2).
      change (mags x (set_use user int gc)) with (mags x gc).
      rewrite E1, E2; cbn [set_mobjects m_count m_objects]; rewrite Htake.
      unfold mag_objs; rewrite Hg; solve_Permutation.
  - intros b Hb; cbn [with_mags k_mags]; rewrite lookup_insert_ne; [done|].
    intros <-; apply Hb; by constructor.
Qed.

(** The pointers of a CPU change, or the depot: the magazines stay the same. *)
Lemma core_exchange k c x gc x' gc' :
  cache_core k c x gc ->
  c_geom x' = c_geom x -> c_color_next x' = c_color_next x -> c_lists x' = c_lists x ->
  length (c_cpus x') = length (c_cpus x) ->
  g_list gc' = g_list gc -> g_float gc' = g_float gc -> g_user gc' = g_user gc -> g_int gc' = g_int gc ->
  mags x' gc' ≡ₚ mags x gc ->
  forall m, (forall a, a ∈ mags x gc -> exists g n, k_mags k !! a = Some g /\ m !! a = Some (set_mnext n g)) ->
  mchain m (full_magazines (c_depot x')) (g_dfull gc') ->
  mchain m (empty_magazines (c_depot x')) (g_dempty gc') ->
  Forall (fun a => mag_objs (k_mags k) a ≠ []) (g_dfull gc') ->
  Forall (fun a => mag_objs (k_mags k) a = []) (g_dempty gc') ->
  cache_core (with_caches (<[c := x']> (k_caches k)) (with_mags m k)) c x' gc'.
Proof.
  intros HC G1 G2 G3 G4 L1 L2 U1 U2 Hp m Hm F1 F2 F3 F4; pose proof (ci_mags _ _ _ _ HC) as HM.
  assert (Hobj : forall a, a ∈ mags x' gc' -> mag_objs m a = mag_objs (k_mags k) a).
  { intros a Ha; rewrite Hp in Ha; destruct (Hm a Ha) as (g & n & Hg & Hg').
    unfold mag_objs; by rewrite Hg, Hg'. }
  assert (Hin : forall a, a ∈ g_dfull gc' \/ a ∈ g_dempty gc' -> a ∈ mags x' gc').
  { intros a Ha; unfold mags; rewrite !elem_of_app; auto. }
  eapply (core_mags k); try done.
  - apply lookup_insert_eq.
  - split; try done.
    + rewrite Hp; apply (mo_nodup _ _ _ HM).
    + apply Forall_forall; intros a Ha; rewrite Hp in Ha.
      destruct (proj1 (Forall_forall _ _) (mo_mag _ _ _ HM) a Ha) as [H0 (g & Hg & Hok)]; split; [done|].
      destruct (Hm a Ha) as (g' & n & Hg1 & Hg2); assert (g' = g) as -> by congruence.
      by exists (set_mnext n g).
    + apply Forall_forall; intros a Ha; rewrite Hobj by auto; by eapply Forall_forall in F3.
    + apply Forall_forall; intros a Ha; rewrite Hobj by auto; by eapply Forall_forall in F4.
  - rewrite U1, U2; f_equiv; rewrite (bind_ext_in _ (mag_objs (k_mags k))) by done.
    by rewrite Hp.
Qed.

(** ** Slabs on the lists *)

Lemma body_ok_body m c g s t t' : body t' = body t -> body_ok m c g s t -> body_ok m c g s t'.
Proof.
  intros Hb [B1 B2 B3 B4 B5 B6].
  assert (forall A (f : slab_t -> A), f (body t') = f (body t)) as Hf by (intros; by rewrite Hb).
  split.
  - rewrite <- B1; apply (Hf _ s_cache).
  - rewrite <- B2; apply (Hf _ s_memory_base).
  - rewrite <- B3; apply (Hf _ s_inuse_count).
  - rewrite <- B4; apply (Hf _ s_total_count).
  - rewrite <- B5; apply (Hf _ s_is_off_slab).
  - pose proof (Hf _ s_free_list) as E; cbn in E; by rewrite E.
Qed.

Lemma core_relink k c x gc x' gc' m :
  cache_core k c x gc -> relinked (hdrs gc) (k_slabs k) m ->
  c_geom x' = c_geom x -> c_color_next x' = c_color_next x -> c_depot x' = c_depot x ->
  c_cpus x' = c_cpus x ->
  slabs gc' ≡ₚ slabs gc -> g_dfull gc' = g_dfull gc -> g_dempty gc' = g_dempty gc ->
  g_skip gc' = g_skip gc -> g_user gc' = g_user gc -> g_int gc' = g_int gc ->
  (forall w, lhead w (c_lists x') = hd0 (gs_hdr <$> g_list gc' w)) ->
  (forall w, linked m 0 (gs_hdr <$> g_list gc' w)) ->
  cache_core (with_caches (<[c := x']> (k_caches k)) (with_slabs m k)) c x' gc'.
Proof.
  intros [C1 C2 C3 C4 C5 C6 C7 C8 C9 C10 C11 C12] Hr G1 G2 G3 G4 Hs M1 M2 M3 U1 U2 Hh Hl.
  assert (Em : mags x' gc' = mags x gc) by (unfold mags; by rewrite M1, M2, M3, G4).
  split; try done.
  - apply lookup_insert_eq.
  - by rewrite G1.
  - by rewrite G1, G2.
  - rewrite Hs, G1; eapply Forall_impl; [exact C7|]; intros s [S1 S0 (t & Ht & Hb) S3 S4 S5 S6].
    split; try done; destruct (relinked_lookup _ _ _ _ _ Hr Ht) as (t' & Ht' & Hb').
    exists t'; split; [done|]; by eapply body_ok_body.
  - unfold hdrs; rewrite Hs; apply C8.
  - unfold gpages; rewrite Hs; apply C9.
  - by rewrite G4.
  - destruct C11; split; rewrite ?Em, ?G3, ?M1, ?M2; done.
  - unfold where_objs in *; cbn [with_caches with_slabs k_mags]; by rewrite Em, Hs, G1, U1, U2, C12.
Qed.

Definition upd_w (w : which) (l : list gslab) (f : which -> list gslab) : which -> list gslab :=
  fun w' => if decide (w' = w) then l else f w'.

Lemma upd_w_eq w l f : upd_w w l f w = l.
Proof. unfold upd_w; by rewrite decide_True. Qed.
Lemma upd_w_ne w w' l f : w' ≠ w -> upd_w w l f w' = f w'.
Proof. intros; unfold upd_w; by rewrite decide_False. Qed.

(** A slab moves between the list [w] and the ones taken off. *)
Lemma slabs_move gc w l1 s l2 fl :
  g_list gc w = l1 ++ s :: l2 ->
  slabs (set_slabs (upd_w w (l1 ++ l2) (g_list gc)) (s :: fl) gc) ≡ₚ
  slabs (set_slabs (g_list gc) fl gc).
Proof.
  intros Hw; unfold slabs; cbn [set_slabs g_list g_float].
  destruct w; rewrite ?upd_w_eq, ?(upd_w_ne _ Partial), ?(upd_w_ne _ Full), ?(upd_w_ne _ Empty),
    ?Hw by done; solve_Permutation.
Qed.

Lemma lhead_set w w' h l : lhead w' (set_lhead w h l) = if decide (w' = w) then h else lhead w' l.
Proof. destruct w, w'; done. Qed.

Lemma hdrs_w gc w a : a ∈ gs_hdr <$> g_list gc w -> a ∈ hdrs gc.
Proof.
  unfold hdrs, slabs; rewrite !fmap_app, !elem_of_app; destruct w; auto.
Qed.

(** The lists of one cache share no slab. *)
Lemma hdrs_disjoint gc w w' a :
  NoDup (hdrs gc) -> w ≠ w' -> a ∈ gs_hdr <$> g_list gc w -> a ∉ gs_hdr <$> g_list gc w'.
Proof.
  unfold hdrs, slabs; rewrite !fmap_app, !NoDup_app; intros (N1 & D1 & N2 & D2 & N3 & D3 & N4) Hw Ha Ha'.
  destruct w, w'; try done.
  - apply (D1 _ Ha); rewrite !elem_of_app; auto.
  - apply (D1 _ Ha); rewrite !elem_of_app; auto.
  - apply (D1 _ Ha'); rewrite !elem_of_app; auto.
  - apply (D2 _ Ha); rewrite !elem_of_app; auto.
  - apply (D1 _ Ha'); rewrite !elem_of_app; auto.
  - apply (D2 _ Ha'); rewrite !elem_of_app; auto.
Qed.

Lemma hdrs_w_nodup gc w : NoDup (hdrs gc) -> NoDup (gs_hdr <$> g_list gc w).
Proof.
  unfold hdrs, slabs; rewrite !fmap_app, !NoDup_app; intros (N1 & _ & N2 & _ & N3 & _); by destruct w.
Qed.

Lemma float_not_listed gc w s fl :
  NoDup (hdrs gc) -> g_float gc = s :: fl -> gs_hdr s ∉ gs_hdr <$> g_list gc w.
Proof.
  unfold hdrs, slabs; rewrite !fmap_app, !NoDup_app; intros (N1 & D1 & N2 & D2 & N3 & D3 & N4) Hf Ha; rewrite Hf in *.
  destruct w; [eapply D1|eapply D2|eapply D3]; try exact Ha; rewrite ?elem_of_app, fmap_cons, elem_of_cons; auto.
Qed.

Lemma core_hdr_nonzero k c x gc a : cache_core k c x gc -> a ∈ hdrs gc -> a ≠ 0.
Proof. intros HC (s & -> & Hs)%list_elem_of_fmap; apply (core_slab HC _ Hs). Qed.

Definition relisted (w : which) (h : Z) (x : cache_t) : cache_t :=
  set_lists (set_lhead w h (c_lists x)) x.

Lemma list_result_local k c x w h m l hs :
  relinked l (k_slabs k) m -> l ⊆ hs -> local c hs [] nowhere k (list_result k c x w h m).
Proof.
  intros [Hr _] Hl; split; try done.
  - intros c' Hc'; cbn [list_result with_caches with_slabs k_caches]; by rewrite lookup_insert_ne.
  - intros a Ha; cbn [list_result with_caches with_slabs k_slabs]; apply Hr; auto.
Qed.

Lemma core_list_remove k c x gc w l1 s l2 :
  cache_core k c x gc -> g_list gc w = l1 ++ s :: l2 ->
  let x' := relisted w (hd0 (gs_hdr <$> l1 ++ l2)) x in
  let gc' := set_slabs (upd_w w (l1 ++ l2) (g_list gc)) (s :: g_float gc) gc in
  exists k', list_remove_slab c w (gs_hdr s) k = Ok k' /\ cache_core k' c x' gc' /\
    local c (hdrs gc) [] nowhere k k' /\ slabs gc' ≡ₚ slabs gc.
Proof.
  intros HC Hw x' gc'; pose proof (ci_hdrs _ _ _ _ HC) as Hnd.
  pose proof (ci_head _ _ _ _ HC w) as Hh; pose proof (ci_links _ _ _ _ HC w) as Hl.
  pose proof (hdrs_w_nodup _ w Hnd) as Hndw.
  rewrite Hw, fmap_app, fmap_cons in Hh, Hl, Hndw.
  destruct (list_remove_slab_ok k c x w (gs_hdr s) (gs_hdr <$> l1) (gs_hdr <$> l2))
    as (m & E & Hm & Hr); try done; [apply HC| |].
  { intros H0; eapply (core_hdr_nonzero _ _ _ _ 0 HC); [|done]; apply (hdrs_w _ w).
    by rewrite Hw, fmap_app, fmap_cons. }
  assert (Hsub : (gs_hdr <$> l1) ++ gs_hdr s :: (gs_hdr <$> l2) ⊆ hdrs gc).
  { intros a Ha; apply (hdrs_w _ w); by rewrite Hw, fmap_app, fmap_cons. }
  assert (Hp : slabs gc' ≡ₚ slabs gc) by (apply (slabs_move gc w l1 s l2 (g_float gc) Hw)).
  rewrite <- fmap_app in E, Hm; eexists; split; [exact E|]; split; [|split; [|done]].
  - eapply (core_relink k c x gc); try done; [by eapply relinked_mono| |].
    + intros w'; unfold x', gc', relisted; cbn [set_lists c_lists set_slabs g_list].
      rewrite lhead_set; unfold upd_w; destruct (decide (w' = w)); [done|apply HC].
    + intros w'; unfold gc'; cbn [set_slabs g_list]; unfold upd_w; destruct (decide (w' = w)) as [->|Hne]; [done|].
      eapply linked_relinked; [exact Hr| |apply HC]; intros a Ha.
      pose proof (hdrs_disjoint _ _ _ a Hnd Hne Ha) as Hn; by rewrite Hw, fmap_app, fmap_cons in Hn.
  - by eapply list_result_local.
Qed.

Lemma core_list_add k c x gc w s fl :
  cache_core k c x gc -> g_float gc = s :: fl ->
  let x' := relisted w (gs_hdr s) x in
  let gc' := set_slabs (upd_w w (s :: g_list gc w) (g_list gc)) fl gc in
  exists k', list_add_slab c w (gs_hdr s) k = Ok k' /\ cache_core k' c x' gc' /\
    local c (hdrs gc) [] nowhere k k' /\ slabs gc' ≡ₚ slabs gc.
Proof.
  intros HC Hf x' gc'; pose proof (ci_hdrs _ _ _ _ HC) as Hnd.
  assert (Hs : s ∈ slabs gc) by (unfold slabs; rewrite Hf, !elem_of_app, elem_of_cons; auto).
  destruct (si_body _ _ _ _ (core_slab HC _ Hs)) as (t & Ht & _).
  pose proof (float_not_listed gc w s fl Hnd Hf) as Hns.
  destruct (list_add_slab_ok k c x w (gs_hdr s) (gs_hdr <$> g_list gc w) t)
    as (m & E & Hm & Hr); try done; try apply HC.
  { constructor; [done|by apply hdrs_w_nodup]. }
  { intros H0; eapply (core_hdr_nonzero _ _ _ _ 0 HC); [|done]; by apply (hdrs_w _ w). }
  assert (Hsub : gs_hdr s :: (gs_hdr <$> g_list gc w) ⊆ hdrs gc).
  { intros a [->|Ha]%elem_of_cons; [by apply list_elem_of_fmap_2|by apply (hdrs_w _ w)]. }
  assert (Hp : slabs gc' ≡ₚ slabs gc).
  { unfold gc', slabs; cbn [set_slabs g_list g_float]; rewrite Hf.
    destruct w; rewrite ?upd_w_eq, ?(upd_w_ne _ Partial), ?(upd_w_ne _ Full), ?(upd_w_ne _ Empty) by done;
      solve_Permutation. }
  eexists; split; [exact E|]; split; [|split; [|done]].
  - eapply (core_relink k c x gc); try done; [by eapply relinked_mono| |].
    + intros w'; unfold x', gc', relisted; cbn [set_lists c_lists set_slabs g_list].
      rewrite lhead_set; unfold upd_w; destruct (decide (w' = w)); [done|apply HC].
    + intros w'; unfold gc'; cbn [set_slabs g_list]; unfold upd_w; destruct (decide (w' = w)) as [->|Hne]; [done|].
      eapply linked_relinked; [exact Hr| |apply HC]; intros a Ha [->|Ha']%elem_of_cons.
      * by apply (float_not_listed gc w' s fl Hnd Hf).
      * by eapply (hdrs_disjoint gc w' w).
  - by eapply list_result_local.
Qed.

(** ** Objects taken from and put back on a slab *)

(** [s'] in the place of the slab with its header. *)
Definition rep (s' u : gslab) : gslab := if decide (gs_hdr u = gs_hdr s') then s' else u.

Definition rep_slab (s' : gslab) (gc : gcache) : gcache :=
  set_slabs (fun w => rep s' <$> g_list gc w) (rep s' <$> g_float gc) gc.

Lemma rep_hdr s' u : gs_hdr (rep s' u) = gs_hdr u.
Proof. unfold rep; by destruct (decide _). Qed.

Lemma rep_hdrs s' (l : list gslab) : gs_hdr <$> (rep s' <$> l) = gs_hdr <$> l.
Proof. rewrite <- list_fmap_compose; apply list_fmap_ext; intros i u _; apply rep_hdr. Qed.

Lemma slabs_rep s' gc : slabs (rep_slab s' gc) = rep s' <$> slabs gc.
Proof. unfold slabs; by rewrite !fmap_app. Qed.

Lemma rep_split s s' l :
  NoDup (gs_hdr <$> l) -> s ∈ l -> gs_hdr s' = gs_hdr s ->
  exists rest, l ≡ₚ s :: rest /\ rep s' <$> l ≡ₚ s' :: rest.
Proof.
  intros Hnd [rest Hl]%elem_of_Permutation Hh; exists rest; split; [done|].
  rewrite Hl in Hnd; rewrite Hl, fmap_cons; apply NoDup_cons in Hnd as [Hs _].
  unfold rep at 1; rewrite decide_True by done; f_equiv.
  rewrite <- (list_fmap_id rest) at 2; apply reflexive_eq, list_fmap_ext; intros i u Hu.
  unfold rep; rewrite decide_False; [done|]; rewrite Hh; intros E; apply Hs; rewrite <- E.
  by eapply list_elem_of_fmap_2, list_elem_of_lookup_2.
Qed.

Lemma linked_same_links m a t t' p l :
  m !! a = Some t -> s_prev t' = s_prev t -> s_next t' = s_next t ->
  linked m p l -> linked (<[a := t']> m) p l.
Proof.
  intros Ha Hp Hn; revert p; induction l as [|b l IH]; intros p; [done|].
  intros [(u & Hu & Hup & Hun) Hl]; split; [|by apply IH].
  destruct (decide (b = a)) as [->|].
  - assert (u = t) as -> by congruence; exists t'; rewrite lookup_insert_eq; split_and!; congruence.
  - exists u; by rewrite lookup_insert_ne.
Qed.

Lemma core_body k c x gc s s' t t' m' user int :
  cache_core k c x gc -> s ∈ slabs gc ->
  gs_hdr s' = gs_hdr s -> gs_page s' = gs_page s -> gs_color s' = gs_color s ->
  k_slabs k !! gs_hdr s = Some t -> s_prev t' = s_prev t -> s_next t' = s_next t ->
  body_ok m' c (c_geom x) s' t' -> (forall o, o ∈ gs_free s' -> o ∈ gs_objs (c_geom x) s) ->
  (forall a, ~ in_page (gs_page s) a -> m' !! a = k_mem k !! a) ->
  gs_free s' ++ user ++ int ≡ₚ gs_free s ++ g_user gc ++ g_int gc ->
  cache_core (with_slabs (<[gs_hdr s := t']> (k_slabs k)) (with_mem m' k)) c x
    (set_use user int (rep_slab s' gc)).
Proof.
  intros HC Hs Eh Ep Ec Ht Hp Hn Hb Hfr Hm Hu.
  assert (Eo : gs_objs (c_geom x) s' = gs_objs (c_geom x) s) by (unfold gs_objs, gs_base; by rewrite Ep, Ec).
  pose proof HC as [C1 C2 C3 C4 C5 C6 C7 C8 C9 C10 C11 C12].
  destruct (rep_split s s' (slabs gc) C8 Hs Eh) as (rest & P1 & P2).
  assert (Es : slabs (set_use user int (rep_slab s' gc)) = rep s' <$> slabs gc) by apply slabs_rep.
  assert (Hpg : gs_page <$> (rep s' <$> slabs gc) ≡ₚ gs_page <$> slabs gc).
  { rewrite P2, P1, !fmap_cons, Ep; done. }
  assert (Hrest : forall u, u ∈ rest -> u ∈ slabs gc /\ gs_hdr u ≠ gs_hdr s /\ gs_page u ≠ gs_page s).
  { intros u Hin; assert (u ∈ slabs gc) by (rewrite P1; by constructor).
    unfold hdrs in C8; unfold gpages in C9; rewrite P1 in C8, C9.
    apply NoDup_cons in C8 as [N1 _], C9 as [N2 _].
    split_and!; [done| |]; intros E; [apply N1|apply N2]; rewrite <- E; by apply list_elem_of_fmap_2. }
  split; try done.
  - intros w; cbn [set_use rep_slab set_slabs g_list]; rewrite rep_hdrs; apply C5.
  - intros w; cbn [set_use rep_slab set_slabs g_list]; rewrite rep_hdrs.
    by eapply linked_same_links.
  - rewrite Es, P2; constructor; cbn [with_slabs with_mem k_slabs k_mem k_mapping k_pm].
    + destruct (core_slab HC _ Hs) as [S1 S0 _ S3 S4 S5 S6].
      split; cbn [with_slabs with_mem k_slabs k_mem k_mapping k_pm]; rewrite ?Eh, ?Ep, ?Ec, ?Eo; try done.
      exists t'; by rewrite lookup_insert_eq.
    + apply Forall_forall; intros u Hin; destruct (Hrest _ Hin) as (Hu1 & Hu2 & Hu3).
      destruct (core_slab HC _ Hu1) as [S1 S0 (tu & Htu & [B1 B2 B3 B4 B5 B6]) S3 S4 S5 S6].
      split; cbn [with_slabs with_mem k_slabs k_mem k_mapping k_pm]; try done.
      exists tu; rewrite lookup_insert_ne by done; split; [done|]; split; try done.
      eapply fchain_ext; [|exact B6]; intros o a Ho Ha; apply Hm; intros Hpa; apply Hu3.
      eapply in_page_inj; [|exact Hpa]; eapply (core_obj_in_page HC u o); [done|auto|pose proof (core_size HC); lia].
  - unfold hdrs; rewrite Es, rep_hdrs; apply C8.
  - unfold gpages; rewrite Es, Hpg; apply C9.
  - by destruct C11; split.
  - unfold where_objs in *; rewrite Es, P2; rewrite P1, !bind_cons in C12.
    rewrite !bind_cons; cbn [with_slabs with_mem k_mags set_use g_user g_int].
    change (mags x (set_use user int (rep_slab s' gc))) with (mags x gc).
    rewrite Eo, <- C12; rewrite (Permutation_app_comm (mags x gc ≫= _) (user ++ int)).
    rewrite (Permutation_app_comm (mags x gc ≫= _) (g_user gc ++ g_int gc)).
    transitivity ((gs_free s' ++ user ++ int) ++ (rest ≫= gs_free) ++ (mags x gc ≫= mag_objs (k_mags k)));
      [solve_Permutation|rewrite Hu; solve_Permutation].
Qed.

Definition set_gfree (l : list Z) (s : gslab) : gslab := GSlab (gs_hdr s) (gs_page s) (gs_color s) l.

Lemma slab_local k c hs a t' m' W :
  a ∈ hs -> (forall b, ~ W b -> m' !! b = k_mem k !! b) ->
  local c hs [] W k (with_slabs (<[a := t']> (k_slabs k)) (with_mem m' k)).
Proof.
  intros Ha Hm; split; try done.
  intros b Hb; cbn [with_slabs k_slabs]; rewrite lookup_insert_ne; [done|]; by intros <-.
Qed.

Lemma core_free_lt k c x gc s : cache_core k c x gc -> s ∈ slabs gc ->
  (length (gs_free s) <= length (gs_objs (c_geom x) s))%nat.
Proof.
  intros HC Hs; apply NoDup_incl_length.
  - pose proof (core_where_nodup HC) as Hnd; unfold where_objs in Hnd; apply NoDup_app in Hnd as [Hnd _].
    apply elem_of_Permutation in Hs as [l Hl]; rewrite Hl, bind_cons in Hnd.
    apply NoDup_app in Hnd as [Hnd _]; by apply NoDup_ListNoDup.
  - intros o; rewrite <- !list_elem_of_In; apply (core_slab HC _ Hs).
Qed.

Lemma core_take k c x gc s o fr t user int :
  cache_core k c x gc -> s ∈ slabs gc -> gs_free s = o :: fr -> k_slabs k !! gs_hdr s = Some t ->
  user ++ int ≡ₚ o :: g_user gc ++ g_int gc ->
  s_free_list t = o /\ o ≠ 0 /\ 0 <= s_inuse_count t < s_total_count t /\
  cache_core (with_slabs (<[gs_hdr s := set_inuse (s_inuse_count t + 1)
                                          (set_free_list (load64 (k_mem k) o) t)]> (k_slabs k)) k) c x
      (set_use user int (rep_slab (set_gfree fr s) gc)).
Proof.
  intros HC Hs Hf Ht Hu; pose proof (core_free_lt _ _ _ _ _ HC Hs) as Hle.
  pose proof (gs_objs_length (c_geom x) s (core_geom HC)) as Hlen; rewrite Hf in Hle; simpl in Hle.
  destruct (core_slab HC _ Hs) as [_ Hin (t' & Ht' & [B1 B2 B3 B4 B5 B6]) _ _ _ _].
  assert (t' = t) as -> by congruence; rewrite Hf in B6, Hin, B3; cbn [length] in B3.
  destruct B6 as (E & Hnz & Hch); split_and!; try done; try lia.
  eapply (core_body k c x gc s (set_gfree fr s) t _ (k_mem k)); try done.
  - split; try done; cbn [set_inuse s_inuse_count set_gfree gs_free]; lia.
  - intros o' Ho'; apply Hin; by constructor.
  - cbn [set_gfree gs_free]; rewrite Hu, Hf; solve_Permutation.
Qed.

Lemma core_put k c x gc s o t user int :
  cache_core k c x gc -> s ∈ slabs gc -> k_slabs k !! gs_hdr s = Some t ->
  o ∈ gs_objs (c_geom x) s -> g_user gc ++ g_int gc ≡ₚ o :: user ++ int ->
  (forall a, a ∈ gs_objs (c_geom x) s -> 0 < a < 2 ^ 64) ->
  (length (gs_free s) < length (gs_objs (c_geom x) s))%nat /\
  0 < s_inuse_count t <= s_total_count t /\
  cache_core (with_slabs (<[gs_hdr s := set_inuse (s_inuse_count t - 1) (set_free_list o t)]>
                (k_slabs k)) (with_mem (store64 o (s_free_list t) (k_mem k)) k)) c x
    (set_use user int (rep_slab (set_gfree (o :: gs_free s) s) gc)).
Proof.
  intros HC Hs Ht Ho Hu Ha; pose proof (core_size HC) as Hsz.
  assert (Hnin : o ∉ gs_free s).
  { intros Hin; pose proof (core_where_nodup HC) as Hnd; unfold where_objs in Hnd.
    rewrite (Permutation_app_comm (mags x gc ≫= _)), Hu in Hnd; apply NoDup_app in Hnd as (_ & Hd & _).
    apply (Hd o); [apply elem_of_bind; by exists s|by constructor]. }
  destruct (core_slab HC _ Hs) as [_ Hin (t' & Ht' & [B1 B2 B3 B4 B5 B6]) _ _ _ _].
  assert (t' = t) as -> by congruence.
  assert (Hlt : (length (o :: gs_free s) <= length (gs_objs (c_geom x) s))%nat).
  { apply NoDup_incl_length.
    - constructor; [by rewrite <- list_elem_of_In|]; apply NoDup_ListNoDup.
      pose proof (core_where_nodup HC) as Hnd; apply NoDup_app in Hnd as [Hnd _].
      apply elem_of_Permutation in Hs as [l Hl]; rewrite Hl, bind_cons in Hnd.
      by apply NoDup_app in Hnd as [Hnd _].
    - intros b; rewrite <- !list_elem_of_In; intros [->|Hb]%elem_of_cons; auto. }
  pose proof (gs_objs_length (c_geom x) s (core_geom HC)) as Hlen; cbn [length] in Hlt.
  split_and!; [lia|lia|lia|].
  eapply (core_body k c x gc s (set_gfree (o :: gs_free s) s) t); try done.
  - split; try done; cbn [set_inuse s_inuse_count set_gfree gs_free length set_free_list s_free_list].
    + lia.
    + cbn [fchain]; split_and!; [done|specialize (Ha _ Ho); lia|].
      rewrite load64_store64.
      2: { rewrite (fchain_hd _ _ _ B6); destruct (gs_free s) as [|b l]; [simpl; lia|].
        cbn [hd0]; specialize (Ha b (Hin b ltac:(constructor))); lia. }
      eapply fchain_ext; [|exact B6]; intros b a Hb Hab; apply store64_lookup_ne.
        destruct (gs_objs_apart _ _ o b (core_geom HC) Ho (Hin _ Hb)); [congruence|lia|lia].
  - intros o' [->|Ho']%elem_of_cons; auto.
  - intros a Hna; apply store64_lookup_ne; intros Hin'; apply Hna; eapply (core_obj_in_page HC); [done|done|lia].
  - cbn [set_gfree gs_free]; rewrite Hu; solve_Permutation.
Qed.

Lemma rep_notin s' (l : list gslab) : gs_hdr s' ∉ gs_hdr <$> l -> rep s' <$> l = l.
Proof.
  intros Hn; rewrite <- (list_fmap_id l) at 2; apply list_fmap_ext; intros i u Hu.
  unfold rep; rewrite decide_False; [done|]; intros E; apply Hn; rewrite <- E.
  by eapply list_elem_of_fmap_2, list_elem_of_lookup_2.
Qed.

Lemma rep_w gc w l1 s l2 s' :
  NoDup (hdrs gc) -> g_list gc w = l1 ++ s :: l2 -> gs_hdr s' = gs_hdr s ->
  g_list (rep_slab s' gc) w = l1 ++ s' :: l2 /\
  (forall w', w' ≠ w -> g_list (rep_slab s' gc) w' = g_list gc w').
Proof.
  intros Hnd Hw Eh; pose proof (hdrs_w_nodup _ w Hnd) as Hn; rewrite Hw, fmap_app, fmap_cons in Hn.
  apply NoDup_app in Hn as (_ & Hd & [Hs _]%NoDup_cons).
  split; [|intros w' Hne]; cbn [rep_slab set_slabs g_list].
  - rewrite Hw, fmap_app, fmap_cons, (rep_notin _ l1), (rep_notin _ l2).
    + f_equal; f_equal; unfold rep; by rewrite decide_True.
    + by rewrite Eh.
    + rewrite Eh; intros Hin; apply (Hd _ Hin); by constructor.
  - apply rep_notin; rewrite Eh; apply (hdrs_disjoint gc w w'); [done|by intros ->|].
    rewrite Hw, fmap_app, fmap_cons; apply elem_of_app; right; by constructor.
Qed.

Lemma rep_float gc w l1 s l2 s' :
  NoDup (hdrs gc) -> g_list gc w = l1 ++ s :: l2 -> gs_hdr s' = gs_hdr s ->
  g_float (rep_slab s' gc) = g_float gc.
Proof.
  intros Hnd Hw Eh; apply rep_notin; rewrite Eh; intros Hin.
  assert (Hs : gs_hdr s ∈ gs_hdr <$> g_list gc w)
    by (rewrite Hw, fmap_app, fmap_cons; apply elem_of_app; right; by constructor).
  unfold hdrs, slabs in Hnd; rewrite !fmap_app, !NoDup_app in Hnd.
  destruct Hnd as (N1 & D1 & N2 & D2 & N3 & D3 & N4).
  destruct w; [eapply D1|eapply D2|eapply D3]; try exact Hs; rewrite ?elem_of_app; auto.
Qed.

(** One more object in use, by a client or ([b]) by the allocator itself. *)
Definition give (b : bool) (o : Z) (gc : gcache) : gcache :=
  set_use (if b then g_user gc else o :: g_user gc) (if b then o :: g_int gc else g_int gc) gc.

Lemma give_perm b o gc : g_user (give b o gc) ++ g_int (give b o gc) ≡ₚ o :: g_user gc ++ g_int gc.
Proof. destruct b; cbn; solve_Permutation. Qed.

(** What an operation on existing slabs leaves of a cache. *)
Record evolved (x x' : cache_t) (gc gc' : gcache) : Prop := {
  ev_geom : c_geom x' = c_geom x;
  ev_pages : (gs_hdr <$> slabs gc') ≡ₚ (gs_hdr <$> slabs gc) /\ gpages gc' ≡ₚ gpages gc;
  ev_mags : mags x' gc' ≡ₚ mags x gc;
  ev_skip : g_skip gc' = g_skip gc;
  ev_objs : slabs gc' ≫= gs_objs (c_geom x) ≡ₚ slabs gc ≫= gs_objs (c_geom x)
}.

Lemma evolved_refl x gc : evolved x x gc gc.
Proof. by split. Qed.

Lemma evolved_trans x1 x2 x3 g1 g2 g3 :
  evolved x1 x2 g1 g2 -> evolved x2 x3 g2 g3 -> evolved x1 x3 g1 g3.
Proof.
  intros [A1 [A2 A3] A4 A5 A6] [B1 [B2 B3] B4 B5 B6].
  split; [congruence|split; by etrans|by etrans|congruence|etrans; [|exact A6]; by rewrite <- A1].
Qed.

Lemma evolved_slabs x x' gc gc' :
  c_geom x' = c_geom x -> slabs gc' ≡ₚ slabs gc -> c_cpus x' = c_cpus x ->
  g_dfull gc' = g_dfull gc -> g_dempty gc' = g_dempty gc -> g_skip gc' = g_skip gc ->
  evolved x x' gc gc'.
Proof.
  intros E1 E2 E3 E4 E5 E6; split; try done.
  - unfold gpages; by rewrite E2.
  - unfold mags; by rewrite E3, E4, E5, E6.
  - by rewrite E2.
Qed.

Lemma evolved_rep x gc s s' user int :
  NoDup (hdrs gc) -> s ∈ slabs gc -> gs_hdr s' = gs_hdr s -> gs_page s' = gs_page s ->
  gs_color s' = gs_color s -> evolved x x gc (set_use user int (rep_slab s' gc)).
Proof.
  intros Hnd Hs Eh Ep Ec; destruct (rep_split s s' (slabs gc) Hnd Hs Eh) as (rest & P1 & P2).
  assert (E : slabs (set_use user int (rep_slab s' gc)) ≡ₚ s' :: rest)
    by (change (slabs (rep_slab s' gc) ≡ₚ s' :: rest); by rewrite slabs_rep).
  split; try done; [split; unfold gpages; rewrite E, P1, !fmap_cons; [by rewrite Eh|by rewrite Ep]|].
  rewrite E, P1, !bind_cons; unfold gs_objs, gs_base; by rewrite Ep, Ec.
Qed.

End core.
