(* ===== verification/SlabPage.v ===== *)
(** * Slab allocator: new slabs and their end *)

From stdpp Require Import base tactics option list numbers gmap.
From Stdlib Require Import ZArith Lia.
From S2P Require Import Prelude Pmm PmmInv PmmSpec SlabMem Slab SlabGeom SlabInv SlabLists SlabCore.

Local Open Scope Z_scope.

Section pages.
Context {St : Type} `{Kernel} `{!PageSource St} `{!PageLaws St}.
Implicit Types k : kmem St.

(** ** Threading the free list *)

Lemma thread_objects n : forall i k slab t base size l,
  k_slabs k !! slab = Some t -> s_memory_base t = base -> 8 <= size -> 0 < base -> 0 <= i ->
  base + (i + Z.of_nat n) * size <= 2 ^ 64 ->
  fchain (k_mem k) (s_free_list t) l -> 0 <= s_free_list t < 2 ^ 64 ->
  (forall o, o ∈ l -> o + 8 <= base + i * size) ->
  exists m fl, for_up n i (thread_object slab size) k =
      Ok (with_slabs (<[slab := set_free_list fl t]> (k_slabs k)) (with_mem m k)) /\
    fchain m fl (reverse ((fun j => base + j * size) <$> seqZ i (Z.of_nat n)) ++ l) /\
    (forall a, ~ base + i * size <= a < base + (i + Z.of_nat n) * size -> m !! a = k_mem k !! a).
Proof.
  induction n as [|n IH]; intros i k slab t base size l Ht Hb Hsz Hpos Hi Hend Hch Hfl Hl; cbn [for_up].
  { exists (k_mem k), (s_free_list t); split; [|done].
    rewrite insert_id by (rewrite Ht; by destruct t); by destruct k. }
  set (o := base + i * size) in *.
  set (k1 := with_slabs (<[slab := set_free_list o t]> (k_slabs k))
               (with_mem (store64 o (s_free_list t) (k_mem k)) k)).
  assert (E1 : thread_object slab size i k = Ok k1).
  { unfold thread_object; rewrite (slab_at_ok _ _ _ Ht); mstep; rewrite Hb.
    by rewrite (upd_slab_ok _ slab t). }
  rewrite E1; mstep.
  assert (Ho : 0 < o < 2 ^ 64) by nia.
  destruct (IH (i + 1) k1 slab (set_free_list o t) base size (o :: l)) as (m & fl & E & Hch' & Hm).
  { apply lookup_insert_eq. }
  { done. } { done. } { done. } { lia. } { rewrite <- Hend; nia. }
  { cbn [fchain set_free_list s_free_list k1 with_slabs with_mem k_mem]; split_and!; [done|lia|].
    rewrite load64_store64 by done.
    eapply fchain_ext; [|exact Hch]; intros b a Hb' Ha; apply store64_lookup_ne.
    specialize (Hl _ Hb'); lia. }
  { cbn [set_free_list s_free_list]; lia. }
  { intros b [->|Hb']%elem_of_cons; [nia|]; specialize (Hl _ Hb'); nia. }
  exists m, fl; split; [|split].
  - rewrite E; unfold k1; cbn [with_slabs with_mem k_slabs]; by rewrite insert_insert_eq.
  - rewrite seqZ_cons by lia; rewrite fmap_cons, reverse_cons, <- app_assoc; cbn [app].
    replace (Z.pred (Z.of_nat (S n))) with (Z.of_nat n) by lia; exact Hch'.
  - intros a Ha; rewrite Hm by nia; apply store64_lookup_ne; nia.
Qed.

(** ** Frames *)

(** A step of the cache [c]: apart from [c] itself, the headers [hs], the magazines [ms]
    and the pages [ps] nothing that callers of the page allocator hold changes. *)
Record framed (c : Z) (hs ms ps : list Z) (Hd : gmap Z nat) k k' : Prop := {
  fr_flags q o : Hd !! q = Some o -> q ∉ ps ->
    ps_flags (k_pm k') q = ps_flags (k_pm k) q /\ ps_order (k_pm k') q = ps_order (k_pm k) q;
  fr_mapping q : q ∉ ps -> k_mapping k' !! q = k_mapping k !! q;
  fr_caches c' : c' ≠ c -> k_caches k' !! c' = k_caches k !! c';
  fr_slabs a : a ∉ hs -> k_slabs k' !! a = k_slabs k !! a;
  fr_mags a : a ∉ ms -> k_mags k' !! a = k_mags k !! a;
  fr_mem a : (forall p, p ∈ ps -> ~ in_page p a) -> k_mem k' !! a = k_mem k !! a;
  fr_boot : bootstrap_cache_count k <= bootstrap_cache_count k' <=
              Z.max (bootstrap_cache_count k) SLAB_BOOTSTRAP_CACHES /\
            bootstrap_mag_count k <= bootstrap_mag_count k' <=
              Z.max (bootstrap_mag_count k) SLAB_BOOTSTRAP_MAGAZINES;
  fr_globals : magazine_cache k' = magazine_cache k /\ slab_meta_cache k' = slab_meta_cache k /\
               kmalloc_caches k' = kmalloc_caches k
}.

Lemma framed_trans c hs ms ps Hd k1 k2 k3 :
  framed c hs ms ps Hd k1 k2 -> framed c hs ms ps Hd k2 k3 -> framed c hs ms ps Hd k1 k3.
Proof.
  intros [A1 A2 A3 A4 A5 A6 [A7 A7'] (A8 & A9 & A10)] [B1 B2 B3 B4 B5 B6 [B7 B7'] (B8 & B9 & B10)].
  split; intros; try (split_and?; congruence).
  - destruct (A1 q o), (B1 q o); try done; split; congruence.
  - by rewrite B2, A2.
  - by rewrite B3, A3.
  - by rewrite B4, A4.
  - by rewrite B5, A5.
  - by rewrite B6, A6.
  - lia.
Qed.

Lemma framed_mono c hs hs' ms ms' ps ps' Hd k k' :
  hs ⊆ hs' -> ms ⊆ ms' -> ps ⊆ ps' -> framed c hs ms ps Hd k k' -> framed c hs' ms' ps' Hd k k'.
Proof. intros H1 H2 H3 [A1 A2 A3 A4 A5 A6 A7 A8]; split; eauto. Qed.

Lemma local_framed c hs ms ps (W : Z -> Prop) Hd k k' :
  (forall a, W a -> exists p, p ∈ ps /\ in_page p a) -> local c hs ms W k k' -> framed c hs ms ps Hd k k'.
Proof.
  intros HW [A1 A2 A3 A4 A5 A6 A7 A8]; split; try done.
  - by rewrite A1.
  - by rewrite A2.
  - intros a Ha; apply A6; intros (p & Hp & Hin)%HW; by eapply Ha.
  - destruct A7 as [-> ->]; lia.
Qed.

(** ** A page becomes a slab *)

Lemma has_flag_lor f g i : 0 <= i ->
  has_flag (Z.lor f g) (Z.shiftl 1 i) = has_flag f (Z.shiftl 1 i) || Z.testbit g i.
Proof. intros Hi; by rewrite !has_flag_bit, Z.lor_spec. Qed.

Lemma has_flag_clear f g i : 0 <= i ->
  has_flag (Z.land f (Z.lnot g)) (Z.shiftl 1 i) = has_flag f (Z.shiftl 1 i) && negb (Z.testbit g i).
Proof. intros Hi; by rewrite !has_flag_bit, Z.land_spec, Z.lnot_spec. Qed.

Lemma head_pfn_ok s Hd p : ps_ok s Hd -> Hd !! p = Some 0%nat ->
  Z.shiftr (pmm_page_to_paddr p) PMM_PAGE_SHIFT = p /\
  p2v (Z.shiftl p PMM_PAGE_SHIFT) = page_addr p /\
  u64 (Z.shiftl (p + 0) PMM_PAGE_SHIFT) = p * PMM_PAGE_SIZE.
Proof.
  intros Hs Hp; destruct (ps_place _ _ _ _ p Hs Hp (in_block_self p)) as (H1 & H2 & H3 & H4).
  unfold pmm_page_to_paddr, p2v, page_addr, PMM_PAGE_SHIFT, PMM_PAGE_SIZE in *.
  rewrite Z.add_0_r, !Z.shiftl_mul_pow2 by lia; change (2 ^ 12) with 4096.
  rewrite !(u64_small (p * 4096)), u64_small by lia; split; [|done].
  rewrite Z.shiftr_div_pow2 by lia; apply Z.div_mul; lia.
Qed.

Lemma mark_page_ok Hd k p f (fn : Z -> Z) a :
  ps_ok (k_pm k) Hd -> Hd !! p = Some 0%nat -> ps_flags (k_pm k) p = Ok f ->
  has_flag (fn f) PAGE_FLAG_FREE = has_flag f PAGE_FLAG_FREE ->
  exists s, for_up 1 0 (mark_page p fn a) k =
      Ok (with_mapping (<[p := a]> (k_mapping k)) (with_pm s k)) /\
    ps_ok s Hd /\ ps_flags s p = Ok (fn f) /\
    (forall q, q ≠ p -> ps_flags s q = ps_flags (k_pm k) q) /\
    (forall q, ps_order s q = ps_order (k_pm k) q).
Proof.
  intros Hs Hp Hf Hfree; cbn [for_up]; unfold mark_page.
  destruct (head_pfn_ok _ _ _ Hs Hp) as (_ & _ & ->).
  rewrite (ps_paddr _ _ _ _ p Hs Hp (in_block_self p)), Hf; mstep.
  destruct (ps_set_flags_ok _ _ _ _ p f (fn f) Hs Hp (in_block_self p) Hf Hfree)
    as (s & -> & H1 & H2 & H3 & H4); mstep; by exists s.
Qed.

Lemma slab_inv_frame k k' c g s :
  slab_inv k c g s -> geom_ok g ->
  k_slabs k' !! gs_hdr s = k_slabs k !! gs_hdr s ->
  k_mapping k' !! gs_page s = k_mapping k !! gs_page s ->
  ps_flags (k_pm k') (gs_page s) = ps_flags (k_pm k) (gs_page s) ->
  (forall a, in_page (gs_page s) a -> k_mem k' !! a = k_mem k !! a) ->
  slab_inv k' c g s.
Proof.
  intros [S1 S0 (t & Ht & [B1 B2 B3 B4 B5 B6]) S3 S4 S5 S6] Hg E1 E2 E3 E4.
  split; try done; rewrite ?E1, ?E2, ?E3; try done.
  exists t; split; [done|]; split; try done.
  eapply fchain_ext; [|exact B6]; intros o a Ho Ha; apply E4.
  apply (gs_objs_in_page g s o); auto; pose proof (go_size _ Hg); lia.
Qed.

(** A new slab, off the lists and with all its objects free. *)
Lemma core_add_slab k k' c x x' gc s :
  cache_core k c x gc -> k_caches k' !! c = Some x' ->
  c_geom x' = c_geom x -> 0 <= c_color_next x' <= c_color_max (c_geom x) ->
  c_lists x' = c_lists x -> c_depot x' = c_depot x -> c_cpus x' = c_cpus x ->
  (forall a, a ≠ gs_hdr s -> k_slabs k' !! a = k_slabs k !! a) ->
  k_mags k' = k_mags k -> (forall a, ~ in_page (gs_page s) a -> k_mem k' !! a = k_mem k !! a) ->
  (forall q, q ≠ gs_page s -> k_mapping k' !! q = k_mapping k !! q) ->
  (forall q, q ≠ gs_page s -> ps_flags (k_pm k') q = ps_flags (k_pm k) q) ->
  gs_hdr s ∉ hdrs gc -> gs_page s ∉ gpages gc ->
  slab_inv k' c (c_geom x) s -> gs_free s ≡ₚ gs_objs (c_geom x) s ->
  cache_core k' c x' (set_slabs (g_list gc) (s :: g_float gc) gc).
Proof.
  intros HC Hx G1 G2 G3 G4 G5 F1 F2 F3 F4 F5 Nh Np HS Hfree.
  pose proof HC as [C1 C2 C3 C4 C5 C6 C7 C8 C9 C10 C11 C12].
  assert (Hs : slabs (set_slabs (g_list gc) (s :: g_float gc) gc) ≡ₚ s :: slabs gc)
    by (unfold slabs; cbn [set_slabs g_list g_float]; solve_Permutation).
  split; try done.
  - by rewrite G1.
  - by rewrite G1.
  - intros w; rewrite G3; apply C5.
  - intros w; eapply slab_linked_ext; [|apply C6]; intros a Ha; apply F1; intros ->; apply Nh.
    by apply (hdrs_w _ w).
  - rewrite Hs, G1; constructor; [done|]; apply Forall_forall; intros u Hu.
    assert (gs_hdr u ≠ gs_hdr s) by (intros E; apply Nh; rewrite <- E; by apply list_elem_of_fmap_2).
    assert (gs_page u ≠ gs_page s) by (intros E; apply Np; rewrite <- E; by apply list_elem_of_fmap_2).
    eapply slab_inv_frame; [by eapply (core_slab HC)|apply (core_geom HC)|auto..].
    intros a Ha; apply F3; intros Hin; by eapply in_page_inj in Ha.
  - unfold hdrs; rewrite Hs; constructor; done.
  - unfold gpages; rewrite Hs; constructor; done.
  - by rewrite G5.
  - rewrite F2; destruct C11; split; unfold mags in *; rewrite ?G4, ?G5; done.
  - unfold where_objs in *; rewrite Hs, !bind_cons, G1, F2, <- C12, Hfree.
    replace (mags x' _) with (mags x gc) by (unfold mags; by rewrite G5).
    cbn [set_slabs g_user g_int]; solve_Permutation.
Qed.

Lemma color_step g color :
  geom_ok g -> 0 <= color <= c_color_max g -> c_color_align g <= c_color_max g ->
  0 <= u64 (color + c_color_align g) `mod` u64 (c_color_max g + 1) <= c_color_max g.
Proof.
  intros [Hs _ H1 _ H2 -> H3 H4] Hc Hle; unfold PMM_PAGE_SIZE, sizeof_slab in *.
  assert (c_color_max g <= 4096) by (destruct (c_off_slab g); nia).
  rewrite (u64_small (c_color_max g + 1)) by lia.
  pose proof (Z.mod_pos_bound (u64 (color + 64)) (c_color_max g + 1) ltac:(lia)); lia.
Qed.

Lemma fill_slab_ok k h t g s Hd :
  geom_ok g -> c_ctor g = 0 -> ps_ok (k_pm k) Hd -> Hd !! gs_page s = Some 0%nat ->
  0 <= gs_color s <= c_color_max g -> k_slabs k !! h = Some t -> s_memory_base t = gs_base s ->
  exists m fl, fill_slab h g k =
      Ok (with_slabs (<[h := set_free_list fl t]> (k_slabs k)) (with_mem m k)) /\
    fchain m fl (reverse (gs_objs g s)) /\
    (forall a, ~ in_page (gs_page s) a -> m !! a = k_mem k !! a).
Proof.
  intros Hg Hct Hs Hp Hc Ht Hb; unfold fill_slab; rewrite decide_True by done.
  rewrite (upd_slab_ok _ _ _ _ Ht); mstep; set (k1 := with_slabs _ k).
  destruct (ps_place _ _ _ _ (gs_page s) Hs Hp (in_block_self _)) as (_ & _ & H3 & H4).
  pose proof Hg as [Hsz _ Ho _ _ _ Hf Hh]; unfold PMM_PAGE_SIZE, sizeof_slab in *.
  assert (Hend : gs_color s + c_objs_per_slab g * c_obj_size g <= 4096)
    by (destruct (c_off_slab g); lia).
  destruct (thread_objects (Z.to_nat (c_objs_per_slab g)) 0 k1 h (set_free_list 0 t) (gs_base s)
    (c_obj_size g) []) as (m & fl & -> & Hch & Hm); try done.
  { apply lookup_insert_eq. }
  { unfold gs_base; lia. }
  { rewrite Z2Nat.id by lia; unfold gs_base; lia. }
  { intros o Ho'; by apply elem_of_nil in Ho'. }
  exists m, fl; split; [|split].
  - unfold k1; cbn [with_slabs with_mem k_slabs]; by rewrite insert_insert_eq.
  - rewrite Z2Nat.id, app_nil_r in Hch by lia; exact Hch.
  - intros a Ha; apply Hm; rewrite Z2Nat.id by lia; unfold in_page, PMM_PAGE_SIZE, gs_base in *; lia.
Qed.

Definition recolored (g : geometry) (x : cache_t) : cache_t :=
  if decide (c_color_align g <= c_color_max g) then
    set_color_next (u64 (c_color_next x + c_color_align g) `mod` u64 (c_color_max g + 1)) x
  else x.

Lemma place_slab_ok k c x gc h t p Hd :
  cache_core k c x gc -> ps_ok (k_pm k) Hd -> Hd !! p = Some 0%nat ->
  ps_flags (k_pm k) p = Ok PAGE_FLAG_KERNEL -> p ∉ gpages gc -> h ∉ hdrs gc -> h ≠ 0 ->
  k_slabs k !! h = Some t -> s_is_off_slab t = c_off_slab (c_geom x) ->
  (c_off_slab (c_geom x) = false -> h = page_addr p + PMM_PAGE_SIZE - header_bytes (c_geom x)) ->
  exists k' s, place_slab c h p (page_addr p) (c_geom x) k = Ok k' /\
    gs_hdr s = h /\ gs_page s = p /\ Z.of_nat (length (gs_free s)) = c_objs_per_slab (c_geom x) /\
    cache_core k' c (recolored (c_geom x) x) (set_slabs (g_list gc) (s :: g_float gc) gc) /\
    framed c [h] [] [p] Hd k k' /\ ps_ok (k_pm k') Hd.
Proof.
  intros HC Hs Hp Hf Np Nh Hnz Ht Hoff Hon; unfold place_slab.
  pose proof (core_geom HC) as Hg; pose proof (ci_color _ _ _ _ HC) as Hcol.
  rewrite (go_order _ Hg); change (Z.to_nat (pow2 0)) with 1%nat.
  destruct (mark_page_ok Hd k p _ (fun f => Z.lor f PAGE_FLAG_SLAB) h Hs Hp Hf) as (s1 & -> & Hs1 & Hf1 & Hfo & Hor);
    [reflexivity|]; mstep.
  rewrite (cache_at_ok _ c x) by apply HC; mstep.
  rewrite (upd_slab_ok _ h t) by done; mstep.
  set (g := c_geom x) in *; set (s := GSlab h p (c_color_next x) (reverse (gs_objs g
    (GSlab h p (c_color_next x) [])))).
  set (t1 := set_place _ _ _ _ t); set (k1 := with_slabs _ _).
  set (k2 := with_caches (<[c := recolored g x]> (k_caches k)) k1).
  assert (E2 : (if decide (c_color_align g <= c_color_max g) then
    upd_cache c (set_color_next (u64 (c_color_next x + c_color_align g) `mod` u64 (c_color_max g + 1))) k1
    else Ok k1) = Ok k2).
  { unfold k2, recolored; destruct (decide _); [by rewrite (upd_cache_ok _ c x) by apply HC|].
    rewrite insert_id by apply HC; done. }
  rewrite E2; mstep.
  destruct (fill_slab_ok k2 h t1 g s Hd) as (m & fl & -> & Hch & Hm); try done.
  { apply (core_plain _ _ _ _ HC). }
  { unfold k2, k1; cbn [with_caches with_slabs k_slabs]; apply lookup_insert_eq. }
  eexists _, s; split; [done|].
  assert (Hlen : Z.of_nat (length (gs_free s)) = c_objs_per_slab g)
    by (cbn [s gs_free]; rewrite length_reverse; by apply gs_objs_length).
  split_and!; try done.
  - eapply (core_add_slab k); try done.
    + unfold k2; cbn; apply lookup_insert_eq.
    + unfold recolored; by destruct (decide _).
    + unfold recolored; destruct (decide _); [by apply color_step|done].
    + unfold recolored; by destruct (decide _).
    + unfold recolored; by destruct (decide _).
    + unfold recolored; by destruct (decide _).
    + intros a Ha; cbn; by rewrite !lookup_insert_ne.
    + intros q Hq; cbn; by rewrite lookup_insert_ne.
    + split; try done.
      * intros o; cbn [s gs_free]; by rewrite elem_of_reverse.
      * eexists; split; [apply lookup_insert_eq|]; split; try done.
        change (0 = c_objs_per_slab g - Z.of_nat (length (gs_free s))); lia.
      * cbn; apply lookup_insert_eq.
      * eexists; split; [exact Hf1|]; by vm_compute.
    + cbn [s gs_free]; by rewrite reverse_Permutation.
  - split; try done.
    + intros q o Hq Hn; rewrite list_elem_of_singleton in Hn; split; [by apply Hfo|apply Hor].
    + intros q Hq; rewrite list_elem_of_singleton in Hq; cbn; by rewrite lookup_insert_ne.
    + intros c' Hc'; cbn; by rewrite lookup_insert_ne.
    + intros a Ha; rewrite list_elem_of_singleton in Ha; cbn; by rewrite !lookup_insert_ne.
    + intros a Ha; apply Hm; apply Ha; by constructor.
    + cbn; lia.
Qed.

(** ** A slab goes back to the page allocator *)

Lemma all_free_perm k c x gc s :
  cache_core k c x gc -> s ∈ slabs gc -> Z.of_nat (length (gs_free s)) = c_objs_per_slab (c_geom x) ->
  gs_free s ≡ₚ gs_objs (c_geom x) s.
Proof.
  intros HC Hs Hlen; apply submseteq_length_Permutation.
  - apply NoDup_submseteq; [|apply (core_slab HC _ Hs)].
    pose proof (core_where_nodup HC) as Hnd; apply NoDup_app in Hnd as [Hnd _].
    apply elem_of_Permutation in Hs as [l Hl]; rewrite Hl, bind_cons in Hnd.
    by apply NoDup_app in Hnd as [Hnd _].
  - pose proof (gs_objs_length (c_geom x) s (core_geom HC)); lia.
Qed.

Lemma core_drop_slab k k' c x gc s fl :
  cache_core k c x gc -> g_float gc = s :: fl ->
  Z.of_nat (length (gs_free s)) = c_objs_per_slab (c_geom x) ->
  k_caches k' !! c = Some x ->
  (forall a, a ≠ gs_hdr s -> k_slabs k' !! a = k_slabs k !! a) ->
  k_mags k' = k_mags k -> k_mem k' = k_mem k ->
  (forall q, q ≠ gs_page s -> k_mapping k' !! q = k_mapping k !! q) ->
  (forall q, q ∈ gpages gc -> q ≠ gs_page s -> ps_flags (k_pm k') q = ps_flags (k_pm k) q) ->
  cache_core k' c x (set_slabs (g_list gc) fl gc).
Proof.
  intros HC Hf Hlen Hx F1 F2 F3 F4 F5; pose proof HC as [C1 C2 C3 C4 C5 C6 C7 C8 C9 C10 C11 C12].
  set (gc' := set_slabs (g_list gc) fl gc).
  assert (Hs : slabs gc ≡ₚ s :: slabs gc').
  { unfold slabs; cbn [gc' set_slabs g_list g_float]; rewrite Hf; solve_Permutation. }
  assert (Hin : s ∈ slabs gc) by (rewrite Hs; by constructor).
  pose proof (all_free_perm _ _ _ _ _ HC Hin Hlen) as Hfree.
  unfold hdrs in C8; unfold gpages in C9; rewrite Hs in C8, C9.
  apply NoDup_cons in C8 as [Nh C8], C9 as [Np C9].
  split; try done.
  - intros w; eapply slab_linked_ext; [|apply C6]; intros a Ha; apply F1; intros ->.
    by apply (float_not_listed gc w s fl (ci_hdrs _ _ _ _ HC) Hf).
  - apply Forall_forall; intros u Hu.
    assert (gs_hdr u ≠ gs_hdr s) by (intros E; apply Nh; rewrite <- E; by apply list_elem_of_fmap_2).
    assert (gs_page u ≠ gs_page s) by (intros E; apply Np; rewrite <- E; by apply list_elem_of_fmap_2).
    assert (Hu' : u ∈ slabs gc) by (rewrite Hs; by constructor).
    eapply slab_inv_frame; [by eapply (core_slab HC)|apply (core_geom HC)|auto..].
    + apply F5; [by apply list_elem_of_fmap_2|done].
    + intros; by rewrite F3.
  - rewrite F2; by destruct C11.
  - unfold where_objs in *; rewrite F2; rewrite Hs, !bind_cons, Hfree in C12.
    rewrite <- app_assoc in C12; by apply Permutation_app_inv_l in C12.
Qed.

Lemma slab_destroy_page_ok fm cpu k c x gc s fl Hd :
  cache_core k c x gc -> g_float gc = s :: fl ->
  Z.of_nat (length (gs_free s)) = c_objs_per_slab (c_geom x) ->
  ps_ok (k_pm k) Hd -> (forall q, q ∈ gpages gc -> Hd !! q = Some 0%nat) ->
  exists k', slab_destroy_page fm cpu c (gs_hdr s) k =
      (if decide (c_off_slab (c_geom x) = true /\ slab_meta_cache k ≠ 0) then fm (gs_hdr s) k' else Ok k') /\
    cache_core k' c x (set_slabs (g_list gc) fl gc) /\
    framed c [gs_hdr s] [] [gs_page s] Hd k k' /\ ps_ok (k_pm k') (delete (gs_page s) Hd) /\
    k_mem k' = k_mem k.
Proof.
  intros HC Hf Hlen Hs Hheld; set (p := gs_page s).
  assert (Hin : s ∈ slabs gc) by (unfold slabs; rewrite Hf, !elem_of_app, elem_of_cons; auto).
  assert (Hp : Hd !! p = Some 0%nat) by (apply Hheld; by apply list_elem_of_fmap_2).
  destruct (core_slab HC _ Hin) as [S1 S0 (t & Ht & [B1 B2 B3 B4 B5 B6]) S3 (f & Hfl & F1 & F2) S5 S6].
  unfold slab_destroy_page; rewrite decide_False by (intros [?|?]; [done|by eapply (ci_nonnull _ _ _ _ HC)]).
  rewrite (cache_at_ok _ _ _ (ci_cache _ _ _ _ HC)); mstep; rewrite (slab_at_ok _ _ _ Ht); mstep.
  destruct (core_plain _ _ _ _ HC) as [_ Hdt]; rewrite (decide_False (P:=c_dtor _ ≠ 0)) by auto; mstep.
  pose proof (core_geom HC) as Hg; pose proof Hg as [Hsz _ Ho _ _ _ Hfit Hh]; rewrite B2.
  assert (Hbase : in_page p (gs_base s)).
  { unfold in_page, gs_base, p, PMM_PAGE_SIZE, sizeof_slab in *; destruct (c_off_slab _); nia. }
  rewrite (ps_vaddr _ _ _ _ p _ Hs Hp (in_block_self p) Hbase).
  destruct (head_pfn_ok _ _ _ Hs Hp) as (-> & _ & _).
  rewrite (go_order _ Hg); change (Z.to_nat (pow2 0)) with 1%nat.
  destruct (mark_page_ok Hd k p f (fun f => Z.land f (Z.lnot PAGE_FLAG_SLAB)) 0 Hs Hp Hfl)
    as (s1 & -> & Hs1 & Hf1 & Hfo & Hor).
  { unfold PAGE_FLAG_FREE, PAGE_FLAG_SLAB; rewrite has_flag_clear by lia; by rewrite andb_true_r. }
  mstep; cbn [with_mapping with_pm k_pm].
  destruct (ps_free_ok s1 Hd cpu p 0 Hs1 Hp) as (s2 & -> & Hs2 & Hfl2); mstep.
  rewrite (slab_at_ok _ _ t) by done; mstep; rewrite B5; eexists; split; [done|].
  split_and!; [| |done|done].
  - eapply (core_drop_slab k); try done; [apply HC|..].
    + intros a Ha; cbn; by rewrite lookup_delete_ne.
    + intros q Hq; cbn; by rewrite lookup_insert_ne.
    + intros q Hq Hne; cbn; destruct (Hfl2 q 0%nat Hne (Hheld _ Hq)) as [-> _]; by apply Hfo.
  - split; try done.
    + intros q o Hq Hn; rewrite list_elem_of_singleton in Hn.
      destruct (Hfl2 q o Hn Hq) as [E1 E2]; cbn [with_slabs with_pm k_pm]; rewrite E1, E2; split; [by apply Hfo|apply Hor].
    + intros q Hq; rewrite list_elem_of_singleton in Hq; cbn; by rewrite lookup_insert_ne.
    + intros a Ha; rewrite list_elem_of_singleton in Ha; cbn; by rewrite lookup_delete_ne.
    + cbn; lia.
Qed.

End pages.
