(* ===== verification/SlabAlloc.v ===== *)
(** * Slab allocator: allocation from and release to the slabs of a cache *)

From stdpp Require Import base tactics option list numbers gmap.
From Stdlib Require Import ZArith Lia.
From S2P Require Import Prelude Pmm PmmInv SlabMem Slab SlabGeom SlabInv SlabLists SlabCore.

Local Open Scope Z_scope.

Section alloc.
Context {St : Type} `{Kernel} `{!PageSource St} `{!PageLaws St}.
Implicit Types k : kmem St.

Lemma at_rest_intro x gc P F E :
  g_list gc Partial = P -> g_list gc Full = F -> g_list gc Empty = E -> g_float gc = [] ->
  Forall (shape_ok (c_geom x) Partial) P -> Forall (shape_ok (c_geom x) Full) F ->
  Forall (shape_ok (c_geom x) Empty) E ->
  empty_slab_count (c_lists x) = Z.of_nat (length E) -> (length E <= 4)%nat -> at_rest x gc.
Proof. intros <- <- <- Hf HP HF HE Hc H4; split; try done; by intros []. Qed.

Lemma evolved_hdrs x x' gc gc' : evolved x x' gc gc' -> hdrs gc' ⊆ hdrs gc.
Proof. intros [_ [Hh _] _ _ _] a; unfold hdrs; by rewrite Hh. Qed.

Lemma local_evolved c x x' gc gc' W k k' :
  evolved x x' gc gc' -> local c (hdrs gc') [] W k k' -> local c (hdrs gc) [] W k k'.
Proof. intros He; apply local_mono; [by eapply evolved_hdrs|done|done]. Qed.

(** A slab moves from one list to the head of another. *)
Lemma core_move k c x gc w w' l1 s l2 :
  cache_core k c x gc -> g_float gc = [] -> g_list gc w = l1 ++ s :: l2 -> w' ≠ w ->
  let gc' := set_slabs (upd_w w' (s :: g_list gc w') (upd_w w (l1 ++ l2) (g_list gc))) [] gc in
  exists k' x', (k ← list_remove_slab c w (gs_hdr s) k; list_add_slab c w' (gs_hdr s) k) = Ok k' /\
    cache_core k' c x' gc' /\ evolved x x' gc gc' /\ local c (hdrs gc) [] nowhere k k' /\
    empty_slab_count (c_lists x') = empty_slab_count (c_lists x).
Proof.
  intros HC Hf Hw Hne gc'.
  destruct (core_list_remove k c x gc w l1 s l2 HC Hw) as (k1 & -> & HC1 & L1 & P1); mstep.
  rewrite Hf in HC1, P1; set (x1 := relisted w _ x) in *; set (gc1 := set_slabs _ [s] gc) in *.
  destruct (core_list_add k1 c x1 gc1 w' s [] HC1 eq_refl) as (k2 & -> & HC2 & L2 & P2).
  assert (E : set_slabs (upd_w w' (s :: g_list gc1 w') (g_list gc1)) [] gc1 = gc').
  { unfold gc', gc1; cbn [set_slabs g_list g_dfull g_dempty g_skip g_user g_int].
    by rewrite (upd_w_ne w w') by done. }
  rewrite E in HC2, P2; eexists _, _; split; [done|]; split; [exact HC2|].
  assert (He : evolved x x1 gc gc1) by (by apply evolved_slabs).
  split_and!.
  - apply evolved_slabs; try done; by rewrite P2.
  - eapply local_trans; [exact L1|]; by eapply local_evolved.
  - by destruct w, w'.
Qed.

(** A cache at rest but for the slab [s], first on the partial list, which has a free
    object and possibly none in use. *)
Record about_to_take (x : cache_t) (gc : gcache) (s : gslab) (l : list gslab) : Prop := {
  at_partial : g_list gc Partial = s :: l;
  at_float : g_float gc = [];
  at_free : gs_free s ≠ [];
  at_rest_partial : Forall (shape_ok (c_geom x) Partial) l;
  at_full : Forall (shape_ok (c_geom x) Full) (g_list gc Full);
  at_empty : Forall (shape_ok (c_geom x) Empty) (g_list gc Empty);
  at_count : empty_slab_count (c_lists x) = Z.of_nat (length (g_list gc Empty));
  at_four : (length (g_list gc Empty) <= 4)%nat
}.

(** The outcome of an operation that gives out an object of existing slabs. *)
Definition taken k (c : Z) (x : cache_t) (gc : gcache) (s : gslab) (b : bool) (o : Z) k' : Prop :=
  exists x' gc', cache_inv k' c x' (give b o gc') /\ evolved x x' gc gc' /\
    g_user gc' = g_user gc /\ g_int gc' = g_int gc /\ local c (hdrs gc) [] nowhere k k' /\
    o ∈ gs_objs (c_geom x) s.

Lemma take_object_ok k c x gc s l b :
  cache_core k c x gc -> about_to_take x gc s l ->
  exists o k', take_object c (gs_hdr s) k = Ok (o, k') /\ o ≠ 0 /\ taken k c x gc s b o k'.
Proof.
  intros HC [A1 A2 A3 A4 A5 A6 A7 A8]; destruct (gs_free s) as [|o fr] eqn:Hf; [done|].
  assert (Hs : s ∈ slabs gc) by (unfold slabs; rewrite A1; by constructor).
  destruct (si_body _ _ _ _ (core_slab HC _ Hs)) as (t & Ht & HB).
  destruct (core_take k c x gc s o fr t _ _ HC Hs Hf Ht (give_perm b o gc))
    as (E1 & Hnz & Hin & HC1); set (next := load64 (k_mem k) o) in *.
  pose proof (bo_inuse _ _ _ _ _ HB) as Hn; pose proof (bo_total _ _ _ _ _ HB) as Htot.
  rewrite Hf in Hn; cbn [length] in Hn.
  pose proof (core_geom HC) as [_ _ Hobjs _ _ _ _ _].
  set (s' := set_gfree fr s) in *; set (gc1 := rep_slab s' gc).
  pose proof (rep_w gc Partial [] s l s' (ci_hdrs _ _ _ _ HC) A1 eq_refl) as [R1 R2].
  pose proof (rep_float gc Partial [] s l s' (ci_hdrs _ _ _ _ HC) A1 eq_refl) as R3.
  change (cache_core _ c x _) with (cache_core (with_slabs (<[gs_hdr s := set_inuse (s_inuse_count t + 1)
    (set_free_list next t)]> (k_slabs k)) k) c x (give b o gc1)) in HC1.
  set (k1 := with_slabs _ k) in HC1.
  assert (Hloc : local c (hdrs gc) [] nowhere k k1)
    by (apply (slab_local k c _ _ _ (k_mem k)); [by apply list_elem_of_fmap_2|done]).
  assert (Hev : evolved x x gc gc1) by (by apply (evolved_rep x gc s s' (g_user gc) (g_int gc)); [apply HC|..]).
  assert (Ho : o ∈ gs_objs (c_geom x) s) by (apply (core_slab HC _ Hs); rewrite Hf; constructor).
  unfold take_object; rewrite (cache_at_ok _ _ _ (ci_cache _ _ _ _ HC)); mstep.
  rewrite (slab_at_ok _ _ _ Ht); mstep; rewrite decide_True by apply (core_plain _ _ _ _ HC).
  rewrite E1, decide_True by done; fold next; rewrite (upd_slab_ok _ _ _ _ Ht); mstep.
  rewrite decide_False by done; rewrite u64_small by lia.
  rewrite (upd_slab_ok _ _ (set_free_list next t)) by apply lookup_insert_eq; mstep.
  cbn [with_slabs k_slabs]; rewrite insert_insert_eq; change (with_slabs _ _) with k1.
  case_decide as Hfull.
  - assert (fr = []) as -> by (destruct fr; [done|]; simpl in Hn; lia).
    destruct (core_move k1 c x (give b o gc1) Partial Full [] s' l HC1) as (k2 & x2 & E2 & HC2 & V2 & L2 & N2);
      [unfold give, gc1; cbn [set_use g_float]; by rewrite R3|exact R1|done|].
    change (gs_hdr s') with (gs_hdr s) in E2; rewrite E2; mstep.
    exists o, k2; split; [done|]; split; [done|].
    exists x2, (set_slabs (upd_w Full (s' :: g_list gc1 Full) (upd_w Partial l (g_list gc1))) [] gc1).
    pose proof (ev_geom _ _ _ _ V2) as Eg; split; [split; [exact HC2|]|split_and!; try done].
    + apply (at_rest_intro _ _ l (s' :: g_list gc Full) (g_list gc Empty)); rewrite ?Eg, ?N2; try done.
      * cbn [give set_use set_slabs g_list]; rewrite upd_w_eq; f_equal; by apply R2.
      * by apply (R2 Empty).
      * by constructor.
    + eapply evolved_trans; [exact Hev|]; by destruct V2; split.
    + eapply local_trans; [exact Hloc|]; eapply local_evolved; [exact Hev|]; exact L2.
  - exists o, k1; split; [done|]; split; [done|]; exists x, gc1.
    split; [split; [exact HC1|]|split_and!; done].
    eapply at_rest_intro; [exact R1|by apply R2|by apply R2|..]; try done.
    + unfold give, gc1; cbn [set_use g_float]; by rewrite R3.
    + constructor; [|done]; cbn [shape_ok set_gfree gs_free s']; destruct fr; simpl in *; lia.
Qed.

Definition recount (d : Z) (x : cache_t) : cache_t := set_lists (add_empty d (c_lists x)) x.

Lemma core_recount k c x gc d :
  cache_core k c x gc ->
  cache_core (with_caches (<[c := recount d x]> (k_caches k)) k) c (recount d x) gc /\
  local c [] [] nowhere k (with_caches (<[c := recount d x]> (k_caches k)) k) /\
  evolved x (recount d x) gc gc.
Proof.
  intros HC; split; [|split].
  - apply (core_relink k c x gc (recount d x) gc (k_slabs k)); try done; try apply HC.
  - split; try done; intros c' Hc'; cbn [with_caches k_caches]; by rewrite lookup_insert_ne.
  - by apply evolved_slabs.
Qed.

Lemma hd0_hdr k c x gc w : cache_core k c x gc ->
  lhead w (c_lists x) ≠ 0 <-> g_list gc w ≠ [].
Proof.
  intros HC; rewrite (ci_head _ _ _ _ HC w); destruct (g_list gc w) as [|s l] eqn:E; [done|].
  split; [done|intros _]; cbn [fmap list_fmap hd0]; apply (core_hdr_nonzero _ _ _ _ _ HC).
  apply (hdrs_w _ w); rewrite E; by constructor.
Qed.

Lemma choose_existing am cpu k c x gc :
  cache_inv k c x gc -> g_list gc Partial ≠ [] \/ g_list gc Empty ≠ [] ->
  exists s l k' x' gc', choose_slab am cpu c k = Ok (gs_hdr s, k') /\ cache_core k' c x' gc' /\
    about_to_take x' gc' s l /\ evolved x x' gc gc' /\ local c (hdrs gc) [] nowhere k k' /\
    g_user gc' = g_user gc /\ g_int gc' = g_int gc.
Proof.
  intros [HC [R1 R2 R3 R4]] Hne; unfold choose_slab; rewrite (cache_at_ok _ _ _ (ci_cache _ _ _ _ HC)); mstep.
  pose proof (hd0_hdr _ _ _ _ Partial HC) as HP; pose proof (hd0_hdr _ _ _ _ Empty HC) as HE.
  pose proof (R2 Partial) as SP; pose proof (core_geom HC) as [_ _ Hobjs _ _ _ _ _].
  cbn [lhead] in HP, HE; destruct (g_list gc Partial) as [|s l] eqn:EP.
  - destruct Hne as [|Hne]; [done|]; rewrite decide_False by (rewrite HP; auto).
    rewrite decide_True by (by rewrite HE).
    pose proof (ci_head _ _ _ _ HC Empty) as Hh; cbn [lhead] in Hh.
    pose proof (R2 Empty) as SE.
    destruct (g_list gc Empty) as [|s l] eqn:EE; [done|]; cbn [fmap list_fmap hd0] in Hh; rewrite Hh.
    destruct (core_list_remove k c x gc Empty [] s l HC EE) as (k1 & -> & HC1 & L1 & P1); mstep.
    rewrite R1 in HC1, P1.
    set (x1 := relisted Empty _ x) in *; set (gc1 := set_slabs _ _ gc) in *.
    assert (V1 : evolved x x1 gc gc1) by (by apply evolved_slabs).
    rewrite (upd_cache_ok _ _ _ _ (ci_cache _ _ _ _ HC1)); mstep.
    destruct (core_recount k1 c x1 gc1 (-1) HC1) as (HC2 & L2 & V2).
    set (x2 := recount (-1) x1) in *; set (k2 := with_caches _ k1) in *.
    destruct (core_list_add k2 c x2 gc1 Partial s [] HC2 eq_refl) as (k3 & -> & HC3 & L3 & P3); mstep.
    eexists s, [], k3, _, _; split; [done|]; split; [exact HC3|].
    inversion SE as [|? ? S1 S2]; subst; cbn [shape_ok] in S1; simpl in R3, R4.
    split; [|split_and!; try done].
    + split; try done.
      * cbn [set_slabs g_list]; rewrite upd_w_eq; f_equal; exact EP.
      * intros Hf; rewrite Hf in S1; simpl in S1; lia.
      * change (u64 (empty_slab_count (c_lists x) + -1) = Z.of_nat (length l)).
        rewrite R3, u64_small; lia.
      * change (length l <= 4)%nat; lia.
    + eapply evolved_trans; [exact V1|]; eapply evolved_trans; [exact V2|]; by apply evolved_slabs.
    + eapply local_trans; [exact L1|]; eapply local_evolved; [exact V1|].
      eapply local_trans; [eapply local_mono; [| |done|exact L2]|exact L3]; apply list_subseteq_nil.
  - rewrite decide_True by (by rewrite HP).
    pose proof (ci_head _ _ _ _ HC Partial) as Hh; cbn [lhead] in Hh; rewrite EP in Hh.
    inversion SP as [|? ? S1 S2]; subst; cbn [shape_ok] in S1.
    exists s, l, k, x, gc; split; [by rewrite Hh|]; split; [done|]; split; [|split_and!; try done].
    + split; try done; try apply (R2 Full); try apply (R2 Empty).
      intros Hf; rewrite Hf in S1; simpl in S1; lia.
Qed.

(** ** Writing to an object in use *)

Lemma core_write k c x gc o m :
  cache_core k c x gc -> o ∈ g_user gc ++ g_int gc ->
  (forall a, ~ within o (c_obj_size (c_geom x)) a -> m !! a = k_mem k !! a) ->
  cache_core (with_mem m k) c x gc.
Proof.
  intros HC Ho Hm; pose proof HC as [C1 C2 C3 C4 C5 C6 C7 C8 C9 C10 C11 C12].
  split; try done; apply Forall_forall; intros s Hs.
  destruct (core_slab HC _ Hs) as [S1 S0 (t & Ht & [B1 B2 B3 B4 B5 B6]) S3 S4 S5 S6]; split; try done.
  exists t; split; [done|]; split; try done.
  eapply fchain_ext; [|exact B6]; intros f a Hf Ha; apply Hm; intros Hin.
  pose proof (core_where_nodup HC) as Hnd; unfold where_objs in Hnd.
  assert (Hfw : f ∈ slabs gc ≫= gs_free) by (apply elem_of_bind; eauto).
  pose proof (core_size HC); eapply (core_objs_apart HC f o a); [| | |lia|done].
  - unfold where_objs; rewrite !elem_of_app; auto.
  - unfold where_objs; rewrite elem_of_app, (elem_of_app (mags x gc ≫= _)); auto.
  - intros ->; apply NoDup_app in Hnd as (_ & Hd & _); apply (Hd o Hfw).
    rewrite elem_of_app; auto.
Qed.

(** The page of an object. *)
Lemma obj_page k c x gc o a :
  cache_core k c x gc -> o ∈ slabs gc ≫= gs_objs (c_geom x) -> within o (c_obj_size (c_geom x)) a ->
  exists p, p ∈ gpages gc /\ in_page p a.
Proof.
  intros HC (s & Ho & Hs)%elem_of_bind Ha; exists (gs_page s); split; [by apply list_elem_of_fmap_2|].
  by eapply (core_obj_in_page HC).
Qed.

(** The addresses of all objects are usable pointers. *)
Definition addressable (x : cache_t) (gc : gcache) : Prop :=
  forall o, o ∈ slabs gc ≫= gs_objs (c_geom x) -> 0 < o < 2 ^ 64.

Lemma zero_object_ok k c x gc o :
  cache_inv k c x gc -> o ∈ g_user gc ++ g_int gc -> o ≠ 0 ->
  exists k', zero_object (c_geom x) o k = Ok k' /\ cache_inv k' c x gc /\
    local c [] [] (within o (c_obj_size (c_geom x))) k k'.
Proof.
  intros [HC HR] Ho Hnz; pose proof (core_size HC); unfold zero_object; case_decide.
  - rewrite slab_zero_fast_ok by (done || lia); mstep; eexists; split; [done|].
    assert (Hm : forall a, ~ within o (c_obj_size (c_geom x)) a ->
      store_list o (replicate (Z.to_nat (c_obj_size (c_geom x))) 0) (k_mem k) !! a = k_mem k !! a).
    { intros a Ha; rewrite store_list_lookup, length_replicate, decide_False; [done|].
      unfold within in Ha; lia. }
    split; [split; [by eapply core_write|done]|by split].
  - exists k; split; [done|]; split; [done|apply local_refl].
Qed.

(** An object from a magazine. *)
Lemma pop_object_ok k c x gc a b :
  cache_inv k c x gc -> addressable x gc -> a ∈ mags x gc -> mag_objs (k_mags k) a ≠ [] ->
  (a ∈ g_dfull gc -> (2 <= length (mag_objs (k_mags k) a))%nat) ->
  exists o k', pop_object (c_geom x) a k = Ok (o, k') /\ o ≠ 0 /\ cache_inv k' c x (give b o gc) /\
    local c [] [a] (within o (c_obj_size (c_geom x))) k k' /\
    o ∈ slabs gc ≫= gs_objs (c_geom x) /\ o ∉ g_user gc ++ g_int gc.
Proof.
  intros [HC HR] Hadr Ha Hne H2; pose proof (ci_mags _ _ _ _ HC) as HM.
  destruct (proj1 (Forall_forall _ _) (mo_mag _ _ _ HM) a Ha) as [_ Hok].
  destruct (mag_nonempty _ _ Hok Hne) as (g & os & o & _ & Hos & _).
  destruct (mag_pop_ok k c x gc a os o (g_user (give b o gc)) (g_int (give b o gc)) HC Ha Hos)
    as (k1 & E1 & HC1 & L1 & _).
  { intros Hin ->; specialize (H2 Hin); rewrite Hos in H2; simpl in H2; lia. }
  { apply give_perm. }
  assert (Hin : o ∈ mags x gc ≫= mag_objs (k_mags k)).
  { apply elem_of_bind; exists a; rewrite Hos; split; [|done]; apply elem_of_app; right; constructor. }
  assert (Hall : o ∈ slabs gc ≫= gs_objs (c_geom x)).
  { rewrite <- (ci_objs _ _ _ _ HC); unfold where_objs; rewrite !elem_of_app; auto. }
  unfold pop_object; rewrite E1; mstep.
  destruct (zero_object_ok k1 c x (give b o gc) o) as (k2 & -> & HI2 & L2).
  { split; [done|]; by destruct HR; split. }
  { rewrite give_perm; constructor. }
  { specialize (Hadr _ Hall); lia. }
  mstep; exists o, k2; split_and!; try done.
  - specialize (Hadr _ Hall); lia.
  - eapply local_trans; eapply local_mono; [| | |exact L1| | | |exact L2]; done || apply list_subseteq_nil.
  - intros Huse; pose proof (core_where_nodup HC) as Hnd; unfold where_objs in Hnd.
    apply NoDup_app in Hnd as (_ & _ & Hnd); apply NoDup_app in Hnd as (_ & Hd & _).
    by apply (Hd o).
Qed.

(** ** The magazine paths of an allocation *)

Lemma slab_cpu_lookup k c x gc cpu : cache_core k c x gc ->
  exists l p, c_cpus x !! slab_cpu cpu = Some (l, p).
Proof.
  intros HC; destruct (lookup_lt_is_Some_2 (c_cpus x) (slab_cpu cpu)) as [[l p] E]; [|by exists l, p].
  rewrite (ci_cpus _ _ _ _ HC); unfold slab_cpu, SLAB_MAX_CPUS; case_decide; lia.
Qed.

(** The magazines of the CPU, and the others. *)
Lemma mags_split x gc i l p :
  c_cpus x !! i = Some (l, p) -> g_skip gc = None \/ g_skip gc = Some i ->
  exists rest, mags x gc ≡ₚ nonzero [match g_skip gc with None => l | Some _ => 0 end; p] ++ rest ++
                            g_dfull gc ++ g_dempty gc /\
    (forall x' gc' l' p', c_cpus x' = <[i := (l', p')]> (c_cpus x) -> g_skip gc' = None ->
       mags x' gc' ≡ₚ nonzero [l'; p'] ++ rest ++ g_dfull gc' ++ g_dempty gc').
Proof.
  intros Hi Hs; destruct (cpu_mags_split _ _ _ Hi) as [rest Hr]; exists rest; split.
  - unfold mags; rewrite (cpu_view_insert _ _ i l p) by (done || destruct Hs; auto).
    rewrite Hr; by rewrite <- app_assoc.
  - intros x' gc' l' p' Hc Hs'; unfold mags; rewrite Hs', Hc; cbn [cpu_view]; rewrite Hr.
    by rewrite <- app_assoc.
Qed.

Lemma cpu_mag_in x gc i l p a m :
  mags_ok m x gc -> c_cpus x !! i = Some (l, p) -> g_skip gc = None -> a = l \/ a = p -> a ≠ 0 ->
  a ∈ mags x gc /\ a ∉ g_dfull gc /\ a ∉ g_dempty gc.
Proof.
  intros HM Hi Hs Ha Hnz; destruct (mags_split x gc i l p Hi (or_introl Hs)) as (rest & E & _).
  rewrite Hs in E; assert (Hin : a ∈ nonzero [l; p]).
  { apply nonzero_in; split; [done|]; destruct Ha as [-> | ->]; [by constructor|by do 2 constructor]. }
  pose proof (mo_nodup _ _ _ HM) as Hnd; rewrite E in Hnd |- *; apply NoDup_app in Hnd as (_ & Hd & _).
  split; [rewrite elem_of_app; auto|]; split; intros Hin'; apply (Hd a Hin); rewrite !elem_of_app; auto.
Qed.

Lemma mag_has_object_ok k x gc a :
  mags_ok (k_mags k) x gc -> a = 0 \/ a ∈ mags x gc ->
  exists h, mag_has_object a k = Ok h /\
    if h : bool then a ≠ 0 /\ mag_objs (k_mags k) a ≠ [] else a = 0 \/ mag_objs (k_mags k) a = [].
Proof.
  intros HM Ha; unfold mag_has_object; case_decide as H0; [exists false; auto|].
  destruct Ha as [?|Ha]; [done|].
  destruct (proj1 (Forall_forall _ _) (mo_mag _ _ _ HM) a Ha) as [_ (g & Hg & Hl & Hc & Hcap)].
  unfold SLAB_MAX_MAGAZINE_SIZE in *.
  rewrite (mag_at_ok _ _ _ Hg); mstep; eexists; split; [done|]; unfold mag_objs; rewrite Hg.
  case_bool_decide as Hlt; [split; [done|]|right].
  - intros E; apply (f_equal length) in E; rewrite length_take in E; simpl in E; lia.
  - by replace (Z.to_nat (m_count g)) with 0%nat by lia.
Qed.

Lemma set_mnext_same g : set_mnext (m_next g) g = g.
Proof. by destruct g. Qed.

Lemma core_at_rest_cpus x gc x' gc' :
  at_rest x gc -> c_geom x' = c_geom x -> c_lists x' = c_lists x -> g_list gc' = g_list gc ->
  g_float gc' = g_float gc -> at_rest x' gc'.
Proof. intros [R1 R2 R3 R4] E1 E2 E3 E4; split; rewrite ?E1, ?E2, ?E3, ?E4; done. Qed.

(** The two magazines of a CPU change places. *)
Lemma swap_ok k c x gc i l p :
  cache_inv k c x gc -> g_skip gc = None -> c_cpus x !! i = Some (l, p) ->
  let x' := set_cpu i p l x in
  cache_inv (with_caches (<[c := x']> (k_caches k)) k) c x' gc /\ mags x' gc ≡ₚ mags x gc /\
  local c [] [] nowhere k (with_caches (<[c := x']> (k_caches k)) k).
Proof.
  intros [HC HR] Hs Hi x'; destruct (mags_split x gc i l p Hi (or_introl Hs)) as (rest & E & E').
  rewrite Hs in E; pose proof (ci_mags _ _ _ _ HC) as HM.
  assert (Hp : mags x' gc ≡ₚ mags x gc).
  { rewrite E, (E' x' gc p l) by done; unfold nonzero; f_equiv; apply filter_Permutation; constructor. }
  split; [split|split; [done|]].
  - apply (core_exchange k c x gc x' gc HC) with (m := k_mags k); try done; try apply HM.
    + unfold x', set_cpu; cbn [c_cpus]; by rewrite length_insert.
    + intros a Ha; destruct (proj1 (Forall_forall _ _) (mo_mag _ _ _ HM) a Ha) as [_ (g & Hg & _)].
      exists g, (m_next g); by rewrite set_mnext_same.
  - by eapply core_at_rest_cpus.
  - split; try done; intros c' Hc'; cbn [with_caches k_caches]; by rewrite lookup_insert_ne.
Qed.

(** The depot's first full magazine. *)
Lemma depot_get_full_ok k c x gc f df :
  cache_core k c x gc -> g_dfull gc = f :: df ->
  exists g, k_mags k !! f = Some g /\ f ≠ 0 /\
    let x' := set_depot (Depot (m_next g) (empty_magazines (c_depot x))
                (u64 (full_count (c_depot x) - 1)) (empty_count (c_depot x))) x in
    mag_depot_get_full c k = Ok (f, with_mags (<[f := set_mnext 0 g]> (k_mags k))
                                      (with_caches (<[c := x']> (k_caches k)) k)) /\
    mchain (k_mags k) (m_next g) df.
Proof.
  intros HC Hf; pose proof (mo_full _ _ _ (ci_mags _ _ _ _ HC)) as Hch; rewrite Hf in Hch.
  destruct Hch as (Eh & Hnz & g & Hg & Hch); exists g; split; [done|]; split; [done|]; cbv zeta.
  split; [|done]; unfold mag_depot_get_full.
  rewrite (cache_at_ok _ _ _ (ci_cache _ _ _ _ HC)); mstep; rewrite Eh, decide_True by done.
  rewrite (mag_at_ok _ _ _ Hg); mstep; rewrite (upd_cache_ok _ _ _ _ (ci_cache _ _ _ _ HC)); mstep.
  by rewrite (upd_mag_ok _ f g).
Qed.

(** The magazines of a CPU and of the depot are different ones. *)
Lemma mags_distinct m x gc i l p f df :
  mags_ok m x gc -> g_skip gc = None -> c_cpus x !! i = Some (l, p) -> g_dfull gc = f :: df ->
  f ∈ mags x gc /\ f ∉ df /\ f ∉ g_dempty gc /\ (l ≠ 0 -> l ∈ mags x gc /\ l ≠ f /\ l ∉ df /\ l ∉ g_dempty gc).
Proof.
  intros HM Hs Hi Hf; pose proof (mo_nodup _ _ _ HM) as Hnd; unfold mags in Hnd; rewrite Hf in Hnd.
  apply NoDup_app in Hnd as (_ & _ & Hnd); apply NoDup_app in Hnd as (Hnd & Hd & _).
  apply NoDup_cons in Hnd as [H1 _]; split; [unfold mags; rewrite Hf, !elem_of_app, elem_of_cons; auto|].
  split; [done|]; split; [apply Hd; constructor|]; intros Hl.
  destruct (cpu_mag_in x gc i l p l m HM Hi Hs (or_introl eq_refl) Hl) as (H2 & H3 & H4).
  rewrite Hf, not_elem_of_cons in H3; destruct H3; auto.
Qed.

Definition unfull (x : cache_t) (next : Z) : cache_t :=
  set_depot (Depot next (empty_magazines (c_depot x))
    (u64 (full_count (c_depot x) - 1)) (empty_count (c_depot x))) x.

(** The CPU's empty magazine goes to the depot, [f] takes its place. *)
Lemma refill_exchange k c x gc i l p f g df :
  cache_inv k c x gc -> g_skip gc = None -> c_cpus x !! i = Some (l, p) ->
  (l = 0 \/ mag_objs (k_mags k) l = []) -> g_dfull gc = f :: df -> k_mags k !! f = Some g ->
  mchain (k_mags k) (m_next g) df ->
  forall m x', (forall a, a ≠ f -> (l ≠ 0 -> a ≠ l) -> m !! a = k_mags k !! a) -> m !! f = Some (set_mnext 0 g) ->
  let gc' := set_mags df (if decide (l = 0) then g_dempty gc else l :: g_dempty gc) None gc in
  (l ≠ 0 -> exists gl, k_mags k !! l = Some gl /\ m !! l = Some (set_mnext (empty_magazines (c_depot x)) gl)) ->
  c_geom x' = c_geom x -> c_color_next x' = c_color_next x -> c_lists x' = c_lists x ->
  c_cpus x' = <[i := (f, p)]> (c_cpus x) -> full_magazines (c_depot x') = m_next g ->
  empty_magazines (c_depot x') = (if decide (l = 0) then empty_magazines (c_depot x) else l) ->
  cache_inv (with_caches (<[c := x']> (k_caches k)) (with_mags m k)) c x' gc' /\
  mags x' gc' ≡ₚ mags x gc /\ c_cpus x' !! i = Some (f, p) /\
  local c [] (mags x gc) nowhere k (with_caches (<[c := x']> (k_caches k)) (with_mags m k)) /\
  mag_objs m f = mag_objs (k_mags k) f.
Proof.
  intros [HC HR] Hs Hi Hl Hf Hg Hch m x' Hm Hmf gc' Hml G1 G2 G3 G4 G5 G6.
  pose proof (ci_mags _ _ _ _ HC) as HM.
  destruct (mags_distinct _ _ _ _ _ _ _ _ HM Hs Hi Hf) as (D1 & D2 & D3 & D4).
  destruct (mags_split x gc i l p Hi (or_introl Hs)) as (rest & E & E'); rewrite Hs, Hf in E.
  assert (Hfz : f ≠ 0) by (by destruct (proj1 (Forall_forall _ _) (mo_mag _ _ _ HM) f D1)).
  pose proof (mo_full_objs _ _ _ HM) as Hfo; rewrite Hf in Hfo; inversion Hfo as [|? ? Hf1 Hf2]; subst.
  assert (Hp : mags x' gc' ≡ₚ mags x gc).
  { rewrite E, (E' _ _ f p) by done; cbn [gc' set_mags g_dfull g_dempty].
    unfold nonzero; rewrite !filter_cons; repeat case_decide; subst; done || solve_Permutation. }
  split_and!; [split|..]; try done.
  - apply (core_exchange k c x gc); try done.
    + by rewrite G4, length_insert.
    + intros a Ha; destruct (decide (a = f)) as [->|Hnf]; [by exists g, 0|].
      destruct (proj1 (Forall_forall _ _) (mo_mag _ _ _ HM) a Ha) as [Haz (ga & Hga & _)].
      destruct (decide (a = l)) as [->|Hnl].
      * destruct (Hml Haz) as (gl & Hgl & Hgl'); by exists gl, (empty_magazines (c_depot x)).
      * exists ga, (m_next ga); split; [done|]; by rewrite Hm, set_mnext_same.
    + rewrite G5; eapply mchain_ext; [|exact Hch]; intros a Ha; rewrite Hm; [done|by intros ->|].
      intros Hlz ->; by destruct (D4 Hlz) as (_ & _ & ? & ?).
    + assert (Hold : mchain m (empty_magazines (c_depot x)) (g_dempty gc)).
      { eapply mchain_ext; [|apply (mo_empty _ _ _ HM)]; intros a Ha; rewrite Hm; [done|by intros ->|].
        intros Hlz ->; by destruct (D4 Hlz) as (_ & _ & ? & ?). }
      rewrite G6; cbn [gc' set_mags g_dempty]; destruct (decide (l = 0)) as [->|Hlz]; [done|].
      split; [done|]; split; [done|]; destruct (Hml Hlz) as (gl & _ & Hgl); eexists; split; [exact Hgl|done].
    + cbn [gc' set_mags g_dempty]; destruct (decide (l = 0)); [apply HM|]; constructor; [by destruct Hl|apply HM].
  - by eapply core_at_rest_cpus.
  - rewrite G4; apply list_lookup_insert_eq; by eapply lookup_lt_Some.
  - split; try done.
    + intros c' Hc'; cbn; by rewrite lookup_insert_ne.
    + intros a Ha; cbn; apply Hm; [by intros ->|]; intros Hlz ->; by apply Ha, D4.
  - unfold mag_objs; by rewrite Hmf, Hg.
Qed.

Lemma mag_empty_count m x gc a : mags_ok m x gc -> a ∈ mags x gc -> mag_objs m a = [] ->
  exists g, m !! a = Some g /\ m_count g = 0.
Proof.
  intros HM Ha Ho; destruct (proj1 (Forall_forall _ _) (mo_mag _ _ _ HM) a Ha) as [_ (g & Hg & Hl & Hc & Hcap)].
  exists g; split; [done|]; unfold mag_objs in Ho; rewrite Hg in Ho; unfold SLAB_MAX_MAGAZINE_SIZE in *.
  apply (f_equal length) in Ho; rewrite length_take in Ho; simpl in Ho; lia.
Qed.

(** [mag_depot_get_full], and the exchange with the CPU's loaded magazine. *)
Lemma depot_refill k c x gc i l p f df :
  cache_inv k c x gc -> g_skip gc = None -> c_cpus x !! i = Some (l, p) ->
  (l = 0 \/ mag_objs (k_mags k) l = []) -> g_dfull gc = f :: df ->
  exists k1 k' x', mag_depot_get_full c k = Ok (f, k1) /\ f ≠ 0 /\
    (k2 ← (if decide (l ≠ 0) then
             g ← mag_at k1 l;
             if decide (m_count g = 0) then mag_depot_put_empty c l k1 else Ok k1
           else Ok k1);
     upd_cache c (set_cpu i f p) k2) = Ok k' /\
    let gc' := set_mags df (if decide (l = 0) then g_dempty gc else l :: g_dempty gc) None gc in
    cache_inv k' c x' gc' /\ c_geom x' = c_geom x /\ mags x' gc' ≡ₚ mags x gc /\
    c_cpus x' !! i = Some (f, p) /\ local c [] (mags x gc) nowhere k k' /\
    mag_objs (k_mags k') f = mag_objs (k_mags k) f.
Proof.
  intros HI Hs Hi Hl Hf; pose proof HI as [HC _]; pose proof (ci_mags _ _ _ _ HC) as HM.
  destruct (depot_get_full_ok k c x gc f df HC Hf) as (g & Hg & Hfz & E1 & Hch).
  destruct (mags_distinct _ _ _ _ _ _ _ _ HM Hs Hi Hf) as (D1 & D2 & D3 & D4).
  change (set_depot _ x) with (unfull x (m_next g)) in E1; set (k1 := with_mags _ _) in E1.
  exists k1; destruct (decide (l = 0)) as [->|Hlz].
  - set (x' := set_cpu i f p (unfull x (m_next g))).
    exists (with_caches (<[c := x']> (k_caches k)) (with_mags (<[f := set_mnext 0 g]> (k_mags k)) k)), x'.
    split; [exact E1|]; split; [done|]; split.
    { rewrite decide_False by auto; mstep; rewrite (upd_cache_ok _ _ (unfull x (m_next g))) by apply lookup_insert_eq.
      unfold k1; cbn [with_mags with_caches k_caches]; by rewrite insert_insert_eq. }
    destruct (refill_exchange k c x gc i 0 p f g df HI Hs Hi Hl Hf Hg Hch (<[f := set_mnext 0 g]> (k_mags k)) x')
      as (R1 & R2 & R3 & R4 & R5); try done.
    + intros a Ha _; by rewrite lookup_insert_ne.
    + apply lookup_insert_eq.
  - destruct Hl as [?|Hl]; [done|]; destruct (D4 Hlz) as (Hlin & Hlf & _ & _).
    destruct (mag_empty_count _ _ _ _ HM Hlin Hl) as (gl & Hgl & Hcnt).
    set (e := empty_magazines (c_depot x)).
    set (d' := Depot (m_next g) l (full_count (c_depot (unfull x (m_next g)))) (u64 (empty_count (c_depot x) + 1))).
    set (x' := set_cpu i f p (set_depot d' (unfull x (m_next g)))).
    set (m' := <[l := set_mnext e gl]> (<[f := set_mnext 0 g]> (k_mags k))).
    exists (with_caches (<[c := x']> (k_caches k)) (with_mags m' k)), x'.
    split; [exact E1|]; split; [done|]; split.
    { rewrite decide_True by done; rewrite (mag_at_ok k1 l gl) by (cbn; by rewrite lookup_insert_ne); mstep.
      rewrite decide_True by done; unfold mag_depot_put_empty.
      rewrite (cache_at_ok _ _ (unfull x (m_next g))) by apply lookup_insert_eq; mstep.
      rewrite (upd_mag_ok k1 l gl) by (cbn; by rewrite lookup_insert_ne); mstep.
      rewrite (upd_cache_ok _ _ (unfull x (m_next g))) by apply lookup_insert_eq; mstep.
      rewrite (upd_cache_ok _ _ (set_depot d' (unfull x (m_next g)))) by apply lookup_insert_eq.
      unfold k1; cbn [with_mags with_caches k_caches k_mags]; by rewrite !insert_insert_eq. }
    destruct (refill_exchange k c x gc i l p f g df HI Hs Hi (or_intror Hl) Hf Hg Hch m' x')
      as (R1 & R2 & R3 & R4 & R5); try done.
    + intros a Ha Hb; specialize (Hb Hlz); unfold m'; by rewrite !lookup_insert_ne.
    + unfold m'; by rewrite lookup_insert_ne, lookup_insert_eq.
    + intros _; exists gl; split; [done|apply lookup_insert_eq].
    + unfold x'; by rewrite decide_False.
    + rewrite (decide_False (P:=l = 0)) in R1, R2 by done; done.
Qed.

(** ** Allocation without a new page *)

(** The outcome of an allocation that succeeds within the cache. *)
Record gave k (c : Z) (x : cache_t) (gc : gcache) (b : bool) (o : Z) k' (x' : cache_t) (gc' : gcache)
  : Prop := {
  gv_inv : cache_inv k' c x' (give b o gc');
  gv_geom : c_geom x' = c_geom x;
  gv_hdrs : hdrs gc' ⊆ hdrs gc;
  gv_pages : gpages gc' ⊆ gpages gc;
  gv_mags : mags x' gc' ⊆ mags x gc;
  gv_user : g_user gc' = g_user gc;
  gv_int : g_int gc' = g_int gc;
  gv_skip : g_skip gc' = g_skip gc;
  gv_local : local c (hdrs gc) (mags x gc) (within o (c_obj_size (c_geom x))) k k';
  gv_obj : o ∈ slabs gc ≫= gs_objs (c_geom x);
  gv_nonzero : o ≠ 0
}.

Lemma gave_fresh k c x gc b o k' x' gc' : gave k c x gc b o k' x' gc' -> o ∉ g_user gc ++ g_int gc.
Proof.
  intros [[HC _] _ _ _ _ U1 U2 _ _ _ _] Hin; pose proof (core_where_nodup HC) as Hnd.
  unfold where_objs in Hnd; apply NoDup_app in Hnd as (_ & _ & Hnd); apply NoDup_app in Hnd as (_ & _ & Hnd).
  rewrite give_perm, U1, U2 in Hnd; by apply NoDup_cons in Hnd as [? _].
Qed.

Lemma gave_popped k c x gc b o a k' :
  cache_inv k' c x (give b o gc) -> local c [] [a] (within o (c_obj_size (c_geom x))) k k' ->
  a ∈ mags x gc -> o ∈ slabs gc ≫= gs_objs (c_geom x) -> o ≠ 0 -> gave k c x gc b o k' x gc.
Proof.
  intros HI HL Ha Ho Hz; split; try done; eapply local_mono; [| |done|exact HL]; [apply list_subseteq_nil|].
  by intros d ->%list_elem_of_singleton.
Qed.

(** An object of the slabs on the lists. *)
Lemma alloc_existing am cpu k c x gc b :
  cache_inv k c x gc -> addressable x gc -> g_list gc Partial ≠ [] \/ g_list gc Empty ≠ [] ->
  exists o k' x' gc', ('(obj, k) ← slab_alloc_from_lists am cpu c k;
      if decide (obj ≠ 0) then k ← zero_object (c_geom x) obj k; Ok (obj, k) else Ok (0, k)) = Ok (o, k') /\
    gave k c x gc b o k' x' gc'.
Proof.
  intros HI Hadr Hne; unfold slab_alloc_from_lists.
  destruct (choose_existing am cpu k c x gc HI Hne) as (s & l & k1 & x1 & g1 & -> & HC1 & HA & V1 & L1 & U1 & U2); mstep.
  assert (Hs : s ∈ slabs g1) by (unfold slabs; rewrite (at_partial _ _ _ _ HA); by constructor).
  rewrite decide_False by apply (core_slab HC1 _ Hs).
  destruct (take_object_ok k1 c x1 g1 s l b HC1 HA) as (o & k2 & -> & Hz & x2 & g2 & HI2 & V2 & W1 & W2 & L2 & Ho); mstep.
  rewrite decide_True by done.
  pose proof (evolved_trans _ _ _ _ _ _ V1 V2) as V; pose proof (ev_geom _ _ _ _ V) as Eg; rewrite <- Eg.
  destruct (zero_object_ok k2 c x2 (give b o g2) o HI2) as (k3 & -> & HI3 & L3); [|done|].
  { rewrite give_perm; constructor. }
  mstep; exists o, k3, x2, g2; split; [done|]; split; try done.
  - by eapply evolved_hdrs.
  - intros p; by rewrite (proj2 (ev_pages _ _ _ _ V)).
  - intros a; by rewrite (ev_mags _ _ _ _ V).
  - congruence.
  - congruence.
  - apply V.
  - rewrite <- Eg; eapply local_trans; [|eapply local_mono; [| | |exact L3]]; try done; try apply list_subseteq_nil.
    eapply local_trans; [eapply local_mono; [| | |exact L1]|eapply local_mono; [| | |eapply local_evolved; [exact V1|exact L2]]];
      try done; apply list_subseteq_nil.
  - rewrite <- (ev_objs _ _ _ _ V1), <- (ev_geom _ _ _ _ V1); apply elem_of_bind; eauto.
Qed.

Lemma gave_after k k1 c x x1 gc g1 b o k' x' gc' :
  gave k1 c x1 g1 b o k' x' gc' ->
  c_geom x1 = c_geom x -> hdrs g1 ⊆ hdrs gc -> gpages g1 ⊆ gpages gc -> mags x1 g1 ⊆ mags x gc ->
  slabs g1 = slabs gc -> g_user g1 = g_user gc -> g_int g1 = g_int gc -> g_skip g1 = g_skip gc ->
  local c [] (mags x gc) nowhere k k1 -> gave k c x gc b o k' x' gc'.
Proof.
  intros [V1 V2 V3 V4 V5 V6 V7 V8 V9 V10 V11] E1 E2 E3 E4 E5 E6 E7 E8 HL; split; try done; try congruence.
  - etrans; [exact V3|done].
  - etrans; [exact V4|done].
  - etrans; [exact V5|done].
  - eapply local_trans; [eapply local_mono; [| | |exact HL]|eapply local_mono; [| | |exact V9]]; try done.
    + apply list_subseteq_nil.
    + by rewrite E1.
Qed.

Lemma slab_alloc_cases am cpu k c x gc b :
  cache_inv k c x gc -> addressable x gc -> g_skip gc = None ->
  (exists o k' x' gc', slab_cache_alloc_open am cpu c k = Ok (o, k') /\ gave k c x gc b o k' x' gc') \/
  (g_list gc Partial = [] /\ g_list gc Empty = [] /\
   slab_cache_alloc_open am cpu c k =
     ('(obj, k) ← slab_alloc_from_lists am cpu c k;
      if decide (obj ≠ 0) then k ← zero_object (c_geom x) obj k; Ok (obj, k) else Ok (0, k))).
Proof.
  intros HI Hadr Hs; pose proof HI as [HC HR]; pose proof (ci_mags _ _ _ _ HC) as HM.
  unfold slab_cache_alloc_open; rewrite decide_False by apply HC.
  rewrite (cache_at_ok _ _ _ (ci_cache _ _ _ _ HC)); mstep.
  destruct (slab_cpu_lookup _ _ _ _ cpu HC) as (l & p & Hi); rewrite Hi; cbn [of_opt]; mstep.
  set (i := slab_cpu cpu) in *.
  assert (Hin : forall a, a = l \/ a = p -> a = 0 \/ a ∈ mags x gc).
  { intros a Ha; destruct (decide (a = 0)); [by left|right]; by eapply cpu_mag_in. }
  destruct (mag_has_object_ok k x gc l HM (Hin l (or_introl eq_refl))) as ([] & -> & Hl); mstep.
  { left; destruct Hl as [Hlz Hl]; destruct (cpu_mag_in _ _ _ _ _ l _ HM Hi Hs (or_introl eq_refl) Hlz) as (D1 & D2 & _).
    destruct (pop_object_ok k c x gc l b HI Hadr D1 Hl) as (o & k' & -> & Ho & HI' & HL & Hall & _); [done|].
    exists o, k', x, gc; split; [done|]; by eapply gave_popped. }
  destruct (mag_has_object_ok k x gc p HM (Hin p (or_intror eq_refl))) as ([] & -> & Hp); mstep.
  { left; destruct Hp as [Hpz Hp]; rewrite (upd_cache_ok _ _ _ _ (ci_cache _ _ _ _ HC)); mstep.
    destruct (cpu_mag_in _ _ _ _ _ p _ HM Hi Hs (or_intror eq_refl) Hpz) as (D1 & D2 & _).
    destruct (swap_ok k c x gc i l p HI Hs Hi) as (HI1 & Hm1 & L1).
    set (x1 := set_cpu i p l x) in *; set (k1 := with_caches _ k) in *.
    destruct (pop_object_ok k1 c x1 gc p b HI1 Hadr) as (o & k' & E & Ho & HI' & HL & Hall & _); try done.
    { by rewrite Hm1. }
    change (c_geom x) with (c_geom x1) at 1; rewrite E; exists o, k', x1, gc; split; [done|].
    apply (gave_after k k1 c x x1 gc gc); try done.
    - eapply gave_popped; try done; by rewrite Hm1.
    - intros a; by rewrite Hm1.
    - eapply local_mono; [| |done|exact L1]; apply list_subseteq_nil. }
  destruct (g_dfull gc) as [|f df] eqn:Hdf.
  - assert (E0 : mag_depot_get_full c k = Ok (0, k)).
    { unfold mag_depot_get_full; rewrite (cache_at_ok _ _ _ (ci_cache _ _ _ _ HC)); mstep.
      pose proof (mo_full _ _ _ HM) as Hch; rewrite Hdf in Hch; cbn [mchain] in Hch.
      by rewrite decide_False by auto. }
    rewrite E0; mstep; rewrite decide_False by auto.
    destruct (g_list gc Partial) as [|s ls] eqn:EP; [destruct (g_list gc Empty) as [|s ls] eqn:EE|];
      [by right|left..]; apply alloc_existing; try done; rewrite ?EP, ?EE; auto.
  - left; destruct (depot_refill k c x gc i l p f df HI Hs Hi Hl Hdf)
      as (k1 & k2 & x2 & -> & Hfz & E2 & HI2 & Eg & Hm2 & Hc2 & L2 & Ho2); mstep.
    rewrite decide_True by done; set (g2 := set_mags _ _ _ gc) in *.
    assert (E3 : forall (A : Type) (fn : kmem St -> res A),
      (k ← (if decide (l ≠ 0) then g ← mag_at k1 l; if decide (m_count g = 0) then mag_depot_put_empty c l k1 else Ok k1
            else Ok k1); k ← upd_cache c (set_cpu i f p) k; fn k) = fn k2).
    { intros A fn; revert E2; destruct (if decide (l ≠ 0) then _ else _) as [k3| |]; mstep; try done; by intros ->. }
    rewrite E3; destruct (mags_distinct _ _ _ _ _ _ _ _ HM Hs Hi Hdf) as (D1 & D2 & D3 & _).
    destruct (pop_object_ok k2 c x2 g2 f b HI2) as (o & k' & E & Ho & HI' & HL & Hall & _).
    + unfold addressable; rewrite Eg; exact Hadr.
    + by rewrite Hm2.
    + rewrite Ho2; pose proof (mo_full_objs _ _ _ HM) as Hfo; rewrite Hdf in Hfo; by inversion Hfo.
    + done.
    + rewrite <- Eg, E; exists o, k', x2, g2; split; [done|].
      apply (gave_after k k2 c x x2 gc g2); try done.
      * eapply gave_popped; try done; by rewrite Hm2.
      * intros a; by rewrite Hm2.
Qed.

End alloc.
