(* ===== verification/SlabFree.v ===== *)
(** * Slab allocator: freeing *)

From stdpp Require Import base tactics option list numbers gmap.
From Stdlib Require Import ZArith Lia.
From S2P Require Import Prelude Pmm PmmInv SlabMem Slab SlabGeom SlabInv SlabLists SlabCore.
From S2P Require Import SlabPage SlabAlloc.

Local Open Scope Z_scope.

Section free.
Context {St : Type} `{Kernel} `{!PageSource St} `{!PageLaws St}.
Implicit Types k : kmem St.

(** ** Back to the lists *)

(** [s], with one more free object, is on the partial list. *)
Record put_back (x : cache_t) (gc : gcache) (l1 : list gslab) (s : gslab) (l2 : list gslab) : Prop := {
  pb_partial : g_list gc Partial = l1 ++ s :: l2;
  pb_float : g_float gc = [];
  pb_free : 0 < Z.of_nat (length (gs_free s)) <= c_objs_per_slab (c_geom x);
  pb_rest : Forall (shape_ok (c_geom x) Partial) (l1 ++ l2);
  pb_full : Forall (shape_ok (c_geom x) Full) (g_list gc Full);
  pb_empty : Forall (shape_ok (c_geom x) Empty) (g_list gc Empty);
  pb_count : empty_slab_count (c_lists x) = Z.of_nat (length (g_list gc Empty));
  pb_four : (length (g_list gc Empty) <= 4)%nat
}.

(** The list a slab with objects in use is on. *)
Lemma slab_list k c x gc s :
  cache_inv k c x gc -> s ∈ slabs gc -> (length (gs_free s) < length (gs_objs (c_geom x) s))%nat ->
  exists w l1 l2, g_list gc w = l1 ++ s :: l2 /\
    (w = Full /\ gs_free s = [] \/
     w = Partial /\ 0 < Z.of_nat (length (gs_free s)) < c_objs_per_slab (c_geom x)).
Proof.
  intros [HC [R1 R2 _ _]] Hs Hlt; pose proof (gs_objs_length (c_geom x) s (core_geom HC)) as Hlen.
  unfold slabs in Hs; rewrite R1, app_nil_r, !elem_of_app in Hs; destruct Hs as [Hs|[Hs|Hs]].
  - destruct (list_elem_of_split _ _ Hs) as (l1 & l2 & E); exists Partial, l1, l2; split; [done|right].
    split; [done|]; by eapply Forall_forall in Hs; [|apply (R2 Partial)].
  - destruct (list_elem_of_split _ _ Hs) as (l1 & l2 & E); exists Full, l1, l2; split; [done|left].
    split; [done|]; by eapply Forall_forall in Hs; [|apply (R2 Full)].
  - eapply Forall_forall in Hs; [|apply (R2 Empty)]; cbn [shape_ok] in Hs; lia.
Qed.

(** Putting an object back, and the move to the partial list. *)
Lemma put_phase k c x gc s o user int :
  cache_inv k c x gc -> s ∈ slabs gc -> o ∈ gs_objs (c_geom x) s ->
  g_user gc ++ g_int gc ≡ₚ o :: user ++ int -> addressable x gc ->
  exists n wf k1 k2 x2 g2 l1 s' l2, put_object c (gs_hdr s) o k = Ok (n, wf, k1) /\
    (if wf : bool then k ← list_remove_slab c Full (gs_hdr s) k1; list_add_slab c Partial (gs_hdr s) k
     else Ok k1) = Ok k2 /\
    gs_hdr s' = gs_hdr s /\ gs_page s' = gs_page s /\
    n = c_objs_per_slab (c_geom x) - Z.of_nat (length (gs_free s')) /\
    cache_core k2 c x2 g2 /\ put_back x2 g2 l1 s' l2 /\ evolved x x2 gc g2 /\
    g_user g2 = user /\ g_int g2 = int /\
    local c (hdrs gc) [] (within o (c_obj_size (c_geom x))) k k2.
Proof.
  intros HI Hs Ho Hu Hadr; pose proof HI as [HC HR]; pose proof HR as [R1 R2 R3 R4].
  destruct (si_body _ _ _ _ (core_slab HC _ Hs)) as (t & Ht & HB).
  destruct (core_put k c x gc s o t user int HC Hs Ht Ho Hu) as (Hlt & Hin & HC1).
  { intros a Ha; apply Hadr, elem_of_bind; eauto. }
  pose proof (bo_inuse _ _ _ _ _ HB) as Hn; pose proof (bo_total _ _ _ _ _ HB) as Htot.
  pose proof (gs_objs_length (c_geom x) s (core_geom HC)) as Hlen.
  pose proof (core_geom HC) as [Hsz _ Hobjs _ _ _ _ _].
  set (s' := set_gfree (o :: gs_free s) s) in *; set (g1 := set_use user int (rep_slab s' gc)) in *.
  set (k1 := with_slabs _ _) in HC1.
  assert (Hs' : length (gs_free s') = S (length (gs_free s))) by done.
  assert (L1 : local c (hdrs gc) [] (within o (c_obj_size (c_geom x))) k k1).
  { apply slab_local; [by apply list_elem_of_fmap_2|]; intros a Ha; apply store64_lookup_ne.
    unfold within in Ha; lia. }
  assert (E1 : put_object c (gs_hdr s) o k = Ok (s_inuse_count t - 1, bool_decide (s_inuse_count t = s_total_count t), k1)).
  { unfold put_object; rewrite (cache_at_ok _ _ _ (ci_cache _ _ _ _ HC)); mstep.
    rewrite (slab_at_ok _ _ _ Ht); mstep; rewrite decide_True by apply (core_plain _ _ _ _ HC).
    rewrite (upd_slab_ok _ _ t) by done; mstep; rewrite u64_small by lia.
    rewrite (upd_slab_ok _ _ (set_free_list o t)) by apply lookup_insert_eq; mstep.
    unfold k1; cbn [with_slabs k_slabs]; by rewrite insert_insert_eq. }
  assert (V1 : evolved x x gc g1) by (apply (evolved_rep x gc s s'); try done; apply HC).
  destruct (slab_list k c x gc s HI Hs Hlt) as (w & l1 & l2 & Ew & Hw).
  pose proof (rep_w gc w l1 s l2 s' (ci_hdrs _ _ _ _ HC) Ew eq_refl) as [W1 W2].
  pose proof (rep_float gc w l1 s l2 s' (ci_hdrs _ _ _ _ HC) Ew eq_refl) as W3.
  pose proof (R2 w) as Rw; rewrite Ew in Rw; apply Forall_app in Rw as [Rw1 Rw2].
  inversion Rw2 as [|? ? _ Rw3]; subst.
  eexists _, _, k1; destruct Hw as [[-> Hf]|[-> Hf]].
  - apply (f_equal length) in Hf; simpl in Hf; destruct (core_move k1 c x g1 Full Partial l1 s' l2 HC1) as (k2 & x2 & E2 & HC2 & V2 & L2 & N2);
      [unfold g1; cbn [set_use g_float]; by rewrite W3|exact W1|done|].
    eexists k2, x2, _, [], s', _; split; [exact E1|].
    rewrite bool_decide_eq_true_2 by lia; split; [exact E2|].
    pose proof (ev_geom _ _ _ _ V2) as Eg.
    assert (EP : g_list g1 Partial = g_list gc Partial) by (apply (W2 Partial); done).
    assert (EE : g_list g1 Empty = g_list gc Empty) by (apply (W2 Empty); done).
    split_and!; try done.
    + lia.
    + split; cbn [set_slabs g_list g_float]; rewrite ?Eg, ?N2.
      * rewrite upd_w_eq; reflexivity.
      * done.
      * lia.
      * cbn [app]; rewrite EP; apply (R2 Partial).
      * rewrite (upd_w_ne Partial Full), upd_w_eq by done; by apply Forall_app.
      * rewrite (upd_w_ne Partial Empty), (upd_w_ne Full Empty), EE by done; apply (R2 Empty).
      * rewrite (upd_w_ne Partial Empty), (upd_w_ne Full Empty), EE by done; done.
      * rewrite (upd_w_ne Partial Empty), (upd_w_ne Full Empty), EE by done; done.
    + by eapply evolved_trans.
    + eapply local_trans; [exact L1|]; eapply local_evolved; [exact V1|].
      eapply local_mono; [| | |exact L2]; done.
  - exists k1, x, g1, l1, s', l2; split; [exact E1|].
    rewrite bool_decide_eq_false_2 by lia; split; [done|]; split_and!; try done.
    + lia.
    + split; try done.
      * unfold g1; cbn [set_use g_float]; by rewrite W3.
      * lia.
      * by apply Forall_app.
      * unfold g1; cbn [set_use g_list]; rewrite W2 by done; apply (R2 Full).
      * unfold g1; cbn [set_use g_list]; rewrite W2 by done; apply (R2 Empty).
      * unfold g1; cbn [set_use g_list]; by rewrite W2.
      * unfold g1; cbn [set_use g_list]; by rewrite W2.
Qed.

(** The outcome of a release; [d] is a slab that went back to the page allocator. *)
Record freed k (c : Z) (x : cache_t) (gc : gcache) (o : Z) (user int : list Z) (Hd : gmap Z nat)
    (d : option gslab) k' (x' : cache_t) (gc' : gcache) : Prop := {
  fd_inv : cache_inv k' c x' gc';
  fd_use : g_user gc' = user /\ g_int gc' = int;
  fd_geom : c_geom x' = c_geom x;
  fd_mags : mags x' gc' ≡ₚ mags x gc;
  fd_skip : g_skip gc' = g_skip gc;
  fd_frame : framed c (hdrs gc) [] (gpages gc) Hd k k';
  fd_slabs : match d with
    | None => hdrs gc' ≡ₚ hdrs gc /\ gpages gc' ≡ₚ gpages gc
    | Some s => hdrs gc ≡ₚ gs_hdr s :: hdrs gc' /\ gpages gc ≡ₚ gs_page s :: gpages gc'
    end;
  fd_pages : ps_ok (k_pm k') (match d with None => Hd | Some s => delete (gs_page s) Hd end);
  fd_mem a : ~ within o (c_obj_size (c_geom x)) a -> k_mem k' !! a = k_mem k !! a
}.

(** The rest of a release: [fm] takes the header of a slab that is given up. *)
Definition finish_free (fm : Z -> kmem St -> res (kmem St)) (x : cache_t) (d : option gslab) k
  : res (kmem St) :=
  match d with
  | Some s => if decide (c_off_slab (c_geom x) = true /\ slab_meta_cache k ≠ 0) then fm (gs_hdr s) k else Ok k
  | None => Ok k
  end.

Lemma put_back_rest x gc l1 s l2 :
  put_back x gc l1 s l2 -> Z.of_nat (length (gs_free s)) ≠ c_objs_per_slab (c_geom x) -> at_rest x gc.
Proof.
  intros [P1 P2 P3 P4 P5 P6 P7 P8] Hne; apply (at_rest_intro _ _ _ _ _ P1 eq_refl eq_refl P2); try done.
  apply Forall_app in P4 as [P4 P4']; apply Forall_app; split; [done|]; constructor; [|done].
  cbn [shape_ok]; lia.
Qed.

Lemma keep_empty k c x gc l1 s l2 :
  cache_core k c x gc -> g_float gc = [s] -> g_list gc Partial = l1 ++ l2 ->
  Z.of_nat (length (gs_free s)) = c_objs_per_slab (c_geom x) ->
  Forall (shape_ok (c_geom x) Partial) (l1 ++ l2) ->
  Forall (shape_ok (c_geom x) Full) (g_list gc Full) -> Forall (shape_ok (c_geom x) Empty) (g_list gc Empty) ->
  empty_slab_count (c_lists x) = Z.of_nat (length (g_list gc Empty)) ->
  (length (g_list gc Empty) < 4)%nat ->
  exists k' x' gc', (k ← list_add_slab c Empty (gs_hdr s) k;
      upd_cache c (fun x => set_lists (add_empty 1 (c_lists x)) x) k) = Ok k' /\
    cache_inv k' c x' gc' /\ evolved x x' gc gc' /\ g_user gc' = g_user gc /\ g_int gc' = g_int gc /\
    local c (hdrs gc) [] nowhere k k'.
Proof.
  intros HC Hf EP Hall S1 S2 S3 Hc H4.
  destruct (core_list_add k c x gc Empty s [] HC Hf) as (k1 & -> & HC1 & L1 & P1); mstep.
  set (x1 := relisted Empty _ x) in *; set (g1 := set_slabs _ [] gc) in *.
  rewrite (upd_cache_ok _ _ _ _ (ci_cache _ _ _ _ HC1)).
  destruct (core_recount k1 c x1 g1 1 HC1) as (HC2 & L2 & V2).
  eexists _, _, g1; split; [done|]; split; [split; [exact HC2|]|split_and!; try done].
  - apply (at_rest_intro _ _ (l1 ++ l2) (g_list gc Full) (s :: g_list gc Empty)); try done.
    + by constructor.
    + change (u64 (empty_slab_count (c_lists x) + 1) = Z.of_nat (length (s :: g_list gc Empty))).
      rewrite Hc, u64_small; simpl length; lia.
  - eapply evolved_trans; [|exact V2]; by apply evolved_slabs.
  - eapply local_trans; [exact L1|]; eapply local_mono; [| |done|exact L2]; apply list_subseteq_nil.
Qed.

(** A slab without objects in use is kept or given up. *)
Lemma retire_ok fm cpu k c x gc l1 s l2 Hd :
  cache_core k c x gc -> put_back x gc l1 s l2 ->
  Z.of_nat (length (gs_free s)) = c_objs_per_slab (c_geom x) ->
  ps_ok (k_pm k) Hd -> (forall q, q ∈ gpages gc -> Hd !! q = Some 0%nat) ->
  exists d k' x' gc', retire_slab fm cpu c (gs_hdr s) k = finish_free fm x d k' /\
    cache_inv k' c x' gc' /\ g_user gc' = g_user gc /\ g_int gc' = g_int gc /\ c_geom x' = c_geom x /\
    mags x' gc' ≡ₚ mags x gc /\ g_skip gc' = g_skip gc /\
    framed c (hdrs gc) [] (gpages gc) Hd k k' /\ k_mem k' = k_mem k /\
    match d with
    | None => hdrs gc' ≡ₚ hdrs gc /\ gpages gc' ≡ₚ gpages gc
    | Some s => hdrs gc ≡ₚ gs_hdr s :: hdrs gc' /\ gpages gc ≡ₚ gs_page s :: gpages gc'
    end /\
    ps_ok (k_pm k') (match d with None => Hd | Some s => delete (gs_page s) Hd end).
Proof.
  intros HC [P1 P2 P3 P4 P5 P6 P7 P8] Hall Hps Hheld; unfold retire_slab.
  destruct (core_list_remove k c x gc Partial l1 s l2 HC P1) as (k1 & -> & HC1 & L1 & Q1); mstep.
  rewrite P2 in HC1, Q1; set (x1 := relisted Partial _ x) in *; set (g1 := set_slabs _ [s] gc) in *.
  rewrite (cache_at_ok _ _ _ (ci_cache _ _ _ _ HC1)); mstep.
  change (empty_slab_count (c_lists x1)) with (empty_slab_count (c_lists x)).
  assert (F1 : framed c (hdrs gc) [] (gpages gc) Hd k k1) by (by eapply local_framed; [|exact L1]).
  assert (Hm1 : k_mem k1 = k_mem k) by (apply map_eq; intros a; apply (lo_mem _ _ _ _ _ _ L1); by intros ?).
  assert (Eh : hdrs g1 ≡ₚ hdrs gc) by (unfold hdrs; by rewrite Q1).
  assert (Ep : gpages g1 ≡ₚ gpages gc) by (unfold gpages; by rewrite Q1).
  case_decide as H4.
  - destruct (slab_destroy_page_ok fm cpu k1 c x1 g1 s [] Hd HC1 eq_refl Hall)
      as (k2 & E & HC2 & F2 & Hps2 & Hm2).
    { by rewrite (lo_pm _ _ _ _ _ _ L1). }
    { intros q; rewrite Ep; apply Hheld. }
    exists (Some s), k2, x1, (set_slabs (g_list g1) [] g1); split.
    { rewrite E; cbn [finish_free]; destruct F2 as [_ _ _ _ _ _ _ (_ & Em & _)]; by rewrite Em. }
    split; [split; [exact HC2|]|].
    { by apply (at_rest_intro _ _ (l1 ++ l2) (g_list gc Full) (g_list gc Empty)). }
    assert (Hsl : slabs g1 ≡ₚ s :: slabs (set_slabs (g_list g1) [] g1))
      by (unfold slabs; cbn [g1 set_slabs g_list g_float]; solve_Permutation).
    split_and!; try done.
    + eapply framed_trans; [exact F1|]; eapply framed_mono; [| | |exact F2]; try done.
      * intros a ->%list_elem_of_singleton; rewrite <- Eh; unfold hdrs; rewrite Hsl; by constructor.
      * intros a ->%list_elem_of_singleton; rewrite <- Ep; unfold gpages; rewrite Hsl; by constructor.
    + by rewrite Hm2.
    + rewrite <- Eh; unfold hdrs; by rewrite Hsl.
    + rewrite <- Ep; unfold gpages; by rewrite Hsl.
  - destruct (keep_empty k1 c x1 g1 l1 s l2 HC1 eq_refl eq_refl Hall P4 P5 P6 P7)
      as (k2 & x2 & g2 & E & HI2 & V2 & U1 & U2 & L2); [change (length (g_list gc Empty) < 4)%nat; lia|].
    exists None, k2, x2, g2; split; [exact E|]; split; [exact HI2|].
    split_and!; try done.
    + apply (ev_geom _ _ _ _ V2).
    + apply (ev_mags _ _ _ _ V2).
    + apply (ev_skip _ _ _ _ V2).
    + eapply framed_trans; [exact F1|]; eapply local_framed; [|eapply local_mono; [| | |exact L2]]; try done.
      { by intros a []. }
      intros a; by rewrite Eh.
    + rewrite <- Hm1; apply map_eq; intros a; apply (lo_mem _ _ _ _ _ _ L2); by intros ?.
    + rewrite <- Eh; apply (ev_pages _ _ _ _ V2).
    + rewrite <- Ep; apply (ev_pages _ _ _ _ V2).
    + by rewrite (lo_pm _ _ _ _ _ _ L2), (lo_pm _ _ _ _ _ _ L1).
Qed.

Lemma free_to_lists_ok fm cpu k c x gc o user int Hd :
  cache_inv k c x gc -> g_user gc ++ g_int gc ≡ₚ o :: user ++ int -> addressable x gc ->
  ps_ok (k_pm k) Hd -> (forall q, q ∈ gpages gc -> Hd !! q = Some 0%nat) ->
  exists d k' x' gc', slab_free_to_lists fm cpu c o k = finish_free fm x d k' /\
    freed k c x gc o user int Hd d k' x' gc'.
Proof.
  intros HI Hu Hadr Hps Hheld; pose proof HI as [HC HR]; pose proof (core_size HC) as Hsz.
  assert (Hall : o ∈ slabs gc ≫= gs_objs (c_geom x)).
  { rewrite <- (ci_objs _ _ _ _ HC); unfold where_objs.
    rewrite elem_of_app, (elem_of_app (mags x gc ≫= _)), Hu, elem_of_cons; auto. }
  apply elem_of_bind in Hall as (s & Ho & Hs).
  destruct (core_slab HC _ Hs) as [_ _ _ S3 (f & Hf & F1 & _) S5 _].
  assert (Hp : gs_page s ∈ gpages gc) by (by apply list_elem_of_fmap_2).
  unfold slab_free_to_lists.
  rewrite (ps_vaddr _ _ _ _ (gs_page s) _ Hps (Hheld _ Hp) (in_block_self _))
    by (eapply (core_obj_in_page HC); [done|done|lia]).
  rewrite Hf; mstep; rewrite F1; cbn [negb]; rewrite S3; cbn [of_opt]; mstep.
  rewrite decide_False by done.
  destruct (put_phase k c x gc s o user int HI Hs Ho Hu Hadr)
    as (n & wf & k1 & k2 & x2 & g2 & l1 & s' & l2 & -> & E2 & Eh & Ep & Hn & HC2 & PB & V & U1 & U2 & L2).
  mstep; rewrite E2; mstep; pose proof (ev_geom _ _ _ _ V) as Eg.
  destruct (ev_pages _ _ _ _ V) as [Vh Vp].
  assert (F2 : framed c (hdrs gc) [] (gpages gc) Hd k k2).
  { eapply local_framed; [|exact L2]; intros a Ha; eapply (obj_page _ _ _ _ o); try done.
    apply elem_of_bind; eauto. }
  case_decide as Hz.
  - destruct (retire_ok fm cpu k2 c x2 g2 l1 s' l2 Hd HC2 PB)
      as (d & k3 & x3 & g3 & E3 & HI3 & W1 & W2 & W3 & W4 & W5 & W6 & W7 & W8 & W9).
    { rewrite Eg; lia. }
    { by rewrite (lo_pm _ _ _ _ _ _ L2). }
    { intros q; rewrite Vp; apply Hheld. }
    rewrite <- Eh, E3; exists d, k3, x3, g3; split.
    { destruct d; cbn [finish_free]; by rewrite ?Eg. }
    split; try done.
    + by rewrite W1, W2.
    + congruence.
    + rewrite W4; apply V.
    + rewrite W5; apply V.
    + eapply framed_trans; [exact F2|]; eapply framed_mono; [| | |exact W6]; try done.
      * intros a; unfold hdrs; by rewrite Vh.
      * intros a; by rewrite Vp.
    + unfold hdrs in *; destruct d; rewrite <- Vh, <- Vp; exact W8.
    + intros a Ha; rewrite W7; by apply (lo_mem _ _ _ _ _ _ L2).
  - exists None, k2, x2, g2; split; [done|].
    split; try done; try apply V.
    + split; [done|]; apply (put_back_rest _ _ _ _ _ PB); rewrite Eg; lia.
    + by rewrite (lo_pm _ _ _ _ _ _ L2).
    + apply (lo_mem _ _ _ _ _ _ L2).
Qed.

(** ** The exchange of a full magazine *)

Lemma mag_has_room_ok k x gc a :
  mags_ok (k_mags k) x gc -> a = 0 \/ a ∈ mags x gc ->
  exists r, mag_has_room a k = Ok r /\
    if r : bool then a ≠ 0 /\ exists g, k_mags k !! a = Some g /\ m_count g < m_capacity g
    else a = 0 \/ (2 <= length (mag_objs (k_mags k) a))%nat.
Proof.
  intros HM Ha; unfold mag_has_room; case_decide as H0; [exists false; auto|].
  destruct Ha as [?|Ha]; [done|].
  destruct (proj1 (Forall_forall _ _) (mo_mag _ _ _ HM) a Ha) as [_ (g & Hg & Hl & Hc & Hcap)].
  unfold SLAB_MAX_MAGAZINE_SIZE in *.
  rewrite (mag_at_ok _ _ _ Hg); mstep; eexists; split; [done|].
  case_bool_decide as Hlt; [by eauto|right].
  unfold mag_objs; rewrite Hg, length_take; lia.
Qed.

(** The loaded magazine goes to the depot; the CPU still points to it. *)
Lemma put_full_ok k c x gc i l p :
  cache_inv k c x gc -> g_skip gc = None -> c_cpus x !! i = Some (l, p) -> l ≠ 0 ->
  mag_objs (k_mags k) l ≠ [] ->
  exists k1 x1, mag_depot_put_full c l k = Ok k1 /\
    let gc1 := set_mags (l :: g_dfull gc) (g_dempty gc) (Some i) gc in
    cache_inv k1 c x1 gc1 /\ mags x1 gc1 ≡ₚ mags x gc /\ c_cpus x1 = c_cpus x /\ c_geom x1 = c_geom x /\
    local c [] (mags x gc) nowhere k k1 /\ mag_objs (k_mags k1) l = mag_objs (k_mags k) l.
Proof.
  intros [HC HR] Hs Hi Hl Hne; pose proof (ci_mags _ _ _ _ HC) as HM.
  destruct (cpu_mag_in _ _ _ _ _ l _ HM Hi Hs (or_introl eq_refl) Hl) as (D1 & D2 & D3).
  destruct (proj1 (Forall_forall _ _) (mo_mag _ _ _ HM) l D1) as [_ (g & Hg & _)].
  unfold mag_depot_put_full; rewrite (cache_at_ok _ _ _ (ci_cache _ _ _ _ HC)); mstep.
  rewrite (upd_mag_ok _ _ g) by done; mstep; rewrite (upd_cache_ok _ _ x) by apply HC.
  set (x1 := set_depot _ x); set (m := <[l := _]> (k_mags k)); eexists _, x1; split; [done|].
  set (gc1 := set_mags _ _ _ gc).
  assert (Hp : mags x1 gc1 ≡ₚ mags x gc).
  { destruct (mags_split x gc i l p Hi (or_introl Hs)) as (rest & E & _); rewrite Hs in E.
    destruct (cpu_mags_split _ _ _ Hi) as [rest' Hr].
    unfold mags; cbn [gc1 set_mags g_dfull g_dempty g_skip x1 set_depot c_cpus]; rewrite Hs.
    rewrite (cpu_view_insert (Some i) (c_cpus x) i l p) by auto.
    rewrite (cpu_view_insert None (c_cpus x) i l p) by auto.
    rewrite !Hr; unfold nonzero; rewrite !filter_cons; repeat case_decide; done || solve_Permutation. }
  split_and!; try done; [split|..].
  - apply (core_exchange k c x gc x1 gc1 HC) with (m := m); try done.
    + intros a Ha; destruct (decide (a = l)) as [->|Hnl].
      * exists g, (full_magazines (c_depot x)); split; [done|apply lookup_insert_eq].
      * destruct (proj1 (Forall_forall _ _) (mo_mag _ _ _ HM) a Ha) as [_ (ga & Hga & _)].
        exists ga, (m_next ga); unfold m; by rewrite lookup_insert_ne, set_mnext_same.
    + split; [done|]; split; [done|]; eexists; split; [apply lookup_insert_eq|].
      eapply mchain_ext; [|apply (mo_full _ _ _ HM)]; intros a Ha; unfold m; rewrite lookup_insert_ne; [done|].
      by intros <-.
    + eapply mchain_ext; [|apply (mo_empty _ _ _ HM)]; intros a Ha; unfold m; rewrite lookup_insert_ne; [done|].
      by intros <-.
    + constructor; [done|apply HM].
    + apply HM.
  - by eapply core_at_rest_cpus.
  - split; try done.
    + intros c' Hc'; cbn; by rewrite lookup_insert_ne.
    + intros a Ha; cbn; unfold m; rewrite lookup_insert_ne; [done|]; by intros <-.
  - cbn; unfold m, mag_objs; by rewrite lookup_insert_eq, Hg.
Qed.

(** An empty magazine from the depot. *)
Lemma get_empty_ok src k c x gc cap e de :
  cache_inv k c x gc -> g_dempty gc = e :: de ->
  exists k1 x1, mag_depot_get_empty src c cap k = Ok (e, k1) /\ e ≠ 0 /\
    let gc1 := set_mags (g_dfull gc) de (g_skip gc) gc in
    cache_inv k1 c x1 gc1 /\ mags x gc ≡ₚ e :: mags x1 gc1 /\ c_cpus x1 = c_cpus x /\
    c_geom x1 = c_geom x /\ local c [] (mags x gc) nowhere k k1 /\
    mag_ok (k_mags k1) e /\ mag_objs (k_mags k1) e = [].
Proof.
  intros [HC HR] He; pose proof (ci_mags _ _ _ _ HC) as HM; pose proof HM as [M1 M2 M3 M4 M5 M6].
  rewrite He in M4, M6; destruct M4 as (Eh & Hnz & g & Hg & Hch); apply Forall_cons in M6 as [Heo Hde].
  assert (Hp : mags x gc ≡ₚ e :: cpu_mags (cpu_view (g_skip gc) (c_cpus x)) ++ g_dfull gc ++ de)
    by (unfold mags; rewrite He; solve_Permutation).
  unfold mag_depot_get_empty; rewrite (cache_at_ok _ _ _ (ci_cache _ _ _ _ HC)); mstep; rewrite Eh, decide_True by done.
  rewrite (mag_at_ok _ _ _ Hg); mstep; rewrite (upd_cache_ok _ _ x) by apply HC; mstep.
  rewrite (upd_mag_ok _ e g) by done; mstep.
  set (x1 := set_depot _ x); set (m := <[e := set_mnext 0 g]> (k_mags k)).
  exists (with_mags m (with_caches (<[c := x1]> (k_caches k)) k)), x1; split; [done|]; split; [done|].
  set (gc1 := set_mags _ _ _ gc); change (cpu_mags _ ++ g_dfull gc ++ de) with (mags x1 gc1) in Hp.
  pose proof M1 as Hnd; rewrite Hp in Hnd; apply NoDup_cons in Hnd as [He' Hnd].
  assert (Hsame : forall a, a ∈ mags x1 gc1 -> m !! a = k_mags k !! a).
  { intros a Ha; unfold m; rewrite lookup_insert_ne; [done|]; by intros <-. }
  assert (Hdf : forall a, a ∈ g_dfull gc -> a ∈ mags x1 gc1) by (intros; unfold mags; rewrite !elem_of_app; auto).
  assert (Hde' : forall a, a ∈ de -> a ∈ mags x1 gc1) by (intros; unfold mags; rewrite !elem_of_app; auto).
  assert (Hok : forall a, a ∈ mags x1 gc1 -> a ∈ mags x gc) by (intros a Ha; rewrite Hp; by constructor).
  split_and!; try done; [split|..].
  - eapply (core_mags k); try done.
    + apply lookup_insert_eq.
    + split; try done.
      * apply Forall_forall; intros a Ha; destruct (proj1 (Forall_forall _ _) M2 a (Hok a Ha)) as [? (ga & Hga & ?)].
        split; [done|]; exists ga; cbn; by rewrite Hsame.
      * eapply mchain_ext; [|exact M3]; intros a Ha; cbn; by rewrite Hsame by auto.
      * eapply mchain_ext; [|exact Hch]; intros a Ha; cbn; by rewrite Hsame by auto.
      * apply Forall_forall; intros a Ha; cbn; unfold mag_objs; rewrite Hsame by auto.
        by apply (proj1 (Forall_forall _ _) M5 a).
      * apply Forall_forall; intros a Ha; cbn; unfold mag_objs; rewrite Hsame by auto.
        by apply (proj1 (Forall_forall _ _) Hde a).
    + rewrite Hp, bind_cons, Heo, app_nil_l; cbn [gc1 set_mags g_user g_int with_mags k_mags].
      rewrite (bind_ext_in (mag_objs m) (mag_objs (k_mags k)) (mags x1 gc1)); [done|].
      intros a Ha; unfold mag_objs; by rewrite Hsame.
  - by eapply core_at_rest_cpus.
  - split; try done.
    + intros c' Hc'; cbn; by rewrite lookup_insert_ne.
    + intros a Ha; cbn; unfold m; rewrite lookup_insert_ne; [done|].
      intros <-; apply Ha; rewrite Hp; constructor.
  - destruct (proj1 (Forall_forall _ _) M2 e) as [_ (g' & Hg' & ?)]; [rewrite Hp; constructor|].
    assert (g' = g) as -> by congruence; eexists; split; [apply lookup_insert_eq|done].
  - cbn; unfold m, mag_objs; rewrite lookup_insert_eq; unfold mag_objs in Heo; by rewrite Hg in Heo.
Qed.

(** The CPU gets the magazine [m], or none. *)
Lemma install_ok k c x gc i l p m :
  cache_inv k c x gc -> g_skip gc = Some i -> c_cpus x !! i = Some (l, p) ->
  (m = 0 \/ m ≠ 0 /\ m ∉ mags x gc /\ mag_ok (k_mags k) m /\ mag_objs (k_mags k) m = []) ->
  exists k1 x1, upd_cache c (set_cpu i m p) k = Ok k1 /\ k1 = with_caches (<[c := x1]> (k_caches k)) k /\
    let gc1 := set_mags (g_dfull gc) (g_dempty gc) None gc in
    cache_inv k1 c x1 gc1 /\ mags x1 gc1 ≡ₚ nonzero [m] ++ mags x gc /\
    c_cpus x1 !! i = Some (m, p) /\ c_geom x1 = c_geom x /\ local c [] [] nowhere k k1.
Proof.
  intros [HC HR] Hs Hi Hm; pose proof (ci_mags _ _ _ _ HC) as HM; pose proof HM as [M1 M2 M3 M4 M5 M6].
  rewrite (upd_cache_ok _ _ x) by apply HC; set (x1 := set_cpu i m p x); eexists _, x1; split; [done|].
  split; [done|]; set (gc1 := set_mags _ _ _ gc).
  assert (Hp : mags x1 gc1 ≡ₚ nonzero [m] ++ mags x gc).
  { destruct (mags_split x gc i l p Hi (or_intror Hs)) as (rest & E & E'); rewrite Hs in E.
    rewrite E, (E' x1 gc1 m p) by done; unfold nonzero; rewrite !filter_cons; repeat case_decide; done || solve_Permutation. }
  assert (Hz : nonzero [m] ≫= mag_objs (k_mags k) = []).
  { unfold nonzero; rewrite filter_cons; case_decide as Hz; [|done].
    destruct Hm as [->|(_ & _ & _ & E)]; [done|]; cbn; by rewrite E. }
  split_and!; try done; [split|..].
  - eapply (core_mags k); try done.
    + apply lookup_insert_eq.
    + unfold x1, set_cpu; cbn [c_cpus]; by rewrite length_insert.
    + split; try done.
      * rewrite Hp; destruct Hm as [->|(Hnz & Hno & _)]; [done|].
        unfold nonzero; rewrite filter_cons, decide_True by done; by constructor.
      * rewrite Hp; destruct Hm as [->|(Hnz & Hno & Hok & _)]; [done|].
        unfold nonzero; rewrite filter_cons, decide_True by done; by constructor.
    + cbn [with_caches k_mags gc1 set_mags g_user g_int]; rewrite Hp, bind_app, Hz; done.
  - by eapply core_at_rest_cpus.
  - unfold x1, set_cpu; cbn [c_cpus]; apply list_lookup_insert_eq; by eapply lookup_lt_Some.
  - split; try done; intros c' Hc'; cbn; by rewrite lookup_insert_ne.
Qed.

End free.
