(* ===== verification/SlabHeap.v ===== *)
(** * Slab allocator: all caches together *)

From stdpp Require Import base tactics option list numbers gmap.
From Stdlib Require Import ZArith Lia.
From S2P Require Import Prelude Pmm PmmInv SlabMem Slab SlabGeom SlabInv SlabLists SlabCore.
From S2P Require Import SlabPage SlabAlloc.

Local Open Scope Z_scope.

Section heap.
Context {St : Type} `{Kernel} `{!PageSource St} `{!PageLaws St}.
Implicit Types k : kmem St.

(** ** Steps of one cache do not disturb the others *)

Lemma cache_inv_frame c hs ms ps Hd k k' c2 x2 gc2 :
  framed c hs ms ps Hd k k' -> c2 ≠ c -> cache_inv k c2 x2 gc2 ->
  (forall a, a ∈ hs -> a ∉ hdrs gc2) -> (forall a, a ∈ ms -> a ∉ mags x2 gc2) ->
  (forall p, p ∈ ps -> p ∉ gpages gc2) -> (forall p, p ∈ gpages gc2 -> Hd !! p = Some 0%nat) ->
  cache_inv k' c2 x2 gc2.
Proof.
  intros [F1 F2 F3 F4 F5 F6 _ _] Hne [HC HR] Dh Dm Dp Hh; split; [|done].
  pose proof HC as [C1 C2 C3 C4 C5 C6 C7 C8 C9 C10 [M1 M2 M3 M4 M5 M6] C12].
  assert (Hm : forall a, a ∈ mags x2 gc2 -> k_mags k' !! a = k_mags k !! a).
  { intros a Ha; apply F5; intros Hin; by apply (Dm a). }
  assert (Ho : forall a, a ∈ mags x2 gc2 -> mag_objs (k_mags k') a = mag_objs (k_mags k) a).
  { intros a Ha; unfold mag_objs; by rewrite Hm. }
  assert (Hdf : forall a, a ∈ g_dfull gc2 -> a ∈ mags x2 gc2) by (intros; unfold mags; rewrite !elem_of_app; auto).
  assert (Hde : forall a, a ∈ g_dempty gc2 -> a ∈ mags x2 gc2) by (intros; unfold mags; rewrite !elem_of_app; auto).
  split; try done.
  - by rewrite F3.
  - intros w; eapply slab_linked_ext; [|apply C6]; intros a Ha; apply F4; intros Hin.
    by apply (Dh a Hin), (hdrs_w _ w).
  - apply Forall_forall; intros s Hs.
    assert (Hp : gs_page s ∈ gpages gc2) by (by apply list_elem_of_fmap_2).
    assert (Hps : gs_page s ∉ ps) by (intros Hin; by apply (Dp _ Hin)).
    eapply slab_inv_frame; [by eapply (core_slab HC)|apply (core_geom HC)|..].
    + apply F4; intros Hin; by apply (Dh _ Hin), list_elem_of_fmap_2.
    + by apply F2.
    + by apply (F1 _ _ (Hh _ Hp)).
    + intros a Ha; apply F6; intros p Hp' Hin; apply Hps.
      by rewrite (in_page_inj _ _ _ Ha Hin).
  - split; try done.
    + eapply Forall_impl; [apply Forall_and; split; [exact M2|apply Forall_forall; intros a Ha; exact Ha]|].
      intros a [[Ha (g & Hg & Hok)] Hin]; split; [done|]; exists g; by rewrite Hm.
    + eapply mchain_ext; [|exact M3]; intros a Ha; by rewrite Hm by auto.
    + eapply mchain_ext; [|exact M4]; intros a Ha; by rewrite Hm by auto.
    + apply Forall_forall; intros a Ha; rewrite Ho by auto; by eapply Forall_forall in M5.
    + apply Forall_forall; intros a Ha; rewrite Ho by auto; by eapply Forall_forall in M6.
  - rewrite <- C12; unfold where_objs; by rewrite (bind_ext_in _ (mag_objs (k_mags k))).
Qed.

(** The conditions under which a step of one cache preserves the whole. *)
Record step_ok k k' (G : gmap Z gcache) (L Hd Hd' : gmap Z nat) (c : Z) (x x' : cache_t)
    (gc gc' : gcache) (hs ms ps : list Z) : Prop := {
  st_inv : cache_inv k' c x' gc';
  st_frame : framed c hs ms ps Hd k k';
  st_pages : ps_ok (k_pm k') Hd';
  st_geom : c_geom x' = c_geom x;
  st_hs c2 gc2 a : c2 ≠ c -> G !! c2 = Some gc2 -> a ∈ hs -> a ∉ hdrs gc2;
  st_ms c2 gc2 x2 a : c2 ≠ c -> G !! c2 = Some gc2 -> k_caches k !! c2 = Some x2 -> a ∈ ms ->
    a ∉ mags x2 gc2;
  st_ps c2 gc2 p : c2 ≠ c -> G !! c2 = Some gc2 -> p ∈ ps -> p ∉ gpages gc2;
  st_large p : p ∈ ps -> L !! p = None;
  st_hdrs a : a ∈ hdrs gc' -> a ∈ hdrs gc \/ a ∈ hs;
  st_gpages p : p ∈ gpages gc' -> p ∈ gpages gc \/ p ∈ ps;
  st_mags a : a ∈ mags x' gc' -> a ∈ mags x gc \/ a ∈ ms;
  st_keep q o : Hd !! q = Some o -> q ∉ ps -> Hd' !! q = Some o;
  st_own p : p ∈ gpages gc' -> Hd' !! p = Some 0%nat;
  st_mag_new a : a ∈ mags x' gc' -> a ∈ mags x gc \/ mag_origin k' (<[c := gc']> G) a;
  st_hdr_new s : c_off_slab (c_geom x) = true -> s ∈ slabs gc' ->
    gs_hdr s ∈ hdrs gc \/ hdr_origin k' (<[c := gc']> G) c (gs_hdr s);
  st_int a : a ∈ g_int gc -> a ∈ g_int gc' \/
    ((forall c2 gc2 x2, <[c := gc']> G !! c2 = Some gc2 -> k_caches k' !! c2 = Some x2 -> a ∉ mags x2 gc2) /\
     (forall c2 gc2, <[c := gc']> G !! c2 = Some gc2 -> a ∉ hdrs gc2))
}.

(** What is used as a magazine or header keeps its origin. *)
Lemma mag_origin_step k k' G L Hd Hd' c x x' gc gc' hs ms ps c2 gc2 x2 a :
  step_ok k k' G L Hd Hd' c x x' gc gc' hs ms ps -> G !! c = Some gc ->
  <[c := gc']> G !! c2 = Some gc2 -> k_caches k' !! c2 = Some x2 -> a ∈ mags x2 gc2 ->
  mag_origin k G a -> mag_origin k' (<[c := gc']> G) a.
Proof.
  intros Hst HG H2 Hx2 Ha [(n & Hn & ->)|(gm & Hgm & Hin)];
    destruct (st_frame _ _ _ _ _ _ _ _ _ _ _ _ _ _ Hst) as [_ _ _ _ _ _ [_ B2] (B3 & _ & _)].
  - left; exists n; split; [lia|done].
  - right; rewrite B3; destruct (decide (magazine_cache k = c)) as [E|Hne].
    + rewrite E, HG in Hgm; injection Hgm as <-; exists gc'; rewrite E, lookup_insert_eq; split; [done|].
      destruct (st_int _ _ _ _ _ _ _ _ _ _ _ _ _ _ Hst a Hin) as [?|[Hu _]]; [done|].
      by destruct (Hu _ _ _ H2 Hx2).
    + exists gm; by rewrite lookup_insert_ne.
Qed.

Lemma hdr_origin_step k k' G L Hd Hd' c x x' gc gc' hs ms ps c2 gc2 c3 a :
  step_ok k k' G L Hd Hd' c x x' gc gc' hs ms ps -> G !! c = Some gc ->
  <[c := gc']> G !! c2 = Some gc2 -> a ∈ hdrs gc2 ->
  hdr_origin k G c3 a -> hdr_origin k' (<[c := gc']> G) c3 a.
Proof.
  intros Hst HG H2 Ha [[(n & Hn & ->) Hc3]|(gm & Hgm & Hin)];
    destruct (st_frame _ _ _ _ _ _ _ _ _ _ _ _ _ _ Hst) as [_ _ _ _ _ _ [B2 _] (B4 & B3 & _)].
  - left; rewrite B3, B4; split; [exists n; split; [lia|done]|done].
  - right; rewrite B3; destruct (decide (slab_meta_cache k = c)) as [E|Hne].
    + rewrite E, HG in Hgm; injection Hgm as <-; exists gc'; rewrite E, lookup_insert_eq; split; [done|].
      destruct (st_int _ _ _ _ _ _ _ _ _ _ _ _ _ _ Hst a Hin) as [?|[_ Hu]]; [done|].
      by destruct (Hu _ _ H2).
    + exists gm; by rewrite lookup_insert_ne.
Qed.

Lemma heap_update k k' G L Hd Hd' c x x' gc gc' hs ms ps :
  heap_inv k G L Hd -> G !! c = Some gc -> k_caches k !! c = Some x ->
  step_ok k k' G L Hd Hd' c x x' gc gc' hs ms ps -> heap_inv k' (<[c := gc']> G) L Hd'.
Proof.
  intros HI HG Hx Hst; pose proof Hst as [T1 T2 T3 T4 T5 T6 T7 T8 T9 T10 T11 T12 T13 T14 T15 T16].
  pose proof HI as [I1 I2 I3 I4 I5 I6 I7 I8 I9 I10 I11 I12].
  pose proof T2 as [F1 F2 F3 F4 F5 F6 F7 F8].
  assert (Hx' : k_caches k' !! c = Some x') by (by destruct T1 as [[]]).
  assert (Hcases : forall c2 gc2, <[c := gc']> G !! c2 = Some gc2 ->
    c2 = c /\ gc2 = gc' \/ c2 ≠ c /\ G !! c2 = Some gc2).
  { intros c2 gc2; destruct (decide (c2 = c)) as [->|]; [rewrite lookup_insert_eq|rewrite lookup_insert_ne by done].
    - intros [= <-]; auto.
    - auto. }
  assert (Hother : forall c2 gc2 x2, c2 ≠ c -> G !! c2 = Some gc2 -> k_caches k !! c2 = Some x2 ->
    apart x' x2 gc' gc2).
  { intros c2 gc2 x2 Hne H2 Hx2; destruct (I4 c c2 gc gc2 x x2) as [A1 A2 A3]; try done; split.
    - intros a [Ha|Ha]%T9; [by apply A1|by eapply T5].
    - intros p [Hp|Hp]%T10; [by apply A2|by eapply T7].
    - intros a [Ha|Ha]%T11; [by apply A3|by eapply T6]. }
  split; try done.
  - intros c2 gc2 [[-> ->]|[Hne H2]]%Hcases; [eauto|].
    destruct (I2 c2 gc2 H2) as [x2 H2i]; exists x2.
    assert (Hx2 : k_caches k !! c2 = Some x2) by (by destruct H2i as [[]]).
    eapply cache_inv_frame; try done; eauto.
  - intros c2 gc2 p [[-> ->]|[Hne H2]]%Hcases Hp; [by apply T13|].
    apply T12; [by eapply I3|]; intros Hin; by eapply T7.
  - intros c1 c2 gc1 gc2 x1 x2 Hne [[-> ->]|[Hne1 H1]]%Hcases [[-> ->]|[Hne2 H2]]%Hcases Hx1 Hx2; try done.
    + assert (x1 = x') as -> by congruence; rewrite F3 in Hx2 by done; by eapply Hother.
    + assert (x2 = x') as -> by congruence; rewrite F3 in Hx1 by done.
      destruct (Hother c1 gc1 x1) as [A1 A2 A3]; try done; split; intros a Ha Ha';
        [by eapply A1|by eapply A2|by eapply A3].
    + rewrite F3 in Hx1, Hx2 by done; by eapply (I4 c1 c2).
  - intros c2 gc2 x2 a Hc2 Hx2 Ha; pose proof (Hcases _ _ Hc2) as [[-> ->]|[Hne H2]].
    + assert (x2 = x') as -> by congruence; destruct (T14 a Ha) as [Hold|]; [|done].
      eapply (mag_origin_step k k'); try done; by eapply I5.
    + rewrite F3 in Hx2 by done; eapply (mag_origin_step k k'); try done; [by rewrite F3|by eapply I5].
  - intros c2 gc2 x2 s Hc2 Hx2 Hs Hoff; pose proof (Hcases _ _ Hc2) as [[-> ->]|[Hne H2]].
    + assert (x2 = x') as -> by congruence; rewrite T4 in Hoff.
      destruct (T15 s Hoff Hs) as [(s0 & E & Hs0)%list_elem_of_fmap|]; [|done].
      eapply (hdr_origin_step k k'); try done; [by apply list_elem_of_fmap_2|]; rewrite E; by eapply I6.
    + rewrite F3 in Hx2 by done; eapply (hdr_origin_step k k'); try done;
        [by apply list_elem_of_fmap_2|by eapply I6].
  - intros p o Hp; destruct (I7 p o Hp) as [Hh (f & Hf & Hfl)].
    assert (Hps : p ∉ ps) by (intros Hin; rewrite (T8 _ Hin) in Hp; done).
    split; [by apply T12|]; exists f; by rewrite (proj1 (F1 p o Hh Hps)).
  - lia.
  - intros gm x2; destruct F8 as (_ & -> & _); intros Hgm Hx2; destruct (Hcases _ _ Hgm) as [[E ->]|[Hne H2]].
    + rewrite E in *; assert (x2 = x') as -> by congruence; rewrite T4; by eapply I9.
    + rewrite F3 in Hx2 by done; by eapply I9.
  - destruct F8 as (-> & -> & _); done.
  - destruct F8 as (-> & -> & _); intros c2 Hc2; destruct (I11 c2 Hc2) as [?|Hs]; [by left|right].
    destruct (decide (c2 = c)) as [->|]; [rewrite lookup_insert_eq; eauto|by rewrite lookup_insert_ne].
  - intros c2 gc2 Hc2; assert (Ho : cache_origin k L c2).
    { destruct (Hcases _ _ Hc2) as [[-> _]|[_ H2]]; [by apply (I12 c gc)|by apply (I12 c2 gc2)]. }
    destruct Ho as [(n & Hn & ->)|?]; [left; exists n; split; [lia|done]|by right].
Qed.

(** ** Facts of a consistent heap *)

Section facts.
Context {k : kmem St} {G : gmap Z gcache} {L Hd : gmap Z nat}.
Context (HI : heap_inv k G L Hd).

Lemma heap_cache c gc x : G !! c = Some gc -> k_caches k !! c = Some x -> cache_inv k c x gc.
Proof.
  intros HG Hx; destruct (hi_cache _ _ _ _ HI c gc HG) as [x' Hc].
  assert (x' = x) as -> by (destruct Hc as [[]]; congruence); done.
Qed.

Lemma heap_addressable c gc x : G !! c = Some gc -> k_caches k !! c = Some x -> addressable x gc.
Proof.
  intros HG Hx o (s & Ho & Hs)%elem_of_bind; destruct (heap_cache c gc x HG Hx) as [HC _].
  assert (Hp : Hd !! gs_page s = Some 0%nat) by (eapply (hi_held _ _ _ _ HI); [done|by apply list_elem_of_fmap_2]).
  destruct (ps_place _ _ _ _ (gs_page s) (hi_pages _ _ _ _ HI) Hp (in_block_self _)) as (_ & _ & H3 & H4).
  destruct (gs_objs_bounds _ s o (core_geom HC) (si_color _ _ _ _ (core_slab HC _ Hs)) Ho) as [H5 H6].
  pose proof (core_size HC); pose proof (go_header _ (core_geom HC)); unfold sizeof_slab in *.
  destruct (c_off_slab _); lia.
Qed.

(** A large block is not a slab. *)
Lemma large_not_slab c gc p : G !! c = Some gc -> p ∈ gpages gc -> L !! p = None.
Proof.
  intros HG (s & -> & Hs)%list_elem_of_fmap; destruct (L !! gs_page s) as [o|] eqn:E; [|done].
  destruct (hi_large _ _ _ _ HI _ _ E) as [_ (f & Hf & Hl)].
  destruct (hi_cache _ _ _ _ HI c gc HG) as [x [HC _]].
  destruct (si_flags _ _ _ _ (core_slab HC _ Hs)) as (f' & Hf' & _ & Hl'); congruence.
Qed.

End facts.

(** ** What clients hold *)

(** A byte of a client's object or large block. *)
Definition client_byte k (G : gmap Z gcache) (L : gmap Z nat) (a : Z) : Prop :=
  (exists c gc x o, G !! c = Some gc /\ k_caches k !! c = Some x /\ o ∈ g_user gc /\
     within o (c_obj_size (c_geom x)) a) \/
  (exists p o q, L !! p = Some o /\ in_block p o q /\ in_page q a).

(** Neither a page of a large block nor, for a frame that no slab uses, its bytes. *)
Lemma client_not_page k G L Hd p a :
  heap_inv k G L Hd -> Hd !! p = Some 0%nat -> L !! p = None ->
  (forall c gc, G !! c = Some gc -> p ∉ gpages gc) -> client_byte k G L a -> ~ in_page p a.
Proof.
  intros HI Hp HL Hno [(c & gc & x & o & HG & Hx & Ho & Ha)|(p' & o & q & Hp' & Hq & Ha)] Hin.
  - destruct (heap_cache HI c gc x HG Hx) as [HC _].
    destruct (obj_page _ _ _ _ o a HC) as (q & Hq & Hqa); [|done|].
    { rewrite <- (ci_objs _ _ _ _ HC); unfold where_objs; rewrite !elem_of_app; auto. }
    rewrite (in_page_inj _ _ _ Hqa Hin) in Hq; by eapply Hno.
  - rewrite (in_page_inj _ _ _ Ha Hin) in Hq; destruct (hi_large _ _ _ _ HI _ _ Hp') as [Hh _].
    assert (p' = p) as -> by (eapply (ps_apart _ _ _ _ _ _ p (hi_pages _ _ _ _ HI)); [done|done|done|apply in_block_self]).
    congruence.
Qed.

(** An object and another one that a client holds. *)
Lemma other_obj_apart k G L Hd c gc x o c2 gc2 x2 o2 a :
  heap_inv k G L Hd -> G !! c = Some gc -> k_caches k !! c = Some x ->
  o ∈ slabs gc ≫= gs_objs (c_geom x) ->
  G !! c2 = Some gc2 -> k_caches k !! c2 = Some x2 -> o2 ∈ g_user gc2 -> (c2 = c -> o2 ≠ o) ->
  within o2 (c_obj_size (c_geom x2)) a -> ~ within o (c_obj_size (c_geom x)) a.
Proof.
  intros HI HG Hx Ho HG2 Hx2 Ho2 Hne Ha Hin; destruct (heap_cache HI c gc x HG Hx) as [HC _].
  destruct (obj_page _ _ _ _ o a HC Ho Hin) as (p & Hp & Hpa).
  destruct (heap_cache HI c2 gc2 x2 HG2 Hx2) as [HC2 _].
  assert (Hw2 : o2 ∈ where_objs k x2 gc2) by (unfold where_objs; rewrite !elem_of_app; auto).
  destruct (decide (c2 = c)) as [->|Hne2].
  - assert (gc2 = gc) as -> by congruence; assert (x2 = x) as -> by congruence.
    eapply (core_objs_apart HC o o2 a); try done; [by rewrite (ci_objs _ _ _ _ HC)|intros ->; by apply Hne].
  - destruct (obj_page _ _ _ _ o2 a HC2) as (q & Hq & Hqa); [by rewrite <- (ci_objs _ _ _ _ HC2)|done|].
    rewrite (in_page_inj _ _ _ Hqa Hpa) in Hq.
    by eapply (ap_pages _ _ _ _ (hi_apart _ _ _ _ HI c2 c gc2 gc x2 x Hne2 HG2 HG Hx2 Hx)).
Qed.

Lemma large_obj_apart k G L Hd c gc x o p' o' q a :
  heap_inv k G L Hd -> G !! c = Some gc -> k_caches k !! c = Some x ->
  o ∈ slabs gc ≫= gs_objs (c_geom x) -> L !! p' = Some o' -> in_block p' o' q -> in_page q a ->
  ~ within o (c_obj_size (c_geom x)) a.
Proof.
  intros HI HG Hx Ho Hp' Hq Ha Hin; destruct (heap_cache HI c gc x HG Hx) as [HC _].
  destruct (obj_page _ _ _ _ o a HC Ho Hin) as (p & Hp & Hpa).
  rewrite (in_page_inj _ _ _ Ha Hpa) in Hq; destruct (hi_large _ _ _ _ HI _ _ Hp') as [Hh _].
  assert (p' = p) as -> by (eapply (ps_apart _ _ _ _ _ _ p (hi_pages _ _ _ _ HI));
    [done|by eapply (hi_held _ _ _ _ HI)|done|apply in_block_self]).
  rewrite (large_not_slab HI c gc p HG Hp) in Hp'; done.
Qed.

(** Writing to an object of [c] that no client holds. *)
Lemma client_not_obj k G L Hd c gc x o a :
  heap_inv k G L Hd -> G !! c = Some gc -> k_caches k !! c = Some x ->
  o ∈ slabs gc ≫= gs_objs (c_geom x) -> o ∉ g_user gc ->
  client_byte k G L a -> ~ within o (c_obj_size (c_geom x)) a.
Proof.
  intros HI HG Hx Ho Hnu [(c2 & gc2 & x2 & o2 & HG2 & Hx2 & Ho2 & Ha)|(p' & o2 & q & Hp' & Hq & Ha)].
  - eapply (other_obj_apart k G L Hd c gc x o c2 gc2 x2 o2 a); try done.
    intros -> ->; apply Hnu; congruence.
  - by eapply large_obj_apart.
Qed.

(** ** Allocations *)

(** The object [new] that a client gets from the cache [c]. *)
Definition added (new : option (Z * Z)) (c : Z) : list Z :=
  match new with Some (c', o) => if decide (c' = c) then [o] else [] | None => [] end.

(** The effect of an allocation on the heap: it may take pages, touch the caches [T] and
    give out [new]; what clients hold, and what they stored there, stays. *)
Record grows (T : list Z) (new : option (Z * Z)) k (G : gmap Z gcache) (L Hd : gmap Z nat)
    k' (G' : gmap Z gcache) (Hd' : gmap Z nat) : Prop := {
  gr_inv : heap_inv k' G' L Hd';
  gr_held q o : Hd !! q = Some o -> Hd' !! q = Some o;
  gr_other c : c ∉ T -> G' !! c = G !! c /\ k_caches k' !! c = k_caches k !! c;
  gr_cache c gc : G !! c = Some gc -> exists gc', G' !! c = Some gc' /\ g_skip gc' = g_skip gc /\
    g_int gc ⊆ g_int gc' /\ g_user gc' = added new c ++ g_user gc;
  gr_dom c : G !! c = None -> G' !! c = None;
  gr_geom c gc x : G !! c = Some gc -> k_caches k !! c = Some x ->
    exists x', k_caches k' !! c = Some x' /\ c_geom x' = c_geom x;
  gr_mags c gc' x' a : G' !! c = Some gc' -> k_caches k' !! c = Some x' -> a ∈ mags x' gc' ->
    exists gc x, G !! c = Some gc /\ k_caches k !! c = Some x /\ a ∈ mags x gc;
  gr_hdrs c gc' a : G' !! c = Some gc' -> a ∈ hdrs gc' ->
    (exists gc, G !! c = Some gc /\ a ∈ hdrs gc) \/
    (forall gm, G !! slab_meta_cache k = Some gm -> a ∉ g_int gm);
  gr_pages c gc' p : G' !! c = Some gc' -> p ∈ gpages gc' ->
    (exists gc, G !! c = Some gc /\ p ∈ gpages gc) \/ Hd !! p = None;
  gr_flags q o : Hd !! q = Some o -> (forall c gc, G !! c = Some gc -> q ∉ gpages gc) ->
    ps_flags (k_pm k') q = ps_flags (k_pm k) q;
  gr_globals : magazine_cache k' = magazine_cache k /\ slab_meta_cache k' = slab_meta_cache k /\
    kmalloc_caches k' = kmalloc_caches k;
  gr_data a : client_byte k G L a -> k_mem k' !! a = k_mem k !! a
}.

Arguments gr_inv {_ _ _ _ _ _ _ _ _} _.
Arguments gr_held {_ _ _ _ _ _ _ _ _} _.
Arguments gr_other {_ _ _ _ _ _ _ _ _} _.
Arguments gr_cache {_ _ _ _ _ _ _ _ _} _.
Arguments gr_geom {_ _ _ _ _ _ _ _ _} _.
Arguments gr_dom {_ _ _ _ _ _ _ _ _} _.
Arguments gr_mags {_ _ _ _ _ _ _ _ _} _.
Arguments gr_hdrs {_ _ _ _ _ _ _ _ _} _.
Arguments gr_pages {_ _ _ _ _ _ _ _ _} _.
Arguments gr_flags {_ _ _ _ _ _ _ _ _} _.
Arguments gr_globals {_ _ _ _ _ _ _ _ _} _.
Arguments gr_data {_ _ _ _ _ _ _ _ _} _.

Lemma grows_client T new k G L Hd k' G' Hd' a :
  grows T new k G L Hd k' G' Hd' -> client_byte k G L a -> client_byte k' G' L a.
Proof.
  intros Hg [(c & gc & x & o & HG & Hx & Ho & Ha)|Hl]; [left|by right].
  destruct (gr_cache Hg c gc HG) as (gc' & HG' & _ & _ & Hu).
  destruct (gr_geom Hg c gc x HG Hx) as (x' & Hx' & Eg).
  exists c, gc', x', o; rewrite Eg, Hu, elem_of_app; auto.
Qed.

Lemma grows_trans T1 T2 new k1 G1 L H1 k2 G2 H2 k3 G3 H3 :
  grows T1 None k1 G1 L H1 k2 G2 H2 -> grows T2 new k2 G2 L H2 k3 G3 H3 ->
  grows (T1 ++ T2) new k1 G1 L H1 k3 G3 H3.
Proof.
  intros A B; split.
  - apply (gr_inv B).
  - intros q o Hq; by apply (gr_held B), (gr_held A).
  - intros c Hc; rewrite elem_of_app in Hc.
    destruct (gr_other A c) as [E1 E2]; [auto|].
    destruct (gr_other B c) as [E3 E4]; [auto|]; split; congruence.
  - intros c gc HG; destruct (gr_cache A c gc HG) as (g2 & HG2 & S2 & I2 & U2).
    destruct (gr_cache B c g2 HG2) as (g3 & HG3 & S3 & I3 & U3).
    exists g3; split_and!; [done|congruence|by etrans|]; by rewrite U3, U2.
  - intros c HG; by apply (gr_dom B), (gr_dom A).
  - intros c gc x HG Hx; destruct (gr_cache A c gc HG) as (g2 & HG2 & _).
    destruct (gr_geom A c gc x HG Hx) as (x2 & Hx2 & E2).
    destruct (gr_geom B c g2 x2 HG2 Hx2) as (x3 & Hx3 & E3); exists x3; split; congruence.
  - intros c g3 x3 a HG3 Hx3 Ha; destruct (gr_mags B c g3 x3 a HG3 Hx3 Ha) as (g2 & x2 & HG2 & Hx2 & Ha2).
    by eapply (gr_mags A).
  - intros c g3 a HG3 Ha; destruct (gr_hdrs B c g3 a HG3 Ha) as [(g2 & HG2 & Ha2)|Hno]; [by eapply (gr_hdrs A)|].
    right; intros gm HGm Hin; destruct (gr_cache A _ gm HGm) as (gm2 & HGm2 & _ & Hi & _).
    destruct (gr_globals A) as (_ & Emt & _); rewrite <- Emt in HGm2; by apply (Hno gm2 HGm2), Hi.
  - intros c g3 p HG3 Hp; destruct (gr_pages B c g3 p HG3 Hp) as [(g2 & HG2 & Hp2)|Hno].
    + by eapply (gr_pages A).
    + right; destruct (H1 !! p) as [o|] eqn:E; [|done]; apply (gr_held A) in E; congruence.
  - intros q o Hq Hno; rewrite <- (gr_flags A q o Hq Hno).
    eapply (gr_flags B); [by apply (gr_held A)|]; intros c g2 HG2 Hin.
    destruct (gr_pages A c g2 q HG2 Hin) as [(gc & HG & Hp)|Hno']; [by eapply Hno|congruence].
  - destruct (gr_globals A) as (E1 & E2 & E3), (gr_globals B) as (E4 & E5 & E6).
    split_and!; congruence.
  - intros a Ha; rewrite <- (gr_data A a Ha); apply (gr_data B); by eapply grows_client.
Qed.

Lemma grows_mono T T' new k G L Hd k' G' Hd' :
  T ⊆ T' -> grows T new k G L Hd k' G' Hd' -> grows T' new k G L Hd k' G' Hd'.
Proof. intros HT [A1 A2 A3 A4 A5 A6 A7 A8 A9 A10 A11 A12]; split; auto. Qed.

(** ** Allocations within one cache *)

Lemma heap_apart k G L Hd c c2 gc gc2 x :
  heap_inv k G L Hd -> c2 ≠ c -> G !! c = Some gc -> G !! c2 = Some gc2 -> k_caches k !! c = Some x ->
  exists x2, k_caches k !! c2 = Some x2 /\ apart x x2 gc gc2.
Proof.
  intros HI Hne HG HG2 Hx; destruct (hi_cache _ _ _ _ HI c2 gc2 HG2) as [x2 [HC2 _]].
  exists x2; split; [apply HC2|]; eapply (hi_apart _ _ _ _ HI c c2); try done; apply HC2.
Qed.

Lemma local_step k k' G L Hd c x x' gc gc' ms W :
  heap_inv k G L Hd -> G !! c = Some gc -> k_caches k !! c = Some x ->
  cache_inv k' c x' gc' -> local c (hdrs gc) ms W k k' -> ms ⊆ mags x gc ->
  (forall a, W a -> exists p, p ∈ gpages gc /\ in_page p a) ->
  c_geom x' = c_geom x -> hdrs gc' ⊆ hdrs gc -> gpages gc' ⊆ gpages gc -> mags x' gc' ⊆ mags x gc ->
  (forall a, a ∈ g_int gc -> a ∈ g_int gc' \/
    ((forall c2 gc2 x2, <[c := gc']> G !! c2 = Some gc2 -> k_caches k' !! c2 = Some x2 -> a ∉ mags x2 gc2) /\
     (forall c2 gc2, <[c := gc']> G !! c2 = Some gc2 -> a ∉ hdrs gc2))) ->
  step_ok k k' G L Hd Hd c x x' gc gc' (hdrs gc) ms (gpages gc).
Proof.
  intros HI HG Hx Hc HL Hms HW Eg Eh Ep Em Hint; split; try done; auto.
  - by eapply local_framed.
  - rewrite (lo_pm _ _ _ _ _ _ HL); apply HI.
  - intros c2 gc2 a Hne HG2 Ha; destruct (heap_apart k G L Hd c c2 gc gc2 x) as (x2 & _ & [A1 _ _]); auto.
  - intros c2 gc2 x2 a Hne HG2 Hx2 Ha; destruct (heap_apart k G L Hd c c2 gc gc2 x) as (x2' & Hx2' & [_ _ A3]); auto.
    assert (x2' = x2) as -> by congruence; auto.
  - intros c2 gc2 p Hne HG2 Hp; destruct (heap_apart k G L Hd c c2 gc gc2 x) as (x2 & _ & [_ A2 _]); auto.
  - intros p Hp; by eapply large_not_slab.
  - intros p Hp; by eapply (hi_held _ _ _ _ HI), Ep.
  - intros s _ Hs; left; by apply Eh, list_elem_of_fmap_2.
Qed.

(** An allocation that ends with a step of the cache [c], on its own and on new pages. *)
Lemma grows_step T new k G L Hd k2 G2 Hd2 k' Hd' c x x' gc gc' hs ms ps :
  grows T None k G L Hd k2 G2 Hd2 -> G2 !! c = Some gc -> k_caches k2 !! c = Some x ->
  step_ok k2 k' G2 L Hd2 Hd' c x x' gc gc' hs ms ps ->
  (forall q o, Hd !! q = Some o -> Hd' !! q = Some o) ->
  (forall p, p ∈ ps -> p ∈ gpages gc \/ Hd !! p = None) ->
  g_skip gc' = g_skip gc -> g_int gc ⊆ g_int gc' -> g_user gc' = added new c ++ g_user gc ->
  (forall c2, c2 ≠ c -> added new c2 = []) -> mags x' gc' ⊆ mags x gc ->
  (forall a, a ∈ hdrs gc' -> a ∈ hdrs gc \/ forall gm, G !! slab_meta_cache k = Some gm -> a ∉ g_int gm) ->
  (forall a, client_byte k2 G2 L a -> k_mem k' !! a = k_mem k2 !! a) ->
  grows (T ++ [c]) new k G L Hd k' (<[c := gc']> G2) Hd'.
Proof.
  intros Hg HG2 Hx Hst Hheld Hps Hsk Hint Huser Hadd Hmags Hhdrs Hdata; pose proof (gr_inv Hg) as HI2.
  pose proof (heap_update _ _ _ _ _ _ _ _ _ _ _ _ _ _ HI2 HG2 Hx Hst) as HI'.
  pose proof Hst as [T1 [F1 F2 F3 F4 F5 F6 F7 F8] T3 T4 _ _ _ _ _ T10 _ _ _ _ _ _].
  pose proof (ci_cache _ _ _ _ (proj1 T1)) as Hx'.
  split; try done.
  - intros c2 Hc2; rewrite elem_of_app, list_elem_of_singleton in Hc2; rewrite lookup_insert_ne by auto.
    destruct (gr_other Hg c2) as [E1 E2]; [auto|]; split; [done|]; rewrite F3; auto.
  - intros c2 g1 HG1; destruct (gr_cache Hg c2 g1 HG1) as (g2 & HGc2 & S2 & I2 & Us2); cbn [added app] in Us2.
    destruct (decide (c2 = c)) as [->|Hne].
    + assert (g2 = gc) as -> by congruence; exists gc'; rewrite lookup_insert_eq, Huser, Us2.
      split_and!; [done|congruence|by etrans|done].
    + exists g2; rewrite lookup_insert_ne, Hadd by done; done.
  - intros c2 HG1; apply (gr_dom Hg) in HG1; rewrite lookup_insert_ne; [done|congruence].
  - intros c2 g1 x1 HG1 Hx1; destruct (gr_geom Hg c2 g1 x1 HG1 Hx1) as (x2 & Hx2 & E2).
    destruct (decide (c2 = c)) as [->|Hne]; [exists x'; split; [done|congruence]|exists x2; by rewrite F3].
  - intros c2 g3 x3 a HG3 Hx3 Ha; destruct (decide (c2 = c)) as [->|Hne].
    + rewrite lookup_insert_eq in HG3; injection HG3 as <-; assert (x3 = x') as -> by congruence.
      eapply (gr_mags Hg); [exact HG2|exact Hx|by apply Hmags].
    + rewrite lookup_insert_ne in HG3 by done; rewrite F3 in Hx3 by done; by eapply (gr_mags Hg).
  - intros c2 g3 a HG3 Ha; destruct (decide (c2 = c)) as [->|Hne].
    + rewrite lookup_insert_eq in HG3; injection HG3 as <-.
      destruct (Hhdrs a Ha); [by eapply (gr_hdrs Hg)|by right].
    + rewrite lookup_insert_ne in HG3 by done; by eapply (gr_hdrs Hg).
  - intros c2 g3 q HG3 Hq; destruct (decide (c2 = c)) as [->|Hne].
    + rewrite lookup_insert_eq in HG3; injection HG3 as <-.
      apply T10 in Hq as [Hq|Hq]; [by eapply (gr_pages Hg)|].
      destruct (Hps _ Hq); [by eapply (gr_pages Hg)|by right].
    + rewrite lookup_insert_ne in HG3 by done; by eapply (gr_pages Hg).
  - intros q o Hq Hn; rewrite <- (gr_flags Hg q o Hq Hn); eapply F1; [by apply (gr_held Hg)|].
    intros Hin; destruct (Hps _ Hin) as [Hp|]; [|congruence].
    destruct (gr_pages Hg c gc q HG2 Hp) as [(g1 & HG1 & Hp1)|]; [by eapply Hn|congruence].
  - destruct (gr_globals Hg) as (G1 & G3 & G4), F8 as (G5 & G6 & G7); split_and!; congruence.
  - intros a Ha; rewrite <- (gr_data Hg a Ha); apply Hdata; by eapply grows_client.
Qed.

(** What [give] adds. *)
Lemma give_added (b : bool) (c o : Z) gc gc' :
  g_user gc' = g_user gc -> g_int gc' = g_int gc ->
  let new : option (Z * Z) := if b then None else Some (c, o) in
  g_user (give b o gc') = added new c ++ g_user gc /\ g_int gc ⊆ g_int (give b o gc') /\
  forall c2, c2 ≠ c -> added new c2 = [].
Proof.
  intros E1 E2 new; unfold new; destruct b; cbn; rewrite E1, E2, ?decide_True by done; split_and!; try done.
  - by intros a; constructor.
  - intros c2 Hne; by rewrite decide_False.
Qed.

Lemma grows_refl T k G L Hd : heap_inv k G L Hd -> grows T None k G L Hd k G Hd.
Proof. intros HI; split; eauto 10. Qed.

Lemma heap_gave k G L Hd c gc x b o k' x' gc' :
  heap_inv k G L Hd -> G !! c = Some gc -> k_caches k !! c = Some x -> gave k c x gc b o k' x' gc' ->
  grows [c] (if b then None else Some (c, o)) k G L Hd k' (<[c := give b o gc']> G) Hd.
Proof.
  intros HI HG Hx Hgv; pose proof Hgv as [V1 V2 V3 V4 V5 V6 V7 V8 V9 V10 V11].
  pose proof (gave_fresh _ _ _ _ _ _ _ _ _ Hgv) as Hfr; rewrite elem_of_app in Hfr.
  destruct (heap_cache HI c gc x HG Hx) as [HC _]; destruct (give_added b c o gc gc' V6 V7) as (A1 & A2 & A3).
  eapply (grows_step [] _ k G L Hd k G Hd k' Hd c x x' gc); try done; [by apply grows_refl|..].
  - eapply local_step; try done; [intros a Ha; by eapply obj_page|auto].
  - auto.
  - intros a Ha; left; by apply V3.
  - intros a Ha; apply (lo_mem _ _ _ _ _ _ V9); eapply client_not_obj; try done; auto.
Qed.

(** ** Steps that touch no cache *)

(** Headers, magazines and pages that belong to no cache. *)
Record outside k (G : gmap Z gcache) (L : gmap Z nat) (hs ms ps : list Z) : Prop := {
  os_hdrs c gc a : G !! c = Some gc -> a ∈ hs -> a ∉ hdrs gc;
  os_mags c gc x a : G !! c = Some gc -> k_caches k !! c = Some x -> a ∈ ms -> a ∉ mags x gc;
  os_pages c gc p : G !! c = Some gc -> p ∈ ps -> p ∉ gpages gc;
  os_large p : p ∈ ps -> L !! p = None
}.

Lemma heap_outside k k' G L Hd Hd' hs ms ps :
  heap_inv k G L Hd -> framed 0 hs ms ps Hd k k' -> outside k G L hs ms ps ->
  ps_ok (k_pm k') Hd' -> (forall q o, Hd !! q = Some o -> q ∉ ps -> Hd' !! q = Some o) ->
  heap_inv k' G L Hd'.
Proof.
  intros HI F [O1 O2 O3 O4] Hps Hk; pose proof HI as [I1 I2 I3 I4 I5 I6 I7 I8 I9 I10 I11 I12].
  pose proof F as [F1 F2 F3 F4 F5 F6 F7 (F8 & F9 & _)].
  assert (Hnz : forall c gc, G !! c = Some gc -> c ≠ 0).
  { intros c gc HG; destruct (I2 c gc HG) as [x [HC _]]; apply HC. }
  assert (Hx : forall c gc, G !! c = Some gc -> k_caches k' !! c = k_caches k !! c) by eauto.
  assert (HM : forall a, mag_origin k G a -> mag_origin k' G a).
  { intros a [(n & Hn & ->)|Hm]; [left; exists n; split; [lia|done]|right; by rewrite F8]. }
  assert (HH : forall c a, hdr_origin k G c a -> hdr_origin k' G c a).
  { intros c a [[(n & Hn & ->) Hc]|Hm]; [left|right; by rewrite F9].
    rewrite F8, F9; split; [exists n; split; [lia|done]|done]. }
  split; try done.
  - intros c gc HG; destruct (I2 c gc HG) as [x Hc]; exists x.
    assert (Hcx : k_caches k !! c = Some x) by (by destruct Hc as [[]]).
    eapply cache_inv_frame; try done; eauto.
  - intros c gc p HG Hp; apply Hk; [by eapply I3|]; intros Hin; by eapply O3.
  - intros c c' gc gc' x x' Hne HG HG' Hx1 Hx2; rewrite (Hx c gc HG) in Hx1; rewrite (Hx c' gc' HG') in Hx2; eauto.
  - intros c gc x a HG Hx1 Ha; rewrite (Hx c gc HG) in Hx1; eauto.
  - intros c gc x s HG Hx1 Hs Hoff; rewrite (Hx c gc HG) in Hx1; eauto.
  - intros p o Hp; destruct (I7 p o Hp) as [Hh (f & Hf & Hfl)].
    assert (Hn : p ∉ ps) by (intros Hin; rewrite (O4 _ Hin) in Hp; done).
    split; [by apply Hk|]; exists f; by rewrite (proj1 (F1 p o Hh Hn)).
  - lia.
  - rewrite F9; intros gm x HG Hx1; rewrite (Hx _ _ HG) in Hx1; eauto.
  - by rewrite F8, F9.
  - by rewrite F8, F9.
  - intros c gc HG; destruct (I12 c gc HG) as [(n & Hn & ->)|?]; [left; exists n; split; [lia|done]|by right].
Qed.

(** Such a step, as part of an allocation. *)
Lemma outside_grows k k' G L Hd Hd' hs ms ps :
  heap_inv k G L Hd -> framed 0 hs ms ps Hd k k' -> outside k G L hs ms ps ->
  ps_ok (k_pm k') Hd' -> (forall q o, Hd !! q = Some o -> Hd' !! q = Some o) ->
  (forall q, q ∈ ps -> ps_flags (k_pm k') q = ps_flags (k_pm k) q) ->
  k_mem k' = k_mem k -> k_caches k' = k_caches k -> grows [] None k G L Hd k' G Hd'.
Proof.
  intros HI F HO Hps Hk Hfl Hm Hc; pose proof F as [F1 F2 F3 F4 F5 F6 F7 F8].
  split; try done.
  - eapply heap_outside; try done; auto.
  - by rewrite Hc.
  - intros c gc HG; by exists gc.
  - intros c gc x HG Hx; exists x; by rewrite Hc.
  - intros c gc x a HG Hx Ha; rewrite Hc in Hx; by exists gc, x.
  - intros c gc a HG Ha; left; by exists gc.
  - intros c gc p HG Hp; left; by exists gc.
  - intros q o Hq Hno; destruct (decide (q ∈ ps)); [auto|by apply (F1 q o)].
  - intros a _; by rewrite Hm.
Qed.

(** A page taken from the page allocator, not yet used. *)
Lemma heap_take_page k G L Hd cpu :
  heap_inv k G L Hd ->
  exists r s, ps_alloc cpu 0 PAGE_FLAG_KERNEL (k_pm k) = Ok (r, s) /\
    match r with
    | None => with_pm s k = k
    | Some p => grows [] None k G L Hd (with_pm s k) G (<[p := 0%nat]> Hd) /\ Hd !! p = None /\
        ps_flags s p = Ok PAGE_FLAG_KERNEL /\ (forall c gc, G !! c = Some gc -> p ∉ gpages gc) /\ L !! p = None
    end.
Proof.
  intros HI; destruct (ps_alloc_ok (k_pm k) Hd cpu 0 (hi_pages _ _ _ _ HI)) as (r & s & E & Hr).
  exists r, s; split; [done|]; destruct r as [p|]; [|subst; by destruct k].
  destruct Hr as (Hp & Hs & Hf & Hfl).
  assert (Hkeep : forall q o, Hd !! q = Some o -> <[p := 0%nat]> Hd !! q = Some o).
  { intros q o Hq; rewrite lookup_insert_ne; [done|]; intros ->; congruence. }
  split_and!; try done.
  - apply (outside_grows k _ G L Hd _ [] [] []); try done.
    + split; try done; [|cbn; lia]; intros q o Hq _; cbn; by eapply Hfl.
    + split; intros; try done; by match goal with H : _ ∈ [] |- _ => apply elem_of_nil in H end.
    + intros q Hq; by apply elem_of_nil in Hq.
  - intros c gc HG Hin; pose proof (hi_held _ _ _ _ HI c gc p HG Hin); congruence.
  - destruct (L !! p) eqn:El; [|done]; apply (hi_large _ _ _ _ HI) in El as [? _]; congruence.
Qed.

(** ** Headers *)

(** Where a header can be: in the image, as an object of [slab_meta_cache], or at the end
    of a slab's own page. *)
Lemma hdr_place k G L Hd c gc a :
  heap_inv k G L Hd -> G !! c = Some gc -> a ∈ hdrs gc ->
  (exists n, 0 <= n < bootstrap_cache_count k /\ a = boot_cache n) \/
  (exists gm, G !! slab_meta_cache k = Some gm /\ a ∈ g_int gm) \/
  (exists x s, k_caches k !! c = Some x /\ s ∈ slabs gc /\ c_off_slab (c_geom x) = false /\
     a = page_addr (gs_page s) + PMM_PAGE_SIZE - header_bytes (c_geom x)).
Proof.
  intros HI HG (s & -> & Hs)%list_elem_of_fmap; destruct (hi_cache _ _ _ _ HI c gc HG) as [x [HC _]].
  pose proof (ci_cache _ _ _ _ HC) as Hx; destruct (c_off_slab (c_geom x)) eqn:Hoff.
  - destruct (hi_hdr_origin _ _ _ _ HI c gc x s HG Hx Hs Hoff) as [[? _]|?]; auto.
  - right; right; exists x, s; split_and!; try done; by apply (core_slab HC _ Hs).
Qed.

Lemma header_in_page g p :
  geom_ok g -> c_off_slab g = false -> in_page p (page_addr p + PMM_PAGE_SIZE - header_bytes g).
Proof.
  intros [Hsz _ Ho _ Hc _ Hf Hh] Hoff; rewrite Hoff in Hf; unfold in_page, PMM_PAGE_SIZE, sizeof_slab in *; nia.
Qed.

(** The page of an object in use. *)
Lemma used_page k G L Hd c gc o :
  heap_inv k G L Hd -> G !! c = Some gc -> o ∈ g_user gc ++ g_int gc ->
  exists x s, k_caches k !! c = Some x /\ s ∈ slabs gc /\ o ∈ gs_objs (c_geom x) s /\ in_page (gs_page s) o.
Proof.
  intros HI HG Ho; destruct (hi_cache _ _ _ _ HI c gc HG) as [x [HC _]].
  assert (Hall : o ∈ slabs gc ≫= gs_objs (c_geom x)).
  { rewrite <- (ci_objs _ _ _ _ HC); unfold where_objs; rewrite !elem_of_app in *; tauto. }
  apply elem_of_bind in Hall as (s & Hos & Hs); exists x, s; split_and!; try done; [apply HC|].
  eapply (core_obj_in_page HC); [done|done|pose proof (core_size HC); lia].
Qed.

(** An address of a page that no slab uses is no header. *)
Lemma fresh_page_hdr k G L Hd p a c gc :
  heap_inv k G L Hd -> Hd !! p = Some 0%nat -> (forall c gc, G !! c = Some gc -> p ∉ gpages gc) ->
  in_page p a -> G !! c = Some gc -> a ∉ hdrs gc.
Proof.
  intros HI Hp Hno Hpa HG Hin.
  destruct (hdr_place _ _ _ _ _ _ _ HI HG Hin) as [(n & Hn & ->)|[(gm & HGm & Hm)|(x & s & Hx & Hs & Hoff & ->)]].
  - eapply (ps_image _ _ _ _ p _ (hi_pages _ _ _ _ HI) Hp (in_block_self p)); [|exact Hpa].
    left; exists n; split; [|done]; pose proof (hi_counts _ _ _ _ HI); lia.
  - destruct (used_page _ _ _ _ _ gm a HI HGm) as (x & s & _ & Hs & _ & Hpg); [rewrite elem_of_app; auto|].
    apply (Hno _ gm HGm); rewrite (in_page_inj _ _ _ Hpa Hpg); by apply list_elem_of_fmap_2.
  - destruct (heap_cache HI c gc x HG Hx) as [HC _].
    pose proof (header_in_page _ (gs_page s) (core_geom HC) Hoff) as Hpg.
    apply (Hno _ gc HG); rewrite (in_page_inj _ _ _ Hpa Hpg); by apply list_elem_of_fmap_2.
Qed.

(** A new record at an address that is no header. *)
Lemma heap_new_slab k G L Hd h t n :
  heap_inv k G L Hd -> (forall c gc, G !! c = Some gc -> h ∉ hdrs gc) ->
  bootstrap_cache_count k <= n <= Z.max (bootstrap_cache_count k) SLAB_BOOTSTRAP_CACHES ->
  grows [] None k G L Hd
    (with_slabs (<[h := t]> (k_slabs k)) (with_counts n (bootstrap_mag_count k) k)) G Hd.
Proof.
  intros HI Hno Hn; apply (outside_grows k _ G L Hd Hd [h] [] []); try done.
  - split; try done; [|cbn; lia].
    intros a Ha; rewrite list_elem_of_singleton in Ha; cbn; by rewrite lookup_insert_ne.
  - split; try (intros; match goal with H : _ ∈ [] |- _ => by apply elem_of_nil in H end).
    intros c gc a HG ->%list_elem_of_singleton; eauto.
  - apply HI.
Qed.

(** A cache that [cpu] may allocate from: at rest, or with the exchange of its loaded
    magazine under way, when that magazine has objects to spare. *)
Definition ready (cpu : nat) k (c : Z) (gc : gcache) : Prop :=
  g_skip gc = None \/
  (g_skip gc = Some (slab_cpu cpu) /\ exists x l p, k_caches k !! c = Some x /\
     c_cpus x !! slab_cpu cpu = Some (l, p) /\ l ∈ g_dfull gc /\ (2 <= length (mag_objs (k_mags k) l))%nat).

(** The page allocator has no block of order [o] for this CPU. *)
Definition no_page (cpu o : nat) (s : St) : Prop := exists s', ps_alloc cpu o PAGE_FLAG_KERNEL s = Ok (None, s').

(** Why an allocation from a cache fails: no page for a slab, or ([off]: the cache keeps
    its headers off the slab) a page but none for the header's slab, or no header cache. *)
Definition starved (cpu : nat) (off : bool) k : Prop :=
  no_page cpu 0 (k_pm k) \/
  off = true /\ ((exists p s, ps_alloc cpu 0 PAGE_FLAG_KERNEL (k_pm k) = Ok (Some p, s) /\ no_page cpu 0 s) \/
                 slab_meta_cache k = 0).

(** What [slab_cache_alloc(slab_meta_cache)] does, from a heap in which it is ready. *)
Definition meta_spec (cpu : nat) (am : kmem St -> res (Z * kmem St)) : Prop :=
  forall k G L Hd gm, heap_inv k G L Hd -> G !! slab_meta_cache k = Some gm ->
    ready cpu k (slab_meta_cache k) gm ->
    exists h k' G' Hd', am k = Ok (h, k') /\ grows [slab_meta_cache k] None k G L Hd k' G' Hd' /\
      (h = 0 /\ no_page cpu 0 (k_pm k) \/ exists gm', G' !! slab_meta_cache k = Some gm' /\ h ∈ g_int gm' /\ h ∉ g_int gm /\ h ≠ 0).

(** The header [h] for a slab of the cache [c] on the page [p]. *)
Record header_ok k (G : gmap Z gcache) (g : geometry) (c p h : Z) : Prop := {
  ho_nonzero : h ≠ 0;
  ho_fresh c2 gc : G !! c2 = Some gc -> h ∉ hdrs gc;
  ho_raw : exists t, k_slabs k !! h = Some t /\ s_is_off_slab t = c_off_slab g;
  ho_on : c_off_slab g = false -> h = page_addr p + PMM_PAGE_SIZE - header_bytes g;
  ho_off : c_off_slab g = true -> hdr_origin k G c h
}.

Lemma on_hdr_not_object k G L Hd c gc x s cm gm xm sm h :
  heap_inv k G L Hd -> G !! c = Some gc -> k_caches k !! c = Some x -> s ∈ slabs gc ->
  c_off_slab (c_geom x) = false ->
  G !! cm = Some gm -> k_caches k !! cm = Some xm -> sm ∈ slabs gm -> h ∈ gs_objs (c_geom xm) sm ->
  h ≠ page_addr (gs_page s) + PMM_PAGE_SIZE - header_bytes (c_geom x).
Proof.
  intros HI HG Hx Hs Hoff HGm Hxm Hsm Hom E.
  destruct (heap_cache HI c gc x HG Hx) as [HC _], (heap_cache HI cm gm xm HGm Hxm) as [HCm _].
  pose proof (header_in_page _ (gs_page s) (core_geom HC) Hoff) as Hpg; rewrite <- E in Hpg.
  pose proof (core_size HCm) as Hsz.
  assert (Hpm : in_page (gs_page sm) h) by (eapply (core_obj_in_page HCm); [done|done|lia]).
  pose proof (in_page_inj _ _ _ Hpg Hpm) as Epg; destruct (decide (c = cm)) as [->|Hne].
  - assert (gc = gm) as -> by congruence; assert (x = xm) as -> by congruence.
    assert (s = sm) as -> by (by apply (core_page_inj HC)).
    destruct (gs_objs_bounds _ _ _ (core_geom HC) (si_color _ _ _ _ (core_slab HC _ Hsm)) Hom) as [_ Hb].
    rewrite Hoff in Hb; lia.
  - eapply (ap_pages _ _ _ _ (hi_apart _ _ _ _ HI _ _ _ _ _ _ Hne HG HGm Hx Hxm) (gs_page s));
      [by apply list_elem_of_fmap_2|]; rewrite Epg; by apply list_elem_of_fmap_2.
Qed.

Lemma object_not_image k G L Hd cm gm xm sm h a :
  heap_inv k G L Hd -> G !! cm = Some gm -> k_caches k !! cm = Some xm -> sm ∈ slabs gm ->
  h ∈ gs_objs (c_geom xm) sm -> in_image a -> h ≠ a.
Proof.
  intros HI HGm Hxm Hsm Hom Ha ->; destruct (heap_cache HI cm gm xm HGm Hxm) as [HCm _].
  pose proof (core_size HCm) as Hsz.
  assert (Hheld : Hd !! gs_page sm = Some 0%nat) by (eapply (hi_held _ _ _ _ HI); [done|by apply list_elem_of_fmap_2]).
  eapply (ps_image _ _ _ _ _ a (hi_pages _ _ _ _ HI) Hheld (in_block_self _)); [done|].
  eapply (core_obj_in_page HCm); [done|done|lia].
Qed.

Lemma new_meta_fresh k G L Hd k' G' Hd' gm gm' h c gc :
  heap_inv k G L Hd -> G !! slab_meta_cache k = Some gm ->
  grows [slab_meta_cache k] None k G L Hd k' G' Hd' ->
  G' !! slab_meta_cache k = Some gm' -> h ∈ g_int gm' -> h ∉ g_int gm ->
  G' !! c = Some gc -> h ∉ hdrs gc.
Proof.
  intros HI HGm Hg HGm' Hin Hnin HG Hh; pose proof (gr_inv Hg) as HI'.
  destruct (gr_globals Hg) as (_ & Emt & _).
  destruct (used_page _ _ _ _ _ gm' h HI' HGm') as (xm & sm & Hxm & Hsm & Hom & _); [rewrite elem_of_app; auto|].
  assert (Hboot : forall n, 0 <= n < SLAB_BOOTSTRAP_CACHES -> h ≠ boot_cache n).
  { intros n Hn; eapply (object_not_image _ _ _ _ _ gm' xm sm h _ HI'); try done; left; by exists n. }
  destruct (hdr_place _ _ _ _ _ _ _ HI' HG Hh) as [(n & Hn & E)|[_|(x & s & Hx & Hs & Hoff & E)]].
  - eapply Hboot; [|exact E]; pose proof (hi_counts _ _ _ _ HI'); lia.
  - destruct (decide (c = slab_meta_cache k)) as [->|Hne].
    + assert (gc = gm') as -> by congruence; apply list_elem_of_fmap in Hh as (s & E & Hs).
      destruct (heap_cache HI' _ _ _ HGm' Hxm) as [HC _]; rewrite <- Emt in HG, HGm', Hxm.
      destruct (hi_meta _ _ _ _ HI' gm' xm HGm' Hxm) as [Hoff _].
      eapply (on_hdr_not_object _ _ _ _ _ gm' xm s _ gm' xm sm h HI'); try done.
      rewrite E; by apply (core_slab HC _ Hs).
    + destruct (gr_other Hg c) as [E1 E2]; [by rewrite list_elem_of_singleton|]; rewrite E1 in HG.
      destruct (hdr_place _ _ _ _ _ _ _ HI HG Hh) as [(n & Hn & E)|[(gm2 & HGm2 & Hm2)|(x & s & Hx & Hs & Hoff & E)]].
      * eapply Hboot; [|exact E]; pose proof (hi_counts _ _ _ _ HI); lia.
      * congruence.
      * rewrite <- E1 in HG; rewrite <- E2 in Hx.
        by eapply (on_hdr_not_object _ _ _ _ c gc x s _ gm' xm sm h HI').
  - by eapply (on_hdr_not_object _ _ _ _ c gc x s _ gm' xm sm h HI').
Qed.

Definition touched k (g : geometry) : list Z := if c_off_slab g then [slab_meta_cache k] else [].

Lemma with_counts_same k : with_counts (bootstrap_cache_count k) (bootstrap_mag_count k) k = k.
Proof. by destruct k. Qed.

Lemma header_ok_intro k G g c p h t :
  h ≠ 0 -> (forall c2 gc, G !! c2 = Some gc -> h ∉ hdrs gc) -> s_is_off_slab t = c_off_slab g ->
  k_slabs k !! h = Some t ->
  (c_off_slab g = false -> h = page_addr p + PMM_PAGE_SIZE - header_bytes g) ->
  (c_off_slab g = true -> hdr_origin k G c h) -> header_ok k G g c p h.
Proof. intros; split; eauto. Qed.

Lemma new_header_ok cpu am k G L Hd c gc x p :
  heap_inv k G L Hd -> G !! c = Some gc -> k_caches k !! c = Some x ->
  Hd !! p = Some 0%nat -> (forall c gc, G !! c = Some gc -> p ∉ gpages gc) ->
  (c_off_slab (c_geom x) = true -> meta_spec cpu am /\
     forall gm, G !! slab_meta_cache k = Some gm -> ready cpu k (slab_meta_cache k) gm) ->
  exists h k' G' Hd', new_header am (c_geom x) (page_addr p) k = Ok (h, k') /\
    grows (touched k (c_geom x)) None k G L Hd k' G' Hd' /\
    (h = 0 /\ c_off_slab (c_geom x) = true /\ (no_page cpu 0 (k_pm k) \/ slab_meta_cache k = 0) \/
     header_ok k' G' (c_geom x) c p h /\ forall gm, G !! slab_meta_cache k = Some gm -> h ∉ g_int gm).
Proof.
  intros HI HG Hx Hp Hno Hmeta; destruct (heap_cache HI c gc x HG Hx) as [HC _].
  pose proof (core_geom HC) as Hg; unfold new_header, touched.
  destruct (c_off_slab (c_geom x)) eqn:Hoff; [destruct (decide (slab_meta_cache k ≠ 0)) as [Hnz|Hz]|].
  - destruct (Hmeta eq_refl) as [Hspec Hready].
    destruct (hi_globals _ _ _ _ HI (slab_meta_cache k)) as [?|[gm HGm]]; [auto|done|].
    destruct (Hspec k G L Hd gm HI HGm (Hready gm HGm)) as (h & k1 & G1 & Hd1 & -> & Hgr & Hh); mstep.
    destruct Hh as [[-> Hst]|(gm' & HGm' & Hin & Hnin & Hhz)].
    { rewrite decide_True by done; exists 0, k1, G1, Hd1; split; [done|]; split; [done|]; left; auto. }
    rewrite decide_False by done.
    pose proof (fun c2 gc2 => new_meta_fresh _ _ _ _ _ _ _ gm gm' h c2 gc2 HI HGm Hgr HGm' Hin Hnin) as Hfresh.
    pose proof (heap_new_slab k1 G1 L Hd1 h (raw_slab true meta_bufctl) (bootstrap_cache_count k1)
      (gr_inv Hgr) Hfresh ltac:(lia)) as Hgr2; rewrite with_counts_same in Hgr2.
    eexists h, _, G1, Hd1; split; [done|]; split; [exact (grows_trans _ _ _ _ _ _ _ _ _ _ _ _ _ Hgr Hgr2)|right].
    split; [|intros gm2 HGm2; by assert (gm2 = gm) as -> by congruence].
    apply (header_ok_intro _ _ _ _ _ _ (raw_slab true meta_bufctl)); try done; rewrite ?Hoff; try done.
    + apply lookup_insert_eq.
    + intros _; right; exists gm'; destruct (gr_globals Hgr) as (_ & E & _); cbn; by rewrite E.
  - pose proof (hi_counts _ _ _ _ HI) as [Hc1 _]; case_decide as Hb.
    + mstep; pose proof ps_boot as [Hbp _]; unfold SLAB_BOOTSTRAP_CACHES, sizeof_cache in *.
      rewrite decide_False by lia; set (n := bootstrap_cache_count k) in *.
      change (bootstrap_caches + n * 4288) with (boot_cache n).
      assert (Hfresh : forall c2 gc2, G !! c2 = Some gc2 -> boot_cache n ∉ hdrs gc2).
      { intros c2 gc2 HG2 Hin.
        assert (Him : in_image (boot_cache n)) by (left; exists n; unfold SLAB_BOOTSTRAP_CACHES; split; [lia|done]).
        destruct (hdr_place _ _ _ _ _ _ _ HI HG2 Hin) as [(m & Hm & E)|[(gm & HGm & Hm)|(x2 & s & Hx2 & Hs & Hoff2 & E)]].
        - unfold boot_cache, sizeof_cache in E; lia.
        - apply dec_stable in Hz; rewrite Hz in HGm; destruct (hi_cache _ _ _ _ HI 0 gm HGm) as [x0 [HC0 _]].
          by apply (ci_nonnull _ _ _ _ HC0).
        - destruct (heap_cache HI c2 gc2 x2 HG2 Hx2) as [HC2 _].
          pose proof (header_in_page _ (gs_page s) (core_geom HC2) Hoff2) as Hpg; rewrite <- E in Hpg.
          eapply (ps_image _ _ _ _ _ _ (hi_pages _ _ _ _ HI)); [eapply (hi_held _ _ _ _ HI); [exact HG2|]
            |apply in_block_self|exact Him|exact Hpg]; by apply list_elem_of_fmap_2. }
      pose proof (heap_new_slab k G L Hd (boot_cache n) (raw_slab true meta_bufctl) (n + 1) HI Hfresh
        ltac:(unfold SLAB_BOOTSTRAP_CACHES; lia)) as Hgr.
      eexists _, _, G, Hd; split; [done|]; split; [eapply grows_mono; [|exact Hgr]; apply list_subseteq_nil|right].
      split; [|by intros gm HGm; destruct (hi_cache _ _ _ _ HI _ gm HGm) as [? [HC0 _]]; destruct (ci_nonnull _ _ _ _ HC0); apply dec_stable].
      apply (header_ok_intro _ _ _ _ _ _ (raw_slab true meta_bufctl)); try done; rewrite ?Hoff; try done.
      * unfold boot_cache, sizeof_cache; lia.
      * apply lookup_insert_eq.
      * intros _; left; split; [exists n; split; [cbn; lia|done]|right; by apply dec_stable].
    + mstep; rewrite decide_True by done; eexists _, _, G, Hd; split; [done|].
      split; [by apply grows_refl|left]; split; [done|]; split; [done|right; by apply dec_stable].
  - rewrite (go_order _ Hg); change (pow2 0 * PMM_PAGE_SIZE) with PMM_PAGE_SIZE.
    set (h := page_addr p + PMM_PAGE_SIZE - header_bytes (c_geom x)).
    pose proof (header_in_page _ p Hg Hoff) as Hpg.
    assert (Hfresh : forall c2 gc2, G !! c2 = Some gc2 -> h ∉ hdrs gc2)
      by (intros c2 gc2; by eapply fresh_page_hdr).
    set (t := raw_slab false _).
    pose proof (heap_new_slab k G L Hd h t (bootstrap_cache_count k) HI Hfresh ltac:(lia)) as Hgr.
    rewrite with_counts_same in Hgr; eexists h, _, G, Hd; split; [done|]; split; [done|right].
    split; [|intros gm HGm Hin; destruct (used_page _ _ _ _ _ gm h HI HGm) as (xm & sm & _ & Hsm & _ & Hpm);
      [rewrite elem_of_app; auto|]; apply (Hno _ gm HGm); rewrite (in_page_inj _ _ _ Hpg Hpm); by apply list_elem_of_fmap_2].
    apply (header_ok_intro _ _ _ _ _ _ t); try done; rewrite ?Hoff; try done.
    + destruct (ps_place _ _ _ _ p (hi_pages _ _ _ _ HI) Hp (in_block_self p)) as (_ & _ & H1 & _).
      unfold in_page in Hpg; fold h in Hpg; lia.
    + apply lookup_insert_eq.
Qed.

(** ** Allocation with a new page *)

(** A page that turns out not to be needed goes back. *)
Lemma grows_return_page T k G L Hd k2 G2 Hd2 cpu p :
  grows T None k G L Hd k2 G2 Hd2 -> Hd !! p = None -> Hd2 !! p = Some 0%nat -> L !! p = None ->
  (forall c gc, G2 !! c = Some gc -> p ∉ gpages gc) ->
  exists s, ps_free cpu (Some p) 0 (k_pm k2) = Ok s /\ grows T None k G L Hd (with_pm s k2) G2 (delete p Hd2).
Proof.
  intros Hg Hp Hp2 HL Hno; pose proof (gr_inv Hg) as HI2.
  destruct (ps_free_ok (k_pm k2) Hd2 cpu p 0 (hi_pages _ _ _ _ HI2) Hp2) as (s & E & Hs & Hfl).
  exists s; split; [done|].
  assert (HI3 : heap_inv (with_pm s k2) G2 L (delete p Hd2)).
  { apply (heap_outside k2 _ G2 L Hd2 _ [] [] [p]); try done.
    - split; try done; [|cbn; lia]; intros q o Hq Hn; rewrite list_elem_of_singleton in Hn; cbn; by eapply Hfl.
    - split; try (intros; match goal with H : _ ∈ [] |- _ => by apply elem_of_nil in H end).
      + intros c gc q HG ->%list_elem_of_singleton; eauto.
      + by intros q ->%list_elem_of_singleton.
    - intros q o Hq Hn; rewrite list_elem_of_singleton in Hn; by rewrite lookup_delete_ne. }
  destruct Hg as [A1 A2 A3 A4 A4' A5 A6 A6' A6'' A7 A8 A9]; split; try done.
  - intros q o Hq; rewrite lookup_delete_ne; [auto|]; intros ->; congruence.
  - intros q o Hq Hn; rewrite <- (A7 q o Hq Hn); cbn; eapply Hfl; [|by apply A2]; intros ->; congruence.
Qed.

(** The outcome of an allocation from the cache [c], for a client or ([b]) for the
    allocator itself: a new object, or NULL. *)
Definition alloc_result (cpu : nat) (off : bool) (T : list Z) (b : bool) (c : Z) k (G : gmap Z gcache) (L Hd : gmap Z nat)
    (o : Z) k' (G' : gmap Z gcache) (Hd' : gmap Z nat) : Prop :=
  (o = 0 /\ starved cpu off k /\ grows T None k G L Hd k' G' Hd') \/
  (o ≠ 0 /\ grows T (if b then None else Some (c, o)) k G L Hd k' G' Hd' /\
   exists gc gc' x s, G !! c = Some gc /\ G' !! c = Some gc' /\ o ∈ (if b then g_int gc' else g_user gc') /\
     o ∉ g_user gc ++ g_int gc /\ k_caches k' !! c = Some x /\ s ∈ slabs gc' /\ o ∈ gs_objs (c_geom x) s).

Lemma gave_result cpu off k G L Hd c gc x b o k' x' gc' T :
  heap_inv k G L Hd -> G !! c = Some gc -> k_caches k !! c = Some x -> gave k c x gc b o k' x' gc' ->
  c ∈ T -> alloc_result cpu off T b c k G L Hd o k' (<[c := give b o gc']> G) Hd.
Proof.
  intros HI HG Hx Hgv HT; right; split; [apply Hgv|]; split.
  { eapply grows_mono; [|by eapply heap_gave]; by intros ? ->%list_elem_of_singleton. }
  pose proof (gv_inv _ _ _ _ _ _ _ _ _ Hgv) as [HC' _].
  assert (Hin : o ∈ slabs (give b o gc') ≫= gs_objs (c_geom x')).
  { rewrite <- (ci_objs _ _ _ _ HC'); unfold where_objs; rewrite elem_of_app; right; rewrite elem_of_app; right.
    rewrite give_perm; constructor. }
  apply elem_of_bind in Hin as (s & Hos & Hs).
  exists gc, (give b o gc'), x', s; split_and!; try done.
  - apply lookup_insert_eq.
  - destruct b; cbn; constructor.
  - by eapply gave_fresh.
  - apply HC'.
Qed.

(** A new slab on the page [p], and its first object. *)
Lemma place_and_take k c x gc h t p Hd b :
  cache_inv k c x gc -> g_list gc Partial = [] -> ps_ok (k_pm k) Hd -> Hd !! p = Some 0%nat ->
  ps_flags (k_pm k) p = Ok PAGE_FLAG_KERNEL -> p ∉ gpages gc -> h ∉ hdrs gc -> h ≠ 0 ->
  k_slabs k !! h = Some t -> s_is_off_slab t = c_off_slab (c_geom x) ->
  (c_off_slab (c_geom x) = false -> h = page_addr p + PMM_PAGE_SIZE - header_bytes (c_geom x)) ->
  exists o k' x' gc',
    (k ← place_slab c h p (page_addr p) (c_geom x) k;
     k ← list_add_slab c Partial h k;
     '(obj, k) ← take_object c h k;
     if decide (obj ≠ 0) then k ← zero_object (c_geom x) obj k; Ok (obj, k) else Ok (0, k)) = Ok (o, k') /\
    o ≠ 0 /\ cache_inv k' c x' (give b o gc') /\ c_geom x' = c_geom x /\
    g_user gc' = g_user gc /\ g_int gc' = g_int gc /\ g_skip gc' = g_skip gc /\
    hdrs gc' ≡ₚ h :: hdrs gc /\ gpages gc' ≡ₚ p :: gpages gc /\ mags x' gc' ≡ₚ mags x gc /\
    framed c (h :: hdrs gc) [] [p] Hd k k' /\ ps_ok (k_pm k') Hd.
Proof.
  intros [HC [R1 R2 R3 R4]] EP Hps Hp Hf Np Nh Hnz Ht Hoff Hon.
  destruct (place_slab_ok k c x gc h t p Hd) as (k1 & s & -> & Eh & Epg & Hlen & HC1 & F1 & Hps1); try done; mstep.
  rewrite R1 in HC1; set (x1 := recolored _ x) in *; set (g1 := set_slabs _ [s] gc) in *.
  assert (Eg1 : c_geom x1 = c_geom x) by (unfold x1, recolored; by case_decide).
  assert (El1 : c_lists x1 = c_lists x) by (unfold x1, recolored; by case_decide).
  assert (Ec1 : c_cpus x1 = c_cpus x) by (unfold x1, recolored; by case_decide).
  assert (Hs1 : slabs g1 ≡ₚ s :: slabs gc) by (unfold slabs; cbn [g1 set_slabs g_list g_float]; rewrite R1; solve_Permutation).
  destruct (core_list_add k1 c x1 g1 Partial s [] HC1 eq_refl) as (k2 & E2 & HC2 & L2 & P2).
  rewrite Eh in E2; rewrite E2; mstep; set (x2 := relisted _ _ x1) in *; set (g2 := set_slabs _ [] g1) in *.
  pose proof (core_geom HC) as [_ _ Hobjs _ _ _ _ _].
  assert (HA : about_to_take x2 g2 s []).
  { split; try done.
    - cbn [g2 set_slabs g_list]; rewrite upd_w_eq; f_equal; exact EP.
    - intros E; rewrite E in Hlen; simpl in Hlen; lia.
    - change (Forall (shape_ok (c_geom x1) Full) (g_list gc Full)); rewrite Eg1; apply (R2 Full).
    - change (Forall (shape_ok (c_geom x1) Empty) (g_list gc Empty)); rewrite Eg1; apply (R2 Empty).
    - change (empty_slab_count (c_lists x1) = Z.of_nat (length (g_list gc Empty))); by rewrite El1. }
  destruct (take_object_ok k2 c x2 g2 s [] b HC2 HA) as (o & k3 & E3 & Hoz & x3 & g3 & HI3 & V3 & U1 & U2 & L3 & Ho).
  rewrite Eh in E3; rewrite E3; mstep; rewrite decide_True by done.
  pose proof (ev_geom _ _ _ _ V3) as Eg3; change (c_geom x2) with (c_geom x1) in Eg3, Ho.
  rewrite Eg1 in Eg3, Ho; rewrite <- Eg3.
  destruct (zero_object_ok k3 c x3 (give b o g3) o HI3) as (k4 & -> & HI4 & L4); [|done|].
  { rewrite give_perm; constructor. }
  mstep; exists o, k4, x3, g3; split; [done|]; rewrite Eg3.
  assert (Hh2 : hdrs g2 ≡ₚ h :: hdrs gc) by (unfold hdrs; by rewrite P2, Hs1, fmap_cons, Eh).
  assert (Hp2 : gpages g2 ≡ₚ p :: gpages gc) by (unfold gpages; by rewrite P2, Hs1, fmap_cons, Epg).
  destruct (ev_pages _ _ _ _ V3) as [Vh Vp].
  split_and!; try done.
  - apply V3.
  - unfold hdrs in *; by rewrite Vh.
  - by rewrite Vp.
  - rewrite (ev_mags _ _ _ _ V3); unfold mags; cbn [x2 relisted set_lists c_cpus]; by rewrite Ec1.
  - assert (Hin : forall a, within o (c_obj_size (c_geom x)) a -> in_page p a).
    { intros a Ha; rewrite <- Epg; eapply gs_objs_in_page; [apply (core_geom HC)| |exact Ho|exact Ha].
      pose proof (ci_slabs _ _ _ _ HC1) as HS; rewrite Hs1 in HS; inversion HS as [|? ? S _]; subst.
      rewrite Eg1 in S; apply S. }
    eapply framed_trans; [eapply framed_mono; [| | |exact F1]|].
    { by intros a ->%list_elem_of_singleton; constructor. }
    { done. } { done. }
    eapply framed_trans; [eapply local_framed; [|eapply local_mono; [| | |exact L2]]|].
    { intros a Ha; exact (False_ind _ Ha). }
    { intros a; unfold hdrs; by rewrite Hs1, fmap_cons, Eh. }
    { done. } { done. }
    eapply framed_trans; [eapply local_framed; [|eapply local_mono; [| | |exact L3]]|].
    { intros a Ha; exact (False_ind _ Ha). }
    { intros a; by rewrite Hh2. } { done. } { done. }
    eapply local_framed; [|eapply local_mono; [| | |exact L4]]; try apply list_subseteq_nil; [|done].
    intros a Ha; exists p; split; [constructor|]; rewrite Eg3 in Ha; by apply Hin.
  - by rewrite (lo_pm _ _ _ _ _ _ L4), (lo_pm _ _ _ _ _ _ L3), (lo_pm _ _ _ _ _ _ L2).
Qed.

(** The step from a heap with a fresh page and a header for it. *)
Lemma place_step cpu off k G L Hd k2 G2 Hd2 T c gc x p h b :
  grows T None k G L Hd k2 G2 Hd2 -> Hd !! p = None -> Hd2 !! p = Some 0%nat -> L !! p = None ->
  (forall c gc, G2 !! c = Some gc -> p ∉ gpages gc) ->
  ps_flags (k_pm k2) p = Ok PAGE_FLAG_KERNEL ->
  G !! c = Some gc -> G2 !! c = Some gc -> k_caches k2 !! c = Some x ->
  g_list gc Partial = [] -> header_ok k2 G2 (c_geom x) c p h ->
  (forall gm, G !! slab_meta_cache k = Some gm -> h ∉ g_int gm) ->
  exists o k' G', (k ← place_slab c h p (page_addr p) (c_geom x) k2;
      k ← list_add_slab c Partial h k;
      '(obj, k) ← take_object c h k;
      if decide (obj ≠ 0) then k ← zero_object (c_geom x) obj k; Ok (obj, k) else Ok (0, k)) = Ok (o, k') /\
    o ≠ 0 /\ alloc_result cpu off (T ++ [c]) b c k G L Hd o k' G' Hd2.
Proof.
  intros Hg Hp Hp2 HL Hno Hf HG HG2 Hx EP [H1 H2 (t & Ht & Hoff) H4 H5] Hnew; pose proof (gr_inv Hg) as HI2.
  pose proof (heap_cache HI2 c gc x HG2 Hx) as Hci.
  destruct (place_and_take k2 c x gc h t p Hd2 b) as
    (o & k' & x' & gc' & E & Hoz & Hci' & Eg & U1 & U2 & U3 & Eh & Epg & Em & F & Hps); try done; eauto.
  { apply HI2. }
  exists o, k', (<[c := give b o gc']> G2); split; [exact E|]; split; [done|right]; split; [done|].
  destruct (give_added b c o gc gc' U1 U2) as (A1 & A2 & A3).
  assert (Hst : step_ok k2 k' G2 L Hd2 Hd2 c x x' gc (give b o gc') (h :: hdrs gc) [] [p]).
  { split; try done.
    - intros c2 gc2 a Hne HGc2 [->|Ha]%elem_of_cons; [by eapply H2|].
      destruct (heap_apart k2 G2 L Hd2 c c2 gc gc2 x) as (x2 & _ & [Q1 _ _]); auto.
    - intros c2 gc2 x2 a _ _ _ Ha; by apply elem_of_nil in Ha.
    - intros c2 gc2 q _ HGc2 ->%list_elem_of_singleton; by eapply Hno.
    - by intros q ->%list_elem_of_singleton.
    - intros a Ha; right; change (hdrs (give b o gc')) with (hdrs gc') in Ha; by rewrite Eh in Ha.
    - intros q Hq; change (gpages (give b o gc')) with (gpages gc') in Hq; rewrite Epg in Hq.
      rewrite list_elem_of_singleton; apply elem_of_cons in Hq as [->|?]; auto.
    - intros a Ha; left; change (mags x' (give b o gc')) with (mags x' gc') in Ha; by rewrite Em in Ha.
    - intros q Hq; change (gpages (give b o gc')) with (gpages gc') in Hq; rewrite Epg in Hq.
      apply elem_of_cons in Hq as [->|Hq]; [done|]; by eapply (hi_held _ _ _ _ HI2).
    - intros a Ha; left; change (mags x' (give b o gc')) with (mags x' gc') in Ha; by rewrite Em in Ha.
    - intros s Ho Hs; assert (Hin : gs_hdr s ∈ hdrs gc') by (by apply (list_elem_of_fmap_2 gs_hdr (slabs gc'))).
      rewrite Eh in Hin; apply elem_of_cons in Hin as [->|?]; [right|by left].
      destruct (H5 Ho) as [[(n & Hn & ->) Hc3]|(gm & HGm & Hm)]; [left|right; exists gm].
      + destruct F as [_ _ _ _ _ _ [Hb _] (Q1 & Q2 & _)]; rewrite Q1, Q2; split; [exists n; split; [lia|done]|done].
      + destruct F as [_ _ _ _ _ _ _ (_ & -> & _)]; split; [|done].
        rewrite lookup_insert_ne; [done|]; intros ->.
        destruct (hi_meta _ _ _ _ HI2 gc x HG2 Hx) as [Hon _]; congruence.
    - auto. }
  assert (Hfr : o ∉ g_user gc ++ g_int gc).
  { intros Hin; pose proof (core_where_nodup (proj1 Hci')) as Hnd; unfold where_objs in Hnd.
    apply NoDup_app in Hnd as (_ & _ & Hnd); apply NoDup_app in Hnd as (_ & _ & Hnd).
    rewrite give_perm, U1, U2 in Hnd; by apply NoDup_cons in Hnd as [? _]. }
  split.
  - eapply (grows_step T _ k G L Hd k2 G2 Hd2 k' Hd2 c x x' gc); try done; [apply (gr_held Hg)| | | |].
    + intros q ->%list_elem_of_singleton; auto.
    + intros a; by rewrite <- Em.
    + intros a Ha; change (hdrs (give b o gc')) with (hdrs gc') in Ha; rewrite Eh in Ha.
      apply elem_of_cons in Ha as [->|?]; auto.
    + intros a Ha; apply (fr_mem _ _ _ _ _ _ _ F); intros q ->%list_elem_of_singleton; by eapply client_not_page.
  - destruct (used_page k' (<[c := give b o gc']> G2) L Hd2 c (give b o gc') o) as (x2 & s & Hx2 & Hs & Hos & _).
    { by eapply heap_update. }
    { apply lookup_insert_eq. }
    { rewrite give_perm; constructor. }
    exists gc, (give b o gc'), x2, s; split_and!; try done; [apply lookup_insert_eq|destruct b; constructor].
Qed.

Lemma create_alloc cpu am k G L Hd c gc x b :
  heap_inv k G L Hd -> G !! c = Some gc -> k_caches k !! c = Some x ->
  g_list gc Partial = [] -> g_list gc Empty = [] ->
  (c_off_slab (c_geom x) = true -> meta_spec cpu am /\
     forall gm, G !! slab_meta_cache k = Some gm -> ready cpu k (slab_meta_cache k) gm) ->
  exists o k' G' Hd', ('(obj, k) ← slab_alloc_from_lists am cpu c k;
      if decide (obj ≠ 0) then k ← zero_object (c_geom x) obj k; Ok (obj, k) else Ok (0, k)) = Ok (o, k') /\
    alloc_result cpu (c_off_slab (c_geom x)) (touched k (c_geom x) ++ [c]) b c k G L Hd o k' G' Hd'.
Proof.
  intros HI HG Hx EP EE Hmeta; destruct (heap_cache HI c gc x HG Hx) as [HC _].
  pose proof (hd0_hdr _ _ _ _ Partial HC) as HP; pose proof (hd0_hdr _ _ _ _ Empty HC) as HE; cbn [lhead] in HP, HE.
  unfold slab_alloc_from_lists, choose_slab; rewrite (cache_at_ok _ _ _ Hx); mstep.
  rewrite decide_False by (by intros ?%HP); rewrite decide_False by (by intros ?%HE).
  unfold slab_create_page; rewrite (cache_at_ok _ _ _ Hx); mstep; rewrite (go_order _ (core_geom HC)).
  destruct (heap_take_page k G L Hd cpu HI) as (r & s & Epg & Hr); rewrite Epg; mstep; destruct r as [p|]; mstep.
  2: { rewrite Hr, decide_True by done; mstep; rewrite decide_True by done; mstep; rewrite decide_False by auto; exists 0, k, G, Hd; split; [done|].
       left; split; [done|]; split; [left; by exists s|by apply grows_refl]. }
  destruct Hr as (Hg1 & Hp & Hfl & Hno & HL); set (k1 := with_pm s k) in *; pose proof (gr_inv Hg1) as HI1.
  assert (Hp1 : <[p := 0%nat]> Hd !! p = Some 0%nat) by apply lookup_insert_eq.
  destruct (head_pfn_ok _ _ _ (hi_pages _ _ _ _ HI1) Hp1) as (-> & -> & _).
  destruct (new_header_ok cpu am k1 G L _ c gc x p HI1 HG Hx Hp1 Hno) as (h & k2 & G2 & Hd2 & -> & Hg2 & Hh); [done|].
  mstep; pose proof (grows_trans _ _ _ _ _ _ _ _ _ _ _ _ _ Hg1 Hg2) as Hg; cbn [app] in Hg.
  change (touched k1 (c_geom x)) with (touched k (c_geom x)) in Hg, Hg2.
  assert (Hp2 : Hd2 !! p = Some 0%nat) by (by apply (gr_held Hg2)).
  assert (Hno2 : forall c2 gc2, G2 !! c2 = Some gc2 -> p ∉ gpages gc2).
  { intros c2 gc2 HG2 Hin; destruct (gr_pages Hg2 c2 gc2 p HG2 Hin) as [(g0 & HG0 & Hp0)|]; [by eapply Hno|congruence]. }
  destruct Hh as [(-> & Hoff & Hst)|[Hh Hnew]].
  - rewrite decide_True by done.
    destruct (grows_return_page _ k G L Hd k2 G2 Hd2 cpu p Hg Hp Hp2 HL Hno2) as (s2 & -> & Hg3); mstep.
    rewrite decide_True by done; mstep; rewrite decide_True by done; mstep; rewrite decide_False by auto.
    eexists _, _, _, _; split; [done|]; left; split; [done|]; split.
    { right; split; [done|]; destruct Hst as [Hst|Hz]; [left; by exists p, s|by right]. }
    eapply grows_mono; [|exact Hg3]; intros a Ha; rewrite elem_of_app; auto.
  - assert (Hct : c ∉ touched k (c_geom x)).
    { unfold touched; destruct (c_off_slab (c_geom x)) eqn:Hoff; [|apply not_elem_of_nil].
      rewrite list_elem_of_singleton; intros ->; destruct (hi_meta _ _ _ _ HI gc x HG Hx); congruence. }
    destruct (gr_other Hg c Hct) as [EG Ex].
    assert (HG2 : G2 !! c = Some gc) by (by rewrite EG).
    assert (Hx2 : k_caches k2 !! c = Some x) by (by rewrite Ex).
    assert (Hf2 : ps_flags (k_pm k2) p = Ok PAGE_FLAG_KERNEL) by (by rewrite (gr_flags Hg2 p 0%nat Hp1 Hno)).
    destruct (place_step cpu (c_off_slab (c_geom x)) k G L Hd k2 G2 Hd2 _ c gc x p h b Hg Hp Hp2 HL Hno2 Hf2 HG HG2 Hx2 EP Hh Hnew)
      as (o & k' & G' & E & Hoz & Hres).
    rewrite decide_False by apply Hh.
    exists o, k', G', Hd2; split; [|exact Hres]; rewrite <- E.
    destruct (place_slab _ _ _ _ _ _) as [k3| |]; mstep; try done.
    rewrite decide_False by apply Hh; destruct (list_add_slab _ _ _ _) as [k4| |]; mstep; try done.
    by rewrite decide_False by apply Hh.
Qed.

(** [slab_cache_alloc] on a heap in which the cache is at rest. *)
Lemma alloc_open_ok cpu am k G L Hd c gc b :
  heap_inv k G L Hd -> G !! c = Some gc -> g_skip gc = None ->
  (forall x, k_caches k !! c = Some x -> c_off_slab (c_geom x) = true -> meta_spec cpu am /\
     forall gm, G !! slab_meta_cache k = Some gm -> ready cpu k (slab_meta_cache k) gm) ->
  exists o k' G' Hd' x, slab_cache_alloc_open am cpu c k = Ok (o, k') /\ k_caches k !! c = Some x /\
    alloc_result cpu (c_off_slab (c_geom x)) (touched k (c_geom x) ++ [c]) b c k G L Hd o k' G' Hd'.
Proof.
  intros HI HG Hs Hmeta; destruct (hi_cache _ _ _ _ HI c gc HG) as [x Hci].
  pose proof (ci_cache _ _ _ _ (proj1 Hci)) as Hx.
  destruct (slab_alloc_cases am cpu k c x gc b Hci (heap_addressable HI c gc x HG Hx) Hs)
    as [(o & k' & x' & gc' & E & Hgv)|(EP & EE & E)].
  - exists o, k', (<[c := give b o gc']> G), Hd, x; split; [done|]; split; [done|].
    eapply gave_result; try done; rewrite elem_of_app, list_elem_of_singleton; auto.
  - rewrite E; destruct (create_alloc cpu am k G L Hd c gc x b HI HG Hx EP EE (Hmeta x Hx)) as (o & k' & G' & Hd' & E' & Hr).
    exists o, k', G', Hd', x; done.
Qed.

End heap.

Arguments gr_inv {_ _ _ _ _ _ _ _ _ _ _ _ _} _.
Arguments gr_held {_ _ _ _ _ _ _ _ _ _ _ _ _} _.
Arguments gr_other {_ _ _ _ _ _ _ _ _ _ _ _ _} _.
Arguments gr_cache {_ _ _ _ _ _ _ _ _ _ _ _ _} _.
Arguments gr_dom {_ _ _ _ _ _ _ _ _ _ _ _ _} _.
Arguments gr_geom {_ _ _ _ _ _ _ _ _ _ _ _ _} _.
Arguments gr_mags {_ _ _ _ _ _ _ _ _ _ _ _ _} _.
Arguments gr_hdrs {_ _ _ _ _ _ _ _ _ _ _ _ _} _.
Arguments gr_pages {_ _ _ _ _ _ _ _ _ _ _ _ _} _.
Arguments gr_flags {_ _ _ _ _ _ _ _ _ _ _ _ _} _.
Arguments gr_globals {_ _ _ _ _ _ _ _ _ _ _ _ _} _.
Arguments gr_data {_ _ _ _ _ _ _ _ _ _ _ _ _} _.
