(* ===== verification/SlabTop.v ===== *)
(** * Slab allocator: [slab_cache_alloc], [mag_alloc] and [slab_cache_free] on the whole heap *)

From stdpp Require Import base tactics option list numbers gmap.
From Stdlib Require Import ZArith Lia.
From S2P Require Import Prelude Pmm PmmInv SlabMem Slab SlabGeom SlabInv SlabLists SlabCore.
From S2P Require Import SlabPage SlabAlloc SlabFree SlabHeap.

Local Open Scope Z_scope.

Section top.
Context {St : Type} `{Kernel} `{!PageSource St} `{!PageLaws St}.
Implicit Types k : kmem St.

(** ** Allocation *)

(** Between the two halves of the exchange of its loaded magazine a CPU allocates from
    that magazine. *)
Lemma alloc_skipped am cpu k G L Hd c gc b l p x :
  heap_inv k G L Hd -> G !! c = Some gc -> k_caches k !! c = Some x ->
  c_cpus x !! slab_cpu cpu = Some (l, p) -> l ∈ g_dfull gc -> (2 <= length (mag_objs (k_mags k) l))%nat ->
  exists o k' G', slab_cache_alloc_open am cpu c k = Ok (o, k') /\
    alloc_result cpu false [c] b c k G L Hd o k' G' Hd.
Proof.
  intros HI HG Hx Hi Hl H2; pose proof (heap_cache HI c gc x HG Hx) as [HC HR].
  pose proof (ci_mags _ _ _ _ HC) as HM.
  assert (Hin : l ∈ mags x gc) by (unfold mags; rewrite !elem_of_app; auto).
  assert (Hne : mag_objs (k_mags k) l ≠ []) by (intros E; rewrite E in H2; simpl in H2; lia).
  unfold slab_cache_alloc_open; rewrite decide_False by apply HC.
  rewrite (cache_at_ok _ _ _ Hx); mstep; rewrite Hi; cbn [of_opt]; mstep.
  destruct (mag_has_object_ok k x gc l HM (or_intror Hin)) as ([] & -> & Hh); mstep; [|by destruct Hh as [->|?];
    [destruct (proj1 (Forall_forall _ _) (mo_mag _ _ _ HM) 0 Hin)|]].
  destruct (pop_object_ok k c x gc l b (conj HC HR) (heap_addressable HI c gc x HG Hx) Hin Hne (fun _ => H2))
    as (o & k' & -> & Ho & HI' & HL & Hall & _).
  exists o, k', (<[c := give b o gc]> G); split; [done|].
  eapply gave_result; try done; [by eapply gave_popped|constructor].
Qed.

Lemma alloc_result_mono cpu off off' T T' b c k G L Hd o k' G' Hd' :
  T ⊆ T' -> (off = true -> off' = true) ->
  alloc_result cpu off T b c k G L Hd o k' G' Hd' -> alloc_result cpu off' T' b c k G L Hd o k' G' Hd'.
Proof.
  intros HT Ho [(? & Hst & ?)|(? & ? & ?)]; [left|right]; split_and!; try done; try by eapply grows_mono.
  destruct Hst as [?|[? ?]]; [by left|right; auto].
Qed.

(** One level of [slab_cache_alloc]. *)
Lemma alloc_ready cpu am k G L Hd c gc b :
  heap_inv k G L Hd -> G !! c = Some gc -> ready cpu k c gc ->
  (forall x, k_caches k !! c = Some x -> c_off_slab (c_geom x) = true -> meta_spec cpu am /\
     forall gm, G !! slab_meta_cache k = Some gm -> ready cpu k (slab_meta_cache k) gm) ->
  exists o k' G' Hd' x, slab_cache_alloc_open am cpu c k = Ok (o, k') /\ k_caches k !! c = Some x /\
    alloc_result cpu (c_off_slab (c_geom x)) (touched k (c_geom x) ++ [c]) b c k G L Hd o k' G' Hd'.
Proof.
  intros HI HG [Hs|(Hs & x & l & p & Hx & Hi & Hl & H2)] Hmeta; [by eapply alloc_open_ok|].
  destruct (alloc_skipped am cpu k G L Hd c gc b l p x HI HG Hx Hi Hl H2) as (o & k' & G' & E & Hr).
  exists o, k', G', Hd, x; split; [done|]; split; [done|].
  apply (alloc_result_mono cpu false _ [c]); [|done|exact Hr]; intros a Ha; rewrite elem_of_app; auto.
Qed.

(** [slab_cache_alloc(slab_meta_cache)]. *)
Lemma meta_alloc_ok cpu d : meta_spec cpu (fun k => slab_cache_alloc (S d) cpu (slab_meta_cache k) k).
Proof.
  intros k G L Hd gm HI HG Hr; cbn [slab_cache_alloc].
  destruct (alloc_ready cpu (fun k => slab_cache_alloc d cpu (slab_meta_cache k) k) k G L Hd _ gm true HI HG Hr)
    as (o & k' & G' & Hd' & x & E & Hx & Hres).
  { intros x Hx Hoff; destruct (hi_meta _ _ _ _ HI gm x HG Hx); congruence. }
  exists o, k', G', Hd'; split; [done|].
  destruct (hi_meta _ _ _ _ HI gm x HG Hx) as [Hoff _]; unfold touched in Hres; rewrite Hoff in Hres.
  destruct Hres as [(-> & Hst & Hg)|(Ho & Hg & g0 & gm' & x' & s & HG0 & HG' & Hin & Hnin & _)].
  { split; [done|]; left; split; [done|]; destruct Hst as [?|[? _]]; [done|congruence]. }
  split; [done|right]; assert (g0 = gm) as -> by congruence; exists gm'; split_and!; try done.
  intros Hi; apply Hnin; rewrite elem_of_app; auto.
Qed.

(** [slab_cache_alloc]: two levels are enough. *)
Lemma cache_alloc_ok d cpu k G L Hd c gc b :
  heap_inv k G L Hd -> G !! c = Some gc -> ready cpu k c gc ->
  (forall gm, G !! slab_meta_cache k = Some gm -> ready cpu k (slab_meta_cache k) gm) ->
  exists o k' G' Hd', slab_cache_alloc (S (S d)) cpu c k = Ok (o, k') /\
    alloc_result cpu true [slab_meta_cache k; c] b c k G L Hd o k' G' Hd'.
Proof.
  intros HI HG Hr Hm.
  destruct (alloc_ready cpu (fun k => slab_cache_alloc (S d) cpu (slab_meta_cache k) k) k G L Hd c gc b HI HG Hr)
    as (o & k' & G' & Hd' & x & E & Hx & Hres).
  { intros x Hx Hoff; split; [apply meta_alloc_ok|done]. }
  exists o, k', G', Hd'; split; [exact E|]; eapply (alloc_result_mono cpu (c_off_slab (c_geom x)) true); [| |exact Hres]; [|done].
  intros a; unfold touched; destruct (c_off_slab _); rewrite ?elem_of_app, !elem_of_cons, ?elem_of_nil; tauto.
Qed.

(** ** Magazines *)

(** A magazine that no cache uses yet. *)
Record new_mag k (G : gmap Z gcache) (m : Z) : Prop := {
  nm_nonzero : m ≠ 0;
  nm_ok : mag_ok (k_mags k) m;
  nm_empty : mag_objs (k_mags k) m = [];
  nm_fresh c gc x : G !! c = Some gc -> k_caches k !! c = Some x -> m ∉ mags x gc;
  nm_origin : mag_origin k G m
}.

Lemma mag_init_grows k G L Hd m cap n :
  heap_inv k G L Hd -> 2 <= cap <= SLAB_MAX_MAGAZINE_SIZE -> m ≠ 0 ->
  (forall c gc x, G !! c = Some gc -> k_caches k !! c = Some x -> m ∉ mags x gc) ->
  bootstrap_mag_count k <= n <= Z.max (bootstrap_mag_count k) SLAB_BOOTSTRAP_MAGAZINES ->
  let k' := mag_init m cap (with_counts (bootstrap_cache_count k) n k) in
  mag_origin k' G m -> grows [] None k G L Hd k' G Hd /\ new_mag k' G m.
Proof.
  intros HI Hcap Hm Hno Hn k' Ho; unfold SLAB_MAX_MAGAZINE_SIZE in *; split.
  - apply (outside_grows k _ G L Hd Hd [] [m] []); try done.
    + split; try done; [|cbn; lia].
      intros a Ha; rewrite list_elem_of_singleton in Ha; cbn; by rewrite lookup_insert_ne.
    + split; try (intros; match goal with H : _ ∈ [] |- _ => by apply elem_of_nil in H end).
      intros c gc x a HG Hx ->%list_elem_of_singleton; eauto.
    + apply HI.
  - split; try done.
    + eexists; split; [apply lookup_insert_eq|]; unfold SLAB_MAX_MAGAZINE_SIZE; cbn [m_objects m_count m_capacity].
      split; [by rewrite length_replicate|lia].
    + unfold mag_objs, k', mag_init; cbn [with_mags k_mags]; by rewrite lookup_insert_eq.
Qed.

Lemma mag_alloc_ok d cpu k G L Hd cap :
  heap_inv k G L Hd -> 2 <= cap <= SLAB_MAX_MAGAZINE_SIZE ->
  (forall c gc, c = magazine_cache k \/ c = slab_meta_cache k -> G !! c = Some gc -> ready cpu k c gc) ->
  exists m k' G' Hd', mag_alloc (slab_cache_alloc (S (S d)) cpu) cap k = Ok (m, k') /\
    grows [slab_meta_cache k; magazine_cache k] None k G L Hd k' G' Hd' /\
    (m = 0 \/ new_mag k' G' m).
Proof.
  intros HI Hcap Hr; unfold mag_alloc; set (T := [slab_meta_cache k; magazine_cache k]).
  assert (Hpre : exists m k1 G1 Hd1,
    (if decide (magazine_cache k ≠ 0) then slab_cache_alloc (S (S d)) cpu (magazine_cache k) k else Ok (0, k)) = Ok (m, k1) /\
    grows T None k G L Hd k1 G1 Hd1 /\
    (m = 0 \/ m ≠ 0 /\ exists gc gc' x s, G !! magazine_cache k = Some gc /\ G1 !! magazine_cache k = Some gc' /\
      m ∈ g_int gc' /\ m ∉ g_int gc /\ k_caches k1 !! magazine_cache k = Some x /\ s ∈ slabs gc' /\ m ∈ gs_objs (c_geom x) s)).
  { case_decide as Hz; [|exists 0, k, G, Hd; split; [done|]; split; [by apply grows_refl|by left]].
    destruct (hi_globals _ _ _ _ HI (magazine_cache k)) as [?|[gc HG]]; [auto|done|].
    destruct (cache_alloc_ok d cpu k G L Hd _ gc true HI HG) as (m & k1 & G1 & Hd1 & E & Hres); [auto..|].
    exists m, k1, G1, Hd1; split; [exact E|].
    destruct Hres as [(-> & _ & Hg)|(Ho & Hg & g0 & gc' & x' & s & HG0 & HG' & Hin & Hnin & Hx' & Hs & Hos)]; [auto|].
    split; [done|right]; split; [done|]; exists g0, gc', x', s; split_and!; try done.
    intros Hi; apply Hnin; rewrite elem_of_app; auto. }
  destruct Hpre as (m & k1 & G1 & Hd1 & -> & Hg & Hm); mstep; pose proof (gr_inv Hg) as HI1.
  destruct (gr_globals Hg) as (Emc & _ & _).
  assert (Hdone : forall m n, m ≠ 0 ->
    (forall c gc x, G1 !! c = Some gc -> k_caches k1 !! c = Some x -> m ∉ mags x gc) ->
    bootstrap_mag_count k1 <= n <= Z.max (bootstrap_mag_count k1) SLAB_BOOTSTRAP_MAGAZINES ->
    let k' := mag_init m cap (with_counts (bootstrap_cache_count k1) n k1) in
    mag_origin k' G1 m -> exists m' k'' G' Hd', Ok (m, k') = Ok (m', k'') /\
      grows T None k G L Hd k'' G' Hd' /\ (m' = 0 \/ new_mag k'' G' m')).
  { intros m' n Hnz Hno Hn k' Ho; destruct (mag_init_grows k1 G1 L Hd1 m' cap n) as [Hg2 Hnm]; try done.
    exists m', k', G1, Hd1; split; [done|]; split; [|by right].
    pose proof (grows_trans _ _ _ _ _ _ _ _ _ _ _ _ _ Hg Hg2) as Hg3; by rewrite app_nil_r in Hg3. }
  destruct Hm as [->|(Hmz & gc & gc' & x & s & HG & HG' & Hin & Hnin & Hx & Hs & Hos)].
  - rewrite decide_False by auto; case_decide as Hb.
    + pose proof ps_boot as [_ Hbp]; pose proof (hi_counts _ _ _ _ HI1) as [_ Hc1]; set (n := bootstrap_mag_count k1) in *.
      assert (Him : in_image (boot_mag n)) by (right; exists n; split; [lia|done]).
      apply (Hdone (boot_mag n) (n + 1)).
      * unfold boot_mag, sizeof_bootstrap_mag; lia.
      * intros c2 gc2 x2 HG2 Hx2 Hin2.
        destruct (hi_mag_origin _ _ _ _ HI1 c2 gc2 x2 _ HG2 Hx2 Hin2) as [(n' & Hn' & E)|(gm & HGm & Hm)].
        { unfold boot_mag, sizeof_bootstrap_mag in E; lia. }
        destruct (used_page _ _ _ _ _ gm (boot_mag n) HI1 HGm) as (xm & sm & Hxm & Hsm & Hom & _); [rewrite elem_of_app; auto|].
        by eapply (object_not_image _ _ _ _ _ gm xm sm (boot_mag n) (boot_mag n) HI1).
      * lia.
      * left; exists n; split; [cbn; lia|done].
    + exists 0, k1, G1, Hd1; auto.
  - rewrite decide_True by done.
    destruct (Hdone m (bootstrap_mag_count k1) Hmz) as (m' & k2 & G2 & Hd2 & E & Hrest).
    + intros c2 gc2 x2 HG2 Hx2 Hin2.
      destruct (gr_mags Hg c2 gc2 x2 m HG2 Hx2 Hin2) as (g0 & x0 & HG0 & Hx0 & Hin0).
      destruct (hi_mag_origin _ _ _ _ HI c2 g0 x0 m HG0 Hx0 Hin0) as [(n' & Hn' & E)|(gm & HGm & Hm)]; [|congruence].
      eapply (object_not_image _ _ _ _ _ gc' x s m (boot_mag n') HI1); try done.
      right; exists n'; split; [|done]; pose proof (hi_counts _ _ _ _ HI); lia.
    + lia.
    + right; exists gc'; split; [|done]; cbn; by rewrite Emc.
    + exists m', k2, G2, Hd2; split; [|done]; rewrite <- E; by rewrite with_counts_same.
Qed.

End top.
