(* ===== verification/SlabRelease.v ===== *)
(** * Slab allocator: [slab_cache_free] on the whole heap *)

From stdpp Require Import base tactics option list numbers gmap.
From Stdlib Require Import ZArith Lia.
From S2P Require Import Prelude Pmm PmmInv SlabMem Slab SlabGeom SlabInv SlabLists SlabCore.
From S2P Require Import SlabPage SlabAlloc SlabFree SlabHeap SlabTop.

Local Open Scope Z_scope.

Section release.
Context {St : Type} `{Kernel} `{!PageSource St} `{!PageLaws St}.
Implicit Types k : kmem St.

(** ** Steps that clients see as the loss of at most one object *)

(** No exchange of a magazine is under way. *)
Definition quiet (G : gmap Z gcache) : Prop := forall c gc, G !! c = Some gc -> g_skip gc = None.

Record moves (gone : option (Z * Z)) k (G : gmap Z gcache) (L : gmap Z nat) k' (G' : gmap Z gcache)
  : Prop := {
  mv_dom c : is_Some (G' !! c) <-> is_Some (G !! c);
  mv_user c gc gc' : G !! c = Some gc -> G' !! c = Some gc' -> g_user gc ≡ₚ added gone c ++ g_user gc';
  mv_geom c gc x x' : G !! c = Some gc -> k_caches k !! c = Some x -> k_caches k' !! c = Some x' ->
    c_geom x' = c_geom x;
  mv_globals : magazine_cache k' = magazine_cache k /\ slab_meta_cache k' = slab_meta_cache k /\
    kmalloc_caches k' = kmalloc_caches k;
  mv_data a : client_byte k' G' L a -> k_mem k' !! a = k_mem k !! a
}.

Lemma moves_client gone k G L Hd k' G' a :
  heap_inv k G L Hd -> moves gone k G L k' G' -> client_byte k' G' L a -> client_byte k G L a.
Proof.
  intros HI Hm [(c & gc' & x' & o & HG' & Hx' & Ho & Ha)|Hl]; [left|by right].
  destruct (proj1 (mv_dom _ _ _ _ _ _ Hm c)) as [gc HG]; [eauto|].
  destruct (hi_cache _ _ _ _ HI c gc HG) as [x [HC _]]; pose proof (ci_cache _ _ _ _ HC) as Hx.
  exists c, gc, x, o; split_and!; try done.
  - rewrite (mv_user _ _ _ _ _ _ Hm c gc gc' HG HG'), elem_of_app; auto.
  - by rewrite <- (mv_geom _ _ _ _ _ _ Hm c gc x x' HG Hx Hx').
Qed.

Lemma moves_refl k G L : moves None k G L k G.
Proof. split; try done; intros; congruence || (by replace gc' with gc by congruence). Qed.

Lemma moves_trans g1 g2 k1 G1 L Hd1 k2 G2 Hd2 k3 G3 :
  heap_inv k1 G1 L Hd1 -> heap_inv k2 G2 L Hd2 -> g1 = None \/ g2 = None ->
  moves g1 k1 G1 L k2 G2 -> moves g2 k2 G2 L k3 G3 ->
  moves (match g1 with None => g2 | Some _ => g1 end) k1 G1 L k3 G3.
Proof.
  intros HI1 HI2 Hg A B; split.
  - intros c; by rewrite (mv_dom _ _ _ _ _ _ B), (mv_dom _ _ _ _ _ _ A).
  - intros c gc gc3 HG HG3; destruct (proj1 (mv_dom _ _ _ _ _ _ B c)) as [gc2 HG2]; [eauto|].
    rewrite (mv_user _ _ _ _ _ _ A c gc gc2 HG HG2), (mv_user _ _ _ _ _ _ B c gc2 gc3 HG2 HG3).
    destruct Hg as [-> | ->]; [done|]; by destruct g1 as [[? ?]|].
  - intros c gc x x3 HG Hx Hx3; destruct (proj2 (mv_dom _ _ _ _ _ _ A c)) as [gc2 HG2]; [eauto|].
    destruct (hi_cache _ _ _ _ HI2 c gc2 HG2) as [x2 [HC _]]; pose proof (ci_cache _ _ _ _ HC) as Hx2.
    rewrite (mv_geom _ _ _ _ _ _ B c gc2 x2 x3 HG2 Hx2 Hx3); by eapply (mv_geom _ _ _ _ _ _ A).
  - destruct (mv_globals _ _ _ _ _ _ A) as (E1 & E2 & E3), (mv_globals _ _ _ _ _ _ B) as (E4 & E5 & E6).
    split_and!; congruence.
  - intros a Ha; rewrite (mv_data _ _ _ _ _ _ B a Ha); apply (mv_data _ _ _ _ _ _ A).
    by eapply moves_client.
Qed.

Lemma grows_moves T k G L Hd k' G' Hd' :
  heap_inv k G L Hd -> grows T None k G L Hd k' G' Hd' -> moves None k G L k' G'.
Proof.
  intros HI Hg.
  assert (Hdom : forall c, is_Some (G' !! c) <-> is_Some (G !! c)).
  { intros c; split; intros [g Hc].
    - destruct (G !! c) eqn:E; [eauto|]; apply (gr_dom Hg) in E; congruence.
    - destruct (gr_cache Hg c g Hc) as (g' & Hg' & _); eauto. }
  assert (Huser : forall c gc gc', G !! c = Some gc -> G' !! c = Some gc' -> g_user gc' = g_user gc).
  { intros c gc gc' HG HG'; destruct (gr_cache Hg c gc HG) as (g2 & HG2 & _ & _ & E); cbn in E; congruence. }
  assert (Hgeom : forall c gc x x', G !! c = Some gc -> k_caches k !! c = Some x -> k_caches k' !! c = Some x' ->
    c_geom x' = c_geom x).
  { intros c gc x x' HG Hx Hx'; destruct (gr_geom Hg c gc x HG Hx) as (x2 & Hx2 & E); congruence. }
  split; try done.
  - intros c gc gc' HG HG'; by rewrite (Huser c gc gc').
  - apply (gr_globals Hg).
  - intros a Ha; apply (gr_data Hg).
    destruct Ha as [(c & gc' & x' & o & HG' & Hx' & Ho & Ha)|Hl]; [left|by right].
    destruct (proj1 (Hdom c)) as [gc HG]; [eauto|].
    destruct (hi_cache _ _ _ _ HI c gc HG) as [x [HC _]]; pose proof (ci_cache _ _ _ _ HC) as Hx.
    exists c, gc, x, o; rewrite <- (Huser c gc gc'), <- (Hgeom c gc x x') by done; done.
Qed.

(** ** One cache gives up an object *)

(** Nothing uses [a] as a header or magazine. *)
Definition unused k (G : gmap Z gcache) (a : Z) : Prop :=
  (forall c gc x, G !! c = Some gc -> k_caches k !! c = Some x -> a ∉ mags x gc) /\
  (forall c gc, G !! c = Some gc -> a ∉ hdrs gc).

(** The objects in use of a cache without [o], which a client or ([b]) the allocator gives back. *)
Definition released (b : bool) k (G : gmap Z gcache) (gc : gcache) (o : Z) (user int : list Z) : Prop :=
  if b then user = g_user gc /\ g_int gc ≡ₚ o :: int /\ unused k G o
  else g_user gc ≡ₚ o :: user /\ int = g_int gc.

Definition lost (b : bool) (c o : Z) : option (Z * Z) := if b then None else Some (c, o).

Lemma released_use b k G gc o user int :
  released b k G gc o user int -> g_user gc ++ g_int gc ≡ₚ o :: user ++ int.
Proof.
  destruct b; cbn; [intros (-> & E & _)|intros (E & ->)]; rewrite E; [solve_Permutation|done].
Qed.

(** A step of the cache [c]; [gone] is what it takes from its clients. *)
Lemma step_moves gone k k' G L Hd Hd' c x x' gc gc' hs ms ps W :
  heap_inv k G L Hd -> G !! c = Some gc -> k_caches k !! c = Some x ->
  step_ok k k' G L Hd Hd' c x x' gc gc' hs ms ps ->
  g_user gc ≡ₚ added gone c ++ g_user gc' -> (forall c2, c2 ≠ c -> added gone c2 = []) ->
  (forall a, W a \/ k_mem k' !! a = k_mem k !! a) ->
  (forall a, client_byte k' (<[c := gc']> G) L a -> ~ W a) ->
  heap_inv k' (<[c := gc']> G) L Hd' /\ moves gone k G L k' (<[c := gc']> G).
Proof.
  intros HI HG Hx Hst Hu Hga HW Hcl; pose proof (st_frame _ _ _ _ _ _ _ _ _ _ _ _ _ _ Hst) as F.
  pose proof (st_geom _ _ _ _ _ _ _ _ _ _ _ _ _ _ Hst) as Eg.
  pose proof (ci_cache _ _ _ _ (proj1 (st_inv _ _ _ _ _ _ _ _ _ _ _ _ _ _ Hst))) as Hx'.
  split; [by eapply heap_update|]; split.
  - intros c2; destruct (decide (c2 = c)) as [->|Hne]; [rewrite lookup_insert_eq, HG; split; eauto|].
    by rewrite lookup_insert_ne.
  - intros c2 g1 g2 HG1; destruct (decide (c2 = c)) as [->|Hne].
    + rewrite lookup_insert_eq; intros [= <-]; by assert (g1 = gc) as -> by congruence.
    + rewrite lookup_insert_ne by done; intros HG2; rewrite Hga by done; by assert (g1 = g2) as -> by congruence.
  - intros c2 g1 x1 x2 HG1 Hx1 Hx2; destruct (decide (c2 = c)) as [->|Hne]; [congruence|].
    rewrite (fr_caches _ _ _ _ _ _ _ F) in Hx2 by done; congruence.
  - apply F.
  - intros a Ha; destruct (HW a) as [Hw|]; [by apply Hcl in Hw|done].
Qed.

(** A step of the cache [c] on what it has. *)
Lemma cache_moves gone k k' G L Hd Hd' c x x' gc gc' W :
  heap_inv k G L Hd -> G !! c = Some gc -> k_caches k !! c = Some x ->
  cache_inv k' c x' gc' -> framed c (hdrs gc) (mags x gc) (gpages gc) Hd k k' -> ps_ok (k_pm k') Hd' ->
  c_geom x' = c_geom x -> hdrs gc' ⊆ hdrs gc -> gpages gc' ⊆ gpages gc -> mags x' gc' ⊆ mags x gc ->
  g_user gc ≡ₚ added gone c ++ g_user gc' -> (forall c2, c2 ≠ c -> added gone c2 = []) ->
  (forall a, a ∈ g_int gc -> a ∈ g_int gc' \/ unused k G a) ->
  (forall q o, Hd !! q = Some o -> q ∉ gpages gc -> Hd' !! q = Some o) ->
  (forall p, p ∈ gpages gc' -> Hd' !! p = Some 0%nat) ->
  (forall a, W a \/ k_mem k' !! a = k_mem k !! a) ->
  (forall a, client_byte k' (<[c := gc']> G) L a -> ~ W a) ->
  heap_inv k' (<[c := gc']> G) L Hd' /\ moves gone k G L k' (<[c := gc']> G).
Proof.
  intros HI HG Hx Hc F Hps Eg Eh Ep Em Hu Hga Hint Hk Hown HW Hcl.
  pose proof (ci_cache _ _ _ _ (proj1 Hc)) as Hx'.
  apply (step_moves gone k k' G L Hd Hd' c x x' gc gc' (hdrs gc) (mags x gc) (gpages gc) W); try done.
  split; try done; auto.
  - intros c2 gc2 a Hne HG2 Ha; destruct (heap_apart k G L Hd c c2 gc gc2 x) as (x2 & _ & [A1 _ _]); auto.
  - intros c2 gc2 x2 a Hne HG2 Hx2 Ha; destruct (heap_apart k G L Hd c c2 gc gc2 x) as (x2' & Hx2' & [_ _ A3]); auto.
    assert (x2' = x2) as -> by congruence; auto.
  - intros c2 gc2 p Hne HG2 Hp; destruct (heap_apart k G L Hd c c2 gc gc2 x) as (x2 & _ & [_ A2 _]); auto.
  - intros p Hp; by eapply large_not_slab.
  - intros s _ Hs; left; by apply Eh, list_elem_of_fmap_2.
  - intros a Ha; destruct (Hint a Ha) as [?|[U1 U2]]; [by left|right]; split.
    + intros c2 gc2 x2 HG2 Hx2 Hin; destruct (decide (c2 = c)) as [->|Hne].
      * rewrite lookup_insert_eq in HG2; injection HG2 as <-; assert (x2 = x') as -> by congruence.
        by apply (U1 c gc x HG Hx), Em.
      * rewrite lookup_insert_ne in HG2 by done; rewrite (fr_caches _ _ _ _ _ _ _ F) in Hx2 by done.
        by apply (U1 c2 gc2 x2).
    + intros c2 gc2 HG2 Hin; destruct (decide (c2 = c)) as [->|Hne].
      * rewrite lookup_insert_eq in HG2; injection HG2 as <-; by apply (U2 c gc HG), Eh.
      * rewrite lookup_insert_ne in HG2 by done; by apply (U2 c2 gc2).
Qed.

Lemma released_added b k G gc o user int c gc' :
  released b k G gc o user int -> g_user gc' = user -> g_int gc' = int ->
  g_user gc ≡ₚ added (lost b c o) c ++ g_user gc' /\ (forall c2, c2 ≠ c -> added (lost b c o) c2 = []) /\
  (forall a, a ∈ g_int gc -> a ∈ g_int gc' \/ unused k G a).
Proof.
  intros Hr E1 E2; rewrite E1, E2; unfold lost; destruct b; cbn in *.
  - destruct Hr as (-> & E & Hun); split_and!; try done; intros a; rewrite E, elem_of_cons; intros [->|?]; auto.
  - destruct Hr as (E & ->); rewrite decide_True by done; split_and!; try done; auto.
    intros c2 Hne; by rewrite decide_False.
Qed.

(** The bytes of the object that is given back are no client's. *)
Lemma released_byte b k G L Hd c gc x o user int k' x' gc' a :
  heap_inv k G L Hd -> G !! c = Some gc -> k_caches k !! c = Some x ->
  released b k G gc o user int -> g_user gc' = user -> k_caches k' !! c = Some x' -> c_geom x' = c_geom x ->
  (forall c2, c2 ≠ c -> k_caches k' !! c2 = k_caches k !! c2) ->
  client_byte k' (<[c := gc']> G) L a -> ~ within o (c_obj_size (c_geom x)) a.
Proof.
  intros HI HG Hx Hr Eu Hx' Eg Hother Hcl; pose proof (released_use _ _ _ _ _ _ _ Hr) as Hu.
  destruct (heap_cache HI c gc x HG Hx) as [HC _].
  assert (Hall : o ∈ slabs gc ≫= gs_objs (c_geom x)).
  { rewrite <- (ci_objs _ _ _ _ HC); unfold where_objs.
    rewrite elem_of_app, (elem_of_app (mags x gc ≫= _)), Hu, elem_of_cons; auto. }
  assert (Hnd : NoDup (o :: user ++ int)).
  { pose proof (core_where_nodup HC) as Hnd; unfold where_objs in Hnd.
    apply NoDup_app in Hnd as (_ & _ & Hnd); apply NoDup_app in Hnd as (_ & _ & Hnd); by rewrite Hu in Hnd. }
  destruct Hcl as [(c2 & gc2 & x2 & o2 & HG2 & Hx2 & Ho2 & Ha)|(p & o2 & q & Hp & Hq & Ha)]; [|by eapply large_obj_apart].
  destruct (decide (c2 = c)) as [->|Hne].
  - rewrite lookup_insert_eq in HG2; injection HG2 as <-; assert (x2 = x') as -> by congruence.
    rewrite Eu in Ho2; rewrite Eg in Ha.
    eapply (other_obj_apart k G L Hd c gc x o c gc x o2 a); try done.
    + destruct b; cbn in Hr; [destruct Hr as (<- & _); done|destruct Hr as (E & _)].
      rewrite E; by constructor.
    + intros _ ->; apply NoDup_cons in Hnd as [Hn _]; apply Hn, elem_of_app; auto.
  - rewrite lookup_insert_ne in HG2 by done; rewrite Hother in Hx2 by done.
    by eapply (other_obj_apart k G L Hd c gc x o c2 gc2 x2 o2 a).
Qed.

(** A step of [c] that writes to no object. *)
Lemma local_moves gone k k' G L Hd c x x' gc gc' :
  heap_inv k G L Hd -> G !! c = Some gc -> k_caches k !! c = Some x ->
  cache_inv k' c x' gc' -> local c (hdrs gc) (mags x gc) nowhere k k' ->
  c_geom x' = c_geom x -> hdrs gc' ⊆ hdrs gc -> gpages gc' ⊆ gpages gc -> mags x' gc' ⊆ mags x gc ->
  g_user gc ≡ₚ added gone c ++ g_user gc' -> (forall c2, c2 ≠ c -> added gone c2 = []) ->
  (forall a, a ∈ g_int gc -> a ∈ g_int gc' \/ unused k G a) ->
  heap_inv k' (<[c := gc']> G) L Hd /\ moves gone k G L k' (<[c := gc']> G).
Proof.
  intros HI HG Hx Hc HL Eg Eh Ep Em Hu Hga Hint.
  apply (cache_moves gone k k' G L Hd Hd c x x' gc gc' nowhere); try done.
  - eapply local_framed; [|exact HL]; by intros a [].
  - rewrite (lo_pm _ _ _ _ _ _ HL); apply HI.
  - intros p Hp; eapply (hi_held _ _ _ _ HI); [exact HG|by apply Ep].
  - intros a; right; apply (lo_mem _ _ _ _ _ _ HL); by intros [].
  - by intros a _ [].
Qed.

Lemma quiet_insert G c gc' :
  (forall c2 g, c2 ≠ c -> G !! c2 = Some g -> g_skip g = None) -> g_skip gc' = None -> quiet (<[c := gc']> G).
Proof.
  intros HG Hs c2 g2; destruct (decide (c2 = c)) as [->|Hne].
  - rewrite lookup_insert_eq; by intros [= <-].
  - rewrite lookup_insert_ne by done; eauto.
Qed.

(** What a release leaves. *)
Definition free_result (b : bool) (c o : Z) k (G : gmap Z gcache) (L : gmap Z nat) k' : Prop :=
  exists G' Hd', heap_inv k' G' L Hd' /\ quiet G' /\ moves (lost b c o) k G L k' G'.

(** Into a magazine of the CPU. *)
Lemma push_moves b k G L Hd c gc x a g o user int :
  heap_inv k G L Hd -> quiet G -> G !! c = Some gc -> k_caches k !! c = Some x ->
  released b k G gc o user int -> a ∈ mags x gc -> a ∉ g_dempty gc ->
  k_mags k !! a = Some g -> m_count g < m_capacity g ->
  exists k', mag_push a o k = Ok k' /\ free_result b c o k G L k'.
Proof.
  intros HI HQ HG Hx Hr Ha Hde Hg Hlt; destruct (heap_cache HI c gc x HG Hx) as [HC HR].
  destruct (mag_push_ok k c x gc a g o user int HC Ha Hg Hlt Hde (released_use _ _ _ _ _ _ _ Hr)) as (k' & -> & HC' & HL).
  exists k'; split; [done|]; exists (<[c := set_use user int gc]> G), Hd.
  destruct (released_added b k G gc o user int c (set_use user int gc) Hr eq_refl eq_refl) as (A1 & A2 & A3).
  destruct (local_moves (lost b c o) k k' G L Hd c x x gc (set_use user int gc)) as [H1 H2]; try done.
  - split; [done|]; by destruct HR; split.
  - eapply local_mono; [| | |exact HL]; [apply list_subseteq_nil|by intros ? ->%list_elem_of_singleton|done].
  - split; [done|]; split; [|done]; apply (quiet_insert G c); [intros; by eapply HQ|by apply (HQ c gc)].
Qed.

(** ** To the slabs *)

(** A header from [slab_meta_cache] is given back. *)
Definition meta_free_spec (fm : Z -> kmem St -> res (kmem St)) : Prop :=
  forall k G L Hd gm h int, heap_inv k G L Hd -> quiet G -> G !! slab_meta_cache k = Some gm ->
    released true k G gm h (g_user gm) int ->
    exists k', fm h k = Ok k' /\ free_result true (slab_meta_cache k) h k G L k'.

(** A header from [slab_meta_cache] is no magazine. *)
Lemma meta_not_mag k G L Hd gm h a :
  heap_inv k G L Hd -> G !! slab_meta_cache k = Some gm -> h ∈ g_int gm -> mag_origin k G a -> h ≠ a.
Proof.
  intros HI HGm Hin Ho ->.
  destruct (used_page _ _ _ _ _ gm a HI HGm) as (xm & sm & Hxm & Hsm & Hom & Hpm); [rewrite elem_of_app; auto|].
  destruct Ho as [(n & Hn & E)|(gn & HGn & Hn)].
  - eapply (object_not_image _ _ _ _ _ gm xm sm a (boot_mag n) HI); try done.
    right; exists n; split; [|done]; pose proof (hi_counts _ _ _ _ HI); lia.
  - destruct (used_page _ _ _ _ _ gn a HI HGn) as (xn & sn & Hxn & Hsn & _ & Hpn); [rewrite elem_of_app; auto|].
    assert (Hne : slab_meta_cache k ≠ magazine_cache k).
    { apply (hi_distinct _ _ _ _ HI); destruct (hi_cache _ _ _ _ HI _ gn HGn) as [? [HC _]]; apply HC. }
    eapply (ap_pages _ _ _ _ (hi_apart _ _ _ _ HI _ _ _ _ _ _ Hne HGm HGn Hxm Hxn)); [by apply list_elem_of_fmap_2|].
    rewrite (in_page_inj _ _ _ Hpm Hpn); by apply list_elem_of_fmap_2.
Qed.

Lemma lists_moves fm cpu b k G L Hd c gc x o user int :
  heap_inv k G L Hd -> quiet G -> G !! c = Some gc -> k_caches k !! c = Some x ->
  released b k G gc o user int -> c ≠ magazine_cache k ->
  (c_off_slab (c_geom x) = true -> meta_free_spec fm) ->
  exists k', slab_free_to_lists fm cpu c o k = Ok k' /\ free_result b c o k G L k'.
Proof.
  intros HI HQ HG Hx Hr Hmc Hfm; pose proof (heap_cache HI c gc x HG Hx) as Hci.
  destruct (free_to_lists_ok fm cpu k c x gc o user int Hd Hci (released_use _ _ _ _ _ _ _ Hr)
    (heap_addressable HI c gc x HG Hx) (hi_pages _ _ _ _ HI)) as (d & k1 & x1 & gc1 & -> & Hfr).
  { intros q Hq; by eapply (hi_held _ _ _ _ HI). }
  destruct Hfr as [D1 [U1 U2] D3 D4 D5 D6 D7 D8 D9].
  destruct (released_added b k G gc o user int c gc1 Hr U1 U2) as (A1 & A2 & A3).
  assert (HPp : NoDup (gpages gc)) by apply (proj1 Hci).
  set (Hd1 := match d with None => Hd | Some s => delete (gs_page s) Hd end) in *.
  assert (Hsub : hdrs gc1 ⊆ hdrs gc /\ gpages gc1 ⊆ gpages gc).
  { destruct d as [s|]; destruct D7 as [E1 E2]; split; intros a Ha; rewrite ?E1, ?E2, ?elem_of_cons; auto;
      by rewrite <- ?E1, <- ?E2. }
  destruct Hsub as [Sh Sp].
  destruct (cache_moves (lost b c o) k k1 G L Hd Hd1 c x x1 gc gc1 (within o (c_obj_size (c_geom x)))) as [HI1 Hm1]; try done.
  { eapply framed_mono; [| | |exact D6]; try done; apply list_subseteq_nil. }
  { intros a Ha; by rewrite <- D4. }
  { intros q o2 Hq Hn; unfold Hd1; destruct d as [s|]; [|done]; rewrite lookup_delete_ne; [done|].
    intros <-; apply Hn; destruct D7 as [_ ->]; constructor. }
  { intros p Hp; unfold Hd1; destruct d as [s|]; [destruct D7 as [_ E]; rewrite lookup_delete_ne|];
      try (eapply (hi_held _ _ _ _ HI); [exact HG|by apply Sp]).
    intros <-; rewrite E in HPp; by apply NoDup_cons in HPp as [? _]. }
  { intros a; destruct (decide (o <= a < o + c_obj_size (c_geom x))); [by left|right; by apply D9]. }
  { intros a Ha; eapply (released_byte b k G L Hd c gc x o user int k1 x1 gc1); try done; [apply D1|].
    intros c2 Hne; by apply (fr_caches _ _ _ _ _ _ _ D6). }
  assert (HQ1 : quiet (<[c := gc1]> G)).
  { apply (quiet_insert G c); [intros; by eapply HQ|]; rewrite D5; by apply (HQ c gc). }
  assert (Hdone : free_result b c o k G L k1) by (exists (<[c := gc1]> G), Hd1; done).
  unfold finish_free; destruct d as [s|]; [|by exists k1].
  case_decide as Hoff; [|by exists k1]; destruct Hoff as [Hoff Hmz]; destruct D7 as [Eh _].
  destruct (mv_globals _ _ _ _ _ _ Hm1) as (_ & Emt & _).
  assert (Hs : exists s', s' ∈ slabs gc /\ gs_hdr s' = gs_hdr s).
  { assert (Hin : gs_hdr s ∈ hdrs gc) by (rewrite Eh; constructor).
    apply list_elem_of_fmap in Hin as (s' & E & Hs'); eauto. }
  destruct Hs as (s' & Hs' & Es).
  destruct (hi_hdr_origin _ _ _ _ HI c gc x s' HG Hx Hs' Hoff) as [[_ [?|?]]|(gm & HGm & Hin)]; [done|congruence|].
  assert (Hcm : c ≠ slab_meta_cache k).
  { intros ->; destruct (hi_meta _ _ _ _ HI gc x HG Hx); congruence. }
  assert (HGm1 : <[c := gc1]> G !! slab_meta_cache k1 = Some gm) by (rewrite Emt; by rewrite lookup_insert_ne).
  destruct (proj1 (elem_of_Permutation _ _) Hin) as [int' Eint].
  destruct (Hfm Hoff k1 (<[c := gc1]> G) L Hd1 gm (gs_hdr s) int' HI1 HQ1 HGm1) as (k2 & E2 & G2 & Hd2 & HI2 & HQ2 & Hm2).
  { split; [done|]; split; [by rewrite <- Es|]; rewrite <- Es; split.
    - intros c2 gc2 x2 HG2 Hx2 Hin2.
      assert (Hun : forall c2 gc2 x2, G !! c2 = Some gc2 -> k_caches k !! c2 = Some x2 -> gs_hdr s' ∉ mags x2 gc2).
      { intros c3 gc3 x3 HG3 Hx3 Hin3; 
        by apply (meta_not_mag k G L Hd gm _ _ HI HGm Hin (hi_mag_origin _ _ _ _ HI c3 gc3 x3 _ HG3 Hx3 Hin3)). }
      destruct (decide (c2 = c)) as [->|Hne].
      + rewrite lookup_insert_eq in HG2; injection HG2 as <-.
        assert (x2 = x1) as -> by (pose proof (ci_cache _ _ _ _ (proj1 D1)); congruence).
        rewrite D4 in Hin2; by apply (Hun c gc x).
      + rewrite lookup_insert_ne in HG2 by done; rewrite (fr_caches _ _ _ _ _ _ _ D6) in Hx2 by done.
        by apply (Hun c2 gc2 x2).
    - intros c2 gc2 HG2 Hin2; destruct (decide (c2 = c)) as [->|Hne].
      + rewrite lookup_insert_eq in HG2; injection HG2 as <-; rewrite Es in Hin2.
        pose proof (ci_hdrs _ _ _ _ (proj1 Hci)) as Hnd; rewrite Eh in Hnd; by apply NoDup_cons in Hnd as [? _].
      + rewrite lookup_insert_ne in HG2 by done.
        destruct (heap_apart k G L Hd c c2 gc gc2 x) as (x2 & _ & [Q _ _]); auto.
        apply (Q (gs_hdr s')); [by apply list_elem_of_fmap_2|done]. }
  exists k2; split; [done|]; exists G2, Hd2; split; [done|]; split; [done|].
  pose proof (moves_trans (lost b c o) None k G L Hd k1 _ Hd1 k2 G2 HI HI1 (or_intror eq_refl) Hm1 Hm2) as Hm.
  by destruct (lost b c o).
Qed.

(** ** The exchange of a full magazine *)

Definition others_quiet (c : Z) (G : gmap Z gcache) : Prop :=
  forall c2 gc, c2 ≠ c -> G !! c2 = Some gc -> g_skip gc = None.

(** The first half of the exchange is done: the CPU waits for an empty magazine. *)
Record waiting (b : bool) (cpu : nat) (c o : Z) k (G : gmap Z gcache) (L Hd : gmap Z nat) (gc : gcache) : Prop := {
  wt_inv : heap_inv k G L Hd;
  wt_cache : G !! c = Some gc;
  wt_skip : g_skip gc = Some (slab_cpu cpu);
  wt_quiet : others_quiet c G;
  wt_obj : exists user int, released b k G gc o user int
}.

Lemma released_grows b T cpu c o k G L Hd gc k' G' Hd' :
  waiting b cpu c o k G L Hd gc -> (b = true -> c = slab_meta_cache k) ->
  grows T None k G L Hd k' G' Hd' -> exists gc', waiting b cpu c o k' G' L Hd' gc'.
Proof.
  intros [W1 W2 W3 W4 (user & int & W5)] Hb Hg; destruct (gr_cache Hg c gc W2) as (gc' & HG' & Hs & Hi & Hu).
  exists gc'; split; try done.
  - apply (gr_inv Hg).
  - congruence.
  - intros c2 g2 Hne HG2; destruct (G !! c2) as [g|] eqn:E; [|apply (gr_dom Hg) in E; congruence].
    destruct (gr_cache Hg c2 g E) as (g3 & HG3 & Hs3 & _); pose proof (W4 c2 g Hne E); congruence.
  - cbn in Hu; destruct b; cbn in W5.
    + destruct W5 as (-> & E & [U1 U2]).
      assert (Hin : o ∈ g_int gc') by (apply Hi; rewrite E; constructor).
      destruct (proj1 (elem_of_Permutation _ _) Hin) as [int' E']; exists (g_user gc'), int'; split_and!; try done.
      split.
      * intros c2 g2 x2 HG2 Hx2 Hm; destruct (gr_mags Hg c2 g2 x2 o HG2 Hx2 Hm) as (g & x & HG & Hx & Hm0).
        by apply (U1 c2 g x).
      * intros c2 g2 HG2 Hh; destruct (gr_hdrs Hg c2 g2 o HG2 Hh) as [(g & HG & Hh0)|Hno]; [by apply (U2 c2 g)|].
        rewrite (Hb eq_refl) in W2; apply (Hno gc W2); rewrite E; constructor.
    + destruct W5 as (E & ->); exists user, (g_int gc'); split; [by rewrite Hu|done].
Qed.

(** An empty magazine, from the depot or a new one. *)
Lemma next_magazine d b cpu c o k G L Hd gc x :
  waiting b cpu c o k G L Hd gc -> ready cpu k c gc -> (b = true -> c = slab_meta_cache k) ->
  k_caches k !! c = Some x ->
  exists m k' G' Hd' gc',
    mag_depot_get_empty (mag_alloc (slab_cache_alloc (S (S d)) cpu)) c (c_magazine_size (c_geom x)) k = Ok (m, k') /\
    waiting b cpu c o k' G' L Hd' gc' /\ moves None k G L k' G' /\ (m = 0 \/ new_mag k' G' m).
Proof.
  intros HW Hrd Hb Hx; pose proof HW as [HI HG Hs HQ (user & int & Hr)].
  pose proof (heap_cache HI c gc x HG Hx) as [HC HR]; pose proof (ci_mags _ _ _ _ HC) as HM.
  destruct (g_dempty gc) as [|e de] eqn:Hde.
  - assert (E0 : forall src cap, mag_depot_get_empty src c cap k = src cap k).
    { intros src cap; unfold mag_depot_get_empty; rewrite (cache_at_ok _ _ _ Hx); mstep.
      pose proof (mo_empty _ _ _ HM) as Hch; rewrite Hde in Hch; cbn [mchain] in Hch.
      by rewrite decide_False by auto. }
    rewrite E0; destruct (mag_alloc_ok d cpu k G L Hd (c_magazine_size (c_geom x)) HI) as (m & k' & G' & Hd' & E & Hg & Hm).
    { apply (core_geom HC). }
    { intros c2 gc2 _ HG2; destruct (decide (c2 = c)) as [->|Hne]; [by assert (gc2 = gc) as -> by congruence|].
      left; by eapply HQ. }
    destruct (released_grows b _ cpu c o k G L Hd gc k' G' Hd' HW Hb Hg) as [gc' HW'].
    exists m, k', G', Hd', gc'; split; [exact E|]; split; [done|]; split; [by eapply grows_moves|done].
  - destruct (get_empty_ok (mag_alloc (slab_cache_alloc (S (S d)) cpu)) k c x gc (c_magazine_size (c_geom x)) e de (conj HC HR) Hde)
      as (k1 & x1 & E & Hez & HI1 & Hp & Ec & Eg & HL & Hok & Hem).
    set (gc1 := set_mags _ _ _ gc) in *; exists e, k1, (<[c := gc1]> G), Hd, gc1; split; [exact E|].
    assert (Hsub : mags x1 gc1 ⊆ mags x gc) by (intros a Ha; rewrite Hp; by constructor).
    destruct (local_moves None k k1 G L Hd c x x1 gc gc1) as [HIh Hm]; try done; auto.
    { eapply local_mono; [| | |exact HL]; done || apply list_subseteq_nil. }
    pose proof (ci_cache _ _ _ _ (proj1 HI1)) as Hx1.
    assert (Hcases : forall c2 g2 x2, <[c := gc1]> G !! c2 = Some g2 -> k_caches k1 !! c2 = Some x2 ->
      c2 = c /\ g2 = gc1 /\ x2 = x1 \/ c2 ≠ c /\ G !! c2 = Some g2 /\ k_caches k !! c2 = Some x2).
    { intros c2 g2 x2; destruct (decide (c2 = c)) as [->|Hne]; [rewrite lookup_insert_eq|rewrite lookup_insert_ne by done].
      - intros [= <-] ?; left; split_and!; congruence.
      - rewrite (lo_caches _ _ _ _ _ _ HL) by done; auto. }
    split; [|split; [done|right]].
    + split; try done.
      * apply lookup_insert_eq.
      * intros c2 g2 Hne; rewrite lookup_insert_ne by done; by apply HQ.
      * exists user, int; destruct b; cbn in Hr |- *; [|exact Hr]; destruct Hr as (Eu & E' & [U1 U2]); split_and!; try done.
        split; [intros c2 g2 x2 HG2 Hx2|intros c2 g2 HG2].
        -- destruct (Hcases c2 g2 x2 HG2 Hx2) as [(-> & -> & ->)|(Hne & HG0 & Hx0)]; [|by apply (U1 c2)].
           intros Hin; by apply (U1 c gc x HG Hx), Hsub.
        -- destruct (decide (c2 = c)) as [->|Hne].
           ++ rewrite lookup_insert_eq in HG2; injection HG2 as <-; by apply (U2 c gc).
           ++ rewrite lookup_insert_ne in HG2 by done; by apply (U2 c2 g2).
    + split; try done.
      * intros c2 g2 x2 HG2 Hx2.
        destruct (Hcases c2 g2 x2 HG2 Hx2) as [(-> & -> & ->)|(Hne & HG0 & Hx0)].
        -- pose proof (mo_nodup _ _ _ HM) as Hnd; rewrite Hp in Hnd; by apply NoDup_cons in Hnd as [? _].
        -- apply (ap_mags _ _ _ _ (hi_apart _ _ _ _ HI c c2 gc g2 x x2 ltac:(auto) HG HG0 Hx Hx0)).
           rewrite Hp; constructor.
      * destruct (lo_boot _ _ _ _ _ _ HL) as [_ B], (lo_globals _ _ _ _ _ _ HL) as (M & _).
        destruct (hi_mag_origin _ _ _ _ HI c gc x e HG Hx) as [(n & Hn & ->)|(gm & HGm & Hin)]; [rewrite Hp; constructor|..].
        -- left; exists n; by rewrite B.
        -- right; rewrite M; destruct (decide (magazine_cache k = c)) as [E1|Hne].
           ++ exists gc1; rewrite E1, lookup_insert_eq; split; [done|]; rewrite E1 in HGm.
              assert (gm = gc) as -> by congruence; done.
           ++ exists gm; by rewrite lookup_insert_ne.
Qed.

(** A cache gets the magazine [m], or none. *)
Lemma add_mag_moves k G L Hd c gc x m x1 gc1 :
  heap_inv k G L Hd -> G !! c = Some gc -> k_caches k !! c = Some x ->
  let k1 := with_caches (<[c := x1]> (k_caches k)) k in
  cache_inv k1 c x1 gc1 -> c_geom x1 = c_geom x -> mags x1 gc1 ≡ₚ nonzero [m] ++ mags x gc ->
  slabs gc1 = slabs gc -> g_user gc1 = g_user gc -> g_int gc1 = g_int gc -> m = 0 \/ new_mag k G m ->
  heap_inv k1 (<[c := gc1]> G) L Hd /\ moves None k G L k1 (<[c := gc1]> G).
Proof.
  intros HI HG Hx k1 HI1 Eg Hp Es Eu Ei Hm.
  assert (Hnz : forall a, a ∈ nonzero [m] -> a = m /\ new_mag k G m).
  { intros a Ha; apply nonzero_in in Ha as [Haz ->%list_elem_of_singleton]; destruct Hm; done. }
  assert (Eh : hdrs gc1 = hdrs gc) by (unfold hdrs; by rewrite Es).
  assert (Ep : gpages gc1 = gpages gc) by (unfold gpages; by rewrite Es).
  assert (Hor : forall a, mag_origin k G a -> mag_origin k1 (<[c := gc1]> G) a).
  { intros a; unfold mag_origin, k1; cbn; intros [?|(gm & HGm & Hin)]; [by left|right].
    destruct (decide (magazine_cache k = c)) as [E1|Hne].
    - exists gc1; rewrite E1, lookup_insert_eq, Ei; rewrite E1 in HGm; assert (gm = gc) as -> by congruence; done.
    - exists gm; by rewrite lookup_insert_ne. }
  apply (step_moves None k k1 G L Hd Hd c x x1 gc gc1 [] (nonzero [m]) [] nowhere); try done.
  - split; try done; rewrite ?Eh, ?Ep, ?Ei; auto.
    + split; try done; [|unfold k1; cbn; lia]; intros c' Hc'; unfold k1; cbn; by rewrite lookup_insert_ne.
    + apply HI.
    + intros c2 gc2 a _ _ Ha; by apply elem_of_nil in Ha.
    + intros c2 gc2 x2 a Hne HG2 Hx2 [-> N]%Hnz; by eapply (nm_fresh _ _ _ N).
    + intros c2 gc2 q _ _ Ha; by apply elem_of_nil in Ha.
    + intros q Ha; by apply elem_of_nil in Ha.
    + intros a; rewrite Hp, elem_of_app; tauto.
    + intros q Hq; by eapply (hi_held _ _ _ _ HI).
    + intros a; rewrite Hp, elem_of_app; intros [[-> N]%Hnz|?]; [right|by left]; apply Hor, N.
    + intros s _ Hs'; left; rewrite <- Eh; by apply list_elem_of_fmap_2.
  - by rewrite Eu.
  - intros a; by right.
  - by intros a _ [].
Qed.

(** The second half of the exchange. *)
Lemma install_moves b cpu c o k G L Hd gc x l p m :
  waiting b cpu c o k G L Hd gc -> (b = true -> c = slab_meta_cache k) -> k_caches k !! c = Some x ->
  c_cpus x !! slab_cpu cpu = Some (l, p) -> m = 0 \/ new_mag k G m ->
  exists k' x' gc', upd_cache c (set_cpu (slab_cpu cpu) m p) k = Ok k' /\
    heap_inv k' (<[c := gc']> G) L Hd /\ quiet (<[c := gc']> G) /\ moves None k G L k' (<[c := gc']> G) /\
    k_caches k' !! c = Some x' /\ c_geom x' = c_geom x /\
    (exists user int, released b k' (<[c := gc']> G) gc' o user int) /\
    (m ≠ 0 -> m ∈ mags x' gc' /\ m ∉ g_dempty gc' /\
      exists g, k_mags k' !! m = Some g /\ m_count g < m_capacity g).
Proof.
  intros [HI HG Hs HQ (user & int & Hr)] Hb Hx Hi Hm.
  pose proof (heap_cache HI c gc x HG Hx) as Hci.
  destruct (install_ok k c x gc (slab_cpu cpu) l p m Hci Hs Hi) as (k1 & x1 & E & Ek & HI1 & Hp & Hc1 & Eg & HL).
  { destruct Hm as [->|[N1 N2 N3 N4 N5]]; [by left|right]; split_and!; eauto. }
  set (gc1 := set_mags _ _ _ gc) in *; pose proof (ci_cache _ _ _ _ (proj1 HI1)) as Hx1.
  assert (Hnz : forall a, a ∈ nonzero [m] -> a = m /\ new_mag k G m).
  { intros a Ha; apply nonzero_in in Ha as [Haz ->%list_elem_of_singleton]; destruct Hm; done. }
  destruct (add_mag_moves k G L Hd c gc x m x1 gc1 HI HG Hx) as [HIh Hmv]; try done; [by rewrite <- Ek|].
  rewrite <- Ek in HIh, Hmv.
  exists k1, x1, gc1; split; [exact E|]; split; [done|]; split; [by apply quiet_insert|]; split; [done|].
  split; [done|]; split; [done|]; split.
  - exists user, int; destruct b; cbn in Hr |- *; [|exact Hr]; destruct Hr as (Eu & E' & [U1 U2]); split_and!; try done.
    split; [intros c2 g2 x2 HG2 Hx2 Hin|intros c2 g2 HG2 Hin]; destruct (decide (c2 = c)) as [->|Hne].
    + rewrite lookup_insert_eq in HG2; injection HG2 as <-; assert (x2 = x1) as -> by congruence.
      rewrite Hp, elem_of_app in Hin; destruct Hin as [[-> N]%Hnz|Hin]; [|by apply (U1 c gc x)].
      rewrite (Hb eq_refl) in HG.
      apply (meta_not_mag k G L Hd gc m m HI HG); [rewrite E'; constructor|apply N|done].
    + rewrite lookup_insert_ne in HG2 by done; rewrite Ek in Hx2; cbn in Hx2; rewrite lookup_insert_ne in Hx2 by done.
      by apply (U1 c2 g2 x2).
    + rewrite lookup_insert_eq in HG2; injection HG2 as <-; by apply (U2 c gc).
    + rewrite lookup_insert_ne in HG2 by done; by apply (U2 c2 g2).
  - intros Hmz; destruct Hm as [?|N]; [done|]; pose proof N as [_ (g & Hg & Hl & Hc & Hcap) N3 N4 _].
    split; [rewrite Hp, elem_of_app, nonzero_in; left; split; [done|constructor]|]; split.
    + intros Hin; apply (N4 c gc x HG Hx); unfold mags; rewrite !elem_of_app; auto.
    + exists g; rewrite Ek; split; [done|]; unfold mag_objs in N3; rewrite Hg in N3; unfold SLAB_MAX_MAGAZINE_SIZE in *.
      apply (f_equal length) in N3; rewrite length_take in N3; simpl in N3; lia.
Qed.

(** ** [slab_cache_free] *)

Lemma free_open_ok d fm b cpu k G L Hd c gc o user int :
  heap_inv k G L Hd -> quiet G -> G !! c = Some gc -> released b k G gc o user int ->
  c ≠ magazine_cache k -> (b = true -> c = slab_meta_cache k) ->
  (forall x, k_caches k !! c = Some x -> c_off_slab (c_geom x) = true -> meta_free_spec fm) ->
  exists k', slab_cache_free_open (mag_alloc (slab_cache_alloc (S (S d)) cpu)) fm cpu c o k = Ok k' /\
    free_result b c o k G L k'.
Proof.
  intros HI HQ HG Hr Hmc Hb Hfm; destruct (hi_cache _ _ _ _ HI c gc HG) as [x Hci]; pose proof Hci as [HC HR].
  pose proof (ci_cache _ _ _ _ HC) as Hx; pose proof (ci_mags _ _ _ _ HC) as HM; pose proof (HQ c gc HG) as Hs.
  assert (Hoz : o ≠ 0).
  { pose proof (heap_addressable HI c gc x HG Hx o) as Ha; rewrite <- (ci_objs _ _ _ _ HC) in Ha; unfold where_objs in Ha.
    rewrite elem_of_app, (elem_of_app (mags x gc ≫= _)), (released_use _ _ _ _ _ _ _ Hr), elem_of_cons in Ha.
    specialize (Ha ltac:(auto)); lia. }
  unfold slab_cache_free_open; rewrite decide_False by (intros [?|?]; [by apply (ci_nonnull _ _ _ _ HC)|done]).
  rewrite (cache_at_ok _ _ _ Hx); mstep.
  destruct (slab_cpu_lookup _ _ _ _ cpu HC) as (l & p & Hi); rewrite Hi; cbn [of_opt]; mstep.
  assert (Hin : forall a, a = l \/ a = p -> a = 0 \/ a ∈ mags x gc).
  { intros a Ha; destruct (decide (a = 0)); [by left|right]; by eapply cpu_mag_in. }
  destruct (mag_has_room_ok k x gc l HM (Hin l (or_introl eq_refl))) as ([] & -> & Hl); mstep.
  { destruct Hl as (Hlz & g & Hg & Hlt).
    destruct (cpu_mag_in _ _ _ _ _ l _ HM Hi Hs (or_introl eq_refl) Hlz) as (D1 & D2 & D3).
    by eapply push_moves. }
  destruct (mag_has_room_ok k x gc p HM (Hin p (or_intror eq_refl))) as ([] & -> & Hp); mstep.
  { destruct Hp as (Hpz & g & Hg & Hlt); rewrite (upd_cache_ok _ _ x) by done; mstep.
    destruct (cpu_mag_in _ _ _ _ _ p _ HM Hi Hs (or_intror eq_refl) Hpz) as (D1 & D2 & D3).
    destruct (swap_ok k c x gc (slab_cpu cpu) l p Hci Hs Hi) as (HI1 & Hm1 & L1).
    set (x1 := set_cpu _ _ _ x) in *; set (k1 := with_caches _ k) in *.
    destruct (local_moves None k k1 G L Hd c x x1 gc gc) as [HIh Hmv]; try done; auto.
    { eapply local_mono; [| | |exact L1]; done || apply list_subseteq_nil. }
    { intros a; by rewrite Hm1. }
    rewrite insert_id in HIh, Hmv by done.
    destruct (push_moves b k1 G L Hd c gc x1 p g o user int) as (k' & -> & G' & Hd' & HI' & HQ' & Hmv'); try done.
    - apply lookup_insert_eq.
    - destruct b; cbn in Hr |- *; [|done]; destruct Hr as (? & ? & [U1 U2]); split_and!; try done; split; [|done].
      intros c2 g2 x2 HG2 Hx2 Hin2; destruct (decide (c2 = c)) as [->|Hne].
      + unfold k1 in Hx2; cbn in Hx2; rewrite lookup_insert_eq in Hx2; injection Hx2 as <-.
        assert (g2 = gc) as -> by congruence; rewrite Hm1 in Hin2; by apply (U1 c gc x).
      + unfold k1 in Hx2; cbn in Hx2; rewrite lookup_insert_ne in Hx2 by done; by apply (U1 c2 g2 x2).
    - by rewrite Hm1.
    - exists k'; split; [done|]; exists G', Hd'; split; [done|]; split; [done|].
      exact (moves_trans None _ k G L Hd k1 G Hd k' G' HI HIh (or_introl eq_refl) Hmv Hmv'). }
  case_decide as Hlz; [|by eapply lists_moves; eauto].
  destruct Hl as [?|Hl2]; [done|].
  destruct (put_full_ok k c x gc (slab_cpu cpu) l p Hci Hs Hi Hlz) as (k1 & x1 & -> & HI1 & Hm1 & Ec1 & Eg1 & L1 & Ho1).
  { intros E; rewrite E in Hl2; simpl in Hl2; lia. }
  mstep; set (gc1 := set_mags _ _ _ gc) in *.
  destruct (local_moves None k k1 G L Hd c x x1 gc gc1) as [HIh Hmv]; try done; auto.
  { eapply local_mono; [| | |exact L1]; done || apply list_subseteq_nil. }
  { intros a; by rewrite Hm1. }
  pose proof (ci_cache _ _ _ _ (proj1 HI1)) as Hx1; destruct (mv_globals _ _ _ _ _ _ Hmv) as (Emc & Emt & _).
  assert (HW : waiting b cpu c o k1 (<[c := gc1]> G) L Hd gc1).
  { split; try done.
    - apply lookup_insert_eq.
    - intros c2 g2 Hne; rewrite lookup_insert_ne by done; apply HQ.
    - exists user, int; destruct b; cbn in Hr |- *; [|exact Hr]; destruct Hr as (Eu & E' & [U1 U2]); split_and!; try done.
      split; [intros c2 g2 x2 HG2 Hx2 Hin2|intros c2 g2 HG2 Hin2]; destruct (decide (c2 = c)) as [->|Hne].
      + rewrite lookup_insert_eq in HG2; injection HG2 as <-; assert (x2 = x1) as -> by congruence.
        rewrite Hm1 in Hin2; by apply (U1 c gc x).
      + rewrite lookup_insert_ne in HG2 by done; rewrite (lo_caches _ _ _ _ _ _ L1) in Hx2 by done; by apply (U1 c2 g2 x2).
      + rewrite lookup_insert_eq in HG2; injection HG2 as <-; by apply (U2 c gc).
      + rewrite lookup_insert_ne in HG2 by done; by apply (U2 c2 g2). }
  destruct (next_magazine d b cpu c o k1 (<[c := gc1]> G) L Hd gc1 x1 HW) as (m & k2 & G2 & Hd2 & gc2 & E2 & HW2 & Hmv2 & Hm2).
  { right; split; [done|]; exists x1, l, p; split_and!; try done; [by rewrite Ec1|constructor|by rewrite Ho1]. }
  { intros Eb; by rewrite Emt, Hb. }
  { done. }
  rewrite <- Eg1, E2; mstep; destruct (mv_globals _ _ _ _ _ _ Hmv2) as (Emc2 & Emt2 & _).
  pose proof (wt_inv _ _ _ _ _ _ _ _ _ HW2) as HI2; pose proof (wt_cache _ _ _ _ _ _ _ _ _ HW2) as HG2.
  destruct (hi_cache _ _ _ _ HI2 c gc2 HG2) as [x2 [HC2 _]]; pose proof (ci_cache _ _ _ _ HC2) as Hx2.
  rewrite (cache_at_ok _ _ _ Hx2); mstep; destruct (slab_cpu_lookup _ _ _ _ cpu HC2) as (l2 & p2 & Hi2).
  rewrite Hi2; cbn [of_opt]; mstep.
  destruct (install_moves b cpu c o k2 G2 L Hd2 gc2 x2 l2 p2 m HW2) as
    (k3 & x3 & gc3 & -> & HI3 & HQ3 & Hmv3 & Hx3 & Eg3 & (user3 & int3 & Hr3) & Hm3); try done.
  { intros Eb; rewrite Emt2, Emt; auto. }
  mstep; set (G3 := <[c := gc3]> G2) in *; destruct (mv_globals _ _ _ _ _ _ Hmv3) as (Emc3 & _ & _).
  assert (HG3 : G3 !! c = Some gc3) by apply lookup_insert_eq.
  assert (Hmv13 : moves None k G L k3 G3).
  { pose proof (moves_trans None None k G L Hd k1 _ Hd k2 G2 HI HIh (or_introl eq_refl) Hmv Hmv2) as Hmv12.
    exact (moves_trans None None k G L Hd k2 G2 Hd2 k3 G3 HI HI2 (or_introl eq_refl) Hmv12 Hmv3). }
  assert (Hfin : forall k', free_result b c o k3 G3 L k' -> free_result b c o k G L k').
  { intros k' (G' & Hd' & HI' & HQ' & Hmv'); exists G', Hd'; split; [done|]; split; [done|].
    exact (moves_trans None _ k G L Hd k3 G3 Hd2 k' G' HI HI3 (or_introl eq_refl) Hmv13 Hmv'). }
  case_decide as Hmz.
  - destruct (Hm3 Hmz) as (D1 & D2 & g & Hg & Hlt).
    destruct (push_moves b k3 G3 L Hd2 c gc3 x3 m g o user3 int3) as (k' & -> & Hres); try done.
    exists k'; auto.
  - destruct (lists_moves fm cpu b k3 G3 L Hd2 c gc3 x3 o user3 int3) as (k' & -> & Hres); try done.
    + congruence.
    + intros Hoff; apply (Hfm x Hx).
      by rewrite <- (mv_geom _ _ _ _ _ _ Hmv13 c gc x x3 HG Hx Hx3).
    + exists k'; auto.
Qed.

Lemma slab_cache_free_S d cpu c o k :
  slab_cache_free (S d) cpu c o k =
  slab_cache_free_open (mag_alloc (slab_cache_alloc d cpu))
    (fun slab k => slab_cache_free d cpu (slab_meta_cache k) slab k) cpu c o k.
Proof. done. Qed.

(** [slab_cache_free(slab_meta_cache)]: the headers of that cache are on its own pages. *)
Lemma meta_free_ok d cpu :
  meta_free_spec (fun slab k => slab_cache_free (S (S (S d))) cpu (slab_meta_cache k) slab k).
Proof.
  intros k G L Hd gm h int HI HQ HG Hr.
  rewrite (slab_cache_free_S (S (S d))); eapply (free_open_ok d _ true cpu k G L Hd (slab_meta_cache k) gm h); try done.
  - destruct (decide (magazine_cache k = 0)) as [E|Hne]; [|by apply (hi_distinct _ _ _ _ HI)].
    rewrite E; destruct (hi_cache _ _ _ _ HI _ gm HG) as [x [HC _]]; apply HC.
  - intros x Hx Hoff; destruct (hi_meta _ _ _ _ HI gm x HG Hx); congruence.
Qed.

(** [slab_cache_free] of an object that a client holds: four levels are enough. *)
Lemma cache_free_ok d cpu k G L Hd c gc o :
  heap_inv k G L Hd -> quiet G -> G !! c = Some gc -> o ∈ g_user gc -> c ≠ magazine_cache k ->
  exists k', slab_cache_free (S (S (S (S d)))) cpu c o k = Ok k' /\ free_result false c o k G L k'.
Proof.
  intros HI HQ HG Ho Hmc; destruct (proj1 (elem_of_Permutation _ _) Ho) as [user E].
  rewrite (slab_cache_free_S (S (S (S d)))); eapply (free_open_ok (S d) _ false cpu k G L Hd c gc o user (g_int gc)); try done.
  intros x Hx Hoff; apply meta_free_ok.
Qed.

End release.
