(* ===== verification/SlabLarge.v ===== *)
(** * Slab allocator: large blocks of [kmalloc], straight from the page allocator *)

From stdpp Require Import base tactics option list numbers gmap.
From Stdlib Require Import ZArith Lia.
From S2P Require Import Prelude Pmm PmmInv SlabMem Slab SlabGeom SlabInv SlabLists SlabCore.
From S2P Require Import SlabPage SlabAlloc SlabFree SlabHeap SlabTop SlabRelease.

Local Open Scope Z_scope.

Section large.
Context {St : Type} `{Kernel} `{!PageSource St} `{!PageLaws St}.
Implicit Types k : kmem St.

Lemma in_block_head p o : in_block p o p.
Proof. unfold in_block; pose proof (pow2_pos o); lia. Qed.

(** The conversions of a frame number of a block in use. *)
Lemma block_pfn s Hd p o q : ps_ok s Hd -> Hd !! p = Some o -> in_block p o q ->
  Z.shiftr (pmm_page_to_paddr q) PMM_PAGE_SHIFT = q /\
  p2v (Z.shiftl q PMM_PAGE_SHIFT) = page_addr q /\ u64 (Z.shiftl q PMM_PAGE_SHIFT) = q * PMM_PAGE_SIZE.
Proof.
  intros Hs Hp Hq; destruct (ps_place _ _ _ _ q Hs Hp Hq) as (H1 & H2 & H3 & H4).
  unfold pmm_page_to_paddr, p2v, page_addr, PMM_PAGE_SHIFT, PMM_PAGE_SIZE in *.
  rewrite !Z.shiftl_mul_pow2 by lia; change (2 ^ 12) with 4096.
  rewrite !(u64_small (q * 4096)), u64_small by lia; split; [|done].
  rewrite Z.shiftr_div_pow2 by lia; apply Z.div_mul; lia.
Qed.

(** What one round of a loop over the pages of a block does: the flags of the page
    become [fn] of what they were. *)
Definition page_step (Hd : gmap Z nat) (p : Z) (fn : Z -> Z) (step : Z -> kmem St -> res (kmem St)) (n : nat) : Prop :=
  forall i k f, 0 <= i < Z.of_nat n -> ps_ok (k_pm k) Hd -> ps_flags (k_pm k) (p + i) = Ok f ->
    exists s, step i k = Ok (with_pm s k) /\ ps_ok s Hd /\ ps_flags s (p + i) = Ok (fn f) /\
      (forall q, q ≠ p + i -> ps_flags s q = ps_flags (k_pm k) q /\ ps_order s q = ps_order (k_pm k) q).

(** The loop over the pages from the [i]-th on. *)
Lemma pages_loop Hd p o fn step n : Hd !! p = Some o -> Z.of_nat n = pow2 o -> page_step Hd p fn step n ->
  forall m i k, Z.of_nat i + Z.of_nat m = Z.of_nat n -> ps_ok (k_pm k) Hd ->
  exists s, for_up m (Z.of_nat i) step k = Ok (with_pm s k) /\ ps_ok s Hd /\
    (forall j f, Z.of_nat i <= j < Z.of_nat n -> ps_flags (k_pm k) (p + j) = Ok f -> ps_flags s (p + j) = Ok (fn f)) /\
    (forall q, ~ p + Z.of_nat i <= q < p + Z.of_nat n ->
       ps_flags s q = ps_flags (k_pm k) q /\ ps_order s q = ps_order (k_pm k) q).
Proof.
  intros Hp Hn Hst m; induction m as [|m IH]; intros i k Him Hs; cbn [for_up].
  { exists (k_pm k); split; [by destruct k|]; split; [done|]; split; [lia|done]. }
  destruct (ps_desc _ _ _ _ (p + Z.of_nat i) Hs Hp) as (f & o' & Hf & _); [unfold in_block; lia|].
  destruct (Hst (Z.of_nat i) k f) as (s & -> & Hs1 & Hf1 & Hot); [lia|done|done|]; mstep.
  destruct (IH (S i) (with_pm s k)) as (s2 & E2 & Hs2 & Hf2 & Hot2); [lia|done|].
  exists s2; replace (Z.of_nat i + 1) with (Z.of_nat (S i)) by lia; rewrite E2; split; [done|]; split; [done|].
  cbn [with_pm k_pm] in *; split.
  - intros j g Hj Hg; destruct (decide (j = Z.of_nat i)) as [->|Hne].
    + assert (g = f) as -> by congruence; rewrite (proj1 (Hot2 (p + Z.of_nat i) ltac:(lia))); done.
    + apply Hf2; [lia|]; by rewrite (proj1 (Hot (p + j) ltac:(lia))).
  - intros q Hq; destruct (Hot2 q ltac:(lia)) as [-> ->]; apply Hot; lia.
Qed.

Lemma mark_large_step Hd p o : Hd !! p = Some o ->
  page_step Hd p (fun f => Z.lor f PAGE_FLAG_KMALLOC_LARGE) (mark_large p o) (Z.to_nat (pow2 o)).
Proof.
  intros Hp i k f Hi Hs Hf; pose proof (pow2_pos o).
  assert (Hq : in_block p o (p + i)) by (unfold in_block; lia).
  unfold mark_large; destruct (block_pfn _ _ _ _ _ Hs Hp Hq) as (_ & _ & ->).
  rewrite (ps_paddr _ _ _ _ _ Hs Hp Hq), Hf; mstep.
  destruct (ps_set_flags_ok _ _ _ _ _ f (Z.lor f PAGE_FLAG_KMALLOC_LARGE) Hs Hp Hq Hf) as (s1 & -> & A1 & A2 & A3 & A4).
  { apply (has_flag_lor f _ 0) || (unfold PAGE_FLAG_FREE; rewrite has_flag_lor by lia; by rewrite orb_false_r). }
  mstep; destruct (ps_set_order_ok _ _ _ _ _ A1 Hp Hq) as (s2 & -> & B1 & B2 & B3); mstep.
  exists s2; split; [done|]; split; [done|]; split; [by rewrite B2|].
  intros q Hne; rewrite B2, B3, A3, A4 by done; done.
Qed.

Lemma unmark_large_step Hd p o : Hd !! p = Some o ->
  page_step Hd p (fun f => Z.land f (Z.lnot PAGE_FLAG_KMALLOC_LARGE)) (unmark_large p) (Z.to_nat (pow2 o)).
Proof.
  intros Hp i k f Hi Hs Hf; pose proof (pow2_pos o).
  assert (Hq : in_block p o (p + i)) by (unfold in_block; lia).
  unfold unmark_large; destruct (block_pfn _ _ _ _ _ Hs Hp Hq) as (_ & _ & ->).
  rewrite (ps_paddr _ _ _ _ _ Hs Hp Hq), Hf; mstep.
  destruct (ps_set_flags_ok _ _ _ _ _ f (Z.land f (Z.lnot PAGE_FLAG_KMALLOC_LARGE)) Hs Hp Hq Hf) as (s1 & -> & A1 & A2 & A3 & A4).
  { unfold PAGE_FLAG_FREE; rewrite has_flag_clear by lia; by rewrite andb_true_r. }
  mstep; exists s1; split; [done|]; split; [done|]; split; [done|].
  intros q Hne; rewrite A3, A4 by done; done.
Qed.

(** The pages of a block. *)
Definition frames (p : Z) (o : nat) : list Z := seqZ p (pow2 o).

Lemma frames_in p o q : q ∈ frames p o <-> in_block p o q.
Proof. unfold frames, in_block; rewrite elem_of_seqZ; lia. Qed.

(** No slab and no other large block has a page of the block. *)
Lemma block_outside k G L Hd p o :
  heap_inv k G L Hd -> Hd !! p = Some o -> L !! p = None ->
  (forall c gc, G !! c = Some gc -> p ∉ gpages gc) -> outside k G L [] [] (frames p o).
Proof.
  intros HI Hp HL Hno; split; try (intros; match goal with H : _ ∈ [] |- _ => by apply elem_of_nil in H end).
  - intros c gc q HG Hq Hin; apply frames_in in Hq; pose proof (hi_held _ _ _ _ HI c gc q HG Hin) as Hh.
    assert (q = p) as -> by (eapply (ps_apart _ _ _ _ _ _ q (hi_pages _ _ _ _ HI)); [done..|apply in_block_self|done]).
    by eapply Hno.
  - intros q Hq; apply frames_in in Hq; destruct (L !! q) as [o'|] eqn:E; [|done].
    destruct (hi_large _ _ _ _ HI q o' E) as [Hh _].
    assert (q = p) as -> by (eapply (ps_apart _ _ _ _ _ _ q (hi_pages _ _ _ _ HI)); [done..|apply in_block_head|done]).
    congruence.
Qed.

Lemma heap_large_add k G L Hd p o f :
  heap_inv k G L Hd -> Hd !! p = Some o -> ps_flags (k_pm k) p = Ok f ->
  has_flag f PAGE_FLAG_KMALLOC_LARGE = true -> heap_inv k G (<[p := o]> L) Hd.
Proof.
  intros [I1 I2 I3 I4 I5 I6 I7 I8 I9 I10 I11 I12] Hp Hf Hl; split; try done.
  - intros q o' Hq; destruct (decide (q = p)) as [->|Hne].
    + rewrite lookup_insert_eq in Hq; injection Hq as <-; eauto.
    + rewrite lookup_insert_ne in Hq by done; auto.
  - intros c gc HG; destruct (I12 c gc HG) as [?|(q & o' & Hq & ->)]; [by left|right].
    destruct (decide (q = p)) as [->|Hne]; [exists p, o|exists q, o']; split; try done; [apply lookup_insert_eq|].
    by rewrite lookup_insert_ne.
Qed.

Lemma heap_large_drop k G L Hd p :
  heap_inv k G L Hd -> G !! page_addr p = None -> heap_inv k G (delete p L) Hd.
Proof.
  intros [I1 I2 I3 I4 I5 I6 I7 I8 I9 I10 I11 I12] Hno; split; try done.
  - intros q o' [_ Hq]%lookup_delete_Some; auto.
  - intros c gc HG; destruct (I12 c gc HG) as [?|(q & o' & Hq & ->)]; [by left|right].
    exists q, o'; rewrite lookup_delete_ne; [done|]; intros ->; congruence.
Qed.

(** A cache's descriptor is not in a block that nobody holds. *)
Lemma fresh_not_cache k G L Hd p o :
  heap_inv k G L Hd -> L !! p = None -> Hd !! p = Some o -> G !! page_addr p = None.
Proof.
  intros HI HL Hp; destruct (G !! page_addr p) as [gc|] eqn:E; [|done].
  destruct (hi_origin _ _ _ _ HI _ gc E) as [(n & Hn & E1)|(q & o' & Hq & E1)].
  - exfalso; eapply (ps_image _ _ _ _ p (page_addr p) (hi_pages _ _ _ _ HI) Hp (in_block_head p o)).
    + left; exists n; split; [|done]; pose proof (hi_counts _ _ _ _ HI); lia.
    + unfold in_page, PMM_PAGE_SIZE; lia.
  - unfold page_addr, PMM_PAGE_SIZE in E1; assert (q = p) as -> by lia; congruence.
Qed.

(** A step on the pages of one block, which no slab uses. *)
Lemma block_framed k s Hd p o :
  (forall q o', Hd !! q = Some o' -> ~ in_block p o q ->
     ps_flags s q = ps_flags (k_pm k) q /\ ps_order s q = ps_order (k_pm k) q) ->
  framed 0 [] [] (frames p o) Hd k (with_pm s k).
Proof.
  intros Hf; split; try done; [|cbn; lia].
  intros q o' Hq Hn; apply (Hf q o' Hq); by rewrite <- frames_in.
Qed.

Definition large_order (size : Z) : nat := pages_to_order (u64 (size + PMM_PAGE_SIZE - 1) `div` PMM_PAGE_SIZE).

(** A block of [kmalloc_large], or NULL. *)
Lemma kmalloc_large_ok cpu size k G L Hd :
  heap_inv k G L Hd -> 0 < size <= 2 ^ 64 - PMM_PAGE_SIZE ->
  exists r s, kmalloc_large cpu size k = Ok (r, with_pm s k) /\
    ((r = 0 /\ s = k_pm k /\ ((PMM_MAX_ORDER <= large_order size)%nat \/ no_page cpu (large_order size) (k_pm k))) \/
     exists p o, r = page_addr p /\ r ≠ 0 /\ size <= pow2 o * PMM_PAGE_SIZE /\ Hd !! p = None /\ L !! p = None /\
       G !! page_addr p = None /\ heap_inv (with_pm s k) G (<[p := o]> L) (<[p := o]> Hd)).
Proof.
  intros HI Hsz; unfold kmalloc_large; fold (large_order size); set (o := large_order size).
  assert (Hcount : size <= u64 (size + PMM_PAGE_SIZE - 1) `div` PMM_PAGE_SIZE * PMM_PAGE_SIZE /\
    0 <= u64 (size + PMM_PAGE_SIZE - 1) `div` PMM_PAGE_SIZE < 2 ^ 64).
  { unfold PMM_PAGE_SIZE in *; rewrite u64_small by lia.
    pose proof (Z.div_mod (size + 4096 - 1) 4096 ltac:(lia)); pose proof (Z.mod_pos_bound (size + 4096 - 1) 4096 ltac:(lia)); lia. }
  destruct Hcount as [Hc1 Hc2]; pose proof (pages_to_order_ok _ Hc2) as Ho; fold (large_order size) in Ho; fold o in Ho.
  destruct (decide (PMM_MAX_ORDER <= o)%nat) as [Hmax|Hmax]; [exists 0, (k_pm k); split; [by destruct k|left; auto]|].
  case_decide as Hle; [|lia]; destruct Ho as (_ & Hfit & _).
  destruct (ps_alloc_ok (k_pm k) Hd cpu o (hi_pages _ _ _ _ HI)) as (r & s & Epg & Hr); rewrite Epg; mstep.
  destruct r as [p|]; [|subst s; exists 0, (k_pm k); split; [done|left; split; [done|]; split; [done|right; by exists (k_pm k)]]].
  destruct Hr as (Hpn & Hs & Hf & Hfl).
  assert (Hp : <[p := o]> Hd !! p = Some o) by apply lookup_insert_eq.
  destruct (block_pfn _ _ _ _ _ Hs Hp (in_block_head p o)) as (-> & -> & _).
  destruct (pages_loop (<[p := o]> Hd) p o _ _ _ Hp ltac:(rewrite Z2Nat.id; [done|pose proof (pow2_pos o); lia])
    (mark_large_step _ _ _ Hp) (Z.to_nat (pow2 o)) 0 (with_pm s k) ltac:(lia) Hs) as (s2 & E2 & Hs2 & Hf2 & Hot).
  change (Z.of_nat 0) with 0 in *; rewrite E2; mstep; cbn [with_pm k_pm] in *; rewrite Z2Nat.id in Hf2, Hot by (pose proof (pow2_pos o); lia).
  exists (page_addr p), s2; split; [done|right]; exists p, o.
  assert (Hkeep : forall q o', Hd !! q = Some o' -> <[p := o]> Hd !! q = Some o').
  { intros q o' Hq; rewrite lookup_insert_ne; [done|]; intros ->; congruence. }
  assert (HLn : L !! p = None) by (destruct (L !! p) eqn:El; [|done]; apply (hi_large _ _ _ _ HI) in El as [? _]; congruence).
  assert (HI1 : heap_inv (with_pm s k) G L (<[p := o]> Hd)).
  { apply (heap_outside k _ G L Hd _ [] [] []); try done.
    - split; try done; [|cbn; lia]; intros q o' Hq _; cbn; by eapply Hfl.
    - split; intros; try done; by match goal with H : _ ∈ [] |- _ => apply elem_of_nil in H end.
    - intros q o' Hq _; auto. }
  assert (Hno : forall c gc, G !! c = Some gc -> p ∉ gpages gc).
  { intros c gc HG Hin; pose proof (hi_held _ _ _ _ HI c gc p HG Hin); congruence. }
  split; [done|]; split; [destruct (ps_place _ _ _ _ p Hs Hp (in_block_head p o)); lia|].
  split; [unfold PMM_PAGE_SIZE in *; nia|]; split; [done|]; split; [done|].
  split; [by apply (fresh_not_cache (with_pm s k) G L (<[p := o]> Hd) p o)|].
  assert (Hfp : ps_flags s2 p = Ok (Z.lor PAGE_FLAG_KERNEL PAGE_FLAG_KMALLOC_LARGE)).
  { rewrite <- (Z.add_0_r p); apply Hf2; [pose proof (pow2_pos o); lia|]; by rewrite Z.add_0_r. }
  apply (heap_large_add _ G L _ p o (Z.lor PAGE_FLAG_KERNEL PAGE_FLAG_KMALLOC_LARGE)); [|done|exact Hfp|done].
  apply (heap_outside (with_pm s k) (with_pm s2 (with_pm s k)) G L (<[p := o]> Hd) _ [] [] (frames p o)); try done.
  - apply block_framed; intros q o' Hq Hn; cbn; apply Hot; unfold in_block in Hn; lia.
  - by apply (block_outside (with_pm s k) G L (<[p := o]> Hd)).
Qed.

(** ** [kfree] *)

(** A large block goes back to the page allocator. *)
Lemma kfree_large_ok depth cpu k G L Hd p o :
  heap_inv k G L Hd -> L !! p = Some o -> G !! page_addr p = None ->
  exists s, kfree depth cpu (page_addr p) k = Ok (with_pm s k) /\
    heap_inv (with_pm s k) G (delete p L) (delete p Hd).
Proof.
  intros HI HL Hnc; destruct (hi_large _ _ _ _ HI p o HL) as [Hp (f & Hf & Hfl)]; pose proof (hi_pages _ _ _ _ HI) as Hs.
  destruct (ps_place _ _ _ _ p Hs Hp (in_block_head p o)) as (_ & _ & Hpos & _).
  assert (Hpa : in_page p (page_addr p)) by (unfold in_page, PMM_PAGE_SIZE; lia).
  unfold kfree; rewrite decide_False by lia.
  rewrite (ps_vaddr _ _ _ _ _ _ Hs Hp (in_block_head p o) Hpa), Hf; mstep; rewrite Hfl.
  destruct (block_pfn _ _ _ _ _ Hs Hp (in_block_head p o)) as (-> & _ & _).
  destruct (ps_desc _ _ _ _ _ Hs Hp (in_block_head p o)) as (f' & o' & _ & -> & Ho); rewrite (Ho eq_refl); mstep.
  destruct (pages_loop Hd p o _ _ _ Hp ltac:(rewrite Z2Nat.id; [done|pose proof (pow2_pos o); lia])
    (unmark_large_step _ _ _ Hp) (Z.to_nat (pow2 o)) 0 k ltac:(lia) Hs) as (s2 & E2 & Hs2 & _ & Hot).
  change (Z.of_nat 0) with 0 in *; rewrite E2; mstep; rewrite Z2Nat.id in Hot by (pose proof (pow2_pos o); lia).
  destruct (ps_free_ok s2 Hd cpu p o Hs2 Hp) as (s3 & E3 & Hs3 & Hfr); cbn [with_pm k_pm]; rewrite E3; mstep.
  exists s3; split; [done|].
  apply (heap_outside k _ G (delete p L) Hd _ [] [] (frames p o)); try done.
  - by apply heap_large_drop.
  - apply block_framed; intros q o2 Hq Hn; cbn.
    assert (q ≠ p) by (intros ->; apply Hn, in_block_head).
    destruct (Hfr q o2) as [-> ->]; [done..|]; apply Hot; unfold in_block in Hn; lia.
  - apply (block_outside k G _ Hd); try done; [by apply heap_large_drop|apply lookup_delete_eq|].
    intros c gc HG Hin; rewrite (large_not_slab HI c gc p HG Hin) in HL; done.
  - intros q o2 Hq Hn; rewrite lookup_delete_ne; [done|]; intros <-; apply Hn, frames_in, in_block_head.
Qed.

(** An object goes back to its cache. *)
Lemma kfree_object_ok d cpu k G L Hd c gc o :
  heap_inv k G L Hd -> quiet G -> G !! c = Some gc -> o ∈ g_user gc -> c ≠ magazine_cache k ->
  exists k', kfree (S (S (S (S d)))) cpu o k = Ok k' /\ free_result false c o k G L k'.
Proof.
  intros HI HQ HG Ho Hmc; pose proof (hi_pages _ _ _ _ HI) as Hs.
  destruct (used_page k G L Hd c gc o HI HG) as (x & s & Hx & Hsl & Hos & Hpg); [rewrite elem_of_app; auto|].
  destruct (heap_cache HI c gc x HG Hx) as [HC _].
  destruct (core_slab HC _ Hsl) as [_ _ (t & Ht & HB) Hmap (f & Hf & F1 & F2) Hnz _].
  assert (Hheld : Hd !! gs_page s = Some 0%nat) by (eapply (hi_held _ _ _ _ HI); [done|by apply list_elem_of_fmap_2]).
  assert (Hoz : o ≠ 0).
  { pose proof (heap_addressable HI c gc x HG Hx o) as Ha; rewrite elem_of_bind in Ha; specialize (Ha ltac:(eauto)); lia. }
  unfold kfree; rewrite decide_False by done.
  rewrite (ps_vaddr _ _ _ _ _ _ Hs Hheld (in_block_self _) Hpg), Hf; mstep; rewrite F2, F1.
  unfold page_cache; rewrite Hmap; cbn [of_opt]; mstep; rewrite decide_False by done.
  rewrite (slab_at_ok _ _ _ Ht); mstep; rewrite (bo_cache _ _ _ _ _ HB), decide_True by apply HC.
  by apply (cache_free_ok d cpu k G L Hd c gc o).
Qed.

End large.
