(* ===== verification/SlabSpec.v ===== *)
(** * Slab allocator: [kmalloc] and its relatives refine a store of disjoint blocks

    The abstract state maps the address of every block a client holds to the bytes of
    the block.  [refines k B] says that the allocator's state [k] implements [B]; the
    operations preserve it and return what the abstract store allows. *)

From stdpp Require Import base tactics option list numbers gmap.
From Stdlib Require Import ZArith Lia.
From S2P Require Import Prelude Pmm PmmInv SlabMem Slab SlabGeom SlabInv SlabLists SlabCore.
From S2P Require Import SlabPage SlabAlloc SlabFree SlabHeap SlabTop SlabRelease SlabLarge.

Local Open Scope Z_scope.

(** The blocks that clients hold, with their contents. *)
Abbreviation bstore := (gmap Z (list Z)).

(** The range of [n] bytes at [a] meets no block of [B]. *)
Definition clear (B : bstore) (a n : Z) : Prop :=
  forall p l, B !! p = Some l -> a + n <= p \/ p + Z.of_nat (length l) <= a.

Section spec.
Context {St : Type} `{Kernel} `{!PageSource St} `{!PageLaws St}.
Implicit Types k : kmem St.

(** ** The invariant behind the interface *)

(** The cache of each size class is large enough, or was not created. *)
Record class_ok k (G : gmap Z gcache) (sz c : Z) : Prop := {
  cl_cache : c ≠ 0 -> exists gc x, G !! c = Some gc /\ k_caches k !! c = Some x /\ sz <= c_obj_size (c_geom x);
  cl_other : c ≠ 0 -> c ≠ magazine_cache k
}.

Record heap_ok k (G : gmap Z gcache) (L Hd : gmap Z nat) : Prop := {
  hk_inv : heap_inv k G L Hd;
  hk_quiet : quiet G;
  hk_count : length (kmalloc_caches k) = length kmalloc_sizes;
  hk_class i c sz : kmalloc_caches k !! i = Some c -> kmalloc_sizes !! i = Some sz -> class_ok k G sz c
}.

(** A client holds [n] bytes at [p]: in an object of a cache or in a large block. *)
Definition holds k (G : gmap Z gcache) (L : gmap Z nat) (p n : Z) : Prop :=
  (exists c gc x, G !! c = Some gc /\ c ≠ magazine_cache k /\ k_caches k !! c = Some x /\ p ∈ g_user gc /\
     0 < n <= c_obj_size (c_geom x)) \/
  (exists q o, L !! q = Some o /\ G !! p = None /\ p = page_addr q /\ 0 < n <= pow2 o * PMM_PAGE_SIZE).

Definition implements k (G : gmap Z gcache) (L Hd : gmap Z nat) (B : bstore) : Prop :=
  heap_ok k G L Hd /\
  forall p l, B !! p = Some l -> holds k G L p (Z.of_nat (length l)) /\ load_list (length l) (k_mem k) p = l.

Definition refines k (B : bstore) : Prop := exists G L Hd, implements k G L Hd B.

(** ** Blocks do not overlap *)

Lemma large_byte p o a :
  within (page_addr p) (pow2 o * PMM_PAGE_SIZE) a -> exists q, in_block p o q /\ in_page q a.
Proof.
  unfold within, in_block, in_page, page_addr, PMM_PAGE_SIZE; intros Ha.
  exists ((a - hhdm_offset) `div` 4096).
  pose proof (Z.div_mod (a - hhdm_offset) 4096 ltac:(lia)); pose proof (Z.mod_pos_bound (a - hhdm_offset) 4096 ltac:(lia)).
  nia.
Qed.

Lemma holds_byte k G L p n a : holds k G L p n -> within p n a -> client_byte k G L a.
Proof.
  intros [(c & gc & x & HG & _ & Hx & Hp & Hn)|(q & o & HL & Hnc & -> & Hn)] Ha; [left|right].
  - exists c, gc, x, p; split_and!; try done; unfold within in *; lia.
  - destruct (large_byte q o a) as (r & Hr & Hra); [unfold within in *; lia|]; by exists q, o, r.
Qed.

Lemma holds_apart k G L Hd p1 n1 p2 n2 a :
  heap_inv k G L Hd -> holds k G L p1 n1 -> holds k G L p2 n2 -> p1 ≠ p2 ->
  within p1 n1 a -> ~ within p2 n2 a.
Proof.
  intros HI H1 H2 Hne A1 A2.
  assert (Hobj : forall c gc x p, G !! c = Some gc -> k_caches k !! c = Some x -> p ∈ g_user gc ->
    p ∈ slabs gc ≫= gs_objs (c_geom x)).
  { intros c gc x p HG Hx Hp; destruct (heap_cache HI c gc x HG Hx) as [HC _].
    rewrite <- (ci_objs _ _ _ _ HC); unfold where_objs; rewrite !elem_of_app; auto. }
  destruct H1 as [(c1 & g1 & x1 & G1 & M1 & X1 & U1 & N1)|(q1 & o1 & L1 & Z1 & -> & N1)],
    H2 as [(c2 & g2 & x2 & G2 & M2 & X2 & U2 & N2)|(q2 & o2 & L2 & Z2 & -> & N2)].
  - eapply (other_obj_apart k G L Hd c1 g1 x1 p1 c2 g2 x2 p2 a); eauto; unfold within in *; lia.
  - destruct (large_byte q2 o2 a) as (r & Hr & Hra); [unfold within in *; lia|].
    eapply (large_obj_apart k G L Hd c1 g1 x1 p1 q2 o2 r a); eauto; unfold within in *; lia.
  - destruct (large_byte q1 o1 a) as (r & Hr & Hra); [unfold within in *; lia|].
    eapply (large_obj_apart k G L Hd c2 g2 x2 p2 q1 o1 r a); eauto; unfold within in *; lia.
  - destruct (large_byte q1 o1 a) as (r1 & Hr1 & Ha1); [unfold within in *; lia|].
    destruct (large_byte q2 o2 a) as (r2 & Hr2 & Ha2); [unfold within in *; lia|].
    rewrite (in_page_inj _ _ _ Ha1 Ha2) in Hr1.
    destruct (hi_large _ _ _ _ HI _ _ L1) as [K1 _], (hi_large _ _ _ _ HI _ _ L2) as [K2 _].
    apply Hne; f_equal; by eapply (ps_apart _ _ _ _ _ _ _ (hi_pages _ _ _ _ HI)).
Qed.

Lemma holds_nonzero k G L Hd p n : heap_inv k G L Hd -> holds k G L p n -> 0 < p.
Proof.
  intros HI [(c & gc & x & HG & _ & Hx & Hp & Hn)|(q & o & HL & Hnc & -> & Hn)].
  - destruct (heap_cache HI c gc x HG Hx) as [HC _]; pose proof (heap_addressable HI c gc x HG Hx p) as Ha.
    rewrite <- (ci_objs _ _ _ _ HC) in Ha; unfold where_objs in Ha; rewrite !elem_of_app in Ha.
    specialize (Ha ltac:(auto)); lia.
  - destruct (hi_large _ _ _ _ HI _ _ HL) as [Hh _].
    by destruct (ps_place _ _ _ _ q (hi_pages _ _ _ _ HI) Hh (in_block_head q o)) as (_ & _ & ? & _).
Qed.

(** Two ranges without a common byte. *)
Lemma ranges_apart p1 n1 p2 n2 :
  0 < n1 -> 0 < n2 -> (forall a, within p1 n1 a -> ~ within p2 n2 a) -> p1 + n1 <= p2 \/ p2 + n2 <= p1.
Proof. intros H1 H2 Hn; specialize (Hn (Z.max p1 p2)); unfold within in Hn; lia. Qed.

Lemma holds_clear k G L Hd (B : bstore) r n :
  heap_inv k G L Hd -> holds k G L r n ->
  (forall p l, B !! p = Some l -> holds k G L p (Z.of_nat (length l)) /\ p ≠ r) -> clear B r n.
Proof.
  intros HI Hr HB p l Hp; destruct (HB p l Hp) as [Hh Hne].
  apply ranges_apart; [destruct Hr as [(?&?&?&?&?&?&?&?)|(?&?&?&?&?&?)]; lia
    |destruct Hh as [(?&?&?&?&?&?&?&?)|(?&?&?&?&?&?)]; lia|].
  intros a Ha; by apply (holds_apart k G L Hd r n p _ a HI Hr Hh (not_eq_sym Hne)).
Qed.

(** The blocks of a store that the allocator implements. *)
Lemma refines_disjoint k B p1 l1 p2 l2 :
  refines k B -> B !! p1 = Some l1 -> B !! p2 = Some l2 -> p1 ≠ p2 ->
  p1 + Z.of_nat (length l1) <= p2 \/ p2 + Z.of_nat (length l2) <= p1.
Proof.
  intros (G & L & Hd & [HI _ _ _] & HB) H1 H2 Hne.
  destruct (HB _ _ H1) as [Hh1 _].
  apply (holds_clear k G L Hd (delete p1 B) p1 _ HI Hh1) with (p := p2); [|by rewrite lookup_delete_ne].
  intros p l [Hn Hp]%lookup_delete_Some; destruct (HB _ _ Hp); auto.
Qed.

(** ** Writing to a block *)

Lemma cache_write k c x gc m :
  cache_inv k c x gc ->
  (forall s f a, s ∈ slabs gc -> f ∈ gs_free s -> f <= a < f + 8 -> m !! a = k_mem k !! a) ->
  cache_inv (with_mem m k) c x gc.
Proof.
  intros [HC HR] Hm; split; [|done]; pose proof HC as [C1 C2 C3 C4 C5 C6 C7 C8 C9 C10 C11 C12].
  split; try done; apply Forall_forall; intros s Hs.
  destruct (core_slab HC _ Hs) as [S1 S0 (t & Ht & [B1 B2 B3 B4 B5 B6]) S3 S4 S5 S6]; split; try done.
  exists t; split; [done|]; split; try done.
  eapply fchain_ext; [|exact B6]; intros f a Hf Ha; by eapply Hm.
Qed.

Lemma heap_write k G L Hd m :
  heap_inv k G L Hd -> (forall a, ~ client_byte k G L a -> m !! a = k_mem k !! a) ->
  heap_inv (with_mem m k) G L Hd.
Proof.
  intros HI Hm; pose proof HI as [I1 I2 I3 I4 I5 I6 I7 I8 I9 I10 I11 I12]; split; try done.
  intros c gc HG; destruct (I2 c gc HG) as [x [HC HR]]; exists x; apply cache_write; [done|].
  intros s f a Hs Hf Ha; apply Hm; intros Hcl; pose proof (ci_cache _ _ _ _ HC) as Hx.
  assert (Hfw : f ∈ slabs gc ≫= gs_free) by (apply elem_of_bind; eauto).
  pose proof (core_where_nodup HC) as Hnd; unfold where_objs in Hnd; apply NoDup_app in Hnd as (_ & Hdis & _).
  pose proof (core_size HC) as Hsz.
  eapply (client_not_obj k G L Hd c gc x f a); try done.
  - apply elem_of_bind; exists s; split; [|done]; by apply (core_slab HC _ Hs).
  - intros Hin; apply (Hdis f Hfw); rewrite !elem_of_app; auto.
  - unfold within; lia.
Qed.

Lemma refines_store k B p l i bs :
  refines k B -> B !! p = Some l -> (i + length bs <= length l)%nat -> Forall (fun b => 0 <= b < 256) bs ->
  refines (with_mem (store_list (p + Z.of_nat i) bs (k_mem k)) k)
    (<[p := take i l ++ bs ++ drop (i + length bs) l]> B).
Proof.
  intros (G & L & Hd & [HI HQ Hc Hcl] & HB) Hp Hi Hbs; destruct (HB p l Hp) as [Hh Hl].
  set (m := store_list _ bs (k_mem k)); exists G, L, Hd; split.
  - split; try done; [|intros j c sz H1 H2; destruct (Hcl j c sz H1 H2); by split].
    apply heap_write; [done|]; intros a Ha; unfold m; rewrite store_list_lookup, decide_False; [done|].
    intros Hin; apply Ha; eapply holds_byte; [exact Hh|]; unfold within; lia.
  - intros q l'; destruct (decide (q = p)) as [->|Hne].
    + rewrite lookup_insert_eq; intros [= <-]; rewrite !length_app, length_take, length_drop.
      replace (_ + _)%nat with (length l) by lia; split; [exact Hh|].
      apply list_eq; intros j; rewrite load_list_lookup; cbn [with_mem k_mem].
      pose proof (f_equal (.!! j) Hl) as Hj; rewrite load_list_lookup in Hj.
      case_decide as Hjl.
      2: { symmetry; apply lookup_ge_None; rewrite !length_app, length_take, length_drop; lia. }
      unfold load8, m; rewrite store_list_lookup; case_decide as Hin.
      * rewrite lookup_app_r by (rewrite length_take; lia); rewrite length_take.
        rewrite lookup_app_l by lia; replace (Z.to_nat _) with (j - i `min` length l)%nat by lia.
        destruct (lookup_lt_is_Some_2 bs (j - i `min` length l)) as [b Hb]; [lia|]; rewrite Hb; f_equal.
        cbn [default]; apply u8_small; by eapply Forall_lookup_1 in Hbs.
      * unfold load8 in Hj; rewrite Hj; destruct (decide (j < i)%nat).
        -- rewrite lookup_app_l by (rewrite length_take; lia); by rewrite lookup_take_lt.
        -- rewrite lookup_app_r by (rewrite length_take; lia); rewrite length_take.
           rewrite lookup_app_r by lia; rewrite lookup_drop; f_equal; lia.
    + rewrite lookup_insert_ne by done; intros Hq; destruct (HB q l' Hq) as [Hh' Hl']; split; [exact Hh'|].
      rewrite <- Hl' at 2; apply load_list_ext; intros a Ha; cbn [with_mem k_mem]; unfold m.
      rewrite store_list_lookup, decide_False; [done|]; intros Hin.
      eapply (holds_apart k G L Hd q _ p _ a HI Hh' Hh Hne); unfold within; lia.
Qed.

(** ** Requests and answers *)

Inductive kreq :=
  | ReqMalloc (size : Z)
  | ReqZalloc (size : Z)
  | ReqCalloc (n size : Z)
  | ReqFree (p : Z)
  | ReqRealloc (p size : Z)
  | ReqStore (p : Z) (i : nat) (bs : list Z)
  | ReqLoad (p : Z) (i : nat).

(** One request; [ReqStore] is a client writing to its block, [ReqLoad] one reading a
    byte of it. *)
Definition serve (depth cpu : nat) (q : kreq) k : res (Z * kmem St) :=
  match q with
  | ReqMalloc size => kmalloc depth cpu size k
  | ReqZalloc size => kzalloc depth cpu size k
  | ReqCalloc n size => kcalloc depth cpu n size k
  | ReqFree p => k ← kfree depth cpu p k; Ok (0, k)
  | ReqRealloc p size => krealloc depth cpu p size k
  | ReqStore p i bs => Ok (0, with_mem (store_list (p + Z.of_nat i) bs (k_mem k)) k)
  | ReqLoad p i => Ok (load8 (k_mem k) (p + Z.of_nat i), k)
  end.

Definition SIZE_LIMIT : Z := 2 ^ 64 - PMM_PAGE_SIZE.

(** What a client may ask for. *)
Definition allowed (q : kreq) (B : bstore) : Prop :=
  match q with
  | ReqMalloc size | ReqZalloc size => 0 <= size <= SIZE_LIMIT
  | ReqCalloc n size => 0 <= n < 2 ^ 64 /\ 0 <= size < 2 ^ 64 /\ (n * size <= SIZE_LIMIT \/ 2 ^ 64 <= n * size)
  | ReqFree p => p = 0 \/ is_Some (B !! p)
  | ReqRealloc p size => (p = 0 \/ is_Some (B !! p)) /\ 0 <= size <= SIZE_LIMIT
  | ReqStore p i bs => exists l, B !! p = Some l /\ (i + length bs <= length l)%nat /\ Forall (fun b => 0 <= b < 256) bs
  | ReqLoad p i => exists l, B !! p = Some l /\ (i < length l)%nat
  end.

(** A new block of [size] bytes whose contents satisfy [P], or NULL. *)
Definition gets (size : Z) (P : list Z -> Prop) (r : Z) (B B' : bstore) : Prop :=
  (r = 0 /\ B' = B) \/
  (r ≠ 0 /\ 0 < size /\ clear B r size /\ exists l, Z.of_nat (length l) = size /\ P l /\ B' = <[r := l]> B).

Definition anything (l : list Z) : Prop := True.
Definition all_zero (l : list Z) : Prop := Forall (fun b => b = 0) l.

(** What the store of blocks answers. *)
Definition answers (q : kreq) (r : Z) (B B' : bstore) : Prop :=
  match q with
  | ReqMalloc size => gets size anything r B B'
  | ReqZalloc size => gets size all_zero r B B'
  | ReqCalloc n size =>
      if decide (n * size < 2 ^ 64) then gets (n * size) all_zero r B B' else r = 0 /\ B' = B
  | ReqFree p => r = 0 /\ B' = delete p B
  | ReqRealloc p size =>
      if decide (p = 0) then gets size anything r B B'
      else if decide (size = 0) then r = 0 /\ B' = delete p B
      else (r = 0 /\ B' = B) \/
           (r ≠ 0 /\ clear (delete p B) r size /\
            exists l l', B !! p = Some l /\ Z.of_nat (length l') = size /\
              take (length l `min` length l') l' = take (length l `min` length l') l /\
              B' = <[r := l']> (delete p B))
  | ReqStore p i bs =>
      r = 0 /\ exists l, B !! p = Some l /\ B' = <[p := take i l ++ bs ++ drop (i + length bs) l]> B
  | ReqLoad p i => B' = B /\ exists l, B !! p = Some l /\ l !! i = Some r
  end.

(** ** A new block *)

Lemma user_head_apart k G L Hd c gc p q o :
  heap_inv k G L Hd -> G !! c = Some gc -> p ∈ g_user gc -> L !! q = Some o -> p ≠ page_addr q.
Proof.
  intros HI HG Hp HL ->.
  destruct (used_page k G L Hd c gc (page_addr q) HI HG) as (x & s & Hx & Hs & _ & Hpg); [rewrite elem_of_app; auto|].
  assert (Hq : in_page q (page_addr q)) by (unfold in_page, PMM_PAGE_SIZE; lia).
  rewrite <- (in_page_inj _ _ _ Hpg Hq) in HL.
  rewrite (large_not_slab HI c gc _ HG) in HL; [done|]; by apply list_elem_of_fmap_2.
Qed.

Lemma user_apart k G L Hd c gc c2 gc2 p p2 :
  heap_inv k G L Hd -> c ≠ c2 -> G !! c = Some gc -> G !! c2 = Some gc2 -> p ∈ g_user gc -> p2 ∈ g_user gc2 -> p ≠ p2.
Proof.
  intros HI Hne HG HG2 Hp Hp2 ->.
  destruct (used_page k G L Hd c gc p2 HI HG) as (x & s & Hx & Hs & _ & Hpg); [rewrite elem_of_app; auto|].
  destruct (used_page k G L Hd c2 gc2 p2 HI HG2) as (x2 & s2 & Hx2 & Hs2 & _ & Hpg2); [rewrite elem_of_app; auto|].
  eapply (ap_pages _ _ _ _ (hi_apart _ _ _ _ HI c c2 gc gc2 x x2 Hne HG HG2 Hx Hx2)); [by apply list_elem_of_fmap_2|].
  rewrite (in_page_inj _ _ _ Hpg Hpg2); by apply list_elem_of_fmap_2.
Qed.

(** A heap with one block more. *)
Lemma refines_new k' G' L' Hd' (B : bstore) r size :
  heap_ok k' G' L' Hd' -> holds k' G' L' r size ->
  (forall p l, B !! p = Some l -> holds k' G' L' p (Z.of_nat (length l)) /\ p ≠ r /\
     load_list (length l) (k_mem k') p = l) ->
  let B' := <[r := load_list (Z.to_nat size) (k_mem k') r]> B in
  gets size anything r B B' /\ refines k' B'.
Proof.
  intros HH Hr HB B'; pose proof (hk_inv _ _ _ _ HH) as HI.
  assert (Hsz : 0 < size) by (destruct Hr as [(?&?&?&?&?&?&?&?)|(?&?&?&?&?&?)]; lia).
  split.
  - right; split; [pose proof (holds_nonzero _ _ _ _ _ _ HI Hr); lia|]; split; [done|]; split.
    + apply (holds_clear k' G' L' Hd' B r size HI Hr); intros p l Hp; destruct (HB p l Hp) as (? & ? & _); auto.
    + eexists; split; [|by split]; rewrite load_list_length; lia.
  - exists G', L', Hd'; split; [done|]; intros p l; unfold B'; destruct (decide (p = r)) as [->|Hne].
    + rewrite lookup_insert_eq; intros [= <-]; rewrite load_list_length, Z2Nat.id by lia; done.
    + rewrite lookup_insert_ne by done; intros Hp; destruct (HB p l Hp) as (? & _ & ?); done.
Qed.

(** The blocks of clients survive an allocation. *)
Lemma grows_holds T new k G L Hd k' G' Hd' p n :
  grows T new k G L Hd k' G' Hd' -> holds k G L p n -> holds k' G' L p n.
Proof.
  intros Hg [(c & gc & x & HG & Hmc & Hx & Hp & Hn)|(q & o & HL & Hnc & Ep & Hn)].
  2: { right; exists q, o; split; [done|]; split; [by apply (gr_dom Hg)|done]. }
  left; destruct (gr_cache Hg c gc HG) as (gc' & HG' & _ & _ & Hu), (gr_geom Hg c gc x HG Hx) as (x' & Hx' & Eg).
  destruct (gr_globals Hg) as (Emc & _); exists c, gc', x'; rewrite Eg, Emc, Hu, elem_of_app; split_and!; auto; lia.
Qed.

Lemma grows_heap_ok T new k G L Hd k' G' Hd' :
  heap_ok k G L Hd -> grows T new k G L Hd k' G' Hd' -> heap_ok k' G' L Hd'.
Proof.
  intros [HI HQ Hc Hcl] Hg; destruct (gr_globals Hg) as (E1 & E2 & E3); split.
  - apply (gr_inv Hg).
  - intros c gc' HG'; destruct (G !! c) as [gc|] eqn:E; [|apply (gr_dom Hg) in E; congruence].
    destruct (gr_cache Hg c gc E) as (g2 & HG2 & Hs & _); pose proof (HQ c gc E); congruence.
  - by rewrite E3.
  - rewrite E3; intros i c sz H1 H2; destruct (Hcl i c sz H1 H2) as [K1 K2]; split; [|by rewrite E1].
    intros Hz; destruct (K1 Hz) as (gc & x & HG & Hx & Hs).
    destruct (gr_cache Hg c gc HG) as (gc' & HG' & _), (gr_geom Hg c gc x HG Hx) as (x' & Hx' & Eg).
    exists gc', x'; by rewrite Eg.
Qed.

Lemma grows_load T new k G L Hd k' G' Hd' p n :
  grows T new k G L Hd k' G' Hd' -> holds k G L p (Z.of_nat n) ->
  load_list n (k_mem k') p = load_list n (k_mem k) p.
Proof.
  intros Hg Hh; apply load_list_ext; intros a Ha; apply (gr_data Hg); eapply holds_byte; [exact Hh|].
  unfold within; lia.
Qed.

(** An object of the cache [c]. *)
Lemma object_new d cpu k G L Hd B c gc x size :
  heap_ok k G L Hd -> G !! c = Some gc -> c ≠ magazine_cache k -> k_caches k !! c = Some x ->
  0 < size <= c_obj_size (c_geom x) ->
  (forall p l, B !! p = Some l -> holds k G L p (Z.of_nat (length l)) /\ load_list (length l) (k_mem k) p = l) ->
  exists r k' B', slab_cache_alloc (S (S d)) cpu c k = Ok (r, k') /\ gets size anything r B B' /\ refines k' B' /\
    (r = 0 -> starved cpu true k).
Proof.
  intros HH HG Hmc Hx Hsz HB; pose proof HH as [HI HQ _ _].
  destruct (cache_alloc_ok d cpu k G L Hd c gc false HI HG) as (r & k' & G' & Hd' & E & Hres).
  { left; by apply (HQ c). }
  { intros gm HGm; left; by apply (HQ _ gm HGm). }
  destruct Hres as [(-> & Hst & Hg)|(Hr & Hg & g0 & gc' & x' & s & HG0 & HG' & Hin & Hnin & Hx' & Hs & Hos)].
  - exists 0, k', B; split; [exact E|]; split; [by left|]; split; [|done]; exists G', L, Hd'; split; [by eapply grows_heap_ok|].
    intros p l Hp; destruct (HB p l Hp) as [Hh Hl]; split; [by eapply grows_holds|].
    by rewrite (grows_load _ _ _ _ _ _ _ _ _ p _ Hg Hh).
  - assert (g0 = gc) as -> by congruence.
    pose proof (grows_heap_ok _ _ _ _ _ _ _ _ _ HH Hg) as HH'; pose proof (hk_inv _ _ _ _ HH') as HI'.
    destruct (gr_geom Hg c gc x HG Hx) as (x2 & Hx2 & Eg); assert (x2 = x') as -> by congruence.
    destruct (gr_globals Hg) as (Emc & _).
    destruct (refines_new k' G' L Hd' B r size HH') as [Hgets Href].
    + left; exists c, gc', x'; rewrite Emc, Eg; split_and!; done || lia.
    + intros p l Hp; destruct (HB p l Hp) as [Hh Hl]; split; [by eapply grows_holds|]; split.
      * destruct Hh as [(c2 & gc2 & x2 & HG2 & _ & Hx2' & Hp2 & _)|(q & o & HL & _ & -> & _)].
        -- destruct (gr_cache Hg c2 gc2 HG2) as (gc2' & HG2' & _ & _ & Hu).
           destruct (decide (c2 = c)) as [->|Hne].
           ++ assert (gc2 = gc) as -> by congruence; intros ->; apply Hnin, elem_of_app; auto.
           ++ apply (user_apart k' G' L Hd' c2 gc2' c gc' p r HI' Hne HG2' HG'); [|done].
              rewrite Hu, elem_of_app; auto.
        -- apply not_eq_sym; by eapply (user_head_apart k' G' L Hd' c gc').
      * by rewrite (grows_load _ _ _ _ _ _ _ _ _ p _ Hg Hh).
    + eexists r, k', _; split; [exact E|]; split; [exact Hgets|]; split; [exact Href|done].
Qed.

(** A block of whole pages. *)
Lemma large_new cpu k G L Hd B size :
  heap_ok k G L Hd -> 0 < size <= SIZE_LIMIT ->
  (forall p l, B !! p = Some l -> holds k G L p (Z.of_nat (length l)) /\ load_list (length l) (k_mem k) p = l) ->
  exists r k' B', kmalloc_large cpu size k = Ok (r, k') /\ gets size anything r B B' /\ refines k' B' /\
    (r = 0 -> (PMM_MAX_ORDER <= large_order size)%nat \/ no_page cpu (large_order size) (k_pm k)).
Proof.
  intros HH Hsz HB; pose proof HH as [HI HQ Hc Hcl].
  destruct (kmalloc_large_ok cpu size k G L Hd HI Hsz) as (r & s & E & [(-> & -> & Hst)|(q & o & -> & Hr & Hfit & Hq & HL & Hnc & HI')]).
  - exists 0, (with_pm (k_pm k) k), B; split; [exact E|]; split; [by left|]; split; [|done].
    replace (with_pm (k_pm k) k) with k by (by destruct k); by exists G, L, Hd.
  - destruct (refines_new (with_pm s k) G (<[q := o]> L) (<[q := o]> Hd) B (page_addr q) size) as [Hgets Href].
    + split; try done; intros i c sz H1 H2; destruct (Hcl i c sz H1 H2); by split.
    + right; exists q, o; rewrite lookup_insert_eq; split; [done|]; split; [done|]; split; [done|lia].
    + intros p l Hp; destruct (HB p l Hp) as [Hh Hl]; split; [|split; [|done]].
      * destruct Hh as [?|(q2 & o2 & HL2 & Hnc2 & -> & Hn)]; [by left|right]; exists q2, o2.
        rewrite lookup_insert_ne; [done|]; intros ->; congruence.
      * destruct Hh as [(c2 & gc2 & x2 & HG2 & _ & _ & Hp2 & _)|(q2 & o2 & HL2 & Hnc2 & -> & Hn)].
        -- eapply (user_head_apart (with_pm s k) G _ _ c2 gc2 p q o HI' HG2 Hp2), lookup_insert_eq.
        -- unfold page_addr, PMM_PAGE_SIZE; intros E2; assert (q2 = q) as -> by lia; congruence.
    + eexists _, _, _; split; [exact E|]; split; [exact Hgets|]; split; [exact Href|done].
Qed.

(** ** [kmalloc] *)

Lemma size_class_ok sizes size :
  match size_class sizes size with
  | Some i => exists sz, sizes !! i = Some sz /\ size <= sz
  | None => Forall (fun sz => sz < size) sizes
  end.
Proof.
  induction sizes as [|sz sizes IH]; cbn [size_class]; [constructor|]; case_decide as Hle; [by exists sz|].
  destruct (size_class sizes size) as [i|]; cbn [fmap option_fmap option_map]; [exact IH|constructor; [lia|exact IH]].
Qed.

(** Why [kmalloc] of a non-zero size may fail: a size class without a cache, a cache
    short of pages, or no block of pages. *)
Definition refused (cpu : nat) (size : Z) k : Prop :=
  0 ∈ kmalloc_caches k \/ starved cpu true k \/
  (PMM_MAX_ORDER <= large_order size)%nat \/ no_page cpu (large_order size) (k_pm k).

Lemma kmalloc_aligned_full d cpu k B size align :
  refines k B -> 0 <= size <= SIZE_LIMIT ->
  exists r k' B', kmalloc_aligned (S (S d)) cpu size align k = Ok (r, k') /\ gets size anything r B B' /\ refines k' B' /\
    (r = 0 -> size = 0 \/ refused cpu size k).
Proof.
  intros Href Hsz; unfold kmalloc_aligned, refused; case_decide as Hz; [exists 0, k, B; split; [done|]; split; [by left|auto]|].
  destruct Href as (G & L & Hd & HH & HB); pose proof HH as [HI HQ Hc Hcl].
  set (al := if decide (align < SLAB_MIN_ALIGN) then SLAB_MIN_ALIGN else align).
  destruct (decide (size <= 2048 /\ al <= 64)) as [Hs|Hs]; [|].
  2: { destruct (large_new cpu k G L Hd B size HH ltac:(lia) HB) as (r & k' & B' & ? & ? & ? & Hn).
       exists r, k', B'; split_and!; try done; intros ->; destruct (Hn eq_refl); auto. }
  pose proof (size_class_ok kmalloc_sizes size) as Hcls; destruct (size_class kmalloc_sizes size) as [i|].
  2: { unfold kmalloc_sizes in Hcls; rewrite !Forall_cons in Hcls; lia. }
  destruct Hcls as (sz & Hi & Hle).
  destruct (lookup_lt_is_Some_2 (kmalloc_caches k) i) as [c Hci]; [rewrite Hc; by eapply lookup_lt_Some|].
  rewrite Hci; cbn [of_opt]; mstep; destruct (Hcl i c sz Hci Hi) as [K1 K2].
  destruct (decide (c = 0)) as [->|Hcz].
  - exists 0, k, B; split; [done|]; split; [by left|]; split; [by exists G, L, Hd|].
    intros _; right; left; by eapply list_elem_of_lookup_2.
  - destruct (K1 Hcz) as (gc & x & HG & Hx & Hfit).
    destruct (object_new d cpu k G L Hd B c gc x size HH HG (K2 Hcz) Hx ltac:(lia) HB) as (r & k' & B' & ? & ? & ? & Hn).
    exists r, k', B'; split_and!; auto.
Qed.

Lemma kmalloc_aligned_ok d cpu k B size align :
  refines k B -> 0 <= size <= SIZE_LIMIT ->
  exists r k' B', kmalloc_aligned (S (S d)) cpu size align k = Ok (r, k') /\ gets size anything r B B' /\ refines k' B'.
Proof.
  intros Href Hsz; destruct (kmalloc_aligned_full d cpu k B size align Href Hsz) as (r & k' & B' & ? & ? & ? & _); eauto 10.
Qed.

Lemma kmalloc_ok d cpu k B size :
  refines k B -> 0 <= size <= SIZE_LIMIT ->
  exists r k' B', kmalloc (S (S d)) cpu size k = Ok (r, k') /\ gets size anything r B B' /\ refines k' B'.
Proof. apply kmalloc_aligned_ok. Qed.

Lemma kzalloc_ok d cpu k B size :
  refines k B -> 0 <= size <= SIZE_LIMIT ->
  exists r k' B', kzalloc (S (S d)) cpu size k = Ok (r, k') /\ gets size all_zero r B B' /\ refines k' B'.
Proof.
  intros Href Hsz; unfold kzalloc; destruct (kmalloc_ok d cpu k B size Href Hsz) as (r & k1 & B1 & -> & Hg & Href1); mstep.
  destruct Hg as [[-> ->]|(Hr & Hpos & Hclr & l & Hl & _ & ->)].
  - rewrite decide_False by auto; exists 0, k1, B; split; [done|]; split; [by left|done].
  - rewrite decide_True by done; rewrite slab_zero_fast_ok by (done || lia); mstep.
    pose proof (refines_store k1 (<[r := l]> B) r l 0 (replicate (Z.to_nat size) 0) Href1 (lookup_insert_eq _ _ _)) as Hst.
    rewrite length_replicate, Z.add_0_r, insert_insert_eq, drop_ge, app_nil_r in Hst by lia.
    eexists r, _, (<[r := replicate (Z.to_nat size) 0]> B); split; [done|]; split; [|apply Hst; [lia|apply Forall_replicate; lia]].
    right; split_and!; try done; exists (replicate (Z.to_nat size) 0); split; [rewrite length_replicate; lia|].
    split; [by apply Forall_replicate|done].
Qed.

Lemma kcalloc_ok d cpu k B n size :
  refines k B -> allowed (ReqCalloc n size) B ->
  exists r k' B', kcalloc (S (S d)) cpu n size k = Ok (r, k') /\ answers (ReqCalloc n size) r B B' /\ refines k' B'.
Proof.
  intros Href (Hn & Hs & Hlim); cbn [answers]; unfold kcalloc, SIZE_MAX, SIZE_LIMIT, PMM_PAGE_SIZE in *.
  assert (Hov : (n ≠ 0 /\ (2 ^ 64 - 1) `div` n < size) <-> 2 ^ 64 <= n * size).
  { destruct (decide (n = 0)) as [->|Hnz]; [lia|].
    pose proof (Z.div_mod (2 ^ 64 - 1) n Hnz); pose proof (Z.mod_pos_bound (2 ^ 64 - 1) n ltac:(lia)).
    set (q := (2 ^ 64 - 1) `div` n) in *; split; [intros [_ ?]|intros ?; split; [done|]]; nia. }
  destruct (decide (n ≠ 0 /\ _)) as [Hd|Hd]; rewrite Hov in Hd.
  - exists 0, k, B; rewrite decide_False by lia; done.
  - rewrite u64_small by nia; destruct (kzalloc_ok d cpu k B (n * size) Href) as (r & k' & B' & E & Hg & Href').
    { unfold SIZE_LIMIT, PMM_PAGE_SIZE; nia. }
    exists r, k', B'; rewrite decide_True by lia; done.
Qed.

(** ** [kfree] *)

(** The blocks of clients survive a step that takes only [gone] from them. *)
Lemma moves_implements gone k G L Hd k' G' Hd' (B B' : bstore) :
  implements k G L Hd B -> heap_inv k' G' L Hd' -> quiet G' -> moves gone k G L k' G' ->
  (forall p l, B' !! p = Some l -> B !! p = Some l /\ forall c, p ∉ added gone c) ->
  implements k' G' L Hd' B'.
Proof.
  intros [[HI HQ Hc Hcl] HB] HI' HQ' Hm HB'; destruct (mv_globals _ _ _ _ _ _ Hm) as (E1 & _ & E3).
  assert (Hnext : forall c2 gc2 x2, G !! c2 = Some gc2 -> k_caches k !! c2 = Some x2 ->
    exists gc2' x2', G' !! c2 = Some gc2' /\ k_caches k' !! c2 = Some x2' /\ c_geom x2' = c_geom x2).
  { intros c2 gc2 x2 HG2 Hx2; destruct (proj2 (mv_dom _ _ _ _ _ _ Hm c2)) as [gc2' HG2']; [eauto|].
    destruct (hi_cache _ _ _ _ HI' c2 gc2' HG2') as [x2' [HC2 _]]; pose proof (ci_cache _ _ _ _ HC2) as Hx2'.
    exists gc2', x2'; split_and!; try done; by eapply (mv_geom _ _ _ _ _ _ Hm). }
  split.
  - split; try done; [by rewrite E3|]; rewrite E3; intros i c2 sz H1 H2; destruct (Hcl i c2 sz H1 H2) as [K1 K2].
    split; [|by rewrite E1]; intros Hz; destruct (K1 Hz) as (gc2 & x2 & HG2 & Hx2 & Hle).
    destruct (Hnext c2 gc2 x2 HG2 Hx2) as (gc2' & x2' & HG2' & Hx2' & Eg); exists gc2', x2'; by rewrite Eg.
  - intros p l Hp'; destruct (HB' p l Hp') as [Hp Hne]; destruct (HB p l Hp) as [Hh Hl].
    assert (Hh' : holds k' G' L p (Z.of_nat (length l))).
    { destruct Hh as [(c2 & gc2 & x2 & HG2 & Hmc & Hx2 & Hp2 & Hn)|(q & o2 & HL & Hnc & Ep & Hn)].
      2: { right; exists q, o2; split; [done|]; split; [|done].
        destruct (G' !! p) eqn:E; [|done]; destruct (proj1 (mv_dom _ _ _ _ _ _ Hm p)); [eauto|congruence]. }
      left; destruct (Hnext c2 gc2 x2 HG2 Hx2) as (gc2' & x2' & HG2' & Hx2' & Eg).
      assert (Hp3 : p ∈ g_user gc2'); [|exists c2, gc2', x2'; rewrite E1, Eg; split_and!; done || lia].
      rewrite (mv_user _ _ _ _ _ _ Hm c2 gc2 gc2' HG2 HG2'), elem_of_app in Hp2; destruct Hp2 as [Hp2|?]; [|done].
      by apply Hne in Hp2. }
    split; [done|]; rewrite <- Hl at 2; apply load_list_ext; intros a Ha; apply (mv_data _ _ _ _ _ _ Hm).
    eapply holds_byte; [exact Hh'|unfold within; lia].
Qed.

Lemma free_result_refines k G L Hd B c o k' :
  implements k G L Hd B -> free_result false c o k G L k' -> refines k' (delete o B).
Proof.
  intros HH (G' & Hd' & HI' & HQ' & Hm); exists G', L, Hd'; apply (moves_implements _ k G L Hd k' G' Hd' B _ HH HI' HQ' Hm).
  intros p l [Hne Hp]%lookup_delete_Some; split; [done|]; intros c2 Hin; unfold lost, added in Hin.
  case_decide; [|by apply elem_of_nil in Hin]; apply list_elem_of_singleton in Hin; congruence.
Qed.

Lemma kfree_ok d cpu k B p :
  refines k B -> p = 0 \/ is_Some (B !! p) ->
  exists k', kfree (S (S (S (S d)))) cpu p k = Ok k' /\ refines k' (delete p B).
Proof.
  intros (G & L & Hd & HH & HB) Hp; pose proof HH as [HI HQ Hc Hcl].
  destruct (decide (p = 0)) as [->|Hpz].
  { exists k; split; [unfold kfree; by rewrite decide_True|]; exists G, L, Hd; split; [done|].
    intros p l [_ Hp2]%lookup_delete_Some; auto. }
  destruct Hp as [?|[l Hl]]; [done|]; destruct (HB p l Hl) as [[(c & gc & x & HG & Hmc & Hx & Hu & Hn)|(q & o & HL & Hnc & -> & Hn)] _].
  - destruct (kfree_object_ok d cpu k G L Hd c gc p HI HQ HG Hu Hmc) as (k' & -> & Hres).
    exists k'; split; [done|]; by apply (free_result_refines k G L Hd B c).
  - destruct (kfree_large_ok (S (S (S (S d)))) cpu k G L Hd q o HI HL Hnc) as (s & -> & HI').
    exists (with_pm s k); split; [done|]; exists G, (delete q L), (delete q Hd); split.
    + split; try done; intros i c sz H1 H2; destruct (Hcl i c sz H1 H2); by split.
    + intros p l2 [Hne Hp2]%lookup_delete_Some; destruct (HB p l2 Hp2) as [Hh Hl2]; split; [|done].
      destruct Hh as [?|(q2 & o2 & HL2 & Hnc2 & -> & Hn2)]; [by left|right]; exists q2, o2.
      rewrite lookup_delete_ne; [done|]; by intros ->.
Qed.

(** ** [krealloc] *)

(** The size [krealloc] finds out for a block, which may be more than was asked for. *)
Lemma old_size_ok k G L Hd p n :
  heap_inv k G L Hd -> holds k G L p n ->
  exists page size, ps_vaddr_to_page (k_pm k) p = Some page /\ old_size_of page k = Ok size /\
    n <= size /\ holds k G L p size.
Proof.
  intros HI Hh; pose proof (hi_pages _ _ _ _ HI) as Hs.
  destruct Hh as [(c & gc & x & HG & Hmc & Hx & Hp & Hn)|(q & o & HL & Hnc & -> & Hn)].
  - destruct (used_page k G L Hd c gc p HI HG) as (x' & s & Hx' & Hsl & Hos & Hpg); [rewrite elem_of_app; auto|].
    assert (x' = x) as -> by congruence; destruct (heap_cache HI c gc x HG Hx) as [HC _].
    destruct (core_slab HC _ Hsl) as [_ _ (t & Ht & HB) Hmap (f & Hf & F1 & F2) Hnz _].
    assert (Hheld : Hd !! gs_page s = Some 0%nat) by (eapply (hi_held _ _ _ _ HI); [done|by apply list_elem_of_fmap_2]).
    exists (gs_page s), (c_obj_size (c_geom x)).
    split; [by apply (ps_vaddr _ _ _ _ _ _ Hs Hheld (in_block_self _))|]; split.
    + unfold old_size_of; rewrite Hf; mstep; rewrite F2, F1; unfold page_cache; rewrite Hmap; cbn [of_opt]; mstep.
      rewrite decide_False by done; rewrite (slab_at_ok _ _ _ Ht); mstep.
      rewrite (bo_cache _ _ _ _ _ HB), decide_True by apply HC; by rewrite (cache_at_ok _ _ _ Hx).
    + split; [lia|left]; exists c, gc, x; split_and!; done || lia.
  - destruct (hi_large _ _ _ _ HI q o HL) as [Hq (f & Hf & Hfl)].
    assert (Hpa : in_page q (page_addr q)) by (unfold in_page, PMM_PAGE_SIZE; lia).
    exists q, (pow2 o * PMM_PAGE_SIZE); split; [by apply (ps_vaddr _ _ _ _ _ _ Hs Hq (in_block_head q o))|]; split.
    + unfold old_size_of; rewrite Hf; mstep; rewrite Hfl.
      destruct (ps_desc _ _ _ _ _ Hs Hq (in_block_head q o)) as (f' & o' & _ & -> & Ho); by rewrite (Ho eq_refl).
    + split; [lia|right]; exists q, o; split_and!; done || lia.
Qed.

(** A block may be taken to be as large as its object. *)
Lemma refines_resize k G L Hd B p n :
  heap_ok k G L Hd -> holds k G L p n ->
  (forall p l, B !! p = Some l -> holds k G L p (Z.of_nat (length l)) /\ load_list (length l) (k_mem k) p = l) ->
  refines k (<[p := load_list (Z.to_nat n) (k_mem k) p]> B).
Proof.
  intros HH Hh HB; exists G, L, Hd; split; [done|]; intros q l; destruct (decide (q = p)) as [->|Hne].
  - rewrite lookup_insert_eq; intros [= <-]; rewrite load_list_length, Z2Nat.id; [done|].
    destruct Hh as [(?&?&?&?&?&?&?&?)|(?&?&?&?&?&?)]; lia.
  - rewrite lookup_insert_ne by done; auto.
Qed.

Lemma load_list_take n N m a : (n <= N)%nat -> take n (load_list N m a) = load_list n m a.
Proof. intros Hn; pose proof (load_list_slice n 0 N m a Hn) as E; by rewrite drop_0, Z.add_0_r in E. Qed.

Lemma min_take_load (l l' : list Z) n N m a :
  l = load_list (length l) m a -> (length l <= N)%nat -> take (N `min` n) l' = load_list (N `min` n) m a ->
  length l' = n -> take (length l `min` length l') l' = take (length l `min` length l') l.
Proof.
  intros Hl HN Ht Hn; rewrite Hn; rewrite Hl at 3; rewrite load_list_take by lia.
  replace (length l `min` n)%nat with (length l `min` n `min` (N `min` n))%nat at 1 by lia.
  rewrite <- take_take, Ht, load_list_take by lia; done.
Qed.

Lemma krealloc_ok d cpu k B p size :
  refines k B -> allowed (ReqRealloc p size) B ->
  exists r k' B', krealloc (S (S (S (S d)))) cpu p size k = Ok (r, k') /\ answers (ReqRealloc p size) r B B' /\
    refines k' B'.
Proof.
  intros Href [Hp Hsz]; cbn [answers]; unfold krealloc.
  destruct (decide (p = 0)) as [->|Hpz]; [by apply (kmalloc_ok (S (S d)))|].
  destruct (decide (size = 0)) as [->|Hz].
  { destruct (kfree_ok d cpu k B p Href Hp) as (k' & -> & Href'); mstep; by exists 0, k', (delete p B). }
  destruct Hp as [?|[l Hl]]; [done|]; pose proof Href as (G & L & Hd & HH & HB).
  destruct (HB p l Hl) as [Hh Hload]; pose proof (hk_inv _ _ _ _ HH) as HI.
  destruct (old_size_ok k G L Hd p _ HI Hh) as (page & old & -> & -> & Hle & Hold); mstep.
  pose proof (holds_nonzero _ _ _ _ _ _ HI Hold) as Hpos.
  assert (Hop : 0 < old) by (destruct Hold as [(?&?&?&?&?&?&?&?)|(?&?&?&?&?&?)]; lia).
  case_decide as Hfits.
  - assert (Hh2 : holds k G L p size).
    { destruct Hold as [(c & gc & x & HG & Hmc & Hx & Hu & Hn)|(q & o & HL & Hnc & Ep & Hn)]; [left|right].
      - exists c, gc, x; split_and!; done || lia.
      - exists q, o; split_and!; done || lia. }
    eexists p, k, (<[p := load_list (Z.to_nat size) (k_mem k) p]> B); split; [done|].
    split; [right|by apply (refines_resize k G L Hd B p size)].
    split; [done|]; split.
    { apply (holds_clear k G L Hd (delete p B) p size HI Hh2); intros q l2 [Hne Hq]%lookup_delete_Some.
      destruct (HB q l2 Hq); auto. }
    exists l, (load_list (Z.to_nat size) (k_mem k) p); split_and!; [done|rewrite load_list_length; lia| |by rewrite insert_delete_eq].
    rewrite load_list_length, load_list_take by lia.
    by rewrite <- (load_list_take _ (length l)), Hload by lia.
  - pose proof (refines_resize k G L Hd B p old HH Hold HB) as Href1; set (B1 := <[p := _]> B) in Href1.
    destruct (kmalloc_ok (S (S d)) cpu k B1 size Href1 Hsz) as (r & k2 & B2 & -> & Hg & Href2); mstep.
    destruct Hg as [[-> ->]|(Hr & _ & Hclr & l0 & Hl0 & _ & ->)].
    + rewrite decide_True by done; exists 0, k2, B; split; [done|]; split; [by left|].
      destruct Href2 as (G2 & L2 & Hd2 & HH2 & HB2); exists G2, L2, Hd2; split; [done|].
      intros q l2 Hq; destruct (decide (q = p)) as [->|Hne].
      * assert (l2 = l) as -> by congruence; destruct (HB2 p _ (lookup_insert_eq _ _ _)) as [Hh2 Hl2].
        rewrite load_list_length in Hh2, Hl2; split.
        -- destruct Hh2 as [(c & gc & x & HG & Hmc & Hx & Hu & Hn)|(q & o & HL & Hnc & Ep & Hn)]; [left|right].
           ++ exists c, gc, x; split_and!; try done; destruct Hh as [(?&?&?&?&?&?&?&?)|(?&?&?&?&?&?)]; lia.
           ++ exists q, o; split_and!; try done; destruct Hh as [(?&?&?&?&?&?&?&?)|(?&?&?&?&?&?)]; lia.
        -- rewrite <- Hload at 2; rewrite <- (load_list_take (length l) (Z.to_nat old)) by lia.
           rewrite Hl2; by rewrite load_list_take by lia.
      * apply (HB2 q l2); unfold B1; by rewrite lookup_insert_ne.
    + rewrite decide_False by done.
      pose proof (Hclr p _ (lookup_insert_eq _ _ _)) as Hap; rewrite load_list_length, Z2Nat.id in Hap by lia.
      assert (Hrp : r ≠ p) by lia.
      set (cs := Z.min old size); rewrite decide_True by lia.
      pose proof (slab_copy_fast_ok r p (Z.to_nat cs) (k_mem k2)) as Hcp; rewrite Z2Nat.id in Hcp by lia.
      rewrite Hcp by lia; mstep; set (bs := load_list (Z.to_nat cs) (k_mem k2) p).
      assert (Hbs : length bs = Z.to_nat cs) by apply load_list_length.
      pose proof (refines_store k2 (<[r := l0]> B1) r l0 0 bs Href2 (lookup_insert_eq _ _ _)) as Href3.
      rewrite Z.add_0_r, insert_insert_eq in Href3; specialize (Href3 ltac:(lia) (load_list_range _ _ _)).
      destruct (kfree_ok d cpu _ _ p Href3) as (k4 & E4 & Href4).
      { right; rewrite lookup_insert_ne by done; unfold B1; rewrite lookup_insert_eq; eauto. }
      cbn [take app Nat.add] in E4, Href4; rewrite E4; mstep.
      set (l' := bs ++ drop (length bs) l0) in *.
      assert (El' : length l' = Z.to_nat size) by (unfold l'; rewrite length_app, length_drop; lia).
      exists r, k4, (<[r := l']> (delete p B)); split; [done|]; split.
      * right; split; [done|]; split.
        { intros q l2 [Hne Hq]%lookup_delete_Some; apply (Hclr q l2); unfold B1; by rewrite lookup_insert_ne. }
        exists l, l'; split_and!; [done|lia| |done].
        destruct Href2 as (G2 & L2 & Hd2 & HH2 & HB2).
        destruct (HB2 p (load_list (Z.to_nat old) (k_mem k) p)) as [_ Hl2].
        { rewrite lookup_insert_ne by done; apply lookup_insert_eq. }
        rewrite load_list_length in Hl2.
        apply (min_take_load l l' (Z.to_nat size) (Z.to_nat old) (k_mem k2) p); [|lia| |done].
        -- rewrite <- (load_list_take (length l) (Z.to_nat old)), Hl2, load_list_take by lia; done.
        -- unfold l'; replace (Z.to_nat old `min` Z.to_nat size)%nat with (length bs) by lia.
           rewrite take_app_length; unfold bs; by rewrite load_list_length.
      * rewrite delete_insert_ne in Href4 by done; unfold B1 in Href4; by rewrite delete_insert_eq in Href4.
Qed.

End spec.
