(* ===== verification/SlabInit.v ===== *)
(** * Slab allocator: new caches, and [slab_init] *)

From stdpp Require Import base tactics option list numbers gmap.
From Stdlib Require Import ZArith Lia.
From S2P Require Import Prelude Pmm PmmInv SlabMem Slab SlabGeom SlabInv SlabLists SlabCore.
From S2P Require Import SlabPage SlabAlloc SlabFree SlabHeap SlabTop SlabRelease SlabLarge SlabSpec.

Local Open Scope Z_scope.

(** A cache without slabs or magazines. *)
Definition no_slabs : gcache := GCache (fun _ => []) [] [] [] None [] [].
Definition new_cache (g : geometry) : cache_t :=
  Cache g 0 (Lists 0 0 0 0) (Depot 0 0 0 0) (replicate SLAB_MAX_CPUS (0, 0)).

Section init.
Context {St : Type} `{Kernel} `{!PageSource St} `{!PageLaws St}.
Implicit Types k : kmem St.

(** ** A cache joins the heap *)

Lemma new_cache_inv k c g :
  plain g -> c ≠ 0 -> k_caches k !! c = Some (new_cache g) -> cache_inv k c (new_cache g) no_slabs.
Proof.
  intros Hg Hc Hx; assert (Hm : mags (new_cache g) no_slabs = []) by reflexivity.
  pose proof (go_color _ (proj1 Hg)) as Hcol.
  split; [split; try done; try constructor|].
  - by intros [].
  - rewrite Hm; constructor.
  - rewrite Hm; constructor.
  - done.
  - done.
  - constructor.
  - constructor.
  - split; try done; cbn; lia.
Qed.

Lemma heap_add_cache k G L Hd c g :
  heap_inv k G L Hd -> G !! c = None -> c ≠ 0 -> cache_origin k L c -> plain g ->
  heap_inv (with_caches (<[c := new_cache g]> (k_caches k)) k) (<[c := no_slabs]> G) L Hd.
Proof.
  intros HI Hno Hc Ho Hg; pose proof HI as [I1 I2 I3 I4 I5 I6 I7 I8 I9 I10 I11 I12].
  set (k' := with_caches _ k).
  assert (Hm : mags (new_cache g) no_slabs = []) by reflexivity.
  assert (Hx : k_caches k' !! c = Some (new_cache g)) by apply lookup_insert_eq.
  assert (Hold : forall c2, c2 ≠ c -> k_caches k' !! c2 = k_caches k !! c2)
    by (intros c2 Hne; unfold k'; cbn; by rewrite lookup_insert_ne).
  assert (Hcases : forall c2 g2, <[c := no_slabs]> G !! c2 = Some g2 ->
    c2 = c /\ g2 = no_slabs \/ c2 ≠ c /\ G !! c2 = Some g2).
  { intros c2 g2; destruct (decide (c2 = c)) as [->|]; [rewrite lookup_insert_eq|rewrite lookup_insert_ne by done];
      [intros [= <-]|]; auto. }
  assert (Hgl : forall c2, is_Some (G !! c2) -> is_Some (<[c := no_slabs]> G !! c2)).
  { intros c2 [g2 H2]; rewrite lookup_insert_ne; [eauto|]; intros ->; congruence. }
  assert (HM : forall a, mag_origin k G a -> mag_origin k' (<[c := no_slabs]> G) a).
  { intros a [?|(gm & HGm & Hin)]; [by left|right]; exists gm.
    change (magazine_cache k') with (magazine_cache k); rewrite lookup_insert_ne by congruence; done. }
  assert (HH : forall c2 a, hdr_origin k G c2 a -> hdr_origin k' (<[c := no_slabs]> G) c2 a).
  { intros c2 a [?|(gm & HGm & Hin)]; [by left|right]; exists gm.
    change (slab_meta_cache k') with (slab_meta_cache k); rewrite lookup_insert_ne by congruence; done. }
  split; try done.
  - intros c2 g2 [[-> ->]|[Hne H2]]%Hcases; [exists (new_cache g); by apply new_cache_inv|].
    destruct (I2 c2 g2 H2) as [x2 Hc2]; exists x2.
    apply (cache_inv_frame c [] [] [] Hd k k'); try done; try (intros a Ha; by apply elem_of_nil in Ha); [|eauto].
    split; try done; cbn; lia.
  - intros c2 g2 p [[-> ->]|[Hne H2]]%Hcases Hp; [by apply elem_of_nil in Hp|eauto].
  - intros c1 c2 g1 g2 x1 x2 Hne [[-> ->]|[Hne1 H1]]%Hcases [[-> ->]|[Hne2 H2]]%Hcases Hx1 Hx2; try done.
    + assert (x1 = new_cache g) as -> by congruence; split; intros a Ha; [..|rewrite Hm in Ha]; by apply elem_of_nil in Ha.
    + assert (x2 = new_cache g) as -> by congruence; split; intros a _ Ha; [..|rewrite Hm in Ha]; by apply elem_of_nil in Ha.
    + rewrite Hold in Hx1, Hx2 by done; by eapply (I4 c1 c2).
  - intros c2 g2 x2 a [[-> ->]|[Hne H2]]%Hcases Hx2 Ha.
    + assert (x2 = new_cache g) as -> by congruence; rewrite Hm in Ha; by apply elem_of_nil in Ha.
    + rewrite Hold in Hx2 by done; eauto.
  - intros c2 g2 x2 s [[-> ->]|[Hne H2]]%Hcases Hx2 Hs Hoff; [by apply elem_of_nil in Hs|].
    rewrite Hold in Hx2 by done; eauto.
  - intros gm x2 Hgm Hx2; cbn in Hgm, Hx2; change (slab_meta_cache k') with (slab_meta_cache k) in *.
    destruct (Hcases _ _ Hgm) as [[E _]|[Hne H2]]; [|rewrite lookup_insert_ne in Hx2 by done; eauto].
    destruct (I11 (slab_meta_cache k)) as [E0|[g0 H0]]; [auto|congruence|congruence].
  - intros c2 Hc2; destruct (I11 c2 Hc2); auto.
  - intros c2 g2 [[-> ->]|[Hne H2]]%Hcases; [done|eauto].
Qed.

(** ** The magazines of a new cache *)

Lemma add_slot_ok k c x gc i l p l' p' m :
  cache_inv k c x gc -> g_skip gc = None -> c_cpus x !! i = Some (l, p) ->
  nonzero [l'; p'] ≡ₚ nonzero [m] ++ nonzero [l; p] ->
  (m = 0 \/ m ≠ 0 /\ m ∉ mags x gc /\ mag_ok (k_mags k) m /\ mag_objs (k_mags k) m = []) ->
  let x1 := set_cpu i l' p' x in let k1 := with_caches (<[c := x1]> (k_caches k)) k in
  cache_inv k1 c x1 gc /\ mags x1 gc ≡ₚ nonzero [m] ++ mags x gc.
Proof.
  intros [HC HR] Hs Hi Hnz Hm x1 k1; pose proof (ci_mags _ _ _ _ HC) as HM; pose proof HM as [M1 M2 M3 M4 M5 M6].
  assert (Hp : mags x1 gc ≡ₚ nonzero [m] ++ mags x gc).
  { destruct (mags_split x gc i l p Hi (or_introl Hs)) as (rest & E & E'); rewrite Hs in E.
    rewrite E, (E' x1 gc l' p'), Hnz by done; by rewrite <- app_assoc. }
  assert (Hz : nonzero [m] ≫= mag_objs (k_mags k) = []).
  { unfold nonzero; rewrite filter_cons; case_decide as Hz; [|done].
    destruct Hm as [->|(_ & _ & _ & E)]; [done|]; cbn; by rewrite E. }
  split; [|done]; split.
  - eapply (core_mags k); try done.
    + apply lookup_insert_eq.
    + unfold x1, set_cpu; cbn [c_cpus]; by rewrite length_insert.
    + split; try done.
      * rewrite Hp; destruct Hm as [->|(Hz' & Hno & _)]; [done|].
        unfold nonzero; rewrite filter_cons, decide_True by done; by constructor.
      * rewrite Hp; destruct Hm as [->|(Hz' & Hno & Hok & _)]; [done|].
        unfold nonzero; rewrite filter_cons, decide_True by done; by constructor.
    + cbn [with_caches k_mags k1]; rewrite Hp, bind_app, Hz; done.
  - by eapply core_at_rest_cpus.
Qed.

(** The CPUs from the [i]-th on have no magazines yet. *)
Record filling (c : Z) (g : geometry) (i : nat) k (G : gmap Z gcache) (L Hd : gmap Z nat) : Prop := {
  fl_inv : heap_inv k G L Hd;
  fl_quiet : quiet G;
  fl_cache : exists gc x, G !! c = Some gc /\ k_caches k !! c = Some x /\ c_geom x = g /\
    slabs gc = [] /\ g_user gc = [] /\ forall j, (i <= j < SLAB_MAX_CPUS)%nat -> c_cpus x !! j = Some (0, 0);
  fl_other : c ≠ magazine_cache k /\ c ≠ slab_meta_cache k
}.

(** One magazine for a slot that has none. *)
Lemma fill_slot d cpu c g cap k G L Hd gc x i l p l' p' (upd : Z -> cache_t -> cache_t) :
  heap_inv k G L Hd -> quiet G -> G !! c = Some gc -> k_caches k !! c = Some x ->
  c_geom x = g -> slabs gc = [] -> g_user gc = [] -> c_cpus x !! i = Some (l, p) ->
  c ≠ magazine_cache k -> c ≠ slab_meta_cache k -> 2 <= cap <= SLAB_MAX_MAGAZINE_SIZE ->
  (forall m, upd m x = set_cpu i (l' m) (p' m) x) ->
  (forall m, nonzero [l' m; p' m] ≡ₚ nonzero [m] ++ nonzero [l; p]) ->
  exists m k1 k' G' Hd', mag_alloc (slab_cache_alloc (S (S d)) cpu) cap k = Ok (m, k1) /\
    upd_cache c (upd m) k1 = Ok k' /\ heap_inv k' G' L Hd' /\ quiet G' /\ G' !! c = Some gc /\
    k_caches k' !! c = Some (set_cpu i (l' m) (p' m) x) /\ moves None k G L k' G'.
Proof.
  intros HI HQ HG Hx Eg Hsl Hu Hi Hmc Hmt Hcap Hupd Hnz.
  destruct (mag_alloc_ok d cpu k G L Hd cap HI Hcap) as (m & k1 & G1 & Hd1 & E & Hg & Hm).
  { intros c2 gc2 _ HG2; left; by eapply HQ. }
  destruct (gr_other Hg c) as [EG Ex]; [rewrite !elem_of_cons, elem_of_nil; tauto|].
  assert (HG1 : G1 !! c = Some gc) by congruence; assert (Hx1 : k_caches k1 !! c = Some x) by congruence.
  pose proof (gr_inv Hg) as HI1; pose proof (heap_cache HI1 c gc x HG1 Hx1) as Hci.
  destruct (add_slot_ok k1 c x gc i l p (l' m) (p' m) m Hci (HQ c gc HG) Hi (Hnz m)) as [Hci2 Hp].
  { destruct Hm as [?|[N1 N2 N3 N4 N5]]; [by left|right]; split_and!; eauto. }
  set (x2 := set_cpu i _ _ x) in *.
  destruct (add_mag_moves k1 G1 L Hd1 c gc x m x2 gc HI1 HG1 Hx1 Hci2) as [HI2 Hmv]; try done.
  rewrite (insert_id G1) in HI2, Hmv by done.
  eexists m, k1, _, G1, Hd1; split; [exact E|]; rewrite (upd_cache_ok _ _ x) by done; rewrite Hupd.
  split; [done|]; split; [exact HI2|]; split; [|split; [done|split; [apply lookup_insert_eq|]]].
  - intros c2 gc2 HG2; destruct (G !! c2) as [g0|] eqn:E2; [|apply (gr_dom Hg) in E2; congruence].
    destruct (gr_cache Hg c2 g0 E2) as (g3 & HG3 & Hs & _); pose proof (HQ c2 g0 E2); congruence.
  - exact (moves_trans None None k G L Hd k1 G1 Hd1 _ G1 HI HI1 (or_introl eq_refl) (grows_moves _ _ _ _ _ _ _ _ HI Hg) Hmv).
Qed.

Lemma give_magazines_ok d cpu c g i k G L Hd :
  filling c g i k G L Hd -> (i < SLAB_MAX_CPUS)%nat -> 2 <= c_magazine_size g <= SLAB_MAX_MAGAZINE_SIZE ->
  exists k' G' Hd', give_magazines (mag_alloc (slab_cache_alloc (S (S d)) cpu)) c (Z.of_nat i) k = Ok k' /\
    filling c g (S i) k' G' L Hd' /\ moves None k G L k' G'.
Proof.
  intros [HI HQ (gc & x & HG & Hx & Eg & Hsl & Hu & Hcpu) [Hmc Hmt]] Hi Hcap.
  unfold give_magazines; rewrite (cache_at_ok _ _ _ Hx); mstep; rewrite Eg, Nat2Z.id.
  assert (Hi0 : c_cpus x !! i = Some (0, 0)) by (apply Hcpu; lia).
  destruct (fill_slot d cpu c g (c_magazine_size g) k G L Hd gc x i 0 0 (fun m => m) (fun _ => 0)
    (fun m x => set_cpu i m ((c_cpus x !!! i).2) x)) as (m1 & k1 & k2 & G2 & Hd2 & -> & E2 & HI2 & HQ2 & HG2 & Hx2 & Hmv2); try done.
  { intros m; by rewrite (list_lookup_total_correct _ _ _ Hi0). }
  { intros m; unfold nonzero; rewrite !filter_cons; repeat case_decide; done || solve_Permutation. }
  mstep; rewrite E2; mstep; set (x2 := set_cpu i m1 0 x) in *.
  destruct (mv_globals _ _ _ _ _ _ Hmv2) as (E3 & E4 & _).
  assert (Hi2 : c_cpus x2 !! i = Some (m1, 0)).
  { unfold x2, set_cpu; cbn [c_cpus]; apply list_lookup_insert_eq; by eapply lookup_lt_Some. }
  destruct (fill_slot d cpu c g (c_magazine_size g) k2 G2 L Hd2 gc x2 i m1 0 (fun _ => m1) (fun m => m)
    (fun m x => set_cpu i ((c_cpus x !!! i).1) m x)) as (m2 & k3 & k4 & G4 & Hd4 & -> & E5 & HI4 & HQ4 & HG4 & Hx4 & Hmv4);
    try done; try congruence.
  { intros m; by rewrite (list_lookup_total_correct _ _ _ Hi2). }
  { intros m; unfold nonzero; rewrite !filter_cons; repeat case_decide; done || solve_Permutation. }
  mstep; rewrite E5; exists k4, G4, Hd4; split; [done|].
  destruct (mv_globals _ _ _ _ _ _ Hmv4) as (E6 & E7 & _).
  split; [|exact (moves_trans None None k G L Hd k2 G2 Hd2 k4 G4 HI HI2 (or_introl eq_refl) Hmv2 Hmv4)].
  split; try done; [|split; congruence].
  exists gc, (set_cpu i m1 m2 x2); split_and!; try done.
  intros j Hj; unfold x2, set_cpu; cbn [c_cpus]; rewrite !list_lookup_insert_ne by lia; apply Hcpu; lia.
Qed.

Lemma fill_loop d cpu c g n : forall i k G L Hd,
  filling c g i k G L Hd -> (i + n = SLAB_MAX_CPUS)%nat -> 2 <= c_magazine_size g <= SLAB_MAX_MAGAZINE_SIZE ->
  exists k' G' Hd', for_up n (Z.of_nat i) (give_magazines (mag_alloc (slab_cache_alloc (S (S d)) cpu)) c) k = Ok k' /\
    filling c g SLAB_MAX_CPUS k' G' L Hd' /\ moves None k G L k' G'.
Proof.
  induction n as [|n IH]; intros i k G L Hd HF Hn Hcap; cbn [for_up].
  { exists k, G, Hd; split; [done|]; replace SLAB_MAX_CPUS with i by lia; split; [done|apply moves_refl]. }
  destruct (give_magazines_ok d cpu c g i k G L Hd HF) as (k1 & G1 & Hd1 & -> & HF1 & Hm1); [lia|done|]; mstep.
  replace (Z.of_nat i + 1) with (Z.of_nat (S i)) by lia.
  destruct (IH (S i) k1 G1 L Hd1 HF1) as (k2 & G2 & Hd2 & -> & HF2 & Hm2); [lia|done|].
  exists k2, G2, Hd2; split; [done|]; split; [done|].
  exact (moves_trans None None k G L Hd k1 G1 Hd1 k2 G2 (fl_inv _ _ _ _ _ _ _ HF) (fl_inv _ _ _ _ _ _ _ HF1) (or_introl eq_refl) Hm1 Hm2).
Qed.

(** ** [slab_cache_create] *)

Definition same_globals k k' : Prop :=
  magazine_cache k' = magazine_cache k /\ slab_meta_cache k' = slab_meta_cache k /\
  kmalloc_caches k' = kmalloc_caches k.

(** The new cache [c] has the geometry [g] and no slab yet. *)
Record created (g : geometry) (c : Z) (G : gmap Z gcache) k' (G' : gmap Z gcache) : Prop := {
  cr_fresh : G !! c = None;
  cr_nonzero : c ≠ 0;
  cr_dom c2 : is_Some (G' !! c2) <-> c2 = c \/ is_Some (G !! c2);
  cr_cache : exists gc x, G' !! c = Some gc /\ k_caches k' !! c = Some x /\ c_geom x = g /\
    slabs gc = [] /\ g_user gc = []
}.

Lemma add_cache_implements k G L Hd B c g :
  implements k G L Hd B -> G !! c = None -> c ≠ 0 -> cache_origin k L c -> plain g ->
  (forall p l, B !! p = Some l -> p ≠ c) ->
  let k' := with_caches (<[c := new_cache g]> (k_caches k)) k in
  implements k' (<[c := no_slabs]> G) L Hd B /\ filling c g 0 k' (<[c := no_slabs]> G) L Hd.
Proof.
  intros [[HI HQ Hc Hcl] HB] Hno Hz Ho Hg Hne k'.
  pose proof (heap_add_cache k G L Hd c g HI Hno Hz Ho Hg) as HI'; fold k' in HI'.
  assert (HQ' : quiet (<[c := no_slabs]> G)) by (apply quiet_insert; [intros; by eapply HQ|done]).
  split; [split|].
  - split; try done; intros i c2 sz H1 H2; destruct (Hcl i c2 sz H1 H2) as [K1 K2]; split; [|done].
    intros Hz2; destruct (K1 Hz2) as (gc & x & HG & Hx & Hle); exists gc, x.
    assert (c2 ≠ c) by congruence; unfold k'; cbn; by rewrite !lookup_insert_ne.
  - intros p l Hp; destruct (HB p l Hp) as [Hh Hl]; split; [|done].
    destruct Hh as [(c2 & gc & x & HG & Hmc & Hx & Hu & Hn)|(q & o & HL & Hnc & Ep & Hn)]; [left|right].
    + assert (c2 ≠ c) by congruence; exists c2, gc, x; unfold k'; cbn; rewrite !lookup_insert_ne by done.
      split_and!; done || lia.
    + exists q, o; split; [done|]; split; [|done]; rewrite lookup_insert_ne; [done|].
      intros E; by apply (Hne p l Hp).
  - split; try done.
    + exists no_slabs, (new_cache g); split; [apply lookup_insert_eq|]; split; [apply lookup_insert_eq|].
      split_and!; try done; intros j Hj; cbn [new_cache c_cpus]; apply lookup_replicate_2; lia.
    + split; intros E; destruct (hi_globals _ _ _ _ HI c) as [?|[? ?]]; auto; congruence.
Qed.

Lemma cache_create_ok d cpu k G L Hd B name size align flags n :
  implements k G L Hd B -> 0 < size <= PMM_PAGE_SIZE -> align = 2 ^ n -> 0 <= n <= 12 ->
  exists c k' G' L' Hd', slab_cache_create (S (S d)) cpu name size align flags k = Ok (c, k') /\
    implements k' G' L' Hd' B /\ same_globals k k' /\
    (c = 0 /\ (forall c2, is_Some (G' !! c2) <-> is_Some (G !! c2)) \/
     created (slab_geometry (default unnamed name) size align flags 0 0) c G k' G').
Proof.
  intros HB Hsz Hal Hn; set (g := slab_geometry _ _ _ _ _ _).
  destruct (slab_geometry_ok (default unnamed name) size align flags 0 0 n Hsz Hal Hn) as [Hg _]; fold g in Hg.
  assert (Hpl : plain g).
  { split; [done|]; unfold g, slab_geometry, slab_layout; case_decide; done. }
  unfold slab_cache_create, slab_cache_create_with_ctor; rewrite decide_False by lia; fold g.
  assert (Hfill : forall k1 G1 L1 Hd1 c, implements k1 G1 L1 Hd1 B -> same_globals k k1 ->
    (forall c2, is_Some (G1 !! c2) <-> is_Some (G !! c2)) ->
    G1 !! c = None -> c ≠ 0 -> cache_origin k1 L1 c -> (forall p l, B !! p = Some l -> p ≠ c) ->
    exists k' G' L' Hd', (k ← for_up SLAB_MAX_CPUS 0 (give_magazines (mag_alloc (slab_cache_alloc (S (S d)) cpu)) c)
         (with_caches (<[c := new_cache g]> (k_caches k1)) k1); Ok (c, k)) = Ok (c, k') /\
      implements k' G' L' Hd' B /\ same_globals k k' /\ created g c G k' G').
  { intros k1 G1 L1 Hd1 c HB1 (S1 & S2 & S3) Hdom Hno Hz Ho Hne.
    destruct (add_cache_implements k1 G1 L1 Hd1 B c g HB1 Hno Hz Ho Hpl Hne) as [HB2 HF]; set (k2 := with_caches _ k1) in *.
    destruct (fill_loop d cpu c g SLAB_MAX_CPUS 0 k2 _ L1 Hd1 HF eq_refl (go_mag _ Hg)) as (k3 & G3 & Hd3 & E & HF3 & Hmv).
    change (Z.of_nat 0) with 0 in E; rewrite E; mstep.
    destruct HF3 as [HI3 HQ3 (gc & x & HG & Hx & Eg & Hsl & Hu & _) _].
    exists k3, G3, L1, Hd3; split; [done|]; split.
    { apply (moves_implements None k2 (<[c := no_slabs]> G1) L1 Hd1 k3 G3 Hd3 B B HB2 HI3 HQ3 Hmv).
      intros p l Hp; split; [done|]; intros c2; apply not_elem_of_nil. }
    destruct (mv_globals _ _ _ _ _ _ Hmv) as (E1 & E2 & E3); split; [split_and!; unfold k2 in *; cbn in *; congruence|].
    split; try done.
    - destruct (G !! c) eqn:E0; [|done]; destruct (proj2 (Hdom c)); [eauto|congruence].
    - intros c2; rewrite (mv_dom _ _ _ _ _ _ Hmv), <- Hdom; destruct (decide (c2 = c)) as [->|Hnc].
      + rewrite lookup_insert_eq; split; eauto.
      + rewrite lookup_insert_ne by done; split; [auto|by intros [?|?]].
    - by exists gc, x. }
  pose proof HB as [[HI HQ Hc Hcl] HB0]; pose proof (hi_counts _ _ _ _ HI) as [Hcnt _].
  case_decide as Hslot.
  - mstep; set (nb := bootstrap_cache_count k) in *; set (k1 := with_counts _ _ k).
    change (bootstrap_caches + nb * sizeof_cache) with (boot_cache nb).
    assert (Hbz : boot_cache nb ≠ 0).
    { pose proof ps_boot as [? _]; unfold boot_cache, sizeof_cache; lia. }
    rewrite decide_False by done.
    assert (Him : in_image (boot_cache nb)) by (left; exists nb; split; [lia|done]).
    assert (Hpg : forall q o, Hd !! q = Some o -> boot_cache nb ≠ page_addr q).
    { intros q o Hq E; eapply (ps_image _ _ _ _ q _ (hi_pages _ _ _ _ HI) Hq (in_block_head q o) Him).
      rewrite E; unfold in_page, PMM_PAGE_SIZE; lia. }
    destruct (Hfill k1 G L Hd (boot_cache nb)) as (k' & G' & L' & Hd' & E & HB' & Hgl & Hcr); try done.
    + split; [|exact HB0]; split; try done; [|intros i c2 sz H1 H2; destruct (Hcl i c2 sz H1 H2); by split].
      apply (heap_outside k k1 G L Hd Hd [] [] []); try done.
      * split; try done; unfold k1; cbn; lia.
      * split; intros; try done; by match goal with H : _ ∈ [] |- _ => apply elem_of_nil in H end.
      * apply HI.
    + destruct (G !! boot_cache nb) as [gc|] eqn:E; [|done].
      destruct (hi_origin _ _ _ _ HI _ gc E) as [(m & Hm & E1)|(q & o & Hq & E1)].
      * unfold boot_cache, sizeof_cache in E1; lia.
      * destruct (hi_large _ _ _ _ HI q o Hq) as [Hh _]; by destruct (Hpg q o Hh).
    + left; exists nb; split; [unfold k1; cbn; lia|done].
    + intros p l Hp ->; destruct (HB0 _ _ Hp) as [[(c2 & gc & x & HG & _ & Hx & Hu & _)|(q & o & HL & _ & E & _)] _].
      * destruct (used_page k G L Hd c2 gc (boot_cache nb) HI HG) as (x2 & s & Hx2 & Hs & Hos & _); [rewrite elem_of_app; auto|].
        by eapply (object_not_image k G L Hd c2 gc x2 s (boot_cache nb) (boot_cache nb) HI).
      * destruct (hi_large _ _ _ _ HI q o HL) as [Hh _]; by destruct (Hpg q o Hh).
    + exists (boot_cache nb), k', G', L', Hd'; split; [exact E|]; auto.
  - assert (Ek : kmalloc (S (S d)) cpu sizeof_cache k = kmalloc_large cpu sizeof_cache k) by done.
    rewrite Ek; destruct (kmalloc_large_ok cpu sizeof_cache k G L Hd HI) as (r & s & -> & Hr);
      [unfold sizeof_cache, PMM_PAGE_SIZE; lia|]; mstep.
    destruct Hr as [(-> & -> & _)|(p & o & -> & Hrz & Hfit & Hp & HLp & Hnc & HI1)].
    + rewrite decide_True by done; exists 0, (with_pm (k_pm k) k), G, L, Hd; split; [done|].
      replace (with_pm (k_pm k) k) with k by (by destruct k); split; [done|]; split; [done|left]; done.
    + rewrite decide_False by done; set (k1 := with_pm s k) in *.
      assert (HB1 : forall q l, B !! q = Some l -> holds k1 G (<[p := o]> L) q (Z.of_nat (length l)) /\ q ≠ page_addr p).
      { intros q l Hq; destruct (HB0 q l Hq) as [[(c2 & gc & x & HG & Hmc & Hx & Hu & Hle)|(q2 & o2 & HL2 & Hnc2 & -> & Hle)] _]; split.
        - left; exists c2, gc, x; split_and!; done || lia.
        - eapply (user_head_apart k1 G _ _ c2 gc q p o HI1 HG Hu), lookup_insert_eq.
        - right; exists q2, o2; rewrite lookup_insert_ne; [done|]; intros ->; congruence.
        - unfold page_addr, PMM_PAGE_SIZE; intros E2; assert (q2 = p) as -> by lia; congruence. }
      destruct (Hfill k1 G (<[p := o]> L) (<[p := o]> Hd) (page_addr p)) as (k' & G' & L' & Hd' & E & HB' & Hgl & Hcr); try done.
      * split; [split; try done; intros i c2 sz H1 H2; destruct (Hcl i c2 sz H1 H2); by split|].
        intros q l Hq; split; [by apply (HB1 q l)|by apply (HB0 q l)].
      * right; exists p, o; by rewrite lookup_insert_eq.
      * intros q l Hq; by apply (HB1 q l).
      * exists (page_addr p), k', G', L', Hd'; split; [exact E|]; auto.
Qed.

(** ** [slab_init] *)

Lemma no_null_cache k G L Hd gc : heap_inv k G L Hd -> G !! 0 = Some gc -> False.
Proof. intros HI HG; destruct (hi_cache _ _ _ _ HI 0 gc HG) as [x [HC _]]; by apply (ci_nonnull _ _ _ _ HC). Qed.

Lemma cache_inv_globals k mc mt kms c x gc : cache_inv k c x gc -> cache_inv (with_globals mc mt kms k) c x gc.
Proof.
  intros [[C1 C2 C3 C4 C5 C6 C7 C8 C9 C10 C11 C12] HR]; split; [split; try done|done].
  eapply Forall_impl; [exact C7|]; intros s [S1 S0 S2 S3 S4 S5 S6]; by split.
Qed.

(** [magazine_cache] is set. *)
Lemma set_magazine_cache k G L Hd c :
  heap_inv k G L Hd -> magazine_cache k = 0 -> slab_meta_cache k = 0 -> c = 0 \/ is_Some (G !! c) ->
  heap_inv (with_globals c (slab_meta_cache k) (kmalloc_caches k) k) G L Hd.
Proof.
  intros HI Emc Emt Hc; pose proof HI as [I1 I2 I3 I4 I5 I6 I7 I8 I9 I10 I11 I12]; split; try done.
  - intros c2 gc HG; destruct (I2 c2 gc HG) as [x Hx]; exists x; by apply cache_inv_globals.
  - intros c2 gc x a HG Hx Ha; destruct (I5 c2 gc x a HG Hx Ha) as [?|(gm & HGm & _)]; [by left|].
    rewrite Emc in HGm; by destruct (no_null_cache k G L Hd gm HI).
  - intros c2 gc x s HG Hx Hs Hoff; destruct (I6 c2 gc x s HG Hx Hs Hoff) as [[? _]|(gm & HGm & _)].
    + left; split; [done|right; exact Emt].
    + rewrite Emt in HGm; by destruct (no_null_cache k G L Hd gm HI).
  - cbn; rewrite Emt; auto.
  - cbn; intros c2 [-> | ->]; [done|left; exact Emt].
Qed.

(** [slab_meta_cache] is set, when only [magazine_cache] has slabs. *)
Lemma set_meta_cache k G L Hd c :
  heap_inv k G L Hd -> slab_meta_cache k = 0 -> c = 0 \/ is_Some (G !! c) ->
  (c ≠ 0 -> c ≠ magazine_cache k) ->
  (forall gc x, G !! c = Some gc -> k_caches k !! c = Some x ->
     c_off_slab (c_geom x) = false /\ sizeof_slab <= c_obj_size (c_geom x)) ->
  (forall c2 gc, G !! c2 = Some gc -> c2 = magazine_cache k \/ slabs gc = []) ->
  heap_inv (with_globals (magazine_cache k) c (kmalloc_caches k) k) G L Hd.
Proof.
  intros HI Emt Hc Hmc Hg Honly; pose proof HI as [I1 I2 I3 I4 I5 I6 I7 I8 I9 I10 I11 I12]; split; try done.
  - intros c2 gc HG; destruct (I2 c2 gc HG) as [x Hx]; exists x; by apply cache_inv_globals.
  - intros c2 gc x s HG Hx Hs Hoff; destruct (Honly c2 gc HG) as [->|E]; [|rewrite E in Hs; by apply elem_of_nil in Hs].
    destruct (I6 _ gc x s HG Hx Hs Hoff) as [[? _]|(gm & HGm & _)]; [left; split; [done|by left]|].
    rewrite Emt in HGm; by destruct (no_null_cache k G L Hd gm HI).
  - cbn; intros Hmz E; rewrite E in *; by destruct (Hmc Hmz).
  - cbn; intros c2 [-> | ->]; [by apply I11; left|done].
Qed.

Lemma heap_classes k G L Hd kms :
  heap_inv k G L Hd -> heap_inv (with_globals (magazine_cache k) (slab_meta_cache k) kms k) G L Hd.
Proof.
  intros HI; pose proof HI as [I1 I2 I3 I4 I5 I6 I7 I8 I9 I10 I11 I12]; split; try done.
  intros c2 gc HG; destruct (I2 c2 gc HG) as [x Hx]; exists x; by apply cache_inv_globals.
Qed.

(** The cache of a size class. *)
Lemma init_class_ok d cpu k G L Hd i sz :
  implements k G L Hd ∅ -> kmalloc_sizes !! i = Some sz ->
  exists k' G' L' Hd', init_class (S (S d)) cpu (Z.of_nat i) k = Ok k' /\ implements k' G' L' Hd' ∅.
Proof.
  intros HB Hi; unfold init_class; rewrite (zget_lookup _ _ sz) by (lia || by rewrite Nat2Z.id); mstep.
  assert (Hsz : 0 < sz <= PMM_PAGE_SIZE).
  { assert (HF : Forall (fun sz => 0 < sz <= PMM_PAGE_SIZE) kmalloc_sizes)
      by (unfold kmalloc_sizes, PMM_PAGE_SIZE; repeat constructor; lia).
    by eapply Forall_lookup_1 in HF. }
  destruct (cache_create_ok d cpu k G L Hd ∅ (Some (kmalloc_name sz)) sz 16 SLAB_FLAG_NONE 4 HB Hsz eq_refl ltac:(lia))
    as (c & k1 & G1 & L1 & Hd1 & -> & [[HI1 HQ1 Hc1 Hcl1] _] & (E1 & E2 & E3) & Hcr); mstep; rewrite Nat2Z.id.
  eexists _, G1, L1, Hd1; split; [done|]; split; [|by intros p l ?%lookup_empty_Some].
  split; try done; [by apply heap_classes|cbn; by rewrite length_insert|].
  cbn; intros j c2 sz2 Hj Hsz2; destruct (decide (j = i)) as [->|Hne].
  - rewrite list_lookup_insert_eq in Hj by (rewrite Hc1; by eapply lookup_lt_Some); injection Hj as <-.
    assert (sz2 = sz) as -> by congruence; split; intros Hz;
      (destruct Hcr as [[? _]|[Hf _ Hd2 (gc & x & HG & Hx & Eg & _)]]; [done|]).
    + exists gc, x; split_and!; try done; rewrite Eg.
      by destruct (slab_geometry_ok (kmalloc_name sz) sz 16 SLAB_FLAG_NONE 0 0 4 Hsz eq_refl ltac:(lia)) as (_ & [? _] & _).
    + intros Ec; destruct HB as [[HI _ _ _] _]; destruct (hi_globals _ _ _ _ HI c) as [?|[? ?]]; [left; cbn in Ec; congruence|done|congruence].
  - rewrite list_lookup_insert_ne in Hj by done; destruct (Hcl1 j c2 sz2 Hj Hsz2); by split.
Qed.

Lemma init_loop d cpu n : forall i k G L Hd,
  implements k G L Hd ∅ -> (i + n = length kmalloc_sizes)%nat ->
  exists k' G' L' Hd', for_up n (Z.of_nat i) (init_class (S (S d)) cpu) k = Ok k' /\ implements k' G' L' Hd' ∅.
Proof.
  induction n as [|n IH]; intros i k G L Hd HB Hn; cbn [for_up]; [by exists k, G, L, Hd|].
  destruct (lookup_lt_is_Some_2 kmalloc_sizes i) as [sz Hi]; [lia|].
  destruct (init_class_ok d cpu k G L Hd i sz HB Hi) as (k1 & G1 & L1 & Hd1 & -> & HB1); mstep.
  replace (Z.of_nat i + 1) with (Z.of_nat (S i)) by lia; apply (IH (S i) k1 G1 L1 Hd1 HB1); lia.
Qed.

(** Before [slab_init] there is nothing. *)
Lemma static_implements s : ps_ok s ∅ -> implements (slab_static s) ∅ ∅ ∅ ∅.
Proof.
  intros Hs; split; [|by intros p l ?%lookup_empty_Some].
  split; try done.
  - split; try done; try (intros; by match goal with H : ∅ !! _ = Some _ |- _ => rewrite lookup_empty in H end).
    cbn; intros c [-> | ->]; by left.
  - intros i c sz Hi _; apply lookup_replicate in Hi as [-> _]; by split.
Qed.

Lemma classes_none k G mc mt kms :
  (forall i c, kms !! i = Some c -> c = 0) ->
  forall i c sz, kms !! i = Some c -> kmalloc_sizes !! i = Some sz -> class_ok (with_globals mc mt kms k) G sz c.
Proof. intros Hz i c sz Hi _; rewrite (Hz i c Hi); by split. Qed.

(** [slab_init] sets up the allocator. *)
Lemma slab_init_refines d cpu s :
  ps_ok s ∅ -> exists k', slab_init (S (S d)) cpu (slab_static s) = Ok k' /\ refines k' ∅.
Proof.
  intros Hs; unfold slab_init; pose proof (static_implements s Hs) as HB0.
  destruct (cache_create_ok d cpu _ _ _ _ _ (Some SLAB_NAME_MAGAZINE) sizeof_bootstrap_mag 16 SLAB_FLAG_NONE 4 HB0)
    as (mc & k1 & G1 & L1 & Hd1 & -> & [[HI1 HQ1 Hc1 Hcl1] _] & (E1 & E2 & E3) & Hcr1);
    [unfold sizeof_bootstrap_mag, PMM_PAGE_SIZE; lia|done|lia|]; mstep.
  change (kmalloc_caches (slab_static s)) with (replicate (length kmalloc_sizes) 0) in E3; cbn in E1, E2.
  assert (Hkz : forall i c, kmalloc_caches k1 !! i = Some c -> c = 0) by (rewrite E3; intros i c Hi; by apply lookup_replicate in Hi as [-> _]).
  assert (Hdom1 : forall c2, is_Some (G1 !! c2) -> c2 = mc).
  { intros c2 Hc2; destruct Hcr1 as [[_ Hd]|[_ _ Hd _]]; apply Hd in Hc2; [|destruct Hc2 as [?|Hc2]; [done|]];
      destruct Hc2 as [? Hc2]; by rewrite lookup_empty in Hc2. }
  set (k2 := with_globals mc _ _ k1).
  assert (HI2 : heap_inv k2 G1 L1 Hd1).
  { apply set_magazine_cache; try done; destruct Hcr1 as [[? _]|[_ _ Hd _]]; [by left|right; apply Hd; by left]. }
  assert (HB2 : implements k2 G1 L1 Hd1 ∅).
  { split; [|by intros p l ?%lookup_empty_Some]; split; try done; by apply classes_none. }
  destruct (cache_create_ok d cpu k2 G1 L1 Hd1 ∅ (Some SLAB_NAME_METADATA) (sizeof_slab + 16 * 2) 16 SLAB_FLAG_NONE 4 HB2)
    as (mt & k3 & G3 & L3 & Hd3 & -> & [[HI3 HQ3 Hc3 Hcl3] _] & (E4 & E5 & E6) & Hcr3);
    [unfold sizeof_slab, PMM_PAGE_SIZE; lia|done|lia|]; mstep.
  change (magazine_cache k2) with mc in E4; change (slab_meta_cache k2) with (slab_meta_cache k1) in E5.
  change (kmalloc_caches k2) with (kmalloc_caches k1) in E6; rewrite <- E6 in Hkz.
  set (k4 := with_globals _ mt _ k3).
  assert (HI4 : heap_inv k4 G3 L3 Hd3).
  { apply set_meta_cache; try done; try congruence.
    - destruct Hcr3 as [[? _]|[_ _ Hd _]]; [by left|right; apply Hd; by left].
    - intros Hz E; rewrite E4 in E; destruct Hcr3 as [[? _]|[Hf Hz3 Hd _]]; [done|].
      destruct (hi_globals _ _ _ _ HI2 mc) as [?|[g Hg]]; [by left|congruence|congruence].
    - intros gc x HG Hx; destruct Hcr3 as [[-> _]|[_ _ _ (gc' & x' & HG' & Hx' & Eg & _)]].
      + by destruct (no_null_cache k3 G3 L3 Hd3 gc HI3).
      + assert (x' = x) as -> by congruence; rewrite Eg; split; [done|]; by vm_compute.
    - intros c2 gc HG; rewrite E4; destruct Hcr3 as [[_ Hd]|[_ _ Hd (gc' & x' & HG' & Hx' & Eg & Hsl & _)]].
      + left; apply Hdom1, Hd; eauto.
      + destruct (proj1 (Hd c2)) as [->|Hc2]; [eauto| |left; by apply Hdom1].
        right; by assert (gc = gc') as -> by congruence. }
  assert (HB4 : implements k4 G3 L3 Hd3 ∅).
  { split; [|by intros p l ?%lookup_empty_Some]; split; try done; by apply classes_none. }
  destruct (init_loop d cpu (length kmalloc_sizes) 0 k4 G3 L3 Hd3 HB4 eq_refl) as (k5 & G5 & L5 & Hd5 & E & HB5).
  exists k5; split; [exact E|]; by exists G5, L5, Hd5.
Qed.

End init.
