(* ===== verification/PmmHeld.v ===== *)
(** * Blocks of pages in the hands of a client

    What [PmmTheorems] shows of mem/pmm.c in the form in which a client that knows of the
    blocks [Hd] uses it; and the writes of such a client to the flags, the order and the
    reference count of a [page_t].  [SlabPmm] and [MmuPmm] build on it. *)

From stdpp Require Import base tactics option list numbers gmap.
From Stdlib Require Import ZArith Lia.
From S2P Require Import Prelude Pmm PmmLists PmmInv PmmSpec PmmTheorems SlabMem Slab.

Local Open Scope Z_scope.

(** ** Writes to a descriptor *)

Lemma inv_descs s B L D q g g' :
  inv s B L D -> pages_array s !! q = Some g -> links g' = links g ->
  descs_ok (total_page_count s) (<[q := g']> (pages_array s)) B ->
  inv (with_pages s (<[q := g']> (pages_array s))) B L D.
Proof.
  intros [HL HB HD HF HP HC] Hg Hl Hd; split; try done.
  apply lists_rep_pages; [done|]; by apply (links_insert (pages_array s) q g (fun _ => g')).
Qed.

(** One descriptor is changed in a way that the blocks allow. *)
Lemma descs_write T P B q g g' :
  descs_ok T P B -> P !! q = Some g -> pg_zone g' = pg_zone g ->
  (forall o k, B !! q = Some (o, k) -> kind_ok o k g') ->
  (free_looking g' -> (exists o, B !! q = Some (o, KFree) \/ B !! q = Some (o, KHeld)) \/
     (exists p o k, B !! p = Some (o, k) /\ p < q < p + pow2 o)) ->
  descs_ok T (<[q := g']> P) B.
Proof.
  intros [D1 D2 D3 D4] Hg Hz Hk Hs; split.
  - intros x; rewrite <- D1; destruct (decide (x = q)) as [->|]; [rewrite lookup_insert_eq, Hg; split; eauto|].
    by rewrite lookup_insert_ne.
  - intros x y; destruct (decide (x = q)) as [->|]; [rewrite lookup_insert_eq; intros [= <-]; rewrite Hz; by apply D2|].
    rewrite lookup_insert_ne by done; apply D2.
  - intros x o k y Hx; destruct (decide (x = q)) as [->|]; [rewrite lookup_insert_eq; intros [= <-]; by apply Hk|].
    rewrite lookup_insert_ne by done; by apply D3.
  - intros x y; destruct (decide (x = q)) as [->|]; [rewrite lookup_insert_eq; intros [= <-]; apply Hs|].
    rewrite lookup_insert_ne by done; apply D4.
Qed.

(** Writing flags or order of a page of a block in use. *)
Lemma inv_write s B L D p o q g f :
  inv s B L D -> owned B p o -> in_block p o q -> pages_array s !! q = Some g ->
  links (f g) = links g -> pg_zone (f g) = pg_zone g -> (q = p -> kind_ok o KAlloc (f g)) ->
  inv (with_pages s (<[q := f g]> (pages_array s))) B L D.
Proof.
  intros HI Hp Hq Hg Hl Hz Hk; eapply inv_descs; [done..|].
  eapply descs_write; [apply HI|done|done|..]; destruct (decide (q = p)) as [->|Hne].
  - intros o' k' Hb; unfold owned in Hp; simplify_eq; auto.
  - intros o' k' Hb; destruct Hne; eapply (bo_disj _ _ (i_blocks _ _ _ _ HI)); [exact Hb|exact Hp| |done].
    unfold in_block; pose proof (pow2_pos o'); lia.
  - intros [Hf _]; destruct (Hk eq_refl); congruence.
  - intros _; right; exists p, o, KAlloc; split; [done|]; unfold in_block in Hq; lia.
Qed.

(** Marking any page that is not free. *)
Lemma inv_mark s B L D q g f :
  inv s B L D -> pages_array s !! q = Some g -> has_flag (pg_flags g) PAGE_FLAG_FREE = false ->
  has_flag f PAGE_FLAG_FREE = false ->
  inv (with_pages s (<[q := set_state (pg_order g) f (pg_refcount g) g]> (pages_array s))) B L D.
Proof.
  intros HI Hg Hf Hf'; eapply inv_descs; [done..|]; eapply descs_write; [apply HI|done|done|..].
  - intros o k Hb; pose proof (do_kind _ _ _ (i_descs _ _ _ _ HI) _ _ _ _ Hb Hg) as Hk.
    destruct k; cbn in *; try done; [|by destruct Hk..].
    destruct Hk as (E & _); rewrite E in Hf; by vm_compute in Hf.
  - intros [Hx _]; cbn in Hx; congruence.
Qed.

(** ** The blocks of a client *)

Section held.
(** The order of a block and its references, from the client's note of it. *)
Variables (ord : nat -> nat) (refs : nat -> Z).

Record held (s : pmm) (Hd : gmap Z nat) (B : blocks) : Prop := {
  hd_ok : pmm_ok s B;
  hd_owned p o : Hd !! p = Some o -> owned B p (ord o);
  hd_ref p o g : Hd !! p = Some o -> pages_array s !! p = Some g -> pg_refcount g = refs o
}.

Lemma held_none s B : pmm_ok s B -> held s ∅ B.
Proof. intros Hok; split; [done|..]; intros p o *; by rewrite lookup_empty. Qed.

Lemma held_frame s Hd B p o q : held s Hd B -> Hd !! p = Some o -> in_block p (ord o) q ->
  0 <= q < total_page_count s /\ exists g, pages_array s !! q = Some g.
Proof.
  intros [[_ [L HI]] Ho _] Hp Hq; pose proof (Ho p o Hp) as Hb.
  destruct (bo_wf _ _ (i_blocks _ _ _ _ HI) _ _ _ Hb) as [_ B2 _ B4 _].
  unfold in_block in Hq; split; [lia|].
  destruct (proj2 (do_dom _ _ _ (i_descs _ _ _ _ HI) q)) as [g Hg]; [lia|eauto].
Qed.

Lemma held_pfn s Hd B p o q : held s Hd B -> Hd !! p = Some o -> in_block p (ord o) q -> pfn_to_page s q = Some q.
Proof.
  intros HB Hp Hq; destruct (held_frame _ _ _ _ _ _ HB Hp Hq) as [Hr [g Hg]].
  unfold pfn_to_page; rewrite decide_False; [done|]; intros [?|E]; [lia|]; rewrite E in Hg; by rewrite lookup_empty in Hg.
Qed.

Lemma held_paddr s Hd B p o q : held s Hd B -> Hd !! p = Some o -> in_block p (ord o) q ->
  pmm_paddr_to_page s (q * PMM_PAGE_SIZE) = Some q.
Proof.
  intros HB Hp Hq; unfold pmm_paddr_to_page, PMM_PAGE_SHIFT, PMM_PAGE_SIZE.
  rewrite Z.shiftr_div_pow2 by lia; change (2 ^ 12) with 4096; rewrite Z.div_mul by lia; by eapply held_pfn.
Qed.

(** Two states agree on what a client reads of a page. *)
Lemma same_desc_reads s s' q : desc <$> pages_array s' !! q = desc <$> pages_array s !! q ->
  ps_flags s' q = ps_flags s q /\ ps_order s' q = ps_order s q.
Proof.
  cbn; unfold page_at; destruct (pages_array s' !! q) as [g'|], (pages_array s !! q) as [g|]; try done.
  intros [= E1 E2 E3 E4]; cbn; by rewrite E1, E3.
Qed.

Lemma same_desc_ref s s' q g : desc <$> pages_array s' !! q = desc <$> pages_array s !! q ->
  pages_array s' !! q = Some g -> exists g0, pages_array s !! q = Some g0 /\ pg_refcount g = pg_refcount g0.
Proof.
  intros E Hg; rewrite Hg in E; destruct (pages_array s !! q) as [g0|]; [|done]; exists g0; split; [done|].
  by injection E as _ E _ _.
Qed.

Lemma held_alloc s Hd B cpu o flags : held s Hd B -> has_flag flags PAGE_FLAG_FREE = false -> refs o = 1 ->
  exists r s', ps_alloc cpu (ord o) flags s = Ok (r, s') /\
    match r with
    | None => s' = s
    | Some p => Hd !! p = None /\ ps_flags s' p = Ok (Z.land flags (Z.lnot PAGE_FLAG_ZERO)) /\
        (forall q o', Hd !! q = Some o' -> ps_flags s' q = ps_flags s q /\ ps_order s' q = ps_order s q) /\
        exists B', held s' (<[p := o]> Hd) B' /\ same_machine s s' B B'
    end.
Proof.
  intros HB Hfl Hro; destruct (alloc_order_ok s B cpu (ord o) flags (hd_ok _ _ _ HB) Hfl) as (r & s' & ev & E & Hr).
  exists r, s'; split; [cbn; by rewrite E|]; destruct r as [p|]; [|by destruct Hr].
  destruct Hr as (_ & _ & _ & _ & B' & Hok' & [P1 P2 P3 P4 (gp & Hgp & Hfp & Hrp)]).
  assert (Hn : Hd !! p = None).
  { destruct (Hd !! p) as [o'|] eqn:Eo; [|done]; by destruct (P2 (ord o')); apply (hd_owned _ _ _ HB). }
  split; [done|]; split; [|split; [|exists B'; split; [|done]]].
  - cbn; unfold page_at; rewrite Hgp; cbn; by rewrite Hfp.
  - intros q o' Hq; apply same_desc_reads, (P4 q (ord o')); by apply (hd_owned _ _ _ HB).
  - split; [done|..].
    + intros q o'; destruct (decide (q = p)) as [->|Hne].
      * rewrite lookup_insert_eq; intros [= <-]; apply P1; auto.
      * rewrite lookup_insert_ne by done; intros Hq; apply P1; right; by apply (hd_owned _ _ _ HB).
    + intros q o' g; destruct (decide (q = p)) as [->|Hne]; [rewrite lookup_insert_eq; intros [= <-] Hg; congruence|].
      rewrite lookup_insert_ne by done; intros Hq Hg.
      destruct (same_desc_ref s s' q g (P4 q (ord o') (hd_owned _ _ _ HB q o' Hq)) Hg) as (g0 & Hg0 & ->).
      by apply (hd_ref _ _ _ HB q o').
Qed.

Lemma held_free s Hd B cpu p o : held s Hd B -> Hd !! p = Some o -> refs o = 1 ->
  exists s', ps_free cpu (Some p) (ord o) s = Ok s' /\
    (forall q o', q ≠ p -> Hd !! q = Some o' -> ps_flags s' q = ps_flags s q /\ ps_order s' q = ps_order s q) /\
    exists B', held s' (delete p Hd) B' /\ same_machine s s' B B'.
Proof.
  intros HB Hp Hro; destruct (free_order_ok s B cpu p (ord o) (hd_ok _ _ _ HB) (hd_owned _ _ _ HB p o Hp)) as (g & s' & Hg & E & Hr).
  exists s'; split; [exact E|]; unfold free_result in Hr; rewrite (hd_ref _ _ _ HB p o g Hp Hg), Hro in Hr.
  rewrite decide_False in Hr by lia; destruct Hr as (B' & Hok' & [P1 P2 P3]); split; [|exists B'; split; [|done]].
  - intros q o' Hne Hq; apply same_desc_reads, (P3 q (ord o')); [by apply (hd_owned _ _ _ HB)|done].
  - split; [done|..].
    + intros q o' [Hne Hq]%lookup_delete_Some; apply P1; split; [by apply (hd_owned _ _ _ HB)|done].
    + intros q o' g' [Hne Hq]%lookup_delete_Some Hg'.
      destruct (same_desc_ref s s' q g' (P3 q (ord o') (hd_owned _ _ _ HB q o' Hq) (not_eq_sym Hne)) Hg') as (g0 & Hg0 & ->).
      by apply (hd_ref _ _ _ HB q o').
Qed.

(** A descriptor is written; the client notes [n] for its block. *)
Lemma held_pages s Hd Hd' B q g g' :
  held s Hd B -> pages_array s !! q = Some g ->
  (forall p o, Hd' !! p = Some o -> p ≠ q -> Hd !! p = Some o) ->
  (forall o, Hd' !! q = Some o -> pg_refcount g' = refs o /\ owned B q (ord o)) ->
  (forall L, inv s B L D0 -> inv (with_pages s (<[q := g']> (pages_array s))) B L D0) ->
  held (with_pages s (<[q := g']> (pages_array s))) Hd' B.
Proof.
  intros [[Hs [L HI]] Ho Href] Hg H1 H2 Hi; split; [split; [done|exists L; by apply Hi]|..].
  - intros p o Hp; destruct (decide (p = q)) as [->|]; [by apply H2|auto].
  - intros x o' y Hx; cbn; destruct (decide (x = q)) as [->|Hne].
    + rewrite lookup_insert_eq; intros [= <-]; by apply H2.
    + rewrite lookup_insert_ne by done; apply (Href x o'); auto.
Qed.

Lemma held_same s Hd B q g g' :
  held s Hd B -> pages_array s !! q = Some g -> pg_refcount g' = pg_refcount g ->
  (forall L, inv s B L D0 -> inv (with_pages s (<[q := g']> (pages_array s))) B L D0) ->
  held (with_pages s (<[q := g']> (pages_array s))) Hd B.
Proof.
  intros HB Hg Hr Hi; eapply held_pages; eauto; intros o Ho; rewrite Hr; split; [by apply (hd_ref _ _ _ HB q)|by apply HB].
Qed.

(** Marking any page that is not free. *)
Lemma held_touch s Hd B q f f' :
  held s Hd B -> ps_flags s q = Ok f -> has_flag f PAGE_FLAG_FREE = false -> has_flag f' PAGE_FLAG_FREE = false ->
  exists s', ps_set_flags q f' s = Ok s' /\ held s' Hd B /\ same_machine s s' B B /\
    ps_flags s' q = Ok f' /\ (forall q', q' ≠ q -> ps_flags s' q' = ps_flags s q').
Proof.
  intros HB; cbn; unfold page_at; destruct (pages_array s !! q) as [g|] eqn:Hg; [|done]; cbn; intros [= <-] Hf Hf'.
  rewrite (upd_page_ok _ _ _ g) by done; eexists; split; [done|]; split; [|split; [done|]].
  - eapply held_same; try done; intros L HI; by apply inv_mark.
  - cbn; split; [by rewrite lookup_insert_eq|]; intros q' Hne; by rewrite lookup_insert_ne.
Qed.

(** One more reference to a block. *)
Lemma held_more s Hd B p o o' :
  held s Hd B -> Hd !! p = Some o -> ord o' = ord o -> refs o' = refs o + 1 -> refs o' < 2 ^ 32 ->
  exists s', upd_page s p (fun g => set_refcount (u32 (pg_refcount g + 1)) g) = Ok s' /\ held s' (<[p := o']> Hd) B /\
    same_machine s s' B B /\ (forall q, ps_flags s' q = ps_flags s q).
Proof.
  intros HB Hp Ho Hr Hlt; pose proof (hd_owned _ _ _ HB p o Hp) as Hb.
  destruct (held_frame _ _ _ p o p HB Hp) as [_ [g Hg]]; [unfold in_block; pose proof (pow2_pos (ord o)); lia|].
  rewrite (upd_page_ok _ _ _ g) by done; eexists; split; [done|]; pose proof (hd_ref _ _ _ HB p o g Hp Hg) as Er.
  destruct (hd_ok _ _ _ HB) as [_ [L0 HI0]]; destruct (do_kind _ _ _ (i_descs _ _ _ _ HI0) _ _ _ _ Hb Hg) as (K1 & K2 & K3).
  assert (Eu : u32 (pg_refcount g + 1) = refs o') by (rewrite u32_small; lia).
  split; [|split; [done|]].
  - apply (held_pages s Hd _ B p g); try done.
    + intros x y; by intros Hx Hn; rewrite lookup_insert_ne in Hx.
    + intros y; rewrite lookup_insert_eq; intros [= <-]; cbn; by rewrite Eu, Ho.
    + intros L HI; apply (inv_write s B L D0 p (ord o) p g (fun g => set_refcount (u32 (pg_refcount g + 1)) g)); try done.
      * unfold in_block; pose proof (pow2_pos (ord o)); lia.
      * intros _; cbn; rewrite Eu; split_and!; try done; lia.
  - intros q; cbn; unfold page_at; cbn; destruct (decide (q = p)) as [->|]; [by rewrite lookup_insert_eq, Hg|by rewrite lookup_insert_ne].
Qed.

(** One of several references to a block is dropped. *)
Lemma held_drop s Hd B cpu p o o' :
  held s Hd B -> Hd !! p = Some o -> ord o' = ord o -> refs o = refs o' + 1 -> 1 < refs o ->
  exists s', pmm_free_order s cpu (Some p) (ord o) = Ok s' /\ held s' (<[p := o']> Hd) B /\
    same_machine s s' B B /\ (forall q, ps_flags s' q = ps_flags s q).
Proof.
  intros HB Hp Ho Hr H1; destruct (free_order_ok s B cpu p (ord o) (hd_ok _ _ _ HB) (hd_owned _ _ _ HB p o Hp)) as (g & s' & Hg & E & HR).
  exists s'; split; [exact E|]; pose proof (hd_ref _ _ _ HB p o g Hp Hg) as Er.
  unfold free_result in HR; rewrite decide_True in HR by lia; destruct HR as [Hok [D1 D2 D3]]; specialize (D3 g Hg).
  split; [split; [done|..]|split; [done|]].
  - intros q x [[<- <-]|[_ Hq]]%lookup_insert_Some; [rewrite Ho; by apply (hd_owned _ _ _ HB)|by apply (hd_owned _ _ _ HB)].
  - intros q x y [[<- <-]|[Hne Hq]]%lookup_insert_Some; [rewrite D3; intros [= <-]; cbn; lia|].
    rewrite D2 by done; by apply (hd_ref _ _ _ HB q x).
  - intros q; cbn; unfold page_at; destruct (decide (q = p)) as [->|]; [by rewrite D3, Hg|by rewrite D2].
Qed.

End held.
