(* ===== verification/SlabPmm.v ===== *)
(** * The page allocator keeps the promises the slab allocator relies on

    [PageLaws] for the model of mem/pmm.c: what [PmmTheorems] shows of
    [pmm_alloc_order] and [pmm_free_order], and the writes to a [page_t]'s flags and
    order from slab.c. *)

From stdpp Require Import base tactics option list numbers gmap.
From Stdlib Require Import ZArith Lia.
From S2P Require Import Prelude Pmm PmmLists PmmInv PmmSpec PmmTheorems SlabMem Slab PmmHeld SlabGeom SlabInv.

Local Open Scope Z_scope.

(** The two static arrays of slab.c are somewhere. *)
Class GoodKernel `{Kernel} := { gk_boot : 0 < bootstrap_caches /\ 0 < bootstrap_magazines }.

Section laws.
Context `{Kernel} `{!GoodKernel}.

(** Callers hold the blocks [Hd], each with one reference; the direct map is where the
    slab allocator takes it to be, and does not contain its static arrays. *)
Record pmm_holds (s : pmm) (Hd : gmap Z nat) (B : blocks) : Prop := {
  ph_held : held (fun o => o) (fun _ => 1) s Hd B;
  ph_base : pmm_direct_map_base s = hhdm_offset;
  ph_range : 0 < hhdm_offset /\ hhdm_offset + total_page_count s * PMM_PAGE_SIZE <= 2 ^ 64;
  ph_image a q : in_image a -> 0 <= q < total_page_count s -> ~ in_page q a
}.

Definition pmm_ps_ok (s : pmm) (Hd : gmap Z nat) : Prop := exists B, pmm_holds s Hd B.

Lemma pmm_place s Hd p o q : pmm_ps_ok s Hd -> Hd !! p = Some o -> in_block p o q ->
  0 <= q /\ (q + 1) * PMM_PAGE_SIZE <= 2 ^ 64 /\
  0 < page_addr q /\ page_addr q + PMM_PAGE_SIZE <= 2 ^ 64.
Proof.
  intros [B HB] Hp Hq; destruct (held_frame _ _ _ _ _ _ _ _ (ph_held _ _ _ HB) Hp Hq) as [Hr _]; destruct (ph_range _ _ _ HB).
  unfold page_addr, PMM_PAGE_SIZE in *; lia.
Qed.

Lemma pmm_apart s Hd p o p' o' q : pmm_ps_ok s Hd -> Hd !! p = Some o -> Hd !! p' = Some o' ->
  in_block p o q -> in_block p' o' q -> p = p'.
Proof.
  intros [B [[[_ [L HI]] Ho _] _ _ _]] Hp Hp' Hq Hq'.
  eapply (bo_disj _ _ (i_blocks _ _ _ _ HI)); [by apply Ho|by apply Ho|done|done].
Qed.

Lemma pmm_image s Hd p o q a : pmm_ps_ok s Hd -> Hd !! p = Some o -> in_block p o q -> in_image a -> ~ in_page q a.
Proof.
  intros [B HB] Hp Hq Ha; destruct (held_frame _ _ _ _ _ _ _ _ (ph_held _ _ _ HB) Hp Hq) as [Hr _]; by apply (ph_image _ _ _ HB).
Qed.

Lemma pmm_paddr s Hd p o q : pmm_ps_ok s Hd -> Hd !! p = Some o -> in_block p o q ->
  pmm_paddr_to_page s (q * PMM_PAGE_SIZE) = Some q.
Proof. intros [B HB] Hp Hq; eapply held_paddr; [apply HB|done..]. Qed.

Lemma pmm_vaddr s Hd p o q a : pmm_ps_ok s Hd -> Hd !! p = Some o -> in_block p o q -> in_page q a ->
  pmm_vaddr_to_page s a = Some q.
Proof.
  intros [B HB] Hp Hq Ha; destruct (held_frame _ _ _ _ _ _ _ _ (ph_held _ _ _ HB) Hp Hq) as [Hr _]; destruct (ph_range _ _ _ HB) as [R1 R2].
  unfold pmm_vaddr_to_page; rewrite (ph_base _ _ _ HB); unfold in_page, page_addr, PMM_PAGE_SIZE in *.
  rewrite decide_False by lia; rewrite u64_small by lia; unfold pmm_paddr_to_page, PMM_PAGE_SHIFT.
  rewrite Z.shiftr_div_pow2 by lia; change (2 ^ 12) with 4096.
  replace ((a - hhdm_offset) `div` 4096) with q by (apply Z.div_unique with (a - hhdm_offset - q * 4096); lia).
  eapply held_pfn; [apply HB|done..].
Qed.

Lemma pmm_desc s Hd p o q : pmm_ps_ok s Hd -> Hd !! p = Some o -> in_block p o q ->
  exists f o', ps_flags s q = Ok f /\ ps_order s q = Ok o' /\ (q = p -> o' = o).
Proof.
  intros [B HB] Hp Hq; destruct (held_frame _ _ _ _ _ _ _ _ (ph_held _ _ _ HB) Hp Hq) as [_ [g Hg]].
  exists (pg_flags g), (pg_order g); cbn; unfold page_at; rewrite Hg; split_and!; try done; intros ->.
  destruct HB as [[H1 H2 _] _ _ _]; eapply pmm_ok_order; [exact H1|by apply H2|done].
Qed.

Lemma pmm_machine s s' Hd Hd' B B' :
  pmm_holds s Hd B -> same_machine s s' B B' -> held (fun o => o) (fun _ => 1) s' Hd' B' -> pmm_ps_ok s' Hd'.
Proof. intros HB [_ M2 _ _ M5] Hh; exists B'; split; [done|..]; rewrite ?M2, ?M5; apply HB. Qed.

Lemma pmm_alloc_law s Hd cpu o : pmm_ps_ok s Hd ->
  exists r s', ps_alloc cpu o PAGE_FLAG_KERNEL s = Ok (r, s') /\
    match r with
    | None => s' = s
    | Some p => Hd !! p = None /\ pmm_ps_ok s' (<[p := o]> Hd) /\
        ps_flags s' p = Ok PAGE_FLAG_KERNEL /\
        (forall q o', Hd !! q = Some o' -> ps_flags s' q = ps_flags s q /\ ps_order s' q = ps_order s q)
    end.
Proof.
  intros [B HB]; destruct (held_alloc _ _ s Hd B cpu o PAGE_FLAG_KERNEL (ph_held _ _ _ HB) eq_refl eq_refl) as (r & s' & E & Hr).
  exists r, s'; split; [done|]; destruct r as [p|]; [|done]; destruct Hr as (Hn & Hf & Hs & B' & HB' & HM).
  split_and!; try done; by eapply pmm_machine.
Qed.

Lemma pmm_free_law s Hd cpu p o : pmm_ps_ok s Hd -> Hd !! p = Some o ->
  exists s', ps_free cpu (Some p) o s = Ok s' /\ pmm_ps_ok s' (delete p Hd) /\
    forall q o', q ≠ p -> Hd !! q = Some o' -> ps_flags s' q = ps_flags s q /\ ps_order s' q = ps_order s q.
Proof.
  intros [B HB] Hp; destruct (held_free _ _ s Hd B cpu p o (ph_held _ _ _ HB) Hp eq_refl) as (s' & E & Hs & B' & HB' & HM).
  exists s'; split_and!; try done; by eapply pmm_machine.
Qed.

(** A page of a block in use with other flags, or another order. *)
Lemma pmm_write_law s Hd p o q g f : pmm_ps_ok s Hd -> Hd !! p = Some o -> in_block p o q ->
  pages_array s !! q = Some g -> links (f g) = links g -> pg_zone (f g) = pg_zone g ->
  pg_refcount (f g) = pg_refcount g -> has_flag (pg_flags (f g)) PAGE_FLAG_FREE = has_flag (pg_flags g) PAGE_FLAG_FREE ->
  (q = p -> pg_order (f g) = o) -> pmm_ps_ok (with_pages s (<[q := f g]> (pages_array s))) Hd.
Proof.
  intros [B HB] Hp Hq Hg Hl Hz Hr Hf Ho; exists B; split; try apply HB; pose proof (ph_held _ _ _ HB) as [H1 H2 H3].
  eapply held_same; try done; intros L HI; apply (inv_write s B L D0 p o q g f); try done; [by apply H2|]; intros ->.
  destruct (do_kind _ _ _ (i_descs _ _ _ _ HI) _ _ _ _ (H2 p o Hp) Hg) as (K1 & K2 & K3).
  split; [by rewrite Hf|]; split; [by rewrite Hr|auto].
Qed.

Lemma pmm_set_flags_law s Hd p o q f f' : pmm_ps_ok s Hd -> Hd !! p = Some o -> in_block p o q ->
  ps_flags s q = Ok f -> has_flag f' PAGE_FLAG_FREE = has_flag f PAGE_FLAG_FREE ->
  exists s', ps_set_flags q f' s = Ok s' /\ pmm_ps_ok s' Hd /\ ps_flags s' q = Ok f' /\
    (forall q', q' ≠ q -> ps_flags s' q' = ps_flags s q') /\ (forall q', ps_order s' q' = ps_order s q').
Proof.
  intros Hs Hp Hq; pose proof Hs as [B HB]; destruct (held_frame _ _ _ _ _ _ _ _ (ph_held _ _ _ HB) Hp Hq) as [_ [g Hg]].
  cbn; unfold page_at; rewrite Hg; cbn; intros [= <-] Hf; rewrite (upd_page_ok _ _ _ g) by done.
  eexists; split; [done|]; split.
  - apply (pmm_write_law s Hd p o q g (fun g => set_state (pg_order g) f' (pg_refcount g) g)); try done.
    intros ->; cbn; destruct HB as [[H1 H2 _] _ _ _]; exact (pmm_ok_order s B p o g H1 (H2 p o Hp) Hg).
  - cbn; split; [by rewrite lookup_insert_eq|]; split.
    + intros q' Hne; by rewrite lookup_insert_ne.
    + intros q'; destruct (decide (q' = q)) as [->|]; [by rewrite lookup_insert_eq, Hg|by rewrite lookup_insert_ne].
Qed.

Lemma pmm_set_order_law s Hd p o q : pmm_ps_ok s Hd -> Hd !! p = Some o -> in_block p o q ->
  exists s', ps_set_order q o s = Ok s' /\ pmm_ps_ok s' Hd /\
    (forall q', ps_flags s' q' = ps_flags s q') /\ (forall q', q' ≠ q -> ps_order s' q' = ps_order s q').
Proof.
  intros Hs Hp Hq; pose proof Hs as [B HB]; destruct (held_frame _ _ _ _ _ _ _ _ (ph_held _ _ _ HB) Hp Hq) as [_ [g Hg]].
  cbn; unfold page_at; rewrite (upd_page_ok _ _ _ g) by done; eexists; split; [done|]; split.
  - by apply (pmm_write_law s Hd p o q g (fun g => set_state o (pg_flags g) (pg_refcount g) g)).
  - cbn; split.
    + intros q'; destruct (decide (q' = q)) as [->|]; [by rewrite lookup_insert_eq, Hg|by rewrite lookup_insert_ne].
    + intros q' Hne; by rewrite lookup_insert_ne.
Qed.

End laws.

#[export] Instance pmm_laws `{Kernel} `{!GoodKernel} : PageLaws pmm := {
  ps_ok := pmm_ps_ok;
  ps_boot := gk_boot;
  ps_place := pmm_place;
  ps_apart := pmm_apart;
  ps_image := pmm_image;
  ps_paddr := pmm_paddr;
  ps_vaddr := pmm_vaddr;
  ps_desc := pmm_desc;
  ps_alloc_ok := pmm_alloc_law;
  ps_free_ok := pmm_free_law;
  ps_set_flags_ok := pmm_set_flags_law;
  ps_set_order_ok := pmm_set_order_law
}.
