(* ===== verification/SlabSession.v ===== *)
(** * Slab allocator: clients of the heap

    A client is a function from the answers it has got so far to its next request.  The
    store of disjoint blocks of [SlabSpec] says which answers it may get; a client that
    keeps to the contract whatever the answers can
    make any number of requests to the allocator. *)

From stdpp Require Import base tactics option list numbers gmap.
From Stdlib Require Import ZArith Lia.
From S2P Require Import Prelude Pmm PmmInv SlabMem Slab SlabGeom SlabInv SlabLists SlabCore.
From S2P Require Import SlabPage SlabAlloc SlabFree SlabHeap SlabTop SlabRelease SlabLarge SlabSpec.
From S2P Require Import SlabInit.

Local Open Scope Z_scope.

(** The next request and the CPU that makes it, or nothing more to ask; the answers so
    far, the latest first. *)
Abbreviation client := (list Z -> option (nat * kreq)).

(** The runs of a client on the store of blocks. *)
Inductive run (c : client) : list Z -> bstore -> Prop :=
  | run_start : run c [] ∅
  | run_step h B cpu q r B' :
      run c h B -> c h = Some (cpu, q) -> answers q r B B' -> run c (r :: h) B'.

(** Whatever the answers, the client asks only for what it may. *)
Definition well_behaved (c : client) : Prop :=
  forall h B cpu q, run c h B -> c h = Some (cpu, q) -> allowed q B.

Section session.
Context {St : Type} `{Kernel} `{!PageSource St} `{!PageLaws St}.
Implicit Types k : kmem St.

(** At most [n] requests of the client. *)
Fixpoint session (n depth : nat) (c : client) (h : list Z) k : res (list Z * kmem St) :=
  match n with
  | O => Ok (h, k)
  | S n =>
      match c h with
      | None => Ok (h, k)
      | Some (cpu, q) => '(r, k) ← serve depth cpu q k; session n depth c (r :: h) k
      end
  end.

(** One request. *)
Lemma serve_ok d cpu k B q :
  refines k B -> allowed q B ->
  exists r k' B', serve (S (S (S (S d)))) cpu q k = Ok (r, k') /\ answers q r B B' /\ refines k' B'.
Proof.
  intros Href Hq; destruct q as [size|size|n size|p|p size|p i bs|p i]; cbn [serve allowed answers] in *.
  - by apply kmalloc_ok.
  - by apply kzalloc_ok.
  - by apply (kcalloc_ok (S (S d))).
  - destruct (kfree_ok d cpu k B p Href Hq) as (k' & -> & Href'); mstep; by exists 0, k', (delete p B).
  - by apply (krealloc_ok d).
  - destruct Hq as (l & Hl & Hi & Hbs); eexists 0, _, _; split; [done|]; split; [eauto|by apply refines_store].
  - destruct Hq as (l & Hl & Hi); eexists _, k, B; split; [done|]; split; [|done]; split; [done|]; exists l; split; [done|].
    destruct Href as (G & L & Hd & _ & HB); destruct (HB p l Hl) as [_ <-].
    by rewrite load_list_lookup, decide_True.
Qed.

Lemma session_ok d n c h B k :
  well_behaved c -> run c h B -> refines k B ->
  exists h' k' B', session n (S (S (S (S d)))) c h k = Ok (h', k') /\ run c h' B' /\ refines k' B' /\
    (length h' = (n + length h)%nat \/ c h' = None).
Proof.
  intros Hc; revert h B k; induction n as [|n IH]; intros h B k Hr Href; cbn [session].
  { exists h, k, B; auto. }
  destruct (c h) as [[cpu q]|] eqn:E; [|exists h, k, B; auto].
  destruct (serve_ok d cpu k B q Href (Hc h B cpu q Hr E)) as (r & k' & B' & -> & Ha & Href'); mstep.
  destruct (IH (r :: h) B' k') as (h2 & k2 & B2 & ? & ? & ? & Hn); [by eapply run_step|done|].
  exists h2, k2, B2; split_and!; try done; destruct Hn as [Hn|?]; [left|by right]; cbn [length] in Hn; lia.
Qed.

End session.
