(* ===== verification/SlabTheorems.v ===== *)
(** * The kernel heap: what the slab allocator and the page allocator give together *)

From stdpp Require Import base tactics option list numbers gmap.
From Stdlib Require Import ZArith Lia.
From S2P Require Import Prelude Pmm PmmLists PmmInv PmmSpec PmmTheorems PmmBoot SlabMem Slab.
From S2P Require Import SlabGeom SlabInv PmmHeld SlabPmm SlabHeap SlabLarge SlabSpec SlabInit SlabSession.

Local Open Scope Z_scope.

(** The memory map is one that [pmm_init] can use. *)
Record usable_map (rs : list pmm_mem_region) : Prop := {
  um_ok : map_ok rs;
  um_place : (array_place rs).1 <> 0;
  um_fits : array_bytes rs <= (array_place rs).2;
  um_order : array_first rs <= array_end rs
}.

(** The direct map of the pages of [rs] lies in the address space and apart from the
    static arrays of slab.c. *)
Definition mapped `{Kernel} (rs : list pmm_mem_region) : Prop :=
  let n := Z.shiftr (max_paddr_of rs) PMM_PAGE_SHIFT in
  0 < hhdm_offset /\ hhdm_offset + n * PMM_PAGE_SIZE <= 2 ^ 64 /\
  forall a q, in_image a -> 0 <= q < n -> ~ in_page q a.

Section boot.
Context `{Kernel} `{!GoodKernel}.

Lemma boot_pages rs : usable_map rs -> mapped rs -> exists s, pmm_init rs hhdm_offset = Ok s /\ ps_ok s ∅.
Proof.
  intros [H1 H2 H3 H4] (M1 & M2 & M3).
  destruct (pmm_boot_spec rs hhdm_offset H1 H2 H3 H4) as (s & B & E & Hok & _ & Et & _ & Eb & _).
  exists s; split; [done|]; exists B; split; rewrite ?Et; try done; by apply held_none.
Qed.

(** The heap after [pmm_init] and [slab_init]. *)
Lemma boot_heap rs d cpu : usable_map rs -> mapped rs ->
  exists s k, pmm_init rs hhdm_offset = Ok s /\ slab_init (S (S d)) cpu (slab_static s) = Ok k /\ refines k ∅.
Proof.
  intros Hu Hm; destruct (boot_pages rs Hu Hm) as (s & E & Hs).
  destruct (slab_init_refines d cpu s Hs) as (k & Ek & Hk); by exists s, k.
Qed.

(** C1: The kernel heap is safe for every well-behaved client.  After [pmm_init] on a
    usable memory map and [slab_init], any number of kmalloc, kzalloc, kcalloc, kfree,
    krealloc, load and store requests, made on any CPUs by a client that keeps to the
    contract, completes without a fault and within the recursion bound; the answers are
    a run of the store of blocks, the blocks the client holds do not overlap, and
    memory holds their contents. *)
Theorem kernel_heap_session (rs : list pmm_mem_region) (d n cpu : nat) (c : client) :
  usable_map rs -> mapped rs -> well_behaved c ->
  exists s k h k' B,
    pmm_init rs hhdm_offset = Ok s /\ slab_init (S (S d)) cpu (slab_static s) = Ok k /\
    session n (S (S (S (S d)))) c [] k = Ok (h, k') /\ run c h B /\ (length h = n \/ c h = None) /\
    (forall p l, B !! p = Some l -> load_list (length l) (k_mem k') p = l) /\
    (forall p l p' l', B !! p = Some l -> B !! p' = Some l' -> p ≠ p' ->
       p + Z.of_nat (length l) <= p' \/ p' + Z.of_nat (length l') <= p).
Proof.
  intros Hu Hm Hc; destruct (boot_heap rs d cpu Hu Hm) as (s & k & Es & Ek & Hk).
  destruct (session_ok d n c [] ∅ k Hc (run_start c) Hk) as (h & k' & B & E & Hr & Href & Hn).
  exists s, k, h, k', B; rewrite Nat.add_0_r in Hn; split_and!; try done.
  - destruct Href as (G & L & Hd & _ & HB); intros p l Hp; by apply HB.
  - intros p l p' l'; by apply (refines_disjoint k').
Qed.

End boot.

Section heap.
Context {St : Type} `{Kernel} `{!PageSource St} `{!PageLaws St}.
Implicit Types k : kmem St.

(** The size of the block that a request gets: a size within a page of 2^64 wraps around
    when it is rounded up to pages, and counts as one page. *)
Definition granted (size : Z) : Z := if decide (size <= SIZE_LIMIT) then size else PMM_PAGE_SIZE.

Lemma kmalloc_granted (depth cpu : nat) (size : Z) k :
  0 <= size < 2 ^ 64 -> kmalloc depth cpu size k = kmalloc depth cpu (granted size) k.
Proof.
  unfold granted, SIZE_LIMIT, PMM_PAGE_SIZE; intros Hs; case_decide; [done|]; unfold kmalloc, kmalloc_aligned.
  rewrite (decide_False (P := size = 0)), (decide_False (P := 4096 = 0)) by lia; cbv zeta.
  rewrite (decide_False (P := size <= 2048 /\ _)), (decide_False (P := 4096 <= 2048 /\ _)) by (intros [? _]; lia).
  unfold kmalloc_large, PMM_PAGE_SIZE.
  replace (u64 (size + 4096 - 1)) with (size - 2 ^ 64 + 4095) by (unfold u64; apply (Z.mod_unique_pos _ _ 1); lia).
  by rewrite (Z.div_small (size - _ + _)) by lia.
Qed.

(** C2: [kmalloc] returns a new block, apart from every block in use, or NULL.  For every
    size up to 2^64 - 4096 the block has the size asked for; for the sizes above, which
    wrap around when they are rounded up to pages, it has one page.  NULL comes only for
    size 0, or if the size class has no cache, or if the page allocator has no page for
    a new slab or its header, or no block of pages. *)
Theorem kmalloc_spec (d cpu : nat) k (B : bstore) (size : Z) :
  refines k B -> 0 <= size < 2 ^ 64 ->
  exists r k' B', kmalloc (S (S d)) cpu size k = Ok (r, k') /\
    gets (granted size) anything r B B' /\ refines k' B' /\ (r = 0 -> size = 0 \/ refused cpu (granted size) k).
Proof.
  intros Hk Hs; rewrite kmalloc_granted by done; destruct (kmalloc_aligned_full d cpu k B (granted size) SLAB_MIN_ALIGN Hk) as (r & k' & B' & E & Hg & Hk' & H0).
  { unfold granted; case_decide; unfold SIZE_LIMIT, PMM_PAGE_SIZE in *; lia. }
  exists r, k', B'; split_and!; try done; intros Hr; destruct (H0 Hr) as [E0|?]; [left|by right].
  unfold granted in E0; case_decide; [done|]; unfold PMM_PAGE_SIZE in E0; lia.
Qed.

(** C3: [krealloc] of a block in use, for a size up to 2^64 - 4096.  For size 0 it frees
    the block and gives NULL.  For another size it gives NULL and changes nothing, or
    moves or resizes the block: the result is apart from every other block and starts
    with the old contents, up to the shorter of the two lengths. *)
Theorem krealloc_spec (d cpu : nat) k (B : bstore) (p size : Z) (l : list Z) :
  refines k B -> B !! p = Some l -> p ≠ 0 -> 0 <= size <= SIZE_LIMIT ->
  exists r k' B', krealloc (S (S (S (S d)))) cpu p size k = Ok (r, k') /\ refines k' B' /\
    if decide (size = 0) then r = 0 /\ B' = delete p B
    else (r = 0 /\ B' = B) \/
     (r ≠ 0 /\ clear (delete p B) r size /\ exists l', Z.of_nat (length l') = size /\
        take (length l `min` length l') l' = take (length l `min` length l') l /\
        B' = <[r := l']> (delete p B)).
Proof.
  intros Href Hl Hp Hs; destruct (krealloc_ok d cpu k B p size Href) as (r & k' & B' & E & Ha & Href').
  { split; [right; by exists l|lia]. }
  exists r, k', B'; split_and!; try done; cbn [answers] in Ha.
  rewrite (decide_False (P := p = 0)) in Ha by done; destruct (decide (size = 0)); [done|].
  destruct Ha as [?|(Hr & Hc & l0 & l' & Hl0 & Hn & Ht & HB')]; [by left|right]; split_and!; try done.
  assert (l0 = l) as -> by congruence; by exists l'.
Qed.

(** Freeing gives the block back: [kfree] of NULL or of a block in use succeeds and
    leaves every other block and its contents as they were. *)
Theorem kfree_spec (d cpu : nat) k (B : bstore) (p : Z) :
  refines k B -> p = 0 \/ is_Some (B !! p) ->
  exists k', kfree (S (S (S (S d)))) cpu p k = Ok k' /\ refines k' (delete p B).
Proof. apply kfree_ok. Qed.

End heap.

(** ** Layout of slabs *)

(** A cache for objects of up to a page, of any power-of-two alignment up to a page,
    has a well-formed layout: an object is at least as large as asked for and a
    multiple of the alignment, and a page holds at least one object: the largest
    colour, the objects and an on-slab header fit in it. *)
Theorem slab_geometry_wf (name : list Z) (size align flags ctor dtor n : Z) :
  0 < size <= PMM_PAGE_SIZE -> align = 2 ^ n -> 0 <= n <= 12 ->
  let g := slab_geometry name size align flags ctor dtor in
  geom_ok g /\ size <= c_obj_size g < size + Z.max align SLAB_MIN_ALIGN /\
  (Z.max align SLAB_MIN_ALIGN | c_obj_size g).
Proof. apply slab_geometry_ok. Qed.

(** ** Block copies *)

(** C17: [slab_copy_fast], which copies words and then bytes, is a plain copy of [n] bytes
    for blocks that do not overlap, or whose destination is the lower one. *)
Theorem slab_copy_fast_spec (dst src : Z) (n : nat) (m : gmap Z Z) :
  dst <= src \/ src + Z.of_nat n <= dst -> dst ≠ 0 -> src ≠ 0 ->
  slab_copy_fast dst src (Z.of_nat n) m = Ok (store_list dst (load_list n m src) m).
Proof. intros Hdir; by apply slab_copy_fast_ok. Qed.

(** ** A machine *)

(** The addresses of a kernel image and a direct map; constructors do nothing. *)
#[export] Instance demo_kernel : Kernel := {
  hhdm_offset := 0xffff800000000000;
  bootstrap_caches := 0xffffffff80200000;
  bootstrap_magazines := 0xffffffff80300000;
  call_fn := fun _ _ _ m => m
}.

#[export] Instance demo_good : GoodKernel.
Proof. by split. Qed.

Definition demo_ram : list pmm_mem_region := [Region 0x1000 0x200000 1].

Lemma demo_usable : usable_map demo_ram.
Proof.
  split; try (vm_compute; done); split; [|done]; intros _; split; [unfold region_ok; cbn; lia|].
  intros r Hr; by apply elem_of_nil in Hr.
Qed.

Lemma demo_mapped : mapped demo_ram.
Proof.
  unfold mapped; change (Z.shiftr (max_paddr_of demo_ram) PMM_PAGE_SHIFT) with 513; cbv zeta.
  split; [done|]; split; [done|]; unfold in_image, in_page, page_addr, boot_cache, boot_mag.
  unfold SLAB_BOOTSTRAP_CACHES, SLAB_BOOTSTRAP_MAGAZINES, sizeof_cache, sizeof_bootstrap_mag, PMM_PAGE_SIZE; cbn [hhdm_offset bootstrap_caches bootstrap_magazines demo_kernel].
  intros a q [(n & Hn & ->)|(n & Hn & ->)] Hq; lia.
Qed.

(** A client that takes a block on CPU 0, writes to it on CPU 1 and frees it on CPU 2. *)
Definition demo_client : client := fun h =>
  match h with
  | [] => Some (0%nat, ReqMalloc 100)
  | [p] => if decide (p = 0) then None else Some (1%nat, ReqStore p 4 [7; 8])
  | [_; p] => Some (2%nat, ReqFree p)
  | _ => None
  end.

Lemma demo_one h B : run demo_client h B -> length h = 1%nat ->
  exists p, h = [p] /\ gets 100 anything p ∅ B.
Proof.
  intros Hr Hl; destruct Hr as [|h B cpu q r B' Hr E Ha]; [done|]; destruct h; [|done].
  inversion Hr; subst; injection E as <- <-; by exists r.
Qed.

Lemma demo_two h B : run demo_client h B -> length h = 2%nat ->
  exists r p l, h = [r; p] /\ B !! p = Some l.
Proof.
  intros Hr Hl; destruct Hr as [|h B cpu q r B' Hr E Ha]; [done|].
  destruct (demo_one h B Hr) as (p & -> & Hg); [simpl in Hl; lia|].
  cbn [demo_client] in E; case_decide; [done|]; injection E as <- <-; destruct Ha as (_ & l & Hl' & ->).
  eexists r, p, _; split; [done|]; apply lookup_insert_eq.
Qed.

Lemma demo_well_behaved : well_behaved demo_client.
Proof.
  intros h B cpu q Hr E; destruct h as [|r [|p [|? ?]]]; cbn [demo_client] in E; [| | |done].
  - injection E as <- <-; cbn [allowed]; unfold SIZE_LIMIT, PMM_PAGE_SIZE; lia.
  - case_decide as Hz; [done|]; injection E as <- <-; destruct (demo_one _ _ Hr eq_refl) as (p & [= <-] & Hg).
    destruct Hg as [[? _]|(_ & _ & _ & l & Hl & _ & ->)]; [done|]; exists l; rewrite lookup_insert_eq; split; [done|].
    split; [simpl; lia|]; repeat constructor; lia.
  - injection E as <- <-; destruct (demo_two _ _ Hr eq_refl) as (r' & p' & l & [= <- <-] & Hl); right; by exists l.
Qed.

Lemma kernel_heap_session_witness :
  exists s k h k' B, pmm_init demo_ram hhdm_offset = Ok s /\ slab_init 2 0 (slab_static s) = Ok k /\
    session 3 4 demo_client [] k = Ok (h, k') /\ run demo_client h B /\
    forall p l, B !! p = Some l -> load_list (length l) (k_mem k') p = l.
Proof.
  destruct (kernel_heap_session demo_ram 0 3 0 demo_client demo_usable demo_mapped demo_well_behaved)
    as (s & k & h & k' & B & E1 & E2 & E3 & Hr & _ & HB & _).
  exists s, k, h, k', B; split; [exact E1|]; split; [exact E2|]; split; [exact E3|]; split; [exact Hr|exact HB].
Defined.

(** The machine after boot. *)
Definition demo_boot : res (kmem pmm) := s ← pmm_init demo_ram hhdm_offset; slab_init 2 0 (slab_static s).

Lemma demo_boot_ok : exists k, demo_boot = Ok k /\ refines k ∅.
Proof.
  destruct (boot_heap demo_ram 0 0 demo_usable demo_mapped) as (s & k & E1 & E2 & Hk).
  exists k; split; [|done]; unfold demo_boot; rewrite E1; exact E2.
Qed.

Lemma demo_size n : 0 <= n <= 5000 -> 0 <= n <= SIZE_LIMIT.
Proof. unfold SIZE_LIMIT, PMM_PAGE_SIZE; lia. Qed.

Lemma kmalloc_spec_witness :
  exists k r k' B', demo_boot = Ok k /\ kmalloc 2 0 100 k = Ok (r, k') /\ gets 100 anything r ∅ B' /\ refines k' B'.
Proof.
  destruct demo_boot_ok as (k & E & Hk).
  destruct (kmalloc_spec 0 0 k ∅ 100 Hk ltac:(lia)) as (r & k' & B' & E' & Hg & Hk' & _).
  exists k, r, k', B'; split; [exact E|]; split; [exact E'|]; split; [exact Hg|exact Hk'].
Defined.

(** [n + 1] calls of [kmalloc]; the last answer. *)
Fixpoint kmalloc_times (n cpu : nat) (size : Z) (k : kmem pmm) : res (Z * kmem pmm) :=
  '(r, k) ← kmalloc 2 cpu size k;
  match n with O => Ok (r, k) | S n => kmalloc_times n cpu size k end.

(** The answers of three operations on the machine after boot. *)
Definition demo_answers (f g h : kmem pmm -> res (Z * kmem pmm)) : res (Z * Z * Z) :=
  k ← demo_boot; '(x, _) ← f k; '(y, _) ← g k; '(z, _) ← h k; Ok (x, y, z).

Lemma demo_answers_value :
  demo_answers (kmalloc 2 0 100) (kmalloc_large 0 1) (kmalloc_times 45 0 256) = Ok (0xffff8000001c3f00, 0xffff8000001c3000, 0xffff8000001c6e0f).
Proof. by vm_compute. Qed.

Lemma demo_answers_inv f g h x y z : demo_answers f g h = Ok (x, y, z) ->
  exists k k1 k2 k3, demo_boot = Ok k /\ refines k ∅ /\ f k = Ok (x, k1) /\ g k = Ok (y, k2) /\ h k = Ok (z, k3).
Proof.
  unfold demo_answers; destruct demo_boot_ok as (k & -> & Hk); mstep.
  destruct (f k) as [[x' k1]| |] eqn:Ef, (g k) as [[y' k2]| |] eqn:Eg, (h k) as [[z' k3]| |] eqn:Eh; mstep; try done.
  intros [= -> -> ->]; by exists k, k1, k2, k3.
Qed.

(** A block of 100 bytes. *)
Lemma demo_block_ok : exists p k0 k l, demo_boot = Ok k0 /\ kmalloc 2 0 100 k0 = Ok (p, k) /\ p ≠ 0 /\
  length l = 100%nat /\ refines k {[p := l]}.
Proof.
  destruct (demo_answers_inv _ _ _ _ _ _ demo_answers_value) as (k & k1 & _ & _ & E & Hk & E1 & _).
  destruct (kmalloc_aligned_full 0 0 k ∅ 100 SLAB_MIN_ALIGN Hk (demo_size 100 ltac:(lia))) as (r & k' & B' & E' & Hg & Hk' & _).
  assert (Er : Ok (0xffff8000001c3f00, k1) = Ok (r, k')) by exact (eq_trans (eq_sym E1) E'); injection Er as <- <-.
  destruct Hg as [[? _]|(Hz & _ & _ & l & Hl & _ & ->)]; [discriminate|].
  exists 0xffff8000001c3f00, k, k1, l; split; [exact E|]; split; [exact E1|]; split; [exact Hz|]; split; [lia|exact Hk'].
Qed.

Lemma krealloc_spec_witness :
  exists k0 p k r k', demo_boot = Ok k0 /\ kmalloc 2 0 100 k0 = Ok (p, k) /\ krealloc 4 1 p 5000 k = Ok (r, k').
Proof.
  destruct demo_block_ok as (p & k0 & k & l & E0 & E & Hp & Hl & Hk).
  destruct (krealloc_spec 0 1 k {[p := l]} p 5000 l Hk (lookup_singleton_eq p l) Hp) as (r & k' & B' & E' & _).
  { unfold SIZE_LIMIT, PMM_PAGE_SIZE; lia. }
  exists k0, p, k, r, k'; split; [exact E0|]; split; [exact E|exact E'].
Defined.

Lemma kfree_spec_witness : exists k0 p k k', demo_boot = Ok k0 /\ kmalloc 2 0 100 k0 = Ok (p, k) /\ kfree 4 1 p k = Ok k' /\ refines k' ∅.
Proof.
  destruct demo_block_ok as (p & k0 & k & l & E0 & E & Hp & Hl & Hk).
  destruct (kfree_spec 0 1 k {[p := l]} p Hk) as (k' & E' & Hk').
  { right; exists l; apply lookup_singleton_eq. }
  exists k0, p, k, k'; split; [exact E0|]; split; [exact E|]; split; [exact E'|]; by rewrite delete_singleton_eq in Hk'.
Defined.

Lemma slab_geometry_wf_witness : geom_ok (slab_geometry SLAB_NAME_METADATA 192 64 0 0 0).
Proof. apply (slab_geometry_wf SLAB_NAME_METADATA 192 64 0 0 0 6); by vm_compute. Defined.

Lemma slab_copy_fast_spec_witness :
  slab_copy_fast 0x1003 0x2001 19 (<[0x2001 := 5]> ∅) =
  Ok (store_list 0x1003 (load_list 19 (<[0x2001 := 5]> ∅) 0x2001) (<[0x2001 := 5]> ∅)).
Proof. apply (slab_copy_fast_spec 0x1003 0x2001 19); [left|..]; by vm_compute. Defined.

(** ** Where the code falls short *)

(** A size within a page of [SIZE_MAX] wraps around when it is rounded up to pages, so
    that [kmalloc] treats it as a request for one byte's worth of pages: for every such
    size it returns a single page, or NULL if there is none. *)
Theorem kmalloc_size_wraps {St : Type} `{Kernel} `{!PageSource St} (depth cpu : nat) (size : Z) (k : kmem St) :
  SIZE_LIMIT < size < 2 ^ 64 -> kmalloc depth cpu size k = kmalloc_large cpu 1 k.
Proof.
  intros Hs; rewrite kmalloc_granted by (unfold SIZE_LIMIT, PMM_PAGE_SIZE in Hs; lia).
  unfold granted; rewrite decide_False by lia; done.
Qed.

(** On this machine the page exists: a request for all but 100 bytes of the address space
    is granted. *)
Lemma kmalloc_size_wraps_witness :
  exists r k k', r ≠ 0 /\ demo_boot = Ok k /\ kmalloc 2 0 (2 ^ 64 - 100) k = Ok (r, k').
Proof.
  destruct (demo_answers_inv _ _ _ _ _ _ demo_answers_value) as (k & _ & k' & _ & E & _ & _ & E' & _).
  exists 0xffff8000001c3000, k, k'; split; [by vm_compute|]; split; [exact E|].
  assert (Hs : SIZE_LIMIT < 2 ^ 64 - 100 < 2 ^ 64) by (unfold SIZE_LIMIT, PMM_PAGE_SIZE; lia).
  exact (eq_trans (kmalloc_size_wraps 2 0 (2 ^ 64 - 100) k Hs) E').
Defined.

(** Slab colouring breaks the alignment of [kmalloc]: the colour of a new slab is the
    previous one plus 64 modulo one more than the unused space, which is not a multiple
    of 64.  On this machine the 46th block of 256 bytes starts at an odd address. *)
Theorem kmalloc_color_misaligns :
  exists r k k', r `mod` SLAB_MIN_ALIGN = 15 /\ demo_boot = Ok k /\ kmalloc_times 45 0 256 k = Ok (r, k').
Proof.
  destruct (demo_answers_inv _ _ _ _ _ _ demo_answers_value) as (k & _ & _ & k' & E & _ & _ & _ & E').
  exists 0xffff8000001c6e0f, k, k'; split; [by vm_compute|]; split; [exact E|exact E'].
Qed.
