(* ===== verification/Mmu.v ===== *)
(** * Page tables (mem/mmu.c, mem/mmu.h)

    The four-level x86-64 page tables of the kernel and of the processes, in frames of
    the page allocator, which is reached through [PageSource].

    A [page_table_t *] is [p2v] of the physical address of its frame; it is represented
    by that physical address.  The words of physical memory are a map from addresses
    to 64-bit values, in which a word that was never written is 0.  Contexts are records
    in a map keyed by their address.  TLB flushes and interrupts sent are a log, the latest
    first.  A context's lock delimits each operation and has no other effect here. *)

From stdpp Require Import base tactics option list numbers gmap.
From Stdlib Require Import ZArith Lia.
From S2P Require Import Prelude PageCache Pmm SlabMem Slab.

Local Open Scope Z_scope.

Definition EINVAL : Z := 22.
Definition ENOMEM : Z := 12.
Definition EEXIST : Z := 17.

Definition PAGE_SIZE : Z := 4096.
Definition PAGE_MASK : Z := PAGE_SIZE - 1.
Definition HUGE_PAGE_2M : Z := 2 * 1024 * 1024.
Definition HUGE_PAGE_2M_MASK : Z := HUGE_PAGE_2M - 1.

Definition PT_PRESENT : Z := Z.shiftl 1 0.
Definition PT_RW : Z := Z.shiftl 1 1.
Definition PT_USER : Z := Z.shiftl 1 2.
Definition PT_PWT : Z := Z.shiftl 1 3.
Definition PT_PCD : Z := Z.shiftl 1 4.
Definition PT_DIRTY : Z := Z.shiftl 1 6.
Definition PT_HUGE : Z := Z.shiftl 1 7.
Definition PT_GLOBAL : Z := Z.shiftl 1 8.
Definition PT_COW : Z := Z.shiftl 1 9.
Definition PT_PAT_4K : Z := Z.shiftl 1 7.
Definition PT_PAT_2M : Z := Z.shiftl 1 12.
Definition PT_NX : Z := Z.shiftl 1 63.

Definition PT_ADDR_MASK : Z := 0x000FFFFFFFFFF000.
Definition PT_2M_ADDR_MASK : Z := 0x000FFFFFFFE00000.
Definition PT_1G_ADDR_MASK : Z := 0x000FFFFFC0000000.

Definition MMU_PROT_READ : Z := Z.shiftl 1 0.
Definition MMU_PROT_WRITE : Z := Z.shiftl 1 1.
Definition MMU_PROT_EXEC : Z := Z.shiftl 1 2.
Definition MMU_PROT_USER : Z := Z.shiftl 1 3.
Definition MMU_FLAG_NOCACHE : Z := Z.shiftl 1 4.
Definition MMU_FLAG_WC : Z := Z.shiftl 1 5.
Definition MMU_FLAG_GLOBAL : Z := Z.shiftl 1 6.
Definition MMU_FLAG_HUGE_2M : Z := Z.shiftl 1 7.
Definition MMU_FLAG_COW : Z := Z.shiftl 1 8.

(** ** State *)

(** [invlpg] of an address, a reload of [cr3], an interrupt sent to another CPU. *)
Inductive effect := FlushPage (virt : Z) | FlushAll | SendIpi (lapic vector : Z).

(** The words that a shootdown leaves for the handlers on the other CPUs. *)
Record shootdown := Shootdown { sd_acks : Z; sd_virt : Z; sd_count : Z }.

Record mmu (St : Type) := Mmu {
  mm_pages : St;
  mm_words : gmap Z Z;
  mm_ctxs : gmap Z Z;
  mm_kernel : Z;   (** [&kernel_context] *)
  mm_active : Z;
  mm_cr3 : Z;
  mm_pat : Z;
  mm_log : list effect;
  mm_shoot : shootdown
}.
Arguments Mmu {St}.
Arguments mm_pages {St}.
Arguments mm_words {St}.
Arguments mm_ctxs {St}.
Arguments mm_kernel {St}.
Arguments mm_active {St}.
Arguments mm_cr3 {St}.
Arguments mm_pat {St}.
Arguments mm_log {St}.
Arguments mm_shoot {St}.

(** ** Addresses and entries *)

Definition pml4_idx (v : Z) : Z := Z.land (Z.shiftr v 39) 0x1FF.
Definition pdpt_idx (v : Z) : Z := Z.land (Z.shiftr v 30) 0x1FF.
Definition pd_idx (v : Z) : Z := Z.land (Z.shiftr v 21) 0x1FF.
Definition pt_idx (v : Z) : Z := Z.land (Z.shiftr v 12) 0x1FF.

Definition p2table (entry : Z) : Z := Z.land entry PT_ADDR_MASK.

(** What [pat_init] writes to the MSR 0x277. *)
Definition pat_value (pat : Z) : Z :=
  let pat := Z.land pat (Z.lnot (Z.shiftl 0xFF 32)) in
  let pat := Z.lor pat (Z.shiftl 0x01 32) in
  let pat := Z.land pat (Z.lnot (Z.shiftl 0xFF 8)) in
  Z.lor pat (Z.shiftl 0x01 8).

Definition mmu_flags_to_pte (flags : Z) : Z :=
  let pte := PT_PRESENT in
  let pte := if has_flag flags MMU_PROT_WRITE && negb (has_flag flags MMU_FLAG_COW)
             then Z.lor pte PT_RW else pte in
  let pte := if has_flag flags MMU_PROT_USER then Z.lor pte PT_USER else pte in
  let pte := if negb (has_flag flags MMU_PROT_EXEC) then Z.lor pte PT_NX else pte in
  let pte := if has_flag flags MMU_FLAG_GLOBAL then Z.lor pte PT_GLOBAL else pte in
  let pte := if has_flag flags MMU_FLAG_COW then Z.lor pte PT_COW else pte in
  if has_flag flags MMU_FLAG_WC then
    if has_flag flags MMU_FLAG_HUGE_2M then Z.lor pte PT_PAT_2M else Z.lor pte PT_PAT_4K
  else if has_flag flags MMU_FLAG_NOCACHE then Z.lor pte (Z.lor PT_PCD PT_PWT)
  else pte.

(** An entry that points to a table. *)
Definition table_entry (phys : Z) : Z := Z.lor (Z.lor (Z.lor phys PT_PRESENT) PT_RW) PT_USER.

Section operations.
Context {St : Type} `{!PageSource St}.
Implicit Types m : mmu St.

Abbreviation op A := (mmu St -> res (A * mmu St)).

Definition with_st (s : St) m : mmu St :=
  Mmu s (mm_words m) (mm_ctxs m) (mm_kernel m) (mm_active m) (mm_cr3 m) (mm_pat m) (mm_log m) (mm_shoot m).

Definition with_words (w : gmap Z Z) m : mmu St :=
  Mmu (mm_pages m) w (mm_ctxs m) (mm_kernel m) (mm_active m) (mm_cr3 m) (mm_pat m) (mm_log m) (mm_shoot m).

Definition with_ctxs (c : gmap Z Z) m : mmu St :=
  Mmu (mm_pages m) (mm_words m) c (mm_kernel m) (mm_active m) (mm_cr3 m) (mm_pat m) (mm_log m) (mm_shoot m).

Definition with_cpu (active cr3 pat : Z) m : mmu St :=
  Mmu (mm_pages m) (mm_words m) (mm_ctxs m) (mm_kernel m) active cr3 pat (mm_log m) (mm_shoot m).

Definition with_log (l : list effect) m : mmu St :=
  Mmu (mm_pages m) (mm_words m) (mm_ctxs m) (mm_kernel m) (mm_active m) (mm_cr3 m) (mm_pat m) l (mm_shoot m).

Definition with_shoot (x : shootdown) m : mmu St :=
  Mmu (mm_pages m) (mm_words m) (mm_ctxs m) (mm_kernel m) (mm_active m) (mm_cr3 m) (mm_pat m) (mm_log m) x.

(** [table->entries[i]] *)
Definition entry_at (w : gmap Z Z) (t i : Z) : Z := default 0 (w !! (t + 8 * i)).
Definition get_entry (t i : Z) m : Z := entry_at (mm_words m) t i.
Definition set_entry (t i v : Z) m : mmu St := with_words (<[t + 8 * i := v]> (mm_words m)) m.

(** [memset(table, 0, PAGE_SIZE)] *)
Definition clear_words (t : Z) (w : gmap Z Z) : gmap Z Z :=
  foldr (fun i w => <[t + 8 * i := 0]> w) w (seqZ 0 512).

(** [invlpg], and the flush after a change of an entry when the tables are in use. *)
Definition invlpg (virt : Z) m : mmu St := with_log (FlushPage virt :: mm_log m) m.

Definition write_cr3 (v : Z) m : mmu St :=
  with_log (FlushAll :: mm_log m) (with_cpu (mm_active m) v (mm_pat m) m).

Definition flush_if_active (pml4 virt : Z) m : mmu St :=
  if decide (Z.land (mm_cr3 m) PT_ADDR_MASK = pml4) then invlpg virt m else m.

(** ** Frames of tables *)

Definition alloc_table_frame (cpu : nat) : op (option Z) := fun m =>
  '(r, s) ← ps_alloc cpu 0 (Z.lor PAGE_FLAG_KERNEL PAGE_FLAG_ZERO) (mm_pages m);
  let m := with_st s m in
  match r with
  | None => Ok (None, m)
  | Some p =>
      let phys := pmm_page_to_paddr p in
      Ok (Some phys, with_words (clear_words phys (mm_words m)) m)
  end.

Definition is_valid_table_phys (phys : Z) m : res bool :=
  if decide (phys = 0 \/ Z.land phys PAGE_MASK ≠ 0) then Ok false
  else
    match ps_paddr_to_page (mm_pages m) phys with
    | None => Ok false
    | Some p => fl ← ps_flags (mm_pages m) p; Ok (negb (has_flag fl PAGE_FLAG_FREE))
    end.

Definition free_table_frame (cpu : nat) (phys : Z) m : res (mmu St) :=
  v ← is_valid_table_phys phys m;
  if negb v then Ok m
  else
    match ps_paddr_to_page (mm_pages m) phys with
    | None => Ok m
    | Some p =>
        fl ← ps_flags (mm_pages m) p;
        if has_flag fl (Z.lor PAGE_FLAG_FREE PAGE_FLAG_RESERVED) then Ok m
        else s ← ps_free cpu (Some p) 0 (mm_pages m); Ok (with_st s m)
    end.

Definition is_table_empty (t : Z) m : bool :=
  forallb (fun i => bool_decide (get_entry t i m = 0)) (seqZ 0 512).

(** ** Mapping *)

(** The table below an entry, allocated if the entry is not present; [None] if there is
    no frame.  The second address is that of a table allocated here, or 0. *)
Definition enter_table (cpu : nat) (t i : Z) : op (option (Z * Z)) := fun m =>
  if negb (has_flag (get_entry t i m) PT_PRESENT) then
    '(r, m) ← alloc_table_frame cpu m;
    match r with
    | None => Ok (None, m)
    | Some phys => Ok (Some (phys, phys), set_entry t i (table_entry phys) m)
    end
  else Ok (Some (p2table (get_entry t i m), 0), m).

(** A table allocated on the way is taken back. *)
Definition undo_table (cpu : nat) (t i phys : Z) m : res (mmu St) :=
  if decide (phys ≠ 0) then free_table_frame cpu phys (set_entry t i 0 m) else Ok m.

(** The entry of a page; the old value, which the C code discards, is dropped. *)
Definition exchange (t i v pml4 virt : Z) m : mmu St :=
  flush_if_active pml4 virt (set_entry t i v m).

(** The last level of a 4 KiB mapping. *)
Definition map_last (cpu : nat) (pml4 pdpt new_pdpt pd new_pd virt phys flags : Z) : op Z := fun m =>
  let l4 := pml4_idx virt in
  let l3 := pdpt_idx virt in
  let l2 := pd_idx virt in
  if has_flag (get_entry pd l2 m) PT_HUGE then
    m ← undo_table cpu pdpt l3 new_pd m;
    m ← undo_table cpu pml4 l4 new_pdpt m;
    Ok (- EEXIST, m)
  else
    '(r, m) ← enter_table cpu pd l2 m;
    match r with
    | None =>
        m ← undo_table cpu pdpt l3 new_pd m;
        m ← undo_table cpu pml4 l4 new_pdpt m;
        Ok (- ENOMEM, m)
    | Some (pt, _) =>
        let pte_val := Z.lor (Z.land phys PT_ADDR_MASK) (mmu_flags_to_pte flags) in
        Ok (0, exchange pt (pt_idx virt) pte_val pml4 virt m)
    end.

Definition map_huge (pml4 pd virt phys flags : Z) : op Z := fun m =>
  if decide (Z.land virt HUGE_PAGE_2M_MASK ≠ 0 \/ Z.land phys HUGE_PAGE_2M_MASK ≠ 0) then
    Ok (- EINVAL, m)
  else
    let pde_val := Z.lor (Z.lor (Z.land phys PT_2M_ADDR_MASK) (mmu_flags_to_pte flags)) PT_HUGE in
    Ok (0, exchange pd (pd_idx virt) pde_val pml4 virt m).

Definition mmu_map_page_unlocked (cpu : nat) (pml4 virt phys flags : Z) : op Z := fun m =>
  let l4 := pml4_idx virt in
  let l3 := pdpt_idx virt in
  '(r, m) ← enter_table cpu pml4 l4 m;
  match r with
  | None => Ok (- ENOMEM, m)
  | Some (pdpt, new_pdpt) =>
      if has_flag (get_entry pdpt l3 m) PT_HUGE then
        m ← undo_table cpu pml4 l4 new_pdpt m;
        Ok (- EEXIST, m)
      else
        '(r, m) ← enter_table cpu pdpt l3 m;
        match r with
        | None =>
            m ← undo_table cpu pml4 l4 new_pdpt m;
            Ok (- ENOMEM, m)
        | Some (pd, new_pd) =>
            if has_flag flags MMU_FLAG_HUGE_2M then map_huge pml4 pd virt phys flags m
            else map_last cpu pml4 pdpt new_pdpt pd new_pd virt phys flags m
        end
  end.

(** [ctx->pml4_phys], 0 for a NULL context. *)
Definition pml4_of (ctx : Z) m : res Z :=
  if decide (ctx = 0) then Ok 0 else of_opt (mm_ctxs m !! ctx).

Definition mmu_map_page (cpu : nat) (ctx virt phys flags : Z) : op Z := fun m =>
  pml4 ← pml4_of ctx m;
  if decide (pml4 = 0) then Ok (- EINVAL, m)
  else if decide (Z.land virt PAGE_MASK ≠ 0 \/ Z.land phys PAGE_MASK ≠ 0) then Ok (- EINVAL, m)
  else mmu_map_page_unlocked cpu pml4 virt phys flags m.

(** ** Unmapping *)

(** [if (pg && (old & PT_DIRTY)) pg->flags |= PAGE_FLAG_DIRTY;] *)
Definition note_dirty (phys old : Z) m : res (mmu St) :=
  match ps_paddr_to_page (mm_pages m) phys with
  | None => Ok m
  | Some p =>
      if has_flag old PT_DIRTY then
        fl ← ps_flags (mm_pages m) p;
        s ← ps_set_flags p (Z.lor fl PAGE_FLAG_DIRTY) (mm_pages m);
        Ok (with_st s m)
      else Ok m
  end.

(** The table below entry [i] of [t] is taken away: the entry is cleared and its frame
    freed. *)
Definition drop_table (cpu : nat) (t i : Z) m : res (mmu St) :=
  let phys := p2table (get_entry t i m) in
  free_table_frame cpu phys (set_entry t i 0 m).

(** The entry [old] of a page was removed. *)
Definition removed_page (pml4 virt mask old : Z) m : res (mmu St) :=
  if has_flag old PT_PRESENT then
    m ← note_dirty (Z.land old mask) old m;
    Ok (flush_if_active pml4 virt m)
  else Ok m.

(** Empty tables of the user half go, from the bottom up. *)
Definition prune_pdpt (cpu : nat) (pml4 pdpt virt : Z) m : res (mmu St) :=
  if is_table_empty pdpt m then drop_table cpu pml4 (pml4_idx virt) m else Ok m.

Definition prune_pd (cpu : nat) (pml4 pdpt pd virt : Z) m : res (mmu St) :=
  if is_table_empty pd m then
    m ← drop_table cpu pdpt (pdpt_idx virt) m;
    prune_pdpt cpu pml4 pdpt virt m
  else Ok m.

Definition prune_pt (cpu : nat) (pml4 pdpt pd pt virt : Z) m : res (mmu St) :=
  if is_table_empty pt m then
    m ← drop_table cpu pd (pd_idx virt) m;
    prune_pd cpu pml4 pdpt pd virt m
  else Ok m.

Definition unmap_huge (cpu : nat) (pml4 pdpt pd virt : Z) m : res (mmu St) :=
  let old := get_entry pd (pd_idx virt) m in
  m ← removed_page pml4 virt PT_2M_ADDR_MASK old (set_entry pd (pd_idx virt) 0 m);
  if decide (pml4_idx virt < 256) then prune_pd cpu pml4 pdpt pd virt m else Ok m.

Definition unmap_last (cpu : nat) (pml4 pdpt pd pt virt : Z) m : res (mmu St) :=
  let old := get_entry pt (pt_idx virt) m in
  m ← removed_page pml4 virt PT_ADDR_MASK old (set_entry pt (pt_idx virt) 0 m);
  if decide (pml4_idx virt < 256) then prune_pt cpu pml4 pdpt pd pt virt m else Ok m.

Definition mmu_unmap_page_unlocked (cpu : nat) (pml4 virt : Z) : op Z := fun m =>
  let e4 := get_entry pml4 (pml4_idx virt) m in
  if negb (has_flag e4 PT_PRESENT) then Ok (0, m)
  else
    v ← is_valid_table_phys (p2table e4) m;
    if negb v then Ok (0, m)
    else
      let pdpt := p2table e4 in
      let e3 := get_entry pdpt (pdpt_idx virt) m in
      if negb (has_flag e3 PT_PRESENT) then Ok (0, m)
      else if has_flag e3 PT_HUGE then Ok (- EINVAL, m)
      else
        v ← is_valid_table_phys (p2table e3) m;
        if negb v then Ok (0, m)
        else
          let pd := p2table e3 in
          let e2 := get_entry pd (pd_idx virt) m in
          if negb (has_flag e2 PT_PRESENT) then Ok (0, m)
          else
            v ← is_valid_table_phys (p2table e2) m;
            if negb v then Ok (0, m)
            else if has_flag e2 PT_HUGE then
              m ← unmap_huge cpu pml4 pdpt pd virt m; Ok (0, m)
            else
              m ← unmap_last cpu pml4 pdpt pd (p2table e2) virt m; Ok (0, m).

Definition mmu_unmap_page (cpu : nat) (ctx virt : Z) : op Z := fun m =>
  pml4 ← pml4_of ctx m;
  if decide (pml4 = 0 \/ Z.land virt PAGE_MASK ≠ 0) then Ok (- EINVAL, m)
  else mmu_unmap_page_unlocked cpu pml4 virt m.

(** ** Ranges *)

(** [for (j = 0; j < n; j++) mmu_unmap_page_unlocked(ctx, virt + j * PAGE_SIZE);] *)
Definition unmap_range (cpu : nat) (pml4 virt : Z) (n : nat) m : res (mmu St) :=
  for_up n 0 (fun j m => '(_, m) ← mmu_unmap_page_unlocked cpu pml4 (u64 (virt + j * PAGE_SIZE)) m; Ok m) m.

(** The loop of [mmu_map_pages] with [n] pages to go from the [i]th; on an error the
    pages before are unmapped. *)
Fixpoint map_range (cpu : nat) (pml4 virt phys flags : Z) (n : nat) (i : Z) (m : mmu St) : res (Z * mmu St) :=
  match n with
  | O => Ok (0, m)
  | S n =>
      '(err, m) ← mmu_map_page_unlocked cpu pml4 (u64 (virt + i * PAGE_SIZE)) (u64 (phys + i * PAGE_SIZE)) flags m;
      if decide (err ≠ 0) then m ← unmap_range cpu pml4 virt (Z.to_nat i) m; Ok (err, m)
      else map_range cpu pml4 virt phys flags n (i + 1) m
  end.

Definition mmu_map_pages (cpu : nat) (ctx virt phys : Z) (count : nat) (flags : Z) : op Z := fun m =>
  pml4 ← pml4_of ctx m;
  if decide (pml4 = 0) then Ok (- EINVAL, m)
  else if decide (Z.land virt PAGE_MASK ≠ 0 \/ Z.land phys PAGE_MASK ≠ 0) then Ok (- EINVAL, m)
  else map_range cpu pml4 virt phys flags count 0 m.

Definition mmu_unmap_pages (cpu : nat) (ctx virt : Z) (count : nat) : op Z := fun m =>
  pml4 ← pml4_of ctx m;
  if decide (pml4 = 0 \/ Z.land virt PAGE_MASK ≠ 0) then Ok (- EINVAL, m)
  else m ← unmap_range cpu pml4 virt count m; Ok (0, m).

(** ** Protection and lookup *)

Definition mmu_protect_page (ctx virt flags : Z) : op Z := fun m =>
  pml4 ← pml4_of ctx m;
  if decide (pml4 = 0) then Ok (- EINVAL, m)
  else if decide (Z.land virt PAGE_MASK ≠ 0) then Ok (- EINVAL, m)
  else
    let e4 := get_entry pml4 (pml4_idx virt) m in
    if negb (has_flag e4 PT_PRESENT) then Ok (- EINVAL, m)
    else
      let e3 := get_entry (p2table e4) (pdpt_idx virt) m in
      if negb (has_flag e3 PT_PRESENT) || has_flag e3 PT_HUGE then Ok (- EINVAL, m)
      else
        let pd := p2table e3 in
        let e2 := get_entry pd (pd_idx virt) m in
        if negb (has_flag e2 PT_PRESENT) then Ok (- EINVAL, m)
        else if has_flag e2 PT_HUGE then
          let new := Z.lor (Z.lor (Z.land e2 PT_2M_ADDR_MASK) (mmu_flags_to_pte flags)) PT_HUGE in
          Ok (0, exchange pd (pd_idx virt) new pml4 virt m)
        else
          let pt := p2table e2 in
          let e1 := get_entry pt (pt_idx virt) m in
          if negb (has_flag e1 PT_PRESENT) then Ok (- EINVAL, m)
          else
            let phys := Z.land e1 PT_ADDR_MASK in
            let m := set_entry pt (pt_idx virt) (Z.lor phys (mmu_flags_to_pte flags)) m in
            m ← note_dirty phys e1 m;
            Ok (0, flush_if_active pml4 virt m).

(** [proc_ctx] is [proc->vmm_space->mmu_ctx] of the current process, 0 if there is none. *)
Definition mmu_get_current_context (proc_ctx : Z) m : Z :=
  if decide (proc_ctx ≠ 0) then proc_ctx
  else if decide (mm_active m ≠ 0) then mm_active m else mm_kernel m.

Definition mmu_get_kernel_context m : Z := mm_kernel m.

(** The walk of [mmu_virt_to_phys]. *)
Definition translate (pml4 virt : Z) m : res Z :=
  let e4 := get_entry pml4 (pml4_idx virt) m in
  v ← (if has_flag e4 PT_PRESENT then is_valid_table_phys (p2table e4) m else Ok false);
  if negb v then Ok 0
  else
    let e3 := get_entry (p2table e4) (pdpt_idx virt) m in
    if negb (has_flag e3 PT_PRESENT) then Ok 0
    else if has_flag e3 PT_HUGE then Ok (Z.lor (Z.land e3 PT_1G_ADDR_MASK) (Z.land virt 0x3FFFFFFF))
    else
      v ← is_valid_table_phys (p2table e3) m;
      if negb v then Ok 0
      else
        let e2 := get_entry (p2table e3) (pd_idx virt) m in
        if negb (has_flag e2 PT_PRESENT) then Ok 0
        else if has_flag e2 PT_HUGE then Ok (Z.lor (Z.land e2 PT_2M_ADDR_MASK) (Z.land virt 0x1FFFFF))
        else
          v ← is_valid_table_phys (p2table e2) m;
          if negb v then Ok 0
          else
            let e1 := get_entry (p2table e2) (pt_idx virt) m in
            if negb (has_flag e1 PT_PRESENT) then Ok 0
            else Ok (Z.lor (Z.land e1 PT_ADDR_MASK) (Z.land virt PAGE_MASK)).

Definition mmu_virt_to_phys (proc_ctx ctx virt : Z) m : res Z :=
  pml4 ← pml4_of ctx m;
  let ctx := if decide (pml4 = 0) then mmu_get_current_context proc_ctx m else ctx in
  let ctx := if decide (virt < 0xFFFF800000000000 /\ ctx = mm_kernel m /\ proc_ctx ≠ 0) then proc_ctx else ctx in
  pml4 ← pml4_of ctx m;
  if decide (pml4 = 0) then Ok 0 else translate pml4 virt m.

(** The address of the word; 0 is NULL. *)
Definition mmu_get_pte_ptr (ctx virt : Z) m : res Z :=
  pml4 ← pml4_of ctx m;
  if decide (pml4 = 0 \/ Z.land virt PAGE_MASK ≠ 0) then Ok 0
  else
    let e4 := get_entry pml4 (pml4_idx virt) m in
    v ← (if has_flag e4 PT_PRESENT then is_valid_table_phys (p2table e4) m else Ok false);
    if negb v then Ok 0
    else
      let e3 := get_entry (p2table e4) (pdpt_idx virt) m in
      v ← (if has_flag e3 PT_PRESENT && negb (has_flag e3 PT_HUGE) then is_valid_table_phys (p2table e3) m else Ok false);
      if negb v then Ok 0
      else
        let e2 := get_entry (p2table e3) (pd_idx virt) m in
        v ← (if has_flag e2 PT_PRESENT && negb (has_flag e2 PT_HUGE) then is_valid_table_phys (p2table e2) m else Ok false);
        if negb v then Ok 0 else Ok (p2table e2 + 8 * pt_idx virt).

(** ** Contexts *)

Definition mmu_switch_context (ctx : Z) m : res (mmu St) :=
  pml4 ← pml4_of ctx m;
  if decide (pml4 = 0) then Ok m
  else
    let m := with_cpu ctx (mm_cr3 m) (mm_pat m) m in
    if decide (Z.land (mm_cr3 m) PT_ADDR_MASK ≠ pml4) then Ok (write_cr3 pml4 m) else Ok m.

(** [addr] is what [kmalloc] returns; on failure of the frame it is freed again. *)
Definition mmu_create_context (cpu : nat) (addr : Z) : op Z := fun m =>
  if decide (addr = 0) then Ok (0, m)
  else
    '(r, m) ← alloc_table_frame cpu m;
    match r with
    | None => Ok (0, m)
    | Some pml4_phys =>
        k_pml4 ← pml4_of (mm_kernel m) m;
        m ← for_up 256 256 (fun i m => Ok (set_entry pml4_phys i (get_entry k_pml4 i m) m)) m;
        Ok (addr, with_ctxs (<[addr := pml4_phys]> (mm_ctxs m)) m)
    end.

Definition destroy_pt (cpu : nat) (pt_phys : Z) m : res (mmu St) :=
  v ← is_valid_table_phys pt_phys m;
  if negb v then Ok m else free_table_frame cpu pt_phys m.

(** The tables below the first [n] entries, each destroyed by [destroy]. *)
Definition destroy_entry (destroy : Z -> mmu St -> res (mmu St)) (huge : Z) (t i : Z) m : res (mmu St) :=
  let e := get_entry t i m in
  if has_flag e PT_PRESENT && negb (has_flag e huge) then destroy (Z.land e PT_ADDR_MASK) m else Ok m.

Definition destroy_pd (cpu : nat) (pd_phys : Z) m : res (mmu St) :=
  v ← is_valid_table_phys pd_phys m;
  if negb v then Ok m
  else
    m ← for_up 512 0 (destroy_entry (destroy_pt cpu) PT_HUGE pd_phys) m;
    free_table_frame cpu pd_phys m.

Definition destroy_pdpt (cpu : nat) (pdpt_phys : Z) m : res (mmu St) :=
  v ← is_valid_table_phys pdpt_phys m;
  if negb v then Ok m
  else
    m ← for_up 512 0 (destroy_entry (destroy_pd cpu) PT_HUGE pdpt_phys) m;
    free_table_frame cpu pdpt_phys m.

(** The entries of the top level have no [PT_HUGE]. *)
Definition mmu_destroy_pml4 (cpu : nat) (pml4_phys : Z) m : res (mmu St) :=
  kernel ← pml4_of (mm_kernel m) m;
  if decide (pml4_phys = 0 \/ pml4_phys = kernel) then Ok m
  else
    m ← (if decide (Z.land (mm_cr3 m) PT_ADDR_MASK = pml4_phys) then mmu_switch_context (mm_kernel m) m
         else Ok m);
    v ← is_valid_table_phys pml4_phys m;
    if negb v then Ok m
    else
      m ← for_up 256 0 (destroy_entry (destroy_pdpt cpu) 0 pml4_phys) m;
      free_table_frame cpu pml4_phys m.

Definition mmu_destroy_context (cpu : nat) (ctx : Z) m : res (mmu St) :=
  pml4 ← pml4_of ctx m;
  if decide (ctx = 0 \/ ctx = mm_kernel m \/ pml4 = 0) then Ok m
  else m ← mmu_destroy_pml4 cpu pml4 m; Ok (with_ctxs (delete ctx (mm_ctxs m)) m).

(** ** The TLB *)

Definition mmu_tlb_flush_page (virt : Z) m : mmu St := invlpg virt m.

Definition mmu_tlb_flush_all m : mmu St := write_cr3 (mm_cr3 m) m.

Definition mmu_tlb_shootdown (virt : Z) (count : nat) m : res (mmu St) :=
  for_up count 0 (fun i m => Ok (invlpg (u64 (virt + i * PAGE_SIZE)) m)) m.

(** The whole TLB for no pages or many, else page by page. *)
Definition flush_range (virt count : Z) m : res (mmu St) :=
  if decide (count = 0 \/ 1024 < count) then Ok (mmu_tlb_flush_all m)
  else mmu_tlb_shootdown virt (Z.to_nat count) m.

Definition mmu_tlb_ipi_handler m : res (mmu St) :=
  let d := mm_shoot m in
  m ← flush_range (sd_virt d) (sd_count d) m;
  if decide (0 < sd_acks d) then
    Ok (with_shoot (Shootdown (u32 (sd_acks d - 1)) (sd_virt d) (sd_count d)) m)
  else Ok m.

(** The CPUs of a mask. *)
Definition mask_cpus (mask : Z) : list Z := filter (fun c => Z.testbit mask c = true) (seqZ 0 64).

Definition send_ipis (lapic_id : Z -> Z) (cpus : list Z) m : mmu St :=
  with_log (rev ((fun c => SendIpi (lapic_id c) 0x42) <$> cpus) ++ mm_log m) m.

(** [pause] is what the other CPUs do between two looks at the counter. *)
Fixpoint wait_acks (pause : mmu St -> mmu St) (timeout : nat) (m : mmu St) : mmu St :=
  match timeout with
  | O => m
  | S n => if decide (0 < sd_acks (mm_shoot m)) then wait_acks pause n (pause m) else m
  end.

Definition mmu_tlb_shootdown_target (pause : mmu St -> mmu St) (lapic_id : Z -> Z)
    (this_cpu target_cpus virt count : Z) m : res (mmu St) :=
  m ← flush_range virt count m;
  let remote_mask := Z.land target_cpus (Z.lnot (Z.shiftl 1 this_cpu)) in
  if decide (remote_mask = 0) then Ok m
  else
    let cpus := mask_cpus remote_mask in
    if decide (length cpus = 0%nat) then Ok m
    else
      let m := with_shoot (Shootdown (Z.of_nat (length cpus)) virt count) m in
      Ok (wait_acks pause (Z.to_nat 50000) (send_ipis lapic_id cpus m)).

(** ** Start-up *)

Definition map_fb (cpu : nat) `{Kernel} (base i : Z) m : res (mmu St) :=
  let p := base + i * HUGE_PAGE_2M in
  '(_, m) ← mmu_map_page cpu (mm_kernel m) (p2v p) p
    (Z.lor MMU_PROT_READ (Z.lor MMU_PROT_WRITE (Z.lor MMU_FLAG_WC (Z.lor MMU_FLAG_GLOBAL MMU_FLAG_HUGE_2M)))) m;
  Ok m.

(** [fb_phys] is [v2p(fb_base)], [fb_size] the height times the pitch; no frame buffer
    is [None]. *)
Definition mmu_init (cpu : nat) `{Kernel} (fb : option (Z * Z)) m : res (mmu St) :=
  let m := with_cpu (mm_kernel m) (mm_cr3 m) (pat_value (mm_pat m)) m in
  let m := with_ctxs (<[mm_kernel m := Z.land (mm_cr3 m) PT_ADDR_MASK]> (mm_ctxs m)) m in
  match fb with
  | None => Ok m
  | Some (fb_phys, fb_size) =>
      let base := Z.land fb_phys (Z.lnot HUGE_PAGE_2M_MASK) in
      let end_ := Z.land (u64 (u64 (fb_phys + fb_size) + HUGE_PAGE_2M - 1)) (Z.lnot HUGE_PAGE_2M_MASK) in
      m ← for_up (Z.to_nat ((end_ - base) `div` HUGE_PAGE_2M)) 0 (map_fb cpu base) m;
      Ok (mmu_tlb_flush_all m)
  end.

End operations.

(** ** Sharing on fork *)

(** [__atomic_fetch_add(&page->refcount, 1)] *)
Class PageRefs (St : Type) := { ps_ref : Z -> St -> res St }.

#[export] Instance pmm_refs : PageRefs pmm := {
  ps_ref p s := upd_page s p (fun g => set_refcount (u32 (pg_refcount g + 1)) g)
}.

Section clone.
Context {St : Type} `{!PageSource St} `{!PageRefs St}.
Implicit Types m : mmu St.

(** [is_shared] of the area around [virt] in the parent's address space. *)
Variable vma_shared : Z -> bool.

Definition clone_addr (l4 l3 l2 l1 : Z) : Z :=
  Z.lor (Z.lor (Z.lor (Z.shiftl l4 39) (Z.shiftl l3 30)) (Z.shiftl l2 21)) (Z.shiftl l1 12).

(** One page of the parent: shared pages are mapped as they are, others read-only and
    copied on the next write. *)
Definition clone_page (cpu : nat) (child : Z) (l4 l3 l2 pt l1 : Z) m : res (mmu St) :=
  let pte := get_entry pt l1 m in
  if negb (has_flag pte PT_PRESENT) || negb (has_flag pte PT_USER) then Ok m
  else
    let phys := Z.land pte PT_ADDR_MASK in
    let page := ps_paddr_to_page (mm_pages m) phys in
    let virt := clone_addr l4 l3 l2 l1 in
    let shared := bool_decide (page = None) || vma_shared virt in
    if shared then
      let flags := Z.lor MMU_PROT_READ MMU_PROT_USER in
      let flags := if has_flag pte PT_RW then Z.lor flags MMU_PROT_WRITE else flags in
      let flags := if negb (has_flag pte PT_NX) then Z.lor flags MMU_PROT_EXEC else flags in
      let flags := if bool_decide (page = None) then Z.lor flags MMU_FLAG_WC else flags in
      '(_, m) ← mmu_map_page_unlocked cpu child virt phys flags m; Ok m
    else
      let rw := has_flag pte PT_RW in
      let pte := if rw then Z.lor (Z.land pte (Z.lnot PT_RW)) PT_COW else pte in
      let m := if rw then set_entry pt l1 pte m else m in
      m ← match page with None => Ok m | Some p => s ← ps_ref p (mm_pages m); Ok (with_st s m) end;
      let flags := Z.lor MMU_PROT_READ MMU_PROT_USER in
      let flags := if has_flag pte PT_COW then Z.lor flags MMU_FLAG_COW else flags in
      let flags := if negb (has_flag pte PT_NX) then Z.lor flags MMU_PROT_EXEC else flags in
      '(_, m) ← mmu_map_page_unlocked cpu child virt phys flags m; Ok m.

(** An entry that is to be entered: present, not [huge], pointing to a valid frame. *)
Definition clone_enter (body : Z -> mmu St -> res (mmu St)) (huge t i : Z) m : res (mmu St) :=
  let e := get_entry t i m in
  if negb (has_flag e PT_PRESENT) || has_flag e huge then Ok m
  else
    v ← is_valid_table_phys (p2table e) m;
    if negb v then Ok m else body (p2table e) m.

Definition clone_pt (cpu : nat) (child l4 l3 l2 pt : Z) m : res (mmu St) :=
  for_up 512 0 (clone_page cpu child l4 l3 l2 pt) m.

Definition clone_pd (cpu : nat) (child l4 l3 pd : Z) m : res (mmu St) :=
  for_up 512 0 (fun l2 => clone_enter (clone_pt cpu child l4 l3 l2) PT_HUGE pd l2) m.

Definition clone_pdpt (cpu : nat) (child l4 pdpt : Z) m : res (mmu St) :=
  for_up 512 0 (fun l3 => clone_enter (clone_pd cpu child l4 l3) PT_HUGE pdpt l3) m.

Definition mmu_clone_user_cow (cpu : nat) (parent_ctx child_ctx : Z) m : res (Z * mmu St) :=
  if decide (parent_ctx = 0 \/ child_ctx = 0) then Ok (- EINVAL, m)
  else
    parent ← pml4_of parent_ctx m;
    child ← pml4_of child_ctx m;
    m ← for_up 256 0 (fun l4 => clone_enter (clone_pdpt cpu child l4) 0 parent l4) m;
    let m := if decide (Z.land (mm_cr3 m) PT_ADDR_MASK = parent) then write_cr3 parent m else m in
    Ok (0, m).

End clone.
