(* ===== verification/MmuWalk.v ===== *)
(** * Page tables: entries, and the walk of the processor

    [walk] is the reference: the translation as the processor performs it, one entry per
    level.  [reach] names the table at a level on the way to an address. *)

From stdpp Require Import base tactics option list numbers gmap.
From Stdlib Require Import ZArith Lia.
From S2P Require Import Prelude Pmm PmmSpec SlabMem Slab Mmu.

Local Open Scope Z_scope.

(** ** Bits of entries *)

Lemma addr_mask_bit i : 0 <= i -> Z.testbit PT_ADDR_MASK i = bool_decide (12 <= i < 52).
Proof.
  intros Hi; change PT_ADDR_MASK with (Z.shiftl (Z.ones 40) 12); rewrite Z.shiftl_spec by done.
  destruct (decide (12 <= i)) as [Hl|Hl].
  - rewrite Z.testbit_ones_nonneg by lia; case_bool_decide; [apply Z.ltb_lt|apply Z.ltb_ge]; lia.
  - rewrite Z.testbit_neg_r by lia; rewrite bool_decide_false by lia; done.
Qed.

(** The address of a frame: a multiple of the page size below [2 ^ 52]. *)
Definition frame_addr (t : Z) : Prop := (4096 | t) /\ 0 < t < 2 ^ 52.

Lemma frame_low t i : frame_addr t -> 0 <= i < 12 -> Z.testbit t i = false.
Proof.
  intros [[q ->] _] Hi; change 4096 with (2 ^ 12); rewrite <- Z.shiftl_mul_pow2 by lia.
  rewrite Z.shiftl_spec by lia; apply Z.testbit_neg_r; lia.
Qed.

Lemma frame_high t i : frame_addr t -> 52 <= i -> Z.testbit t i = false.
Proof.
  intros [_ Ht] Hi; rewrite Z.testbit_odd, Z.shiftr_div_pow2 by lia.
  rewrite Z.div_small; [done|]; split; [lia|]; apply Z.lt_le_trans with (2 ^ 52); [lia|].
  apply Z.pow_le_mono_r; lia.
Qed.

Lemma frame_mask t : frame_addr t -> Z.land t PT_ADDR_MASK = t.
Proof.
  intros Ht; apply Z.bits_inj'; intros i Hi; rewrite Z.land_spec, addr_mask_bit by done.
  case_bool_decide; [by rewrite andb_true_r|]; rewrite andb_false_r; symmetry.
  destruct (decide (i < 12)); [apply frame_low|apply frame_high]; done || lia.
Qed.

(** Flags added to a frame's address do not change it, when they lie outside the mask. *)
Lemma frame_lor t f : frame_addr t -> Z.land f PT_ADDR_MASK = 0 -> Z.land (Z.lor t f) PT_ADDR_MASK = t.
Proof. intros Ht Hf; by rewrite Z.land_lor_distr_l, Hf, Z.lor_0_r, frame_mask. Qed.

Lemma p2table_entry t : frame_addr t -> p2table (table_entry t) = t.
Proof.
  intros Ht; unfold p2table, table_entry; rewrite <- !Z.lor_assoc; by apply frame_lor.
Qed.

Lemma table_entry_present t : has_flag (table_entry t) PT_PRESENT = true.
Proof.
  unfold PT_PRESENT; rewrite has_flag_bit by lia; unfold table_entry; rewrite !Z.lor_spec.
  change (Z.testbit PT_PRESENT 0) with true; by rewrite !orb_true_r.
Qed.

Lemma table_entry_huge t : frame_addr t -> has_flag (table_entry t) PT_HUGE = false.
Proof.
  intros Ht; unfold PT_HUGE; rewrite has_flag_bit by lia; unfold table_entry; rewrite !Z.lor_spec.
  by rewrite frame_low by (done || lia).
Qed.

Lemma entry_zero f : has_flag 0 f = false.
Proof. unfold has_flag; by rewrite Z.land_0_l. Qed.

(** ** Indices *)

(** The index of an address at a level, 4 being the top. *)
Definition idx (l : nat) (v : Z) : Z := Z.land (Z.shiftr v (12 + 9 * (Z.of_nat l - 1))) 0x1FF.

Lemma idx_range l v : 0 <= idx l v < 512.
Proof.
  unfold idx; change 0x1FF with (Z.ones 9); rewrite Z.land_ones by lia; by apply Z.mod_pos_bound.
Qed.

(** [v] and [v'] take the same way down to level [l]. *)
Definition same_down (l : nat) (v v' : Z) : Prop := forall j, (l <= j <= 4)%nat -> idx j v = idx j v'.

Lemma same_down_seq l v v' : same_down l v v' <-> Forall (fun j => idx j v = idx j v') (seq l (5 - l)).
Proof.
  rewrite Forall_forall; split; intros Hs j Hj; apply Hs; [apply elem_of_seq in Hj|apply elem_of_seq]; lia.
Qed.

#[export] Instance same_down_dec l v v' : Decision (same_down l v v').
Proof.
  destruct (decide (Forall (fun j => idx j v = idx j v') (seq l (5 - l)))) as [Hy|Hn].
  - left; by apply same_down_seq.
  - right; by rewrite same_down_seq.
Defined.

(** ** The walk *)

(** The entry at level [l] leads to a table: present, and not a large page. *)
Definition descends (l : nat) (e : Z) : bool :=
  has_flag e PT_PRESENT && negb (bool_decide (l ≠ 4%nat) && has_flag e PT_HUGE).

Section walk.
Implicit Types w : gmap Z Z.

(** The leaf that the processor finds below table [t] of level [l]: its level and entry. *)
Fixpoint walk_from (l : nat) w (t v : Z) : option (nat * Z) :=
  match l with
  | O => None
  | S l' =>
      let e := entry_at w t (idx l v) in
      if has_flag e PT_PRESENT then
        if bool_decide (l' = 0%nat) || negb (descends l e) then Some (l, e)
        else walk_from l' w (p2table e) v
      else None
  end.

Definition walk w (root v : Z) : option (nat * Z) := walk_from 4 w root v.

(** The words it reads. *)
Fixpoint reads (l : nat) w (t v : Z) : list Z :=
  match l with
  | O => []
  | S l' =>
      let e := entry_at w t (idx l v) in
      (t + 8 * idx l v) :: (if negb (bool_decide (l' = 0%nat)) && descends l e then reads l' w (p2table e) v else [])
  end.

Lemma walk_ext l w w' t v :
  (forall a, a ∈ reads l w t v -> w' !! a = w !! a) -> walk_from l w' t v = walk_from l w t v.
Proof.
  revert t; induction l as [|l IH]; intros t Hw; [done|]; cbn [walk_from reads] in *.
  assert (He : entry_at w' t (idx (S l) v) = entry_at w t (idx (S l) v)).
  { unfold entry_at; rewrite (Hw (t + 8 * idx (S l) v)); [done|constructor]. }
  rewrite He; set (e := entry_at w t (idx (S l) v)) in *.
  destruct (has_flag e PT_PRESENT), (bool_decide (l = 0%nat)) eqn:E0, (descends (S l) e) eqn:Ed; cbn; try done.
  apply IH; intros a Ha; apply Hw; cbn; by right.
Qed.

(** The table of level [l'] on the way of [v] from the table [t] of level [l]. *)
Inductive reach w (v : Z) : nat -> Z -> nat -> Z -> Prop :=
  | reach_here l t : reach w v l t l t
  | reach_down l t l' t' :
      reach w v l t (S l') t' -> (0 < l')%nat -> descends (S l') (entry_at w t' (idx (S l') v)) = true ->
      reach w v l t l' (p2table (entry_at w t' (idx (S l') v))).

Lemma reach_trans w v l t l1 t1 l2 t2 : reach w v l t l1 t1 -> reach w v l1 t1 l2 t2 -> reach w v l t l2 t2.
Proof. intros H1 H2; induction H2; [done|]; constructor; auto. Qed.

Lemma reach_le w v l t l' t' : reach w v l t l' t' -> (l' <= l)%nat.
Proof. induction 1; lia. Qed.

Lemma reads_reach l w t v a : (0 < l)%nat -> a ∈ reads l w t v ->
  exists l' t', reach w v l t l' t' /\ (0 < l')%nat /\ a = t' + 8 * idx l' v.
Proof.
  revert t; induction l as [|l IH]; intros t Hl; [lia|]; cbn [reads]; intros [->|Ha]%elem_of_cons.
  { exists (S l), t; split; [constructor|]; split; [lia|done]. }
  destruct (bool_decide (l = 0%nat)) eqn:E0; [by apply elem_of_nil in Ha|]; apply bool_decide_eq_false in E0.
  destruct (descends (S l) _) eqn:Ed; [|by apply elem_of_nil in Ha]; cbn [negb andb] in Ha.
  destruct (IH _ ltac:(lia) Ha) as (l' & t' & Hr & Hl' & ->); exists l', t'; split; [|done].
  eapply reach_trans; [|exact Hr]; constructor; [constructor|lia|exact Ed].
Qed.

(** The walk goes on from a table it reaches. *)
Lemma walk_reach w v l t l' t' : reach w v l t l' t' -> walk_from l w t v = walk_from l' w t' v.
Proof.
  induction 1 as [|l t l' t' Hr IH Hl Hd]; [done|]; rewrite IH; cbn [walk_from].
  pose proof Hd as Hd'; unfold descends in Hd'; apply andb_true_iff in Hd' as [-> _].
  rewrite bool_decide_false by lia; by rewrite Hd.
Qed.

(** A page is an entry of one of the three lower levels. *)
Lemma walk_from_level n w t v l e : walk_from n w t v = Some (l, e) -> (1 <= l <= n)%nat.
Proof.
  revert t; induction n as [|n IH]; intros t; [done|]; cbn [walk_from]; destruct (has_flag _ PT_PRESENT); [|done].
  destruct (_ || _); [intros [= <- <-]; lia|]; intros Hw; specialize (IH _ Hw); lia.
Qed.

Lemma walk_level w root v l e : walk w root v = Some (l, e) -> (1 <= l <= 3)%nat.
Proof.
  unfold walk; cbn [walk_from]; set (e4 := entry_at _ _ _); destruct (has_flag e4 PT_PRESENT) eqn:E; [|done].
  unfold descends; rewrite E; cbn [andb orb]; repeat (rewrite bool_decide_false by (auto || lia)); cbn [andb orb negb].
  apply (walk_from_level 3).
Qed.

(** A walk that does not come to a page table depends on the levels above only. *)
Lemma walk_upper w w' v l t :
  (1 <= l <= 4)%nat ->
  (forall l1 t1, (2 <= l1)%nat -> reach w v l t l1 t1 -> entry_at w' t1 (idx l1 v) = entry_at w t1 (idx l1 v)) ->
  (exists pt, reach w v l t 1 pt) \/
  (walk_from l w' t v = walk_from l w t v /\ forall e, walk_from l w t v ≠ Some (1%nat, e)).
Proof.
  revert t; induction l as [|l IH]; intros t Hl He; [lia|]; destruct (decide (l = 0%nat)) as [->|Hl0]; [left; eexists; constructor|].
  cbn [walk_from]; rewrite (He (S l) t) by (lia || constructor); set (e := entry_at w t (idx (S l) v)) in *.
  destruct (has_flag e PT_PRESENT); [|by right]; rewrite bool_decide_false by done.
  destruct (descends (S l) e) eqn:Ed; [|right; split; [done|]; intros ? [= El _]; lia].
  cbn [orb negb]; assert (Hstep : reach w v (S l) t l (p2table e)) by (apply reach_down; [constructor|lia|done]).
  destruct (IH (p2table e)) as [[pt Hpt]|E]; [lia|..].
  - intros l1 t1 Hl1 Hp; apply He; [done|]; by eapply reach_trans.
  - left; exists pt; by eapply reach_trans.
  - by right.
Qed.

End walk.
