(* ===== verification/MmuInv.v ===== *)
(** * Page tables: what is known of the tables of the user half

    The frames of all tables below the user half of the top-level tables are held from
    the page allocator, one block each; every table but the top-level ones has one
    parent entry at most.  [FrameLaws] is what is needed of the page allocator. *)

From stdpp Require Import base tactics option list numbers gmap.
From Stdlib Require Import ZArith Lia.
From S2P Require Import Prelude Pmm PmmSpec SlabMem Slab Mmu MmuWalk.

Local Open Scope Z_scope.

Abbreviation PAGE_FLAG_DIRTY := PageCache.PAGE_FLAG_DIRTY.

(** [fr_ok s H]: the allocator is consistent and the frames in [H] are in use: those with 0
    as tables, with one reference, those with [n] above 0 as pages with [n] references.
    [fr_boot] are the frames that the boot loader keeps, [fr_lookup] is the page array. *)
Class FrameLaws (St : Type) `{!PageSource St} := {
  fr_ok : St -> gmap Z nat -> Prop;
  fr_boot : Z -> Prop;
  fr_boot_apart s H p : fr_ok s H -> H !! p = Some 0%nat -> ~ fr_boot p;
  fr_place s H p : fr_ok s H -> H !! p = Some 0%nat -> frame_addr (p * 4096);
  fr_paddr s H p : fr_ok s H -> H !! p = Some 0%nat -> ps_paddr_to_page s (p * 4096) = Some p;
  fr_lookup : Z -> option Z;
  fr_lookup_ok s H a : fr_ok s H -> 0 <= a -> ps_paddr_to_page s a = fr_lookup a;
  fr_desc s H a p : fr_ok s H -> 0 <= a -> ps_paddr_to_page s a = Some p -> exists f, ps_flags s p = Ok f;
  fr_alloc_ok s H cpu : fr_ok s H ->
    exists r s', ps_alloc cpu 0 (Z.lor PAGE_FLAG_KERNEL PAGE_FLAG_ZERO) s = Ok (r, s') /\
      match r with
      | None => s' = s
      | Some p => H !! p = None /\ fr_ok s' (<[p := 0%nat]> H) /\ ps_flags s' p = Ok PAGE_FLAG_KERNEL /\
          (forall q o, H !! q = Some o -> ps_flags s' q = ps_flags s q)
      end;
  fr_free_ok s H cpu p : fr_ok s H -> H !! p = Some 0%nat ->
    exists s', ps_free cpu (Some p) 0 s = Ok s' /\ fr_ok s' (delete p H) /\
      (forall q o, q ≠ p -> H !! q = Some o -> ps_flags s' q = ps_flags s q);
  fr_touch_ok s H q f : fr_ok s H -> ps_flags s q = Ok f -> has_flag f PAGE_FLAG_FREE = false ->
    exists s', ps_set_flags q (Z.lor f PAGE_FLAG_DIRTY) s = Ok s' /\ fr_ok s' H /\
      ps_flags s' q = Ok (Z.lor f PAGE_FLAG_DIRTY) /\
      (forall q', q' ≠ q -> ps_flags s' q' = ps_flags s q')
}.

(** The entries of a table that belong to the user half. *)
Definition user_index (l : nat) (i : Z) : Prop := 0 <= i < 512 /\ (l = 4%nat -> i < 256).

Definition user (v : Z) : Prop := idx 4 v < 256.

Lemma user_idx l v : user v -> user_index l (idx l v).
Proof. intros Hv; split; [apply idx_range|by intros ->]. Qed.

Section tables.
Context {St : Type} `{!PageSource St} `{!FrameLaws St}.
Implicit Types m : mmu St.
Implicit Types w : gmap Z Z.

(** The frame of a table. *)
Definition table_frame (s : St) (H : gmap Z nat) (t : Z) : Prop :=
  exists p f, t = p * 4096 /\ H !! p = Some 0%nat /\ ps_flags s p = Ok f /\
    has_flag f (Z.lor PAGE_FLAG_FREE PAGE_FLAG_RESERVED) = false.

(** [G] gives the level of every table. *)
Record linked_ok w (G : gmap Z nat) : Prop := {
  lk_level t l : G !! t = Some l -> (1 <= l <= 4)%nat;
  lk_child t l i : G !! t = Some (S l) -> (0 < l)%nat -> user_index (S l) i ->
    descends (S l) (entry_at w t i) = true -> G !! p2table (entry_at w t i) = Some l;
  lk_parent t i t' i' l : G !! t = Some (S l) -> G !! t' = Some (S l) -> (0 < l)%nat ->
    user_index (S l) i -> user_index (S l) i' ->
    descends (S l) (entry_at w t i) = true -> descends (S l) (entry_at w t' i') = true ->
    p2table (entry_at w t i) = p2table (entry_at w t' i') -> t = t' /\ i = i';
  lk_zero t l i : G !! t = Some (S l) -> (0 < l)%nat -> user_index (S l) i ->
    has_flag (entry_at w t i) PT_PRESENT = false -> entry_at w t i = 0
}.

Record tables_ok m (G H : gmap Z nat) : Prop := {
  to_pages : fr_ok (mm_pages m) H;
  to_frame t l : G !! t = Some l -> table_frame (mm_pages m) H t;
  to_linked : linked_ok (mm_words m) G
}.

(** ** Addresses of entries *)

Lemma slot_inj m G H t l i t' l' i' :
  tables_ok m G H -> G !! t = Some l -> G !! t' = Some l' -> 0 <= i < 512 -> 0 <= i' < 512 ->
  t + 8 * i = t' + 8 * i' -> t = t' /\ i = i'.
Proof.
  intros HT Ht Ht' Hi Hi' E.
  destruct (to_frame _ _ _ HT _ _ Ht) as (p & _ & -> & _), (to_frame _ _ _ HT _ _ Ht') as (p' & _ & -> & _).
  assert (p = p') as -> by lia; split; lia.
Qed.

Lemma entry_write w t i v t' i' : (t' = t /\ i' = i) \/ t' + 8 * i' ≠ t + 8 * i ->
  entry_at (<[t + 8 * i := v]> w) t' i' = if decide (t' = t /\ i' = i) then v else entry_at w t' i'.
Proof.
  unfold entry_at; intros [[-> ->]|Hne].
  - by rewrite lookup_insert_eq, decide_True.
  - rewrite lookup_insert_ne by auto; rewrite decide_False; [done|]; intros [-> ->]; done.
Qed.

(** ** Ways through the tables *)

Lemma reach_table w G root v l t :
  linked_ok w G -> G !! root = Some 4%nat -> user v -> reach w v 4 root l t -> G !! t = Some l.
Proof.
  intros HL Hr Hv Hp; remember 4%nat as n eqn:En; induction Hp as [|n root l t Hp IH Hl Hd]; [by subst|].
  apply (lk_child _ _ HL t l (idx (S l) v)); auto using user_idx.
Qed.

(** Every table is on one way only. *)
Lemma reach_unique w G root v root' v' l t :
  linked_ok w G -> G !! root = Some 4%nat -> G !! root' = Some 4%nat -> user v -> user v' ->
  reach w v 4 root l t -> reach w v' 4 root' l t -> root = root' /\ forall j, (l < j <= 4)%nat -> idx j v = idx j v'.
Proof.
  intros HL Hr Hr' Hv Hv' Hp; revert root' Hr'; remember 4%nat as n eqn:En.
  induction Hp as [n root|n root l t Hp IH Hl Hd]; intros root' Hr' Hp'.
  { subst n; pose proof (reach_le _ _ _ _ _ _ Hp') as _; inversion Hp' as [|? ? ? ? Hp2 ? ? ]; subst; [split; [done|lia]|].
    apply reach_le in Hp2; lia. }
  subst n; inversion Hp' as [? ?|? ? ? t2 Hp2 Hl2 Hd2 E1 E2 E3 E4]; subst.
  { apply reach_le in Hp; lia. }
  pose proof (reach_table _ _ _ _ _ _ HL Hr Hv Hp) as Ht; pose proof (reach_table _ _ _ _ _ _ HL Hr' Hv' Hp2) as Ht2.
  destruct (lk_parent _ _ HL t (idx (S l) v) t2 (idx (S l) v') l) as [-> Ei]; auto using user_idx.
  destruct (IH eq_refl Hr root' Hr' Hp2) as [-> Hj]; split; [done|]; intros j Hj'.
  destruct (decide (j = S l)) as [->|]; [done|]; apply Hj; lia.
Qed.

Lemma reads_table w G root v a :
  linked_ok w G -> G !! root = Some 4%nat -> user v -> a ∈ reads 4 w root v ->
  exists l t, G !! t = Some l /\ reach w v 4 root l t /\ a = t + 8 * idx l v.
Proof.
  intros HL Hr Hv Ha; apply reads_reach in Ha as (l & t & Hp & Hl & ->); [|lia].
  exists l, t; split; [|done]; by eapply reach_table.
Qed.

(** A change of words that are no entries of tables is not seen. *)
Lemma walk_outside w w' G root v :
  linked_ok w G -> G !! root = Some 4%nat -> user v ->
  (forall t l i, G !! t = Some l -> 0 <= i < 512 -> w' !! (t + 8 * i) = w !! (t + 8 * i)) ->
  walk w' root v = walk w root v.
Proof.
  intros HL Hr Hv Hw; apply walk_ext; intros a Ha.
  destruct (reads_table _ _ _ _ _ HL Hr Hv Ha) as (l & t & Ht & _ & ->); eapply Hw; [exact Ht|apply idx_range].
Qed.

(** A change of the entry of [v] at level [l] is seen only below it. *)
Lemma walk_write m G H root v l t e root' v' :
  tables_ok m G H -> G !! root = Some 4%nat -> user v -> reach (mm_words m) v 4 root l t ->
  G !! root' = Some 4%nat -> user v' -> ~ (root' = root /\ same_down l v v') ->
  walk (<[t + 8 * idx l v := e]> (mm_words m)) root' v' = walk (mm_words m) root' v'.
Proof.
  intros HT Hr Hv Hp Hr' Hv' Hn; pose proof (to_linked _ _ _ HT) as HL; apply walk_ext; intros a Ha.
  rewrite lookup_insert_ne; [done|]; intros <-.
  destruct (reads_table _ _ _ _ _ HL Hr' Hv' Ha) as (l' & t' & Ht' & Hp' & E).
  pose proof (reach_table _ _ _ _ _ _ HL Hr Hv Hp) as Ht.
  destruct (slot_inj m G H t l (idx l v) t' l' (idx l' v') HT Ht Ht') as [-> Ei]; [apply idx_range..|done|].
  assert (l' = l) as -> by congruence; destruct (reach_unique _ _ _ _ _ _ _ _ HL Hr Hr' Hv Hv' Hp Hp') as [-> Hj].
  apply Hn; split; [done|]; intros j Hj'; destruct (decide (j = l)) as [->|]; [done|]; apply Hj; lia.
Qed.

Lemma root_nonzero m G H root l : tables_ok m G H -> G !! root = Some l -> root ≠ 0.
Proof.
  intros HT Hr; destruct (to_frame _ _ _ HT _ _ Hr) as (p & g & -> & Hp & _).
  destruct (fr_place _ _ _ (to_pages _ _ _ HT) Hp); lia.
Qed.

End tables.

(** A frame that is used as a page has one reference, and can get more. *)
Class RefLaws (St : Type) `{!PageSource St} `{!FrameLaws St} `{!PageRefs St} := {
  fr_hand s H p : fr_ok s H -> H !! p = Some 0%nat -> fr_ok s (<[p := 1%nat]> H);
  fr_ref_ok s H q n : fr_ok s H -> H !! q = Some (S n) -> Z.of_nat (S (S n)) < 2 ^ 32 ->
    exists s', ps_ref q s = Ok s' /\ fr_ok s' (<[q := S (S n)]> H) /\ forall q', ps_flags s' q' = ps_flags s q'
}.
