(* ===== verification/MmuTables.v ===== *)
(** * Page tables: taking tables in and out *)

From stdpp Require Import base tactics option list numbers gmap.
From Stdlib Require Import ZArith Lia.
From S2P Require Import Prelude Pmm PmmSpec SlabMem Slab Mmu MmuWalk MmuInv.

Local Open Scope Z_scope.

Section tables.
Context {St : Type} `{!PageSource St} `{!FrameLaws St}.
Implicit Types m : mmu St.
Implicit Types w : gmap Z Z.

(** ** Words *)

Lemma clear_words_in t w i : 0 <= i < 512 -> clear_words t w !! (t + 8 * i) = Some 0.
Proof.
  intros Hi; unfold clear_words; assert (Hin : i ∈ seqZ 0 512) by (apply elem_of_seqZ; lia).
  induction (seqZ 0 512) as [|j l IH]; [by apply elem_of_nil in Hin|]; cbn [foldr].
  destruct (decide (j = i)) as [->|Hne]; [by rewrite lookup_insert_eq|].
  rewrite lookup_insert_ne by lia; apply IH; by apply elem_of_cons in Hin as [->|].
Qed.

Lemma clear_words_out t w a : (forall i, 0 <= i < 512 -> a ≠ t + 8 * i) -> clear_words t w !! a = w !! a.
Proof.
  intros Ha; unfold clear_words; assert (Hin : forall i, i ∈ seqZ 0 512 -> a ≠ t + 8 * i).
  { intros i Hi; apply Ha; apply elem_of_seqZ in Hi; lia. }
  induction (seqZ 0 512) as [|j l IH]; [done|]; cbn [foldr]; rewrite lookup_insert_ne.
  - apply IH; intros i Hi; apply Hin; by right.
  - apply not_eq_sym, Hin; by left.
Qed.

(** The slots of the tables of [G], but for entry [i] of [t], hold the same. *)
Definition same_but w w' (G : gmap Z nat) (t i : Z) : Prop :=
  forall t' l' i', G !! t' = Some l' -> 0 <= i' < 512 -> ~ (t' = t /\ i' = i) ->
    w' !! (t' + 8 * i') = w !! (t' + 8 * i').

Lemma same_but_entry w w' G t i t' l' i' :
  same_but w w' G t i -> G !! t' = Some l' -> 0 <= i' < 512 -> ~ (t' = t /\ i' = i) ->
  entry_at w' t' i' = entry_at w t' i'.
Proof. intros Hs Ht Hi Hn; unfold entry_at; by rewrite (Hs _ _ _ Ht Hi Hn). Qed.

(** Nothing is mapped below entry [i] of the table [t] of level [l]. *)
Definition dead w (l : nat) (t i : Z) : Prop := forall v, idx l v = i -> walk_from l w t v = None.

Lemma dead_absent w l t i : has_flag (entry_at w t i) PT_PRESENT = false -> dead w l t i.
Proof. intros He v <-; destruct l as [|l]; [done|]; cbn [walk_from]; by rewrite He. Qed.

Lemma dead_empty w l t i c :
  (0 < l)%nat -> p2table (entry_at w t i) = c -> descends (S l) (entry_at w t i) = true ->
  (forall j, 0 <= j < 512 -> entry_at w c j = 0) -> dead w (S l) t i.
Proof.
  intros Hl Hc Hd Hz v <-; cbn [walk_from]; destruct (has_flag _ PT_PRESENT); [|done].
  rewrite bool_decide_false by lia; rewrite Hd; cbn [orb negb]; rewrite Hc; destruct l as [|l]; [done|].
  cbn [walk_from]; rewrite Hz by apply idx_range; by rewrite entry_zero.
Qed.

Lemma reach_ext_entry w w' v root l t :
  reach w v 4 root l t ->
  (forall l1 t1, (l < l1)%nat -> reach w v 4 root l1 t1 -> entry_at w' t1 (idx l1 v) = entry_at w t1 (idx l1 v)) ->
  reach w' v 4 root l t.
Proof.
  intros Hp; remember 4%nat as n eqn:En; induction Hp as [|n root l t Hp IH Hl Hd]; intros Hw; [constructor|].
  assert (He : entry_at w' t (idx (S l) v) = entry_at w t (idx (S l) v)) by (apply Hw; [lia|done]).
  rewrite <- He; apply reach_down; [|done|by rewrite He]; apply IH; [done|]; intros l1 t1 Hl1; apply Hw; lia.
Qed.

Lemma reach_ext w w' v root l t :
  reach w v 4 root l t ->
  (forall l1 t1, (l < l1)%nat -> reach w v 4 root l1 t1 -> w' !! (t1 + 8 * idx l1 v) = w !! (t1 + 8 * idx l1 v)) ->
  reach w' v 4 root l t.
Proof. intros Hp Hw; eapply reach_ext_entry; [done|]; intros l1 t1 Hl Hp1; unfold entry_at; by rewrite (Hw l1 t1). Qed.

(** The way to a table does not read the entries of tables of its level or below. *)
Lemma reach_same w w' G root v l t t0 i0 l0 :
  linked_ok w G -> G !! root = Some 4%nat -> user v -> reach w v 4 root l t ->
  G !! t0 = Some l0 -> (l0 <= l)%nat -> same_but w w' G t0 i0 -> reach w' v 4 root l t.
Proof.
  intros HL Hr Hv Hp Ht0 Hle Hs; eapply reach_ext; [exact Hp|]; intros l1 t1 Hl1 Hp1.
  pose proof (reach_table _ _ _ _ _ _ HL Hr Hv Hp1) as Ht1.
  apply (Hs t1 l1); [done|apply idx_range|]; intros [-> _]; assert (l1 = l0) by congruence; lia.
Qed.

(** A slot below which nothing is mapped before and after. *)
Lemma walk_dead m G H w' t l i root v :
  tables_ok m G H -> G !! t = Some l -> 0 <= i < 512 -> same_but (mm_words m) w' G t i ->
  dead (mm_words m) l t i -> dead w' l t i ->
  G !! root = Some 4%nat -> user v -> walk w' root v = walk (mm_words m) root v.
Proof.
  intros HT Ht Hi Hs Hd Hd' Hr Hv; pose proof (to_linked _ _ _ HT) as HL.
  destruct (decide ((t + 8 * i) ∈ reads 4 (mm_words m) root v)) as [Hin|Hn].
  - destruct (reads_table _ _ _ _ _ HL Hr Hv Hin) as (l' & t' & Ht' & Hp & E).
    destruct (slot_inj m G H t l i t' l' (idx l' v) HT Ht Ht' Hi (idx_range _ _) E) as [<- ->].
    assert (l' = l) as -> by congruence.
    pose proof (reach_same _ _ _ _ _ _ _ _ _ _ HL Hr Hv Hp Ht (Nat.le_refl l) Hs) as Hp'.
    unfold walk; rewrite (walk_reach _ _ _ _ _ _ Hp), (walk_reach _ _ _ _ _ _ Hp'), Hd, Hd'; done.
  - apply walk_ext; intros a Ha; destruct (reads_table _ _ _ _ _ HL Hr Hv Ha) as (l' & t' & Ht' & Hp & ->).
    apply (Hs t' l'); [done|apply idx_range|]; intros [-> Ei]; apply Hn; by rewrite <- Ei.
Qed.

(** ** Frames *)

Lemma flags_split f : has_flag f (Z.lor PAGE_FLAG_FREE PAGE_FLAG_RESERVED) = false ->
  has_flag f PAGE_FLAG_FREE = false.
Proof.
  unfold has_flag; rewrite !negb_false_iff, !bool_decide_eq_true; intros E.
  apply Z.bits_inj'; intros i Hi; apply (f_equal (fun z => Z.testbit z i)) in E.
  rewrite Z.land_spec, Z.lor_spec, Z.bits_0 in E; rewrite Z.land_spec, Z.bits_0.
  destruct (Z.testbit f i); [|done]; cbn in *; by apply orb_false_iff in E as [-> _].
Qed.

Lemma frame_page_mask p : Z.land (p * 4096) PAGE_MASK = 0.
Proof. change PAGE_MASK with (Z.ones 12); rewrite Z.land_ones by lia; apply Z.mod_mul; lia. Qed.

Lemma frame_valid m H t : fr_ok (mm_pages m) H -> table_frame (mm_pages m) H t -> is_valid_table_phys t m = Ok true.
Proof.
  intros Hok (p & f & -> & Hp & Hf & Hfl); destruct (fr_place _ _ _ Hok Hp) as [_ Hpos].
  unfold is_valid_table_phys; rewrite decide_False by (rewrite frame_page_mask; lia).
  rewrite (fr_paddr _ _ _ Hok Hp), Hf; mstep; by rewrite flags_split.
Qed.

Lemma frame_free cpu m H p f :
  fr_ok (mm_pages m) H -> H !! p = Some 0%nat -> ps_flags (mm_pages m) p = Ok f ->
  has_flag f (Z.lor PAGE_FLAG_FREE PAGE_FLAG_RESERVED) = false ->
  exists s', free_table_frame cpu (p * 4096) m = Ok (with_st s' m) /\ fr_ok s' (delete p H) /\
    (forall q o, q ≠ p -> H !! q = Some o -> ps_flags s' q = ps_flags (mm_pages m) q).
Proof.
  intros Hok Hp Hf Hfl; unfold free_table_frame.
  rewrite (frame_valid m H) by (done || by exists p, f); mstep; cbn [negb].
  rewrite (fr_paddr _ _ _ Hok Hp), Hf; mstep; rewrite Hfl.
  destruct (fr_free_ok _ _ cpu p Hok Hp) as (s' & -> & Hok' & Hs); mstep; by exists s'.
Qed.

Lemma frame_alloc cpu m H :
  fr_ok (mm_pages m) H ->
  exists r m', alloc_table_frame cpu m = Ok (r, m') /\
    match r with
    | None => m' = m /\ exists s, ps_alloc cpu 0 (Z.lor PAGE_FLAG_KERNEL PAGE_FLAG_ZERO) (mm_pages m) = Ok (None, s)
    | Some c => exists p s',
        ps_alloc cpu 0 (Z.lor PAGE_FLAG_KERNEL PAGE_FLAG_ZERO) (mm_pages m) = Ok (Some p, s') /\
        c = p * 4096 /\ frame_addr c /\ H !! p = None /\
        m' = with_words (clear_words c (mm_words m)) (with_st s' m) /\ fr_ok s' (<[p := 0%nat]> H) /\
        table_frame s' (<[p := 0%nat]> H) c /\
        (forall q o, H !! q = Some o -> ps_flags s' q = ps_flags (mm_pages m) q)
    end.
Proof.
  intros Hok; destruct (fr_alloc_ok _ _ cpu Hok) as (r & s' & E & Hr).
  unfold alloc_table_frame; rewrite E; mstep.
  destruct r as [p|]; [|subst s'; exists None, m; destruct m; split; [done|]; split; [done|eauto]].
  destruct Hr as (Hn & Hok' & Hf & Hfl).
  pose proof (fr_place _ _ p Hok' (lookup_insert_eq _ _ _)) as Hfr.
  assert (Ec : pmm_page_to_paddr p = p * 4096).
  { destruct Hfr as [_ Hb]; unfold pmm_page_to_paddr, PMM_PAGE_SHIFT; rewrite Z.shiftl_mul_pow2 by lia.
    apply u64_small; change (2 ^ 12) with 4096; lia. }
  rewrite Ec; eexists _, _; split; [done|]; exists p, s'; split_and!; try done.
  exists p, PAGE_FLAG_KERNEL; rewrite lookup_insert_eq; done.
Qed.

Lemma table_frame_mono (s s' : St) (H H' : gmap Z nat) t :
  (forall p, H !! p = Some 0%nat -> t = p * 4096 -> H' !! p = Some 0%nat /\ ps_flags s' p = ps_flags s p) ->
  table_frame s H t -> table_frame s' H' t.
Proof.
  intros Hs (p & f & E & Hp & Hf & Hfl); destruct (Hs p Hp E) as [Hp' Hf']; exists p, f; by rewrite Hf'.
Qed.

(** The contents of a frame. *)
Definition content (w : gmap Z Z) (p i : Z) : Z := default 0 (w !! (p * 4096 + 8 * i)).

(** The pages in use keep their contents. *)
Definition pages_kept (H : gmap Z nat) (w w' : gmap Z Z) : Prop :=
  forall p n i, H !! p = Some (S n) -> 0 <= i < 512 -> content w' p i = content w p i.

Lemma pages_kept_trans H w1 w2 w3 : pages_kept H w1 w2 -> pages_kept H w2 w3 -> pages_kept H w1 w3.
Proof. intros H1 H2 p n i Hp Hi; by rewrite (H2 p n i Hp Hi), (H1 p n i Hp Hi). Qed.

Lemma pages_kept_less H H' w w' : H ⊆ H' -> pages_kept H' w w' -> pages_kept H w w'.
Proof. intros Hs Hk p n i Hp Hi; eapply Hk; [by eapply lookup_weaken|done]. Qed.

(** A write to a table. *)
Lemma table_write_kept m G H t l i x :
  tables_ok m G H -> G !! t = Some l -> 0 <= i < 512 -> pages_kept H (mm_words m) (<[t + 8 * i := x]> (mm_words m)).
Proof.
  intros HT Ht Hi p n j Hp Hj; destruct (to_frame _ _ _ HT _ _ Ht) as (q & f & -> & Hq & _); unfold content.
  rewrite lookup_insert_ne; [done|]; intros E; assert (p = q) as -> by lia; congruence.
Qed.

(** ** A new table *)

Lemma tables_linked_ext w w' G :
  linked_ok w G -> (forall t l i, G !! t = Some l -> 0 <= i < 512 -> entry_at w' t i = entry_at w t i) -> linked_ok w' G.
Proof.
  intros [L1 L2 L3 L4] He; split; [done|..].
  - intros t l i Ht Hl Hi; rewrite (He t (S l)) by (done || apply Hi); by apply (L2 t l).
  - intros t i t' i' l Ht Ht' Hl Hi Hi'; rewrite (He t (S l)), (He t' (S l)) by (done || apply Hi || apply Hi').
    by apply (L3 t i t' i' l).
  - intros t l i Ht Hl Hi; rewrite (He t (S l)) by (done || apply Hi); by apply (L4 t l).
Qed.

(** The entry [i] of [t] leads to the new, empty table [c]. *)
Lemma linked_attach w w' G t l i c :
  linked_ok w G -> G !! t = Some (S l) -> (0 < l)%nat -> user_index (S l) i -> G !! c = None -> frame_addr c ->
  same_but w w' G t i -> entry_at w' t i = table_entry c -> (forall j, 0 <= j < 512 -> entry_at w' c j = 0) ->
  linked_ok w' (<[c := l]> G).
Proof.
  intros [L1 L2 L3 L4] Ht Hl Hi Hc Hfr Hs He Hz.
  assert (Hold : forall t' l' i', G !! t' = Some l' -> 0 <= i' < 512 -> ~ (t' = t /\ i' = i) ->
    entry_at w' t' i' = entry_at w t' i') by (intros; by eapply same_but_entry).
  assert (Hnd : forall l' j, 0 <= j < 512 -> descends l' (entry_at w' c j) = false).
  { intros l' j Hj; unfold descends; by rewrite Hz, entry_zero. }
  assert (Hg : forall t' l', <[c := l]> G !! t' = Some l' -> (t' = c /\ l' = l) \/ (t' ≠ c /\ G !! t' = Some l')).
  { intros t' l'; destruct (decide (t' = c)) as [->|]; [rewrite lookup_insert_eq; intros [= <-]; by left|].
    rewrite lookup_insert_ne by done; auto. }
  assert (Hkeep : forall t' l', G !! t' = Some l' -> <[c := l]> G !! t' = Some l').
  { intros t' l' Ht'; rewrite lookup_insert_ne; [done|]; intros ->; congruence. }
  split.
  - intros t' l' [[-> ->]|[_ Ht']]%Hg; [pose proof (L1 t _ Ht); lia|by eapply L1].
  - intros t' l' i' [[-> <-]|[_ Ht']]%Hg Hl' Hi'; [rewrite Hnd by apply Hi'; done|].
    destruct (decide (t' = t /\ i' = i)) as [[-> ->]|Hn].
    + assert (l' = l) as -> by congruence; intros _; rewrite He, p2table_entry by done; by rewrite lookup_insert_eq.
    + rewrite (Hold t' (S l') i' Ht' (proj1 Hi') Hn); intros Hd; apply Hkeep; by eapply L2.
  - intros t1 i1 t2 i2 l' [[-> <-]|[_ Ht1]]%Hg Hg2 Hl' Hi1 Hi2 Hd1 Hd2; [rewrite Hnd in Hd1 by apply Hi1; done|].
    apply Hg in Hg2 as [[-> <-]|[_ Ht2]]; [rewrite Hnd in Hd2 by apply Hi2; done|].
    assert (Hcut : forall t' i', G !! t' = Some (S l') -> user_index (S l') i' -> ~ (t' = t /\ i' = i) ->
      descends (S l') (entry_at w' t' i') = true -> p2table (entry_at w' t' i') ≠ c).
    { intros t' i' Ht' Hi' Hn; rewrite (Hold t' (S l') i' Ht' (proj1 Hi') Hn); intros Hd E.
      pose proof (L2 t' l' i' Ht' Hl' Hi' Hd); congruence. }
    destruct (decide (t1 = t /\ i1 = i)) as [[-> ->]|Hn1], (decide (t2 = t /\ i2 = i)) as [[-> ->]|Hn2]; [done|..].
    + rewrite He, p2table_entry by done; intros E; by destruct (Hcut t2 i2 Ht2 Hi2 Hn2 Hd2).
    + rewrite He, p2table_entry by done; intros E; by destruct (Hcut t1 i1 Ht1 Hi1 Hn1 Hd1).
    + rewrite (Hold t1 _ i1 Ht1 (proj1 Hi1) Hn1) in *; rewrite (Hold t2 _ i2 Ht2 (proj1 Hi2) Hn2) in *; by apply (L3 _ _ _ _ l').
  - intros t' l' i' [[-> <-]|[_ Ht']]%Hg Hl' Hi'; [intros _; apply Hz, Hi'|].
    destruct (decide (t' = t /\ i' = i)) as [[-> ->]|Hn]; [by rewrite He, table_entry_present|].
    rewrite (Hold t' (S l') i' Ht' (proj1 Hi') Hn); by apply (L4 t' l').
Qed.

(** The entry [i] of [t], which led to [c], is cleared. *)
Lemma linked_detach w G t l i c :
  linked_ok w G -> G !! t = Some (S l) -> (0 < l)%nat -> user_index (S l) i ->
  descends (S l) (entry_at w t i) = true -> p2table (entry_at w t i) = c ->
  (forall t' l' i', G !! t' = Some l' -> 0 <= i' < 512 -> t' + 8 * i' = t + 8 * i -> t' = t /\ i' = i) ->
  linked_ok (<[t + 8 * i := 0]> w) (delete c G).
Proof.
  intros [L1 L2 L3 L4] Ht Hl Hi Hd Hc Hinj.
  assert (He : forall t' l' i', G !! t' = Some l' -> 0 <= i' < 512 ->
    entry_at (<[t + 8 * i := 0]> w) t' i' = if decide (t' = t /\ i' = i) then 0 else entry_at w t' i').
  { intros t' l' i' Ht' Hi'; apply entry_write; destruct (decide (t' + 8 * i' = t + 8 * i)); [left; eauto|by right]. }
  assert (Hg : forall t' l', delete c G !! t' = Some l' -> t' ≠ c /\ G !! t' = Some l').
  { intros t' l' [? ?]%lookup_delete_Some; auto. }
  assert (Hzero : forall l', descends l' 0 = false) by (intros; unfold descends; by rewrite entry_zero).
  split.
  - intros t' l' [_ Ht']%Hg; by eapply L1.
  - intros t' l' i' [_ Ht']%Hg Hl' Hi'; rewrite (He t' (S l')) by (done || apply Hi').
    case_decide as Hn; [by rewrite Hzero|]; intros Hd'; apply lookup_delete_Some; split; [|by eapply L2].
    intros E; pose proof (L2 t l i Ht Hl Hi Hd) as Hgc; pose proof (L2 t' l' i' Ht' Hl' Hi' Hd') as Hgc'.
    assert (l' = l) as -> by congruence; apply Hn; destruct (L3 t' i' t i l) as [-> ->]; auto; congruence.
  - intros t1 i1 t2 i2 l' [_ Ht1]%Hg [_ Ht2]%Hg Hl' Hi1 Hi2; rewrite (He t1 (S l')), (He t2 (S l')) by (done || apply Hi1 || apply Hi2).
    case_decide; [by rewrite Hzero|]; case_decide; [by rewrite Hzero|]; by apply (L3 _ _ _ _ l').
  - intros t' l' i' [_ Ht']%Hg Hl' Hi'; rewrite (He t' (S l')) by (done || apply Hi').
    case_decide; [done|]; by apply (L4 t' l').
Qed.

End tables.
