(* ===== verification/MmuMap.v ===== *)
(** * Page tables: mapping a page *)

From stdpp Require Import base tactics option list numbers gmap.
From Stdlib Require Import ZArith Lia.
From S2P Require Import Prelude Pmm PmmSpec SlabMem Slab Mmu MmuWalk MmuInv MmuTables.

Local Open Scope Z_scope.

Section map.
Context {St : Type} `{!PageSource St} `{!FrameLaws St}.
Implicit Types m : mmu St.
Implicit Types w : gmap Z Z.

(** The parts of the state that no change of tables touches. *)
Record same_cpu m m' : Prop := {
  sc_ctxs : mm_ctxs m' = mm_ctxs m;
  sc_kernel : mm_kernel m' = mm_kernel m;
  sc_active : mm_active m' = mm_active m;
  sc_cr3 : mm_cr3 m' = mm_cr3 m;
  sc_pat : mm_pat m' = mm_pat m;
  sc_shoot : mm_shoot m' = mm_shoot m
}.

Lemma same_cpu_refl m : same_cpu m m.
Proof. by split. Qed.

Lemma same_cpu_trans m1 m2 m3 : same_cpu m1 m2 -> same_cpu m2 m3 -> same_cpu m1 m3.
Proof. intros [A1 A2 A3 A4 A5 A6] [B1 B2 B3 B4 B5 B6]; split; congruence. Qed.

(** No translation of the user half has changed. *)
Definition same_walks (G : gmap Z nat) m m' : Prop :=
  forall root v, G !! root = Some 4%nat -> user v -> walk (mm_words m') root v = walk (mm_words m) root v.

Lemma same_walks_trans G G' m1 m2 m3 : G ⊆ G' ->
  same_walks G m1 m2 -> same_walks G' m2 m3 -> same_walks G m1 m3.
Proof.
  intros Hs H1 H2 root v Hr Hv; rewrite (H2 root v) by (done || by eapply lookup_weaken); by apply H1.
Qed.

(** The tables of the other contexts have not changed. *)
Definition others_kept (G : gmap Z nat) (root : Z) m m' : Prop :=
  forall root' v l t i, G !! root' = Some 4%nat -> root' ≠ root -> user v -> reach (mm_words m) v 4 root' l t ->
    0 <= i < 512 -> entry_at (mm_words m') t i = entry_at (mm_words m) t i.

Lemma others_kept_trans G G1 root m m1 m2 :
  G ⊆ G1 -> others_kept G root m m1 -> others_kept G1 root m1 m2 -> others_kept G root m m2.
Proof.
  intros HG H1 H2 root' v l t i Hr Hn Hv Hp Hi; rewrite <- (H1 root' v l t i) by done.
  apply (H2 root' v l); try done; [by eapply lookup_weaken|].
  eapply reach_ext_entry; [exact Hp|]; intros l1 t1 _ Hp1; apply (H1 root' v l1); auto using idx_range.
Qed.

(** A change of entries of a table of [root]. *)
Lemma others_kept_but m G H root v l t i m' :
  tables_ok m G H -> G !! root = Some 4%nat -> user v -> reach (mm_words m) v 4 root l t ->
  same_but (mm_words m) (mm_words m') G t i -> others_kept G root m m'.
Proof.
  intros HT Hr Hv Hp Hs root' v' l' t' i' Hr' Hn Hv' Hp' Hi'; pose proof (to_linked _ _ _ HT) as HL.
  pose proof (reach_table _ _ _ _ _ _ HL Hr' Hv' Hp') as Ht'; pose proof (reach_table _ _ _ _ _ _ HL Hr Hv Hp) as Ht.
  eapply same_but_entry; try done; intros [-> _]; assert (l' = l) as -> by congruence.
  by destruct (reach_unique _ _ _ _ _ _ _ _ HL Hr' Hr Hv' Hv Hp' Hp).
Qed.

(** The page allocator has at most [n] frames for tables. *)
Fixpoint short (n cpu : nat) (s : St) : Prop :=
  (exists s', ps_alloc cpu 0 (Z.lor PAGE_FLAG_KERNEL PAGE_FLAG_ZERO) s = Ok (None, s')) \/
  match n with
  | O => False
  | S n => exists p s', ps_alloc cpu 0 (Z.lor PAGE_FLAG_KERNEL PAGE_FLAG_ZERO) s = Ok (Some p, s') /\ short n cpu s'
  end.

Lemma short_S n cpu s : short n cpu s -> short (S n) cpu s.
Proof.
  revert s; induction n as [|n IH]; intros s [He|Hs]; [by left|done|by left|].
  right; destruct Hs as (p & s' & E & Hs); exists p, s'; auto.
Qed.

(** One frame was taken, or none. *)
Definition took (cpu : nat) m m' : Prop :=
  mm_pages m' = mm_pages m \/
  exists p, ps_alloc cpu 0 (Z.lor PAGE_FLAG_KERNEL PAGE_FLAG_ZERO) (mm_pages m) = Ok (Some p, mm_pages m').

Lemma took_short n cpu m m' : took cpu m m' -> short n cpu (mm_pages m') -> short (S n) cpu (mm_pages m).
Proof. intros [E|[p E]] Hs; [rewrite <- E; by apply short_S|right; eauto]. Qed.

(** ** Entering a table *)

(** The table [c] was allocated and entered in entry [i] of [t]. *)
Record attached m (G H : gmap Z nat) (t i : Z) (l : nat) (c : Z) m' (G' H' : gmap Z nat) : Prop := {
  at_fresh : G !! c = None;
  at_tables : G' = <[c := l]> G;
  at_held : exists p, c = p * 4096 /\ H !! p = None /\ H' = <[p := 0%nat]> H;
  at_absent : entry_at (mm_words m) t i = 0;
  at_entry : entry_at (mm_words m') t i = table_entry c;
  at_same : same_but (mm_words m) (mm_words m') G t i;
  at_empty : forall j, 0 <= j < 512 -> entry_at (mm_words m') c j = 0;
  at_pages : pages_kept H (mm_words m) (mm_words m')
}.

(** What [enter_table] gives: the table below the entry, there before or new. *)
Record entered (cpu : nat) (v root : Z) m (G H : gmap Z nat) (t : Z) (l : nat) (c new : Z) m' (G' H' : gmap Z nat) : Prop := {
  en_ok : tables_ok m' G' H';
  en_child : reach (mm_words m') v 4 root l c;
  en_tables : G ⊆ G';
  en_held : H ⊆ H';
  en_walks : same_walks G m m';
  en_cpu : same_cpu m m';
  en_log : mm_log m' = mm_log m;
  en_took : took cpu m m';
  en_new : (new = 0 /\ m' = m /\ G' = G /\ H' = H) \/
           (new = c /\ c ≠ 0 /\ attached m G H t (idx (S l) v) l c m' G' H')
}.

Lemma table_addr m G H t l : tables_ok m G H -> G !! t = Some l -> frame_addr t.
Proof.
  intros HT Ht; destruct (to_frame _ _ _ HT _ _ Ht) as (p & f & -> & Hp & _).
  by apply (fr_place _ _ _ (to_pages _ _ _ HT)).
Qed.

(** Slots of different frames. *)
Lemma slot_apart p t i j q : t = q * 4096 -> p ≠ q -> 0 <= i < 512 -> 0 <= j < 512 -> t + 8 * i ≠ p * 4096 + 8 * j.
Proof. intros ->; lia. Qed.

Lemma attach_ok m G H t l i p s' :
  tables_ok m G H -> G !! t = Some (S l) -> (0 < l)%nat -> user_index (S l) i ->
  has_flag (entry_at (mm_words m) t i) PT_PRESENT = false ->
  H !! p = None -> frame_addr (p * 4096) -> fr_ok s' (<[p := 0%nat]> H) -> table_frame s' (<[p := 0%nat]> H) (p * 4096) ->
  (forall q o, H !! q = Some o -> ps_flags s' q = ps_flags (mm_pages m) q) ->
  let c := p * 4096 in
  let m' := set_entry t i (table_entry c) (with_words (clear_words c (mm_words m)) (with_st s' m)) in
  let G' := <[c := l]> G in
  let H' := <[p := 0%nat]> H in
  tables_ok m' G' H' /\ attached m G H t i l c m' G' H'.
Proof.
  intros HT Ht Hl Hi Habs Hp Hfr Hok Htf Hfl c m' G' H'; pose proof (to_linked _ _ _ HT) as HL.
  assert (Hne : forall t' l', G !! t' = Some l' -> exists q, t' = q * 4096 /\ q ≠ p /\ H !! q = Some 0%nat).
  { intros t' l' Ht'; destruct (to_frame _ _ _ HT _ _ Ht') as (q & f & -> & Hq & _); exists q; split; [done|].
    split; [intros ->; congruence|done]. }
  assert (Hcn : G !! c = None).
  { destruct (G !! c) as [l'|] eqn:E; [|done]; destruct (Hne _ _ E) as (q & Eq & Hqp & _); unfold c in Eq; lia. }
  destruct (Hne _ _ Ht) as (pt & Ept & Hpt & _).
  assert (Hst : same_but (mm_words m) (mm_words m') G t i).
  { intros t' l' i' Ht' Hi' Hn; destruct (Hne _ _ Ht') as (q & Eq & Hqp & _); unfold m', set_entry; cbn [with_words mm_words with_st].
    rewrite lookup_insert_ne.
    - apply clear_words_out; intros j Hj; apply (slot_apart p t' i' j q); auto.
    - intros E; apply Hn; destruct (slot_inj m G H t (S l) i t' l' i' HT Ht Ht' (proj1 Hi) Hi' E); auto. }
  assert (Hz : forall j, 0 <= j < 512 -> entry_at (mm_words m') c j = 0).
  { intros j Hj; unfold entry_at, m', set_entry; cbn [with_words mm_words with_st]; rewrite lookup_insert_ne.
    - by rewrite clear_words_in.
    - apply (slot_apart p t i j pt); auto; apply Hi. }
  assert (He : entry_at (mm_words m') t i = table_entry c).
  { unfold entry_at, m', set_entry; cbn [with_words mm_words with_st]; by rewrite lookup_insert_eq. }
  split; [split|split]; try done.
  - intros t' l'; unfold G'; destruct (decide (t' = c)) as [->|Hnc]; [intros _; exact Htf|].
    rewrite lookup_insert_ne by done; intros Ht'; eapply table_frame_mono; [|by eapply (to_frame _ _ _ HT)].
    intros q Hq _; split; [|by apply (Hfl q 0%nat)]; unfold H'; rewrite lookup_insert_ne; [done|]; intros ->; congruence.
  - by apply (linked_attach (mm_words m) _ G t l i c).
  - by exists p.
  - by eapply (lk_zero _ _ HL).
  - eapply pages_kept_trans; [|eapply (table_write_kept (with_words (clear_words c (mm_words m)) m)); [|exact Ht|apply Hi]].
    + intros x n j Hx Hj; unfold content; cbn [mm_words with_words]; rewrite clear_words_out; [done|].
      intros k Hk Ek; assert (x = p) as -> by (unfold c in Ek; lia); congruence.
    + split; [apply HT|intros t' l' Ht'; by eapply HT|]; eapply tables_linked_ext; [apply HT|].
      intros t' l' k Ht' Hk; destruct (Hne _ _ Ht') as (q & Eq & Hqp & _); unfold entry_at; cbn [mm_words with_words].
      rewrite clear_words_out; [done|]; intros j Hj; apply (slot_apart p t' k j q); auto.
Qed.

Lemma attached_walks m G H t i l c m' G' H' :
  tables_ok m G H -> tables_ok m' G' H' -> G !! t = Some (S l) -> (0 < l)%nat -> user_index (S l) i ->
  frame_addr c -> attached m G H t i l c m' G' H' -> same_walks G m m'.
Proof.
  intros HT HT' Ht Hl Hi Hfr [A1 A2 A3 A4 A5 A6 A7 _] root v Hr Hv.
  apply (walk_dead m G H (mm_words m') t (S l) i root v); try done; [apply Hi| |].
  - apply dead_absent; by rewrite A4, entry_zero.
  - apply (dead_empty _ l t i c); try done; rewrite A5; [by apply p2table_entry|].
    unfold descends; rewrite table_entry_present, table_entry_huge by done; by rewrite andb_false_r.
Qed.

Lemma enter_ok cpu m G H root v l t :
  tables_ok m G H -> G !! root = Some 4%nat -> user v -> reach (mm_words m) v 4 root (S l) t -> (0 < l)%nat ->
  (has_flag (entry_at (mm_words m) t (idx (S l) v)) PT_PRESENT = true ->
   descends (S l) (entry_at (mm_words m) t (idx (S l) v)) = true) ->
  exists r m', enter_table cpu t (idx (S l) v) m = Ok (r, m') /\
    match r with
    | None => m' = m /\ short 0 cpu (mm_pages m)
    | Some (c, new) => exists G' H', entered cpu v root m G H t l c new m' G' H'
    end.
Proof.
  intros HT Hr Hv Hp Hl Hd; pose proof (to_linked _ _ _ HT) as HL; unfold enter_table, get_entry.
  pose proof (reach_table _ _ _ _ _ _ HL Hr Hv Hp) as Ht; pose proof (user_idx (S l) v Hv) as Hi.
  destruct (has_flag _ PT_PRESENT) eqn:Epr; cbn [negb].
  { eexists _, _; split; [done|]; exists G, H; split; try done; [by apply reach_down; auto|by left|by left]. }
  destruct (frame_alloc cpu m H (to_pages _ _ _ HT)) as (r & m1 & -> & Hr1); mstep; destruct r as [c|].
  2: { exists None, m1; split; [done|]; destruct Hr1 as [-> Hs]; split; [done|by left]. }
  destruct Hr1 as (p & s' & Eal & -> & Hfr & Hn & -> & Hok & Htf & Hfl).
  destruct (attach_ok m G H t l (idx (S l) v) p s' HT Ht Hl Hi Epr Hn Hfr Hok Htf Hfl) as [HT' Hat].
  eexists _, _; split; [done|]; exists (<[p * 4096 := l]> G), (<[p := 0%nat]> H); split; try done.
  - set (m' := set_entry t _ _ _) in *; pose proof (at_entry _ _ _ _ _ _ _ _ _ _ Hat) as He.
    assert (Hp' : reach (mm_words m') v 4 root (S l) t) by (by apply (reach_same (mm_words m) _ G root v (S l) t t (idx (S l) v) (S l)); try done; apply Hat).
    pose proof (reach_down _ _ _ _ _ _ Hp' Hl) as Hrd; rewrite He, p2table_entry in Hrd by done; apply Hrd.
    unfold descends; rewrite table_entry_present, table_entry_huge by done; by rewrite andb_false_r.
  - apply insert_subseteq, Hat.
  - by apply insert_subseteq.
  - by eapply attached_walks.
  - right; by exists p.
  - right; split; [done|]; split; [destruct Hfr; lia|done].
Qed.

Lemma entered_others cpu v root m G H t l c new m' G' H' :
  tables_ok m G H -> G !! root = Some 4%nat -> user v -> reach (mm_words m) v 4 root (S l) t ->
  entered cpu v root m G H t l c new m' G' H' -> others_kept G root m m'.
Proof.
  intros HT Hr Hv Hp HE; destruct (en_new _ _ _ _ _ _ _ _ _ _ _ _ _ HE) as [(_ & -> & _)|(_ & _ & Hat)]; [done|].
  eapply others_kept_but; try done; apply Hat.
Qed.

Lemma entered_pages cpu v root m G H t l c new m' G' H' :
  entered cpu v root m G H t l c new m' G' H' -> pages_kept H (mm_words m) (mm_words m').
Proof. intros HE; destruct (en_new _ _ _ _ _ _ _ _ _ _ _ _ _ HE) as [(_ & -> & _)|(_ & _ & Hat)]; [done|apply Hat]. Qed.

(** ** Taking a table out *)

Lemma detach_ok cpu m G H t l i :
  tables_ok m G H -> G !! t = Some (S l) -> (0 < l)%nat -> user_index (S l) i ->
  descends (S l) (entry_at (mm_words m) t i) = true ->
  (forall j, 0 <= j < 512 -> entry_at (mm_words m) (p2table (entry_at (mm_words m) t i)) j = 0) ->
  let c := p2table (entry_at (mm_words m) t i) in
  exists p m', c = p * 4096 /\ free_table_frame cpu c (set_entry t i 0 m) = Ok m' /\
    tables_ok m' (delete c G) (delete p H) /\ same_cpu m m' /\ mm_log m' = mm_log m /\
    mm_words m' = <[t + 8 * i := 0]> (mm_words m) /\ same_walks G m m'.
Proof.
  intros HT Ht Hl Hi Hd Hz c; pose proof (to_linked _ _ _ HT) as HL.
  pose proof (lk_child _ _ HL t l i Ht Hl Hi Hd) as Hc; fold c in Hc, Hz.
  destruct (to_frame _ _ _ HT _ _ Hc) as (p & f & Ec & Hp & Hf & Hfl).
  destruct (frame_free cpu (set_entry t i 0 m) H p f) as (s' & E & Hok & Hs); try done; [apply HT|].
  exists p, (with_st s' (set_entry t i 0 m)); split; [done|]; split; [by rewrite Ec|]; split; [split|].
  - done.
  - intros t' l' [Hne Ht']%lookup_delete_Some; eapply table_frame_mono; [|by eapply (to_frame _ _ _ HT)].
    intros q Hq Eq; assert (q ≠ p) by (intros ->; congruence); rewrite lookup_delete_ne by done; split; [done|].
    by apply (Hs q 0%nat).
  - apply (linked_detach _ _ _ l); try done; intros t' l' i' Ht' Hi' E'.
    apply (slot_inj m G H t' l' i' t (S l) i); auto; apply Hi.
  - split; [done|]; split; [done|]; split; [done|]; intros root v Hr Hv.
    apply (walk_dead m G H _ t (S l) i root v); try done; [apply Hi|..].
    + intros t' l' i' Ht' Hi' Hn; cbn; rewrite lookup_insert_ne; [done|]; intros E'; apply Hn.
      apply (slot_inj m G H t' l' i' t (S l) i); auto; apply Hi.
    + by apply (dead_empty _ l t i c).
    + apply dead_absent; cbn; unfold entry_at; by rewrite lookup_insert_eq, entry_zero.
Qed.

(** ** Undoing *)

(** Everything is as before, but for words of frames that are free again. *)
Record restored m (G H : gmap Z nat) m' : Prop := {
  re_ok : tables_ok m' G H;
  re_walks : same_walks G m m';
  re_cpu : same_cpu m m';
  re_log : mm_log m' = mm_log m;
  re_entries : forall t l i, G !! t = Some l -> 0 <= i < 512 -> entry_at (mm_words m') t i = entry_at (mm_words m) t i;
  re_pages : pages_kept H (mm_words m) (mm_words m')
}.

Lemma restored_refl m G H : tables_ok m G H -> restored m G H m.
Proof. by split. Qed.

Lemma undo_ok cpu root v m G H t l c new m1 G1 H1 m2 :
  tables_ok m G H -> G !! t = Some (S l) -> (0 < l)%nat -> user v ->
  entered cpu v root m G H t l c new m1 G1 H1 -> restored m1 G1 H1 m2 ->
  exists m3, undo_table cpu t (idx (S l) v) new m2 = Ok m3 /\ restored m G H m3.
Proof.
  intros HT Ht Hl Hv [E1 E2 E3 E4 E5 E6 E7 E8 E9] [R1 R2 R3 R4 R5 R6]; unfold undo_table.
  destruct E9 as [(-> & -> & -> & ->)|(-> & Hcz & [A1 -> (p & -> & A3 & ->) A4 A5 A6 A7 A8])].
  { rewrite decide_False by auto; by exists m2. }
  rewrite decide_True by done; set (i := idx (S l) v) in *; set (c := p * 4096) in *.
  assert (Ht1 : <[c := l]> G !! t = Some (S l)) by (by eapply lookup_weaken).
  assert (Hi : user_index (S l) i) by (by apply user_idx).
  assert (Hfr : frame_addr c) by (eapply table_addr; [exact E1|apply lookup_insert_eq]).
  assert (He : entry_at (mm_words m2) t i = table_entry c) by (by rewrite (R5 t (S l) i Ht1 (proj1 Hi))).
  destruct (detach_ok cpu m2 (<[c := l]> G) (<[p := 0%nat]> H) t l i R1 Ht1 Hl Hi) as (p' & m3 & Ep & E & HT3 & Hcpu & Hlog & Hw & Hwk).
  { rewrite He; unfold descends; rewrite table_entry_present, table_entry_huge by done; by rewrite andb_false_r. }
  { rewrite He, p2table_entry by done; intros j Hj; rewrite (R5 c l j (lookup_insert_eq _ _ _) Hj); auto. }
  rewrite He, p2table_entry in * by done; assert (p' = p) as -> by (unfold c in Ep; lia).
  exists m3; split; [done|]; rewrite !delete_insert_id in HT3 by done; split; try done.
  - eapply same_walks_trans; [exact E3|exact E5|]; eapply same_walks_trans; [reflexivity|exact R2|exact Hwk].
  - eapply same_cpu_trans; [exact E6|]; by eapply same_cpu_trans.
  - congruence.
  - intros t' l' i' Ht' Hi'; rewrite Hw; assert (Ht1' : <[c := l]> G !! t' = Some l') by (by eapply lookup_weaken).
    rewrite entry_write.
    + case_decide as Hd; [by destruct Hd as [-> ->]|]; rewrite (R5 t' l' i') by done; by eapply same_but_entry.
    + destruct (decide (t' + 8 * i' = t + 8 * i)) as [Es|]; [left|by right].
      apply (slot_inj m G H t' l' i' t (S l) i); auto; apply Hi.
  - eapply pages_kept_trans; [exact A8|]; eapply pages_kept_less; [by apply insert_subseteq|].
    eapply pages_kept_trans; [exact R6|]; rewrite Hw; eapply table_write_kept; [exact R1|exact Ht1|apply Hi].
Qed.

(** ** The entry of a page *)

Lemma reach_same_down w v v' root l t :
  reach w v 4 root l t -> (forall j, (l < j <= 4)%nat -> idx j v = idx j v') -> reach w v' 4 root l t.
Proof.
  intros Hp; remember 4%nat as n eqn:En; induction Hp as [|n root l t Hp IH Hl Hd]; intros Hj; [constructor|].
  assert (Ei : idx (S l) v = idx (S l) v') by (apply Hj; apply reach_le in Hp; lia).
  rewrite Ei; constructor; [|done|by rewrite <- Ei]; apply IH; [done|]; intros j Hlj; apply Hj; lia.
Qed.

(** The entry [e] at level [l] is a page. *)
Definition is_leaf (l : nat) (e : Z) : Prop := has_flag e PT_PRESENT = true /\ (l = 1%nat \/ descends l e = false).

(** The page [e] of level [l] is mapped at [v]. *)
Record map_done (l : nat) (root v e : Z) m (G H : gmap Z nat) m' (G' H' : gmap Z nat) : Prop := {
  md_ok : tables_ok m' G' H';
  md_tables : G ⊆ G';
  md_held : H ⊆ H';
  md_leaf v' : user v' -> same_down l v v' -> walk (mm_words m') root v' = Some (l, e);
  md_other root' v' : G !! root' = Some 4%nat -> user v' -> ~ (root' = root /\ same_down l v v') ->
    walk (mm_words m') root' v' = walk (mm_words m) root' v';
  md_cpu : same_cpu m m';
  md_log : mm_log m' = if decide (Z.land (mm_cr3 m) PT_ADDR_MASK = root) then FlushPage v :: mm_log m else mm_log m;
  md_others : others_kept G root m m';
  md_pages : pages_kept H (mm_words m) (mm_words m')
}.

Lemma exchange_fields t i e root v m :
  mm_pages (exchange t i e root v m) = mm_pages m /\
  mm_words (exchange t i e root v m) = <[t + 8 * i := e]> (mm_words m) /\
  same_cpu m (exchange t i e root v m) /\
  mm_log (exchange t i e root v m) =
    if decide (Z.land (mm_cr3 m) PT_ADDR_MASK = root) then FlushPage v :: mm_log m else mm_log m.
Proof. unfold exchange, flush_if_active; cbn; case_decide; by split_and!. Qed.

(** A page entry in place of another one. *)
Lemma linked_leaf w G t l i e :
  linked_ok w G -> G !! t = Some l -> 0 <= i < 512 -> (l = 1%nat \/ descends l e = false) ->
  (has_flag e PT_PRESENT = true \/ e = 0) ->
  (forall t' l' i', G !! t' = Some l' -> 0 <= i' < 512 -> t' + 8 * i' = t + 8 * i -> t' = t /\ i' = i) ->
  linked_ok (<[t + 8 * i := e]> w) G.
Proof.
  intros [L1 L2 L3 L4] Ht Hi Hlf Hpr Hinj.
  assert (He : forall t' l' i', G !! t' = Some l' -> 0 <= i' < 512 ->
    entry_at (<[t + 8 * i := e]> w) t' i' = if decide (t' = t /\ i' = i) then e else entry_at w t' i').
  { intros t' l' i' Ht' Hi'; apply entry_write; destruct (decide (t' + 8 * i' = t + 8 * i)); [left; eauto|by right]. }
  assert (Hnd : forall l', (0 < l')%nat -> G !! t = Some (S l') -> descends (S l') e = false).
  { intros l' Hl' Ht'; destruct Hlf as [->|Hlf]; [assert (S l' = 1%nat) by congruence; lia|]; assert (l = S l') as <- by congruence; done. }
  split; [done|..].
  - intros t' l' i' Ht' Hl' Hi'; rewrite (He t' (S l')) by (done || apply Hi'); case_decide as Hn; [|by apply (L2 t' l')].
    destruct Hn as [-> ->]; by rewrite (Hnd l').
  - intros t1 i1 t2 i2 l' Ht1 Ht2 Hl' Hi1 Hi2; rewrite (He t1 (S l')), (He t2 (S l')) by (done || apply Hi1 || apply Hi2).
    case_decide as Hn1; [destruct Hn1 as [-> ->]; by rewrite (Hnd l')|].
    case_decide as Hn2; [destruct Hn2 as [-> ->]; by rewrite (Hnd l')|]; by apply (L3 _ _ _ _ l').
  - intros t' l' i' Ht' Hl' Hi'; rewrite (He t' (S l')) by (done || apply Hi'); case_decide as Hn; [|by apply (L4 t' l')].
    destruct Hpr as [-> | ->]; done.
Qed.

Lemma exchange_ok m G H root v l t e :
  tables_ok m G H -> G !! root = Some 4%nat -> user v -> reach (mm_words m) v 4 root l t -> (0 < l)%nat ->
  is_leaf l e -> map_done l root v e m G H (exchange t (idx l v) e root v m) G H.
Proof.
  intros HT Hr Hv Hp Hl0 [Hpr Hlf]; pose proof (to_linked _ _ _ HT) as HL.
  pose proof (reach_table _ _ _ _ _ _ HL Hr Hv Hp) as Ht.
  destruct (exchange_fields t (idx l v) e root v m) as (F1 & F2 & F3 & F4).
  set (m' := exchange _ _ _ _ _ _) in *; split; try done.
  - split; rewrite ?F1, ?F2; try apply HT.
    apply (linked_leaf _ _ _ l); auto using idx_range; intros t' l' i' Ht' Hi' E.
    apply (slot_inj m G H t' l' i' t l (idx l v)); auto using idx_range.
  - intros v' Hv' Hs; rewrite F2.
    assert (Hp' : reach (<[t + 8 * idx l v := e]> (mm_words m)) v' 4 root l t).
    { eapply (reach_same (mm_words m) _ G root v' l t t (idx l v) l); try done.
      - eapply reach_same_down; [exact Hp|]; intros j Hj; apply Hs; lia.
      - intros t' l' i' Ht' Hi' Hn; rewrite lookup_insert_ne; [done|]; intros E; apply Hn.
        apply (slot_inj m G H t' l' i' t l (idx l v)); auto using idx_range. }
    unfold walk; rewrite (walk_reach _ _ _ _ _ _ Hp'); destruct l as [|l]; [lia|]; cbn [walk_from].
    rewrite <- (Hs (S l)) by (apply reach_le in Hp; lia); unfold entry_at; rewrite lookup_insert_eq; change (default 0 (Some e)) with e.
    rewrite Hpr; destruct Hlf as [El|Hlf]; [rewrite bool_decide_true by lia; done|]; rewrite Hlf.
    by rewrite orb_true_r.
  - intros root' v' Hr' Hv' Hn; rewrite F2; by apply (walk_write m G H root v l t).
  - eapply others_kept_but; try done; rewrite F2; intros t' l' i' Ht' Hi' Hn; rewrite lookup_insert_ne; [done|]; intros E; apply Hn.
    apply (slot_inj m G H t' l' i' t l (idx l v)); auto using idx_range.
  - rewrite F2; eapply table_write_kept; [exact HT|exact Ht|apply idx_range].
Qed.

(** ** [mmu_map_page] *)

Lemma pte_present flags : has_flag (mmu_flags_to_pte flags) PT_PRESENT = true.
Proof. unfold mmu_flags_to_pte; repeat case_match; by vm_compute. Qed.

Lemma present_lor a b : has_flag b PT_PRESENT = true -> has_flag (Z.lor a b) PT_PRESENT = true.
Proof. unfold PT_PRESENT; rewrite !has_flag_bit, Z.lor_spec by lia; intros ->; by rewrite orb_true_r. Qed.

(** The level and the entry of a new page. *)
Definition leaf_level (flags : Z) : nat := if has_flag flags MMU_FLAG_HUGE_2M then 2%nat else 1%nat.

Definition leaf_entry (phys flags : Z) : Z :=
  if has_flag flags MMU_FLAG_HUGE_2M then
    Z.lor (Z.lor (Z.land phys PT_2M_ADDR_MASK) (mmu_flags_to_pte flags)) PT_HUGE
  else Z.lor (Z.land phys PT_ADDR_MASK) (mmu_flags_to_pte flags).

Lemma leaf_entry_leaf phys flags : is_leaf (leaf_level flags) (leaf_entry phys flags).
Proof.
  unfold leaf_level, leaf_entry; destruct (has_flag flags MMU_FLAG_HUGE_2M).
  - assert (Hp : has_flag (Z.lor (Z.land phys PT_2M_ADDR_MASK) (mmu_flags_to_pte flags)) PT_PRESENT = true)
      by apply present_lor, pte_present.
    split; [rewrite Z.lor_comm; by apply present_lor|right]; unfold descends; rewrite bool_decide_true by done.
    replace (has_flag (Z.lor _ PT_HUGE) PT_HUGE) with true; [by rewrite andb_false_r|].
    unfold PT_HUGE; rewrite has_flag_bit, Z.lor_spec by lia; by rewrite orb_true_r.
  - split; [apply present_lor, pte_present|by left].
Qed.

Lemma map_done_after l root v e m G H m1 G1 H1 m' G' H' :
  tables_ok m G H -> G !! root = Some 4%nat -> G ⊆ G1 -> H ⊆ H1 -> same_walks G m m1 -> same_cpu m m1 -> mm_log m1 = mm_log m -> others_kept G root m m1 ->
  pages_kept H (mm_words m) (mm_words m1) -> map_done l root v e m1 G1 H1 m' G' H' -> map_done l root v e m G H m' G' H'.
Proof.
  intros HT Hr HG HH Hw Hc Hl Ho Hk [D1 D2 D3 D4 D5 D6 D7 D8 D9]; split; try done.
  - by etransitivity.
  - by etransitivity.
  - intros root' v' Hr' Hv' Hn; rewrite D5 by (done || by eapply lookup_weaken); by apply Hw.
  - by eapply same_cpu_trans.
  - by rewrite D7, Hl, (sc_cr3 _ _ Hc).
  - by eapply others_kept_trans.
  - eapply pages_kept_trans; [exact Hk|by eapply pages_kept_less].
Qed.

(** A large page above the level of the new one. *)
Definition blocked w (root v : Z) (l : nat) : Prop := exists l' e, walk w root v = Some (l', e) /\ (l < l')%nat.

(** The outcomes of mapping a page. *)
Definition map_result (cpu : nat) (root v phys flags : Z) m (G H : gmap Z nat) (r : Z) m' : Prop :=
  (r = 0 /\ exists G' H', map_done (leaf_level flags) root v (leaf_entry phys flags) m G H m' G' H') \/
  (r = - EEXIST /\ blocked (mm_words m) root v (leaf_level flags) /\ restored m G H m') \/
  (r = - ENOMEM /\ short 2 cpu (mm_pages m) /\ restored m G H m') \/
  (r = - EINVAL /\ leaf_level flags = 2%nat /\
   (Z.land v HUGE_PAGE_2M_MASK ≠ 0 \/ Z.land phys HUGE_PAGE_2M_MASK ≠ 0) /\
   exists G' H', tables_ok m' G' H' /\ G ⊆ G' /\ H ⊆ H' /\ same_walks G m m' /\ same_cpu m m' /\ pages_kept H (mm_words m) (mm_words m')).

(** An entry that is present and not a large page leads on. *)
Lemma descends_intro l e : has_flag e PT_HUGE = false -> has_flag e PT_PRESENT = true -> descends l e = true.
Proof. intros E1 E2; unfold descends; by rewrite E1, E2, andb_false_r. Qed.

(** An entry with [PT_HUGE] is a large page. *)
Lemma huge_blocks w G root v l t :
  linked_ok w G -> G !! root = Some 4%nat -> user v -> reach w v 4 root (S l) t -> (0 < l < 3)%nat ->
  has_flag (entry_at w t (idx (S l) v)) PT_HUGE = true ->
  walk w root v = Some (S l, entry_at w t (idx (S l) v)).
Proof.
  intros HL Hr Hv Hp Hl Hh; pose proof (reach_table _ _ _ _ _ _ HL Hr Hv Hp) as Ht.
  destruct (has_flag (entry_at w t (idx (S l) v)) PT_PRESENT) eqn:Epr.
  2: { rewrite (lk_zero _ _ HL t l _ Ht ltac:(lia) (user_idx _ _ Hv) Epr), entry_zero in Hh; done. }
  unfold walk; rewrite (walk_reach _ _ _ _ _ _ Hp); cbn [walk_from]; rewrite Epr.
  rewrite (bool_decide_false (l = 0%nat)) by lia; unfold descends; rewrite (bool_decide_true (S l ≠ 4%nat)) by lia.
  by rewrite Epr, Hh.
Qed.

(** The way down: [pdpt] and [pd] are entered. *)
Record on_way (cpu : nat) (root v : Z) m (G H : gmap Z nat) (pdpt np : Z) m1 (G1 H1 : gmap Z nat)
    (pd nd : Z) m2 (G2 H2 : gmap Z nat) : Prop := {
  ow_tables : tables_ok m G H;
  ow_root : G !! root = Some 4%nat;
  ow_user : user v;
  ow_pdpt : entered cpu v root m G H root 3 pdpt np m1 G1 H1;
  ow_pd : entered cpu v root m1 G1 H1 pdpt 2 pd nd m2 G2 H2
}.

Section way.
Context {cpu : nat} {root v : Z} {m : mmu St} {G H : gmap Z nat} {pdpt np : Z} {m1 : mmu St} {G1 H1 : gmap Z nat}.
Context {pd nd : Z} {m2 : mmu St} {G2 H2 : gmap Z nat}.
Context (W : on_way cpu root v m G H pdpt np m1 G1 H1 pd nd m2 G2 H2).

Lemma way_root1 : G1 !! root = Some 4%nat.
Proof. eapply lookup_weaken; [apply W|apply (en_tables _ _ _ _ _ _ _ _ _ _ _ _ _ (ow_pdpt _ _ _ _ _ _ _ _ _ _ _ _ _ _ _ _ W))]. Qed.

Lemma way_root2 : G2 !! root = Some 4%nat.
Proof. eapply lookup_weaken; [apply way_root1|apply (en_tables _ _ _ _ _ _ _ _ _ _ _ _ _ (ow_pd _ _ _ _ _ _ _ _ _ _ _ _ _ _ _ _ W))]. Qed.

Lemma way_undo (r : Z) m3 :
  restored m2 G2 H2 m3 ->
  exists m', (m ← undo_table cpu pdpt (pdpt_idx v) nd m3; m ← undo_table cpu root (pml4_idx v) np m; Ok (r, m)) = Ok (r, m') /\
    restored m G H m'.
Proof.
  intros HR; destruct W as [HT Hr Hv E1 E2].
  assert (Hp : G1 !! pdpt = Some 3%nat).
  { eapply reach_table; [apply (to_linked _ _ _ (en_ok _ _ _ _ _ _ _ _ _ _ _ _ _ E1))|apply way_root1|done|apply E1]. }
  destruct (undo_ok cpu root v m1 G1 H1 pdpt 2 pd nd m2 G2 H2 m3) as (m4 & E & HR4); try done; [apply E1|lia|].
  change (pdpt_idx v) with (idx 3 v); rewrite E; mstep.
  destruct (undo_ok cpu root v m G H root 3 pdpt np m1 G1 H1 m4) as (m5 & E' & HR5); try done; [lia|].
  change (pml4_idx v) with (idx 4 v); rewrite E'; mstep; by exists m5.
Qed.

Lemma way_walks : same_walks G m m2.
Proof.
  destruct W as [HT Hr Hv E1 E2]; eapply same_walks_trans; [apply E1|apply E1|apply E2].
Qed.

Lemma way_others : others_kept G root m m2.
Proof.
  destruct W as [HT Hr Hv E1 E2]; eapply (others_kept_trans G G1); [apply E1|..].
  - eapply (entered_others _ _ _ _ _ _ root 3); [..|exact E1]; try done; constructor.
  - eapply (entered_others _ _ _ _ _ _ pdpt 2); [..|exact E2]; try done; [apply E1|apply way_root1|apply E1].
Qed.

Lemma way_pages : pages_kept H (mm_words m) (mm_words m2).
Proof.
  destruct W as [HT Hr Hv E1 E2]; eapply pages_kept_trans; [by eapply entered_pages|].
  eapply pages_kept_less; [apply E1|by eapply entered_pages].
Qed.

(** A page set in a state that the way down has reached. *)
Lemma way_done l e m3 G3 H3 m' G' H' :
  G2 ⊆ G3 -> H2 ⊆ H3 -> same_walks G2 m2 m3 -> same_cpu m2 m3 -> mm_log m3 = mm_log m2 -> others_kept G2 root m2 m3 ->
  pages_kept H2 (mm_words m2) (mm_words m3) -> map_done l root v e m3 G3 H3 m' G' H' -> map_done l root v e m G H m' G' H'.
Proof.
  intros HG HH Hw Hc Hl Ho Hk Hd; destruct W as [HT Hr Hv E1 E2].
  assert (Hs2 : G ⊆ G2) by (etransitivity; [apply E1|apply E2]).
  eapply (map_done_after _ _ _ _ _ _ _ m3 G3 H3); try done.
  - by etransitivity.
  - etransitivity; [apply E1|]; etransitivity; [apply E2|done].
  - eapply same_walks_trans; [exact Hs2|exact way_walks|exact Hw].
  - eapply same_cpu_trans; [apply E1|]; eapply same_cpu_trans; [apply E2|done].
  - by rewrite Hl, (en_log _ _ _ _ _ _ _ _ _ _ _ _ _ E2), (en_log _ _ _ _ _ _ _ _ _ _ _ _ _ E1).
  - eapply others_kept_trans; [exact Hs2|exact way_others|exact Ho].
  - eapply pages_kept_trans; [exact way_pages|]; eapply pages_kept_less; [|exact Hk]; etransitivity; [apply E1|apply E2].
Qed.

Lemma way_short : short 0 cpu (mm_pages m2) -> short 2 cpu (mm_pages m).
Proof.
  intros Hs; destruct W as [HT Hr Hv E1 E2].
  eapply took_short; [apply E1|]; eapply took_short; [apply E2|exact Hs].
Qed.

Lemma map_last_ok phys flags :
  has_flag flags MMU_FLAG_HUGE_2M = false ->
  exists r m', map_last cpu root pdpt np pd nd v phys flags m2 = Ok (r, m') /\
    map_result cpu root v phys flags m G H r m'.
Proof.
  intros Hf; destruct W as [HT Hr Hv E1 E2]; pose proof (en_ok _ _ _ _ _ _ _ _ _ _ _ _ _ E2) as HT2.
  pose proof (en_child _ _ _ _ _ _ _ _ _ _ _ _ _ E2) as Hp2; pose proof way_root2 as Hr2.
  pose proof (leaf_entry_leaf phys flags) as Hlf; unfold map_result.
  assert (El : leaf_level flags = 1%nat) by (unfold leaf_level; by rewrite Hf).
  assert (Ee : leaf_entry phys flags = Z.lor (Z.land phys PT_ADDR_MASK) (mmu_flags_to_pte flags)) by (unfold leaf_entry; by rewrite Hf).
  rewrite El, Ee in *; unfold map_last; cbv zeta; unfold get_entry; change (pd_idx v) with (idx 2 v).
  destruct (has_flag (entry_at (mm_words m2) pd (idx 2 v)) PT_HUGE) eqn:Eh.
  - destruct (way_undo (- EEXIST) m2) as (m' & E & HR); [by apply restored_refl|].
    rewrite E; exists (- EEXIST), m'; split; [done|]; right; left; split; [done|]; split; [|done].
    exists 2%nat, (entry_at (mm_words m2) pd (idx 2 v)); split; [|lia]; rewrite <- way_walks by done.
    eapply huge_blocks; [apply HT2|exact Hr2|done|exact Hp2|lia|done].
  - destruct (enter_ok cpu m2 G2 H2 root v 1 pd HT2 Hr2 Hv Hp2 ltac:(lia)) as (r & m3 & -> & Hr3); [by apply descends_intro|].
    mstep; destruct r as [[pt nt]|].
    + destruct Hr3 as (G3 & H3 & E3); eexists 0, _; split; [done|left]; split; [done|]; exists G3, H3.
      eapply way_done; [apply E3|apply E3|apply E3|apply E3|apply E3|by eapply (entered_others _ _ _ _ _ _ pd 1)|by eapply entered_pages|].
      apply exchange_ok; [apply E3|by eapply lookup_weaken; [|apply E3]|done|apply E3|lia|done].
    + destruct Hr3 as [-> Hs]; destruct (way_undo (- ENOMEM) m2) as (m' & E & HR); [by apply restored_refl|].
      rewrite E; exists (- ENOMEM), m'; split; [done|]; right; right; left; split; [done|]; split; [by apply way_short|done].
Qed.

Lemma map_huge_ok phys flags :
  has_flag flags MMU_FLAG_HUGE_2M = true ->
  exists r m', map_huge root pd v phys flags m2 = Ok (r, m') /\ map_result cpu root v phys flags m G H r m'.
Proof.
  intros Hf; destruct W as [HT Hr Hv E1 E2]; pose proof (leaf_entry_leaf phys flags) as Hlf; unfold map_result.
  assert (El : leaf_level flags = 2%nat) by (unfold leaf_level; by rewrite Hf).
  assert (Ee : leaf_entry phys flags = Z.lor (Z.lor (Z.land phys PT_2M_ADDR_MASK) (mmu_flags_to_pte flags)) PT_HUGE)
    by (unfold leaf_entry; by rewrite Hf).
  rewrite El, Ee in *; unfold map_huge; case_decide as Hm.
  - exists (- EINVAL), m2; split; [done|]; right; right; right; split_and!; try done; exists G2, H2; split; [apply E2|].
    split; [etransitivity; [apply E1|apply E2]|]; split; [etransitivity; [apply E1|apply E2]|]; split; [apply way_walks|].
    split; [eapply same_cpu_trans; [apply E1|apply E2]|apply way_pages].
  - eexists 0, _; split; [done|left]; split; [done|]; exists G2, H2; change (pd_idx v) with (idx 2 v).
    eapply (way_done _ _ m2 G2 H2); try done; apply exchange_ok; try done; [apply E2|apply way_root2|apply E2|lia].
Qed.

End way.

(** Mapping a page of the user half. *)
Lemma map_page_ok cpu m G H root v phys flags :
  tables_ok m G H -> G !! root = Some 4%nat -> user v ->
  exists r m', mmu_map_page_unlocked cpu root v phys flags m = Ok (r, m') /\
    map_result cpu root v phys flags m G H r m'.
Proof.
  intros HT Hr Hv; unfold mmu_map_page_unlocked; cbv zeta; change (pml4_idx v) with (idx 4 v); change (pdpt_idx v) with (idx 3 v).
  destruct (enter_ok cpu m G H root v 3 root HT Hr Hv (reach_here _ _ _ _) ltac:(lia)) as (r1 & m1 & -> & Hr1).
  { intros Hp; unfold descends; by rewrite Hp, bool_decide_false by auto. }
  mstep; destruct r1 as [[pdpt np]|].
  2: { destruct Hr1 as [-> Hs]; exists (- ENOMEM), m; split; [done|]; right; right; left; split; [done|].
       split; [by apply short_S, short_S|by apply restored_refl]. }
  destruct Hr1 as (G1 & H1 & E1); pose proof (en_ok _ _ _ _ _ _ _ _ _ _ _ _ _ E1) as HT1.
  assert (Hr1 : G1 !! root = Some 4%nat) by (by eapply lookup_weaken; [|apply E1]).
  pose proof (en_child _ _ _ _ _ _ _ _ _ _ _ _ _ E1) as Hp1; unfold get_entry.
  assert (Hundo : forall r : Z, exists m', (m0 ← undo_table cpu root (idx 4 v) np m1; Ok (r, m0)) = Ok (r, m') /\ restored m G H m').
  { intros r; destruct (undo_ok cpu root v m G H root 3 pdpt np m1 G1 H1 m1) as (m' & E & HR); try done; [lia|].
    rewrite E; mstep; by exists m'. }
  destruct (has_flag (entry_at (mm_words m1) pdpt (idx 3 v)) PT_HUGE) eqn:Eh.
  { destruct (Hundo (- EEXIST)) as (m' & E & HR); rewrite E; exists (- EEXIST), m'; split; [done|]; right; left; split; [done|].
    split; [|done]; exists 3%nat, (entry_at (mm_words m1) pdpt (idx 3 v)); split; [|unfold leaf_level; case_match; lia].
    rewrite <- (en_walks _ _ _ _ _ _ _ _ _ _ _ _ _ E1) by done.
    eapply huge_blocks; [apply HT1|exact Hr1|done|exact Hp1|lia|done]. }
  destruct (enter_ok cpu m1 G1 H1 root v 2 pdpt HT1 Hr1 Hv Hp1 ltac:(lia)) as (r2 & m2 & -> & Hr2); [by apply descends_intro|].
  mstep; destruct r2 as [[pd nd]|].
  2: { destruct Hr2 as [-> Hs]; destruct (Hundo (- ENOMEM)) as (m' & E & HR); rewrite E; exists (- ENOMEM), m'; split; [done|].
       right; right; left; split; [done|]; split; [|done]; eapply took_short; [apply E1|by apply short_S]. }
  destruct Hr2 as (G2 & H2 & E2); pose proof (Build_on_way _ _ _ _ _ _ _ _ _ _ _ _ _ _ _ _ HT Hr Hv E1 E2) as W.
  destruct (has_flag flags MMU_FLAG_HUGE_2M) eqn:Ef; [by apply (map_huge_ok W)|by apply (map_last_ok W)].
Qed.

End map.
