(* ===== verification/MmuUnmap.v ===== *)
(** * Page tables: unmapping a page *)

From stdpp Require Import base tactics option list numbers gmap.
From Stdlib Require Import ZArith Lia.
From S2P Require Import Prelude Pmm PmmSpec SlabMem Slab Mmu MmuWalk MmuInv MmuTables MmuMap.

Local Open Scope Z_scope.

Section unmap.
Context {St : Type} `{!PageSource St} `{!FrameLaws St}.
Implicit Types m : mmu St.
Implicit Types w : gmap Z Z.

(** ** Removing empty tables *)

(** The tables of [G] that are not in [G'] were taken out and their frames given back;
    no translation has changed. *)
Record pruned m (G H : gmap Z nat) m' (G' H' : gmap Z nat) : Prop := {
  pr_ok : tables_ok m' G' H';
  pr_tables : G' ⊆ G;
  pr_held : H' ⊆ H;
  pr_roots root : G !! root = Some 4%nat -> G' !! root = Some 4%nat;
  pr_freed t l : G !! t = Some l -> G' !! t = None -> exists p, t = p * 4096 /\ H' !! p = None;
  pr_kept p o : H !! p = Some o -> H' !! p = None -> is_Some (G !! (p * 4096)) /\ G' !! (p * 4096) = None;
  pr_walks : same_walks G m m';
  pr_cpu : same_cpu m m';
  pr_log : mm_log m' = mm_log m
}.

Lemma pruned_refl m G H : tables_ok m G H -> pruned m G H m G H.
Proof. intros HT; split; try done; intros; congruence. Qed.

Lemma pruned_trans m1 G1 H1 m2 G2 H2 m3 G3 H3 :
  pruned m1 G1 H1 m2 G2 H2 -> pruned m2 G2 H2 m3 G3 H3 -> pruned m1 G1 H1 m3 G3 H3.
Proof.
  intros [A1 A2 A3 A4 A5 A6 A7 A8 A9] [B1 B2 B3 B4 B5 B6 B7 B8 B9]; split; try done.
  - by etransitivity.
  - by etransitivity.
  - auto.
  - intros t l Ht Ht3; destruct (G2 !! t) as [l2|] eqn:E2; [by eapply B5|].
    destruct (A5 t l Ht E2) as (p & -> & Hp); exists p; split; [done|].
    destruct (H3 !! p) eqn:E3; [|done]; eapply lookup_weaken in E3; [|exact B3]; congruence.
  - intros p o Hp Hp3; destruct (H2 !! p) as [o2|] eqn:E2.
    + destruct (B6 p o2 E2 Hp3) as [[l Hl] ?]; split; [exists l; by eapply lookup_weaken|done].
    + destruct (A6 p o Hp E2) as [? Hn]; split; [done|].
      destruct (G3 !! (p * 4096)) eqn:E3; [|done]; eapply lookup_weaken in E3; [|exact B2]; congruence.
  - intros root v Hr Hv; rewrite B7 by auto; by apply A7.
  - by eapply same_cpu_trans.
  - congruence.
Qed.

(** ** Which tables go *)

Lemma reach_fun w v l t l' t1 t2 : reach w v l t l' t1 -> reach w v l t l' t2 -> t1 = t2.
Proof.
  intros H1; revert t2; induction H1 as [l t|l t l' t' Hp IH Hl Hd]; intros t2 H2; inversion H2; subst; try done.
  - match goal with Hx : reach _ _ _ _ (S _) _ |- _ => apply reach_le in Hx end; lia.
  - apply reach_le in Hp; lia.
  - by rewrite (IH _ ltac:(eassumption)).
Qed.

(** The entry through which [v] comes to a table. *)
Lemma reach_up w v root l t c : (0 < l < 4)%nat -> reach w v 4 root (S l) t -> reach w v 4 root l c ->
  descends (S l) (entry_at w t (idx (S l) v)) = true /\ c = p2table (entry_at w t (idx (S l) v)).
Proof.
  intros Hl Ht Hc; inversion Hc as [|? ? ? t' Hp ? Hd]; subst; [lia|].
  by rewrite (reach_fun _ _ _ _ _ _ _ Ht Hp).
Qed.

Lemma reach_above w v root l t : reach w v 4 root l t -> forall l1, (l <= l1 <= 4)%nat -> exists t1, reach w v 4 root l1 t1.
Proof.
  remember 4%nat as n eqn:En; induction 1 as [n root|n root l t Hp IH Hl Hd]; intros l1 Hl1.
  - exists root; assert (l1 = n) as -> by lia; constructor.
  - destruct (decide (l1 = l)) as [->|]; [eexists; by constructor|]; apply IH; [done|lia].
Qed.

(** Below an entry that leads to no table the way ends. *)
Lemma reach_cut w v root l t l' t' : (0 < l < 4)%nat -> reach w v 4 root (S l) t ->
  descends (S l) (entry_at w t (idx (S l) v)) = false -> (l' <= l)%nat -> ~ reach w v 4 root l' t'.
Proof.
  intros Hl Hp Hd Hle Hp'; destruct (reach_above _ _ _ _ _ Hp' l ltac:(lia)) as [c Hc].
  destruct (reach_up _ _ _ _ _ _ Hl Hp Hc); congruence.
Qed.

(** All entries of [t] but the [i]th are 0. *)
Definition lone w (t i : Z) : Prop := forall j, 0 <= j < 512 -> j ≠ i -> entry_at w t j = 0.

(** The table [t] is on the way of [v], at level [l] or above it and below the root, and
    it and all tables between it and the one of level [l] hold nothing but the entry
    of [v]. *)
Definition given_back w (root v : Z) (l : nat) (t : Z) : Prop :=
  exists k, (l <= k < 4)%nat /\ reach w v 4 root k t /\
    forall l1, (l <= l1 <= k)%nat -> exists t1, reach w v 4 root l1 t1 /\ lone w t1 (idx l1 v).

(** The tables that are in [G] and not in [G'] are those. *)
Definition exactly_given w (root v : Z) (l : nat) (G G' : gmap Z nat) : Prop :=
  forall t, (is_Some (G !! t) /\ G' !! t = None) <-> given_back w root v l t.

(** The entry of [v] at level [l] does not count. *)
Lemma given_write m G H root v l t0 e t :
  tables_ok m G H -> G !! root = Some 4%nat -> user v -> reach (mm_words m) v 4 root l t0 ->
  given_back (<[t0 + 8 * idx l v := e]> (mm_words m)) root v l t <-> given_back (mm_words m) root v l t.
Proof.
  intros HT Hr Hv Hp; set (w := mm_words m) in *; set (w' := <[_ := e]> w); pose proof (to_linked _ _ _ HT) as HL.
  pose proof (reach_table _ _ _ _ _ _ HL Hr Hv Hp) as Ht0.
  assert (Hsb : same_but w w' G t0 (idx l v)).
  { intros t' l' i' Ht' Hi' Hn; unfold w'; rewrite lookup_insert_ne; [done|]; intros E; apply Hn.
    apply (slot_inj m G H t' l' i' t0 l (idx l v)); auto using idx_range. }
  assert (Hre : forall l1 t1, (l <= l1 <= 4)%nat -> reach w v 4 root l1 t1 <-> reach w' v 4 root l1 t1).
  { intros l1 t1 Hl1; assert (Hf : forall t2, reach w v 4 root l1 t2 -> reach w' v 4 root l1 t2)
      by (intros t2 Hp2; apply (reach_same w w' G root v l1 t2 t0 (idx l v) l); try done; lia).
    split; [apply Hf|]; intros Hp1; destruct (reach_above _ _ _ _ _ Hp l1 Hl1) as [t2 Hp2].
    by rewrite (reach_fun _ _ _ _ _ _ _ Hp1 (Hf _ Hp2)). }
  assert (Hlo : forall l1 t1, reach w v 4 root l1 t1 -> lone w t1 (idx l1 v) <-> lone w' t1 (idx l1 v)).
  { intros l1 t1 Hp1; pose proof (reach_table _ _ _ _ _ _ HL Hr Hv Hp1) as Ht1.
    assert (He : forall j, 0 <= j < 512 -> j ≠ idx l1 v -> entry_at w' t1 j = entry_at w t1 j).
    { intros j Hj Hn; apply (same_but_entry w w' G t0 (idx l v) t1 l1); try done.
      intros [-> ->]; assert (l1 = l) as -> by congruence; done. }
    split; intros Hz j Hj Hn; [rewrite He by done|rewrite <- He by done]; auto. }
  assert (Hle : (l <= 4)%nat) by (by eapply reach_le).
  split; intros (k & Hk & Hpk & Hall); exists k; (split; [done|]); (split; [apply Hre; [lia|done]|]); intros l1 Hl1;
    destruct (Hall l1 Hl1) as (t1 & Hp1 & Hz); exists t1.
  - apply Hre in Hp1; [|lia]; split; [done|]; by apply (Hlo l1).
  - split; [apply Hre; [lia|done]|]; by apply Hlo.
Qed.

Lemma empty_entries t m : is_table_empty t m = true -> forall j, 0 <= j < 512 -> entry_at (mm_words m) t j = 0.
Proof.
  unfold is_table_empty; rewrite forallb_forall; intros He j Hj; apply (bool_decide_eq_true (entry_at (mm_words m) t j = 0)).
  apply He, list_elem_of_In, elem_of_seqZ; lia.
Qed.

(** An empty table on the way of [v] is taken out. *)
Lemma drop_ok cpu m G H root v l t :
  tables_ok m G H -> G !! root = Some 4%nat -> user v -> reach (mm_words m) v 4 root (S l) t -> (0 < l)%nat ->
  descends (S l) (entry_at (mm_words m) t (idx (S l) v)) = true ->
  is_table_empty (p2table (entry_at (mm_words m) t (idx (S l) v))) m = true ->
  exists m' H', drop_table cpu t (idx (S l) v) m = Ok m' /\
    pruned m G H m' (delete (p2table (entry_at (mm_words m) t (idx (S l) v))) G) H' /\
    mm_words m' = <[t + 8 * idx (S l) v := 0]> (mm_words m) /\
    (forall l1 t1, (l < l1)%nat -> reach (mm_words m) v 4 root l1 t1 -> reach (mm_words m') v 4 root l1 t1).
Proof.
  intros HT Hr Hv Hp Hl Hd He; pose proof (to_linked _ _ _ HT) as HL.
  pose proof (reach_table _ _ _ _ _ _ HL Hr Hv Hp) as Ht; pose proof (user_idx (S l) v Hv) as Hi.
  pose proof (lk_child _ _ HL t l _ Ht Hl Hi Hd) as Hc.
  destruct (detach_ok cpu m G H t l (idx (S l) v) HT Ht Hl Hi Hd (empty_entries _ _ He)) as
    (p & m' & Ec & E & HT' & Hcpu & Hlog & Hw & Hwk).
  set (c := p2table _) in *; destruct (to_frame _ _ _ HT _ _ Hc) as (p0 & f & Ep0 & Hp0 & _).
  assert (p0 = p) as -> by lia.
  exists m', (delete p H); split; [exact E|]; split; [split; try done|split; [exact Hw|]].
  - apply delete_subseteq.
  - apply delete_subseteq.
  - intros root' Hr'; rewrite lookup_delete_ne; [done|]; intros <-; assert (l = 4%nat) as -> by congruence.
    pose proof (lk_level _ _ HL t _ Ht); lia.
  - intros t' l' Ht' Hn; destruct (decide (t' = c)) as [->|]; [exists p; by rewrite lookup_delete_eq|].
    rewrite lookup_delete_ne in Hn by done; congruence.
  - intros q o Hq Hn; destruct (decide (q = p)) as [->|]; [|rewrite lookup_delete_ne in Hn by done; congruence].
    rewrite <- Ec; split; [by exists l|apply lookup_delete_eq].
  - intros l1 t1 Hl1 Hp1; rewrite Hw; apply (reach_same (mm_words m) _ G root v l1 t1 t (idx (S l) v) (S l)); try done.
    intros t' l' i' Ht' Hi' Hn; rewrite lookup_insert_ne; [done|]; intros Es; apply Hn.
      apply (slot_inj m G H t' l' i' t (S l) (idx (S l) v)); auto using idx_range.
Qed.

Lemma lone_empty c v l m : entry_at (mm_words m) c (idx l v) = 0 ->
  is_table_empty c m = true <-> lone (mm_words m) c (idx l v).
Proof.
  intros H0; split; [intros He j Hj _; by apply empty_entries|].
  intros Hz; unfold is_table_empty; apply forallb_forall; intros j Hj%list_elem_of_In%elem_of_seqZ.
  apply bool_decide_eq_true; destruct (decide (j = idx l v)) as [->|]; [done|]; apply Hz; [lia|done].
Qed.

(** With the table [c] of level [l] empty, those above follow. *)
Lemma given_step w root v l t c x : (0 < l < 4)%nat ->
  reach w v 4 root l c -> reach w v 4 root (S l) t -> lone w c (idx l v) ->
  given_back w root v l x <-> x = c \/ given_back w root v (S l) x.
Proof.
  intros Hl Hc Ht Hz; split.
  - intros (k & Hk & Hp & Hall); destruct (decide (k = l)) as [->|].
    + left; by eapply reach_fun.
    + right; exists k; split; [lia|]; split; [done|]; intros l1 Hl1; apply Hall; lia.
  - intros [->|(k & Hk & Hp & Hall)].
    + exists l; split; [lia|]; split; [done|]; intros l1 Hl1; assert (l1 = l) as -> by lia; eauto.
    + exists k; split; [lia|]; split; [done|]; intros l1 Hl1; destruct (decide (l1 = l)) as [->|]; [eauto|apply Hall; lia].
Qed.

(** One stage: the table [c] below [t] goes if it is empty, and then [next] runs. *)
Lemma prune_stage cpu m G H root v l t c next :
  tables_ok m G H -> G !! root = Some 4%nat -> user v -> (0 < l < 4)%nat ->
  reach (mm_words m) v 4 root (S l) t -> reach (mm_words m) v 4 root l c -> entry_at (mm_words m) c (idx l v) = 0 ->
  (forall m1 G1 H1, tables_ok m1 G1 H1 -> G1 !! root = Some 4%nat -> entry_at (mm_words m1) t (idx (S l) v) = 0 ->
     (forall l1 t1, (l < l1)%nat -> reach (mm_words m) v 4 root l1 t1 -> reach (mm_words m1) v 4 root l1 t1) ->
     exists m' G' H', next m1 = Ok m' /\ pruned m1 G1 H1 m' G' H' /\ exactly_given (mm_words m1) root v (S l) G1 G') ->
  exists m' G' H', (if is_table_empty c m then m ← drop_table cpu t (idx (S l) v) m; next m else Ok m) = Ok m' /\
    pruned m G H m' G' H' /\ exactly_given (mm_words m) root v l G G'.
Proof.
  intros HT Hr Hv Hl Ht Hc H0 Hnext; pose proof (lone_empty c v l m H0) as He; destruct (is_table_empty c m) eqn:Ee.
  - destruct (reach_up _ _ _ _ _ _ Hl Ht Hc) as [Hd Ec]; pose proof Ee as Ee'; rewrite Ec in Ee'.
    destruct (drop_ok cpu m G H root v l t HT Hr Hv Ht ltac:(lia) Hd Ee') as (m1 & H1 & -> & Hp & Hw & Hk); mstep.
    rewrite <- Ec in Hp; pose proof (reach_table _ _ _ _ _ _ (to_linked _ _ _ HT) Hr Hv Hc) as Hg.
    destruct (Hnext m1 (delete c G) H1) as (m' & G' & H' & E & Hp' & Hx); [apply Hp|by apply Hp| |done|].
    { rewrite Hw; unfold entry_at; by rewrite lookup_insert_eq. }
    exists m', G', H'; split; [done|]; split; [by eapply pruned_trans|]; intros x.
    rewrite (given_step _ root v l t c x Hl Hc Ht) by (by apply He).
    rewrite <- (given_write m G H root v (S l) t 0 x HT Hr Hv Ht), <- Hw, <- (Hx x).
    destruct (decide (x = c)) as [->|Hne]; [|rewrite (lookup_delete_ne G c x) by auto; naive_solver].
    split; [by left|]; intros _; split; [eauto|]; destruct (G' !! c) eqn:E'; [|done].
    eapply lookup_weaken in E'; [|apply Hp']; by rewrite lookup_delete_eq in E'.
  - exists m, G, H; split; [done|]; split; [by apply pruned_refl|]; intros x; split; [intros [[? ?] ?]; congruence|].
    intros (k & Hk & _ & Hall); destruct (Hall l ltac:(lia)) as (t1 & Hp1 & Hz).
    rewrite (reach_fun _ _ _ _ _ _ _ Hp1 Hc) in Hz; by apply He in Hz.
Qed.

Lemma prune_pdpt_ok cpu m G H root v pdpt :
  tables_ok m G H -> G !! root = Some 4%nat -> user v -> reach (mm_words m) v 4 root 3 pdpt ->
  entry_at (mm_words m) pdpt (idx 3 v) = 0 ->
  exists m' G' H', prune_pdpt cpu root pdpt v m = Ok m' /\ pruned m G H m' G' H' /\ exactly_given (mm_words m) root v 3 G G'.
Proof.
  intros HT Hr Hv Hp H0; destruct (prune_stage cpu m G H root v 3 root pdpt Ok HT Hr Hv ltac:(lia) (reach_here _ _ _ _) Hp H0)
    as (m' & G' & H' & E & Hpr).
  { intros m1 G1 H1 HT1 _ _ _; exists m1, G1, H1; split; [done|]; split; [by apply pruned_refl|].
    intros x; split; [intros [[? ?] ?]; congruence|intros (k & Hk & _); lia]. }
  exists m', G', H'; split; [|done]; rewrite <- E; unfold prune_pdpt; change (pml4_idx v) with (idx 4 v).
  destruct (is_table_empty pdpt m); [|done]; by destruct (drop_table cpu root (idx 4 v) m).
Qed.

Lemma prune_pd_ok cpu m G H root v pdpt pd :
  tables_ok m G H -> G !! root = Some 4%nat -> user v ->
  reach (mm_words m) v 4 root 3 pdpt -> reach (mm_words m) v 4 root 2 pd -> entry_at (mm_words m) pd (idx 2 v) = 0 ->
  exists m' G' H', prune_pd cpu root pdpt pd v m = Ok m' /\ pruned m G H m' G' H' /\
    exactly_given (mm_words m) root v 2 G G'.
Proof.
  intros HT Hr Hv Hp Hp2 H0; apply (prune_stage cpu m G H root v 2 pdpt pd); try done; [lia|].
  intros m1 G1 H1 HT1 Hr1 H01 Hk; apply prune_pdpt_ok; try done; apply Hk; [lia|done].
Qed.

Lemma prune_pt_ok cpu m G H root v pdpt pd pt :
  tables_ok m G H -> G !! root = Some 4%nat -> user v -> reach (mm_words m) v 4 root 3 pdpt ->
  reach (mm_words m) v 4 root 2 pd -> reach (mm_words m) v 4 root 1 pt -> entry_at (mm_words m) pt (idx 1 v) = 0 ->
  exists m' G' H', prune_pt cpu root pdpt pd pt v m = Ok m' /\ pruned m G H m' G' H' /\
    exactly_given (mm_words m) root v 1 G G'.
Proof.
  intros HT Hr Hv Hp3 Hp2 Hp1 H0; apply (prune_stage cpu m G H root v 1 pd pt); try done; [lia|].
  intros m1 G1 H1 HT1 Hr1 H01 Hk; apply prune_pd_ok; try done; apply Hk; done || lia.
Qed.

(** ** Removing the entry *)

(** The frame that a leaf of level [l] maps. *)
Definition leaf_frame (l : nat) (e : Z) : Z := Z.land e (if decide (l = 1%nat) then PT_ADDR_MASK else PT_2M_ADDR_MASK).

(** The page that is mapped at [v], if it is dirty and in the range of the page array, is not
    a free one. *)
Definition dirty_ok m (root v : Z) : Prop :=
  forall l e p f, walk (mm_words m) root v = Some (l, e) -> has_flag e PT_DIRTY = true ->
    ps_paddr_to_page (mm_pages m) (leaf_frame l e) = Some p -> ps_flags (mm_pages m) p = Ok f ->
    has_flag f PAGE_FLAG_FREE = false.

Lemma dirty_flags f : has_flag f (Z.lor PAGE_FLAG_FREE PAGE_FLAG_RESERVED) = false ->
  has_flag (Z.lor f PAGE_FLAG_DIRTY) (Z.lor PAGE_FLAG_FREE PAGE_FLAG_RESERVED) = false.
Proof.
  unfold has_flag; rewrite !negb_false_iff, !bool_decide_eq_true, Z.land_lor_distr_l; intros ->; by vm_compute.
Qed.

Lemma note_dirty_ok m G H phys old :
  tables_ok m G H -> 0 <= phys ->
  (forall p f, has_flag old PT_DIRTY = true -> ps_paddr_to_page (mm_pages m) phys = Some p ->
     ps_flags (mm_pages m) p = Ok f -> has_flag f PAGE_FLAG_FREE = false) ->
  exists s', note_dirty phys old m = Ok (with_st s' m) /\ tables_ok (with_st s' m) G H.
Proof.
  intros HT Hphys Hd; unfold note_dirty; pose proof HT as [T1 T2 T3].
  assert (Hsame : exists s', Ok m = Ok (with_st s' m) /\ tables_ok (with_st s' m) G H) by (exists (mm_pages m); by destruct m).
  destruct (ps_paddr_to_page _ phys) as [p|] eqn:Ep; [|done]; destruct (has_flag old PT_DIRTY); [|done].
  destruct (fr_desc _ _ _ _ T1 Hphys Ep) as [f Hf]; rewrite Hf; mstep.
  destruct (fr_touch_ok _ _ p f T1 Hf (Hd p f eq_refl eq_refl Hf)) as (s' & -> & Hok & Hp & Hs); mstep.
  exists s'; split; [done|]; split; [done| |done].
  intros t l Ht; destruct (T2 t l Ht) as (q & g & -> & Hq & Hg & Hfl); destruct (decide (q = p)) as [->|Hne].
  - exists p, (Z.lor f PAGE_FLAG_DIRTY); split_and!; try done; assert (g = f) as -> by congruence; by apply dirty_flags.
  - exists q, g; cbn [mm_pages with_st]; by rewrite Hs.
Qed.

(** The entry of [v] at level [l] is cleared and the flush made. *)
Record cleared (l : nat) (root v : Z) m (G H : gmap Z nat) m' : Prop := {
  cl_ok : tables_ok m' G H;
  cl_gone v' : user v' -> same_down l v v' -> walk (mm_words m') root v' = None;
  cl_rest root' v' : G !! root' = Some 4%nat -> user v' -> ~ (root' = root /\ same_down l v v') ->
    walk (mm_words m') root' v' = walk (mm_words m) root' v';
  cl_cpu : same_cpu m m';
  cl_log : mm_log m' = if decide (is_Some (walk (mm_words m) root v) /\ Z.land (mm_cr3 m) PT_ADDR_MASK = root)
                       then FlushPage v :: mm_log m else mm_log m;
  cl_reach l1 t1 : (l <= l1)%nat -> reach (mm_words m) v 4 root l1 t1 -> reach (mm_words m') v 4 root l1 t1;
  cl_words t : reach (mm_words m) v 4 root l t -> mm_words m' = <[t + 8 * idx l v := 0]> (mm_words m)
}.

Lemma zero_entry_ok m G H root v l t :
  tables_ok m G H -> G !! root = Some 4%nat -> user v -> reach (mm_words m) v 4 root l t -> (0 < l)%nat ->
  let m' := set_entry t (idx l v) 0 m in
  tables_ok m' G H /\
  (forall v', user v' -> same_down l v v' -> walk (mm_words m') root v' = None) /\
  (forall l1 t1 v', user v' -> same_down l v v' -> (l <= l1)%nat ->
     reach (mm_words m) v' 4 root l1 t1 -> reach (mm_words m') v' 4 root l1 t1).
Proof.
  intros HT Hr Hv Hp Hl0 m'; pose proof (to_linked _ _ _ HT) as HL.
  pose proof (reach_table _ _ _ _ _ _ HL Hr Hv Hp) as Ht.
  assert (Hsb : same_but (mm_words m) (mm_words m') G t (idx l v)).
  { intros t' l' i' Ht' Hi' Hn; cbn; rewrite lookup_insert_ne; [done|]; intros E; apply Hn.
    apply (slot_inj m G H t' l' i' t l (idx l v)); auto using idx_range. }
  assert (Hk : forall l1 t1 v', user v' -> same_down l v v' -> (l <= l1)%nat ->
    reach (mm_words m) v' 4 root l1 t1 -> reach (mm_words m') v' 4 root l1 t1).
  { intros l1 t1 v' Hv' _ Hl1 Hp1; by apply (reach_same (mm_words m) _ G root v' l1 t1 t (idx l v) l). }
  split; [split; try apply HT|split; [|done]].
  - apply (linked_leaf _ _ _ l); auto using idx_range.
    intros t' l' i' Ht' Hi' E; apply (slot_inj m G H t' l' i' t l (idx l v)); auto using idx_range.
  - intros v' Hv' Hs; assert (Hp' : reach (mm_words m') v' 4 root l t).
    { apply Hk; try done; eapply reach_same_down; [exact Hp|]; intros j Hj; apply Hs; lia. }
    unfold walk; rewrite (walk_reach _ _ _ _ _ _ Hp'); apply (dead_absent _ _ _ (idx l v)).
    + cbn; unfold entry_at; by rewrite lookup_insert_eq, entry_zero.
    + symmetry; apply Hs; apply reach_le in Hp; lia.
Qed.

Lemma mask_nonneg e k : 0 <= k -> 0 <= Z.land e k.
Proof. intros; apply Z.land_nonneg; by right. Qed.

Lemma removed_ok m G H root v l t mask :
  tables_ok m G H -> G !! root = Some 4%nat -> user v -> reach (mm_words m) v 4 root l t -> (0 < l)%nat ->
  let old := entry_at (mm_words m) t (idx l v) in
  (has_flag old PT_PRESENT = true -> walk (mm_words m) root v = Some (l, old)) ->
  Z.land old mask = leaf_frame l old -> 0 <= mask -> dirty_ok m root v ->
  exists m', removed_page root v mask old (set_entry t (idx l v) 0 m) = Ok m' /\ cleared l root v m G H m'.
Proof.
  intros HT Hr Hv Hp Hl0 old Hw Hmask Hm0 Hd; destruct (zero_entry_ok m G H root v l t HT Hr Hv Hp Hl0) as (HT' & Hg & Hk).
  set (m1 := set_entry t (idx l v) 0 m) in *; unfold removed_page.
  assert (Hrest : forall root' v', G !! root' = Some 4%nat -> user v' -> ~ (root' = root /\ same_down l v v') ->
    walk (mm_words m1) root' v' = walk (mm_words m) root' v') by (intros; by apply (walk_write m G H root v l t)).
  assert (Hreach : forall l1 t1, (l <= l1)%nat -> reach (mm_words m) v 4 root l1 t1 -> reach (mm_words m1) v 4 root l1 t1).
  { intros l1 t1 Hl1 Hp1; apply Hk; try done. }
  assert (Hwd : forall t', reach (mm_words m) v 4 root l t' -> mm_words m1 = <[t' + 8 * idx l v := 0]> (mm_words m)).
  { intros t' Hp'; by rewrite (reach_fun _ _ _ _ _ _ _ Hp' Hp). }
  destruct (has_flag old PT_PRESENT) eqn:Epr.
  - destruct (note_dirty_ok m1 G H (Z.land old mask) old HT') as (s' & -> & HT2); [by apply mask_nonneg| |].
    { intros p f Hdt Hpa Hf; rewrite Hmask in Hpa; by apply (Hd l old p f (Hw eq_refl)). }
    mstep; eexists; split; [done|]; unfold flush_if_active; cbn [with_st mm_cr3 set_entry with_words m1].
    destruct (decide (Z.land (mm_cr3 m) PT_ADDR_MASK = root)) as [Ha|Ha].
    + split; [split; apply HT2|done|done|done| |done|done]; rewrite (Hw eq_refl), decide_True by (split; [eauto|done]); done.
    + split; [done|done|done|done| |done|done]; rewrite decide_False by (by intros [_ ?]); done.
  - exists m1; split; [done|]; split; try done; rewrite decide_False; [done|]; intros [[x Hx] _].
    unfold walk in Hx; rewrite (walk_reach _ _ _ _ _ _ Hp), (dead_absent _ l t (idx l v)) in Hx; done.
Qed.

(** ** [mmu_unmap_page] *)

(** The page of level [l] at [v] is gone, and exactly the tables that held nothing but
    the way to it were given back. *)
Record unmap_done (l : nat) (root v : Z) m (G H : gmap Z nat) m' (G' H' : gmap Z nat) : Prop := {
  ud_ok : tables_ok m' G' H';
  ud_tables : G' ⊆ G;
  ud_held : H' ⊆ H;
  ud_roots root' : G !! root' = Some 4%nat -> G' !! root' = Some 4%nat;
  ud_freed t k : G !! t = Some k -> G' !! t = None -> exists p, t = p * 4096 /\ H' !! p = None;
  ud_kept p o : H !! p = Some o -> H' !! p = None -> is_Some (G !! (p * 4096)) /\ G' !! (p * 4096) = None;
  ud_gone v' : user v' -> same_down l v v' -> walk (mm_words m') root v' = None;
  ud_other root' v' : G !! root' = Some 4%nat -> user v' -> ~ (root' = root /\ same_down l v v') ->
    walk (mm_words m') root' v' = walk (mm_words m) root' v';
  ud_cpu : same_cpu m m';
  ud_log : mm_log m' = if decide (is_Some (walk (mm_words m) root v) /\ Z.land (mm_cr3 m) PT_ADDR_MASK = root)
                       then FlushPage v :: mm_log m else mm_log m;
  ud_given : exactly_given (mm_words m) root v l G G'
}.

Lemma cleared_pruned l root v m G H m1 m' G' H' t :
  tables_ok m G H -> G !! root = Some 4%nat -> user v -> reach (mm_words m) v 4 root l t ->
  cleared l root v m G H m1 -> pruned m1 G H m' G' H' -> exactly_given (mm_words m1) root v l G G' ->
  unmap_done l root v m G H m' G' H'.
Proof.
  intros HT Hr Hv Hp [C1 C2 C3 C4 C5 C6 C7] [P1 P2 P3 P4 P5 P6 P7 P8 P9] HX; split; try done.
  - intros v' Hv' Hs; rewrite P7 by done; auto.
  - intros root' v' Hr' Hv' Hn; rewrite P7 by done; auto.
  - by eapply same_cpu_trans.
  - by rewrite P9.
  - intros x; rewrite (HX x), (C7 t Hp); by apply (given_write m G H).
Qed.

Lemma walk_same_down w root v v' : same_down 1 v v' -> walk w root v' = walk w root v.
Proof.
  intros Hs; unfold walk; cut (forall l t, (l <= 4)%nat -> walk_from l w t v' = walk_from l w t v); [eauto|].
  induction l as [|l IH]; intros t Hl; [done|]; cbn [walk_from]; rewrite (Hs (S l)) by lia.
  by rewrite IH by lia.
Qed.

(** Nothing was mapped and nothing is done. *)
Lemma unmap_none m G H root v :
  tables_ok m G H -> walk (mm_words m) root v = None -> (forall t, ~ reach (mm_words m) v 4 root 1 t) ->
  unmap_done 1 root v m G H m G H.
Proof.
  intros HT Hw Hno; split; try done; try (intros; congruence).
  - intros v' _ Hs; by rewrite (walk_same_down _ _ v).
  - rewrite decide_False; [done|]; rewrite Hw; by intros [[? ?] _].
  - intros x; split; [intros [[? ?] ?]; congruence|]; intros (k & Hk & _ & Hall).
    destruct (Hall 1%nat ltac:(lia)) as (t1 & Hp1 & _); by destruct (Hno t1).
Qed.

(** What [mmu_unmap_page] does, by what was mapped: a page of 1 GiB is refused, and a page of
    2 MiB stays where it is unless its frame passes for that of a table. *)
Definition unmap_result (root v : Z) m (G H : gmap Z nat) (r : Z) m' : Prop :=
  match walk (mm_words m) root v with
  | Some (3%nat, e) => r = - EINVAL /\ m' = m
  | Some (2%nat, e) =>
      r = 0 /\ match is_valid_table_phys (p2table e) m with
                | Ok true => exists G' H', unmap_done 2 root v m G H m' G' H'
                | _ => m' = m
                end
  | _ => r = 0 /\ exists G' H', unmap_done 1 root v m G H m' G' H'
  end.

Lemma p2table_nonneg e : 0 <= p2table e.
Proof. by apply mask_nonneg. Qed.

Lemma valid_total m H t : fr_ok (mm_pages m) H -> 0 <= t -> exists b, is_valid_table_phys t m = Ok b.
Proof.
  intros Hok Ht; unfold is_valid_table_phys; case_decide; [eauto|].
  destruct (ps_paddr_to_page _ t) as [p|] eqn:Ep; [|eauto]; destruct (fr_desc _ _ _ _ Hok Ht Ep) as [f ->]; mstep; eauto.
Qed.

Lemma unmap_last_ok cpu m G H root v pdpt pd pt :
  tables_ok m G H -> G !! root = Some 4%nat -> user v -> dirty_ok m root v ->
  reach (mm_words m) v 4 root 3 pdpt -> reach (mm_words m) v 4 root 2 pd -> reach (mm_words m) v 4 root 1 pt ->
  exists m' G' H', unmap_last cpu root pdpt pd pt v m = Ok m' /\ unmap_done 1 root v m G H m' G' H'.
Proof.
  intros HT Hr Hv Hd Hp3 Hp2 Hp1; unfold unmap_last, get_entry; cbv zeta; change (pt_idx v) with (idx 1 v).
  destruct (removed_ok m G H root v 1 pt PT_ADDR_MASK HT Hr Hv Hp1) as (m1 & -> & HC); try done; [lia| |].
  { intros Hpr; unfold walk; rewrite (walk_reach _ _ _ _ _ _ Hp1); cbn [walk_from]; by rewrite Hpr. }
  mstep; rewrite decide_True by exact Hv; pose proof (cl_reach _ _ _ _ _ _ _ HC) as Hk.
  destruct (prune_pt_ok cpu m1 G H root v pdpt pd pt) as (m' & G' & H' & -> & Hpr & Hx);
    [apply HC|done|done|apply Hk; done || lia..| |].
  { rewrite (cl_words _ _ _ _ _ _ _ HC pt) by done; unfold entry_at; by rewrite lookup_insert_eq. }
  exists m', G', H'; split; [done|]; by eapply (cleared_pruned 1 root v m G H m1 m' G' H' pt).
Qed.

Lemma unmap_huge_ok cpu m G H root v pdpt pd :
  tables_ok m G H -> G !! root = Some 4%nat -> user v -> dirty_ok m root v ->
  reach (mm_words m) v 4 root 3 pdpt -> reach (mm_words m) v 4 root 2 pd ->
  has_flag (entry_at (mm_words m) pd (idx 2 v)) PT_HUGE = true ->
  exists m' G' H', unmap_huge cpu root pdpt pd v m = Ok m' /\ unmap_done 2 root v m G H m' G' H'.
Proof.
  intros HT Hr Hv Hd Hp3 Hp2 Hh; unfold unmap_huge, get_entry; cbv zeta; change (pd_idx v) with (idx 2 v).
  destruct (removed_ok m G H root v 2 pd PT_2M_ADDR_MASK HT Hr Hv Hp2) as (m1 & -> & HC); try done; [lia| |].
  { intros _; apply (huge_blocks _ G root v 1 pd); try done; [apply HT|lia]. }
  mstep; rewrite decide_True by exact Hv; pose proof (cl_reach _ _ _ _ _ _ _ HC) as Hk.
  destruct (prune_pd_ok cpu m1 G H root v pdpt pd) as (m' & G' & H' & -> & Hpr & Hx);
    [apply HC|done|done|apply Hk; done || lia..| |].
  { rewrite (cl_words _ _ _ _ _ _ _ HC pd) by done; unfold entry_at; by rewrite lookup_insert_eq. }
  exists m', G', H'; split; [done|]; by eapply (cleared_pruned 2 root v m G H m1 m' G' H' pd).
Qed.

(** One level down: the entry is absent, or it leads to a table of the next level. *)
Lemma step_down m G H root v l t :
  tables_ok m G H -> G !! root = Some 4%nat -> user v -> reach (mm_words m) v 4 root (S l) t -> (0 < l < 4)%nat ->
  let e := entry_at (mm_words m) t (idx (S l) v) in
  if negb (has_flag e PT_PRESENT) then walk (mm_words m) root v = None /\ forall t', ~ reach (mm_words m) v 4 root 1 t'
  else descends (S l) e = true ->
       reach (mm_words m) v 4 root l (p2table e) /\ is_valid_table_phys (p2table e) m = Ok true.
Proof.
  intros HT Hr Hv Hp Hl e; destruct (has_flag e PT_PRESENT) eqn:Epr; cbn [negb].
  - intros Hd; pose proof (to_linked _ _ _ HT) as HL; pose proof (reach_table _ _ _ _ _ _ HL Hr Hv Hp) as Ht.
    split; [constructor; try done; lia|].
    eapply frame_valid; [apply HT|]; eapply (to_frame _ _ _ HT), (lk_child _ _ HL t l); try done; [lia|by apply user_idx].
  - split; [unfold walk; rewrite (walk_reach _ _ _ _ _ _ Hp); by apply (dead_absent _ _ _ (idx (S l) v))|].
    intros t'; apply (reach_cut _ _ _ l t); try done; [|lia]; fold e; unfold descends; by rewrite Epr.
Qed.

(** Unmapping a page of the user half. *)
Lemma unmap_page_ok cpu m G H root v :
  tables_ok m G H -> G !! root = Some 4%nat -> user v -> dirty_ok m root v ->
  exists r m', mmu_unmap_page_unlocked cpu root v m = Ok (r, m') /\ unmap_result root v m G H r m'.
Proof.
  intros HT Hr Hv Hd; unfold mmu_unmap_page_unlocked, get_entry; cbv zeta.
  change (pml4_idx v) with (idx 4 v); change (pdpt_idx v) with (idx 3 v); change (pd_idx v) with (idx 2 v).
  assert (Hnone : walk (mm_words m) root v = None /\ (forall t', ~ reach (mm_words m) v 4 root 1 t') ->
    exists r m', Ok (0, m) = Ok (r, m') /\ unmap_result root v m G H r m').
  { intros [Hw Hno]; exists 0, m; split; [done|]; unfold unmap_result; rewrite Hw; split; [done|].
    exists G, H; by apply unmap_none. }
  pose proof (step_down m G H root v 3 root HT Hr Hv (reach_here _ _ _ _) ltac:(lia)) as S3; cbv zeta in S3.
  destruct (has_flag _ PT_PRESENT) eqn:E4; cbn [negb] in S3 |- *; [|by apply Hnone].
  destruct S3 as [Hp3 ->]; [by unfold descends; rewrite E4, bool_decide_false by auto|]; mstep; cbn [negb].
  set (pdpt := p2table _) in *.
  pose proof (step_down m G H root v 2 pdpt HT Hr Hv Hp3 ltac:(lia)) as S2; cbv zeta in S2.
  destruct (has_flag (entry_at _ pdpt _) PT_PRESENT) eqn:E3; cbn [negb] in S2 |- *; [|by apply Hnone].
  destruct (has_flag (entry_at _ pdpt _) PT_HUGE) eqn:Eh3.
  { exists (- EINVAL), m; split; [done|]; unfold unmap_result.
    rewrite (huge_blocks _ G root v 2 pdpt); [done|apply HT|done|done|done|lia|done]. }
  destruct S2 as [Hp2 ->]; [by apply descends_intro|]; mstep; cbn [negb]; set (pd := p2table (entry_at _ pdpt _)) in *.
  pose proof (step_down m G H root v 1 pd HT Hr Hv Hp2 ltac:(lia)) as S1; cbv zeta in S1.
  destruct (has_flag (entry_at _ pd _) PT_PRESENT) eqn:E2; cbn [negb] in S1 |- *; [|by apply Hnone].
  set (e2 := entry_at _ pd _) in *; destruct (has_flag e2 PT_HUGE) eqn:Eh2.
  - assert (Hw : walk (mm_words m) root v = Some (2%nat, e2)) by (apply (huge_blocks _ G root v 1 pd); try done; [apply HT|lia]).
    destruct (valid_total m H (p2table e2)) as [[] Hb]; [apply HT|apply p2table_nonneg| |]; rewrite Hb; mstep; cbn [negb].
    + destruct (unmap_huge_ok cpu m G H root v pdpt pd) as (m' & G' & H' & -> & HU); try done; mstep.
      exists 0, m'; split; [done|]; unfold unmap_result; rewrite Hw, Hb; eauto.
    + exists 0, m; split; [done|]; unfold unmap_result; by rewrite Hw, Hb.
  - destruct S1 as [Hp1 ->]; [by apply descends_intro|]; mstep; cbn [negb].
    destruct (unmap_last_ok cpu m G H root v pdpt pd (p2table e2)) as (m' & G' & H' & -> & HU); try done; mstep.
    exists 0, m'; split; [done|]; unfold unmap_result, walk; rewrite (walk_reach _ _ _ _ _ _ Hp1); cbn [walk_from].
    destruct (has_flag (entry_at _ (p2table e2) _) PT_PRESENT); split; eauto.
Qed.

End unmap.
