(* ===== verification/MmuLookup.v ===== *)
(** * Page tables: translation, entry pointers and protection *)

From stdpp Require Import base tactics option list numbers gmap.
From Stdlib Require Import ZArith Lia.
From S2P Require Import Prelude Pmm PmmSpec SlabMem Slab Mmu MmuWalk MmuInv MmuTables MmuMap MmuUnmap.

Local Open Scope Z_scope.

Section lookup.
Context {St : Type} `{!PageSource St} `{!FrameLaws St}.
Implicit Types m : mmu St.
Implicit Types w : gmap Z Z.

(** The way of [v] through the tables, by where it ends: from the page directory, from the
    table above it and from the root. *)
Inductive way_at_pd m (root v pd : Z) : Prop :=
| way_no_pt : has_flag (entry_at (mm_words m) pd (idx 2 v)) PT_PRESENT = false ->
    walk (mm_words m) root v = None -> way_at_pd m root v pd
| way_2m e2 : entry_at (mm_words m) pd (idx 2 v) = e2 -> has_flag e2 PT_PRESENT = true ->
    has_flag e2 PT_HUGE = true -> walk (mm_words m) root v = Some (2%nat, e2) ->
    reach (mm_words m) v 4 root 2 pd -> way_at_pd m root v pd
| way_pt e2 e1 : entry_at (mm_words m) pd (idx 2 v) = e2 -> has_flag e2 PT_PRESENT = true ->
    has_flag e2 PT_HUGE = false -> is_valid_table_phys (p2table e2) m = Ok true ->
    reach (mm_words m) v 4 root 1 (p2table e2) -> entry_at (mm_words m) (p2table e2) (idx 1 v) = e1 ->
    walk (mm_words m) root v = (if has_flag e1 PT_PRESENT then Some (1%nat, e1) else None) -> way_at_pd m root v pd.

Inductive way_at_pdpt m (root v pdpt : Z) : Prop :=
| way_no_pd : has_flag (entry_at (mm_words m) pdpt (idx 3 v)) PT_PRESENT = false ->
    walk (mm_words m) root v = None -> way_at_pdpt m root v pdpt
| way_1g e3 : entry_at (mm_words m) pdpt (idx 3 v) = e3 -> has_flag e3 PT_PRESENT = true ->
    has_flag e3 PT_HUGE = true -> walk (mm_words m) root v = Some (3%nat, e3) -> way_at_pdpt m root v pdpt
| way_pd e3 : entry_at (mm_words m) pdpt (idx 3 v) = e3 -> has_flag e3 PT_PRESENT = true ->
    has_flag e3 PT_HUGE = false -> is_valid_table_phys (p2table e3) m = Ok true ->
    way_at_pd m root v (p2table e3) -> way_at_pdpt m root v pdpt.

Inductive way m (root v : Z) : Prop :=
| way_no_pdpt : has_flag (entry_at (mm_words m) root (idx 4 v)) PT_PRESENT = false ->
    walk (mm_words m) root v = None -> way m root v
| way_pdpt e4 : entry_at (mm_words m) root (idx 4 v) = e4 -> has_flag e4 PT_PRESENT = true ->
    is_valid_table_phys (p2table e4) m = Ok true -> way_at_pdpt m root v (p2table e4) -> way m root v.

Lemma way_down m G H root v : tables_ok m G H -> G !! root = Some 4%nat -> user v -> way m root v.
Proof.
  intros HT Hr Hv; pose proof (to_linked _ _ _ HT) as HL.
  pose proof (step_down m G H root v 3 root HT Hr Hv (reach_here _ _ _ _) ltac:(lia)) as S3; cbv zeta in S3.
  destruct (has_flag _ PT_PRESENT) eqn:E4; cbn [negb] in S3; [|apply way_no_pdpt; tauto].
  destruct S3 as [Hp3 Hv3]; [by unfold descends; rewrite E4, bool_decide_false by auto|].
  eapply way_pdpt; [done..|]; set (pdpt := p2table _) in *.
  pose proof (step_down m G H root v 2 pdpt HT Hr Hv Hp3 ltac:(lia)) as S2; cbv zeta in S2.
  destruct (has_flag (entry_at _ pdpt _) PT_PRESENT) eqn:E3; cbn [negb] in S2; [|apply way_no_pd; tauto].
  destruct (has_flag (entry_at (mm_words m) pdpt (idx 3 v)) PT_HUGE) eqn:Eh3.
  { eapply way_1g; try done; apply (huge_blocks _ G root v 2 pdpt); done || lia. }
  destruct S2 as [Hp2 Hv2]; [by apply descends_intro|]; eapply way_pd; [done..|]; set (pd := p2table (entry_at _ pdpt _)) in *.
  pose proof (step_down m G H root v 1 pd HT Hr Hv Hp2 ltac:(lia)) as S1; cbv zeta in S1.
  destruct (has_flag (entry_at _ pd _) PT_PRESENT) eqn:E2; cbn [negb] in S1; [|apply way_no_pt; tauto].
  destruct (has_flag (entry_at (mm_words m) pd (idx 2 v)) PT_HUGE) eqn:Eh2.
  { eapply way_2m; try done; apply (huge_blocks _ G root v 1 pd); done || lia. }
  destruct S1 as [Hp1 Hv1]; [by apply descends_intro|]; eapply way_pt; try done.
  unfold walk; rewrite (walk_reach _ _ _ _ _ _ Hp1); cbn [walk_from]; by case_match.
Qed.

(** ** [mmu_virt_to_phys] *)

(** The physical address that a leaf gives. *)
Definition translation (r : option (nat * Z)) (v : Z) : Z :=
  match r with
  | Some (1%nat, e) => Z.lor (Z.land e PT_ADDR_MASK) (Z.land v PAGE_MASK)
  | Some (2%nat, e) => Z.lor (Z.land e PT_2M_ADDR_MASK) (Z.land v 0x1FFFFF)
  | Some (3%nat, e) => Z.lor (Z.land e PT_1G_ADDR_MASK) (Z.land v 0x3FFFFFFF)
  | _ => 0
  end.

Ltac way_simpl := repeat first [ progress mstep | progress cbn [negb orb andb]
  | match goal with Hx : has_flag ?e ?f = _ |- context[has_flag ?e ?f] => rewrite Hx
    | Hx : is_valid_table_phys ?e ?f = _ |- context[is_valid_table_phys ?e ?f] => rewrite Hx
    | Hx : entry_at ?a ?b ?c = _ |- context[entry_at ?a ?b ?c] => rewrite Hx end ].

Ltac by_way W := destruct W as [? Hw|e4 Ee4 ? ? W]; [|destruct W as [? Hw|e3 Ee3 ? ? Hw|e3 Ee3 ? ? ? W];
  [..|destruct W as [? Hw|e2 Ee2 ? ? Hw ?|e2 e1 Ee2 ? ? ? ? Ee1 Hw]]].

Lemma translate_ok m G H root v :
  tables_ok m G H -> G !! root = Some 4%nat -> user v ->
  translate root v m = Ok (translation (walk (mm_words m) root v) v).
Proof.
  intros HT Hr Hv; pose proof (way_down m G H root v HT Hr Hv) as W; unfold translate, get_entry; cbv zeta.
  change (pml4_idx v) with (idx 4 v); change (pdpt_idx v) with (idx 3 v); change (pd_idx v) with (idx 2 v).
  change (pt_idx v) with (idx 1 v); by_way W; rewrite Hw; way_simpl; try done.
  by case_match.
Qed.

(** ** [mmu_get_pte_ptr] *)

(** The word of the last level, if the way of [v] comes that far. *)
Lemma get_pte_ptr_ok m G H ctx root v :
  tables_ok m G H -> G !! root = Some 4%nat -> user v -> pml4_of ctx m = Ok root -> root ≠ 0 -> Z.land v PAGE_MASK = 0 ->
  exists r, mmu_get_pte_ptr ctx v m = Ok r /\
    if decide (r = 0) then forall e, walk (mm_words m) root v ≠ Some (1%nat, e)
    else exists pt, r = pt + 8 * idx 1 v /\ reach (mm_words m) v 4 root 1 pt /\ walk (mm_words m) root v =
         (let e := default 0 (mm_words m !! r) in if has_flag e PT_PRESENT then Some (1%nat, e) else None).
Proof.
  intros HT Hr Hv Hc Hr0 Ha; pose proof (way_down m G H root v HT Hr Hv) as W.
  unfold mmu_get_pte_ptr, get_entry; cbv zeta; rewrite Hc; mstep; rewrite decide_False by tauto.
  change (pml4_idx v) with (idx 4 v); change (pdpt_idx v) with (idx 3 v); change (pd_idx v) with (idx 2 v).
  change (pt_idx v) with (idx 1 v); by_way W; rewrite Hw; way_simpl; try (exists 0; by rewrite decide_True).
  eexists; split; [done|]; rewrite decide_False; [exists (p2table e2); unfold entry_at in Ee1; by rewrite Ee1|].
  assert (Ht : G !! p2table e2 = Some 1%nat) by (eapply reach_table; [apply HT|done..]).
  destruct (to_frame _ _ _ HT _ _ Ht) as (p & f & -> & Hp & _).
  destruct (fr_place _ _ _ (to_pages _ _ _ HT) Hp); pose proof (idx_range 1 v); lia.
Qed.

(** ** [mmu_protect_page] *)

Lemma tables_ok_ext m m' G H : mm_pages m' = mm_pages m -> mm_words m' = mm_words m -> tables_ok m G H -> tables_ok m' G H.
Proof. intros E1 E2 [T1 T2 T3]; split; by rewrite ?E1, ?E2. Qed.

(** The entry that keeps the frame of [e] with new rights. *)
Definition protected (l : nat) (e flags : Z) : Z :=
  let e' := Z.lor (leaf_frame l e) (mmu_flags_to_pte flags) in
  if decide (l = 1%nat) then e' else Z.lor e' PT_HUGE.

Lemma protected_leaf l e flags : (l = 1 \/ l = 2)%nat -> is_leaf l (protected l e flags).
Proof.
  assert (Hp : has_flag (Z.lor (leaf_frame l e) (mmu_flags_to_pte flags)) PT_PRESENT = true) by apply present_lor, pte_present.
  intros [-> | ->]; unfold protected; cbn [decide decide_rel]; [split; [done|by left]|].
  rewrite decide_False by done; split; [rewrite Z.lor_comm; by apply present_lor|right].
  unfold descends; rewrite bool_decide_true by done.
  replace (has_flag (Z.lor _ PT_HUGE) PT_HUGE) with true; [by rewrite andb_false_r|].
  unfold PT_HUGE; rewrite has_flag_bit, Z.lor_spec by lia; by rewrite orb_true_r.
Qed.

Definition protect_result (root v flags : Z) m (G H : gmap Z nat) (r : Z) m' : Prop :=
  match walk (mm_words m) root v with
  | Some (1%nat, e) => r = 0 /\ map_done 1 root v (protected 1 e flags) m G H m' G H
  | Some (2%nat, e) => r = 0 /\ map_done 2 root v (protected 2 e flags) m G H m' G H
  | _ => r = - EINVAL /\ m' = m
  end.

(** The entry is changed and the page marked in the page array. *)
Lemma exchange_noted m G H root v t e e' phys :
  tables_ok m G H -> G !! root = Some 4%nat -> user v -> reach (mm_words m) v 4 root 1 t ->
  has_flag e' PT_PRESENT = true -> 0 <= phys ->
  (forall p f, has_flag e PT_DIRTY = true -> ps_paddr_to_page (mm_pages m) phys = Some p ->
     ps_flags (mm_pages m) p = Ok f -> has_flag f PAGE_FLAG_FREE = false) ->
  exists m1, note_dirty phys e (set_entry t (idx 1 v) e' m) = Ok m1 /\
    map_done 1 root v e' m G H (flush_if_active root v m1) G H.
Proof.
  intros HT Hr Hv Hp He Hph Hd.
  pose proof (exchange_ok m G H root v 1 t e' HT Hr Hv Hp ltac:(lia) (conj He (or_introl eq_refl))) as [D1 D2 D3 D4 D5 D6 D7 D8 D9].
  destruct (exchange_fields t (idx 1 v) e' root v m) as (F1 & F2 & F3 & F4).
  set (m1 := set_entry t (idx 1 v) e' m); assert (HT1 : tables_ok m1 G H).
  { eapply (tables_ok_ext _ m1); [exact (eq_sym F1)|exact (eq_sym F2)|exact D1]. }
  destruct (note_dirty_ok m1 G H phys e HT1 Hph Hd) as (s' & -> & HT2); eexists; split; [done|].
  unfold others_kept in D8; rewrite F2 in D4, D5, D8, D9; unfold flush_if_active; cbn [with_st mm_cr3 set_entry with_words m1].
  destruct (decide (Z.land (mm_cr3 m) PT_ADDR_MASK = root)) as [Ha|Ha].
  - split; try done; [split; apply HT2|by rewrite decide_True].
  - split; try done; by rewrite decide_False.
Qed.

Lemma protect_page_ok m G H ctx root v flags :
  tables_ok m G H -> G !! root = Some 4%nat -> user v -> dirty_ok m root v ->
  pml4_of ctx m = Ok root -> root ≠ 0 -> Z.land v PAGE_MASK = 0 ->
  exists r m', mmu_protect_page ctx v flags m = Ok (r, m') /\ protect_result root v flags m G H r m'.
Proof.
  intros HT Hr Hv Hd Hc Hr0 Ha; pose proof (way_down m G H root v HT Hr Hv) as W.
  unfold mmu_protect_page, get_entry; cbv zeta; rewrite Hc; mstep; rewrite decide_False by done; rewrite decide_False by tauto.
  change (pml4_idx v) with (idx 4 v); change (pdpt_idx v) with (idx 3 v); change (pd_idx v) with (idx 2 v).
  change (pt_idx v) with (idx 1 v); unfold protect_result; by_way W; rewrite Hw; way_simpl; eauto.
  - eexists 0, _; split; [done|]; split; [done|]; rewrite <- Ee2.
    apply exchange_ok; try done; [lia|]; rewrite Ee2; apply (protected_leaf 2); auto.
  - destruct (has_flag e1 PT_PRESENT) eqn:Ep; cbn [negb]; [|eauto].
    destruct (exchange_noted m G H root v (p2table e2) e1 (protected 1 e1 flags) (leaf_frame 1 e1)) as (m1 & E & HM); try done.
    + apply present_lor, pte_present.
    + by apply mask_nonneg.
    + intros p f Hdt Hpa Hf; by apply (Hd 1%nat e1 p f).
    + change (Z.land e1 PT_ADDR_MASK) with (leaf_frame 1 e1).
      change (Z.lor (leaf_frame 1 e1) (mmu_flags_to_pte flags)) with (protected 1 e1 flags); rewrite E; mstep; eauto.
Qed.

End lookup.
