(* ===== verification/MmuCtx.v ===== *)
(** * Page tables: contexts, from creation to the release of their tables *)

From stdpp Require Import base tactics option list numbers gmap.
From Stdlib Require Import ZArith Lia.
From S2P Require Import Prelude Pmm PmmSpec SlabMem Slab Mmu MmuWalk MmuInv MmuTables MmuMap.

Local Open Scope Z_scope.

(** The number of entries of a table of level [l] that belong to user space. *)
Definition width (l : nat) : nat := if decide (l = 4%nat) then 256%nat else 512%nat.

(** The table [t] of level [l] with all that it leads to, children first. *)
Fixpoint subtree (w : gmap Z Z) (l : nat) (t : Z) : list Z :=
  match l with
  | O => []
  | S l' =>
      (if decide (l' = 0%nat) then []
       else mjoin ((fun i => let e := entry_at w t i in if descends l e then subtree w l' (p2table e) else [])
                     <$> seqZ 0 (Z.of_nat (width l)))) ++ [t]
  end.

(** The tables below entry [i] of [t]. *)
Definition below (w : gmap Z Z) (l : nat) (t i : Z) : list Z :=
  let e := entry_at w t i in if descends (S l) e then subtree w l (p2table e) else [].

Lemma subtree_S w l t :
  (0 < l)%nat -> subtree w (S l) t = mjoin (below w l t <$> seqZ 0 (Z.of_nat (width (S l)))) ++ [t].
Proof. intros Hl; cbn [subtree]; by rewrite decide_False by lia. Qed.

Section contexts.
Context {St : Type} `{!PageSource St} `{!FrameLaws St}.
Implicit Types m : mmu St.
Implicit Types w : gmap Z Z.

(** ** The tables of a context *)

Lemma user_width l i : i ∈ seqZ 0 (Z.of_nat (width l)) <-> user_index l i.
Proof.
  rewrite elem_of_seqZ; unfold width, user_index; case_decide; [|lia]; subst; split; [lia|].
  intros [? Hi]; specialize (Hi eq_refl); lia.
Qed.

Lemma elem_subtree w l t t' :
  (0 < l)%nat -> t' ∈ subtree w (S l) t <->
  t' = t \/ exists i, user_index (S l) i /\ descends (S l) (entry_at w t i) = true /\ t' ∈ subtree w l (p2table (entry_at w t i)).
Proof.
  intros Hl; rewrite subtree_S by done; rewrite elem_of_app, list_elem_of_join, list_elem_of_singleton; split.
  - intros [(L & Ht' & HL)|?]; [right|by left]; apply list_elem_of_fmap in HL as (i & -> & Hi); exists i.
    unfold below in Ht'; rewrite user_width in Hi; destruct (descends _ _); [done|by apply elem_of_nil in Ht'].
  - intros [->|(i & Hi & Hd & Ht')]; [by right|left]; exists (below w l t i); split; [unfold below; by rewrite Hd|].
    apply list_elem_of_fmap; exists i; split; [done|by apply user_width].
Qed.

Lemma subtree_1 w t : subtree w 1 t = [t].
Proof. done. Qed.

(** Tables of a subtree are tables, and those of the same level as the top are the top. *)
Lemma subtree_table w G l t t' :
  linked_ok w G -> G !! t = Some l -> t' ∈ subtree w l t ->
  exists l', G !! t' = Some l' /\ (l' <= l)%nat /\ (l' = l -> t' = t).
Proof.
  intros HL; revert t; induction l as [|l IH]; intros t Ht Hin; [by apply elem_of_nil in Hin|].
  destruct (decide (l = 0%nat)) as [->|Hl].
  - rewrite subtree_1 in Hin; apply list_elem_of_singleton in Hin as ->; eauto.
  - apply elem_subtree in Hin as [->|(i & Hi & Hd & Hin)]; [eauto| |lia].
    pose proof (lk_child _ _ HL t l i Ht ltac:(lia) Hi Hd) as Hc; destruct (IH _ Hc Hin) as (l' & ? & ? & _).
    exists l'; split_and!; [done|lia|lia].
Qed.

(** Two subtrees of one level that share a table are the same. *)
Lemma subtree_share w G l t1 t2 t' :
  linked_ok w G -> G !! t1 = Some l -> G !! t2 = Some l -> t' ∈ subtree w l t1 -> t' ∈ subtree w l t2 -> t1 = t2.
Proof.
  intros HL; revert t1 t2; induction l as [|l IH]; intros t1 t2 Ht1 Ht2 H1 H2; [by apply elem_of_nil in H1|].
  destruct (decide (l = 0%nat)) as [->|Hl].
  { rewrite subtree_1 in H1, H2; apply list_elem_of_singleton in H1 as ->; by apply list_elem_of_singleton in H2 as ->. }
  destruct (subtree_table w G _ _ _ HL Ht1 H1) as (k & Hk & _ & Hk1), (subtree_table w G _ _ _ HL Ht2 H2) as (k' & Hk' & _ & Hk2).
  assert (k' = k) as -> by congruence; destruct (decide (k = S l)) as [->|Hn]; [rewrite <- Hk1 by done; by apply Hk2|].
  apply elem_subtree in H1 as [->|(i & Hi & Hd & H1)]; [congruence| |lia].
  apply elem_subtree in H2 as [->|(j & Hj & Hd' & H2)]; [congruence| |lia].
  destruct (lk_parent _ _ HL t1 i t2 j l) as [-> _]; auto with lia; apply IH; eauto using lk_child with lia.
Qed.

Lemma NoDup_join {A} (f : Z -> list A) (L : list Z) :
  NoDup L -> (forall i, i ∈ L -> NoDup (f i)) -> (forall i j x, i ∈ L -> j ∈ L -> x ∈ f i -> x ∈ f j -> i = j) ->
  NoDup (mjoin (f <$> L)).
Proof.
  induction 1 as [|i L Hi HL IH]; intros Hf Hd; [constructor|]; cbn; apply NoDup_app; split_and!.
  - apply Hf; constructor.
  - intros x Hx [K [Hxk HK]]%list_elem_of_join; apply list_elem_of_fmap in HK as (j & -> & Hj).
    rewrite (Hd i j x) in Hi; try done; by constructor.
  - apply IH; [intros; apply Hf; by constructor|]; intros j k x ? ?; apply Hd; by constructor.
Qed.

Lemma subtree_nodup w G l t : linked_ok w G -> G !! t = Some l -> NoDup (subtree w l t).
Proof.
  intros HL; revert t; induction l as [|l IH]; intros t Ht; [constructor|].
  destruct (decide (l = 0%nat)) as [->|Hl]; [rewrite subtree_1; apply NoDup_singleton|].
  rewrite subtree_S by lia; apply NoDup_app; split_and!; [| |apply NoDup_singleton].
  - apply NoDup_join; [apply NoDup_seqZ|..].
    + intros i Hi%user_width; unfold below; destruct (descends _ _) eqn:Hd; [|constructor]; apply IH.
      by apply (lk_child _ _ HL); auto with lia.
    + intros i j x Hi%user_width Hj%user_width; unfold below.
      destruct (descends _ (entry_at w t i)) eqn:Hd, (descends _ (entry_at w t j)) eqn:Hd'; try (by intros ?%elem_of_nil).
      intros H1 H2; apply (lk_parent _ _ HL t i t j l); auto with lia.
      eapply subtree_share; eauto using lk_child with lia. by intros _ ?%elem_of_nil.
  - intros x [K [Hx HK]]%list_elem_of_join ->%list_elem_of_singleton; apply list_elem_of_fmap in HK as (i & -> & Hi).
    rewrite user_width in Hi; unfold below in Hx; destruct (descends _ _) eqn:Hd; [|by apply elem_of_nil in Hx].
    destruct (subtree_table w G l _ t HL (lk_child _ _ HL t l i Ht ltac:(lia) Hi Hd) Hx) as (l' & ? & ? & _).
    assert (l' = S l) by congruence; lia.
Qed.

(** ** Releasing tables *)

(** The pages of [H] without the tables [ts]. *)
Definition less (H : gmap Z nat) (ts : list Z) : gmap Z nat := filter (fun '(p, _) => p * 4096 ∉ ts) H.

Lemma less_lookup H ts p o : less H ts !! p = Some o <-> H !! p = Some o /\ p * 4096 ∉ ts.
Proof. unfold less; by rewrite map_lookup_filter_Some. Qed.

Lemma less_nil H : less H [] = H.
Proof. apply map_eq; intros p; apply option_eq; intros o; rewrite less_lookup; set_solver. Qed.

Lemma less_app H a b : less (less H a) b = less H (a ++ b).
Proof. apply map_eq; intros p; apply option_eq; intros o; rewrite !less_lookup, elem_of_app; naive_solver. Qed.

Lemma less_one H p : less H [p * 4096] = delete p H.
Proof.
  apply map_eq; intros q; apply option_eq; intros o; rewrite less_lookup, lookup_delete_Some, list_elem_of_singleton.
  split; [intros [H1 H2]; split; [by intros ->|done]|intros [H1 H2]; split; [done|intros E; apply H1; lia]].
Qed.

(** The tables [ts] were given back. *)
Definition freed (s : St) (H : gmap Z nat) (ts : list Z) (s' : St) : Prop :=
  fr_ok s' (less H ts) /\ forall q o, H !! q = Some o -> q * 4096 ∉ ts -> ps_flags s' q = ps_flags s q.

Lemma freed_nil s H : fr_ok s H -> freed s H [] s.
Proof. intros Hok; split; [by rewrite less_nil|done]. Qed.

Lemma freed_trans s H a s1 b s2 : freed s H a s1 -> freed s1 (less H a) b s2 -> freed s H (a ++ b) s2.
Proof.
  intros [A1 A2] [B1 B2]; split; [by rewrite <- less_app|].
  intros q o Hq [Ha Hb]%not_elem_of_app; rewrite (B2 q o) by (done || by apply less_lookup); eauto.
Qed.

Lemma freed_frame s H a s' t : freed s H a s' -> t ∉ a -> table_frame s H t -> table_frame s' (less H a) t.
Proof.
  intros [_ Hs] Ht; apply table_frame_mono; intros p Hp ->; split; [by apply less_lookup|by apply (Hs p 0%nat)].
Qed.

(** [f] gives back exactly the tables [ts], each of them a table in use. *)
Definition releases (f : mmu St -> res (mmu St)) w (ts : list Z) : Prop :=
  forall m H, mm_words m = w -> fr_ok (mm_pages m) H -> Forall (table_frame (mm_pages m) H) ts -> NoDup ts ->
    exists s', f m = Ok (with_st s' m) /\ freed (mm_pages m) H ts s'.

Lemma with_st_same m : with_st (mm_pages m) m = m.
Proof. by destruct m. Qed.

Lemma releases_nil w : releases Ok w [].
Proof. intros m H _ Hok _ _; exists (mm_pages m); rewrite with_st_same; split; [done|by apply freed_nil]. Qed.

Lemma releases_app f g w a b :
  releases f w a -> releases g w b -> releases (fun m => m ← f m; g m) w (a ++ b).
Proof.
  intros Hf Hg m H Hw Hok [Ha Hb]%Forall_app (Na & Nd & Nb)%NoDup_app.
  destruct (Hf m H Hw Hok Ha Na) as (s1 & -> & F1); mstep.
  destruct (Hg (with_st s1 m) (less H a) Hw (proj1 F1)) as (s2 & -> & F2); [|done|].
  { rewrite Forall_forall in *; intros t Ht; eapply freed_frame; [exact F1| |by apply Hb]; intros Hta; by apply (Nd t). }
  exists s2; split; [done|by eapply freed_trans].
Qed.

Lemma releases_one cpu w t : releases (free_table_frame cpu t) w [t].
Proof.
  intros m H Hw Hok [(p & f & -> & Hp & Hf & Hfl) _]%Forall_cons _.
  destruct (frame_free cpu m H p f Hok Hp Hf Hfl) as (s' & E & Hok' & Hs); exists s'; split; [done|].
  split; [by rewrite less_one|]; intros q o Hq Hn; apply (Hs q o); [|done]; intros ->; apply Hn; by constructor.
Qed.

(** A table is looked at before its subtree is released. *)
Lemma releases_checked f w ts t :
  t ∈ ts -> releases f w ts ->
  releases (fun m => v ← is_valid_table_phys t m; if negb v then Ok m else f m) w ts.
Proof.
  intros Ht Hf m H Hw Hok HF HN; rewrite (frame_valid m H t Hok) by (by eapply Forall_forall in HF).
  mstep; cbn [negb]; by apply Hf.
Qed.

Lemma releases_loop D huge w l t n i :
  (forall e, has_flag e PT_PRESENT && negb (has_flag e huge) = descends (S l) e) ->
  (forall c, releases (D c) w (subtree w l c)) ->
  releases (for_up n i (destroy_entry D huge t)) w (mjoin (below w l t <$> seqZ i (Z.of_nat n))).
Proof.
  intros Hh HD; revert i; induction n as [|n IH]; intros i; [apply releases_nil|].
  rewrite seqZ_cons by lia; replace (Z.pred (Z.of_nat (S n))) with (Z.of_nat n) by lia; cbn [fmap list_fmap mjoin list_join].
  cbn [for_up]; apply (releases_app (destroy_entry D huge t i)); [|rewrite <- Z.add_1_r; apply IH].
  intros m H Hw; unfold destroy_entry, get_entry, below; rewrite Hw, Hh.
  destruct (descends _ _); [exact (HD _ m H Hw)|exact (releases_nil w m H Hw)].
Qed.

Lemma huge_descends l e : l ≠ 4%nat -> has_flag e PT_PRESENT && negb (has_flag e PT_HUGE) = descends l e.
Proof. intros Hl; unfold descends; by rewrite bool_decide_true. Qed.

Lemma destroy_pt_releases cpu w t : releases (destroy_pt cpu t) w (subtree w 1 t).
Proof. apply (releases_checked (free_table_frame cpu t)); [rewrite subtree_1; by constructor|apply releases_one]. Qed.

Lemma last_subtree w l t : (0 < l)%nat -> t ∈ subtree w l t.
Proof. destruct l; [lia|]; intros _; cbn [subtree]; rewrite elem_of_app, list_elem_of_singleton; by right. Qed.

Lemma destroy_pd_releases cpu w t : releases (destroy_pd cpu t) w (subtree w 2 t).
Proof.
  apply (releases_checked (fun m => m ← for_up 512 0 (destroy_entry (destroy_pt cpu) PT_HUGE t) m; free_table_frame cpu t m));
     [apply last_subtree; lia|]; rewrite subtree_S by lia; apply (releases_app (for_up 512 0 (destroy_entry (destroy_pt cpu) PT_HUGE t))); [|apply releases_one].
  apply (releases_loop _ _ w 1 t 512 0); [intros; by apply huge_descends|intros; apply destroy_pt_releases].
Qed.

Lemma destroy_pdpt_releases cpu w t : releases (destroy_pdpt cpu t) w (subtree w 3 t).
Proof.
  apply (releases_checked (fun m => m ← for_up 512 0 (destroy_entry (destroy_pd cpu) PT_HUGE t) m; free_table_frame cpu t m));
     [apply last_subtree; lia|]; rewrite subtree_S by lia; apply (releases_app (for_up 512 0 (destroy_entry (destroy_pd cpu) PT_HUGE t))); [|apply releases_one].
  apply (releases_loop _ _ w 2 t 512 0); [intros; by apply huge_descends|intros; apply destroy_pd_releases].
Qed.

(** The loop of [mmu_destroy_pml4] over the user half, and the root itself. *)
Lemma destroy_root_releases cpu w t :
  releases (fun m => m ← for_up 256 0 (destroy_entry (destroy_pdpt cpu) 0 t) m; free_table_frame cpu t m) w (subtree w 4 t).
Proof.
  rewrite subtree_S by lia; apply (releases_app (for_up 256 0 (destroy_entry (destroy_pdpt cpu) 0 t))); [|apply releases_one].
  apply (releases_loop _ _ w 3 t 256 0); [|intros; apply destroy_pdpt_releases].
  intros e; unfold descends; rewrite bool_decide_false by auto; cbn [andb negb]; f_equal; unfold has_flag.
  by rewrite Z.land_0_r.
Qed.

(** The other tables. *)
Definition without (G : gmap Z nat) (ts : list Z) : gmap Z nat := filter (fun '(t, _) => t ∉ ts) G.

Lemma without_lookup G ts t l : without G ts !! t = Some l <-> G !! t = Some l /\ t ∉ ts.
Proof. unfold without; by rewrite map_lookup_filter_Some. Qed.

(** A table that leads into a subtree, other than to its top, is of the subtree. *)
Lemma subtree_parent w G k top t l i :
  linked_ok w G -> G !! top = Some k -> G !! t = Some (S l) -> (0 < l)%nat -> user_index (S l) i ->
  descends (S l) (entry_at w t i) = true -> p2table (entry_at w t i) ∈ subtree w k top -> p2table (entry_at w t i) ≠ top ->
  t ∈ subtree w k top.
Proof.
  intros HL Hk Ht Hl Hi Hd; pose proof (lk_child _ _ HL t l i Ht Hl Hi Hd) as Hc; set (c := p2table _) in *.
  revert top Hk; induction k as [|k IH]; intros top Hk Hin Hne; [by apply elem_of_nil in Hin|].
  destruct (decide (k = 0%nat)) as [->|Hk0]; [rewrite subtree_1 in Hin; by apply list_elem_of_singleton in Hin|].
  apply elem_subtree; [lia|]; apply elem_subtree in Hin as [?|(j & Hj & Hd' & Hin)]; [done| |lia].
  destruct (decide (c = p2table (entry_at w top j))) as [E|Hn].
  - left; pose proof (lk_child _ _ HL top k j Hk ltac:(lia) Hj Hd') as Hc'; rewrite <- E in Hc'.
    assert (k = l) as -> by congruence; by destruct (lk_parent _ _ HL t i top j l).
  - right; exists j; split_and!; try done; apply IH; try done; by apply (lk_child _ _ HL); [|lia|..].
Qed.

Lemma linked_without w G root :
  linked_ok w G -> G !! root = Some 4%nat -> linked_ok w (without G (subtree w 4 root)).
Proof.
  intros HL Hr; pose proof HL as [L1 L2 L3 L4]; split.
  - intros t l [Ht _]%without_lookup; by eapply L1.
  - intros t l i [Ht Hn]%without_lookup Hl Hi Hd; apply without_lookup; split; [by apply L2|].
    intros Hin; apply Hn; eapply subtree_parent; try done; intros E.
    pose proof (L2 t l i Ht Hl Hi Hd) as Hc; rewrite E in Hc; assert (l = 4%nat) by congruence; pose proof (L1 _ _ Ht); lia.
  - intros t i t' i' l [Ht _]%without_lookup [Ht' _]%without_lookup; by apply L3.
  - intros t l i [Ht _]%without_lookup; by apply L4.
Qed.

(** The state after a context is gone: its tables, and only they, are given back. *)
Record destroyed cpu_root (root kroot : Z) m (G H : gmap Z nat) m' : Prop := {
  de_ok : tables_ok m' (without G (subtree (mm_words m) 4 root)) (less H (subtree (mm_words m) 4 root));
  de_words : mm_words m' = mm_words m;
  de_cr3 : mm_cr3 m' = if decide (cpu_root = root) then kroot else mm_cr3 m;
  de_ctxs : mm_ctxs m' = mm_ctxs m;
  de_kernel : mm_kernel m' = mm_kernel m
}.

Lemma with_cpu_tables m G H a c p : tables_ok m G H -> tables_ok (with_cpu a c p m) G H.
Proof. intros [T1 T2 T3]; by split. Qed.

Lemma destroy_pml4_ok cpu m G H root kroot :
  tables_ok m G H -> G !! root = Some 4%nat -> pml4_of (mm_kernel m) m = Ok kroot -> kroot ≠ 0 -> kroot ≠ root ->
  exists m', mmu_destroy_pml4 cpu root m = Ok m' /\ destroyed (Z.land (mm_cr3 m) PT_ADDR_MASK) root kroot m G H m'.
Proof.
  intros HT Hr Hk Hk0 Hkr; unfold mmu_destroy_pml4; rewrite Hk; mstep.
  destruct (to_frame _ _ _ HT _ _ Hr) as (p & f & Ep & Hp & _).
  destruct (fr_place _ _ _ (to_pages _ _ _ HT) Hp) as [_ Hpos]; rewrite decide_False by (intros [? | ?]; [lia|congruence]).
  assert (Hsw : exists m1, (if decide (Z.land (mm_cr3 m) PT_ADDR_MASK = root) then mmu_switch_context (mm_kernel m) m else Ok m) = Ok m1 /\
    mm_pages m1 = mm_pages m /\ mm_words m1 = mm_words m /\ mm_ctxs m1 = mm_ctxs m /\ mm_kernel m1 = mm_kernel m /\
    mm_cr3 m1 = if decide (Z.land (mm_cr3 m) PT_ADDR_MASK = root) then kroot else mm_cr3 m).
  { destruct (decide (Z.land (mm_cr3 m) PT_ADDR_MASK = root)) as [Hc|Hc]; [|by exists m].
    exists (write_cr3 kroot (with_cpu (mm_kernel m) (mm_cr3 m) (mm_pat m) m)); split; [|by cbn].
    unfold mmu_switch_context; rewrite Hk; mstep; rewrite decide_False by done; rewrite decide_True by (cbn; congruence); done. }
  destruct Hsw as (m1 & -> & E1 & E2 & E3 & E4 & E5); mstep.
  assert (HT1 : tables_ok m1 G H) by (destruct HT as [T1 T2 T3]; split; by rewrite ?E1, ?E2).
  pose proof HT1 as [T1 T2 T3]; rewrite (frame_valid m1 H root T1) by eauto; mstep; cbn [negb].
  destruct (destroy_root_releases cpu (mm_words m1) root m1 H eq_refl T1) as (s' & -> & Hf).
  { apply Forall_forall; intros t Ht; destruct (subtree_table _ G _ _ _ T3 Hr Ht) as (l & ? & _); eauto. }
  { by eapply subtree_nodup. }
  eexists; split; [done|]; rewrite E2 in *; split; try done; split; cbn; [by destruct Hf| |rewrite E2; by apply linked_without].
  intros t l [Ht Hn]%without_lookup; eapply freed_frame; eauto.
Qed.

(** Other contexts keep their tables. *)
Lemma destroyed_others w G root root' :
  linked_ok w G -> G !! root = Some 4%nat -> G !! root' = Some 4%nat -> root' ≠ root ->
  without G (subtree w 4 root) !! root' = Some 4%nat.
Proof.
  intros HL Hr Hr' Hn; apply without_lookup; split; [done|]; intros Hin.
  destruct (subtree_table _ G _ _ _ HL Hr Hin) as (l & Hl & _ & Ht); apply Hn, Ht; congruence.
Qed.

(** ** A new context *)

(** The loop that copies the kernel half: entries [i] to [i + n] of [t] from [k]. *)
Lemma copy_half t k n i m :
  (forall j j', 0 <= j < 512 -> 0 <= j' < 512 -> t + 8 * j ≠ k + 8 * j') -> 0 <= i -> i + Z.of_nat n <= 512 ->
  exists w', for_up n i (fun i m => Ok (set_entry t i (get_entry k i m) m)) m = Ok (with_words w' m) /\
    (forall a, (forall j, i <= j < i + Z.of_nat n -> a ≠ t + 8 * j) -> w' !! a = mm_words m !! a) /\
    (forall j, i <= j < i + Z.of_nat n -> entry_at w' t j = entry_at (mm_words m) k j).
Proof.
  intros Hd; revert i m; induction n as [|n IH]; intros i m Hi Hin.
  { exists (mm_words m); destruct m; split_and!; [done..|]; lia. }
  cbn [for_up]; mstep; set (m1 := set_entry t i (get_entry k i m) m).
  destruct (IH (i + 1) m1 ltac:(lia) ltac:(lia)) as (w' & -> & H1 & H2); exists w'; split; [done|]; split.
  - intros a Ha; rewrite H1 by (intros j Hj; apply Ha; lia); cbn; apply lookup_insert_ne; apply not_eq_sym, Ha; lia.
  - intros j Hj; destruct (decide (j = i)) as [->|Hn].
    + unfold entry_at; rewrite H1 by (intros j Hj'; lia); cbn; by rewrite lookup_insert_eq.
    + rewrite H2 by lia; unfold entry_at; cbn; rewrite lookup_insert_ne; [done|]; apply Hd; lia.
Qed.

Lemma linked_root w w' G c :
  linked_ok w G -> G !! c = None -> (forall t l i, G !! t = Some l -> 0 <= i < 512 -> entry_at w' t i = entry_at w t i) ->
  (forall i, 0 <= i < 256 -> entry_at w' c i = 0) -> linked_ok w' (<[c := 4%nat]> G).
Proof.
  intros HL Hc He Hz; pose proof (tables_linked_ext w w' G HL He) as [L1 L2 L3 L4].
  assert (Hg : forall t l, <[c := 4%nat]> G !! t = Some l -> (t = c /\ l = 4%nat) \/ G !! t = Some l).
  { intros t l; destruct (decide (t = c)) as [->|]; [rewrite lookup_insert_eq; intros [= <-]; by left|].
    rewrite lookup_insert_ne by done; auto. }
  assert (Hnd : forall l i, S l = 4%nat -> user_index (S l) i -> entry_at w' c i = 0 /\ descends (S l) (entry_at w' c i) = false).
  { intros l i El [Hi Hu]; specialize (Hu El); rewrite Hz by lia; split; [done|]; unfold descends; by rewrite entry_zero. }
  split.
  - intros t l [[-> ->]|Ht]%Hg; [lia|eauto].
  - intros t l i [[-> El]|Ht]%Hg Hl Hi Hd; [destruct (Hnd l i El Hi); congruence|].
    rewrite lookup_insert_ne; [by apply L2|]; intros E; pose proof (L2 t l i Ht Hl Hi Hd); congruence.
  - intros t i t' i' l [[-> El]|Ht]%Hg Hg' Hl Hi Hi' Hd Hd'; [destruct (Hnd l i El Hi); congruence|].
    apply Hg in Hg' as [[-> El]|Ht']; [destruct (Hnd l i' El Hi'); congruence|by apply (L3 _ _ _ _ l)].
  - intros t l i [[-> El]|Ht]%Hg Hl Hi Hd; [by apply (Hnd l)|by apply (L4 t l)].
Qed.

(** The state after a context is made at [ctx]: its user half is empty, its kernel half is
    that of the kernel, nothing else has changed. *)
Record created (ctx kroot : Z) m (G H : gmap Z nat) (p : Z) m' : Prop := {
  cr_fresh : H !! p = None;
  cr_new : G !! (p * 4096) = None;
  cr_ok : tables_ok m' (<[p * 4096 := 4%nat]> G) (<[p := 0%nat]> H);
  cr_empty v : user v -> walk (mm_words m') (p * 4096) v = None;
  cr_kernel i : 256 <= i < 512 -> entry_at (mm_words m') (p * 4096) i = entry_at (mm_words m) kroot i;
  cr_rest root v : G !! root = Some 4%nat -> user v -> walk (mm_words m') root v = walk (mm_words m) root v;
  cr_ctxs : mm_ctxs m' = <[ctx := p * 4096]> (mm_ctxs m);
  cr_kept : mm_kernel m' = mm_kernel m /\ mm_cr3 m' = mm_cr3 m /\ mm_active m' = mm_active m /\ mm_log m' = mm_log m
}.

Lemma slots_apart p q i j : 0 <= i < 512 -> 0 <= j < 512 -> p * 4096 + 8 * i = q * 4096 + 8 * j -> p = q.
Proof. lia. Qed.

Lemma create_context_ok cpu m G H addr k :
  tables_ok m G H -> pml4_of (mm_kernel m) m = Ok (k * 4096) -> fr_boot k -> addr ≠ 0 ->
  exists r m', mmu_create_context cpu addr m = Ok (r, m') /\
    ((r = 0 /\ m' = m /\ exists s, ps_alloc cpu 0 (Z.lor PAGE_FLAG_KERNEL PAGE_FLAG_ZERO) (mm_pages m) = Ok (None, s)) \/
     (r = addr /\ exists p, created addr (k * 4096) m G H p m')).
Proof.
  intros HT Hk Hb Ha; unfold mmu_create_context.
  destruct (decide (addr = 0)) as [?|_]; [done|]; pose proof HT as [T1 T2 T3].
  assert (Hn : exists n, n = 256%nat /\ Z.of_nat n = 256) by (by exists 256%nat); destruct Hn as (n & <- & Hn).
  destruct (frame_alloc cpu m H T1) as (r & m1 & -> & Hr); mstep; destruct r as [c|].
  2: { destruct Hr as [-> Hs]; exists 0, m; split; [done|]; by left. }
  destruct Hr as (p & s' & Hall & -> & Hfr & Hp & -> & Hok & Htf & Hfl).
  assert (Hne : p ≠ k) by (intros ->; by apply (fr_boot_apart _ _ k Hok); [rewrite lookup_insert_eq|]); set (m1 := with_words _ _).
  replace (pml4_of (mm_kernel m1) m1) with (pml4_of (mm_kernel m) m) by done; rewrite Hk; mstep.
  destruct (copy_half (p * 4096) (k * 4096) n 256 m1) as (w' & -> & Hout & Hin); [|lia..|].
  { intros j j' Hj Hj' E; apply Hne; by apply (slots_apart p k j j'). }
  mstep; eexists addr, _; split; [done|]; right; split; [done|]; exists p.
  assert (Hgn : forall t l, G !! t = Some l -> exists q', t = q' * 4096 /\ q' ≠ p).
  { intros t l Ht; destruct (T2 t l Ht) as (q' & f & -> & Hq' & _); exists q'; split; [done|]; intros ->; congruence. }
  assert (Hc : G !! (p * 4096) = None).
  { destruct (G !! (p * 4096)) as [l|] eqn:E; [|done]; destruct (Hgn _ _ E) as (q' & ? & ?); lia. }
  assert (Hold : forall q' i, q' ≠ p -> 0 <= i < 512 -> w' !! (q' * 4096 + 8 * i) = mm_words m !! (q' * 4096 + 8 * i)).
  { intros q' i Hq' Hi; rewrite Hout by (intros j Hj E; apply Hq', (slots_apart q' p i j); lia); unfold m1; cbn [mm_words with_words].
    apply clear_words_out; intros j Hj E; apply Hq', (slots_apart q' p i j); lia. }
  assert (Hold' : forall t l i, G !! t = Some l -> 0 <= i < 512 -> w' !! (t + 8 * i) = mm_words m !! (t + 8 * i)).
  { intros t l i Ht Hi; destruct (Hgn t l Ht) as (q' & -> & Hq'); by apply Hold. }
  assert (Hz : forall i, 0 <= i < 256 -> entry_at w' (p * 4096) i = 0).
  { intros i Hi; unfold entry_at; rewrite Hout by lia; unfold m1; cbn [mm_words with_words]; by rewrite clear_words_in by lia. }
  split; try done; cbn [with_ctxs with_words mm_words mm_pages with_st].
  - split; cbn [mm_words mm_pages with_words with_ctxs with_st].
    + done.
    + intros t l; destruct (decide (t = p * 4096)) as [->|Hn1]; [done|]; rewrite lookup_insert_ne by done; intros Ht.
      eapply table_frame_mono; [|by eapply T2]; intros p0 Hp0 ->; split; [|by eapply Hfl].
      rewrite lookup_insert_ne; [done|]; congruence.
    + eapply linked_root; try done; intros t l i Ht Hi; unfold entry_at; by rewrite (Hold' t l).
  - intros v Hv; unfold walk; cbn [walk_from]; pose proof (idx_range 4 v); unfold user in Hv; by rewrite Hz, entry_zero by lia.
  - intros i Hi; rewrite Hin by lia; unfold entry_at, m1; cbn [mm_words with_words with_st]; rewrite clear_words_out; [done|].
    intros j Hj E; apply Hne, (slots_apart p k j i); lia.
  - intros root v Hr Hv; by eapply walk_outside.
Qed.

End contexts.
