(* ===== verification/MmuPmm.v ===== *)
(** * The page allocator keeps the promises the page tables rely on

    [FrameLaws] for the model of mem/pmm.c. *)

From stdpp Require Import base tactics option list numbers gmap.
From Stdlib Require Import ZArith Lia.
From S2P Require Import Prelude Pmm PmmLists PmmInv PmmSpec PmmTheorems PmmBoot SlabMem Slab PmmHeld.
From S2P Require Import Mmu MmuWalk MmuInv.

Local Open Scope Z_scope.

(** The frames that the boot loader keeps, its page tables among them, and the length of the
    page array. *)
Class BootFrames := { boot_frame : Z -> Prop; frame_count : Z }.

Section laws.
Context `{BF : BootFrames}.

(** [H] notes 0 for the frame of a table, and the number of references for any other frame. *)
Definition refs_of (o : nat) : Z := if decide (o = 0%nat) then 1 else Z.of_nat o.

(** The frames fit an entry; frame 0, whose address is NULL, and those of the boot loader
    are not handed out. *)
Record pmm_frames (s : pmm) (H : gmap Z nat) (B : blocks) : Prop := {
  pf_held : held (fun _ => 0%nat) refs_of s H B;
  pf_range : total_page_count s * 4096 <= 2 ^ 52;
  pf_count : total_page_count s = frame_count;
  pf_zero : ~ covered B 0;
  pf_boot x : boot_frame x -> ~ covered B x
}.

Definition pmm_fr_ok (s : pmm) (H : gmap Z nat) : Prop := exists B, pmm_frames s H B.

Lemma frames_machine s s' H H' B B' :
  pmm_frames s H B -> same_machine s s' B B' -> held (fun _ => 0%nat) refs_of s' H' B' -> pmm_fr_ok s' H'.
Proof.
  intros [_ P2 Pc P3 P4] [M1 M2 _ _ _] Hh; exists B'; split; [done|by rewrite M2|by rewrite M2|..].
  - intros Hc; by apply P3, M1.
  - intros x Hx Hc; by apply (P4 x Hx), M1.
Qed.

Lemma in_own p : in_block p 0 p.
Proof. unfold in_block; pose proof (pow2_pos 0); lia. Qed.

Lemma frames_place s H p : pmm_fr_ok s H -> H !! p = Some 0%nat -> frame_addr (p * 4096).
Proof.
  intros [B [HB P2 _ P3 _]] Hp; destruct (held_frame _ _ _ _ _ _ _ p HB Hp (in_own p)) as [Hr _]; split; [by exists p|].
  assert (p ≠ 0) by (intros ->; apply P3; exists 0, 0%nat, KAlloc; split; [by apply (hd_owned _ _ _ _ _ HB 0 0)|apply in_own]); lia.
Qed.

Definition frame_lookup (a : Z) : option Z :=
  let p := Z.shiftr a PMM_PAGE_SHIFT in if decide (p < frame_count) then Some p else None.

Lemma frames_lookup s H a : pmm_fr_ok s H -> 0 <= a -> ps_paddr_to_page s a = frame_lookup a.
Proof.
  intros [B [[[_ [L HI]] _ _] _ Ec _ _]] Ha; cbn; unfold pmm_paddr_to_page, pfn_to_page, frame_lookup; cbv zeta; rewrite <- Ec.
  assert (Hs : 0 <= Z.shiftr a PMM_PAGE_SHIFT) by (by apply Z.shiftr_nonneg).
  destruct (decide (Z.shiftr a PMM_PAGE_SHIFT < total_page_count s)) as [Hl|Hl]; [|by rewrite decide_True by lia].
  rewrite decide_False; [done|]; intros [?|E]; [lia|].
  destruct (proj2 (do_dom _ _ _ (i_descs _ _ _ _ HI) (Z.shiftr a PMM_PAGE_SHIFT))) as [g Hg]; [lia|].
  rewrite E in Hg; by rewrite lookup_empty in Hg.
Qed.

Lemma frames_ref s H q n : pmm_fr_ok s H -> H !! q = Some (S n) -> Z.of_nat (S (S n)) < 2 ^ 32 ->
  exists s', ps_ref q s = Ok s' /\ pmm_fr_ok s' (<[q := S (S n)]> H) /\ forall q', ps_flags s' q' = ps_flags s q'.
Proof.
  intros [B HB] Hq Hn; destruct (held_more _ _ s H B q (S n) (S (S n)) (pf_held _ _ _ HB) Hq) as (s' & E & HB' & HM & Hf);
    [done|unfold refs_of; repeat (rewrite decide_False by done); lia|unfold refs_of; by rewrite decide_False|].
  exists s'; split_and!; [exact E|by eapply frames_machine|done].
Qed.

(** A frame that is no table has its one reference. *)
Lemma frames_hand s H p : pmm_fr_ok s H -> H !! p = Some 0%nat -> pmm_fr_ok s (<[p := 1%nat]> H).
Proof.
  intros [B [[K1 K2 K3] P2 Pc P3 P4]] Hp; exists B; split; try done; split; [done|..].
  - intros q o [[<- <-]|[_ Hq]]%lookup_insert_Some; [by apply (K2 p 0%nat)|by apply (K2 q o)].
  - intros q o g [[<- <-]|[_ Hq]]%lookup_insert_Some; [by apply (K3 p 0%nat)|by apply (K3 q o)].
Qed.

Lemma frames_boot s H p : pmm_fr_ok s H -> H !! p = Some 0%nat -> ~ boot_frame p.
Proof. intros [B HB] Hp Hb; apply (pf_boot _ _ _ HB p Hb); exists p, 0%nat, KAlloc; split; [by apply (hd_owned _ _ _ _ _ (pf_held _ _ _ HB) p 0)|apply in_own]. Qed.

Lemma frames_desc s H a p : pmm_fr_ok s H -> 0 <= a -> ps_paddr_to_page s a = Some p -> exists f, ps_flags s p = Ok f.
Proof.
  intros [B [[[_ [L HI]] _ _] _ _ _ _]] Ha; cbn; unfold pmm_paddr_to_page, pfn_to_page; case_decide as Hd; [done|]; intros [= <-].
  destruct (proj2 (do_dom _ _ _ (i_descs _ _ _ _ HI) (Z.shiftr a PMM_PAGE_SHIFT))) as [g Hg].
  { split; [by apply Z.shiftr_nonneg|]; apply Z.nle_gt; tauto. }
  unfold page_at; rewrite Hg; cbn; eauto.
Qed.

Lemma frames_alloc s H cpu : pmm_fr_ok s H ->
  exists r s', ps_alloc cpu 0 (Z.lor PAGE_FLAG_KERNEL PAGE_FLAG_ZERO) s = Ok (r, s') /\
    match r with
    | None => s' = s
    | Some p => H !! p = None /\ pmm_fr_ok s' (<[p := 0%nat]> H) /\ ps_flags s' p = Ok PAGE_FLAG_KERNEL /\
        (forall q o, H !! q = Some o -> ps_flags s' q = ps_flags s q)
    end.
Proof.
  intros [B HB]; destruct (held_alloc _ _ s H B cpu 0 _ (pf_held _ _ _ HB) (eq_refl : has_flag (Z.lor PAGE_FLAG_KERNEL PAGE_FLAG_ZERO) _ = _) eq_refl)
    as (r & s' & E & Hr).
  exists r, s'; split; [done|]; destruct r as [p|]; [|done]; destruct Hr as (Hn & Hf & Hs & B' & HB' & HM).
  split_and!; [done|by eapply frames_machine|done|]; intros q o Hq; by apply (Hs q o).
Qed.

Lemma frames_free s H cpu p : pmm_fr_ok s H -> H !! p = Some 0%nat ->
  exists s', ps_free cpu (Some p) 0 s = Ok s' /\ pmm_fr_ok s' (delete p H) /\
    (forall q o, q ≠ p -> H !! q = Some o -> ps_flags s' q = ps_flags s q).
Proof.
  intros [B HB] Hp; destruct (held_free _ _ s H B cpu p 0 (pf_held _ _ _ HB) Hp eq_refl) as (s' & E & Hs & B' & HB' & HM).
  exists s'; split_and!; [done|by eapply frames_machine|]; intros q o Hne Hq; by apply (Hs q o).
Qed.

Lemma frames_touch s H q f : pmm_fr_ok s H -> ps_flags s q = Ok f -> has_flag f PAGE_FLAG_FREE = false ->
  exists s', ps_set_flags q (Z.lor f PAGE_FLAG_DIRTY) s = Ok s' /\ pmm_fr_ok s' H /\
    ps_flags s' q = Ok (Z.lor f PAGE_FLAG_DIRTY) /\
    (forall q', q' ≠ q -> ps_flags s' q' = ps_flags s q').
Proof.
  intros [B HB] Hq Hf; destruct (held_touch _ _ s H B q f (Z.lor f PAGE_FLAG_DIRTY) (pf_held _ _ _ HB) Hq Hf) as (s' & E & HB' & HM & Hs).
  { revert Hf; unfold has_flag; rewrite !negb_false_iff, !bool_decide_eq_true, Z.land_lor_distr_l; intros ->; by vm_compute. }
  exists s'; split_and!; [done|by eapply frames_machine|apply Hs..].
Qed.

Lemma frames_paddr s H p : pmm_fr_ok s H -> H !! p = Some 0%nat -> ps_paddr_to_page s (p * 4096) = Some p.
Proof. intros [B HB] Hp; eapply held_paddr; [apply HB|exact Hp|apply in_own]. Qed.

End laws.

#[export] Instance pmm_frame_laws `{BF : BootFrames} : FrameLaws pmm := {
  fr_ok := pmm_fr_ok;
  fr_boot := boot_frame;
  fr_boot_apart := frames_boot;
  fr_lookup := frame_lookup;
  fr_lookup_ok := frames_lookup;
  fr_place := frames_place;
  fr_paddr := frames_paddr;
  fr_desc := frames_desc;
  fr_alloc_ok := frames_alloc;
  fr_free_ok := frames_free;
  fr_touch_ok := frames_touch
}.

#[export] Instance pmm_ref_laws `{BF : BootFrames} : RefLaws pmm := { fr_hand := frames_hand; fr_ref_ok := frames_ref }.

(** After [pmm_init], if no usable region has frame 0 or a frame of the boot loader. *)
Lemma boot_frames `{BF : BootFrames} rs direct :
  map_ok rs -> (array_place rs).1 <> 0 -> array_bytes rs <= (array_place rs).2 -> array_first rs <= array_end rs ->
  Z.shiftr (max_paddr_of rs) PMM_PAGE_SHIFT = frame_count -> frame_count * 4096 <= 2 ^ 52 -> (forall r x, r ∈ rs -> usable r -> x = 0 \/ boot_frame x -> ~ page_in r x) ->
  exists s, pmm_init rs direct = Ok s /\ fr_ok s ∅.
Proof.
  intros H1 H2 H3 H4 Hc0 Hr H0; destruct (pmm_boot_spec rs direct H1 H2 H3 H4) as (s & B & E & Hok & _ & Et & _ & _ & Hc).
  exists s; split; [done|]; exists B; split; [by apply held_none|by rewrite Et, Hc0|congruence|..].
  - intros [(r & Hin & Hu & Hp) _]%Hc; apply (H0 r 0); auto.
  - intros x Hx [(r & Hin & Hu & Hp) _]%Hc; apply (H0 r x); auto.
Qed.
