(* ===== verification/MmuSession.v ===== *)
(** * Address spaces: what mem/mmu.c promises of the user half, and that it keeps it

    An address space is a partial map from virtual addresses to pages, where a page is the
    level of its entry and the entry.  [answers] is the specification of the operations on
    a store of address spaces; [spaces_serve_ok] is the simulation. *)

From stdpp Require Import base tactics option list numbers gmap.
From Stdlib Require Import ZArith Lia.
From S2P Require Import Prelude Pmm PmmSpec SlabMem Slab Mmu MmuWalk MmuInv MmuTables MmuMap MmuUnmap MmuLookup MmuCtx.

Local Open Scope Z_scope.

(** ** The specification *)

Abbreviation space := (Z -> option (nat * Z)).
Abbreviation spaces := (gmap Z (Z -> option (nat * Z))).

Inductive mreq :=
| MCreate (addr : Z)
| MMap (ctx virt phys flags : Z)
| MUnmap (ctx virt : Z)
| MProtect (ctx virt flags : Z)
| MTranslate (ctx virt : Z)
| MDestroy (ctx : Z).

(** A request with the CPU it comes on and the context of the process that runs there. *)
Abbreviation call := (nat * Z * mreq)%type.

Definition page_aligned (a : Z) : Prop := Z.land a PAGE_MASK = 0.
#[export] Instance page_aligned_dec a : Decision (page_aligned a) := decide (Z.land a PAGE_MASK = 0).

Definition huge_aligned (a : Z) : Prop := Z.land a HUGE_PAGE_2M_MASK = 0.

(** The page of level [l] around [v] becomes [x]. *)
Definition at_page (l : nat) (v : Z) (x : option (nat * Z)) (f : space) : space :=
  fun v' => if decide (same_down l v v') then x else f v'.

Definition map_answers (flags virt phys : Z) (f : space) (r : Z) (f' : space) : Prop :=
  (r = 0 /\ page_aligned virt /\ page_aligned phys /\
     f' = at_page (leaf_level flags) virt (Some (leaf_level flags, leaf_entry phys flags)) f) \/
  (f' = f /\
    ((r = - EINVAL /\ (~ page_aligned virt \/ ~ page_aligned phys \/
        (leaf_level flags = 2%nat /\ (~ huge_aligned virt \/ ~ huge_aligned phys)))) \/
     (r = - EEXIST /\ exists l e, f virt = Some (l, e) /\ (leaf_level flags < l)%nat) \/
     r = - ENOMEM)).

Definition unmap_page_answers (virt : Z) (f : space) (r : Z) (f' : space) : Prop :=
  match f virt with
  | Some (3%nat, _) => r = - EINVAL /\ f' = f
  | Some (2%nat, _) => r = 0 /\ (f' = at_page 2 virt None f \/ f' = f)
  | _ => r = 0 /\ f' = at_page 1 virt None f
  end.

Definition unmap_answers (virt : Z) (f : space) (r : Z) (f' : space) : Prop :=
  if decide (page_aligned virt) then unmap_page_answers virt f r f' else r = - EINVAL /\ f' = f.

Definition protect_answers (flags virt : Z) (f : space) (r : Z) (f' : space) : Prop :=
  match f virt with
  | Some (l, e) =>
      if decide (page_aligned virt /\ l ≠ 3%nat)
      then r = 0 /\ f' = at_page l virt (Some (l, protected l e flags)) f
      else r = - EINVAL /\ f' = f
  | None => r = - EINVAL /\ f' = f
  end.

(** [r] is an answer to a request, and [A'] the spaces after it. *)
Definition answers (A : spaces) (q : mreq) (r : Z) (A' : spaces) : Prop :=
  match q with
  | MCreate addr => (r = 0 /\ A' = A) \/ (r = addr /\ A' = <[addr := fun _ => None]> A)
  | MMap ctx v phys flags => exists f f', A !! ctx = Some f /\ map_answers flags v phys f r f' /\ A' = <[ctx := f']> A
  | MUnmap ctx v => exists f f', A !! ctx = Some f /\ unmap_answers v f r f' /\ A' = <[ctx := f']> A
  | MProtect ctx v flags => exists f f', A !! ctx = Some f /\ protect_answers flags v f r f' /\ A' = <[ctx := f']> A
  | MTranslate ctx v => exists f, A !! ctx = Some f /\ r = translation (f v) v /\ A' = A
  | MDestroy ctx => r = 0 /\ A' = delete ctx A
  end.

Section session.
Context {St : Type} `{!PageSource St} `{!FrameLaws St}.
Implicit Types m : mmu St.
Implicit Types A : spaces.

(** ** The code *)

(** [proc_ctx] is the context of the current process. *)
Definition serve_call (cpu : nat) (proc_ctx : Z) (q : mreq) m : res (Z * mmu St) :=
  match q with
  | MCreate addr => mmu_create_context cpu addr m
  | MMap ctx v phys flags => mmu_map_page cpu ctx v phys flags m
  | MUnmap ctx v => mmu_unmap_page cpu ctx v m
  | MProtect ctx v flags => mmu_protect_page ctx v flags m
  | MTranslate ctx v => r ← mmu_virt_to_phys proc_ctx ctx v m; Ok (r, m)
  | MDestroy ctx => m ← mmu_destroy_context cpu ctx m; Ok (0, m)
  end.

(** The machine has the address spaces [A]: the tables are consistent, every context but
    the kernel's has a root of its own, and the walk of the hardware gives what [A] says. *)
Record hosts m (G H : gmap Z nat) (k : Z) A : Prop := {
  ho_tables : tables_ok m G H;
  ho_kernel : mm_kernel m ≠ 0 /\ mm_ctxs m !! mm_kernel m = Some (k * 4096) /\ k ≠ 0 /\ fr_boot k;
  ho_dom ctx : is_Some (A !! ctx) <-> is_Some (mm_ctxs m !! ctx) /\ ctx ≠ mm_kernel m;
  ho_ctx ctx root : mm_ctxs m !! ctx = Some root -> ctx ≠ mm_kernel m -> ctx ≠ 0 /\ G !! root = Some 4%nat;
  ho_inj ctx ctx' root : mm_ctxs m !! ctx = Some root -> mm_ctxs m !! ctx' = Some root ->
    ctx ≠ mm_kernel m -> ctx' ≠ mm_kernel m -> ctx = ctx';
  ho_walk ctx f root v : A !! ctx = Some f -> mm_ctxs m !! ctx = Some root -> user v ->
    walk (mm_words m) root v = f v
}.

Definition refines_spaces m A : Prop := exists G H k, hosts m G H k A.

(** What a caller has to see to: requests are about a live context and the user half, a new
    context is at a new address, and a dirty page is not given back before it is unmapped. *)
Definition permitted m (q : mreq) : Prop :=
  let live ctx := ctx ≠ mm_kernel m /\ is_Some (mm_ctxs m !! ctx) in
  let clean ctx v := forall root, mm_ctxs m !! ctx = Some root -> dirty_ok m root v in
  match q with
  | MCreate addr => addr ≠ 0 /\ mm_ctxs m !! addr = None
  | MMap ctx v _ _ | MTranslate ctx v => live ctx /\ user v
  | MUnmap ctx v | MProtect ctx v _ => live ctx /\ user v /\ clean ctx v
  | MDestroy ctx => live ctx
  end.

Lemma live_root m G H k A ctx :
  hosts m G H k A -> ctx ≠ mm_kernel m -> is_Some (mm_ctxs m !! ctx) ->
  exists f root, A !! ctx = Some f /\ mm_ctxs m !! ctx = Some root /\ ctx ≠ 0 /\ G !! root = Some 4%nat /\
    pml4_of ctx m = Ok root /\ root ≠ 0 /\ forall v, user v -> walk (mm_words m) root v = f v.
Proof.
  intros HH Hn Hs; destruct (proj2 (ho_dom _ _ _ _ _ HH ctx)) as [f Hf]; [done|]; destruct Hs as [root Hr].
  destruct (ho_ctx _ _ _ _ _ HH ctx root Hr Hn) as [Hc Hg]; exists f, root; split_and!; try done.
  - unfold pml4_of; by rewrite decide_False, Hr.
  - destruct (to_frame _ _ _ (ho_tables _ _ _ _ _ HH) _ _ Hg) as (p & g & -> & Hp & _).
    destruct (fr_place _ _ _ (to_pages _ _ _ (ho_tables _ _ _ _ _ HH)) Hp); lia.
  - intros v; by apply (ho_walk _ _ _ _ _ HH ctx).
Qed.

(** The tables under [root] have changed at the page of level [l] around [v] only. *)
Lemma hosts_page m G H k A ctx f root l v x m' G' H' :
  hosts m G H k A -> ctx ≠ mm_kernel m -> A !! ctx = Some f -> mm_ctxs m !! ctx = Some root -> tables_ok m' G' H' -> same_cpu m m' ->
  (forall r, G !! r = Some 4%nat -> G' !! r = Some 4%nat) ->
  (forall v', user v' -> same_down l v v' -> walk (mm_words m') root v' = x) ->
  (forall root' v', G !! root' = Some 4%nat -> user v' -> ~ (root' = root /\ same_down l v v') ->
    walk (mm_words m') root' v' = walk (mm_words m) root' v') ->
  hosts m' G' H' k (<[ctx := at_page l v x f]> A).
Proof.
  intros [T K D C I W] Hn Hf Hr HT' [S1 S2 S3 S4 S5 S6] HG Hx Ho; split; rewrite ?S1, ?S2; try done.
  - intros c; rewrite <- D; destruct (decide (c = ctx)) as [->|]; [rewrite lookup_insert_eq, Hf; split; eauto|].
    by rewrite lookup_insert_ne.
  - intros c r Hc Hk; destruct (C c r Hc Hk); auto.
  - intros c f' r v'; destruct (decide (c = ctx)) as [->|Hne].
    + rewrite lookup_insert_eq; intros [= <-] Hc Hv'; assert (r = root) as -> by congruence; unfold at_page.
      destruct (C ctx root Hr Hn); case_decide; [auto|]; rewrite Ho by tauto; by apply (W ctx).
    + rewrite lookup_insert_ne by done; intros Hf' Hc Hv'.
      assert (Hk : c ≠ mm_kernel m) by (apply (D c); eauto); destruct (C c r Hc Hk).
      rewrite Ho; [by apply (W c)|done|done|]; intros [-> _]; apply Hne; by eapply I.
Qed.

(** Nothing has changed that a client sees. *)
Lemma hosts_same m G H k A m' G' H' :
  hosts m G H k A -> tables_ok m' G' H' -> same_cpu m m' -> (forall r, G !! r = Some 4%nat -> G' !! r = Some 4%nat) ->
  same_walks G m m' -> hosts m' G' H' k A.
Proof.
  intros [T K D C I W] HT' [S1 S2 S3 S4 S5 S6] HG Hw; split; rewrite ?S1, ?S2; try done.
  - intros c r Hc Hk; destruct (C c r Hc Hk); auto.
  - intros c f r v Hf Hc Hv; assert (Hk : c ≠ mm_kernel m) by (apply (D c); eauto); destruct (C c r Hc Hk).
    rewrite Hw by done; by apply (W c).
Qed.

(** ** The simulation *)

Lemma unchanged A ctx f : A !! ctx = Some f -> <[ctx := f]> A = A.
Proof. intros Hf; by rewrite insert_id. Qed.

(** A request answers [r] and the machine then has some spaces that the answer allows. *)
Definition served cpu proc q m A : Prop :=
  exists r m' A', serve_call cpu proc q m = Ok (r, m') /\ answers A q r A' /\ refines_spaces m' A'.

Lemma serve_map cpu proc m G H k A ctx v phys flags :
  hosts m G H k A -> permitted m (MMap ctx v phys flags) -> served cpu proc (MMap ctx v phys flags) m A.
Proof.
  intros HH [[Hn Hs] Hv]; destruct (live_root m G H k A ctx HH Hn Hs) as (f & root & Hf & Hr & Hc & Hg & Hp & Hr0 & Hw).
  pose proof (ho_tables _ _ _ _ _ HH) as HT; unfold served, serve_call, mmu_map_page; rewrite Hp; mstep.
  rewrite decide_False by done; destruct (decide (Z.land v PAGE_MASK ≠ 0 \/ Z.land phys PAGE_MASK ≠ 0)) as [Ha|Ha].
  { exists (- EINVAL), m, A; split; [done|]; split; [|by exists G, H, k]; exists f, f; rewrite unchanged by done.
    split_and!; try done; right; split; [done|]; left; split; [done|]; unfold page_aligned; tauto. }
  assert (page_aligned v /\ page_aligned phys) as [Ha1 Ha2] by (unfold page_aligned; lia).
  destruct (map_page_ok cpu m G H root v phys flags HT Hg Hv) as (r & m' & -> & HM); exists r, m'.
  destruct HM as [(-> & G' & H' & [D1 D2 D3 D4 D5 D6 D7 D8 _])|[(-> & Hb & R)|[(-> & _ & R)|(-> & Hl & Hm & G' & H' & T' & HG & HH' & Hwk & Hcp & _)]]].
  - eexists; split; [done|]; split; [exists f; eexists; split; [done|]; split; [by left|done]|].
    exists G', H', k; eapply hosts_page; eauto; intros r Hr'; by eapply lookup_weaken.
  - exists A; split; [done|]; split; [|exists G, H, k; by apply (hosts_same m G H); try apply R].
    exists f, f; rewrite unchanged by done; split_and!; try done; right; split; [done|]; right; left; split; [done|].
    destruct Hb as (l & e & He & Hl); exists l, e; by rewrite <- Hw.
  - exists A; split; [done|]; split; [|exists G, H, k; by apply (hosts_same m G H); try apply R].
    exists f, f; rewrite unchanged by done; split_and!; try done; right; auto.
  - exists A; split; [done|]; split.
    + exists f, f; rewrite unchanged by done; split_and!; try done; right; split; [done|]; left; split; [done|auto].
    + exists G', H', k; eapply hosts_same; eauto; intros r Hr'; by eapply lookup_weaken.
Qed.

Lemma unmap_hosts l m G H k A ctx f root v m' G' H' :
  hosts m G H k A -> ctx ≠ mm_kernel m -> A !! ctx = Some f -> mm_ctxs m !! ctx = Some root ->
  unmap_done l root v m G H m' G' H' -> refines_spaces m' (<[ctx := at_page l v None f]> A).
Proof.
  intros HH Hn Hf Hr [U1 U2 U3 U4 U5 U6 U7 U8 U9 U10 _]; exists G', H', k; eapply hosts_page; eauto.
Qed.

Lemma serve_unmap cpu proc m G H k A ctx v :
  hosts m G H k A -> permitted m (MUnmap ctx v) -> served cpu proc (MUnmap ctx v) m A.
Proof.
  intros HH [[Hn Hs] [Hv Hd]]; destruct (live_root m G H k A ctx HH Hn Hs) as (f & root & Hf & Hr & Hc & Hg & Hp & Hr0 & Hw).
  pose proof (ho_tables _ _ _ _ _ HH) as HT; unfold served, serve_call, mmu_unmap_page; rewrite Hp; mstep.
  destruct (decide (root = 0 \/ Z.land v PAGE_MASK ≠ 0)) as [Ha|Ha].
  { exists (- EINVAL), m, A; split; [done|]; split; [|by exists G, H, k]; exists f, f; rewrite unchanged by done.
    split_and!; try done; unfold unmap_answers, page_aligned; by destruct (decide _); [tauto|]. }
  destruct (unmap_page_ok cpu m G H root v HT Hg Hv (Hd root Hr)) as (r & m' & -> & HU); exists r, m'.
  assert (Hsame : forall f', unmap_page_answers v f r f' -> refines_spaces m' (<[ctx := f']> A) ->
    exists A', Ok (r, m') = Ok (r, m') /\ answers A (MUnmap ctx v) r A' /\ refines_spaces m' A') by
    (intros f' ? ?; exists (<[ctx := f']> A); split; [done|]; split; [exists f, f'; unfold unmap_answers, page_aligned;
      split; [done|]; split; [by destruct (decide _); [|tauto]|done]|done]).
  unfold unmap_page_answers in Hsame; unfold unmap_result in HU; rewrite Hw in HU by done.
  assert (Hid : refines_spaces m (<[ctx := f]> A)) by (rewrite unchanged by done; by exists G, H, k).
  destruct (f v) as [[[|[|[|[|l]]]] e]|]; destruct HU as [E HU]; specialize (fun f' E' => Hsame f' (conj E E')).
  - destruct HU as (G' & H' & HU); eapply Hsame; [done|by eapply unmap_hosts].
  - destruct HU as (G' & H' & HU); eapply Hsame; [done|by eapply unmap_hosts].
  - destruct (is_valid_table_phys _ _) as [[]| |]; [destruct HU as (G' & H' & HU); eapply Hsame; [by left|by eapply unmap_hosts]|..];
      subst m'; eapply Hsame; eauto.
  - subst m'; eapply Hsame; eauto.
  - destruct HU as (G' & H' & HU); eapply Hsame; [done|by eapply unmap_hosts].
  - destruct HU as (G' & H' & HU); eapply Hsame; [done|by eapply unmap_hosts].
Qed.

Lemma serve_protect cpu proc m G H k A ctx v flags :
  hosts m G H k A -> permitted m (MProtect ctx v flags) -> served cpu proc (MProtect ctx v flags) m A.
Proof.
  intros HH [[Hn Hs] [Hv Hd]]; destruct (live_root m G H k A ctx HH Hn Hs) as (f & root & Hf & Hr & Hc & Hg & Hp & Hr0 & Hw).
  pose proof (ho_tables _ _ _ _ _ HH) as HT; unfold served, serve_call.
  assert (Hid : refines_spaces m (<[ctx := f]> A)) by (rewrite unchanged by done; by exists G, H, k).
  destruct (decide (page_aligned v)) as [Ha|Ha].
  - destruct (protect_page_ok m G H ctx root v flags HT Hg Hv (Hd root Hr) Hp Hr0 Ha) as (r & m' & -> & HP); exists r, m'.
    assert (Hdone : forall l e, (l = 1 \/ l = 2)%nat -> f v = Some (l, e) -> r = 0 /\ map_done l root v (protected l e flags) m G H m' G H ->
      exists A', Ok (r, m') = Ok (r, m') /\ answers A (MProtect ctx v flags) r A' /\ refines_spaces m' A').
    { intros l e Hl E [-> [D1 D2 D3 D4 D5 D6 D7 D8 _]]; eexists; split; [done|]; split.
      - exists f; eexists; split; [done|]; split; [|done]; unfold protect_answers; rewrite E.
        rewrite decide_True by (split; [done|lia]); done.
      - exists G, H, k; eapply hosts_page; eauto. }
    assert (Hfail : (forall l e, f v = Some (l, e) -> l = 3%nat) -> r = - EINVAL /\ m' = m ->
      exists A', Ok (r, m') = Ok (r, m') /\ answers A (MProtect ctx v flags) r A' /\ refines_spaces m' A').
    { intros Hl [-> ->]; exists (<[ctx := f]> A); split; [done|]; split; [|done]; exists f, f; split; [done|]; split; [|done].
      unfold protect_answers; destruct (f v) as [[l e]|]; [|done]; rewrite decide_False; [done|]; intros [_ Hl3]; by destruct (Hl3 (Hl l e eq_refl)). }
    assert (Hlev : forall l e, f v = Some (l, e) -> (1 <= l <= 3)%nat).
    { intros l e E; rewrite <- Hw in E by done; by eapply walk_level. }
    unfold protect_result in HP; rewrite Hw in HP by done; destruct (f v) as [[[|[|[|l]]] e]|] eqn:E.
    + specialize (Hlev _ _ eq_refl); lia.
    + apply (Hdone 1%nat e); auto.
    + apply (Hdone 2%nat e); auto.
    + apply Hfail; [|done]; intros l' e' [= <- <-]; specialize (Hlev _ _ eq_refl); lia.
    + by apply Hfail.
  - exists (- EINVAL), m, (<[ctx := f]> A); split; [|split; [|done]].
    + unfold mmu_protect_page; rewrite Hp; mstep; rewrite decide_False by done; by rewrite decide_True.
    + exists f, f; split; [done|]; split; [|done]; unfold protect_answers; destruct (f v) as [[l e]|]; [|done].
      by rewrite decide_False by tauto.
Qed.

Lemma serve_translate cpu proc m G H k A ctx v :
  hosts m G H k A -> permitted m (MTranslate ctx v) -> served cpu proc (MTranslate ctx v) m A.
Proof.
  intros HH [[Hn Hs] Hv]; destruct (live_root m G H k A ctx HH Hn Hs) as (f & root & Hf & Hr & Hc & Hg & Hp & Hr0 & Hw).
  unfold served, serve_call, mmu_virt_to_phys; rewrite Hp; mstep; cbv zeta; destruct (decide (root = 0)) as [?|_]; [done|].
  destruct (decide (v < 0xFFFF800000000000 /\ ctx = mm_kernel m /\ proc ≠ 0)) as [(_ & ? & _)|_]; [done|].
  rewrite Hp; mstep; destruct (decide (root = 0)) as [?|_]; [done|].
  rewrite (translate_ok m G H root v (ho_tables _ _ _ _ _ HH) Hg Hv), Hw by done; mstep.
  exists (translation (f v) v), m, A; split; [done|]; split; [by exists f|by exists G, H, k].
Qed.

Lemma serve_create cpu proc m G H k A addr :
  hosts m G H k A -> permitted m (MCreate addr) -> served cpu proc (MCreate addr) m A.
Proof.
  intros HH [Ha Hnew]; pose proof HH as [HT (K1 & K2 & K3 & K4) HD HC HI HW].
  assert (Hk : pml4_of (mm_kernel m) m = Ok (k * 4096)) by (unfold pml4_of; by rewrite decide_False, K2).
  unfold served, serve_call; destruct (create_context_ok cpu m G H addr k HT Hk K4 Ha) as (r & m' & -> & Hr); exists r, m'.
  destruct Hr as [(-> & -> & _)|(-> & p & [C1 C2 C3 C4 C5 C6 C7 (C8 & C9 & C10 & C11)])].
  { exists A; split; [done|]; split; [by left|by exists G, H, k]. }
  exists (<[addr := fun _ => None]> A); split; [done|]; split; [by right|].
  assert (Hak : addr ≠ mm_kernel m) by (intros ->; congruence).
  exists (<[p * 4096 := 4%nat]> G), (<[p := 0%nat]> H), k; split; rewrite ?C7, ?C8; try done.
  - split_and!; try done; by rewrite lookup_insert_ne.
  - intros c; destruct (decide (c = addr)) as [->|]; [rewrite !lookup_insert_eq; split; eauto|by rewrite !lookup_insert_ne].
  - intros c root; destruct (decide (c = addr)) as [->|]; [rewrite lookup_insert_eq; intros [= <-] _|].
    + by rewrite lookup_insert_eq.
    + rewrite lookup_insert_ne by done; intros Hc Hk'; destruct (HC c root Hc Hk'); split; [done|].
      rewrite lookup_insert_ne; [done|]; congruence.
  - intros c c' root Hc Hc' Hck Hck'; apply lookup_insert_Some in Hc as [[<- <-]|[Hn Hc]];
      apply lookup_insert_Some in Hc' as [[<- E]|[Hn' Hc']]; [done|..].
    + destruct (HC c' _ Hc' Hck'); congruence.
    + destruct (HC c root Hc Hck); congruence.
    + by eapply HI.
  - intros c f root v; destruct (decide (c = addr)) as [->|].
    + rewrite !lookup_insert_eq; intros [= <-] [= <-]; apply C4.
    + rewrite !lookup_insert_ne by done; intros Hf Hc Hv; assert (Hck : c ≠ mm_kernel m) by (apply (HD c); eauto).
      destruct (HC c root Hc Hck); rewrite C6 by done; by apply (HW c).
Qed.

Lemma serve_destroy cpu proc m G H k A ctx :
  hosts m G H k A -> permitted m (MDestroy ctx) -> served cpu proc (MDestroy ctx) m A.
Proof.
  intros HH [Hn Hs]; destruct (live_root m G H k A ctx HH Hn Hs) as (f & root & Hf & Hr & Hc & Hg & Hp & Hr0 & Hw).
  pose proof HH as [HT (K1 & K2 & K3 & K4) HD HC HI HW].
  assert (Hk : pml4_of (mm_kernel m) m = Ok (k * 4096)) by (unfold pml4_of; by rewrite decide_False, K2).
  assert (Hkr : k * 4096 ≠ root).
  { destruct (to_frame _ _ _ HT _ _ Hg) as (p & g & -> & Hpp & _); intros E; assert (p = k) as -> by lia.
    by apply (fr_boot_apart _ _ k (to_pages _ _ _ HT) Hpp). }
  unfold served, serve_call, mmu_destroy_context; rewrite Hp; mstep; rewrite decide_False by tauto.
  destruct (destroy_pml4_ok cpu m G H root (k * 4096) HT Hg Hk) as (m1 & -> & [E1 E2 E3 E4 E5]); [lia|done|]; mstep.
  eexists 0, _, (delete ctx A); split; [done|]; split; [done|]; do 2 eexists; exists k; split; cbn; rewrite ?E4, ?E5.
  - destruct E1 as [T1 T2 T3]; by split.
  - split_and!; try done; by rewrite lookup_delete_ne.
  - intros c; destruct (decide (c = ctx)) as [->|]; [rewrite !lookup_delete_eq; split; [intros []|intros [[] _]]; done|].
    by rewrite !lookup_delete_ne.
  - intros c root' [Hne Hc']%lookup_delete_Some Hk'; destruct (HC c root' Hc' Hk'); split; [done|].
    apply destroyed_others; try done; [apply HT|]; intros ->; apply Hne; by eapply HI.
  - intros c c' root' [_ H1]%lookup_delete_Some [_ H2]%lookup_delete_Some; intros H3 H4; by apply (HI c c' root').
  - intros c f' root' v [Hne Hf']%lookup_delete_Some [_ Hc']%lookup_delete_Some Hv; rewrite E2; by apply (HW c).
Qed.

(** Every permitted request is served as the specification says. *)
Lemma spaces_serve_ok cpu proc m A q : refines_spaces m A -> permitted m q -> served cpu proc q m A.
Proof.
  intros (G & H & k & HH) Hq; destruct q; eauto using serve_map, serve_unmap, serve_protect, serve_translate, serve_create, serve_destroy.
Qed.

(** [mmu_map_page] on a context of the user half. *)
Lemma map_context_ok cpu m (G H : gmap Z nat) (ctx root v phys flags : Z) :
  tables_ok m G H -> G !! root = Some 4%nat -> pml4_of ctx m = Ok root -> user v -> page_aligned v -> page_aligned phys ->
  exists r m', mmu_map_page cpu ctx v phys flags m = Ok (r, m') /\ map_result cpu root v phys flags m G H r m'.
Proof.
  intros HT Hr Hc Hv Ha Hp; unfold mmu_map_page; rewrite Hc; mstep.
  rewrite decide_False by (by eapply root_nonzero); rewrite decide_False by (unfold page_aligned in *; lia).
  by apply map_page_ok.
Qed.

(** ** Sequences of requests *)

Fixpoint play (qs : list call) (m : mmu St) : res (list Z * mmu St) :=
  match qs with
  | [] => Ok ([], m)
  | (cpu, proc, q) :: qs =>
      '(r, m) ← serve_call cpu proc q m;
      '(rs, m) ← play qs m;
      Ok (r :: rs, m)
  end.

(** Every request is permitted in the state it is made in. *)
Fixpoint calls_allowed (qs : list call) (m : mmu St) : Prop :=
  match qs with
  | [] => True
  | (cpu, proc, q) :: qs => permitted m q /\ forall r m', serve_call cpu proc q m = Ok (r, m') -> calls_allowed qs m'
  end.

Inductive trace : spaces -> list call -> list Z -> spaces -> Prop :=
| trace_nil A : trace A [] [] A
| trace_cons A cpu proc q qs r rs A' A'' :
    answers A q r A' -> trace A' qs rs A'' -> trace A ((cpu, proc, q) :: qs) (r :: rs) A''.

Lemma play_ok qs m A : refines_spaces m A -> calls_allowed qs m ->
  exists rs m' A', play qs m = Ok (rs, m') /\ trace A qs rs A' /\ refines_spaces m' A'.
Proof.
  revert m A; induction qs as [|[[cpu proc] q] qs IH]; intros m A Hm Ha.
  { exists [], m, A; split; [done|]; split; [constructor|done]. }
  destruct Ha as [Hq Ha]; destruct (spaces_serve_ok cpu proc m A q Hm Hq) as (r & m1 & A1 & E & Hans & Hm1).
  destruct (IH m1 A1 Hm1 (Ha r m1 E)) as (rs & m2 & A2 & E2 & Ht & Hm2).
  exists (r :: rs), m2, A2; cbn [play]; rewrite E; mstep; rewrite E2; mstep; split; [done|]; split; [by econstructor|done].
Qed.

(** [mmu_init] without a frame buffer: there are no address spaces yet. *)
Lemma init_ok `{Kernel} cpu m :
  fr_ok (mm_pages m) ∅ -> mm_ctxs m = ∅ -> mm_kernel m ≠ 0 ->
  (exists k, Z.land (mm_cr3 m) PT_ADDR_MASK = k * 4096 /\ k ≠ 0 /\ fr_boot k) ->
  exists m', mmu_init cpu None m = Ok m' /\ refines_spaces m' ∅ /\
    mm_ctxs m' = {[mm_kernel m := Z.land (mm_cr3 m) PT_ADDR_MASK]} /\ mm_kernel m' = mm_kernel m.
Proof.
  intros Hok Hc Hk (k & Ek & Hk0 & Hb); eexists; split; [done|]; split; [exists ∅, ∅, k|by cbn; rewrite Hc]; split; cbn; rewrite ?Hc.
  - split; cbn; [done|by intros t l; rewrite lookup_empty|]; split; intros t; by rewrite ?lookup_empty.
  - rewrite lookup_insert_eq, Ek; done.
  - intros ctx; rewrite lookup_empty; split; [by intros []|]; intros [[x Hx] Hn]; by rewrite lookup_insert_ne in Hx.
  - intros ctx root Hx Hn; by rewrite lookup_insert_ne in Hx.
  - intros ctx ctx' root Hx _ Hn; by rewrite lookup_insert_ne in Hx.
  - intros ctx f root v; by rewrite lookup_empty.
Qed.

(** [permitted] and [calls_allowed] as checks that can be run; a page counts as clean if
    its entry is. *)
Definition permits m (q : mreq) : bool :=
  let live ctx := bool_decide (ctx ≠ mm_kernel m /\ is_Some (mm_ctxs m !! ctx)) in
  let clean ctx v :=
    match mm_ctxs m !! ctx with
    | Some root => match walk (mm_words m) root v with Some (_, e) => negb (has_flag e PT_DIRTY) | None => true end
    | None => true
    end in
  match q with
  | MCreate addr => bool_decide (addr ≠ 0 /\ mm_ctxs m !! addr = None)
  | MMap ctx v _ _ | MTranslate ctx v => live ctx && bool_decide (idx 4 v < 256)
  | MUnmap ctx v | MProtect ctx v _ => live ctx && bool_decide (idx 4 v < 256) && clean ctx v
  | MDestroy ctx => live ctx
  end.

Fixpoint calls_check (qs : list call) (m : mmu St) : bool :=
  match qs with
  | [] => true
  | (cpu, proc, q) :: qs =>
      permits m q && match serve_call cpu proc q m with Ok (_, m) => calls_check qs m | _ => true end
  end.

Lemma permits_ok m q : permits m q = true -> permitted m q.
Proof.
  assert (Hcl : forall ctx v,
    match mm_ctxs m !! ctx with
    | Some root => match walk (mm_words m) root v with Some (_, e) => negb (has_flag e PT_DIRTY) | None => true end
    | None => true
    end = true -> forall root, mm_ctxs m !! ctx = Some root -> dirty_ok m root v).
  { intros ctx v Hx root Hr l e p f Hw Hd; rewrite Hr, Hw, Hd in Hx; done. }
  destruct q; cbn; rewrite ?andb_true_iff, ?bool_decide_eq_true; try tauto.
  - intros [[? ?] ?]; split_and!; try tauto; by apply Hcl.
  - intros [[? ?] ?]; split_and!; try tauto; by apply Hcl.
Qed.

Lemma calls_check_ok qs m : calls_check qs m = true -> calls_allowed qs m.
Proof.
  revert m; induction qs as [|[[cpu proc] q] qs IH]; intros m; [done|]; cbn [calls_check calls_allowed].
  intros [Hp Hq]%andb_true_iff; split; [by apply permits_ok|]; intros r m' E; rewrite E in Hq; by apply IH.
Qed.

End session.
