(* ===== verification/MmuCow.v ===== *)
(** * Page tables: sharing on fork

    [mmu_clone_user_cow] visits every entry of every page table of the parent once, in the
    order of addresses ([root_slots]).  Writable pages lose the right to write and are
    marked for copying in both contexts, the frame gets another reference. *)

From stdpp Require Import base tactics option list numbers gmap.
From Stdlib Require Import ZArith Lia.
From S2P Require Import Prelude Pmm PmmSpec SlabMem Slab Mmu MmuWalk MmuInv MmuTables MmuMap MmuUnmap MmuLookup MmuCtx.

Local Open Scope Z_scope.

(** ** Addresses of pages *)

(** The address of the page of [v]. *)
Definition page_of (v : Z) : Z := clone_addr (idx 4 v) (idx 3 v) (idx 2 v) (idx 1 v).

Lemma clone_addr_bit l4 l3 l2 l1 k :
  0 <= l4 < 512 -> 0 <= l3 < 512 -> 0 <= l2 < 512 -> 0 <= l1 < 512 -> 0 <= k ->
  Z.testbit (clone_addr l4 l3 l2 l1) k =
    Z.testbit l4 (k - 39) || Z.testbit l3 (k - 30) || Z.testbit l2 (k - 21) || Z.testbit l1 (k - 12).
Proof. intros H4 H3 H2 H1 Hk; unfold clone_addr; by rewrite !Z.lor_spec, !Z.shiftl_spec. Qed.

Lemma small_bit x k : 0 <= x < 512 -> 9 <= k -> Z.testbit x k = false.
Proof.
  intros Hx Hk; apply (Z.bits_above_log2 x k); [lia|].
  destruct (decide (x = 0)) as [->|]; [cbn; lia|]; apply Z.log2_lt_pow2; [lia|]; apply (Z.lt_le_trans _ (2 ^ 9)); [lia|by apply Z.pow_le_mono_r].
Qed.

Lemma idx_clone_addr l4 l3 l2 l1 :
  0 <= l4 < 512 -> 0 <= l3 < 512 -> 0 <= l2 < 512 -> 0 <= l1 < 512 ->
  idx 4 (clone_addr l4 l3 l2 l1) = l4 /\ idx 3 (clone_addr l4 l3 l2 l1) = l3 /\
  idx 2 (clone_addr l4 l3 l2 l1) = l2 /\ idx 1 (clone_addr l4 l3 l2 l1) = l1.
Proof.
  intros H4 H3 H2 H1.
  assert (Hx : forall l x, (1 <= l <= 4)%nat -> 0 <= x < 512 ->
    (forall k, 0 <= k < 9 -> Z.testbit (clone_addr l4 l3 l2 l1) (k + (12 + 9 * (Z.of_nat l - 1))) = Z.testbit x k) ->
    idx l (clone_addr l4 l3 l2 l1) = x).
  { intros l x Hl Hx Hb; unfold idx; apply Z.bits_inj'; intros k Hk.
    change 0x1FF with (Z.ones 9); rewrite Z.land_spec, Z.testbit_ones_nonneg, Z.shiftr_spec by lia.
    destruct (Z.ltb_spec k 9); [rewrite andb_true_r; apply Hb; lia|]; rewrite andb_false_r; symmetry; by apply small_bit. }
  split_and!; apply Hx; try lia; intros k Hk; rewrite clone_addr_bit by lia;
    rewrite ?(small_bit l1) by lia; rewrite ?(small_bit l2) by lia; rewrite ?(small_bit l3) by lia;
    rewrite ?(Z.testbit_neg_r l4) by lia; rewrite ?(Z.testbit_neg_r l3) by lia; rewrite ?(Z.testbit_neg_r l2) by lia;
    rewrite ?orb_false_r; cbn [orb]; f_equal; lia.
Qed.

Lemma page_of_same v : same_down 1 (page_of v) v.
Proof.
  destruct (idx_clone_addr (idx 4 v) (idx 3 v) (idx 2 v) (idx 1 v)) as (E4 & E3 & E2 & E1); try apply idx_range.
  intros j Hj; destruct (decide (j = 1%nat)) as [->|]; [done|]; destruct (decide (j = 2%nat)) as [->|]; [done|].
  destruct (decide (j = 3%nat)) as [->|]; [done|]; assert (j = 4%nat) as -> by lia; done.
Qed.

Lemma page_of_eq v v' : same_down 1 v v' <-> page_of v = page_of v'.
Proof.
  split; [intros Hs; unfold page_of; by rewrite !(Hs 4%nat), !(Hs 3%nat), !(Hs 2%nat), !(Hs 1%nat) by lia|].
  intros E j Hj; rewrite <- (page_of_same v j Hj), <- (page_of_same v' j Hj); by rewrite E.
Qed.

Lemma page_of_idem v : page_of (page_of v) = page_of v.
Proof. apply page_of_eq, page_of_same. Qed.

Lemma page_user v : user (page_of v) <-> user v.
Proof. unfold user; by rewrite (page_of_same v 4%nat) by lia. Qed.

(** ** The entries that are visited *)

(** The indices of the levels above, the page table and the index in it. *)
Abbreviation slot := (Z * Z * Z * Z * Z)%type.

Definition slot_addr (x : slot) : Z := let '(l4, l3, l2, _, l1) := x in clone_addr l4 l3 l2 l1.

Definition pt_slots (l4 l3 l2 pt : Z) : list slot := (fun l1 => (l4, l3, l2, pt, l1)) <$> seqZ 0 512.

(** The slots below the entries of a table of level [l]. *)
Definition under (w : gmap Z Z) (l : nat) (t : Z) (f : Z -> Z -> list slot) (i : Z) : list slot :=
  let e := entry_at w t i in if descends l e then f i (p2table e) else [].

Definition pd_slots w (l4 l3 pd : Z) : list slot := mjoin (under w 2 pd (pt_slots l4 l3) <$> seqZ 0 512).
Definition pdpt_slots w (l4 pdpt : Z) : list slot := mjoin (under w 3 pdpt (pd_slots w l4) <$> seqZ 0 512).
Definition root_slots w (root : Z) : list slot := mjoin (under w 4 root (pdpt_slots w) <$> seqZ 0 256).

Lemma elem_under w l t f n x :
  x ∈ mjoin (under w l t f <$> seqZ 0 n) <->
  exists i, 0 <= i < n /\ descends l (entry_at w t i) = true /\ x ∈ f i (p2table (entry_at w t i)).
Proof.
  rewrite list_elem_of_join; split.
  - intros (K & Hx & HK); apply list_elem_of_fmap in HK as (i & -> & Hi); apply elem_of_seqZ in Hi; exists i.
    unfold under in Hx; destruct (descends _ _); [split_and!; done || lia|by apply elem_of_nil in Hx].
  - intros (i & Hi & Hd & Hx); exists (under w l t f i); split; [unfold under; by rewrite Hd|].
    apply list_elem_of_fmap; exists i; split; [done|]; apply elem_of_seqZ; lia.
Qed.

Definition in_slot (w : gmap Z Z) (root : Z) (x : slot) : Prop :=
  let '(l4, l3, l2, pt, l1) := x in
  0 <= l4 < 256 /\ 0 <= l3 < 512 /\ 0 <= l2 < 512 /\ 0 <= l1 < 512 /\ reach w (slot_addr x) 4 root 1 pt.

Lemma elem_root_slots w root x : x ∈ root_slots w root <-> in_slot w root x.
Proof.
  destruct x as [[[[l4 l3] l2] pt] l1]; unfold root_slots, in_slot; rewrite elem_under; split.
  - intros (i4 & H4 & D4 & Hx); apply elem_under in Hx as (i3 & H3 & D3 & Hx); apply elem_under in Hx as (i2 & H2 & D2 & Hx).
    apply list_elem_of_fmap in Hx as (i1 & [= -> -> -> -> ->] & Hi1); apply elem_of_seqZ in Hi1.
    destruct (idx_clone_addr i4 i3 i2 i1) as (E4 & E3 & E2 & E1); [lia..|]; split_and!; try lia; cbn [slot_addr].
    set (v := clone_addr i4 i3 i2 i1) in *; rewrite <- E4 in D4; rewrite <- E4, <- E3 in D3; rewrite <- E4, <- E3, <- E2 in D2.
    rewrite <- E4, <- E3, <- E2; repeat (apply reach_down; [|lia|done]); constructor.
  - intros (H4 & H3 & H2 & H1 & Hp); destruct (idx_clone_addr l4 l3 l2 l1) as (E4 & E3 & E2 & E1); [lia..|].
    cbn [slot_addr] in Hp; set (v := clone_addr l4 l3 l2 l1) in *; clearbody v.
    inversion Hp as [|? ? ? t2 Hp2 _ D2]; subst; inversion Hp2 as [|? ? ? t3 Hp3 _ D3]; subst.
    inversion Hp3 as [|? ? ? t4 Hp4 _ D4]; subst; inversion Hp4 as [|? ? ? t5 Hp5 _ D5]; subst; [|apply reach_le in Hp5; lia].
    exists (idx 4 v); split; [lia|]; split; [done|]; apply elem_under; exists (idx 3 v); split; [lia|]; split; [done|].
    apply elem_under; exists (idx 2 v); split; [lia|]; split; [done|]; apply list_elem_of_fmap; exists (idx 1 v); split; [done|].
    apply elem_of_seqZ; lia.
Qed.

Lemma nodup_under w l t f n (key : slot -> Z) :
  (forall i c, NoDup (f i c)) -> (forall i c x, x ∈ f i c -> key x = i) -> NoDup (mjoin (under w l t f <$> seqZ 0 n)).
Proof.
  intros Hf Hk; apply NoDup_join; [apply NoDup_seqZ|..].
  - intros i _; unfold under; destruct (descends _ _); [done|constructor].
  - intros i j x _ _; unfold under; destruct (descends _ (entry_at w t i)), (descends _ (entry_at w t j)); try (by intros ?%elem_of_nil).
    + intros Hi Hj; rewrite <- (Hk _ _ _ Hi); by apply (Hk _ _ _ Hj).
    + by intros _ ?%elem_of_nil.
Qed.

Lemma pt_slots_elem l4 l3 l2 pt x : x ∈ pt_slots l4 l3 l2 pt -> exists l1, x = (l4, l3, l2, pt, l1).
Proof. intros (l1 & -> & _)%list_elem_of_fmap; by exists l1. Qed.

Lemma root_slots_nodup w root : NoDup (root_slots w root).
Proof.
  assert (H2 : forall l4 l3 pd, NoDup (pd_slots w l4 l3 pd)).
  { intros l4 l3 pd; apply (nodup_under _ _ _ _ _ (fun x => let '(_, _, l2, _, _) := x in l2)).
    - intros l2 pt; apply NoDup_fmap_2; [by intros ? ? [= ->]|apply NoDup_seqZ].
    - intros i c x (l1 & ->)%pt_slots_elem; done. }
  assert (K2 : forall l4 l3 pd x, x ∈ pd_slots w l4 l3 pd -> exists l2 pt l1, x = (l4, l3, l2, pt, l1)).
  { intros l4 l3 pd x (i & _ & _ & (l1 & ->)%pt_slots_elem)%elem_under; eauto. }
  assert (H3 : forall l4 pdpt, NoDup (pdpt_slots w l4 pdpt)).
  { intros l4 pdpt; apply (nodup_under _ _ _ _ _ (fun x => let '(_, l3, _, _, _) := x in l3)); [intros; apply H2|].
    intros i c x Hx; by destruct (K2 _ _ _ _ Hx) as (? & ? & ? & ->). }
  apply (nodup_under _ _ _ _ _ (fun x => let '(l4, _, _, _, _) := x in l4)); [intros; apply H3|].
  intros i c x (j & _ & _ & Hx)%elem_under; by destruct (K2 _ _ _ _ Hx) as (? & ? & ? & ->).
Qed.

Lemma slot_addr_inj w root x y : in_slot w root x -> in_slot w root y -> slot_addr x = slot_addr y -> x = y.
Proof.
  destruct x as [[[[l4 l3] l2] pt] l1], y as [[[[k4 k3] k2] pt'] k1]; intros (H4 & H3 & H2 & H1 & Hp) (K4 & K3 & K2 & K1 & Hp') E.
  rewrite E in Hp; rewrite (reach_fun _ _ _ _ _ _ _ Hp Hp'); cbn [slot_addr] in E.
  destruct (idx_clone_addr l4 l3 l2 l1) as (E4 & E3 & E2 & E1); [lia..|].
  destruct (idx_clone_addr k4 k3 k2 k1) as (F4 & F3 & F2 & F1); [lia..|]; rewrite E in *; congruence.
Qed.

(** The addresses, each once. *)
Lemma root_addrs_nodup w root : NoDup (slot_addr <$> root_slots w root).
Proof.
  assert (Hin : forall x, x ∈ root_slots w root -> in_slot w root x) by (intros x; apply elem_root_slots).
  pose proof (root_slots_nodup w root) as Hn; induction Hn as [|x L Hx HL IH]; [constructor|].
  rewrite fmap_cons; constructor; [|apply IH; intros y Hy; apply Hin; by right].
  intros (y & E & Hy)%list_elem_of_fmap; apply Hx; rewrite (slot_addr_inj w root x y); [done|apply Hin; by left|apply Hin; by right|done].
Qed.

Lemma page_in_slots w root v pt : user v -> reach w v 4 root 1 pt -> page_of v ∈ slot_addr <$> root_slots w root.
Proof.
  intros Hv Hp; apply list_elem_of_fmap; exists (idx 4 v, idx 3 v, idx 2 v, pt, idx 1 v); split; [done|].
  apply elem_root_slots; pose proof (idx_range 4 v); unfold user in Hv; split_and!; try apply idx_range; try lia.
  change (slot_addr _) with (page_of v); eapply reach_same_down; [exact Hp|].
  intros j Hj; symmetry; apply page_of_same; lia.
Qed.

(** ** What becomes of a page *)

Section cow.
Context {St : Type} `{!PageSource St} `{!FrameLaws St} `{!PageRefs St} `{!RefLaws St}.
Implicit Types m : mmu St.

(** [vma_shared] as in [clone_page]; [cpu] is the CPU that clones. *)
Variable vma_shared : Z -> bool.
Variable cpu : nat.

(** Pages of user space are shared or copied, others are left out. *)
Definition user_page (e : Z) : bool := has_flag e PT_PRESENT && has_flag e PT_USER.

(** The frame of a page that is to be copied on a write. *)
Definition private (v e : Z) : option Z := if vma_shared v then None else fr_lookup (Z.land e PT_ADDR_MASK).

Definition cow_entry (e : Z) : Z := if has_flag e PT_RW then Z.lor (Z.land e (Z.lnot PT_RW)) PT_COW else e.

(** The parent's entry afterwards. *)
Definition parent_after (v e : Z) : Z :=
  if user_page e then match private v e with Some _ => cow_entry e | None => e end else e.

Definition child_flags (v e : Z) : Z :=
  match private v e with
  | None =>
      let flags := Z.lor MMU_PROT_READ MMU_PROT_USER in
      let flags := if has_flag e PT_RW then Z.lor flags MMU_PROT_WRITE else flags in
      let flags := if negb (has_flag e PT_NX) then Z.lor flags MMU_PROT_EXEC else flags in
      if bool_decide (fr_lookup (Z.land e PT_ADDR_MASK) = None) then Z.lor flags MMU_FLAG_WC else flags
  | Some _ =>
      let flags := Z.lor MMU_PROT_READ MMU_PROT_USER in
      let flags := if has_flag (cow_entry e) PT_COW then Z.lor flags MMU_FLAG_COW else flags in
      if negb (has_flag (cow_entry e) PT_NX) then Z.lor flags MMU_PROT_EXEC else flags
  end.

(** The child's entry. *)
Definition child_entry (v e : Z) : Z := leaf_entry (Z.land e PT_ADDR_MASK) (child_flags v e).

Lemma child_small v e : has_flag (child_flags v e) MMU_FLAG_HUGE_2M = false.
Proof. unfold child_flags; repeat case_match; by vm_compute. Qed.

Lemma child_level v e : leaf_level (child_flags v e) = 1%nat.
Proof. unfold leaf_level; by rewrite child_small. Qed.

Lemma cow_present e : has_flag e PT_PRESENT = true -> has_flag (cow_entry e) PT_PRESENT = true.
Proof.
  unfold cow_entry; destruct (has_flag e PT_RW); [|done]; unfold PT_PRESENT, PT_RW, PT_COW; rewrite !has_flag_bit by lia.
  rewrite Z.lor_spec, Z.land_spec; intros ->; by vm_compute.
Qed.

(** Neither side can write to a page that is to be copied, and both have the same frame. *)
Lemma cow_readonly v e p : user_page e = true -> private v e = Some p ->
  has_flag (parent_after v e) PT_RW = false /\ has_flag (child_entry v e) PT_RW = false /\
  Z.land (parent_after v e) PT_ADDR_MASK = Z.land e PT_ADDR_MASK /\
  Z.land (child_entry v e) PT_ADDR_MASK = Z.land e PT_ADDR_MASK.
Proof.
  intros Hu Hp; unfold parent_after, child_entry, leaf_entry; rewrite Hu, Hp, child_small.
  assert (Hf : exists x y : bool, child_flags v e =
    let f := if x then Z.lor (Z.lor MMU_PROT_READ MMU_PROT_USER) MMU_FLAG_COW else Z.lor MMU_PROT_READ MMU_PROT_USER in
    if y then Z.lor f MMU_PROT_EXEC else f).
  { unfold child_flags; rewrite Hp; by exists (has_flag (cow_entry e) PT_COW), (negb (has_flag (cow_entry e) PT_NX)). }
  destruct Hf as (x & y & ->); split_and!.
  - unfold cow_entry; destruct (has_flag e PT_RW) eqn:E; [|done]; unfold PT_RW, PT_COW; rewrite has_flag_bit by lia.
    by rewrite Z.lor_spec, Z.land_spec, andb_false_r.
  - unfold PT_RW; rewrite has_flag_bit, Z.lor_spec, !Z.land_spec by lia; change (Z.testbit PT_ADDR_MASK 1) with false; rewrite !andb_false_r.
    by destruct x, y.
  - unfold cow_entry; destruct (has_flag e PT_RW); [|done]; rewrite Z.land_lor_distr_l, <- Z.land_assoc.
    change (Z.land PT_COW PT_ADDR_MASK) with 0; by rewrite Z.lor_0_r.
  - rewrite Z.land_lor_distr_l, <- !Z.land_assoc, !Z.land_diag; destruct x, y;
      match goal with |- Z.lor _ ?z = _ => change z with 0 end; by rewrite Z.lor_0_r.
Qed.

(** [clone_page] with the answer of [mmu_map_page_unlocked], if it is called. *)
Definition clone_answer (child : Z) (x : slot) m : res (option Z * mmu St) :=
  let '(_, _, _, pt, l1) := x in
  let v := slot_addr x in
  let e := get_entry pt l1 m in
  if user_page e then
    m ← match private v e with
        | None => Ok m
        | Some p => s ← ps_ref p (mm_pages m); Ok (with_st s (if has_flag e PT_RW then set_entry pt l1 (cow_entry e) m else m))
        end;
    '(r, m) ← mmu_map_page_unlocked cpu child v (Z.land e PT_ADDR_MASK) (child_flags v e) m;
    Ok (Some r, m)
  else Ok (None, m).

Lemma clone_page_answer child l4 l3 l2 pt l1 m H :
  fr_ok (mm_pages m) H ->
  clone_page vma_shared cpu child l4 l3 l2 pt l1 m = ('(_, m) ← clone_answer child (l4, l3, l2, pt, l1) m; Ok m).
Proof.
  intros Hok; unfold clone_page, clone_answer, user_page; cbn [slot_addr]; cbv zeta; set (e := get_entry pt l1 m).
  destruct (has_flag e PT_PRESENT), (has_flag e PT_USER); cbn [negb orb andb]; try done.
  set (v := clone_addr l4 l3 l2 l1); rewrite (fr_lookup_ok _ _ _ Hok) by (by apply mask_nonneg).
  unfold child_flags, private; destruct (vma_shared v) eqn:Es.
  - rewrite orb_true_r; mstep; by destruct (mmu_map_page_unlocked _ _ _ _ _ _) as [[? ?]| |].
  - rewrite orb_false_r; destruct (fr_lookup _) as [p|] eqn:El; [rewrite bool_decide_false by done|rewrite bool_decide_true by done]; mstep.
    + unfold cow_entry; destruct (has_flag e PT_RW); cbn [mm_pages set_entry with_words];
        (destruct (ps_ref p (mm_pages m)) as [s| |]; mstep; [|done..]);
        by destruct (mmu_map_page_unlocked _ _ _ _ _ _) as [[? ?]| |].
    + by destruct (mmu_map_page_unlocked _ _ _ _ _ _) as [[? ?]| |].
Qed.

(** ** The run *)

Section run.
(** The state at the start, the roots of the parent [P] and the child [C]. *)
Variables (m0 : mmu St) (G0 H0 : gmap Z nat) (P C : Z).
Hypothesis T0 : tables_ok m0 G0 H0.
Hypothesis P0 : G0 !! P = Some 4%nat.
Hypothesis C0 : G0 !! C = Some 4%nat.
Hypothesis PC : P ≠ C.

(** The page at [v] is one for which [p] gets a reference. *)
Definition sharing (p v : Z) : bool :=
  match walk (mm_words m0) P v with
  | Some (1%nat, e) => user_page e && bool_decide (private v e = Some p)
  | _ => false
  end.

Definition sharers (p : Z) (vs : list Z) : nat := length (filter (fun v => sharing p v = true) vs).

Definition child_of (v : Z) (r : option (nat * Z)) : option (nat * Z) :=
  match r with Some (1%nat, e) => Some (1%nat, child_entry v e) | _ => None end.

(** The pages [vs] were visited and [ans] are the answers of the calls made for them. *)
Record cow_inv (vs : list Z) (ans : gmap Z Z) m (G H : gmap Z nat) : Prop := {
  ci_tables : tables_ok m G H;
  ci_grow : G0 ⊆ G;
  ci_cpu : same_cpu m0 m;
  ci_upper v l t i : user v -> reach (mm_words m0) v 4 P l t -> l ≠ 1%nat -> 0 <= i < 512 ->
    entry_at (mm_words m) t i = entry_at (mm_words m0) t i;
  ci_parent v pt : user v -> reach (mm_words m0) v 4 P 1 pt ->
    entry_at (mm_words m) pt (idx 1 v) =
      (let e := entry_at (mm_words m0) pt (idx 1 v) in
       if decide (page_of v ∈ vs) then parent_after (page_of v) e else e);
  ci_child v : user v -> walk (mm_words m) C v =
    if decide (ans !! page_of v = Some 0) then child_of (page_of v) (walk (mm_words m0) P v) else walk (mm_words m0) C v;
  ci_others root v : G0 !! root = Some 4%nat -> root ≠ P -> root ≠ C -> user v ->
    walk (mm_words m) root v = walk (mm_words m0) root v;
  ci_refs p n : H0 !! p = Some (S n) -> H !! p = Some (S n + sharers p vs)%nat;
  ci_held p : H0 !! p = Some 0%nat -> H !! p = Some 0%nat;
  ci_pages : pages_kept H0 (mm_words m0) (mm_words m)
}.

Lemma cow_start : cow_inv [] ∅ m0 G0 H0.
Proof.
  split; try done.
  - intros p n Hp; by rewrite Nat.add_0_r.
Qed.

Lemma ci_reach vs ans m G H v l t :
  cow_inv vs ans m G H -> user v -> reach (mm_words m0) v 4 P l t -> reach (mm_words m) v 4 P l t.
Proof.
  intros HI Hv Hp; eapply reach_ext_entry; [exact Hp|]; intros l1 t1 Hl1 Hp1.
  apply (ci_upper _ _ _ _ _ HI v l1); auto using idx_range.
  pose proof (reach_table _ _ _ _ _ _ (to_linked _ _ _ T0) P0 Hv Hp) as Ht; pose proof (lk_level _ _ (to_linked _ _ _ T0) _ _ Ht); lia.
Qed.

Lemma ci_kept vs ans m G H w' :
  cow_inv vs ans m G H -> pages_kept H (mm_words m) w' -> pages_kept H0 (mm_words m0) w'.
Proof.
  intros HI Hk; eapply pages_kept_trans; [by eapply ci_pages|]; intros p n i Hp Hi; pose proof (ci_refs _ _ _ _ _ HI p n Hp) as Hr.
  by eapply Hk.
Qed.

(** The map call for a page. *)
Lemma cow_map vs ans m G H v e :
  cow_inv vs ans m G H -> user v -> page_of v = v -> walk (mm_words m0) P v = Some (1%nat, e) -> ans !! v = None ->
  exists r m' G' H', mmu_map_page_unlocked cpu C v (Z.land e PT_ADDR_MASK) (child_flags v e) m = Ok (r, m') /\
    cow_inv vs (<[v := r]> ans) m' G' H'.
Proof.
  intros HI Hv Hpg Hw Hans; pose proof HI as [I1 I2 I3 I4 I5 I6 I7 I8 I9 I10].
  assert (HC : G !! C = Some 4%nat) by (by eapply lookup_weaken).
  assert (HP : G !! P = Some 4%nat) by (by eapply lookup_weaken).
  destruct (map_page_ok cpu m G H C v (Z.land e PT_ADDR_MASK) (child_flags v e) I1 HC Hv) as (r & m' & E & HM).
  exists r, m'; unfold map_result in HM; rewrite child_level in HM.
  assert (Hsame : restored m G H m' -> r ≠ 0 -> cow_inv vs (<[v := r]> ans) m' G H).
  { intros [R1 R2 R3 R4 R5 R6] Hr.
    assert (Hk : forall v' l t i, user v' -> reach (mm_words m0) v' 4 P l t -> 0 <= i < 512 ->
      entry_at (mm_words m') t i = entry_at (mm_words m) t i).
    { intros v' l t i Hv' Hp' Hi; apply (R5 t l); [|done].
      by eapply reach_table; [apply I1|exact HP|exact Hv'|]; eapply ci_reach. }
    split; try done.
    - by eapply same_cpu_trans.
    - intros v' l t i Hv' Hp' Hl Hi; rewrite (Hk v' l) by done; by apply (I4 v' l).
    - intros v' pt Hv' Hp'; rewrite (Hk v' 1%nat) by auto using idx_range; by apply I5.
    - intros v' Hv'; rewrite R2, I6 by done; destruct (decide (page_of v' = v)) as [Ev|Ev].
      + rewrite Ev, lookup_insert_eq, Hans; repeat (rewrite decide_False by congruence); done.
      + by rewrite lookup_insert_ne by done.
    - intros root v' Hr' Hn1 Hn2 Hv'; rewrite R2 by (done || by eapply lookup_weaken); by apply I7.
    - by eapply ci_kept. }
  destruct HM as [(-> & G' & H' & [D1 D2 D3 D4 D5 D6 D7 D8 D9])|[(-> & _ & R)|[(-> & _ & R)|(_ & Hl & _)]]]; [|by exists G, H; split; [|apply Hsame]..|done].
  exists G', H'; split; [done|].
  assert (Hk : forall v' l t i, user v' -> reach (mm_words m0) v' 4 P l t -> 0 <= i < 512 ->
    entry_at (mm_words m') t i = entry_at (mm_words m) t i).
  { intros v' l t i Hv' Hp' Hi; apply (D8 P v' l); try done; by eapply ci_reach. }
  split; try done.
  - by etransitivity.
  - by eapply same_cpu_trans.
  - intros v' l t i Hv' Hp' Hl Hi; rewrite (Hk v' l) by done; by apply (I4 v' l).
  - intros v' pt Hv' Hp'; rewrite (Hk v' 1%nat) by auto using idx_range; by apply I5.
  - intros v' Hv'; destruct (decide (same_down 1 v v')) as [Hs|Hs].
    + rewrite D4 by done; apply page_of_eq in Hs; rewrite <- Hs, Hpg, lookup_insert_eq, decide_True by done.
      rewrite (walk_same_down _ _ v) by (by apply page_of_eq); by rewrite Hw.
    + rewrite D5 by (done || tauto); rewrite I6 by done; rewrite lookup_insert_ne; [done|].
      intros Ev; apply Hs, page_of_eq; by rewrite Hpg, Ev.
  - intros root v' Hr' Hn1 Hn2 Hv'; rewrite D5; [by apply I7|by eapply lookup_weaken|done|tauto].
  - intros p n Hp; eapply lookup_weaken; [by apply I8|done].
  - intros p Hp; eapply lookup_weaken; [by apply I9|done].
  - by eapply ci_kept.
Qed.

Lemma sharers_cons p v vs : sharers p (v :: vs) = ((if sharing p v then 1 else 0) + sharers p vs)%nat.
Proof. unfold sharers; rewrite filter_cons; destruct (sharing p v); by case_decide. Qed.

Lemma visited_cons (u v : Z) vs (a b : Z) : u ≠ v ->
  (if decide (u ∈ vs) then a else b) = if decide (u ∈ v :: vs) then a else b.
Proof.
  intros Hn; destruct (decide (u ∈ vs)); [by rewrite decide_True by (by right)|rewrite decide_False; [done|]].
  by rewrite not_elem_of_cons.
Qed.

(** A page that is visited and stays as it is. *)
Lemma cow_skip vs ans m G H v pt :
  cow_inv vs ans m G H -> user v -> page_of v = v -> v ∉ vs -> reach (mm_words m0) v 4 P 1 pt ->
  parent_after v (entry_at (mm_words m0) pt (idx 1 v)) = entry_at (mm_words m0) pt (idx 1 v) ->
  (forall p, sharing p v = false) -> cow_inv (v :: vs) ans m G H.
Proof.
  intros HI Hv Hpg Hn Hp He Hs; pose proof HI as [I1 I2 I3 I4 I5 I6 I7 I8 I9 I10]; split; try done.
  - intros v' pt' Hv' Hp'; rewrite I5 by done; cbv zeta; destruct (decide (page_of v' = v)) as [Ev|Ev].
    + assert (Hsd : same_down 1 v v') by (apply page_of_eq; congruence).
      assert (pt' = pt) as -> by (eapply reach_fun; [exact Hp'|]; eapply reach_same_down; [exact Hp|]; intros j Hj; apply Hsd; lia).
      rewrite Ev, <- (Hsd 1%nat) by lia; rewrite decide_False by done; by rewrite decide_True by left.
    + by apply visited_cons.
  - intros p n Hp0; rewrite sharers_cons, Hs; by apply I8.
Qed.

(** The tables after the parent's entry is written. *)
Lemma parent_write m G H v pt e' :
  tables_ok m G H -> G !! P = Some 4%nat -> user v -> reach (mm_words m) v 4 P 1 pt -> has_flag e' PT_PRESENT = true ->
  let m1 := set_entry pt (idx 1 v) e' m in
  tables_ok m1 G H /\
  (forall root v', G !! root = Some 4%nat -> root ≠ P -> user v' -> walk (mm_words m1) root v' = walk (mm_words m) root v') /\
  (forall t l i, G !! t = Some l -> 0 <= i < 512 ->
     entry_at (mm_words m1) t i = if decide (t = pt /\ i = idx 1 v) then e' else entry_at (mm_words m) t i) /\
  pages_kept H (mm_words m) (mm_words m1).
Proof.
  intros HT HP Hv Hp He m1.
  pose proof (exchange_ok m G H P v 1 pt e' HT HP Hv Hp ltac:(lia) (conj He (or_introl eq_refl))) as [D1 _ _ _ _ _ _ _ D9].
  destruct (exchange_fields pt (idx 1 v) e' P v m) as (F1 & F2 & _); split; [|split; [|split; [|by rewrite F2 in D9]]].
  - eapply (tables_ok_ext _ m1); [exact (eq_sym F1)|exact (eq_sym F2)|exact D1].
  - intros root v' Hr Hn Hv'; apply (walk_write m G H P v 1 pt); try done; tauto.
  - intros t l i Ht Hi; apply entry_write; destruct (decide (t + 8 * i = pt + 8 * idx 1 v)) as [E|]; [left|by right].
    apply (slot_inj m G H t l i pt 1 (idx 1 v)); auto using idx_range.
    eapply reach_table; [apply HT|exact HP|exact Hv|exact Hp].
Qed.

Lemma refs_frame m G H q n s' :
  tables_ok m G H -> H !! q = Some (S n) -> fr_ok s' (<[q := S (S n)]> H) -> (forall q', ps_flags s' q' = ps_flags (mm_pages m) q') ->
  tables_ok (with_st s' m) G (<[q := S (S n)]> H).
Proof.
  intros [T1 T2 T3] Hq Hok Hf; split; [done| |done]; intros t l Ht; eapply table_frame_mono; [|by eapply T2].
  intros p Hp _; split; [|by apply Hf]; rewrite lookup_insert_ne; [done|]; intros ->; congruence.
Qed.

(** A page that is copied on a write. *)
Lemma cow_write vs ans m G H v pt p n :
  let e := entry_at (mm_words m0) pt (idx 1 v) in
  cow_inv vs ans m G H -> user v -> page_of v = v -> v ∉ vs -> reach (mm_words m0) v 4 P 1 pt ->
  walk (mm_words m0) P v = Some (1%nat, e) -> user_page e = true -> private v e = Some p ->
  H0 !! p = Some (S n) -> Z.of_nat (S n + sharers p (v :: vs)) < 2 ^ 32 ->
  exists s', ps_ref p (mm_pages m) = Ok s' /\
    cow_inv (v :: vs) ans (with_st s' (if has_flag e PT_RW then set_entry pt (idx 1 v) (cow_entry e) m else m)) G
      (<[p := (S n + sharers p (v :: vs))%nat]> H).
Proof.
  intros e HI Hv Hpg Hn Hp Hw Hu Hpr Hp0 Hlt; pose proof HI as [I1 I2 I3 I4 I5 I6 I7 I8 I9 I10].
  assert (HP : G !! P = Some 4%nat) by (by eapply lookup_weaken).
  assert (Hsh : forall q, sharing q v = bool_decide (p = q)).
  { intros q; unfold sharing; rewrite Hw, Hu, Hpr; cbn [andb]; apply bool_decide_ext; split; [by intros [= ->]|by intros ->]. }
  assert (Es : sharers p (v :: vs) = S (sharers p vs)) by (rewrite sharers_cons, Hsh, bool_decide_true by done; done).
  rewrite Es in *; replace (S n + S (sharers p vs))%nat with (S (S (n + sharers p vs))) in * by lia.
  assert (Hq : H !! p = Some (S (n + sharers p vs))) by (by apply I8).
  destruct (fr_ref_ok _ _ p _ (to_pages _ _ _ I1) Hq Hlt) as (s' & E & Hok & Hfl); exists s'; split; [done|].
  assert (Hpres : has_flag e PT_PRESENT = true) by (unfold user_page in Hu; by apply andb_true_iff in Hu as [? _]).
  assert (Hpm : reach (mm_words m) v 4 P 1 pt) by (by eapply ci_reach).
  destruct (parent_write m G H v pt (cow_entry e) I1 HP Hv Hpm) as (W1 & W2 & W3 & W4); [by apply cow_present|].
  set (m1 := if has_flag e PT_RW then set_entry pt (idx 1 v) (cow_entry e) m else m).
  assert (Hent : entry_at (mm_words m) pt (idx 1 v) = e) by (rewrite I5 by done; cbv zeta; by rewrite Hpg, decide_False).
  assert (X : tables_ok m1 G H /\ mm_pages m1 = mm_pages m /\ same_cpu m m1 /\
    (forall root v', G !! root = Some 4%nat -> root ≠ P -> user v' -> walk (mm_words m1) root v' = walk (mm_words m) root v') /\
    (forall t l i, G !! t = Some l -> 0 <= i < 512 ->
      entry_at (mm_words m1) t i = if decide (t = pt /\ i = idx 1 v) then cow_entry e else entry_at (mm_words m) t i) /\ pages_kept H (mm_words m) (mm_words m1)).
  { unfold m1; destruct (has_flag e PT_RW) eqn:Erw; [done|]; split_and!; try done; intros t l i Ht Hi; case_decide as Hd; [|done].
    destruct Hd as [-> ->]; rewrite Hent; unfold cow_entry; by rewrite Erw. }
  clearbody m1; destruct X as (X1 & X2 & X3 & X4 & X5 & X6).
  assert (Htab : forall v' l t, user v' -> reach (mm_words m0) v' 4 P l t -> G !! t = Some l).
  { intros v' l t Hv' Hp'; eapply reach_table; [apply I1|exact HP|exact Hv'|]; by eapply ci_reach. }
  split; cbn [with_st mm_words mm_pages].
  - apply refs_frame; try done; by rewrite X2.
  - done.
  - eapply same_cpu_trans; [exact I3|]; eapply same_cpu_trans; [exact X3|by split].
  - intros v' l t i Hv' Hp' Hl Hi; rewrite (X5 t l) by eauto; rewrite decide_False; [by apply (I4 v' l)|].
    intros [-> _]; pose proof (Htab v' l pt Hv' Hp'); pose proof (Htab v 1%nat pt Hv Hp); congruence.
  - intros v' pt' Hv' Hp'; rewrite (X5 pt' 1%nat) by (eauto using idx_range); rewrite (I5 v' pt' Hv' Hp'); cbv zeta.
    destruct (decide (page_of v' = v)) as [Ev|Ev].
    + assert (Hsd : same_down 1 v v') by (apply page_of_eq; congruence).
      assert (pt' = pt) as -> by (eapply reach_fun; [exact Hp'|]; eapply reach_same_down; [exact Hp|]; intros j Hj; apply Hsd; lia).
      rewrite <- (Hsd 1%nat) by lia; rewrite decide_True by done; rewrite Ev, decide_True by left.
      unfold parent_after; fold e; by rewrite Hu, Hpr.
    + rewrite decide_False.
      * by apply visited_cons.
      * intros [-> Hi]; apply Ev; rewrite <- Hpg; apply page_of_eq.
        destruct (reach_unique _ _ _ _ _ _ _ _ (to_linked _ _ _ T0) P0 P0 Hv' Hv Hp' Hp) as [_ Hj].
        intros j Hj'; destruct (decide (j = 1%nat)) as [->|]; [done|apply Hj; lia].
  - intros v' Hv'; rewrite X4; [by apply I6|by eapply lookup_weaken|auto|done].
  - intros root v' Hr Hn1 Hn2 Hv'; rewrite X4; [by apply I7|by eapply lookup_weaken|done|done].
  - intros q n' Hq0; rewrite sharers_cons, Hsh; destruct (decide (q = p)) as [->|Hqp].
    + rewrite lookup_insert_eq, bool_decide_true by done; assert (n' = n) as -> by congruence; f_equal; lia.
    + rewrite lookup_insert_ne, bool_decide_false by done; by apply I8.
  - intros q Hq0; rewrite lookup_insert_ne; [by apply I9|]; intros ->; congruence.
  - by eapply ci_kept.
Qed.

(** ** One entry *)

(** A page that is visited and belongs to user space. *)
Definition visible (v : Z) : bool :=
  match walk (mm_words m0) P v with Some (1%nat, e) => user_page e | _ => false end.

(** Answers are there exactly for the pages of user space that were visited. *)
Definition run_ok (vs : list Z) (ans : gmap Z Z) m (G H : gmap Z nat) : Prop :=
  cow_inv vs ans m G H /\ forall v, is_Some (ans !! v) <-> v ∈ vs /\ visible v = true.

Definition note (v : Z) (o : option Z) (ans : gmap Z Z) : gmap Z Z :=
  match o with Some r => <[v := r]> ans | None => ans end.

(** The counts of the frames to be shared have room for [us] after [vs]. *)
Definition room (us vs : list Z) : Prop :=
  forall p n, H0 !! p = Some (S n) -> sharers p us ≠ 0%nat -> Z.of_nat (S n + sharers p us + sharers p vs) < 2 ^ 32.

Hypothesis Hpages : forall p v, user v -> sharing p v = true -> exists n, H0 !! p = Some (S n).

Lemma slot_page x : in_slot (mm_words m0) P x -> user (slot_addr x) /\ page_of (slot_addr x) = slot_addr x.
Proof.
  destruct x as [[[[l4 l3] l2] pt] l1]; intros (H4 & H3 & H2 & H1 & _); cbn [slot_addr].
  destruct (idx_clone_addr l4 l3 l2 l1) as (E4 & E3 & E2 & E1); [lia..|]; unfold user, page_of; rewrite E4, E3, E2, E1; split; [lia|done].
Qed.

Lemma note_visited vs ans v o :
  (forall u, is_Some (ans !! u) <-> u ∈ vs /\ visible u = true) -> (is_Some o <-> visible v = true) ->
  forall u, is_Some (note v o ans !! u) <-> u ∈ v :: vs /\ visible u = true.
Proof.
  intros Ha Ho u; rewrite elem_of_cons; destruct (decide (u = v)) as [->|Hn].
  - destruct o as [r|]; cbn; [rewrite lookup_insert_eq; split; [split; [by left|by apply Ho; eauto]|eauto]|].
    rewrite Ha; split; [intros [? ?]; auto|]; intros [_ Hv]; destruct (proj2 Ho Hv); done.
  - destruct o as [r|]; cbn; rewrite ?lookup_insert_ne by done; rewrite Ha; tauto.
Qed.

Lemma cow_slot vs ans m G H x :
  run_ok vs ans m G H -> in_slot (mm_words m0) P x -> slot_addr x ∉ vs -> room [slot_addr x] vs ->
  exists o m' G' H', clone_answer C x m = Ok (o, m') /\ run_ok (slot_addr x :: vs) (note (slot_addr x) o ans) m' G' H'.
Proof.
  intros [HI Ha] Hx Hn Hroom; destruct (slot_page x Hx) as [Hv Hpg]; destruct x as [[[[l4 l3] l2] pt] l1] eqn:Ex; rewrite <- Ex in *.
  assert (Hin : 0 <= l1 < 512 /\ reach (mm_words m0) (slot_addr x) 4 P 1 pt /\ idx 1 (slot_addr x) = l1).
  { rewrite Ex in *; destruct Hx as (H4 & H3 & H2 & H1 & Hp); split_and!; try done; try lia.
    cbn [slot_addr]; apply (idx_clone_addr l4 l3 l2 l1); lia. }
  destruct Hin as (H1 & Hp & Ei); assert (Eu : clone_answer C x m = clone_answer C (l4, l3, l2, pt, l1) m) by (by rewrite Ex).
  rewrite Eu; unfold clone_answer; rewrite <- Ex; clear Eu; set (v := slot_addr x) in *; clearbody v; clear Ex Hx x.
  assert (Hans : ans !! v = None) by (destruct (ans !! v) eqn:E; [|done]; destruct (proj1 (Ha v)) as [? _]; [eauto|done]).
  set (e := entry_at (mm_words m0) pt (idx 1 v)).
  assert (Ee : get_entry pt l1 m = e).
  { unfold get_entry; rewrite <- Ei, (ci_parent _ _ _ _ _ HI v pt Hv Hp); cbv zeta; by rewrite Hpg, decide_False. }
  assert (Hw : walk (mm_words m0) P v = if has_flag e PT_PRESENT then Some (1%nat, e) else None).
  { unfold walk; rewrite (walk_reach _ _ _ _ _ _ Hp); cbn [walk_from]; fold e; by case_match. }
  cbv zeta; rewrite Ee; destruct (user_page e) eqn:Eu.
  2: { exists None, m, G, H; split; [done|]; split.
       - apply (cow_skip vs ans m G H v pt); try done; [unfold parent_after; fold e; by rewrite Eu|].
         intros p; unfold sharing; rewrite Hw; case_match; [by rewrite Eu|done].
       - apply note_visited; [done|]; unfold visible; rewrite Hw; split; [by intros []|]; case_match; congruence. }
  assert (Hpres : has_flag e PT_PRESENT = true) by (unfold user_page in Eu; by apply andb_true_iff in Eu as [? _]).
  rewrite Hpres in Hw; assert (Hvis : visible v = true) by (unfold visible; by rewrite Hw).
  assert (Hmid : exists m1 G1 H1', (match private v e with
        | None => Ok m
        | Some p => s ← ps_ref p (mm_pages m); Ok (with_st s (if has_flag e PT_RW then set_entry pt l1 (cow_entry e) m else m))
        end) = Ok m1 /\ cow_inv (v :: vs) ans m1 G1 H1').
  { destruct (private v e) as [p|] eqn:Epr.
    - assert (Hsh : sharing p v = true) by (unfold sharing; rewrite Hw, Eu, Epr; by rewrite bool_decide_true).
      destruct (Hpages p v Hv Hsh) as [n Hp0]; pose proof (Hroom p n Hp0) as Hr.
      specialize (Hr ltac:(rewrite sharers_cons, Hsh; lia)).
      destruct (cow_write vs ans m G H v pt p n HI Hv Hpg Hn Hp Hw Eu Epr Hp0) as (s' & Es & HI').
      { rewrite sharers_cons in *; unfold sharers in Hr at 1; cbn in Hr; lia. }
      rewrite Es; mstep; rewrite <- Ei; eauto.
    - exists m, G, H; split; [done|]; apply (cow_skip vs ans m G H v pt); try done.
      + unfold parent_after; fold e; by rewrite Eu, Epr.
      + intros p; unfold sharing; rewrite Hw, Eu, Epr; cbn [andb]; by rewrite bool_decide_false. }
  destruct Hmid as (m1 & G1 & H1' & -> & HI1); mstep.
  destruct (cow_map (v :: vs) ans m1 G1 H1' v e HI1 Hv Hpg Hw Hans) as (r & m' & G' & H' & -> & HI'); mstep.
  exists (Some r), m', G', H'; split; [done|]; split; [done|]; apply note_visited; [done|]; split; eauto.
Qed.

(** ** The loops *)

Fixpoint clone_run (L : list slot) (ans : gmap Z Z) (m : mmu St) : res (gmap Z Z * mmu St) :=
  match L with
  | [] => Ok (ans, m)
  | x :: L => '(o, m) ← clone_answer C x m; clone_run L (note (slot_addr x) o ans) m
  end.

(** The pages of [L] are pages of the parent, each once, and were not visited. *)
Record ready (L : list slot) (vs : list Z) : Prop := {
  rd_nodup : NoDup (slot_addr <$> L);
  rd_slots x : x ∈ L -> in_slot (mm_words m0) P x /\ slot_addr x ∉ vs;
  rd_room : room (slot_addr <$> L) vs
}.

(** [f] does what cloning the entries [L] one after the other does. *)
Definition visits (f : mmu St -> res (mmu St)) (L : list slot) : Prop :=
  forall vs ans m G H, run_ok vs ans m G H -> ready L vs ->
    exists ans' m' G' H', f m = Ok m' /\ clone_run L ans m = Ok (ans', m') /\
      run_ok (reverse (slot_addr <$> L) ++ vs) ans' m' G' H'.

Lemma sharers_app p a b : sharers p (a ++ b) = (sharers p a + sharers p b)%nat.
Proof. unfold sharers; by rewrite filter_app, length_app. Qed.

Lemma sharers_reverse p a : sharers p (reverse a) = sharers p a.
Proof. induction a as [|v a IH]; [done|]; rewrite reverse_cons, sharers_app, IH, !sharers_cons; unfold sharers; cbn; lia. Qed.

Lemma ready_app A B vs : ready (A ++ B) vs -> ready A vs /\ ready B (reverse (slot_addr <$> A) ++ vs).
Proof.
  intros [R1 R2 R3]; rewrite fmap_app in R1, R3; apply NoDup_app in R1 as (N1 & Nd & N2); split; split; try done.
  - intros x Hx; apply R2; set_solver.
  - intros p n Hp; specialize (R3 p n Hp); rewrite sharers_app in R3; lia.
  - intros x Hx; destruct (R2 x) as [Hs Hn]; [set_solver|]; split; [done|]; rewrite not_elem_of_app, elem_of_reverse; split; [|done].
    intros Hin; apply (Nd _ Hin); by apply list_elem_of_fmap_2.
  - intros p n Hp; specialize (R3 p n Hp); rewrite sharers_app in *; rewrite sharers_reverse; lia.
Qed.

Lemma clone_run_app A B ans m : clone_run (A ++ B) ans m = ('(ans, m) ← clone_run A ans m; clone_run B ans m).
Proof.
  revert ans m; induction A as [|x A IH]; intros ans m; [done|]; cbn [clone_run app].
  destruct (clone_answer C x m) as [[o m1]| |]; mstep; [apply IH|done|done].
Qed.

Lemma visits_nil : visits Ok [].
Proof. intros vs ans m G H Hr _; exists ans, m, G, H; by split_and!. Qed.

Lemma visits_app f g A B : visits f A -> visits g B -> visits (fun m => m ← f m; g m) (A ++ B).
Proof.
  intros Hf Hg vs ans m G H Hr [HA HB]%ready_app.
  destruct (Hf vs ans m G H Hr HA) as (ans1 & m1 & G1 & H1 & -> & E1 & Hr1); mstep.
  destruct (Hg _ ans1 m1 G1 H1 Hr1 HB) as (ans2 & m2 & G2 & H2 & -> & E2 & Hr2).
  exists ans2, m2, G2, H2; split; [done|]; split; [rewrite clone_run_app, E1; by mstep|].
  by rewrite fmap_app, reverse_app, <- (assoc_L (++)).
Qed.

Lemma visits_slot l4 l3 l2 pt l1 : visits (clone_page vma_shared cpu C l4 l3 l2 pt l1) [(l4, l3, l2, pt, l1)].
Proof.
  intros vs ans m G H Hr [R1 R2 R3]; destruct (R2 (l4, l3, l2, pt, l1)) as [Hx Hn]; [by left|].
  destruct (cow_slot vs ans m G H _ Hr Hx Hn R3) as (o & m' & G' & H' & E & Hr'); exists (note (clone_addr l4 l3 l2 l1) o ans), m', G', H'.
  rewrite (clone_page_answer C l4 l3 l2 pt l1 m H) by apply Hr; rewrite E; mstep; cbn [clone_run]; rewrite E; by mstep.
Qed.

Lemma visits_for f g n i :
  (forall j, i <= j < i + Z.of_nat n -> visits (f j) (g j)) -> visits (for_up n i f) (mjoin (g <$> seqZ i (Z.of_nat n))).
Proof.
  revert i; induction n as [|n IH]; intros i Hf; [apply visits_nil|].
  rewrite seqZ_cons by lia; replace (Z.pred (Z.of_nat (S n))) with (Z.of_nat n) by lia; cbn [fmap list_fmap mjoin list_join].
  cbn [for_up]; apply (visits_app (f i)); [apply Hf; lia|]; rewrite <- Z.add_1_r; apply IH; intros j Hj; apply Hf; lia.
Qed.

Lemma join_singletons {A} (g : Z -> A) L : mjoin ((fun j => [g j]) <$> L) = g <$> L.
Proof. induction L as [|j L IH]; [done|]; exact (f_equal (cons (g j)) IH). Qed.

Lemma visits_pt l4 l3 l2 pt : visits (clone_pt vma_shared cpu C l4 l3 l2 pt) (pt_slots l4 l3 l2 pt).
Proof.
  unfold clone_pt, pt_slots; rewrite <- join_singletons; apply (visits_for _ _ 512); intros l1 _; apply visits_slot.
Qed.

Lemma visits_enter body huge f l t i v :
  (0 < l)%nat -> user v -> reach (mm_words m0) v 4 P (S l) t -> idx (S l) v = i ->
  (forall e, has_flag e PT_PRESENT && negb (has_flag e huge) = descends (S l) e) ->
  (let e := entry_at (mm_words m0) t i in descends (S l) e = true -> visits (body (p2table e)) (f i (p2table e))) ->
  visits (clone_enter body huge t i) (under (mm_words m0) (S l) t f i).
Proof.
  intros Hl Hv Hp <- Hh Hb vs ans m G H Hr Hrd; pose proof (ci_tables _ _ _ _ _ (proj1 Hr)) as HT.
  assert (HP : G !! P = Some 4%nat) by (eapply lookup_weaken; [exact P0|apply Hr]).
  assert (Hpm : reach (mm_words m) v 4 P (S l) t) by (eapply ci_reach; [apply Hr|done|done]).
  assert (Ee : get_entry t (idx (S l) v) m = entry_at (mm_words m0) t (idx (S l) v)).
  { apply (ci_upper _ _ _ _ _ (proj1 Hr) v (S l)); auto using idx_range; lia. }
  unfold clone_enter, under in *; cbv zeta in *; rewrite Ee; set (e := entry_at (mm_words m0) t (idx (S l) v)) in *.
  specialize (Hh e); destruct (descends (S l) e) eqn:Ed.
  - apply andb_true_iff in Hh as [-> Hh]; apply negb_true_iff in Hh as ->; cbn [negb orb].
    pose proof (reach_table _ _ _ _ _ _ (to_linked _ _ _ HT) HP Hv Hpm) as Ht.
    assert (Hc : G !! p2table e = Some l).
    { rewrite <- Ee; apply (lk_child _ _ (to_linked _ _ _ HT) t l); [done|done|by apply user_idx|]. by unfold get_entry in Ee; rewrite Ee. }
    rewrite (frame_valid m H (p2table e) (to_pages _ _ _ HT)) by (by eapply to_frame); mstep; cbn [negb].
    exact (Hb eq_refl vs ans m G H Hr Hrd).
  - replace (negb (has_flag e PT_PRESENT) || has_flag e huge) with true by (destruct (has_flag e PT_PRESENT), (has_flag e huge); done).
    exact (visits_nil vs ans m G H Hr Hrd).
Qed.

Lemma visits_pd l4 l3 pd :
  0 <= l4 < 256 -> 0 <= l3 < 512 -> reach (mm_words m0) (clone_addr l4 l3 0 0) 4 P 2 pd ->
  visits (clone_pd vma_shared cpu C l4 l3 pd) (pd_slots (mm_words m0) l4 l3 pd).
Proof.
  intros H4 H3 Hp; apply (visits_for _ _ 512); intros l2 Hl2; change (Z.of_nat 512) with 512 in Hl2.
  destruct (idx_clone_addr l4 l3 l2 0) as (E4 & E3 & E2 & E1); [lia..|].
  destruct (idx_clone_addr l4 l3 0 0) as (F4 & F3 & _ & _); [lia..|].
  apply (visits_enter _ _ _ 1 pd l2 (clone_addr l4 l3 l2 0)); [lia|unfold user; lia| |done|intros; by apply huge_descends|intros; apply visits_pt].
  eapply reach_same_down; [exact Hp|]; intros j Hj; destruct (decide (j = 3%nat)) as [->|]; [congruence|].
  assert (j = 4%nat) as -> by lia; congruence.
Qed.

Lemma visits_pdpt l4 pdpt :
  0 <= l4 < 256 -> reach (mm_words m0) (clone_addr l4 0 0 0) 4 P 3 pdpt ->
  visits (clone_pdpt vma_shared cpu C l4 pdpt) (pdpt_slots (mm_words m0) l4 pdpt).
Proof.
  intros H4 Hp; apply (visits_for _ _ 512); intros l3 Hl3; change (Z.of_nat 512) with 512 in Hl3.
  destruct (idx_clone_addr l4 l3 0 0) as (E4 & E3 & E2 & E1); [lia..|].
  destruct (idx_clone_addr l4 0 0 0) as (F4 & _ & _ & _); [lia..|].
  assert (Hp' : reach (mm_words m0) (clone_addr l4 l3 0 0) 4 P 3 pdpt).
  { eapply reach_same_down; [exact Hp|]; intros j Hj; assert (j = 4%nat) as -> by lia; congruence. }
  apply (visits_enter _ _ _ 2 pdpt l3 (clone_addr l4 l3 0 0)); [lia|unfold user; lia|done|done|intros; by apply huge_descends|].
  intros e Hd; apply visits_pd; [lia|lia|]; pose proof (reach_down _ _ _ _ _ _ Hp' ltac:(lia)) as Hr; rewrite E3 in Hr; by apply Hr.
Qed.

Lemma visits_root :
  visits (for_up 256 0 (fun l4 => clone_enter (clone_pdpt vma_shared cpu C l4) 0 P l4)) (root_slots (mm_words m0) P).
Proof.
  apply (visits_for _ _ 256); intros l4 Hl4; change (Z.of_nat 256) with 256 in Hl4.
  destruct (idx_clone_addr l4 0 0 0) as (E4 & _ & _ & _); [lia..|].
  apply (visits_enter _ _ _ 3 P l4 (clone_addr l4 0 0 0)); [lia|unfold user; lia|constructor|done|..].
  - intros e; unfold descends; rewrite bool_decide_false by auto; cbn [andb negb]; f_equal; unfold has_flag.
    by rewrite Z.land_0_r.
  - intros e Hd; apply visits_pdpt; [lia|].
    pose proof (reach_down _ _ _ _ _ _ (reach_here (mm_words m0) (clone_addr l4 0 0 0) 4 P) ltac:(lia)) as Hr; rewrite E4 in Hr; by apply Hr.
Qed.

(** ** The whole *)

Definition pages : list Z := slot_addr <$> root_slots (mm_words m0) P.

Lemma parent_present v e : has_flag (parent_after v e) PT_PRESENT = has_flag e PT_PRESENT.
Proof.
  unfold parent_after, user_page; destruct (has_flag e PT_PRESENT) eqn:E; cbn [andb]; [|done].
  destruct (has_flag e PT_USER); [|done]; destruct (private v e); [by apply cow_present|done].
Qed.

Lemma cow_parent vs ans m G H v :
  cow_inv vs ans m G H -> (forall u pt, user u -> reach (mm_words m0) u 4 P 1 pt -> page_of u ∈ vs) -> user v ->
  walk (mm_words m) P v =
    match walk (mm_words m0) P v with Some (1%nat, e) => Some (1%nat, parent_after (page_of v) e) | r => r end.
Proof.
  intros HI Hall Hv; unfold walk.
  destruct (walk_upper (mm_words m0) (mm_words m) v 4 P) as [[pt Hp]|[E Hn]]; [lia|..].
  { intros l1 t1 Hl1 Hp1; apply (ci_upper _ _ _ _ _ HI v l1); auto using idx_range; lia. }
  - rewrite (walk_reach _ _ _ _ _ _ Hp), (walk_reach _ _ _ _ _ _ (ci_reach _ _ _ _ _ _ _ _ HI Hv Hp)); cbn [walk_from].
    rewrite (ci_parent _ _ _ _ _ HI v pt Hv Hp); cbv zeta; rewrite decide_True by (by eapply Hall).
    rewrite parent_present; set (e := entry_at (mm_words m0) pt (idx 1 v)); by destruct (has_flag e PT_PRESENT).
  - rewrite E; destruct (walk_from 4 (mm_words m0) P v) as [[[|[|l]] e]|]; try done; by destruct (Hn e).
Qed.

(** What a fork leaves: the parent's pages of user space that are not shared have lost the
    right to write, the child has each of them, with the same frame, unless the call for it
    was refused, every frame has a reference more for each of its pages, and no other
    context has changed. *)
Record cloned (ans : gmap Z Z) m' (G' H' : gmap Z nat) : Prop := {
  cd_tables : tables_ok m' G' H';
  cd_grow : G0 ⊆ G';
  cd_parent v : user v -> walk (mm_words m') P v =
    match walk (mm_words m0) P v with Some (1%nat, e) => Some (1%nat, parent_after (page_of v) e) | r => r end;
  cd_child v : user v -> walk (mm_words m') C v =
    if visible v then if decide (ans !! page_of v = Some 0) then child_of (page_of v) (walk (mm_words m0) P v) else walk (mm_words m0) C v
    else walk (mm_words m0) C v;
  cd_answers v : user v -> visible v = true -> is_Some (ans !! page_of v);
  cd_others root v : G0 !! root = Some 4%nat -> root ≠ P -> root ≠ C -> user v ->
    walk (mm_words m') root v = walk (mm_words m0) root v;
  cd_refs p n : H0 !! p = Some (S n) -> H' !! p = Some (S n + sharers p pages)%nat;
  cd_pages : pages_kept H0 (mm_words m0) (mm_words m');
  cd_ctxs : mm_ctxs m' = mm_ctxs m0 /\ mm_kernel m' = mm_kernel m0;
  cd_flush : Z.land (mm_cr3 m0) PT_ADDR_MASK = P -> exists l, mm_log m' = FlushAll :: l
}.

Lemma visible_page v : visible (page_of v) = visible v.
Proof. unfold visible; by rewrite (walk_same_down _ _ v) by (intros j Hj; symmetry; by apply page_of_same). Qed.

Lemma clone_ok pctx cctx :
  pctx ≠ 0 -> cctx ≠ 0 -> pml4_of pctx m0 = Ok P -> pml4_of cctx m0 = Ok C -> room pages [] ->
  exists ans m1 m' G' H', clone_run (root_slots (mm_words m0) P) ∅ m0 = Ok (ans, m1) /\
    mmu_clone_user_cow vma_shared cpu pctx cctx m0 = Ok (0, m') /\ mm_words m' = mm_words m1 /\ cloned ans m' G' H'.
Proof.
  intros Hp0 Hc0 Hp Hc Hroom.
  destruct (visits_root [] ∅ m0 G0 H0) as (ans & m1 & G' & H' & E & Er & [HI Ha]).
  { split; [apply cow_start|]; intros v; rewrite lookup_empty; split; [by intros []|]; by intros [?%elem_of_nil _]. }
  { split; [apply root_addrs_nodup| |done]; intros x Hx; split; [by apply elem_root_slots|by intros ?%elem_of_nil]. }
  fold pages in HI, Ha; rewrite app_nil_r in HI, Ha.
  assert (Hall : forall u pt, user u -> reach (mm_words m0) u 4 P 1 pt -> page_of u ∈ reverse pages).
  { intros u pt Hu Hpu; apply elem_of_reverse; by eapply page_in_slots. }
  exists ans, m1; unfold mmu_clone_user_cow; rewrite decide_False by tauto; rewrite Hp; mstep; rewrite Hc; mstep; rewrite E; mstep.
  eexists _, G', H'; split; [done|]; split; [done|]; set (m' := if decide _ then _ else _).
  assert (Hf : mm_pages m' = mm_pages m1 /\ mm_words m' = mm_words m1) by (unfold m'; by case_decide); destruct Hf as [F1 F2].
  split; [done|]; split; rewrite ?F2.
  - eapply tables_ok_ext; [exact F1|exact F2|apply HI].
  - apply HI.
  - intros v Hv; by eapply cow_parent.
  - intros v Hv; rewrite (ci_child _ _ _ _ _ HI v Hv); destruct (visible v) eqn:Ev; [done|]; rewrite decide_False; [done|].
    intros Hx; destruct (proj1 (Ha (page_of v))) as [_ Hvis]; [eauto|]; rewrite visible_page in Hvis; congruence.
  - intros v Hv Hvis; apply Ha; rewrite visible_page; split; [|done]; unfold visible in Hvis.
    destruct (walk_upper (mm_words m0) (mm_words m0) v 4 P) as [[pt Hpt]|[_ Hn]]; [lia|done|by eapply Hall|].
    destruct (walk (mm_words m0) P v) as [[[|[|l]] e]|] eqn:Ew; try done; by destruct (Hn e).
  - apply HI.
  - intros p n Hpn; rewrite (ci_refs _ _ _ _ _ HI p n Hpn); by rewrite sharers_reverse.
  - apply HI.
  - destruct (ci_cpu _ _ _ _ _ HI) as [C1 C2 _ _ _ _]; unfold m'; case_decide; by rewrite <- C1, <- C2.
  - intros Hact; unfold m'; rewrite decide_True by (by rewrite (sc_cr3 _ _ (ci_cpu _ _ _ _ _ HI))); by eexists.
Qed.

End run.

End cow.
