(* ===== verification/MmuTheorems.v ===== *)
(** * Page tables: the theorems

    What mem/mmu.c does for the user half of an address space: mapping, unmapping,
    translation, the life of a context, sharing on fork, and all but the last together from
    boot. *)

From stdpp Require Import base tactics option list numbers gmap.
From Stdlib Require Import ZArith Lia.
From S2P Require Import Prelude Pmm PmmLists PmmInv PmmSpec PmmTheorems PmmBoot SlabMem Slab PmmHeld.
From S2P Require Import Mmu MmuWalk MmuInv MmuTables MmuMap MmuUnmap MmuLookup MmuCtx MmuPmm MmuSession MmuCow.

Local Open Scope Z_scope.

(** ** From boot *)

(** The machine that enters [mmu_init]: the boot loader's tables are in [words], their root
    in CR3, and [kctx] is the address of [kernel_context]. *)
Definition boot_mmu (s : pmm) (words : gmap Z Z) (kctx cr3 pat : Z) : mmu pmm :=
  Mmu s words ∅ kctx 0 cr3 pat [] (Shootdown 0 0 0).

(** A memory map with an array of pages that [pmm_init] can place, addresses that fit an
    entry, and neither frame 0 nor the root [k] of the boot loader in a usable region. *)
Record loader_map (rs : list pmm_mem_region) (k : Z) : Prop := {
  lm_ok : map_ok rs;
  lm_place : (array_place rs).1 <> 0;
  lm_fits : array_bytes rs <= (array_place rs).2;
  lm_order : array_first rs <= array_end rs;
  lm_range : Z.shiftr (max_paddr_of rs) PMM_PAGE_SHIFT * 4096 <= 2 ^ 52;
  lm_root : 0 < k * 4096 < 2 ^ 52;
  lm_apart r : r ∈ rs -> usable r -> ~ page_in r 0 /\ ~ page_in r k
}.

(** The boot loader keeps the frame of its root. *)
Definition loader_frame (rs : list pmm_mem_region) (k : Z) : BootFrames :=
  {| boot_frame := fun x => x = k; frame_count := Z.shiftr (max_paddr_of rs) PMM_PAGE_SHIFT |}.

Lemma boot_spaces `{Kernel} rs words kctx k pat cpu :
  loader_map rs k -> kctx ≠ 0 ->
  exists s m, pmm_init rs hhdm_offset = Ok s /\ mmu_init cpu None (boot_mmu s words kctx (k * 4096) pat) = Ok m /\
    refines_spaces (FrameLaws0 := pmm_frame_laws (BF := loader_frame rs k)) m ∅ /\
    mm_ctxs m = {[kctx := k * 4096]} /\ mm_kernel m = kctx.
Proof.
  intros [H1 H2 H3 H4 H5 H6 H7] Hk.
  destruct (boot_frames (BF := loader_frame rs k) rs hhdm_offset H1 H2 H3 H4 eq_refl H5) as (s & E & Hs).
  { intros r x Hr Hu [-> | ->]; by apply (H7 r). }
  assert (Em : Z.land (k * 4096) PT_ADDR_MASK = k * 4096) by (apply frame_mask; split; [by exists k|done]).
  destruct (init_ok (FrameLaws0 := pmm_frame_laws (BF := loader_frame rs k)) cpu (boot_mmu s words kctx (k * 4096) pat) Hs eq_refl Hk)
    as (m & Em' & Hm & Hc & Hkk).
  { exists k; split_and!; [exact Em|lia|done]. }
  exists s, m; cbn in Hc; rewrite Em in Hc; split_and!; done.
Qed.

(** C4: The address spaces of user programs are what the specification says.  After
    [pmm_init] on a usable memory map and [mmu_init] without a frame buffer, any sequence
    of permitted requests on contexts, to create, map, unmap, protect, translate and
    destroy, on any CPUs and for any current process, is served without a fault; the
    answers are those of a store of partial maps from addresses to pages, and after every
    request the walk of the hardware over the tables in memory gives those maps. *)
Theorem mmu_session `{Kernel} (rs : list pmm_mem_region) (words : gmap Z Z) (kctx k pat : Z) (cpu : nat) (qs : list call) :
  loader_map rs k -> kctx ≠ 0 ->
  exists s m, pmm_init rs hhdm_offset = Ok s /\ mmu_init cpu None (boot_mmu s words kctx (k * 4096) pat) = Ok m /\
    (calls_allowed qs m -> exists ans m' A', play qs m = Ok (ans, m') /\ trace ∅ qs ans A' /\
       refines_spaces (FrameLaws0 := pmm_frame_laws (BF := loader_frame rs k)) m' A').
Proof.
  intros Hl Hk; destruct (boot_spaces rs words kctx k pat cpu Hl Hk) as (s & m & E & Em & Hm & _).
  exists s, m; split_and!; [done..|]; intros Ha.
  exact (play_ok (FrameLaws0 := pmm_frame_laws (BF := loader_frame rs k)) qs m ∅ Hm Ha).
Qed.

Section operations.
Context {St : Type} `{!PageSource St} `{!FrameLaws St}.
Implicit Types m : mmu St.

(** C5: [mmu_map_page] on the user half either makes exactly the page's addresses translate
    to the new entry, with every other translation of every context as before and the
    page flushed if the context is in use; or fails because a larger page is in the way
    or because no frame is left for a table, and then all tables are as they were and the
    frames taken on the way are given back; or refuses a large page that is not aligned. *)
Theorem mmu_map_page_spec cpu m (G H : gmap Z nat) (ctx root v phys flags : Z) :
  tables_ok m G H -> G !! root = Some 4%nat -> pml4_of ctx m = Ok root -> user v -> page_aligned v -> page_aligned phys ->
  exists r m', mmu_map_page cpu ctx v phys flags m = Ok (r, m') /\ map_result cpu root v phys flags m G H r m'.
Proof.
  apply map_context_ok.
Qed.


(** The context in which [mmu_virt_to_phys] looks an address up: the one given, but the
    one of the running process, if it has one, when the kernel's is given for an address
    below its half. *)
Definition looked_up m (proc ctx v c : Z) : Prop :=
  ctx ≠ mm_kernel m /\ c = ctx \/
  ctx = mm_kernel m /\ v < 0xFFFF800000000000 /\ proc ≠ 0 /\ c = proc.

(** C8: for an address of the user half [mmu_virt_to_phys] gives the physical address that
    the walk of the hardware gives, for pages of all three sizes, and 0 if the address is
    not mapped.  The context given has a top-level table.  The walk is that of its own
    tables, or, when it is the kernel's context and the running process has a context,
    of the tables of that one.  (Without a running process the kernel's context is looked
    up itself; the theorem does not cover that, nor the kernel half.) *)
Theorem mmu_virt_to_phys_walk m (G H : gmap Z nat) (proc ctx c r0 root v : Z) :
  tables_ok m G H -> G !! root = Some 4%nat -> pml4_of ctx m = Ok r0 -> r0 ≠ 0 ->
  looked_up m proc ctx v c -> pml4_of c m = Ok root -> user v ->
  mmu_virt_to_phys proc ctx v m = Ok (translation (walk (mm_words m) root v) v).
Proof.
  intros HT Hr Hc Hr0 Hl Hcr Hv; assert (root ≠ 0) by (by eapply root_nonzero).
  unfold mmu_virt_to_phys; rewrite Hc; mstep; cbv zeta; rewrite (decide_False (P := r0 = 0)) by done.
  assert ((if decide (v < 0xFFFF800000000000 /\ ctx = mm_kernel m /\ proc ≠ 0) then proc else ctx) = c) as ->
    by (case_decide; destruct Hl as [[? ->]|(? & ? & ? & ->)]; tauto).
  rewrite Hcr; mstep; rewrite decide_False by done; by apply (translate_ok m G H).
Qed.

(** C9: [mmu_destroy_context] gives back each table of the context's user half once, and no
    other frame: the tables of other contexts stay allocated and their translations stay
    as they are.  If the context was in use, CR3 is the kernel's root afterwards. *)
Theorem mmu_destroy_context_frees cpu m (G H : gmap Z nat) (ctx root kroot : Z) :
  tables_ok m G H -> G !! root = Some 4%nat -> pml4_of ctx m = Ok root -> ctx ≠ 0 -> ctx ≠ mm_kernel m ->
  pml4_of (mm_kernel m) m = Ok kroot -> kroot ≠ 0 -> kroot ≠ root ->
  let ts := subtree (mm_words m) 4 root in
  exists m', mmu_destroy_context cpu ctx m = Ok m' /\ NoDup ts /\ (forall t, t ∈ ts -> is_Some (G !! t)) /\
    tables_ok m' (without G ts) (less H ts) /\ mm_ctxs m' !! ctx = None /\
    (forall root' v, G !! root' = Some 4%nat -> root' ≠ root ->
       without G ts !! root' = Some 4%nat /\ walk (mm_words m') root' v = walk (mm_words m) root' v) /\
    (Z.land (mm_cr3 m) PT_ADDR_MASK = root -> mm_cr3 m' = kroot).
Proof.
  intros HT Hr Hc Hc0 Hck Hk Hk0 Hkr ts; assert (root ≠ 0) by (by eapply root_nonzero).
  destruct (destroy_pml4_ok cpu m G H root kroot HT Hr Hk Hk0 Hkr) as (m1 & E & [E1 E2 E3 E4 E5]).
  unfold mmu_destroy_context; rewrite Hc; mstep; rewrite decide_False by tauto; rewrite E; mstep.
  eexists; split; [done|]; split_and!.
  - by eapply subtree_nodup; [apply HT|].
  - intros t Ht; destruct (subtree_table _ G _ _ _ (to_linked _ _ _ HT) Hr Ht) as (l & ? & _); eauto.
  - by eapply tables_ok_ext; [..|exact E1].
  - cbn; apply lookup_delete_eq.
  - intros root' v Hr' Hn; split; [by apply destroyed_others; [apply HT|..]|cbn; by rewrite E2].
  - intros Ha; cbn; rewrite E3; by rewrite decide_True.
Qed.

(** C7: [mmu_clone_user_cow] makes the child share the parent's pages.  The loops visit every
    entry of every page table of the parent once, in the order of addresses.  Afterwards
    every small page of user space that is not shared has lost the right to write in the
    parent and is marked for copying; the child has each small page of user space, at the
    same frame and read-only where it is to be copied, unless the call of
    [mmu_map_page_unlocked] for it, whose answers are [ans], was refused; each frame has
    one more reference for every page that is copied on a write; nothing else has changed
    in any context, and the TLB is flushed if the parent is in use. *)
Theorem mmu_clone_user_cow_spec `{!PageRefs St} `{!RefLaws St} (vma_shared : Z -> bool) (cpu : nat) m (G H : gmap Z nat)
    (pctx cctx P C : Z) :
  tables_ok m G H -> G !! P = Some 4%nat -> G !! C = Some 4%nat -> P ≠ C ->
  pctx ≠ 0 -> cctx ≠ 0 -> pml4_of pctx m = Ok P -> pml4_of cctx m = Ok C ->
  (forall p v, user v -> sharing vma_shared m P p v = true -> exists n, H !! p = Some (S n)) ->
  room vma_shared m H P (pages m P) [] ->
  exists ans m1 m' G' H', clone_run vma_shared cpu C (root_slots (mm_words m) P) ∅ m = Ok (ans, m1) /\
    mmu_clone_user_cow vma_shared cpu pctx cctx m = Ok (0, m') /\ mm_words m' = mm_words m1 /\
    cloned vma_shared m G H P C ans m' G' H' /\
    forall v e p, user_page e = true -> private vma_shared v e = Some p ->
      has_flag (parent_after vma_shared v e) PT_RW = false /\ has_flag (child_entry vma_shared v e) PT_RW = false /\
      Z.land (parent_after vma_shared v e) PT_ADDR_MASK = Z.land e PT_ADDR_MASK /\
      Z.land (child_entry vma_shared v e) PT_ADDR_MASK = Z.land e PT_ADDR_MASK.
Proof.
  intros HT HP HC HPC Hp0 Hc0 Hp Hc Hpg Hroom.
  destruct (clone_ok vma_shared cpu m G H P C HT HP HC HPC Hpg pctx cctx Hp0 Hc0 Hp Hc Hroom) as (ans & m1 & m' & G' & H' & E1 & E2 & E3 & HD).
  exists ans, m1, m', G', H'; split_and!; try done; apply cow_readonly.
Qed.

(** A page of 2 MiB outside the page allocator's range, of a device say, cannot be unmapped:
    the call answers 0 and does nothing. *)
Lemma mmu_unmap_device_kept cpu m (G H : gmap Z nat) (ctx root v e : Z) :
  tables_ok m G H -> G !! root = Some 4%nat -> pml4_of ctx m = Ok root -> user v -> page_aligned v -> dirty_ok m root v ->
  walk (mm_words m) root v = Some (2%nat, e) -> ps_paddr_to_page (mm_pages m) (p2table e) = None ->
  mmu_unmap_page cpu ctx v m = Ok (0, m).
Proof.
  intros HT Hr Hc Hv Ha Hd Hw Hp; unfold mmu_unmap_page; rewrite Hc; mstep.
  rewrite decide_False by (intros [?|?]; [by eapply root_nonzero|done]).
  destruct (unmap_page_ok cpu m G H root v HT Hr Hv Hd) as (r & m' & -> & HU); unfold unmap_result in HU; rewrite Hw in HU.
  destruct HU as [-> HU]; unfold is_valid_table_phys in HU; rewrite Hp in HU; by destruct (decide _) in HU; subst.
Qed.

End operations.

(** ** A small machine *)

Section demo.

#[local] Instance tiny_kernel : Kernel := {
  hhdm_offset := 0xffff800000000000;
  bootstrap_caches := 0xffffffff80200000;
  bootstrap_magazines := 0xffffffff80300000;
  call_fn := fun _ _ _ m => m
}.

Definition tiny_ram : list pmm_mem_region := [Region 0x1000 0x20000 1].
Definition tiny_ctx : Z := 0xffffffff80400000.
Definition tiny_root : Z := 0x300.

Lemma tiny_loader : loader_map tiny_ram tiny_root.
Proof.
  split; [|by vm_compute..|].
  - split; [|done]; intros _; split; [unfold region_ok; cbn; lia|]; intros r Hr; by apply elem_of_nil in Hr.
  - intros r Hr _; apply list_elem_of_singleton in Hr as ->; unfold page_in, tiny_root, PMM_PAGE_SIZE; cbn; lia.
Qed.

#[local] Instance tiny_laws : FrameLaws pmm := pmm_frame_laws (BF := loader_frame tiny_ram tiny_root).

(** [f] on the machine after boot. *)
Definition tiny_mmu {X} (f : mmu pmm -> res X) : res X :=
  s ← pmm_init tiny_ram hhdm_offset; m ← mmu_init 0 None (boot_mmu s ∅ tiny_ctx (tiny_root * 4096) 0); f m.

Lemma tiny_mmu_inv {X} (f : mmu pmm -> res X) (x : X) : tiny_mmu f = Ok x ->
  exists s m, pmm_init tiny_ram hhdm_offset = Ok s /\ mmu_init 0 None (boot_mmu s ∅ tiny_ctx (tiny_root * 4096) 0) = Ok m /\
    f m = Ok x /\ refines_spaces m ∅ /\ mm_ctxs m = {[tiny_ctx := tiny_root * 4096]} /\ mm_kernel m = tiny_ctx.
Proof.
  assert (Hk : tiny_ctx ≠ 0) by (unfold tiny_ctx; lia).
  destruct (boot_spaces tiny_ram ∅ tiny_ctx tiny_root 0 0 tiny_loader Hk) as (s & m & E1 & E2 & Hm & Hc & Hkk).
  intros Hf; unfold tiny_mmu in Hf; rewrite E1 in Hf; cbn [mbind res_bind] in Hf; rewrite E2 in Hf; cbn [mbind res_bind] in Hf.
  exists s, m; split_and!; [exact E1|exact E2|exact Hf|exact Hm|exact Hc|exact Hkk].
Qed.

(** A context with a small and a large page, and its end. *)
Definition tiny_calls : list call :=
  (fun q => (0%nat, 0, q)) <$>
  [MCreate 0xC000; MMap 0xC000 0x400000 0x7000 (Z.lor MMU_PROT_WRITE MMU_PROT_USER); MTranslate 0xC000 0x400123;
   MMap 0xC000 0x600000 0x200000 MMU_FLAG_HUGE_2M; MTranslate 0xC000 0x612345; MProtect 0xC000 0x400000 MMU_PROT_USER;
   MUnmap 0xC000 0x400000; MTranslate 0xC000 0x400123; MUnmap 0xC000 0x600000; MTranslate 0xC000 0x612345;
   MMap 0xC000 0x600000 0x7000 0; MDestroy 0xC000].

Lemma tiny_calls_run :
  tiny_mmu (fun m => '(ans, _) ← play tiny_calls m; Ok (calls_check tiny_calls m, ans)) =
  Ok (true, [0xC000; 0; 0x7123; 0; 0x212345; 0; 0; 0; 0; 0x212345; - EEXIST; 0]).
Proof. by vm_compute. Qed.

Lemma tiny_created :
  tiny_mmu (fun m => '(r, _) ← serve_call 0 0 (MCreate 0xC000) m; Ok r) = Ok 0xC000.
Proof. by vm_compute. Qed.

(** The state after the first call. *)
Lemma tiny_space : exists m G H root,
  tables_ok m G H /\ G !! root = Some 4%nat /\ pml4_of 0xC000 m = Ok root /\ mm_kernel m ≠ 0xC000 /\
  (forall v, user v -> walk (mm_words m) root v = None) /\
  exists kroot, pml4_of (mm_kernel m) m = Ok kroot /\ kroot ≠ 0 /\ kroot ≠ root.
Proof.
  destruct (tiny_mmu_inv _ _ tiny_created) as (s & m & _ & _ & E & Hm & Hc & Hk).
  assert (Hp : permitted m (MCreate 0xC000)).
  { split; [done|]; rewrite Hc; by rewrite lookup_singleton_ne by (unfold tiny_ctx; lia). }
  destruct (spaces_serve_ok 0 0 m ∅ _ Hm Hp) as (r & m' & A' & E' & Ha & Hm'); rewrite E' in E; injection E as ->.
  destruct Ha as [[? _]|[_ ->]]; [lia|]; destruct Hm' as (G & H & k & HH); exists m', G, H.
  pose proof HH as [HT (K1 & K2 & K3 & K4) HD HC HI HW].
  destruct (proj1 (HD 0xC000)) as [Hs Hn]; [rewrite lookup_insert_eq; eauto|].
  destruct (live_root m' G H k _ 0xC000 HH Hn Hs) as (f & root & Hf & Hr & Hc0 & Hg & Hp' & Hr0 & Hw).
  rewrite lookup_insert_eq in Hf; injection Hf as <-; exists root; split_and!; try done.
  exists (k * 4096); split_and!; [unfold pml4_of; by rewrite decide_False, K2|lia|].
  destruct (to_frame _ _ _ HT _ _ Hg) as (p & g & -> & Hpp & _); intros Ek; assert (p = k) as -> by lia.
  by apply (fr_boot_apart _ _ k (to_pages _ _ _ HT) Hpp).
Qed.

(** Two contexts, the first with one page that can be written. *)
Definition tiny_flags : Z := Z.lor MMU_PROT_WRITE MMU_PROT_USER.

Definition tiny_page (m : mmu pmm) : res (Z * Z * mmu pmm) :=
  '(o, s) ← ps_alloc 0 0 (Z.lor PAGE_FLAG_KERNEL PAGE_FLAG_ZERO) (mm_pages m);
  match o with
  | Some p => '(r, m) ← mmu_map_page 0 0xC000 0x400000 (p * 4096) tiny_flags (with_st s m); Ok (p, r, m)
  | None => Fault
  end.

Definition tiny_pair : list call := [(0%nat, 0, MCreate 0xC000); (0%nat, 0, MCreate 0xD000)].

(** A fork of the first context into the second, and whether the page is there then. *)
Definition tiny_clone (m : mmu pmm) : res (bool * mmu pmm) :=
  '(_, m') ← mmu_clone_user_cow (fun _ => false) 0 0xC000 0xD000 m;
  C ← pml4_of 0xD000 m';
  Ok (bool_decide (is_Some (walk (mm_words m') C 0x400000)), m').

Lemma tiny_pair_run :
  tiny_mmu (fun m => '(ans, m') ← play tiny_pair m; '(_, r, m'') ← tiny_page m'; '(b, _) ← tiny_clone m'';
    Ok (calls_check tiny_pair m, ans, r, b)) = Ok (true, [0xC000; 0xD000], 0, true).
Proof. by vm_compute. Qed.

Lemma tiny_two : exists (m : mmu pmm) G H P C, tables_ok m G H /\ G !! P = Some 4%nat /\ G !! C = Some 4%nat /\ P ≠ C /\
  pml4_of 0xC000 m = Ok P /\ pml4_of 0xD000 m = Ok C /\ 0xC000 ≠ mm_kernel m /\
  (forall v, user v -> walk (mm_words m) P v = None) /\ (forall v, user v -> walk (mm_words m) C v = None) /\
  exists p m' m'', tiny_page m = Ok (p, 0, m') /\ tiny_clone m' = Ok (true, m'').
Proof.
  destruct (tiny_mmu_inv _ _ tiny_pair_run) as (s & m & _ & _ & E & Hm & _ & _).
  assert (Ha : calls_check tiny_pair m = true).
  { destruct (play tiny_pair m) as [[rs m']| |]; cbn [mbind res_bind] in E; [|done..].
    destruct (tiny_page m') as [[[p r] m2]| |]; cbn [mbind res_bind] in E; [|done..].
    destruct (tiny_clone m2) as [[b m3]| |]; cbn [mbind res_bind] in E; congruence. }
  destruct (play_ok tiny_pair m ∅ Hm (calls_check_ok _ _ Ha)) as (rs & m' & A & Ep & Ht & Hm').
  rewrite Ha, Ep in E; cbn [mbind res_bind] in E.
  destruct (tiny_page m') as [[[p r] m2]| |] eqn:Et; cbn [mbind res_bind] in E; [|done..].
  destruct (tiny_clone m2) as [[b m3]| |] eqn:El; cbn [mbind res_bind] in E; [|done..]; injection E as -> -> ->.
  inversion Ht as [|? ? ? ? ? ? ? ? ? Ha1 Ht1]; subst; inversion Ht1 as [|? ? ? ? ? ? ? ? ? Ha2 Ht2]; subst; inversion Ht2; subst.
  destruct Ha1 as [[? _]|[_ ->]]; [lia|]; destruct Ha2 as [[? _]|[_ ->]]; [lia|].
  destruct Hm' as (G & H & k & HH).
  destruct (proj1 (ho_dom _ _ _ _ _ HH 0xC000)) as [HsP HnP]; [rewrite lookup_insert_ne, lookup_insert_eq by lia; eauto|].
  destruct (proj1 (ho_dom _ _ _ _ _ HH 0xD000)) as [HsC HnC]; [rewrite lookup_insert_eq; eauto|].
  destruct (live_root _ _ _ _ _ _ HH HnP HsP) as (f & P & Hf & HrP & _ & HP & HpP & _ & Hw).
  destruct (live_root _ _ _ _ _ _ HH HnC HsC) as (fc & C & Hfc & HrC & _ & HC & HpC & _ & HwC).
  rewrite lookup_insert_ne, lookup_insert_eq in Hf by lia; injection Hf as <-.
  rewrite lookup_insert_eq in Hfc; injection Hfc as <-.
  exists m', G, H, P, C; split_and!; try done; [apply HH| |by exists p, m2, m3].
  intros ->; pose proof (ho_inj _ _ _ _ _ HH _ _ _ HrP HrC HnP HnC); lia.
Qed.

(** The parent of a fork: one page, whose frame has one reference. *)
Lemma tiny_fork : exists (m : mmu pmm) G H P C p, tables_ok m G H /\ G !! P = Some 4%nat /\ G !! C = Some 4%nat /\ P ≠ C /\
  pml4_of 0xC000 m = Ok P /\ pml4_of 0xD000 m = Ok C /\ H !! p = Some 1%nat /\ frame_addr (p * 4096) /\ fr_lookup (p * 4096) = Some p /\
  (forall v, user v -> walk (mm_words m) P v = if decide (page_of v = 0x400000) then Some (1%nat, leaf_entry (p * 4096) tiny_flags) else None) /\
  0xC000 ≠ mm_kernel m /\ walk (mm_words m) C 0x400000 = None /\ exists m', tiny_clone m = Ok (true, m').
Proof.
  destruct tiny_two as (m & G & H & P & C & HT & HP & HC & HPC & HpP & HpC & Hk & Hw & HwC & p & m' & m'' & E & El).
  destruct (fr_alloc_ok (mm_pages m) H 0%nat (to_pages _ _ _ HT)) as (o & s & Ea & Ho).
  unfold tiny_page in E; rewrite Ea in E; cbn [mbind res_bind] in E; destruct o as [q|]; [|done].
  destruct Ho as (Hq & Hok & _ & Hfl); assert (Hq1 : <[q := 0%nat]> H !! q = Some 0%nat) by apply lookup_insert_eq.
  set (m1 := with_st s m) in *.
  assert (HT1 : tables_ok m1 G (<[q := 1%nat]> H)).
  { split; [|intros t l Ht; eapply table_frame_mono; [|by eapply HT]|apply HT].
    - rewrite <- (insert_insert_eq H q 1%nat 0%nat); by apply fr_hand.
    - intros x Hx _; split; [rewrite lookup_insert_ne; congruence|by eapply Hfl]. }
  destruct (map_context_ok 0 m1 G _ 0xC000 P 0x400000 (q * 4096) tiny_flags HT1 HP HpP) as (r & m2 & Em & HM); [done|done|..].
  { unfold page_aligned; change PAGE_MASK with (Z.ones 12); by rewrite Z.land_ones, Z.mod_mul by lia. }
  rewrite Em in E; cbn [mbind res_bind] in E; injection E as <- -> <-.
  destruct HM as [(_ & G' & H' & [D1 D2 D3 D4 D5 D6 D7 _ _])|[(? & _)|[(? & _)|(? & _)]]]; [|done..].
  pose proof (fr_place _ _ _ Hok Hq1) as Hpl.
  assert (Hc : forall ctx root, pml4_of ctx m = Ok root -> pml4_of ctx m2 = Ok root).
  { intros ctx root; unfold pml4_of; by rewrite (sc_ctxs _ _ D6). }
  exists m2, G', H', P, C, q; split_and!; try done; [by eapply lookup_weaken..|by apply Hc|by apply Hc| | | |by rewrite (sc_kernel _ _ D6)| |by exists m''].
  - eapply lookup_weaken; [apply lookup_insert_eq|done].
  - rewrite <- (fr_lookup_ok _ _ (q * 4096) Hok) by (destruct Hpl; lia); by apply (fr_paddr _ _ _ Hok).
  - intros v Hv; clear D7; change 0x400000 with (page_of 0x400000); destruct (decide (page_of v = _)) as [Hd|Hd].
    + apply D4; [done|]; by apply page_of_eq.
    + rewrite D5; [by apply Hw|done..|]; intros [_ Hs]; by apply Hd, eq_sym, page_of_eq.
  - rewrite D5; [by apply HwC|done..|]; intros [-> _]; done.
Qed.

(** The page of [tiny_fork] has the address of its frame, and is a clean page of user space. *)
Lemma tiny_leaf p : frame_addr (p * 4096) -> let e := leaf_entry (p * 4096) tiny_flags in
  Z.land e PT_ADDR_MASK = p * 4096 /\ user_page e = true /\ has_flag e PT_RW = true /\ has_flag e PT_DIRTY = false.
Proof.
  intros Hp e; unfold e, leaf_entry; change (has_flag tiny_flags MMU_FLAG_HUGE_2M) with false; rewrite (frame_mask (p * 4096)) by done.
  unfold user_page, PT_PRESENT, PT_USER, PT_RW, PT_DIRTY; rewrite !has_flag_bit, !Z.lor_spec by lia.
  split_and!; [by apply frame_lor|by rewrite !orb_true_r|by rewrite !orb_true_r|by rewrite frame_low by (done || lia)].
Qed.

(** A page that occurs once is shared once. *)
Lemma one_page (m : mmu pmm) P (vma_shared : Z -> bool) p x :
  (forall v, user v -> sharing vma_shared m P p v = true -> page_of v = x) -> (sharers vma_shared m P p (pages m P) <= 1)%nat.
Proof.
  intros Hx; unfold sharers; set (l := filter _ (pages m P)).
  assert (Hn : NoDup l) by (apply NoDup_filter, root_addrs_nodup).
  assert (Hl : forall v, v ∈ l -> v = x).
  { intros v (Hs & Hv)%list_elem_of_filter; apply list_elem_of_fmap in Hv as (y & -> & Hy).
    apply elem_root_slots, slot_page in Hy as [Hu Hp]; rewrite <- Hp; by apply Hx. }
  destruct l as [|a [|b l]]; cbn; try lia; apply NoDup_cons in Hn as [Hn _]; destruct Hn.
  rewrite (Hl a), (Hl b) by (by repeat constructor); by left.
Qed.

Lemma no_pages (m : mmu pmm) P (vma_shared : Z -> bool) p :
  (forall v, user v -> sharing vma_shared m P p v = false) -> sharers vma_shared m P p (pages m P) = 0%nat.
Proof.
  intros Hn; unfold sharers; destruct (filter _ _) as [|v l] eqn:E; [done|].
  assert (Hv : v ∈ v :: l) by left; rewrite <- E in Hv; apply list_elem_of_filter in Hv as [Hs (y & -> & Hy)%list_elem_of_fmap].
  apply elem_root_slots, slot_page in Hy as [Hu _]; rewrite Hn in Hs; done.
Qed.

(** A parent whose only page is [e] at 0x400000, of frame [p]. *)
Lemma tiny_room (m : mmu pmm) (H : gmap Z nat) P p e :
  H !! p = Some 1%nat -> Z.land e PT_ADDR_MASK = p * 4096 -> fr_lookup (p * 4096) = Some p ->
  (forall v, user v -> walk (mm_words m) P v = if decide (page_of v = 0x400000) then Some (1%nat, e) else None) ->
  (forall q v, user v -> sharing (fun _ => false) m P q v = true -> exists n, H !! q = Some (S n)) /\
  room (fun _ => false) m H P (pages m P) [].
Proof.
  intros Hh Ee Hfl Hw.
  assert (Hsh : forall q v, user v -> sharing (fun _ => false) m P q v = true -> (page_of v = 0x400000) /\ (q = p)).
  { intros q v Hv; unfold sharing; rewrite Hw by done; destruct (decide (page_of v = _)); [|done]; intros [_ Hq]%andb_true_iff.
    apply bool_decide_eq_true in Hq; unfold private in Hq; rewrite Ee, Hfl in Hq; split; [done|congruence]. }
  split; [intros q v Hv Hs; destruct (Hsh q v Hv Hs) as [_ ->]; eauto|].
  intros q n Hq Hs; destruct (decide (q = p)) as [->|Hne].
  - pose proof (one_page m P (fun _ => false) p 0x400000 (fun v Hv Hs => proj1 (Hsh p v Hv Hs))).
    rewrite Hh in Hq; injection Hq as <-; cbn [sharers filter length]; unfold sharers at 2; cbn; lia.
  - destruct Hs; apply no_pages; intros v Hv; destruct (sharing _ _ _ _ _) eqn:Es; [|done]; by destruct (Hsh q v Hv Es).
Qed.

Lemma mmu_clone_user_cow_spec_witness : exists (m m' : mmu pmm) P p e,
  mmu_clone_user_cow (fun _ => false) 0 0xC000 0xD000 m = Ok (0, m') /\
  walk (mm_words m) P 0x400000 = Some (1%nat, e) /\ has_flag e PT_RW = true /\
  walk (mm_words m') P 0x400000 = Some (1%nat, cow_entry e) /\ fr_lookup (Z.land e PT_ADDR_MASK) = Some p.
Proof.
  destruct tiny_fork as (m & G & H & P & C & p & HT & HP & HC & HPC & HpP & HpC & Hh & Hfa & Hfl & Hw & _).
  set (e := leaf_entry (p * 4096) tiny_flags) in *.
  destruct (tiny_leaf p Hfa) as (Ee & Hu & Hrw & _); fold e in Ee, Hu, Hrw.
  destruct (tiny_room m H P p e Hh Ee Hfl Hw) as [Hpg Hroom].
  destruct (mmu_clone_user_cow_spec (fun _ => false) 0 m G H 0xC000 0xD000 P C HT HP HC HPC ltac:(lia) ltac:(lia) HpP HpC Hpg Hroom) as
    (ans & m1 & m' & G' & H' & _ & E & _ & HD & _).
  exists m, m', P, p, e; split; [exact E|]; split; [by rewrite Hw|]; split; [exact Hrw|]; split; [|by rewrite Ee].
  rewrite (cd_parent _ _ _ _ _ _ _ _ _ _ HD) by done; rewrite Hw by done.
  rewrite decide_True by done; unfold parent_after, private; by rewrite Hu, Ee, Hfl.
Defined.

Lemma mmu_session_witness :
  exists s m ans m' A', pmm_init tiny_ram hhdm_offset = Ok s /\
    mmu_init 0 None (boot_mmu s ∅ tiny_ctx (tiny_root * 4096) 0) = Ok m /\
    play tiny_calls m = Ok (ans, m') /\ trace ∅ tiny_calls ans A'.
Proof.
  assert (Hk : tiny_ctx ≠ 0) by (unfold tiny_ctx; lia).
  destruct (mmu_session tiny_ram ∅ tiny_ctx tiny_root 0 0 tiny_calls tiny_loader Hk) as (s & m & E1 & E2 & HS).
  destruct (tiny_mmu_inv _ _ tiny_calls_run) as (s' & m1 & E1' & E2' & E & _).
  assert (s' = s) by congruence; subst s'; assert (m1 = m) by congruence; subst m1.
  assert (Ha : calls_allowed tiny_calls m).
  { apply calls_check_ok; destruct (play tiny_calls m) as [[ans m']| |]; cbn [mbind res_bind] in E; congruence. }
  destruct (HS Ha) as (ans & m' & A' & Ep & Ht & _); exists s, m, ans, m', A'; split_and!; assumption.
Defined.

Lemma tiny_user : user 0x400000.
Proof. done. Qed.

Lemma mmu_map_page_spec_witness : exists m G H root r m',
  mmu_map_page 0 0xC000 0x400000 0x7000 2 m = Ok (r, m') /\ map_result 0 root 0x400000 0x7000 2 m G H r m'.
Proof.
  destruct tiny_space as (m & G & H & root & HT & Hg & Hp & _).
  destruct (mmu_map_page_spec 0 m G H 0xC000 root 0x400000 0x7000 2 HT Hg Hp tiny_user eq_refl eq_refl) as (r & m' & E & HM).
  exists m, G, H, root, r, m'; split; assumption.
Defined.


(** The page of [tiny_fork], through its own context and through the kernel's. *)
Lemma mmu_virt_to_phys_walk_witness : exists (m : mmu pmm) p, 0 < p /\
  mmu_virt_to_phys 0 0xC000 0x400123 m = Ok (Z.lor (p * 4096) 0x123).
Proof.
  destruct tiny_fork as (m & G & H & P & C & p & HT & HP & HC & HPC & HpP & HpC & Hh & Hfa & Hfl & Hw & Hk & _); exists m, p.
  split; [destruct Hfa; lia|].
  rewrite (mmu_virt_to_phys_walk m G H 0 0xC000 0xC000 P P 0x400123 HT HP HpP (root_nonzero _ _ _ _ _ HT HP) (or_introl (conj Hk eq_refl)) HpP)
    by done.
  rewrite Hw, decide_True by done; unfold translation; by rewrite (proj1 (tiny_leaf p Hfa)).
Defined.

Lemma mmu_destroy_context_frees_witness : exists m m' : mmu pmm,
  mmu_destroy_context 0 0xC000 m = Ok m' /\ mm_ctxs m' !! 0xC000 = None.
Proof.
  destruct tiny_space as (m & G & H & root & HT & Hg & Hp & Hk & _ & kroot & Hkp & Hk0 & Hkr).
  destruct (mmu_destroy_context_frees 0 m G H 0xC000 root kroot HT Hg Hp ltac:(lia) (not_eq_sym Hk) Hkp Hk0 Hkr)
    as (m' & E & _ & _ & _ & Hc & _).
  exists m, m'; split; assumption.
Defined.

(** The free pages of the machine after some calls. *)
Definition tiny_free (qs : list call) : res Z :=
  tiny_mmu (fun m => '(_, m) ← play qs m; Ok (foldr Z.add 0 (free_pages <$> zones (mm_pages m)))).

(** A large page in the place of a page table: the frame of the table is never given back,
    not even when the context is destroyed. *)
Lemma mmu_map_huge_leaks_table :
  let on q := (0%nat, 0, q) in
  let small := [on (MCreate 0xC000); on (MMap 0xC000 0x400000 0x7000 0)] in
  exists n, tiny_free (small ++ [on (MDestroy 0xC000)]) = Ok n /\
    tiny_free (small ++ [on (MMap 0xC000 0x400000 0x200000 MMU_FLAG_HUGE_2M); on (MDestroy 0xC000)]) = Ok (n - 1).
Proof. exists 31; by vm_compute. Qed.

End demo.
