(* ===== verification/RwSem.v ===== *)
(** * The reader-writer semaphore of an address space (mem/vmm.c)

    [mmap_sem] of a [vmm_space_t].  The fields under the spin lock are a record, and each
    region under the lock is one step of one process; [wait_queue_wait] puts the process
    on the queue in a step of its own, and [wake_all] lets every process on the queue
    go on.  Any number of processes take such steps in any order. *)

From stdpp Require Import base tactics option list numbers relations.
From Stdlib Require Import ZArith Lia.
From S2P Require Import Prelude.

Local Open Scope Z_scope.

Record vmm_rwsem := Sem { s_count : Z; s_wait_readers : Z; s_wait_writers : Z }.

Definition vmm_rwsem_init : vmm_rwsem := Sem 0 0 0.

(** ** Regions under the lock *)

(** The first region of the loop of [vmm_down_read]: taken, or counted as waiting. *)
Definition vmm_down_read (x : vmm_rwsem) : bool * vmm_rwsem :=
  if decide (s_count x >= 0 /\ s_wait_writers x = 0) then
    (true, Sem (i32 (s_count x + 1)) (s_wait_readers x) (s_wait_writers x))
  else (false, Sem (s_count x) (u32 (s_wait_readers x + 1)) (s_wait_writers x)).

(** The second region, after the wait. *)
Definition down_read_again (x : vmm_rwsem) : vmm_rwsem := Sem (s_count x) (u32 (s_wait_readers x - 1)) (s_wait_writers x).

(** The flag says that [wait_queue_wake_all] is called. *)
Definition vmm_up_read (x : vmm_rwsem) : bool * vmm_rwsem :=
  if decide (s_count x > 0) then
    let c := s_count x - 1 in
    (bool_decide (c = 0 /\ s_wait_writers x > 0), Sem c (s_wait_readers x) (s_wait_writers x))
  else (false, x).

Definition vmm_down_write (x : vmm_rwsem) : bool * vmm_rwsem :=
  if decide (s_count x = 0) then (true, Sem (-1) (s_wait_readers x) (s_wait_writers x))
  else (false, Sem (s_count x) (s_wait_readers x) (u32 (s_wait_writers x + 1))).

Definition down_write_again (x : vmm_rwsem) : vmm_rwsem := Sem (s_count x) (s_wait_readers x) (u32 (s_wait_writers x - 1)).

Definition vmm_up_write (x : vmm_rwsem) : bool * vmm_rwsem :=
  (bool_decide (s_wait_writers x > 0 \/ s_wait_readers x > 0), Sem 0 (s_wait_readers x) (s_wait_writers x)).

(** ** Processes *)

(** A process is outside, holds the semaphore, or is in one of the loops: about to look at
    the count, on the way to [wait_queue_wait], asleep, or woken. *)
Inductive mode := Rd | Wr.
Inductive pc := Idle | Holds (k : mode) | Tries (k : mode) | Leaves (k : mode) | Sleeps (k : mode) | Woken (k : mode).

#[export] Instance mode_eq : EqDecision mode.
Proof. solve_decision. Defined.
#[export] Instance pc_eq : EqDecision pc.
Proof. solve_decision. Defined.

Definition down (k : mode) : vmm_rwsem -> bool * vmm_rwsem := match k with Rd => vmm_down_read | Wr => vmm_down_write end.
Definition again (k : mode) : vmm_rwsem -> vmm_rwsem := match k with Rd => down_read_again | Wr => down_write_again end.
Definition up (k : mode) : vmm_rwsem -> bool * vmm_rwsem := match k with Rd => vmm_up_read | Wr => vmm_up_write end.

Definition wake (p : pc) : pc := match p with Sleeps k => Woken k | _ => p end.
Definition wake_all (b : bool) (ps : list pc) : list pc := if b then wake <$> ps else ps.

(** One step of process [t]. *)
Inductive step : vmm_rwsem * list pc -> vmm_rwsem * list pc -> Prop :=
| step_call x ps t k : ps !! t = Some Idle -> step (x, ps) (x, <[t := Tries k]> ps)
| step_down x ps t k x' : ps !! t = Some (Tries k) -> down k x = (true, x') -> step (x, ps) (x', <[t := Holds k]> ps)
| step_wait x ps t k x' : ps !! t = Some (Tries k) -> down k x = (false, x') -> step (x, ps) (x', <[t := Leaves k]> ps)
| step_sleep x ps t k : ps !! t = Some (Leaves k) -> step (x, ps) (x, <[t := Sleeps k]> ps)
| step_again x ps t k : ps !! t = Some (Woken k) -> step (x, ps) (again k x, <[t := Tries k]> ps)
| step_up x ps t k b x' : ps !! t = Some (Holds k) -> up k x = (b, x') -> step (x, ps) (x', wake_all b (<[t := Idle]> ps)).

Definition initial (n : nat) : vmm_rwsem * list pc := (vmm_rwsem_init, replicate n Idle).

(** ** Counting *)

Definition tally (f : pc -> bool) (ps : list pc) : nat := length (filter (fun p => f p = true) ps).
#[local] Arguments tally : simpl never.

Lemma tally_cons f p ps : tally f (p :: ps) = ((if f p then 1 else 0) + tally f ps)%nat.
Proof. unfold tally; rewrite filter_cons; destruct (f p); by case_decide. Qed.

Lemma tally_insert f ps t p q : ps !! t = Some p ->
  (tally f (<[t := q]> ps) + (if f p then 1 else 0) = tally f ps + (if f q then 1 else 0))%nat.
Proof.
  revert t; induction ps as [|r ps IH]; intros t Ht; [done|]; destruct t as [|t]; cbn in Ht.
  all: (change (<[0%nat := q]> (r :: ps)) with (q :: ps) || change (<[S t := q]> (r :: ps)) with (r :: <[t := q]> ps)); rewrite !tally_cons.
  - injection Ht as ->; destruct (f p), (f q); lia.
  - specialize (IH t Ht); destruct (f p), (f q), (f r); lia.
Qed.

Lemma tally_wake f b ps : (forall p, f (wake p) = f p) -> tally f (wake_all b ps) = tally f ps.
Proof.
  intros Hf; destruct b; [|done]; cbn; induction ps as [|p ps IH]; [done|]; cbn; rewrite !tally_cons, Hf; by rewrite IH.
Qed.

Lemma tally_le f ps : (tally f ps <= length ps)%nat.
Proof. induction ps as [|p ps IH]; [done|]; rewrite tally_cons; cbn [length]; destruct (f p); lia. Qed.

Lemma tally_pos f ps t p : ps !! t = Some p -> f p = true -> (0 < tally f ps)%nat.
Proof.
  revert t; induction ps as [|r ps IH]; intros [|t] Ht Hf; try done; cbn in Ht; rewrite tally_cons.
  - injection Ht as ->; rewrite Hf; lia.
  - specialize (IH t Ht Hf); lia.
Qed.

Lemma tally_replicate f n : f Idle = false -> tally f (replicate n Idle) = 0%nat.
Proof. intros Hf; induction n as [|n IH]; [done|]; cbn; by rewrite tally_cons, Hf. Qed.

Definition is_holding (k : mode) (p : pc) : bool :=
  match k, p with Rd, Holds Rd | Wr, Holds Wr => true | _, _ => false end.

Definition is_waiting (k : mode) (p : pc) : bool :=
  match k, p with
  | Rd, (Leaves Rd | Sleeps Rd | Woken Rd) | Wr, (Leaves Wr | Sleeps Wr | Woken Wr) => true
  | _, _ => false
  end.

(** ** The invariant *)

(** The count is that of the readers, or -1 for one writer and no reader; the other fields
    count the processes that wait. *)
Record sem_ok (x : vmm_rwsem) (ps : list pc) : Prop := {
  so_count : (tally (is_holding Wr) ps = 0%nat /\ s_count x = Z.of_nat (tally (is_holding Rd) ps)) \/
             (tally (is_holding Wr) ps = 1%nat /\ tally (is_holding Rd) ps = 0%nat /\ s_count x = -1);
  so_readers : s_wait_readers x = Z.of_nat (tally (is_waiting Rd) ps);
  so_writers : s_wait_writers x = Z.of_nat (tally (is_waiting Wr) ps)
}.

Lemma initial_ok n : sem_ok vmm_rwsem_init (replicate n Idle).
Proof. split; rewrite !tally_replicate by done; [by left|done..]. Qed.

(** The tallies after process [t] has gone from [p] to [q]. *)
Ltac moved t p q ps Ht :=
  pose proof (tally_insert (is_holding Rd) ps t p q Ht); pose proof (tally_insert (is_holding Wr) ps t p q Ht);
  pose proof (tally_insert (is_waiting Rd) ps t p q Ht); pose proof (tally_insert (is_waiting Wr) ps t p q Ht);
  pose proof (tally_pos (is_holding Rd) ps t p Ht); pose proof (tally_pos (is_holding Wr) ps t p Ht);
  pose proof (tally_pos (is_waiting Rd) ps t p Ht); pose proof (tally_pos (is_waiting Wr) ps t p Ht); cbn [is_holding is_waiting] in *.

Lemma step_length x ps x' ps' : step (x, ps) (x', ps') -> length ps' = length ps.
Proof. intros Hs; inversion Hs; subst; unfold wake_all; try case_match; by rewrite ?length_fmap, ?length_insert. Qed.

Lemma down_ok k x b x' ps t : Z.of_nat (length ps) < 2 ^ 31 -> sem_ok x ps -> ps !! t = Some (Tries k) -> down k x = (b, x') ->
  sem_ok x' (<[t := if b then Holds k else Leaves k]> ps).
Proof.
  intros Hn [Hc Hr Hw] Ht E.
  pose proof (tally_le (is_waiting Rd) ps); pose proof (tally_le (is_waiting Wr) ps); pose proof (tally_le (is_holding Rd) ps).
  destruct k; cbn in E; [unfold vmm_down_read in E|unfold vmm_down_write in E]; case_decide as Hd; injection E as <- <-.
  - pose proof (tally_le (is_holding Rd) (<[t := Holds Rd]> ps)) as Hle; rewrite length_insert in Hle.
    moved t (Tries Rd) (Holds Rd) ps Ht; split; cbn [s_count s_wait_readers s_wait_writers]; [rewrite i32_small by lia; left; lia|lia..].
  - moved t (Tries Rd) (Leaves Rd) ps Ht; split; cbn [s_count s_wait_readers s_wait_writers again down_read_again down_write_again]; [lia|rewrite u32_small; lia|lia].
  - moved t (Tries Wr) (Holds Wr) ps Ht; split; cbn [s_count s_wait_readers s_wait_writers again down_read_again down_write_again]; [right; lia|lia..].
  - moved t (Tries Wr) (Leaves Wr) ps Ht; split; cbn [s_count s_wait_readers s_wait_writers again down_read_again down_write_again]; [lia|lia|rewrite u32_small; lia].
Qed.

Lemma again_ok k x ps t : Z.of_nat (length ps) < 2 ^ 31 -> sem_ok x ps -> ps !! t = Some (Woken k) -> sem_ok (again k x) (<[t := Tries k]> ps).
Proof.
  intros Hn [Hc Hr Hw] Ht; pose proof (tally_le (is_waiting Rd) ps); pose proof (tally_le (is_waiting Wr) ps).
  destruct k.
  - moved t (Woken Rd) (Tries Rd) ps Ht; split; cbn [s_count s_wait_readers s_wait_writers again down_read_again down_write_again]; [lia|rewrite u32_small; lia|lia].
  - moved t (Woken Wr) (Tries Wr) ps Ht; split; cbn [s_count s_wait_readers s_wait_writers again down_read_again down_write_again]; [lia|lia|rewrite u32_small; lia].
Qed.

Lemma up_ok k x b x' ps t : sem_ok x ps -> ps !! t = Some (Holds k) -> up k x = (b, x') -> sem_ok x' (<[t := Idle]> ps).
Proof.
  intros [Hc Hr Hw] Ht E; destruct k; cbn in E; [unfold vmm_up_read in E|unfold vmm_up_write in E].
  - moved t (Holds Rd) Idle ps Ht; case_decide; injection E as _ <-; split; cbn [s_count s_wait_readers s_wait_writers]; lia.
  - moved t (Holds Wr) Idle ps Ht; injection E as _ <-; split; cbn [s_count s_wait_readers s_wait_writers]; lia.
Qed.

Lemma wake_ok x b ps : sem_ok x ps -> sem_ok x (wake_all b ps).
Proof.
  assert (Hw : forall k p, is_holding k (wake p) = is_holding k p /\ is_waiting k (wake p) = is_waiting k p) by (by intros [] [| [] | [] | [] | [] | []]).
  intros [H1 H2 H3]; split; rewrite !tally_wake; done || (intros p; apply Hw).
Qed.

Lemma quiet_ok x ps t p q : sem_ok x ps -> ps !! t = Some p ->
  (forall k, is_holding k p = is_holding k q /\ is_waiting k p = is_waiting k q) -> sem_ok x (<[t := q]> ps).
Proof.
  intros [Hc Hr Hw] Ht Hq; destruct (Hq Rd) as [E1 E2], (Hq Wr) as [E3 E4]; moved t p q ps Ht; rewrite E1, E2, E3, E4 in *.
  destruct (is_holding Rd q), (is_holding Wr q), (is_waiting Rd q), (is_waiting Wr q); split; lia.
Qed.

Lemma sem_step_ok x ps x' ps' : Z.of_nat (length ps) < 2 ^ 31 -> sem_ok x ps -> step (x, ps) (x', ps') -> sem_ok x' ps'.
Proof.
  intros Hn Hok Hs; inversion Hs as [? ? t k Ht|? ? t k ? Ht E|? ? t k ? Ht E|? ? t k Ht|? ? t k Ht|? ? t k b ? Ht E]; subst.
  - by eapply quiet_ok; [| |intros []; destruct k].
  - exact (down_ok k x true x' ps t Hn Hok Ht E).
  - exact (down_ok k x false x' ps t Hn Hok Ht E).
  - by eapply quiet_ok; [| |intros []; destruct k].
  - by apply again_ok.
  - by eapply wake_ok, up_ok.
Qed.

Lemma reach_ok n x ps : Z.of_nat n < 2 ^ 31 -> rtc step (initial n) (x, ps) -> length ps = n /\ sem_ok x ps.
Proof.
  intros Hn Hr; cut (forall σ, rtc step σ (x, ps) -> length σ.2 = n -> sem_ok σ.1 σ.2 -> length ps = n /\ sem_ok x ps).
  { intros Hcut; apply (Hcut (initial n)); [done|cbn; apply length_replicate|apply initial_ok]. }
  intros σ Hσ; remember (x, ps) as σ' eqn:E; revert x ps E; clear Hr; induction Hσ as [σ|[x1 p1] [x2 p2] σ' Hst Hrt IH]; intros x ps -> Hl Hok; [done|].
  cbn in *; eapply IH; [done|cbn; by rewrite (step_length _ _ _ _ Hst)|]; cbn; eapply sem_step_ok; [|exact Hok|exact Hst]; lia.
Qed.

Lemma tally_two f ps t u p q : ps !! t = Some p -> ps !! u = Some q -> t ≠ u -> f p = true -> f q = true -> f Idle = false ->
  (2 <= tally f ps)%nat.
Proof.
  intros Ht Hu Hn Hp Hq Hi; pose proof (tally_insert f ps u q Idle Hu) as E; rewrite Hq, Hi in E.
  assert (Ht' : <[u := Idle]> ps !! t = Some p) by (by rewrite list_lookup_insert_ne).
  pose proof (tally_pos f _ t p Ht' Hp); lia.
Qed.

(** ** Theorems *)

(** C13: The semaphore excludes.  In every interleaving of the regions under the lock, the
    waits and the wake-ups of fewer than 2^31 processes that start outside and release the
    semaphore only when they hold it, and in the way they took it, a process that holds it
    for writing is the only one that holds it. *)
Theorem rwsem_exclusive n x ps t u k :
  Z.of_nat n < 2 ^ 31 -> rtc step (initial n) (x, ps) -> ps !! t = Some (Holds Wr) -> ps !! u = Some (Holds k) -> t = u.
Proof.
  intros Hn Hr Ht Hu; destruct (reach_ok n x ps Hn Hr) as [_ [Hc _ _]].
  destruct (decide (t = u)) as [|Hne]; [done|exfalso]; pose proof (tally_pos (is_holding Wr) ps t _ Ht eq_refl).
  destruct k.
  - pose proof (tally_pos (is_holding Rd) ps u _ Hu eq_refl); lia.
  - pose proof (tally_two (is_holding Wr) ps t u _ _ Ht Hu Hne eq_refl eq_refl eq_refl); lia.
Qed.

(** A writer that holds it. *)
Lemma rwsem_exclusive_witness : exists x ps, rtc step (initial 3) (x, ps) /\ ps !! 2%nat = Some (Holds Wr) /\
  forall u k, ps !! u = Some (Holds k) -> 2%nat = u.
Proof.
  set (x := Sem (-1) 0 0); set (ps := [Idle; Idle; Holds Wr]).
  assert (Hr : rtc step (initial 3) (x, ps)).
  { eapply rtc_l; [by eapply (step_call _ _ 2 Wr)|]; eapply rtc_l; [by eapply (step_down _ _ 2 Wr)|]; apply rtc_refl. }
  exists x, ps; split; [exact Hr|]; split; [reflexivity|].
  intros u k Hu; apply (rwsem_exclusive 3 x ps 2 u k); [lia|exact Hr|reflexivity|exact Hu].
Defined.

(** The semaphore can be lost.  A writer finds a reader, counts itself as waiting and has
    not reached the wait queue when the reader leaves and wakes whoever is on it.  The
    writer then sleeps, the next reader waits for the writer, and neither is ever woken
    although nobody holds the semaphore. *)
Theorem rwsem_deadlock : exists x ps, rtc step (initial 2) (x, ps) /\
  s_count x = 0 /\ ps = [Sleeps Rd; Sleeps Wr] /\ forall σ, ~ step (x, ps) σ.
Proof.
  exists (Sem 0 1 1), [Sleeps Rd; Sleeps Wr]; split; [|split; [done|]; split; [done|]].
  - eapply rtc_l; [by eapply (step_call _ _ 0 Rd)|]; eapply rtc_l; [by eapply (step_down _ _ 0 Rd)|].
    eapply rtc_l; [by eapply (step_call _ _ 1 Wr)|]; eapply rtc_l; [by eapply (step_wait _ _ 1 Wr)|].
    eapply rtc_l; [by eapply (step_up _ _ 0 Rd)|]; eapply rtc_l; [by eapply (step_sleep _ _ 1 Wr)|].
    eapply rtc_l; [by eapply (step_call _ _ 0 Rd)|]; eapply rtc_l; [by eapply (step_wait _ _ 0 Rd)|].
    eapply rtc_l; [by eapply (step_sleep _ _ 0 Rd)|]; apply rtc_refl.
  - intros σ Hs; inversion Hs as [? ? t ? Ht|? ? t ? ? Ht|? ? t ? ? Ht|? ? t ? Ht|? ? t ? Ht|? ? t ? ? ? Ht]; subst;
      destruct t as [|[|t]]; cbn in Ht; done || congruence || by destruct t.
Qed.
