(* ===== verification/Vmm.v ===== *)
(** * Address spaces and page faults (mem/vmm.c, mem/vmm.h)

    A space has the areas of Vma.v and a context of Mmu.v.  Spaces are records in a map
    keyed by their address.  The semaphore [mmap_sem] delimits each operation and has no
    other effect here; RwSem.v is about it.  Each call of [kmalloc] has an argument with
    its answer; in the loops over areas the answer is a function of the area. *)

From stdpp Require Import base tactics option list numbers gmap.
From Stdlib Require Import ZArith Lia.
From S2P Require Import Prelude Rbtree Vma Pmm SlabMem Slab Mmu.

Local Open Scope Z_scope.

Definition EACCES : Z := 13.
Definition EFAULT : Z := 14.

Definition USER_MMAP_BASE : Z := 0x0000700000000000.
Definition USER_MMAP_END : Z := 0x00007FFFF0000000.
Definition MAX_STACK_SIZE : Z := 8 * 1024 * 1024.
Definition VMALLOC_BASE : Z := 0xFFFFC00000000000.
Definition VMALLOC_END : Z := 0xFFFFD00000000000.

Definition PT_ACCESSED : Z := Z.shiftl 1 5.

Definition VMA_TYPE_ANON : Z := 1.
Definition VMA_TYPE_SHM : Z := 4.
Definition VMA_FLAG_READ : Z := 0x01.
Definition VMA_FLAG_WRITE : Z := 0x02.
Definition VMA_FLAG_EXEC : Z := 0x04.
Definition VMA_FLAG_SHARED : Z := 0x08.
Definition VMA_FLAG_COW : Z := 0x10.
Definition VMA_FLAG_STACK : Z := 0x20.
Definition VMA_FLAG_HEAP : Z := 0x40.

(** ** State *)

Record space := Space {
  sp_ctx : Z;
  sp_vmas : vma_state;
  sp_active : Z;
  sp_refcount : Z;
  sp_mmap_base : Z;
  sp_mmap_end : Z;
  sp_brk_start : Z;
  sp_brk_current : Z
}.

Definition no_vmas : vma_state := mkVmas 0 (mkRb 0 ∅ ∅).

Definition with_vmas (v : vma_state) (x : space) : space :=
  Space (sp_ctx x) v (sp_active x) (sp_refcount x) (sp_mmap_base x) (sp_mmap_end x) (sp_brk_start x) (sp_brk_current x).

Definition with_brk (b c : Z) (x : space) : space :=
  Space (sp_ctx x) (sp_vmas x) (sp_active x) (sp_refcount x) (sp_mmap_base x) (sp_mmap_end x) b c.

Definition with_refcount (r : Z) (x : space) : space :=
  Space (sp_ctx x) (sp_vmas x) (sp_active x) r (sp_mmap_base x) (sp_mmap_end x) (sp_brk_start x) (sp_brk_current x).

Record vmm (St : Type) := Vmm {
  vm_mmu : mmu St;
  vm_spaces : gmap Z space;
  vm_kernel : Z;   (** [&kernel_space] *)
  vm_zero : option Z;
  vm_zero_paddr : Z
}.
Arguments Vmm {St}.
Arguments vm_mmu {St}.
Arguments vm_spaces {St}.
Arguments vm_kernel {St}.
Arguments vm_zero {St}.
Arguments vm_zero_paddr {St}.

(** What the code finds around it: its CPU, what other CPUs do while it waits for them,
    their interrupt numbers, the context of the current process, and a bound for the
    loops over areas. *)
Class Machine (St : Type) := {
  this_cpu : nat;
  pause : mmu St -> mmu St;
  lapic_id : Z -> Z;
  proc_ctx : Z;
  steps : nat
}.

(** The reference count of a page. *)
Class PageCounts (St : Type) := {
  ps_refcount : St -> Z -> res Z;
  ps_unref : nat -> Z -> St -> res St
}.

#[export] Instance pmm_counts : PageCounts pmm := {
  ps_refcount s p := g ← page_at s p; Ok (pg_refcount g);
  ps_unref cpu p s := pmm_page_unref s cpu (Some p)
}.

Definition with_start (a : vm_area) v := mkArea v (a_end a) (a_type a) (a_flags a) (a_file a)
  (a_offset a) (a_space a) (a_prev a) (a_next a) (a_gap a).
Definition with_flags (a : vm_area) v := mkArea (a_start a) (a_end a) (a_type a) v (a_file a)
  (a_offset a) (a_space a) (a_prev a) (a_next a) (a_gap a).

(** An area's fields are changed. *)
Definition vmas_upd (v : vma_state) (p : Z) (f : vm_area -> vm_area) : res vma_state :=
  D ← area_upd (vs_areas v) p f; Ok (mkVmas (vs_head v) (set_areas (vs_rb v) D)).

Section operations.
Context {St : Type} `{!PageSource St} `{!PageRefs St} `{!PageCounts St} `{!Machine St}.
Implicit Types m : mmu St.
Implicit Types s : vmm St.

Abbreviation op A := (vmm St -> res (A * vmm St)).

Definition with_mmu m s : vmm St := Vmm m (vm_spaces s) (vm_kernel s) (vm_zero s) (vm_zero_paddr s).
Definition with_spaces (x : gmap Z space) s : vmm St := Vmm (vm_mmu s) x (vm_kernel s) (vm_zero s) (vm_zero_paddr s).

Definition space_at (p : Z) s : res space := if decide (p = 0) then Fault else of_opt (vm_spaces s !! p).
Definition set_space (p : Z) (x : space) s : vmm St := with_spaces (<[p := x]> (vm_spaces s)) s.

(** [pmm_alloc_page], with the words of the frame. *)
Definition alloc_page (flags : Z) m : res (option Z * mmu St) :=
  '(r, st) ← ps_alloc this_cpu 0 flags (mm_pages m);
  let m := with_st st m in
  match r with
  | Some p =>
      Ok (Some p, if has_flag flags PAGE_FLAG_ZERO then with_words (clear_words (pmm_page_to_paddr p) (mm_words m)) m else m)
  | None => Ok (None, m)
  end.

Definition free_page (p : Z) m : res (mmu St) :=
  st ← ps_free this_cpu (Some p) 0 (mm_pages m); Ok (with_st st m).

Definition unref_page (p : Z) m : res (mmu St) :=
  st ← ps_unref this_cpu p (mm_pages m); Ok (with_st st m).

Definition flush_cpus (active virt count : Z) m : res (mmu St) :=
  mmu_tlb_shootdown_target pause lapic_id (Z.of_nat this_cpu) active virt count m.

(** ** Spaces *)

Definition vmm_init s : res (vmm St) :=
  '(r, m) ← alloc_page (Z.lor PAGE_FLAG_KERNEL PAGE_FLAG_ZERO) (vm_mmu s);
  let zero_paddr := match r with Some p => pmm_page_to_paddr p | None => vm_zero_paddr s end in
  let x := Space (mmu_get_kernel_context m) no_vmas 0 1 VMALLOC_BASE VMALLOC_END 0 0 in
  Ok (Vmm m (<[vm_kernel s := x]> (vm_spaces s)) (vm_kernel s) r zero_paddr).

Definition vmm_create_space (space_addr ctx_addr : Z) : op Z := fun s =>
  if decide (space_addr = 0) then Ok (0, s)
  else
    '(ctx, m) ← mmu_create_context this_cpu ctx_addr (vm_mmu s);
    let s := with_mmu m s in
    if decide (ctx = 0) then Ok (0, s)
    else Ok (space_addr, set_space space_addr (Space ctx no_vmas 0 1 USER_MMAP_BASE USER_MMAP_END 0 0) s).

(** The reference that a private page holds is dropped; [careful] is the check of the flags. *)
Definition release_page (careful : bool) (zero : option Z) (ctx v : Z) m : res (mmu St) :=
  p ← mmu_virt_to_phys proc_ctx ctx v m;
  if decide (p = 0) then Ok m
  else
    match ps_paddr_to_page (mm_pages m) p with
    | None => Ok m
    | Some pg =>
        if decide (zero = Some pg) then Ok m
        else
          busy ← (if careful then
                    fl ← ps_flags (mm_pages m) pg;
                    Ok (has_flag fl (Z.lor (Z.lor PAGE_FLAG_FREE PAGE_FLAG_SLAB) PAGE_FLAG_KMALLOC_LARGE))
                  else Ok false);
          if (busy : bool) then Ok m else unref_page pg m
    end.

Definition release_pages (careful : bool) (zero : option Z) (ctx start count : Z) m : res (mmu St) :=
  for_up (Z.to_nat count) 0 (fun i m => release_page careful zero ctx (u64 (start + Z.shiftl i 12)) m) m.

Definition private_anon (a : vm_area) : bool :=
  bool_decide (a_type a = VMA_TYPE_ANON) && negb (has_flag (a_flags a) VMA_FLAG_SHARED).

Fixpoint destroy_areas (fuel : nat) (zero : option Z) (ctx curr : Z) (rb : rb_state areas) (m : mmu St) : res (rb_state areas * mmu St) :=
  match fuel with
  | O => NoFuel
  | S fuel =>
      if decide (curr = 0) then Ok (rb, m)
      else
        a ← area_at (rb_data rb) curr;
        m ← (if private_anon a then release_pages true zero ctx (a_start a) (Z.shiftr (u64 (a_end a - a_start a)) 12) m else Ok m);
        destroy_areas fuel zero ctx (a_next a) (vma_destroy curr rb) m
  end.

Definition vmm_destroy_space (space : Z) s : res (vmm St) :=
  if decide (space = 0 \/ space = vm_kernel s) then Ok s
  else
    x ← space_at space s;
    let r := u32 (sp_refcount x - 1) in
    if decide (0 < r) then Ok (set_space space (with_refcount r x) s)
    else
      '(_, m) ← destroy_areas steps (vm_zero s) (sp_ctx x) (vs_head (sp_vmas x)) (vs_rb (sp_vmas x)) (vm_mmu s);
      m ← (if decide (sp_ctx x <> 0) then mmu_destroy_context this_cpu (sp_ctx x) m else Ok m);
      Ok (with_mmu m (with_spaces (delete space (vm_spaces s)) s)).

(** The areas of [parent] from [curr] on are copied to [child]; writable private ones become
    copy-on-write in both. *)
Fixpoint clone_areas (fuel : nat) (kmalloc : Z -> Z) (curr : Z) (parent child : vma_state) : res (vma_state * vma_state) :=
  match fuel with
  | O => NoFuel
  | S fuel =>
      if decide (curr = 0) then Ok (parent, child)
      else
        a ← area_at (vs_areas parent) curr;
        let cow := has_flag (a_flags a) VMA_FLAG_WRITE && negb (has_flag (a_flags a) VMA_FLAG_SHARED) in
        let flags := if cow then Z.lor (a_flags a) VMA_FLAG_COW else a_flags a in
        parent ← (if cow then vmas_upd parent curr (fun a => with_flags a (Z.lor (a_flags a) VMA_FLAG_COW)) else Ok parent);
        let '(c, rb) := vma_create (kmalloc curr) (a_start a) (a_end a) (a_type a) flags (vs_rb child) in
        let child := mkVmas (vs_head child) rb in
        child ← (if decide (c <> 0) then
                   child ← vmas_upd child c (fun b => with_file b (a_file a) (a_offset a));
                   '(_, child) ← vma_insert steps c child; Ok child
                 else Ok child);
        clone_areas fuel kmalloc (a_next a) parent child
  end.

(** Is the address in a shared area of the space?  As [mmu_clone_user_cow] asks of the space
    of the current process. *)
Definition in_shared (x : space) (v : Z) : bool :=
  match vma_find steps v (vs_rb (sp_vmas x)) with
  | Ok p => match vs_areas (sp_vmas x) !! p with Some a => has_flag (a_flags a) VMA_FLAG_SHARED | None => false end
  | _ => false
  end.

(** The current process is the one whose space is copied. *)
Definition vmm_clone_space (space_addr ctx_addr : Z) (kmalloc : Z -> Z) (parent_space : Z) : op Z := fun s =>
  if decide (parent_space = 0) then Ok (0, s)
  else
    '(child, s) ← vmm_create_space space_addr ctx_addr s;
    if decide (child = 0) then Ok (0, s)
    else
      p ← space_at parent_space s;
      c ← space_at child s;
      '(pv, cv) ← clone_areas steps kmalloc (vs_head (sp_vmas p)) (sp_vmas p) (sp_vmas c);
      let p := with_vmas pv p in
      let c := Space (sp_ctx c) cv (sp_active c) (sp_refcount c) (sp_mmap_base p) (sp_mmap_end p) (sp_brk_start p) (sp_brk_current p) in
      let s := set_space child c (set_space parent_space p s) in
      '(_, m) ← mmu_clone_user_cow (in_shared p) this_cpu (sp_ctx p) (sp_ctx c) (vm_mmu s);
      Ok (child, with_mmu m s).

(** ** Mapping *)

Definition page_round (length : Z) : Z := andnot (u64 (length + PAGE_MASK)) PAGE_MASK.

Definition vma_prot (prot : Z) : Z :=
  let f := 0 in
  let f := if has_flag prot MMU_PROT_READ then Z.lor f VMA_FLAG_READ else f in
  let f := if has_flag prot MMU_PROT_WRITE then Z.lor f VMA_FLAG_WRITE else f in
  if has_flag prot MMU_PROT_EXEC then Z.lor f VMA_FLAG_EXEC else f.

(** Where the new area goes, 0 if nowhere. *)
Definition map_place (x : space) (hint aligned_len : Z) : res Z :=
  if decide (hint = 0) then vma_find_unmapped_area steps (sp_mmap_base x) (sp_mmap_end x) aligned_len PAGE_SIZE (vs_rb (sp_vmas x))
  else if decide (hint < 0x10000 \/ u64 (hint + aligned_len) > sp_mmap_end x) then Ok 0
  else Ok hint.

Definition vmm_map (kmalloc space hint length prot flags file offset : Z) : op Z := fun s =>
  if decide (space = 0 \/ length = 0) then Ok (0, s)
  else
    let aligned_len := page_round length in
    x ← space_at space s;
    start ← map_place x hint aligned_len;
    if decide (start = 0) then Ok (0, s)
    else
      let f := vma_prot prot in
      let f := if has_flag flags MMU_FLAG_COW then Z.lor f VMA_FLAG_COW else f in
      let f := if has_flag flags VMA_FLAG_SHARED then Z.lor f VMA_FLAG_SHARED else f in
      let type := if decide (file <> 0) then if has_flag flags VMA_FLAG_SHARED then VMA_TYPE_SHM else VMA_TYPE_FILE
                  else VMA_TYPE_ANON in
      let v := sp_vmas x in
      let '(vma, rb) := vma_create kmalloc start (u64 (start + aligned_len)) type f (vs_rb v) in
      if decide (vma = 0) then Ok (0, s)
      else
        v ← vmas_upd (mkVmas (vs_head v) rb) vma (fun a => with_file a file offset);
        '(ok, v) ← vma_insert steps vma v;
        if (ok : bool) then Ok (start, set_space space (with_vmas v x) s)
        else Ok (0, set_space space (with_vmas (mkVmas (vs_head v) (vma_destroy vma (vs_rb v))) x) s).

(** The area [curr] loses what it has in [addr, vend). *)
Definition cut_area (kmalloc addr vend curr : Z) (v : vma_state) : res vma_state :=
  a ← area_at (vs_areas v) curr;
  if decide (a_start a >= addr /\ a_end a <= vend) then
    '(_, v) ← vma_remove steps curr v;
    Ok (mkVmas (vs_head v) (vma_destroy curr (vs_rb v)))
  else if decide (a_start a < addr /\ a_end a > vend) then
    let '(right_vma, rb) := vma_create kmalloc vend (a_end a) (a_type a) (a_flags a) (vs_rb v) in
    let v := mkVmas (vs_head v) rb in
    if decide (right_vma <> 0) then
      v ← vmas_upd v right_vma (fun b => with_file b (a_file a)
            (if decide (a_type a = VMA_TYPE_FILE) then u64 (a_offset a + (vend - a_start a)) else a_offset b));
      '(_, v) ← vma_remove steps curr v;
      v ← vmas_upd v curr (fun a => with_end a addr);
      '(_, v) ← vma_insert steps curr v;
      '(_, v) ← vma_insert steps right_vma v;
      Ok v
    else Ok v
  else if decide (a_start a < addr /\ a_end a <= vend) then
    '(_, v) ← vma_remove steps curr v;
    v ← vmas_upd v curr (fun a => with_end a addr);
    '(_, v) ← vma_insert steps curr v;
    Ok v
  else if decide (a_start a >= addr /\ a_end a > vend) then
    '(_, v) ← vma_remove steps curr v;
    v ← vmas_upd v curr (fun a =>
          with_start (if decide (a_type a = VMA_TYPE_FILE) then with_file a (a_file a) (u64 (a_offset a + (vend - a_start a))) else a) vend);
    '(_, v) ← vma_insert steps curr v;
    Ok v
  else Ok v.

Fixpoint unmap_areas (fuel : nat) (kmalloc : Z -> Z) (zero : option Z) (ctx addr vend curr : Z) (v : vma_state) (m : mmu St)
    : res (vma_state * mmu St) :=
  match fuel with
  | O => NoFuel
  | S fuel =>
      if decide (curr = 0) then Ok (v, m)
      else
        a ← area_at (vs_areas v) curr;
        if decide (a_start a >= vend \/ a_end a <= addr) then unmap_areas fuel kmalloc zero ctx addr vend (a_next a) v m
        else
          let unmap_start := if decide (a_start a > addr) then a_start a else addr in
          let unmap_end := if decide (a_end a < vend) then a_end a else vend in
          m ← (if private_anon a then release_pages true zero ctx unmap_start (Z.shiftr (u64 (unmap_end - unmap_start)) 12) m else Ok m);
          v ← cut_area (kmalloc curr) addr vend curr v;
          unmap_areas fuel kmalloc zero ctx addr vend (a_next a) v m
  end.

Definition vmm_unmap (kmalloc : Z -> Z) (space addr length : Z) : op Z := fun s =>
  if decide (space = 0 \/ length = 0 \/ Z.land addr PAGE_MASK <> 0) then Ok (- EINVAL, s)
  else
    let aligned_len := page_round length in
    let vend := u64 (addr + aligned_len) in
    x ← space_at space s;
    '(v, m) ← unmap_areas steps kmalloc (vm_zero s) (sp_ctx x) addr vend (vs_head (sp_vmas x)) (sp_vmas x) (vm_mmu s);
    let page_count := Z.shiftr aligned_len 12 in
    '(_, m) ← mmu_unmap_pages this_cpu (sp_ctx x) addr (Z.to_nat page_count) m;
    m ← flush_cpus (sp_active x) addr page_count m;
    Ok (0, with_mmu m (set_space space (with_vmas v x) s)).

Definition prot_area (f : Z) (a : vm_area) : vm_area :=
  with_flags a (Z.lor (Z.land (a_flags a) (Z.lnot (Z.lor (Z.lor VMA_FLAG_READ VMA_FLAG_WRITE) VMA_FLAG_EXEC))) f).

Fixpoint protect_areas (fuel : nat) (f addr vend curr : Z) (v : vma_state) : res vma_state :=
  match fuel with
  | O => NoFuel
  | S fuel =>
      if decide (curr = 0) then Ok v
      else
        a ← area_at (vs_areas v) curr;
        v ← (if decide (a_start a < vend /\ a_end a > addr) then vmas_upd v curr (prot_area f) else Ok v);
        protect_areas fuel f addr vend (a_next a) v
  end.

Definition vmm_protect (space addr length prot : Z) : op Z := fun s =>
  if decide (space = 0 \/ length = 0 \/ Z.land addr PAGE_MASK <> 0) then Ok (- EINVAL, s)
  else
    let aligned_len := page_round length in
    let vend := u64 (addr + aligned_len) in
    x ← space_at space s;
    v ← protect_areas steps (vma_prot prot) addr vend (vs_head (sp_vmas x)) (sp_vmas x);
    let count := Z.shiftr aligned_len 12 in
    m ← for_up (Z.to_nat count) 0 (fun i m =>
          '(_, m) ← mmu_protect_page (sp_ctx x) (u64 (addr + Z.shiftl i 12)) (Z.lor prot MMU_PROT_USER) m; Ok m) (vm_mmu s);
    m ← flush_cpus (sp_active x) addr count m;
    Ok (0, with_mmu m (set_space space (with_vmas v x) s)).

(** The first area from [c] on with the property, 0 if there is none. *)
Fixpoint first_area (fuel : nat) (test : vm_area -> bool) (c : Z) (D : areas) : res Z :=
  match fuel with
  | O => NoFuel
  | S fuel =>
      if decide (c = 0) then Ok 0
      else a ← area_at D c; if test a then Ok c else first_area fuel test (a_next a) D
  end.

Definition brk_grow (heap_vma new_aligned : Z) (v : vma_state) : res vma_state :=
  '(_, v) ← vma_remove steps heap_vma v;
  v ← vmas_upd v heap_vma (fun a => with_end a new_aligned);
  '(_, v) ← vma_insert steps heap_vma v;
  Ok v.

Definition brk_shrink (zero : option Z) (heap_vma new_aligned : Z) (x : space) m : res (vma_state * mmu St) :=
  let old_aligned := page_round (sp_brk_current x) in
  m ← (if decide (new_aligned < old_aligned) then
         let n := Z.shiftr (old_aligned - new_aligned) 12 in
         m ← release_pages false zero (sp_ctx x) new_aligned n m;
         '(_, m) ← mmu_unmap_pages this_cpu (sp_ctx x) new_aligned (Z.to_nat n) m;
         flush_cpus (sp_active x) new_aligned n m
       else Ok m);
  '(_, v) ← vma_remove steps heap_vma (sp_vmas x);
  a ← area_at (vs_areas v) heap_vma;
  if decide (new_aligned > a_start a) then
    v ← vmas_upd v heap_vma (fun a => with_end a new_aligned);
    '(_, v) ← vma_insert steps heap_vma v;
    Ok (v, m)
  else Ok (mkVmas (vs_head v) (vma_destroy heap_vma (vs_rb v)), m).

Definition vmm_brk (kmalloc space new_brk : Z) : op Z := fun s =>
  if decide (space = 0) then Ok (0, s)
  else
    x ← space_at space s;
    if decide (new_brk = 0 \/ new_brk = sp_brk_current x) then Ok (sp_brk_current x, s)
    else
      let x := if decide (sp_brk_start x = 0) then with_brk 0x20000000 0x20000000 x else x in
      let s := set_space space x s in
      if decide (new_brk < sp_brk_start x) then Ok (sp_brk_current x, s)
      else
        heap_vma ← first_area steps (fun a => has_flag (a_flags a) VMA_FLAG_HEAP) (vs_head (sp_vmas x)) (vs_areas (sp_vmas x));
        let new_aligned := page_round new_brk in
        '(v, m) ←
          (if decide (heap_vma = 0) then
             if decide (new_aligned > sp_brk_start x) then
               let '(h, rb) := vma_create kmalloc (sp_brk_start x) new_aligned VMA_TYPE_ANON
                                 (Z.lor (Z.lor VMA_FLAG_READ VMA_FLAG_WRITE) VMA_FLAG_HEAP) (vs_rb (sp_vmas x)) in
               let v := mkVmas (vs_head (sp_vmas x)) rb in
               if decide (h <> 0) then '(_, v) ← vma_insert steps h v; Ok (v, vm_mmu s) else Ok (v, vm_mmu s)
             else Ok (sp_vmas x, vm_mmu s)
           else if decide (new_brk > sp_brk_current x) then v ← brk_grow heap_vma new_aligned (sp_vmas x); Ok (v, vm_mmu s)
           else brk_shrink (vm_zero s) heap_vma new_aligned x (vm_mmu s));
        Ok (new_brk, with_mmu m (set_space space (with_brk (sp_brk_start x) new_brk (with_vmas v x)) s)).

(** ** Page faults *)

(** A fault below the next area, which is a stack: the stack is extended to the page. *)
Definition grow_stack (fault_addr page_vaddr : Z) (rsp : option Z) (v : vma_state) : res ((Z + Z) * vma_state) :=
  next_vma ← first_area steps (fun a => bool_decide (a_start a > fault_addr)) (vs_head v) (vs_areas v);
  if decide (next_vma = 0) then Ok (inl (- EFAULT), v)
  else
    n ← area_at (vs_areas v) next_vma;
    if negb (has_flag (a_flags n) VMA_FLAG_STACK) then Ok (inl (- EFAULT), v)
    else if match rsp with
            | Some r => bool_decide (r < 0xFFFF800000000000 /\ fault_addr < u64 (r - 128) /\ u64 (fault_addr + 4096) < r)
            | None => false
            end then Ok (inl (- EACCES), v)
    else if decide (u64 (a_end n - page_vaddr) > MAX_STACK_SIZE) then Ok (inl (- EACCES), v)
    else
      target ← first_area steps (fun a => has_flag (a_flags a) VMA_FLAG_STACK && bool_decide (a_start a > fault_addr))
                 (vs_head v) (vs_areas v);
      if decide (target = 0) then Ok (inl (- EFAULT), v)
      else
        '(_, v) ← vma_remove steps target v;
        v ← vmas_upd v target (fun a => with_start a page_vaddr);
        '(_, v) ← vma_insert steps target v;
        Ok (inr target, v).

(** The page is not there. *)
Definition demand_page (zero_paddr error_code : Z) (vma : vm_area) (ctx page_vaddr : Z) m : res (Z * mmu St) :=
  if decide (has_flag error_code 2 = false /\ zero_paddr <> 0) then
    '(_, m) ← mmu_map_page this_cpu ctx page_vaddr zero_paddr (Z.lor MMU_PROT_READ MMU_PROT_USER) m; Ok (0, m)
  else
    '(r, m) ← alloc_page PAGE_FLAG_ZERO m;
    match r with
    | None => Ok (- ENOMEM, m)
    | Some p =>
        let f := Z.lor MMU_PROT_READ MMU_PROT_USER in
        let f := if has_flag (a_flags vma) VMA_FLAG_WRITE then Z.lor f MMU_PROT_WRITE else f in
        let f := if has_flag (a_flags vma) VMA_FLAG_EXEC then Z.lor f MMU_PROT_EXEC else f in
        '(_, m) ← mmu_map_page this_cpu ctx page_vaddr (pmm_page_to_paddr p) f m; Ok (0, m)
    end.

(** [*pte_ptr] *)
Definition load (ptr : Z) m : Z := default 0 (mm_words m !! ptr).
Definition store (ptr v : Z) m : mmu St := with_words (<[ptr := v]> (mm_words m)) m.

(** [memcpy] of a page. *)
Definition copy_page_words (dst src : Z) (w : gmap Z Z) : gmap Z Z :=
  foldr (fun i w' => <[dst + 8 * i := default 0 (w !! (src + 8 * i))]> w') w (seqZ 0 512).

Definition flush_page (active page_vaddr : Z) m : res (mmu St) :=
  flush_cpus active page_vaddr 1 (mmu_tlb_flush_page page_vaddr m).

Definition make_writable (active ptr page_vaddr : Z) m : res (Z * mmu St) :=
  m ← flush_page active page_vaddr (store ptr (Z.lor (load ptr m) PT_RW) m); Ok (0, m).

Definition hw_bits : Z := Z.lor PT_ACCESSED PT_DIRTY.

Definition desired_pte (vma : vm_area) (new_paddr cur_pte : Z) : Z :=
  let d := Z.lor (Z.lor (Z.lor (Z.lor (Z.land new_paddr PT_ADDR_MASK) (Z.land cur_pte hw_bits)) PT_PRESENT) PT_USER) PT_RW in
  if has_flag (a_flags vma) VMA_FLAG_EXEC then Z.land d (Z.lnot PT_NX) else Z.lor d PT_NX.

(** The compare-and-exchange loop; [None] if the new entry is in place.  [seen] is what other
    CPUs write to the entry, one value before each look at it. *)
Fixpoint exchange_loop (seen : list Z) (vma : vm_area) (new_page old_pte cur_pte active ptr page_vaddr : Z) (m : mmu St)
    : res (option Z * mmu St) :=
  if has_flag cur_pte PT_PRESENT && has_flag cur_pte PT_RW then
    m ← free_page new_page m; m ← flush_page active page_vaddr m; Ok (Some 0, m)
  else if decide (andnot cur_pte hw_bits <> andnot old_pte hw_bits) then
    m ← free_page new_page m; Ok (Some (- EFAULT), m)
  else
    let desired := desired_pte vma (pmm_page_to_paddr new_page) cur_pte in
    match seen with
    | [] => Ok (None, store ptr desired m)
    | v :: seen =>
        let m := store ptr v m in
        if decide (v = cur_pte) then Ok (None, store ptr desired m)
        else exchange_loop seen vma new_page old_pte v active ptr page_vaddr m
    end.

(** A write to a page that is there. *)
Definition cow_fault (seen : list Z) (zero : option Z) (vma : vm_area) (x : space) (page_vaddr : Z) m : res (Z * mmu St) :=
  ptr ← mmu_get_pte_ptr (sp_ctx x) page_vaddr m;
  if decide (ptr = 0) then Ok (- EFAULT, m)
  else
    let old_pte := load ptr m in
    let old_paddr := Z.land old_pte PT_ADDR_MASK in
    match ps_paddr_to_page (mm_pages m) old_paddr with
    | None => make_writable (sp_active x) ptr page_vaddr m
    | Some old_page =>
        if has_flag (a_flags vma) VMA_FLAG_SHARED then make_writable (sp_active x) ptr page_vaddr m
        else
          alone ← (if decide (zero = Some old_page) then Ok false
                   else r ← ps_refcount (mm_pages m) old_page; Ok (bool_decide (r = 1)));
          if (alone : bool) then make_writable (sp_active x) ptr page_vaddr m
          else
            '(r, m) ← alloc_page 0 m;
            match r with
            | None => Ok (- ENOMEM, m)
            | Some new_page =>
                let m := with_words (copy_page_words (pmm_page_to_paddr new_page) old_paddr (mm_words m)) m in
                let m := match seen with v :: _ => store ptr v m | [] => m end in
                '(r, m) ← exchange_loop (tail seen) vma new_page old_pte (load ptr m) (sp_active x) ptr page_vaddr m;
                match r with
                | Some r => Ok (r, m)
                | None =>
                    m ← (if decide (zero = Some old_page) then Ok m else unref_page old_page m);
                    m ← flush_page (sp_active x) page_vaddr m;
                    Ok (0, m)
                end
            end
    end.

(** [rsp] is the stack pointer in [regs], if there are any. *)
Definition vmm_handle_page_fault (seen : list Z) (space fault_addr error_code : Z) (rsp : option Z) : op Z := fun s =>
  if decide (space = 0 \/ fault_addr >= 0x8000000000000000) then Ok (- EFAULT, s)
  else
    let page_vaddr := andnot fault_addr PAGE_MASK in
    x ← space_at space s;
    found ← vma_find steps fault_addr (vs_rb (sp_vmas x));
    '(r, v) ← (if decide (found = 0) then grow_stack fault_addr page_vaddr rsp (sp_vmas x) else Ok (inr found, sp_vmas x));
    match r with
    | inl e => Ok (e, s)
    | inr vma =>
        let x := with_vmas v x in
        let s := set_space space x s in
        a ← area_at (vs_areas v) vma;
        let writes := has_flag error_code 2 in
        if writes && negb (has_flag (a_flags a) VMA_FLAG_WRITE) && negb (has_flag (a_flags a) VMA_FLAG_COW) then Ok (- EACCES, s)
        else if has_flag error_code 16 && negb (has_flag (a_flags a) VMA_FLAG_EXEC) then Ok (- EACCES, s)
        else if negb (has_flag error_code 1) then
          '(r, m) ← demand_page (vm_zero_paddr s) error_code a (sp_ctx x) page_vaddr (vm_mmu s); Ok (r, with_mmu m s)
        else if writes then
          '(r, m) ← cow_fault seen (vm_zero s) a x page_vaddr (vm_mmu s); Ok (r, with_mmu m s)
        else Ok (- EACCES, s)
    end.

Fixpoint prefault_loop (fuel : nat) (space p page_end error_code : Z) (s : vmm St) : res (Z * vmm St) :=
  match fuel with
  | O => NoFuel
  | S fuel =>
      if decide (p > page_end) then Ok (0, s)
      else
        x ← space_at space s;
        phys ← mmu_virt_to_phys proc_ctx (sp_ctx x) p (vm_mmu s);
        if decide (phys <> 0) then prefault_loop fuel space (u64 (p + PAGE_SIZE)) page_end error_code s
        else
          '(r, s) ← vmm_handle_page_fault [] space p error_code None s;
          if decide (r <> 0) then Ok (- EFAULT, s) else prefault_loop fuel space (u64 (p + PAGE_SIZE)) page_end error_code s
  end.

Definition vmm_prefault_user_range (fuel : nat) (space addr len : Z) (write : bool) : op Z := fun s =>
  if decide (space = 0 \/ addr = 0 \/ len = 0) then Ok (0, s)
  else if decide (addr >= 0x8000000000000000) then Ok (- EFAULT, s)
  else
    prefault_loop fuel space (andnot addr PAGE_MASK) (andnot (u64 (addr + len - 1)) PAGE_MASK) (if write then 2 else 0) s.

End operations.
