(* ===== verification/VmmPages.v ===== *)
(** * Frames of user pages

    What mem/vmm.c relies on when it takes, shares and drops pages ([CountLaws]), that the
    page allocator gives it, and that writing to the frame of a page leaves every page
    table alone. *)

From stdpp Require Import base tactics option list numbers gmap.
From Stdlib Require Import ZArith Lia.
From S2P Require Import Prelude Pmm PmmLists PmmInv PmmSpec PmmTheorems SlabMem Slab PmmHeld.
From S2P Require Import Mmu MmuWalk MmuInv MmuTables MmuMap MmuPmm Vmm.

Local Open Scope Z_scope.

(** [H] after one of [S n] references to [p] is dropped. *)
Definition dropped (p : Z) (n : nat) (H : gmap Z nat) : gmap Z nat :=
  if decide (n = 0%nat) then delete p H else <[p := n]> H.

Class CountLaws (St : Type) `{!PageSource St} `{!FrameLaws St} `{!PageCounts St} := {
  ct_place s H p o : fr_ok s H -> H !! p = Some o -> frame_addr (p * 4096);
  ct_lookup s H p o : fr_ok s H -> H !! p = Some o -> fr_lookup (p * 4096) = Some p;
  ct_page a p : fr_lookup a = Some p -> 0 <= a -> a = p * 4096 + a mod 4096;
  ct_alloc s H cpu flags : fr_ok s H -> has_flag flags PAGE_FLAG_FREE = false ->
    exists r s', ps_alloc cpu 0 flags s = Ok (r, s') /\
      match r with
      | None => s' = s
      | Some p => H !! p = None /\ fr_ok s' (<[p := 1%nat]> H) /\
          (forall q o, H !! q = Some o -> ps_flags s' q = ps_flags s q)
      end;
  ct_count s H p n : fr_ok s H -> H !! p = Some (S n) -> ps_refcount s p = Ok (Z.of_nat (S n));
  ct_free s H cpu p : fr_ok s H -> H !! p = Some 1%nat ->
    exists s', ps_free cpu (Some p) 0 s = Ok s' /\ fr_ok s' (delete p H) /\
      (forall q o, q ≠ p -> H !! q = Some o -> ps_flags s' q = ps_flags s q);
  ct_unref s H cpu p n : fr_ok s H -> H !! p = Some (S n) ->
    exists s', ps_unref cpu p s = Ok s' /\ fr_ok s' (dropped p n H) /\
      (forall q o, q ≠ p -> H !! q = Some o -> ps_flags s' q = ps_flags s q)
}.

(** ** The page allocator *)

Section pmm.
Context `{BF : BootFrames}.

Lemma held_at s H p o : pmm_fr_ok s H -> H !! p = Some o -> 0 <= p < frame_count /\ p ≠ 0 /\
  total_page_count s = frame_count /\ frame_count * 4096 <= 2 ^ 52 /\
  exists g, pages_array s !! p = Some g /\ pg_refcount g = refs_of o /\ pg_order g = 0%nat.
Proof.
  intros [B [HB P2 Pc P3 _]] Hp; destruct (held_frame _ _ _ _ _ _ _ p HB Hp (in_own p)) as [Hr [g Hg]].
  rewrite Pc in *; split_and!; try done; [lia|lia| |].
  - intros ->; apply P3; exists 0, 0%nat, KAlloc; split; [by apply (hd_owned _ _ _ _ _ HB 0 o)|apply in_own].
  - exists g; split; [done|]; split; [by apply (hd_ref _ _ _ _ _ HB p o)|].
    destruct (hd_ok _ _ _ _ _ HB) as [_ [L HI]].
    by destruct (do_kind _ _ _ (i_descs _ _ _ _ HI) p _ _ g (hd_owned _ _ _ _ _ HB p o Hp) Hg) as (_ & _ & ?).
Qed.

Lemma held_place s H p o : pmm_fr_ok s H -> H !! p = Some o -> frame_addr (p * 4096).
Proof. intros Hok Hp; destruct (held_at _ _ _ _ Hok Hp) as (? & ? & _ & ? & _); split; [by exists p|lia]. Qed.

Lemma held_lookup s H p o : pmm_fr_ok s H -> H !! p = Some o -> frame_lookup (p * 4096) = Some p.
Proof.
  intros Hok Hp; destruct (held_at _ _ _ _ Hok Hp) as (? & _); unfold frame_lookup, PMM_PAGE_SHIFT.
  rewrite Z.shiftr_div_pow2 by lia; change (2 ^ 12) with 4096; rewrite Z.div_mul by lia; by rewrite decide_True by lia.
Qed.

Lemma lookup_page a p : frame_lookup a = Some p -> 0 <= a -> a = p * 4096 + a mod 4096.
Proof.
  unfold frame_lookup, PMM_PAGE_SHIFT; rewrite Z.shiftr_div_pow2 by lia; change (2 ^ 12) with 4096.
  case_decide; [|done]; intros [= <-] _; pose proof (Z.div_mod a 4096); lia.
Qed.

Lemma page_alloc s H cpu flags : pmm_fr_ok s H -> has_flag flags PAGE_FLAG_FREE = false ->
  exists r s', ps_alloc cpu 0 flags s = Ok (r, s') /\
    match r with
    | None => s' = s
    | Some p => H !! p = None /\ pmm_fr_ok s' (<[p := 1%nat]> H) /\
        (forall q o, H !! q = Some o -> ps_flags s' q = ps_flags s q)
    end.
Proof.
  intros [B HB] Hf; destruct (held_alloc _ _ s H B cpu 1 _ (pf_held _ _ _ HB) Hf eq_refl) as (r & s' & E & Hr).
  exists r, s'; split; [done|]; destruct r as [p|]; [|done]; destruct Hr as (Hn & _ & Hs & B' & HB' & HM).
  split_and!; [done|by eapply frames_machine|]; intros q o Hq; by apply (Hs q o).
Qed.

Lemma page_count s H p n : pmm_fr_ok s H -> H !! p = Some (S n) -> ps_refcount s p = Ok (Z.of_nat (S n)).
Proof.
  intros Hok Hp; destruct (held_at _ _ _ _ Hok Hp) as (_ & _ & _ & _ & g & Hg & Hr & _).
  cbn; unfold page_at; rewrite Hg; cbn; by rewrite Hr.
Qed.

Lemma page_free s H cpu p : pmm_fr_ok s H -> H !! p = Some 1%nat ->
  exists s', ps_free cpu (Some p) 0 s = Ok s' /\ pmm_fr_ok s' (delete p H) /\
    (forall q o, q ≠ p -> H !! q = Some o -> ps_flags s' q = ps_flags s q).
Proof.
  intros [B HB] Hp; destruct (held_free _ _ s H B cpu p 1 (pf_held _ _ _ HB) Hp eq_refl) as (s' & E & Hs & B' & HB' & HM).
  exists s'; split_and!; [done|by eapply frames_machine|]; intros q o Hne Hq; by apply (Hs q o).
Qed.

Lemma page_unref s H cpu p n : pmm_fr_ok s H -> H !! p = Some (S n) ->
  exists s', ps_unref cpu p s = Ok s' /\ pmm_fr_ok s' (dropped p n H) /\
    (forall q o, q ≠ p -> H !! q = Some o -> ps_flags s' q = ps_flags s q).
Proof.
  intros Hok Hp; destruct (held_at _ _ _ _ Hok Hp) as (_ & _ & _ & _ & g & Hg & _ & Ho).
  assert (E : ps_unref cpu p s = pmm_free_order s cpu (Some p) 0) by (unfold ps_unref, pmm_counts, pmm_page_unref, page_at; rewrite Hg; cbn [of_opt mbind res_bind]; by rewrite Ho).
  rewrite E; unfold dropped; destruct n as [|n]; [by apply page_free|]; destruct Hok as [B HB].
  destruct (held_drop _ _ s H B cpu p (S (S n)) (S n) (pf_held _ _ _ HB) Hp) as (s' & E' & HB' & HM & Hf);
    [done|unfold refs_of; rewrite !decide_False by done; lia..|].
  exists s'; split; [exact E'|]; split; [by eapply frames_machine|]; intros q o _ _; apply Hf.
Qed.

End pmm.

#[export] Instance pmm_count_laws `{BF : BootFrames} : CountLaws pmm := {
  ct_place := held_place;
  ct_lookup := held_lookup;
  ct_page := lookup_page;
  ct_alloc := page_alloc;
  ct_count := page_count;
  ct_free := page_free;
  ct_unref := page_unref
}.

(** ** Words of frames *)

Section frames.
Context {St : Type} `{!PageSource St} `{!FrameLaws St} `{!PageCounts St} `{!CountLaws St} `{!Machine St}.
Implicit Types m : mmu St.

Definition in_frame (p a : Z) : Prop := exists i, 0 <= i < 512 /\ a = p * 4096 + 8 * i.

Lemma page_paddr s H p o : fr_ok s H -> H !! p = Some o -> pmm_page_to_paddr p = p * 4096.
Proof.
  intros Hok Hp; destruct (ct_place _ _ _ _ Hok Hp) as [_ Hb]; unfold pmm_page_to_paddr, PMM_PAGE_SHIFT.
  rewrite Z.shiftl_mul_pow2 by lia; change (2 ^ 12) with 4096; apply u64_small; lia.
Qed.

(** A write to a frame that holds no table. *)
Lemma frame_words m G H w' p :
  tables_ok m G H -> H !! p ≠ Some 0%nat -> (forall a, ~ in_frame p a -> w' !! a = mm_words m !! a) ->
  tables_ok (with_words w' m) G H /\ same_walks G m (with_words w' m).
Proof.
  intros HT Hp Hw.
  assert (Hs : forall t l i, G !! t = Some l -> 0 <= i < 512 -> w' !! (t + 8 * i) = mm_words m !! (t + 8 * i)).
  { intros t l i Ht Hi; apply Hw; intros (j & Hj & E); destruct (to_frame _ _ _ HT _ _ Ht) as (q & f & -> & Hq & _).
    assert (q = p) as -> by lia; done. }
  split; [split; cbn|].
  - apply HT.
  - intros t l Ht; by eapply HT.
  - eapply tables_linked_ext; [apply HT|]; intros t l i Ht Hi; unfold entry_at; by erewrite Hs.
  - intros root v Hr Hv; by eapply walk_outside; [apply HT|..].
Qed.

(** The page allocator's state changes, not the tables' frames. *)
Lemma frames_change m G H s' H' :
  tables_ok m G H -> fr_ok s' H' ->
  (forall p, H !! p = Some 0%nat -> H' !! p = Some 0%nat /\ ps_flags s' p = ps_flags (mm_pages m) p) ->
  tables_ok (with_st s' m) G H'.
Proof.
  intros [T1 T2 T3] Hok Hs; split; [done| |done]; intros t l Ht; eapply table_frame_mono; [|by eapply T2]; auto.
Qed.

Lemma same_state m s : s = mm_pages m -> with_st s m = m.
Proof. intros ->; by destruct m. Qed.

Lemma alloc_page_ok m G H flags :
  tables_ok m G H -> has_flag flags PAGE_FLAG_FREE = false ->
  exists r m', alloc_page flags m = Ok (r, m') /\
    match r with
    | None => m' = m /\ ps_alloc this_cpu 0 flags (mm_pages m) = Ok (None, mm_pages m)
    | Some p => H !! p = None /\ tables_ok m' G (<[p := 1%nat]> H) /\ same_walks G m m' /\
        (forall a, ~ in_frame p a -> mm_words m' !! a = mm_words m !! a) /\
        (has_flag flags PAGE_FLAG_ZERO = true -> forall i, 0 <= i < 512 -> content (mm_words m') p i = 0) /\
        same_cpu m m' /\ mm_log m' = mm_log m
    end.
Proof.
  intros HT Hf; destruct (ct_alloc _ _ this_cpu _ (to_pages _ _ _ HT) Hf) as (r & s' & E & Hr).
  unfold alloc_page; rewrite E; mstep; destruct r as [p|]; [|eexists _, _; split; [done|]; split; [by apply same_state|by rewrite Hr]].
  destruct Hr as (Hn & Hok & Hfl); eexists _, _; split; [done|]; split; [done|].
  assert (Hp : <[p := 1%nat]> H !! p = Some 1%nat) by apply lookup_insert_eq.
  rewrite (page_paddr _ _ _ _ Hok Hp).
  assert (HT1 : tables_ok (with_st s' m) G (<[p := 1%nat]> H)).
  { eapply frames_change; [done..|]; intros q Hq; split; [rewrite lookup_insert_ne; congruence|by eapply Hfl]. }
  destruct (has_flag flags PAGE_FLAG_ZERO); [|by split_and!].
  assert (Hout : forall a, ~ in_frame p a -> clear_words (p * 4096) (mm_words m) !! a = mm_words m !! a).
  { intros a Ha; apply clear_words_out; intros i Hi ->; apply Ha; by exists i. }
  destruct (frame_words (with_st s' m) G _ (clear_words (p * 4096) (mm_words m)) p HT1 ltac:(congruence) Hout) as [HT2 Hw].
  split_and!; try done; intros _ i Hi; unfold content; cbn [mm_words with_words with_st]; by rewrite clear_words_in.
Qed.

Lemma free_page_ok m G H p :
  tables_ok m G H -> H !! p = Some 1%nat ->
  exists s', free_page p m = Ok (with_st s' m) /\ tables_ok (with_st s' m) G (delete p H).
Proof.
  intros HT Hp; destruct (ct_free _ _ this_cpu p (to_pages _ _ _ HT) Hp) as (s' & E & Hok & Hf).
  exists s'; unfold free_page; rewrite E; mstep; split; [done|]; eapply frames_change; [done..|].
  intros q Hq; assert (q ≠ p) by congruence; split; [by rewrite lookup_delete_ne|by eapply Hf].
Qed.

Lemma unref_page_ok m G H p n :
  tables_ok m G H -> H !! p = Some (S n) ->
  exists s', unref_page p m = Ok (with_st s' m) /\ tables_ok (with_st s' m) G (dropped p n H).
Proof.
  intros HT Hp; destruct (ct_unref _ _ this_cpu p n (to_pages _ _ _ HT) Hp) as (s' & E & Hok & Hf).
  exists s'; unfold unref_page; rewrite E; mstep; split; [done|]; eapply frames_change; [done..|].
  intros q Hq; assert (q ≠ p) by congruence; split; [|by eapply Hf]; unfold dropped; case_decide.
  - by rewrite lookup_delete_ne.
  - by rewrite lookup_insert_ne.
Qed.

(** [memcpy] of a page. *)
Lemma copy_words_out dst src w a : (forall i, 0 <= i < 512 -> a ≠ dst + 8 * i) -> copy_page_words dst src w !! a = w !! a.
Proof.
  intros Ha; unfold copy_page_words; assert (Hin : forall i, i ∈ seqZ 0 512 -> a ≠ dst + 8 * i) by (intros i Hi%elem_of_seqZ; apply Ha; lia).
  induction (seqZ 0 512) as [|i l IH]; cbn [foldr]; [done|].
  rewrite lookup_insert_ne by (intros E; by apply (Hin i); [left|]); apply IH; intros j Hj; apply Hin; by right.
Qed.

Lemma copy_words_in dst src w i : 0 <= i < 512 ->
  copy_page_words dst src w !! (dst + 8 * i) = Some (default 0 (w !! (src + 8 * i))).
Proof.
  intros Hi; unfold copy_page_words; assert (Hin : i ∈ seqZ 0 512) by (apply elem_of_seqZ; lia).
  induction (seqZ 0 512) as [|j l IH]; cbn [foldr]; [by apply elem_of_nil in Hin|].
  destruct (decide (j = i)) as [->|Hne]; [by rewrite lookup_insert_eq|].
  rewrite lookup_insert_ne by lia; apply IH; by apply elem_of_cons in Hin as [?|?].
Qed.

End frames.
