(* ===== verification/VmmFault.v ===== *)
(** * Page faults: a write to a page that is there

    [cow_fault]: the entry gets the right to write if the frame is in nobody else's hands,
    and a copy of the frame otherwise.  Other CPUs may change the entry in between. *)

From stdpp Require Import base tactics option list numbers gmap.
From Stdlib Require Import ZArith Lia.
From S2P Require Import Prelude Rbtree Vma Pmm PmmSpec SlabMem Slab Mmu MmuWalk MmuInv MmuTables MmuMap MmuUnmap MmuLookup MmuCtx.
From S2P Require Import Vmm VmmPages.

Local Open Scope Z_scope.

(** Other CPUs that acknowledge a flush leave memory and contexts alone. *)
Class Quiet (St : Type) `{!Machine St} := {
  pause_pages m : mm_pages (pause m) = mm_pages m;
  pause_words m : mm_words (pause m) = mm_words m;
  pause_ctxs m : mm_ctxs (pause m) = mm_ctxs m;
  pause_kernel m : mm_kernel (pause m) = mm_kernel m;
  pause_log m : exists l, mm_log (pause m) = l ++ mm_log m
}.

Section fault.
Context {St : Type} `{!PageSource St} `{!FrameLaws St} `{!PageCounts St} `{!CountLaws St} `{!Machine St} `{!Quiet St}.
Implicit Types m : mmu St.

(** ** Writing an entry of the last level *)

(** At the page of [v], [root] has the entry [x]; nothing else has changed. *)
Record paged (G : gmap Z nat) (root v x : Z) (w w' : gmap Z Z) : Prop := {
  pd_here v' : user v' -> same_down 1 v v' -> walk w' root v' = if has_flag x PT_PRESENT then Some (1%nat, x) else None;
  pd_there root' v' : G !! root' = Some 4%nat -> user v' -> ~ (root' = root /\ same_down 1 v v') ->
    walk w' root' v' = walk w root' v'
}.

Lemma linked_upper w w' G :
  linked_ok w G -> (forall t l i, G !! t = Some l -> l ≠ 1%nat -> 0 <= i < 512 -> entry_at w' t i = entry_at w t i) -> linked_ok w' G.
Proof.
  intros [L1 L2 L3 L4] He; split; [done|..].
  - intros t l i Ht Hl Hi; rewrite (He t (S l)) by (done || lia || apply Hi); by apply (L2 t l).
  - intros t i t' i' l Ht Ht' Hl Hi Hi'; rewrite (He t (S l)), (He t' (S l)) by (done || lia || apply Hi || apply Hi').
    by apply (L3 t i t' i' l).
  - intros t l i Ht Hl Hi; rewrite (He t (S l)) by (done || lia || apply Hi); by apply (L4 t l).
Qed.

Lemma pte_table m G H root v pt :
  tables_ok m G H -> G !! root = Some 4%nat -> user v -> reach (mm_words m) v 4 root 1 pt ->
  G !! pt = Some 1%nat /\ exists q, pt = q * 4096 /\ H !! q = Some 0%nat.
Proof.
  intros HT Hr Hv Hp; assert (Ht : G !! pt = Some 1%nat) by (eapply reach_table; [apply HT|done..]).
  split; [done|]; destruct (to_frame _ _ _ HT _ _ Ht) as (q & f & -> & Hq & _); by exists q.
Qed.

Lemma store_ok m G H root v pt x :
  tables_ok m G H -> G !! root = Some 4%nat -> user v -> reach (mm_words m) v 4 root 1 pt ->
  let m' := store (pt + 8 * idx 1 v) x m in
  tables_ok m' G H /\ reach (mm_words m') v 4 root 1 pt /\ paged G root v x (mm_words m) (mm_words m') /\
  pages_kept H (mm_words m) (mm_words m').
Proof.
  intros HT Hr Hv Hp m'; destruct (pte_table _ _ _ _ _ _ HT Hr Hv Hp) as (Ht & q & Eq & Hq).
  assert (He : forall t l i, G !! t = Some l -> 0 <= i < 512 -> ~ (t = pt /\ i = idx 1 v) ->
    mm_words m' !! (t + 8 * i) = mm_words m !! (t + 8 * i)).
  { intros t l i Hl Hi Hn; cbn; rewrite lookup_insert_ne; [done|]; intros E; apply Hn; symmetry in E.
    eapply (slot_inj m G H t l i pt 1); auto using idx_range. }
  assert (Hreach : reach (mm_words m') v 4 root 1 pt) by (eapply reach_same; [apply HT|done..]).
  split; [|split; [done|split; [split|]]].
  - split; [apply HT|intros t l Hl; by eapply HT|]; eapply linked_upper; [apply HT|]; intros t l i Hl Hl1 Hi.
    unfold entry_at; rewrite (He t l i); [done..|]; intros [-> _]; congruence.
  - intros v' Hv' Hs; rewrite (walk_same_down _ _ v) by done; unfold walk; rewrite (walk_reach _ _ _ _ _ _ Hreach); cbn [walk_from].
    assert (Ex : entry_at (mm_words m') pt (idx 1 v) = x) by (unfold entry_at; cbn; by rewrite lookup_insert_eq).
    rewrite Ex; by destruct (has_flag x PT_PRESENT).
  - intros root' v' Hr' Hv' Hn; exact (walk_write m G H root v 1 pt x root' v' HT Hr Hv Hp Hr' Hv' Hn).
  - intros p n i Hpn Hi; unfold content; cbn; rewrite lookup_insert_ne; [done|]; pose proof (idx_range 1 v).
    intros E; assert (p = q) as -> by lia; congruence.
Qed.

(** ** Flushing *)

(** Memory, frames and contexts are the same. *)
Record same_memory m m' : Prop := {
  sy_pages : mm_pages m' = mm_pages m;
  sy_words : mm_words m' = mm_words m;
  sy_ctxs : mm_ctxs m' = mm_ctxs m;
  sy_kernel : mm_kernel m' = mm_kernel m
}.

Lemma wait_acks_ok n m : same_memory m (wait_acks pause n m) /\ exists l, mm_log (wait_acks pause n m) = l ++ mm_log m.
Proof.
  revert m; induction n as [|n IH]; intros m; cbn [wait_acks]; [split; [by split|by exists []]|].
  case_decide; [|split; [by split|by exists []]]; destruct (IH (pause m)) as [[A1 A2 A3 A4] [l El]].
  destruct (pause_log m) as [l' El']; split; [|exists (l ++ l'); by rewrite El, El', app_assoc].
  split; by rewrite ?A1, ?A2, ?A3, ?A4, ?pause_pages, ?pause_words, ?pause_ctxs, ?pause_kernel.
Qed.

Lemma flush_page_ok active v m : exists m', flush_page active v m = Ok m' /\ same_memory m m' /\ FlushPage v ∈ mm_log m'.
Proof.
  unfold flush_page, flush_cpus, mmu_tlb_shootdown_target, flush_range; rewrite decide_False by lia.
  unfold mmu_tlb_shootdown; cbn [Z.to_nat Pos.to_nat Pos.iter_op Nat.add for_up]; mstep.
  repeat case_decide; try (eexists; split; [done|]; split; [by split|]; cbn; apply elem_of_cons; right; by left).
  eexists; split; [done|]; match goal with |- context [wait_acks pause ?n ?m1] => destruct (wait_acks_ok n m1) as [[A1 A2 A3 A4] [l El]] end.
  split; [split; by rewrite ?A1, ?A2, ?A3, ?A4|]; rewrite El; cbn; apply elem_of_app; right; apply elem_of_app; right.
  apply elem_of_cons; right; by left.
Qed.

(** ** The compare-and-exchange loop *)

(** The entry at [ptr] is [c], the other words are as before. *)
Definition put (ptr c : Z) (w w' : gmap Z Z) : Prop := default 0 (w' !! ptr) = c /\ (w' = w \/ w' = <[ptr := c]> w).

Lemma put_same ptr w : put ptr (default 0 (w !! ptr)) w w.
Proof. split; [done|by left]. Qed.

Lemma put_set ptr c w : put ptr c w (<[ptr := c]> w).
Proof. split; [by rewrite lookup_insert_eq|by right]. Qed.

Lemma put_over ptr c d w w' : put ptr c (<[ptr := d]> w) w' -> put ptr c w w'.
Proof.
  intros [E [->| ->]]; [|rewrite insert_insert_eq; apply put_set].
  rewrite lookup_insert_eq in E; cbn in E; subst; apply put_set.
Qed.

Lemma put_ok m m' G H root v pt x :
  tables_ok m G H -> G !! root = Some 4%nat -> user v -> reach (mm_words m) v 4 root 1 pt ->
  put (pt + 8 * idx 1 v) x (mm_words m) (mm_words m') ->
  (mm_pages m' = mm_pages m -> tables_ok m' G H) /\ paged G root v x (mm_words m) (mm_words m') /\
  pages_kept H (mm_words m) (mm_words m').
Proof.
  intros HT Hr Hv Hp [Ex [E| E]].
  - split; [intros; by eapply tables_ok_ext|]; rewrite E in *; split; [split; [|done]|done]; intros v' Hv' Hs.
    rewrite (walk_same_down _ _ v) by done; unfold walk; rewrite (walk_reach _ _ _ _ _ _ Hp); cbn [walk_from].
    change (entry_at (mm_words m) pt (idx 1 v)) with (default 0 (mm_words m !! (pt + 8 * idx 1 v))); rewrite Ex.
    by destruct (has_flag x PT_PRESENT).
  - destruct (store_ok m G H root v pt x HT Hr Hv Hp) as (S1 & _ & S2 & S3); cbn in S2, S3; rewrite E.
    split; [intros Ep; by eapply tables_ok_ext; [..|exact S1]|done].
Qed.

Definition writable (c : Z) : bool := has_flag c PT_PRESENT && has_flag c PT_RW.

(** How the loop ends: with the new entry in place of [c]; or the new page is given back
    because another CPU has made the page writable, or has changed the entry. *)
Record swapped (seen : list Z) (vma : vm_area) (q old cur ptr v : Z) (G H : gmap Z nat) m (o : option Z) m' : Prop := {
  sw_ctxs : mm_ctxs m' = mm_ctxs m;
  sw_kernel : mm_kernel m' = mm_kernel m;
  sw_entry : exists c, (c = cur \/ c ∈ seen) /\
    match o with
    | None => mm_words m' = <[ptr := desired_pte vma (q * 4096) c]> (mm_words m) /\ writable c = false /\
        andnot c hw_bits = andnot old hw_bits /\ tables_ok m' G (<[q := 1%nat]> H)
    | Some r => put ptr c (mm_words m) (mm_words m') /\ tables_ok m' G H /\
        (r = 0 /\ writable c = true /\ FlushPage v ∈ mm_log m' \/
         r = - EFAULT /\ writable c = false /\ andnot c hw_bits <> andnot old hw_bits)
    end
}.

Lemma swap_loop_ok seen vma q old cur active m G H root v pt :
  let ptr := pt + 8 * idx 1 v in
  tables_ok m G (<[q := 1%nat]> H) -> H !! q = None -> G !! root = Some 4%nat -> user v -> reach (mm_words m) v 4 root 1 pt ->
  load ptr m = cur ->
  exists o m', exchange_loop seen vma q old cur active ptr v m = Ok (o, m') /\ swapped seen vma q old cur ptr v G H m o m'.
Proof.
  intros ptr; revert cur m; induction seen as [|x seen IH]; intros cur m HT Hq Hr Hv Hp Hl; cbn [exchange_loop].
  all: assert (Hq1 : <[q := 1%nat]> H !! q = Some 1%nat) by apply lookup_insert_eq.
  all: destruct (free_page_ok m G _ q HT Hq1) as (s' & Ef & HT'); rewrite delete_insert_id in HT' by done.
  all: rewrite (page_paddr _ _ _ _ (to_pages _ _ _ HT) Hq1).
  all: destruct (has_flag cur PT_PRESENT && has_flag cur PT_RW) eqn:Ew;
    [rewrite Ef; mstep; destruct (flush_page_ok active v (with_st s' m)) as (m2 & -> & [F1 F2 F3 F4] & F5); mstep;
     eexists _, _; split; [done|]; split; [done..|]; exists cur; split; [by left|]; split; [rewrite F2; cbn; subst cur; apply put_same|];
     split; [by eapply tables_ok_ext|by left]|].
  all: case_decide as Hc; [rewrite Ef; mstep; eexists _, _; split; [done|]; split; [done..|]; exists cur; split; [by left|];
     split; [cbn; subst cur; apply put_same|]; split; [done|by right]|].
  - eexists _, _; split; [done|]; split; [done..|]; exists cur; split; [by left|]; split_and!; try done.
    by destruct (store_ok m G _ root v pt (desired_pte vma (q * 4096) cur) HT Hr Hv Hp) as (? & _).
  - destruct (store_ok m G _ root v pt x HT Hr Hv Hp) as (S1 & S2 & _); case_decide as Hx.
    + eexists _, _; split; [done|]; split; [done..|]; exists cur; split; [by left|]; split_and!; try done; [cbn; apply insert_insert_eq|].
      by destruct (store_ok _ G _ root v pt (desired_pte vma (q * 4096) cur) S1 Hr Hv S2) as (? & _).
    + destruct (IH x (store ptr x m) S1 Hq Hr Hv S2) as (o & m' & E & [W1 W2 (c & Hc' & W3)]).
      { unfold load, store; cbn; by rewrite lookup_insert_eq. }
      exists o, m'; split; [done|]; split; [done..|]; exists c; split; [right; apply elem_of_cons; tauto|].
      destruct o as [r|]; [destruct W3 as (W3 & W4 & W5); split; [exact (put_over _ _ _ _ _ W3)|done]|].
      destruct W3 as (W3 & W4); split; [|done]; rewrite W3; cbn; apply insert_insert_eq.
Qed.

(** ** The fault *)

Lemma frame_of_entry e p : fr_lookup (Z.land e PT_ADDR_MASK) = Some p -> Z.land e PT_ADDR_MASK = p * 4096.
Proof.
  intros Hp; assert (Hn : 0 <= Z.land e PT_ADDR_MASK) by (by apply mask_nonneg).
  rewrite (ct_page _ _ Hp Hn); replace (Z.land e PT_ADDR_MASK mod 4096) with 0; [lia|].
  change 4096 with (2 ^ 12); rewrite <- Z.land_ones, <- Z.land_assoc by lia; change (Z.land PT_ADDR_MASK (Z.ones 12)) with 0.
  by rewrite Z.land_0_r.
Qed.

(** The outcome of a write to a page of frame [p], which has [S n] references. *)
Inductive cow_result (seen : list Z) (zero : option Z) (vma : vm_area) (root v e p : Z) (n : nat) m (G H : gmap Z nat) : Z -> mmu St -> Prop :=
| cow_alone m' :
    n = 0%nat -> zero ≠ Some p -> tables_ok m' G H -> paged G root v (Z.lor e PT_RW) (mm_words m) (mm_words m') ->
    pages_kept H (mm_words m) (mm_words m') -> FlushPage v ∈ mm_log m' -> cow_result seen zero vma root v e p n m G H 0 m'
| cow_no_memory :
    ps_alloc this_cpu 0 0 (mm_pages m) = Ok (None, mm_pages m) -> cow_result seen zero vma root v e p n m G H (- ENOMEM) m
| cow_copied q c m' :
    H !! q = None -> c = e \/ c ∈ seen -> writable c = false -> andnot c hw_bits = andnot e hw_bits ->
    tables_ok m' G (<[q := 1%nat]> (if decide (zero = Some p) then H else dropped p n H)) ->
    paged G root v (desired_pte vma (q * 4096) c) (mm_words m) (mm_words m') ->
    pages_kept H (mm_words m) (mm_words m') -> (forall i, 0 <= i < 512 -> content (mm_words m') q i = content (mm_words m) p i) ->
    FlushPage v ∈ mm_log m' -> cow_result seen zero vma root v e p n m G H 0 m'
| cow_raced r c m' :
    c = e \/ c ∈ seen -> tables_ok m' G H -> paged G root v c (mm_words m) (mm_words m') -> pages_kept H (mm_words m) (mm_words m') ->
    (r = 0 /\ writable c = true /\ FlushPage v ∈ mm_log m' \/ r = - EFAULT /\ writable c = false /\ andnot c hw_bits <> andnot e hw_bits) ->
    cow_result seen zero vma root v e p n m G H r m'.

Lemma make_writable_ok active m G H root v pt :
  tables_ok m G H -> G !! root = Some 4%nat -> user v -> reach (mm_words m) v 4 root 1 pt ->
  let ptr := pt + 8 * idx 1 v in
  exists m', make_writable active ptr v m = Ok (0, m') /\ tables_ok m' G H /\
    paged G root v (Z.lor (load ptr m) PT_RW) (mm_words m) (mm_words m') /\ pages_kept H (mm_words m) (mm_words m') /\
    FlushPage v ∈ mm_log m' /\ mm_ctxs m' = mm_ctxs m /\ mm_kernel m' = mm_kernel m.
Proof.
  intros HT Hr Hv Hp ptr; destruct (store_ok m G H root v pt (Z.lor (load ptr m) PT_RW) HT Hr Hv Hp) as (S1 & _ & S2 & S3).
  unfold make_writable; fold ptr in S1, S2, S3.
  destruct (flush_page_ok active v (store ptr (Z.lor (load ptr m) PT_RW) m)) as (m' & -> & [F1 F2 F3 F4] & F5); mstep.
  exists m'; rewrite F2; split_and!; try done; by eapply tables_ok_ext.
Qed.

(** The entry of a page that is there. *)
Lemma pte_of m G H ctx root v e :
  tables_ok m G H -> G !! root = Some 4%nat -> user v -> pml4_of ctx m = Ok root -> Z.land v PAGE_MASK = 0 ->
  walk (mm_words m) root v = Some (1%nat, e) ->
  exists pt, mmu_get_pte_ptr ctx v m = Ok (pt + 8 * idx 1 v) /\ pt + 8 * idx 1 v ≠ 0 /\
    reach (mm_words m) v 4 root 1 pt /\ load (pt + 8 * idx 1 v) m = e.
Proof.
  intros HT Hr Hv Hc Ha Hw; assert (Hr0 : root ≠ 0) by (by eapply root_nonzero).
  destruct (get_pte_ptr_ok m G H ctx root v HT Hr Hv Hc Hr0 Ha) as (r & E & HR).
  case_decide as Hr1; [by destruct (HR e)|]; destruct HR as (pt & -> & Hp & Hw'); exists pt; split_and!; try done.
  unfold load; rewrite Hw in Hw'; cbv zeta in Hw'; destruct (has_flag _ _); congruence.
Qed.

(** A copy of the frame, and the entry that other CPUs may change. *)
Lemma copy_page_ok m G H root v pt p n q :
  tables_ok m G (<[q := 1%nat]> H) -> H !! q = None -> H !! p = Some (S n) ->
  G !! root = Some 4%nat -> user v -> reach (mm_words m) v 4 root 1 pt ->
  let m1 := with_words (copy_page_words (q * 4096) (p * 4096) (mm_words m)) m in
  tables_ok m1 G (<[q := 1%nat]> H) /\ same_walks G m m1 /\ reach (mm_words m1) v 4 root 1 pt /\
  load (pt + 8 * idx 1 v) m1 = load (pt + 8 * idx 1 v) m /\ pages_kept H (mm_words m) (mm_words m1) /\
  (forall i, 0 <= i < 512 -> content (mm_words m1) q i = content (mm_words m) p i).
Proof.
  intros HT Hq Hpn Hr Hv Hp m1; assert (Hq1 : <[q := 1%nat]> H !! q = Some 1%nat) by apply lookup_insert_eq.
  assert (Ho : forall a, ~ in_frame q a -> mm_words m1 !! a = mm_words m !! a).
  { intros a Ha; apply copy_words_out; intros i Hi ->; apply Ha; by exists i. }
  destruct (frame_words m G _ (mm_words m1) q HT ltac:(congruence) Ho) as [HT1 Hw].
  assert (Ht : forall t l i, G !! t = Some l -> 0 <= i < 512 -> mm_words m1 !! (t + 8 * i) = mm_words m !! (t + 8 * i)).
  { intros t l i Ht Hi; apply Ho; intros (j & Hj & E); destruct (to_frame _ _ _ HT _ _ Ht) as (x & f & -> & Hx & _).
    assert (x = q) as -> by lia; congruence. }
  destruct (pte_table _ _ _ _ _ _ HT Hr Hv Hp) as (Hpt & _); split_and!; try done.
  - eapply reach_ext; [exact Hp|]; intros l1 t1 _ Hp1; eapply Ht; [|apply idx_range].
    by eapply reach_table; [apply HT|..].
  - unfold load; rewrite (Ht pt 1%nat) by (done || apply idx_range); done.
  - intros x k i Hx Hi; unfold content; rewrite Ho; [done|]; intros (j & Hj & E); assert (x = q) as -> by lia; congruence.
  - intros i Hi; unfold content; cbn [mm_words with_words]; unfold m1; cbn [mm_words with_words]; by rewrite copy_words_in.
Qed.

Lemma paged_before G root v x m m1 w' : same_walks G m m1 -> paged G root v x (mm_words m1) w' -> paged G root v x (mm_words m) w'.
Proof. intros Hs [P1 P2]; split; [done|]; intros root' v' Hr Hv Hn; rewrite P2 by done; by apply Hs. Qed.

(** The first look at the entry after the copy. *)
Lemma look_ok seen m G H root v pt :
  tables_ok m G H -> G !! root = Some 4%nat -> user v -> reach (mm_words m) v 4 root 1 pt ->
  let ptr := pt + 8 * idx 1 v in
  let m1 := match seen with x :: _ => store ptr x m | [] => m end in
  tables_ok m1 G H /\ reach (mm_words m1) v 4 root 1 pt /\ (load ptr m1 = load ptr m \/ load ptr m1 ∈ seen) /\
  (mm_words m1 = mm_words m \/ exists d, mm_words m1 = <[ptr := d]> (mm_words m)) /\
  mm_ctxs m1 = mm_ctxs m /\ mm_kernel m1 = mm_kernel m /\ mm_pages m1 = mm_pages m.
Proof.
  intros HT Hr Hv Hp ptr m1; destruct seen as [|x seen]; [split_and!; auto|].
  destruct (store_ok m G H root v pt x HT Hr Hv Hp) as (S1 & S2 & _); split_and!; try done; [|by right; eexists].
  right; unfold m1, load; cbn; rewrite lookup_insert_eq; by left.
Qed.

Lemma put_look ptr c w w1 w' :
  (w1 = w \/ exists d, w1 = <[ptr := d]> w) -> put ptr c w1 w' -> put ptr c w w'.
Proof. intros [->|[d ->]]; [done|apply put_over]. Qed.

(** After the new frame [q] is there. *)
Lemma cow_exchange_ok seen zero vma x root v e p n q m0 m G H :
  tables_ok m G (<[q := 1%nat]> H) -> H !! q = None -> H !! p = Some (S n) -> (zero ≠ Some p -> n ≠ 0%nat) ->
  G !! root = Some 4%nat -> user v -> same_walks G m0 m -> pages_kept H (mm_words m0) (mm_words m) ->
  mm_ctxs m = mm_ctxs m0 -> mm_kernel m = mm_kernel m0 ->
  forall pt, reach (mm_words m) v 4 root 1 pt -> load (pt + 8 * idx 1 v) m = e ->
  let ptr := pt + 8 * idx 1 v in
  let m1 := with_words (copy_page_words (q * 4096) (p * 4096) (mm_words m)) m in
  let m2 := match seen with y :: _ => store ptr y m1 | [] => m1 end in
  exists r m', ('(r, m') ← exchange_loop (tail seen) vma q e (load ptr m2) (sp_active x) ptr v m2;
     match r with
     | Some r => Ok (r, m')
     | None =>
         m' ← (if decide (zero = Some p) then Ok m' else unref_page p m');
         m' ← flush_page (sp_active x) v m';
         Ok (0, m')
     end) = Ok (r, m') /\ mm_ctxs m' = mm_ctxs m0 /\ mm_kernel m' = mm_kernel m0 /\ cow_result seen zero vma root v e p n m0 G H r m'.
Proof.
  intros HT Hq Hp Hz Hr Hv Hw0 Hk0 Hc0 Hke0 pt Hrch He ptr m1 m2.
  destruct (copy_page_ok m G H root v pt p n q HT Hq Hp Hr Hv Hrch) as (C1 & C2 & C3 & C4 & C5 & C6); fold m1 in C1, C2, C3, C4, C5, C6.
  destruct (look_ok seen m1 G _ root v pt C1 Hr Hv C3) as (L1 & L2 & L3 & L4 & L5 & L6 & L7); fold ptr m2 in L1, L2, L3, L4, L5, L6, L7.
  pose proof (swap_loop_ok (tail seen) vma q e (load ptr m2) (sp_active x) m2 G H root v pt L1 Hq Hr Hv L2 eq_refl) as HS.
  cbv zeta in HS; fold ptr in HS; destruct HS as (o & m3 & -> & [W1 W2 (c & Hc & W3)]); mstep.
  assert (Hce : c = e \/ c ∈ seen).
  { destruct Hc as [->|Hc]; [destruct L3 as [->|]; [left; etrans; [exact C4|done]|by right]|]. 
    right; destruct seen; [done|by right]. }
  assert (Hqp : q ≠ p) by congruence.
  assert (Hbase : same_walks G m0 m1) by (intros root' v' Hr' Hv'; rewrite C2 by done; by apply Hw0).
  assert (Hkept : pages_kept H (mm_words m0) (mm_words m1)) by (by eapply pages_kept_trans).
  destruct o as [r|].
  - destruct W3 as (W3 & W4 & W5); pose proof (put_look _ _ _ _ _ L4 W3) as Hput.
    destruct (put_ok m1 m3 G _ root v pt c C1 Hr Hv C3 Hput) as (_ & P1 & P2).
    exists r, m3; split; [done|]; split; [by rewrite W1, L5|]; split; [by rewrite W2, L6|].
    eapply cow_raced; [exact Hce|done|by eapply paged_before| |done].
    eapply pages_kept_trans; [exact Hkept|]; eapply pages_kept_less; [|exact P2]; by apply insert_subseteq.
  - destruct W3 as (W3 & W4 & W5 & W6).
    assert (Hput : put ptr (desired_pte vma (q * 4096) c) (mm_words m1) (mm_words m3)).
    { eapply put_look; [exact L4|]; rewrite W3; apply put_set. }
    destruct (put_ok m1 m3 G _ root v pt _ C1 Hr Hv C3 Hput) as (_ & P1 & P2).
    assert (Hdrop : exists m4, (if decide (zero = Some p) then Ok m3 else unref_page p m3) = Ok m4 /\ mm_words m4 = mm_words m3 /\
      mm_ctxs m4 = mm_ctxs m3 /\ mm_kernel m4 = mm_kernel m3 /\
      tables_ok m4 G (<[q := 1%nat]> (if decide (zero = Some p) then H else dropped p n H))).
    { destruct (decide (zero = Some p)) as [?|Hne]; [by exists m3|].
      destruct (unref_page_ok m3 G _ p n W6) as (s' & -> & HT'); [by rewrite lookup_insert_ne|].
      eexists; split; [done|]; split_and!; try done; revert HT'; unfold dropped; rewrite !decide_False by auto.
      rewrite (insert_insert_ne H q p) by done; intros HT'; exact HT'. }
    destruct Hdrop as (m4 & -> & D1 & D2 & D3 & D4); mstep.
    destruct (flush_page_ok (sp_active x) v m4) as (m5 & -> & [F1 F2 F3 F4] & F5); mstep.
    assert (Hk5 : pages_kept (<[q := 1%nat]> H) (mm_words m1) (mm_words m5)) by (by rewrite F2, D1).
    exists 0, m5; split; [done|]; split; [by rewrite F3, D2, W1, L5|]; split; [by rewrite F4, D3, W2, L6|].
    eapply (cow_copied _ _ _ _ _ _ _ _ _ _ _ q c); try done.
    + by eapply tables_ok_ext.
    + eapply paged_before; [done|]; by rewrite F2, D1.
    + eapply pages_kept_trans; [exact Hkept|]; eapply pages_kept_less; [|exact Hk5]; by apply insert_subseteq.
    + intros i Hi; rewrite (Hk5 q 0%nat i) by (done || apply lookup_insert_eq); rewrite C6 by done; by apply (Hk0 p n).
Qed.

Lemma cow_fault_ok seen zero vma x m G H root v e p n :
  tables_ok m G H -> G !! root = Some 4%nat -> user v -> pml4_of (sp_ctx x) m = Ok root -> Z.land v PAGE_MASK = 0 ->
  walk (mm_words m) root v = Some (1%nat, e) -> fr_lookup (Z.land e PT_ADDR_MASK) = Some p -> H !! p = Some (S n) ->
  has_flag (a_flags vma) VMA_FLAG_SHARED = false ->
  exists r m', cow_fault seen zero vma x v m = Ok (r, m') /\ mm_ctxs m' = mm_ctxs m /\ mm_kernel m' = mm_kernel m /\
    cow_result seen zero vma root v e p n m G H r m'.
Proof.
  intros HT Hr Hv Hc Ha Hw Hf Hp Hs; destruct (pte_of m G H (sp_ctx x) root v e HT Hr Hv Hc Ha Hw) as (pt & E & E0 & Hrch & He).
  unfold cow_fault; rewrite E; mstep; rewrite decide_False by done; cbv zeta; rewrite He.
  rewrite (fr_lookup_ok _ _ _ (to_pages _ _ _ HT)), Hf by (by apply mask_nonneg); rewrite Hs, (frame_of_entry e p Hf).
  assert (Halone : (if decide (zero = Some p) then Ok false else r ← ps_refcount (mm_pages m) p; Ok (bool_decide (r = 1))) =
    Ok (bool_decide (zero ≠ Some p /\ n = 0%nat))).
  { case_decide as Hz; [by rewrite bool_decide_false by tauto|]; rewrite (ct_count _ _ _ _ (to_pages _ _ _ HT) Hp); mstep.
    f_equal; apply bool_decide_ext; split; [intros; split; [done|lia]|intros [_ ->]; done]. }
  rewrite Halone; mstep; destruct (bool_decide _) eqn:Eb; [apply bool_decide_eq_true in Eb as [Hz ->]|apply bool_decide_eq_false in Eb].
  - destruct (make_writable_ok (sp_active x) m G H root v pt HT Hr Hv Hrch) as (m' & -> & M1 & M2 & M3 & M4 & M5 & M6).
    exists 0, m'; split_and!; try done; apply cow_alone; try done; by rewrite <- He.
  - destruct (alloc_page_ok m G H 0 HT eq_refl) as (r & m1 & -> & Hr1); mstep; destruct r as [q|].
    2: { destruct Hr1 as [-> Hn]; exists (- ENOMEM), m; split_and!; try done; by apply cow_no_memory. }
    destruct Hr1 as (Hq & HT1 & Hw1 & Ho1 & _ & Hc1 & _).
    rewrite (page_paddr _ _ q 1%nat (to_pages _ _ _ HT1)) by apply lookup_insert_eq.
    assert (Hk1 : forall a, in_frame q a -> forall y k i, H !! y = Some k -> 0 <= i < 512 -> a ≠ y * 4096 + 8 * i).
    { intros a (j & Hj & ->) y k i Hy Hi Ea; assert (y = q) as -> by lia; congruence. }
    assert (Ht : forall t l i, G !! t = Some l -> 0 <= i < 512 -> mm_words m1 !! (t + 8 * i) = mm_words m !! (t + 8 * i)).
    { intros t l i Ht Hi; apply Ho1; intros Hin; destruct (to_frame _ _ _ HT _ _ Ht) as (y & f & -> & Hy & _).
      by apply (Hk1 _ Hin y 0%nat i). }
    destruct (pte_table _ _ _ _ _ _ HT Hr Hv Hrch) as (Hpt & _).
    apply cow_exchange_ok; try done.
    + intros Hz Hn; apply Eb; done.
    + intros y k i Hy Hi; unfold content; rewrite Ho1; [done|]; intros Hin; by apply (Hk1 _ Hin y (S k) i).
    + apply Hc1.
    + apply Hc1.
    + eapply reach_ext; [exact Hrch|]; intros l1 t1 _ Hp1; eapply Ht; [|apply idx_range]; by eapply reach_table; [apply HT|..].
    + unfold load in *; rewrite (Ht pt 1%nat) by (done || apply idx_range); done.
Qed.

End fault.
