(* ===== verification/VmmHandler.v ===== *)
(** * Page faults: the handler

    [vmm_handle_page_fault] on an address that lies in an area: which faults are refused,
    what is mapped on the first access, and how a write to a shared frame is answered. *)

From stdpp Require Import base tactics option list numbers gmap.
From Stdlib Require Import ZArith Lia.
From S2P Require Import Prelude Rbtree RbtreeSpec Vma VmaSpec Pmm PmmSpec SlabMem Slab Mmu MmuWalk MmuInv MmuTables MmuMap MmuUnmap MmuLookup MmuCtx MmuSession.
From S2P Require Import Vmm VmmPages VmmFault.

Local Open Scope Z_scope.

(** ** Pages *)

Lemma andnot_bits f k : 0 <= f < 2 ^ 64 -> 0 <= k -> Z.testbit (andnot f PAGE_MASK) k = Z.testbit f k && bool_decide (12 <= k).
Proof.
  intros Hf Hk; unfold andnot; change (u64 (Z.lnot PAGE_MASK)) with (Z.shiftl (Z.ones 52) 12).
  rewrite Z.land_spec, Z.shiftl_spec by done; destruct (decide (12 <= k)).
  - rewrite Z.testbit_ones_nonneg, (bool_decide_true (12 <= k)) by lia; destruct (Z.ltb_spec (k - 12) 52); [done|].
    rewrite andb_false_r, andb_true_r; symmetry; destruct (decide (f = 0)) as [->|]; [by rewrite Z.testbit_0_l|].
    apply Z.bits_above_log2; [lia|]; apply Z.log2_lt_pow2; [lia|]; apply (Z.lt_le_trans _ (2 ^ 64)); [lia|apply Z.pow_le_mono_r; lia].
  - rewrite (Z.testbit_neg_r (Z.ones 52)), (bool_decide_false (12 <= k)) by lia; by rewrite !andb_false_r.
Qed.

Lemma page_base f : 0 <= f < 2 ^ 64 -> same_down 1 (andnot f PAGE_MASK) f /\ Z.land (andnot f PAGE_MASK) PAGE_MASK = 0.
Proof.
  intros Hf; split.
  - intros j Hj; unfold idx; apply Z.bits_inj'; intros k Hk; rewrite !Z.land_spec, !Z.shiftr_spec by lia.
    rewrite andnot_bits by lia; rewrite (bool_decide_true (12 <= _)) by lia; by rewrite andb_true_r.
  - apply Z.bits_inj'; intros k Hk; rewrite Z.land_spec, andnot_bits, Z.bits_0 by lia; change PAGE_MASK with (Z.ones 12).
    rewrite Z.testbit_ones_nonneg by lia; destruct (Z.ltb_spec k 12); [rewrite (bool_decide_false (12 <= k)) by lia|];
      by rewrite ?andb_false_r.
Qed.

Lemma same_user l v v' : (l <= 4)%nat -> same_down l v v' -> user v' -> user v.
Proof. intros Hl Hs; unfold user; by rewrite (Hs 4%nat) by lia. Qed.

Section handler.
Context {St : Type} `{!PageSource St} `{!FrameLaws St} `{!PageRefs St} `{!PageCounts St} `{!CountLaws St} `{!Machine St} `{!Quiet St}.
Implicit Types m : mmu St.
Implicit Types s : vmm St.

(** ** The way to the area *)

(** The space at [sp], with the area [a] around [f]. *)
Record faults_in s (sp f : Z) (x : space) (a : vm_area) : Prop := {
  fi_space : sp ≠ 0 /\ vm_spaces s !! sp = Some x;
  fi_addr : 0 <= f < 2 ^ 63 /\ user f;
  fi_area : exists t y, vmas_ok (sp_vmas x) t /\ (length (elems t) < steps)%nat /\ y ∈ elems t /\
    vs_areas (sp_vmas x) !! y = Some a /\ a_start a <= f < a_end a
}.

Definition refused (error_code : Z) (a : vm_area) : bool :=
  has_flag error_code 2 && negb (has_flag (a_flags a) VMA_FLAG_WRITE) && negb (has_flag (a_flags a) VMA_FLAG_COW) ||
  has_flag error_code 16 && negb (has_flag (a_flags a) VMA_FLAG_EXEC).

Lemma same_space space x s : vm_spaces s !! space = Some x -> set_space space (with_vmas (sp_vmas x) x) s = s.
Proof. intros E; destruct s, x; unfold set_space, with_spaces, with_vmas; cbn in *; by rewrite insert_id. Qed.

Lemma fault_found seen space f error_code rsp s x a :
  faults_in s space f x a ->
  vmm_handle_page_fault seen space f error_code rsp s =
    if refused error_code a then Ok (- EACCES, s)
    else if negb (has_flag error_code 1) then
      '(r, m) ← demand_page (vm_zero_paddr s) error_code a (sp_ctx x) (andnot f PAGE_MASK) (vm_mmu s); Ok (r, with_mmu m s)
    else if has_flag error_code 2 then
      '(r, m) ← cow_fault seen (vm_zero s) a x (andnot f PAGE_MASK) (vm_mmu s); Ok (r, with_mmu m s)
    else Ok (- EACCES, s).
Proof.
  intros [[Hs0 Hx] [Hf _] (t & y & Hv & Hl & Hy & Ha & Hr)]; unfold vmm_handle_page_fault.
  rewrite decide_False by lia; cbv zeta; unfold space_at at 1; rewrite decide_False, Hx by done; cbn [of_opt]; mstep.
  destruct (vma_find_exact steps f (sp_vmas x) t Hv Hl) as (z & -> & Hz); mstep.
  assert (z = y) as -> by (apply Hz; [done|]; by exists a).
  assert (Hy0 : y ≠ 0) by (intros ->; by apply (h_null _ _ _ _ (vo_holds _ _ Hv))).
  rewrite (decide_False (P := y = 0)) by done; mstep; rewrite (same_space space x s Hx), (area_at_some _ _ _ Hy0 Ha); mstep.
  unfold refused; destruct (has_flag error_code 2); destruct (has_flag (a_flags a) VMA_FLAG_WRITE), (has_flag (a_flags a) VMA_FLAG_COW);
    cbn [andb negb orb]; try done; by destruct (has_flag error_code 16 && _).
Qed.

(** ** Demand paging *)

Definition demand_flags (a : vm_area) : Z :=
  let f := Z.lor MMU_PROT_READ MMU_PROT_USER in
  let f := if has_flag (a_flags a) VMA_FLAG_WRITE then Z.lor f MMU_PROT_WRITE else f in
  if has_flag (a_flags a) VMA_FLAG_EXEC then Z.lor f MMU_PROT_EXEC else f.

(** What the first access to a page maps: the page of zeros for a read, a fresh page of
    zeros for a write.  The answer [r'] of [mmu_map_page] is not looked at. *)
Inductive demand_result (zero_paddr error_code : Z) (a : vm_area) (root v : Z) m (G H : gmap Z nat) : Z -> mmu St -> Prop :=
| demand_zero r' m' :
    has_flag error_code 2 = false -> zero_paddr ≠ 0 ->
    map_result this_cpu root v zero_paddr (Z.lor MMU_PROT_READ MMU_PROT_USER) m G H r' m' ->
    demand_result zero_paddr error_code a root v m G H 0 m'
| demand_no_memory :
    ps_alloc this_cpu 0 PAGE_FLAG_ZERO (mm_pages m) = Ok (None, mm_pages m) ->
    demand_result zero_paddr error_code a root v m G H (- ENOMEM) m
| demand_fresh q m1 r' m' :
    has_flag error_code 2 = true \/ zero_paddr = 0 -> H !! q = None -> tables_ok m1 G (<[q := 1%nat]> H) -> same_walks G m m1 ->
    pages_kept H (mm_words m) (mm_words m1) -> (forall i, 0 <= i < 512 -> content (mm_words m1) q i = 0) ->
    map_result this_cpu root v (q * 4096) (demand_flags a) m1 G (<[q := 1%nat]> H) r' m' ->
    demand_result zero_paddr error_code a root v m G H 0 m'.

Lemma demand_page_ok zero_paddr error_code a ctx root v m G H :
  tables_ok m G H -> G !! root = Some 4%nat -> pml4_of ctx m = Ok root -> user v -> page_aligned v -> page_aligned zero_paddr ->
  exists r m', demand_page zero_paddr error_code a ctx v m = Ok (r, m') /\ demand_result zero_paddr error_code a root v m G H r m'.
Proof.
  intros HT Hr Hc Hv Ha Hz; unfold demand_page; case_decide as Hd.
  - destruct Hd as [Hd Hz0]; destruct (map_context_ok this_cpu m G H ctx root v zero_paddr (Z.lor MMU_PROT_READ MMU_PROT_USER) HT Hr Hc Hv Ha Hz)
      as (r & m' & -> & HM); mstep; exists 0, m'; split; [done|]; by eapply demand_zero.
  - destruct (alloc_page_ok m G H PAGE_FLAG_ZERO HT eq_refl) as (r & m1 & -> & Hr1); mstep; destruct r as [q|].
    2: { destruct Hr1 as [-> Hn]; exists (- ENOMEM), m; split; [done|]; by apply demand_no_memory. }
    destruct Hr1 as (Hq & HT1 & Hw1 & Ho1 & Hz1 & Hc1 & _).
    rewrite (page_paddr _ _ q 1%nat (to_pages _ _ _ HT1)) by apply lookup_insert_eq; fold (demand_flags a).
    assert (Hq4 : page_aligned (q * 4096)) by (unfold page_aligned; change PAGE_MASK with (Z.ones 12); by rewrite Z.land_ones, Z.mod_mul by lia).
    assert (Hc' : pml4_of ctx m1 = Ok root) by (unfold pml4_of in *; by rewrite (sc_ctxs _ _ Hc1)).
    destruct (map_context_ok this_cpu m1 G _ ctx root v (q * 4096) (demand_flags a) HT1 Hr Hc' Hv Ha Hq4) as (r & m' & -> & HM); mstep.
    exists 0, m'; split; [done|]; eapply (demand_fresh _ _ _ _ _ _ _ _ q m1); try done; [destruct (has_flag error_code 2); [by left|right; apply dec_stable; tauto]| |by apply Hz1].
    intros p n i Hp Hi; unfold content; rewrite Ho1; [done|]; intros (j & Hj & E); assert (p = q) as -> by lia; congruence.
Qed.

End handler.
