(* ===== verification/VmmFork.v ===== *)
(** * Fork: parent and child do not see each other's writes

    [mmu_clone_user_cow] and the page fault that a write to a shared frame causes, put
    together. *)

From stdpp Require Import base tactics option list numbers gmap.
From Stdlib Require Import ZArith Lia.
From S2P Require Import Prelude Rbtree Vma Pmm PmmSpec SlabMem Slab Mmu MmuWalk MmuInv MmuTables MmuMap MmuUnmap MmuLookup MmuCtx MmuSession MmuCow.
From S2P Require Import Vmm VmmPages VmmFault VmmHandler.

Local Open Scope Z_scope.

(** ** The new entry *)

Lemma desired_frame vma c t : frame_addr t -> Z.land (desired_pte vma t c) PT_ADDR_MASK = t.
Proof.
  intros Ht; unfold desired_pte; cbv zeta; rewrite (frame_mask t) by done.
  set (d := Z.lor (Z.lor (Z.lor (Z.lor t (Z.land c hw_bits)) PT_PRESENT) PT_USER) PT_RW).
  assert (Hd : Z.land d PT_ADDR_MASK = t).
  { unfold d; rewrite !Z.land_lor_distr_l, <- Z.land_assoc; change (Z.land hw_bits PT_ADDR_MASK) with 0.
    change (Z.land PT_PRESENT PT_ADDR_MASK) with 0; change (Z.land PT_USER PT_ADDR_MASK) with 0; change (Z.land PT_RW PT_ADDR_MASK) with 0.
    by rewrite Z.land_0_r, !Z.lor_0_r, (frame_mask t). }
  destruct (has_flag _ _); [rewrite <- Z.land_assoc; by change (Z.land (Z.lnot PT_NX) PT_ADDR_MASK) with PT_ADDR_MASK|].
  rewrite Z.land_lor_distr_l, Hd; change (Z.land PT_NX PT_ADDR_MASK) with 0; by rewrite Z.lor_0_r.
Qed.

Lemma desired_writable vma c t : writable (desired_pte vma t c) = true.
Proof.
  unfold writable, desired_pte, PT_PRESENT, PT_RW; cbv zeta; rewrite !has_flag_bit by lia.
  destruct (has_flag _ _); rewrite ?Z.land_spec, !Z.lor_spec; by rewrite ?orb_true_r, ?andb_true_r.
Qed.

(** ** What a process sees *)

(** The [i]-th word of the small page at [u]. *)
Definition page_view (w : gmap Z Z) (root u i : Z) : option Z :=
  match walk w root u with
  | Some (1%nat, e) => Some (default 0 (w !! (Z.land e PT_ADDR_MASK + 8 * i)))
  | _ => None
  end.

Lemma view_frame w root u i e p : walk w root u = Some (1%nat, e) -> Z.land e PT_ADDR_MASK = p * 4096 ->
  page_view w root u i = Some (content w p i).
Proof. intros Hw He; unfold page_view, content; by rewrite Hw, He. Qed.

Section fork.
Context {St : Type} `{!PageSource St} `{!FrameLaws St} `{!PageRefs St} `{!RefLaws St} `{!PageCounts St} `{!CountLaws St} `{!Machine St} `{!Quiet St}.
Implicit Types m : mmu St.
Implicit Types s : vmm St.

Variable vma_shared : Z -> bool.

(** The page at [u] is one that is copied on a write. *)
Definition private_page m (root u e p : Z) : Prop :=
  walk (mm_words m) root u = Some (1%nat, e) /\ user_page e = true /\ private vma_shared (page_of u) e = Some p.

Lemma private_frame m root u e p : private_page m root u e p -> fr_lookup (Z.land e PT_ADDR_MASK) = Some p.
Proof. intros (_ & _ & Hp); unfold private in Hp; by destruct (vma_shared _). Qed.

Lemma private_sharing m root u e p : private_page m root u e p -> sharing vma_shared m root p (page_of u) = true.
Proof.
  intros (Hw & Hu & Hp); unfold sharing; rewrite (walk_same_down _ _ u) by (intros j Hj; symmetry; by apply page_of_same).
  rewrite Hw, Hu, Hp; by rewrite bool_decide_true.
Qed.

Lemma sharing_counts m G H P v p :
  tables_ok m G H -> G !! P = Some 4%nat -> user v -> sharing vma_shared m P p v = true -> page_of v = v ->
  (0 < sharers vma_shared m P p (pages m P))%nat.
Proof.
  intros HT HP Hv Hs Hpg; unfold sharers; assert (Hin : v ∈ pages m P).
  { unfold sharing in Hs; destruct (walk_upper (mm_words m) (mm_words m) v 4 P) as [[pt Hpt]|[_ Hn]]; [lia|done|..].
    - rewrite <- Hpg; by eapply page_in_slots.
    - destruct (walk (mm_words m) P v) as [[[|[|l]] e]|] eqn:Ew; try done; by destruct (Hn e). }
  destruct (filter _ _) as [|y l] eqn:E; [|cbn; lia]; exfalso.
  assert (Hf : v ∈ filter (fun v => sharing vma_shared m P p v = true) (pages m P)) by (by apply list_elem_of_filter).
  rewrite E in Hf; by apply elem_of_nil in Hf.
Qed.

(** ** After the fork *)

Section after.
(** [m] before the fork, [m1] after it. *)
Variables (m m1 : mmu St) (G H G1 H1 : gmap Z nat) (P C : Z) (ans : gmap Z Z).
Hypothesis HT : tables_ok m G H.
Hypothesis HP : G !! P = Some 4%nat.
Hypothesis HC : G !! C = Some 4%nat.
Hypothesis HPC : P ≠ C.
Hypothesis Hpg : forall p v, user v -> sharing vma_shared m P p v = true -> exists n, H !! p = Some (S n).
Hypothesis HD : cloned vma_shared m G H P C ans m1 G1 H1.

Lemma private_held u e p : user u -> private_page m P u e p -> exists n n1,
  H !! p = Some (S n) /\ H1 !! p = Some (S n1) /\ n1 ≠ 0%nat /\ Z.land e PT_ADDR_MASK = p * 4096.
Proof.
  intros Hu Hpr; pose proof (private_sharing _ _ _ _ _ Hpr) as Hs; assert (Hpu : user (page_of u)) by (by apply page_user).
  destruct (Hpg p (page_of u) Hpu Hs) as [n Hn]; pose proof (cd_refs _ _ _ _ _ _ _ _ _ _ HD p n Hn) as Hr.
  pose proof (sharing_counts m G H P (page_of u) p HT HP Hpu Hs (page_of_idem u)).
  exists n, (n + sharers vma_shared m P p (pages m P))%nat; split_and!; [done|done|lia|].
  apply frame_of_entry; by eapply private_frame.
Qed.

(** The parent's private pages look as before. *)
Lemma parent_view u e p : user u -> private_page m P u e p ->
  exists e1, walk (mm_words m1) P u = Some (1%nat, e1) /\ Z.land e1 PT_ADDR_MASK = p * 4096 /\
    forall i, 0 <= i < 512 -> content (mm_words m1) p i = content (mm_words m) p i.
Proof.
  intros Hu Hpr; destruct (private_held u e p Hu Hpr) as (n & n1 & Hn & _ & _ & He); pose proof Hpr as (Hw & Hup & Hpv).
  exists (parent_after vma_shared (page_of u) e); split_and!.
  - by rewrite (cd_parent _ _ _ _ _ _ _ _ _ _ HD u Hu), Hw.
  - by destruct (cow_readonly vma_shared (page_of u) e p Hup Hpv) as (_ & _ & -> & _).
  - intros i Hi; by apply (cd_pages _ _ _ _ _ _ _ _ _ _ HD p n).
Qed.

(** A write of the child to [v]. *)
Lemma child_write zero a x v e p :
  user v -> Z.land v PAGE_MASK = 0 -> pml4_of (sp_ctx x) m = Ok C -> private_page m P v e p ->
  has_flag (a_flags a) VMA_FLAG_SHARED = false ->
  walk (mm_words m1) C v = Some (1%nat, child_entry vma_shared (page_of v) e) ->
  exists r m2, cow_fault [] zero a x v m1 = Ok (r, m2) /\
    ((r = - ENOMEM /\ m2 = m1) \/
     (r = 0 /\ exists q e2, walk (mm_words m2) C v = Some (1%nat, e2) /\ writable e2 = true /\ Z.land e2 PT_ADDR_MASK = q * 4096 /\
        (forall i, 0 <= i < 512 -> page_view (mm_words m2) C v i = page_view (mm_words m) P v i) /\
        forall j y, 0 <= j < 512 -> let w := <[q * 4096 + 8 * j := y]> (mm_words m2) in
          page_view w C v j = Some y /\
          forall u eu pu i, user u -> 0 <= i < 512 -> private_page m P u eu pu -> page_view w P u i = page_view (mm_words m) P u i)).
Proof.
  intros Hv Ha Hc Hpr Hs Hw; destruct (private_held v e p Hv Hpr) as (n & n1 & Hn & Hn1 & Hn0 & He); pose proof Hpr as (Hwp & Hup & Hpv).
  destruct (cow_readonly vma_shared (page_of v) e p Hup Hpv) as (_ & Hrw & _ & Hfr); set (ce := child_entry _ _ _) in *.
  assert (HC1 : G1 !! C = Some 4%nat) by (eapply lookup_weaken; [exact HC|apply HD]).
  assert (HP1 : G1 !! P = Some 4%nat) by (eapply lookup_weaken; [exact HP|apply HD]).
  assert (Hc1 : pml4_of (sp_ctx x) m1 = Ok C) by (unfold pml4_of in *; by rewrite (proj1 (cd_ctxs _ _ _ _ _ _ _ _ _ _ HD))).
  assert (Hlk : fr_lookup (Z.land ce PT_ADDR_MASK) = Some p) by (rewrite Hfr; by eapply private_frame).
  assert (Hnw : writable ce = false) by (unfold writable; by rewrite Hrw, andb_false_r).
  destruct (cow_fault_ok [] zero a x m1 G1 H1 C v ce p n1 (cd_tables _ _ _ _ _ _ _ _ _ _ HD) HC1 Hv Hc1 Ha Hw Hlk Hn1 Hs)
    as (r & m2 & E & _ & _ & HR); exists r, m2; split; [done|].
  destruct HR as [m2 ?| |q c m2 Hq Hce Hwc _ T2 Pd Pk Hct _|r c m2 Hce _ _ _ Hr]; [done|by left| |].
  2: { destruct Hce as [->|?%elem_of_nil]; [|done]; destruct Hr as [(_ & ? & _)|(_ & _ & ?)]; congruence. }
  destruct Hce as [->|?%elem_of_nil]; [|done]; right; split; [done|].
  set (H2 := <[q := 1%nat]> _) in T2; assert (Hq2 : H2 !! q = Some 1%nat) by apply lookup_insert_eq.
  pose proof (ct_place _ _ _ _ (to_pages _ _ _ T2) Hq2) as Hpl.
  pose proof (desired_writable a ce (q * 4096)) as Hdw; pose proof (desired_frame a ce (q * 4096) Hpl) as Hdf.
  exists q, (desired_pte a (q * 4096) ce); set (d := desired_pte a (q * 4096) ce) in *; clearbody d.
  assert (Hd2 : walk (mm_words m2) C v = Some (1%nat, d)).
  { rewrite (pd_here _ _ _ _ _ _ Pd v Hv) by done; unfold writable in Hdw; by apply andb_true_iff in Hdw as [-> _]. }
  split_and!; try done.
  - intros i Hi; rewrite (view_frame _ _ _ _ _ _ Hd2 Hdf), (view_frame _ _ _ _ _ _ Hwp He), Hct by done.
    f_equal; by apply (cd_pages _ _ _ _ _ _ _ _ _ _ HD p n).
  - intros j y Hj w.
    assert (Hout : forall a0, ~ in_frame q a0 -> w !! a0 = mm_words m2 !! a0).
    { intros a0 Hn'; unfold w; rewrite lookup_insert_ne; [done|]; intros <-; apply Hn'; by exists j. }
    assert (Hww : forall root u, G1 !! root = Some 4%nat -> user u -> walk w root u = walk (mm_words m2) root u)
      by exact (proj2 (frame_words m2 G1 H2 w q T2 ltac:(congruence) Hout)).
    split.
    + rewrite (view_frame w C v j d q); [|by rewrite (Hww C v HC1 Hv)|done]; unfold content, w; by rewrite lookup_insert_eq.
    + intros u eu pu i Hu Hi Hpu; destruct (parent_view u eu pu Hu Hpu) as (e1 & Hw1 & He1 & Hc1').
      destruct (private_held u eu pu Hu Hpu) as (k & k1 & Hk & Hk1 & _ & Heu).
      assert (Hqu : q ≠ pu) by congruence.
      rewrite (view_frame w P u i e1 pu), (view_frame (mm_words m) P u i eu pu); try done; [|apply Hpu|].
      * f_equal; rewrite <- Hc1', <- (Pk pu k1 i Hk1 Hi) by done; unfold content; rewrite Hout; [done|].
        intros (j' & Hj' & Ej); lia.
      * rewrite (Hww P u HP1 Hu), (pd_there _ _ _ _ _ _ Pd P u HP1 Hu); [done|tauto].
Qed.

End after.
End fork.
