(* ===== verification/VmmMap.v ===== *)
(** * Address spaces: [vmm_map]

    A new mapping is one more area of the space, apart from the others. *)

From stdpp Require Import base tactics option list numbers gmap.
From Stdlib Require Import ZArith Lia.
From S2P Require Import Prelude Rbtree RbtreeSpec Vma VmaSpec VmaInsert VmaSearch Pmm SlabMem Slab Mmu Vmm.

Local Open Scope Z_scope.

(** ** A new area, not in the tree yet *)

Lemma outside_ok v t k nd a :
  vmas_ok v t -> k ∉ elems t -> vs_areas v !! k = None -> a_next a = 0 ->
  vmas_ok (mkVmas (vs_head v) (mkRb (rb_root (vs_rb v)) (<[k := nd]> (rb_heap (vs_rb v))) (<[k := a]> (vs_areas v)))) t.
Proof.
  intros [[R1 R2 R3 R4 R5 R6] Hrb Hcl Hhd Hlk Hord] Hk Hn Ha.
  assert (Hne : forall x, x ∈ elems t -> <[k := a]> (vs_areas v) !! x = vs_areas v !! x).
  { intros x Hx; rewrite lookup_insert_ne; [done|]; intros ->; done. }
  split; cbn [vs_rb vs_head rb_root rb_heap rb_data]; try done.
  - split; cbn; try done.
    + eapply shape_ext; [|exact R2]; intros x Hx; rewrite lookup_insert_ne; [done|]; intros ->; done.
    + intros x Hx; unfold adom; rewrite Hne by done; by apply R5.
  - intros p b; destruct (decide (p = k)) as [->|Hp]; [rewrite lookup_insert_eq; intros [= <-]; by left|].
    rewrite lookup_insert_ne by done; intros Hb; destruct (Hcl p b Hb) as [?|Hs]; [by left|right].
    destruct (decide (a_next b = k)) as [->|]; [rewrite lookup_insert_eq; eauto|by rewrite lookup_insert_ne].
  - eapply linked_ext; [|exact Hlk]; intros x Hx; unfold lnk; by rewrite Hne.
  - eapply ordered_ext; [|exact Hord]; intros x Hx; unfold ival; by rewrite Hne.
Qed.

Lemma aligned_down x : 0 <= x < 2 ^ 63 -> x mod 4096 = 0 -> andnot x Vma.PAGE_MASK = x.
Proof.
  intros Hx Hm; change Vma.PAGE_MASK with (2 ^ 12 - 1); rewrite andnot_mask by lia; change (2 ^ 12) with 4096.
  pose proof (Z.div_mod x 4096); lia.
Qed.

Lemma page_round_up x : 0 <= x <= 2 ^ 62 -> page_round x = up 4096 x.
Proof. intros Hx; unfold page_round; change PAGE_MASK with (2 ^ 12 - 1); rewrite VmaSearch.align_up by lia; done. Qed.

Lemma up_same x : x mod 4096 = 0 -> up 4096 x = x.
Proof.
  intros Hm; unfold up; pose proof (Z.div_mod x 4096); replace (x + 4096 - 1) with (4095 + (x / 4096) * 4096) by lia.
  rewrite Z.div_add by lia; change (4095 / 4096) with 0; lia.
Qed.

Section map.
Context {St : Type} `{!PageSource St} `{!PageRefs St} `{!PageCounts St} `{!Machine St}.
Implicit Types s : vmm St.

(** A space in order below 2^47, with a free address [k] for one more area. *)
Record maps_in s (sp : Z) (x : space) (t : tree) (k : Z) : Prop := {
  mi_space : sp ≠ 0 /\ vm_spaces s !! sp = Some x;
  mi_areas : vmas_ok (sp_vmas x) t /\ ordered (vs_areas (sp_vmas x)) 0 (elems t) (2 ^ 47) /\ (S (length (elems t)) < steps)%nat;
  mi_range : 0 < sp_mmap_base x < sp_mmap_end x /\ sp_mmap_end x <= 2 ^ 47 /\ sp_mmap_base x mod 4096 = 0;
  mi_fresh : k ∉ elems t /\ vs_areas (sp_vmas x) !! k = None /\ rb_heap (vs_rb (sp_vmas x)) !! k = None
}.

Definition map_type (flags file : Z) : Z :=
  if decide (file <> 0) then if has_flag flags VMA_FLAG_SHARED then VMA_TYPE_SHM else VMA_TYPE_FILE else VMA_TYPE_ANON.

Definition map_flags (prot flags : Z) : Z :=
  let f := vma_prot prot in
  let f := if has_flag flags MMU_FLAG_COW then Z.lor f VMA_FLAG_COW else f in
  if has_flag flags VMA_FLAG_SHARED then Z.lor f VMA_FLAG_SHARED else f.

(** The new area. *)
Definition map_area (start len prot flags file offset : Z) : vm_area :=
  mkArea start (start + len) (map_type flags file) (map_flags prot flags) file offset 0 0 0 0.

(** Nothing fits: the hint is out of range or taken, or there is no gap. *)
Definition no_room (x : space) (t : tree) (hint len : Z) : Prop :=
  if decide (hint = 0) then
    forall c, c mod 4096 = 0 -> sp_mmap_base x <= c -> c + len <= sp_mmap_end x ->
      exists y, y ∈ elems t /\ meets (vs_areas (sp_vmas x)) c len y
  else hint < 0x10000 \/ hint + len > sp_mmap_end x \/ exists y, y ∈ elems t /\ meets (vs_areas (sp_vmas x)) hint len y.

(** [r] is the start of a new area that meets no other; the other areas are as before. *)
Record mapped (x : space) (t : tree) (k r hint len prot flags file offset : Z) (x' : space) (t' : tree) : Prop := {
  mp_place : r mod 4096 = 0 /\ r + len <= sp_mmap_end x /\ (hint = 0 -> sp_mmap_base x <= r) /\ (hint ≠ 0 -> r = hint /\ 0x10000 <= r);
  mp_free : forall y, y ∈ elems t -> ~ meets (vs_areas (sp_vmas x)) r len y;
  mp_rest : x' = with_vmas (sp_vmas x') x;
  mp_ok : vmas_ok (sp_vmas x') t';
  mp_elems : exists l1 l2, elems t = l1 ++ l2 /\ elems t' = l1 ++ k :: l2;
  mp_area : core <$> vs_areas (sp_vmas x') !! k = Some (core (map_area r len prot flags file offset));
  mp_others : forall y, y ≠ k -> core <$> vs_areas (sp_vmas x') !! y = core <$> vs_areas (sp_vmas x) !! y
}.

(** The area is made and inserted, or there is no memory or no room for it. *)
Lemma map_at_ok s sp x t k start len prot flags file offset :
  maps_in s sp x t k -> 0 < start -> start mod 4096 = 0 -> 0 < len -> len mod 4096 = 0 -> start + len <= 2 ^ 62 ->
  let v := sp_vmas x in
  exists r s',
    (let '(vma, rb) := vma_create k start (u64 (start + len)) (map_type flags file) (map_flags prot flags) (vs_rb v) in
     if decide (vma = 0) then Ok (0, s)
     else
       v ← vmas_upd (mkVmas (vs_head v) rb) vma (fun a => with_file a file offset);
       '(ok, v) ← vma_insert steps vma v;
       if (ok : bool) then Ok (start, set_space sp (with_vmas v x) s)
       else Ok (0, set_space sp (with_vmas (mkVmas (vs_head v) (vma_destroy vma (vs_rb v))) x) s)) = Ok (r, s') /\
    ((r = 0 /\ s' = s /\ (k = 0 \/ exists y, y ∈ elems t /\ meets (vs_areas v) start len y)) \/
     (r = start /\ exists v' t', s' = set_space sp (with_vmas v' x) s /\ vmas_ok v' t' /\
        (exists l1 l2, elems t = l1 ++ l2 /\ elems t' = l1 ++ k :: l2) /\ (forall y, y ∈ elems t -> ~ meets (vs_areas v) start len y) /\
        core <$> vs_areas v' !! k = Some (core (map_area start len prot flags file offset)) /\
        forall y, y ≠ k -> core <$> vs_areas v' !! y = core <$> vs_areas v !! y)).
Proof.
  intros [[Hsp Hx] (Hv & _ & Hst) _ (F1 & F2 & F3)] H0 Hm Hl Hlm Hb v; fold v in Hv, F2, F3.
  assert (Hmod : (start + len) mod 4096 = 0) by (rewrite Z.add_mod, Hm, Hlm by lia; done).
  unfold vma_create; rewrite (u64_small (start + len)) by lia; rewrite (aligned_down start) by lia.
  change (andnot (u64 (start + len + Vma.PAGE_MASK)) Vma.PAGE_MASK) with (page_round (start + len)).
  rewrite page_round_up, up_same by (done || lia); rewrite decide_False by lia.
  destruct (decide (k = 0)) as [Hk|Hk]; [rewrite Hk; cbn; exists 0, s; split; [done|left; auto]|]; rewrite (decide_False (P := k = 0)) by done.
  set (a := map_area start len prot flags file offset).
  set (nd := mkNode 0 0 0 RB_RED).
  set (v1 := mkVmas (vs_head v) (mkRb (rb_root (vs_rb v)) (<[k := nd]> (rb_heap (vs_rb v))) (<[k := a]> (vs_areas v)))).
  assert (Eu : vmas_upd (mkVmas (vs_head v) (mkRb (rb_root (vs_rb v)) (<[k := nd]> (rb_heap (vs_rb v)))
      (<[k := mkArea start (start + len) (map_type flags file) (map_flags prot flags) 0 0 0 0 0 0]> (vs_areas v)))) k
      (fun a => with_file a file offset) = Ok v1).
  { unfold vmas_upd; cbn [vs_rb vs_head rb_root rb_heap rb_data]; rewrite (area_upd_some _ k _ _ Hk (lookup_insert_eq _ _ _)); mstep; unfold v1, set_areas; cbn; by rewrite insert_insert_eq. }
  rewrite Eu; mstep; assert (Hv1 : vmas_ok v1 t) by (by apply outside_ok).
  assert (Ha : vs_areas v1 !! k = Some a) by apply lookup_insert_eq.
  assert (Ho : forall y, y ∈ elems t -> overlaps (vs_areas v1) a y <-> meets (vs_areas v) start len y).
  { intros y Hy; unfold overlaps, meets; cbn; rewrite lookup_insert_ne by (intros ->; done).
    split; intros (b & Eb & ?); exists b; split; try done; cbn in *; lia. }
  destruct (insert_ordered steps k a v1 t Hv1 Hst Hk F1 Ha) as [[E (y & Hy & Hov)]|(v' & t' & l1 & l2 & E & V1 & V2 & V3 & V4 & V5)];
    [cbn; lia|cbn; lia|..]; rewrite E; mstep.
  - exists 0, s; split; [|left; split_and!; auto; right; exists y; split; [done|by apply Ho]].
    do 2 f_equal; unfold vma_destroy; rewrite decide_False by done; unfold v1; cbn [vs_rb vs_head rb_root rb_heap rb_data].
    rewrite !delete_insert_id by done; destruct s, x; unfold set_space, with_spaces, with_vmas; cbn in *; f_equal.
    apply insert_id; rewrite Hx; do 2 f_equal; by destruct sp_vmas as [? []].
  - exists start, (set_space sp (with_vmas v' x) s); split; [done|right]; split; [done|]; exists v', t'; split_and!; try done; [by exists l1, l2|..].
    + intros y Hy Hm'; by apply (V5 y Hy), Ho.
    + rewrite <- (V4 k), Ha; done.
    + intros y Hy; rewrite <- (V4 y); unfold v1; cbn; by rewrite lookup_insert_ne.
Qed.

(** Where the area goes. *)
Lemma map_place_ok s sp x t k hint len :
  maps_in s sp x t k -> 0 <= hint <= 2 ^ 47 -> hint mod 4096 = 0 -> 0 < len <= 2 ^ 47 -> len mod 4096 = 0 ->
  exists start, map_place x hint len = Ok start /\
    ((start = 0 /\ no_room x t hint len) \/
     (0 < start /\ start mod 4096 = 0 /\ start + len <= sp_mmap_end x /\ (hint = 0 -> sp_mmap_base x <= start /\ forall y, y ∈ elems t -> ~ meets (vs_areas (sp_vmas x)) start len y) /\
      (hint ≠ 0 -> start = hint /\ 0x10000 <= start))).
Proof.
  intros [_ (Hv & Ho & Hst) Hr _] Hh Hhm Hl Hlm; unfold map_place, no_room; destruct (decide (hint = 0)) as [->|Hh0].
  - destruct (decide (len > sp_mmap_end x - sp_mmap_base x)) as [Hbig|Hfit].
    { exists 0; split; [|left; split; [done|]; intros c _ Hc Hc'; lia].
      unfold vma_find_unmapped_area; rewrite decide_True by lia; done. }
    destruct (find_unmapped_exact steps (sp_mmap_base x) (sp_mmap_end x) len PAGE_SIZE 12 (sp_vmas x) t) as (r & E & H1 & H2);
      [done|eapply ordered_weaken; [exact Ho|lia|lia]|lia|lia|lia|lia|done|lia|].
    exists r; split; [exact E|]; change Vma.PAGE_SIZE with 4096 in *; rewrite up_same in * by done; change (2 ^ 12) with 4096 in *.
    destruct (decide (r = 0)) as [->|Hr0]; [left; split; [done|]; intros c; apply (H2 c); by left|right].
    destruct (H1 Hr0) as (Hm & Hmin & Hmax & Hfree); split; [lia|split; [done|]; split; [|done]].
    destruct Hmax as [?|[-> _]]; [done|]; rewrite up_same by tauto; lia.
  - destruct (decide (hint < 0x10000 \/ u64 (hint + len) > sp_mmap_end x)) as [Hb|Hb]; rewrite u64_small in Hb by lia.
    + exists 0; split; [done|left]; split; [done|]; tauto.
    + exists hint; split; [done|right]; split; [lia|]; split; [done|]; split; [lia|]; split; [by intros ?|lia].
Qed.

Lemma vmm_map_ok s sp x t k hint length prot flags file offset :
  maps_in s sp x t k -> 0 <= hint <= 2 ^ 47 -> hint mod 4096 = 0 -> 0 < length <= 2 ^ 46 ->
  let len := up 4096 length in
  exists r s', vmm_map k sp hint length prot flags file offset s = Ok (r, s') /\
    ((r = 0 /\ s' = s /\ (k = 0 \/ no_room x t hint len)) \/
     (r ≠ 0 /\ exists x' t', s' = set_space sp x' s /\ mapped x t k r hint len prot flags file offset x' t')).
Proof.
  intros HM Hh Hhm Hl len; destruct (up_spec 4096 length ltac:(lia)) as [Hlen Hlm]; fold len in Hlen, Hlm; unfold vmm_map.
  destruct (mi_space _ _ _ _ _ HM) as [Hsp Hx]; rewrite decide_False by lia; cbv zeta; rewrite page_round_up by lia; fold len.
  unfold space_at; rewrite (decide_False (P := sp = 0)), Hx by done; cbn [of_opt]; mstep.
  destruct (map_place_ok s sp x t k hint len HM Hh Hhm ltac:(lia) Hlm) as (start & -> & Hst); mstep.
  pose proof (mi_range _ _ _ _ _ HM) as Hrange; destruct Hst as [[-> Hno]|(Hs & Hsm & Hse & Hs0 & Hs1)]; [rewrite decide_True by done; exists 0, s; split; [done|left; auto]|].
  rewrite decide_False by lia; fold (map_flags prot flags); fold (map_type flags file).
  destruct (map_at_ok s sp x t k start len prot flags file offset HM ltac:(lia) Hsm ltac:(lia) Hlm ltac:(lia)) as (r & s' & E & HR).
  cbv zeta in E; exists r, s'; split; [exact E|].
  destruct HR as [(-> & -> & Hno)|(-> & v' & t' & -> & V1 & V2 & V3 & V4 & V5)]; [left; split_and!; auto|right].
  - destruct Hno as [?|(y & Hy & Hm)]; [by left|right]; unfold no_room; case_decide as Hd; [by destruct (proj2 (Hs0 Hd) y Hy)|].
    rewrite <- (proj1 (Hs1 Hd)); right; right; by exists y.
  - split; [lia|]; exists (with_vmas v' x), t'; split; [done|]; split; cbn; try done; split; [done|]; split; [done|]; split; [intros Hd; by apply Hs0|done].
Qed.

End map.
