(* ===== verification/VmmTheorems.v ===== *)
(** * Address spaces and page faults: the theorems *)

From stdpp Require Import base tactics option list numbers gmap.
From Stdlib Require Import ZArith Lia.
From S2P Require Import Prelude Rbtree RbtreeSpec Vma VmaSpec Pmm PmmSpec PmmBoot SlabMem Slab Mmu MmuWalk MmuInv MmuTables MmuMap MmuUnmap MmuLookup MmuCtx MmuPmm MmuSession MmuCow MmuTheorems.
From S2P Require Import VmaSearch Vmm VmmPages VmmFault VmmHandler VmmFork VmmMap.

Local Open Scope Z_scope.

Section faults.
Context {St : Type} `{!PageSource St} `{!FrameLaws St} `{!PageRefs St} `{!RefLaws St} `{!PageCounts St} `{!CountLaws St} `{!Machine St} `{!Quiet St}.
Implicit Types m : mmu St.
Implicit Types s : vmm St.


(** The first access to a page of an area.  A fault that the area does not allow is
    refused and changes nothing.  A read maps the page of zeros, read-only; a write maps
    a fresh frame of zeros with the rights of the area; without a frame the answer is
    -ENOMEM and nothing has changed. *)
Theorem vmm_demand_fault_spec (seen : list Z) s (G H : gmap Z nat) (sp f error_code : Z) (rsp : option Z) x a root :
  faults_in s sp f x a -> has_flag error_code 1 = false ->
  tables_ok (vm_mmu s) G H -> G !! root = Some 4%nat -> pml4_of (sp_ctx x) (vm_mmu s) = Ok root -> page_aligned (vm_zero_paddr s) ->
  if refused error_code a then vmm_handle_page_fault seen sp f error_code rsp s = Ok (- EACCES, s)
  else exists r m', vmm_handle_page_fault seen sp f error_code rsp s = Ok (r, with_mmu m' s) /\
    demand_result (vm_zero_paddr s) error_code a root (andnot f PAGE_MASK) (vm_mmu s) G H r m'.
Proof.
  intros HF H1 HT Hg Hc Hz; rewrite (fault_found seen sp f error_code rsp s x a HF), H1; cbn [negb].
  destruct (refused error_code a); [done|].
  destruct (fi_addr _ _ _ _ _ HF) as [Hf Hu]; destruct (page_base f ltac:(lia)) as [Hsd Hal].
  assert (Hv : user (andnot f PAGE_MASK)) by (by eapply same_user; [|exact Hsd|]; [lia|]).
  destruct (demand_page_ok (vm_zero_paddr s) error_code a (sp_ctx x) root _ (vm_mmu s) G H HT Hg Hc Hv Hal Hz) as (r & m' & -> & HR).
  mstep; by exists r, m'.
Qed.

(** C10: Fork isolates.  Let the parent's private pages be frames in use whose reference
    counts have room for one more reference per page.  After [mmu_clone_user_cow], take a
    write fault of the child, on one CPU, on a small private page that it got from the parent, in
    an area that is not shared and allows the write.  The handler answers it with a frame
    of the child's own, writable and with the words that the parent's page had before the
    fork, or with -ENOMEM, having changed nothing.  Whatever word the child then writes to
    the page it reads back, and every private page of the parent reads as before the
    fork. *)
Theorem vmm_fork_isolated (vma_shared : Z -> bool) m (G H : gmap Z nat) (pctx cctx P C : Z) s (sp f error_code : Z) (rsp : option Z) x a e p :
  tables_ok m G H -> G !! P = Some 4%nat -> G !! C = Some 4%nat -> P ≠ C ->
  pctx ≠ 0 -> cctx ≠ 0 -> pml4_of pctx m = Ok P -> pml4_of cctx m = Ok C ->
  (forall p v, user v -> sharing vma_shared m P p v = true -> exists n, H !! p = Some (S n)) ->
  room vma_shared m H P (pages m P) [] ->
  faults_in s sp f x a -> sp_ctx x = cctx -> has_flag error_code 1 = true -> has_flag error_code 2 = true ->
  refused error_code a = false -> has_flag (a_flags a) VMA_FLAG_SHARED = false ->
  let v := andnot f PAGE_MASK in
  private_page vma_shared m P v e p ->
  exists m1, mmu_clone_user_cow vma_shared this_cpu pctx cctx m = Ok (0, m1) /\
    (walk (mm_words m1) C v = Some (1%nat, child_entry vma_shared (page_of v) e) ->
     exists r m2, vmm_handle_page_fault [] sp f error_code rsp (with_mmu m1 s) = Ok (r, with_mmu m2 s) /\
       ((r = - ENOMEM /\ m2 = m1) \/
        (r = 0 /\ exists q e2, walk (mm_words m2) C v = Some (1%nat, e2) /\ writable e2 = true /\ Z.land e2 PT_ADDR_MASK = q * 4096 /\
           (forall i, 0 <= i < 512 -> page_view (mm_words m2) C v i = page_view (mm_words m) P v i) /\
           forall j y, 0 <= j < 512 -> let w := <[q * 4096 + 8 * j := y]> (mm_words m2) in
             page_view w C v j = Some y /\
             forall u eu pu i, user u -> 0 <= i < 512 -> private_page vma_shared m P u eu pu ->
               page_view w P u i = page_view (mm_words m) P u i))).
Proof.
  intros HT HP HC HPC Hp0 Hc0 Hp Hc Hpg Hroom HF Hx H1 H2 Hr Hs v Hpr.
  destruct (clone_ok vma_shared this_cpu m G H P C HT HP HC HPC Hpg pctx cctx Hp0 Hc0 Hp Hc Hroom) as (ans & m0 & m1 & G' & H' & _ & E & _ & HD).
  exists m1; split; [done|]; intros Hw; destruct (fi_addr _ _ _ _ _ HF) as [Hf Hu]; destruct (page_base f ltac:(lia)) as [Hsd Hal].
  assert (Hv : user v) by (by eapply same_user; [|exact Hsd|]; [lia|]).
  assert (HF1 : faults_in (with_mmu m1 s) sp f x a) by (destruct HF; by split).
  rewrite (fault_found [] sp f error_code rsp _ x a HF1), Hr, H1, H2; cbn [negb vm_mmu with_mmu vm_zero]; fold v.
  destruct (child_write vma_shared m m1 G H G' H' P C ans HT HP HC HPC Hpg HD (vm_zero s) a x v e p Hv Hal) as (r & m2 & -> & HR); try done; [by rewrite Hx|].
  mstep; by exists r, m2.
Qed.


End faults.

(** ** A small machine *)

Section demo.
#[local] Existing Instance tiny_kernel.
#[local] Existing Instance tiny_laws.

#[local] Instance tiny_machine : Machine pmm := { this_cpu := 0%nat; pause m := m; lapic_id c := c; proc_ctx := 0; steps := 9%nat }.

#[local] Instance tiny_quiet : Quiet pmm.
Proof. split; try done; intros m; by exists []. Qed.

#[local] Instance tiny_refs : RefLaws pmm := pmm_ref_laws (BF := loader_frame tiny_ram tiny_root).
#[local] Instance tiny_counts : CountLaws pmm := pmm_count_laws (BF := loader_frame tiny_ram tiny_root).

(** A space with one page of private memory at 0x400000. *)
Definition one_area : vm_area := mkArea 0x400000 0x401000 VMA_TYPE_ANON 0x13 0 0 0 0 0 0.
Definition one_vmas : vma_state := mkVmas 10 (mkRb 10 {[ 10 := mkNode 0 0 0 RB_BLACK ]} {[ 10 := one_area ]}).
Definition one_space (ctx : Z) : space := Space ctx one_vmas 0 1 USER_MMAP_BASE USER_MMAP_END 0 0.
Definition one_vmm (ctx : Z) (m : mmu pmm) : vmm pmm := Vmm m {[ 0xE000 := one_space ctx ]} 0xF000 None 0.

Lemma one_vmas_ok : vmas_ok one_vmas (Node RB_BLACK Leaf 10 Leaf).
Proof.
  split.
  - split; [done|repeat split|apply (bool_decide_unpack _); by vm_compute
      |apply (bool_decide_unpack _); by vm_compute| |reflexivity].
    intros x Hx; simpl in Hx; apply list_elem_of_singleton in Hx as ->; by eexists.
  - split; [done|]; exists 1%nat; repeat constructor.
  - intros p a E; cbn in E; apply lookup_singleton_Some in E as [<- <-]; by left.
  - done.
  - repeat (eexists; split; [done|]; split; [done|]; split; [done|]); done.
  - repeat (eexists; split; [done|]; split; [simpl; lia|]); simpl; lia.
Qed.

Lemma one_faults ctx m : faults_in (one_vmm ctx m) 0xE000 0x400123 (one_space ctx) one_area.
Proof.
  split; [by split|split; [lia|done]|]; exists (Node RB_BLACK Leaf 10 Leaf), 10; split; [apply one_vmas_ok|].
  split; [cbn; lia|]; split; [by left|]; split; [done|cbn; lia].
Qed.


Lemma vmm_demand_fault_spec_witness : exists (m : mmu pmm) G H root r m',
  vmm_handle_page_fault [] 0xE000 0x400123 2 None (one_vmm 0xD000 m) = Ok (r, with_mmu m' (one_vmm 0xD000 m)) /\
  demand_result 0 2 one_area root 0x400000 m G H r m'.
Proof.
  destruct tiny_fork as (m & G & H & P & C & p & HT & _ & HC & _ & _ & HpC & _).
  destruct (vmm_demand_fault_spec [] (one_vmm 0xD000 m) G H 0xE000 0x400123 2 None (one_space 0xD000) one_area C
    (one_faults 0xD000 m) eq_refl HT HC HpC eq_refl) as (r & m' & E & HR).
  exists m, G, H, C, r, m'; split; [exact E|exact HR].
Defined.

Lemma vmm_fork_isolated_witness : exists (m m1 : mmu pmm) P C e p r m2,
  private_page (fun _ => false) m P 0x400000 e p /\
  mmu_clone_user_cow (fun _ => false) 0 0xC000 0xD000 m = Ok (0, m1) /\ is_Some (walk (mm_words m1) C 0x400000) /\
  vmm_handle_page_fault [] 0xE000 0x400123 3 None (with_mmu m1 (one_vmm 0xD000 m)) = Ok (r, with_mmu m2 (one_vmm 0xD000 m)).
Proof.
  destruct tiny_fork as (m & G & H & P & C & p & HT & HP & HC & HPC & HpP & HpC & Hh & Hfa & Hfl & Hw & _ & HwC & m' & El).
  destruct (tiny_leaf p Hfa) as (He & Hu & _); set (e := leaf_entry (p * 4096) tiny_flags) in *.
  destruct (tiny_room m H P p e Hh He Hfl Hw) as [Hpg Hroom].
  assert (Hpr : private_page (fun _ => false) m P 0x400000 e p).
  { split; [by rewrite Hw, decide_True by done|]; split; [done|]; unfold private; by rewrite He. }
  destruct (clone_ok (fun _ => false) 0 m G H P C HT HP HC HPC Hpg 0xC000 0xD000 ltac:(lia) ltac:(lia) HpP HpC Hroom) as (ans & m0 & m1 & G' & H' & _ & Ec & _ & HD).
  unfold tiny_clone in El; rewrite Ec in El; cbn [mbind res_bind] in El.
  unfold pml4_of in El, HpC; rewrite (proj1 (cd_ctxs _ _ _ _ _ _ _ _ _ _ HD)), HpC in El; cbn [mbind res_bind] in El; injection El as Hs <-.
  apply bool_decide_eq_true in Hs; pose proof (cd_child _ _ _ _ _ _ _ _ _ _ HD 0x400000 eq_refl) as Hch.
  destruct (vmm_fork_isolated (fun _ => false) m G H 0xC000 0xD000 P C (one_vmm 0xD000 m) 0xE000 0x400123 3 None
    (one_space 0xD000) one_area e p HT HP HC HPC ltac:(lia) ltac:(lia) HpP HpC Hpg Hroom (one_faults 0xD000 m)
    eq_refl eq_refl eq_refl eq_refl eq_refl Hpr) as (m1' & E & HI).
  change this_cpu with 0%nat in E; rewrite Ec in E; injection E as <-; destruct HI as (r & m2 & Ef & _).
  - change (walk (mm_words m1) C 0x400000 = Some (1%nat, child_entry (fun _ => false) (page_of 0x400000) e)).
    rewrite HwC in Hch; rewrite Hch in Hs |- *; destruct (visible m P 0x400000); [|by destruct Hs].
    destruct (decide (ans !! _ = _)); [|by destruct Hs]; by rewrite Hw, decide_True by done.
  - exists m, m1, P, C, e, p, r, m2; split; [exact Hpr|]; split; [exact Ec|]; split; [exact Hs|exact Ef].
Defined.


(** A fork, and a write of the child to the page, which holds 77 in word 5: the answers, what
    parent and child see, and the references to the old frame. *)
Definition fork_run : res (Z * Z * option Z * option Z * option bool * Z) :=
  tiny_mmu (fun m =>
    '(_, m) ← play tiny_pair m;
    '(p, _, m) ← tiny_page m;
    let m := with_words (<[p * 4096 + 8 * 5 := 77]> (mm_words m)) m in
    '(c, m) ← mmu_clone_user_cow (fun _ => false) 0 0xC000 0xD000 m;
    '(r, s) ← vmm_handle_page_fault [] 0xE000 0x400123 3 None (one_vmm 0xD000 m);
    let m := vm_mmu s in
    P ← pml4_of 0xC000 m;
    C ← pml4_of 0xD000 m;
    n ← ps_refcount (mm_pages m) p;
    Ok (c, r, page_view (mm_words m) P 0x400000 5, page_view (mm_words m) C 0x400000 5,
        match walk (mm_words m) C 0x400000 with Some (_, e) => Some (writable e && negb (bool_decide (Z.land e PT_ADDR_MASK = p * 4096))) | None => None end, n)).

Lemma fork_run_ok : fork_run = Ok (0, 0, Some 77, Some 77, Some true, 1).
Proof. by vm_compute. Qed.

(** A page is made read-only with [vmm_protect] and then written to: the answer of the fault,
    and the right to write in the entry. *)
Definition protect_run (flags : Z) : res (Z * Z * option bool) :=
  tiny_mmu (fun m =>
    '(_, m) ← play tiny_pair m;
    '(_, _, m) ← tiny_page m;
    let a := with_flags one_area flags in
    let x := with_vmas (mkVmas 10 (mkRb 10 {[ 10 := mkNode 0 0 0 RB_BLACK ]} {[ 10 := a ]})) (one_space 0xC000) in
    let s := Vmm m {[ 0xE000 := x ]} 0xF000 None 0 in
    '(c, s) ← vmm_protect 0xE000 0x400000 4096 MMU_PROT_READ s;
    '(r, s) ← vmm_handle_page_fault [] 0xE000 0x400123 3 None s;
    P ← pml4_of 0xC000 (vm_mmu s);
    Ok (c, r, match walk (mm_words (vm_mmu s)) P 0x400000 with Some (_, e) => Some (writable e) | None => None end)).

(** Memory that was made read-only can be written to if the process has forked before:
    [vmm_protect] leaves [VMA_FLAG_COW] in the area, which lets the fault pass. *)
Lemma vmm_protect_after_fork : protect_run 0x3 = Ok (0, - EACCES, Some false) /\ protect_run 0x13 = Ok (0, 0, Some true).
Proof. split; by vm_compute. Qed.

End demo.
